(* ===== verification/_CoqProject ===== *)
-Q . S2P
Prelude.v
PlockRange.v
Plock.v
PlockThm.v
PlockCkpt.v
PlockSafe.v
PlockWire.v
Deadlock.v
DeadlockThm.v
DlmCpg.v
DlmCpgThm.v
Fenced.v
FencedThm.v
GfsMount.v
GfsMountThm.v
GfsJournals.v
CmanQuorum.v
CmanThm.v
CStrings.v
QDisk.v
QDiskThm.v
QDiskViews.v
QDiskElect.v
QDiskConf.v
DiskHash.v
QDiskBlock.v
Gfs2Bits.v
Gfs2BitsThm.v
Gfs2Rgrp.v
Gfs2RgrpThm.v
Gfs2LayoutThm.v
Gfs2FsckThm.v
Gfs2Sample.v
Gfs2Field.v
Gfs2Log.v
Gfs2LogHead.v
Gfs2Replay.v
Gfs2Recover.v
Gfs2File.v
Gfs2FilePath.v
Gfs2FileTree.v
Gfs2FileMap.v
Gfs2FileHeight.v
Gfs2FileThm.v
Gfs2FileDisk.v
Gfs2Dinode.v
Gfs2Dir.v
Gfs2DirRec.v
Gfs2DirThm.v
Gfs2DirInit.v
Gfs2DirHash.v
Gfs2DirLeaf.v
Gfs2DirSplit.v
Gfs2DirSample.v
RgSets.v
RgState.v
RgStateThm.v
RgDomain.v
RgDomainThm.v
