(* ===== verification/Prelude.v ===== *)
(** * A verification of the cluster suite

    The sources under [src/] are the Red Hat cluster suite: daemons that keep a
    group of machines in agreement (cman, fenced, groupd, dlm_controld,
    gfs_controld, qdiskd, rgmanager), the tools of the GFS and GFS2 file systems
    and their libraries.  This development models the parts that carry the
    agreement and proves what the rest of the suite relies on.

    ** The parts and how they interact

    cman counts the votes of the nodes that are present and says whether the
    partition has quorum; qdiskd adds the votes of a shared disk, on which the nodes elect a
    master.  fenced cuts failed nodes off: the members of the fence
    domain agree on a master, which runs the agents on the victims.  dlm_controld runs one
    process group per lockspace of the kernel's lock manager: on every change of
    its members it stops the lockspace, waits for fencing and quorum, agrees
    with the other members on the change and starts the lockspace again.  The
    same daemon keeps the POSIX byte-range locks ("plocks") of the files of
    cluster file systems: requests are messages that all nodes receive in the same
    order and apply to their own copy; a node that joins gets the copy through
    a checkpoint.  On request it also looks for deadlocks between the
    transactions that hold locks of the lock manager.  gfs_controld runs one process
    group per mounted file system: it assigns journals to the mounting nodes, blocks
    the file system when a node fails, after dlm_controld has seen the failure, and has
    the journals of failed nodes recovered.  rgmanager runs services: the nodes share a record
    of each service under a lock of the cluster, failover domains say which nodes may run it,
    and a node that is left takes over what a failed one ran.  libgfs2 is the library of the
    tools that make, grow and check GFS2 file systems: resource groups with bitmaps that give
    every block a state, journals that are replayed after a failure, and files, whose blocks
    are reached through trees of pointers.

    ** The files

    - [Prelude]: machine integers, allocation, tactics and list lemmas.
    - [PlockRange]: the byte ranges of [group/dlm_controld/plock.c]: overlap
      types, shrinking and splitting, [lock_internal], [unlock_internal],
      [is_conflict], against the specification of a file as a function from
      bytes to holders.
    - [Plock], [PlockThm]: the resources, waiters, owners and messages of
      [plock.c] ([do_lock], [do_unlock], [do_get], [do_waiters],
      [receive_plock], [receive_own], [receive_sync], [receive_drop],
      [process_plocks], purging), as functions on a lockspace and a world
      with the list of effects.
    - [PlockCkpt]: [store_plocks], [retrieve_plocks] and the encoding of
      resources in checkpoint sections.  [PlockSafe] has the executions of a cluster of
      lockspaces that write and read checkpoints.
    - [PlockWire]: byte orders and the structures sent, with the class
      [Struct] of what a structure promises to the transmission.
    - [Deadlock], [DeadlockThm]: [group/dlm_controld/deadlock.c].
    - [DlmCpg], [DlmCpgThm]: the membership changes of
      [group/dlm_controld/cpg.c].
    - [Fenced], [FencedThm]: the fence domain of [fence/fenced/cpg.c] and
      [recover.c], with the view of cman in [member_cman.c].
    - [GfsMount]: the mount groups of [group/gfs_controld/cpg-new.c], as a state
      monad over one mount group and its effects, with a step per event.
      [GfsMountThm] has the invariant of its executions, [GfsJournals] compares the
      journals of old and new members.
    - [CmanQuorum], [CmanThm]: nodes, votes, quorum and transitions of
      [cman/daemon/commands.c], and the node list of [cmanconfig.c].
    - [CStrings]: functions of the C library on strings and the answers of the cluster
      configuration, for the daemons that read it.
    - [QDisk]: a turn of the main loop of [cman/qdisk/main.c] with the scores of [score.c] and
      the masks of [bitmap.c].  [QDiskThm] writes a turn as a function, [QDiskViews] and
      [QDiskElect] are about many nodes, [QDiskConf] about the configuration, [QDiskBlock]
      about the blocks of [disk.c].
    - [DiskHash]: [gfs2/libgfs2/gfs2_disk_hash.c].
    - [Gfs2Bits], [Gfs2BitsThm]: bitmaps of [fs_bits.c] and block lists of
      [block_list.c].
    - [Gfs2Rgrp]: resource groups of [rgrp.c], [fs_geometry.c], [structures.c] and
      [fs_ops.c], and pass 5 of [gfs2/fsck/pass5.c].  [Gfs2RgrpThm] is about
      allocation, with the class [RgrpEncoding] of what the encoding of a header
      promises; [Gfs2LayoutThm] about the layout that mkfs makes, with [RbEncoding];
      [Gfs2FsckThm] about the check.  [Gfs2Sample] is a small file system on which
      the theorems are applied.
    - [Gfs2Field]: blocks, disks and the numbers in blocks.
    - [Gfs2Log]: journals and their recovery, of [gfs2/libgfs2/recovery.c] and
      [gfs2/fsck/fs_recovery.c]; [Gfs2LogHead] is about the search for the head, [Gfs2Replay]
      about the passes over the log, [Gfs2Recover] about recovery as a whole.
    - [Gfs2File]: the blocks of files and reading and writing them, of
      [gfs2/libgfs2/fs_ops.c], with the tables of [misc.c] and the buffers of [buf.c], over the
      class [Allocator].  [Gfs2FilePath] has the laws of allocators ([AllocatorSpec]), the
      tables and the paths of pointers, [Gfs2FileTree] the tree of blocks, [Gfs2FileMap] and
      [Gfs2FileHeight] the block map, [Gfs2FileThm] reading and writing; [Gfs2FileDisk] shows
      that the resource groups are such an allocator.
    - [Gfs2Dinode]: inodes on disk, of [gfs2/libgfs2/ondisk.c].  [Gfs2Dir]: the directories of
      [fs_ops.c], with new inodes.  [Gfs2DirRec] describes blocks of entries as lists of
      records; [Gfs2DirThm] is about directories in the block of their inode, [Gfs2DirInit]
      about new inodes, [Gfs2DirHash] about the table of leaves, [Gfs2DirLeaf] and
      [Gfs2DirSplit] about splitting a leaf.  [Gfs2DirSample] is a directory on the sample file
      system.
    - [RgSets]: [rgmanager/src/clulib/sets.c] and [restart_counter.c].
    - [RgState], [RgStateThm]: the handlers of [rgmanager/src/daemons/rg_state.c] and
      [rg_thread.c] as programs of calls, and the interleavings of the nodes that run them.
    - [RgDomain], [RgDomainThm]: [fo_domain.c] and the decisions of [groups.c].

    Structures of the code are records with the fields of the code, lists of the
    code are lists in the same order, pointers that the code compares are
    addresses or the keys that identify their targets.  One definition stands
    for one function or for one loop of it and has its name; the manifest maps
    each to its lines.  Global variables and out parameters are passed and
    returned.  What comes from outside (configuration, other daemons, the
    checkpoint service, debugfs, the clock, [malloc]) is an argument; what goes
    outside (messages, sysfs writes, kills, log-worthy verdicts) is a list of
    effects.

    ** What the theorems show

    Byte-range locks, for lockspaces without the ownership optimisation: two
    owners never hold conflicting ranges of a resource, whatever messages arrive in
    whatever order, whichever allocations fail and whichever checkpoints of the nodes are
    read ([plock_mutual_exclusion]), where a request that comes before the checkpoint
    can give a file a second resource ([early_request_hides_locks]);
    nodes that start alike and receive the same messages in the same order have the same
    locks and waiters when memory is available ([plock_replication]); the list manipulations do to the list of ranges what
    locking and unlocking a set of bytes does to a file
    ([lock_internal_refines], [unlock_internal_refines],
    [is_conflict_refines], [lock_ops_congruent]); every request is answered or
    queued and the waiters are granted when they can be ([do_lock_answers],
    [do_waiters_converges], [do_waiters_exclusive]), with the case in which one is
    forgotten ([do_waiters_lost_wakeup]).  A checkpoint gives the joining node what it should
    know of the state of the one that wrote it, if resources of other owners carry no settled
    locks ([checkpoint_transfer], [owned_section_refused]); messages cross between hosts
    of either byte order ([plock_message_roundtrip], [start_message_roundtrip]).

    Membership of a lockspace, with memory available in configuration changes: after the
    failure of a member the kernel does not run again before the member is fenced
    ([fencing_before_restart]), if the fence daemon answers every query
    ([failed_fence_query_passes] is about a query that fails) and the clock does not go back;
    whenever it runs the change is complete and everybody agreed ([kernel_runs_settled]); a
    change whose conditions hold goes on ([change_progress]); start messages are
    counted for the change they were sent for ([match_change_sound]).

    Deadlocks: the detector reports one exactly when the waits-for relation of
    the locks has a cycle, and cancels requests of a transaction that waits for
    it ([find_deadlock_correct]); the locks collected from any input are well
    formed ([collected_locks_ok]); the two reports of a lock combine in either
    order ([copies_combine]).

    cman: two partitions of a cluster are never both quorate ([no_split_brain]), outside of
    the mode [two_node], if their members expect all votes, the quorum is computed from the
    expected votes and the quorum device is in at most one of them; the quorum is a majority,
    or 1 in that mode ([quorum_is_majority]); a node
    that comes back with state of its own is set aside
    ([dirty_rejoin_set_aside]).

    The fence domain: a failed member stays a victim until it is dealt with
    ([victim_not_forgotten]); a change is complete only after the agents have
    succeeded on its victims ([complete_after_fencing]); the members choose the same
    master ([set_master_agreed]).

    Mount groups: the file system runs on a node only when no journal waits for
    recovery and no failure is in the changes it has agreed to
    ([blocked_until_recovered]), outside the first recovery, if the message that this is done
    comes when nothing is left to recover, no node withdraws that a pending change has removed
    and the result of the mount is reported once; a new member builds the journals that the old ones have ([journals_agree]), if no member
    left and came back within the cycle, none was removed twice and no old member is
    a spectator.

    The quorum disk: there is never more than one master, whatever configurations the
    daemons have accepted with a [tko] of at least 1 and a [tko_up] below the largest [int]
    ([single_master]), when the disk can be read and written, the nodes have one clock and they
    keep step: none reads again before every other live node has written since.  The timings of
    an accepted configuration keep their bounds, where no [int] overflows
    ([accepted_timings]); the score is
    between nothing and its maximum ([score_well_formed]); blocks are read as they were
    written ([status_block_roundtrip]), and one of which a byte was changed is rejected, when
    buffers are aligned ([damaged_block_rejected]).

    Services: no two nodes use the resources of a service, in any interleaving of the calls of
    the handlers, with crashes ([service_runs_once]), but for runs with a migration that
    succeeds or one of the writes that [hazard] lists, and with a membership that all nodes
    see alike; one such write that gives two users is the example
    [start_in_error_uses_twice].  When a node goes down, a service that wants to run and has
    no node is asked for by a node that is left, if one may run it, no exclusive service is
    configured, all nodes see the same state and the names in domains have the case of the
    membership ([takeover_requested], [takeover_by_case]); relocation goes to a best node
    ([best_target_node_best]); the domains that are read are well formed
    ([construct_domains_ok]); the restart counter counts a window of time ([restart_window]).

    GFS2: mkfs makes consistent resource groups ([mkfs_consistent]), unless one is too large
    ([build_too_large]); allocation takes
    the first free block and keeps them consistent ([blk_alloc_correct]), freeing
    undoes it ([free_block_correct]); pass 5 leaves bitmaps and counts that match
    what the check has found, when every question is answered yes ([pass5_repairs]); the search in a bitmap by words finds
    what a search by blocks finds ([bitfit_finds_first]); the hash is CRC-32
    ([disk_hash_is_crc32]).  The newest header of a journal is found ([find_jhead_correct]);
    recovery makes the disk what the records of the journal say and leaves a clean journal
    ([recover_journal_correct]), and so does writing a journal anew ([write_journal_clean]).
    A file is a list of bytes: writing to a well-formed file implements writing to the list
    ([gfs2_writei_refines]), reading returns a part of it ([gfs2_readi_refines]), and on a
    consistent file system both work with the allocator of the resource groups, without
    touching anything else ([disk_write_read]).  Well-formed means that no block is reached in
    two ways, every block reached is in use and there are zeros behind the end; numbers of
    blocks are below 2^63, offsets at least a block below 2^64, and enough blocks are free.
    A directory in the block of its inode is a finite map from names to inodes
    ([linear_dir_is_map]), if the inode is put back after every change, until no record of the
    block has room for an entry; a new inode is in such a directory under its name, and a new
    directory has itself and its parent ([createi_new]); [created_twice] shows what a count
    that is not put back leads to.
    With a table, doubling it leads every hash to the leaf it had ([double_exhash_same_leaf]),
    and splitting a leaf loses no entry: each is in the leaf of its hash ([split_leaf_found]).
    That adding an entry to a directory with a table as a whole, which also links leaves to
    chains, keeps the map is not proved.

    Theorems and examples that are not in the manifest's properties show behaviour
    that is probably not meant, such as [rejoin_disagrees],
    [spectator_never_recovered] and [cluster_add_skips_dlm]; the findings of the
    manifest name the lines.

    ** Bounds and fuel

    Integers are [Z] with the conversion of their C type written where a value
    can leave its range.  Counters that count objects in memory (list lengths,
    [waitfor_count]) are not wrapped.  Loops over lists are structural, also where
    the code removes the current element.  The other loops have fuel: the passes
    of [reduce_waitfor_graph_loop] get one more than the number of transactions,
    since every pass but the last removes one, and [reduce_loop_spec] proves that
    this suffices; [digits_rev] has the 20 digits of a 64-bit number; [delay_loop] and
    [fence_retry] repeat as long as the answers from outside make them, and stop when
    these run out; [how_many_loop] has 9 rounds and [bitblocks_loop] a quarter of the
    blocks of the group, proved enough by [how_many_rgrps_terminates] and
    [rgblocks2bitblocks_correct]; [new_journals_loop] has one round more than there
    are members, proved enough by [create_new_journals_terminates].  The search for the head
    of a journal needs two rounds per block and one more, and the passes over the log one per
    block ([enough]).  Reading and writing files have a round per byte, since every round moves
    at least one; the tables of heights have the length of their array, and writing behind it
    is a fault; [ind_loop] has 32 rounds, enough by [ind_loop_total].  The loops over the entries
    of a block have a round per byte, since an entry is not empty; chains of leaves and the
    repetitions of [dir_e_add] have fuel as an argument, of any size where a directory has no
    table.  The relocation loops of
    rgmanager have fuel that the theorems take as any number.  Allocation
    failures are inputs ([mem]) of the dlm_controld and libgfs2 models; theorems on
    results that need memory say so.  In the models of fenced and gfs_controld
    allocations succeed.

    ** Not modelled

    Sockets, command lines, logging, netlink, sysfs and configfs paths, threads
    and the parsing of files are input and output around the models.  The kernel
    module and the fence agents depend on code that is not in the tree.  The
    older protocol of gfs_controld, groupd, and the modes of dlm_controld and fenced
    under groupd are kept for clusters of mixed versions.  Errors of the device under
    libgfs2, which its buffers drop, are left out.  Of libgfs2,
    freeing files ([gfs2_freedi]) and the cache of buffers; of rgmanager, resource trees, which run scripts,
    events in S-Lang and the distribution of the states of services; cman's barriers, and the
    tools of GFS and GFS2 but for pass 5 and the recovery of fsck are not modelled. *)

From Stdlib Require Export ZArith Lia.
From stdpp Require Export prelude.

Declare Scope cluster_scope.
Delimit Scope cluster_scope with cluster.
Open Scope Z_scope.

(** Comparisons are unfolded by [simpl] on constants only. *)
#[global] Arguments Z.eqb !_ !_.
#[global] Arguments Z.leb !_ !_.
#[global] Arguments Z.ltb !_ !_.

(** ** Machine integers

    A C integer is a [Z] kept in the range of its type; the conversion to a
    width is the function of that name, applied wherever the source computes
    a value that can leave the range. *)

Definition wrap (w : Z) (z : Z) : Z := z mod 2 ^ w.

Definition swrap (w : Z) (z : Z) : Z :=
  (z + 2 ^ (w - 1)) mod 2 ^ w - 2 ^ (w - 1).

Abbreviation u8 := (wrap 8).
Abbreviation u16 := (wrap 16).
Abbreviation u32 := (wrap 32).
Abbreviation u64 := (wrap 64).
Abbreviation s32 := (swrap 32).

Definition in_u (w z : Z) : Prop := 0 <= z < 2 ^ w.
Definition in_s (w z : Z) : Prop := - 2 ^ (w - 1) <= z < 2 ^ (w - 1).

(** The C operator [!]. *)
Definition c_not (z : Z) : Z := if z =? 0 then 1 else 0.

(** The C truth value of an integer. *)
Definition c_true (z : Z) : bool := negb (z =? 0).

Lemma wrap_small w z : in_u w z -> wrap w z = z.
Proof. unfold in_u, wrap; intros; apply Z.mod_small; lia. Qed.

Lemma wrap_range w z : 0 <= w -> in_u w (wrap w z).
Proof. unfold in_u, wrap; intros; apply Z.mod_pos_bound; lia. Qed.

Lemma swrap_small w z : in_s w z -> 0 < w -> swrap w z = z.
Proof.
  unfold in_s, swrap; intros H Hw.
  assert (E : 2 ^ w = 2 * 2 ^ (w - 1)).
  { rewrite <- Z.pow_succ_r by lia. f_equal; lia. }
  rewrite E, Z.mod_small; lia.
Qed.

(** ** The allocator

    [malloc] can fail, and what it returns is not initialised.  The outcomes of
    the calls a run makes are a list consumed front to back: [None] is a
    failed call and [Some g] a successful one whose memory holds the word [g].
    A run that needs more outcomes than the list has finds memory available
    and zeroed, so that [[]] is the run in which no allocation fails. *)

Definition mem := list (option Z).

Definition malloc (m : mem) : option Z * mem :=
  match m with
  | [] => (Some 0, [])
  | o :: m' => (o, m')
  end.

(** Error numbers the components return (Linux values). *)
Definition ENOENT : Z := 2.
Definition EAGAIN : Z := 11.
Definition ENOMEM : Z := 12.
Definition EEXIST : Z := 17.
Definition EINVAL : Z := 22.
Definition ENOSYS : Z := 38.
Definition EINPROGRESS : Z := 115.

(** ** Automation *)

Create HintDb cluster discriminated.

(** Turn boolean comparisons on integers into propositions. *)
Ltac zbool :=
  repeat match goal with
  | H : negb _ = true |- _ => apply Bool.negb_true_iff in H
  | H : negb _ = false |- _ => apply Bool.negb_false_iff in H
  | H : (_ && _)%bool = true |- _ => apply andb_true_iff in H; destruct H
  | H : (_ && _)%bool = false |- _ => apply andb_false_iff in H
  | H : (_ || _)%bool = true |- _ => apply orb_true_iff in H
  | H : (_ || _)%bool = false |- _ => apply orb_false_iff in H; destruct H
  | H : (_ =? _) = true |- _ => apply Z.eqb_eq in H
  | H : (_ =? _) = false |- _ => apply Z.eqb_neq in H
  | H : (_ <? _) = true |- _ => apply Z.ltb_lt in H
  | H : (_ <? _) = false |- _ => apply Z.ltb_ge in H
  | H : (_ <=? _) = true |- _ => apply Z.leb_le in H
  | H : (_ <=? _) = false |- _ => apply Z.leb_gt in H
  | H : (_ >=? _) = _ |- _ => rewrite Z.geb_leb in H
  | H : (_ >? _) = _ |- _ => rewrite Z.gtb_ltb in H
  end.

(** Split on the condition of an [if] of the goal, with the condition as a
    proposition. *)
Ltac zcase :=
  match goal with
  | |- context [if ?b then _ else _] => destruct b eqn:?; zbool
  end.

Ltac zcase_in H :=
  match type of H with
  | context [if ?b then _ else _] => destruct b eqn:?; zbool
  end.

(** ** Bits of machine integers *)

Lemma in_u_testbit w z :
  0 <= w -> in_u w z <-> (forall i, i < 0 \/ w <= i -> Z.testbit z i = false).
Proof.
  intros Hw. split.
  - intros [H0 H1] i [Hi|Hi]; [by apply Z.testbit_neg_r|].
    rewrite <- (Z.mod_small z (2 ^ w)) by done. apply Z.mod_pow2_bits_high; lia.
  - intros H. assert (E : z = z mod 2 ^ w).
    { apply Z.bits_inj'. intros i Hi. destruct (Z.lt_ge_cases i w) as [Hlt|Hge].
      - by rewrite Z.mod_pow2_bits_low.
      - rewrite Z.mod_pow2_bits_high by lia. apply H; lia. }
    rewrite E. apply Z.mod_pos_bound. lia.
Qed.

Lemma in_u_lxor w a b : 0 <= w -> in_u w a -> in_u w b -> in_u w (Z.lxor a b).
Proof.
  intros Hw. rewrite !in_u_testbit by done. intros Ha Hb i Hi.
  by rewrite Z.lxor_spec, Ha, Hb.
Qed.

Lemma in_u_land w a b : 0 <= w -> in_u w a -> in_u w (Z.land a b).
Proof.
  intros Hw. rewrite !in_u_testbit by done. intros Ha i Hi. by rewrite Z.land_spec, Ha.
Qed.

Lemma in_u_lor w a b : 0 <= w -> in_u w a -> in_u w b -> in_u w (Z.lor a b).
Proof.
  intros Hw. rewrite !in_u_testbit by done. intros Ha Hb i Hi.
  by rewrite Z.lor_spec, Ha, Hb.
Qed.

Lemma in_u_shiftr w a n : 0 <= w -> 0 <= n -> in_u w a -> in_u w (Z.shiftr a n).
Proof.
  intros Hw Hn Ha. assert (H0 : 0 <= a) by apply Ha. rewrite in_u_testbit in Ha |- * by done.
  intros i [Hi|Hi]; [by apply Z.testbit_neg_r|].
  rewrite Z.shiftr_spec by lia. apply Ha. lia.
Qed.

Lemma wrap_testbit w z i : 0 <= w -> Z.testbit (wrap w z) i = (i <? w) && Z.testbit z i.
Proof.
  intros Hw. unfold wrap. destruct (Z.ltb_spec i w) as [Hi|Hi]; simpl.
  - by apply Z.mod_pow2_bits_low.
  - by apply Z.mod_pow2_bits_high.
Qed.

Lemma in_u_bounded (w v z : Z) : v <= w -> in_u v z -> in_u w z.
Proof.
  unfold in_u. intros H [H1 H2]. split; [done|].
  eapply Z.lt_le_trans; [exact H2|]. destruct (Z.lt_ge_cases v 0).
  - rewrite Z.pow_neg_r by done. apply Z.pow_nonneg; lia.
  - apply Z.pow_le_mono_r; lia.
Qed.

(** The bytes of a word, the lowest first. *)
Fixpoint le_word (l : list Z) : Z :=
  match l with
  | [] => 0
  | b :: l' => Z.lxor b (Z.shiftl (le_word l') 8)
  end.

Lemma le_word_testbit_low b w i :
  in_u 8 b -> 0 <= i -> Z.testbit (Z.lxor b (Z.shiftl w 8)) i =
    if i <? 8 then Z.testbit b i else Z.testbit w (i - 8).
Proof.
  intros Hb Hi. rewrite Z.lxor_spec. rewrite in_u_testbit in Hb by lia.
  destruct (Z.ltb_spec i 8).
  - rewrite Z.shiftl_spec_low by done. by rewrite xorb_false_r.
  - rewrite Z.shiftl_spec, Hb by lia. done.
Qed.

Lemma le_word_in_u l :
  Forall (in_u 8) l -> in_u (8 * Z.of_nat (length l)) (le_word l).
Proof.
  induction 1 as [|b l Hb _ IH]; [by unfold in_u; simpl|].
  rewrite in_u_testbit in IH |- * by lia. intros i [Hi|Hi]; [by apply Z.testbit_neg_r|].
  cbn [le_word length] in *. rewrite le_word_testbit_low by (done || lia).
  destruct (Z.ltb_spec i 8); [lia|]. apply IH. lia.
Qed.

Lemma le_word_inj l l' :
  Forall (in_u 8) l -> Forall (in_u 8) l' -> length l = length l' ->
  le_word l = le_word l' -> l = l'.
Proof.
  intros H. revert l'. induction H as [|b l Hb Hl IH]; intros [|b' l'] H'; try done.
  inversion_clear H' as [|? ? Hb' Hl']. cbn [length le_word]. intros Hn E.
  assert (T : forall i, 0 <= i -> (if i <? 8 then Z.testbit b i else Z.testbit (le_word l) (i - 8)) =
            (if i <? 8 then Z.testbit b' i else Z.testbit (le_word l') (i - 8))).
  { intros i Hi. rewrite <- !le_word_testbit_low by done. by rewrite E. }
  f_equal.
  - apply Z.bits_inj'. intros i Hi. destruct (Z.ltb_spec i 8) as [Hlt|Hge].
    + specialize (T i Hi). by destruct (Z.ltb_spec i 8); [|lia].
    + rewrite in_u_testbit in Hb, Hb' by lia. by rewrite Hb, Hb' by lia.
  - apply IH; [done|lia|]. apply Z.bits_inj'. intros i Hi.
    specialize (T (i + 8) ltac:(lia)). destruct (Z.ltb_spec (i + 8) 8); [lia|].
    by replace (i + 8 - 8) with i in T by lia.
Qed.

(** ** List lemmas shared by the components *)

Lemma existsb_false_Forall {A} (f : A -> bool) l :
  existsb f l = false <-> Forall (fun x => f x = false) l.
Proof.
  induction l as [|x l IH]; simpl; [by split|].
  rewrite Forall_cons, <- IH. apply orb_false_iff.
Qed.

Lemma existsb_exists_elem {A} (f : A -> bool) l :
  existsb f l = true <-> exists x, x ∈ l /\ f x = true.
Proof.
  rewrite existsb_exists. by setoid_rewrite list_elem_of_In.
Qed.

Lemma ForallOrdPairs_app {A} (R : A -> A -> Prop) l1 l2 :
  ForallOrdPairs R (l1 ++ l2) <->
  ForallOrdPairs R l1 /\ ForallOrdPairs R l2 /\
  (forall p q, p ∈ l1 -> q ∈ l2 -> R p q).
Proof.
  induction l1 as [|a l1 IH]; simpl.
  - split; [|naive_solver]. intros H; split; [constructor|]; split; [done|].
    intros p q Hp; by apply not_elem_of_nil in Hp.
  - split.
    + inversion_clear 1 as [|? ? Ha Hr].
      apply Forall_app in Ha as [Ha1 Ha2]. apply IH in Hr as (H1 & H2 & H3).
      split; [by constructor|]. split; [done|].
      intros p q Hp Hq. apply elem_of_cons in Hp as [->|Hp]; [|by apply H3].
      rewrite Forall_forall in Ha2. by apply Ha2.
    + intros (H1 & H2 & H3). inversion_clear H1 as [|? ? Ha Hr].
      constructor.
      * apply Forall_app; split; [done|]. apply Forall_forall.
        intros q Hq. apply H3; [by left|done].
      * apply IH. split; [done|]. split; [done|].
        intros p q Hp Hq. apply H3; [by right|done].
Qed.

Lemma ForallOrdPairs_cons {A} (R : A -> A -> Prop) a l :
  ForallOrdPairs R (a :: l) <->
  (forall q, q ∈ l -> R a q) /\ ForallOrdPairs R l.
Proof.
  rewrite <- Forall_forall. split; [by inversion 1|]. intros []; by constructor.
Qed.

(** For a symmetric relation, holding on all pairs of a list only depends on
    the list up to permutation. *)
Lemma ForallOrdPairs_Permutation {A} (R : A -> A -> Prop) l1 l2 :
  (forall x y, R x y -> R y x) ->
  l1 ≡ₚ l2 -> ForallOrdPairs R l1 -> ForallOrdPairs R l2.
Proof.
  intros HR. induction 1 as [|x l l' Hp IH|x y l|l l' l'' _ IH1 _ IH2]; auto;
    rewrite ?ForallOrdPairs_cons.
  - intros [H1 H2]. split; [|auto]. intros q Hq. apply H1. by rewrite Hp.
  - intros (H1 & H2 & H3). split.
    + intros q Hq. apply elem_of_cons in Hq as [->|Hq]; [|auto].
      apply HR, H1. by left.
    + split; [|done]. intros q Hq. apply H1. by right.
Qed.

Lemma find_app {A} (f : A -> bool) l1 l2 :
  List.find f (l1 ++ l2) = match List.find f l1 with Some x => Some x | None => List.find f l2 end.
Proof. induction l1 as [|x l1 IH]; [done|]. cbn. by destruct (f x). Qed.

(** ** Counting over an interval *)

Definition countZ (P : Z -> bool) (a n : Z) : Z := Z.of_nat (length (List.filter P (seqZ a n))).

Lemma countZ_nil P a n : n <= 0 -> countZ P a n = 0.
Proof. intros H. unfold countZ. by rewrite seqZ_nil. Qed.

Lemma countZ_app P a n m :
  0 <= n -> 0 <= m -> countZ P a (n + m) = countZ P a n + countZ P (a + n) m.
Proof.
  intros Hn Hm. unfold countZ. rewrite seqZ_app, List.filter_app, length_app by done. lia.
Qed.

Lemma countZ_cons P a n :
  0 < n -> countZ P a n = (if P a then 1 else 0) + countZ P (Z.succ a) (n - 1).
Proof.
  intros Hn. unfold countZ. rewrite seqZ_cons by done. simpl.
  replace (Z.pred n) with (n - 1) by lia. destruct (P a); simpl; lia.
Qed.

Lemma countZ_ext P Q a n :
  (forall x, a <= x < a + n -> P x = Q x) -> countZ P a n = countZ Q a n.
Proof.
  intros H. unfold countZ. do 2 f_equal. apply List.filter_ext_in.
  intros x Hx. apply H. by apply list_elem_of_In, elem_of_seqZ in Hx.
Qed.

Lemma countZ_shift P a k n : countZ P (a + k) n = countZ (fun x => P (x + k)) a n.
Proof.
  unfold countZ. rewrite (Z.add_comm a k), <- fmap_add_seqZ.
  induction (seqZ a n) as [|x l IH]; [done|]. cbn [fmap list_fmap List.filter].
  rewrite (Z.add_comm k x). destruct (P (x + k)); cbn [length]; lia.
Qed.

Lemma countZ_range P a n : 0 <= n -> 0 <= countZ P a n <= n.
Proof.
  intros Hn. unfold countZ. pose proof (List.filter_length_le P (seqZ a n)) as H.
  rewrite length_seqZ in H. lia.
Qed.

(** Changing the predicate at one point changes the count by that point. *)
Lemma countZ_update P Q a n x :
  a <= x < a + n -> (forall y, a <= y < a + n -> y <> x -> P y = Q y) ->
  countZ Q a n = countZ P a n - (if P x then 1 else 0) + (if Q x then 1 else 0).
Proof.
  intros Hx Hy. replace n with ((x - a) + (1 + (n - (x - a) - 1))) by lia.
  rewrite !countZ_app by lia. replace (a + (x - a)) with x by lia.
  assert (E1 : forall R, countZ R x 1 = if R x then 1 else 0).
  { intros R. rewrite countZ_cons, countZ_nil by lia. lia. }
  rewrite !E1, (countZ_ext P Q a), (countZ_ext P Q (x + 1)) by (intros; apply Hy; lia). lia.
Qed.

Lemma countZ_pos P a n :
  0 < countZ P a n -> exists x, a <= x < a + n /\ P x = true.
Proof.
  unfold countZ. intros H. destruct (List.filter P (seqZ a n)) as [|x l] eqn:E; [simpl in H; lia|].
  assert (Hx : In x (List.filter P (seqZ a n))) by (rewrite E; by left).
  apply List.filter_In in Hx as [Hx1 Hx2]. exists x. split; [|done].
  by apply list_elem_of_In, elem_of_seqZ in Hx1.
Qed.

(** The least element of an interval with a property. *)
Lemma least_in (P : Z -> bool) a x :
  a <= x -> P x = true -> exists k, a <= k <= x /\ P k = true /\ forall j, a <= j < k -> P j = false.
Proof.
  intros Hx. replace x with (a + Z.of_nat (Z.to_nat (x - a))) by lia.
  generalize (Z.to_nat (x - a)). clear x Hx. intros n. revert a. induction n as [|n IH]; intros a HP.
  - exists a. rewrite Z.add_0_r in HP. split; [lia|]. split; [done|]. lia.
  - destruct (P a) eqn:E; [exists a; split; [lia|]; split; [done|lia]|].
    destruct (IH (a + 1)) as (k & Hk & HPk & Hl); [by replace (a + 1 + Z.of_nat n) with (a + Z.of_nat (S n)) by lia|].
    exists k. split; [lia|]. split; [done|]. intros j Hj.
    destruct (decide (j = a)) as [->|]; [done|]. apply Hl. lia.
Qed.
