(* ===== verification/PlockRange.v ===== *)
(** * POSIX byte-range locks of one resource

    The range arithmetic and the lock list of [struct resource] in
    [src/group/dlm_controld/plock.c]: overlap classification, the four cases
    of a new lock over an existing one, unlocking, and conflict detection.

    The abstract specification is a lock map: for each owner (a node and an
    owner handle on it) and each byte, the mode the owner holds there.
    [lock_internal] and [unlock_internal] refine the pointwise update of that
    map, and [is_conflict] decides whether another owner holds an incompatible
    mode on a byte of the request. *)

From S2P Require Import Prelude.
Open Scope Z_scope.

(** ** Data *)

(** [struct posix_lock]. *)
Record posix_lock := mkPo {
  po_pid : Z;
  po_owner : Z;
  po_start : Z;
  po_end : Z;
  po_ex : Z;
  po_nodeid : Z;
  po_flags : Z
}.

(** [struct dlm_plock_info], the operation the kernel passes in and the payload
    of the plock messages. *)
Record dlm_plock_info := mkInfo {
  i_version : Z * Z * Z;
  i_optype : Z;
  i_ex : Z;
  i_wait : Z;
  i_flags : Z;
  i_pid : Z;
  i_nodeid : Z;
  i_rv : Z;
  i_fsid : Z;
  i_number : Z;
  i_start : Z;
  i_end : Z;
  i_owner : Z
}.

Definition DLM_PLOCK_OP_LOCK : Z := 1.
Definition DLM_PLOCK_OP_UNLOCK : Z := 2.
Definition DLM_PLOCK_OP_GET : Z := 3.

Definition po_set_range (po : posix_lock) (s e : Z) : posix_lock :=
  mkPo (po_pid po) (po_owner po) s e (po_ex po) (po_nodeid po) (po_flags po).

Definition po_set_ex (po : posix_lock) (x : Z) : posix_lock :=
  mkPo (po_pid po) (po_owner po) (po_start po) (po_end po) x (po_nodeid po)
    (po_flags po).

Definition po_set_flags (po : posix_lock) (f : Z) : posix_lock :=
  mkPo (po_pid po) (po_owner po) (po_start po) (po_end po) (po_ex po)
    (po_nodeid po) f.

(** ** Range arithmetic *)

Definition ranges_overlap (start1 end1 start2 end2 : Z) : bool :=
  if (end1 <? start2) || (start1 >? end2) then false else true.

Definition overlap_type (s1 e1 s2 e2 : Z) : Z :=
  if (s1 =? s2) && (e1 =? e2) then 0
  else if (s1 =? s2) && (e1 <? e2) then 1
  else if (s1 >? s2) && (e1 =? e2) then 1
  else if (s1 >? s2) && (e1 <? e2) then 2
  else if (s1 <=? s2) && (e1 >=? e2) then 3
  else if (s1 >? s2) && (e1 >? e2) then 4
  else if (s1 <? s2) && (e1 <? e2) then 4
  else -1.

(** The result is the error and the new values of [*start2] and [*end2]. *)
Definition shrink_range2 (start2 end2 start end_ : Z) : Z * (Z * Z) :=
  if start2 <? start then (0, (start2, u64 (start - 1)))
  else if end2 >? end_ then (0, (u64 (end_ + 1), end2))
  else (-1, (start2, end2)).

Definition shrink_range (po : posix_lock) (start end_ : Z) : Z * posix_lock :=
  let '(rv, (s, e)) := shrink_range2 (po_start po) (po_end po) start end_ in
  (rv, po_set_range po s e).

(** ** Conflicts *)

(** The lock that stops the scan of [is_conflict]. *)
Definition conflicts (inf : dlm_plock_info) (po : posix_lock) : bool :=
  if (po_nodeid po =? i_nodeid inf) && (po_owner po =? i_owner inf) then false
  else if negb (ranges_overlap (po_start po) (po_end po) (i_start inf) (i_end inf))
  then false
  else c_true (i_ex inf) || c_true (po_ex po).

(** With [get] the request is overwritten by the description of the first
    conflicting lock ([in->ex] is a [__u8]). *)
Fixpoint is_conflict (locks : list posix_lock) (inf : dlm_plock_info) (get : bool)
  : bool * dlm_plock_info :=
  match locks with
  | [] => (false, inf)
  | po :: rest =>
      if conflicts inf po then
        (true,
         if get then
           mkInfo (i_version inf) (i_optype inf) (u8 (po_ex po)) (i_wait inf)
             (i_flags inf) (po_pid po) (i_nodeid inf) (i_rv inf) (i_fsid inf)
             (i_number inf) (po_start po) (po_end po) (i_owner inf)
         else inf)
      else is_conflict rest inf get
  end.

(** ** Adding, locking and unlocking

    The functions act on the list [r->locks]; the allocator is threaded. *)

Definition add_lock (m : mem) (locks : list posix_lock)
    (nodeid owner pid ex start end_ : Z) : Z * list posix_lock * mem :=
  match malloc m with
  | (None, m') => (- ENOMEM, locks, m')
  | (Some _, m') => (0, locks ++ [mkPo pid owner start end_ ex nodeid 0], m')
  end.

(** [lock_case1] and [lock_case2] convert [po] in place and append to the list
    that holds it: the list is [before ++ po :: after]. *)
Definition lock_case1 (m : mem) (before : list posix_lock) (po : posix_lock)
    (after : list posix_lock) (inf : dlm_plock_info) : Z * list posix_lock * mem :=
  let '(rv, (start2, end2)) :=
    shrink_range2 (po_start po) (po_end po) (i_start inf) (i_end inf) in
  if c_true rv then (rv, before ++ po :: after, m)
  else
    let po' := po_set_ex (po_set_range po (i_start inf) (i_end inf)) (i_ex inf) in
    add_lock m (before ++ po' :: after) (i_nodeid inf) (i_owner inf) (i_pid inf)
      (c_not (i_ex inf)) start2 end2.

Definition lock_case2 (m : mem) (before : list posix_lock) (po : posix_lock)
    (after : list posix_lock) (inf : dlm_plock_info) : Z * list posix_lock * mem :=
  let '(rv, after1, m1) :=
    add_lock m after (i_nodeid inf) (i_owner inf) (i_pid inf)
      (c_not (i_ex inf)) (po_start po) (u64 (i_start inf - 1)) in
  if c_true rv then (rv, before ++ po :: after1, m1)
  else
    let '(rv2, after2, m2) :=
      add_lock m1 after1 (i_nodeid inf) (i_owner inf) (i_pid inf)
        (c_not (i_ex inf)) (u64 (i_end inf + 1)) (po_end po) in
    if c_true rv2 then (rv2, before ++ po :: after2, m2)
    else
      (rv2,
       before ++ po_set_ex (po_set_range po (i_start inf) (i_end inf)) (i_ex inf)
         :: after2, m2).

(** The test at the head of both loops: [po] belongs to the requester and
    overlaps the request. *)
Definition mine_overlaps (inf : dlm_plock_info) (po : posix_lock) : bool :=
  if negb (po_nodeid po =? i_nodeid inf) || negb (po_owner po =? i_owner inf)
  then false
  else ranges_overlap (po_start po) (po_end po) (i_start inf) (i_end inf).

(** The loop of [lock_internal]: [before] is the part of the list already
    passed, [todo] the part ahead. *)
Fixpoint lock_loop (m : mem) (inf : dlm_plock_info)
    (before todo : list posix_lock) : Z * list posix_lock * mem :=
  match todo with
  | [] =>
      add_lock m before (i_nodeid inf) (i_owner inf) (i_pid inf) (i_ex inf)
        (i_start inf) (i_end inf)
  | po :: rest =>
      if negb (mine_overlaps inf po) then lock_loop m inf (before ++ [po]) rest
      else
        let t := overlap_type (i_start inf) (i_end inf) (po_start po) (po_end po) in
        if t =? 0 then
          if po_ex po =? i_ex inf then (0, before ++ po :: rest, m)
          else (0, before ++ po_set_ex po (i_ex inf) :: rest, m)
        else if t =? 1 then
          if po_ex po =? i_ex inf then (0, before ++ po :: rest, m)
          else lock_case1 m before po rest inf
        else if t =? 2 then
          if po_ex po =? i_ex inf then (0, before ++ po :: rest, m)
          else lock_case2 m before po rest inf
        else if t =? 3 then lock_loop m inf before rest
        else if t =? 4 then
          let po' :=
            if po_start po <? i_start inf
            then po_set_range po (po_start po) (u64 (i_start inf - 1))
            else po_set_range po (u64 (i_end inf + 1)) (po_end po) in
          lock_loop m inf (before ++ [po']) rest
        else (-1, before ++ po :: rest, m)
  end.

Definition lock_internal (m : mem) (locks : list posix_lock) (inf : dlm_plock_info)
  : Z * list posix_lock * mem := lock_loop m inf [] locks.

(** The loop of [unlock_internal]; [rv] is the variable of that name, which a
    [continue] carries to the next iteration. *)
Fixpoint unlock_loop (m : mem) (inf : dlm_plock_info) (rv : Z)
    (before todo : list posix_lock) : Z * list posix_lock * mem :=
  match todo with
  | [] => (rv, before, m)
  | po :: rest =>
      if negb (mine_overlaps inf po) then unlock_loop m inf rv (before ++ [po]) rest
      else
        let t := overlap_type (i_start inf) (i_end inf) (po_start po) (po_end po) in
        if t =? 0 then (rv, before ++ rest, m)
        else if t =? 1 then
          let '(rv', po') := shrink_range po (i_start inf) (i_end inf) in
          (rv', before ++ po' :: rest, m)
        else if t =? 2 then
          let '(rv', rest', m') :=
            add_lock m rest (i_nodeid inf) (i_owner inf) (i_pid inf) (po_ex po)
              (u64 (i_end inf + 1)) (po_end po) in
          (rv',
           before ++ po_set_range po (po_start po) (u64 (i_start inf - 1)) :: rest',
           m')
        else if t =? 3 then unlock_loop m inf rv before rest
        else if t =? 4 then
          let '(rv', po') := shrink_range po (i_start inf) (i_end inf) in
          unlock_loop m inf rv' (before ++ [po']) rest
        else (-1, before ++ po :: rest, m)
  end.

Definition unlock_internal (m : mem) (locks : list posix_lock) (inf : dlm_plock_info)
  : Z * list posix_lock * mem := unlock_loop m inf 0 [] locks.

(** ** The abstract lock map *)

(** [po] gives owner [o] of node [n] the mode [po_ex po] on byte [x]. *)
Definition covers (n o x : Z) (po : posix_lock) : bool :=
  (po_nodeid po =? n) && (po_owner po =? o) &&
  (po_start po <=? x) && (x <=? po_end po).

(** The lock map: the mode owner [o] of node [n] holds on byte [x]. *)
Fixpoint mode_at (l : list posix_lock) (n o x : Z) : option Z :=
  match l with
  | [] => None
  | po :: l' => if covers n o x po then Some (po_ex po) else mode_at l' n o x
  end.

Definition lock_map := Z -> Z -> Z -> option Z.

Definition in_request (inf : dlm_plock_info) (n o x : Z) : bool :=
  (i_nodeid inf =? n) && (i_owner inf =? o) &&
  (i_start inf <=? x) && (x <=? i_end inf).

(** What a granted request and an unlock do to the lock map. *)
Definition spec_lock (f : lock_map) (inf : dlm_plock_info) : lock_map :=
  fun n o x => if in_request inf n o x then Some (i_ex inf) else f n o x.

Definition spec_unlock (f : lock_map) (inf : dlm_plock_info) : lock_map :=
  fun n o x => if in_request inf n o x then None else f n o x.

(** ** Well-formedness *)

Definition is_mode (e : Z) : Prop := e = 0 \/ e = 1.

Definition wf_lock (po : posix_lock) : Prop :=
  in_u 64 (po_start po) /\ in_u 64 (po_end po) /\ po_start po <= po_end po /\
  is_mode (po_ex po).

Definition wf_info (inf : dlm_plock_info) : Prop :=
  in_u 64 (i_start inf) /\ in_u 64 (i_end inf) /\ i_start inf <= i_end inf /\
  is_mode (i_ex inf).

Definition same_owner (p q : posix_lock) : Prop :=
  po_nodeid p = po_nodeid q /\ po_owner p = po_owner q.

Definition disjoint_ranges (p q : posix_lock) : Prop :=
  po_end p < po_start q \/ po_end q < po_start p.

(** Locks of one owner do not overlap; overlapping locks of different owners
    are both shared. *)
Definition self_ok (p q : posix_lock) : Prop :=
  same_owner p q -> disjoint_ranges p q.

Definition cross_ok (p q : posix_lock) : Prop :=
  same_owner p q \/ disjoint_ranges p q \/ (po_ex p = 0 /\ po_ex q = 0).

Definition wf_locks (l : list posix_lock) : Prop := Forall wf_lock l.
Definition owners_disjoint (l : list posix_lock) : Prop := ForallOrdPairs self_ok l.
Definition no_conflict (l : list posix_lock) : Prop := ForallOrdPairs cross_ok l.

(** ** Byte-level facts about one lock *)

Definition holds (po : posix_lock) (n o x e : Z) : Prop :=
  po_nodeid po = n /\ po_owner po = o /\ po_start po <= x <= po_end po /\
  po_ex po = e.

Definition held (l : list posix_lock) (n o x e : Z) : Prop :=
  exists po, po ∈ l /\ holds po n o x e.

Lemma held_nil n o x e : held [] n o x e <-> False.
Proof. split; [|done]. intros (po & H & _). by apply not_elem_of_nil in H. Qed.

Lemma held_cons po l n o x e :
  held (po :: l) n o x e <-> holds po n o x e \/ held l n o x e.
Proof.
  unfold held. setoid_rewrite elem_of_cons. naive_solver.
Qed.

Lemma held_app l1 l2 n o x e :
  held (l1 ++ l2) n o x e <-> held l1 n o x e \/ held l2 n o x e.
Proof. unfold held. setoid_rewrite elem_of_app. naive_solver. Qed.

Lemma covers_spec n o x po :
  covers n o x po = true <->
  po_nodeid po = n /\ po_owner po = o /\ po_start po <= x <= po_end po.
Proof. unfold covers. lia. Qed.

Lemma in_request_spec inf n o x :
  in_request inf n o x = true <->
  i_nodeid inf = n /\ i_owner inf = o /\ i_start inf <= x <= i_end inf.
Proof. unfold in_request. lia. Qed.

Lemma ranges_overlap_spec s1 e1 s2 e2 :
  ranges_overlap s1 e1 s2 e2 = true <-> s2 <= e1 /\ s1 <= e2.
Proof. unfold ranges_overlap. zcase; lia. Qed.

Lemma mine_overlaps_spec inf po :
  mine_overlaps inf po = true <->
  po_nodeid po = i_nodeid inf /\ po_owner po = i_owner inf /\
  i_start inf <= po_end po /\ po_start po <= i_end inf.
Proof.
  unfold mine_overlaps. zcase.
  - split; [done|]. lia.
  - rewrite ranges_overlap_spec. lia.
Qed.

(** A lock map read off a list whose owners do not overlap is the set of modes
    its locks hold. *)
Lemma mode_at_held l n o x e :
  owners_disjoint l -> mode_at l n o x = Some e <-> held l n o x e.
Proof.
  induction l as [|po l IH]; simpl; intros Hd; [by rewrite held_nil|].
  apply ForallOrdPairs_cons in Hd as [Hpo Hd]. rewrite held_cons.
  destruct (covers n o x po) eqn:E.
  - apply covers_spec in E as (<- & <- & Hx).
    split; [intros [= <-]; left; unfold holds; lia|].
    intros [(_ & _ & _ & <-)|(q & Hq & H1 & H2 & Hxq & _)]; [done|].
    assert (disjoint_ranges po q) as [|] by (apply Hpo; unfold same_owner; auto); lia.
  - rewrite IH by done. split; [by right|]. intros [(H1 & H2 & H3 & _)|]; [|done].
    rewrite (proj2 (covers_spec _ _ _ _)) in E; [done|auto].
Qed.

Lemma mode_at_ext l l' n o x :
  owners_disjoint l -> owners_disjoint l' ->
  (forall e, held l n o x e <-> held l' n o x e) ->
  mode_at l n o x = mode_at l' n o x.
Proof.
  intros H1 H2 H.
  destruct (mode_at l n o x) as [e|] eqn:E.
  - symmetry. rewrite mode_at_held, <- H, <- mode_at_held by done. done.
  - destruct (mode_at l' n o x) as [e'|] eqn:E'; [|done].
    rewrite mode_at_held, <- H, <- mode_at_held in E' by done. congruence.
Qed.

(** ** Replacing one lock of a list by fragments of it *)

Lemma self_ok_sym p q : self_ok p q -> self_ok q p.
Proof. unfold self_ok, same_owner, disjoint_ranges. intuition lia. Qed.

Lemma cross_ok_sym p q : cross_ok p q -> cross_ok q p.
Proof. unfold cross_ok, same_owner, disjoint_ranges. intuition lia. Qed.

(** [f] lies within the range of [po] and belongs to the same owner. *)
Definition fragment (po f : posix_lock) : Prop :=
  same_owner po f /\ po_start po <= po_start f /\ po_end f <= po_end po.

Lemma fragment_disjoint po f q :
  fragment po f -> self_ok po q -> self_ok f q.
Proof.
  unfold fragment, self_ok, same_owner, disjoint_ranges. intuition lia.
Qed.

Lemma owners_disjoint_perm l l' :
  l ≡ₚ l' -> owners_disjoint l -> owners_disjoint l'.
Proof. apply ForallOrdPairs_Permutation, self_ok_sym. Qed.

Lemma owners_disjoint_replace before po rest frags :
  owners_disjoint (before ++ po :: rest) ->
  Forall (fragment po) frags -> owners_disjoint frags ->
  owners_disjoint (frags ++ before ++ rest).
Proof.
  intros Hd Hf Hfd. rewrite Forall_forall in Hf.
  apply (owners_disjoint_perm _ (po :: before ++ rest)) in Hd;
    [|symmetry; apply Permutation_middle].
  apply ForallOrdPairs_cons in Hd as [Hpo Hd].
  apply ForallOrdPairs_app. split; [done|]. split; [done|].
  intros f q Hf' Hq. eapply fragment_disjoint; [by apply Hf|auto].
Qed.

Lemma held_perm l l' n o x e : l ≡ₚ l' -> held l n o x e <-> held l' n o x e.
Proof. intros Hp. unfold held. by setoid_rewrite Hp. Qed.

Lemma held_middle l1 po l2 n o x e :
  held (l1 ++ po :: l2) n o x e <-> holds po n o x e \/ held (l1 ++ l2) n o x e.
Proof. rewrite <- held_cons. apply held_perm. symmetry. apply Permutation_middle. Qed.

(** The lock lists that result from granting [inf] on [l]. *)
Definition granted (inf : dlm_plock_info) (l l' : list posix_lock) : Prop :=
  owners_disjoint l' /\ wf_locks l' /\
  forall n o x e,
    held l' n o x e <->
    if in_request inf n o x then e = i_ex inf else held l n o x e.

Lemma granted_perm inf l l1 l2 : l1 ≡ₚ l2 -> granted inf l l1 -> granted inf l l2.
Proof.
  intros Hp (Hd & Hw & Hh). split; [by eapply owners_disjoint_perm|].
  split; [unfold wf_locks in *; by rewrite <- Hp|].
  intros n o x e. by rewrite <- (held_perm _ _ n o x e Hp).
Qed.

(** The request lies within [po]: the fragments of [po] carry the new mode on
    the request and the old one elsewhere. *)
Lemma granted_within inf before po rest frags :
  owners_disjoint (before ++ po :: rest) -> wf_locks (before ++ po :: rest) ->
  po_nodeid po = i_nodeid inf -> po_owner po = i_owner inf ->
  po_start po <= i_start inf -> i_end inf <= po_end po ->
  Forall (fragment po) frags -> owners_disjoint frags -> wf_locks frags ->
  (forall n o x e, held frags n o x e <->
     if in_request inf n o x then e = i_ex inf else holds po n o x e) ->
  granted inf (before ++ po :: rest) (frags ++ before ++ rest).
Proof.
  intros Hd Hw Hn Ho Hs He Hf Hfd Hfw Hh.
  split; [by eapply owners_disjoint_replace|]. split.
  { unfold wf_locks in *. rewrite Forall_app, Forall_cons in Hw.
    rewrite !Forall_app. naive_solver. }
  intros n o x e. rewrite held_app, Hh.
  destruct (in_request inf n o x) eqn:E; [|by rewrite held_middle].
  split; [|by left]. intros [|(q & Hq & H1 & H2 & H3 & H4)]; [done|].
  apply in_request_spec in E.
  apply (owners_disjoint_perm _ (po :: before ++ rest)) in Hd;
    [|symmetry; apply Permutation_middle].
  apply ForallOrdPairs_cons in Hd as [Hpo _].
  destruct (Hpo q Hq); [unfold same_owner; split; lia|lia|lia].
Qed.

(** The loop removes or shrinks [po] and goes on: the rest of the run is a grant
    on the list with [frags] for [po]. *)
Lemma granted_trim inf before po rest frags l' :
  (forall n o x e, held frags n o x e <->
     in_request inf n o x = false /\ holds po n o x e) ->
  granted inf (frags ++ before ++ rest) l' ->
  granted inf (before ++ po :: rest) l'.
Proof.
  intros Hh (Hd & Hw & Hl). split; [done|]. split; [done|].
  intros n o x e. rewrite Hl.
  destruct (in_request inf n o x) eqn:E; [done|].
  rewrite held_middle, held_app, Hh, E. naive_solver.
Qed.

(** No lock of the requester overlaps the request: it is appended. *)
Lemma granted_append inf l :
  owners_disjoint l -> wf_locks l -> wf_info inf ->
  Forall (fun p => mine_overlaps inf p = false) l ->
  granted inf l
    (l ++ [mkPo (i_pid inf) (i_owner inf) (i_start inf) (i_end inf) (i_ex inf)
             (i_nodeid inf) 0]).
Proof.
  intros Hd Hw Hi Hm. rewrite Forall_forall in Hm. split; [|split].
  - apply ForallOrdPairs_app. split; [done|]. split; [by repeat constructor|].
    intros p q Hp ->%list_elem_of_singleton. specialize (Hm p Hp).
    intros [H1 H2]; simpl in *. unfold disjoint_ranges; simpl.
    destruct (decide (i_start inf <= po_end p)); [|lia].
    destruct (decide (po_start p <= i_end inf)); [|lia].
    rewrite (proj2 (mine_overlaps_spec _ _)) in Hm; [done|lia].
  - apply Forall_app. split; [done|]. by apply Forall_singleton.
  - intros n o x e. rewrite held_app, held_cons, held_nil. unfold holds; simpl.
    destruct (in_request inf n o x) eqn:E.
    + apply in_request_spec in E. split; [|intros ->; right; left; lia].
      intros [(q & Hq & H1 & H2 & H3 & H4)|[(H1 & H2 & H3 & H4)|[]]]; [|lia].
      specialize (Hm q Hq). rewrite (proj2 (mine_overlaps_spec _ _)) in Hm; [done|].
      destruct Hi as (_ & _ & ? & _). lia.
    + split; [|by left]. intros [|[(H1 & H2 & H3 & H4)|[]]]; [done|].
      rewrite (proj2 (in_request_spec _ _ _ _)) in E; [done|auto].
Qed.

(** ** [lock_internal] *)

Lemma overlap_type_cases s1 e1 s2 e2 :
  s1 <= e1 -> s2 <= e2 -> s2 <= e1 -> s1 <= e2 ->
  overlap_type s1 e1 s2 e2 = 0 /\ s1 = s2 /\ e1 = e2 \/
  overlap_type s1 e1 s2 e2 = 1 /\ (s1 = s2 /\ e1 < e2 \/ s2 < s1 /\ e1 = e2) \/
  overlap_type s1 e1 s2 e2 = 2 /\ s2 < s1 /\ e1 < e2 \/
  overlap_type s1 e1 s2 e2 = 3 /\ s1 <= s2 /\ e2 <= e1 /\ ~ (s1 = s2 /\ e1 = e2) \/
  overlap_type s1 e1 s2 e2 = 4 /\ (s2 < s1 /\ e2 < e1 \/ s1 < s2 /\ e1 < e2).
Proof. unfold overlap_type. repeat zcase; lia. Qed.

Lemma u64_pred z : in_u 64 z -> 0 < z -> u64 (z - 1) = z - 1.
Proof. unfold in_u. intros. apply wrap_small. unfold in_u. lia. Qed.

Lemma u64_succ z y : in_u 64 y -> 0 <= z < y -> u64 (z + 1) = z + 1.
Proof. unfold in_u. intros. apply wrap_small. unfold in_u. lia. Qed.

(** Pointwise goals about the modes of explicit fragments. *)
Ltac frag_held :=
  let n := fresh "n" in let o := fresh "o" in
  let x := fresh "x" in let e := fresh "e" in
  intros n o x e; rewrite ?held_cons, ?held_nil;
  unfold holds, in_request in *; simpl;
  repeat match goal with |- context [if ?b then _ else _] => destruct b eqn:?; zbool end;
  zbool; intuition lia.

Ltac frag_side :=
  repeat match goal with
  | |- Forall _ _ => constructor
  | |- ForallOrdPairs _ _ => constructor
  | |- owners_disjoint _ => unfold owners_disjoint
  | |- wf_locks _ => unfold wf_locks
  end;
  unfold fragment, self_ok, disjoint_ranges, same_owner, wf_lock, is_mode, in_u in *;
  simpl in *; intuition lia.

Lemma c_not_mode a b : is_mode a -> is_mode b -> a <> b -> c_not b = a.
Proof. unfold is_mode, c_not. intros. zcase; lia. Qed.

Lemma add_lock_cases m l n o p ex s e :
  (exists m', add_lock m l n o p ex s e = (0, l ++ [mkPo p o s e ex n 0], m')) \/
  (exists m', add_lock m l n o p ex s e = (- ENOMEM, l, m')).
Proof. unfold add_lock. destruct (malloc m) as [[g|] m']; eauto. Qed.

Lemma lock_case1_granted m before po rest inf l' m' :
  owners_disjoint (before ++ po :: rest) -> wf_locks (before ++ po :: rest) ->
  wf_info inf -> mine_overlaps inf po = true -> po_ex po <> i_ex inf ->
  overlap_type (i_start inf) (i_end inf) (po_start po) (po_end po) = 1 ->
  lock_case1 m before po rest inf = (0, l', m') ->
  granted inf (before ++ po :: rest) l'.
Proof.
  intros Hd Hw Hi Hm Hex Ht Hc. apply mine_overlaps_spec in Hm as (Hn & Ho & H1 & H2).
  assert (Hpo : wf_lock po) by (eapply Forall_forall; [exact Hw|set_solver]).
  assert (Hc' := c_not_mode _ _ (proj2 (proj2 (proj2 Hpo))) (proj2 (proj2 (proj2 Hi))) Hex).
  destruct Hi as (Hs & He & Hse & Hmo), Hpo as (Hps & Hpe & Hpse & Hpm).
  destruct (overlap_type_cases _ _ _ _ Hse Hpse ltac:(lia) ltac:(lia))
    as [?|[[_ Hcase]|[?|[?|?]]]]; try lia.
  unfold lock_case1, shrink_range2 in Hc. rewrite Hc' in Hc.
  assert (Hin : forall d, d = po_set_ex (po_set_range po (i_start inf) (i_end inf)) (i_ex inf) ->
    forall f s2 e2, f = mkPo (i_pid inf) (i_owner inf) s2 e2 (po_ex po) (i_nodeid inf) 0 ->
    (s2 = po_start po /\ e2 = i_start inf - 1 /\ po_start po < i_start inf /\ i_end inf = po_end po \/
     s2 = i_end inf + 1 /\ e2 = po_end po /\ i_end inf < po_end po /\ i_start inf = po_start po) ->
    granted inf (before ++ po :: rest) ((before ++ d :: rest) ++ [f])).
  { intros d Hdd f s2 e2 Hf Hr. eapply (granted_perm _ _ ([d; f] ++ before ++ rest)).
    { rewrite <- Permutation_cons_append, <- Permutation_middle. simpl. constructor. }
    subst d f. apply granted_within; auto; [lia|lia|frag_side|frag_side|frag_side|frag_held]. }
  destruct (po_start po <? i_start inf) eqn:E1; zbool.
  - rewrite (u64_pred (i_start inf)) in Hc by (auto; unfold in_u in *; lia). simpl in Hc.
    unfold add_lock in Hc. destruct (malloc m) as [[g|] ?]; [|done].
    injection Hc as <- <-. eapply Hin; [done|done|lia].
  - replace (po_end po >? i_end inf) with true in Hc by lia.
    rewrite (u64_succ _ (po_end po)) in Hc by (auto; unfold in_u in *; lia). simpl in Hc.
    unfold add_lock in Hc. destruct (malloc m) as [[g|] ?]; [|done].
    injection Hc as <- <-. eapply Hin; [done|done|lia].
Qed.

Lemma lock_case2_granted m before po rest inf l' m' :
  owners_disjoint (before ++ po :: rest) -> wf_locks (before ++ po :: rest) ->
  wf_info inf -> mine_overlaps inf po = true -> po_ex po <> i_ex inf ->
  overlap_type (i_start inf) (i_end inf) (po_start po) (po_end po) = 2 ->
  lock_case2 m before po rest inf = (0, l', m') ->
  granted inf (before ++ po :: rest) l'.
Proof.
  intros Hd Hw Hi Hm Hex Ht Hc. apply mine_overlaps_spec in Hm as (Hn & Ho & H1 & H2).
  assert (Hpo : wf_lock po) by (eapply Forall_forall; [exact Hw|set_solver]).
  assert (Hc' := c_not_mode _ _ (proj2 (proj2 (proj2 Hpo))) (proj2 (proj2 (proj2 Hi))) Hex).
  destruct Hi as (Hs & He & Hse & Hmo), Hpo as (Hps & Hpe & Hpse & Hpm).
  destruct (overlap_type_cases _ _ _ _ Hse Hpse ltac:(lia) ltac:(lia))
    as [?|[?|[[_ Hcase]|[?|?]]]]; try lia.
  unfold lock_case2, add_lock in Hc. rewrite Hc' in Hc.
  rewrite (u64_pred (i_start inf)), (u64_succ _ (po_end po)) in Hc
    by (auto; unfold in_u in *; lia).
  destruct (malloc m) as [[g|] m1]; [simpl in Hc|done].
  destruct (malloc m1) as [[g'|] m2]; [simpl in Hc|done].
  injection Hc as <- <-.
  set (d := po_set_ex _ _). set (f1 := mkPo _ _ _ (_ - 1) _ _ _).
  set (f2 := mkPo _ _ (_ + 1) _ _ _ _).
  apply (granted_perm _ _ ([d; f1; f2] ++ before ++ rest)).
  { rewrite <- Permutation_middle, <- Permutation_cons_append,
      <- Permutation_cons_append. simpl.
    do 2 (rewrite <- Permutation_middle). do 2 constructor. }
  apply granted_within; auto; [lia|lia|frag_side|frag_side|frag_side|frag_held].
Qed.

(** [po] is kept, possibly with another mode, when the request is its range or
    already has its mode. *)
Lemma granted_convert inf before po rest ex :
  owners_disjoint (before ++ po :: rest) -> wf_locks (before ++ po :: rest) ->
  wf_info inf -> mine_overlaps inf po = true ->
  po_start po <= i_start inf -> i_end inf <= po_end po ->
  (ex = i_ex inf /\ (i_start inf = po_start po /\ i_end inf = po_end po \/ ex = po_ex po)) ->
  granted inf (before ++ po :: rest) (before ++ po_set_ex po ex :: rest).
Proof.
  intros Hd Hw Hi Hm Hs He Hex. apply mine_overlaps_spec in Hm as (Hn & Ho & H1 & H2).
  assert (Hpo : wf_lock po) by (eapply Forall_forall; [exact Hw|set_solver]).
  destruct Hi as (Hs' & He' & Hse & Hmo), Hpo as (Hps & Hpe & Hpse & Hpm).
  apply (granted_perm _ _ ([po_set_ex po ex] ++ before ++ rest));
    [simpl; apply Permutation_middle|].
  apply granted_within; auto; [frag_side|frag_side|frag_side|frag_held].
Qed.

(** What the loop leaves of a lock that the request does not contain. *)
Definition trimmed (inf : dlm_plock_info) (po : posix_lock) (frags : list posix_lock) :=
  (forall n o x e, held frags n o x e <->
     in_request inf n o x = false /\ holds po n o x e) /\
  Forall (fragment po) frags /\ owners_disjoint frags /\ wf_locks frags /\
  Forall (fun p => mine_overlaps inf p = false) frags.

Lemma trimmed_inside inf po :
  wf_lock po -> wf_info inf -> mine_overlaps inf po = true ->
  i_start inf <= po_start po -> po_end po <= i_end inf -> trimmed inf po [].
Proof.
  intros Hpo Hi Hm Hs He. apply mine_overlaps_spec in Hm as (Hn & Ho & H1 & H2).
  split; [frag_held|]. repeat split; constructor.
Qed.

Lemma trimmed_front inf po :
  wf_lock po -> wf_info inf -> mine_overlaps inf po = true ->
  po_start po < i_start inf -> po_end po <= i_end inf ->
  trimmed inf po [po_set_range po (po_start po) (u64 (i_start inf - 1))].
Proof.
  intros (Hps & Hpe & Hpse & Hpm) (Hs & He & Hse & Hmo) Hm H1 H2.
  apply mine_overlaps_spec in Hm as (Hn & Ho & H3 & H4).
  rewrite (u64_pred (i_start inf)) by (auto; unfold in_u in *; lia).
  split; [frag_held|]. repeat split; try frag_side.
  constructor; [|constructor]. unfold mine_overlaps, ranges_overlap; simpl.
  repeat zcase; simpl; auto; lia.
Qed.

Lemma trimmed_back inf po :
  wf_lock po -> wf_info inf -> mine_overlaps inf po = true ->
  i_start inf <= po_start po -> i_end inf < po_end po ->
  trimmed inf po [po_set_range po (u64 (i_end inf + 1)) (po_end po)].
Proof.
  intros (Hps & Hpe & Hpse & Hpm) (Hs & He & Hse & Hmo) Hm H1 H2.
  apply mine_overlaps_spec in Hm as (Hn & Ho & H3 & H4).
  rewrite (u64_succ _ (po_end po)) by (auto; unfold in_u in *; lia).
  split; [frag_held|]. repeat split; try frag_side.
  constructor; [|constructor]. unfold mine_overlaps, ranges_overlap; simpl.
  repeat zcase; simpl; auto; lia.
Qed.

(** The invariant of both loops: the locks passed do not meet the request. *)
Definition loop_inv (inf : dlm_plock_info) (before todo : list posix_lock) : Prop :=
  owners_disjoint (before ++ todo) /\ wf_locks (before ++ todo) /\ wf_info inf /\
  Forall (fun p => mine_overlaps inf p = false) before.

Lemma loop_inv_init inf l :
  owners_disjoint l -> wf_locks l -> wf_info inf -> loop_inv inf [] l.
Proof. intros. unfold loop_inv. split_and!; auto. Qed.

Lemma loop_inv_skip inf before po rest :
  loop_inv inf before (po :: rest) -> mine_overlaps inf po = false ->
  loop_inv inf (before ++ [po]) rest.
Proof.
  intros (Hd & Hw & Hi & Hb) Hm. unfold loop_inv.
  rewrite <- (app_assoc before [po] rest). split_and!; try done.
  apply Forall_app. split; [done|]. by apply Forall_singleton.
Qed.

Lemma loop_inv_trim inf before po rest frags :
  loop_inv inf before (po :: rest) -> trimmed inf po frags ->
  loop_inv inf (before ++ frags) rest.
Proof.
  intros (Hd & Hw & Hi & Hb) (_ & Hf & Hfd & Hfw & Hfm). split; [|split; [|split]].
  - eapply owners_disjoint_perm; [|by eapply owners_disjoint_replace].
    rewrite <- app_assoc. apply Permutation_app_swap_app.
  - unfold wf_locks in *. rewrite !Forall_app, Forall_cons in *. naive_solver.
  - done.
  - by apply Forall_app.
Qed.

Lemma loop_inv_head inf before po rest :
  loop_inv inf before (po :: rest) -> wf_lock po.
Proof. intros (_ & Hw & _). eapply Forall_forall; [exact Hw|set_solver]. Qed.

Lemma granted_loop_trim inf before po rest frags l' :
  trimmed inf po frags -> granted inf ((before ++ frags) ++ rest) l' ->
  granted inf (before ++ po :: rest) l'.
Proof.
  intros (Hh & _) (Ha & Hb & Hc). eapply granted_trim; [exact Hh|].
  split; [done|]. split; [done|].
  intros n o x e. rewrite Hc. destruct (in_request inf n o x); [done|].
  apply held_perm. rewrite <- app_assoc. symmetry. apply Permutation_app_swap_app.
Qed.

Lemma po_set_ex_id po : po_set_ex po (po_ex po) = po.
Proof. by destruct po. Qed.

Lemma lock_loop_granted m inf before todo l' m' :
  loop_inv inf before todo ->
  lock_loop m inf before todo = (0, l', m') ->
  granted inf (before ++ todo) l'.
Proof.
  revert m before. induction todo as [|po rest IH]; intros m before Hinv Hl;
    cbn [lock_loop] in Hl.
  { destruct Hinv as (Hd & Hw & Hi & Hb). rewrite app_nil_r in *. unfold add_lock in Hl.
    destruct (malloc m) as [[g|] ?]; [|done]. injection Hl as <- <-.
    by apply granted_append. }
  destruct (mine_overlaps inf po) eqn:Hm; simpl in Hl.
  2:{ rewrite (app_assoc before [po] rest : before ++ po :: rest = _).
      eapply IH; [|exact Hl]. by apply loop_inv_skip. }
  assert (Hpo := loop_inv_head _ _ _ _ Hinv).
  assert (Hi := Hinv). destruct Hi as (Hd & Hw & Hi & Hb).
  assert (Htrim : forall frags, trimmed inf po frags ->
    lock_loop m inf (before ++ frags) rest = (0, l', m') ->
    granted inf (before ++ po :: rest) l').
  { intros frags Ht Hll. eapply granted_loop_trim; [exact Ht|].
    eapply IH; [|exact Hll]. by eapply loop_inv_trim. }
  assert (Hm' := Hm). apply mine_overlaps_spec in Hm' as (Hn & Ho & H1 & H2).
  destruct (overlap_type_cases (i_start inf) (i_end inf) (po_start po) (po_end po))
    as [[Ht Hc]|[[Ht Hc]|[[Ht Hc]|[[Ht Hc]|[Ht Hc]]]]];
    [apply Hi|apply Hpo|lia|lia|..]; rewrite Ht in Hl; simpl in Hl.
  - destruct (po_ex po =? i_ex inf) eqn:Ex; zbool; injection Hl as <- <-;
      [rewrite <- (po_set_ex_id po) at 2|]; apply granted_convert; auto; lia.
  - destruct (po_ex po =? i_ex inf) eqn:Ex; zbool; [|by eapply lock_case1_granted].
    injection Hl as <- <-. rewrite <- (po_set_ex_id po) at 2.
    apply granted_convert; auto; lia.
  - destruct (po_ex po =? i_ex inf) eqn:Ex; zbool; [|by eapply lock_case2_granted].
    injection Hl as <- <-. rewrite <- (po_set_ex_id po) at 2.
    apply granted_convert; auto; lia.
  - apply (Htrim []); [|by rewrite app_nil_r]. apply trimmed_inside; auto; lia.
  - zcase_in Hl; (eapply Htrim; [|exact Hl]);
      [apply trimmed_front|apply trimmed_back]; auto; lia.
Qed.

(** ** [unlock_internal] *)

Definition released (inf : dlm_plock_info) (l l' : list posix_lock) : Prop :=
  owners_disjoint l' /\ wf_locks l' /\
  forall n o x e,
    held l' n o x e <-> in_request inf n o x = false /\ held l n o x e.

(** The request meets none of the locks. *)
Lemma released_none inf l :
  owners_disjoint l -> wf_locks l ->
  Forall (fun p => mine_overlaps inf p = false) l -> released inf l l.
Proof.
  intros Hd Hw Hm. split; [done|]. split; [done|]. intros n o x e.
  split; [|by intros []]. intros Hh. split; [|done].
  destruct (in_request inf n o x) eqn:E; [|done]. apply in_request_spec in E.
  destruct Hh as (q & Hq & H1 & H2 & H3 & _).
  rewrite Forall_forall in Hm. specialize (Hm q Hq).
  rewrite (proj2 (mine_overlaps_spec _ _)) in Hm; [done|lia].
Qed.

Lemma released_trim inf before po rest frags l' :
  trimmed inf po frags -> released inf ((before ++ frags) ++ rest) l' ->
  released inf (before ++ po :: rest) l'.
Proof.
  intros (Hh & _) (Ha & Hb & Hc). split; [done|]. split; [done|].
  intros n o x e. rewrite Hc, held_middle, !held_app, Hh. naive_solver.
Qed.

(** The request lies within [po]: no other lock of the requester meets it. *)
Lemma within_others inf before po rest :
  loop_inv inf before (po :: rest) -> mine_overlaps inf po = true ->
  po_start po <= i_start inf -> i_end inf <= po_end po ->
  Forall (fun p => mine_overlaps inf p = false) (before ++ rest).
Proof.
  intros (Hd & Hw & Hi & Hb) Hm Hs He. apply Forall_forall. intros q Hq.
  destruct (mine_overlaps inf q) eqn:E; [|done].
  apply mine_overlaps_spec in Hm as (Hn & Ho & H1 & H2).
  apply mine_overlaps_spec in E as (Hn' & Ho' & H1' & H2').
  apply (owners_disjoint_perm _ (po :: before ++ rest)) in Hd;
    [|symmetry; apply Permutation_middle].
  apply ForallOrdPairs_cons in Hd as [Hpo _].
  destruct (Hpo q Hq); [unfold same_owner; split; lia|lia|lia].
Qed.

Lemma released_within inf before po rest frags l' :
  loop_inv inf before (po :: rest) -> mine_overlaps inf po = true ->
  po_start po <= i_start inf -> i_end inf <= po_end po ->
  trimmed inf po frags -> l' ≡ₚ (before ++ frags) ++ rest ->
  released inf (before ++ po :: rest) l'.
Proof.
  intros Hinv Hm Hs He Ht Hp. eapply released_trim; [exact Ht|].
  assert (Hinv' := loop_inv_trim _ _ _ _ _ Hinv Ht).
  assert (Hn : released inf ((before ++ frags) ++ rest) ((before ++ frags) ++ rest)).
  { apply released_none; [apply Hinv'|apply Hinv'|].
    assert (Ho := within_others _ _ _ _ Hinv Hm Hs He).
    destruct Ht as (_ & _ & _ & _ & Hf). rewrite !Forall_app in *. naive_solver. }
  destruct Hn as (Ha & Hb & Hc). split; [by eapply owners_disjoint_perm|].
  split; [unfold wf_locks in *; by rewrite Hp|].
  intros n o x e. by rewrite (held_perm _ _ n o x e Hp).
Qed.

Lemma trimmed_middle inf po pid :
  wf_lock po -> wf_info inf -> mine_overlaps inf po = true ->
  po_start po < i_start inf -> i_end inf < po_end po ->
  trimmed inf po
    [po_set_range po (po_start po) (u64 (i_start inf - 1));
     mkPo pid (i_owner inf) (u64 (i_end inf + 1)) (po_end po) (po_ex po)
       (i_nodeid inf) 0].
Proof.
  intros (Hps & Hpe & Hpse & Hpm) (Hs & He & Hse & Hmo) Hm H1 H2.
  apply mine_overlaps_spec in Hm as (Hn & Ho & H3 & H4).
  rewrite (u64_pred (i_start inf)), (u64_succ _ (po_end po))
    by (auto; unfold in_u in *; lia).
  split; [frag_held|]. split_and!; try frag_side.
  repeat constructor; unfold mine_overlaps, ranges_overlap; simpl;
    repeat zcase; simpl; auto; lia.
Qed.

(** [shrink_range] on a lock the request cuts on one side. *)
Lemma shrink_range_trimmed inf po :
  wf_lock po -> wf_info inf -> mine_overlaps inf po = true ->
  (po_start po < i_start inf /\ po_end po <= i_end inf \/
   i_start inf <= po_start po /\ i_end inf < po_end po) ->
  exists po', shrink_range po (i_start inf) (i_end inf) = (0, po') /\
              trimmed inf po [po'].
Proof.
  intros Hpo Hi Hm Hc. unfold shrink_range, shrink_range2. zcase.
  - eexists. split; [done|]. apply trimmed_front; auto; lia.
  - replace (po_end po >? i_end inf) with true by lia.
    eexists. split; [done|]. apply trimmed_back; auto; lia.
Qed.

Lemma unlock_loop_released m inf before todo l' m' :
  loop_inv inf before todo ->
  unlock_loop m inf 0 before todo = (0, l', m') ->
  released inf (before ++ todo) l'.
Proof.
  revert m before. induction todo as [|po rest IH]; intros m before Hinv Hl;
    cbn [unlock_loop] in Hl.
  { injection Hl as <- <-. rewrite app_nil_r. destruct Hinv as (Hd & Hw & Hi & Hb).
    rewrite app_nil_r in *. by apply released_none. }
  destruct (mine_overlaps inf po) eqn:Hm; simpl in Hl.
  2:{ rewrite (app_assoc before [po] rest : before ++ po :: rest = _).
      eapply IH; [|exact Hl]. by apply loop_inv_skip. }
  assert (Hpo := loop_inv_head _ _ _ _ Hinv).
  assert (Hi : wf_info inf) by apply Hinv.
  assert (Hm' := Hm). apply mine_overlaps_spec in Hm' as (Hn & Ho & H1 & H2).
  destruct (overlap_type_cases (i_start inf) (i_end inf) (po_start po) (po_end po))
    as [[Ht Hc]|[[Ht Hc]|[[Ht Hc]|[[Ht Hc]|[Ht Hc]]]]];
    [apply Hi|apply Hpo|lia|lia|..]; rewrite Ht in Hl; simpl in Hl.
  - injection Hl as <- <-. eapply (released_within _ _ _ _ []); eauto; try lia.
    + apply trimmed_inside; auto; lia.
    + by rewrite app_nil_r.
  - destruct (shrink_range_trimmed inf po) as (po' & E & Htr); auto; [lia|].
    rewrite E in Hl. injection Hl as <- <-.
    eapply (released_within _ _ _ _ [po']); eauto; try lia. by rewrite <- app_assoc.
  - unfold add_lock in Hl. destruct (malloc m) as [[g|] m1]; [|done].
    injection Hl as <- <-. eapply released_within; eauto; try lia.
    + apply trimmed_middle; auto; lia.
    + rewrite <- app_assoc. apply Permutation_app_head. simpl. constructor.
      symmetry. apply Permutation_cons_append.
  - eapply released_trim; [apply trimmed_inside; auto; lia|].
    rewrite app_nil_r. eapply IH; [|exact Hl].
    rewrite <- (app_nil_r before). eapply loop_inv_trim; [exact Hinv|].
    apply trimmed_inside; auto; lia.
  - destruct (shrink_range_trimmed inf po) as (po' & E & Htr); auto; [lia|].
    rewrite E in Hl. eapply released_trim; [exact Htr|]. eapply IH; [|exact Hl].
    by eapply loop_inv_trim.
Qed.

(** ** Outcomes under allocation failure

    Whatever the allocator does, every lock of the resulting list is a piece of
    a lock that was there, in the mode it had, or a piece of the request in
    the requested mode; the list stays well formed and the only error is
    [-ENOMEM]. *)

Definition piece (l : list posix_lock) (q : posix_lock) : Prop :=
  exists p, p ∈ l /\ fragment p q /\ po_ex q = po_ex p.

Definition kept (l : list posix_lock) (q : posix_lock) : Prop := wf_lock q /\ piece l q.

Definition derived (inf : dlm_plock_info) (l : list posix_lock) (q : posix_lock) : Prop :=
  piece l q \/
  (po_nodeid q = i_nodeid inf /\ po_owner q = i_owner inf /\
   i_start inf <= po_start q /\ po_end q <= i_end inf /\ po_ex q = i_ex inf).

Definition good (inf : dlm_plock_info) (l : list posix_lock) (q : posix_lock) : Prop :=
  wf_lock q /\ derived inf l q.

Lemma kept_self l : wf_locks l -> Forall (kept l) l.
Proof.
  intros Hw. apply Forall_forall. intros q Hq. split.
  - by eapply Forall_forall in Hq.
  - exists q. split; [done|]. unfold fragment, same_owner. intuition lia.
Qed.

Lemma kept_good inf l q : kept l q -> good inf l q.
Proof. intros [Hw Hp]. split; [done|]. by left. Qed.

Lemma good_self inf l : wf_locks l -> Forall (good inf l) l.
Proof. intros Hw. eapply Forall_impl; [by apply kept_self|apply kept_good]. Qed.

Lemma kept_fragment l p q :
  kept l p -> fragment p q -> po_ex q = po_ex p -> po_start q <= po_end q -> kept l q.
Proof.
  intros [(H1 & H2 & H3 & H4) (p0 & Hp0 & (Hso0 & Hg1 & Hg2) & Hx)] (Hso & Hf1 & Hf2) He Hle.
  split; [unfold wf_lock, in_u, is_mode in *; lia|]. exists p0.
  unfold fragment, same_owner in *. intuition lia.
Qed.

Lemma good_fragment inf l p q :
  good inf l p -> fragment p q -> po_ex q = po_ex p ->
  po_start q <= po_end q -> good inf l q.
Proof.
  intros [(H1 & H2 & H3 & H4) Hd] (Hso & Hf1 & Hf2) He Hle. split.
  - unfold wf_lock, in_u, is_mode in *. lia.
  - destruct Hd as [(p0 & Hp0 & (Hso0 & Hg1 & Hg2) & Hx)|Hd]; [left; exists p0|right];
      unfold fragment, same_owner in *; intuition lia.
Qed.

Lemma good_request inf l q :
  wf_info inf -> po_nodeid q = i_nodeid inf -> po_owner q = i_owner inf ->
  po_start q = i_start inf -> po_end q = i_end inf -> po_ex q = i_ex inf ->
  good inf l q.
Proof.
  intros Hi H1 H2 H3 H4 H5. split.
  - unfold wf_lock. rewrite H3, H4, H5. exact Hi.
  - right. lia.
Qed.

(** A fragment of [po] in the mode [po] has, whatever its other fields. *)
Ltac good_frag po :=
  eapply (good_fragment _ _ po); [assumption|
    unfold fragment, same_owner; simpl; intuition lia|simpl; lia|simpl; lia].

Lemma lock_case1_good m before po rest inf l rv l' m' :
  wf_info inf -> Forall (good inf l) (before ++ po :: rest) ->
  mine_overlaps inf po = true -> po_ex po <> i_ex inf ->
  overlap_type (i_start inf) (i_end inf) (po_start po) (po_end po) = 1 ->
  lock_case1 m before po rest inf = (rv, l', m') ->
  (rv = 0 \/ rv = - ENOMEM) /\ Forall (good inf l) l'.
Proof.
  intros Hi Hg Hm Hex Ht Hc.
  assert (Hpo : good inf l po) by (eapply Forall_forall; [exact Hg|set_solver]).
  assert (Hwf := proj1 Hpo). apply mine_overlaps_spec in Hm as (Hn & Ho & H1 & H2).
  assert (Hc' := c_not_mode _ _ (proj2 (proj2 (proj2 Hwf))) (proj2 (proj2 (proj2 Hi))) Hex).
  rewrite Forall_app, Forall_cons in Hg. destruct Hg as (Hg1 & _ & Hg2).
  destruct (overlap_type_cases (i_start inf) (i_end inf) (po_start po) (po_end po))
    as [?|[[_ Hcase]|[?|[?|?]]]]; try lia; [apply Hi|apply Hwf|].
  unfold lock_case1, shrink_range2, add_lock in Hc. rewrite Hc' in Hc.
  set (po' := po_set_ex _ _) in Hc.
  assert (Hpo' : good inf l po') by (apply good_request; auto).
  destruct Hwf as (Hps & Hpe & Hpse & Hpm), Hi as (Hs & He & Hse & Hmo).
  destruct (po_start po <? i_start inf) eqn:E1; zbool; [|replace (po_end po >? i_end inf)
      with true in Hc by lia];
    simpl in Hc; destruct (malloc m) as [[g|] ?]; injection Hc as <- <- <-;
    (split; [lia|]); rewrite ?Forall_app, ?Forall_cons; split_and!; auto.
  - rewrite (u64_pred (i_start inf)) by (auto; unfold in_u in *; lia). good_frag po.
  - rewrite (u64_succ _ (po_end po)) by (auto; unfold in_u in *; lia). good_frag po.
Qed.

Lemma lock_case2_good m before po rest inf l rv l' m' :
  wf_info inf -> Forall (good inf l) (before ++ po :: rest) ->
  mine_overlaps inf po = true -> po_ex po <> i_ex inf ->
  overlap_type (i_start inf) (i_end inf) (po_start po) (po_end po) = 2 ->
  lock_case2 m before po rest inf = (rv, l', m') ->
  (rv = 0 \/ rv = - ENOMEM) /\ Forall (good inf l) l'.
Proof.
  intros Hi Hg Hm Hex Ht Hc.
  assert (Hpo : good inf l po) by (eapply Forall_forall; [exact Hg|set_solver]).
  assert (Hwf := proj1 Hpo). apply mine_overlaps_spec in Hm as (Hn & Ho & H1 & H2).
  assert (Hc' := c_not_mode _ _ (proj2 (proj2 (proj2 Hwf))) (proj2 (proj2 (proj2 Hi))) Hex).
  rewrite Forall_app, Forall_cons in Hg. destruct Hg as (Hg1 & _ & Hg2).
  destruct (overlap_type_cases (i_start inf) (i_end inf) (po_start po) (po_end po))
    as [?|[?|[[_ Hcase]|[?|?]]]]; try lia; [apply Hi|apply Hwf|].
  unfold lock_case2, add_lock in Hc. rewrite Hc' in Hc.
  set (po' := po_set_ex _ _) in Hc.
  assert (Hpo' : good inf l po') by (apply good_request; auto).
  destruct Hwf as (Hps & Hpe & Hpse & Hpm), Hi as (Hs & He & Hse & Hmo).
  rewrite (u64_pred (i_start inf)), (u64_succ _ (po_end po)) in Hc
    by (auto; unfold in_u in *; lia).
  destruct (malloc m) as [[g|] m1]; simpl in Hc;
    [destruct (malloc m1) as [[g'|] m2]; simpl in Hc|]; injection Hc as <- <- <-;
    (split; [lia|]); repeat rewrite ?Forall_app, ?Forall_cons, ?Forall_nil;
    split_and!; auto; good_frag po.
Qed.

Lemma lock_loop_good m inf l before todo rv l' m' :
  wf_info inf -> Forall (good inf l) (before ++ todo) ->
  lock_loop m inf before todo = (rv, l', m') ->
  (rv = 0 \/ rv = - ENOMEM) /\ Forall (good inf l) l'.
Proof.
  intros Hi. revert m before. induction todo as [|po rest IH]; intros m before Hg Hl;
    cbn [lock_loop] in Hl.
  { rewrite app_nil_r in Hg. unfold add_lock in Hl.
    destruct (malloc m) as [[g|] ?]; injection Hl as <- <- <-; (split; [lia|]); [|done].
    apply Forall_app. split; [done|]. apply Forall_singleton. by apply good_request. }
  assert (Hpo : good inf l po) by (eapply Forall_forall; [exact Hg|set_solver]).
  assert (Hg' := Hg). rewrite Forall_app, Forall_cons in Hg'.
  destruct Hg' as (Hg1 & _ & Hg2). assert (Hwf := proj1 Hpo).
  destruct (mine_overlaps inf po) eqn:Hm; simpl in Hl.
  2:{ eapply IH; [|exact Hl]. by rewrite <- app_assoc. }
  assert (Hm' := Hm). apply mine_overlaps_spec in Hm' as (Hn & Ho & H1 & H2).
  assert (Hconv : good inf l (po_set_ex po (po_ex po))) by by rewrite po_set_ex_id.
  destruct (overlap_type_cases (i_start inf) (i_end inf) (po_start po) (po_end po))
    as [[Ht Hc]|[[Ht Hc]|[[Ht Hc]|[[Ht Hc]|[Ht Hc]]]]];
    [apply Hi|apply Hwf|lia|lia|..]; rewrite Ht in Hl; simpl in Hl.
  - destruct (po_ex po =? i_ex inf) eqn:Ex; zbool; injection Hl as <- <- <-;
      (split; [lia|]); [done|]. rewrite Forall_app, Forall_cons. split_and!; auto.
    apply good_request; simpl; auto; lia.
  - destruct (po_ex po =? i_ex inf) eqn:Ex; zbool; [|by eapply lock_case1_good].
    injection Hl as <- <- <-. split; [lia|done].
  - destruct (po_ex po =? i_ex inf) eqn:Ex; zbool; [|by eapply lock_case2_good].
    injection Hl as <- <- <-. split; [lia|done].
  - eapply IH; [|exact Hl]. by apply Forall_app.
  - eapply IH; [|exact Hl]. rewrite !Forall_app, Forall_singleton. split_and!; auto.
    destruct Hwf as (Hps & Hpe & Hpse & Hpm), Hi as (Hs & He & Hse & Hmo). zcase.
    + rewrite (u64_pred (i_start inf)) by (auto; unfold in_u in *; lia). good_frag po.
    + rewrite (u64_succ _ (po_end po)) by (auto; unfold in_u in *; lia). good_frag po.
Qed.

Ltac kept_frag po :=
  eapply (kept_fragment _ po); [assumption|
    unfold fragment, same_owner; simpl; intuition lia|simpl; lia|simpl; lia].

Lemma unlock_loop_kept m inf l before todo rv l' m' :
  wf_info inf -> Forall (kept l) (before ++ todo) ->
  unlock_loop m inf 0 before todo = (rv, l', m') ->
  (rv = 0 \/ rv = - ENOMEM) /\ Forall (kept l) l'.
Proof.
  intros Hi. revert m before. induction todo as [|po rest IH]; intros m before Hg Hl;
    cbn [unlock_loop] in Hl.
  { rewrite app_nil_r in Hg. injection Hl as <- <- <-. split; [lia|done]. }
  assert (Hpo : kept l po) by (eapply Forall_forall; [exact Hg|set_solver]).
  rewrite Forall_app, Forall_cons in Hg. destruct Hg as (Hg1 & _ & Hg2).
  assert (Hwf := proj1 Hpo).
  destruct (mine_overlaps inf po) eqn:Hm; simpl in Hl.
  2:{ eapply IH; [|exact Hl]. rewrite <- app_assoc, Forall_app; simpl. by auto. }
  assert (Hm' := Hm). apply mine_overlaps_spec in Hm' as (Hn & Ho & H1 & H2).
  assert (Hshrink : forall po', trimmed inf po [po'] -> po_ex po' = po_ex po -> kept l po').
  { intros po' (_ & Hf & _ & Hw & _) He. rewrite Forall_singleton in Hf.
    unfold wf_locks in Hw. rewrite Forall_singleton in Hw.
    eapply kept_fragment; [exact Hpo|done|done|apply Hw]. }
  destruct (overlap_type_cases (i_start inf) (i_end inf) (po_start po) (po_end po))
    as [[Ht Hc]|[[Ht Hc]|[[Ht Hc]|[[Ht Hc]|[Ht Hc]]]]];
    [apply Hi|apply Hwf|lia|lia|..]; rewrite Ht in Hl; simpl in Hl.
  - injection Hl as <- <- <-. split; [lia|]. by apply Forall_app.
  - destruct (shrink_range_trimmed inf po) as (po' & E & Htr); auto; [lia|].
    assert (po_ex po' = po_ex po) by
      (unfold shrink_range in E; destruct (shrink_range2 _ _ _ _) as [? []];
       by injection E as _ <-).
    rewrite E in Hl. injection Hl as <- <- <-. split; [lia|].
    rewrite Forall_app, Forall_cons. auto.
  - destruct Hwf as (Hps & Hpe & Hpse & Hpm), Hi as (Hs & He & Hse & Hmo).
    rewrite (u64_pred (i_start inf)), (u64_succ _ (po_end po)) in Hl
      by (auto; unfold in_u in *; lia).
    unfold add_lock in Hl. destruct (malloc m) as [[g|] m1]; injection Hl as <- <- <-;
      (split; [lia|]); repeat rewrite ?Forall_app, ?Forall_cons, ?Forall_nil;
      split_and!; auto; kept_frag po.
  - eapply IH; [|exact Hl]. by apply Forall_app.
  - destruct (shrink_range_trimmed inf po) as (po' & E & Htr); auto; [lia|].
    assert (po_ex po' = po_ex po) by
      (unfold shrink_range in E; destruct (shrink_range2 _ _ _ _) as [? []];
       by injection E as _ <-).
    rewrite E in Hl. eapply IH; [|exact Hl].
    rewrite !Forall_app, Forall_singleton. auto.
Qed.

(** The allocator outcomes an operation consumes, and its failures. *)
Definition mem_used (m m' : mem) (rv : Z) : Prop :=
  m' `suffix_of` m /\ (rv = - ENOMEM -> None ∈ m).

Lemma add_lock_mem m l n o p ex s e rv l' m' :
  add_lock m l n o p ex s e = (rv, l', m') -> mem_used m m' rv.
Proof.
  unfold add_lock, malloc. destruct m as [|[g|] m0]; intros [= <- <- <-];
    (split; [|set_solver]); [done|by exists [Some g]|by exists [None]].
Qed.

Lemma lock_loop_mem m inf before todo rv l' m' :
  lock_loop m inf before todo = (rv, l', m') -> mem_used m m' rv.
Proof.
  revert before. induction todo as [|po rest IH]; intros before; cbn [lock_loop];
    [apply add_lock_mem|].
  assert (Hdone : forall l0 (v : Z), (v, l0, m) = (rv, l', m') -> v <> - ENOMEM ->
    mem_used m m' rv) by (intros ? ? [= <- _ <-]; split; [done|lia]).
  repeat zcase; eauto.
  - unfold lock_case1. destruct (shrink_range2 _ _ _ _) as [v []] eqn:E.
    unfold shrink_range2 in E. repeat zcase_in E; injection E as <- <- <-; simpl;
      eauto using add_lock_mem.
  - unfold lock_case2. destruct (add_lock m _ _ _ _ _ _ _) as [[v1 l1] m1] eqn:E1.
    apply add_lock_mem in E1 as [Hs1 Hn1].
    destruct (c_true v1); [intros [= <- <- <-]; by split|].
    destruct (add_lock m1 _ _ _ _ _ _ _) as [[v2 l2] m2] eqn:E2.
    apply add_lock_mem in E2 as [Hs2 Hn2].
    assert (mem_used m m2 v2).
    { split; [by etrans|]. intros ?. destruct Hs1 as [k ->]. set_solver. }
    destruct (c_true v2); intros [= <- <- <-]; done.
Qed.

Lemma unlock_loop_mem m inf v before todo rv l' m' :
  v <> - ENOMEM ->
  unlock_loop m inf v before todo = (rv, l', m') -> mem_used m m' rv.
Proof.
  revert v before. induction todo as [|po rest IH]; intros v before Hv;
    cbn [unlock_loop]; [intros [= <- <- <-]; by split|].
  assert (Hsh : forall v' po', shrink_range po (i_start inf) (i_end inf) = (v', po') ->
    v' <> - ENOMEM).
  { intros v' po'. unfold shrink_range, shrink_range2, ENOMEM. repeat zcase; intros [= <- <-]; lia. }
  repeat zcase; eauto.
  - intros [= <- <- <-]; by split.
  - destruct (shrink_range _ _ _) as [v' po']. intros [= <- <- <-].
    split; [done|]. intros ?. by destruct (Hsh v' po').
  - destruct (add_lock _ _ _ _ _ _ _ _) as [[v1 l1] m1] eqn:E1.
    apply add_lock_mem in E1. by intros [= <- <- <-].
  - destruct (shrink_range _ _ _) as [v' po']. eauto.
  - intros [= <- <- <-]; split; [done|]. unfold ENOMEM. lia.
Qed.

(** ** Conflicts between owners *)

Lemma is_conflict_existsb locks inf get :
  fst (is_conflict locks inf get) = existsb (conflicts inf) locks.
Proof.
  induction locks as [|po rest IH]; simpl; [done|].
  destruct (conflicts inf po); simpl; done.
Qed.

Lemma is_conflict_noget locks inf : snd (is_conflict locks inf false) = inf.
Proof. induction locks as [|po rest IH]; simpl; [done|]. by destruct (conflicts inf po). Qed.

Lemma conflicts_spec inf po :
  conflicts inf po = true <->
  ~ (po_nodeid po = i_nodeid inf /\ po_owner po = i_owner inf) /\
  i_start inf <= po_end po /\ po_start po <= i_end inf /\
  (i_ex inf <> 0 \/ po_ex po <> 0).
Proof.
  unfold conflicts, c_true. zcase; [lia|].
  destruct (ranges_overlap _ _ _ _) eqn:E; simpl.
  - apply ranges_overlap_spec in E. lia.
  - split; [done|]. intros (_ & H1 & H2 & _).
    rewrite (proj2 (ranges_overlap_spec _ _ _ _)) in E; [done|lia].
Qed.

(** [no_conflict] speaks of all pairs, in any order. *)
Lemma no_conflict_all l :
  no_conflict l <-> forall p q, p ∈ l -> q ∈ l -> cross_ok p q.
Proof.
  unfold no_conflict. induction l as [|a l IH].
  { split; [|constructor]. intros _ p q Hp. by apply not_elem_of_nil in Hp. }
  rewrite ForallOrdPairs_cons, IH. split.
  - intros [Ha Hl] p q Hp Hq.
    apply elem_of_cons in Hp as [->|Hp], Hq as [->|Hq]; auto.
    + left. by split.
    + by apply cross_ok_sym, Ha.
  - intros H. split; intros; apply H; set_solver.
Qed.

(** A run that derives its locks from a conflict-free list and a request in
    conflict with none of them leaves a conflict-free list. *)
Lemma derived_no_conflict inf l l' :
  no_conflict l -> Forall (fun p => conflicts inf p = false) l ->
  Forall (good inf l) l' -> no_conflict l'.
Proof.
  rewrite !no_conflict_all. intros Hl Hc Hg p q Hp Hq.
  rewrite Forall_forall in Hc, Hg.
  assert (Hreq : forall a b, a ∈ l -> po_nodeid b = i_nodeid inf -> po_owner b = i_owner inf ->
    i_start inf <= po_start b -> po_end b <= i_end inf -> po_ex b = i_ex inf ->
    wf_lock b -> forall c, fragment a c -> po_ex c = po_ex a -> wf_lock c -> cross_ok c b).
  { intros a b Ha Hn Ho Hs He Hx (_ & _ & Hb & _) c ([Hc1 Hc2] & Hf1 & Hf2) Hcx (_ & _ & Hcw & _).
    specialize (Hc a Ha). unfold cross_ok, same_owner, disjoint_ranges.
    destruct (decide (po_nodeid c = po_nodeid b /\ po_owner c = po_owner b)); [by left|right].
    destruct (decide (po_end c < po_start b)); [lia|].
    destruct (decide (po_end b < po_start c)); [lia|].
    right. rewrite Hcx, Hx.
    destruct (decide (po_ex a = 0 /\ i_ex inf = 0)) as [|Hne]; [lia|].
    rewrite (proj2 (conflicts_spec _ _)) in Hc; [done|]. lia. }
  destruct (Hg p Hp) as [Hwp [(a & Ha & Hfa & Hxa)|(Hn & Ho & Hs & He & Hx)]],
           (Hg q Hq) as [Hwq [(b & Hb & Hfb & Hxb)|(Hn' & Ho' & Hs' & He' & Hx')]].
  - destruct Hfa as ([] & ? & ?), Hfb as ([] & ? & ?).
    destruct (Hl a b Ha Hb) as [[]|[[]|[]]]; unfold cross_ok, same_owner, disjoint_ranges; lia.
  - eapply (Hreq a); eauto.
  - apply cross_ok_sym. eapply (Hreq b); eauto.
  - left. split; lia.
Qed.

Lemma lock_internal_no_conflict m l inf rv l' m' :
  wf_locks l -> wf_info inf -> no_conflict l ->
  fst (is_conflict l inf false) = false ->
  lock_internal m l inf = (rv, l', m') -> no_conflict l' /\ wf_locks l'.
Proof.
  intros Hw Hi Hn Hc Hl. rewrite is_conflict_existsb in Hc.
  apply lock_loop_good with (l := l) in Hl as [_ Hg]; [|done|by apply good_self].
  split; [|by eapply Forall_impl; [exact Hg|intros ? []]].
  eapply derived_no_conflict; [exact Hn| |exact Hg]. by apply existsb_false_Forall.
Qed.

Lemma kept_no_conflict l l' : no_conflict l -> Forall (kept l) l' -> no_conflict l'.
Proof.
  rewrite !no_conflict_all. intros Hl Hk p q Hp Hq. rewrite Forall_forall in Hk.
  destruct (Hk p Hp) as [_ (a & Ha & ([] & ? & ?) & ?)],
           (Hk q Hq) as [_ (b & Hb & ([] & ? & ?) & ?)].
  destruct (Hl a b Ha Hb) as [[]|[[]|[]]];
    unfold cross_ok, same_owner, disjoint_ranges; lia.
Qed.

Lemma unlock_internal_no_conflict m l inf rv l' m' :
  wf_locks l -> wf_info inf -> no_conflict l ->
  unlock_internal m l inf = (rv, l', m') -> no_conflict l' /\ wf_locks l'.
Proof.
  intros Hw Hi Hn Hl.
  apply unlock_loop_kept with (l := l) in Hl as [_ Hg]; [|done|by apply kept_self].
  split; [by eapply kept_no_conflict|].
  eapply Forall_impl; [exact Hg|intros ? []; done].
Qed.

(** ** Theorems of the component *)

Definition spec_conflict (f : lock_map) (inf : dlm_plock_info) : Prop :=
  exists n o x e,
    ~ (n = i_nodeid inf /\ o = i_owner inf) /\ i_start inf <= x <= i_end inf /\
    f n o x = Some e /\ (i_ex inf <> 0 \/ e <> 0).

Lemma mode_at_granted inf l l' n o x :
  owners_disjoint l -> granted inf l l' ->
  mode_at l' n o x = spec_lock (mode_at l) inf n o x.
Proof.
  intros Hd (Hd' & _ & Hh). unfold spec_lock.
  destruct (in_request inf n o x) eqn:E.
  - apply mode_at_held; [done|]. rewrite Hh, E. done.
  - apply mode_at_ext; auto. intros e. by rewrite Hh, E.
Qed.

Lemma mode_at_released inf l l' n o x :
  owners_disjoint l -> released inf l l' ->
  mode_at l' n o x = spec_unlock (mode_at l) inf n o x.
Proof.
  intros Hd (Hd' & _ & Hh). unfold spec_unlock.
  destruct (in_request inf n o x) eqn:E.
  - destruct (mode_at l' n o x) as [e|] eqn:F; [|done].
    apply mode_at_held, Hh in F; [|done]. rewrite E in F. by destruct F.
  - apply mode_at_ext; auto. intros e. rewrite Hh, E. naive_solver.
Qed.

Lemma lock_internal_outcome m l inf rv l' m' :
  wf_locks l -> wf_info inf -> lock_internal m l inf = (rv, l', m') ->
  rv = 0 \/ rv = - ENOMEM /\ None ∈ m.
Proof.
  intros Hw Hi Hl. assert (Hm := lock_loop_mem _ _ _ _ _ _ _ Hl).
  apply lock_loop_good with (l := l) in Hl as [[|] _]; [by left| |done|by apply good_self].
  right. split; [done|by apply Hm].
Qed.

Lemma unlock_internal_outcome m l inf rv l' m' :
  wf_locks l -> wf_info inf -> unlock_internal m l inf = (rv, l', m') ->
  rv = 0 \/ rv = - ENOMEM /\ None ∈ m.
Proof.
  intros Hw Hi Hl. assert (Hm : mem_used m m' rv)
    by (eapply unlock_loop_mem; [|exact Hl]; unfold ENOMEM; lia).
  apply unlock_loop_kept with (l := l) in Hl as [[|] _]; [by left| |done|by apply kept_self].
  right. split; [done|by apply Hm].
Qed.

(** C17: [lock_internal] refines the pointwise update of the lock map: on a
    well-formed lock list whose owners do not overlap and a request with
    [start <= end], it returns 0, or [-ENOMEM] when an allocation failed; when it
    returns 0 the owner holds the requested mode on exactly the bytes of the
    request and what it held elsewhere, every other owner's modes are unchanged,
    and the list invariants hold again. *)
Theorem lock_internal_refines m locks inf rv locks' m' :
  owners_disjoint locks -> wf_locks locks -> wf_info inf ->
  lock_internal m locks inf = (rv, locks', m') ->
  (rv = 0 \/ rv = - ENOMEM /\ None ∈ m) /\
  (rv = 0 ->
   owners_disjoint locks' /\ wf_locks locks' /\
   forall n o x, mode_at locks' n o x = spec_lock (mode_at locks) inf n o x).
Proof.
  intros Hd Hw Hi Hl. split; [by eapply lock_internal_outcome|]. intros ->.
  apply lock_loop_granted in Hl; [|by apply loop_inv_init].
  split; [apply Hl|]. split; [apply Hl|]. intros. by apply mode_at_granted.
Qed.

(** C26: [unlock_internal] refines the removal of the request's bytes from the
    owner's part of the lock map, with the same error behaviour. *)
Theorem unlock_internal_refines m locks inf rv locks' m' :
  owners_disjoint locks -> wf_locks locks -> wf_info inf ->
  unlock_internal m locks inf = (rv, locks', m') ->
  (rv = 0 \/ rv = - ENOMEM /\ None ∈ m) /\
  (rv = 0 ->
   owners_disjoint locks' /\ wf_locks locks' /\
   forall n o x, mode_at locks' n o x = spec_unlock (mode_at locks) inf n o x).
Proof.
  intros Hd Hw Hi Hl. split; [by eapply unlock_internal_outcome|]. intros ->.
  apply unlock_loop_released in Hl; [|by apply loop_inv_init].
  split; [apply Hl|]. split; [apply Hl|]. intros. by apply mode_at_released.
Qed.

Lemma existsb_conflicts_spec l inf :
  owners_disjoint l -> wf_locks l -> wf_info inf ->
  existsb (conflicts inf) l = true <-> spec_conflict (mode_at l) inf.
Proof.
  intros Hd Hw Hi. rewrite existsb_exists_elem. split.
  - intros (po & Hpo & Hc). apply conflicts_spec in Hc as (Hne & H1 & H2 & Hx).
    assert (Hwp : wf_lock po) by by eapply Forall_forall in Hpo.
    destruct Hwp as (_ & _ & ? & _), Hi as (_ & _ & ? & _).
    exists (po_nodeid po), (po_owner po), (Z.max (po_start po) (i_start inf)), (po_ex po).
    split; [done|]. split; [lia|]. split; [|done].
    apply mode_at_held; [done|]. exists po. split; [done|]. unfold holds. lia.
  - intros (n & o & x & e & Hne & Hx & Hm & He).
    apply mode_at_held in Hm as (po & Hpo & <- & <- & Hr & <-); [|done].
    exists po. split; [done|]. apply conflicts_spec. lia.
Qed.

(** [is_conflict] answers exactly when some other owner holds, on a byte of
    the request, a mode that is incompatible with the requested one; a GET
    that finds no conflict leaves the request as it was, and one that finds a
    conflict describes a conflicting lock of the list. *)
Theorem is_conflict_refines locks inf get :
  owners_disjoint locks -> wf_locks locks -> wf_info inf ->
  (fst (is_conflict locks inf get) = true <-> spec_conflict (mode_at locks) inf) /\
  (fst (is_conflict locks inf get) = false -> snd (is_conflict locks inf get) = inf) /\
  (fst (is_conflict locks inf true) = true ->
   exists po, po ∈ locks /\ conflicts inf po = true /\
     let g := snd (is_conflict locks inf true) in
     i_ex g = po_ex po /\ i_pid g = po_pid po /\
     i_start g = po_start po /\ i_end g = po_end po).
Proof.
  intros Hd Hw Hi. split; [|split].
  - rewrite is_conflict_existsb. by apply existsb_conflicts_spec.
  - clear Hd Hw. induction locks as [|po l IH]; simpl; [done|].
    by destruct (conflicts inf po).
  - clear Hd. induction locks as [|po l IH]; simpl; [done|].
    unfold wf_locks in Hw. rewrite Forall_cons in Hw. destruct Hw as [Hpo Hw].
    destruct (conflicts inf po) eqn:E; simpl.
    + intros _. exists po. split; [by left|]. split; [done|]. split_and!; try done.
      apply wrap_small. destruct Hpo as (_ & _ & _ & Hm).
      unfold in_u, is_mode in *. lia.
    + intros H. destruct (IH Hw H) as (q & Hq & ?). exists q. split; [by right|done].
Qed.

(** Two lock lists with the same lock map are interchangeable. *)
Definition lmap_equiv (l l' : list posix_lock) : Prop :=
  forall n o x, mode_at l n o x = mode_at l' n o x.

#[export] Instance lmap_equiv_equivalence : Equivalence lmap_equiv.
Proof.
  split; [done|intros ? ? H ? ? ?; by rewrite H|
    intros ? ? ? H1 H2 ? ? ?; by rewrite H1, H2].
Qed.

#[export] Instance spec_conflict_proper :
  Proper (pointwise_relation Z (pointwise_relation Z (pointwise_relation Z eq)) ==>
          eq ==> iff) spec_conflict.
Proof.
  intros f g Hfg inf ? <-. unfold spec_conflict.
  assert (E : forall n o x, f n o x = g n o x) by apply Hfg.
  by setoid_rewrite E.
Qed.

Lemma lock_internal_nil_mem l inf :
  wf_locks l -> wf_info inf ->
  exists l', lock_internal [] l inf = (0, l', []).
Proof.
  intros Hw Hi. destruct (lock_internal [] l inf) as [[rv l'] m'] eqn:E.
  assert (Hm := lock_loop_mem _ _ _ _ _ _ _ E).
  apply lock_internal_outcome in E as [->|[_ ?]]; [|set_solver|done|done].
  destruct Hm as [Hs _]. apply suffix_nil_inv in Hs as ->. by exists l'.
Qed.

Lemma unlock_internal_nil_mem l inf :
  wf_locks l -> wf_info inf ->
  exists l', unlock_internal [] l inf = (0, l', []).
Proof.
  intros Hw Hi. destruct (unlock_internal [] l inf) as [[rv l'] m'] eqn:E.
  assert (Hm : mem_used [] m' rv)
    by (eapply unlock_loop_mem; [|exact E]; unfold ENOMEM; lia).
  apply unlock_internal_outcome in E as [->|[_ ?]]; [|set_solver|done|done].
  destruct Hm as [Hs _]. apply suffix_nil_inv in Hs as ->. by exists l'.
Qed.

(** The representation of a lock map does not matter: two well-formed lists
    with the same lock map, however fragmented, give the same conflict answer to
    every request, and locking or unlocking both again gives lists with the same
    lock map (no allocation failing). *)
Theorem lock_ops_congruent l1 l2 inf :
  owners_disjoint l1 -> wf_locks l1 -> owners_disjoint l2 -> wf_locks l2 ->
  wf_info inf -> lmap_equiv l1 l2 ->
  fst (is_conflict l1 inf false) = fst (is_conflict l2 inf false) /\
  lmap_equiv (lock_internal [] l1 inf).1.2 (lock_internal [] l2 inf).1.2 /\
  lmap_equiv (unlock_internal [] l1 inf).1.2 (unlock_internal [] l2 inf).1.2.
Proof.
  intros Hd1 Hw1 Hd2 Hw2 Hi He. split; [|split].
  - rewrite !is_conflict_existsb. apply eq_true_iff_eq.
    rewrite !existsb_conflicts_spec by done. by apply spec_conflict_proper.
  - destruct (lock_internal_nil_mem l1 inf) as [l1' E1]; auto.
    destruct (lock_internal_nil_mem l2 inf) as [l2' E2]; auto.
    rewrite E1, E2. apply lock_loop_granted in E1, E2; try by apply loop_inv_init.
    intros n o x. simpl. rewrite (mode_at_granted inf l1 l1'), (mode_at_granted inf l2 l2') by done.
    unfold spec_lock. by rewrite He.
  - destruct (unlock_internal_nil_mem l1 inf) as [l1' E1]; auto.
    destruct (unlock_internal_nil_mem l2 inf) as [l2' E2]; auto.
    rewrite E1, E2. apply unlock_loop_released in E1, E2; try by apply loop_inv_init.
    intros n o x. simpl.
    rewrite (mode_at_released inf l1 l1'), (mode_at_released inf l2 l2') by done.
    unfold spec_unlock. by rewrite He.
Qed.

(** ** Concrete instances *)

Definition ex_info (optype ex wait nodeid start end_ owner : Z) : dlm_plock_info :=
  mkInfo (1, 2, 0) optype ex wait 0 100 nodeid 0 7 42 start end_ owner.

Definition ex_locks : list posix_lock :=
  [mkPo 10 1 0 99 1 1 0; mkPo 11 2 200 299 0 2 0; mkPo 10 1 300 399 0 1 0].

Ltac wf_concrete :=
  unfold owners_disjoint, wf_locks, ex_locks;
  repeat match goal with
  | |- ForallOrdPairs _ _ => constructor
  | |- Forall _ _ => constructor
  end;
  unfold self_ok, same_owner, disjoint_ranges, wf_lock, wf_info, is_mode, in_u;
  simpl; lia.

Lemma lock_internal_refines_witness :
  lock_internal [Some 5; Some 6] ex_locks (ex_info 1 0 0 1 20 29 1) =
    (0, [mkPo 10 1 20 29 0 1 0; mkPo 11 2 200 299 0 2 0; mkPo 10 1 300 399 0 1 0;
         mkPo 100 1 0 19 1 1 0; mkPo 100 1 30 99 1 1 0], []) /\
  mode_at (lock_internal [Some 5; Some 6] ex_locks (ex_info 1 0 0 1 20 29 1)).1.2 1 1 25
    = Some 0.
Proof.
  split; [reflexivity|].
  assert (H := lock_internal_refines [Some 5; Some 6] ex_locks (ex_info 1 0 0 1 20 29 1)
    0 _ [] ltac:(wf_concrete) ltac:(wf_concrete) ltac:(wf_concrete) eq_refl).
  destruct H as [_ H]. destruct (H eq_refl) as (_ & _ & Hx). exact (Hx 1 1 25).
Defined.

Lemma unlock_internal_refines_witness :
  mode_at (unlock_internal [] ex_locks (ex_info 2 0 0 1 50 349 1)).1.2 1 1 60 = None /\
  mode_at (unlock_internal [] ex_locks (ex_info 2 0 0 1 50 349 1)).1.2 1 1 350 = Some 0.
Proof.
  assert (H := unlock_internal_refines [] ex_locks (ex_info 2 0 0 1 50 349 1)
    0 _ [] ltac:(wf_concrete) ltac:(wf_concrete) ltac:(wf_concrete) eq_refl).
  destruct H as [_ H]. destruct (H eq_refl) as (_ & _ & Hx).
  split; [exact (Hx 1 1 60)|exact (Hx 1 1 350)].
Defined.

Lemma is_conflict_refines_witness :
  spec_conflict (mode_at ex_locks) (ex_info 3 1 0 3 250 260 9).
Proof.
  apply (is_conflict_refines ex_locks (ex_info 3 1 0 3 250 260 9) true
    ltac:(wf_concrete) ltac:(wf_concrete) ltac:(wf_concrete)).
  reflexivity.
Defined.

Lemma lock_ops_congruent_witness :
  fst (is_conflict [mkPo 10 1 0 9 1 1 0; mkPo 10 1 10 19 1 1 0] (ex_info 1 0 0 2 5 6 4) false)
  = fst (is_conflict [mkPo 10 1 0 19 1 1 0] (ex_info 1 0 0 2 5 6 4) false).
Proof.
  apply (lock_ops_congruent [mkPo 10 1 0 9 1 1 0; mkPo 10 1 10 19 1 1 0]
    [mkPo 10 1 0 19 1 1 0] (ex_info 1 0 0 2 5 6 4)
    ltac:(wf_concrete) ltac:(wf_concrete) ltac:(wf_concrete) ltac:(wf_concrete)
    ltac:(wf_concrete)).
  intros n o x. unfold mode_at, covers. simpl. repeat zcase; auto; exfalso; lia.
Defined.
