(* ===== verification/Plock.v ===== *)
(** * Cluster-wide POSIX locks: resources, lockspaces and message handlers

    The rest of [src/group/dlm_controld/plock.c] except the checkpoint: the
    resources of a lockspace, the three plock operations, waiting requests,
    the messages through which the nodes of a lockspace replicate their locks,
    and the ownership protocol (a node that is the only user of a resource owns
    it and keeps its locks local).

    A handler is a function on the state it changes: the [lockspace], the
    resource it works on (a pointer into the lockspace's list, [None] once it is
    freed) and the [world], which holds the allocator outcomes, the clock and
    what was written to the kernel and sent to the other nodes.  Messages carry
    host-order payloads; [PlockWire] shows that the byte swapping on both sides
    is the identity on them.  Logging and the statistics it prints are left
    out. *)

From S2P Require Import Prelude PlockRange.
Open Scope Z_scope.

(** ** State *)

(** [struct lock_waiter]: a waiting request, or a pending one. *)
Record lock_waiter := mkWaiter {
  wt_flags : Z;
  wt_info : dlm_plock_info
}.

(** [struct resource]. *)
Record resource := mkRes {
  r_number : Z;
  r_owner : Z;
  r_flags : Z;
  r_last_access : Z;
  r_locks : list posix_lock;
  r_waiters : list lock_waiter;
  r_pending : list lock_waiter
}.

Definition R_GOT_UNOWN : Z := 1.
Definition R_SEND_UNOWN : Z := 2.
Definition R_SEND_OWN : Z := 4.
Definition R_PURGE_UNOWN : Z := 8.
Definition R_SEND_DROP : Z := 16.
Definition P_SYNCING : Z := 1.

Definition r_set_owner (r : resource) (v : Z) : resource :=
  mkRes (r_number r) v (r_flags r) (r_last_access r) (r_locks r) (r_waiters r) (r_pending r).
Definition r_or_flags (r : resource) (v : Z) : resource :=
  mkRes (r_number r) (r_owner r) (Z.lor (r_flags r) v) (r_last_access r) (r_locks r)
    (r_waiters r) (r_pending r).
Definition r_set_access (r : resource) (v : Z) : resource :=
  mkRes (r_number r) (r_owner r) (r_flags r) v (r_locks r) (r_waiters r) (r_pending r).
Definition r_set_locks (r : resource) (v : list posix_lock) : resource :=
  mkRes (r_number r) (r_owner r) (r_flags r) (r_last_access r) v (r_waiters r) (r_pending r).
Definition r_set_waiters (r : resource) (v : list lock_waiter) : resource :=
  mkRes (r_number r) (r_owner r) (r_flags r) (r_last_access r) (r_locks r) v (r_pending r).
Definition r_set_pending (r : resource) (v : list lock_waiter) : resource :=
  mkRes (r_number r) (r_owner r) (r_flags r) (r_last_access r) (r_locks r) (r_waiters r) v.

(** [dlm_header] types of the plock messages. *)
Definition DLM_MSG_PLOCK : Z := 3.
Definition DLM_MSG_PLOCK_OWN : Z := 4.
Definition DLM_MSG_PLOCK_DROP : Z := 5.
Definition DLM_MSG_PLOCK_SYNC_LOCK : Z := 6.
Definition DLM_MSG_PLOCK_SYNC_WAITER : Z := 7.

(** A delivered message: [hd->type], [hd->nodeid] and the payload. *)
Record message := mkMsg {
  m_type : Z;
  m_nodeid : Z;
  m_info : dlm_plock_info
}.

(** The plock part of [struct lockspace]; [saved_messages] holds [sm->type] with
    the message. *)
Record lockspace := mkLs {
  ls_global_id : Z;
  ls_associated_mg_id : Z;
  ls_need_plocks : bool;
  ls_save_plocks : bool;
  ls_disable_plock : bool;
  ls_saved_messages : list (Z * message);
  ls_plock_resources : list resource;
  ls_last_checkpoint_time : Z;
  ls_last_plock_time : Z;
  ls_drop_resources_last : Z;
  ls_checkpoint_r_num_first : Z;
  ls_checkpoint_r_num_last : Z;
  ls_checkpoint_r_count : Z;
  ls_checkpoint_p_count : Z
}.

Definition ls_set_resources (ls : lockspace) (v : list resource) : lockspace :=
  mkLs (ls_global_id ls) (ls_associated_mg_id ls) (ls_need_plocks ls) (ls_save_plocks ls)
    (ls_disable_plock ls) (ls_saved_messages ls) v (ls_last_checkpoint_time ls)
    (ls_last_plock_time ls) (ls_drop_resources_last ls) (ls_checkpoint_r_num_first ls)
    (ls_checkpoint_r_num_last ls) (ls_checkpoint_r_count ls) (ls_checkpoint_p_count ls).
Definition ls_set_saved (ls : lockspace) (v : list (Z * message)) : lockspace :=
  mkLs (ls_global_id ls) (ls_associated_mg_id ls) (ls_need_plocks ls) (ls_save_plocks ls)
    (ls_disable_plock ls) v (ls_plock_resources ls) (ls_last_checkpoint_time ls)
    (ls_last_plock_time ls) (ls_drop_resources_last ls) (ls_checkpoint_r_num_first ls)
    (ls_checkpoint_r_num_last ls) (ls_checkpoint_r_count ls) (ls_checkpoint_p_count ls).
Definition ls_set_plock_time (ls : lockspace) (v : Z) : lockspace :=
  mkLs (ls_global_id ls) (ls_associated_mg_id ls) (ls_need_plocks ls) (ls_save_plocks ls)
    (ls_disable_plock ls) (ls_saved_messages ls) (ls_plock_resources ls)
    (ls_last_checkpoint_time ls) v (ls_drop_resources_last ls)
    (ls_checkpoint_r_num_first ls) (ls_checkpoint_r_num_last ls)
    (ls_checkpoint_r_count ls) (ls_checkpoint_p_count ls).
Definition ls_set_drop_last (ls : lockspace) (v : Z) : lockspace :=
  mkLs (ls_global_id ls) (ls_associated_mg_id ls) (ls_need_plocks ls) (ls_save_plocks ls)
    (ls_disable_plock ls) (ls_saved_messages ls) (ls_plock_resources ls)
    (ls_last_checkpoint_time ls) (ls_last_plock_time ls) v
    (ls_checkpoint_r_num_first ls) (ls_checkpoint_r_num_last ls)
    (ls_checkpoint_r_count ls) (ls_checkpoint_p_count ls).

(** The configuration and constants of the daemon. *)
Record config := mkConfig {
  our_nodeid : Z;
  cfgd_enable_plock : bool;
  cfgd_plock_ownership : bool;
  cfgd_plock_rate_limit : Z;
  cfgd_drop_resources_time : Z;
  cfgd_drop_resources_count : Z;
  cfgd_drop_resources_age : Z;
  need_fsid_translation : bool
}.

(** What the daemon does to its environment: results written to the plock
    device, and messages multicast to the lockspace (type and payload). *)
Inductive effect :=
| EvWrite (inf : dlm_plock_info)
| EvSend (type : Z) (inf : dlm_plock_info).

(** The clock is in microseconds and is read once per event. *)
Record world := mkWorld {
  wd_mem : mem;
  wd_now : Z;
  wd_out : list effect
}.

Definition wd_set_mem (wd : world) (m : mem) : world := mkWorld m (wd_now wd) (wd_out wd).
Definition emit (wd : world) (e : effect) : world :=
  mkWorld (wd_mem wd) (wd_now wd) (wd_out wd ++ [e]).

(** [time(NULL)]. *)
Definition wd_time (wd : world) : Z := wd_now wd / 1000000.

(** ** Small helpers of the source *)

Definition got_unown (r : resource) : bool := c_true (Z.land (r_flags r) R_GOT_UNOWN).

Definition time_diff_ms (begin_ end_ : Z) : Z := u64 ((end_ - begin_) / 1000).

Definition info_zero : dlm_plock_info := mkInfo (0, 0, 0) 0 0 0 0 0 0 0 0 0 0 0 0.

(** ** Finding, storing and freeing resources *)

Fixpoint search_resource (rs : list resource) (number : Z) : option resource :=
  match rs with
  | [] => None
  | r :: rs' => if r_number r =? number then Some r else search_resource rs' number
  end.

(** What a pointer from [search_resource] or a fresh tail element designates:
    the first resource of that number is replaced, or unlinked when freed. *)
Fixpoint rs_put (rs : list resource) (number : Z) (ro : option resource) : list resource :=
  match rs with
  | [] => []
  | r :: rs' =>
      if r_number r =? number
      then match ro with Some r' => r' :: rs' | None => rs' end
      else r :: rs_put rs' number ro
  end.

Definition ls_put (ls : lockspace) (number : Z) (ro : option resource) : lockspace :=
  ls_set_resources ls (rs_put (ls_plock_resources ls) number ro).

Definition find_resource (c : config) (ls : lockspace) (wd : world) (number : Z)
    (create : bool) : Z * option resource * lockspace * world :=
  match search_resource (ls_plock_resources ls) number with
  | Some r =>
      let r' := r_set_access r (wd_now wd) in
      (0, Some r', ls_put ls number (Some r'), wd)
  | None =>
      if negb create then (- ENOENT, None, ls, wd)
      else
        match malloc (wd_mem wd) with
        | (None, m') => (- ENOMEM, None, ls, wd_set_mem wd m')
        | (Some _, m') =>
            let r := mkRes number (if cfgd_plock_ownership c then -1 else 0) 0
                       (wd_now wd) [] [] [] in
            (0, Some r, ls_set_resources ls (ls_plock_resources ls ++ [r]),
             wd_set_mem wd m')
        end
  end.

Definition put_resource (c : config) (r : resource) : option resource :=
  if cfgd_plock_ownership c then Some r
  else
    match r_locks r, r_waiters r with
    | [], [] => None
    | _, _ => Some r
    end.

(** ** Waiters and results *)

Definition add_waiter (wd : world) (r : resource) (inf : dlm_plock_info)
  : Z * resource * world :=
  match malloc (wd_mem wd) with
  | (None, m') => (- ENOMEM, r, wd_set_mem wd m')
  | (Some g, m') =>
      (0, r_set_waiters r (r_waiters r ++ [mkWaiter (u32 g) inf]), wd_set_mem wd m')
  end.

Definition info_set_result (inf : dlm_plock_info) (fsid rv : Z) : dlm_plock_info :=
  mkInfo (i_version inf) (i_optype inf) (i_ex inf) (i_wait inf) (i_flags inf)
    (i_pid inf) (i_nodeid inf) rv fsid (i_number inf) (i_start inf) (i_end inf)
    (i_owner inf).

Definition write_result (c : config) (ls : lockspace) (wd : world)
    (inf : dlm_plock_info) (rv : Z) : world :=
  let fsid := if need_fsid_translation c then ls_associated_mg_id ls else i_fsid inf in
  emit wd (EvWrite (info_set_result inf fsid rv)).

(** The loop of [do_waiters]; [passed] are the waiters already left waiting. *)
Fixpoint waiters_loop (c : config) (ls : lockspace) (wd : world)
    (locks : list posix_lock) (passed todo : list lock_waiter)
  : list posix_lock * list lock_waiter * world :=
  match todo with
  | [] => (locks, passed, wd)
  | w :: rest =>
      let inf := wt_info w in
      if fst (is_conflict locks inf false)
      then waiters_loop c ls wd locks (passed ++ [w]) rest
      else
        let '(rv, locks', m') := lock_internal (wd_mem wd) locks inf in
        let wd1 := wd_set_mem wd m' in
        let wd2 := if i_nodeid inf =? our_nodeid c
                   then write_result c ls wd1 inf rv else wd1 in
        waiters_loop c ls wd2 locks' passed rest
  end.

Definition do_waiters (c : config) (ls : lockspace) (wd : world) (r : resource)
  : resource * world :=
  let '(locks', waiters', wd') := waiters_loop c ls wd (r_locks r) [] (r_waiters r) in
  (r_set_waiters (r_set_locks r locks') waiters', wd').

(** ** The three operations *)

(** The first half of [do_lock], up to the label [out]. *)
Definition do_lock_try (wd : world) (inf : dlm_plock_info) (r : resource)
  : Z * resource * world :=
  if fst (is_conflict (r_locks r) inf false) then
    if negb (c_true (i_wait inf)) then (- EAGAIN, r, wd)
    else
      let '(rv, r', wd') := add_waiter wd r inf in
      if c_true rv then (rv, r', wd') else (- EINPROGRESS, r', wd')
  else
    let '(rv, locks', m') := lock_internal (wd_mem wd) (r_locks r) inf in
    (rv, r_set_locks r locks', wd_set_mem wd m').

Definition do_lock (c : config) (ls : lockspace) (wd : world) (inf : dlm_plock_info)
    (r : resource) : option resource * world :=
  let '(rv, r1, wd1) := do_lock_try wd inf r in
  let wd2 :=
    if (i_nodeid inf =? our_nodeid c) && negb (rv =? - EINPROGRESS)
    then write_result c ls wd1 inf rv else wd1 in
  let '(r2, wd3) := do_waiters c ls wd2 r1 in
  (put_resource c r2, wd3).

Definition do_unlock (c : config) (ls : lockspace) (wd : world) (inf : dlm_plock_info)
    (r : resource) : option resource * world :=
  let '(rv, locks', m') := unlock_internal (wd_mem wd) (r_locks r) inf in
  let wd1 := wd_set_mem wd m' in
  let wd2 := if i_nodeid inf =? our_nodeid c
             then write_result c ls wd1 inf rv else wd1 in
  let '(r2, wd3) := do_waiters c ls wd2 (r_set_locks r locks') in
  (put_resource c r2, wd3).

Definition do_get (c : config) (ls : lockspace) (wd : world) (inf : dlm_plock_info)
    (r : resource) : option resource * world :=
  let '(conflict, inf') := is_conflict (r_locks r) inf true in
  (put_resource c r, write_result c ls wd inf' (if conflict then 1 else 0)).

(** [__receive_plock]: the lockspace without the change to [r], then [r]. *)
Definition receive_plock_op (c : config) (ls : lockspace) (wd : world)
    (inf : dlm_plock_info) (from : Z) (r : resource)
  : lockspace * option resource * world :=
  if i_optype inf =? DLM_PLOCK_OP_LOCK then
    let ls' := ls_set_plock_time ls (wd_time wd) in
    let '(ro, wd') := do_lock c ls' wd inf r in (ls', ro, wd')
  else if i_optype inf =? DLM_PLOCK_OP_UNLOCK then
    let ls' := ls_set_plock_time ls (wd_time wd) in
    let '(ro, wd') := do_unlock c ls' wd inf r in (ls', ro, wd')
  else if i_optype inf =? DLM_PLOCK_OP_GET then
    let '(ro, wd') := do_get c ls wd inf r in (ls, ro, wd')
  else
    (ls, Some r,
     if from =? our_nodeid c then write_result c ls wd inf (- EINVAL) else wd).

(** ** Sending *)

Definition send_struct_info (wd : world) (inf : dlm_plock_info) (msg_type : Z)
  : Z * world :=
  match malloc (wd_mem wd) with
  | (None, m') => (- ENOMEM, wd_set_mem wd m')
  | (Some _, m') => (0, emit (wd_set_mem wd m') (EvSend msg_type inf))
  end.

Definition send_plock (wd : world) (inf : dlm_plock_info) : world :=
  (send_struct_info wd inf DLM_MSG_PLOCK).2.

Definition info_for (number nodeid : Z) : dlm_plock_info :=
  mkInfo (0, 0, 0) 0 0 0 0 0 nodeid 0 0 number 0 0 0.

Definition send_own (wd : world) (r : resource) (owner : Z) : resource * world :=
  match r_pending r with
  | _ :: _ => (r, wd)
  | [] =>
      let r' := r_or_flags r (if owner =? 0 then R_SEND_UNOWN else R_SEND_OWN) in
      (r', (send_struct_info wd (info_for (r_number r) owner) DLM_MSG_PLOCK_OWN).2)
  end.

(** The two loops of [send_syncs]; the result says whether every message was
    sent, and the first failure ends both loops. *)
Fixpoint send_syncs_locks (wd : world) (number : Z) (locks : list posix_lock)
  : bool * list posix_lock * world :=
  match locks with
  | [] => (true, [], wd)
  | po :: rest =>
      let inf := mkInfo (0, 0, 0) 0 (u8 (po_ex po)) 0 0 (po_pid po) (po_nodeid po)
                   0 0 number (po_start po) (po_end po) (po_owner po) in
      let '(rv, wd1) := send_struct_info wd inf DLM_MSG_PLOCK_SYNC_LOCK in
      if c_true rv then (false, po :: rest, wd1)
      else
        let po' := po_set_flags po (Z.lor (po_flags po) P_SYNCING) in
        let '(ok, rest', wd2) := send_syncs_locks wd1 number rest in
        (ok, po' :: rest', wd2)
  end.

Fixpoint send_syncs_waiters (wd : world) (ws : list lock_waiter)
  : list lock_waiter * world :=
  match ws with
  | [] => ([], wd)
  | w :: rest =>
      let '(rv, wd1) := send_struct_info wd (wt_info w) DLM_MSG_PLOCK_SYNC_WAITER in
      if c_true rv then (w :: rest, wd1)
      else
        let w' := mkWaiter (Z.lor (wt_flags w) P_SYNCING) (wt_info w) in
        let '(rest', wd2) := send_syncs_waiters wd1 rest in
        (w' :: rest', wd2)
  end.

Definition send_syncs (wd : world) (r : resource) : resource * world :=
  let '(ok, locks', wd1) := send_syncs_locks wd (r_number r) (r_locks r) in
  let r1 := r_set_locks r locks' in
  if negb ok then (r1, wd1)
  else
    let '(waiters', wd2) := send_syncs_waiters wd1 (r_waiters r) in
    (r_set_waiters r1 waiters', wd2).

Definition send_drop (wd : world) (r : resource) : resource * world :=
  (r_or_flags r R_SEND_DROP,
   (send_struct_info wd (info_for (r_number r) 0) DLM_MSG_PLOCK_DROP).2).

(** ** Pending operations *)

Definition save_pending_plock (wd : world) (r : resource) (inf : dlm_plock_info)
  : resource * world :=
  match malloc (wd_mem wd) with
  | (None, m') => (r, wd_set_mem wd m')
  | (Some g, m') =>
      (r_set_pending r (r_pending r ++ [mkWaiter (u32 g) inf]), wd_set_mem wd m')
  end.

(** [add_pending_plocks]: each pending operation is performed and unlinked. *)
Fixpoint add_pending_loop (c : config) (ls : lockspace) (wd : world) (r : resource)
    (pending : list lock_waiter) : lockspace * option resource * world :=
  match pending with
  | [] => (ls, Some r, wd)
  | w :: rest =>
      let '(ls1, ro, wd1) := receive_plock_op c ls wd (wt_info w) (our_nodeid c) r in
      match ro with
      | None => (ls1, None, wd1)
      | Some r1 => add_pending_loop c ls1 wd1 (r_set_pending r1 rest) rest
      end
  end.

Definition add_pending_plocks (c : config) (ls : lockspace) (wd : world) (r : resource)
  : lockspace * option resource * world :=
  add_pending_loop c ls wd r (r_pending r).

Fixpoint send_pending_loop (wd : world) (pending : list lock_waiter) : world :=
  match pending with
  | [] => wd
  | w :: rest => send_pending_loop (send_plock wd (wt_info w)) rest
  end.

Definition send_pending_plocks (wd : world) (r : resource) : resource * world :=
  (r_set_pending r [], send_pending_loop wd (r_pending r)).

(** ** Receiving plock operations *)

Definition receive_plock_ (c : config) (ls : lockspace) (wd : world) (msg : message)
  : lockspace * world :=
  let info := m_info msg in
  let from := m_nodeid msg in
  if (i_optype info =? DLM_PLOCK_OP_GET) && negb (from =? our_nodeid c) then (ls, wd)
  else if negb (from =? m_nodeid msg) || negb (from =? i_nodeid info) then (ls, wd)
  else
    let create := negb (cfgd_plock_ownership c) in
    let '(rv, ro, ls1, wd1) := find_resource c ls wd (i_number info) create in
    match ro with
    | None =>
        if cfgd_plock_ownership c then
          if negb (from =? our_nodeid c) then (ls1, wd1)
          else
            let '(rv2, ro2, ls2, wd2) := find_resource c ls1 wd1 (i_number info) true in
            match ro2 with
            | None => (ls2, wd2)
            | Some r =>
                let '(r1, wd3) := send_own wd2 r (our_nodeid c) in
                let '(r2, wd4) := save_pending_plock wd3 r1 info in
                (ls_put ls2 (i_number info) (Some r2), wd4)
            end
        else (ls1, wd1)
    | Some r =>
        if r_owner r =? 0 then
          let '(ls2, ro2, wd2) := receive_plock_op c ls1 wd1 info from r in
          (ls_put ls2 (i_number info) ro2, wd2)
        else if r_owner r =? -1 then
          if from =? our_nodeid c then
            let '(r1, wd2) := save_pending_plock wd1 r info in
            (ls_put ls1 (i_number info) (Some r1), wd2)
          else (ls1, wd1)
        else if negb (r_owner r =? our_nodeid c) then
          if from =? our_nodeid c then
            let '(r1, wd2) := save_pending_plock wd1 r info in
            (ls_put ls1 (i_number info) (Some r1), wd2)
          else (ls1, wd1)
        else
          if from =? our_nodeid c then
            let '(ls2, ro2, wd2) := receive_plock_op c ls1 wd1 info from r in
            (ls_put ls2 (i_number info) ro2, wd2)
          else (ls1, wd1)
    end.

Definition save_message (ls : lockspace) (wd : world) (msg : message) (type : Z)
  : lockspace * world :=
  match malloc (wd_mem wd) with
  | (None, m') => (ls, wd_set_mem wd m')
  | (Some _, m') =>
      (ls_set_saved ls (ls_saved_messages ls ++ [(type, msg)]), wd_set_mem wd m')
  end.

Definition receive_plock (c : config) (ls : lockspace) (wd : world) (msg : message)
  : lockspace * world :=
  if ls_save_plocks ls then save_message ls wd msg DLM_MSG_PLOCK
  else receive_plock_ c ls wd msg.

(** ** The ownership protocol *)

(** [_receive_own]; the cases the source marks [should_not_happen] only log. *)
Definition receive_own_ (c : config) (ls0 : lockspace) (wd : world) (msg : message)
  : lockspace * world :=
  let ls := ls_set_plock_time ls0 (wd_time wd) in
  let info := m_info msg in
  let from := m_nodeid msg in
  let our := our_nodeid c in
  let '(rv, ro, ls1, wd1) := find_resource c ls wd (i_number info) true in
  match ro with
  | None => (ls1, wd1)
  | Some r =>
      let put l r' := ls_put l (i_number info) r' in
      if from =? our then
        if i_nodeid info =? 0 then
          if r_owner r =? our then (ls1, wd1)
          else if r_owner r =? 0 then
            (put ls1 (Some (r_or_flags r R_GOT_UNOWN)), wd1)
          else (ls1, wd1)
        else if i_nodeid info =? our then
          if r_owner r =? -1 then
            let '(ls2, ro2, wd2) := add_pending_plocks c ls1 wd1 (r_set_owner r our) in
            (put ls2 ro2, wd2)
          else if r_owner r =? our then (ls1, wd1)
          else if r_owner r =? 0 then
            let '(r1, wd2) := send_pending_plocks wd1 r in (put ls1 (Some r1), wd2)
          else (ls1, wd1)
        else (ls1, wd1)
      else
        if i_nodeid info =? 0 then
          if r_owner r =? -1 then (ls1, wd1)
          else if r_owner r =? our then (ls1, wd1)
          else if r_owner r =? 0 then (ls1, wd1)
          else
            let '(r1, wd2) :=
              send_pending_plocks wd1 (r_or_flags (r_set_owner r 0) R_GOT_UNOWN) in
            (put ls1 (Some r1), wd2)
        else if i_nodeid info =? from then
          if r_owner r =? -1 then (put ls1 (Some (r_set_owner r from)), wd1)
          else if r_owner r =? our then
            let '(r1, wd2) := send_syncs wd1 r in
            let '(r2, wd3) := send_own wd2 r1 0 in
            (put ls1 (Some (r_set_owner r2 0)), wd3)
          else (ls1, wd1)
        else (ls1, wd1)
  end.

Definition receive_own (c : config) (ls : lockspace) (wd : world) (msg : message)
  : lockspace * world :=
  if ls_save_plocks ls then save_message ls wd msg DLM_MSG_PLOCK_OWN
  else receive_own_ c ls wd msg.

Definition sync_match_lock (inf : dlm_plock_info) (po : posix_lock) : bool :=
  c_true (Z.land (po_flags po) P_SYNCING) &&
  (i_start inf =? po_start po) && (i_end inf =? po_end po) &&
  (i_nodeid inf =? po_nodeid po) && (i_owner inf =? po_owner po) &&
  (i_pid inf =? po_pid po) && (i_ex inf =? po_ex po).

Definition sync_match_waiter (inf : dlm_plock_info) (w : lock_waiter) : bool :=
  c_true (Z.land (wt_flags w) P_SYNCING) &&
  (i_start inf =? i_start (wt_info w)) && (i_end inf =? i_end (wt_info w)) &&
  (i_nodeid inf =? i_nodeid (wt_info w)) && (i_owner inf =? i_owner (wt_info w)) &&
  (i_pid inf =? i_pid (wt_info w)) && (i_ex inf =? i_ex (wt_info w)).

(** [flags & ~P_SYNCING] on a 32-bit word. *)
Definition clear_syncing (flags : Z) : Z := Z.land flags (2 ^ 32 - 1 - P_SYNCING).

Fixpoint clear_locks (inf : dlm_plock_info) (l : list posix_lock)
  : option (list posix_lock) :=
  match l with
  | [] => None
  | po :: rest =>
      if sync_match_lock inf po
      then Some (po_set_flags po (clear_syncing (po_flags po)) :: rest)
      else match clear_locks inf rest with
           | Some rest' => Some (po :: rest') | None => None end
  end.

Fixpoint clear_waiters (inf : dlm_plock_info) (l : list lock_waiter)
  : option (list lock_waiter) :=
  match l with
  | [] => None
  | w :: rest =>
      if sync_match_waiter inf w
      then Some (mkWaiter (clear_syncing (wt_flags w)) (wt_info w) :: rest)
      else match clear_waiters inf rest with
           | Some rest' => Some (w :: rest') | None => None end
  end.

Definition clear_syncing_flag (r : resource) (inf : dlm_plock_info) : resource :=
  match clear_locks inf (r_locks r) with
  | Some l => r_set_locks r l
  | None =>
      match clear_waiters inf (r_waiters r) with
      | Some l => r_set_waiters r l
      | None => r
      end
  end.

Definition receive_sync_ (c : config) (ls0 : lockspace) (wd : world) (msg : message)
  : lockspace * world :=
  let ls := ls_set_plock_time ls0 (wd_time wd) in
  let info := m_info msg in
  let from := m_nodeid msg in
  let '(rv, ro, ls1, wd1) := find_resource c ls wd (i_number info) false in
  match ro with
  | None => (ls1, wd1)
  | Some r =>
      if from =? our_nodeid c then
        (ls_put ls1 (i_number info) (Some (clear_syncing_flag r info)), wd1)
      else if m_type msg =? DLM_MSG_PLOCK_SYNC_LOCK then
        let '(_, locks', m') :=
          add_lock (wd_mem wd1) (r_locks r) (i_nodeid info) (i_owner info) (i_pid info)
            (i_ex info) (i_start info) (i_end info) in
        (ls_put ls1 (i_number info) (Some (r_set_locks r locks')), wd_set_mem wd1 m')
      else if m_type msg =? DLM_MSG_PLOCK_SYNC_WAITER then
        let '(_, r', wd2) := add_waiter wd1 r info in
        (ls_put ls1 (i_number info) (Some r'), wd2)
      else (ls1, wd1)
  end.

Definition receive_sync (c : config) (ls : lockspace) (wd : world) (msg : message)
  : lockspace * world :=
  if ls_save_plocks ls then save_message ls wd msg (m_type msg)
  else receive_sync_ c ls wd msg.

Definition receive_drop_ (c : config) (ls0 : lockspace) (wd : world) (msg : message)
  : lockspace * world :=
  let ls := ls_set_plock_time ls0 (wd_time wd) in
  let info := m_info msg in
  let '(rv, ro, ls1, wd1) := find_resource c ls wd (i_number info) false in
  match ro with
  | None => (ls1, wd1)
  | Some r =>
      if negb (r_owner r =? 0) then (ls1, wd1)
      else
        match r_pending r with
        | _ :: _ => (ls1, wd1)
        | [] =>
            match r_locks r, r_waiters r with
            | [], [] => (ls_put ls1 (i_number info) None, wd1)
            | _, _ => (ls1, wd1)
            end
        end
  end.

Definition receive_drop (c : config) (ls : lockspace) (wd : world) (msg : message)
  : lockspace * world :=
  if ls_save_plocks ls then save_message ls wd msg DLM_MSG_PLOCK_DROP
  else receive_drop_ c ls wd msg.

(** The plock cases of the message dispatch of [deliver_cb] in
    [src/group/dlm_controld/cpg.c]. *)
Definition deliver_plock (c : config) (ls : lockspace) (wd : world) (msg : message)
  : lockspace * world :=
  if ls_disable_plock ls then (ls, wd)
  else if ls_need_plocks ls && negb (ls_save_plocks ls) then (ls, wd)
  else if m_type msg =? DLM_MSG_PLOCK then
    if cfgd_enable_plock c then receive_plock c ls wd msg else (ls, wd)
  else if m_type msg =? DLM_MSG_PLOCK_OWN then
    if cfgd_enable_plock c && cfgd_plock_ownership c
    then receive_own c ls wd msg else (ls, wd)
  else if m_type msg =? DLM_MSG_PLOCK_DROP then
    if cfgd_enable_plock c && cfgd_plock_ownership c
    then receive_drop c ls wd msg else (ls, wd)
  else if (m_type msg =? DLM_MSG_PLOCK_SYNC_LOCK) ||
          (m_type msg =? DLM_MSG_PLOCK_SYNC_WAITER) then
    if cfgd_enable_plock c && cfgd_plock_ownership c
    then receive_sync c ls wd msg else (ls, wd)
  else (ls, wd).

(** ** Dropping unused resources *)

(** The loop of [drop_resources] over the list from its tail. *)
Fixpoint drop_loop (c : config) (wd : world) (count : Z) (rs : list resource)
  : list resource * world :=
  match rs with
  | [] => ([], wd)
  | r :: rest =>
      let next r' wd' count' :=
        let '(rest', wd'') := drop_loop c wd' count' rest in (r' :: rest', wd'') in
      if count >=? cfgd_drop_resources_count c then (r :: rest, wd)
      else if c_true (r_owner r) && negb (r_owner r =? our_nodeid c) then next r wd count
      else if time_diff_ms (r_last_access r) (wd_now wd)
                <? u64 (cfgd_drop_resources_age c) then next r wd count
      else
        match r_locks r, r_waiters r with
        | [], [] =>
            if r_owner r =? our_nodeid c then
              let '(r1, wd1) := send_own wd r 0 in
              next (r_set_owner r1 0) wd1 (count + 1)
            else if (r_owner r =? 0) && got_unown r then
              let '(r1, wd1) := send_drop wd r in next r1 wd1 (count + 1)
            else next r wd (count + 1)
        | _, _ => next r wd count
        end
  end.

Definition drop_resources (c : config) (ls : lockspace) (wd : world)
  : bool * lockspace * world :=
  if negb (cfgd_plock_ownership c) then (false, ls, wd)
  else
    match ls_plock_resources ls with
    | [] => (false, ls, wd)
    | _ =>
        if time_diff_ms (ls_drop_resources_last ls) (wd_now wd)
             <? u64 (cfgd_drop_resources_time c) then (true, ls, wd)
        else
          let ls1 := ls_set_drop_last ls (wd_now wd) in
          let '(rs, wd1) := drop_loop c wd 0 (rev (ls_plock_resources ls1)) in
          (true, ls_set_resources ls1 (rev rs), wd1)
    end.

(** [drop_resources_all]; the first component is [poll_drop_plock]. *)
Fixpoint drop_resources_all (c : config) (lockspaces : list lockspace) (wd : world)
  : bool * list lockspace * world :=
  match lockspaces with
  | [] => (false, [], wd)
  | ls :: rest =>
      let '(rv, ls', wd1) := drop_resources c ls wd in
      let '(poll, rest', wd2) := drop_resources_all c rest wd1 in
      (rv || poll, ls' :: rest', wd2)
  end.

(** ** Requests from the kernel *)

(** The counters and flags [limit_plocks] and [process_plocks] keep. *)
Record plock_globals := mkGlobals {
  plock_read_count : Z;
  plock_rate_delays : Z;
  plock_rate_last : Z;
  message_flow_control_on : bool;
  poll_ignore_plock : bool;
  poll_drop_plock : bool
}.

(** [flow] is the state [update_flow_control_status] reads from the messaging
    service, when it can. *)
Definition update_flow_control_status (flow : option bool) (g : plock_globals)
  : plock_globals :=
  match flow with
  | None => g
  | Some on =>
      mkGlobals (plock_read_count g) (plock_rate_delays g) (plock_rate_last g) on
        (poll_ignore_plock g) (poll_drop_plock g)
  end.

Definition limit_plocks (c : config) (flow : option bool) (wd : world) (g : plock_globals)
  : Z * plock_globals :=
  let g := if message_flow_control_on g then update_flow_control_status flow g else g in
  if message_flow_control_on g then (1, g)
  else if (cfgd_plock_rate_limit c =? 0) || (plock_read_count g =? 0) then (0, g)
  else if u32 (plock_read_count g) mod u32 (cfgd_plock_rate_limit c) =? 0 then
    if time_diff_ms (plock_rate_last g) (wd_now wd) <? 1000 then
      (2, mkGlobals (plock_read_count g) (u32 (plock_rate_delays g + 1))
            (plock_rate_last g) (message_flow_control_on g) (poll_ignore_plock g)
            (poll_drop_plock g))
    else
      (0, mkGlobals (u32 (plock_read_count g + 1)) (plock_rate_delays g) (wd_now wd)
            (message_flow_control_on g) (poll_ignore_plock g) (poll_drop_plock g))
  else (0, g).

Definition info_set_nodeid (inf : dlm_plock_info) (n : Z) : dlm_plock_info :=
  mkInfo (i_version inf) (i_optype inf) (i_ex inf) (i_wait inf) (i_flags inf)
    (i_pid inf) n (i_rv inf) (i_fsid inf) (i_number inf) (i_start inf) (i_end inf)
    (i_owner inf).

Definition info_set_fsid (inf : dlm_plock_info) (f : Z) : dlm_plock_info :=
  mkInfo (i_version inf) (i_optype inf) (i_ex inf) (i_wait inf) (i_flags inf)
    (i_pid inf) (i_nodeid inf) (i_rv inf) f (i_number inf) (i_start inf) (i_end inf)
    (i_owner inf).

(** [find_ls_id], and the lookup of [mg_to_ls_id]; [set_id] stands for
    [set_associated_id], which reads the association from sysfs. *)
Fixpoint find_ls_id (lss : list lockspace) (id : Z) : option lockspace :=
  match lss with
  | [] => None
  | ls :: rest => if ls_global_id ls =? id then Some ls else find_ls_id rest id
  end.

Fixpoint find_ls_mg (lss : list lockspace) (fsid : Z) : option Z :=
  match lss with
  | [] => None
  | ls :: rest =>
      if ls_associated_mg_id ls =? fsid then Some (ls_global_id ls)
      else find_ls_mg rest fsid
  end.

Definition mg_to_ls_id (set_id : list lockspace -> Z -> list lockspace)
    (lss : list lockspace) (fsid : Z) : Z * list lockspace :=
  match find_ls_mg lss fsid with
  | Some id => (id, lss)
  | None =>
      let lss' := set_id lss fsid in
      match find_ls_mg lss' fsid with
      | Some id => (id, lss')
      | None => (fsid, lss')
      end
  end.

Fixpoint update_ls (lss : list lockspace) (ls' : lockspace) : list lockspace :=
  match lss with
  | [] => []
  | ls :: rest =>
      if ls_global_id ls =? ls_global_id ls' then ls' :: rest
      else ls :: update_ls rest ls'
  end.

Definition info_set_rv (inf : dlm_plock_info) (rv : Z) : dlm_plock_info :=
  info_set_result inf (i_fsid inf) rv.

Definition g_set_ignore (g : plock_globals) : plock_globals :=
  mkGlobals (plock_read_count g) (plock_rate_delays g) (plock_rate_last g)
    (message_flow_control_on g) true (poll_drop_plock g).
Definition g_set_drop (g : plock_globals) : plock_globals :=
  mkGlobals (plock_read_count g) (plock_rate_delays g) (plock_rate_last g)
    (message_flow_control_on g) (poll_ignore_plock g) true.

(** The read counter, with the reset of the delay count every 1000 reads. *)
Definition count_read (g : plock_globals) : plock_globals :=
  let n := u32 (plock_read_count g + 1) in
  mkGlobals n (if n mod 1000 =? 0 then 0 else plock_rate_delays g) (plock_rate_last g)
    (message_flow_control_on g) (poll_ignore_plock g) (poll_drop_plock g).

(** The part of [process_plocks] after the resource was found: where the
    operation goes depends on the owner of the resource. *)
Definition route_plock (c : config) (ls : lockspace) (wd : world) (info : dlm_plock_info)
    (r : resource) : lockspace * world :=
  if r_owner r =? 0 then (ls, send_plock wd info)
  else if r_owner r =? our_nodeid c then
    let '(ls1, ro, wd1) := receive_plock_op c ls wd info (our_nodeid c) r in
    (ls_put ls1 (i_number info) ro, wd1)
  else
    let '(r1, wd1) := send_own wd r (our_nodeid c) in
    let '(r2, wd2) := save_pending_plock wd1 r1 info in
    (ls_put ls (i_number info) (Some r2), wd2).

(** [process_plocks]; [read] is what [do_read] returns.  The result is [None]
    when the daemon dies: with no lockspace of the request's id, the macro
    [log_plock(ls, ...)] reads the name of a null lockspace. *)
Definition process_plocks (c : config) (flow : option bool)
    (set_id : list lockspace -> Z -> list lockspace) (read : option dlm_plock_info)
    (lss : list lockspace) (wd : world) (g : plock_globals)
  : option (list lockspace * world * plock_globals) :=
  let '(limited, g) := limit_plocks c flow wd g in
  if c_true limited then Some (lss, wd, g_set_ignore g)
  else
    match read with
    | None => Some (lss, wd, g)
    | Some info0 =>
        let info := info_set_nodeid info0 (our_nodeid c) in
        let fail inf rv lss wd g :=
          Some (lss, emit wd (EvWrite (info_set_rv inf rv)), g) in
        if negb (cfgd_enable_plock c) then fail info (- ENOSYS) lss wd g
        else
          let '(fsid, lss) :=
            if need_fsid_translation c then mg_to_ls_id set_id lss (i_fsid info)
            else (i_fsid info, lss) in
          let info := info_set_fsid info fsid in
          match find_ls_id lss fsid with
          | None => None
          | Some ls =>
              if ls_disable_plock ls then fail info (- ENOSYS) lss wd g
              else
                let g := count_read g in
                let create := negb (i_optype info =? DLM_PLOCK_OP_UNLOCK) in
                let '(rv, ro, ls1, wd1) :=
                  find_resource c ls wd (i_number info) create in
                match ro with
                | None => fail info rv (update_ls lss ls1) wd1 g
                | Some r =>
                    let '(ls2, wd2) := route_plock c ls1 wd1 info r in
                    let g :=
                      if cfgd_plock_ownership c &&
                         negb (bool_decide (ls_plock_resources ls2 = []))
                      then g_set_drop g else g in
                    Some (update_ls lss ls2, wd2, g)
                end
          end
    end.

(** ** Saved messages *)

Definition process_saved (c : config) (ls : lockspace) (wd : world) (sm : Z * message)
  : bool * lockspace * world :=
  let '(type, msg) := sm in
  let run f := let '(ls', wd') := f c ls wd msg in (true, ls', wd') in
  if type =? DLM_MSG_PLOCK then run receive_plock_
  else if type =? DLM_MSG_PLOCK_OWN then run receive_own_
  else if type =? DLM_MSG_PLOCK_DROP then run receive_drop_
  else if (type =? DLM_MSG_PLOCK_SYNC_LOCK) || (type =? DLM_MSG_PLOCK_SYNC_WAITER)
  then run receive_sync_
  else (false, ls, wd).

(** The loop of [process_saved_plocks]; [left] are the messages of unknown type,
    which stay on the list. *)
Fixpoint saved_loop (c : config) (ls : lockspace) (wd : world)
    (left todo : list (Z * message)) : lockspace * world :=
  match todo with
  | [] => (ls_set_saved ls left, wd)
  | sm :: rest =>
      let '(taken, ls', wd') := process_saved c ls wd sm in
      saved_loop c ls' wd' (if taken then left else left ++ [sm]) rest
  end.

Definition process_saved_plocks (c : config) (ls : lockspace) (wd : world)
  : lockspace * world := saved_loop c ls wd [] (ls_saved_messages ls).

(** ** Node failure and unmount *)

(** The body of the loop of [purge_plocks], in its four steps: unlink the locks
    and waiters of the node (every one at unmount), give up an ownership the node
    had, grant what became possible, free the resource if nothing is left (the
    test is that of [put_resource]). *)
Definition purge_lists (nodeid : Z) (unmount : bool) (r : resource) : resource * bool :=
  let gone n := (n =? nodeid) || unmount in
  (r_set_waiters
     (r_set_locks r (List.filter (fun po => negb (gone (po_nodeid po))) (r_locks r)))
     (List.filter (fun w => negb (gone (i_nodeid (wt_info w)))) (r_waiters r)),
   existsb (fun po => gone (po_nodeid po)) (r_locks r) ||
   existsb (fun w => gone (i_nodeid (wt_info w))) (r_waiters r)).

Definition purge_owner (wd : world) (nodeid : Z) (r : resource) : resource * world :=
  if r_owner r =? nodeid then
    send_pending_plocks wd
      (r_or_flags (r_or_flags (r_set_owner r 0) R_GOT_UNOWN) R_PURGE_UNOWN)
  else (r, wd).

Definition purge_resource (c : config) (ls : lockspace) (wd : world) (nodeid : Z)
    (unmount : bool) (r : resource) : option resource * bool * world :=
  let '(r1, purged) := purge_lists nodeid unmount r in
  let '(r2, wd1) := purge_owner wd nodeid r1 in
  let '(r3, wd2) :=
    match r_waiters r2 with [] => (r2, wd1) | _ => do_waiters c ls wd1 r2 end in
  (put_resource c r3, purged, wd2).

Fixpoint purge_loop (c : config) (ls : lockspace) (wd : world) (nodeid : Z)
    (unmount : bool) (rs : list resource) : list resource * bool * world :=
  match rs with
  | [] => ([], false, wd)
  | r :: rest =>
      let '(ro, p1, wd1) := purge_resource c ls wd nodeid unmount r in
      let '(rest', p2, wd2) := purge_loop c ls wd1 nodeid unmount rest in
      (match ro with Some r' => r' :: rest' | None => rest' end, p1 || p2, wd2)
  end.

Definition purge_plocks (c : config) (ls : lockspace) (wd : world) (nodeid : Z)
    (unmount : bool) : lockspace * world :=
  if negb (cfgd_enable_plock c) || ls_disable_plock ls then (ls, wd)
  else
    let '(rs, purged, wd1) := purge_loop c ls wd nodeid unmount (ls_plock_resources ls) in
    let ls1 := ls_set_resources ls rs in
    (if purged then ls_set_plock_time ls1 (wd_time wd1) else ls1, wd1).
