(* ===== verification/PlockThm.v ===== *)
(** * Properties of the plock daemon

    The invariant of lock tables, which every operation of a lockspace without
    ownership keeps (no two owners hold incompatible modes on a byte, whatever
    the allocator does), replication (nodes that deliver the same messages in
    the same order agree on every lock and every waiting request), the answer to a
    request, and what [do_waiters] guarantees to waiting requests. *)

From S2P Require Import Prelude PlockRange Plock.
Open Scope Z_scope.

(** ** Resource lists *)

Definition numbers (rs : list resource) : list Z := map r_number rs.

Lemma search_Some rs n r :
  search_resource rs n = Some r -> r ∈ rs /\ r_number r = n.
Proof.
  induction rs as [|r0 rs IH]; simpl; [done|]. zcase.
  - intros [= ->]. split; [by left|done].
  - intros H. apply IH in H as []. split; [by right|done].
Qed.

Lemma search_None rs n : search_resource rs n = None <-> n ∉ numbers rs.
Proof.
  induction rs as [|r0 rs IH]; simpl; [set_solver|]. zcase; [set_solver|].
  rewrite IH. set_solver.
Qed.

Lemma search_app_None rs n r :
  search_resource rs n = None ->
  search_resource (rs ++ [r]) n = if r_number r =? n then Some r else None.
Proof. induction rs as [|r0 rs IH]; simpl; [done|]. by zcase. Qed.

Lemma search_app_ne rs n r :
  r_number r <> n -> search_resource (rs ++ [r]) n = search_resource rs n.
Proof.
  intros Hn. induction rs as [|r0 rs IH]; simpl; [|by zcase]. zcase; [done|done].
Qed.

Lemma search_put_same rs n r0 r :
  search_resource rs n = Some r0 -> r_number r = n ->
  search_resource (rs_put rs n (Some r)) n = Some r.
Proof.
  intros H Hr. revert H. induction rs as [|r1 rs IH]; simpl; [done|].
  zcase; simpl; zcase; auto; lia.
Qed.

Lemma search_put_ne rs n k ro :
  n <> k -> (forall r, ro = Some r -> r_number r = k) ->
  search_resource (rs_put rs k ro) n = search_resource rs n.
Proof.
  intros Hne Hro. induction rs as [|r1 rs IH]; simpl; [done|].
  destruct (r_number r1 =? k) eqn:E; zbool.
  - replace (r_number r1 =? n) with false by lia. destruct ro as [r'|]; [|done].
    simpl. rewrite (Hro r' eq_refl). by replace (k =? n) with false by lia.
  - simpl. by rewrite IH.
Qed.

Lemma numbers_put_Some rs n r :
  r_number r = n -> numbers (rs_put rs n (Some r)) = numbers rs.
Proof.
  intros Hr. induction rs as [|r1 rs IH]; simpl; [done|]. zcase; simpl; congruence.
Qed.

Lemma numbers_put_None_sub rs n k :
  k ∈ numbers (rs_put rs n None) -> k ∈ numbers rs.
Proof.
  induction rs as [|r1 rs IH]; simpl; [done|]. zcase; simpl; set_solver.
Qed.

Lemma NoDup_put rs n ro :
  (forall r, ro = Some r -> r_number r = n) ->
  NoDup (numbers rs) -> NoDup (numbers (rs_put rs n ro)).
Proof.
  intros Hro. destruct ro as [r|]; [by rewrite numbers_put_Some by auto|].
  induction rs as [|r1 rs IH]; simpl; [done|]. rewrite NoDup_cons. intros [Hn Hd].
  zcase; [done|]. simpl. apply NoDup_cons. split; [|auto].
  intros H. by apply numbers_put_None_sub in H.
Qed.

Lemma search_put_None rs n :
  NoDup (numbers rs) -> search_resource (rs_put rs n None) n = None.
Proof.
  induction rs as [|r1 rs IH]; simpl; [done|]. rewrite NoDup_cons. intros [Hn Hd].
  zcase; [by apply search_None; subst|]. simpl. replace (r_number r1 =? n) with false by lia.
  auto.
Qed.

Lemma Forall_put (P : resource -> Prop) rs n ro :
  Forall P rs -> (forall r, ro = Some r -> P r) -> Forall P (rs_put rs n ro).
Proof.
  intros HP Hro. induction HP as [|r1 rs H1 HP IH]; simpl; [constructor|].
  zcase; [|by constructor]. destruct ro as [r|]; [|done]. constructor; auto.
Qed.

(** ** Results of the resource-level operations *)

Lemma write_result_mem c ls wd inf rv : wd_mem (write_result c ls wd inf rv) = wd_mem wd.
Proof. done. Qed.

Lemma put_resource_cases c r :
  put_resource c r = Some r \/
  put_resource c r = None /\ r_locks r = [] /\ r_waiters r = [].
Proof.
  unfold put_resource. destruct (cfgd_plock_ownership c); [by left|].
  destruct (r_locks r), (r_waiters r); auto.
Qed.

(** ** Safety *)

Definition wf_waiter (w : lock_waiter) : Prop := wf_info (wt_info w).

Definition res_ok (r : resource) : Prop :=
  wf_locks (r_locks r) /\ no_conflict (r_locks r) /\
  Forall wf_waiter (r_waiters r) /\ Forall wf_waiter (r_pending r).

Lemma waiters_loop_ok c ls wd locks passed todo l' w' wd' :
  wf_locks locks -> no_conflict locks -> Forall wf_waiter passed -> Forall wf_waiter todo ->
  waiters_loop c ls wd locks passed todo = (l', w', wd') ->
  wf_locks l' /\ no_conflict l' /\ Forall wf_waiter w'.
Proof.
  intros Hw Hn Hp Ht. revert wd locks passed Hw Hn Hp.
  induction Ht as [|w todo Hwt Ht IH]; intros wd locks passed Hw Hn Hp; simpl.
  { by intros [= <- <- _]. }
  destruct (is_conflict locks (wt_info w) false).1 eqn:Hc.
  - apply IH; auto. apply Forall_app. split; [done|]. by apply Forall_singleton.
  - destruct (lock_internal _ _ _) as [[rv locks'] m'] eqn:Hl.
    destruct (lock_internal_no_conflict _ _ _ _ _ _ Hw Hwt Hn Hc Hl). by apply IH.
Qed.

(** [r'] is [r] with other locks, waiters and pending operations, safe if [r]
    is. *)
Definition evolves (r r' : resource) : Prop :=
  r_number r' = r_number r /\ (res_ok r -> res_ok r').

Lemma evolves_refl r : evolves r r.
Proof. by split. Qed.

Lemma evolves_trans r1 r2 r3 : evolves r1 r2 -> evolves r2 r3 -> evolves r1 r3.
Proof. unfold evolves. intuition congruence. Qed.

Lemma do_waiters_evolves c ls wd r r' wd' :
  do_waiters c ls wd r = (r', wd') -> evolves r r'.
Proof.
  unfold do_waiters. destruct (waiters_loop _ _ _ _ _ _) as [[l' w'] wd1] eqn:E.
  intros [= <- <-]. split; [done|]. intros (Hw & Hn & Hwt & Hp).
  apply waiters_loop_ok in E as (? & ? & ?); auto. by unfold res_ok.
Qed.

Definition op_safe (r : resource) (ro : option resource) : Prop :=
  forall r', ro = Some r' -> evolves r r'.

Lemma op_safe_put c r r1 : evolves r r1 -> op_safe r (put_resource c r1).
Proof.
  intros H r' Hr'. destruct (put_resource_cases c r1) as [E|[E _]];
    rewrite E in Hr'; [|done]. by injection Hr' as <-.
Qed.

Lemma add_waiter_evolves wd r inf rv r' wd' :
  wf_info inf -> add_waiter wd r inf = (rv, r', wd') -> evolves r r'.
Proof.
  intros Hi. unfold add_waiter. destruct (malloc _) as [[g|] m]; intros [= <- <- <-];
    [|apply evolves_refl].
  split; [done|]. intros (H1 & H2 & H3 & H4). unfold res_ok; simpl. split_and!; auto.
  apply Forall_app. split; [done|]. by apply Forall_singleton.
Qed.

Lemma set_locks_evolves r l' :
  (wf_locks (r_locks r) -> no_conflict (r_locks r) -> no_conflict l' /\ wf_locks l') ->
  evolves r (r_set_locks r l').
Proof.
  intros H. split; [done|]. intros (H1 & H2 & H3 & H4).
  destruct (H H1 H2). by unfold res_ok.
Qed.

Lemma do_lock_safe c ls wd inf r : wf_info inf -> op_safe r (do_lock c ls wd inf r).1.
Proof.
  intros Hi. unfold do_lock.
  destruct (do_lock_try wd inf r) as [[rv r1] wd1] eqn:E.
  assert (Hev : evolves r r1).
  { unfold do_lock_try in E. destruct (is_conflict _ _ _).1 eqn:Hc.
    - destruct (negb _); [by injection E as _ <- _; apply evolves_refl|].
      destruct (add_waiter _ _ _) as [[rv' r'] wd'] eqn:Ha.
      apply add_waiter_evolves in Ha; [|done]. by destruct (c_true rv'); injection E as _ <- _.
    - destruct (lock_internal _ _ _) as [[rv' l'] m'] eqn:Hl. injection E as _ <- _.
      apply set_locks_evolves. intros. by eapply lock_internal_no_conflict. }
  destruct (do_waiters _ _ _ r1) as [r2 wd3] eqn:Hd. apply do_waiters_evolves in Hd.
  apply op_safe_put. by eapply evolves_trans.
Qed.

Lemma do_unlock_safe c ls wd inf r : wf_info inf -> op_safe r (do_unlock c ls wd inf r).1.
Proof.
  intros Hi. unfold do_unlock.
  destruct (unlock_internal _ _ _) as [[rv l'] m'] eqn:Hl.
  destruct (do_waiters _ _ _ _) as [r2 wd3] eqn:Hd. apply do_waiters_evolves in Hd.
  apply op_safe_put. eapply evolves_trans; [|exact Hd].
  apply set_locks_evolves. intros. by eapply unlock_internal_no_conflict.
Qed.

Lemma do_get_safe c ls wd inf r : op_safe r (do_get c ls wd inf r).1.
Proof.
  unfold do_get. destruct (is_conflict _ _ _). apply op_safe_put, evolves_refl.
Qed.

Lemma receive_plock_op_safe c ls wd inf from r ls' ro wd' :
  wf_info inf -> receive_plock_op c ls wd inf from r = (ls', ro, wd') ->
  op_safe r ro /\ ls_plock_resources ls' = ls_plock_resources ls /\
  ls_saved_messages ls' = ls_saved_messages ls.
Proof.
  intros Hi. unfold receive_plock_op. repeat zcase.
  - pose proof (do_lock_safe c (ls_set_plock_time ls (wd_time wd)) wd inf r Hi) as H.
    destruct (do_lock _ _ _ _ _). by intros [= <- <- <-].
  - pose proof (do_unlock_safe c (ls_set_plock_time ls (wd_time wd)) wd inf r Hi) as H.
    destruct (do_unlock _ _ _ _ _). by intros [= <- <- <-].
  - pose proof (do_get_safe c ls wd inf r) as H.
    destruct (do_get _ _ _ _ _). by intros [= <- <- <-].
  - intros [= <- <- <-]. split; [|done]. intros ? [= <-]. apply evolves_refl.
  - intros [= <- <- <-]. split; [|done]. intros ? [= <-]. apply evolves_refl.
Qed.

Definition saved_ok (sm : Z * message) : Prop :=
  fst sm = DLM_MSG_PLOCK /\ wf_info (m_info (snd sm)).

(** The invariant of a lockspace. *)
Definition ls_ok (ls : lockspace) : Prop :=
  Forall res_ok (ls_plock_resources ls) /\ Forall saved_ok (ls_saved_messages ls).

Lemma res_ok_new n o f a : res_ok (mkRes n o f a [] [] []).
Proof. unfold res_ok; simpl. split_and!; constructor. Qed.

Lemma ls_ok_put ls n ro :
  ls_ok ls -> (forall r, ro = Some r -> r_number r = n /\ res_ok r) ->
  ls_ok (ls_put ls n ro).
Proof.
  intros (Hr & Hs) Hro. unfold ls_ok, ls_put; simpl. split; [|done].
  apply Forall_put; [done|]. intros r H. by apply Hro.
Qed.

Lemma find_resource_ok c ls wd n create rv ro ls' wd' :
  ls_ok ls -> find_resource c ls wd n create = (rv, ro, ls', wd') ->
  ls_ok ls' /\ (forall r, ro = Some r -> r_number r = n /\ res_ok r).
Proof.
  intros Hok. unfold find_resource.
  destruct (search_resource _ _) as [r|] eqn:E.
  - apply search_Some in E as [Hin Hn]. intros [= <- <- <- <-].
    assert (res_ok r) by (destruct Hok as (Hr & _); rewrite Forall_forall in Hr; auto).
    split; [apply ls_ok_put; [done|]|]; by intros ? [= <-].
  - destruct (negb create); [by intros [= <- <- <- <-]|].
    destruct (malloc _) as [[g|] m]; intros [= <- <- <- <-]; [|done].
    split; [|intros ? [= <-]; split; [done|apply res_ok_new]].
    destruct Hok as (Hr & Hs). unfold ls_ok; simpl. split; [|done].
    apply Forall_app. split; [done|]. apply Forall_singleton, res_ok_new.
Qed.

Lemma save_pending_evolves wd r inf r' wd' :
  wf_info inf -> save_pending_plock wd r inf = (r', wd') -> evolves r r'.
Proof.
  intros Hi. unfold save_pending_plock.
  destruct (malloc _) as [[g|] m]; intros [= <- <-]; [|apply evolves_refl].
  split; [done|]. intros (H1 & H2 & H3 & H4). unfold res_ok; simpl. split_and!; auto.
  apply Forall_app. split; [done|]. by apply Forall_singleton.
Qed.

Lemma send_own_evolves wd r o r' wd' : send_own wd r o = (r', wd') -> evolves r r'.
Proof.
  unfold send_own. destruct (r_pending r) eqn:E; intros [= <- <-]; [|apply evolves_refl].
  split; [done|]. intros (H1 & H2 & H3 & H4). unfold res_ok; simpl. by rewrite E.
Qed.

Lemma ls_ok_evolves ls n r r' :
  ls_ok ls -> r_number r = n -> res_ok r -> evolves r r' -> ls_ok (ls_put ls n (Some r')).
Proof.
  intros Hok Hn Hr [Hn' Hr']. apply ls_ok_put; [done|]. intros ? [= <-].
  split; [congruence|auto].
Qed.

Lemma receive_plock_op_put_ok c ls wd inf from r ls' ro wd' n :
  wf_info inf -> ls_ok ls -> r_number r = n -> res_ok r ->
  receive_plock_op c ls wd inf from r = (ls', ro, wd') ->
  ls_ok (ls_put ls' n ro).
Proof.
  intros Hi (Hrs & Hs) Hn Hr Hop.
  apply receive_plock_op_safe in Hop as (Hsafe & Eres & Esav); [|done].
  apply ls_ok_put; [unfold ls_ok; by rewrite Eres, Esav|].
  intros r' ->. destruct (Hsafe r' eq_refl) as [H1 H2]. split; [congruence|auto].
Qed.

Lemma receive_plock_ok c ls wd msg :
  wf_info (m_info msg) -> ls_ok ls -> ls_ok (receive_plock_ c ls wd msg).1.
Proof.
  intros Hi Hok. unfold receive_plock_.
  destruct (_ && _); [done|]. destruct (_ || _); [done|].
  destruct (find_resource _ _ _ _ _) as [[[rv ro] ls1] wd1] eqn:Hf.
  apply find_resource_ok in Hf as [Hok1 Hro]; [|done].
  assert (Hpend : forall r, ro = Some r ->
    ls_ok (let '(r1, wd2) := save_pending_plock wd1 r (m_info msg) in
           (ls_put ls1 (i_number (m_info msg)) (Some r1), wd2)).1).
  { intros r E. destruct (Hro r E). destruct (save_pending_plock _ _ _) eqn:Es.
    eapply ls_ok_evolves; eauto using save_pending_evolves. }
  assert (Hop : forall r, ro = Some r ->
    ls_ok (let '(ls2, ro2, wd2) := receive_plock_op c ls1 wd1 (m_info msg) (m_nodeid msg) r in
           (ls_put ls2 (i_number (m_info msg)) ro2, wd2)).1).
  { intros r E. destruct (Hro r E).
    destruct (receive_plock_op _ _ _ _ _ _) as [[ls2 ro2] wd2] eqn:Es.
    by eapply receive_plock_op_put_ok. }
  destruct ro as [r|].
  - repeat zcase; auto.
  - repeat zcase; auto.
    destruct (find_resource _ ls1 _ _ _) as [[[rv2 ro2] ls2] wd2] eqn:Hf.
    apply find_resource_ok in Hf as [Hok2 Hro2]; [|done].
    destruct ro2 as [r|]; [|done]. destruct (Hro2 r eq_refl).
    destruct (send_own _ _ _) eqn:E1. apply send_own_evolves in E1.
    destruct (save_pending_plock _ _ _) eqn:E2. apply save_pending_evolves in E2; [|done].
    eapply ls_ok_evolves; eauto using evolves_trans.
Qed.

Lemma save_message_ok ls wd msg :
  wf_info (m_info msg) -> ls_ok ls -> ls_ok (save_message ls wd msg DLM_MSG_PLOCK).1.
Proof.
  intros Hi (Hr & Hs). unfold save_message.
  destruct (malloc _) as [[g|] m]; [|done]. unfold ls_ok; simpl. split_and!; auto.
  apply Forall_app. split; [done|]. apply Forall_singleton. by split.
Qed.

Lemma deliver_plock_ok c ls wd msg :
  cfgd_plock_ownership c = false -> wf_info (m_info msg) ->
  ls_ok ls -> ls_ok (deliver_plock c ls wd msg).1.
Proof.
  intros Hc Hi Hok. unfold deliver_plock, receive_plock. rewrite Hc, andb_false_r.
  repeat zcase; auto using save_message_ok, receive_plock_ok.
Qed.

Lemma saved_loop_ok c ls wd left todo :
  Forall saved_ok left -> Forall saved_ok todo ->
  ls_ok ls -> ls_ok (saved_loop c ls wd left todo).1.
Proof.
  intros Hl Ht. revert ls wd left Hl.
  induction Ht as [|[t msg] todo [Ht1 Ht2] Ht IH]; intros ls wd left Hl Hok.
  - simpl. destruct Hok as (? & ?). by unfold ls_ok; simpl.
  - simpl in Ht1, Ht2. subst t. cbn [saved_loop process_saved Z.eqb]. simpl.
    destruct (receive_plock_ c ls wd msg) as [ls' wd'] eqn:E. apply IH; [done|].
    replace ls' with (receive_plock_ c ls wd msg).1 by by rewrite E.
    by apply receive_plock_ok.
Qed.

Lemma filter_no_conflict f l : no_conflict l -> no_conflict (List.filter f l).
Proof.
  rewrite !no_conflict_all. intros H p q Hp Hq.
  rewrite list_elem_of_In, filter_In in Hp, Hq. apply H; apply list_elem_of_In; tauto.
Qed.

Lemma filter_Forall {A} (P : A -> Prop) f l : Forall P l -> Forall P (List.filter f l).
Proof.
  rewrite !Forall_forall. intros H x Hx. apply H.
  rewrite list_elem_of_In, filter_In in Hx. apply list_elem_of_In. tauto.
Qed.

Lemma purge_lists_evolves n u r r1 p : purge_lists n u r = (r1, p) -> evolves r r1.
Proof.
  intros [= <- _]. split; [done|]. intros (H1 & H2 & H3 & H4). unfold res_ok; simpl.
  split_and!; auto; [by apply filter_Forall|by apply filter_no_conflict|by apply filter_Forall].
Qed.

Lemma purge_owner_evolves wd n r r' wd' : purge_owner wd n r = (r', wd') -> evolves r r'.
Proof.
  unfold purge_owner. zcase; intros [= <- <-]; [|apply evolves_refl].
  split; [done|]. intros (H1 & H2 & H3 & H4). unfold res_ok; simpl. split_and!; auto.
Qed.

Lemma do_waiters_nil c ls wd r : r_waiters r = [] -> do_waiters c ls wd r = (r, wd).
Proof. intros H. unfold do_waiters. rewrite H. destruct r; simpl in *. by subst. Qed.

(** The test for an empty list of waiters saves a call and changes nothing. *)
Lemma purge_resource_eq c ls wd n u r :
  purge_resource c ls wd n u r =
  let '(r1, purged) := purge_lists n u r in
  let '(r2, wd1) := purge_owner wd n r1 in
  let '(r3, wd2) := do_waiters c ls wd1 r2 in
  (put_resource c r3, purged, wd2).
Proof.
  unfold purge_resource. destruct (purge_lists _ _ _) as [r1 p].
  destruct (purge_owner _ _ _) as [r2 wd1]. destruct (r_waiters r2) eqn:E; [|done].
  by rewrite do_waiters_nil.
Qed.

Lemma purge_resource_safe c ls wd n u r ro p wd' :
  purge_resource c ls wd n u r = (ro, p, wd') -> op_safe r ro.
Proof.
  rewrite purge_resource_eq.
  destruct (purge_lists _ _ _) as [r1 p1] eqn:E1. apply purge_lists_evolves in E1.
  destruct (purge_owner _ _ _) as [r2 wd1] eqn:E2. apply purge_owner_evolves in E2.
  destruct (do_waiters _ _ _ _) as [r3 wd2] eqn:E3. apply do_waiters_evolves in E3.
  intros [= <- _ _]. apply op_safe_put. eauto using evolves_trans.
Qed.

Lemma purge_loop_ok c ls wd n u rs rs' p wd' :
  purge_loop c ls wd n u rs = (rs', p, wd') -> Forall res_ok rs -> Forall res_ok rs'.
Proof.
  revert wd rs' p wd'. induction rs as [|r rs IH]; intros wd rs' p wd'; simpl.
  { intros [= <- _ _]. done. }
  destruct (purge_resource _ _ _ _ _ _) as [[ro p1] wd1] eqn:E.
  destruct (purge_loop _ _ _ _ _ _) as [[rest' p2] wd2] eqn:E2.
  intros [= <- _ _]. rewrite Forall_cons. intros [Hr Hrs].
  apply purge_resource_safe in E. pose proof (IH _ _ _ _ E2 Hrs) as H.
  destruct ro as [r'|]; [|done]. destruct (E r' eq_refl) as [_ Er]. constructor; auto.
Qed.

Lemma purge_plocks_ok c ls wd n u : ls_ok ls -> ls_ok (purge_plocks c ls wd n u).1.
Proof.
  intros (Hr & Hs). unfold purge_plocks. destruct (_ || _); [done|].
  destruct (purge_loop _ _ _ _ _ _) as [[rs p] wd1] eqn:E.
  pose proof (purge_loop_ok _ _ _ _ _ _ _ _ _ E Hr). by destruct p.
Qed.

Lemma route_plock_ok c ls wd info r :
  wf_info info -> ls_ok ls -> r_number r = i_number info -> res_ok r ->
  ls_ok (route_plock c ls wd info r).1.
Proof.
  intros Hi Hok Hn Hr. unfold route_plock. repeat zcase; [done| |].
  - destruct (receive_plock_op _ _ _ _ _ _) as [[ls1 ro] wd1] eqn:E.
    by eapply receive_plock_op_put_ok.
  - destruct (send_own _ _ _) eqn:E1. apply send_own_evolves in E1.
    destruct (save_pending_plock _ _ _) eqn:E2. apply save_pending_evolves in E2; [|done].
    eapply ls_ok_evolves; eauto using evolves_trans.
Qed.

(** ** Replication

    What a node knows of a resource that matters to locking: its locks and its
    waiting requests.  A resource that has none is the same as no resource:
    nodes create and free empty ones at different times. *)

Definition lw := (list posix_lock * list lock_waiter)%type.

Definition lw_of (ro : option resource) : lw :=
  match ro with Some r => (r_locks r, r_waiters r) | None => ([], []) end.

Definition view (ls : lockspace) (n : Z) : lw :=
  lw_of (search_resource (ls_plock_resources ls) n).

(** The world of an event at time [now] when memory is available. *)
Definition wd_at (now : Z) : world := mkWorld [] now [].

Lemma waiters_loop_indep c ls wd c' ls' wd' l p t :
  wd_mem wd = wd_mem wd' ->
  (waiters_loop c ls wd l p t).1 = (waiters_loop c' ls' wd' l p t).1 /\
  wd_mem (waiters_loop c ls wd l p t).2 = wd_mem (waiters_loop c' ls' wd' l p t).2.
Proof.
  revert wd wd' l p. induction t as [|w t IH]; intros wd wd' l p Hm; simpl; [done|].
  destruct (is_conflict _ _ _).1; [by apply IH|]. rewrite Hm.
  destruct (lock_internal _ _ _) as [[rv l'] m']. apply IH. by repeat case_match.
Qed.

(** The node-independent effect of an operation on a resource: computed with an
    arbitrary configuration and world. *)
Definition any_config : config := mkConfig 0 true false 0 0 0 0 false.
Definition any_ls : lockspace :=
  mkLs 0 0 false false false [] [] 0 0 0 0 0 0 0.
Definition res_of (v : lw) : resource := mkRes 0 0 0 0 v.1 v.2 [].

Definition op_lw (inf : dlm_plock_info) (v : lw) : lw :=
  lw_of (receive_plock_op any_config any_ls (wd_at 0) inf 0 (res_of v)).1.2.

Definition purge_lw (n : Z) (v : lw) : lw :=
  lw_of (purge_resource any_config any_ls (wd_at 0) n false (res_of v)).1.1.

Lemma put_resource_lw c r : lw_of (put_resource c r) = (r_locks r, r_waiters r).
Proof. by destruct (put_resource_cases c r) as [->|(-> & -> & ->)]. Qed.

Lemma do_waiters_indep c ls wd r c' ls' wd' r' :
  wd_mem wd = wd_mem wd' -> r_locks r = r_locks r' -> r_waiters r = r_waiters r' ->
  r_locks (do_waiters c ls wd r).1 = r_locks (do_waiters c' ls' wd' r').1 /\
  r_waiters (do_waiters c ls wd r).1 = r_waiters (do_waiters c' ls' wd' r').1.
Proof.
  intros Hm Hl Hw. unfold do_waiters. rewrite Hl, Hw.
  destruct (waiters_loop_indep c ls wd c' ls' wd' (r_locks r') [] (r_waiters r') Hm) as [E _].
  destruct (waiters_loop c _ _ _ _ _) as [[l1 w1] wd1].
  destruct (waiters_loop c' _ _ _ _ _) as [[l2 w2] wd2]. simpl in *. by injection E as -> ->.
Qed.

Lemma do_lock_indep c ls wd inf r c' ls' wd' r' :
  wd_mem wd = wd_mem wd' -> r_locks r = r_locks r' -> r_waiters r = r_waiters r' ->
  lw_of (do_lock c ls wd inf r).1 = lw_of (do_lock c' ls' wd' inf r').1.
Proof.
  intros Hm Hl Hw. unfold do_lock.
  destruct (do_lock_try wd inf r) as [[rv r1] wd1] eqn:E1.
  destruct (do_lock_try wd' inf r') as [[rv' r1'] wd1'] eqn:E2.
  assert (wd_mem wd1 = wd_mem wd1' /\ r_locks r1 = r_locks r1' /\ r_waiters r1 = r_waiters r1')
    as (Hm1 & Hl1 & Hw1).
  { unfold do_lock_try, add_waiter in E1, E2. rewrite Hl, Hm in E1.
    destruct (is_conflict _ _ _).1; [destruct (negb _); [by simplify_eq|
        destruct (malloc (wd_mem wd')) as [[g|] m]; simpl in *; simplify_eq; simpl;
          by rewrite ?Hw]|].
    destruct (lock_internal _ _ _) as [[? ?] ?]. by simplify_eq. }
  match goal with |- context [do_waiters c ls ?w r1] => set (w1 := w) end.
  match goal with |- context [do_waiters c' ls' ?w r1'] => set (w2 := w) end.
  destruct (do_waiters_indep c ls w1 r1 c' ls' w2 r1') as [F1 F2]; auto.
  { unfold w1, w2. by repeat case_match. }
  destruct (do_waiters c ls w1 r1), (do_waiters c' ls' w2 r1'). simpl in *.
  rewrite !put_resource_lw. congruence.
Qed.

Lemma do_unlock_indep c ls wd inf r c' ls' wd' r' :
  wd_mem wd = wd_mem wd' -> r_locks r = r_locks r' -> r_waiters r = r_waiters r' ->
  lw_of (do_unlock c ls wd inf r).1 = lw_of (do_unlock c' ls' wd' inf r').1.
Proof.
  intros Hm Hl Hw. unfold do_unlock. rewrite Hm, Hl.
  destruct (unlock_internal _ _ _) as [[rv l'] m'].
  match goal with |- context [do_waiters c ls ?w ?r] => set (w1 := w); set (r1 := r) end.
  match goal with |- context [do_waiters c' ls' ?w ?r] => set (w2 := w); set (r2 := r) end.
  destruct (do_waiters_indep c ls w1 r1 c' ls' w2 r2) as [F1 F2]; auto.
  { unfold w1, w2. by repeat case_match. }
  destruct (do_waiters c ls w1 r1), (do_waiters c' ls' w2 r2). simpl in *.
  rewrite !put_resource_lw. congruence.
Qed.

Lemma receive_plock_op_lw c ls wd inf from r :
  wd_mem wd = [] ->
  lw_of (receive_plock_op c ls wd inf from r).1.2 = op_lw inf (r_locks r, r_waiters r).
Proof.
  intros Hm. unfold op_lw, receive_plock_op. repeat zcase; try reflexivity.
  - pose proof (do_lock_indep c (ls_set_plock_time ls (wd_time wd)) wd inf r any_config
      (ls_set_plock_time any_ls (wd_time (wd_at 0))) (wd_at 0) (res_of (r_locks r, r_waiters r))) as H.
    destruct (do_lock c _ _ _ _), (do_lock any_config _ _ _ _). by apply H.
  - pose proof (do_unlock_indep c (ls_set_plock_time ls (wd_time wd)) wd inf r any_config
      (ls_set_plock_time any_ls (wd_time (wd_at 0))) (wd_at 0) (res_of (r_locks r, r_waiters r))) as H.
    destruct (do_unlock c _ _ _ _), (do_unlock any_config _ _ _ _). by apply H.
  - unfold do_get. simpl. destruct (is_conflict _ _ _).
    simpl. by rewrite !put_resource_lw.
Qed.

(** A GET leaves locks and waiters alone. *)
Lemma op_lw_get inf v : i_optype inf = DLM_PLOCK_OP_GET -> op_lw inf v = v.
Proof.
  intros H. unfold op_lw, receive_plock_op. rewrite H. simpl. unfold do_get.
  destruct (is_conflict _ _ _). simpl. rewrite put_resource_lw. by destruct v.
Qed.

(** A node that has joined: it neither ignores nor saves plock messages, and,
    without ownership, no resource has an owner. *)
Definition active (ls : lockspace) : Prop :=
  ls_disable_plock ls = false /\ ls_need_plocks ls = false /\ ls_save_plocks ls = false /\
  NoDup (numbers (ls_plock_resources ls)) /\
  Forall (fun r => r_owner r = 0) (ls_plock_resources ls).

(** What the nodes of a lockspace see in the same order: the delivered messages
    and the departures of nodes. *)
Inductive ordered_event :=
| Deliver (msg : message)
| Leave (nodeid : Z).

(** What one node does: the ordered events, and requests of its own kernel in
    between. *)
Inductive node_event :=
| Ordered (ev : ordered_event)
| Request (info : dlm_plock_info).

Definition node_step (c : config) (ls : lockspace) (tev : Z * node_event) : lockspace :=
  let '(now, ev) := tev in
  match ev with
  | Ordered (Deliver msg) => (deliver_plock c ls (wd_at now) msg).1
  | Ordered (Leave n) => (purge_plocks c ls (wd_at now) n false).1
  | Request info =>
      let create := negb (i_optype info =? DLM_PLOCK_OP_UNLOCK) in
      let '(rv, ro, ls1, wd1) := find_resource c ls (wd_at now) (i_number info) create in
      match ro with
      | None => ls1
      | Some r => (route_plock c ls1 wd1 info r).1
      end
  end.

Definition node_run (c : config) (ls : lockspace) (evs : list (Z * node_event)) : lockspace :=
  foldl (node_step c) ls evs.

Fixpoint ordered (evs : list (Z * node_event)) : list ordered_event :=
  match evs with
  | [] => []
  | (_, Ordered ev) :: rest => ev :: ordered rest
  | (_, Request _) :: rest => ordered rest
  end.

(** The replicated state machine: lock tables as functions of the resource
    number, changed by the ordered events alone. *)
Definition rsm_step (f : Z -> lw) (ev : ordered_event) : Z -> lw :=
  match ev with
  | Deliver msg =>
      fun n =>
        if (m_type msg =? DLM_MSG_PLOCK) && (m_nodeid msg =? i_nodeid (m_info msg)) &&
           (n =? i_number (m_info msg))
        then op_lw (m_info msg) (f n) else f n
  | Leave k => fun n => purge_lw k (f n)
  end.

Definition unowned (r : resource) : Prop := r_owner r = 0.

Lemma view_put ls n k ro :
  NoDup (numbers (ls_plock_resources ls)) ->
  is_Some (search_resource (ls_plock_resources ls) k) ->
  (forall r, ro = Some r -> r_number r = k) ->
  view (ls_put ls k ro) n = if n =? k then lw_of ro else view ls n.
Proof.
  intros Hd [r0 Hr0] Hro. unfold view, ls_put; simpl. zcase.
  - subst n. destruct ro as [r|].
    + by rewrite (search_put_same _ _ r0) by auto.
    + by rewrite search_put_None.
  - by rewrite search_put_ne.
Qed.

Lemma find_resource_view c ls wd k create rv ro ls' wd' :
  cfgd_plock_ownership c = false -> wd_mem wd = [] -> active ls ->
  find_resource c ls wd k create = (rv, ro, ls', wd') ->
  active ls' /\ wd_mem wd' = [] /\ (forall n, view ls' n = view ls n) /\
  match ro with
  | Some r => search_resource (ls_plock_resources ls') k = Some r /\ r_owner r = 0
  | None => create = false
  end.
Proof.
  intros Hc Hm Hact. assert (Hact' := Hact).
  destruct Hact' as (H1 & H2 & H3 & Hd & Ho). unfold find_resource.
  destruct (search_resource _ k) as [r|] eqn:E.
  - intros [= <- <- <- <-]. assert (E' := E). apply search_Some in E' as [Hin Hn].
    assert (Hr : r_owner r = 0) by (rewrite Forall_forall in Ho; by apply Ho).
    split_and!; auto.
    + unfold active, ls_put; simpl. split_and!; auto.
      * apply NoDup_put; [|done]. by intros ? [= <-].
      * apply Forall_put; [done|]. by intros ? [= <-].
    + intros n. rewrite view_put; [|done|by rewrite E|by intros ? [= <-]].
      zcase; [|done]. subst n. unfold view. by rewrite E.
    + unfold ls_put; simpl. by apply (search_put_same _ _ r).
  - destruct create; simpl; [|by intros [= <- <- <- <-]].
    rewrite Hm. simpl. rewrite Hc. intros [= <- <- <- <-]. split_and!; auto.
    + unfold active; simpl. split_and!; auto.
      * unfold numbers. rewrite map_app. simpl. apply NoDup_app. split; [done|].
        apply search_None in E. split; [set_solver|apply NoDup_singleton].
      * apply Forall_app. split; [done|]. by apply Forall_singleton.
    + intros n. unfold view; simpl. destruct (decide (n = k)) as [->|Hne].
      * rewrite search_app_None, E by done. simpl. by rewrite Z.eqb_refl.
      * by rewrite search_app_ne by (simpl; lia).
    + simpl. rewrite search_app_None by done. simpl. by rewrite Z.eqb_refl.
Qed.

(** An operation keeps the number and owner of its resource, and touches
    nothing of the lockspace but the time of the last operation. *)
Definition keeps_id (r : resource) (ro : option resource) : Prop :=
  forall r', ro = Some r' -> r_number r' = r_number r /\ r_owner r' = r_owner r.

Lemma do_waiters_id c ls wd r r' wd' :
  do_waiters c ls wd r = (r', wd') -> r_number r' = r_number r /\ r_owner r' = r_owner r.
Proof.
  unfold do_waiters. destruct (waiters_loop _ _ _ _ _ _) as [[? ?] ?]. by intros [= <- <-].
Qed.

Lemma keeps_id_put c r r1 :
  r_number r1 = r_number r -> r_owner r1 = r_owner r -> keeps_id r (put_resource c r1).
Proof.
  intros H1 H2 r' Hr'. destruct (put_resource_cases c r1) as [E|[E _]];
    rewrite E in Hr'; [|done]. by injection Hr' as <-.
Qed.

Lemma do_lock_try_id wd inf r rv r1 wd1 :
  do_lock_try wd inf r = (rv, r1, wd1) -> r_number r1 = r_number r /\ r_owner r1 = r_owner r.
Proof.
  unfold do_lock_try, add_waiter. intros H. repeat case_match; by simplify_eq.
Qed.

Lemma receive_plock_op_frame c ls wd inf from r ls' ro wd' :
  receive_plock_op c ls wd inf from r = (ls', ro, wd') ->
  keeps_id r ro /\ exists t, ls' = ls_set_plock_time ls t.
Proof.
  assert (Hsame : exists t, ls = ls_set_plock_time ls t)
    by (exists (ls_last_plock_time ls); by destruct ls).
  unfold receive_plock_op. repeat zcase.
  - unfold do_lock. destruct (do_lock_try _ _ _) as [[rv r1] wd1] eqn:E1.
    apply do_lock_try_id in E1 as [].
    destruct (do_waiters _ _ _ _) eqn:E2. apply do_waiters_id in E2 as [].
    intros [= <- <- <-]. split; [|eauto]. apply keeps_id_put; congruence.
  - unfold do_unlock. destruct (unlock_internal _ _ _) as [[? ?] ?].
    destruct (do_waiters _ _ _ _) eqn:E2. apply do_waiters_id in E2 as [].
    intros [= <- <- <-]. split; [|eauto]. by apply keeps_id_put.
  - unfold do_get. destruct (is_conflict _ _ _). intros [= <- <- <-].
    split; [|done]. by apply keeps_id_put.
  - intros [= <- <- <-]. split; [|done]. by intros ? [= <-].
  - intros [= <- <- <-]. split; [|done]. by intros ? [= <-].
Qed.

Section replication.
Context (c : config) (Hown : cfgd_plock_ownership c = false)
  (Hen : cfgd_enable_plock c = true).

Lemma deliver_view ls now msg :
  active ls ->
  active (deliver_plock c ls (wd_at now) msg).1 /\
  forall n, view (deliver_plock c ls (wd_at now) msg).1 n =
            rsm_step (view ls) (Deliver msg) n.
Proof.
  intros Hact. assert (Ha := Hact). destruct Ha as (H1 & H2 & H3 & Hd & Ho).
  unfold deliver_plock, receive_plock. rewrite H1, H2, H3, Hen, Hown. simpl.
  destruct (m_type msg =? DLM_MSG_PLOCK) eqn:Ht; simpl; [|by repeat zcase].
  unfold receive_plock_.
  destruct ((i_optype (m_info msg) =? DLM_PLOCK_OP_GET) &&
            negb (m_nodeid msg =? our_nodeid c)) eqn:Hg; zbool.
  { split; [done|]. intros n. simpl. zcase; [|done]. by rewrite op_lw_get. }
  rewrite Z.eqb_refl. simpl.
  destruct (m_nodeid msg =? i_nodeid (m_info msg)); simpl; [|done].
  rewrite Hown. simpl.
  destruct (find_resource _ _ _ _ _) as [[[rv ro] ls1] wd1] eqn:Hf.
  apply find_resource_view in Hf as (Hact1 & Hm1 & Hv & Hro); [|done..].
  destruct ro as [r|]; [|done]. destruct Hro as [Hsr Hr0]. rewrite Hr0. simpl.
  destruct (receive_plock_op _ _ _ _ _ _) as [[ls2 ro2] wd2] eqn:Hop. simpl.
  assert (Hlw := receive_plock_op_lw c ls1 wd1 (m_info msg) (m_nodeid msg) r Hm1).
  rewrite Hop in Hlw. simpl in Hlw.
  apply receive_plock_op_frame in Hop as [Hid [t ->]].
  destruct Hact1 as (H1' & H2' & H3' & Hd' & Ho').
  assert (Hid' : forall r', ro2 = Some r' ->
            r_number r' = i_number (m_info msg) /\ r_owner r' = 0).
  { intros r' E. destruct (Hid r' E). apply search_Some in Hsr as []. split; congruence. }
  split.
  - unfold active, ls_put; simpl. split_and!; auto.
    + apply NoDup_put; [|done]. intros. by apply Hid'.
    + apply Forall_put; [done|]. intros. by apply Hid'.
  - intros n. rewrite view_put; [|done|by simpl; rewrite Hsr|intros; by apply Hid'].
    change (view (ls_set_plock_time ls1 t) n) with (view ls1 n). rewrite <- Hv.
    zcase; [|done]. subst n. rewrite Hlw. unfold view. by rewrite Hsr.
Qed.

Lemma request_view ls now info :
  active ls ->
  active (node_step c ls (now, Request info)) /\
  forall n, view (node_step c ls (now, Request info)) n = view ls n.
Proof.
  intros Hact. simpl.
  destruct (find_resource _ _ _ _ _) as [[[rv ro] ls1] wd1] eqn:Hf.
  apply find_resource_view in Hf as (Hact1 & Hm1 & Hv & Hro); [|done..].
  destruct ro as [r|]; [|by split]. destruct Hro as [_ Hr0].
  unfold route_plock. by rewrite Hr0.
Qed.
End replication.

Lemma lock_internal_mem_nil l inf : (lock_internal [] l inf).2 = [].
Proof.
  destruct (lock_internal [] l inf) as [[rv l'] m'] eqn:E.
  apply lock_loop_mem in E as [Hs _]. by apply suffix_nil_inv in Hs.
Qed.

Lemma waiters_loop_mem_nil c ls wd l p t :
  wd_mem wd = [] -> wd_mem (waiters_loop c ls wd l p t).2 = [].
Proof.
  revert wd l p. induction t as [|w t IH]; intros wd l p Hm; simpl; [done|].
  destruct (is_conflict _ _ _).1; [by apply IH|].
  assert (Hn := lock_internal_mem_nil l (wt_info w)). rewrite Hm.
  destruct (lock_internal _ _ _) as [[rv l'] m']. simpl in Hn. subst m'.
  apply IH. by case_match.
Qed.

Lemma send_pending_loop_mem_nil wd ws :
  wd_mem wd = [] -> wd_mem (send_pending_loop wd ws) = [].
Proof.
  revert wd. induction ws as [|w ws IH]; intros wd Hm; simpl; [done|]. apply IH.
  unfold send_plock, send_struct_info. by rewrite Hm.
Qed.

Lemma do_waiters_mem_nil c ls wd r :
  wd_mem wd = [] -> wd_mem (do_waiters c ls wd r).2 = [].
Proof.
  intros Hm. unfold do_waiters.
  assert (H := waiters_loop_mem_nil c ls wd (r_locks r) [] (r_waiters r) Hm).
  by destruct (waiters_loop _ _ _ _ _ _) as [[? ?] ?].
Qed.

Lemma purge_owner_spec wd n r r' wd' :
  purge_owner wd n r = (r', wd') ->
  r_locks r' = r_locks r /\ r_waiters r' = r_waiters r /\ r_number r' = r_number r /\
  (r_owner r = 0 -> r_owner r' = 0) /\ (wd_mem wd = [] -> wd_mem wd' = []).
Proof.
  unfold purge_owner. zcase; intros [= <- <-]; split_and!; auto.
  apply send_pending_loop_mem_nil.
Qed.

Lemma purge_resource_lw c ls wd n r ro p wd' :
  wd_mem wd = [] -> r_owner r = 0 -> purge_resource c ls wd n false r = (ro, p, wd') ->
  lw_of ro = purge_lw n (r_locks r, r_waiters r) /\
  (forall r', ro = Some r' -> r_number r' = r_number r /\ r_owner r' = 0) /\ wd_mem wd' = [].
Proof.
  intros Hm Hr. unfold purge_lw. rewrite !purge_resource_eq. simpl.
  destruct (purge_owner wd n _) as [r2 wd1] eqn:E2.
  apply purge_owner_spec in E2 as (A1 & A2 & A3 & A4 & A5).
  destruct (purge_owner (wd_at 0) n _) as [r2' wd1'] eqn:E2'.
  apply purge_owner_spec in E2' as (B1 & B2 & _ & _ & B5).
  simpl in *. specialize (A4 Hr). specialize (A5 Hm). specialize (B5 eq_refl).
  assert (Hd := do_waiters_mem_nil c ls wd1 r2 A5).
  destruct (do_waiters_indep c ls wd1 r2 any_config any_ls wd1' r2') as [D1 D2];
    [congruence..|].
  destruct (do_waiters c ls wd1 r2) as [r3 wd2] eqn:E3.
  apply do_waiters_id in E3 as []. destruct (do_waiters any_config _ _ _) as [r3' ?].
  intros [= <- _ <-]. simpl in *. rewrite !put_resource_lw. split_and!; [congruence| |done].
  intros r' Hr'. assert (keeps_id r3 (put_resource c r3)) as Hk by by apply keeps_id_put.
  destruct (Hk r' Hr'). split; congruence.
Qed.

Lemma purge_lw_empty n : purge_lw n ([], []) = ([], []).
Proof. unfold purge_lw. rewrite purge_resource_eq. simpl. unfold purge_owner. by zcase. Qed.

Lemma purge_loop_view c ls wd k rs rs' p wd' :
  wd_mem wd = [] -> Forall unowned rs -> NoDup (numbers rs) ->
  purge_loop c ls wd k false rs = (rs', p, wd') ->
  Forall unowned rs' /\ (forall n, n ∈ numbers rs' -> n ∈ numbers rs) /\ NoDup (numbers rs') /\
  forall n, lw_of (search_resource rs' n) = purge_lw k (lw_of (search_resource rs n)).
Proof.
  revert wd rs' p wd'. induction rs as [|r rs IH]; intros wd rs' p wd' Hm Hu Hd; simpl.
  { intros [= <- _ _]. split_and!; auto. intros n. by rewrite purge_lw_empty. }
  destruct (purge_resource _ _ _ _ _ _) as [[ro p1] wd1] eqn:E.
  rewrite Forall_cons in Hu. destruct Hu as [Hr Hu]. simpl in Hd. rewrite NoDup_cons in Hd.
  destruct Hd as [Hn Hd]. apply purge_resource_lw in E as (Hlw & Hid & Hm1); [|done..].
  destruct (purge_loop _ _ _ _ _ _) as [[rest' p2] wd2] eqn:E2. intros [= <- _ _].
  apply IH in E2 as (I1 & I2 & I3 & I4); [|done..].
  assert (Hnone : search_resource rest' (r_number r) = None)
    by (apply search_None; intros ?; apply Hn; auto).
  destruct ro as [r'|].
  - destruct (Hid r' eq_refl) as [Hn' Ho']. simpl. split_and!.
    + by constructor.
    + rewrite Hn'. set_solver.
    + rewrite Hn'. apply NoDup_cons. split; [|done]. intros ?. apply Hn; auto.
    + intros n. rewrite Hn'. zcase; [done|apply I4].
  - split_and!; auto; [set_solver|]. intros n. zcase; [|apply I4].
    subst n. by rewrite Hnone.
Qed.

Lemma purge_view c ls now k :
  cfgd_enable_plock c = true -> active ls ->
  active (purge_plocks c ls (wd_at now) k false).1 /\
  forall n, view (purge_plocks c ls (wd_at now) k false).1 n = purge_lw k (view ls n).
Proof.
  intros Hen (H1 & H2 & H3 & Hd & Ho). unfold purge_plocks. rewrite Hen, H1. simpl.
  destruct (purge_loop _ _ _ _ _ _) as [[rs' p] wd'] eqn:E.
  apply purge_loop_view in E as (I1 & I2 & I3 & I4); [|done..].
  destruct p; (split; [by unfold active; simpl; split_and!|apply I4]).
Qed.

Lemma rsm_ext evs f g :
  (forall n, f n = g n) -> forall n, foldl rsm_step f evs n = foldl rsm_step g evs n.
Proof.
  revert f g. induction evs as [|e evs IH]; intros f g Hfg n; simpl; [done|].
  apply IH. clear n. intros n. destruct e; simpl; by rewrite Hfg.
Qed.

Lemma node_run_refines c ls evs :
  cfgd_plock_ownership c = false -> cfgd_enable_plock c = true -> active ls ->
  forall n, view (node_run c ls evs) n = foldl rsm_step (view ls) (ordered evs) n.
Proof.
  intros Hown Hen. revert ls.
  induction evs as [|[now ev] evs IH]; intros ls Hact n; [done|].
  change (node_run c ls ((now, ev) :: evs)) with (node_run c (node_step c ls (now, ev)) evs).
  destruct ev as [[msg|k]|info].
  - destruct (deliver_view c Hown Hen ls now msg Hact) as [Ha Hv].
    rewrite IH by done. cbn [ordered foldl]. apply rsm_ext, Hv.
  - destruct (purge_view c ls now k Hen Hact) as [Ha Hv].
    rewrite IH by done. cbn [ordered foldl]. apply rsm_ext, Hv.
  - destruct (request_view c Hown ls now info Hact) as [Ha Hv].
    rewrite IH by done. cbn [ordered foldl]. apply rsm_ext, Hv.
Qed.

(** C2: replication, with plocks enabled, ownership off (it is on by default) and memory
    available. Two nodes of a lockspace that take part in it, start with the same locks and
    waiting requests on every resource, and see the same messages and departures in the same
    order have the same locks and the same waiting requests, in the same order, on every
    resource, whatever their node ids, clocks and the requests their own kernels make in
    between. *)
Theorem plock_replication c1 c2 ls1 ls2 evs1 evs2 :
  cfgd_plock_ownership c1 = false -> cfgd_enable_plock c1 = true ->
  cfgd_plock_ownership c2 = false -> cfgd_enable_plock c2 = true ->
  active ls1 -> active ls2 -> (forall n, view ls1 n = view ls2 n) ->
  ordered evs1 = ordered evs2 ->
  forall n, view (node_run c1 ls1 evs1) n = view (node_run c2 ls2 evs2) n.
Proof.
  intros H1 H2 H3 H4 Ha1 Ha2 Hv He n.
  rewrite !node_run_refines by done. rewrite He. by apply rsm_ext.
Qed.

(** ** Waiting requests *)

(** No waiting request could be granted. *)
Definition settled (r : resource) : Prop :=
  Forall (fun w => fst (is_conflict (r_locks r) (wt_info w) false) = true) (r_waiters r).

(** A pass either grants something or finds everything blocked and changes
    nothing. *)
Lemma waiters_loop_progress c ls wd l p t l' w' wd' :
  waiters_loop c ls wd l p t = (l', w', wd') ->
  (length w' < length p + length t)%nat \/
  l' = l /\ w' = p ++ t /\ wd' = wd /\
  Forall (fun w => fst (is_conflict l (wt_info w) false) = true) t.
Proof.
  assert (Hlen : forall t l p wd l' w' wd', waiters_loop c ls wd l p t = (l', w', wd') ->
    (length w' <= length p + length t)%nat).
  { clear. induction t as [|w t IH]; intros l p wd l' w' wd'; simpl.
    - intros [= _ <- _]. lia.
    - destruct (is_conflict _ _ _).1; [|destruct (lock_internal _ _ _) as [[? ?] ?]];
        intros H; apply IH in H; rewrite ?length_app in H; simpl in H; lia. }
  revert l p wd. induction t as [|w t IH]; intros l p wd; simpl.
  { intros [= <- <- <-]. right. by rewrite app_nil_r. }
  destruct (is_conflict l (wt_info w) false).1 eqn:E.
  - intros H. apply IH in H as [H|(-> & -> & -> & Hf)].
    + left. rewrite length_app in H. simpl in H. lia.
    + right. rewrite <- app_assoc. split_and!; auto.
  - destruct (lock_internal _ _ _) as [[rv l1] m']. intros H. apply Hlen in H. left. lia.
Qed.

Lemma do_waiters_progress c ls wd r r' wd' :
  do_waiters c ls wd r = (r', wd') ->
  (length (r_waiters r') < length (r_waiters r))%nat \/ r' = r /\ settled r.
Proof.
  unfold do_waiters. destruct (waiters_loop _ _ _ _ _ _) as [[l' w'] wd1] eqn:E.
  intros [= <- <-]. apply waiters_loop_progress in E as [H|(-> & -> & -> & H)]; [by left|].
  right. split; [by destruct r|done].
Qed.

Lemma waiters_loop_blocked c ls wd l p t :
  Forall (fun w => fst (is_conflict l (wt_info w) false) = true) t ->
  waiters_loop c ls wd l p t = (l, p ++ t, wd).
Proof.
  intros H. revert p. induction H as [|w t Hw Ht IH]; intros p; simpl.
  - by rewrite app_nil_r.
  - rewrite Hw, IH. by rewrite <- app_assoc.
Qed.

Lemma do_waiters_settled c ls wd r : settled r -> do_waiters c ls wd r = (r, wd).
Proof.
  intros H. unfold do_waiters. rewrite waiters_loop_blocked by done. by destruct r.
Qed.

(** [k] passes over the waiters, the worlds of the passes being arbitrary. *)
Fixpoint passes (c : config) (ls : lockspace) (wds : list world) (r : resource) : resource :=
  match wds with
  | [] => r
  | wd :: wds' => passes c ls wds' (do_waiters c ls wd r).1
  end.

Lemma passes_settled c ls wds r : settled r -> passes c ls wds r = r.
Proof.
  intros H. induction wds as [|wd wds IH]; simpl; [done|]. by rewrite do_waiters_settled.
Qed.

(** Repeated passes of [do_waiters] settle a resource: after as many passes as
    there are waiting requests, in any worlds, no waiting request can be granted
    any more, and a pass over a settled resource changes nothing. *)
Theorem do_waiters_converges c ls wds r :
  (length (r_waiters r) <= length wds)%nat ->
  settled (passes c ls wds r) /\
  forall wd, do_waiters c ls wd (passes c ls wds r) = (passes c ls wds r, wd).
Proof.
  intros Hlen. assert (Hs : settled (passes c ls wds r)).
  { revert r Hlen. induction wds as [|wd wds IH]; intros r Hlen; simpl in *.
    - unfold settled. destruct (r_waiters r); [constructor|simpl in Hlen; lia].
    - destruct (do_waiters c ls wd r) as [r' wd'] eqn:E. simpl.
      apply do_waiters_progress in E as [H|[-> H]]; [apply IH; lia|].
      by rewrite passes_settled. }
  split; [done|]. intros wd. by apply do_waiters_settled.
Qed.

Lemma spec_conflict_upgrade f inf req :
  i_ex inf = 1 -> spec_conflict f req -> spec_conflict (spec_lock f inf) req.
Proof.
  intros Hex (n & o & x & e & Hne & Hx & Hf & He). unfold spec_lock.
  exists n, o, x, (if in_request inf n o x then i_ex inf else e).
  split; [done|]. split; [done|].
  destruct (in_request inf n o x); split; auto; right; lia.
Qed.

Lemma granted_upgrade inf l l' req :
  owners_disjoint l -> granted inf l l' -> i_ex inf = 1 ->
  spec_conflict (mode_at l) req -> spec_conflict (mode_at l') req.
Proof.
  intros Hd Hg Hex Hc. apply (spec_conflict_upgrade _ inf) in Hc; [|done].
  destruct Hc as (n & o & x & e & H1 & H2 & H3 & H4). exists n, o, x, e.
  by rewrite (mode_at_granted inf l l').
Qed.

Lemma waiters_loop_exclusive c ls wd l p t l' w' wd' :
  wd_mem wd = [] -> owners_disjoint l -> wf_locks l ->
  Forall wf_waiter p -> Forall wf_waiter t ->
  Forall (fun w => i_ex (wt_info w) = 1) t ->
  Forall (fun w => spec_conflict (mode_at l) (wt_info w)) p ->
  waiters_loop c ls wd l p t = (l', w', wd') ->
  owners_disjoint l' /\ wf_locks l' /\ Forall wf_waiter w' /\
  Forall (fun w => spec_conflict (mode_at l') (wt_info w)) w'.
Proof.
  revert l p wd. induction t as [|w t IH]; intros l p wd Hm Hd Hw Hp Ht Hex Hc; simpl.
  { by intros [= <- <- <-]. }
  rewrite Forall_cons in Ht, Hex. destruct Ht as [Hwt Ht], Hex as [Hex1 Hex].
  destruct (is_conflict l (wt_info w) false).1 eqn:E.
  - apply IH; auto; apply Forall_app; (split; [done|]); apply Forall_singleton; [done|].
    rewrite is_conflict_existsb in E. by apply existsb_conflicts_spec in E.
  - rewrite Hm. destruct (lock_internal_nil_mem l (wt_info w)) as [l1 El]; [done..|].
    rewrite El. apply lock_loop_granted in El as Hg; [|by apply loop_inv_init].
    apply IH; auto; try apply Hg.
    + by case_match.
    + eapply Forall_impl; [exact Hc|]. intros v Hv.
      by eapply granted_upgrade.
Qed.

(** One pass is enough for exclusive requests: when every waiting request of a
    well-formed resource is a write lock, [do_waiters] leaves none that could be
    granted (memory being available). *)
Theorem do_waiters_exclusive c ls wd r :
  wd_mem wd = [] -> owners_disjoint (r_locks r) -> wf_locks (r_locks r) ->
  Forall wf_waiter (r_waiters r) ->
  Forall (fun w => i_ex (wt_info w) = 1) (r_waiters r) ->
  settled (do_waiters c ls wd r).1.
Proof.
  intros Hm Hd Hw Hwt Hex. unfold do_waiters.
  destruct (waiters_loop _ _ _ _ _ _) as [[l' w'] wd'] eqn:E.
  apply waiters_loop_exclusive in E as (Hd' & Hw' & Hwt' & Hc); [|done..].
  unfold settled; simpl. rewrite Forall_forall in Hwt', Hc. apply Forall_forall. intros w Hin.
  rewrite is_conflict_existsb. apply existsb_conflicts_spec; auto.
  by apply Hwt'.
Qed.

(** ** What the requesting process is told *)

Definition result (c : config) (ls : lockspace) (inf : dlm_plock_info) (rv : Z) : effect :=
  EvWrite (info_set_result inf
             (if need_fsid_translation c then ls_associated_mg_id ls else i_fsid inf) rv).

(** What the local processes are told of waiting requests that were taken up, each with its
    result. *)
Definition answers (c : config) (ls : lockspace) (taken : list (lock_waiter * Z)) : list effect :=
  (fun t => result c ls (wt_info t.1) t.2) <$>
    filter (fun t => i_nodeid (wt_info t.1) = our_nodeid c) taken.

(** The results are 0, or [-ENOMEM] when an allocation fails. *)
Definition fair_result (m : mem) (v : Z) : Prop := v = 0 \/ v = - ENOMEM /\ None ∈ m.

Definition lock_all (f : lock_map) (taken : list (lock_waiter * Z)) : lock_map :=
  foldl (fun f t => spec_lock f (wt_info t.1)) f taken.

Lemma lock_all_ext taken f g : (forall n o x, f n o x = g n o x) ->
  forall n o x, lock_all f taken n o x = lock_all g taken n o x.
Proof.
  revert f g. induction taken as [|t taken IH]; intros f g H n o x; [apply H|].
  apply IH. clear n o x. intros n o x. unfold spec_lock. by rewrite H.
Qed.

(** A pass over the waiting requests divides them into those that are taken up and those that
    go on waiting. *)
Record divided (ws : list lock_waiter) (taken : list (lock_waiter * Z)) (left : list lock_waiter) : Prop := {
  dv_all : ws ≡ₚ taken.*1 ++ left;
  dv_taken : taken.*1 `sublist_of` ws;
  dv_left : left `sublist_of` ws
}.

Lemma divided_wait w ws taken left : divided ws taken left -> divided (w :: ws) taken (w :: left).
Proof.
  intros [H1 H2 H3]. split; [|by apply sublist_cons|by apply sublist_skip].
  rewrite H1. apply Permutation_middle.
Qed.

Lemma divided_take w v ws taken left : divided ws taken left -> divided (w :: ws) ((w, v) :: taken) left.
Proof.
  intros [H1 H2 H3]. split; cbn; [by constructor|by apply sublist_skip|by apply sublist_cons].
Qed.

Lemma waiters_loop_out c ls wd l p t l' w' wd' :
  wf_locks l -> Forall wf_waiter t -> waiters_loop c ls wd l p t = (l', w', wd') ->
  exists taken left, w' = p ++ left /\ divided t taken left /\
    wd_out wd' = wd_out wd ++ answers c ls taken /\ Forall (fun t => fair_result (wd_mem wd) t.2) taken /\
    (None ∉ wd_mem wd -> owners_disjoint l ->
      forall n o x, mode_at l' n o x = lock_all (mode_at l) taken n o x).
Proof.
  revert l p wd. induction t as [|w t IH]; intros l p wd Hw Ht; simpl.
  { intros [= <- <- <-]. exists [], []. rewrite !app_nil_r. split_and!; auto. by split. }
  apply Forall_cons in Ht as [Hwt Ht]. destruct (is_conflict _ _ _).1.
  - intros H. apply IH in H as (taken & left & E1 & E2 & E3); [|done..].
    exists taken, (w :: left). rewrite <- app_assoc in E1. split; [done|]. split; [by apply divided_wait|done].
  - destruct (lock_internal (wd_mem wd) l (wt_info w)) as [[rv l1] m1] eqn:El. intros H.
    pose proof (lock_internal_outcome _ _ _ _ _ _ Hw Hwt El) as Hrv.
    pose proof (proj1 (lock_loop_mem _ _ _ _ _ _ _ El)) as [mm Hmm].
    assert (Hw1 : wf_locks l1).
    { apply lock_loop_good with (l := l) in El as [_ Hg]; [|done|by apply good_self].
      eapply Forall_impl; [exact Hg|by intros ? []]. }
    apply IH in H as (taken & left & E1 & E2 & E3 & E4 & E5); [|done|done].
    exists ((w, rv) :: taken), left. split; [done|]. split; [by apply divided_take|].
    assert (Em : wd_mem (if i_nodeid (wt_info w) =? our_nodeid c then write_result c ls (wd_set_mem wd m1) (wt_info w) rv else wd_set_mem wd m1) = m1)
      by (by destruct (_ =? _)). rewrite Em in E4, E5. split_and!.
    + rewrite E3. unfold answers. rewrite filter_cons. destruct (i_nodeid (wt_info w) =? our_nodeid c) eqn:En; zbool.
      * rewrite decide_True by done. simpl. by rewrite <- app_assoc.
      * by rewrite decide_False by done.
    + constructor; [done|]. eapply Forall_impl; [exact E4|]. intros q [Hq|[Hq Hn]]; [by left|right].
      split; [done|]. rewrite Hmm. apply elem_of_app. by right.
    + intros Hm Hd. destruct Hrv as [->|[_ ?]]; [|done].
      apply lock_loop_granted in El as Hg; [|by apply loop_inv_init].
      intros n o x. rewrite E5; [|rewrite Hmm in Hm; set_solver|apply Hg].
      change (lock_all (mode_at l) ((w, 0) :: taken)) with (lock_all (spec_lock (mode_at l) (wt_info w)) taken).
      apply lock_all_ext. clear n o x. intros n o x. by apply mode_at_granted.
Qed.

Definition waiting (ro : option resource) : list lock_waiter := from_option r_waiters [] ro.
Definition held_by (ro : option resource) : lock_map := mode_at (from_option r_locks [] ro).

Lemma put_resource_same c r :
  waiting (put_resource c r) = r_waiters r /\ held_by (put_resource c r) = mode_at (r_locks r).
Proof. destruct (put_resource_cases c r) as [->|(-> & E1 & E2)]; unfold waiting, held_by; cbn; by rewrite ?E1, ?E2. Qed.

Lemma fair_suffix m m' v : m' `suffix_of` m -> fair_result m' v -> fair_result m v.
Proof. intros [k ->] [H|[H Hm]]; [by left|right]. split; [done|]. apply elem_of_app. by right. Qed.

Lemma do_lock_try_mem wd inf r rv r1 wd1 : do_lock_try wd inf r = (rv, r1, wd1) ->
  wd_mem wd1 `suffix_of` wd_mem wd /\ wd_out wd1 = wd_out wd.
Proof.
  unfold do_lock_try, add_waiter. destruct (is_conflict _ _ _).1.
  - destruct (negb _); [by intros [= <- <- <-]|]. unfold malloc.
    destruct (wd_mem wd) as [|[g|] m'] eqn:Em; cbn; intros [= <- <- <-]; cbn; (split; [|done]);
      [done|by exists [Some g]|by exists [None]].
  - destruct (lock_internal _ _ _) as [[v l'] m'] eqn:E. intros [= <- <- <-]. split; [|done].
    by apply (lock_loop_mem _ _ _ _ _ _ _ E).
Qed.

(** The second half of [do_lock], from the label [out]. *)
Lemma do_lock_out c ls wd inf r rv r1 wd1 ro wd' :
  do_lock_try wd inf r = (rv, r1, wd1) -> i_nodeid inf = our_nodeid c ->
  wf_locks (r_locks r1) -> Forall wf_waiter (r_waiters r1) -> do_lock c ls wd inf r = (ro, wd') ->
  exists taken, wd_out wd' = wd_out wd ++ (if rv =? - EINPROGRESS then [] else [result c ls inf rv]) ++ answers c ls taken /\
    divided (r_waiters r1) taken (waiting ro) /\ Forall (fun t => fair_result (wd_mem wd) t.2) taken /\
    (None ∉ wd_mem wd -> owners_disjoint (r_locks r1) ->
      forall n o x, held_by ro n o x = lock_all (mode_at (r_locks r1)) taken n o x).
Proof.
  intros E Hn Hw Ht. unfold do_lock. rewrite E, Hn, Z.eqb_refl. cbn [andb]. unfold do_waiters.
  destruct (do_lock_try_mem _ _ _ _ _ _ E) as [Hsuf Ho].
  set (wd2 := if negb _ then _ else _). destruct (waiters_loop _ _ _ _ _ _) as [[l' w'] wd3] eqn:El.
  intros [= <- <-]. destruct (put_resource_same c (r_set_waiters (r_set_locks r1 l') w')) as [-> ->].
  apply waiters_loop_out in El as (taken & left & E1 & E2 & E3 & E4 & E5); [|done..].
  assert (wd_mem wd2 = wd_mem wd1) as Em by (unfold wd2; by destruct (_ =? _)). rewrite Em in *.
  exists taken. cbn. subst w'. split_and!; [|done|eapply Forall_impl; [exact E4|]; intros; by eapply fair_suffix|].
  - rewrite E3, <- Ho. unfold wd2. destruct (rv =? - EINPROGRESS); cbn; [done|]. by rewrite <- app_assoc.
  - intros Hm. apply E5. destruct Hsuf as [k Hk]. rewrite Hk in Hm. set_solver.
Qed.

(** C28: what happens to a request for a lock of a local process, on every branch of
    [do_lock].  When no other owner holds an incompatible mode on a byte of the request, the
    process is told 0 and holds the bytes, or [-ENOMEM] when an allocation failed; when one
    does and the request does not wait, it is told [-EAGAIN] and nothing changes; when it
    waits, it is queued behind the waiting ones and is told nothing, or [-ENOMEM] when there
    is no memory.  Then every waiting request, this one included, either goes on waiting in the
    resource, in the same order, or is taken up: its process, if local, is told the
    result, and, unless an allocation failed, its owner holds its bytes, and nothing else is
    held that was not before. *)
Theorem do_lock_answers c ls wd inf r ro wd' :
  owners_disjoint (r_locks r) -> res_ok r -> wf_info inf ->
  i_nodeid inf = our_nodeid c -> do_lock c ls wd inf r = (ro, wd') ->
  let conflict := spec_conflict (mode_at (r_locks r)) inf in
  exists own ws f taken,
    wd_out wd' = wd_out wd ++ own ++ answers c ls taken /\
    (~ conflict -> (exists v, own = [result c ls inf v] /\ fair_result (wd_mem wd) v) /\
       ws = r_waiters r /\ f = spec_lock (mode_at (r_locks r)) inf) /\
    (conflict -> i_wait inf = 0 ->
       own = [result c ls inf (- EAGAIN)] /\ ws = r_waiters r /\ f = mode_at (r_locks r)) /\
    (conflict -> i_wait inf <> 0 -> f = mode_at (r_locks r) /\
       (own = [] /\ (exists g, ws = r_waiters r ++ [mkWaiter g inf]) \/
        own = [result c ls inf (- ENOMEM)] /\ ws = r_waiters r /\ None ∈ wd_mem wd)) /\
    divided ws taken (waiting ro) /\ Forall (fun t => fair_result (wd_mem wd) t.2) taken /\
    (None ∉ wd_mem wd -> forall n o x, held_by ro n o x = lock_all f taken n o x).
Proof.
  intros Hd (Hw & Hn & Hwt & Hp) Hi Hnode E conflict.
  assert (Hs := existsb_conflicts_spec _ _ Hd Hw Hi). fold conflict in Hs.
  destruct (do_lock_try wd inf r) as [[rv r1] wd1] eqn:Et. pose proof Et as Et'.
  unfold do_lock_try in Et. rewrite is_conflict_existsb in Et. destruct (existsb (conflicts inf) (r_locks r)) eqn:Hc.
  - assert (conflict) as Hcf by (by apply Hs). unfold c_true in Et. destruct (i_wait inf =? 0) eqn:Ew; zbool; simpl in Et.
    + injection Et as <- <- <-. destruct (do_lock_out _ _ _ _ _ _ _ _ _ _ Et' Hnode Hw Hwt E) as (taken & H1 & H2 & H3 & H4).
      exists [result c ls inf (- EAGAIN)], (r_waiters r), (mode_at (r_locks r)), taken. split_and!; try done; naive_solver.
    + unfold add_waiter, malloc in Et. destruct (wd_mem wd) as [|[g|] m'] eqn:Em; simpl in Et; injection Et as <- <- <-.
      1,2: destruct (do_lock_out _ _ _ _ _ _ _ _ _ _ Et' Hnode Hw ltac:(cbn; apply Forall_app; split; [done|by apply Forall_singleton]) E)
        as (taken & H1 & H2 & H3 & H4); rewrite Em in *; eexists [], _, (mode_at (r_locks r)), taken;
        (split_and!; [exact H1|done|intros _ ?; lia|intros _ _; split; [done|left; by eauto]|exact H2|exact H3|intros Hm; by apply H4]).
      destruct (do_lock_out _ _ _ _ _ _ _ _ _ _ Et' Hnode Hw Hwt E) as (taken & H1 & H2 & H3 & H4). rewrite Em in *.
      exists [result c ls inf (- ENOMEM)], (r_waiters r), (mode_at (r_locks r)), taken.
      split_and!; [exact H1|done|intros _ ?; lia|intros _ _; split; [done|right; split_and!; [done..|by left]]|exact H2|exact H3|intros Hm; by apply H4].
  - assert (~ conflict) as Hcf by (intros H; apply Hs in H; congruence).
    destruct (lock_internal (wd_mem wd) (r_locks r) inf) as [[v l1] m1] eqn:El. injection Et as <- <- <-.
    pose proof (lock_internal_outcome _ _ _ _ _ _ Hw Hi El) as Hv.
    destruct (lock_internal_no_conflict _ _ _ _ _ _ Hw Hi Hn ltac:(by rewrite is_conflict_existsb) El) as [_ Hw1].
    destruct (do_lock_out _ _ _ _ _ _ _ _ _ _ Et' Hnode Hw1 Hwt E) as (taken & H1 & H2 & H3 & H4).
    replace (v =? - EINPROGRESS) with false in H1 by (destruct Hv as [->|[-> _]]; done).
    exists [result c ls inf v], (r_waiters r), (spec_lock (mode_at (r_locks r)) inf), taken. split_and!; try done; [by eauto|].
    intros Hm n o x. destruct Hv as [->|[_ ?]]; [|done].
    apply lock_loop_granted in El as Hg; [|by apply loop_inv_init].
    rewrite H4; [|done|apply Hg]. apply lock_all_ext. clear n o x. intros n o x. by apply mode_at_granted.
Qed.

(** ** A request left waiting *)

Definition cfg (n : Z) : config := mkConfig n true false 0 0 0 0 false.
Definition empty_ls : lockspace := mkLs 7 0 false false false [] [] 0 0 0 0 0 0 0.

Definition op_msg (optype ex wait nodeid start end_ owner : Z) : message :=
  mkMsg DLM_MSG_PLOCK nodeid (ex_info optype ex wait nodeid start end_ owner).

(** Node 2 write-locks 0-9, node 3 write-locks 10-19; node 1 waits for a read lock
    on 0-9; node 2 waits for a read lock on 0-19, which would convert its write
    lock; then node 3 unlocks. *)
Definition lost_wakeup_events : list (Z * node_event) :=
  map (fun m => (0, Ordered (Deliver m)))
    [op_msg 1 1 0 2 0 9 20; op_msg 1 1 0 3 10 19 30;
     op_msg 1 0 1 1 0 9 10; op_msg 1 0 1 2 0 19 20; op_msg 2 0 0 3 10 19 30].

(** One pass of [do_waiters] does not re-examine the requests it has passed: in
    the run above, granting node 2's request turns its write lock on 0-9 into a read
    lock, but node 1's read request, examined before, is left waiting although it
    conflicts with nothing any more. *)
Theorem do_waiters_lost_wakeup :
  let v := view (node_run (cfg 1) empty_ls lost_wakeup_events) 42 in
  exists w, v.2 = [w] /\ i_nodeid (wt_info w) = 1 /\
            fst (is_conflict v.1 (wt_info w) false) = false.
Proof. eexists. split; [vm_compute; reflexivity|]. split; vm_compute; reflexivity. Qed.

(** ** Requests for an unknown lockspace *)

(** A request whose fsid names no lockspace kills the daemon: [process_plocks]
    means to answer [-EEXIST], but logs the name of the null lockspace first. *)
Theorem process_plocks_unknown_ls c flow set_id info lss wd g g' :
  limit_plocks c flow wd g = (0, g') -> cfgd_enable_plock c = true ->
  need_fsid_translation c = false -> find_ls_id lss (i_fsid info) = None ->
  process_plocks c flow set_id (Some info) lss wd g = None.
Proof. intros Hl He Hf Hn. unfold process_plocks. rewrite Hl, He, Hf. simpl. by rewrite Hn. Qed.

(** ** Concrete instances *)

Lemma process_plocks_unknown_ls_witness :
  process_plocks (cfg 1) None (fun l _ => l) (Some (ex_info 1 1 0 0 0 9 5)) [] (wd_at 0)
    (mkGlobals 0 0 0 false false false) = None.
Proof.
  apply (process_plocks_unknown_ls (cfg 1) None (fun l _ => l) (ex_info 1 1 0 0 0 9 5) []
    (wd_at 0) (mkGlobals 0 0 0 false false false) (mkGlobals 0 0 0 false false false));
    reflexivity.
Defined.

Ltac wf_msg := unfold wf_info, is_mode, in_u; simpl; lia.

Lemma plock_replication_witness :
  view (node_run (cfg 1) empty_ls lost_wakeup_events) 42 =
  view (node_run (cfg 2) empty_ls
          ((5, Request (ex_info 1 1 0 2 0 9 20)) :: lost_wakeup_events)) 42.
Proof.
  apply (plock_replication (cfg 1) (cfg 2) empty_ls empty_ls lost_wakeup_events
    ((5, Request (ex_info 1 1 0 2 0 9 20)) :: lost_wakeup_events));
    try reflexivity; unfold active; simpl; split_and!; auto; constructor.
Defined.

Definition waiting_res : resource :=
  mkRes 42 0 0 0 [mkPo 11 30 0 9 1 3 0]
    [mkWaiter 0 (ex_info 1 1 1 1 0 4 10); mkWaiter 0 (ex_info 1 1 1 2 20 24 20)] [].

Lemma do_waiters_converges_witness :
  settled (passes (cfg 1) empty_ls [wd_at 0; wd_at 1] waiting_res).
Proof.
  apply (do_waiters_converges (cfg 1) empty_ls [wd_at 0; wd_at 1] waiting_res).
  simpl. lia.
Defined.

Lemma do_waiters_exclusive_witness : settled (do_waiters (cfg 1) empty_ls (wd_at 0) waiting_res).1.
Proof.
  apply (do_waiters_exclusive (cfg 1) empty_ls (wd_at 0) waiting_res); simpl;
    [reflexivity|wf_concrete|wf_concrete| |]; repeat constructor; unfold wf_waiter; try wf_msg;
    simpl; unfold in_u, is_mode; lia.
Defined.

(** A write lock that waits behind another one is queued. *)
Lemma do_lock_answers_witness :
  let inf := ex_info 1 1 1 2 5 6 11 in
  let run := do_lock (cfg 2) empty_ls (wd_at 0) inf waiting_res in
  exists g taken, wd_out run.2 = answers (cfg 2) empty_ls taken /\
    divided (r_waiters waiting_res ++ [mkWaiter g inf]) taken (waiting run.1).
Proof.
  intros inf run.
  destruct (do_lock_answers (cfg 2) empty_ls (wd_at 0) inf waiting_res run.1 run.2
    ltac:(wf_concrete) ltac:(unfold res_ok, wf_locks, no_conflict, wf_waiter;
      split_and!; repeat constructor; unfold in_u, is_mode; simpl; lia) ltac:(wf_msg) eq_refl eq_refl)
    as (own & ws & f & taken & Ho & _ & _ & Hq & Hd & _).
  destruct Hq as [_ [[-> [g ->]]|(_ & _ & H)]]; [|done|by exists g, taken|by apply not_elem_of_nil in H].
  exists 3, 30, 5, 1. split; [simpl; lia|]. split; [simpl; lia|].
  split; [vm_compute; reflexivity|]. right. lia.
Defined.
