(* ===== verification/PlockCkpt.v ===== *)
(** * The plock checkpoint

    How a node that joins a lockspace gets its plock state, in
    [src/group/dlm_controld/plock.c]: the checkpoint node packs each resource
    into a section named after its number and owner ([store_plocks]), the new
    node unpacks the sections ([retrieve_plocks]) and both compute a signature.

    The checkpoint service is not part of the program: a call's outcome is an
    input, [TRY_AGAIN] loops run until the service gives another answer, and a
    section that was created can be read back.  The byte swapping of the packed
    fields is the identity on them (see [PlockWire]); names are lists of
    character codes. *)

From S2P Require Import Prelude PlockRange Plock.
Open Scope Z_scope.

(** ** Section names *)

Definition ch_r : Z := 114.
Definition ch_dot : Z := 46.
Definition ch_minus : Z := 45.
Definition ch_plus : Z := 43.
Definition ch_0 : Z := 48.

Definition is_digit (ch : Z) : bool := (ch_0 <=? ch) && (ch <=? 57).

(** Decimal conversion: the digits of [n], least significant first. *)
Fixpoint digits_rev (fuel : nat) (n : Z) : list Z :=
  match fuel with
  | O => []
  | S f => if n <? 10 then [n] else n mod 10 :: digits_rev f (n / 10)
  end.

Definition fmt_llu (n : Z) : list Z := map (fun d => ch_0 + d) (rev (digits_rev 20 n)).

Definition fmt_d (n : Z) : list Z := if n <? 0 then ch_minus :: fmt_llu (- n) else fmt_llu n.

Definition SECTION_NAME_LEN : nat := 34.

(** [snprintf(buf, SECTION_NAME_LEN, "r%llu.%d", number, owner)]. *)
Definition section_name (number owner : Z) : list Z :=
  firstn (SECTION_NAME_LEN - 1) (ch_r :: fmt_llu number ++ ch_dot :: fmt_d owner).

(** The longest prefix of digits, and the number it denotes. *)
Fixpoint scan_digits (l : list Z) : list Z * list Z :=
  match l with
  | ch :: l' =>
      if is_digit ch then let '(ds, rest) := scan_digits l' in (ch - ch_0 :: ds, rest)
      else ([], l)
  | [] => ([], [])
  end.

Definition digits_value (ds : list Z) : Z := foldl (fun acc d => acc * 10 + d) 0 ds.

Definition is_space (ch : Z) : bool := (ch =? 32) || ((9 <=? ch) && (ch <=? 13)).

Fixpoint skip_spaces (l : list Z) : list Z :=
  match l with
  | ch :: l' => if is_space ch then skip_spaces l' else l
  | [] => []
  end.

(** An integer conversion of [sscanf]: white space, an optional sign and digits;
    the sign, the value of the digits and the rest of the input. *)
Definition scan_int (l : list Z) : option (bool * Z * list Z) :=
  let l := skip_spaces l in
  let '(neg, l1) :=
    match l with
    | ch :: l' =>
        if ch =? ch_minus then (true, l') else if ch =? ch_plus then (false, l') else (false, l)
    | [] => (false, [])
    end in
  match scan_digits l1 with
  | ([], _) => None
  | (ds, rest) => Some (neg, digits_value ds, rest)
  end.

(** [strtoull] and [strtol] on what was scanned, out of range values saturating. *)
Definition to_ull (neg : bool) (v : Z) : Z :=
  if 2 ^ 64 <=? v then 2 ^ 64 - 1 else if neg then u64 (- v) else v.

Definition to_int (neg : bool) (v : Z) : Z :=
  s32 (if neg then Z.max (- 2 ^ 63) (- v) else Z.min (2 ^ 63 - 1) v).

(** [sscanf(numbuf, "r%llu.%d", &num, &owner)]; a conversion that fails leaves the
    variable as it was. *)
Definition scan_section_name (name : list Z) (num0 owner0 : Z) : Z * Z :=
  match name with
  | ch :: l =>
      if negb (ch =? ch_r) then (num0, owner0)
      else
        match scan_int l with
        | None => (num0, owner0)
        | Some (neg, v, l1) =>
            match l1 with
            | dot :: l2 =>
                if negb (dot =? ch_dot) then (to_ull neg v, owner0)
                else
                  match scan_int l2 with
                  | None => (to_ull neg v, owner0)
                  | Some (neg2, v2, _) => (to_ull neg v, to_int neg2 v2)
                  end
            | [] => (to_ull neg v, owner0)
            end
        end
  | [] => (num0, owner0)
  end.

(** ** Packing *)

(** [struct pack_plock], 40 bytes. *)
Record pack_plock := mkPack {
  pp_start : Z;
  pp_end : Z;
  pp_owner : Z;
  pp_pid : Z;
  pp_nodeid : Z;
  pp_ex : Z;
  pp_waiter : Z
}.

Definition sizeof_pack_plock : Z := 40.
Definition sizeof_section_buf : Z := 1024 * 1024.

Definition pack_lock (po : posix_lock) : pack_plock :=
  mkPack (po_start po) (po_end po) (po_owner po) (po_pid po) (u32 (po_nodeid po))
    (u8 (po_ex po)) 0.

Definition pack_waiter (w : lock_waiter) : pack_plock :=
  let i := wt_info w in
  mkPack (i_start i) (i_end i) (i_owner i) (i_pid i) (u32 (i_nodeid i)) (u8 (i_ex i)) 1.

Definition syncing (flags : Z) : bool := c_true (Z.land flags P_SYNCING).

(** [pack_section_buf]: the records written to [section_buf], [None] when they run
    past its end.  The packed records count for [section_len]. *)
Definition pack_section_buf (c : config) (r : resource) (owner : Z)
  : option (list pack_plock) :=
  if cfgd_plock_ownership c && (owner =? our_nodeid c) then Some []
  else
    let pps :=
      map pack_lock (List.filter (fun po => negb (syncing (po_flags po))) (r_locks r)) ++
      map pack_waiter (List.filter (fun w => negb (syncing (wt_flags w))) (r_waiters r)) in
    if Z.of_nat (length pps) * sizeof_pack_plock <=? sizeof_section_buf
    then Some pps else None.

(** ** Unpacking *)

(** The memory of a fresh [lock_waiter] whose every field holds [g]. *)
Definition info_garbage (g : Z) : dlm_plock_info :=
  mkInfo (u32 g, u32 g, u32 g) (u8 g) (u8 g) (u8 g) (u8 g) (u32 g) (s32 g) (s32 g)
    (u32 g) (u64 g) (u64 g) (u64 g) (u64 g).

Definition unpack_lock (g : Z) (pp : pack_plock) : posix_lock :=
  mkPo (pp_pid pp) (pp_owner pp) (pp_start pp) (pp_end pp) (pp_ex pp)
    (s32 (pp_nodeid pp)) (u32 g).

Definition unpack_waiter (g : Z) (pp : pack_plock) : lock_waiter :=
  let i := info_garbage g in
  mkWaiter (u32 g)
    (mkInfo (i_version i) (i_optype i) (pp_ex pp) (i_wait i) (i_flags i) (pp_pid pp)
       (s32 (pp_nodeid pp)) (i_rv i) (i_fsid i) (i_number i) (pp_start pp) (pp_end pp)
       (pp_owner pp)).

(** The loop over the packed records; [None] when an allocation fails. *)
Fixpoint unpack_loop (m : mem) (pps : list pack_plock) (r : resource)
  : option resource * mem :=
  match pps with
  | [] => (Some r, m)
  | pp :: rest =>
      match malloc m with
      | (None, m') => (None, m')
      | (Some g, m') =>
          unpack_loop m' rest
            (if pp_waiter pp =? 0 then r_set_locks r (r_locks r ++ [unpack_lock g pp])
             else r_set_waiters r (r_waiters r ++ [unpack_waiter g pp]))
      end
  end.

(** [unpack_section_buf]: the return value, [*r_num], [*lock_count] and the
    lockspace.  [num0] is the initial content of the local variable [num]. *)
Definition unpack_section_buf (c : config) (ls : lockspace) (wd : world) (num0 : Z)
    (name : list Z) (pps : list pack_plock) (r_num : Z)
  : Z * Z * Z * lockspace * world :=
  let count := Z.of_nat (length pps) in
  let '(num, owner) := scan_section_name name num0 0 in
  match malloc (wd_mem wd) with
  | (None, m') => (- ENOMEM, r_num, 0, ls, wd_set_mem wd m')
  | (Some _, m') =>
      let wd := wd_set_mem wd m' in
      if negb (cfgd_plock_ownership c) && c_true owner then (-1, r_num, 0, ls, wd)
      else if cfgd_plock_ownership c && (c_true owner && c_true count)
      then (-1, r_num, 0, ls, wd)
      else
        let flags := if cfgd_plock_ownership c && (owner =? 0) then R_GOT_UNOWN else 0 in
        let r := mkRes num owner flags (wd_now wd) [] [] [] in
        match unpack_loop (wd_mem wd) pps r with
        | (None, m2) => (- ENOMEM, num, 0, ls, wd_set_mem wd m2)
        | (Some r', m2) =>
            (0, num, count, ls_set_resources ls (ls_plock_resources ls ++ [r']),
             wd_set_mem wd m2)
        end
  end.

(** ** Storing *)

(** A section of the checkpoint. *)
Record section := mkSection {
  sec_name : list Z;
  sec_data : list pack_plock
}.

(** The sizes of the first loop of [store_plocks]: [r_count] and [p_count]. *)
Fixpoint store_counts (rs : list resource) : Z * Z :=
  match rs with
  | [] => (0, 0)
  | r :: rest =>
      let '(rc, pc) := store_counts rest in
      if r_owner r =? -1 then (rc, pc)
      else (u32 (rc + 1),
            u32 (pc + Z.of_nat (length (r_locks r)) + Z.of_nat (length (r_waiters r))))
  end.

(** The owner a resource is stored with; [None] when it is skipped. *)
Definition store_owner (c : config) (r : resource) : option Z :=
  if negb (cfgd_plock_ownership c) then Some 0
  else if r_owner r =? -1 then None
  else if r_owner r =? our_nodeid c then Some (our_nodeid c)
  else if c_true (r_owner r) then Some (r_owner r)
  else if (r_owner r =? 0) && negb (got_unown r) then Some (our_nodeid c)
  else if r_owner r =? 0 then Some 0
  else None.

Inductive store_result :=
| StoreOverflow                                   (* wrote past section_buf *)
| StoreFail (secs : list section)                 (* a section could not be created *)
| StoreOk (secs : list section) (first last : Z).

(** The loop that writes the sections.  [create_ok] is the outcome of
    [saCkptSectionCreate] for a section. *)
Fixpoint store_loop (c : config) (create_ok : section -> bool) (rs : list resource)
    (secs : list section) (first last : Z) : store_result :=
  match rs with
  | [] => StoreOk secs first last
  | r :: rest =>
      match store_owner c r with
      | None => store_loop c create_ok rest secs first last
      | Some owner =>
          match pack_section_buf c r owner with
          | None => StoreOverflow
          | Some data =>
              let first := if first =? 0 then r_number r else first in
              let s := mkSection (section_name (r_number r) owner) data in
              if create_ok s
              then store_loop c create_ok rest (secs ++ [s]) first (r_number r)
              else StoreFail secs
          end
      end
  end.

Definition plock_sig (first last r_count : Z) : Z :=
  Z.lxor (Z.lxor (Z.land 4294967295 first) (Z.land 4294967295 last)) r_count.

Definition SIG_FAIL : Z := 4026531840.

Definition ls_ckpt_stored (ls : lockspace) (time first last rc pc : Z) : lockspace :=
  mkLs (ls_global_id ls) (ls_associated_mg_id ls) (ls_need_plocks ls) (ls_save_plocks ls)
    (ls_disable_plock ls) (ls_saved_messages ls) (ls_plock_resources ls) time
    (ls_last_plock_time ls) (ls_drop_resources_last ls) first last rc pc.

Definition ls_ckpt_failed (ls : lockspace) (time : Z) : lockspace :=
  mkLs (ls_global_id ls) (ls_associated_mg_id ls) (ls_need_plocks ls) (ls_save_plocks ls)
    true (ls_saved_messages ls) (ls_plock_resources ls) time
    (ls_last_plock_time ls) (ls_drop_resources_last ls) (ls_checkpoint_r_num_first ls)
    (ls_checkpoint_r_num_last ls) (ls_checkpoint_r_count ls) (ls_checkpoint_p_count ls).

(** [store_plocks]: from the sections of the existing checkpoint to the
    lockspace, the sections of the checkpoint afterwards and [*sig] ([None]
    when it is not set); the whole is [None] when [section_buf] overflows.
    [unlink_ok] and [open_ok] are the outcomes of [saCkptCheckpointUnlink] and
    [saCkptCheckpointOpen]; a checkpoint that was not unlinked keeps its sections. *)
Definition store_plocks (c : config) (unlink_ok open_ok : bool) (create_ok : section -> bool)
    (ls : lockspace) (now : Z) (old : list section)
  : option (lockspace * list section * option Z) :=
  if negb (cfgd_enable_plock c) || ls_disable_plock ls then Some (ls, old, None)
  else if ls_last_checkpoint_time ls >? ls_last_plock_time ls then
    Some (ls_ckpt_stored ls (ls_last_checkpoint_time ls) (ls_checkpoint_r_num_first ls)
            (ls_checkpoint_r_num_last ls) (ls_checkpoint_r_count ls)
            (ls_checkpoint_p_count ls), old,
          Some (plock_sig (ls_checkpoint_r_num_first ls) (ls_checkpoint_r_num_last ls)
                  (ls_checkpoint_r_count ls)))
  else
    let time := now / 1000000 in
    let base := if unlink_ok then [] else old in
    let '(rc, pc) := store_counts (ls_plock_resources ls) in
    if negb open_ok then Some (ls_ckpt_failed ls time, base, Some SIG_FAIL)
    else
      match store_loop c create_ok (ls_plock_resources ls) base 0 0 with
      | StoreOverflow => None
      | StoreFail secs => Some (ls_ckpt_failed ls time, secs, Some SIG_FAIL)
      | StoreOk secs first last =>
          Some (ls_ckpt_stored ls time first last rc pc, secs,
                Some (plock_sig first last rc))
      end.

(** ** Retrieving *)

(** What one round of the section iteration yields. *)
Inductive iter_item :=
| ItError                        (* the iteration or the read fails: the loop ends *)
| ItNoId                         (* a section with an empty id *)
| ItBadLen                       (* a length that is no multiple of a record *)
| ItSection (s : section).

(** The loop of [retrieve_plocks] with [r_num_first], [r_num_last], [r_count] and
    [p_count]. *)
Fixpoint retrieve_loop (c : config) (ls : lockspace) (wd : world) (num0 : Z)
    (iter : list iter_item) (first last rc pc : Z)
  : lockspace * world * (Z * Z * Z * Z) :=
  match iter with
  | [] | ItError :: _ => (ls, wd, (first, last, rc, pc))
  | ItNoId :: rest | ItBadLen :: rest => retrieve_loop c ls wd num0 rest first last rc pc
  | ItSection s :: rest =>
      let '(error, r_num, lock_count, ls', wd') :=
        unpack_section_buf c ls wd num0 (sec_name s) (sec_data s) 0 in
      if error <? 0 then retrieve_loop c ls' wd' num0 rest first last rc pc
      else
        retrieve_loop c ls' wd' num0 rest (if first =? 0 then r_num else first) r_num
          (u32 (rc + 1)) (u32 (pc + lock_count))
  end.

(** [retrieve_plocks] and [*sig], [None] when it is not set.  [iter] is [None] when
    the checkpoint cannot be opened, and empty when the iteration cannot start. *)
Definition retrieve_plocks (c : config) (ls : lockspace) (wd : world) (num0 : Z)
    (iter : option (list iter_item)) : lockspace * world * option Z :=
  if negb (cfgd_enable_plock c) || ls_disable_plock ls then (ls, wd, None)
  else
    match iter with
    | None => (ls, wd, None)
    | Some it =>
        let '(ls', wd', (first, last, rc, pc)) :=
          retrieve_loop c ls wd num0 it 0 0 0 0 in
        (ls', wd', Some (plock_sig first last rc))
    end.

(** [ls->disable_plock], [need_plocks] and [save_plocks]. *)
Definition ls_set_plock_mode (ls : lockspace) (disable need save : bool) : lockspace :=
  mkLs (ls_global_id ls) (ls_associated_mg_id ls) need save disable
    (ls_saved_messages ls) (ls_plock_resources ls) (ls_last_checkpoint_time ls)
    (ls_last_plock_time ls) (ls_drop_resources_last ls) (ls_checkpoint_r_num_first ls)
    (ls_checkpoint_r_num_last ls) (ls_checkpoint_r_count ls) (ls_checkpoint_p_count ls).

(** [receive_plocks_stored].  [change_ok] says that no change is pending, that one
    is started and that the message matches it; [has_sig] is [DLM_MFLG_PLOCK_SIG],
    [sig0] the initial content of the local variable [sig]. *)
Definition receive_plocks_stored (c : config) (ls : lockspace) (wd : world)
    (change_ok has_sig : bool) (msg_sig sig0 num0 : Z) (iter : option (list iter_item))
  : lockspace * world :=
  if negb (ls_need_plocks ls) then (ls, wd)
  else if negb change_ok then (ls, wd)
  else
    let '(ls1, wd1, sig) := retrieve_plocks c ls wd num0 iter in
    if has_sig && negb (default sig0 sig =? msg_sig)
    then (ls_set_plock_mode ls1 true true false, wd1)
    else
      let '(ls2, wd2) := process_saved_plocks c ls1 wd1 in
      (ls_set_plock_mode ls2 (ls_disable_plock ls2) false false, wd2).

(** ** The name of a section identifies the resource and its owner *)

Definition digit (d : Z) : Prop := 0 <= d <= 9.

Lemma digits_rev_spec f n : 0 <= n < 10 ^ Z.of_nat f ->
  Forall digit (digits_rev f n) /\ digits_value (rev (digits_rev f n)) = n.
Proof.
  revert n. induction f as [|f IH]; intros n Hn.
  - simpl in *. split; [constructor|]. change (digits_value []) with 0. lia.
  - cbn [digits_rev]. zcase.
    + split; [repeat constructor; unfold digit; lia|]. cbv [digits_value rev foldl app]. lia.
    + rewrite Nat2Z.inj_succ, Z.pow_succ_r in Hn by lia.
      destruct (IH (n / 10)) as [Hd Hv].
      { split; [apply Z.div_pos; lia | apply Z.div_lt_upper_bound; lia]. }
      pose proof (Z.mod_pos_bound n 10 ltac:(lia)).
      split; [constructor; [unfold digit; lia | exact Hd]|].
      cbn [rev]. unfold digits_value in *. rewrite foldl_app, Hv. simpl.
      pose proof (Z.div_mod n 10). lia.
Qed.

Lemma digits_rev_length f n : (length (digits_rev f n) <= f)%nat.
Proof.
  revert n. induction f as [|f IH]; intros n; simpl; [lia|].
  destruct (n <? 10); simpl; [lia|]. specialize (IH (n / 10)). lia.
Qed.

Lemma digits_rev_short f k n : (1 <= k)%nat -> 0 <= n < 10 ^ Z.of_nat k ->
  (length (digits_rev f n) <= k)%nat.
Proof.
  revert k n. induction f as [|f IH]; intros k n Hk Hn; simpl; [lia|].
  zcase; simpl; [lia|].
  destruct k as [|k]; [lia|]. rewrite Nat2Z.inj_succ, Z.pow_succ_r in Hn by lia.
  destruct k as [|k]; [simpl in Hn; lia|].
  specialize (IH (S k) (n / 10)). apply le_n_S, IH; [lia|].
  split; [apply Z.div_pos; lia | apply Z.div_lt_upper_bound; lia].
Qed.

Lemma digits_rev_nonempty f n : digits_rev (S f) n <> [].
Proof. simpl. destruct (n <? 10); discriminate. Qed.

Lemma fmt_llu_length k n : (1 <= k)%nat -> 0 <= n < 10 ^ Z.of_nat k ->
  (length (fmt_llu n) <= k)%nat.
Proof.
  intros Hk Hn. unfold fmt_llu. rewrite length_map, length_rev.
  by apply digits_rev_short.
Qed.

(** What stops a scan of digits. *)
Definition stops (l : list Z) : Prop :=
  match l with [] => True | ch :: _ => is_digit ch = false end.

Lemma scan_digits_app ds rest : Forall digit ds -> stops rest ->
  scan_digits (map (fun d => ch_0 + d) ds ++ rest) = (ds, rest).
Proof.
  intros Hd Hr. induction Hd as [|d ds Hd Hds IH]; simpl.
  - destruct rest as [|ch rest]; [done|]. simpl in *. by rewrite Hr.
  - rewrite IH. unfold digit in Hd.
    replace (is_digit (ch_0 + d)) with true
      by (symmetry; unfold is_digit, ch_0; apply andb_true_iff; split; apply Z.leb_le; lia).
    by replace (ch_0 + d - ch_0) with d by lia.
Qed.

Lemma fmt_llu_head n : 0 <= n < 2 ^ 64 -> exists d l, digit d /\ fmt_llu n = ch_0 + d :: l.
Proof.
  intros Hn. unfold fmt_llu.
  destruct (digits_rev_spec 20 n) as [Hd _]; [simpl; lia|].
  pose proof (digits_rev_nonempty 19 n) as Hne.
  apply Forall_rev in Hd.
  destruct (rev (digits_rev 20 n)) as [|d l] eqn:E.
  - exfalso. apply Hne. rewrite <- (rev_involutive (digits_rev 20 n)), E. done.
  - apply Forall_cons in Hd as [Hd _]. exists d, (map (fun d => ch_0 + d) l). done.
Qed.

Lemma scan_unsigned n rest : 0 <= n < 2 ^ 64 -> stops rest ->
  scan_digits (fmt_llu n ++ rest) = (rev (digits_rev 20 n), rest) /\
  rev (digits_rev 20 n) <> [] /\ digits_value (rev (digits_rev 20 n)) = n.
Proof.
  intros Hn Hr. destruct (digits_rev_spec 20 n) as [Hd Hv]; [simpl; lia|].
  split_and!; [|intros E; apply (digits_rev_nonempty 19 n); by rewrite <- (rev_involutive (digits_rev 20 n)), E|exact Hv].
  apply scan_digits_app; [|done]. by apply Forall_rev.
Qed.

Lemma scan_int_llu n rest : 0 <= n < 2 ^ 64 -> stops rest ->
  scan_int (fmt_llu n ++ rest) = Some (false, n, rest).
Proof.
  intros Hn Hr. destruct (scan_unsigned n rest Hn Hr) as (Hs & Hne & Hv).
  destruct (fmt_llu_head n Hn) as (d & l & Hd & Hf). unfold digit in Hd.
  unfold scan_int. rewrite Hf in *. cbn [app skip_spaces] in *.
  replace (is_space (ch_0 + d)) with false
    by (symmetry; apply orb_false_iff; unfold ch_0; split;
        [apply Z.eqb_neq; lia | apply andb_false_iff; right; apply Z.leb_gt; lia]).
  unfold ch_0, ch_minus, ch_plus in *. do 2 (zcase; [lia|]).
  rewrite Hs. destruct (rev (digits_rev 20 n)); [done|]. by rewrite Hv.
Qed.

Lemma scan_int_d n rest : - 2 ^ 31 <= n < 2 ^ 31 -> stops rest ->
  scan_int (fmt_d n ++ rest) = Some (n <? 0, Z.abs n, rest).
Proof.
  intros Hn Hr. unfold fmt_d. zcase.
  - destruct (scan_unsigned (- n) rest) as (Hs & Hne & Hv); [lia|done|].
    unfold scan_int. cbn [app skip_spaces]. change (is_space ch_minus) with false.
    cbv iota. rewrite Z.eqb_refl, Hs. destruct (rev (digits_rev 20 (- n))); [done|].
    rewrite Hv. do 3 f_equal. lia.
  - rewrite scan_int_llu by (lia || done). do 3 f_equal. lia.
Qed.

(** No name is cut short by the buffer: the count of the comment on
    [SECTION_NAME_LEN]. *)
Lemma section_name_fits number owner :
  0 <= number < 2 ^ 64 -> - 2 ^ 31 <= owner < 2 ^ 31 ->
  section_name number owner = ch_r :: fmt_llu number ++ ch_dot :: fmt_d owner.
Proof.
  intros Hn Ho. unfold section_name. apply firstn_all2.
  pose proof (fmt_llu_length 20 number ltac:(lia) ltac:(simpl; lia)).
  assert (length (fmt_d owner) <= 11)%nat.
  { unfold fmt_d. zcase; simpl.
    - pose proof (fmt_llu_length 10 (- owner) ltac:(lia) ltac:(simpl; lia)). lia.
    - pose proof (fmt_llu_length 10 owner ltac:(lia) ltac:(simpl; lia)). lia. }
  simpl. rewrite length_app. simpl. lia.
Qed.

Lemma scan_section_name_ok number owner num0 owner0 :
  0 <= number < 2 ^ 64 -> - 2 ^ 31 <= owner < 2 ^ 31 ->
  scan_section_name (section_name number owner) num0 owner0 = (number, owner).
Proof.
  intros Hn Ho. rewrite section_name_fits by done. cbn [scan_section_name].
  rewrite Z.eqb_refl, scan_int_llu by done. cbn [negb]. rewrite Z.eqb_refl.
  rewrite <- (app_nil_r (fmt_d owner)), scan_int_d by done. cbn [negb].
  unfold to_ull, to_int. zcase; [lia|]. f_equal.
  zcase; rewrite swrap_small; unfold in_s; lia.
Qed.

(** ** Packing and unpacking *)

(** The allocator does not fail. *)
Definition mem_ok (m : mem) : Prop := Forall is_Some m.

Lemma malloc_ok m : mem_ok m -> exists g m', malloc m = (Some g, m') /\ mem_ok m'.
Proof.
  intros Hm. destruct Hm as [|x m' [g ->] Hm].
  - exists 0, []. split; [done | constructor].
  - by exists g, m'.
Qed.

Lemma s32_u32 z : in_s 32 z -> s32 (u32 z) = z.
Proof.
  intros Hz. rewrite <- (swrap_small 32 z) at 2 by (done || lia).
  unfold swrap, wrap. by rewrite Zplus_mod_idemp_l.
Qed.

(** What a checkpoint keeps of a lock, a waiter and a resource. *)
Definition lock_view (po : posix_lock) : posix_lock :=
  mkPo (po_pid po) (po_owner po) (po_start po) (po_end po) (po_ex po) (po_nodeid po) 0.

Definition waiter_view (w : lock_waiter) : posix_lock :=
  let i := wt_info w in
  mkPo (i_pid i) (i_owner i) (i_start i) (i_end i) (i_ex i) (i_nodeid i) 0.

Record res_ckpt := mkResCkpt {
  rc_number : Z;
  rc_owner : Z;
  rc_unown : bool;
  rc_locks : list posix_lock;
  rc_waiters : list posix_lock
}.

Definition res_view (r : resource) : res_ckpt :=
  mkResCkpt (r_number r) (r_owner r) (got_unown r) (map lock_view (r_locks r))
    (map waiter_view (r_waiters r)).

Definition settled_locks (r : resource) : list posix_lock :=
  List.filter (fun po => negb (syncing (po_flags po))) (r_locks r).
Definition settled_waiters (r : resource) : list lock_waiter :=
  List.filter (fun w => negb (syncing (wt_flags w))) (r_waiters r).

(** What a new node should learn of [r]. *)
Definition ckpt_view (c : config) (r : resource) : option res_ckpt :=
  match store_owner c r with
  | None => None
  | Some o =>
      let hidden := cfgd_plock_ownership c && (o =? our_nodeid c) in
      Some (mkResCkpt (r_number r) o (cfgd_plock_ownership c && (o =? 0))
              (if hidden then [] else map lock_view (settled_locks r))
              (if hidden then [] else map waiter_view (settled_waiters r)))
  end.

(** The fields are values of their C types. *)
Definition lock_typed (po : posix_lock) : Prop := in_u 8 (po_ex po) /\ in_s 32 (po_nodeid po).
Definition waiter_typed (w : lock_waiter) : Prop :=
  in_u 8 (i_ex (wt_info w)) /\ in_s 32 (i_nodeid (wt_info w)).
Definition res_typed (r : resource) : Prop :=
  in_u 64 (r_number r) /\ in_s 32 (r_owner r) /\
  Forall lock_typed (r_locks r) /\ Forall waiter_typed (r_waiters r).

Lemma lock_view_unpack g po : lock_typed po ->
  lock_view (unpack_lock g (pack_lock po)) = lock_view po.
Proof.
  intros [He Hn]. unfold lock_view, unpack_lock, pack_lock. simpl.
  by rewrite (wrap_small 8), s32_u32.
Qed.

Lemma waiter_view_unpack g w : waiter_typed w ->
  waiter_view (unpack_waiter g (pack_waiter w)) = waiter_view w.
Proof.
  intros [He Hn]. unfold waiter_view, unpack_waiter, pack_waiter. simpl.
  by rewrite (wrap_small 8), s32_u32.
Qed.

Lemma unpack_loop_locks pos pps m r : mem_ok m -> Forall lock_typed pos ->
  exists m' ls', mem_ok m' /\ map lock_view ls' = map lock_view pos /\
    unpack_loop m (map pack_lock pos ++ pps) r =
    unpack_loop m' pps (r_set_locks r (r_locks r ++ ls')).
Proof.
  intros Hm Hp. revert m r Hm. induction Hp as [|po pos Hpo Hpos IH]; intros m r Hm.
  - exists m, []. rewrite app_nil_r. by destruct r.
  - destruct (malloc_ok m Hm) as (g & m1 & E & Hm1).
    cbn [map app unpack_loop]. rewrite E. change (pp_waiter (pack_lock po) =? 0) with true. cbv iota.
    destruct (IH m1 (r_set_locks r (r_locks r ++ [unpack_lock g (pack_lock po)])) Hm1)
      as (m' & ls' & Hm' & Hv & ->).
    exists m', (unpack_lock g (pack_lock po) :: ls'). split_and!; [done| |].
    + cbn [map]. by rewrite lock_view_unpack, Hv.
    + destruct r; cbn. by rewrite <- app_assoc.
Qed.

Lemma unpack_loop_waiters ws m r : mem_ok m -> Forall waiter_typed ws ->
  exists m' ws', mem_ok m' /\ map waiter_view ws' = map waiter_view ws /\
    unpack_loop m (map pack_waiter ws) r =
    (Some (r_set_waiters r (r_waiters r ++ ws')), m').
Proof.
  intros Hm Hp. revert m r Hm. induction Hp as [|w ws Hw Hws IH]; intros m r Hm.
  - exists m, []. rewrite app_nil_r. by destruct r.
  - destruct (malloc_ok m Hm) as (g & m1 & E & Hm1).
    cbn [map unpack_loop]. rewrite E. change (pp_waiter (pack_waiter w) =? 0) with false. cbv iota.
    destruct (IH m1 (r_set_waiters r (r_waiters r ++ [unpack_waiter g (pack_waiter w)])) Hm1)
      as (m' & ws' & Hm' & Hv & ->).
    exists m', (unpack_waiter g (pack_waiter w) :: ws'). split_and!; [done| |].
    + cbn [map]. by rewrite waiter_view_unpack, Hv.
    + destruct r; cbn. by rewrite <- app_assoc.
Qed.

(** ** One resource through the checkpoint *)

Definition res_fits (r : resource) : Prop :=
  (Z.of_nat (length (settled_locks r)) + Z.of_nat (length (settled_waiters r)))
    * sizeof_pack_plock <= sizeof_section_buf.

(** The lists of a resource that another node owns are empty, but for what is
    still syncing. *)
Definition owned_empty (c : config) (r : resource) : Prop :=
  cfgd_plock_ownership c = true -> r_owner r <> 0 -> r_owner r <> our_nodeid c ->
  r_owner r <> -1 -> settled_locks r = [] /\ settled_waiters r = [].

(** The section [store_plocks] writes for a resource. *)
Definition sec_of (c : config) (r : resource) : option section :=
  match store_owner c r with
  | None => None
  | Some o =>
      match pack_section_buf c r o with
      | None => None
      | Some d => Some (mkSection (section_name (r_number r) o) d)
      end
  end.

Lemma pack_section_fits c r o : res_fits r ->
  pack_section_buf c r o =
  Some (if cfgd_plock_ownership c && (o =? our_nodeid c) then []
        else map pack_lock (settled_locks r) ++ map pack_waiter (settled_waiters r)).
Proof.
  intros Hf. unfold pack_section_buf. zcase; [done|].
  fold (settled_locks r) (settled_waiters r).
  rewrite length_app, !length_map, Nat2Z.inj_add.
  unfold res_fits in Hf. apply Z.leb_le in Hf. by rewrite Hf.
Qed.

Lemma store_owner_in c r o : in_s 32 (r_owner r) -> in_s 32 (our_nodeid c) ->
  store_owner c r = Some o -> in_s 32 o.
Proof.
  unfold store_owner. intros Hr Hc E.
  repeat (zcase_in E; try discriminate; try (injection E as <-; unfold in_s in *; lia)).
Qed.

Lemma filter_typed {A} (P : A -> Prop) f (l : list A) :
  Forall P l -> Forall P (List.filter f l).
Proof.
  rewrite !Forall_forall. intros H x Hx. apply H.
  apply list_elem_of_In in Hx. apply filter_In in Hx as [Hx _].
  by apply list_elem_of_In.
Qed.

Lemma store_owner_other c r o : cfgd_plock_ownership c = true ->
  store_owner c r = Some o -> (o =? our_nodeid c) = false -> c_true o = true ->
  r_owner r <> 0 /\ r_owner r <> our_nodeid c /\ r_owner r <> -1.
Proof.
  unfold store_owner, c_true. intros -> E Hu Ho. cbn [negb] in E.
  repeat (zcase_in E; try discriminate; try (injection E as <-; zbool; lia)).
  all: injection E as <-; zbool; lia.
Qed.

Lemma res_view_fresh n o (b : bool) t ls ws :
  res_view (mkRes n o (if b then R_GOT_UNOWN else 0) t ls ws []) =
  mkResCkpt n o b (map lock_view ls) (map waiter_view ws).
Proof. by destruct b. Qed.

(** The sections are accepted, and give the resource the checkpoint should. *)
Lemma unpack_sec_of c c2 ls wd num0 r s :
  cfgd_plock_ownership c2 = cfgd_plock_ownership c -> in_s 32 (our_nodeid c) ->
  res_typed r -> res_fits r -> owned_empty c r -> mem_ok (wd_mem wd) ->
  sec_of c r = Some s ->
  exists r' wd' n, mem_ok (wd_mem wd') /\ Some (res_view r') = ckpt_view c r /\
    unpack_section_buf c2 ls wd num0 (sec_name s) (sec_data s) 0 =
    (0, r_number r, n, ls_set_resources ls (ls_plock_resources ls ++ [r']), wd').
Proof.
  intros Hc Ho (Hnum & Hown & Hl & Hw) Hf He Hm. unfold sec_of, ckpt_view.
  destruct (store_owner c r) as [o|] eqn:Eo; [|done].
  rewrite (pack_section_fits c r o Hf). intros [= <-]. cbn [sec_name sec_data].
  pose proof (store_owner_in _ _ _ Hown Ho Eo) as Hos.
  unfold unpack_section_buf. rewrite scan_section_name_ok by (unfold in_u, in_s in *; lia).
  destruct (malloc_ok _ Hm) as (g & m1 & -> & Hm1). rewrite Hc. cbn [wd_mem wd_set_mem].
  set (hid := cfgd_plock_ownership c && (o =? our_nodeid c)).
  set (pps := if hid then [] else map pack_lock _ ++ map pack_waiter _).
  assert (Hg : negb (cfgd_plock_ownership c) && c_true o = false /\
    (cfgd_plock_ownership c && (c_true o && c_true (Z.of_nat (length pps))) = false)).
  { split.
    - unfold store_owner in Eo. destruct (cfgd_plock_ownership c); [done|].
      by injection Eo as <-.
    - unfold pps, hid. destruct (cfgd_plock_ownership c) eqn:Ew; [|done].
      destruct (o =? our_nodeid c) eqn:Eu; [by rewrite andb_false_r|].
      destruct (c_true o) eqn:Et; [|done].
      destruct (store_owner_other c r o) as (H1 & H2 & H3); [done..|].
      destruct (He Ew) as [-> ->]; done. }
  destruct Hg as [-> Hg2]. rewrite Hg2. set (r0 := mkRes _ _ _ _ _ _ _).
  assert (Hl' : exists m2 r', unpack_loop m1 pps r0 = (Some r', m2) /\ mem_ok m2 /\
    res_view r' = mkResCkpt (r_number r) o (cfgd_plock_ownership c && (o =? 0))
      (if hid then [] else map lock_view (settled_locks r))
      (if hid then [] else map waiter_view (settled_waiters r))).
  { unfold pps. destruct hid.
    - exists m1, r0. split_and!; [done..|]. by apply res_view_fresh.
    - destruct (unpack_loop_locks (settled_locks r) (map pack_waiter (settled_waiters r))
        m1 r0) as (m2 & ls2 & Hm2 & Hv2 & ->); [done|by apply filter_typed|].
      destruct (unpack_loop_waiters (settled_waiters r) m2 (r_set_locks r0 (r_locks r0 ++ ls2)))
        as (m3 & ws3 & Hm3 & Hv3 & ->); [done|by apply filter_typed|].
      do 2 eexists. split_and!; [done..|]. rewrite <- Hv2, <- Hv3. by apply res_view_fresh. }
  destruct Hl' as (m2 & r' & -> & Hm2 & Hv). exists r'. do 2 eexists.
  split_and!; [|by rewrite Hv|reflexivity]. done.
Qed.

(** ** The whole checkpoint *)

Definition ckpt_ok (c : config) (r : resource) : Prop :=
  res_typed r /\ res_fits r /\ owned_empty c r /\
  (cfgd_plock_ownership c = false -> r_owner r <> -1).

Definition number_of (c : config) (r : resource) : option Z :=
  match store_owner c r with None => None | Some _ => Some (r_number r) end.

Definition first_num (f : Z) (nums : list Z) : Z :=
  foldl (fun f n => if f =? 0 then n else f) f nums.
Definition last_num (l : Z) (nums : list Z) : Z := foldl (fun _ n => n) l nums.

Lemma store_loop_ok c rs : Forall (ckpt_ok c) rs -> forall secs f l,
  store_loop c (fun _ => true) rs secs f l =
  StoreOk (secs ++ omap (sec_of c) rs) (first_num f (omap (number_of c) rs))
    (last_num l (omap (number_of c) rs)).
Proof.
  induction 1 as [|r rs (_ & Hf & _) Hrs IH]; intros secs f l.
  - cbn. by rewrite app_nil_r.
  - cbn [store_loop]. unfold omap, list_omap, sec_of, number_of.
    destruct (store_owner c r) as [o|]; [|apply IH].
    rewrite (pack_section_fits c r o Hf), IH, <- app_assoc. done.
Qed.

Lemma store_counts_spec c rs : Forall (ckpt_ok c) rs ->
  fst (store_counts rs) = u32 (Z.of_nat (length (omap (number_of c) rs))).
Proof.
  induction 1 as [|r rs (_ & _ & _ & Hn) Hrs IH]; [done|].
  cbn [store_counts]. destruct (store_counts rs) as [rc pc]. cbn [fst] in IH.
  cbn. destruct (r_owner r =? -1) eqn:E1.
  - replace (number_of c r) with (@None Z); [done|].
    unfold number_of, store_owner. rewrite E1.
    destruct (cfgd_plock_ownership c); [done|]. zbool. by destruct (Hn eq_refl).
  - replace (number_of c r) with (Some (r_number r)).
    + cbn [fst length]. subst rc. unfold wrap. rewrite Zplus_mod_idemp_l. f_equal. lia.
    + unfold number_of, store_owner, c_true. rewrite E1.
      destruct (cfgd_plock_ownership c), (r_owner r =? our_nodeid c), (r_owner r =? 0),
        (got_unown r); done.
Qed.

Section transfer.
Variables (c c2 : config) (num0 : Z).
Hypothesis Hown : cfgd_plock_ownership c2 = cfgd_plock_ownership c.
Hypothesis Hour : in_s 32 (our_nodeid c).

Lemma retrieve_loop_ok rs : Forall (ckpt_ok c) rs -> forall ls wd f l rc pc,
  mem_ok (wd_mem wd) ->
  exists ls' wd' pc',
    retrieve_loop c2 ls wd num0 (map ItSection (omap (sec_of c) rs)) f l (u32 rc) pc =
    (ls', wd', (first_num f (omap (number_of c) rs), last_num l (omap (number_of c) rs),
       u32 (rc + Z.of_nat (length (omap (number_of c) rs))), pc')) /\
    map res_view (ls_plock_resources ls') =
    map res_view (ls_plock_resources ls) ++ omap (ckpt_view c) rs.
Proof.
  induction 1 as [|r rs (Ht & Hf & He & _) Hrs IH]; intros ls wd f l rc pc Hm.
  - exists ls, wd, pc. cbn. rewrite Z.add_0_r, app_nil_r. done.
  - destruct (sec_of c r) as [s|] eqn:Es.
    + destruct (unpack_sec_of c c2 ls wd num0 r s) as (r' & wd' & n & Hm' & Hv & E);
        [done..|].
      assert (En : number_of c r = Some (r_number r)).
      { unfold sec_of in Es. unfold number_of. by destruct (store_owner c r). }
      cbn. rewrite Es, En, <- Hv. cbn [map retrieve_loop]. rewrite E. cbn [Z.ltb Z.compare].
      destruct (IH (ls_set_resources ls (ls_plock_resources ls ++ [r'])) wd'
        (if f =? 0 then r_number r else f) (r_number r) (rc + 1) (u32 (pc + n)) Hm')
        as (ls' & wd2 & pc' & E2 & Hr).
      exists ls', wd2, pc'. split.
      * replace (u32 (u32 rc + 1)) with (u32 (rc + 1))
          by (unfold wrap; by rewrite Zplus_mod_idemp_l).
        rewrite E2. cbn [length]. rewrite Nat2Z.inj_succ. do 3 f_equal. f_equal. lia.
      * rewrite Hr. cbn. by rewrite map_app, <- app_assoc.
    + assert (Eo : store_owner c r = None).
      { unfold sec_of in Es. destruct (store_owner c r); [|done].
        by rewrite (pack_section_fits c r _ Hf) in Es. }
      cbn. unfold number_of, ckpt_view. rewrite Es, Eo. by apply IH.
Qed.

End transfer.

(** C38: a node that reads the checkpoint has the part of the plock state of the node that
    wrote it that [ckpt_view] describes. When plocks are enabled on both nodes, with or
    without ownership on both, the writer has a change since its last checkpoint, the
    resources fit their sections, and those owned by other nodes carry no settled locks and
    waiters ([owned_section_refused] has one that does), [store_plocks] succeeds when all
    sections can be created, and [retrieve_plocks] on the sections in the order they were
    created, with memory available, adds exactly these views and computes the same
    signature. With ownership the view leaves out resources whose owner is not known, names
    the writer as the owner of those with owner 0 whose message that says so has not come
    back, and shows no locks of those it names the writer as the owner of; locks and waiters
    that are being synced are left out. *)
Theorem checkpoint_transfer c ls now old
  (Hen : cfgd_enable_plock c = true) (Hdis : ls_disable_plock ls = false)
  (Hnew : ls_last_checkpoint_time ls <= ls_last_plock_time ls)
  (Hour : in_s 32 (our_nodeid c)) (Hrs : Forall (ckpt_ok c) (ls_plock_resources ls)) :
  exists ls' secs sig,
    store_plocks c true true (fun _ => true) ls now old = Some (ls', secs, Some sig) /\
    forall c2 new wd num0,
      cfgd_enable_plock c2 = true -> ls_disable_plock new = false ->
      cfgd_plock_ownership c2 = cfgd_plock_ownership c -> mem_ok (wd_mem wd) ->
      let '(new', _, sig') :=
        retrieve_plocks c2 new wd num0 (Some (map ItSection secs)) in
      sig' = Some sig /\
      map res_view (ls_plock_resources new') =
      map res_view (ls_plock_resources new) ++ omap (ckpt_view c) (ls_plock_resources ls).
Proof.
  unfold store_plocks. rewrite Hen, Hdis. cbn [negb orb].
  replace (ls_last_checkpoint_time ls >? ls_last_plock_time ls) with false
    by (rewrite Z.gtb_ltb; symmetry; apply Z.ltb_ge; lia).
  pose proof (store_counts_spec c _ Hrs) as Hc.
  destruct (store_counts (ls_plock_resources ls)) as [rc pc]. cbn [fst] in Hc.
  rewrite (store_loop_ok c _ Hrs). do 3 eexists. split; [reflexivity|].
  intros c2 new wd num0 Hen2 Hdis2 Hown Hm. unfold retrieve_plocks.
  rewrite Hen2, Hdis2. cbn [negb orb app].
  destruct (retrieve_loop_ok c c2 num0 Hown Hour _ Hrs new wd 0 0 0 0 Hm)
    as (ls' & wd' & pc' & E & Hv).
  change (u32 0) with 0 in E. rewrite E. split; [|exact Hv]. by subst rc.
Qed.

Lemma plock_sig_same n k : plock_sig n n k = k.
Proof. unfold plock_sig. by rewrite Z.lxor_nilpotent. Qed.

(** The section of a resource owned by another node is written with the locks
    the node has received from it, but a section with an owner and locks is
    refused when it is read.  The reader counts one resource less, the signatures
    differ, and it disables plocks. *)
Theorem owned_section_refused c ls now old r
  (Hen : cfgd_enable_plock c = true) (Hdis : ls_disable_plock ls = false)
  (Hown : cfgd_plock_ownership c = true)
  (Hnew : ls_last_checkpoint_time ls <= ls_last_plock_time ls)
  (Hrs : ls_plock_resources ls = [r]) (Ht : res_typed r) (Hf : res_fits r)
  (Ho : r_owner r <> 0 /\ r_owner r <> our_nodeid c /\ r_owner r <> -1)
  (Hl : settled_locks r <> []) :
  exists ls' secs sig,
    store_plocks c true true (fun _ => true) ls now old = Some (ls', secs, Some sig) /\
    forall c2 new wd sig0 num0,
      cfgd_enable_plock c2 = true -> ls_disable_plock new = false ->
      ls_need_plocks new = true -> cfgd_plock_ownership c2 = true ->
      let '(new', _) :=
        receive_plocks_stored c2 new wd true true sig sig0 num0
          (Some (map ItSection secs)) in
      ls_plock_resources new' = ls_plock_resources new /\ ls_disable_plock new' = true.
Proof.
  destruct Ho as (H0 & Hu & H1). destruct Ht as (Hn & Hos & _).
  assert (Eo : store_owner c r = Some (r_owner r)).
  { unfold store_owner, c_true. rewrite Hown. cbn [negb].
    by rewrite (proj2 (Z.eqb_neq _ _) H1), (proj2 (Z.eqb_neq _ _) Hu),
      (proj2 (Z.eqb_neq _ _) H0). }
  unfold store_plocks. rewrite Hen, Hdis. cbn [negb orb].
  replace (ls_last_checkpoint_time ls >? ls_last_plock_time ls) with false
    by (rewrite Z.gtb_ltb; symmetry; apply Z.ltb_ge; lia).
  rewrite Hrs. cbn [store_counts store_loop].
  rewrite (proj2 (Z.eqb_neq _ _) H1), Eo, (pack_section_fits c r _ Hf), Hown,
    (proj2 (Z.eqb_neq _ _) Hu). cbn [andb app Z.eqb]. rewrite plock_sig_same.
  do 3 eexists. split; [reflexivity|].
  intros c2 new wd sig0 num0 Hen2 Hdis2 Hneed Hown2.
  unfold receive_plocks_stored, retrieve_plocks. rewrite Hneed, Hen2, Hdis2.
  cbn [negb orb map retrieve_loop sec_name sec_data]. unfold unpack_section_buf.
  rewrite scan_section_name_ok by (unfold in_u, in_s in *; lia). rewrite Hown2.
  unfold c_true. rewrite (proj2 (Z.eqb_neq _ _) H0). cbn [negb andb].
  destruct (settled_locks r) as [|po pos] eqn:El; [done|]. cbn [map app length].
  replace (Z.of_nat (S _) =? 0) with false by (symmetry; apply Z.eqb_neq; lia).
  by destruct (malloc (wd_mem wd)) as [[g|] m1].
Qed.

(** ** A checkpoint that is out of date *)

Lemma do_waiters_owner c ls wd r : r_owner (fst (do_waiters c ls wd r)) = r_owner r.
Proof. unfold do_waiters. by destruct (waiters_loop _ _ _ _ _) as [[? ?] ?]. Qed.

(** The node has no lock and no waiter on the resource. *)
Definition untouched (nodeid : Z) (r : resource) : Prop :=
  Forall (fun po => po_nodeid po <> nodeid) (r_locks r) /\
  Forall (fun w => i_nodeid (wt_info w) <> nodeid) (r_waiters r).

Lemma purge_lists_untouched nodeid r :
  untouched nodeid r -> snd (purge_lists nodeid false r) = false.
Proof.
  intros [Hl Hw]. apply orb_false_iff. rewrite !existsb_false_Forall.
  split; eapply Forall_impl; eauto; simpl; intros ? H; rewrite orb_false_r;
    by apply Z.eqb_neq.
Qed.

Lemma purge_resource_untouched c ls wd nodeid r ro p wd' :
  nodeid <> 0 -> untouched nodeid r ->
  purge_resource c ls wd nodeid false r = (ro, p, wd') ->
  p = false /\ forall r', ro = Some r' -> r_owner r' <> nodeid.
Proof.
  intros Hn Hu. apply purge_lists_untouched in Hu. unfold purge_resource.
  destruct (purge_lists nodeid false r) as [r1 p1]. cbn [snd] in Hu. subst p1.
  unfold purge_owner.
  set (x := if r_owner r1 =? nodeid then _ else _).
  assert (Hx : r_owner (fst x) <> nodeid).
  { unfold x. zcase; [simpl; lia|done]. }
  destruct x as [r2 wd1]. cbn [fst] in Hx.
  set (y := match r_waiters r2 with [] => _ | _ => _ end).
  assert (Hy : r_owner (fst y) = r_owner r2).
  { unfold y. destruct (r_waiters r2); [done|apply do_waiters_owner]. }
  destruct y as [r3 wd2]. cbn [fst] in Hy. intros [= <- <- <-]. split; [done|].
  intros r' Hp. rewrite <- Hy in Hx. unfold put_resource in Hp.
  destruct (cfgd_plock_ownership c), (r_locks r3), (r_waiters r3); congruence.
Qed.

Lemma purge_loop_untouched c ls nodeid rs : nodeid <> 0 -> Forall (untouched nodeid) rs ->
  forall wd rs' p wd', purge_loop c ls wd nodeid false rs = (rs', p, wd') ->
  p = false /\ Forall (fun r => r_owner r <> nodeid) rs'.
Proof.
  intros Hn Hu. induction Hu as [|r rs Hr Hrs IH]; intros wd rs' p wd'; cbn [purge_loop].
  - intros [= <- <- _]. split; [done|constructor].
  - destruct (purge_resource c ls wd nodeid false r) as [[ro p1] wd1] eqn:E1.
    destruct (purge_loop c ls wd1 nodeid false rs) as [[rs2 p2] wd2] eqn:E2.
    intros [= <- <- _]. destruct (IH _ _ _ _ E2) as [-> H2].
    destruct (purge_resource_untouched _ _ _ _ _ _ _ _ Hn Hr E1) as [-> H1].
    split; [done|]. destruct ro as [r'|]; [|done]. constructor; [by apply H1|done].
Qed.

(** When a node fails that owned resources but had no lock or waiter in the
    checkpoint node's lists, [purge_plocks] clears the ownership without touching
    [last_plock_time]: [store_plocks] takes the old checkpoint for up to date and
    leaves its sections, which still name the failed node as owner. *)
Theorem purged_owner_stale_checkpoint c u o cr ls wd nodeid now old
  (Hen : cfgd_enable_plock c = true) (Hdis : ls_disable_plock ls = false)
  (Hup : ls_last_checkpoint_time ls > ls_last_plock_time ls) (Hn : nodeid <> 0)
  (Hu : Forall (untouched nodeid) (ls_plock_resources ls)) :
  let ls1 := fst (purge_plocks c ls wd nodeid false) in
  Forall (fun r => r_owner r <> nodeid) (ls_plock_resources ls1) /\
  exists ls2 sig, store_plocks c u o cr ls1 now old = Some (ls2, old, Some sig).
Proof.
  unfold purge_plocks. rewrite Hen, Hdis. cbn [negb orb].
  destruct (purge_loop c ls wd nodeid false (ls_plock_resources ls)) as [[rs p] wd1] eqn:E.
  destruct (purge_loop_untouched _ _ _ _ Hn Hu _ _ _ _ E) as [-> H1].
  cbn [fst]. split; [exact H1|]. unfold store_plocks. rewrite Hen.
  cbn [ls_set_resources ls_disable_plock ls_last_checkpoint_time ls_last_plock_time].
  rewrite Hdis. cbn [negb orb]. rewrite (proj2 (Z.gtb_gt _ _) Hup). by do 2 eexists.
Qed.

(** ** Examples *)

Definition ckpt_cfg (n : Z) : config := mkConfig n true true 0 0 0 0 false.

(** Node 1 owns resource 5, resource 9 has no owner and a lock and a waiter. *)
Definition ckpt_po (nodeid : Z) : posix_lock := mkPo 100 7 0 9 1 nodeid 0.
Definition ckpt_waiter : lock_waiter := mkWaiter 0 (ex_info 1 1 1 2 0 4 8).
Definition ckpt_res : list resource :=
  [mkRes 5 1 0 0 [ckpt_po 1] [] []; mkRes 9 0 R_GOT_UNOWN 0 [ckpt_po 3] [ckpt_waiter] []].
Definition ckpt_ls (rs : list resource) : lockspace :=
  mkLs 7 0 false false false [] rs 10 20 0 0 0 0 0.

Ltac typed_concrete :=
  unfold res_typed, lock_typed, waiter_typed, in_u, in_s; simpl;
  repeat first [apply Forall_nil_2 | apply Forall_cons_2 | split]; simpl; lia.

Lemma ckpt_res_ok : Forall (ckpt_ok (ckpt_cfg 1)) ckpt_res.
Proof.
  repeat apply Forall_cons_2; [| |apply Forall_nil_2]; (split; [typed_concrete|]);
    (split; [vm_compute; discriminate|]); split; try done; intros _ H1 H2; by simpl in *.
Qed.

Lemma checkpoint_transfer_witness :
  exists ls' secs sig,
    store_plocks (ckpt_cfg 1) true true (fun _ => true) (ckpt_ls ckpt_res) 5000000 [] =
      Some (ls', secs, Some sig) /\
    forall c2 new wd num0,
      cfgd_enable_plock c2 = true -> ls_disable_plock new = false ->
      cfgd_plock_ownership c2 = true -> mem_ok (wd_mem wd) ->
      let '(new', _, sig') :=
        retrieve_plocks c2 new wd num0 (Some (map ItSection secs)) in
      sig' = Some sig /\
      map res_view (ls_plock_resources new') =
      map res_view (ls_plock_resources new) ++
        [mkResCkpt 5 1 false [] [];
         mkResCkpt 9 0 true [ckpt_po 3] [mkPo 100 8 0 4 1 2 0]].
Proof.
  apply (checkpoint_transfer (ckpt_cfg 1) (ckpt_ls ckpt_res) 5000000 []).
  - reflexivity.
  - reflexivity.
  - vm_compute; discriminate.
  - unfold in_s; simpl; lia.
  - apply ckpt_res_ok.
Defined.

(** Resource 5 is owned by node 2, which has sent its lock to node 1 but whose
    message giving up the ownership has not arrived. *)
Definition synced_res : resource := mkRes 5 2 0 0 [ckpt_po 2] [] [].

Lemma owned_section_refused_witness :
  exists ls' secs sig,
    store_plocks (ckpt_cfg 1) true true (fun _ => true) (ckpt_ls [synced_res]) 5000000 [] =
      Some (ls', secs, Some sig) /\
    forall c2 new wd sig0 num0,
      cfgd_enable_plock c2 = true -> ls_disable_plock new = false ->
      ls_need_plocks new = true -> cfgd_plock_ownership c2 = true ->
      let '(new', _) :=
        receive_plocks_stored c2 new wd true true sig sig0 num0
          (Some (map ItSection secs)) in
      ls_plock_resources new' = ls_plock_resources new /\ ls_disable_plock new' = true.
Proof.
  apply (owned_section_refused (ckpt_cfg 1) (ckpt_ls [synced_res]) 5000000 [] synced_res).
  - reflexivity.
  - reflexivity.
  - reflexivity.
  - vm_compute; discriminate.
  - reflexivity.
  - typed_concrete.
  - vm_compute; discriminate.
  - split_and!; discriminate.
  - discriminate.
Defined.

(** Node 3 owned resource 5 when the checkpoint was written at time 30. *)
Definition stale_ls : lockspace :=
  mkLs 7 0 false false false [] [mkRes 5 3 0 0 [] [] []] 30 20 0 5 5 1 0.
Definition stale_ckpt : list section := [mkSection (section_name 5 3) []].

Lemma purged_owner_stale_checkpoint_witness :
  let ls1 := fst (purge_plocks (ckpt_cfg 1) stale_ls (mkWorld [] 40000000 []) 3 false) in
  Forall (fun r => r_owner r <> 3) (ls_plock_resources ls1) /\
  exists ls2 sig,
    store_plocks (ckpt_cfg 1) true true (fun _ => true) ls1 50000000 stale_ckpt =
    Some (ls2, stale_ckpt, Some sig).
Proof.
  apply (purged_owner_stale_checkpoint (ckpt_cfg 1) true true (fun _ => true) stale_ls
    (mkWorld [] 40000000 []) 3 50000000 stale_ckpt).
  all: try reflexivity.
  - discriminate.
  - repeat constructor.
Defined.
