(* ===== verification/PlockSafe.v ===== *)
(** * Mutual exclusion of byte-range locks

    The lockspaces of a cluster without ownership, each with the events of [Plock], and the
    checkpoint through which a node that joins gets the locks ([PlockCkpt]): no two owners hold
    conflicting ranges in a resource. *)

From S2P Require Import Prelude PlockRange Plock PlockThm PlockCkpt.
Open Scope Z_scope.

(** The events of a lockspace: a delivered message, the replay of the saved
    messages, a node leaving (or our own unmount), a request from the kernel, and
    the membership code changing anything but the lock tables.  The world an
    event runs in, with its allocator outcomes, is arbitrary. *)
Inductive plock_step (c : config) : lockspace -> lockspace -> Prop :=
| st_deliver ls wd msg :
    wf_info (m_info msg) -> plock_step c ls (deliver_plock c ls wd msg).1
| st_saved ls wd : plock_step c ls (process_saved_plocks c ls wd).1
| st_purge ls wd nodeid unmount :
    plock_step c ls (purge_plocks c ls wd nodeid unmount).1
| st_request ls wd info create rv r ls1 wd1 :
    wf_info info ->
    find_resource c ls wd (i_number info) create = (rv, Some r, ls1, wd1) ->
    plock_step c ls (route_plock c ls1 wd1 info r).1
| st_drop ls wd : plock_step c ls (drop_resources c ls wd).1.2
| st_other ls ls' :
    ls_plock_resources ls' = ls_plock_resources ls ->
    ls_saved_messages ls' = ls_saved_messages ls -> plock_step c ls ls'.

Definition ls_initial (ls : lockspace) : Prop :=
  ls_plock_resources ls = [] /\ ls_saved_messages ls = [].

(** What the iteration over the sections of a checkpoint may give: any of its sections, in any
    order and any number of times, and failures. *)
Definition read_from (secs : list section) (it : iter_item) : Prop :=
  match it with ItSection s => s ∈ secs | _ => True end.

(** The states of the lockspaces of a cluster, and the checkpoints that are written: a
    checkpoint is written by a node of the cluster, over an old one that may still be there, and
    a node that gets the message about it reads it, at any time.  Calls to the checkpoint
    service may fail. *)
Inductive lockspace_run : config -> lockspace -> Prop :=
| run_start c ls : cfgd_plock_ownership c = false -> ls_initial ls -> lockspace_run c ls
| run_step c ls ls' : lockspace_run c ls -> plock_step c ls ls' -> lockspace_run c ls'
| run_stored c ls secs wd change_ok has_sig msg_sig sig0 num0 iter :
    lockspace_run c ls -> checkpoint_run secs -> Forall (read_from secs) (default [] iter) ->
    lockspace_run c (receive_plocks_stored c ls wd change_ok has_sig msg_sig sig0 num0 iter).1
with checkpoint_run : list section -> Prop :=
| ckpt_none : checkpoint_run []
| ckpt_store c ls old unlink_ok open_ok create_ok now ls' secs sig :
    lockspace_run c ls -> checkpoint_run old ->
    store_plocks c unlink_ok open_ok create_ok ls now old = Some (ls', secs, sig) ->
    checkpoint_run secs.

Scheme lockspace_run_mind := Minimality for lockspace_run Sort Prop
with checkpoint_run_mind := Minimality for checkpoint_run Sort Prop.
Combined Scheme cluster_ind from lockspace_run_mind, checkpoint_run_mind.

Lemma plock_step_ok c ls ls' :
  cfgd_plock_ownership c = false -> plock_step c ls ls' -> ls_ok ls -> ls_ok ls'.
Proof.
  intros Hc Hs Hok. destruct Hs as [ls wd msg Hi|ls wd|ls wd n u|
    ls wd info create rv r ls1 wd1 Hi Hf|ls wd|ls ls' E1 E2].
  - by apply deliver_plock_ok.
  - unfold process_saved_plocks. apply saved_loop_ok; [done|apply Hok|done].
  - by apply purge_plocks_ok.
  - apply find_resource_ok in Hf as [Hok1 Hr]; [|done].
    destruct (Hr r eq_refl). by apply route_plock_ok.
  - unfold drop_resources. by rewrite Hc.
  - unfold ls_ok. by rewrite E1, E2.
Qed.

(** ** Checkpoints *)

(** The packed records of a resource: ranges that are right, and no conflict between locks. *)
Definition pack_wf (pp : pack_plock) : Prop :=
  in_u 64 (pp_start pp) /\ in_u 64 (pp_end pp) /\ pp_start pp <= pp_end pp /\ is_mode (pp_ex pp).

Definition pack_cross (p q : pack_plock) : Prop :=
  pp_nodeid p = pp_nodeid q /\ pp_owner p = pp_owner q \/
  pp_end p < pp_start q \/ pp_end q < pp_start p \/ pp_ex p = 0 /\ pp_ex q = 0.

Definition packed_ok (pps : list pack_plock) : Prop :=
  Forall pack_wf pps /\
  forall p q, p ∈ pps -> q ∈ pps -> pp_waiter p = 0 -> pp_waiter q = 0 -> pack_cross p q.

Lemma is_mode_u8 z : is_mode z -> is_mode (u8 z) /\ u8 z = z.
Proof. intros H. assert (u8 z = z) as -> by (unfold is_mode in H; destruct H as [->| ->]; done). done. Qed.

Lemma pack_lock_wf po : wf_lock po -> pack_wf (pack_lock po).
Proof. intros (H1 & H2 & H3 & H4). unfold pack_wf. cbn. by destruct (is_mode_u8 _ H4). Qed.

Lemma pack_waiter_wf w : wf_waiter w -> pack_wf (pack_waiter w).
Proof. intros (H1 & H2 & H3 & H4). unfold pack_wf. cbn. by destruct (is_mode_u8 _ H4). Qed.

Lemma pack_section_ok c r o pps : res_ok r -> pack_section_buf c r o = Some pps -> packed_ok pps.
Proof.
  intros (Hw & Hn & Hwt & _). unfold pack_section_buf. destruct (_ && _).
  { intros [= <-]. split; [constructor|]. by intros p q ?%not_elem_of_nil. }
  fold (settled_locks r) (settled_waiters r). zcase; [|done]. intros [= <-].
  assert (Hl : forall po, po ∈ settled_locks r -> po ∈ r_locks r).
  { intros po [H _]%list_elem_of_In%filter_In. by apply list_elem_of_In. }
  split.
  - apply Forall_app. split; rewrite Forall_map.
    + apply filter_typed. eapply Forall_impl; [exact Hw|]. apply pack_lock_wf.
    + apply filter_typed. eapply Forall_impl; [exact Hwt|]. apply pack_waiter_wf.
  - assert (G : forall p, p ∈ map pack_lock (settled_locks r) ++ map pack_waiter (settled_waiters r) ->
      pp_waiter p = 0 -> exists po, po ∈ r_locks r /\ p = pack_lock po).
    { intros p [(po & -> & H)%list_elem_of_fmap|(w & -> & _)%list_elem_of_fmap]%elem_of_app; [|done]. eauto. }
    intros p q Hp Hq Ep Eq. destruct (G p Hp Ep) as (a & Ha & ->), (G q Hq Eq) as (b & Hb & ->).
    rewrite no_conflict_all in Hn. unfold wf_locks in Hw. rewrite Forall_forall in Hw.
    destruct (Hw a Ha) as (_ & _ & _ & Ma), (Hw b Hb) as (_ & _ & _ & Mb). unfold pack_cross. cbn.
    rewrite (proj2 (is_mode_u8 _ Ma)), (proj2 (is_mode_u8 _ Mb)).
    destruct (Hn a b Ha Hb) as [[-> ->]|[[]|[]]]; auto.
Qed.

Lemma unpack_loop_ok m pps : forall r r' m', unpack_loop m pps r = (Some r', m') ->
  Forall pack_wf pps -> res_ok r ->
  (forall p, p ∈ pps -> pp_waiter p = 0 -> forall g a, a ∈ r_locks r -> cross_ok a (unpack_lock g p)) ->
  (forall p q, p ∈ pps -> q ∈ pps -> pp_waiter p = 0 -> pp_waiter q = 0 -> pack_cross p q) -> res_ok r'.
Proof.
  revert m. induction pps as [|p pps IH]; intros m r r' m' E Hw Hr Ho Hc; cbn [unpack_loop] in E.
  { by injection E as <- _. }
  destruct (malloc m) as [[g|] m1]; [|done]. apply Forall_cons in Hw as [(W1 & W2 & W3 & W4) Hw].
  destruct Hr as (R1 & R2 & R3 & R4). destruct (pp_waiter p =? 0) eqn:Ew; zbool.
  - eapply IH; [exact E|done|..].
    + unfold res_ok; cbn. split_and!; [|..|done|done].
      * apply Forall_app. split; [done|]. apply Forall_singleton. unfold wf_lock. by cbn.
      * rewrite no_conflict_all in *. intros a b. rewrite !elem_of_app, !list_elem_of_singleton. intros [Ha| ->] [Hb| ->];
          [by apply R2|apply Ho; [by left|done..]|apply cross_ok_sym, Ho; [by left|done..]|by left].
    + intros q Hq Eq g' a. cbn. rewrite elem_of_app, list_elem_of_singleton. intros [Ha| ->]; [apply Ho; [by right|done..]|].
      destruct (Hc p q) as [[En Eo]|Hx]; [by left|by right|done|done| |].
      * left. split; cbn; by rewrite ?En.
      * unfold cross_ok, disjoint_ranges; cbn. tauto.
    + intros a b Ha Hb. apply Hc; by right.
  - eapply IH; [exact E|done|..].
    + unfold res_ok; cbn. split_and!; [done..| |done].
      apply Forall_app. split; [done|]. apply Forall_singleton. unfold wf_waiter, wf_info. by cbn.
    + intros q Hq. apply Ho. by right.
    + intros a b Ha Hb. apply Hc; by right.
Qed.

Lemma unpack_section_ok c ls wd num0 name pps r_num e n k ls' wd' :
  unpack_section_buf c ls wd num0 name pps r_num = (e, n, k, ls', wd') -> packed_ok pps -> ls_ok ls -> ls_ok ls'.
Proof.
  intros E [Hw Hc] Hok. unfold unpack_section_buf in E. destruct (scan_section_name _ _ _) as [num owner].
  destruct (malloc _) as [[g|] m1]; [|by injection E as <- <- <- <- <-].
  do 2 (zcase_in E; [by injection E as <- <- <- <- <-|]).
  destruct (unpack_loop _ _ _) as [[r'|] m2] eqn:Eu; injection E as <- <- <- <- <-; [|done].
  destruct Hok as [Hr Hs]. split; [|done]. cbn. apply Forall_app. split; [done|]. apply Forall_singleton.
  eapply unpack_loop_ok; [exact Eu|done|apply res_ok_new| |done]. cbn. by intros p _ _ g' a ?%not_elem_of_nil.
Qed.

Definition sections_ok (secs : list section) : Prop := Forall (fun s => packed_ok (sec_data s)) secs.

Lemma retrieve_loop_safe c num0 iter : forall ls wd f l rc pc secs,
  sections_ok secs -> Forall (read_from secs) iter -> ls_ok ls ->
  ls_ok (retrieve_loop c ls wd num0 iter f l rc pc).1.1.
Proof.
  induction iter as [|it iter IH]; intros ls wd f l rc pc secs Hs Hi Hok; [done|].
  apply Forall_cons in Hi as [H Hi]. destruct it as [| | |s]; cbn [retrieve_loop]; [done|by eapply IH|by eapply IH|].
  destruct (unpack_section_buf _ _ _ _ _ _ _) as [[[[e n] k] ls'] wd'] eqn:E.
  assert (ls_ok ls') by (eapply unpack_section_ok; [exact E| |done]; by eapply Forall_forall in Hs).
  zcase; by eapply IH.
Qed.

Lemma stored_ok c ls wd change_ok has_sig msg_sig sig0 num0 iter secs :
  sections_ok secs -> Forall (read_from secs) (default [] iter) -> ls_ok ls ->
  ls_ok (receive_plocks_stored c ls wd change_ok has_sig msg_sig sig0 num0 iter).1.
Proof.
  intros Hs Hi Hok. unfold receive_plocks_stored. zcase; [done|]. zcase; [done|].
  assert (ls_ok (retrieve_plocks c ls wd num0 iter).1.1) as H1.
  { unfold retrieve_plocks. zcase; [done|]. destruct iter as [it|]; [|done].
    pose proof (retrieve_loop_safe c num0 it ls wd 0 0 0 0 secs Hs Hi Hok) as HR.
    by destruct (retrieve_loop _ _ _ _ _ _ _ _ _) as [[? ?] [[[? ?] ?] ?]]. }
  destruct (retrieve_plocks _ _ _ _ _) as [[ls1 wd1] sig]. zcase; [done|].
  pose proof (saved_loop_ok c ls1 wd1 [] (ls_saved_messages ls1) (Forall_nil_2 _) (proj2 H1) H1) as H2.
  unfold process_saved_plocks. by destruct (saved_loop _ _ _ _ _).
Qed.

Lemma store_loop_safe c create_ok rs : forall secs f l, Forall res_ok rs -> sections_ok secs ->
  match store_loop c create_ok rs secs f l with
  | StoreOverflow => True
  | StoreFail secs' | StoreOk secs' _ _ => sections_ok secs'
  end.
Proof.
  induction rs as [|r rs IH]; intros secs f l Hr Hs; cbn [store_loop]; [done|].
  apply Forall_cons in Hr as [Hr Hrs]. destruct (store_owner c r) as [o|]; [|by apply IH].
  destruct (pack_section_buf c r o) as [d|] eqn:E; [|done]. destruct (create_ok _); [|done].
  apply IH; [done|]. apply Forall_app. split; [done|]. apply Forall_singleton. by eapply pack_section_ok.
Qed.

Lemma store_plocks_safe c u o k ls now old ls' secs sig : store_plocks c u o k ls now old = Some (ls', secs, sig) ->
  ls_ok ls -> sections_ok old -> sections_ok secs.
Proof.
  intros E [Hr _] Ho. unfold store_plocks in E. repeat (zcase_in E; [by injection E as <- <- <-|]).
  assert (sections_ok (if u then [] else old)) as Hb by (destruct u; [constructor|done]).
  destruct (store_counts _) as [rc pc]. zcase_in E; [by injection E as <- <- <-|].
  pose proof (store_loop_safe c k (ls_plock_resources ls) _ 0 0 Hr Hb) as HS.
  destruct (store_loop _ _ _ _ _ _); [done| |]; by injection E as <- <- <-.
Qed.

Lemma cluster_ok :
  (forall c ls, lockspace_run c ls -> cfgd_plock_ownership c = false /\ ls_ok ls) /\
  (forall secs, checkpoint_run secs -> sections_ok secs).
Proof.
  apply cluster_ind.
  - intros c ls Hc [Hr Hs]. split; [done|]. unfold ls_ok. rewrite Hr, Hs. split; constructor.
  - intros c ls ls' _ [Hc Hok] Hs. split; [done|]. by eapply plock_step_ok.
  - intros c ls secs wd ch hs ms s0 n0 iter _ [Hc Hok] _ Hs Hi. split; [done|]. by eapply stored_ok.
  - constructor.
  - intros c ls old u o k now ls' secs sig _ [_ Hok] _ Ho E. by eapply store_plocks_safe.
Qed.

Lemma no_conflict_bytes l n o x e n' o' e' :
  no_conflict l -> mode_at l n o x = Some e -> mode_at l n' o' x = Some e' ->
  ~ (n = n' /\ o = o') -> e = 0 /\ e' = 0.
Proof.
  intros Hn H H' Hne.
  assert (Hex : forall n o e, mode_at l n o x = Some e -> held l n o x e).
  { clear. intros n o e. induction l as [|po l IH]; simpl; [done|].
    destruct (covers n o x po) eqn:E.
    - intros [= <-]. apply covers_spec in E. exists po. split; [by left|].
      unfold holds. intuition.
    - intros H. destruct (IH H) as (q & Hq & ?). exists q. split; [by right|done]. }
  apply Hex in H as (p & Hp & ? & ? & ? & ?), H' as (q & Hq & ? & ? & ? & ?).
  rewrite no_conflict_all in Hn.
  destruct (Hn p q Hp Hq) as [[]|[[]|[]]]; lia.
Qed.

(** C1: mutual exclusion.  In every state a lockspace without ownership can
    reach, through any sequence of delivered messages, replays, node failures,
    kernel requests, allocation failures and readings of a checkpoint that nodes of
    the cluster wrote, two different owners that hold a lock on the same byte of a
    resource both hold it shared.  Requests have a range that does not end before it
    starts and one of the two modes.  The theorem is about each resource of a lockspace: a file
    has two when a request comes before the checkpoint is read ([early_request_hides_locks]). *)
Theorem plock_mutual_exclusion c ls r n o x e n' o' e' :
  lockspace_run c ls -> r ∈ ls_plock_resources ls ->
  mode_at (r_locks r) n o x = Some e -> mode_at (r_locks r) n' o' x = Some e' ->
  ~ (n = n' /\ o = o') -> e = 0 /\ e' = 0.
Proof.
  intros [_ [Hok _]]%(proj1 cluster_ok) Hin. rewrite Forall_forall in Hok.
  destruct (Hok r Hin) as (_ & Hn & _). by apply no_conflict_bytes.
Qed.

(** ** Concrete instances *)

(** Node 1 has a reader, writes a checkpoint, and node 2, which has joined, reads it and gets
    the message of a second reader. *)
Definition reader_ls : lockspace := (deliver_plock (cfg 1) empty_ls (wd_at 0) (op_msg 1 0 0 1 0 9 10)).1.
Definition reader_ckpt : list section :=
  default [] ((fun p => p.1.2) <$> store_plocks (cfg 1) true true (fun _ => true) reader_ls 0 []).
Definition joining_ls : lockspace := mkLs 7 0 true true false [] [] 0 0 0 0 0 0 0.
Definition joined_ls : lockspace :=
  (receive_plocks_stored (cfg 2) joining_ls (wd_at 0) true false 0 0 0 (Some (map ItSection reader_ckpt))).1.

Lemma reader_ckpt_run : checkpoint_run reader_ckpt.
Proof.
  destruct (store_plocks (cfg 1) true true (fun _ => true) reader_ls 0 []) as [[[ls' secs] sig]|] eqn:E; [|done].
  unfold reader_ckpt. rewrite E. cbn.
  eapply (ckpt_store (cfg 1) reader_ls [] true true (fun _ => true) 0 ls' secs sig); [|constructor|exact E].
  eapply run_step; [apply (run_start (cfg 1) empty_ls); [done|by split]|]. apply st_deliver. wf_msg.
Qed.

Lemma joined_run : lockspace_run (cfg 2) joined_ls.
Proof.
  eapply (run_stored (cfg 2) joining_ls reader_ckpt); [by apply run_start; [|split]|apply reader_ckpt_run|].
  cbn. rewrite Forall_map. apply Forall_forall. by intros s.
Qed.

Lemma plock_mutual_exclusion_witness :
  let ls := (deliver_plock (cfg 2) joined_ls (wd_at 0) (op_msg 1 0 0 2 5 14 20)).1 in
  mode_at (r_locks (default (res_of ([], [])) (search_resource (ls_plock_resources ls) 42))) 1 10 7
    = Some 0 /\ (0 : Z) = 0 /\ (0 : Z) = 0.
Proof.
  split; [vm_compute; reflexivity|].
  eapply (plock_mutual_exclusion (cfg 2) (deliver_plock (cfg 2) joined_ls (wd_at 0) (op_msg 1 0 0 2 5 14 20)).1
    (mkRes 42 0 0 0 [mkPo 100 10 0 9 0 1 0; mkPo 100 20 5 14 0 2 0] [] []) 1 10 7 0 2 20 0).
  - eapply run_step; [apply joined_run|]. apply st_deliver. wf_msg.
  - vm_compute. left.
  - reflexivity.
  - reflexivity.
  - lia.
Defined.

(** A request of the kernel before the checkpoint is read makes an empty resource, and the
    checkpoint adds a second one of the same number behind it.  The node then finds the empty
    one: it grants a write lock on bytes that another node has locked, as the checkpoint says. *)
Definition early_request : dlm_plock_info := ex_info 1 1 0 2 0 9 20.
Definition early_ls : lockspace := (find_resource (cfg 2) joining_ls (wd_at 0) 42 true).1.2.
Definition late_ls : lockspace :=
  (receive_plocks_stored (cfg 2) early_ls (wd_at 0) true false 0 0 0 (Some (map ItSection reader_ckpt))).1.

Example early_request_hides_locks :
  numbers (ls_plock_resources late_ls) = [42; 42] /\
  let ls := (deliver_plock (cfg 2) late_ls (wd_at 0) (mkMsg DLM_MSG_PLOCK 2 early_request)).1 in
  (fun r => (mode_at (r_locks r) 1 10 7, mode_at (r_locks r) 2 20 7)) <$> ls_plock_resources ls =
    [(None, Some 1); (Some 0, None)].
Proof. split; vm_compute; reflexivity. Qed.
