(* ===== verification/PlockWire.v ===== *)
(** * Messages between hosts of different byte order

    The conversions of [src/group/include/linux_endian.h] and their uses in
    [src/group/dlm_controld]: [info_bswap_out]/[info_bswap_in] of [plock.c], and
    the header and lockspace information of [cpg.c].  A structure goes on the wire
    as the bytes it has in the memory of the sender and is read as the bytes it
    has in the memory of the receiver; every structure here is without padding. *)

From S2P Require Import Prelude PlockRange.
Open Scope Z_scope.

(** ** Bytes of an integer *)

(** The [n] low bytes of [v], least significant first. *)
Fixpoint le_bytes (n : nat) (v : Z) : list Z :=
  match n with
  | O => []
  | S n' => v mod 256 :: le_bytes n' (v / 256)
  end.

Fixpoint le_value (l : list Z) : Z :=
  match l with
  | [] => 0
  | b :: l' => b + 256 * le_value l'
  end.

(** [bswap_16], [bswap_32] and [bswap_64] of an [n]-byte value. *)
Definition bswap (n : nat) (v : Z) : Z := le_value (rev (le_bytes n v)).

(** ** A host and its memory *)

Inductive host := BigEndian | LittleEndian.

Definition store (h : host) (n : nat) (v : Z) : list Z :=
  match h with BigEndian => rev (le_bytes n v) | LittleEndian => le_bytes n v end.
Definition load (h : host) (l : list Z) : Z :=
  match h with BigEndian => le_value (rev l) | LittleEndian => le_value l end.

Definition cpu_to_le (h : host) (n : nat) (v : Z) : Z :=
  match h with BigEndian => bswap n v | LittleEndian => v end.
Definition le_to_cpu (h : host) (n : nat) (v : Z) : Z :=
  match h with BigEndian => bswap n v | LittleEndian => v end.

Definition cpu_to_le16 h := cpu_to_le h 2.
Definition cpu_to_le32 h := cpu_to_le h 4.
Definition cpu_to_le64 h := cpu_to_le h 8.
Definition le16_to_cpu h := le_to_cpu h 2.
Definition le32_to_cpu h := le_to_cpu h 4.
Definition le64_to_cpu h := le_to_cpu h 8.

(** ** The structures *)

(** The conversion of a signed field: to unsigned for the macro, back to [int]
    by the assignment. *)
Definition s_cpu_to_le32 (h : host) (v : Z) : Z := s32 (cpu_to_le32 h (u32 v)).
Definition s_le32_to_cpu (h : host) (v : Z) : Z := s32 (le32_to_cpu h (u32 v)).

Definition info_bswap_out (h : host) (i : dlm_plock_info) : dlm_plock_info :=
  let '(v0, v1, v2) := i_version i in
  mkInfo (cpu_to_le32 h v0, cpu_to_le32 h v1, cpu_to_le32 h v2)
    (i_optype i) (i_ex i) (i_wait i) (i_flags i)
    (cpu_to_le32 h (i_pid i)) (s_cpu_to_le32 h (i_nodeid i)) (s_cpu_to_le32 h (i_rv i))
    (cpu_to_le32 h (i_fsid i)) (cpu_to_le64 h (i_number i)) (cpu_to_le64 h (i_start i))
    (cpu_to_le64 h (i_end i)) (cpu_to_le64 h (i_owner i)).

Definition info_bswap_in (h : host) (i : dlm_plock_info) : dlm_plock_info :=
  let '(v0, v1, v2) := i_version i in
  mkInfo (le32_to_cpu h v0, le32_to_cpu h v1, le32_to_cpu h v2)
    (i_optype i) (i_ex i) (i_wait i) (i_flags i)
    (le32_to_cpu h (i_pid i)) (s_le32_to_cpu h (i_nodeid i)) (s_le32_to_cpu h (i_rv i))
    (le32_to_cpu h (i_fsid i)) (le64_to_cpu h (i_number i)) (le64_to_cpu h (i_start i))
    (le64_to_cpu h (i_end i)) (le64_to_cpu h (i_owner i)).

(** [struct dlm_header] without its trailing [pad]. *)
Record dlm_header := mkHd {
  hd_version : Z * Z * Z;
  hd_type : Z;
  hd_nodeid : Z;
  hd_to_nodeid : Z;
  hd_global_id : Z;
  hd_flags : Z;
  hd_msgdata : Z;
  hd_msgdata2 : Z
}.

(** The header part of [dlm_send_message]: the version, the sender and the
    lockspace are filled in. *)
Definition header_out (h : host) (run : Z * Z * Z) (our_nodeid global_id : Z)
    (hd : dlm_header) : dlm_header :=
  let '(r0, r1, r2) := run in
  mkHd (cpu_to_le16 h r0, cpu_to_le16 h r1, cpu_to_le16 h r2)
    (cpu_to_le16 h (hd_type hd)) (cpu_to_le32 h (u32 our_nodeid))
    (cpu_to_le32 h (hd_to_nodeid hd)) (cpu_to_le32 h global_id)
    (cpu_to_le32 h (hd_flags hd)) (cpu_to_le32 h (hd_msgdata hd))
    (cpu_to_le32 h (hd_msgdata2 hd)).

Definition dlm_header_in (h : host) (hd : dlm_header) : dlm_header :=
  let '(r0, r1, r2) := hd_version hd in
  mkHd (le16_to_cpu h r0, le16_to_cpu h r1, le16_to_cpu h r2)
    (le16_to_cpu h (hd_type hd)) (le32_to_cpu h (hd_nodeid hd))
    (le32_to_cpu h (hd_to_nodeid hd)) (le32_to_cpu h (hd_global_id hd))
    (le32_to_cpu h (hd_flags hd)) (le32_to_cpu h (hd_msgdata hd))
    (le32_to_cpu h (hd_msgdata2 hd)).

(** [struct ls_info] and the [id_info] entries that follow it. *)
Record ls_info := mkLi {
  li_ls_info_size : Z;
  li_id_info_size : Z;
  li_id_info_count : Z;
  li_started_count : Z;
  li_member_count : Z;
  li_joined_count : Z;
  li_remove_count : Z;
  li_failed_count : Z
}.

(** The conversion of [send_info]. *)
Definition ls_info_out (h : host) (li : ls_info) : ls_info :=
  mkLi (cpu_to_le32 h (li_ls_info_size li)) (cpu_to_le32 h (li_id_info_size li))
    (cpu_to_le32 h (li_id_info_count li)) (cpu_to_le32 h (li_started_count li))
    (s_cpu_to_le32 h (li_member_count li)) (s_cpu_to_le32 h (li_joined_count li))
    (s_cpu_to_le32 h (li_remove_count li)) (s_cpu_to_le32 h (li_failed_count li)).

Definition ls_info_in (h : host) (li : ls_info) : ls_info :=
  mkLi (le32_to_cpu h (li_ls_info_size li)) (le32_to_cpu h (li_id_info_size li))
    (le32_to_cpu h (li_id_info_count li)) (le32_to_cpu h (li_started_count li))
    (s_le32_to_cpu h (li_member_count li)) (s_le32_to_cpu h (li_joined_count li))
    (s_le32_to_cpu h (li_remove_count li)) (s_le32_to_cpu h (li_failed_count li)).

Definition id_info_in (h : host) (nodeid : Z) : Z := s_le32_to_cpu h nodeid.

(** [ids_in], for entries of the size this program gives them. *)
Definition ids_in (h : host) (ids : list Z) : list Z := map (id_info_in h) ids.

(** ** Structures as bytes *)

(** What a structure promises to the transmission: its fields as unsigned values
    with their sizes, how it is rebuilt, and the conversions before sending and
    after receiving. *)
Class Struct (A : Type) := {
  sizes : list nat;
  typed : A -> Prop;
  to_fields : A -> list Z;
  of_fields : list Z -> option A;
  swap_out : host -> A -> A;
  swap_in : host -> A -> A;
  fields_in_range a : typed a ->
    Forall2 (fun n v => in_u (8 * Z.of_nat n) v) sizes (to_fields a);
  swap_out_fields h a : typed a ->
    to_fields (swap_out h a) = zip_with (cpu_to_le h) sizes (to_fields a);
  swap_in_fields h a : typed a ->
    option_map (swap_in h) (of_fields (zip_with (cpu_to_le h) sizes (to_fields a))) = Some a
}.
Arguments sizes A {_}.

(** The memory of a host that holds the fields, and the fields it holds. *)
Fixpoint store_fields (h : host) (ns : list nat) (vs : list Z) : list Z :=
  match ns, vs with
  | n :: ns, v :: vs => store h n v ++ store_fields h ns vs
  | _, _ => []
  end.

Fixpoint load_fields (h : host) (ns : list nat) (l : list Z) : list Z :=
  match ns with
  | [] => []
  | n :: ns => load h (firstn n l) :: load_fields h ns (skipn n l)
  end.

(** Sending a structure from [h], and receiving it on [h]. *)
Definition send_struct {A} `{Struct A} (h : host) (a : A) : list Z :=
  store_fields h (sizes A) (to_fields (swap_out h a)).
Definition recv_struct {A} `{Struct A} (h : host) (l : list Z) : option A :=
  option_map (swap_in h) (of_fields (load_fields h (sizes A) l)).

Lemma le_bytes_length n v : length (le_bytes n v) = n.
Proof. revert v. induction n; simpl; auto. Qed.

Definition is_byte (b : Z) : Prop := 0 <= b < 256.

Lemma le_bytes_bytes n v : Forall is_byte (le_bytes n v).
Proof.
  revert v. induction n; intros v; simpl; constructor; [|done].
  unfold is_byte. apply Z.mod_pos_bound. lia.
Qed.

Lemma store_bytes h n v : Forall is_byte (store h n v).
Proof. destruct h; [apply Forall_rev|]; apply le_bytes_bytes. Qed.

Lemma pow_byte n : 2 ^ (8 * Z.of_nat (S n)) = 256 * 2 ^ (8 * Z.of_nat n).
Proof. rewrite Nat2Z.inj_succ. change 256 with (2 ^ 8). rewrite <- Z.pow_add_r; [f_equal|..]; lia. Qed.

Lemma le_value_bytes n v : in_u (8 * Z.of_nat n) v -> le_value (le_bytes n v) = v.
Proof.
  unfold in_u. revert v. induction n as [|n IH]; intros v Hv; [simpl in *; lia|].
  rewrite pow_byte in Hv. cbn [le_bytes le_value]. rewrite IH.
  - pose proof (Z.div_mod v 256). lia.
  - split; [apply Z.div_pos; lia|apply Z.div_lt_upper_bound; lia].
Qed.

Lemma le_bytes_value l : Forall is_byte l -> le_bytes (length l) (le_value l) = l.
Proof.
  induction 1 as [|b l Hb Hl IH]; [done|]. unfold is_byte in Hb. cbn [length le_bytes le_value].
  rewrite (Z.mul_comm 256), Z.mod_add, Z.div_add by lia.
  rewrite Z.mod_small, Z.div_small by lia. by rewrite Z.add_0_l, IH.
Qed.

Lemma le_value_range l : Forall is_byte l -> in_u (8 * Z.of_nat (length l)) (le_value l).
Proof.
  unfold in_u. induction 1 as [|b l Hb Hl IH]; [simpl; lia|].
  unfold is_byte in Hb. cbn [length le_value]. rewrite pow_byte. lia.
Qed.

Lemma le_bytes_bswap n v : le_bytes n (bswap n v) = rev (le_bytes n v).
Proof.
  unfold bswap. rewrite <- (le_bytes_length n v) at 1. rewrite <- length_rev.
  apply le_bytes_value, Forall_rev, le_bytes_bytes.
Qed.

Lemma bswap_range n v : in_u (8 * Z.of_nat n) (bswap n v).
Proof.
  unfold bswap. rewrite <- (le_bytes_length n v) at 1. rewrite <- length_rev.
  apply le_value_range, Forall_rev, le_bytes_bytes.
Qed.

Lemma bswap_bswap n v : in_u (8 * Z.of_nat n) v -> bswap n (bswap n v) = v.
Proof.
  intros Hv. unfold bswap at 1. rewrite le_bytes_bswap, rev_involutive.
  by apply le_value_bytes.
Qed.

Lemma le_to_cpu_to_le h n v : in_u (8 * Z.of_nat n) v ->
  le_to_cpu h n (cpu_to_le h n v) = v.
Proof. destruct h; [apply bswap_bswap|done]. Qed.

Lemma cpu_to_le_range h n v : in_u (8 * Z.of_nat n) v ->
  in_u (8 * Z.of_nat n) (cpu_to_le h n v).
Proof. destruct h; [intros; apply bswap_range|done]. Qed.

(** The bytes on the wire do not depend on the host. *)
Lemma store_cpu_to_le h n v : store h n (cpu_to_le h n v) = le_bytes n v.
Proof. destruct h; simpl; [by rewrite le_bytes_bswap, rev_involutive|done]. Qed.

Lemma load_le_bytes h n v : in_u (8 * Z.of_nat n) v ->
  load h (le_bytes n v) = cpu_to_le h n v.
Proof. destruct h; [done|apply le_value_bytes]. Qed.

Lemma send_struct_bytes {A} `{Struct A} h (a : A) : typed a ->
  send_struct h a = store_fields LittleEndian (sizes A) (to_fields a).
Proof.
  intros Ht. unfold send_struct. rewrite swap_out_fields by done.
  induction (fields_in_range a Ht) as [|n v ns vs Hv _ IH]; [done|].
  cbn [zip_with store_fields]. by rewrite store_cpu_to_le, IH.
Qed.

Lemma recv_send {A} `{Struct A} h h' (a : A) rest : typed a ->
  recv_struct h' (send_struct h a ++ rest) = Some a.
Proof.
  intros Ht. rewrite send_struct_bytes by done.
  rewrite <- (swap_in_fields h' a Ht). unfold recv_struct. do 2 f_equal.
  induction (fields_in_range a Ht) as [|n v ns vs Hv _ IH]; [done|].
  cbn [load_fields store_fields store zip_with]. rewrite <- app_assoc.
  rewrite firstn_app, skipn_app, le_bytes_length, Nat.sub_diag.
  rewrite firstn_all2, skipn_all2 by (by rewrite le_bytes_length).
  rewrite firstn_O, skipn_O, app_nil_r, app_nil_l, load_le_bytes by done. by f_equal.
Qed.

(** ** The structures of the daemon *)

Definition i32 (v : Z) : Prop := in_s 32 v.
Definition info_typed (i : dlm_plock_info) : Prop :=
  let '(v0, v1, v2) := i_version i in
  in_u 32 v0 /\ in_u 32 v1 /\ in_u 32 v2 /\ in_u 8 (i_optype i) /\ in_u 8 (i_ex i) /\
  in_u 8 (i_wait i) /\ in_u 8 (i_flags i) /\ in_u 32 (i_pid i) /\ i32 (i_nodeid i) /\
  i32 (i_rv i) /\ in_u 32 (i_fsid i) /\ in_u 64 (i_number i) /\ in_u 64 (i_start i) /\
  in_u 64 (i_end i) /\ in_u 64 (i_owner i).

Definition info_fields (i : dlm_plock_info) : list Z :=
  let '(v0, v1, v2) := i_version i in
  [v0; v1; v2; i_optype i; i_ex i; i_wait i; i_flags i; i_pid i; u32 (i_nodeid i);
   u32 (i_rv i); i_fsid i; i_number i; i_start i; i_end i; i_owner i].

Definition info_of_fields (l : list Z) : option dlm_plock_info :=
  match l with
  | [v0; v1; v2; op; ex; wt; fl; pid; nid; rv; fsid; num; st; en; ow] =>
      Some (mkInfo (v0, v1, v2) op ex wt fl pid (s32 nid) (s32 rv) fsid num st en ow)
  | _ => None
  end.

Lemma u32_s32 z : in_u 32 z -> u32 (s32 z) = z.
Proof.
  intros Hz. rewrite <- (wrap_small 32 z) at 2 by done. unfold swrap, wrap.
  rewrite Zminus_mod_idemp_l. f_equal. lia.
Qed.

Lemma s32_of_u32 z : in_s 32 z -> s32 (u32 z) = z.
Proof.
  intros Hz. rewrite <- (swrap_small 32 z) at 2 by (done || lia).
  unfold swrap, wrap. by rewrite Zplus_mod_idemp_l.
Qed.

Lemma u32_s_cpu_to_le32 h v : u32 (s_cpu_to_le32 h v) = cpu_to_le h 4 (u32 v).
Proof.
  unfold s_cpu_to_le32, cpu_to_le32. rewrite u32_s32; [done|].
  apply (cpu_to_le_range h 4). apply (wrap_range 32). lia.
Qed.

Lemma s_le32_cpu h v : in_s 32 v -> s_le32_to_cpu h (s32 (cpu_to_le h 4 (u32 v))) = v.
Proof.
  intros Hv. unfold s_le32_to_cpu, le32_to_cpu.
  rewrite u32_s32 by (apply (cpu_to_le_range h 4), (wrap_range 32); lia).
  rewrite le_to_cpu_to_le by (apply (wrap_range 32); lia). by apply s32_of_u32.
Qed.

(** A one-byte field is never swapped. *)
Lemma cpu_to_le_byte h v : in_u 8 v -> cpu_to_le h 1 v = v.
Proof.
  unfold in_u. intros Hv. destruct h; [|done]. unfold cpu_to_le, bswap.
  change (rev (le_bytes 1 v)) with [v mod 256]. cbn [le_value].
  change (2 ^ 8) with 256 in Hv. rewrite Z.mod_small by lia. lia.
Qed.

Create Rewrite HintDb wire.
#[export] Hint Rewrite u32_s_cpu_to_le32 : wire.
#[export] Hint Rewrite cpu_to_le_byte le_to_cpu_to_le s_le32_cpu using done : wire.

Ltac wire_fields :=
  repeat match goal with H : _ /\ _ |- _ => destruct H end;
  repeat (constructor; [first [done | apply (wrap_range 32); lia]|]); constructor.
Ltac wire_swap :=
  repeat match goal with H : _ /\ _ |- _ => destruct H end;
  cbn; unfold cpu_to_le16, cpu_to_le32, cpu_to_le64, le16_to_cpu, le32_to_cpu, le64_to_cpu;
  autorewrite with wire; done.

#[export] Program Instance info_struct : Struct dlm_plock_info := {
  sizes := [4; 4; 4; 1; 1; 1; 1; 4; 4; 4; 4; 8; 8; 8; 8]%nat;
  typed := info_typed;
  to_fields := info_fields;
  of_fields := info_of_fields;
  swap_out := info_bswap_out;
  swap_in := info_bswap_in
}.
Next Obligation. intros [[[v0 v1] v2]]; unfold info_typed; simpl; intros. wire_fields. Qed.
Next Obligation. intros h [[[v0 v1] v2]]; unfold info_typed; simpl; intros. wire_swap. Qed.
Next Obligation. intros h [[[v0 v1] v2]]; unfold info_typed; simpl; intros. wire_swap. Qed.

Definition header_typed (hd : dlm_header) : Prop :=
  let '(r0, r1, r2) := hd_version hd in
  in_u 16 r0 /\ in_u 16 r1 /\ in_u 16 r2 /\ in_u 16 (hd_type hd) /\ in_u 32 (hd_nodeid hd) /\
  in_u 32 (hd_to_nodeid hd) /\ in_u 32 (hd_global_id hd) /\ in_u 32 (hd_flags hd) /\
  in_u 32 (hd_msgdata hd) /\ in_u 32 (hd_msgdata2 hd).

Definition header_fields (hd : dlm_header) : list Z :=
  let '(r0, r1, r2) := hd_version hd in
  [r0; r1; r2; hd_type hd; hd_nodeid hd; hd_to_nodeid hd; hd_global_id hd; hd_flags hd;
   hd_msgdata hd; hd_msgdata2 hd].

Definition header_of_fields (l : list Z) : option dlm_header :=
  match l with
  | [r0; r1; r2; ty; nid; to; gid; fl; d1; d2] => Some (mkHd (r0, r1, r2) ty nid to gid fl d1 d2)
  | _ => None
  end.

(** A header as it should arrive: sent with its own version, sender and lockspace. *)
#[export] Program Instance header_struct : Struct dlm_header := {
  sizes := [2; 2; 2; 2; 4; 4; 4; 4; 4; 4]%nat;
  typed := header_typed;
  to_fields := header_fields;
  of_fields := header_of_fields;
  swap_out h hd := header_out h (hd_version hd) (hd_nodeid hd) (hd_global_id hd) hd;
  swap_in := dlm_header_in
}.
Next Obligation. intros [[[r0 r1] r2]]; unfold header_typed; simpl; intros. wire_fields. Qed.
Next Obligation.
  intros h [[[r0 r1] r2]]; unfold header_typed; simpl; intros.
  rewrite (wrap_small 32) by intuition. wire_swap.
Qed.
Next Obligation. intros h [[[r0 r1] r2]]; unfold header_typed; simpl; intros. wire_swap. Qed.

Definition ls_info_typed (li : ls_info) : Prop :=
  in_u 32 (li_ls_info_size li) /\ in_u 32 (li_id_info_size li) /\
  in_u 32 (li_id_info_count li) /\ in_u 32 (li_started_count li) /\
  i32 (li_member_count li) /\ i32 (li_joined_count li) /\ i32 (li_remove_count li) /\
  i32 (li_failed_count li).

Definition ls_info_fields (li : ls_info) : list Z :=
  [li_ls_info_size li; li_id_info_size li; li_id_info_count li; li_started_count li;
   u32 (li_member_count li); u32 (li_joined_count li); u32 (li_remove_count li);
   u32 (li_failed_count li)].

Definition ls_info_of_fields (l : list Z) : option ls_info :=
  match l with
  | [a; b; c; d; m; j; r; f] => Some (mkLi a b c d (s32 m) (s32 j) (s32 r) (s32 f))
  | _ => None
  end.

#[export] Program Instance ls_info_struct : Struct ls_info := {
  sizes := [4; 4; 4; 4; 4; 4; 4; 4]%nat;
  typed := ls_info_typed;
  to_fields := ls_info_fields;
  of_fields := ls_info_of_fields;
  swap_out := ls_info_out;
  swap_in := ls_info_in
}.
Next Obligation. intros []; unfold ls_info_typed; simpl; intros. wire_fields. Qed.
Next Obligation.
  intros h []; unfold ls_info_typed, ls_info_fields, ls_info_out; simpl; intros. wire_swap.
Qed.
Next Obligation. intros h []; unfold ls_info_typed, ls_info_in; simpl; intros. wire_swap. Qed.

Lemma send_header_length h hd : header_typed hd -> length (send_struct h hd) = 32%nat.
Proof.
  intros Ht. rewrite send_struct_bytes by done. destruct hd as [[[? ?] ?]].
  cbn [to_fields header_struct header_fields hd_version hd_type sizes].
  cbn [store_fields store]. by rewrite !length_app, !le_bytes_length.
Qed.

Lemma skipn_message (hb pad rest : list Z) : length hb = 32%nat -> length pad = 8%nat ->
  skipn 40 (hb ++ pad ++ rest) = rest.
Proof.
  intros H1 H2. rewrite app_assoc, skipn_app, length_app, H1, H2.
  rewrite skipn_all2 by (rewrite length_app; lia). done.
Qed.

(** Whatever the byte orders of the two hosts, a plock message is received as
    it was sent: the header with the sender's version, nodeid and lockspace, and
    after its 40 bytes (8 of them padding) the operation with all its fields. *)
Theorem plock_message_roundtrip h h' (hd : dlm_header) (i : dlm_plock_info) pad
  (Hh : header_typed hd) (Hi : info_typed i) (Hp : length pad = 8%nat) :
  let bytes := send_struct h hd ++ pad ++ send_struct h i in
  recv_struct h' bytes = Some hd /\ recv_struct h' (skipn 40 bytes) = Some i.
Proof.
  cbv zeta. split; [by apply recv_send|].
  rewrite skipn_message by (done || by apply send_header_length).
  rewrite <- (app_nil_r (send_struct h i)). by apply recv_send.
Qed.

Lemma plock_message_roundtrip_witness :
  let hd := mkHd (1, 1, 1) 3 2 0 77 0 5 0 in
  let i := ex_info 1 1 1 (-2) 0 99 7 in
  let bytes := send_struct BigEndian hd ++ repeat 0 8 ++ send_struct BigEndian i in
  recv_struct LittleEndian bytes = Some hd /\
  recv_struct LittleEndian (skipn 40 bytes) = Some i.
Proof.
  apply (plock_message_roundtrip BigEndian LittleEndian (mkHd (1, 1, 1) 3 2 0 77 0 5 0)
    (ex_info 1 1 1 (-2) 0 99 7) (repeat 0 8)).
  - unfold header_typed, in_u; simpl; lia.
  - unfold info_typed, i32, in_u, in_s; simpl; lia.
  - reflexivity.
Defined.

(** The [id_info] entries, one [int] each. *)
Definition send_ids (h : host) (ids : list Z) : list Z :=
  mbind (fun n => store h 4 (u32 (s_cpu_to_le32 h n))) ids.

Fixpoint recv_ids (h : host) (count : nat) (l : list Z) : list Z :=
  match count with
  | O => []
  | S c => s32 (load h (firstn 4 l)) :: recv_ids h c (skipn 4 l)
  end.

Lemma recv_send_ids h h' ids : Forall i32 ids ->
  ids_in h' (recv_ids h' (length ids) (send_ids h ids)) = ids.
Proof.
  induction 1 as [|n ids Hn Hids IH]; [done|].
  cbn [length recv_ids]. unfold send_ids. cbn [mbind list_bind].
  fold (send_ids h ids). rewrite u32_s_cpu_to_le32, store_cpu_to_le.
  rewrite firstn_app, skipn_app, le_bytes_length, Nat.sub_diag.
  rewrite firstn_all2, skipn_all2 by (by rewrite le_bytes_length).
  rewrite firstn_O, skipn_O, app_nil_r, app_nil_l.
  rewrite load_le_bytes by (apply (wrap_range 32); lia).
  cbn [ids_in map]. rewrite s_le32_cpu by done. by f_equal.
Qed.

Lemma send_ls_info_length h li : ls_info_typed li -> length (send_struct h li) = 32%nat.
Proof.
  intros Ht. rewrite send_struct_bytes by done. destruct li.
  cbn [to_fields ls_info_struct sizes]. unfold ls_info_fields.
  cbn [store_fields store]. by rewrite !length_app, !le_bytes_length.
Qed.

(** A start or plocks-stored message is received as it was sent, between hosts
    of any byte order: header, lockspace information and the list of members. *)
Theorem start_message_roundtrip h h' (hd : dlm_header) (li : ls_info) (ids : list Z) pad
  (Hh : header_typed hd) (Hl : ls_info_typed li) (Hi : Forall i32 ids)
  (Hc : li_id_info_count li = Z.of_nat (length ids)) (Hp : length pad = 8%nat) :
  let bytes := send_struct h hd ++ pad ++ send_struct h li ++ send_ids h ids in
  recv_struct h' bytes = Some hd /\ recv_struct h' (skipn 40 bytes) = Some li /\
  ids_in h' (recv_ids h' (Z.to_nat (li_id_info_count li)) (skipn 72 bytes)) = ids.
Proof.
  cbv zeta. split; [by apply recv_send|].
  change 72%nat with (32 + 40)%nat. rewrite <- skipn_skipn.
  rewrite skipn_message by (done || by apply send_header_length).
  split; [by apply recv_send|].
  rewrite skipn_app, skipn_all2 by (rewrite send_ls_info_length by done; lia).
  rewrite send_ls_info_length by done. rewrite Nat.sub_diag, skipn_O, app_nil_l.
  rewrite Hc, Nat2Z.id. by apply recv_send_ids.
Qed.

Lemma start_message_roundtrip_witness :
  let hd := mkHd (1, 1, 1) 2 2 0 77 1 5 0 in
  let li := mkLi 32 4 3 1 3 1 0 0 in
  let bytes :=
    send_struct LittleEndian hd ++ repeat 0 8 ++ send_struct LittleEndian li ++
    send_ids LittleEndian [1; 2; 300] in
  recv_struct BigEndian bytes = Some hd /\ recv_struct BigEndian (skipn 40 bytes) = Some li /\
  ids_in BigEndian (recv_ids BigEndian (Z.to_nat (li_id_info_count li)) (skipn 72 bytes)) =
    [1; 2; 300].
Proof.
  apply (start_message_roundtrip LittleEndian BigEndian (mkHd (1, 1, 1) 2 2 0 77 1 5 0)
    (mkLi 32 4 3 1 3 1 0 0) [1; 2; 300] (repeat 0 8)).
  - unfold header_typed, in_u; simpl; lia.
  - unfold ls_info_typed, i32, in_u, in_s; simpl; lia.
  - repeat constructor; simpl; lia.
  - reflexivity.
  - reflexivity.
Defined.
