(* ===== verification/Deadlock.v ===== *)
(** * Distributed deadlock detection of dlm_controld

    The model of [group/dlm_controld/deadlock.c].  The nodes of a lockspace
    run a cycle: each reads its locks from debugfs, writes them to a checkpoint
    and tells the others that it is ready; when all nodes of the cycle are
    ready, the node with the lowest id combines the locks to transactions,
    builds the graph of which transaction waits for which, reduces it and
    cancels a transaction when something remains.

    - [pack_lock], [dlm_lkb], [dlm_rsb] and [trans] are the structures of the
      file.  Objects that the code compares or finds by pointer carry an
      address ([lk_addr], [rs_addr], [tr_addr]); the addresses of a run are
      numbered in the order of the allocations.
    - The fields [trans] and [waitfor_trans] of a lock, which only the graph
      code writes, are the maps [g_ltrans] and [g_wft] from lock addresses.
    - Functions that can follow a null or dangling pointer, or index outside
      an array, return an [option]: [None] is the daemon dying.
    - What debugfs and the checkpoint service hand back is an input, messages
      and calls of libdlm are effects; [malloc] takes its results from a
      [mem]. *)

From S2P Require Import Prelude PlockWire.
From stdpp Require Import gmap.
Open Scope Z_scope.

(** ** Data *)

Definition LOCAL_COPY : Z := 1.
Definition MASTER_COPY : Z := 2.
Definition DLM_LKSTS_WAITING : Z := 1.
Definition DLM_LKSTS_GRANTED : Z := 2.
Definition DLM_LKSTS_CONVERT : Z := 3.
Definition IFL_MSTCPY : Z := 65536.
Definition TR_NALLOC : nat := 4.
Definition DLM_RESNAME_MAXLEN : Z := 64.

Record pack_lock := mkPl {
  pl_xid : Z; pl_id : Z; pl_nodeid : Z; pl_remid : Z; pl_ownpid : Z;
  pl_exflags : Z; pl_flags : Z; pl_status : Z; pl_grmode : Z; pl_rqmode : Z;
  pl_copy : Z
}.

Record dlm_lkb := mkLkb {
  lk_addr : nat;
  lk_lock : pack_lock;
  lk_home : Z;
  lk_rsb : nat      (* the address of the resource *)
}.

Record dlm_rsb := mkRsb {
  rs_addr : nat;
  rs_name : list Z;
  rs_len : Z;
  rs_locks : list dlm_lkb
}.

(** The counters are [int]s that count transactions; [waitfor] is [None] for
    the null pointer and its null slots are [None]. *)
Record trans := mkTr {
  tr_addr : nat;
  tr_xid : Z;
  tr_locks : list dlm_lkb;
  tr_others : Z;
  tr_alloc : nat;
  tr_count : nat;
  tr_waitfor : option (list (option nat))
}.

(** The rows and columns are the modes UN (-1), NL, CR, CW, PR, PW, EX, PD. *)
Definition dlm_compat_matrix : list (list Z) :=
  [[1; 1; 1; 1; 1; 1; 1; 0];
   [1; 1; 1; 1; 1; 1; 1; 0];
   [1; 1; 1; 1; 1; 1; 0; 0];
   [1; 1; 1; 1; 0; 0; 0; 0];
   [1; 1; 1; 0; 1; 0; 0; 0];
   [1; 1; 1; 0; 0; 0; 0; 0];
   [1; 1; 0; 0; 0; 0; 0; 0];
   [0; 0; 0; 0; 0; 0; 0; 0]].

Definition index {A} (l : list A) (i : Z) : option A :=
  if i <? 0 then None else l !! Z.to_nat i.

Definition dlm_modes_compat (mode1 mode2 : Z) : option Z :=
  row ← index dlm_compat_matrix (mode1 + 1); index row (mode2 + 1).

(** ** Collecting the locks *)

(** [strncmp] finding no difference in the first [n] bytes; the bytes after
    the end of a list are the terminating zeros. *)
Fixpoint strneq (n : nat) (a b : list Z) : bool :=
  match n with
  | O => true
  | S n' =>
      let x := default 0 (head a) in
      let y := default 0 (head b) in
      if negb (x =? y) then false
      else if x =? 0 then true
      else strneq n' (tail a) (tail b)
  end.

Definition rsb_match (name : list Z) (len : Z) (r : dlm_rsb) : bool :=
  (rs_len r =? len) && strneq (Z.to_nat len) (rs_name r) name.

(** The locks read so far and the next free address. *)
Record locks_state := mkLs {
  ls_resources : list dlm_rsb;
  ls_next : nat
}.

(** The address of the resource of that name, which is created at the head of
    the list when there is none; [None] when memory runs out. *)
Definition get_resource (m : mem) (ls : locks_state) (name : list Z) (len : Z)
    : option nat * mem * locks_state :=
  match List.find (rsb_match name len) (ls_resources ls) with
  | Some r => (Some (rs_addr r), m, ls)
  | None =>
      match malloc m with
      | (None, m') => (None, m', ls)
      | (Some _, m') =>
          let a := ls_next ls in
          (Some a, m',
           mkLs (mkRsb a (take (Z.to_nat len) name) len [] :: ls_resources ls) (S a))
      end
  end.

Definition set_copy (our_nodeid : Z) (lock : pack_lock) : pack_lock :=
  let '(mkPl xid id nodeid remid ownpid exflags flags status gr rq copy) := lock in
  if nodeid =? 0 then
    mkPl xid id nodeid remid ownpid exflags flags status gr rq LOCAL_COPY
  else if c_true (Z.land flags IFL_MSTCPY) then
    mkPl xid id nodeid remid ownpid exflags flags status gr rq MASTER_COPY
  else
    mkPl xid remid our_nodeid id ownpid exflags flags status gr rq MASTER_COPY.

Definition partial_master_copy (lock : pack_lock) : bool := negb (pl_xid lock =? 0).

Definition zero_lock : pack_lock := mkPl 0 0 0 0 0 0 0 0 0 0 0.

Definition same_lock (lock : pack_lock) (lkb : dlm_lkb) : bool :=
  (pl_nodeid (lk_lock lkb) =? pl_nodeid lock) && (pl_id (lk_lock lkb) =? pl_id lock).

(** The lock of the resource that the new data is about, if it is known. *)
Definition get_lkb (r : dlm_rsb) (lock : pack_lock) : option dlm_lkb :=
  if negb (pl_copy lock =? MASTER_COPY) then None
  else List.find (same_lock lock) (rs_locks r).

(** The [switch] of [add_lock]: the fields the new data sets. *)
Definition add_lock_fields (from_nodeid : Z) (lock : pack_lock) (lkb : dlm_lkb) : dlm_lkb :=
  let old := lk_lock lkb in
  if pl_copy lock =? LOCAL_COPY then
    mkLkb (lk_addr lkb)
      (mkPl (pl_xid lock) (pl_id lock) (pl_nodeid lock) (pl_remid lock)
         (pl_ownpid lock) (pl_exflags lock) (pl_flags lock) (pl_status lock)
         (pl_grmode lock) (pl_rqmode lock) LOCAL_COPY)
      from_nodeid (lk_rsb lkb)
  else if pl_copy lock =? MASTER_COPY then
    mkLkb (lk_addr lkb)
      (if partial_master_copy lock then
         mkPl (pl_xid lock) (pl_id lock) (pl_nodeid lock) (pl_remid lock)
           (pl_ownpid old) (pl_exflags old) (pl_flags old) (pl_status old)
           (pl_grmode old) (pl_rqmode old) MASTER_COPY
       else
         mkPl (pl_xid old) (pl_id lock) (pl_nodeid lock) (pl_remid lock)
           (pl_ownpid lock) (pl_exflags lock) (pl_flags lock) (pl_status lock)
           (pl_grmode lock) (pl_rqmode lock) MASTER_COPY)
      (pl_nodeid lock) (lk_rsb lkb)
  else lkb.

Definition upd_lkb (a : nat) (f : dlm_lkb -> dlm_lkb) (l : list dlm_lkb) : list dlm_lkb :=
  map (fun k => if bool_decide (lk_addr k = a) then f k else k) l.

Definition upd_rsb (a : nat) (f : dlm_rsb -> dlm_rsb) (l : list dlm_rsb) : list dlm_rsb :=
  map (fun r => if bool_decide (rs_addr r = a) then f r else r) l.

Definition rs_set_locks (l : list dlm_lkb) (r : dlm_rsb) : dlm_rsb :=
  mkRsb (rs_addr r) (rs_name r) (rs_len r) l.

Definition find_rsb (a : nat) (l : list dlm_rsb) : option dlm_rsb :=
  List.find (fun r => bool_decide (rs_addr r = a)) l.

(** [add_lock] on the resource at address [ra]: the lock found is updated in
    place; a new one is filled from zeroed memory and put at the head of the
    list of the resource. *)
Definition add_lock (m : mem) (ls : locks_state) (ra : nat) (from_nodeid : Z)
    (lock : pack_lock) : mem * locks_state :=
  match find_rsb ra (ls_resources ls) with
  | None => (m, ls)
  | Some r =>
      match get_lkb r lock with
      | Some lkb =>
          (m, mkLs (upd_rsb ra (fun r =>
                      rs_set_locks (upd_lkb (lk_addr lkb) (add_lock_fields from_nodeid lock)
                                      (rs_locks r)) r)
                      (ls_resources ls)) (ls_next ls))
      | None =>
          match malloc m with
          | (None, m') => (m', ls)
          | (Some _, m') =>
              let new := mkLkb (ls_next ls) zero_lock 0 ra in
              (m', mkLs (upd_rsb ra (fun r =>
                           rs_set_locks (add_lock_fields from_nodeid lock new :: rs_locks r) r)
                           (ls_resources ls)) (S (ls_next ls)))
          end
      end
  end.

(** [purge_locks]: the locks of a node that left are dropped. *)
Definition purge_locks (nodeid : Z) (l : list dlm_rsb) : list dlm_rsb :=
  map (fun r => rs_set_locks (filter (fun k => lk_home k <> nodeid) (rs_locks r)) r) l.

(** The name between the first two quotation marks of a debugfs line, [None]
    when the loop runs past the end of the line or of the 65 bytes of the
    result. *)
Fixpoint parse_name_loop (line name : list Z) (begun : bool) : option (list Z) :=
  match line with
  | [] => None
  | c :: line' =>
      if c =? 34 then (if begun then Some name else parse_name_loop line' name true)
      else if begun then
        if (length name <? 65)%nat then parse_name_loop line' (name ++ [c]) begun else None
      else parse_name_loop line' name begun
  end.

Definition parse_r_name (line : list Z) : option (list Z) := parse_name_loop line [] false.

(** A line of debugfs: its text and, when [sscanf] converts all 13 numbers,
    the lock and the length of the resource name. *)
Record dbg_line := mkDbg {
  dbg_text : list Z;
  dbg_fields : option (pack_lock * Z)
}.

(** The loop over the lines after the header: it ends at a line that is not
    valid or when there is no memory for a resource. *)
Fixpoint debugfs_loop (our_nodeid : Z) (m : mem) (ls : locks_state) (lines : list dbg_line)
    : option (mem * locks_state) :=
  match lines with
  | [] => Some (m, ls)
  | d :: lines' =>
      match dbg_fields d with
      | None => Some (m, ls)
      | Some (lock, r_len) =>
          name ← parse_r_name (dbg_text d);
          match get_resource m ls name r_len with
          | (None, m', ls') => Some (m', ls')
          | (Some r, m', ls') =>
              let '(m2, ls2) := add_lock m' ls' r our_nodeid (set_copy our_nodeid lock) in
              debugfs_loop our_nodeid m2 ls2 lines'
          end
      end
  end.

(** [file] is [None] when the file cannot be opened; the flag says whether the
    function returned 0. *)
Definition read_debugfs_locks (our_nodeid : Z) (m : mem) (ls : locks_state)
    (file : option (list dbg_line)) : option (bool * mem * locks_state) :=
  match file with
  | None => Some (false, m, ls)
  | Some [] => Some (true, m, ls)
  | Some (_ :: lines) =>
      '(m', ls') ← debugfs_loop our_nodeid m ls lines; Some (true, m', ls')
  end.

(** ** Checkpoints

    A section holds the locks of one resource in the byte order of the wire,
    under the name of the resource with its terminating zero. *)

Definition s8 := swrap 8.

Definition pack_lock_out (h : host) (l : pack_lock) : pack_lock :=
  mkPl (cpu_to_le64 h (pl_xid l)) (cpu_to_le32 h (pl_id l)) (s_cpu_to_le32 h (pl_nodeid l))
    (cpu_to_le32 h (pl_remid l)) (s_cpu_to_le32 h (pl_ownpid l))
    (cpu_to_le32 h (pl_exflags l)) (cpu_to_le32 h (pl_flags l))
    (pl_status l) (pl_grmode l) (pl_rqmode l) (pl_copy l).

Definition pack_lock_in (h : host) (l : pack_lock) : pack_lock :=
  mkPl (le64_to_cpu h (pl_xid l)) (le32_to_cpu h (pl_id l)) (s_le32_to_cpu h (pl_nodeid l))
    (le32_to_cpu h (pl_remid l)) (s_le32_to_cpu h (pl_ownpid l))
    (le32_to_cpu h (pl_exflags l)) (le32_to_cpu h (pl_flags l))
    (pl_status l) (pl_grmode l) (pl_rqmode l) (pl_copy l).

(** [sizeof(section_buf) / sizeof(struct pack_lock)]. *)
Definition section_max : nat := Z.to_nat (10 * 1024 * 1024 / 40).

(** [pack_lkb_list] as the structures it leaves in the buffer. *)
Definition pack_lkb_list (h : host) (q : list dlm_lkb) : list pack_lock :=
  map (fun k => pack_lock_out h (lk_lock k)) (take section_max q).

(** The bytes of a string up to its terminating zero. *)
Fixpoint c_str (l : list Z) : list Z :=
  match l with
  | [] => []
  | c :: l' => if c =? 0 then [] else c :: c_str l'
  end.

(** A section of the service: its identifier, the length of the identifier
    and the structures it holds. *)
Record section := mkSec {
  sec_id : list Z;
  sec_idlen : Z;
  sec_locks : list pack_lock
}.

(** The section [write_checkpoint] creates for a resource: [snprintf] cuts the
    name to the 64 bytes of [buf] with the zero, and returns the length of the
    whole name. *)
Definition resource_section (h : host) (r : dlm_rsb) : section :=
  let name := c_str (rs_name r) in
  mkSec (take 63 name) (Z.of_nat (length name) + 1) (pack_lkb_list h (rs_locks r)).

(** The loop of [read_checkpoint_locks]. *)
Fixpoint read_locks_loop (h : host) (m : mem) (ls : locks_state) (r : nat) (from_nodeid : Z)
    (locks : list pack_lock) : mem * locks_state :=
  match locks with
  | [] => (m, ls)
  | lock :: locks' =>
      let '(m', ls') := add_lock m ls r from_nodeid (pack_lock_in h lock) in
      read_locks_loop h m' ls' r from_nodeid locks'
  end.

Definition read_checkpoint_locks (h : host) (m : mem) (ls : locks_state) (from_nodeid : Z)
    (s : section) : mem * locks_state :=
  match get_resource m ls (sec_id s) (sec_idlen s - 1) with
  | (None, m', ls') => (m', ls')
  | (Some r, m', ls') => read_locks_loop h m' ls' r from_nodeid (sec_locks s)
  end.

(** What the iteration over the sections of a checkpoint meets: a section of
    no or of a bad length, which is skipped, a call that fails, which ends the
    iteration, or a section that is read. *)
Inductive ck_item :=
  | CkSkip
  | CkError
  | CkSection (s : section).

Fixpoint read_checkpoint_loop (h : host) (m : mem) (ls : locks_state) (nodeid : Z)
    (items : list ck_item) : mem * locks_state :=
  match items with
  | [] => (m, ls)
  | CkSkip :: items' => read_checkpoint_loop h m ls nodeid items'
  | CkError :: _ => (m, ls)
  | CkSection s :: items' =>
      let '(m', ls') := read_checkpoint_locks h m ls nodeid s in
      read_checkpoint_loop h m' ls' nodeid items'
  end.

(** [ckpt] is [None] when the checkpoint or its iteration cannot be opened. *)
Definition read_checkpoint (h : host) (our_nodeid : Z) (m : mem) (ls : locks_state) (nodeid : Z)
    (ckpt : option (list ck_item)) : mem * locks_state :=
  if nodeid =? our_nodeid then (m, ls)
  else match ckpt with
       | None => (m, ls)
       | Some items => read_checkpoint_loop h m ls nodeid items
       end.

(** ** The waits-for graph *)

Record graph := mkG {
  g_trans : list trans;
  g_ltrans : gmap nat nat;    (* [lkb->trans] *)
  g_wft : gmap nat nat;       (* [lkb->waitfor_trans] *)
  g_next : nat
}.

Definition find_tr (a : nat) (l : list trans) : option trans :=
  List.find (fun t => bool_decide (tr_addr t = a)) l.

Definition upd_tr (a : nat) (f : trans -> trans) (l : list trans) : list trans :=
  map (fun t => if bool_decide (tr_addr t = a) then f t else t) l.

Definition g_set_trans (g : graph) (l : list trans) : graph :=
  mkG l (g_ltrans g) (g_wft g) (g_next g).

Definition tr_add_lock (k : dlm_lkb) (t : trans) : trans :=
  mkTr (tr_addr t) (tr_xid t) (k :: tr_locks t) (tr_others t) (tr_alloc t) (tr_count t)
    (tr_waitfor t).

Definition tr_add_others (d : Z) (t : trans) : trans :=
  mkTr (tr_addr t) (tr_xid t) (tr_locks t) (tr_others t + d) (tr_alloc t) (tr_count t)
    (tr_waitfor t).

Definition tr_set_waitfor (alloc count : nat) (w : option (list (option nat))) (t : trans)
    : trans :=
  mkTr (tr_addr t) (tr_xid t) (tr_locks t) (tr_others t) alloc count w.

Definition add_lkb_trans (g : graph) (a : nat) (k : dlm_lkb) : graph :=
  mkG (upd_tr a (tr_add_lock k) (g_trans g)) (<[lk_addr k := a]> (g_ltrans g)) (g_wft g)
    (g_next g).

Definition get_trans (m : mem) (g : graph) (xid : Z) : option nat * mem * graph :=
  match List.find (fun t => tr_xid t =? xid) (g_trans g) with
  | Some t => (Some (tr_addr t), m, g)
  | None =>
      match malloc m with
      | (None, m') => (None, m', g)
      | (Some _, m') =>
          let a := g_next g in
          (Some a, m',
           mkG (mkTr a xid [] 0 0 0 None :: g_trans g) (g_ltrans g) (g_wft g) (S a))
      end
  end.

(** The loops of [create_trans_list]; the flag is false when the [goto] was
    taken. *)
Fixpoint trans_list_locks (m : mem) (g : graph) (locks : list dlm_lkb) : bool * mem * graph :=
  match locks with
  | [] => (true, m, g)
  | k :: locks' =>
      match get_trans m g (pl_xid (lk_lock k)) with
      | (None, m', g') => (false, m', g')
      | (Some a, m', g') => trans_list_locks m' (add_lkb_trans g' a k) locks'
      end
  end.

Fixpoint create_trans_list (m : mem) (g : graph) (rs : list dlm_rsb) : mem * graph :=
  match rs with
  | [] => (m, g)
  | r :: rs' =>
      match trans_list_locks m g (rs_locks r) with
      | (false, m', g') => (m', g')
      | (true, m', g') => create_trans_list m' g' rs'
      end
  end.

(** [lkb->trans] as the transaction it points to. *)
Definition lkb_trans (g : graph) (k : dlm_lkb) : option trans :=
  a ← g_ltrans g !! lk_addr k; find_tr a (g_trans g).

Definition locks_compat (g : graph) (waiting granted : dlm_lkb) : option Z :=
  if bool_decide (lk_addr waiting = lk_addr granted) then Some 0
  else
    tw ← lkb_trans g waiting;
    tg ← lkb_trans g granted;
    if tr_xid tw =? tr_xid tg then Some 0
    else dlm_modes_compat (pl_grmode (lk_lock granted)) (pl_rqmode (lk_lock waiting)).

(** [in_waitfor]: the loop reads [waitfor_alloc] slots. *)
Definition in_waitfor (t : trans) (a : nat) : option bool :=
  if (tr_alloc t =? 0)%nat then Some false
  else w ← tr_waitfor t; Some (bool_decide (Some a ∈ w)).

(** The growth of the array when it is full: [None] is the early return
    when memory runs out, with the state it leaves. *)
Definition grow_waitfor (m : mem) (t : trans) : option (option (list (option nat))) * mem * trans :=
  if (tr_count t =? tr_alloc t)%nat then
    let alloc := (tr_alloc t + TR_NALLOC)%nat in
    match malloc m with
    | (None, m') => (None, m', tr_set_waitfor alloc (tr_count t) None t)
    | (Some _, m') =>
        let old := default [] (tr_waitfor t) in
        let w := take (tr_count t) old ++ replicate (alloc - tr_count t) None in
        (Some (Some w), m', tr_set_waitfor alloc (tr_count t) (Some w) t)
    end
  else (Some (tr_waitfor t), m, t).

Definition add_waitfor (m : mem) (g : graph) (waiting granted : dlm_lkb)
    : option (mem * graph) :=
  compat ← locks_compat g waiting granted;
  if c_true compat then Some (m, g)
  else
    t ← lkb_trans g waiting;
    tg ← lkb_trans g granted;
    if bool_decide (tr_addr t = tr_addr tg) then Some (m, g)
    else
      already ← (if (tr_count t =? 0)%nat then Some false else in_waitfor t (tr_addr tg));
      if already : bool then Some (m, g)
      else
        match grow_waitfor m t with
        | (None, m', t') =>
            Some (m', g_set_trans g (upd_tr (tr_addr t) (fun _ => t') (g_trans g)))
        | (Some w, m', t') =>
            slots ← w;
            if (tr_count t <? length slots)%nat then
              let t2 := tr_set_waitfor (tr_alloc t') (S (tr_count t))
                          (Some (<[tr_count t := Some (tr_addr tg)]> slots)) t' in
              let l := upd_tr (tr_addr t) (fun _ => t2) (g_trans g) in
              Some (m', mkG (upd_tr (tr_addr tg) (tr_add_others 1) l) (g_ltrans g)
                          (<[lk_addr waiting := tr_addr tg]> (g_wft g)) (g_next g))
            else None
        end.

(** The three loops of [create_waitfor_graph], the innermost one first. *)
Fixpoint waitfor_granted (m : mem) (g : graph) (waiting : dlm_lkb) (locks : list dlm_lkb)
    : option (mem * graph) :=
  match locks with
  | [] => Some (m, g)
  | k :: locks' =>
      if pl_status (lk_lock k) =? DLM_LKSTS_WAITING then waitfor_granted m g waiting locks'
      else '(m', g') ← add_waitfor m g waiting k; waitfor_granted m' g' waiting locks'
  end.

Fixpoint waitfor_locks (rs : list dlm_rsb) (m : mem) (g : graph) (locks : list dlm_lkb)
    : option (mem * graph) :=
  match locks with
  | [] => Some (m, g)
  | k :: locks' =>
      if pl_status (lk_lock k) =? DLM_LKSTS_GRANTED then waitfor_locks rs m g locks'
      else
        r ← find_rsb (lk_rsb k) rs;
        '(m', g') ← waitfor_granted m g k (rs_locks r);
        waitfor_locks rs m' g' locks'
  end.

Fixpoint waitfor_trans (rs : list dlm_rsb) (m : mem) (g : graph) (trs : list trans)
    : option (mem * graph) :=
  match trs with
  | [] => Some (m, g)
  | t :: trs' => '(m', g') ← waitfor_locks rs m g (tr_locks t); waitfor_trans rs m' g' trs'
  end.

(** The loop runs over the transactions, whose list and locks it does not
    change. *)
Definition create_waitfor_graph (rs : list dlm_rsb) (m : mem) (g : graph)
    : option (mem * graph) :=
  waitfor_trans rs m g (g_trans g).

(** ** Reduction *)

(** The loop of [remove_waitfor] over the slots, with the number of slots in use
    and the number of transactions that wait for the removed one. *)
Fixpoint remove_slots (a : nat) (slots : list (option nat)) (count : nat) (others : Z)
    : list (option nat) * nat * Z :=
  match slots with
  | [] => ([], count, others)
  | s :: slots' =>
      if (count =? 0)%nat then (slots, count, others)
      else if bool_decide (s = Some a) then
        let '(w, c, o) := remove_slots a slots' (count - 1) (others - 1) in (None :: w, c, o)
      else
        let '(w, c, o) := remove_slots a slots' count others in (s :: w, c, o)
  end.

Definition remove_waitfor (t : trans) (a : nat) (others : Z) : option (trans * Z) :=
  if (tr_count t =? 0)%nat then Some (t, others)
  else
    slots ← tr_waitfor t;
    let '(w, c, o) := remove_slots a slots (tr_count t) others in
    Some (tr_set_waitfor (tr_alloc t) c (Some w) t, o).

(** The loop of [remove_trans], with the count of the removed transaction. *)
Fixpoint remove_trans (a : nat) (others : Z) (l : list trans) : option (list trans) :=
  match l with
  | [] => Some []
  | t :: l' =>
      if bool_decide (tr_addr t = a) then
        l2 ← remove_trans a others l'; Some (t :: l2)
      else if others =? 0 then Some (t :: l')
      else
        '(t', o) ← remove_waitfor t a others;
        l2 ← remove_trans a o l'; Some (t' :: l2)
  end.

(** One pass over the transactions, given by their addresses: the pass
    removes the current one only. *)
Fixpoint reduce_pass (addrs : list nat) (l : list trans) (removed : nat)
    : option (list trans * nat) :=
  match addrs with
  | [] => Some (l, removed)
  | a :: addrs' =>
      t ← find_tr a l;
      if negb (tr_count t =? 0)%nat then reduce_pass addrs' l removed
      else
        l' ← remove_trans a (tr_others t) l;
        reduce_pass addrs' (filter (fun u => tr_addr u <> a) l') (S removed)
  end.

Definition reduce_waitfor_graph (l : list trans) : option (list trans * nat) :=
  reduce_pass (map tr_addr l) l 0.

(** The passes go on while one removes something; [fuel] bounds them. *)
Fixpoint reduce_loop (fuel : nat) (l : list trans) : option (list trans) :=
  match fuel with
  | O => None
  | S fuel' =>
      '(l', removed) ← reduce_waitfor_graph l;
      if (removed =? 0)%nat then Some l' else reduce_loop fuel' l'
  end.

Definition reduce_waitfor_graph_loop (l : list trans) : option (list trans) :=
  reduce_loop (S (length l)) l.

(** ** Cancelling *)

(** Messages to the group and calls of libdlm. *)
Inductive dl_msg := CHECKPOINT_READY | CYCLE_START | CYCLE_END | CANCEL_LOCK.

Inductive dl_effect :=
  | DSend (type : dl_msg) (to_nodeid msgdata : Z)
  | DWriteCheckpoint (sections : list section)
  | DUnlinkCheckpoint
  | DDeadlockCancel (lkid : Z).

(** Effects are kept in the order of the calls. *)
Definition send_message (m : mem) (out : list dl_effect) (type : dl_msg) (to_nodeid msgdata : Z)
    : mem * list dl_effect :=
  match malloc m with
  | (None, m') => (m', out)
  | (Some _, m') => (m', out ++ [DSend type to_nodeid msgdata])
  end.

Definition send_cancel_lock (m : mem) (out : list dl_effect) (k : dlm_lkb)
    : mem * list dl_effect :=
  let lkid := if pl_nodeid (lk_lock k) =? 0 then pl_id (lk_lock k) else pl_remid (lk_lock k) in
  send_message m out CANCEL_LOCK (u32 (lk_home k)) lkid.

Definition find_trans_to_cancel (l : list trans) : option trans :=
  List.find (fun t => negb (tr_others t =? 0)) l.

(** [remove_waitfor(tr, lkb->waitfor_trans)] on transactions of the list.  The
    transaction pointed to can be gone: it is then in no slot. *)
Definition remove_waitfor_of (a b : nat) (l : list trans) : option (list trans) :=
  t ← find_tr a l;
  let others := from_option tr_others 0 (find_tr b l) in
  '(t', o) ← remove_waitfor t b others;
  Some (upd_tr b (tr_add_others (o - others)) (upd_tr a (fun _ => t') l)).

(** The loop of [cancel_trans] over the locks of the transaction at [a]. *)
Fixpoint cancel_locks (wft : gmap nat nat) (a : nat) (m : mem) (l : list trans)
    (out : list dl_effect) (locks : list dlm_lkb) : option (mem * list trans * list dl_effect) :=
  match locks with
  | [] => Some (m, l, out)
  | k :: locks' =>
      if pl_status (lk_lock k) =? DLM_LKSTS_GRANTED then cancel_locks wft a m l out locks'
      else
        let '(m', out') := send_cancel_lock m out k in
        l' ← (match wft !! lk_addr k with
              | Some b => remove_waitfor_of a b l
              | None => Some l
              end);
        cancel_locks wft a m' l' out' locks'
  end.

Definition cancel_trans (m : mem) (g : graph) (out : list dl_effect)
    : option (mem * list trans * list dl_effect) :=
  match find_trans_to_cancel (g_trans g) with
  | None => Some (m, g_trans g, out)
  | Some t =>
      '(m', l, out') ← cancel_locks (g_wft g) (tr_addr t) m (g_trans g) out (tr_locks t);
      '(l', _) ← reduce_waitfor_graph l;
      Some (m', l', out')
  end.

(** What [find_deadlock] logs. *)
Inductive verdict :=
  | NoResources | TransactionsLeft | NoDeadlock | Resolved | ResolutionFailed.

(** The part between the two tests and the label [out]. *)
Definition detect (rs : list dlm_rsb) (m : mem) (g : graph)
    : option (verdict * mem * graph * list dl_effect) :=
  let '(m1, g1) := create_trans_list m g rs in
  '(m2, g2) ← create_waitfor_graph rs m1 g1;
  l ← reduce_waitfor_graph_loop (g_trans g2);
  match l with
  | [] => Some (NoDeadlock, m2, g_set_trans g2 [], [])
  | _ =>
      '(m3, l3, out) ← cancel_trans m2 (g_set_trans g2 l) [];
      l4 ← reduce_waitfor_graph_loop l3;
      Some (match l4 with [] => Resolved | _ => ResolutionFailed end,
            m3, g_set_trans g2 l4, out)
  end.

Definition find_deadlock (rs : list dlm_rsb) (m : mem) (g : graph)
    : option (verdict * mem * graph * list dl_effect) :=
  '(v, m', g', out) ←
    (match rs, g_trans g with
     | [], _ => Some (NoResources, m, g, [])
     | _, _ :: _ => Some (TransactionsLeft, m, g, [])
     | _, [] => detect rs m g
     end);
  let '(m2, out2) := send_message m' out CYCLE_END 0 0 in
  Some (v, m2, g', out2).

(** ** The cycle *)

Record dl_node := mkDn {
  dn_nodeid : Z;
  dn_ready : bool;
  dn_in_cycle : bool
}.

(** The deadlock fields of [struct lockspace]. *)
Record dl_state := mkDl {
  d_nodes : list dl_node;
  d_confchg_init : bool;
  d_cycle_running : bool;
  d_all_ready : bool;
  d_low : Z;
  d_locks : locks_state;
  d_graph : graph;
  d_mem : mem
}.

Definition d_set_nodes (s : dl_state) (l : list dl_node) : dl_state :=
  mkDl l (d_confchg_init s) (d_cycle_running s) (d_all_ready s) (d_low s) (d_locks s)
    (d_graph s) (d_mem s).

Definition node_joined (s : dl_state) (nodeid : Z) : dl_state :=
  match malloc (d_mem s) with
  | (None, m') =>
      mkDl (d_nodes s) (d_confchg_init s) (d_cycle_running s) (d_all_ready s) (d_low s)
        (d_locks s) (d_graph s) m'
  | (Some _, m') =>
      mkDl (d_nodes s ++ [mkDn nodeid false false]) (d_confchg_init s) (d_cycle_running s)
        (d_all_ready s) (d_low s) (d_locks s) (d_graph s) m'
  end.

Definition node_left (s : dl_state) (nodeid : Z) : dl_state :=
  d_set_nodes s (filter (fun n => dn_nodeid n <> nodeid) (d_nodes s)).

(** The lowest id of the nodes of the cycle, -1 when there is none. *)
Fixpoint low_node (low : Z) (l : list dl_node) : Z :=
  match l with
  | [] => low
  | n :: l' =>
      if negb (dn_in_cycle n) then low_node low l'
      else low_node (if (dn_nodeid n <? low) || (low =? -1) then dn_nodeid n else low) l'
  end.

Definition run_deadlock (our_nodeid : Z) (s : dl_state)
    : option (option verdict * dl_state * list dl_effect) :=
  if existsb (fun n => dn_in_cycle n && negb (dn_ready n)) (d_nodes s) then Some (None, s, [])
  else
    let low := low_node (-1) (d_nodes s) in
    let set g m := mkDl (d_nodes s) (d_confchg_init s) (d_cycle_running s) true low
                     (d_locks s) g m in
    if low =? our_nodeid then
      '(v, m, g, out) ← find_deadlock (ls_resources (d_locks s)) (d_mem s) (d_graph s);
      Some (Some v, set g m, out)
    else Some (None, set (d_graph s) (d_mem s), []).

Definition set_checkpoint_ready (nodeid : Z) : list dl_node -> list dl_node :=
  fix go l :=
    match l with
    | [] => []
    | n :: l' =>
        if dn_nodeid n =? nodeid then mkDn (dn_nodeid n) true (dn_in_cycle n) :: l'
        else n :: go l'
    end.

Definition d_set_locks (s : dl_state) (m : mem) (ls : locks_state) : dl_state :=
  mkDl (d_nodes s) (d_confchg_init s) (d_cycle_running s) (d_all_ready s) (d_low s) ls
    (d_graph s) m.

Definition receive_checkpoint_ready (h : host) (our_nodeid : Z) (s : dl_state) (nodeid : Z)
    (ckpt : option (list ck_item)) : option (option verdict * dl_state * list dl_effect) :=
  let '(m, ls) := read_checkpoint h our_nodeid (d_mem s) (d_locks s) nodeid ckpt in
  let s1 := d_set_locks s m ls in
  run_deadlock our_nodeid (d_set_nodes s1 (set_checkpoint_ready nodeid (d_nodes s1))).

Definition receive_cycle_start (h : host) (our_nodeid : Z) (s : dl_state)
    (file : option (list dbg_line)) : option (dl_state * list dl_effect) :=
  if d_cycle_running s then Some (s, [])
  else
    let nodes := map (fun n => mkDn (dn_nodeid n) (dn_ready n) true) (d_nodes s) in
    let s1 := mkDl nodes (d_confchg_init s) true (d_all_ready s) (d_low s) (d_locks s)
                (d_graph s) (d_mem s) in
    '(ok, m, ls) ← read_debugfs_locks our_nodeid (d_mem s1) (d_locks s1) file;
    let s2 := d_set_locks s1 m ls in
    if negb ok then Some (s2, [])
    else
      let out := [DWriteCheckpoint (map (resource_section h) (ls_resources ls))] in
      let '(m', out') := send_message m out CHECKPOINT_READY 0 0 in
      Some (d_set_locks s2 m' ls, out').

(** [free_resources] and [free_transactions] leave empty lists. *)
Definition receive_cycle_end (s : dl_state) : dl_state * list dl_effect :=
  if negb (d_cycle_running s) then (s, [])
  else
    (mkDl (map (fun n => mkDn (dn_nodeid n) false (dn_in_cycle n)) (d_nodes s))
       (d_confchg_init s) false false (d_low s) (mkLs [] (ls_next (d_locks s)))
       (g_set_trans (d_graph s) []) (d_mem s), [DUnlinkCheckpoint]).

(** [nodeid] is [hd->nodeid], the sender; [opened] says whether libdlm opened the
    lockspace. *)
Definition receive_cancel_lock (our_nodeid : Z) (opened : bool) (nodeid lkid : Z)
    : list dl_effect :=
  if negb (nodeid =? our_nodeid) then []
  else if negb opened then []
  else [DDeadlockCancel lkid].

(** The configuration change of the group, with the ids of its lists; [enable] is
    [cfgd_enable_deadlk]. *)
Definition deadlk_confchg (enable : bool) (our_nodeid : Z) (s : dl_state)
    (members left_list joined : list Z) : option (option verdict * dl_state * list dl_effect) :=
  if negb enable then Some (None, s, [])
  else if negb (d_confchg_init s) then
    let s1 := mkDl (d_nodes s) true (d_cycle_running s) (d_all_ready s) (d_low s) (d_locks s)
                (d_graph s) (d_mem s) in
    Some (None, foldl node_joined s1 members, [])
  else
    let s1 := foldl node_left (foldl node_joined s joined) left_list in
    if negb (d_cycle_running s1) then Some (None, s1, [])
    else match left_list with
         | [] => Some (None, s1, [])
         | _ =>
             if negb (d_all_ready s1) then run_deadlock our_nodeid s1
             else
               let rs := foldl (fun rs n => purge_locks n rs) (ls_resources (d_locks s1))
                           left_list in
               let s2 := d_set_locks s1 (d_mem s1) (mkLs rs (ls_next (d_locks s1))) in
               if existsb (fun n => n =? d_low s2) left_list then run_deadlock our_nodeid s2
               else Some (None, s2, [])
         end.
