(* ===== verification/DeadlockThm.v ===== *)
(** * Deadlock detection: theorems

    The waits-for graph that [create_waitfor_graph] builds is the relation
    [waits_for] between transactions, the reduction keeps exactly the
    transactions that wait for a cycle of it, and what is cancelled belongs to
    one of those.  Further: the two copies of a lock combine in any order,
    checkpoints carry locks between hosts of any byte order, and three defects
    of the resolution. *)

From S2P Require Import Prelude PlockWire Deadlock.
From stdpp Require Import gmap relations.
Open Scope Z_scope.

(** ** Lists of transactions *)

Definition addrs (l : list trans) : list nat := map tr_addr l.
Definition xids (l : list trans) : list Z := map tr_xid l.

(** The transactions that the array of a transaction points to. *)
Definition targets (t : trans) : list nat := omap id (default [] (tr_waitfor t)).

(** What the reduction leaves alone. *)
Definition same_trans (t t' : trans) : Prop :=
  tr_addr t' = tr_addr t /\ tr_xid t' = tr_xid t /\ tr_locks t' = tr_locks t.

Lemma find_tr_Some a l t : find_tr a l = Some t -> t ∈ l /\ tr_addr t = a.
Proof.
  intros H. apply List.find_some in H as [Hi Ha].
  split; [by apply list_elem_of_In|]. by apply bool_decide_eq_true in Ha.
Qed.

Lemma find_tr_elem l t : NoDup (addrs l) -> t ∈ l -> find_tr (tr_addr t) l = Some t.
Proof.
  induction l as [|u l IH]; intros Hnd Ht; [by apply not_elem_of_nil in Ht|].
  simpl in Hnd. apply NoDup_cons in Hnd as [Hu Hnd].
  unfold find_tr; cbn [List.find]. apply elem_of_cons in Ht as [->|Ht].
  - by rewrite bool_decide_eq_true_2.
  - rewrite bool_decide_eq_false_2; [by apply IH|].
    intros E. apply Hu. rewrite E. apply list_elem_of_fmap. eauto.
Qed.

Lemma map_inj {A B} (f : A -> B) (l : list A) x y :
  NoDup (map f l) -> x ∈ l -> y ∈ l -> f x = f y -> x = y.
Proof.
  induction l as [|z l IH]; intros Hnd Hx Hy E; [by apply not_elem_of_nil in Hx|].
  cbn in Hnd. apply NoDup_cons in Hnd as [Hz Hnd].
  apply elem_of_cons in Hx as [->|Hx], Hy as [->|Hy]; [done| | |by apply IH]; exfalso; apply Hz.
  - rewrite E. by apply list_elem_of_fmap_2.
  - rewrite <- E. by apply list_elem_of_fmap_2.
Qed.

Lemma addr_inj l t u : NoDup (addrs l) -> t ∈ l -> u ∈ l -> tr_addr t = tr_addr u -> t = u.
Proof. apply map_inj. Qed.

Lemma addrs_elem a l : a ∈ addrs l <-> exists t, t ∈ l /\ tr_addr t = a.
Proof. unfold addrs. rewrite list_elem_of_fmap. naive_solver. Qed.

Lemma xids_elem x l : x ∈ xids l <-> exists t, t ∈ l /\ tr_xid t = x.
Proof. unfold xids. rewrite list_elem_of_fmap. naive_solver. Qed.

Lemma upd_tr_addrs a f l : (forall t, tr_addr (f t) = tr_addr t) -> addrs (upd_tr a f l) = addrs l.
Proof.
  intros Hf. unfold addrs, upd_tr. rewrite map_map. apply map_ext. intros t.
  by case_bool_decide.
Qed.

Lemma upd_tr_elem a f l t :
  t ∈ upd_tr a f l <-> exists u, u ∈ l /\ t = (if bool_decide (tr_addr u = a) then f u else u).
Proof. unfold upd_tr. rewrite list_elem_of_fmap. naive_solver. Qed.

(** The number of transactions that point to [b]. *)
Definition indeg (l : list trans) (b : nat) : Z :=
  Z.of_nat (length (filter (fun t => b ∈ targets t) l)).

Lemma indeg_cons t l b :
  indeg (t :: l) b = (if bool_decide (b ∈ targets t) then 1 else 0) + indeg l b.
Proof. unfold indeg. rewrite filter_cons. case_decide; case_bool_decide; simpl; try done; lia. Qed.

Lemma indeg_zero l b : indeg l b = 0 -> forall t, t ∈ l -> b ∉ targets t.
Proof.
  induction l as [|u l IH]; intros H t Ht; [by apply not_elem_of_nil in Ht|].
  rewrite indeg_cons in H. assert (0 <= indeg l b) by (unfold indeg; lia).
  case_bool_decide; [lia|].
  apply elem_of_cons in Ht as [->|Ht]; [done|]. apply IH; [lia|done].
Qed.

(** The type invariant of the transactions: the counters are what they count. *)
Record tr_ok (l : list trans) (t : trans) : Prop := {
  ok_count : tr_count t = length (targets t);
  ok_nodup : NoDup (targets t);
  ok_in : forall b, b ∈ targets t -> b ∈ addrs l;
  ok_self : tr_addr t ∉ targets t;
  ok_others : tr_others t = indeg l (tr_addr t)
}.

Record graph_ok (l : list trans) : Prop := {
  g_addrs : NoDup (addrs l);
  g_xids : NoDup (xids l);
  g_each : forall t, t ∈ l -> tr_ok l t
}.

(** ** The slots *)

Lemma used_Some (b : nat) l : omap id (Some b :: l) = b :: omap id l.
Proof. done. Qed.
Lemma used_None (l : list (option nat)) : omap id (None :: l) = omap id l.
Proof. done. Qed.

(** [count] is the number of slots in use from here on, and [p] more that
    the loop has passed. *)
Lemma remove_slots_spec a slots count others p w c o :
  count = (p + length (omap id slots))%nat ->
  remove_slots a slots count others = (w, c, o) ->
  omap id w = filter (fun b => b <> a) (omap id slots) /\
  c = (p + length (omap id w))%nat /\
  o = others - Z.of_nat (length (filter (fun b => b = a) (omap id slots))).
Proof.
  revert count others p w c o.
  induction slots as [|s slots IH]; intros count others p w c o Hc E; cbn in E.
  { simplify_eq. split; [done|]. split; [done|]. cbn. lia. }
  destruct (Nat.eqb_spec count 0) as [E0|E0].
  { simplify_eq. assert (E1 : length (omap id (s :: slots)) = 0%nat) by lia.
    apply nil_length_inv in E1. rewrite E1. split; [done|]. cbn. split; lia. }
  case_bool_decide as Hs.
  - destruct (remove_slots a slots (count - 1) (others - 1)) as [[w1 c1] o1] eqn:E1.
    subst s. rewrite used_Some in Hc |- *. simplify_eq. cbn [length] in *.
    eapply IH in E1 as (H1 & H2 & H3); [|instantiate (1 := p); lia].
    rewrite used_None, !filter_cons, decide_False, decide_True by tauto.
    split; [done|]. split; [done|]. cbn [length]. lia.
  - destruct (remove_slots a slots count others) as [[w1 c1] o1] eqn:E1.
    simplify_eq. destruct s as [b|]; rewrite ?used_Some, ?used_None in *; cbn [length] in *.
    + eapply IH in E1 as (H1 & H2 & H3); [|instantiate (1 := S p); lia].
      assert (b <> a) by congruence.
      rewrite !filter_cons, decide_True, decide_False by done.
      split; [by rewrite H1|]. split; [cbn [length]; lia|]. done.
    + by eapply IH in E1 as (H1 & H2 & H3); [|instantiate (1 := p)].
Qed.

Lemma filter_eq_length (a : nat) (l : list nat) : NoDup l ->
  Z.of_nat (length (filter (fun b => b = a) l)) = if bool_decide (a ∈ l) then 1 else 0.
Proof.
  induction l as [|b l IH]; intros Hnd; [done|]. apply NoDup_cons in Hnd as [Hb Hnd].
  rewrite filter_cons. specialize (IH Hnd). destruct (decide (b = a)) as [E|E].
  - subst b. rewrite bool_decide_eq_true_2 by left. cbn [length].
    rewrite bool_decide_eq_false_2 in IH by done. lia.
  - rewrite IH.
    repeat case_bool_decide; try done; set_solver.
Qed.

Lemma filter_ne_id (a : nat) (l : list nat) : a ∉ l -> filter (fun b => b <> a) l = l.
Proof.
  induction l as [|b l IH]; intros Ha; [done|].
  rewrite filter_cons, decide_True by set_solver. f_equal. apply IH. set_solver.
Qed.

(** What removing [a] from the array of a transaction leaves. *)
Record dropped (a : nat) (t t' : trans) : Prop := {
  dr_same : same_trans t t';
  dr_others : tr_others t' = tr_others t;
  dr_targets : targets t' = filter (fun b => b <> a) (targets t);
  dr_count : tr_count t' = length (targets t')
}.

Lemma dropped_refl a t : a ∉ targets t -> tr_count t = length (targets t) -> dropped a t t.
Proof. intros Ha Hc. split; [done|done| |done]. by rewrite filter_ne_id. Qed.

Lemma remove_waitfor_spec t a others :
  tr_count t = length (targets t) -> NoDup (targets t) ->
  exists t', remove_waitfor t a others =
    Some (t', others - (if bool_decide (a ∈ targets t) then 1 else 0)) /\ dropped a t t'.
Proof.
  intros Hc Hnd. unfold remove_waitfor. destruct (Nat.eqb_spec (tr_count t) 0) as [E|E].
  { assert (Ht : targets t = []) by (apply nil_length_inv; lia).
    exists t. rewrite Ht, bool_decide_eq_false_2 by apply not_elem_of_nil.
    split; [do 2 f_equal; lia|]. apply dropped_refl; [|done].
    rewrite Ht. apply not_elem_of_nil. }
  destruct (tr_waitfor t) as [slots|] eqn:Ew;
    [|unfold targets in Hc; rewrite Ew in Hc; cbn in Hc; lia].
  cbn [mbind option_bind].
  destruct (remove_slots a slots (tr_count t) others) as [[w c] o] eqn:Er.
  assert (Ht : targets t = omap id slots) by (unfold targets; by rewrite Ew).
  eapply (remove_slots_spec a slots _ _ 0) in Er as (H1 & H2 & H3); [|by rewrite <- Ht].
  exists (tr_set_waitfor (tr_alloc t) c (Some w) t). split.
  - rewrite H3, <- Ht, filter_eq_length by done. done.
  - split; [done|done| |].
    + unfold targets at 1. cbn. by rewrite H1, Ht.
    + unfold targets. cbn. by rewrite H2.
Qed.

(** ** Removing a transaction *)

(** With the exact count of the transactions that wait for [a], the early end
    of the loop passes over none of them. *)
Lemma remove_trans_spec a l :
  (forall t, t ∈ l -> tr_count t = length (targets t) /\ NoDup (targets t)) ->
  (forall t, t ∈ l -> tr_addr t = a -> a ∉ targets t) ->
  exists l', remove_trans a (indeg l a) l = Some l' /\ Forall2 (dropped a) l l'.
Proof.
  induction l as [|t l IH]; intros Hc Hs; [by exists []|]. cbn.
  destruct IH as (l' & IH & Hl'); [set_solver..|].
  destruct (Hc t) as [Hct Hnd]; [left|]. rewrite indeg_cons. case_bool_decide as E.
  { rewrite (bool_decide_eq_false_2 (a ∈ targets t)) by (apply Hs; [left|done]).
    rewrite Z.add_0_l, IH. eexists. split; [done|].
    constructor; [|done]. apply dropped_refl; [|done]. apply Hs; [left|done]. }
  destruct (Z.eqb_spec ((if bool_decide (a ∈ targets t) then 1 else 0) + indeg l a) 0) as [E0|E0].
  { exists (t :: l). split; [done|].
    rewrite <- indeg_cons in E0. apply Forall2_same_length_lookup_2; [done|].
    intros i u u' H1 H2. simplify_eq. apply list_elem_of_lookup_2 in H1.
    apply dropped_refl; [by apply (indeg_zero _ _ E0)|by apply Hc]. }
  destruct (remove_waitfor_spec t a ((if bool_decide (a ∈ targets t) then 1 else 0) + indeg l a)
              Hct Hnd) as (t' & -> & Hd). cbn.
  replace (_ + _ - _) with (indeg l a) by lia. rewrite IH. cbn.
  eexists. split; [done|]. by constructor.
Qed.

Lemma filter_elem_ne a (l : list trans) t :
  t ∈ filter (fun u => tr_addr u <> a) l <-> t ∈ l /\ tr_addr t <> a.
Proof. rewrite list_elem_of_filter. tauto. Qed.

Lemma Forall2_dropped_addrs a l l' : Forall2 (dropped a) l l' -> addrs l' = addrs l /\ xids l' = xids l.
Proof.
  induction 1 as [|t t' l l' [(H1 & H2 & H3) _ _ _] _ [IH1 IH2]]; [done|].
  cbn. rewrite H1, H2. unfold addrs, xids in *. by rewrite IH1, IH2.
Qed.

(** The list without [a]: what is left of each transaction. *)
Lemma removed_elem a l l' t' :
  Forall2 (dropped a) l l' -> t' ∈ filter (fun u => tr_addr u <> a) l' ->
  exists t, t ∈ l /\ tr_addr t <> a /\ dropped a t t'.
Proof.
  intros HF Ht'. apply filter_elem_ne in Ht' as [Ht' Ha].
  apply list_elem_of_lookup in Ht' as [i Hi].
  destruct (Forall2_lookup_r _ _ _ _ _ HF Hi) as (t & Ht & Hd).
  exists t. split; [by eapply list_elem_of_lookup_2|]. split; [|done].
  destruct Hd as [(H1 & _) _ _ _]. congruence.
Qed.

Lemma removed_elem_back a l l' t :
  Forall2 (dropped a) l l' -> t ∈ l -> tr_addr t <> a ->
  exists t', t' ∈ filter (fun u => tr_addr u <> a) l' /\ dropped a t t'.
Proof.
  intros HF Ht Ha. apply list_elem_of_lookup in Ht as [i Hi].
  destruct (Forall2_lookup_l _ _ _ _ _ HF Hi) as (t' & Ht' & Hd).
  exists t'. split; [|done]. apply filter_elem_ne.
  split; [by eapply list_elem_of_lookup_2|]. destruct Hd as [(H1 & _) _ _ _]. congruence.
Qed.

Lemma removed_indeg a b l l' :
  Forall2 (dropped a) l l' -> b <> a ->
  (forall t, t ∈ l -> tr_addr t = a -> targets t = []) ->
  indeg (filter (fun u => tr_addr u <> a) l') b = indeg l b.
Proof.
  intros HF Hb. induction HF as [|t t' l l' Hd HF IH]; intros He; [done|].
  specialize (IH ltac:(set_solver)). destruct Hd as [(H1 & _) _ H4 _].
  rewrite filter_cons, (indeg_cons t). case_decide as E.
  - rewrite indeg_cons, IH. f_equal.
    assert (Hi : b ∈ targets t' <-> b ∈ targets t) by (rewrite H4, list_elem_of_filter; tauto).
    by rewrite (bool_decide_ext _ _ Hi).
  - rewrite bool_decide_eq_false_2; [done|]. rewrite He; [apply not_elem_of_nil|left|].
    rewrite H1 in E. destruct (decide (tr_addr t = a)); tauto.
Qed.

Lemma NoDup_map_filter {A B} (f : A -> B) (P : A -> Prop) `{!forall x, Decision (P x)} (l : list A) :
  NoDup (map f l) -> NoDup (map f (filter P l)).
Proof.
  induction l as [|x l IH]; intros Hnd; [done|]. cbn in Hnd. apply NoDup_cons in Hnd as [Hx Hnd].
  rewrite filter_cons. case_decide; [|by apply IH]. cbn. apply NoDup_cons. split; [|by apply IH].
  intros Hi. apply Hx. apply list_elem_of_fmap in Hi as (y & -> & Hy).
  apply list_elem_of_filter in Hy as [_ Hy]. by apply list_elem_of_fmap_2.
Qed.

(** Removing a transaction that waits for nothing keeps the counters right. *)
Lemma removed_ok a l l' :
  graph_ok l -> Forall2 (dropped a) l l' ->
  (forall t, t ∈ l -> tr_addr t = a -> targets t = []) ->
  graph_ok (filter (fun u => tr_addr u <> a) l').
Proof.
  intros [Ha Hx Ho] HF He. destruct (Forall2_dropped_addrs _ _ _ HF) as [Ea Ex]. split.
  - apply NoDup_map_filter. by rewrite <- Ea in Ha.
  - apply NoDup_map_filter. by rewrite <- Ex in Hx.
  - intros t' Ht'. destruct (removed_elem _ _ _ _ HF Ht') as (t & Ht & Hne & Hd).
    destruct Hd as [(H1 & H2 & H3) H4 H5 H6]. destruct (Ho t Ht) as [O1 O2 O3 O4 O5]. split.
    + done.
    + rewrite H5. by apply NoDup_filter.
    + intros b Hb. rewrite H5 in Hb. apply list_elem_of_filter in Hb as [Hba Hb].
      apply O3, addrs_elem in Hb as (u & Hu & <-).
      destruct (removed_elem_back _ _ _ _ HF Hu Hba) as (u' & Hu' & [(E & _) _ _ _]).
      apply addrs_elem. eauto.
    + rewrite H1, H5. intros Hb. apply list_elem_of_filter in Hb as [_ Hb]. done.
    + rewrite H4, H1, O5. symmetry. by apply removed_indeg.
Qed.

(** ** Reduction

    [E] is the relation "waits for" between transaction ids; a transaction that
    is strongly normalising in it will complete. *)
Section Reduction.
Context (E : Z -> Z -> Prop).

Record represents (l : list trans) : Prop := {
  rp_ok : graph_ok l;
  rp_edge : forall t u, t ∈ l -> u ∈ l -> tr_addr u ∈ targets t <-> E (tr_xid t) (tr_xid u);
  rp_out : forall t y, t ∈ l -> E (tr_xid t) y -> y ∈ xids l \/ sn E y
}.

(** [l'] is what is left of [l] after completing transactions left it. *)
Record reduces (l l' : list trans) : Prop := {
  rd_rep : represents l';
  rd_sub : forall t', t' ∈ l' -> exists t, t ∈ l /\ same_trans t t';
  rd_cover : forall t, t ∈ l -> tr_xid t ∈ xids l' \/ sn E (tr_xid t)
}.

Lemma reduces_refl l : represents l -> reduces l l.
Proof.
  intros H. split; [done| |].
  - intros t Ht. by exists t.
  - intros t Ht. left. apply xids_elem. eauto.
Qed.

Lemma reduces_trans l1 l2 l3 : reduces l1 l2 -> reduces l2 l3 -> reduces l1 l3.
Proof.
  intros [_ S1 C1] [R2 S2 C2]. split; [done| |].
  - intros t Ht. destruct (S2 t Ht) as (t2 & H2 & E2 & X2 & L2).
    destruct (S1 t2 H2) as (t1 & H1 & E1 & X1 & L1). exists t1. split; [done|].
    split; [congruence|]. split; congruence.
  - intros t Ht. destruct (C1 t Ht) as [Hx|?]; [|by right].
    apply xids_elem in Hx as (t2 & H2 & <-). by apply C2.
Qed.

Lemma complete_sn l t : represents l -> t ∈ l -> targets t = [] -> sn E (tr_xid t).
Proof.
  intros [Hok He Ho] Ht Hn. constructor. intros y Hy.
  destruct (Ho t y Ht Hy) as [Hx|?]; [|done].
  apply xids_elem in Hx as (u & Hu & <-). apply (He t u Ht Hu) in Hy.
  rewrite Hn in Hy. by apply not_elem_of_nil in Hy.
Qed.

Lemma removed_represents a l l' t :
  represents l -> t ∈ l -> tr_addr t = a -> targets t = [] -> Forall2 (dropped a) l l' ->
  reduces l (filter (fun u => tr_addr u <> a) l').
Proof.
  intros R Ht Ha Hn HF. pose proof R as [Hok He Ho]. pose proof (g_addrs _ Hok) as Hnd.
  assert (Hself : forall u, u ∈ l -> tr_addr u = a -> u = t).
  { intros u Hu Hua. apply (addr_inj l); [done..|]. congruence. }
  assert (Hx : forall y, y ∈ xids l ->
    y ∈ xids (filter (fun u => tr_addr u <> a) l') \/ sn E y).
  { intros y Hy. apply xids_elem in Hy as (u & Hu & <-).
    destruct (decide (tr_addr u = a)) as [Hua|Hua].
    - right. rewrite (Hself u Hu Hua). by apply (complete_sn l).
    - left. destruct (removed_elem_back _ _ _ _ HF Hu Hua) as (u' & Hu' & [(_ & E2 & _) _ _ _]).
      apply xids_elem. eauto. }
  split.
  - split.
    + apply (removed_ok a l); [done|done|]. intros u Hu Hua. by rewrite (Hself u Hu Hua).
    + intros t1 u1 Ht1 Hu1.
      destruct (removed_elem _ _ _ _ HF Ht1) as (t0 & Ht0 & Hta & [(A1 & X1 & _) _ T1 _]).
      destruct (removed_elem _ _ _ _ HF Hu1) as (u0 & Hu0 & Hua & [(A2 & X2 & _) _ _ _]).
      rewrite X1, X2, <- (He t0 u0 Ht0 Hu0), T1, A2, list_elem_of_filter. tauto.
    + intros t1 y Ht1 Hy.
      destruct (removed_elem _ _ _ _ HF Ht1) as (t0 & Ht0 & Hta & [(A1 & X1 & _) _ _ _]).
      rewrite X1 in Hy. destruct (Ho t0 y Ht0 Hy) as [Hy'|?]; [by apply Hx|by right].
  - intros t1 Ht1. destruct (removed_elem _ _ _ _ HF Ht1) as (t0 & Ht0 & _ & [Hs _ _ _]). eauto.
  - intros u Hu. apply Hx, xids_elem. eauto.
Qed.

Lemma filter_addr_length a (l : list trans) : NoDup (addrs l) -> a ∈ addrs l ->
  S (length (filter (fun u => tr_addr u <> a) l)) = length l.
Proof.
  induction l as [|t l IH]; intros Hnd Ha; [by apply not_elem_of_nil in Ha|].
  cbn in Hnd, Ha. apply NoDup_cons in Hnd as [Ht Hnd]. rewrite filter_cons.
  apply elem_of_cons in Ha as [->|Ha].
  - rewrite decide_False by tauto. cbn. f_equal. clear IH Hnd. induction l as [|u l IH]; [done|].
    cbn in Ht. rewrite filter_cons, decide_True by set_solver. cbn. f_equal. apply IH. set_solver.
  - rewrite decide_True by (intros E'; apply Ht; by rewrite E'). cbn. f_equal. by apply IH.
Qed.

Lemma reduce_step l t :
  represents l -> t ∈ l -> tr_count t = 0%nat ->
  exists l1, remove_trans (tr_addr t) (tr_others t) l = Some l1 /\
    let l' := filter (fun u => tr_addr u <> tr_addr t) l1 in
    reduces l l' /\ S (length l') = length l /\
    (forall b, b ∈ addrs l' <-> b ∈ addrs l /\ b <> tr_addr t).
Proof.
  intros R Ht Hc. pose proof (rp_ok _ R) as [Ha Hx Hg].
  destruct (Hg t Ht) as [O1 _ _ _ O5].
  assert (Hn : targets t = []) by (apply nil_length_inv; lia).
  destruct (remove_trans_spec (tr_addr t) l) as (l1 & E1 & HF).
  { intros u Hu. destruct (Hg u Hu). done. }
  { intros u Hu <-. destruct (Hg u Hu). done. }
  exists l1. rewrite O5. split; [done|]. cbn.
  destruct (Forall2_dropped_addrs _ _ _ HF) as [Ea Ex].
  split; [by apply (removed_represents _ l _ t)|]. split.
  - rewrite (Forall2_length _ _ _ HF). apply filter_addr_length; [by rewrite Ea|].
    rewrite Ea. apply addrs_elem. eauto.
  - intros b. rewrite <- Ea, !addrs_elem. setoid_rewrite filter_elem_ne. naive_solver.
Qed.

Lemma reduce_pass_spec l removed ads :
  represents l -> NoDup ads -> (forall a, a ∈ ads -> a ∈ addrs l) ->
  exists l' k, reduce_pass ads l removed = Some (l', (removed + k)%nat) /\ reduces l l' /\
    (length l' + k = length l)%nat /\
    (k = 0%nat -> l' = l /\ forall t, t ∈ l -> tr_addr t ∈ ads -> tr_count t <> 0%nat).
Proof.
  revert l removed. induction ads as [|a ads IH]; intros l removed R Hnd Hin; cbn.
  { exists l, 0%nat. rewrite Nat.add_0_r. split; [done|]. split; [by apply reduces_refl|].
    split; [lia|]. intros _. split; [done|]. intros t _ Ht. by apply not_elem_of_nil in Ht. }
  apply NoDup_cons in Hnd as [Ha Hnd]. pose proof (g_addrs _ (rp_ok _ R)) as Hna.
  destruct (proj1 (addrs_elem a l) (Hin a ltac:(left))) as (t & Ht & <-).
  rewrite (find_tr_elem l t Hna Ht). cbn. destruct (Nat.eqb_spec (tr_count t) 0) as [Hc|Hc]; cbn.
  - destruct (reduce_step l t R Ht Hc) as (l1 & -> & Hr & Hl & Hads). cbn.
    destruct (IH (filter (fun u => tr_addr u <> tr_addr t) l1) (S removed)) as
      (l' & k & E1 & R1 & L1 & _); [apply Hr|done| |].
    { intros b Hb. apply Hads. split; [set_solver|]. intros ->. done. }
    exists l', (S k). rewrite E1. split; [do 2 f_equal; lia|].
    split; [by eapply reduces_trans|]. split; [lia|done].
  - destruct (IH l removed R Hnd ltac:(set_solver)) as (l' & k & E1 & R1 & L1 & K1).
    exists l', k. split; [done|]. split; [done|]. split; [done|].
    intros Hk. destruct (K1 Hk) as [-> K2]. split; [done|]. intros u Hu Hua.
    apply elem_of_cons in Hua as [Hua|Hua]; [|by apply K2].
    by rewrite (addr_inj l u t Hna Hu Ht Hua).
Qed.

(** The loop ends, and what it leaves waits. *)
Lemma reduce_loop_spec fuel l :
  represents l -> (length l < fuel)%nat ->
  exists l', reduce_loop fuel l = Some l' /\ reduces l l' /\
    forall t, t ∈ l' -> tr_count t <> 0%nat.
Proof.
  revert l. induction fuel as [|fuel IH]; intros l R Hf; [lia|]. cbn.
  destruct (reduce_pass_spec l 0 (addrs l) R (g_addrs _ (rp_ok _ R)) ltac:(done)) as
    (l' & k & E1 & R1 & L1 & K1).
  unfold reduce_waitfor_graph. fold (addrs l). rewrite E1. cbn. destruct (Nat.eqb_spec k 0) as [Hk|Hk].
  - exists l'. split; [done|]. split; [done|]. destruct (K1 Hk) as [-> K2].
    intros t Ht. apply K2; [done|]. apply addrs_elem. eauto.
  - destruct (IH l' (rd_rep _ _ R1)) as (l2 & E2 & R2 & C2); [lia|].
    exists l2. split; [done|]. split; [by eapply reduces_trans|done].
Qed.

Lemma reduce_waitfor_graph_loop_spec l :
  represents l ->
  exists l', reduce_waitfor_graph_loop l = Some l' /\ reduces l l' /\
    forall t, t ∈ l' -> tr_count t <> 0%nat.
Proof. intros R. apply reduce_loop_spec; [done|lia]. Qed.

(** *** Cycles *)

Definition on_cycle (x : Z) : Prop := tc E x x.
Definition deadlocked (x : Z) : Prop := exists y, rtc E x y /\ on_cycle y.

Lemma sn_not_cycle x : sn E x -> ~ on_cycle x.
Proof.
  intros Hs. induction Hs as [x _ IH]. intros Hc. inversion Hc as [? Hx|? y ? Hxy Hyx]; subst.
  - by apply (IH x).
  - apply (IH y); [done|]. eapply tc_r; done.
Qed.

Lemma sn_not_deadlocked x : sn E x -> ~ deadlocked x.
Proof.
  intros Hs (y & Hr & Hc). revert Hs. induction Hr as [|x z y Hxz _ IH]; intros Hs.
  - by apply (sn_not_cycle x).
  - apply IH; [done|]. apply Hs. done.
Qed.

(** In a finite set in which everything waits for something of the set, a
    walk comes back. *)
Lemma walk_cycle (S0 : list Z) :
  (forall x, x ∈ S0 -> exists y, y ∈ S0 /\ E x y) ->
  forall n x V, x ∈ S0 -> NoDup V -> V ⊆ S0 -> (length S0 < length V + n)%nat ->
  (forall v, v ∈ V -> tc E v x) -> deadlocked x.
Proof.
  intros HS. induction n as [|n IH]; intros x V Hx Hnd Hsub Hn HV.
  { pose proof (NoDup_submseteq V S0 Hnd Hsub) as Hle. apply submseteq_length in Hle. lia. }
  destruct (decide (x ∈ V)) as [Hxv|Hxv].
  { exists x. split; [done|]. by apply HV. }
  destruct (HS x Hx) as (y & Hy & Hxy).
  destruct (IH y (x :: V)) as (z & Hz & Hc); [done|by apply NoDup_cons|set_solver|cbn; lia| |].
  - intros v Hv. apply elem_of_cons in Hv as [->|Hv]; [by apply tc_once|].
    eapply tc_r; [by apply HV|done].
  - exists z. split; [|done]. by eapply rtc_l.
Qed.

(** What the loop leaves is exactly what waits, directly or not, for a
    cycle. *)
Lemma reduced_deadlocked l l' :
  reduces l l' -> (forall t, t ∈ l' -> tr_count t <> 0%nat) ->
  forall t, t ∈ l -> tr_xid t ∈ xids l' <-> deadlocked (tr_xid t).
Proof.
  intros [[Hok He Ho] Hs Hcov] Hc t Ht. split.
  - intros Hx. apply (walk_cycle (xids l')) with (n := S (length (xids l'))) (V := []);
      [|done|by apply NoDup_nil|by intros v Hv; apply not_elem_of_nil in Hv|cbn; lia|
       by intros v Hv; apply not_elem_of_nil in Hv].
    intros x Hxl. apply xids_elem in Hxl as (u & Hu & <-).
    destruct (g_each _ Hok u Hu) as [O1 _ O3 _ _]. specialize (Hc u Hu).
    destruct (targets u) as [|b bs] eqn:Eb; [cbn in O1; lia|].
    assert (Hb : b ∈ addrs l') by (apply O3; left).
    apply addrs_elem in Hb as (w & Hw & <-). exists (tr_xid w).
    split; [apply xids_elem; eauto|]. apply (He u w Hu Hw). rewrite Eb. left.
  - intros Hd. destruct (Hcov t Ht) as [?|Hsn]; [done|]. by apply sn_not_deadlocked in Hsn.
Qed.
End Reduction.

(** ** Building the graph *)

Definition mem_ok (m : mem) : Prop := Forall is_Some m.

Lemma mem_ok_malloc m : mem_ok m -> exists v m', malloc m = (Some v, m') /\ mem_ok m'.
Proof.
  intros H. destruct H as [|o m [v ->] H]; cbn.
  - exists 0, []. split; [done|constructor].
  - by exists v, m.
Qed.

(** The locks as they are collected: distinct addresses, each lock pointing to
    its resource. *)
Definition all_locks (rs : list dlm_rsb) : list dlm_lkb := concat (map rs_locks rs).

Record rs_ok (rs : list dlm_rsb) : Prop := {
  ro_rsb : NoDup (map rs_addr rs);
  ro_lkb : NoDup (map lk_addr (all_locks rs));
  ro_ptr : forall r k, r ∈ rs -> k ∈ rs_locks r -> lk_rsb k = rs_addr r
}.

Abbreviation xid k := (pl_xid (lk_lock k)).

Definition fresh_tr (t : trans) : Prop :=
  tr_others t = 0 /\ tr_alloc t = 0%nat /\ tr_count t = 0%nat /\ tr_waitfor t = None.

(** After the locks [L] got their transactions. *)
Record listed (L : list dlm_lkb) (g : graph) : Prop := {
  li_addrs : NoDup (addrs (g_trans g));
  li_xids : NoDup (xids (g_trans g));
  li_next : forall a, a ∈ addrs (g_trans g) -> (a < g_next g)%nat;
  li_fresh : forall t, t ∈ g_trans g -> fresh_tr t;
  li_ptr : forall k, k ∈ L -> exists t, t ∈ g_trans g /\
    g_ltrans g !! lk_addr k = Some (tr_addr t) /\ tr_xid t = xid k;
  li_locks : forall t k, t ∈ g_trans g -> k ∈ tr_locks t <-> k ∈ L /\ xid k = tr_xid t
}.

Lemma listed_elem L g x t :
  listed L g -> List.find (fun t => tr_xid t =? x) (g_trans g) = Some t ->
  t ∈ g_trans g /\ tr_xid t = x.
Proof.
  intros _ H. apply List.find_some in H as [Hi Hx]. zbool. by rewrite list_elem_of_In.
Qed.

(** A transaction for [x] is there or is created without locks, and no
    lock of [L] is of a transaction created. *)
Lemma get_trans_spec L g m x :
  listed L g -> mem_ok m ->
  exists t m' g', get_trans m g x = (Some (tr_addr t), m', g') /\ mem_ok m' /\
    t ∈ g_trans g' /\ tr_xid t = x /\ listed L g'.
Proof.
  intros HL Hm. unfold get_trans. destruct (List.find _ _) as [t|] eqn:Ef.
  { destruct (listed_elem L g x t HL Ef). by exists t, m, g. }
  destruct (mem_ok_malloc m Hm) as (v & m' & -> & Hm').
  assert (Hx : x ∉ xids (g_trans g)).
  { intros Hx. apply xids_elem in Hx as (t & Ht & <-).
    apply List.find_none with (x := t) in Ef; [|by apply list_elem_of_In]. zbool. done. }
  destruct HL as [H1 H2 H3 H4 H5 H6].
  eexists (mkTr (g_next g) x [] 0 0 0 None), m', _. cbn [tr_addr].
  split; [done|]. split; [done|]. split; [left|]. split; [done|]. split; cbn.
  - apply NoDup_cons. split; [|done]. intros Ha. apply H3 in Ha. lia.
  - by apply NoDup_cons.
  - intros a Ha. apply elem_of_cons in Ha as [->|Ha]; [lia|]. apply H3 in Ha. lia.
  - intros t Ht. apply elem_of_cons in Ht as [->|Ht]; [done|by apply H4].
  - intros k Hk. destruct (H5 k Hk) as (t & Ht & E1 & E2). exists t. split; [by right|done].
  - intros t k Ht. apply elem_of_cons in Ht as [->|Ht]; [|by apply H6]. cbn. split.
    + intros Hk. by apply not_elem_of_nil in Hk.
    + intros [Hk Hkx]. destruct (H5 k Hk) as (t & Ht & _ & E2).
      exfalso. apply Hx, xids_elem. exists t. split; [done|congruence].
Qed.

Lemma add_lkb_trans_spec L g t k :
  listed L g -> t ∈ g_trans g -> tr_xid t = xid k -> lk_addr k ∉ map lk_addr L ->
  listed (L ++ [k]) (add_lkb_trans g (tr_addr t) k).
Proof.
  intros [H1 H2 H3 H4 H5 H6] Ht Hx Hk.
  assert (Hel : forall u', u' ∈ upd_tr (tr_addr t) (tr_add_lock k) (g_trans g) -> exists u,
    u ∈ g_trans g /\ (u = t /\ u' = tr_add_lock k t \/ u <> t /\ u' = u)).
  { intros u' Hu'. apply upd_tr_elem in Hu' as (u & Hu & ->). exists u. split; [done|].
    case_bool_decide as E; [|right; split; [congruence|done]].
    left. rewrite (addr_inj _ _ _ H1 Hu Ht E). done. }
  split; cbn.
  - by rewrite upd_tr_addrs.
  - unfold xids, upd_tr. rewrite map_map. erewrite map_ext; [exact H2|].
    intros u. by case_bool_decide.
  - intros a. rewrite upd_tr_addrs by done. apply H3.
  - intros u' Hu'. destruct (Hel u' Hu') as (u & Hu & [[-> ->]|[_ ->]]); [|by apply H4].
    apply (H4 t Ht).
  - intros j Hj. apply elem_of_app in Hj as [Hj|Hj%list_elem_of_singleton].
    + destruct (H5 j Hj) as (u & Hu & E1 & E2).
      exists (if bool_decide (tr_addr u = tr_addr t) then tr_add_lock k u else u).
      split; [apply upd_tr_elem; eauto|]. rewrite lookup_insert_ne.
      * by case_bool_decide.
      * intros E. apply Hk. rewrite E. by apply list_elem_of_fmap_2.
    + subst j. exists (tr_add_lock k t). rewrite lookup_insert_eq.
      split; [|done]. apply upd_tr_elem. exists t. by rewrite bool_decide_eq_true_2.
  - intros u' j Hu'. rewrite elem_of_app, list_elem_of_singleton.
    destruct (Hel u' Hu') as (u & Hu & [[-> ->]|[Hne ->]]); cbn.
    + rewrite elem_of_cons, (H6 t j Ht). split; [intros [->|?]; [by auto|tauto]|].
      intros [[?| ->] ?]; tauto.
    + rewrite (H6 u j Hu). split; [tauto|]. intros [[?| ->] Hj]; [done|].
      exfalso. apply Hne. apply (map_inj tr_xid (g_trans g)); [done..|congruence].
Qed.

Lemma trans_list_locks_spec locks L g m :
  listed L g -> mem_ok m -> NoDup (map lk_addr (L ++ locks)) ->
  exists m' g', trans_list_locks m g locks = (true, m', g') /\ mem_ok m' /\
    listed (L ++ locks) g'.
Proof.
  revert L g m. induction locks as [|k locks IH]; intros L g m HL Hm Hnd; cbn.
  { exists m, g. by rewrite app_nil_r. }
  destruct (get_trans_spec L g m (xid k) HL Hm) as (t & m1 & g1 & -> & Hm1 & Ht & Hx & HL1).
  replace (L ++ k :: locks) with ((L ++ [k]) ++ locks) in * by by rewrite <- app_assoc.
  apply IH; [|done|done]. apply add_lkb_trans_spec; [done..|].
  rewrite !map_app, !NoDup_app in Hnd. cbn in Hnd. set_solver.
Qed.

Lemma create_trans_list_spec rs L g m :
  listed L g -> mem_ok m -> NoDup (map lk_addr (L ++ all_locks rs)) ->
  exists m' g', create_trans_list m g rs = (m', g') /\ mem_ok m' /\
    listed (L ++ all_locks rs) g'.
Proof.
  revert L g m. induction rs as [|r rs IH]; intros L g m HL Hm Hnd; cbn.
  { exists m, g. by rewrite app_nil_r. }
  unfold all_locks in *. cbn in *. rewrite app_assoc in *.
  destruct (trans_list_locks_spec (rs_locks r) L g m HL Hm) as (m1 & g1 & -> & Hm1 & HL1).
  { rewrite map_app in Hnd. by apply NoDup_app in Hnd as (? & _). }
  by apply IH.
Qed.

(** *** Edges *)

(** The array: the used slots, then the null ones. *)
Definition slots_ok (t : trans) : Prop :=
  default [] (tr_waitfor t) = map Some (targets t) ++ replicate (tr_alloc t - tr_count t) None /\
  (tr_count t <= tr_alloc t)%nat /\ (tr_alloc t <> 0%nat -> is_Some (tr_waitfor t)).

Lemma used_map (l : list nat) n : omap id (map Some l ++ replicate n None) = l.
Proof.
  induction l as [|b l IH]; [by induction n|]. cbn [map app]. by rewrite used_Some, IH.
Qed.

Lemma in_waitfor_spec t a :
  slots_ok t -> tr_count t = length (targets t) ->
  (if (tr_count t =? 0)%nat then Some false else in_waitfor t a) =
  Some (bool_decide (a ∈ targets t)).
Proof.
  intros (Hs & Hle & Hw) Hc. destruct (Nat.eqb_spec (tr_count t) 0) as [E|E].
  { assert (Ht : targets t = []) by (apply nil_length_inv; lia).
    by rewrite Ht, bool_decide_eq_false_2 by apply not_elem_of_nil. }
  unfold in_waitfor. destruct (Nat.eqb_spec (tr_alloc t) 0) as [Ea|Ea]; [lia|].
  destruct (Hw Ea) as [w Ew]. rewrite Ew in Hs |- *. cbn in Hs |- *. f_equal.
  apply bool_decide_ext. rewrite Hs, elem_of_app, list_elem_of_fmap, elem_of_replicate.
  naive_solver.
Qed.

Lemma grow_waitfor_spec m t :
  slots_ok t -> tr_count t = length (targets t) -> mem_ok m ->
  exists slots m' alloc, grow_waitfor m t =
    (Some (Some slots), m', tr_set_waitfor alloc (tr_count t) (Some slots) t) /\
    mem_ok m' /\ (tr_count t < alloc)%nat /\
    slots = map Some (targets t) ++ replicate (alloc - tr_count t) None.
Proof.
  intros (Hs & Hle & Hw) Hc Hm. unfold grow_waitfor.
  destruct (Nat.eqb_spec (tr_count t) (tr_alloc t)) as [E|E].
  - destruct (mem_ok_malloc m Hm) as (v & m' & -> & Hm').
    eexists _, m', _. split; [done|]. split; [done|]. unfold TR_NALLOC. split; [lia|].
    rewrite Hs. f_equal. rewrite take_app_le by (rewrite length_map; lia).
    rewrite take_ge by (rewrite length_map; lia). done.
  - destruct (Hw ltac:(lia)) as [w Ew]. exists w, m, (tr_alloc t). rewrite Ew in Hs |- *.
    split; [|split; [done|split; [lia|done]]]. clear -Ew. destruct t as [ta tx tl to tal tc tw]. cbn in *. rewrite Ew. done.
Qed.

Lemma fill_slot (l : list nat) b n : (length l < n)%nat ->
  <[length l := Some b]> (map Some l ++ replicate (n - length l) None) =
  map Some (l ++ [b]) ++ replicate (n - S (length l)) None.
Proof.
  intros Hn. replace (n - length l)%nat with (S (n - S (length l))) by lia.
  rewrite map_app, <- app_assoc. cbn [replicate map app].
  rewrite insert_app_r_alt by (rewrite length_map; lia).
  by rewrite length_map, Nat.sub_diag.
Qed.

(** What adding the edge from [a] to [b] does to each transaction. *)
Record edge_added (a b : nat) (t t' : trans) : Prop := {
  ea_same : same_trans t t';
  ea_targets : targets t' = if bool_decide (tr_addr t = a) then targets t ++ [b] else targets t;
  ea_others : tr_others t' = tr_others t + if bool_decide (tr_addr t = b) then 1 else 0;
  ea_count : tr_count t' = length (targets t');
  ea_slots : slots_ok t'
}.

Lemma edge_added_none a b c l l' :
  Forall2 (edge_added a b) l l' -> a ∉ addrs l -> indeg l' c = indeg l c.
Proof.
  induction 1 as [|t t' l l' [_ T1 _ _ _] HF IH]; intros Ha; [done|].
  cbn in Ha. apply not_elem_of_cons in Ha as [Hne Ha].
  rewrite !indeg_cons, (IH Ha), T1, (bool_decide_eq_false_2 (tr_addr t = a)) by congruence. done.
Qed.

Lemma edge_added_indeg a b c l l' :
  Forall2 (edge_added a b) l l' -> NoDup (addrs l) -> a ∈ addrs l ->
  (forall t, t ∈ l -> tr_addr t = a -> b ∉ targets t) ->
  indeg l' c = indeg l c + if bool_decide (c = b) then 1 else 0.
Proof.
  induction 1 as [|t t' l l' [_ T1 _ _ _] HF IH]; intros Hnd Ha Hb;
    [by apply not_elem_of_nil in Ha|].
  cbn in Hnd, Ha. apply NoDup_cons in Hnd as [Ht Hnd]. rewrite !indeg_cons, T1.
  apply elem_of_cons in Ha as [->|Ha].
  - rewrite (bool_decide_eq_true_2 (tr_addr t = tr_addr t)) by done.
    rewrite (edge_added_none _ _ c _ _ HF Ht).
    assert (b ∉ targets t) by (apply Hb; [left|done]).
    assert (Hc : c ∈ targets t ++ [b] <-> c ∈ targets t \/ c = b)
      by (rewrite elem_of_app, list_elem_of_singleton; done).
    rewrite (bool_decide_ext _ _ Hc). repeat case_bool_decide; naive_solver lia.
  - rewrite (bool_decide_eq_false_2 (tr_addr t = a)) by congruence.
    rewrite IH; [lia|done|done|]. intros u Hu. apply Hb. by right.
Qed.

Lemma edge_added_addrs a b l l' : Forall2 (edge_added a b) l l' ->
  addrs l' = addrs l /\ xids l' = xids l.
Proof.
  induction 1 as [|t t' l l' [(H1 & H2 & H3) _ _ _ _] _ [IH1 IH2]]; [done|].
  cbn. rewrite H1, H2. unfold addrs, xids in *. by rewrite IH1, IH2.
Qed.

Lemma Forall2_elem_r {A B} (R : A -> B -> Prop) l l' y :
  Forall2 R l l' -> y ∈ l' -> exists x, x ∈ l /\ R x y.
Proof.
  intros HF Hy. apply list_elem_of_lookup in Hy as [i Hi].
  destruct (Forall2_lookup_r _ _ _ _ _ HF Hi) as (x & Hx & HR).
  exists x. split; [by eapply list_elem_of_lookup_2|done].
Qed.

Lemma edge_added_ok a b l l' :
  graph_ok l -> Forall2 (edge_added a b) l l' -> a ∈ addrs l -> b ∈ addrs l -> a <> b ->
  (forall t, t ∈ l -> tr_addr t = a -> b ∉ targets t) -> graph_ok l'.
Proof.
  intros [Ha Hx Ho] HF Hal Hbl Hab Hb. destruct (edge_added_addrs _ _ _ _ HF) as [Ea Ex].
  split; [by rewrite Ea|by rewrite Ex|]. intros t' Ht'.
  destruct (Forall2_elem_r _ _ _ _ HF Ht') as (t & Ht & [(H1 & _ & _) H4 H5 H6 _]).
  destruct (Ho t Ht) as [O1 O2 O3 O4 O5]. split; [done|..].
  - rewrite H4. destruct (bool_decide_reflect (tr_addr t = a)) as [E|E]; [|done]. apply NoDup_app. split; [done|].
    split; [|by apply NoDup_singleton]. intros c Hc. rewrite list_elem_of_singleton.
    intros ->. by apply (Hb t Ht E).
  - intros c Hc. rewrite Ea. rewrite H4 in Hc. destruct (bool_decide_reflect (tr_addr t = a)) as [E|E]; [|by apply O3].
    apply elem_of_app in Hc as [Hc| ->%list_elem_of_singleton]; [by apply O3|done].
  - rewrite H1, H4. destruct (bool_decide_reflect (tr_addr t = a)) as [E|E]; [|done].
    rewrite elem_of_app, list_elem_of_singleton. intros [?|?]; [done|congruence].
  - rewrite H5, H1, O5, (edge_added_indeg a b _ l l' HF Ha Hal Hb). done.
Qed.

(** The request [w] waits for the lock [k]. *)
Definition blocks (w k : dlm_lkb) : Prop :=
  xid w <> xid k /\
  dlm_modes_compat (pl_grmode (lk_lock k)) (pl_rqmode (lk_lock w)) = Some 0.

Definition valid_mode (z : Z) : Prop := -1 <= z <= 6.
Definition valid_modes (k : dlm_lkb) : Prop :=
  valid_mode (pl_grmode (lk_lock k)) /\ valid_mode (pl_rqmode (lk_lock k)).

Lemma modes_compat_total m1 m2 : valid_mode m1 -> valid_mode m2 ->
  is_Some (dlm_modes_compat m1 m2).
Proof.
  unfold valid_mode, dlm_modes_compat, index. intros H1 H2.
  destruct (Z.ltb_spec (m1 + 1) 0); [lia|].
  destruct (lookup_lt_is_Some_2 dlm_compat_matrix (Z.to_nat (m1 + 1))) as [row Er];
    [cbn; lia|]. rewrite Er. cbn [mbind option_bind].
  destruct (Z.ltb_spec (m2 + 1) 0); [lia|]. apply lookup_lt_is_Some_2.
  assert (Hl : length row = 8%nat).
  { apply list_elem_of_lookup_2 in Er. unfold dlm_compat_matrix in Er.
    repeat (apply elem_of_cons in Er as [->|Er]; [done|]). by apply not_elem_of_nil in Er. }
  lia.
Qed.

(** The graph after the pairs [P] of a request and a lock have been looked at;
    [L] are all the locks. *)
Record built (L : list dlm_lkb) (P : dlm_lkb -> dlm_lkb -> Prop) (g : graph) : Prop := {
  bu_ok : graph_ok (g_trans g);
  bu_slots : forall t, t ∈ g_trans g -> slots_ok t;
  bu_ptr : forall k, k ∈ L -> exists t, t ∈ g_trans g /\
    g_ltrans g !! lk_addr k = Some (tr_addr t) /\ tr_xid t = xid k;
  bu_locks : forall t k, t ∈ g_trans g -> k ∈ tr_locks t <-> k ∈ L /\ xid k = tr_xid t;
  bu_edge : forall t u, t ∈ g_trans g -> u ∈ g_trans g ->
    tr_addr u ∈ targets t <->
    exists w k, P w k /\ blocks w k /\ xid w = tr_xid t /\ xid k = tr_xid u
}.

Lemma lkb_trans_spec L P g k : built L P g -> k ∈ L ->
  exists t, lkb_trans g k = Some t /\ t ∈ g_trans g /\ tr_xid t = xid k.
Proof.
  intros B Hk. destruct (bu_ptr _ _ _ B k Hk) as (t & Ht & E & Hx).
  exists t. unfold lkb_trans. rewrite E. cbn.
  by rewrite (find_tr_elem _ _ (g_addrs _ (bu_ok _ _ _ B)) Ht).
Qed.

(** A pair that adds no edge. *)
Lemma built_same L P g w k :
  built L P g ->
  (blocks w k -> forall t u, t ∈ g_trans g -> u ∈ g_trans g -> tr_xid t = xid w ->
    tr_xid u = xid k -> tr_addr u ∈ targets t) ->
  built L (fun x y => P x y \/ x = w /\ y = k) g.
Proof.
  intros [B1 B2 B3 B4 B5] Hno. split; [done..|]. intros t u Ht Hu. split.
  - intros Hb. apply B5 in Hb as (x & y & HP & Hb); [|done..]. exists x, y. split; [by left|done].
  - intros (x & y & [HP|[-> ->]] & Hb & Hx & Hy); [|by apply Hno].
    apply B5; [done..|]. by exists x, y.
Qed.

Lemma built_edge L P g g' w k t u :
  built L P g -> t ∈ g_trans g -> u ∈ g_trans g -> tr_xid t = xid w -> tr_xid u = xid k ->
  blocks w k -> tr_addr u ∉ targets t -> g_ltrans g' = g_ltrans g ->
  Forall2 (edge_added (tr_addr t) (tr_addr u)) (g_trans g) (g_trans g') ->
  built L (fun x y => P x y \/ x = w /\ y = k) g'.
Proof.
  intros [B1 B2 B3 B4 B5] Ht Hu Hxt Hxu Hb Hno El HF.
  pose proof (g_addrs _ B1) as Hnd. pose proof (g_xids _ B1) as Hnx.
  assert (Hne : tr_addr t <> tr_addr u).
  { intros E. apply (proj1 Hb). rewrite <- Hxt, <- Hxu. f_equal. by apply (addr_inj (g_trans g)). }
  split.
  - apply (edge_added_ok _ _ _ _ B1 HF); [apply addrs_elem; eauto..|done|].
    intros v Hv Ev. by rewrite (addr_inj _ _ _ Hnd Hv Ht Ev).
  - intros v Hv. by destruct (Forall2_elem_r _ _ _ _ HF Hv) as (v0 & _ & [_ _ _ _ ?]).
  - intros j Hj. destruct (B3 j Hj) as (v & Hv & E1 & E2). rewrite El.
    apply list_elem_of_lookup in Hv as [i Hi].
    destruct (Forall2_lookup_l _ _ _ _ _ HF Hi) as (v' & Hv' & [(A1 & A2 & _) _ _ _ _]).
    exists v'. rewrite A1, A2. split; [by eapply list_elem_of_lookup_2|done].
  - intros v' j Hv'. destruct (Forall2_elem_r _ _ _ _ HF Hv') as
      (v & Hv & [(_ & A2 & A3) _ _ _ _]). rewrite A2, A3. by apply B4.
  - intros v' z' Hv' Hz'.
    destruct (Forall2_elem_r _ _ _ _ HF Hv') as (v & Hv & [(A1 & A2 & _) T1 _ _ _]).
    destruct (Forall2_elem_r _ _ _ _ HF Hz') as (z & Hz & [(C1 & C2 & _) _ _ _ _]).
    rewrite T1, C1, A2, C2. transitivity (tr_addr z ∈ targets v \/ v = t /\ z = u).
    { destruct (bool_decide_reflect (tr_addr v = tr_addr t)) as [E|E].
      - rewrite elem_of_app, list_elem_of_singleton.
        rewrite (addr_inj _ _ _ Hnd Hv Ht E). split; intros [?|Hzu]; [by left| |by left|].
        + right. split; [done|]. by apply (addr_inj (g_trans g)).
        + right. destruct Hzu as [_ ->]. done.
      - split; [by left|]. intros [?|[-> _]]; done. }
    rewrite (B5 v z Hv Hz). split.
    + intros [(x & y & HP & Hxy)|[-> ->]]; [exists x, y; split; [by left|done]|].
      exists w, k. split; [by right|]. split; [done|]. by split.
    + intros (x & y & [HP|[-> ->]] & Hbl & Ex & Ey); [left; by exists x, y|right].
      split; apply (map_inj tr_xid (g_trans g)); try done; congruence.
Qed.

(** The two updates of [add_waitfor] as one. *)
Lemma add_edge_updates l t u slots alloc :
  graph_ok l -> (forall v, v ∈ l -> slots_ok v) -> t ∈ l -> u ∈ l -> tr_addr t <> tr_addr u ->
  (tr_count t < alloc)%nat -> slots = map Some (targets t) ++ replicate (alloc - tr_count t) None ->
  Forall2 (edge_added (tr_addr t) (tr_addr u)) l
    (upd_tr (tr_addr u) (tr_add_others 1)
       (upd_tr (tr_addr t) (fun _ => tr_set_waitfor alloc (S (tr_count t))
          (Some (<[tr_count t := Some (tr_addr u)]> slots)) t) l)).
Proof.
  intros Hok Hsl Ht Hu Hne Hlt ->. pose proof (g_addrs _ Hok) as Hnd.
  pose proof (g_each _ Hok) as Ho.
  unfold upd_tr. rewrite map_map. apply Forall2_fmap_r, Forall_Forall2_diag, Forall_forall.
  intros v Hv. unfold compose. destruct (Ho v Hv) as [O1 _ _ _ _]. specialize (Hsl v Hv).
  destruct (bool_decide_reflect (tr_addr v = tr_addr t)) as [E|E].
  - rewrite (addr_inj _ _ _ Hnd Hv Ht E) in *. cbn [tr_addr tr_set_waitfor].
    rewrite O1 in Hlt |- *. rewrite fill_slot by done.
    rewrite (bool_decide_eq_false_2 (tr_addr t = tr_addr u)) by done.
    assert (Htg : targets (tr_set_waitfor alloc (S (length (targets t))) (Some
      (map Some (targets t ++ [tr_addr u]) ++ replicate (alloc - S (length (targets t))) None)) t)
      = targets t ++ [tr_addr u]) by (unfold targets at 1; cbn -[omap]; apply used_map).
    split; [done| | | |].
    + by rewrite bool_decide_eq_true_2.
    + rewrite bool_decide_eq_false_2 by done. cbn. lia.
    + rewrite Htg, length_app. cbn. lia.
    + unfold slots_ok. rewrite Htg. cbn. split; [done|]. split; [lia|done].
  - destruct (bool_decide_reflect (tr_addr v = tr_addr u)) as [E2|E2].
    + split; [done| | |done|done].
      * by rewrite bool_decide_eq_false_2.
      * by rewrite bool_decide_eq_true_2.
    + split; [done| | |done|done].
      * by rewrite bool_decide_eq_false_2.
      * rewrite bool_decide_eq_false_2 by done. lia.
Qed.

Lemma add_waitfor_spec L P g m w k :
  built L P g -> mem_ok m -> w ∈ L -> k ∈ L -> valid_modes w -> valid_modes k ->
  exists m' g', add_waitfor m g w k = Some (m', g') /\ mem_ok m' /\
    built L (fun x y => P x y \/ x = w /\ y = k) g'.
Proof.
  intros B Hm Hw Hk Mw Mk. pose proof (bu_ok _ _ _ B) as Hok.
  pose proof (g_addrs _ Hok) as Hnd. pose proof (g_xids _ Hok) as Hnx.
  destruct (lkb_trans_spec L P g w B Hw) as (t & Et & Ht & Xt).
  destruct (lkb_trans_spec L P g k B Hk) as (u & Eu & Hu & Xu).
  assert (Hsame : ~ blocks w k -> built L (fun x y => P x y \/ x = w /\ y = k) g)
    by (intros ?; by apply built_same).
  assert (Htu : xid w = xid k -> t = u).
  { intros E. apply (map_inj tr_xid (g_trans g)); [done..|congruence]. }
  unfold add_waitfor, locks_compat. destruct (bool_decide_reflect (lk_addr w = lk_addr k)) as [Ea|Ea].
  { assert (t = u) by (unfold lkb_trans in *; rewrite Ea in *; congruence). subst u.
    cbn. rewrite Et, Eu. cbn. rewrite bool_decide_eq_true_2 by done.
    exists m, g. split; [done|]. split; [done|]. apply Hsame. intros [? _]. congruence. }
  rewrite Et, Eu. cbn. destruct (Z.eqb_spec (tr_xid t) (tr_xid u)) as [Ex|Ex].
  { assert (t = u) by (apply Htu; congruence). subst u. cbn.
    rewrite bool_decide_eq_true_2 by done.
    exists m, g. split; [done|]. split; [done|]. apply Hsame. intros [? _]. congruence. }
  destruct (modes_compat_total _ _ (proj1 Mk) (proj2 Mw)) as [c Ec]. rewrite Ec. cbn.
  unfold c_true. destruct (Z.eqb_spec c 0) as [->|Hc]; cbn.
  2: { exists m, g. split; [done|]. split; [done|]. apply Hsame. intros [_ ?]. congruence. }
  rewrite bool_decide_eq_false_2 by (intros E; apply Ex; by rewrite (addr_inj _ _ _ Hnd Ht Hu E)).
  destruct (g_each _ Hok t Ht) as [O1 _ _ _ _]. pose proof (bu_slots _ _ _ B t Ht) as Hs.
  rewrite (in_waitfor_spec t (tr_addr u) Hs O1). cbn.
  destruct (bool_decide_reflect (tr_addr u ∈ targets t)) as [Hin|Hin].
  { exists m, g. split; [done|]. split; [done|]. apply built_same; [done|].
    intros _ t1 u1 Ht1 Hu1 X1 X2.
    by rewrite (map_inj tr_xid (g_trans g) t1 t), (map_inj tr_xid (g_trans g) u1 u) by
      (done || congruence). }
  destruct (grow_waitfor_spec m t Hs O1 Hm) as (slots & m' & alloc & -> & Hm' & Hlt & Hsl). cbn.
  assert (Hlen : length slots = alloc).
  { rewrite Hsl, length_app, length_map, length_replicate. lia. }
  match goal with |- context [if ?b then _ else _] => change b with (tr_count t <? length slots)%nat end.
  rewrite (proj2 (Nat.ltb_lt _ _)) by lia.
  eexists m', _. split; [reflexivity|]. split; [done|].
  apply (built_edge L P g _ w k t u); try done; [by split; [congruence|]|].
  apply (add_edge_updates (g_trans g) t u slots alloc); try done; [apply B|]. intros E. apply Ex.
  by rewrite (addr_inj _ _ _ Hnd Ht Hu E).
Qed.

Lemma built_ext L P Q g : (forall x y, P x y <-> Q x y) -> built L P g -> built L Q g.
Proof.
  intros H [B1 B2 B3 B4 B5]. split; [done..|]. intros t u Ht Hu. rewrite (B5 t u Ht Hu).
  by setoid_rewrite H.
Qed.

(** The pairs the loops look at. *)
Definition holds (k : dlm_lkb) : Prop := pl_status (lk_lock k) <> DLM_LKSTS_WAITING.
Definition requests (w : dlm_lkb) : Prop := pl_status (lk_lock w) <> DLM_LKSTS_GRANTED.

Section Build.
Context (rs : list dlm_rsb).
Hypothesis Hrs : rs_ok rs.
Hypothesis Hmodes : forall k, k ∈ all_locks rs -> valid_modes k.

Lemma all_locks_elem k : k ∈ all_locks rs <-> exists r, r ∈ rs /\ k ∈ rs_locks r.
Proof.
  unfold all_locks. rewrite list_elem_of_In, in_concat. split.
  - intros (l & Hl & Hk). apply in_map_iff in Hl as (r & <- & Hr).
    exists r. by rewrite !list_elem_of_In.
  - intros (r & Hr & Hk). rewrite !list_elem_of_In in *. exists (rs_locks r).
    split; [by apply in_map|done].
Qed.

Lemma waitfor_granted_spec locks P g m w :
  built (all_locks rs) P g -> mem_ok m -> w ∈ all_locks rs ->
  (forall k, k ∈ locks -> k ∈ all_locks rs) ->
  exists m' g', waitfor_granted m g w locks = Some (m', g') /\ mem_ok m' /\
    built (all_locks rs) (fun x y => P x y \/ x = w /\ y ∈ locks /\ holds y) g'.
Proof.
  revert P g m. induction locks as [|k locks IH]; intros P g m B Hm Hw Hin; cbn.
  { exists m, g. split; [done|]. split; [done|]. eapply built_ext; [|done].
    intros x y. split; [by left|]. intros [?|(_ & Hy & _)]; [done|by apply not_elem_of_nil in Hy]. }
  destruct (Z.eqb_spec (pl_status (lk_lock k)) DLM_LKSTS_WAITING) as [E|E].
  - destruct (IH P g m B Hm Hw ltac:(set_solver)) as (m' & g' & E1 & Hm' & B').
    exists m', g'. split; [done|]. split; [done|]. eapply built_ext; [|done].
    intros x y. unfold holds. rewrite elem_of_cons. naive_solver.
  - assert (Hk : k ∈ all_locks rs) by (apply Hin; left).
    destruct (add_waitfor_spec _ P g m w k B Hm Hw Hk (Hmodes _ Hw) (Hmodes _ Hk)) as
      (m1 & g1 & -> & Hm1 & B1). cbn.
    destruct (IH _ g1 m1 B1 Hm1 Hw ltac:(set_solver)) as (m' & g' & E1 & Hm' & B').
    exists m', g'. split; [done|]. split; [done|]. eapply built_ext; [|done].
    intros x y. unfold holds. rewrite elem_of_cons. naive_solver.
Qed.

Lemma find_rsb_elem r : r ∈ rs -> find_rsb (rs_addr r) rs = Some r.
Proof.
  intros Hr. unfold find_rsb. destruct (List.find _ rs) as [r'|] eqn:E.
  - apply List.find_some in E as [Hr' Ha]. apply bool_decide_eq_true in Ha.
    f_equal. apply (map_inj rs_addr rs); [apply Hrs|by apply list_elem_of_In|done|done].
  - apply List.find_none with (x := r) in E; [|by apply list_elem_of_In].
    by rewrite bool_decide_eq_true_2 in E.
Qed.

(** [y] is a lock on the resource that [x] requests. *)
Definition conflict_pair (x y : dlm_lkb) : Prop :=
  requests x /\ holds y /\ exists r, r ∈ rs /\ x ∈ rs_locks r /\ y ∈ rs_locks r.

Lemma waitfor_locks_spec locks P g m :
  built (all_locks rs) P g -> mem_ok m -> (forall k, k ∈ locks -> k ∈ all_locks rs) ->
  exists m' g', waitfor_locks rs m g locks = Some (m', g') /\ mem_ok m' /\
    built (all_locks rs) (fun x y => P x y \/ x ∈ locks /\ conflict_pair x y) g'.
Proof.
  revert P g m. induction locks as [|k locks IH]; intros P g m B Hm Hin; cbn.
  { exists m, g. split; [done|]. split; [done|]. eapply built_ext; [|done].
    intros x y. split; [by left|]. intros [?|(Hx & _)]; [done|by apply not_elem_of_nil in Hx]. }
  assert (Hk : k ∈ all_locks rs) by (apply Hin; left).
  destruct (Z.eqb_spec (pl_status (lk_lock k)) DLM_LKSTS_GRANTED) as [E|E].
  - destruct (IH P g m B Hm ltac:(set_solver)) as (m' & g' & E1 & Hm' & B').
    exists m', g'. split; [done|]. split; [done|]. eapply built_ext; [|done].
    intros x y. unfold conflict_pair, requests. rewrite elem_of_cons. naive_solver.
  - apply all_locks_elem in Hk as (r & Hr & Hkr).
    rewrite (ro_ptr _ Hrs r k Hr Hkr), (find_rsb_elem r Hr). cbn.
    destruct (waitfor_granted_spec (rs_locks r) P g m k B Hm) as (m1 & g1 & -> & Hm1 & B1);
      [apply all_locks_elem; eauto|intros j Hj; apply all_locks_elem; eauto|]. cbn.
    destruct (IH _ g1 m1 B1 Hm1 ltac:(set_solver)) as (m' & g' & E1 & Hm' & B').
    exists m', g'. split; [done|]. split; [done|]. eapply built_ext; [|done].
    intros x y. unfold conflict_pair. rewrite elem_of_cons. split.
    + intros [[?|(-> & Hy & Hh)]|[Hx Hc]]; [by left|right|by right; split; [right|]].
      split; [by left|]. split; [done|]. split; [done|]. by exists r.
    + intros [?|[[->|Hx] (Hq & Hh & r' & Hr' & Hx' & Hy)]]; [by left; left| |].
      * left. right. split; [done|]. split; [|done].
        replace r with r'; [done|]. apply (map_inj rs_addr rs); [apply Hrs|done..|].
        by rewrite <- (ro_ptr _ Hrs r' k), <- (ro_ptr _ Hrs r k).
      * right. split; [done|]. split; [done|]. split; [done|]. by exists r'.
Qed.

Lemma waitfor_trans_spec trs P g m :
  built (all_locks rs) P g -> mem_ok m ->
  (forall t k, t ∈ trs -> k ∈ tr_locks t -> k ∈ all_locks rs) ->
  exists m' g', waitfor_trans rs m g trs = Some (m', g') /\ mem_ok m' /\
    built (all_locks rs)
      (fun x y => P x y \/ (exists t, t ∈ trs /\ x ∈ tr_locks t) /\ conflict_pair x y) g'.
Proof.
  revert P g m. induction trs as [|t trs IH]; intros P g m B Hm Hin; cbn.
  { exists m, g. split; [done|]. split; [done|]. eapply built_ext; [|done].
    intros x y. split; [by left|].
    intros [?|((t & Ht & _) & _)]; [done|by apply not_elem_of_nil in Ht]. }
  destruct (waitfor_locks_spec (tr_locks t) P g m B Hm) as (m1 & g1 & -> & Hm1 & B1);
    [intros k; apply Hin; left|]. cbn.
  destruct (IH _ g1 m1 B1 Hm1) as (m' & g' & E1 & Hm' & B').
  { intros u k Hu. apply Hin. by right. }
  exists m', g'. split; [done|]. split; [done|]. eapply built_ext; [|done].
  intros x y. setoid_rewrite elem_of_cons. naive_solver.
Qed.
End Build.

(** Transaction [x] requests a lock that is incompatible with one that
    transaction [y] holds. *)
Definition waits_for (rs : list dlm_rsb) (x y : Z) : Prop :=
  exists w k, conflict_pair rs w k /\ blocks w k /\ xid w = x /\ xid k = y.

Lemma listed_built L g : listed L g -> built L (fun _ _ => False) g.
Proof.
  intros [H1 H2 H3 H4 H5 H6].
  assert (Ht : forall t, t ∈ g_trans g -> targets t = []).
  { intros t Ht. destruct (H4 t Ht) as (_ & _ & _ & E). unfold targets. by rewrite E. }
  assert (Hd : forall l b, (forall t, t ∈ l -> targets t = []) -> indeg l b = 0).
  { induction l as [|t l IH]; intros b Hl; [done|]. rewrite indeg_cons, (Hl t) by left.
    rewrite bool_decide_eq_false_2 by apply not_elem_of_nil. rewrite IH; [done|set_solver]. }
  split; [split; [done..|]| |done|done|].
  - intros t Hin. destruct (H4 t Hin) as (F1 & F2 & F3 & F4).
    split; rewrite ?(Ht t Hin); [done|constructor| | |].
    + intros b Hb. by apply not_elem_of_nil in Hb.
    + apply not_elem_of_nil.
    + by rewrite F1, Hd.
  - intros t Hin. destruct (H4 t Hin) as (F1 & F2 & F3 & F4). unfold slots_ok.
    rewrite (Ht t Hin), F2, F3, F4. split; [done|]. split; [done|]. by intros [].
  - intros t u Hin _. rewrite (Ht t Hin). split; [|naive_solver].
    intros Hb. by apply not_elem_of_nil in Hb.
Qed.

(** The transactions and their graph are the relation [waits_for]. *)
Lemma build_graph_spec rs m g :
  rs_ok rs -> (forall k, k ∈ all_locks rs -> valid_modes k) -> mem_ok m -> g_trans g = [] ->
  exists m1 g1 m2 g2, create_trans_list m g rs = (m1, g1) /\
    create_waitfor_graph rs m1 g1 = Some (m2, g2) /\ mem_ok m2 /\
    represents (waits_for rs) (g_trans g2) /\
    (forall k, k ∈ all_locks rs -> xid k ∈ xids (g_trans g2)) /\
    (forall t k, t ∈ g_trans g2 -> k ∈ tr_locks t <-> k ∈ all_locks rs /\ xid k = tr_xid t).
Proof.
  intros Hrs Hmodes Hm Hg.
  assert (HL : listed [] g).
  { split; rewrite Hg; cbn; try (by constructor); set_solver. }
  destruct (create_trans_list_spec rs [] g m HL Hm (ro_lkb _ Hrs)) as (m1 & g1 & E1 & Hm1 & HL1).
  destruct (waitfor_trans_spec rs Hrs Hmodes (g_trans g1) _ g1 m1 (listed_built _ _ HL1) Hm1) as
    (m2 & g2 & E2 & Hm2 & B).
  { intros t k Ht Hk. by apply (li_locks _ _ HL1 t k Ht). }
  exists m1, g1, m2, g2. split; [done|]. split; [done|]. split; [done|].
  apply built_ext with (Q := conflict_pair rs) in B.
  2: { intros x y. split; [by intros [[]|[_ ?]]|]. intros Hc. right. split; [|done].
       destruct Hc as (_ & _ & r & Hr & Hx & _).
       assert (Hxl : x ∈ all_locks rs) by (apply all_locks_elem; eauto).
       destruct (li_ptr _ _ HL1 x Hxl) as (t & Ht & _ & Hxt). exists t. split; [done|].
       by apply (li_locks _ _ HL1 t x Ht). }
  destruct B as [B1 B2 B3 B4 B5].
  assert (Hxids : forall k, k ∈ all_locks rs -> xid k ∈ xids (g_trans g2)).
  { intros k Hk. destruct (B3 k Hk) as (t & Ht & _ & E). apply xids_elem. eauto. }
  split; [|by split]. split; [done|done|].
  intros t y Ht (w & k & (_ & _ & r & Hr & _ & Hk) & _ & _ & <-). left.
  apply Hxids, all_locks_elem. eauto.
Qed.

(** ** Cancelling *)

(** What removing [b] from the array of [a] does, [d] being 1 when it was there. *)
Record cut (a b : nat) (d : Z) (t t' : trans) : Prop := {
  cu_same : same_trans t t';
  cu_targets : targets t' =
    if bool_decide (tr_addr t = a) then filter (fun c => c <> b) (targets t) else targets t;
  cu_others : tr_others t' = tr_others t - if bool_decide (tr_addr t = b) then d else 0;
  cu_count : tr_count t' = length (targets t')
}.

Lemma cut_indeg a b d c l l' :
  Forall2 (cut a b d) l l' -> NoDup (addrs l) ->
  (forall t, t ∈ l -> tr_addr t = a -> d = if bool_decide (b ∈ targets t) then 1 else 0) ->
  a ∈ addrs l \/ d = 0 -> indeg l' c = indeg l c - if bool_decide (c = b) then d else 0.
Proof.
  induction 1 as [|t t' l l' [_ T1 _ _] HF IH]; intros Hnd Hd Ha.
  { destruct Ha as [Ha| ->]; [by apply not_elem_of_nil in Ha|].
    unfold indeg; cbn. by case_bool_decide. }
  cbn in Hnd. apply NoDup_cons in Hnd as [Ht Hnd]. rewrite !indeg_cons, T1.
  destruct (bool_decide_reflect (tr_addr t = a)) as [E|E].
  - assert (Hl : indeg l' c = indeg l c).
    { clear IH Hd Ha. rewrite E in Ht. induction HF as [|u u' l l' [_ T2 _ _] HF IH]; [done|].
      cbn in Ht, Hnd. apply not_elem_of_cons in Ht as [Hne Ht]. apply NoDup_cons in Hnd as [_ Hnd].
      rewrite !indeg_cons, T2, (bool_decide_eq_false_2 (tr_addr u = a)), (IH Ht Hnd)
        by congruence. done. }
    rewrite Hl, (Hd t ltac:(left) E).
    assert (Hc : c ∈ filter (fun c => c <> b) (targets t) <-> c <> b /\ c ∈ targets t)
      by (rewrite list_elem_of_filter; done).
    rewrite (bool_decide_ext _ _ Hc). repeat case_bool_decide; naive_solver lia.
  - rewrite IH; [lia|done|set_solver|]. destruct Ha as [Ha|Ha]; [|by right].
    left. cbn in Ha. by apply elem_of_cons in Ha as [->|Ha].
Qed.

Lemma cut_addrs a b d l l' : Forall2 (cut a b d) l l' -> addrs l' = addrs l /\ xids l' = xids l.
Proof.
  induction 1 as [|t t' l l' [(H1 & H2 & H3) _ _ _] _ [IH1 IH2]]; [done|].
  cbn. rewrite H1, H2. unfold addrs, xids in *. by rewrite IH1, IH2.
Qed.

Lemma cut_ok t b l l' :
  graph_ok l -> t ∈ l ->
  Forall2 (cut (tr_addr t) b (if bool_decide (b ∈ targets t) then 1 else 0)) l l' ->
  graph_ok l'.
Proof.
  intros [Ha Hx Ho] Ht HF. destruct (cut_addrs _ _ _ _ _ HF) as [Ea Ex].
  split; [by rewrite Ea|by rewrite Ex|]. intros u' Hu'.
  destruct (Forall2_elem_r _ _ _ _ HF Hu') as (u & Hu & [(H1 & _ & _) H4 H5 H6]).
  destruct (Ho u Hu) as [O1 O2 O3 O4 O5].
  assert (Hsub : forall c, c ∈ targets u' -> c ∈ targets u).
  { intros c. rewrite H4. destruct (bool_decide_reflect (tr_addr u = tr_addr t)); [|done].
    rewrite list_elem_of_filter. tauto. }
  split; [done|..].
  - rewrite H4. destruct (bool_decide_reflect (tr_addr u = tr_addr t)); [|done].
    by apply NoDup_filter.
  - intros c Hc. rewrite Ea. auto.
  - rewrite H1. auto.
  - rewrite H5, H1, O5, (cut_indeg _ _ _ _ _ _ HF Ha); [done| |left; apply addrs_elem; eauto].
    intros v Hv E. by rewrite (addr_inj _ _ _ Ha Hv Ht E).
Qed.

Lemma remove_waitfor_of_spec l t b :
  graph_ok l -> t ∈ l ->
  exists l', remove_waitfor_of (tr_addr t) b l = Some l' /\ graph_ok l' /\
    addrs l' = addrs l /\ xids l' = xids l.
Proof.
  intros Hok Ht. pose proof Hok as [Ha Hx Ho]. destruct (Ho t Ht) as [O1 O2 O3 O4 _].
  unfold remove_waitfor_of. rewrite (find_tr_elem l t Ha Ht). cbn.
  destruct (remove_waitfor_spec t b (from_option tr_others 0 (find_tr b l)) O1 O2) as (t' & -> & Hd).
  cbn. eexists. split; [reflexivity|].
  set (d := if bool_decide (b ∈ targets t) then 1 else 0).
  assert (Hdb : tr_addr t = b -> d = 0).
  { intros <-. unfold d. by rewrite bool_decide_eq_false_2. }
  match goal with |- graph_ok ?l2 /\ _ => assert (HF : Forall2 (cut (tr_addr t) b d) l l2) end.
  { unfold upd_tr. rewrite map_map. apply Forall2_fmap_r, Forall_Forall2_diag, Forall_forall.
    intros u Hu. unfold compose. destruct Hd as [(D1 & D2 & D3) D4 D5 D6].
    destruct (Ho u Hu) as [P1 _ _ _ _].
    destruct (bool_decide_reflect (tr_addr u = tr_addr t)) as [E|E].
    - rewrite (addr_inj _ _ _ Ha Hu Ht E), D1 in *.
      destruct (bool_decide_reflect (tr_addr t = b)) as [Eb|Eb];
        (split; [done|by rewrite bool_decide_eq_true_2| |done]).
      + rewrite (bool_decide_eq_true_2 (tr_addr t = b)), Hdb by done. cbn. lia.
      + rewrite (bool_decide_eq_false_2 (tr_addr t = b)) by done. lia.
    - destruct (bool_decide_reflect (tr_addr u = b)) as [Eb|Eb];
        (split; [done|by rewrite bool_decide_eq_false_2| |done]).
      + rewrite (bool_decide_eq_true_2 (tr_addr u = b)) by done. cbn. lia.
      + rewrite (bool_decide_eq_false_2 (tr_addr u = b)) by done. lia. }
  destruct (cut_addrs _ _ _ _ _ HF). split; [by eapply cut_ok|done].
Qed.

(** The message that cancels a request. *)
Definition cancel_msg (k : dlm_lkb) : dl_effect :=
  DSend CANCEL_LOCK (u32 (lk_home k))
    (if pl_nodeid (lk_lock k) =? 0 then pl_id (lk_lock k) else pl_remid (lk_lock k)).

Lemma send_message_ok m out ty to d : mem_ok m ->
  exists m', send_message m out ty to d = (m', out ++ [DSend ty to d]) /\ mem_ok m'.
Proof.
  intros Hm. unfold send_message. destruct (mem_ok_malloc m Hm) as (v & m' & -> & Hm'). eauto.
Qed.

Lemma cancel_locks_spec wft t m l out locks :
  graph_ok l -> mem_ok m -> tr_addr t ∈ addrs l ->
  exists m' l', cancel_locks wft (tr_addr t) m l out locks =
      Some (m', l', out ++ map cancel_msg (filter requests locks)) /\
    graph_ok l' /\ mem_ok m'.
Proof.
  revert m l out. induction locks as [|k locks IH]; intros m l out Hok Hm Ht; cbn [cancel_locks].
  { exists m, l. by rewrite filter_nil, app_nil_r. }
  rewrite filter_cons. destruct (Z.eqb_spec (pl_status (lk_lock k)) DLM_LKSTS_GRANTED) as [E|E].
  { rewrite decide_False by (unfold requests; tauto). by apply IH. }
  rewrite decide_True by done. unfold send_cancel_lock.
  match goal with |- context [send_message m out ?ty ?to ?d] =>
    destruct (send_message_ok m out ty to d Hm) as (m1 & -> & Hm1) end.
  assert (H : exists l1, (match wft !! lk_addr k with
    | Some b => remove_waitfor_of (tr_addr t) b l | None => Some l end) = Some l1 /\
    graph_ok l1 /\ addrs l1 = addrs l).
  { destruct (wft !! lk_addr k) as [b|]; [|by exists l].
    apply addrs_elem in Ht as (u & Hu & <-).
    destruct (remove_waitfor_of_spec l u b Hok Hu) as (l1 & E1 & H1 & A1 & _). by exists l1. }
  destruct H as (l1 & -> & H1 & A1). cbn [mbind option_bind].
  destruct (IH m1 l1 (out ++ [cancel_msg k]) H1 Hm1) as (m' & l' & E' & H'); [by rewrite A1|].
  exists m', l'. split; [|done]. unfold cancel_msg at 1 in E'. rewrite E'.
  by rewrite <- app_assoc.
Qed.

(** The relation that a list of transactions represents by itself. *)
Definition own_edges (l : list trans) (x y : Z) : Prop :=
  exists t u, t ∈ l /\ u ∈ l /\ tr_xid t = x /\ tr_xid u = y /\ tr_addr u ∈ targets t.

Lemma own_represents l : graph_ok l -> represents (own_edges l) l.
Proof.
  intros Hok. split; [done| |].
  - intros t u Ht Hu. split; [by exists t, u|].
    intros (t' & u' & Ht' & Hu' & E1 & E2 & Hin).
    rewrite <- (map_inj tr_xid l t' t), <- (map_inj tr_xid l u' u); try done; apply Hok.
  - intros t y Ht (t' & u' & Ht' & Hu' & E1 & E2 & Hin). left. apply xids_elem. eauto.
Qed.

(** The transaction to cancel exists when something is left, and waits. *)
Lemma find_trans_to_cancel_spec l :
  graph_ok l -> l <> [] -> (forall t, t ∈ l -> tr_count t <> 0%nat) ->
  exists t, find_trans_to_cancel l = Some t /\ t ∈ l.
Proof.
  intros Hok Hne Hc. destruct (find_trans_to_cancel l) as [t|] eqn:E.
  { exists t. split; [done|]. apply List.find_some in E as [Hi _]. by apply list_elem_of_In. }
  destruct l as [|t l]; [done|]. exfalso.
  assert (Ht : t ∈ t :: l) by left. destruct (g_each _ Hok t Ht) as [O1 _ O3 _ _].
  specialize (Hc t Ht). destruct (targets t) as [|b bs] eqn:Eb; [cbn in O1; lia|].
  destruct (proj1 (addrs_elem b (t :: l))) as (u & Hu & <-); [apply O3; left|].
  apply List.find_none with (x := u) in E; [|by apply list_elem_of_In].
  zbool. rewrite (ok_others _ _ (g_each _ Hok u Hu)) in E.
  apply (indeg_zero _ _ E t Ht). rewrite Eb. left.
Qed.

Lemma cancel_trans_spec m g :
  graph_ok (g_trans g) -> mem_ok m -> g_trans g <> [] ->
  (forall t, t ∈ g_trans g -> tr_count t <> 0%nat) ->
  exists t m' l', t ∈ g_trans g /\ mem_ok m' /\ graph_ok l' /\
    cancel_trans m g [] = Some (m', l', map cancel_msg (filter requests (tr_locks t))).
Proof.
  intros Hok Hm Hne Hc. destruct (find_trans_to_cancel_spec _ Hok Hne Hc) as (t & E & Ht).
  unfold cancel_trans. rewrite E.
  destruct (cancel_locks_spec (g_wft g) t m (g_trans g) [] (tr_locks t) Hok Hm) as
    (m' & l & -> & Hl & Hm'); [apply addrs_elem; eauto|]. cbn.
  destruct (reduce_pass_spec _ l 0 (addrs l) (own_represents l Hl) (g_addrs _ Hl)) as
    (l' & n & E' & R & _); [done|].
  unfold reduce_waitfor_graph. fold (addrs l). rewrite E'.
  exists t, m', l'. split; [done|]. split; [done|]. split; [apply R|done].
Qed.

(** C12: When memory does not run out, [find_deadlock] always comes to a
    verdict and ends the cycle, and the verdict is right: without a cycle of
    transactions that wait for each other it reports none and cancels nothing;
    with one it cancels exactly the requests of one transaction, and that
    transaction waits, directly or through others, for a cycle. *)
Theorem find_deadlock_correct rs m g :
  rs <> [] -> rs_ok rs -> (forall k, k ∈ all_locks rs -> valid_modes k) ->
  mem_ok m -> g_trans g = [] ->
  exists v m' g' out,
    find_deadlock rs m g = Some (v, m', g', out ++ [DSend CYCLE_END 0 0]) /\
    ((forall x, ~ on_cycle (waits_for rs) x) /\ v = NoDeadlock /\ out = [] \/
     (exists x, on_cycle (waits_for rs) x) /\ (v = Resolved \/ v = ResolutionFailed) /\
     exists x, deadlocked (waits_for rs) x /\ forall e, e ∈ out <->
       exists k, k ∈ all_locks rs /\ xid k = x /\ requests k /\ e = cancel_msg k).
Proof.
  intros Hne Hrs Hmodes Hm Hg.
  destruct (build_graph_spec rs m g Hrs Hmodes Hm Hg) as
    (m1 & g1 & m2 & g2 & E1 & E2 & Hm2 & R & Hx & Hlk).
  destruct (reduce_waitfor_graph_loop_spec _ _ R) as (l & E3 & Rd & Hc).
  pose proof (reduced_deadlocked _ _ _ Rd Hc) as Hdl.
  unfold find_deadlock. destruct rs as [|r rs']; [done|]. rewrite Hg. unfold detect.
  rewrite E1, E2. cbn [mbind option_bind]. rewrite E3. cbn [mbind option_bind].
  destruct l as [|t0 l0].
  - destruct (send_message_ok m2 [] CYCLE_END 0 0 Hm2) as (m3 & E4 & _).
    cbn [mbind option_bind]. rewrite E4. eexists NoDeadlock, m3, _, []. split; [done|]. left.
    split; [|done]. intros x Hcy.
    assert (Hxx : x ∈ xids (g_trans g2)).
    { assert (H : exists y, waits_for (r :: rs') x y) by (inversion Hcy; eauto).
      destruct H as (y & w & k & (_ & _ & r0 & Hr0 & Hw & _) & _ & <- & _).
      apply Hx, all_locks_elem. eauto. }
    apply xids_elem in Hxx as (t & Ht & <-).
    apply (not_elem_of_nil (tr_xid t)). apply (Hdl t Ht). by exists (tr_xid t).
  - destruct (cancel_trans_spec m2 (g_set_trans g2 (t0 :: l0))) as (t & m3 & l3 & Ht & Hm3 & Hl3 & E4);
      [apply Rd|done|done|done|]. rewrite E4. cbn [mbind option_bind].
    destruct (reduce_waitfor_graph_loop_spec _ _ (own_represents l3 Hl3)) as (l4 & E5 & _).
    rewrite E5. cbn [mbind option_bind].
    match goal with |- context [send_message m3 ?o _ _ _] =>
      destruct (send_message_ok m3 o CYCLE_END 0 0 Hm3) as (m4 & -> & _) end.
    eexists _, m4, _, _. split; [reflexivity|]. right.
    destruct (rd_sub _ _ _ Rd t Ht) as (t' & Ht' & _ & Xt & Lt).
    assert (Hd : deadlocked (waits_for (r :: rs')) (tr_xid t')).
    { apply (Hdl t' Ht'). apply xids_elem. eauto. }
    split; [destruct Hd as (y & _ & Hy); eauto|]. split; [destruct l4; auto|].
    exists (tr_xid t'). split; [done|]. intros e. rewrite list_elem_of_fmap.
    setoid_rewrite list_elem_of_filter. rewrite Lt. setoid_rewrite (Hlk t' _ Ht'). naive_solver.
Qed.

(** *** Concrete lock tables *)

(** The pairs of [waits_for], computed. *)
Definition edges (rs : list dlm_rsb) : list (Z * Z) :=
  r ← rs; w ← rs_locks r; k ← rs_locks r;
  if negb (pl_status (lk_lock w) =? DLM_LKSTS_GRANTED) &&
     negb (pl_status (lk_lock k) =? DLM_LKSTS_WAITING) && negb (xid w =? xid k) &&
     bool_decide (dlm_modes_compat (pl_grmode (lk_lock k)) (pl_rqmode (lk_lock w)) = Some 0)
  then [(xid w, xid k)] else [].

Lemma edges_spec rs x y : waits_for rs x y <-> (x, y) ∈ edges rs.
Proof.
  unfold edges. rewrite list_elem_of_bind. setoid_rewrite list_elem_of_bind.
  setoid_rewrite list_elem_of_bind. split.
  - intros (w & k & (Hw & Hk & r & Hr & Hwr & Hkr) & (Hb & Hm) & <- & <-).
    exists r. split; [|done]. exists w. split; [|done]. exists k. split; [|done].
    rewrite bool_decide_eq_true_2 by done. unfold requests, holds in *.
    rewrite !(proj2 (Z.eqb_neq _ _)) by done. left.
  - intros (r & (w & (k & Hxy & Hkr) & Hwr) & Hr). zcase_in Hxy; [|by apply not_elem_of_nil in Hxy].
    apply list_elem_of_singleton in Hxy. simplify_eq. destruct_and?.
    exists w, k. split; [|split; [split; [done|by eapply bool_decide_eq_true_1]|done]].
    split; [done|]. split; [done|]. by exists r.
Qed.

Definition empty_graph : graph := mkG [] ∅ ∅ 0.

(** A lock of transaction [x] at address [a] on the resource at [r]. *)
Definition tlock (a r : nat) (x status gr rq : Z) : dlm_lkb :=
  mkLkb a (mkPl x (Z.of_nat a) 0 0 0 0 0 status gr rq LOCAL_COPY) 1 r.

Definition has_PR (a r : nat) (x : Z) := tlock a r x DLM_LKSTS_GRANTED 3 (-1).
Definition has_EX (a r : nat) (x : Z) := tlock a r x DLM_LKSTS_GRANTED 5 (-1).
Definition wants_EX (a r : nat) (x : Z) := tlock a r x DLM_LKSTS_WAITING (-1) 5.

(** Two transactions that each hold what the other requests. *)
Definition two_cycle : list dlm_rsb :=
  [mkRsb 0 [65] 1 [has_EX 1 0 11; wants_EX 2 0 12]; mkRsb 3 [66] 1 [has_EX 4 3 12; wants_EX 5 3 11]].

Lemma find_deadlock_correct_witness :
  exists v m' g' out,
    find_deadlock two_cycle [] empty_graph = Some (v, m', g', out ++ [DSend CYCLE_END 0 0]) /\
    v = Resolved.
Proof.
  destruct (find_deadlock_correct two_cycle [] empty_graph) as (v & m' & g' & out & E & _).
  - done.
  - split; [by apply (bool_decide_unpack _)|by apply (bool_decide_unpack _)|].
    intros r k Hr Hk. unfold two_cycle in Hr.
    repeat (apply elem_of_cons in Hr as [->|Hr];
      [repeat (apply elem_of_cons in Hk as [->|Hk]; [done|]); by apply not_elem_of_nil in Hk|]).
    by apply not_elem_of_nil in Hr.
  - intros k Hk. unfold two_cycle, all_locks in Hk. cbn in Hk.
    repeat (apply elem_of_cons in Hk as [->|Hk]; [unfold valid_modes, valid_mode; cbn; lia|]).
    by apply not_elem_of_nil in Hk.
  - constructor.
  - done.
  - exists v, m', g', out. split; [done|].
    assert (E2 : option_map (fun p => fst (fst (fst p))) (find_deadlock two_cycle [] empty_graph)
      = Some Resolved) by (vm_compute; reflexivity).
    rewrite E in E2. cbn in E2. congruence.
Defined.

(** *** Defects of the resolution *)

(** Transactions 13 and 14 wait for each other; 12 waits for 14 and 11 for 12. *)
Definition chain_to_cycle : list dlm_rsb :=
  [mkRsb 0 [65] 1 [has_EX 1 0 13; wants_EX 2 0 14];
   mkRsb 3 [66] 1 [has_EX 4 3 14; wants_EX 5 3 13; wants_EX 6 3 12];
   mkRsb 7 [67] 1 [has_EX 8 7 12; wants_EX 9 7 11]].

Lemma tc_first {A} (R : relation A) x z : tc R x z -> exists y, R x y.
Proof. inversion 1; eauto. Qed.

Lemma tc_last {A} (R : relation A) x z : tc R x z -> exists y, R y z /\ (y = x \/ tc R x y).
Proof.
  induction 1 as [x z H|x y z H _ IH]; [by exists x; auto|].
  destruct IH as (u & Hu & [->|Ht]); exists u || exists y; split; try done; right.
  - by apply tc_once.
  - by eapply tc_l.
Qed.

(** [cancel_trans] takes the first transaction that another one waits
    for, which need not be on a cycle: here the cycle of 13 and 14 stays, a
    request of transaction 12 is cancelled although 12 is on no cycle, and the
    resolution fails. *)
Theorem off_cycle_victim :
  (exists m g, find_deadlock chain_to_cycle [] empty_graph =
     Some (ResolutionFailed, m, g, [cancel_msg (wants_EX 6 3 12); DSend CYCLE_END 0 0])) /\
  ~ on_cycle (waits_for chain_to_cycle) 12 /\ on_cycle (waits_for chain_to_cycle) 13.
Proof.
  assert (He : edges chain_to_cycle = [(14, 13); (13, 14); (12, 14); (11, 12)])
    by (vm_compute; reflexivity).
  assert (Hpre : forall x y, waits_for chain_to_cycle x y -> y = 12 -> x = 11).
  { intros x y H ->. apply edges_spec in H. rewrite He in H. set_solver. }
  assert (Hpre1 : forall x y, waits_for chain_to_cycle x y -> y <> 11).
  { intros x y H ->. apply edges_spec in H. rewrite He in H. set_solver. }
  split; [eexists _, _; vm_compute; reflexivity|]. split.
  - intros H. apply tc_last in H as (y & Hy & Hr).
    rewrite (Hpre y 12 Hy eq_refl) in Hr. destruct Hr as [?|Hr]; [done|].
    apply tc_last in Hr as (z & Hz & _). by apply (Hpre1 z 11).
  - apply tc_l with 14; [|apply tc_once]; apply edges_spec; rewrite He; set_solver.
Qed.

(** Transactions 11 and 12 share what 13 requests, and both wait for 13. *)
Definition shared_holders : list dlm_rsb :=
  [mkRsb 0 [65] 1 [has_PR 1 0 11; has_PR 2 0 12; wants_EX 3 0 13];
   mkRsb 4 [66] 1 [has_EX 5 4 13; wants_EX 6 4 11; wants_EX 7 4 12]].

(** A lock remembers in [waitfor_trans] only the last transaction that
    blocks it.  Here the one request of 13 is blocked by two transactions, its
    cancellation would break every cycle, and it is cancelled; but the array of
    13 keeps one entry, 13 is not removed, and the resolution is reported as
    failed. *)
Theorem shared_lock_resolution_fails :
  (exists m g, find_deadlock shared_holders [] empty_graph =
     Some (ResolutionFailed, m, g, [cancel_msg (wants_EX 3 0 13); DSend CYCLE_END 0 0])) /\
  forall x, ~ tc (fun a b => waits_for shared_holders a b /\ a <> 13) x x.
Proof.
  assert (He : edges shared_holders = [(13, 11); (13, 12); (11, 13); (12, 13)])
    by (vm_compute; reflexivity).
  split; [eexists _, _; vm_compute; reflexivity|]. intros x Hx.
  assert (Hto : forall a b, waits_for shared_holders a b /\ a <> 13 -> b = 13).
  { intros a b [H Hn]. apply edges_spec in H. rewrite He in H. set_solver. }
  destruct (tc_last _ _ _ Hx) as (y & Hy & _). apply Hto in Hy. subst x.
  by apply tc_first in Hx as (y' & _ & Hn).
Qed.

(** The message that cancels a lock is addressed to the node where the
    owner of the lock lives, but the receiver compares its own id with the
    sender's: a node never carries out the cancellation of another node, and
    the sender carries it out on its own lock of that number. *)
Theorem cancel_obeyed_by_sender m out k m' out' sender receiver opened :
  send_cancel_lock m out k = (m', out') -> mem_ok m ->
  exists to lkid, out' = out ++ [DSend CANCEL_LOCK to lkid] /\ to = u32 (lk_home k) /\
    (receiver <> sender -> receive_cancel_lock receiver opened sender lkid = []) /\
    receive_cancel_lock sender true sender lkid = [DDeadlockCancel lkid].
Proof.
  unfold send_cancel_lock. intros E Hm.
  match type of E with send_message _ _ ?a ?b ?c = _ =>
    destruct (send_message_ok m out a b c Hm) as (m1 & E1 & _); exists b, c end.
  rewrite E1 in E. simplify_eq. split; [done|]. split; [done|]. unfold receive_cancel_lock. split.
  - intros Hne. by rewrite (proj2 (Z.eqb_neq sender receiver)) by congruence.
  - by rewrite Z.eqb_refl.
Qed.

(** Node 1 resolves, the lock lives on node 2. *)
Lemma cancel_obeyed_by_sender_witness :
  exists to lkid, [DSend CANCEL_LOCK 2 77] = [DSend CANCEL_LOCK to lkid] /\ to = 2 /\
    (2 <> 1 -> receive_cancel_lock 2 true 1 lkid = []) /\
    receive_cancel_lock 1 true 1 lkid = [DDeadlockCancel lkid].
Proof.
  apply (cancel_obeyed_by_sender [] []
    (mkLkb 0 (mkPl 5 77 0 0 0 0 0 DLM_LKSTS_WAITING (-1) 5 LOCAL_COPY) 2 0) [] _ 1 2 true).
  - reflexivity.
  - constructor.
Defined.

(** ** The collected locks *)

Record locks_ok (ls : locks_state) : Prop := {
  lo_rs : rs_ok (ls_resources ls);
  lo_rsb : forall r, r ∈ ls_resources ls -> (rs_addr r < ls_next ls)%nat;
  lo_lkb : forall k, k ∈ all_locks (ls_resources ls) -> (lk_addr k < ls_next ls)%nat;
  lo_names : ForallOrdPairs
    (fun r r' => rs_len r = rs_len r' -> strneq (Z.to_nat (rs_len r)) (rs_name r) (rs_name r') = false)
    (ls_resources ls)
}.

Lemma find_rsb_Some a l r : find_rsb a l = Some r -> r ∈ l /\ rs_addr r = a.
Proof.
  intros H. apply List.find_some in H as [Hi Ha].
  split; [by apply list_elem_of_In|]. by apply bool_decide_eq_true in Ha.
Qed.

Lemma all_locks_cons r rs : all_locks (r :: rs) = rs_locks r ++ all_locks rs.
Proof. done. Qed.

Lemma upd_rsb_none a f rs : a ∉ map rs_addr rs -> upd_rsb a f rs = rs.
Proof.
  induction rs as [|r rs IH]; intros Ha; [done|]. cbn in Ha |- *.
  rewrite bool_decide_eq_false_2 by set_solver. f_equal. apply IH. set_solver.
Qed.

(** A lock put in front of the locks of one resource. *)
Lemma upd_rsb_new a k rs : NoDup (map rs_addr rs) -> a ∈ map rs_addr rs ->
  all_locks (upd_rsb a (fun r => rs_set_locks (k :: rs_locks r) r) rs) ≡ₚ k :: all_locks rs.
Proof.
  induction rs as [|r rs IH]; intros Hnd Ha; [by apply not_elem_of_nil in Ha|].
  cbn in Hnd, Ha. apply NoDup_cons in Hnd as [Hr Hnd].
  change (upd_rsb a ?f (r :: rs)) with
    ((if bool_decide (rs_addr r = a) then f r else r) :: upd_rsb a f rs).
  rewrite !all_locks_cons. case_bool_decide as E.
  - by rewrite upd_rsb_none by (rewrite <- E; done).
  - rewrite IH; [|done|set_solver]. by rewrite Permutation_middle.
Qed.

Lemma upd_rsb_rsbs a f rs : (forall r, rs_addr (f r) = rs_addr r) ->
  map rs_addr (upd_rsb a f rs) = map rs_addr rs.
Proof. intros Hf. unfold upd_rsb. rewrite map_map. apply map_ext. intros r. by case_bool_decide. Qed.

Lemma upd_rsb_elem a f rs r : r ∈ upd_rsb a f rs ->
  exists r0, r0 ∈ rs /\ r = (if bool_decide (rs_addr r0 = a) then f r0 else r0).
Proof. intros H. apply list_elem_of_fmap in H as (r0 & -> & H). eauto. Qed.

Lemma add_lock_fields_addr n lock k :
  lk_addr (add_lock_fields n lock k) = lk_addr k /\ lk_rsb (add_lock_fields n lock k) = lk_rsb k.
Proof. unfold add_lock_fields. by repeat case_match. Qed.

Lemma upd_lkb_addrs a n lock l :
  map lk_addr (upd_lkb a (add_lock_fields n lock) l) = map lk_addr l.
Proof.
  unfold upd_lkb. rewrite map_map. apply map_ext. intros k. case_bool_decide; [|done].
  apply add_lock_fields_addr.
Qed.

Lemma upd_locks_addrs a f rs :
  (forall r, map lk_addr (rs_locks (f r)) = map lk_addr (rs_locks r)) ->
  map lk_addr (all_locks (upd_rsb a f rs)) = map lk_addr (all_locks rs).
Proof.
  intros Hf. induction rs as [|r rs IH]; [done|].
  change (upd_rsb a f (r :: rs)) with
    ((if bool_decide (rs_addr r = a) then f r else r) :: upd_rsb a f rs).
  rewrite !all_locks_cons, !map_app, IH. f_equal. by case_bool_decide.
Qed.

Lemma ForallOrdPairs_map {A B} (R : B -> B -> Prop) (f : A -> B) l :
  ForallOrdPairs R (map f l) <-> ForallOrdPairs (fun x y => R (f x) (f y)) l.
Proof.
  induction l as [|x l IH]; cbn; [split; constructor|].
  rewrite !ForallOrdPairs_cons, IH. split; intros [H1 H2]; (split; [|done]).
  - intros q Hq. apply H1. by apply list_elem_of_fmap_2.
  - intros q Hq. apply list_elem_of_fmap in Hq as (y & -> & Hy). by apply H1.
Qed.

Lemma names_upd a f rs (R : Z -> list Z -> Z -> list Z -> Prop) :
  (forall r, rs_name (f r) = rs_name r /\ rs_len (f r) = rs_len r) ->
  ForallOrdPairs (fun r r' => R (rs_len r) (rs_name r) (rs_len r') (rs_name r')) rs ->
  ForallOrdPairs (fun r r' => R (rs_len r) (rs_name r) (rs_len r') (rs_name r')) (upd_rsb a f rs).
Proof.
  intros Hf H. unfold upd_rsb. apply ForallOrdPairs_map.
  assert (Hg : forall r, rs_len (if bool_decide (rs_addr r = a) then f r else r) = rs_len r /\
    rs_name (if bool_decide (rs_addr r = a) then f r else r) = rs_name r).
  { intros r. destruct (Hf r). by case_bool_decide. }
  induction H as [|r rs Hr H IH]; constructor; [|done].
  eapply Forall_impl; [exact Hr|]. intros r' HR. cbn in HR.
  destruct (Hg r) as [-> ->], (Hg r') as [-> ->]. done.
Qed.

Lemma strneq_sym n a b : strneq n a b = strneq n b a.
Proof.
  revert a b. induction n as [|n IH]; intros a b; [done|]. cbn -[default Z.eqb].
  rewrite (Z.eqb_sym (default 0 (head b))).
  destruct (Z.eqb_spec (default 0 (head a)) (default 0 (head b))) as [E|E]; [|done].
  rewrite <- E. cbn -[default Z.eqb]. by rewrite IH.
Qed.

Lemma strneq_take n a b : strneq n (take n a) b = strneq n a b.
Proof.
  revert a b. induction n as [|n IH]; intros [|x a] b; try done.
  cbn -[Z.eqb]. by rewrite IH.
Qed.

Lemma get_resource_ok m ls name len o m' ls' :
  locks_ok ls -> get_resource m ls name len = (o, m', ls') -> locks_ok ls'.
Proof.
  intros H E. unfold get_resource in E. destruct (List.find _ _) as [r|] eqn:Ef; [by simplify_eq|].
  destruct (malloc m) as [[v|] m1]; simplify_eq; [|done].
  destruct H as [[R1 R2 R3] H2 H3 H4]. split; [split|..]; cbn.
  - apply NoDup_cons. split; [|done]. intros Ha.
    apply list_elem_of_fmap in Ha as (r & Ea & Hr). apply H2 in Hr. lia.
  - done.
  - intros r k Hr Hk. apply elem_of_cons in Hr as [->|Hr]; [by apply not_elem_of_nil in Hk|auto].
  - intros r Hr. apply elem_of_cons in Hr as [->|Hr]; [cbn; lia|]. apply H2 in Hr. lia.
  - intros k Hk. apply H3 in Hk. lia.
  - apply ForallOrdPairs_cons. split; [|done]. cbn. intros r Hr El.
    apply List.find_none with (x := r) in Ef; [|by apply list_elem_of_In].
    unfold rsb_match in Ef. rewrite <- El, Z.eqb_refl in Ef. cbn in Ef.
    by rewrite strneq_take, strneq_sym.
Qed.

(** The updates of [add_lock] that keep or add addresses. *)
Lemma upd_rsb_ok a f ls next :
  locks_ok ls -> (ls_next ls <= next)%nat ->
  (forall r, rs_addr (f r) = rs_addr r /\ rs_name (f r) = rs_name r /\ rs_len (f r) = rs_len r) ->
  NoDup (map lk_addr (all_locks (upd_rsb a f (ls_resources ls)))) ->
  (forall k, k ∈ all_locks (upd_rsb a f (ls_resources ls)) -> (lk_addr k < next)%nat) ->
  (forall r k, r ∈ ls_resources ls -> rs_addr r = a -> k ∈ rs_locks (f r) -> lk_rsb k = a) ->
  locks_ok (mkLs (upd_rsb a f (ls_resources ls)) next).
Proof.
  intros [[R1 R2 R3] H2 H3 H4] Hn Hf Hnd Hb Hp. split; [split|..]; cbn.
  - rewrite upd_rsb_rsbs; [done|apply Hf].
  - done.
  - intros r k Hr Hk. apply upd_rsb_elem in Hr as (r0 & Hr0 & ->). case_bool_decide as E.
    + destruct (Hf r0) as [-> _]. rewrite E. by eapply Hp.
    + by apply R3.
  - intros r Hr. apply upd_rsb_elem in Hr as (r0 & Hr0 & ->). apply H2 in Hr0.
    case_bool_decide; [destruct (Hf r0) as [-> _]|]; lia.
  - done.
  - apply (names_upd a f (ls_resources ls) (fun l n l' n' => l = l' -> strneq (Z.to_nat l) n n' = false));
      [intros r; destruct (Hf r); tauto|done].
Qed.

Lemma add_lock_ok m ls ra n lock m' ls' :
  locks_ok ls -> add_lock m ls ra n lock = (m', ls') -> locks_ok ls'.
Proof.
  intros H E. unfold add_lock in E. destruct (find_rsb ra _) as [r|] eqn:Ef; [|by simplify_eq].
  apply find_rsb_Some in Ef as [Hr <-]. pose proof H as [[R1 R2 R3] H2 H3 H4].
  destruct (get_lkb r lock) as [lkb|].
  - simplify_eq. apply upd_rsb_ok; [done|lia|done| | |].
    + rewrite upd_locks_addrs; [done|]. intros r0. apply upd_lkb_addrs.
    + intros k Hk. assert (Hm : lk_addr k ∈ map lk_addr (all_locks (ls_resources ls))).
      { erewrite <- upd_locks_addrs; [by apply list_elem_of_fmap_2|]. intros r0. apply upd_lkb_addrs. }
      apply list_elem_of_fmap in Hm as (j & -> & Hj). by apply H3.
    + intros r0 k Hr0 Ea Hk. rewrite <- Ea.
      apply list_elem_of_fmap in Hk as (j & -> & Hj).
      case_bool_decide; [rewrite (proj2 (add_lock_fields_addr _ _ _))|]; by apply R3.
  - destruct (malloc m) as [[v|] m1]; simplify_eq; [|done].
    set (new := add_lock_fields n lock (mkLkb (ls_next ls) zero_lock 0 (rs_addr r))).
    assert (Hnew : lk_addr new = ls_next ls /\ lk_rsb new = rs_addr r) by apply add_lock_fields_addr.
    assert (HP := upd_rsb_new (rs_addr r) new (ls_resources ls) R1
                    (list_elem_of_fmap_2 rs_addr _ _ Hr)).
    apply upd_rsb_ok; [done|lia|done| | |].
    + rewrite HP. cbn. apply NoDup_cons. split; [|done]. rewrite (proj1 Hnew). intros Hi.
      apply list_elem_of_fmap in Hi as (j & Ej & Hj). apply H3 in Hj. lia.
    + intros k. rewrite HP. intros Hk. apply elem_of_cons in Hk as [->|Hk]; [lia|].
      apply H3 in Hk. lia.
    + intros r0 k Hr0 Ea Hk. cbn in Hk. apply elem_of_cons in Hk as [->|Hk]; [apply Hnew|].
      rewrite <- Ea. by apply R3.
Qed.

Lemma debugfs_loop_ok our m ls lines m' ls' :
  locks_ok ls -> debugfs_loop our m ls lines = Some (m', ls') -> locks_ok ls'.
Proof.
  revert m ls. induction lines as [|d lines IH]; intros m ls H E; cbn in E; [by simplify_eq|].
  destruct (dbg_fields d) as [[lock len]|]; [|by simplify_eq].
  destruct (parse_r_name (dbg_text d)) as [name|]; [|done]. cbn in E.
  destruct (get_resource m ls name len) as [[[r|] m1] ls1] eqn:Eg;
    apply (get_resource_ok _ _ _ _ _ _ _ H) in Eg; [|by simplify_eq].
  destruct (add_lock m1 ls1 r our (set_copy our lock)) as [m2 ls2] eqn:Ea.
  apply (add_lock_ok _ _ _ _ _ _ _ Eg) in Ea. by eapply IH.
Qed.

Lemma read_locks_loop_ok h m ls r n locks m' ls' :
  locks_ok ls -> read_locks_loop h m ls r n locks = (m', ls') -> locks_ok ls'.
Proof.
  revert m ls. induction locks as [|k locks IH]; intros m ls H E; cbn in E; [by simplify_eq|].
  destruct (add_lock m ls r n (pack_lock_in h k)) as [m1 ls1] eqn:Ea.
  apply (add_lock_ok _ _ _ _ _ _ _ H) in Ea. by eapply IH.
Qed.

Lemma read_checkpoint_ok h our m ls n ckpt m' ls' :
  locks_ok ls -> read_checkpoint h our m ls n ckpt = (m', ls') -> locks_ok ls'.
Proof.
  intros H E. unfold read_checkpoint in E. zcase_in E; [by simplify_eq|].
  destruct ckpt as [items|]; [|by simplify_eq].
  revert m ls H E. induction items as [|[| |s] items IH]; intros m ls H E; cbn in E;
    [by simplify_eq|by eapply IH|by simplify_eq|].
  unfold read_checkpoint_locks in E.
  destruct (get_resource m ls (sec_id s) (sec_idlen s - 1)) as [[[r|] m1] ls1] eqn:Eg;
    apply (get_resource_ok _ _ _ _ _ _ _ H) in Eg; [|by eapply IH].
  destruct (read_locks_loop h m1 ls1 r n (sec_locks s)) as [m2 ls2] eqn:Er.
  apply (read_locks_loop_ok _ _ _ _ _ _ _ _ Eg) in Er. by eapply IH.
Qed.

Lemma purge_locks_sub n rs k : k ∈ all_locks (purge_locks n rs) -> k ∈ all_locks rs.
Proof.
  rewrite !all_locks_elem. intros (r & Hr & Hk).
  apply list_elem_of_fmap in Hr as (r0 & -> & Hr0). cbn in Hk.
  apply list_elem_of_filter in Hk as [_ Hk]. eauto.
Qed.

Lemma purge_locks_all n rs :
  all_locks (purge_locks n rs) = filter (fun k => lk_home k <> n) (all_locks rs).
Proof.
  induction rs as [|r rs IH]; [done|]. cbn [purge_locks map].
  rewrite !all_locks_cons, filter_app, <- IH. done.
Qed.

Lemma purge_locks_ok n rs next :
  locks_ok (mkLs rs next) -> locks_ok (mkLs (purge_locks n rs) next).
Proof.
  intros [[R1 R2 R3] H2 H3 H4]; cbn in *. split; [split|..]; cbn [ls_resources ls_next].
  - unfold purge_locks. by rewrite map_map.
  - rewrite purge_locks_all. by apply NoDup_map_filter.
  - intros r k Hr Hk. apply list_elem_of_fmap in Hr as (r0 & -> & Hr0). cbn in *.
    apply list_elem_of_filter in Hk as [_ Hk]. exact (R3 r0 k Hr0 Hk).
  - intros r Hr. apply list_elem_of_fmap in Hr as (r0 & -> & Hr0). exact (H2 r0 Hr0).
  - intros k Hk. by apply H3, (purge_locks_sub n).
  - unfold purge_locks. by apply ForallOrdPairs_map.
Qed.

Lemma run_deadlock_locks our s v s' out :
  run_deadlock our s = Some (v, s', out) -> d_locks s' = d_locks s.
Proof.
  unfold run_deadlock. intros E. zcase_in E; [by simplify_eq|]. zcase_in E; [|by simplify_eq].
  destruct (find_deadlock _ _ _) as [[[[? ?] ?] ?]|]; [|done]. cbn in E. by simplify_eq.
Qed.

Lemma foldl_node_joined_locks l s : d_locks (foldl node_joined s l) = d_locks s.
Proof.
  revert s. induction l as [|n l IH]; intros s; [done|]. cbn. rewrite IH. unfold node_joined.
  by destruct (malloc (d_mem s)) as [[]].
Qed.

Lemma foldl_node_left_locks l s : d_locks (foldl node_left s l) = d_locks s.
Proof. revert s. induction l as [|n l IH]; intros s; [done|]. cbn. by rewrite IH. Qed.

Lemma cycle_start_locks_ok h our s file s' out :
  locks_ok (d_locks s) -> receive_cycle_start h our s file = Some (s', out) -> locks_ok (d_locks s').
Proof.
  intros H E. unfold receive_cycle_start in E. zcase_in E; [by simplify_eq/=|].
  destruct (read_debugfs_locks _ _ _ _) as [[[ok m] ls]|] eqn:Er; [|done]. cbn in E.
  assert (Hls : locks_ok ls).
  { unfold read_debugfs_locks in Er. destruct file as [[|d lines]|]; [by simplify_eq| |by simplify_eq].
    cbn [d_locks d_mem] in Er.
    destruct (debugfs_loop our (d_mem s) (d_locks s) lines) as [[m1 ls1]|] eqn:Ed; [|done].
    cbn in Er. simplify_eq. by eapply debugfs_loop_ok. }
  destruct ok; cbn in E; [|by simplify_eq/=].
  unfold send_message in E. by destruct (malloc m) as [[v|] m']; simplify_eq/=.
Qed.

Lemma checkpoint_ready_locks_ok h our s n ckpt v s' out :
  locks_ok (d_locks s) -> receive_checkpoint_ready h our s n ckpt = Some (v, s', out) ->
  locks_ok (d_locks s').
Proof.
  intros H E. unfold receive_checkpoint_ready in E.
  destruct (read_checkpoint h our (d_mem s) (d_locks s) n ckpt) as [m ls] eqn:Er.
  apply (read_checkpoint_ok _ _ _ _ _ _ _ _ H) in Er.
  by rewrite (run_deadlock_locks _ _ _ _ _ E).
Qed.

Lemma locks_ok_nil next : locks_ok (mkLs [] next).
Proof.
  split; [split|..]; cbn; try (by constructor); try (intros ? Hi; by apply not_elem_of_nil in Hi).
  intros r k Hr. by apply not_elem_of_nil in Hr.
Qed.

Lemma cycle_end_locks_ok s : locks_ok (d_locks s) -> locks_ok (d_locks (fst (receive_cycle_end s))).
Proof. intros H. unfold receive_cycle_end. zcase; [done|]. apply locks_ok_nil. Qed.

Lemma purge_all_ok l rs next :
  locks_ok (mkLs rs next) -> locks_ok (mkLs (foldl (fun rs n => purge_locks n rs) rs l) next).
Proof. revert rs. induction l as [|n l IH]; intros rs H; [done|]. cbn. by apply IH, purge_locks_ok. Qed.

Lemma confchg_locks_ok en our s mem lft joi v s' out :
  locks_ok (d_locks s) -> deadlk_confchg en our s mem lft joi = Some (v, s', out) ->
  locks_ok (d_locks s').
Proof.
  intros H E. unfold deadlk_confchg in E. destruct en; cbn in E; [|by simplify_eq].
  destruct (d_confchg_init s); cbn in E.
  2: { simplify_eq. by rewrite foldl_node_joined_locks. }
  set (s1 := foldl node_left (foldl node_joined s joi) lft) in *.
  assert (H1 : d_locks s1 = d_locks s)
    by (unfold s1; by rewrite foldl_node_left_locks, foldl_node_joined_locks).
  rewrite <- H1 in H. clearbody s1. clear H1.
  destruct (d_cycle_running s1); cbn in E; [|by simplify_eq].
  destruct lft as [|n0 lft]; [by simplify_eq|]. destruct (d_all_ready s1); cbn [negb] in E.
  - destruct (d_locks s1) as [rs next]. apply (purge_all_ok (n0 :: lft)) in H.
    zcase_in E; [|by simplify_eq/=]. by rewrite (run_deadlock_locks _ _ _ _ _ E).
  - by rewrite (run_deadlock_locks _ _ _ _ _ E).
Qed.

(** The events that change the state of a lockspace's detector. *)
Inductive dl_event :=
  | EvStart (file : option (list dbg_line))
  | EvReady (h : host) (nodeid : Z) (ckpt : option (list ck_item))
  | EvEnd
  | EvConfchg (enable : bool) (members left_list joined : list Z).

Definition dl_step (h : host) (our : Z) (s : dl_state) (e : dl_event) : option dl_state :=
  match e with
  | EvStart file => fst <$> receive_cycle_start h our s file
  | EvReady h nodeid ckpt => snd ∘ fst <$> receive_checkpoint_ready h our s nodeid ckpt
  | EvEnd => Some (fst (receive_cycle_end s))
  | EvConfchg en mem lft joi => snd ∘ fst <$> deadlk_confchg en our s mem lft joi
  end.

Lemma dl_step_locks_ok h our s e s' :
  locks_ok (d_locks s) -> dl_step h our s e = Some s' -> locks_ok (d_locks s').
Proof.
  intros H E. destruct e as [file|h' n ckpt| |en mem lft joi]; cbn in E.
  - destruct (receive_cycle_start _ _ _ _) as [[s1 out]|] eqn:E1; simplify_eq/=.
    by eapply cycle_start_locks_ok.
  - destruct (receive_checkpoint_ready _ _ _ _ _) as [[[v s1] out]|] eqn:E1; simplify_eq/=.
    by eapply checkpoint_ready_locks_ok.
  - simplify_eq. by apply cycle_end_locks_ok.
  - destruct (deadlk_confchg _ _ _ _ _ _) as [[[v s1] out]|] eqn:E1; simplify_eq/=.
    by eapply confchg_locks_ok.
Qed.

Definition dl_init (m : mem) : dl_state :=
  mkDl [] false false false 0 (mkLs [] 0) empty_graph m.

Definition dl_reach (h : host) (our : Z) (s s' : dl_state) : Prop :=
  rtc (fun a b => exists e, dl_step h our a e = Some b) s s'.

(** In every state that a detector reaches through configuration changes,
    cycles, debugfs files and checkpoints of any content, the collected
    locks are well formed: resources have distinct names, every lock is on
    one resource, once, and points back to it. *)
Theorem collected_locks_ok h our m s :
  dl_reach h our (dl_init m) s -> locks_ok (d_locks s).
Proof.
  intros Hr. assert (H0 : locks_ok (d_locks (dl_init m))) by apply locks_ok_nil.
  revert H0. generalize (dl_init m) Hr. clear Hr. intros s0 Hr.
  induction Hr as [|x y z [e He] _ IH]; intros H0; [done|].
  apply IH. by eapply dl_step_locks_ok.
Qed.

(** A node joins, reads one lock of a resource named A and ends the cycle's
    collection. *)
Lemma collected_locks_ok_witness :
  exists s, dl_reach LittleEndian 1 (dl_init []) s /\ d_cycle_running s = true /\
    length (all_locks (ls_resources (d_locks s))) = 1%nat /\ locks_ok (d_locks s).
Proof.
  set (line := mkDbg [34; 65; 34] (Some (mkPl 9 1 0 0 0 0 0 DLM_LKSTS_GRANTED 5 (-1) 0, 1))).
  set (s1 := default (dl_init []) (dl_step LittleEndian 1 (dl_init []) (EvConfchg true [1; 2] [] []))).
  set (s2 := default (dl_init []) (dl_step LittleEndian 1 s1 (EvStart (Some [line; line])))).
  assert (Hr : dl_reach LittleEndian 1 (dl_init []) s2).
  { apply rtc_l with s1; [exists (EvConfchg true [1; 2] [] []); reflexivity|].
    apply rtc_once. exists (EvStart (Some [line; line])). reflexivity. }
  exists s2. split; [done|]. split; [reflexivity|]. split; [reflexivity|].
  exact (collected_locks_ok _ _ _ _ Hr).
Defined.

(** ** Combining the copies of a lock *)

Lemma upd_rsb_upd a f g rs : (forall r, rs_addr (g r) = rs_addr r) ->
  upd_rsb a f (upd_rsb a g rs) = upd_rsb a (f ∘ g) rs.
Proof.
  intros Hg. unfold upd_rsb. rewrite map_map. apply map_ext. intros r. unfold compose.
  destruct (bool_decide_reflect (rs_addr r = a)) as [E|E].
  - by rewrite bool_decide_eq_true_2 by (by rewrite Hg).
  - by rewrite bool_decide_eq_false_2.
Qed.

Lemma upd_rsb_ext a f g rs : (forall r, r ∈ rs -> rs_addr r = a -> f r = g r) ->
  upd_rsb a f rs = upd_rsb a g rs.
Proof.
  intros H. unfold upd_rsb. apply map_ext_in. intros r Hr. case_bool_decide as E; [|done].
  apply H; [by apply list_elem_of_In|done].
Qed.

Lemma find_rsb_upd a f rs r : NoDup (map rs_addr rs) -> (forall r, rs_addr (f r) = rs_addr r) ->
  r ∈ rs -> rs_addr r = a -> find_rsb a (upd_rsb a f rs) = Some (f r).
Proof.
  intros Hnd Hf Hr <-. induction rs as [|x rs IH]; [by apply not_elem_of_nil in Hr|].
  cbn in Hnd. apply NoDup_cons in Hnd as [Hx Hnd]. unfold find_rsb, upd_rsb. cbn.
  apply elem_of_cons in Hr as [->|Hr].
  - by rewrite (bool_decide_eq_true_2 (rs_addr x = rs_addr x)), bool_decide_eq_true_2 by (rewrite ?Hf; done).
  - assert (rs_addr x <> rs_addr r).
    { intros E. apply Hx. rewrite E. by apply list_elem_of_fmap_2. }
    rewrite (bool_decide_eq_false_2 (rs_addr x = rs_addr r)), bool_decide_eq_false_2 by done.
    by apply IH.
Qed.

Lemma upd_lkb_none a f l : (forall k, k ∈ l -> lk_addr k <> a) -> upd_lkb a f l = l.
Proof.
  intros H. induction l as [|k l IH]; [done|]. cbn.
  rewrite bool_decide_eq_false_2 by (apply H; left). f_equal. apply IH. set_solver.
Qed.

(** Two master copies of one lock, read one after the other. *)
Lemma add_lock_twice m ls ra r n1 n2 p q :
  locks_ok ls -> mem_ok m -> find_rsb ra (ls_resources ls) = Some r ->
  pl_copy p = MASTER_COPY -> pl_copy q = MASTER_COPY -> get_lkb r p = None ->
  pl_nodeid q = pl_nodeid p -> pl_id q = pl_id p ->
  let '(m1, ls1) := add_lock m ls ra n1 p in
  add_lock m1 ls1 ra n2 q =
  (snd (malloc m),
   mkLs (upd_rsb ra (fun r => rs_set_locks (add_lock_fields n2 q
     (add_lock_fields n1 p (mkLkb (ls_next ls) zero_lock 0 ra)) :: rs_locks r) r)
     (ls_resources ls)) (S (ls_next ls))).
Proof.
  intros H Hm Ef Cp Cq Hg En Ei. pose proof H as [[R1 R2 R3] H2 H3 H4].
  apply find_rsb_Some in Ef as Hr. destruct Hr as [Hr Ea].
  unfold add_lock at 1. rewrite Ef, Hg. destruct (mem_ok_malloc m Hm) as (v & m1 & -> & _).
  set (new := add_lock_fields n1 p (mkLkb (ls_next ls) zero_lock 0 ra)).
  assert (Hnew : lk_addr new = ls_next ls) by apply add_lock_fields_addr.
  unfold add_lock. cbn [ls_resources ls_next]. rewrite (find_rsb_upd ra _ _ r) by done.
  assert (Hs : same_lock q new = true).
  { unfold same_lock, new, add_lock_fields. rewrite Cp, En, Ei. cbn.
    destruct (partial_master_copy p); cbn; by rewrite !Z.eqb_refl. }
  unfold get_lkb. rewrite Cq. cbn [negb Z.eqb MASTER_COPY]. cbn. rewrite Hs.
  f_equal. f_equal. rewrite upd_rsb_upd by done. apply upd_rsb_ext.
  intros r0 Hr0 E0. unfold compose, rs_set_locks. cbn [rs_locks rs_addr rs_name rs_len].
  f_equal. change (upd_lkb ?a ?f (?k :: ?l)) with
    ((if bool_decide (lk_addr k = a) then f k else k) :: upd_lkb a f l).
  rewrite bool_decide_eq_true_2 by done. rewrite upd_lkb_none; [done|]. intros k Hk. rewrite Hnew.
  assert (Hkl : k ∈ all_locks (ls_resources ls)) by (apply all_locks_elem; eauto).
  apply H3 in Hkl. lia.
Qed.

(** The owner's node reports a lock with its transaction, the master's
    node with its state.  In whichever order the two reports arrive, they
    combine to one lock that has the transaction of the one and the state of
    the other. *)
Theorem copies_combine m ls ra r n1 n2 p q :
  locks_ok ls -> mem_ok m -> find_rsb ra (ls_resources ls) = Some r ->
  pl_copy p = MASTER_COPY -> pl_copy q = MASTER_COPY -> get_lkb r p = None ->
  pl_nodeid q = pl_nodeid p -> pl_id q = pl_id p -> pl_remid q = pl_remid p ->
  pl_xid p <> 0 -> pl_xid q = 0 ->
  let '(m1, ls1) := add_lock m ls ra n1 p in
  let '(m2, ls2) := add_lock m ls ra n2 q in
  add_lock m1 ls1 ra n2 q = add_lock m2 ls2 ra n1 p /\
  find_rsb ra (ls_resources (snd (add_lock m1 ls1 ra n2 q))) =
    Some (rs_set_locks (mkLkb (ls_next ls)
      (mkPl (pl_xid p) (pl_id p) (pl_nodeid p) (pl_remid p) (pl_ownpid q) (pl_exflags q)
         (pl_flags q) (pl_status q) (pl_grmode q) (pl_rqmode q) MASTER_COPY)
      (pl_nodeid p) ra :: rs_locks r) r).
Proof.
  intros H Hm Ef Cp Cq Hg En Ei Er Xp Xq.
  assert (Hg' : get_lkb r q = None).
  { unfold get_lkb, same_lock in *. by rewrite Cp, Cq, En, Ei in *. }
  pose proof (add_lock_twice m ls ra r n1 n2 p q H Hm Ef Cp Cq Hg En Ei) as T1.
  pose proof (add_lock_twice m ls ra r n2 n1 q p H Hm Ef Cq Cp Hg' (eq_sym En) (eq_sym Ei)) as T2.
  destruct (add_lock m ls ra n1 p) as [m1 ls1], (add_lock m ls ra n2 q) as [m2 ls2].
  rewrite T1, T2. apply find_rsb_Some in Ef as Hr. destruct Hr as [Hr Ea].
  assert (Hf : forall k, add_lock_fields n2 q (add_lock_fields n1 p k) =
    mkLkb (lk_addr k) (mkPl (pl_xid p) (pl_id p) (pl_nodeid p) (pl_remid p) (pl_ownpid q)
      (pl_exflags q) (pl_flags q) (pl_status q) (pl_grmode q) (pl_rqmode q) MASTER_COPY)
      (pl_nodeid p) (lk_rsb k) /\
    add_lock_fields n1 p (add_lock_fields n2 q k) =
    add_lock_fields n2 q (add_lock_fields n1 p k)).
  { intros k. unfold add_lock_fields, partial_master_copy.
    rewrite Cp, Cq, Xq, (proj2 (Z.eqb_neq (pl_xid p) 0) Xp), En, Ei, Er. done. }
  destruct (Hf (mkLkb (ls_next ls) zero_lock 0 ra)) as [F1 F2]. rewrite F2, F1. split; [done|].
  cbn [snd ls_resources]. by rewrite (find_rsb_upd ra _ _ r) by (done || apply H).
Qed.

(** The lock 7 of the owner on node 2, whose master is node 1. *)
Lemma copies_combine_witness :
  let ls := mkLs [mkRsb 0 [65] 1 []] 1 in
  let p := mkPl 99 7 2 8 0 0 0 0 0 0 MASTER_COPY in
  let q := mkPl 0 7 2 8 55 0 IFL_MSTCPY DLM_LKSTS_WAITING (-1) 5 MASTER_COPY in
  exists m1 ls1 m2 ls2, add_lock [] ls 0 2 p = (m1, ls1) /\ add_lock [] ls 0 1 q = (m2, ls2) /\
    add_lock m1 ls1 0 1 q = add_lock m2 ls2 0 2 p.
Proof.
  intros ls p q. eexists _, _, _, _. split; [reflexivity|]. split; [reflexivity|].
  assert (Hok : locks_ok ls).
  { assert (Hg : get_resource [] (mkLs [] 0) [65] 1 = (Some 0%nat, [], ls)) by reflexivity.
    exact (get_resource_ok _ _ _ _ _ _ _ (locks_ok_nil 0) Hg). }
  refine (proj1 (copies_combine [] ls 0 (mkRsb 0 [65] 1 []) 2 1 p q Hok _ _ _ _ _ _ _ _ _ _)).
  - constructor.
  - reflexivity.
  - reflexivity.
  - reflexivity.
  - reflexivity.
  - reflexivity.
  - reflexivity.
  - reflexivity.
  - cbn. lia.
  - reflexivity.
Defined.
