(* ===== verification/DlmCpg.v ===== *)
(** * Lockspace membership changes of dlm_controld

    [src/group/dlm_controld/cpg.c]: every configuration change of a lockspace's
    process group creates a [change]; the kernel lockspace is stopped at once and
    is started again when the failed nodes are fenced, the quorum and file system
    conditions hold, and every member of the latest change has sent a start
    message for it.

    The fence daemon, the cluster manager, the file system daemon and the
    checkpoint service are inputs; the calls into the kernel and the messages sent
    are effects.  The [log_*] calls and the counters that only set a polling
    interval are left out. *)

From S2P Require Import Prelude PlockRange Plock PlockCkpt PlockWire.
Open Scope Z_scope.

(** ** Data *)

Record member := mkMemb {
  mb_nodeid : Z;
  mb_start : bool;
  mb_added : bool;
  mb_failed : bool;
  mb_disallowed : bool;
  mb_start_flags : Z
}.

(** [struct node]; its [proto] belongs to the daemon group. *)
Record node := mkNode {
  nd_nodeid : Z;
  nd_check_fencing : bool;
  nd_check_quorum : bool;
  nd_check_fs : bool;
  nd_fs_notified : bool;
  nd_add_time : Z;
  nd_fail_time : Z;
  nd_fence_time : Z;
  nd_cluster_add_time : Z;
  nd_cluster_remove_time : Z;
  nd_fence_queries : Z;
  nd_added_seq : Z;
  nd_removed_seq : Z;
  nd_failed_reason : Z
}.

Inductive cg_state := CGST_WAIT_CONDITIONS | CGST_WAIT_MESSAGES.

Record change := mkCg {
  cg_members : list member;
  cg_removed : list member;
  cg_member_count : Z;
  cg_joined_count : Z;
  cg_remove_count : Z;
  cg_failed_count : Z;
  cg_st : cg_state;
  cg_we_joined : bool;
  cg_seq : Z;
  cg_combined_seq : Z;
  cg_create_time : Z
}.

(** The membership part of [struct lockspace], with its plock part; [changes] has
    the latest change first. *)
Record mls := mkMls {
  l_joining : bool;
  l_leaving : bool;
  l_kernel_stopped : bool;
  l_fs_registered : bool;
  l_change_seq : Z;
  l_started_count : Z;
  l_started_change : option change;
  l_changes : list change;
  l_node_history : list node;
  l_plock_ckpt_node : Z;
  l_last_plock_sig : Z;
  l_plock : lockspace
}.

Definition DLM_MSG_START : Z := 2.
Definition DLM_MSG_PLOCKS_STORED : Z := 8.
Definition DLM_MFLG_JOINING : Z := 1.
Definition DLM_MFLG_HAVEPLOCK : Z := 2.
Definition DLM_MFLG_NACK : Z := 4.
Definition DLM_MFLG_PLOCK_SIG : Z := 8.

(** What the daemon does: calls into the kernel through sysfs and configfs,
    messages with lockspace information, requests to the cluster manager. *)
Inductive cpg_effect :=
| KSysfsId (global_id : Z)
| KMembers (ids renew : list Z)
| KControl (start : bool)
| KEventDone (rv : Z)
| KSendInfo (hd : dlm_header) (li : ls_info) (ids : list Z)
| KKick (nodeid : Z).

(** The answers of the other daemons at the time of a call: the last time a node
    was fenced ([None] when the query fails), the number of victims, the members
    and quorum of the cluster; [v_garbage] fills uninitialised variables. *)
Record env := mkEnv {
  v_fence_node_time : Z -> option Z;
  v_fence_in_progress : option Z;
  v_is_cluster_member : Z -> bool;
  v_cluster_quorate : bool;
  v_unlink_ok : bool;
  v_open_ok : bool;
  v_create_ok : section -> bool;
  v_garbage : Z
}.

(** The configuration; [daemon_run] is that of [our_protocol]. *)
Record cfg_cpg := mkCfgCpg {
  cfgd_enable_fencing : bool;
  cfgd_enable_quorum : bool;
  daemon_run : Z * Z * Z;
  cfg_plock : config
}.

(** The lockspace, the clock and allocator, the sections of its checkpoint, and
    what was done so far. *)
Record mstate := mkMs {
  s_ls : mls;
  s_wd : world;
  s_ckpt : list section;
  s_out : list cpg_effect
}.

(** ** Updates of single fields *)

Definition l_set_changes (l : mls) (v : list change) : mls :=
  mkMls (l_joining l) (l_leaving l) (l_kernel_stopped l) (l_fs_registered l)
    (l_change_seq l) (l_started_count l) (l_started_change l) v (l_node_history l)
    (l_plock_ckpt_node l) (l_last_plock_sig l) (l_plock l).
Definition l_set_history (l : mls) (v : list node) : mls :=
  mkMls (l_joining l) (l_leaving l) (l_kernel_stopped l) (l_fs_registered l)
    (l_change_seq l) (l_started_count l) (l_started_change l) (l_changes l) v
    (l_plock_ckpt_node l) (l_last_plock_sig l) (l_plock l).
Definition l_set_plock (l : mls) (v : lockspace) : mls :=
  mkMls (l_joining l) (l_leaving l) (l_kernel_stopped l) (l_fs_registered l)
    (l_change_seq l) (l_started_count l) (l_started_change l) (l_changes l)
    (l_node_history l) (l_plock_ckpt_node l) (l_last_plock_sig l) v.
Definition l_set_seq (l : mls) (v : Z) : mls :=
  mkMls (l_joining l) (l_leaving l) (l_kernel_stopped l) (l_fs_registered l) v
    (l_started_count l) (l_started_change l) (l_changes l) (l_node_history l)
    (l_plock_ckpt_node l) (l_last_plock_sig l) (l_plock l).
Definition l_set_ckpt (l : mls) (ckpt_node sig : Z) : mls :=
  mkMls (l_joining l) (l_leaving l) (l_kernel_stopped l) (l_fs_registered l)
    (l_change_seq l) (l_started_count l) (l_started_change l) (l_changes l)
    (l_node_history l) ckpt_node sig (l_plock l).
Definition l_set_kernel (l : mls) (stopped joining : bool) : mls :=
  mkMls joining (l_leaving l) stopped (l_fs_registered l) (l_change_seq l)
    (l_started_count l) (l_started_change l) (l_changes l) (l_node_history l)
    (l_plock_ckpt_node l) (l_last_plock_sig l) (l_plock l).

Definition s_set_ls (s : mstate) (l : mls) : mstate :=
  mkMs l (s_wd s) (s_ckpt s) (s_out s).
Definition s_set_wd (s : mstate) (wd : world) : mstate :=
  mkMs (s_ls s) wd (s_ckpt s) (s_out s).
Definition s_emit (s : mstate) (es : list cpg_effect) : mstate :=
  mkMs (s_ls s) (s_wd s) (s_ckpt s) (s_out s ++ es).

(** ** Members and history *)

Fixpoint find_memb_in (ms : list member) (nodeid : Z) : option member :=
  match ms with
  | [] => None
  | m :: ms' => if mb_nodeid m =? nodeid then Some m else find_memb_in ms' nodeid
  end.

Definition find_memb (cg : change) (nodeid : Z) : option member :=
  find_memb_in (cg_members cg) nodeid.

(** Update the member [find_memb] returns. *)
Fixpoint upd_memb (ms : list member) (nodeid : Z) (f : member -> member) : list member :=
  match ms with
  | [] => []
  | m :: ms' => if mb_nodeid m =? nodeid then f m :: ms' else m :: upd_memb ms' nodeid f
  end.

Fixpoint get_node_history (ns : list node) (nodeid : Z) : option node :=
  match ns with
  | [] => None
  | n :: ns' => if nd_nodeid n =? nodeid then Some n else get_node_history ns' nodeid
  end.

(** Update the node [get_node_history] returns; nothing when there is none. *)
Fixpoint upd_node (ns : list node) (nodeid : Z) (f : node -> node) : list node :=
  match ns with
  | [] => []
  | n :: ns' => if nd_nodeid n =? nodeid then f n :: ns' else n :: upd_node ns' nodeid f
  end.

Definition node_zero (nodeid : Z) : node :=
  mkNode nodeid false false false false 0 0 0 0 0 0 0 0 0.

Definition nd_set_added_seq (seq : Z) (n : node) : node :=
  mkNode (nd_nodeid n) (nd_check_fencing n) (nd_check_quorum n) (nd_check_fs n)
    (nd_fs_notified n) (nd_add_time n) (nd_fail_time n) (nd_fence_time n)
    (nd_cluster_add_time n) (nd_cluster_remove_time n) (nd_fence_queries n) seq
    (nd_removed_seq n) (nd_failed_reason n).

(** [node_history_init]; [seq] is that of the change, if one is given. *)
Definition node_history_init (ns : list node) (m : mem) (nodeid : Z) (seq : option Z)
  : list node * mem :=
  let set ns := match seq with None => ns | Some q => upd_node ns nodeid (nd_set_added_seq q) end in
  match get_node_history ns nodeid with
  | Some _ => (set ns, m)
  | None =>
      match malloc m with
      | (None, m') => (ns, m')
      | (Some _, m') => (set (ns ++ [node_zero nodeid]), m')
      end
  end.

Definition nd_set_cluster_times (add remove : Z -> Z) (n : node) : node :=
  mkNode (nd_nodeid n) (nd_check_fencing n) (nd_check_quorum n) (nd_check_fs n)
    (nd_fs_notified n) (nd_add_time n) (nd_fail_time n) (nd_fence_time n)
    (add (nd_cluster_add_time n)) (remove (nd_cluster_remove_time n)) (nd_fence_queries n)
    (nd_added_seq n) (nd_removed_seq n) (nd_failed_reason n).

(** [node_history_cluster_add] and [node_history_cluster_remove] over the histories
    of all lockspaces; a lockspace without the node ends the loop. *)
Fixpoint node_history_cluster_add (lss : list (list node)) (m : mem) (nodeid now : Z)
  : list (list node) * mem :=
  match lss with
  | [] => ([], m)
  | ns :: rest =>
      let '(ns1, m1) := node_history_init ns m nodeid None in
      match get_node_history ns1 nodeid with
      | None => (ns1 :: rest, m1)
      | Some _ =>
          let '(rest', m2) := node_history_cluster_add rest m1 nodeid now in
          (upd_node ns1 nodeid (nd_set_cluster_times (fun _ => now) id) :: rest', m2)
      end
  end.

Fixpoint node_history_cluster_remove (lss : list (list node)) (nodeid now : Z)
  : list (list node) :=
  match lss with
  | [] => []
  | ns :: rest =>
      match get_node_history ns nodeid with
      | None => ns :: rest
      | Some _ =>
          upd_node ns nodeid (nd_set_cluster_times id (fun _ => now)) ::
          node_history_cluster_remove rest nodeid now
      end
  end.

Definition node_history_start (ns : list node) (nodeid now : Z) : list node :=
  upd_node ns nodeid (fun n =>
    mkNode (nd_nodeid n) (nd_check_fencing n) (nd_check_quorum n) (nd_check_fs n)
      (nd_fs_notified n) now (nd_fail_time n) (nd_fence_time n) (nd_cluster_add_time n)
      (nd_cluster_remove_time n) (nd_fence_queries n) (nd_added_seq n)
      (nd_removed_seq n) (nd_failed_reason n)).

Definition node_history_left (ns : list node) (nodeid seq : Z) : list node :=
  upd_node ns nodeid (fun n =>
    mkNode (nd_nodeid n) (nd_check_fencing n) (nd_check_quorum n) (nd_check_fs n)
      (nd_fs_notified n) 0 (nd_fail_time n) (nd_fence_time n) (nd_cluster_add_time n)
      (nd_cluster_remove_time n) (nd_fence_queries n) (nd_added_seq n) seq
      (nd_failed_reason n)).

Definition nd_fail (c : cfg_cpg) (fs_registered : bool) (seq reason now : Z) (n : node)
  : node :=
  let fence := cfgd_enable_fencing c && c_true (nd_add_time n) in
  mkNode (nd_nodeid n)
    (fence || nd_check_fencing n)
    ((cfgd_enable_quorum c && negb (cfgd_enable_fencing c)) || nd_check_quorum n)
    (fs_registered || nd_check_fs n)
    (nd_fs_notified n) (nd_add_time n)
    (if fence then now else nd_fail_time n)
    (if fence then 0 else nd_fence_time n)
    (nd_cluster_add_time n) (nd_cluster_remove_time n)
    (if fence then 0 else nd_fence_queries n)
    (nd_added_seq n) seq reason.

Definition node_history_fail (c : cfg_cpg) (ns : list node) (fs_registered : bool)
    (nodeid seq reason now : Z) : list node :=
  upd_node ns nodeid (nd_fail c fs_registered seq reason now).

(** ** The conditions a change waits for *)

(** One node of the loop of [check_fencing_done].  [last] is the variable
    [last_fenced_time], which keeps its value when the query fails. *)
Definition check_fencing_node (v : env) (last : Z) (n : node) : node * Z * Z :=
  if negb (nd_check_fencing n) then (n, last, 0)
  else
    let last := default last (v_fence_node_time v (nd_nodeid n)) in
    if last >=? nd_fail_time n then
      (mkNode (nd_nodeid n) false (nd_check_quorum n) (nd_check_fs n) (nd_fs_notified n)
         0 (nd_fail_time n) last (nd_cluster_add_time n) (nd_cluster_remove_time n)
         (nd_fence_queries n) (nd_added_seq n) (nd_removed_seq n) (nd_failed_reason n),
       last, 0)
    else
      let note := (nd_fence_queries n =? 0) || negb (nd_fence_time n =? last) in
      (mkNode (nd_nodeid n) true (nd_check_quorum n) (nd_check_fs n) (nd_fs_notified n)
         (nd_add_time n) (nd_fail_time n) (if note then last else nd_fence_time n)
         (nd_cluster_add_time n) (nd_cluster_remove_time n)
         (if note then u32 (nd_fence_queries n + 1) else nd_fence_queries n)
         (nd_added_seq n) (nd_removed_seq n) (nd_failed_reason n),
       last, 1).

Fixpoint check_fencing_loop (v : env) (last : Z) (ns : list node) : list node * Z :=
  match ns with
  | [] => ([], 0)
  | n :: rest =>
      let '(n', last', w) := check_fencing_node v last n in
      let '(rest', wait_count) := check_fencing_loop v last' rest in
      (n' :: rest', w + wait_count)
  end.

Definition check_fencing_done (c : cfg_cpg) (v : env) (ns : list node) : bool * list node :=
  if negb (cfgd_enable_fencing c) then (true, ns)
  else
    let '(ns', wait_count) := check_fencing_loop v (v_garbage v) ns in
    if c_true wait_count then (false, ns')
    else
      match v_fence_in_progress v with
      | None => (false, ns')
      | Some in_progress => (negb (c_true in_progress), ns')
      end.

Definition check_quorum_node (v : env) (n : node) : node :=
  if nd_check_quorum n && negb (v_is_cluster_member v (nd_nodeid n)) then
    mkNode (nd_nodeid n) (nd_check_fencing n) false (nd_check_fs n) (nd_fs_notified n)
      (nd_add_time n) (nd_fail_time n) (nd_fence_time n) (nd_cluster_add_time n)
      (nd_cluster_remove_time n) (nd_fence_queries n) (nd_added_seq n)
      (nd_removed_seq n) (nd_failed_reason n)
  else n.

Definition check_quorum_done (c : cfg_cpg) (v : env) (ns : list node) : bool * list node :=
  if negb (cfgd_enable_quorum c) then (true, ns)
  else
    let ns' := map (check_quorum_node v) ns in
    if existsb nd_check_quorum ns' then (false, ns') else (v_cluster_quorate v, ns').

Definition check_fs_node (n : node) : node :=
  if nd_check_fs n && nd_fs_notified n then
    mkNode (nd_nodeid n) (nd_check_fencing n) (nd_check_quorum n) false (nd_fs_notified n)
      (nd_add_time n) (nd_fail_time n) (nd_fence_time n) (nd_cluster_add_time n)
      (nd_cluster_remove_time n) (nd_fence_queries n) (nd_added_seq n)
      (nd_removed_seq n) (nd_failed_reason n)
  else n.

Definition check_fs_done (fs_registered : bool) (ns : list node) : bool * list node :=
  if negb fs_registered then (true, ns)
  else
    let ns' := map check_fs_node ns in
    (negb (existsb nd_check_fs ns'), ns').

Definition wait_conditions_done (c : cfg_cpg) (v : env) (l : mls) : bool * mls :=
  let '(f, ns1) := check_fencing_done c v (l_node_history l) in
  if negb f then (false, l_set_history l ns1)
  else
    let '(q, ns2) := check_quorum_done c v ns1 in
    if negb q then (false, l_set_history l ns2)
    else
      let '(s, ns3) := check_fs_done (l_fs_registered l) ns2 in
      (s, l_set_history l ns3).

(** ** Starting and stopping the kernel lockspace *)

Definition format_member_ids (cg : change) : list Z := map mb_nodeid (cg_members cg).

(** A member once for every older change that removed it. *)
Definition format_renew_ids (startcg : change) (older : list change) : list Z :=
  mbind (fun memb =>
    mbind (fun cg =>
      mbind (fun left => if mb_nodeid memb =? mb_nodeid left then [mb_nodeid memb] else [])
        (cg_removed cg)) older) (cg_members startcg).

Definition start_kernel (s : mstate) (cg : change) (older : list change) : mstate :=
  let l := s_ls s in
  if negb (l_kernel_stopped l) then s
  else
    let joining := l_joining l in
    s_emit (s_set_ls s (l_set_kernel l false false))
      ((if joining then [KSysfsId (ls_global_id (l_plock l))] else []) ++
       [KMembers (format_member_ids cg) (format_renew_ids cg older); KControl true] ++
       (if joining then [KEventDone 0] else [])).

Definition stop_kernel (s : mstate) : mstate :=
  let l := s_ls s in
  if negb (l_kernel_stopped l)
  then s_emit (s_set_ls s (l_set_kernel l true (l_joining l))) [KControl false]
  else s.

Definition wait_messages_done (cg : change) : bool := forallb mb_start (cg_members cg).

Definition cg_set_combined (cg : change) (v : Z) : change :=
  mkCg (cg_members cg) (cg_removed cg) (cg_member_count cg) (cg_joined_count cg)
    (cg_remove_count cg) (cg_failed_count cg) (cg_st cg) (cg_we_joined cg) (cg_seq cg) v
    (cg_create_time cg).

(** [cleanup_changes] of the head [cg] and the older changes. *)
Definition cleanup_changes (l : mls) (cg : change) (older : list change) : mls :=
  let count := u32 (l_started_count l + 1) in
  let count := if count =? 0 then u32 (count + 1) else count in
  let started := cg_set_combined cg (foldl (fun _ g => cg_seq g) (cg_seq cg) older) in
  mkMls (l_joining l) (l_leaving l) (l_kernel_stopped l) (l_fs_registered l)
    (l_change_seq l) count (Some started) [] (l_node_history l) (l_plock_ckpt_node l)
    (l_last_plock_sig l) (l_plock l).

(** ** Sending *)

Definition sizeof_ls_info : Z := 32.
Definition sizeof_id_info : Z := 4.

(** [send_info], with the fields [dlm_send_message] fills in. *)
Definition send_info (c : cfg_cpg) (s : mstate) (cg : change) (type flags msgdata2 : Z)
  : mstate :=
  let l := s_ls s in
  match malloc (wd_mem (s_wd s)) with
  | (None, m') => s_set_wd s (wd_set_mem (s_wd s) m')
  | (Some _, m') =>
      let flags := if l_joining l then Z.lor flags DLM_MFLG_JOINING else flags in
      let flags :=
        if negb (ls_need_plocks (l_plock l)) then Z.lor flags DLM_MFLG_HAVEPLOCK
        else flags in
      let hd := mkHd (daemon_run c) type (u32 (our_nodeid (cfg_plock c))) 0 (ls_global_id (l_plock l))
                  flags (cg_seq cg) msgdata2 in
      let li := mkLi sizeof_ls_info sizeof_id_info (cg_member_count cg) (l_started_count l)
                  (cg_member_count cg) (cg_joined_count cg) (cg_remove_count cg)
                  (cg_failed_count cg) in
      s_emit (s_set_wd s (wd_set_mem (s_wd s) m')) [KSendInfo hd li (format_member_ids cg)]
  end.

Definition send_start (c : cfg_cpg) (s : mstate) (cg : change) : mstate :=
  send_info c s cg DLM_MSG_START 0 0.

Definition send_plocks_stored (c : cfg_cpg) (s : mstate) (cg : change) (sig : Z) : mstate :=
  send_info c s cg DLM_MSG_PLOCKS_STORED DLM_MFLG_PLOCK_SIG sig.

Definition same_members (cg1 cg2 : change) : bool :=
  forallb (fun m => match find_memb cg2 (mb_nodeid m) with Some _ => true | None => false end)
    (cg_members cg1).

Definition nack_needed (startcg cg : change) : bool :=
  (cg_seq cg <? cg_seq startcg) && (cg_member_count cg =? cg_member_count startcg) &&
  (cg_joined_count cg =? cg_joined_count startcg) &&
  (cg_remove_count cg =? cg_remove_count startcg) &&
  (cg_failed_count cg =? cg_failed_count startcg) && same_members cg startcg.

Definition send_nacks (c : cfg_cpg) (s : mstate) (startcg : change) : mstate :=
  foldl (fun s cg =>
    if nack_needed startcg cg then send_info c s cg DLM_MSG_START DLM_MFLG_NACK 0 else s)
    s (l_changes (s_ls s)).

(** ** Plock state for new nodes *)

Definition nodes_added (cgs : list change) : bool :=
  existsb (fun cg => c_true (cg_joined_count cg)) cgs.

(** The low node of [set_plock_ckpt_node]; the checkpoint handle it may close is
    not part of the model. *)
Definition low_ckpt_node (cg : change) : Z :=
  foldl (fun low m =>
    if negb (c_true (Z.land (mb_start_flags m) DLM_MFLG_HAVEPLOCK)) then low
    else if (low =? 0) || (mb_nodeid m <? low) then mb_nodeid m else low)
    0 (cg_members cg).

Definition set_plock_ckpt_node (l : mls) (cg : change) : mls :=
  l_set_ckpt l (low_ckpt_node cg) (l_last_plock_sig l).

(** [prepare_plocks]; [None] when [store_plocks] overflows its buffer. *)
Definition prepare_plocks (c : cfg_cpg) (v : env) (s : mstate) (cg : change)
  : option mstate :=
  let l := s_ls s in
  let p := l_plock l in
  let cp := cfg_plock c in
  if negb (cfgd_enable_plock cp) || ls_disable_plock p then Some s
  else if cg_member_count cg =? 1 then
    Some (s_set_ls s (l_set_plock (l_set_ckpt l (our_nodeid cp) (l_last_plock_sig l))
      (ls_set_plock_mode p (ls_disable_plock p) false (ls_save_plocks p))))
  else
    let l1 := set_plock_ckpt_node l cg in
    if l_plock_ckpt_node l1 =? 0 then
      Some (s_set_ls s (l_set_plock l1 (ls_set_plock_mode p (ls_disable_plock p) false false)))
    else if ls_need_plocks p then
      Some (s_set_ls s (l_set_plock l1
        (ls_set_plock_mode p (ls_disable_plock p) (ls_need_plocks p) true)))
    else if negb (l_plock_ckpt_node l1 =? our_nodeid cp) then Some (s_set_ls s l1)
    else if nodes_added (l_changes l1) then
      match store_plocks cp (v_unlink_ok v) (v_open_ok v) (v_create_ok v) p
              (wd_now (s_wd s)) (s_ckpt s) with
      | None => None
      | Some (p', secs, sig) =>
          let sig := default (v_garbage v) sig in
          let l2 := l_set_plock (l_set_ckpt l1 (l_plock_ckpt_node l1) sig) p' in
          Some (send_plocks_stored c (mkMs l2 (s_wd s) secs (s_out s)) cg sig)
      end
    else Some (send_plocks_stored c (s_set_ls s l1) cg (l_last_plock_sig l1)).

(** ** The state machine of a change *)

Definition cg_set_state (cg : change) (st : cg_state) : change :=
  mkCg (cg_members cg) (cg_removed cg) (cg_member_count cg) (cg_joined_count cg)
    (cg_remove_count cg) (cg_failed_count cg) st (cg_we_joined cg) (cg_seq cg)
    (cg_combined_seq cg) (cg_create_time cg).

Definition apply_changes (c : cfg_cpg) (v : env) (s : mstate) : option mstate :=
  match l_changes (s_ls s) with
  | [] => Some s
  | cg :: older =>
      match cg_st cg with
      | CGST_WAIT_CONDITIONS =>
          let '(done, l) := wait_conditions_done c v (s_ls s) in
          let s1 := s_set_ls s l in
          if done then
            let s2 := send_start c (send_nacks c s1 cg) cg in
            Some (s_set_ls s2 (l_set_changes (s_ls s2)
              (cg_set_state cg CGST_WAIT_MESSAGES :: older)))
          else Some s1
      | CGST_WAIT_MESSAGES =>
          if wait_messages_done cg then
            match prepare_plocks c v (start_kernel s cg older) cg with
            | None => None
            | Some s2 => Some (s_set_ls s2 (cleanup_changes (s_ls s2) cg older))
            end
          else Some s
      end
  end.

(** [process_lockspace_changes] for one lockspace of the list. *)
Definition process_lockspace_changes (c : cfg_cpg) (v : env) (s : mstate) : option mstate :=
  match l_changes (s_ls s) with [] => Some s | _ => apply_changes c v s end.

(** ** Matching messages to changes *)

(** [get_id_struct] finds a member id of the message. *)
Definition has_id (ids : list Z) (nodeid : Z) : bool := existsb (Z.eqb nodeid) ids.

(** [match_change]; the ids are the [li->id_info_count] entries of the message. *)
Definition match_change (our : Z) (ns : list node) (cg : change) (hd : dlm_header)
    (li : ls_info) (ids : list Z) : bool :=
  if negb (has_id ids our) then false
  else
    match find_memb cg (s32 (hd_nodeid hd)) with
    | None => false
    | Some memb =>
        if c_true (Z.land (mb_start_flags memb) DLM_MFLG_NACK) then false
        else if mb_start memb && (hd_type hd =? DLM_MSG_START) then false
        else
          match get_node_history ns (s32 (hd_nodeid hd)) with
          | None => false
          | Some node =>
              if nd_cluster_add_time node >? cg_create_time cg then false
              else if negb (li_member_count li =? cg_member_count cg) ||
                      negb (li_joined_count li =? cg_joined_count cg) ||
                      negb (li_remove_count li =? cg_remove_count cg) ||
                      negb (li_failed_count li =? cg_failed_count cg) then false
              else
                forallb (fun id => match find_memb cg id with Some _ => true | None => false end)
                  ids
          end
    end.

(** [find_change] walks the changes from the oldest: the position of the change in
    [changes] and the change. *)
Fixpoint find_change (our : Z) (ns : list node) (cgs : list change) (hd : dlm_header)
    (li : ls_info) (ids : list Z) : option (nat * change) :=
  match cgs with
  | [] => None
  | cg :: rest =>
      match find_change our ns rest hd li ids with
      | Some (i, g) => Some (S i, g)
      | None => if match_change our ns cg hd li ids then Some (O, cg) else None
      end
  end.

Definition is_added (cgs : list change) (nodeid : Z) : bool :=
  existsb (fun cg => match find_memb cg nodeid with Some m => mb_added m | None => false end)
    cgs.

Definition cg_upd_memb (cg : change) (nodeid : Z) (f : member -> member) : change :=
  mkCg (upd_memb (cg_members cg) nodeid f) (cg_removed cg) (cg_member_count cg)
    (cg_joined_count cg) (cg_remove_count cg) (cg_failed_count cg) (cg_st cg)
    (cg_we_joined cg) (cg_seq cg) (cg_combined_seq cg) (cg_create_time cg).

Definition mb_set_flags (v : Z) (m : member) : member :=
  mkMemb (mb_nodeid m) (mb_start m) (mb_added m) (mb_failed m) (mb_disallowed m) v.
Definition mb_set_start (m : member) : member :=
  mkMemb (mb_nodeid m) true (mb_added m) (mb_failed m) (mb_disallowed m) (mb_start_flags m).
Definition mb_set_disallowed (m : member) : member :=
  mkMemb (mb_nodeid m) (mb_start m) (mb_added m) (mb_failed m) true (mb_start_flags m).
Definition mb_set_added (m : member) : member :=
  mkMemb (mb_nodeid m) (mb_start m) true (mb_failed m) (mb_disallowed m) (mb_start_flags m).

(** [receive_start]. *)
Definition receive_start (c : cfg_cpg) (l : mls) (now : Z) (hd : dlm_header) (li : ls_info)
    (ids : list Z) : mls :=
  let our := our_nodeid (cfg_plock c) in
  let from := s32 (hd_nodeid hd) in
  match find_change our (l_node_history l) (l_changes l) hd li ids with
  | None => l
  | Some (i, cg) =>
      match find_memb cg from with
      | None => l
      | Some _ =>
          let upd f l := l_set_changes l (alter (fun g => cg_upd_memb g from f) i (l_changes l)) in
          let l1 := upd (mb_set_flags (hd_flags hd)) l in
          let added := is_added (l_changes l1) from in
          if added && (c_true (li_started_count li) && c_true (l_started_count l1))
          then upd mb_set_disallowed l1
          else if c_true (Z.land (hd_flags hd) DLM_MFLG_NACK) then l1
          else upd mb_set_start (l_set_history l1 (node_history_start (l_node_history l1) from now))
      end
  end.

(** [receive_plocks_stored] with the lockspace's changes. *)
Definition receive_stored (c : cfg_cpg) (s : mstate) (hd : dlm_header) (li : ls_info)
    (ids : list Z) (sig0 num0 : Z) (iter : option (list iter_item)) : mstate :=
  let l := l_set_ckpt (s_ls s) (l_plock_ckpt_node (s_ls s)) (hd_msgdata2 hd) in
  let change_ok :=
    match l_changes l, l_started_change l with
    | [], Some cg => match_change (our_nodeid (cfg_plock c)) (l_node_history l) cg hd li ids
    | _, _ => false
    end in
  let '(p, wd) :=
    receive_plocks_stored (cfg_plock c) (l_plock l) (s_wd s) change_ok
      (c_true (Z.land (hd_flags hd) DLM_MFLG_PLOCK_SIG)) (hd_msgdata2 hd) sig0 num0 iter in
  s_set_wd (s_set_ls s (l_set_plock l p)) wd.

(** ** Configuration changes *)

Definition CPG_REASON_NODEDOWN : Z := 3.
Definition CPG_REASON_PROCDOWN : Z := 5.

(** The members loop of [add_change]; [None] when an allocation fails. *)
Fixpoint add_members (m : mem) (ids : list Z) : option (list member) * mem :=
  match ids with
  | [] => (Some [], m)
  | nodeid :: rest =>
      match malloc m with
      | (None, m') => (None, m')
      | (Some _, m') =>
          let '(ms, m2) := add_members m' rest in
          (option_map (cons (mkMemb nodeid false false false false 0)) ms, m2)
      end
  end.

Definition left_failed (reason : Z) : bool :=
  (reason =? CPG_REASON_NODEDOWN) || (reason =? CPG_REASON_PROCDOWN).

(** The loop over the nodes that left, with their reasons: the removed members,
    the history and the nodes to remove from the cluster. *)
Fixpoint add_removed (c : cfg_cpg) (fs : bool) (seq now : Z) (m : mem) (ns : list node)
    (lefts : list (Z * Z)) : option (list member) * mem * list node * list Z :=
  match lefts with
  | [] => (Some [], m, ns, [])
  | (nodeid, reason) :: rest =>
      match malloc m with
      | (None, m') => (None, m', ns, [])
      | (Some _, m') =>
          let failed := left_failed reason in
          let ns1 := if failed then node_history_fail c ns fs nodeid seq reason now
                     else node_history_left ns nodeid seq in
          let '(ms, m2, ns2, kicks) := add_removed c fs seq now m' ns1 rest in
          (option_map (cons (mkMemb nodeid false false failed false 0)) ms, m2, ns2,
           (if reason =? CPG_REASON_PROCDOWN then [nodeid] else []) ++ kicks)
      end
  end.

(** The loop over the nodes that joined; [None] when one is not a member. *)
Fixpoint add_joined (our seq : Z) (m : mem) (ns : list node) (ms : list member)
    (we_joined : bool) (joined : list Z)
  : option (list member * bool) * mem * list node :=
  match joined with
  | [] => (Some (ms, we_joined), m, ns)
  | nodeid :: rest =>
      match find_memb_in ms nodeid with
      | None => (None, m, ns)
      | Some _ =>
          let ms1 := upd_memb ms nodeid mb_set_added in
          if nodeid =? our then add_joined our seq m ns ms1 true rest
          else
            let '(ns1, m1) := node_history_init ns m nodeid (Some seq) in
            add_joined our seq m1 ns1 ms1 we_joined rest
      end
  end.

Fixpoint history_init_all (ns : list node) (m : mem) (seq : Z) (ms : list member)
  : list node * mem :=
  match ms with
  | [] => (ns, m)
  | memb :: rest =>
      let '(ns1, m1) := node_history_init ns m (mb_nodeid memb) (Some seq) in
      history_init_all ns1 m1 seq rest
  end.

Definition next_seq (seq : Z) : Z :=
  let s := u32 (seq + 1) in if s =? 0 then u32 (s + 1) else s.

(** [add_change]: the new change, at the head of [changes], or its error. *)
Definition add_change (c : cfg_cpg) (s : mstate) (members : list Z) (lefts : list (Z * Z))
    (joined : list Z) : (change + Z) * mstate :=
  let l := s_ls s in
  let now := wd_time (s_wd s) in
  let fin m l kicks :=
    s_emit (s_set_wd (s_set_ls s l) (wd_set_mem (s_wd s) m)) (map KKick kicks) in
  match malloc (wd_mem (s_wd s)) with
  | (None, m) => (inr (- ENOMEM), fin m l [])
  | (Some _, m) =>
      let seq := next_seq (l_change_seq l) in
      let l := l_set_seq l seq in
      match add_members m members with
      | (None, m) => (inr (- ENOMEM), fin m l [])
      | (Some ms, m) =>
          match add_removed c (l_fs_registered l) seq now m (l_node_history l) lefts with
          | (None, m, ns, kicks) => (inr (- ENOMEM), fin m (l_set_history l ns) kicks)
          | (Some rm, m, ns, kicks) =>
              match add_joined (our_nodeid (cfg_plock c)) seq m ns ms false joined with
              | (None, m, ns) => (inr (- ENOENT), fin m (l_set_history l ns) kicks)
              | (Some (ms, we_joined), m, ns) =>
                  let '(ns, m) :=
                    if we_joined then history_init_all ns m seq ms else (ns, m) in
                  let cg :=
                    mkCg ms rm (Z.of_nat (length members)) (Z.of_nat (length joined))
                      (Z.of_nat (length lefts))
                      (Z.of_nat (length (List.filter (fun x => left_failed (snd x)) lefts)))
                      CGST_WAIT_CONDITIONS we_joined seq 0 now in
                  (inl cg,
                   fin m (l_set_changes (l_set_history l ns) (cg :: l_changes l)) kicks)
              end
          end
      end
  end.

Definition we_left (our : Z) (lefts : list (Z * Z)) : bool :=
  existsb (fun x => fst x =? our) lefts.

Definition purge_removed (c : cfg_cpg) (s : mstate) (ms : list member) : mstate :=
  foldl (fun s memb =>
    let '(p, wd) :=
      purge_plocks (cfg_plock c) (l_plock (s_ls s)) (s_wd s) (mb_nodeid memb) false in
    s_set_wd (s_set_ls s (l_set_plock (s_ls s) p)) wd) s ms.

(** [confchg_cb] of a lockspace, up to [deadlk_confchg].  The first component is
    false when the lockspace is gone. *)
Definition confchg_cb (c : cfg_cpg) (v : env) (s : mstate) (members : list Z)
    (lefts : list (Z * Z)) (joined : list Z) : option (bool * mstate) :=
  let our := our_nodeid (cfg_plock c) in
  if l_leaving (s_ls s) && we_left our lefts then
    let s1 := s_emit (stop_kernel s) [KMembers [] []; KEventDone 0] in
    let '(p, wd) := purge_plocks (cfg_plock c) (l_plock (s_ls s1)) (s_wd s1) our true in
    Some (false, s_set_wd (s_set_ls s1 (l_set_plock (s_ls s1) p)) wd)
  else
    match add_change c s members lefts joined with
    | (inr _, s1) => Some (true, s1)
    | (inl cg, s1) =>
        match apply_changes c v (purge_removed c (stop_kernel s1) (cg_removed cg)) with
        | None => None
        | Some s2 => Some (true, s2)
        end
    end.

(** ** Messages *)

(** The payload of a delivered message. *)
Inductive payload :=
| PInfo (li : ls_info) (ids : list Z)      (* start, plocks stored *)
| PPlock (i : dlm_plock_info)              (* plock messages *)
| POther.                                  (* deadlock messages *)

(** The dispatch of [deliver_cb] but for the deadlock messages. *)
Definition deliver_msg (c : cfg_cpg) (s : mstate) (hd : dlm_header) (pl : payload)
    (sig0 num0 : Z) (iter : option (list iter_item)) : mstate :=
  match pl with
  | PInfo li ids =>
      if hd_type hd =? DLM_MSG_START
      then s_set_ls s (receive_start c (s_ls s) (wd_time (s_wd s)) hd li ids)
      else if hd_type hd =? DLM_MSG_PLOCKS_STORED then
        if ls_disable_plock (l_plock (s_ls s)) then s
        else if cfgd_enable_plock (cfg_plock c)
        then receive_stored c s hd li ids sig0 num0 iter else s
      else s
  | PPlock i =>
      let '(p, wd) :=
        deliver_plock (cfg_plock c) (l_plock (s_ls s)) (s_wd s)
          (mkMsg (hd_type hd) (s32 (hd_nodeid hd)) i) in
      s_set_wd (s_set_ls s (l_set_plock (s_ls s) p)) wd
  | POther => s
  end.

(** [deliver_cb]; [nodeid] is the sender according to the group. *)
Definition deliver_cb (c : cfg_cpg) (v : env) (s : mstate) (nodeid : Z) (hd : dlm_header)
    (pl : payload) (num0 : Z) (iter : option (list iter_item)) : option mstate :=
  let '(h0, h1, _) := hd_version hd in
  let '(r0, r1, _) := daemon_run c in
  if negb (h0 =? r0) || negb (h1 =? r1) then Some s
  else if negb (hd_nodeid hd =? nodeid) then Some s
  else apply_changes c v (deliver_msg c s hd pl (v_garbage v) num0 iter).

(** ** Requests of the local file system daemon *)

Definition l_set_fs_registered (l : mls) (v : bool) : mls :=
  mkMls (l_joining l) (l_leaving l) (l_kernel_stopped l) v (l_change_seq l)
    (l_started_count l) (l_started_change l) (l_changes l) (l_node_history l)
    (l_plock_ckpt_node l) (l_last_plock_sig l) (l_plock l).

Definition nd_set_fs_notified (n : node) : node :=
  mkNode (nd_nodeid n) (nd_check_fencing n) (nd_check_quorum n) (nd_check_fs n) true
    (nd_add_time n) (nd_fail_time n) (nd_fence_time n) (nd_cluster_add_time n)
    (nd_cluster_remove_time n) (nd_fence_queries n) (nd_added_seq n) (nd_removed_seq n)
    (nd_failed_reason n).

Definition ESRCH : Z := 3.

(** [set_fs_notified]; [None] when it follows the null [started_change]. *)
Definition set_fs_notified (l : mls) (nodeid : Z) : option (Z * mls) :=
  match get_node_history (l_node_history l) nodeid with
  | None => Some (- ESRCH, l)
  | Some node =>
      match l_started_change l with
      | None => None
      | Some cg =>
          match find_memb cg nodeid with
          | None => Some (0, l)
          | Some _ =>
              if negb (nd_check_fs node) then Some (- EAGAIN, l)
              else Some (0, l_set_history l (upd_node (l_node_history l) nodeid nd_set_fs_notified))
          end
      end
  end.

(** ** Joining *)

(** The lockspace [dlm_join_lockspace] sets up before it joins the group. *)
Definition joining_ls (fs_registered : bool) (global_id : Z) : mls :=
  mkMls true false true fs_registered 0 0 None [] [] 0 0
    (mkLs global_id 0 true false false [] [] 0 0 0 0 0 0 0).

Definition leave_ls (l : mls) : mls :=
  mkMls (l_joining l) true (l_kernel_stopped l) (l_fs_registered l) (l_change_seq l)
    (l_started_count l) (l_started_change l) (l_changes l) (l_node_history l)
    (l_plock_ckpt_node l) (l_last_plock_sig l) (l_plock l).
