(* ===== verification/DlmCpgThm.v ===== *)
(** * Properties of lockspace membership changes

    The events of a lockspace as steps on its state, invariants of the runs from
    the join, and what they give: the kernel lockspace runs only with no change
    outstanding, never before failed members are fenced, and with the members of
    the latest configuration. *)

From S2P Require Import Prelude PlockRange Plock PlockCkpt PlockWire DlmCpg.
Open Scope Z_scope.

(** ** Runs *)

Inductive mevent :=
| EvConfchg (members : list Z) (lefts : list (Z * Z)) (joined : list Z)
| EvDeliver (nodeid : Z) (hd : dlm_header) (pl : payload) (num0 : Z)
    (iter : option (list iter_item))
| EvPoll
| EvFsRegister (on : bool)
| EvFsNotified (nodeid : Z)
| EvClusterAdd (nodeid : Z)
| EvClusterRemove (nodeid : Z)
| EvLeave.

(** An event with the allocations, the clock and the answers of the other daemons
    while it is handled. *)
Record input := mkIn {
  in_mem : mem;
  in_now : Z;
  in_env : env;
  in_ev : mevent
}.

Definition in_time (i : input) : Z := in_now i / 1000000.

(** One event; [None] when the daemon crashes or the lockspace is gone. *)
Definition mstep (c : cfg_cpg) (s0 : mstate) (i : input) : option mstate :=
  let v := in_env i in
  let s := s_set_wd s0 (mkWorld (in_mem i) (in_now i) (wd_out (s_wd s0))) in
  let l := s_ls s in
  match in_ev i with
  | EvConfchg members lefts joined =>
      match confchg_cb c v s members lefts joined with
      | Some (true, s') => Some s'
      | _ => None
      end
  | EvDeliver nodeid hd pl num0 iter => deliver_cb c v s nodeid hd pl num0 iter
  | EvPoll => process_lockspace_changes c v s
  | EvFsRegister on => Some (s_set_ls s (l_set_fs_registered l on))
  | EvFsNotified nodeid =>
      match set_fs_notified l nodeid with
      | None => None
      | Some (_, l') => Some (s_set_ls s l')
      end
  | EvClusterAdd nodeid =>
      let '(hs, m) :=
        node_history_cluster_add [l_node_history l] (in_mem i) nodeid (in_time i) in
      Some (s_set_wd (s_set_ls s (l_set_history l (concat hs))) (wd_set_mem (s_wd s) m))
  | EvClusterRemove nodeid =>
      Some (s_set_ls s (l_set_history l
        (concat (node_history_cluster_remove [l_node_history l] nodeid (in_time i)))))
  | EvLeave => Some (s_set_ls s (leave_ls l))
  end.

Fixpoint mrun (c : cfg_cpg) (s : mstate) (ins : list input) : option mstate :=
  match ins with
  | [] => Some s
  | i :: rest => match mstep c s i with None => None | Some s' => mrun c s' rest end
  end.

(** What the process group promises of a configuration change, and that memory
    is available while it is handled. *)
Definition input_ok (i : input) : Prop :=
  match in_ev i with
  | EvConfchg members lefts joined =>
      mem_ok (in_mem i) /\ Forall (fun n => n ∈ members) joined /\ NoDup (map fst lefts)
  | _ => True
  end.

Definition init (fs : bool) (global_id : Z) : mstate :=
  mkMs (joining_ls fs global_id) (mkWorld [] 0 []) [] [].

(** ** The history and its flags *)

Definition pending (n : node) : bool := nd_check_fencing n || nd_check_quorum n.

(** No failed node is still to be fenced or to leave the cluster. *)
Definition calm (ns : list node) : Prop := Forall (fun n => pending n = false) ns.

(** Flags that the configuration does not use are never set. *)
Definition unused_clear (c : cfg_cpg) (ns : list node) : Prop :=
  Forall (fun n => (cfgd_enable_fencing c = false -> nd_check_fencing n = false) /\
                   (cfgd_enable_quorum c = false -> nd_check_quorum n = false)) ns.

Lemma Forall_upd_node (P : node -> Prop) ns k f :
  (forall n, P n -> P (f n)) -> Forall P ns -> Forall P (upd_node ns k f).
Proof.
  intros Hf. induction 1 as [|n ns Hn Hns IH]; simpl; [done|].
  destruct (nd_nodeid n =? k); constructor; auto.
Qed.

Lemma Forall_history_init (P : node -> Prop) ns m k seq ns' m' :
  (forall q n, P n -> P (nd_set_added_seq q n)) -> (forall n, P (node_zero n)) ->
  node_history_init ns m k seq = (ns', m') -> Forall P ns -> Forall P ns'.
Proof.
  intros Hq Hz. unfold node_history_init.
  destruct (get_node_history ns k); [|destruct (malloc m) as [[g|] m1]].
  all: intros [= <- <-] HP; try done.
  all: assert (HP2 : Forall P (ns ++ [node_zero k])) by (apply Forall_app; auto).
  all: destruct seq; try done; by apply Forall_upd_node; [apply Hq|].
Qed.

Lemma Forall_history_init_all (P : node -> Prop) ms seq :
  (forall q n, P n -> P (nd_set_added_seq q n)) -> (forall n, P (node_zero n)) ->
  forall ns m ns' m',
  history_init_all ns m seq ms = (ns', m') -> Forall P ns -> Forall P ns'.
Proof.
  intros Hq Hz. induction ms as [|mb ms IH]; intros ns m ns' m'; simpl; [by intros [= <- <-]|].
  destruct (node_history_init ns m (mb_nodeid mb) (Some seq)) as [ns1 m1] eqn:E.
  intros E2 HP. eapply IH, Forall_history_init; eauto.
Qed.

Lemma Forall_add_joined (P : node -> Prop) our seq joined :
  (forall q n, P n -> P (nd_set_added_seq q n)) -> (forall n, P (node_zero n)) ->
  forall m ns ms w r m' ns',
  add_joined our seq m ns ms w joined = (r, m', ns') -> Forall P ns -> Forall P ns'.
Proof.
  intros Hq Hz. induction joined as [|k joined IH]; intros m ns ms w r m' ns'; simpl.
  - by intros [= <- <- <-].
  - destruct (find_memb_in ms k); [|by intros [= <- <- <-]].
    destruct (k =? our); [apply IH|].
    destruct (node_history_init ns m k (Some seq)) as [ns1 m1] eqn:E.
    intros E2 HP. eapply IH, Forall_history_init; eauto.
Qed.

Lemma Forall_add_removed (P : node -> Prop) c fs seq now lefts :
  (forall r n, P n -> P (nd_fail c fs seq r now n)) ->
  (forall ns k, Forall P ns -> Forall P (node_history_left ns k seq)) ->
  forall m ns r m' ns' kicks,
  add_removed c fs seq now m ns lefts = (r, m', ns', kicks) -> Forall P ns -> Forall P ns'.
Proof.
  intros Hf Hl. induction lefts as [|[k reason] lefts IH]; intros m ns r m' ns' kicks; simpl.
  - by intros [= <- <- <- <-].
  - destruct (malloc m) as [[g|] m1]; [|by intros [= <- <- <- <-]].
    set (ns1 := if left_failed reason then _ else _).
    destruct (add_removed c fs seq now m1 ns1 lefts) as [[[ms m2] ns2] ks] eqn:E.
    intros [= <- <- <- <-] HP. eapply IH; [exact E|]. unfold ns1.
    destruct (left_failed reason); [by apply Forall_upd_node; [apply Hf|]|by apply Hl].
Qed.

(** ** What the steps do to the membership *)

(** The last members given to the kernel. *)
Definition kernel_members (es : list cpg_effect) : option (list Z) :=
  foldl (fun acc e => match e with KMembers ids _ => Some ids | _ => acc end) None es.

(** The part of the state the invariants speak of. *)
Record view := mkView {
  w_stopped : bool;
  w_changes : list change;
  w_history : list node;
  w_started : option change;
  w_kernel : option (list Z)
}.

Definition view_of (s : mstate) : view :=
  let l := s_ls s in
  mkView (l_kernel_stopped l) (l_changes l) (l_node_history l) (l_started_change l)
    (kernel_members (s_out s)).

(** The members of the latest configuration. *)
Definition current (w : view) : option (list Z) :=
  match w_changes w with
  | cg :: _ => Some (format_member_ids cg)
  | [] => option_map format_member_ids (w_started w)
  end.

Record inv (c : cfg_cpg) (w : view) : Prop := mkInv {
  inv_stopped : w_changes w <> [] -> w_stopped w = true;
  inv_waiting : match w_changes w with
                | cg :: _ => cg_st cg = CGST_WAIT_MESSAGES -> calm (w_history w)
                | [] => True
                end;
  inv_running : w_stopped w = false -> calm (w_history w);
  inv_clear : unused_clear c (w_history w);
  inv_kernel : w_stopped w = false -> w_kernel w = current w
}.

Lemma kernel_members_app es es' :
  Forall (fun e => match e with KMembers _ _ => False | _ => True end) es' ->
  kernel_members (es ++ es') = kernel_members es.
Proof.
  unfold kernel_members. rewrite foldl_app. generalize (foldl
    (fun acc e => match e with KMembers ids _ => Some ids | _ => acc end) None es).
  intros acc H. induction H as [|e es' He Hes IH]; simpl; [done|]. by destruct e.
Qed.

Lemma view_send_info c s cg t f d : view_of (send_info c s cg t f d) = view_of s.
Proof.
  unfold send_info. destruct (malloc (wd_mem (s_wd s))) as [[g|] m]; [|done].
  unfold view_of. cbn [s_emit s_set_wd s_ls s_out].
  rewrite kernel_members_app; [done|repeat constructor].
Qed.

Lemma view_send_nacks c s cg : view_of (send_nacks c s cg) = view_of s.
Proof.
  unfold send_nacks. generalize (l_changes (s_ls s)). intros cgs. revert s.
  induction cgs as [|g cgs IH]; intros s; simpl; [done|].
  rewrite IH. destruct (nack_needed cg g); [apply view_send_info|done].
Qed.

Lemma view_prepare_plocks c v s cg s' :
  prepare_plocks c v s cg = Some s' -> view_of s' = view_of s.
Proof.
  unfold prepare_plocks. intros E.
  repeat (zcase_in E; [injection E as <-; done|]).
  zcase_in E.
  - destruct (store_plocks _ _ _ _ _ _ _) as [[[p secs] sig]|]; [|done].
    injection E as <-. unfold send_plocks_stored. by rewrite view_send_info.
  - injection E as <-. unfold send_plocks_stored. by rewrite view_send_info.
Qed.

Lemma view_purge_removed c s ms : view_of (purge_removed c s ms) = view_of s.
Proof.
  unfold purge_removed. revert s. induction ms as [|m ms IH]; intros s; simpl; [done|].
  rewrite IH. by destruct (purge_plocks _ _ _ _ _).
Qed.

(** ** The conditions *)

Lemma check_fencing_loop_calm v ns : forall last ns' w,
  check_fencing_loop v last ns = (ns', w) ->
  0 <= w /\ (w = 0 -> Forall (fun n => nd_check_fencing n = false) ns').
Proof.
  induction ns as [|n ns IH]; intros last ns' w; simpl.
  - intros [= <- <-]. split; [lia|constructor].
  - destruct (check_fencing_node v last n) as [[n' last'] w1] eqn:E1.
    destruct (check_fencing_loop v last' ns) as [ns2 w2] eqn:E2. intros [= <- <-].
    destruct (IH _ _ _ E2) as [H2 H3].
    assert (H1 : 0 <= w1 /\ (w1 = 0 -> nd_check_fencing n' = false)).
    { unfold check_fencing_node in E1. zcase_in E1; [by injection E1 as <- <- <-|].
      zcase_in E1; injection E1 as <- <- <-; split; lia || done. }
    split; [lia|]. intros Hw. constructor; [apply H1; lia|apply H3; lia].
Qed.

Lemma Forall_fencing_loop (P : node -> Prop) v ns :
  (forall last n, P n -> P (fst (fst (check_fencing_node v last n)))) ->
  Forall P ns -> forall last, Forall P (fst (check_fencing_loop v last ns)).
Proof.
  intros HP. induction 1 as [|n ns Hn Hns IH]; intros last; simpl; [constructor|].
  specialize (HP last n Hn). destruct (check_fencing_node v last n) as [[n' last'] w1].
  specialize (IH last'). destruct (check_fencing_loop v last' ns) as [ns2 w2].
  constructor; done.
Qed.

(** The conditions do nothing else than clear flags. *)
Lemma Forall_conditions (P : node -> Prop) c v l b l' :
  (forall last n, P n -> P (fst (fst (check_fencing_node v last n)))) ->
  (forall n, P n -> P (check_quorum_node v n)) -> (forall n, P n -> P (check_fs_node n)) ->
  wait_conditions_done c v l = (b, l') ->
  Forall P (l_node_history l) -> Forall P (l_node_history l').
Proof.
  intros Hf Hq Hs E HP. unfold wait_conditions_done in E.
  assert (H1 : Forall P (snd (check_fencing_done c v (l_node_history l)))).
  { unfold check_fencing_done. zcase; [done|].
    pose proof (Forall_fencing_loop P v _ Hf HP (v_garbage v)) as HF.
    destruct (check_fencing_loop _ _ _) as [ns w]. zcase; [done|].
    by destruct (v_fence_in_progress v). }
  destruct (check_fencing_done c v (l_node_history l)) as [f ns1]. cbn [snd] in H1.
  zcase_in E; [by injection E as <- <-|].
  assert (H2 : Forall P (snd (check_quorum_done c v ns1))).
  { unfold check_quorum_done. zcase; [done|].
    zcase; simpl; apply Forall_map; eapply Forall_impl; eauto. }
  destruct (check_quorum_done c v ns1) as [q ns2]. cbn [snd] in H2.
  zcase_in E; [by injection E as <- <-|].
  assert (H3 : Forall P (snd (check_fs_done (l_fs_registered l) ns2))).
  { unfold check_fs_done. zcase; [done|].
    simpl; apply Forall_map; eapply Forall_impl; eauto. }
  destruct (check_fs_done (l_fs_registered l) ns2) as [q3 ns3]. by injection E as <- <-.
Qed.

Lemma wait_conditions_history c v l b l' :
  wait_conditions_done c v l = (b, l') -> exists ns, l' = l_set_history l ns.
Proof.
  unfold wait_conditions_done. intros E.
  destruct (check_fencing_done c v (l_node_history l)) as [f ns1].
  zcase_in E; [injection E as <- <-; eauto|].
  destruct (check_quorum_done c v ns1) as [q ns2].
  zcase_in E; [injection E as <- <-; eauto|].
  destruct (check_fs_done (l_fs_registered l) ns2) as [q3 ns3]. injection E as <- <-. eauto.
Qed.

Lemma check_fencing_done_clear c v ns ns' :
  check_fencing_done c v ns = (true, ns') -> unused_clear c ns ->
  Forall (fun n => nd_check_fencing n = false) ns'.
Proof.
  unfold check_fencing_done. intros E Hc. zcase_in E.
  - injection E as <-. eapply Forall_impl; [exact Hc|]. simpl. intuition.
  - destruct (check_fencing_loop v (v_garbage v) ns) as [ns1 w] eqn:El.
    apply check_fencing_loop_calm in El as [_ Hw]. zcase_in E; [done|].
    unfold c_true in *. zbool.
    destruct (v_fence_in_progress v); injection E; intros; subst; auto.
Qed.

Lemma check_quorum_done_clear c v ns ns' :
  check_quorum_done c v ns = (true, ns') ->
  Forall (fun n => nd_check_fencing n = false /\
    (cfgd_enable_quorum c = false -> nd_check_quorum n = false)) ns -> calm ns'.
Proof.
  unfold check_quorum_done, calm, pending. intros E Hc. zcase_in E.
  - injection E as <-. eapply Forall_impl; [exact Hc|]. simpl. intros n [-> H2]. by apply H2.
  - zcase_in E; [done|]. injection E as _ <-.
    match goal with H : existsb _ _ = false |- _ => apply existsb_false_Forall in H end.
    apply Forall_map in Heqb0. apply Forall_map.
    induction Hc as [|n ns [Hn _] Hns IH]; [constructor|].
    apply Forall_cons in Heqb0 as [Hq Hqs]. constructor; [|by apply IH].
    apply orb_false_iff. split; [|exact Hq].
    unfold check_quorum_node. by zcase.
Qed.

Lemma node_clear_fencing c v last n :
  (cfgd_enable_fencing c = false -> nd_check_fencing n = false) /\
  (cfgd_enable_quorum c = false -> nd_check_quorum n = false) ->
  let n' := fst (fst (check_fencing_node v last n)) in
  (cfgd_enable_fencing c = false -> nd_check_fencing n' = false) /\
  (cfgd_enable_quorum c = false -> nd_check_quorum n' = false).
Proof.
  intros [H1 H2]. unfold check_fencing_node. cbv zeta.
  destruct (nd_check_fencing n) eqn:E; simpl; [|split; auto; by rewrite E].
  destruct (_ >=? _); simpl; split; auto.
Qed.

Lemma conditions_calm c v l l' :
  wait_conditions_done c v l = (true, l') -> unused_clear c (l_node_history l) ->
  calm (l_node_history l').
Proof.
  unfold wait_conditions_done. intros E Hc.
  destruct (check_fencing_done c v (l_node_history l)) as [f ns1] eqn:E1.
  zcase_in E; [done|]. subst f.
  pose proof (check_fencing_done_clear _ _ _ _ E1 Hc) as H1.
  assert (Hc1 : unused_clear c ns1).
  { unfold check_fencing_done in E1. zcase_in E1; [by injection E1 as <-|].
    pose proof (Forall_fencing_loop _ v _ (fun last n => node_clear_fencing c v last n) Hc
      (v_garbage v)) as HF.
    destruct (check_fencing_loop _ _ _) as [ns2 w]. zcase_in E1; [done|].
    destruct (v_fence_in_progress v); [|done]. by injection E1 as _ <-. }
  destruct (check_quorum_done c v ns1) as [q ns2] eqn:E2.
  zcase_in E; [done|]. subst q.
  assert (H2 : calm ns2).
  { eapply check_quorum_done_clear; [exact E2|].
    apply Forall_and; split; [exact H1|]. eapply Forall_impl; [exact Hc1|]. simpl. intuition. }
  unfold check_fs_done in E. zcase_in E; [by injection E as <-|]. injection E as _ <-.
  cbn [l_node_history l_set_history]. apply Forall_map.
  eapply Forall_impl; [exact H2|]. intros n Hn. unfold check_fs_node. by zcase.
Qed.

(** ** The state machine *)

Lemma vinv_history c w ns :
  inv c w -> (calm (w_history w) -> calm ns) -> unused_clear c ns ->
  inv c (mkView (w_stopped w) (w_changes w) ns (w_started w) (w_kernel w)).
Proof.
  intros [H1 H2 H3 H4 H5] Hc Hu. split; simpl; auto.
  destruct (w_changes w); auto.
Qed.

Lemma unused_conditions c v l b l' :
  wait_conditions_done c v l = (b, l') -> unused_clear c (l_node_history l) ->
  unused_clear c (l_node_history l').
Proof.
  intros E. eapply Forall_conditions; [..|exact E].
  - apply node_clear_fencing.
  - intros n Hn. unfold check_quorum_node. zcase; [|done]. simpl. intuition.
  - intros n Hn. unfold check_fs_node. by zcase.
Qed.

Lemma calm_conditions c v l b l' :
  wait_conditions_done c v l = (b, l') -> calm (l_node_history l) ->
  calm (l_node_history l').
Proof.
  intros E. eapply Forall_conditions; [..|exact E]; unfold pending.
  - intros last n Hn. apply orb_false_iff in Hn as [H1 H2].
    unfold check_fencing_node. by rewrite H1; simpl; rewrite H1, H2.
  - intros n Hn. unfold check_quorum_node. apply orb_false_iff in Hn as [H1 H2].
    rewrite H2. simpl. by rewrite H1, H2.
  - intros n Hn. unfold check_fs_node. by destruct (nd_check_fs n && nd_fs_notified n).
Qed.

Lemma apply_changes_inv c v s s' :
  inv c (view_of s) -> apply_changes c v s = Some s' ->
  inv c (view_of s') /\ current (view_of s') = current (view_of s).
Proof.
  unfold apply_changes. intros Hi E.
  destruct (l_changes (s_ls s)) as [|cg older] eqn:Ec; [by injection E as <-|].
  assert (Hk : l_kernel_stopped (s_ls s) = true).
  { apply (inv_stopped _ _ Hi). simpl. by rewrite Ec. }
  destruct (cg_st cg) eqn:Est.
  - destruct (wait_conditions_done c v (s_ls s)) as [b l] eqn:Ew.
    destruct (wait_conditions_history _ _ _ _ _ Ew) as [ns ->].
    pose proof (unused_conditions _ _ _ _ _ Ew (inv_clear _ _ Hi)) as Hu.
    destruct b; injection E as <-.
    + pose proof (conditions_calm _ _ _ _ Ew (inv_clear _ _ Hi)) as Hcalm.
      set (s1 := s_set_ls s (l_set_history (s_ls s) ns)).
      assert (Hv : view_of (send_start c (send_nacks c s1 cg) cg) = view_of s1)
        by (unfold send_start; by rewrite view_send_info, view_send_nacks).
      set (s2 := send_start c (send_nacks c s1 cg) cg) in *.
      unfold view_of in Hv. injection Hv as Hv1 Hv2 Hv3 Hv4 Hv5.
      unfold view_of. cbn [s_set_ls s_ls s_out l_set_changes l_kernel_stopped l_changes
        l_node_history l_started_change]. rewrite Hv1, Hv3, Hv4, Hv5. subst s1.
      cbn [s_set_ls s_ls s_out]. split; [|unfold current; simpl; by rewrite Ec].
      cbn [l_set_history l_kernel_stopped l_node_history].
      rewrite Hk. split; simpl; try done.
    + split; [|done].
      apply (vinv_history c (view_of s)); [done| |done]. by eapply calm_conditions.
  - zcase_in E; [|by injection E as <-].
    destruct (prepare_plocks _ _ _ _) as [s2|] eqn:Ep; [|done]. injection E as <-.
    apply view_prepare_plocks in Ep. unfold start_kernel in Ep. rewrite Hk in Ep.
    cbn [negb] in Ep. unfold view_of in Ep.
    injection Ep as E1 E2 E3 E4 E5. unfold view_of, current.
    cbn [s_set_ls s_ls s_out cleanup_changes l_kernel_stopped l_changes l_node_history
      l_started_change w_changes w_started option_map].
    rewrite Ec, E1, E3, E5. split; [|done].
    cbn [s_emit s_set_ls s_ls s_out l_set_kernel l_kernel_stopped l_node_history].
    pose proof (inv_waiting _ _ Hi) as Hw. simpl in Hw. rewrite Ec in Hw. specialize (Hw Est).
    pose proof (inv_clear _ _ Hi) as Hcl.
    split; cbn [w_stopped w_changes w_history w_kernel]; try done.
    intros _. unfold kernel_members. rewrite foldl_app. by destruct (l_joining (s_ls s)).
Qed.

(** ** Configuration changes *)

Lemma add_members_ok ids : forall m, mem_ok m ->
  exists ms m', add_members m ids = (Some ms, m') /\ mem_ok m' /\ map mb_nodeid ms = ids.
Proof.
  induction ids as [|k ids IH]; intros m Hm; simpl; [by exists [], m|].
  destruct (malloc_ok m Hm) as (g & m1 & -> & Hm1).
  destruct (IH m1 Hm1) as (ms & m2 & -> & Hm2 & Hi).
  eexists _, m2. split_and!; [reflexivity|done|]. simpl. by rewrite Hi.
Qed.

Lemma add_removed_ok c fs seq now lefts : forall m ns, mem_ok m ->
  exists ms m' ns' ks,
    add_removed c fs seq now m ns lefts = (Some ms, m', ns', ks) /\ mem_ok m' /\
    map mb_nodeid ms = map fst lefts.
Proof.
  induction lefts as [|[k r] lefts IH]; intros m ns Hm; simpl; [by exists [], m, ns, []|].
  destruct (malloc_ok m Hm) as (g & m1 & -> & Hm1).
  destruct (IH m1 (if left_failed r then node_history_fail c ns fs k seq r now
    else node_history_left ns k seq) Hm1) as (ms & m2 & ns2 & ks & -> & Hm2 & Hi).
  do 4 eexists. split_and!; [reflexivity|done|]. simpl. by rewrite Hi.
Qed.

Lemma upd_memb_ids ms k f : (forall m, mb_nodeid (f m) = mb_nodeid m) ->
  map mb_nodeid (upd_memb ms k f) = map mb_nodeid ms.
Proof.
  intros Hf. induction ms as [|m ms IH]; simpl; [done|].
  destruct (mb_nodeid m =? k); simpl; by rewrite ?Hf, ?IH.
Qed.

Lemma find_memb_elem ms k : k ∈ map mb_nodeid ms <-> is_Some (find_memb_in ms k).
Proof.
  induction ms as [|m ms IH]; simpl.
  - split; [intros H; inversion H|by intros [? ?]].
  - rewrite elem_of_cons. zcase; [split; [by eexists|auto]|].
    rewrite <- IH. split; [intros [?|?]; [congruence|done]|auto].
Qed.

Lemma add_joined_ok our seq joined : forall m ns ms w,
  Forall (fun k => k ∈ map mb_nodeid ms) joined ->
  exists ms' w' m' ns',
    add_joined our seq m ns ms w joined = (Some (ms', w'), m', ns') /\
    map mb_nodeid ms' = map mb_nodeid ms.
Proof.
  induction joined as [|k joined IH]; intros m ns ms w Hj; simpl; [by exists ms, w, m, ns|].
  apply Forall_cons in Hj as [Hk Hj]. apply find_memb_elem in Hk as [mb ->].
  set (ms1 := upd_memb ms k mb_set_added).
  assert (Hms : map mb_nodeid ms1 = map mb_nodeid ms) by (by apply upd_memb_ids).
  rewrite <- Hms in *.
  destruct (k =? our); [by apply IH|].
  destruct (node_history_init ns m k (Some seq)) as [ns1 m1]. by apply IH.
Qed.

Lemma unused_fail c fs seq r now n :
  (cfgd_enable_fencing c = false -> nd_check_fencing n = false) /\
  (cfgd_enable_quorum c = false -> nd_check_quorum n = false) ->
  (cfgd_enable_fencing c = false -> nd_check_fencing (nd_fail c fs seq r now n) = false) /\
  (cfgd_enable_quorum c = false -> nd_check_quorum (nd_fail c fs seq r now n) = false).
Proof. intros [H1 H2]. simpl. split; intros H; rewrite H; simpl; auto. Qed.

(** What [add_change] does when it succeeds. *)
Lemma add_change_ok c s members lefts joined :
  mem_ok (wd_mem (s_wd s)) -> Forall (fun n => n ∈ members) joined ->
  exists cg s1,
    add_change c s members lefts joined = (inl cg, s1) /\
    cg_st cg = CGST_WAIT_CONDITIONS /\ format_member_ids cg = members /\
    map mb_nodeid (cg_removed cg) = map fst lefts /\
    l_kernel_stopped (s_ls s1) = l_kernel_stopped (s_ls s) /\
    l_changes (s_ls s1) = cg :: l_changes (s_ls s) /\
    (forall P : node -> Prop,
       (forall q n, P n -> P (nd_set_added_seq q n)) -> (forall n, P (node_zero n)) ->
       (forall seq r n, P n ->
          P (nd_fail c (l_fs_registered (s_ls s)) seq r (wd_time (s_wd s)) n)) ->
       (forall ns k seq, Forall P ns -> Forall P (node_history_left ns k seq)) ->
       Forall P (l_node_history (s_ls s)) -> Forall P (l_node_history (s_ls s1))) /\
    l_started_change (s_ls s1) = l_started_change (s_ls s) /\
    kernel_members (s_out s1) = kernel_members (s_out s).
Proof.
  intros Hm Hj. unfold add_change.
  destruct (malloc_ok _ Hm) as (g & m1 & -> & Hm1).
  destruct (add_members_ok members m1 Hm1) as (ms & m2 & -> & Hm2 & Hi).
  cbn [l_set_seq l_fs_registered l_node_history].
  set (seq := next_seq (l_change_seq (s_ls s))). set (now := wd_time (s_wd s)).
  destruct (add_removed_ok c (l_fs_registered (s_ls s)) seq now lefts m2
    (l_node_history (s_ls s)) Hm2) as (rm & m3 & ns3 & ks & E3 & Hm3 & Hr).
  rewrite E3. rewrite <- Hi in Hj.
  destruct (add_joined_ok (our_nodeid (cfg_plock c)) seq joined m3 ns3 ms false Hj)
    as (ms4 & w4 & m4 & ns4 & E4 & Hi4). rewrite E4.
  destruct (if w4 then history_init_all ns4 m4 seq ms4 else (ns4, m4)) as [ns5 m5] eqn:E5.
  do 2 eexists. split; [reflexivity|]. split_and!; try done.
  - unfold format_member_ids. simpl. congruence.
  - intros P Hq Hz Hf Hl HP. simpl.
    assert (H4 : Forall P ns4).
    { eapply Forall_add_joined; [done..|exact E4|].
      eapply Forall_add_removed; [| |exact E3|done]; auto. }
    destruct w4; [|by injection E5 as <- <-]. eapply Forall_history_init_all; eauto.
  - simpl. rewrite kernel_members_app; [done|]. apply Forall_map, Forall_true. done.
Qed.

(** ** The invariant holds along runs *)

(** Changes that differ in what is known of their members only. *)
Definition same_shape : list change -> list change -> Prop :=
  Forall2 (fun a b => cg_st a = cg_st b /\ format_member_ids a = format_member_ids b).

Lemma same_shape_refl cgs : same_shape cgs cgs.
Proof. induction cgs; constructor; auto. Qed.

Lemma same_shape_trans a b d : same_shape a b -> same_shape b d -> same_shape a d.
Proof.
  intros H. revert d. induction H as [|x y l k [H1 H2] H IH]; intros d Hd; [done|].
  inversion Hd as [|? z ? l' [H3 H4] Hl]; subst. constructor; [split; congruence|].
  by apply IH.
Qed.

Lemma same_shape_alter i cgs k f : (forall m, mb_nodeid (f m) = mb_nodeid m) ->
  same_shape cgs (alter (fun g => cg_upd_memb g k f) i cgs).
Proof.
  intros Hf. revert i. induction cgs as [|g cgs IH]; intros [|i]; simpl; constructor; auto.
  - split; [done|]. unfold format_member_ids. simpl. by rewrite upd_memb_ids.
  - apply same_shape_refl.
  - apply IH.
Qed.

Lemma inv_same_shape c w cgs ns :
  inv c w -> same_shape (w_changes w) cgs -> (calm (w_history w) -> calm ns) ->
  unused_clear c ns ->
  let w' := mkView (w_stopped w) cgs ns (w_started w) (w_kernel w) in
  inv c w' /\ current w' = current w.
Proof.
  intros [H1 H2 H3 H4 H5] Hs Hc Hu. unfold current in *. simpl.
  destruct Hs as [|a b l k [Ha Hb] Hs]; split; try (split; simpl; auto; done); try done.
  - rewrite Ha in H2. rewrite Hb in H5. split; simpl; auto.
  - simpl. by rewrite Hb.
Qed.

(** A node's flags are those of an update that keeps them. *)
Lemma calm_upd ns k f :
  (forall n, nd_check_fencing (f n) = nd_check_fencing n /\
             nd_check_quorum (f n) = nd_check_quorum n) ->
  (calm ns -> calm (upd_node ns k f)) /\
  forall c, unused_clear c ns -> unused_clear c (upd_node ns k f).
Proof.
  intros Hf. split.
  - apply Forall_upd_node. intros n. unfold pending. destruct (Hf n) as [-> ->]. done.
  - intros c. apply Forall_upd_node. intros n. destruct (Hf n) as [-> ->]. done.
Qed.

Lemma receive_start_shape c l now hd li ids :
  let l' := receive_start c l now hd li ids in
  l_kernel_stopped l' = l_kernel_stopped l /\ l_started_change l' = l_started_change l /\
  same_shape (l_changes l) (l_changes l') /\
  (l_node_history l' = l_node_history l \/
   l_node_history l' = node_history_start (l_node_history l) (s32 (hd_nodeid hd)) now).
Proof.
  unfold receive_start.
  destruct (find_change _ _ _ _ _ _) as [[i cg]|]; [|by auto using same_shape_refl].
  destruct (find_memb cg _); [|by auto using same_shape_refl].
  set (k := s32 (hd_nodeid hd)).
  assert (H1 := same_shape_alter i (l_changes l) k (mb_set_flags (hd_flags hd))
    ltac:(done)).
  repeat zcase; simpl; split_and!; auto.
  all: eapply same_shape_trans; [exact H1|]; by apply same_shape_alter.
Qed.

Lemma deliver_msg_inv c s hd pl sig0 num0 iter :
  inv c (view_of s) ->
  let s' := deliver_msg c s hd pl sig0 num0 iter in
  inv c (view_of s') /\ current (view_of s') = current (view_of s).
Proof.
  intros Hi. unfold deliver_msg. destruct pl as [li ids|i|]; [| |done].
  - zcase.
    + destruct (receive_start_shape c (s_ls s) (wd_time (s_wd s)) hd li ids)
        as (E1 & E2 & Hs & Hh).
      set (l' := receive_start _ _ _ _ _ _) in *. unfold view_of.
      cbn [s_set_ls s_ls s_out]. rewrite E1, E2.
      apply (inv_same_shape c (view_of s)); [done|done| |].
      * destruct Hh as [->| ->]; [done|]. by apply calm_upd.
      * pose proof (inv_clear _ _ Hi).
        destruct Hh as [->| ->]; [done|]. by apply calm_upd.
    + repeat (zcase; [done|]). zcase; [|done].
      zcase; [done|]. zcase; [|done]. unfold receive_stored.
      by destruct (receive_plocks_stored _ _ _ _ _ _ _ _ _).
  - by destruct (deliver_plock _ _ _ _).
Qed.

Lemma view_set_history s l ns :
  view_of (s_set_ls s (l_set_history l ns)) =
  mkView (l_kernel_stopped l) (l_changes l) ns (l_started_change l) (kernel_members (s_out s)).
Proof. done. Qed.

(** [P] holds of every node the cluster manager's events leave. *)
Lemma Forall_cluster_add (P : node -> Prop) ns m k now hs m' :
  (forall n, P (node_zero n)) -> (forall q n, P n -> P (nd_set_added_seq q n)) ->
  (forall a r n, P n -> P (nd_set_cluster_times a r n)) ->
  node_history_cluster_add [ns] m k now = (hs, m') -> Forall P ns -> Forall P (concat hs).
Proof.
  intros Hz Hq Ht. simpl. destruct (node_history_init ns m k None) as [ns1 m1] eqn:E.
  intros E2 HP. assert (H1 : Forall P ns1) by (eapply Forall_history_init; eauto).
  destruct (get_node_history ns1 k); injection E2 as <- <-; simpl; rewrite app_nil_r; [|done].
  apply Forall_upd_node; auto.
Qed.

Lemma Forall_cluster_remove (P : node -> Prop) ns k now :
  (forall a r n, P n -> P (nd_set_cluster_times a r n)) ->
  Forall P ns -> Forall P (concat (node_history_cluster_remove [ns] k now)).
Proof.
  intros Ht HP. simpl. destruct (get_node_history ns k); simpl; rewrite app_nil_r; [|done].
  apply Forall_upd_node; auto.
Qed.

Lemma confchg_inv c v s members lefts joined s' :
  inv c (view_of s) -> mem_ok (wd_mem (s_wd s)) -> Forall (fun n => n ∈ members) joined ->
  confchg_cb c v s members lefts joined = Some (true, s') ->
  inv c (view_of s') /\ current (view_of s') = Some members.
Proof.
  intros Hi Hm Hj. unfold confchg_cb. zcase; [by destruct (purge_plocks _ _ _ _ _)|].
  destruct (add_change_ok c s members lefts joined Hm Hj)
    as (cg & s1 & -> & Hst & Hids & _ & Hk & Hch & HP & Hsc & Hkm).
  destruct (apply_changes _ _ _) as [s2|] eqn:Ea; [|done]. intros [= <-].
  assert (Hv : view_of (purge_removed c (stop_kernel s1) (cg_removed cg)) =
    mkView true (cg :: l_changes (s_ls s)) (l_node_history (s_ls s1))
      (l_started_change (s_ls s)) (kernel_members (s_out s))).
  { rewrite view_purge_removed. unfold stop_kernel, view_of.
    destruct (l_kernel_stopped (s_ls s1)) eqn:Ek; simpl; rewrite Hch, Hsc;
      [by rewrite Ek, Hkm|].
    rewrite kernel_members_app; [by rewrite Hkm|repeat constructor]. }
  destruct (apply_changes_inv c v (purge_removed c (stop_kernel s1) (cg_removed cg)) s2)
    as [H1 H2]; [|exact Ea|].
  - rewrite Hv. split; simpl; try done; [by rewrite Hst|].
    apply HP; [done|done| | |exact (inv_clear _ _ Hi)].
    + intros seq r n. apply unused_fail.
    + intros ns k seq. apply calm_upd. done.
  - split; [done|]. rewrite H2, Hv. unfold current. simpl. by rewrite Hids.
Qed.

Lemma mstep_inv c s i s' :
  inv c (view_of s) -> input_ok i -> mstep c s i = Some s' ->
  inv c (view_of s') /\
  current (view_of s') =
    match in_ev i with EvConfchg members _ _ => Some members | _ => current (view_of s) end.
Proof.
  intros Hi Hok E. unfold mstep in E. unfold input_ok in Hok.
  set (s1 := s_set_wd s _) in E. change (view_of s) with (view_of s1) in *.
  destruct (in_ev i) as [members lefts joined|nodeid hd pl num0 iter| |on|k|k|k|].
  - destruct (confchg_cb _ _ _ _ _ _) as [[[] s2]|] eqn:Ec; try done. injection E as <-.
    destruct Hok as (Hm & Hj & _). by eapply confchg_inv.
  - unfold deliver_cb in E. destruct (hd_version hd) as [[h0 h1] h2].
    destruct (daemon_run c) as [[r0 r1] r2].
    zcase_in E; [by injection E as <-|]. zcase_in E; [by injection E as <-|].
    destruct (deliver_msg_inv c s1 hd pl (v_garbage (in_env i)) num0 iter Hi) as [H1 H2].
    destruct (apply_changes_inv c _ _ _ H1 E) as [H3 H4]. split; [done|]. congruence.
  - unfold process_lockspace_changes in E.
    destruct (l_changes (s_ls s1)); [by injection E as <-|]. by eapply apply_changes_inv.
  - by injection E as <-.
  - unfold set_fs_notified in E. destruct (get_node_history _ _); [|by injection E as <-].
    destruct (l_started_change (s_ls s1)) eqn:Es; [|done].
    destruct (find_memb _ _); [|by injection E as <-].
    zcase_in E; injection E as <-; [done|]. rewrite view_set_history.
    split; [|done]. destruct (calm_upd (l_node_history (s_ls s1)) k nd_set_fs_notified)
      as [Hc Hu]; [done|].
    apply (vinv_history c (view_of s1)); auto. apply Hu, (inv_clear _ _ Hi).
  - destruct (node_history_cluster_add _ _ _ _) as [hs m] eqn:Eh. injection E as <-.
    split; [|done]. apply (vinv_history c (view_of s1)); [done| |].
    + intros Hc. by eapply Forall_cluster_add; [..|exact Eh|exact Hc].
    + by eapply Forall_cluster_add; [..|exact Eh|exact (inv_clear _ _ Hi)].
  - injection E as <-. split; [|done]. apply (vinv_history c (view_of s1)); [done| |].
    + intros Hc. by apply Forall_cluster_remove.
    + by apply Forall_cluster_remove; [|exact (inv_clear _ _ Hi)].
  - by injection E as <-.
Qed.

(** ** Fencing *)

Section fencing.
Variables (v : env) (ft : Z).
Hypothesis answers : forall k, is_Some (v_fence_node_time v k).

Definition fenced (k : Z) : Prop := exists t, v_fence_node_time v k = Some t /\ ft <= t.

(** The node still waits for a fencing not older than [ft]. *)
Definition unfenced (n : node) : Prop := nd_check_fencing n = true /\ ft <= nd_fail_time n.

(** A node goes on waiting until the fence daemon reports it fenced. *)
Definition keeps (n n' : node) : Prop :=
  nd_nodeid n' = nd_nodeid n /\ (unfenced n -> fenced (nd_nodeid n) \/ unfenced n').

Definition evolves (ns ns' : list node) : Prop :=
  forall k n, get_node_history ns k = Some n ->
  exists n', get_node_history ns' k = Some n' /\ keeps n n'.

Lemma keeps_refl n : keeps n n.
Proof. split; auto. Qed.

Lemma keeps_same n n' : nd_nodeid n' = nd_nodeid n ->
  nd_check_fencing n' = nd_check_fencing n -> nd_fail_time n' = nd_fail_time n -> keeps n n'.
Proof. intros E1 E2 E3. split; [done|]. unfold unfenced. rewrite E2, E3. auto. Qed.

Lemma hist_evolves_refl ns : evolves ns ns.
Proof. intros k n Hn. exists n. auto using keeps_refl. Qed.

Lemma hist_evolves_trans a b d : evolves a b -> evolves b d -> evolves a d.
Proof.
  intros H1 H2 k n Hn. destruct (H1 _ _ Hn) as (n1 & Hn1 & E1 & K1).
  destruct (H2 _ _ Hn1) as (n2 & Hn2 & E2 & K2). exists n2. split; [done|].
  split; [congruence|]. intros Hu. rewrite E1 in K2. destruct (K1 Hu); auto.
Qed.

Lemma evolves_cons n n' ns ns' : keeps n n' -> evolves ns ns' -> evolves (n :: ns) (n' :: ns').
Proof.
  intros [E K] H k m. simpl. rewrite E. zcase; [|apply H].
  intros [= <-]. exists n'. by split.
Qed.

Lemma evolves_upd ns k f : (forall n, keeps n (f n)) -> evolves ns (upd_node ns k f).
Proof.
  intros Hf. induction ns as [|n ns IH]; simpl; [apply hist_evolves_refl|].
  destruct (nd_nodeid n =? k); apply evolves_cons; auto using keeps_refl, hist_evolves_refl.
Qed.

Lemma evolves_map ns f : (forall n, keeps n (f n)) -> evolves ns (map f ns).
Proof.
  intros Hf. induction ns as [|n ns IH]; simpl; [apply hist_evolves_refl|].
  by apply evolves_cons.
Qed.

Lemma evolves_app ns ns' : evolves ns (ns ++ ns').
Proof.
  induction ns as [|n ns IH]; simpl; [by intros k n|].
  apply evolves_cons; [apply keeps_refl|done].
Qed.

Lemma evolves_init ns m k seq : evolves ns (fst (node_history_init ns m k seq)).
Proof.
  unfold node_history_init. assert (Hq : forall q n, keeps n (nd_set_added_seq q n)) by (intros; by apply keeps_same).
  destruct (get_node_history ns k).
  - destruct seq; simpl; [by apply evolves_upd|apply hist_evolves_refl].
  - destruct (malloc m) as [[g|] m']; [|apply hist_evolves_refl].
    eapply hist_evolves_trans; [apply (evolves_app ns [node_zero k])|].
    destruct seq; simpl; [by apply evolves_upd|apply hist_evolves_refl].
Qed.

Lemma evolves_init_all ms seq : forall ns m, evolves ns (fst (history_init_all ns m seq ms)).
Proof.
  induction ms as [|mb ms IH]; intros ns m; simpl; [apply hist_evolves_refl|].
  pose proof (evolves_init ns m (mb_nodeid mb) (Some seq)) as H.
  destruct (node_history_init ns m (mb_nodeid mb) (Some seq)) as [ns1 m1].
  by eapply hist_evolves_trans.
Qed.

Lemma evolves_joined our seq joined : forall m ns ms w,
  evolves ns (snd (add_joined our seq m ns ms w joined)).
Proof.
  induction joined as [|k joined IH]; intros m ns ms w; simpl; [apply hist_evolves_refl|].
  destruct (find_memb_in ms k); [|apply hist_evolves_refl].
  destruct (k =? our); [apply IH|].
  pose proof (evolves_init ns m k (Some seq)) as H.
  destruct (node_history_init ns m k (Some seq)) as [ns1 m1]. by eapply hist_evolves_trans.
Qed.

Lemma keeps_fail c fs seq r now n : ft <= now -> keeps n (nd_fail c fs seq r now n).
Proof.
  intros Hn. split; [done|]. intros [H1 H2]. right. unfold nd_fail, unfenced; simpl.
  rewrite H1, orb_true_r. split; [done|]. by zcase.
Qed.

Lemma evolves_left ns k seq : evolves ns (node_history_left ns k seq).
Proof. apply evolves_upd. intros n. split; auto. Qed.

Lemma evolves_removed c fs seq now lefts : ft <= now -> forall m ns,
  evolves ns (snd (fst (add_removed c fs seq now m ns lefts))).
Proof.
  intros Hn. induction lefts as [|[k r] lefts IH]; intros m ns; simpl; [apply hist_evolves_refl|].
  destruct (malloc m) as [[g|] m1]; [|apply hist_evolves_refl].
  set (ns1 := if left_failed r then _ else _). specialize (IH m1 ns1).
  destruct (add_removed c fs seq now m1 ns1 lefts) as [[[ms m2] ns2] ks].
  eapply hist_evolves_trans; [|exact IH]. unfold ns1. destruct (left_failed r).
  - apply evolves_upd. intros n. by apply keeps_fail.
  - apply evolves_left.
Qed.

Lemma keeps_fencing last n : keeps n (fst (fst (check_fencing_node v last n))).
Proof.
  unfold check_fencing_node. destruct (answers (nd_nodeid n)) as [t Ht]. rewrite Ht. simpl.
  zcase; [apply keeps_refl|]. destruct (t >=? nd_fail_time n) eqn:E; simpl.
  - split; [done|]. intros [_ H]. left. exists t. split; [done|].
    rewrite Z.geb_leb in E. zbool. lia.
  - split; [done|]. intros [H1 H2]. by right.
Qed.

Lemma evolves_fencing ns : forall last, evolves ns (fst (check_fencing_loop v last ns)).
Proof.
  induction ns as [|n ns IH]; intros last; simpl; [apply hist_evolves_refl|].
  pose proof (keeps_fencing last n) as H.
  destruct (check_fencing_node v last n) as [[n' last'] w]. specialize (IH last').
  destruct (check_fencing_loop v last' ns) as [ns2 w2]. by apply evolves_cons.
Qed.

Lemma evolves_conditions c l b l' :
  wait_conditions_done c v l = (b, l') -> evolves (l_node_history l) (l_node_history l').
Proof.
  unfold wait_conditions_done. intros E.
  assert (H1 : evolves (l_node_history l) (snd (check_fencing_done c v (l_node_history l)))).
  { unfold check_fencing_done. zcase; [apply hist_evolves_refl|].
    pose proof (evolves_fencing (l_node_history l) (v_garbage v)) as H.
    destruct (check_fencing_loop _ _ _) as [ns w]. zcase; [done|].
    by destruct (v_fence_in_progress v). }
  destruct (check_fencing_done c v (l_node_history l)) as [f ns1].
  zcase_in E; [by injection E as <- <-|].
  assert (H2 : evolves ns1 (snd (check_quorum_done c v ns1))).
  { unfold check_quorum_done. zcase; [apply hist_evolves_refl|].
    zcase; apply evolves_map; intros n; unfold check_quorum_node; (zcase; [by apply keeps_same|apply keeps_refl]). }
  destruct (check_quorum_done c v ns1) as [q ns2].
  zcase_in E; [injection E as <- <-; by eapply hist_evolves_trans|].
  assert (H3 : evolves ns2 (snd (check_fs_done (l_fs_registered l) ns2))).
  { unfold check_fs_done. zcase; [apply hist_evolves_refl|].
    apply evolves_map; intros n; unfold check_fs_node.
    zcase; [by apply keeps_same|apply keeps_refl]. }
  destruct (check_fs_done (l_fs_registered l) ns2) as [q3 ns3]. injection E as <- <-.
  do 2 (eapply hist_evolves_trans; [done|]). done.
Qed.

End fencing.

(** The state's node [k] waits for a fencing, or the daemon reports it. *)
Definition awaits (v : env) (ft k : Z) (ns : list node) : Prop :=
  fenced v ft k \/ exists n, get_node_history ns k = Some n /\ unfenced ft n.

Lemma get_node_history_id ns k n : get_node_history ns k = Some n -> nd_nodeid n = k.
Proof.
  induction ns as [|m ns IH]; simpl; [done|]. zcase; [by intros [= <-]|apply IH].
Qed.

Lemma get_node_history_elem ns k n : get_node_history ns k = Some n -> n ∈ ns.
Proof.
  induction ns as [|m ns IH]; simpl; [done|]. rewrite elem_of_cons.
  zcase; [intros [= <-]; by left|intros H; right; by apply IH].
Qed.

Lemma awaits_evolves v ft k ns ns' : awaits v ft k ns -> evolves v ft ns ns' -> awaits v ft k ns'.
Proof.
  intros [H|(n & Hn & Hu)] He; [by left|]. destruct (He _ _ Hn) as (n' & Hn' & _ & HK).
  rewrite (get_node_history_id _ _ _ Hn) in HK.
  destruct (HK Hu); [by left|right; by exists n'].
Qed.

Lemma history_send_info c s cg t f d : s_ls (send_info c s cg t f d) = s_ls s.
Proof. unfold send_info. by destruct (malloc (wd_mem (s_wd s))) as [[g|] m]. Qed.

Lemma history_view s s' : view_of s = view_of s' ->
  l_node_history (s_ls s) = l_node_history (s_ls s').
Proof. unfold view_of. by intros [= _ _ H _ _]. Qed.

Lemma apply_changes_evolves c v ft s s' :
  (forall k, is_Some (v_fence_node_time v k)) -> apply_changes c v s = Some s' ->
  evolves v ft (l_node_history (s_ls s)) (l_node_history (s_ls s')).
Proof.
  intros Ha E. unfold apply_changes in E.
  destruct (l_changes (s_ls s)) as [|cg older]; [injection E as <-; apply hist_evolves_refl|].
  destruct (cg_st cg).
  - destruct (wait_conditions_done c v (s_ls s)) as [b l] eqn:Ew.
    apply (evolves_conditions v ft Ha) in Ew.
    destruct b; injection E as <-; [|done].
    set (s1 := s_set_ls s l). cbn [s_set_ls s_ls l_set_changes l_node_history].
    replace (l_node_history (s_ls (send_start c (send_nacks c s1 cg) cg)))
      with (l_node_history l); [done|].
    symmetry. apply (history_view _ s1). unfold send_start.
    by rewrite view_send_info, view_send_nacks.
  - zcase_in E; [|injection E as <-; apply hist_evolves_refl].
    destruct (prepare_plocks _ _ _ _) as [s2|] eqn:Ep; [|done]. injection E as <-.
    apply view_prepare_plocks, history_view in Ep. simpl. rewrite Ep.
    unfold start_kernel. zcase; apply hist_evolves_refl.
Qed.

Lemma add_change_evolves c v ft s members lefts joined :
  ft <= wd_time (s_wd s) ->
  evolves v ft (l_node_history (s_ls s))
    (l_node_history (s_ls (snd (add_change c s members lefts joined)))).
Proof.
  intros Hn. unfold add_change.
  destruct (malloc (wd_mem (s_wd s))) as [[g|] m]; [|apply hist_evolves_refl].
  destruct (add_members m members) as [[ms|] m2]; [|apply hist_evolves_refl].
  set (seq := next_seq _). cbn [l_set_seq l_fs_registered l_node_history].
  pose proof (evolves_removed v ft c (l_fs_registered (s_ls s)) seq _ lefts Hn m2
    (l_node_history (s_ls s))) as H1.
  destruct (add_removed _ _ _ _ _ _ _) as [[[[rm|] m3] ns3] ks]; [|exact H1].
  pose proof (evolves_joined v ft (our_nodeid (cfg_plock c)) seq joined m3 ns3 ms false) as H2.
  destruct (add_joined _ _ _ _ _ _ _) as [[[[ms4 w4]|] m4] ns4];
    [|by eapply hist_evolves_trans].
  assert (H3 : evolves v ft ns4
    (fst (if w4 then history_init_all ns4 m4 seq ms4 else (ns4, m4)))).
  { destruct w4; [apply evolves_init_all|apply hist_evolves_refl]. }
  destruct (if w4 then _ else _) as [ns5 m5].
  do 2 (eapply hist_evolves_trans; [done|]). done.
Qed.

Lemma confchg_evolves c v ft s members lefts joined s' :
  (forall k, is_Some (v_fence_node_time v k)) -> ft <= wd_time (s_wd s) ->
  confchg_cb c v s members lefts joined = Some (true, s') ->
  evolves v ft (l_node_history (s_ls (snd (add_change c s members lefts joined))))
    (l_node_history (s_ls s')) /\
  evolves v ft (l_node_history (s_ls s)) (l_node_history (s_ls s')).
Proof.
  intros Ha Hn. unfold confchg_cb. zcase; [by destruct (purge_plocks _ _ _ _ _)|].
  pose proof (add_change_evolves c v ft s members lefts joined Hn) as H1.
  destruct (add_change c s members lefts joined) as [[cg|e] s1]; cbn [snd] in *.
  - destruct (apply_changes _ _ _) as [s2|] eqn:Ea; [|done]. intros [= <-].
    apply (apply_changes_evolves _ _ ft) in Ea; [|done].
    replace (l_node_history (s_ls (purge_removed c (stop_kernel s1) (cg_removed cg))))
      with (l_node_history (s_ls s1)) in Ea; [split; [done|by eapply hist_evolves_trans]|].
    rewrite (history_view _ _ (view_purge_removed c (stop_kernel s1) (cg_removed cg))).
    unfold stop_kernel. by zcase.
  - intros [= <-]. split; [apply hist_evolves_refl|done].
Qed.

Lemma deliver_msg_evolves c v ft s hd pl sig0 num0 iter :
  evolves v ft (l_node_history (s_ls s))
    (l_node_history (s_ls (deliver_msg c s hd pl sig0 num0 iter))).
Proof.
  unfold deliver_msg. destruct pl as [li ids|i|]; [| |apply hist_evolves_refl].
  - zcase.
    + destruct (receive_start_shape c (s_ls s) (wd_time (s_wd s)) hd li ids)
        as (_ & _ & _ & [Hh|Hh]); simpl; rewrite Hh; [apply hist_evolves_refl|].
      apply evolves_upd. intros n. by apply keeps_same.
    + zcase; [|apply hist_evolves_refl]. zcase; [apply hist_evolves_refl|].
      zcase; [|apply hist_evolves_refl]. unfold receive_stored.
      destruct (receive_plocks_stored _ _ _ _ _ _ _ _ _). apply hist_evolves_refl.
  - destruct (deliver_plock _ _ _ _). apply hist_evolves_refl.
Qed.

Lemma mstep_evolves c ft s i s' :
  (forall k, is_Some (v_fence_node_time (in_env i) k)) -> ft <= in_time i ->
  mstep c s i = Some s' ->
  evolves (in_env i) ft (l_node_history (s_ls s)) (l_node_history (s_ls s')).
Proof.
  intros Ha Hn E. unfold mstep in E. set (s1 := s_set_wd s _) in E.
  change (s_ls s) with (s_ls s1). set (v := in_env i) in *.
  assert (Ht : forall a r n, keeps v ft n (nd_set_cluster_times a r n))
    by (intros; by apply keeps_same).
  destruct (in_ev i) as [members lefts joined|nodeid hd pl num0 iter| |on|k|k|k|].
  - destruct (confchg_cb _ _ _ _ _ _) as [[[] s2]|] eqn:Ec; try done. injection E as <-.
    by eapply confchg_evolves.
  - unfold deliver_cb in E. destruct (hd_version hd) as [[h0 h1] h2].
    destruct (daemon_run c) as [[r0 r1] r2].
    zcase_in E; [injection E as <-; apply hist_evolves_refl|].
    zcase_in E; [injection E as <-; apply hist_evolves_refl|].
    eapply hist_evolves_trans; [apply deliver_msg_evolves|by eapply apply_changes_evolves].
  - unfold process_lockspace_changes in E.
    destruct (l_changes (s_ls s1)); [injection E as <-; apply hist_evolves_refl|].
    by eapply apply_changes_evolves.
  - injection E as <-. apply hist_evolves_refl.
  - unfold set_fs_notified in E.
    destruct (get_node_history _ _); [|injection E as <-; apply hist_evolves_refl].
    destruct (l_started_change (s_ls s1)); [|done].
    destruct (find_memb _ _); [|injection E as <-; apply hist_evolves_refl].
    zcase_in E; injection E as <-; [apply hist_evolves_refl|].
    apply evolves_upd. intros ?. by apply keeps_same.
  - simpl in E. pose proof (evolves_init v ft (l_node_history (s_ls s)) (in_mem i) k None) as H.
    destruct (node_history_init _ _ _ _) as [ns1 m1]. cbn [fst] in H.
    destruct (get_node_history ns1 k); injection E as <-; simpl; rewrite app_nil_r; [|done].
    eapply hist_evolves_trans; [exact H|]. by apply evolves_upd.
  - injection E as <-. simpl. destruct (get_node_history _ k); simpl; rewrite app_nil_r;
      [by apply evolves_upd|apply hist_evolves_refl].
  - injection E as <-. apply hist_evolves_refl.
Qed.

Lemma get_upd_same ns k f : (forall n, nd_nodeid (f n) = nd_nodeid n) ->
  get_node_history (upd_node ns k f) k = option_map f (get_node_history ns k).
Proof.
  intros Hf. induction ns as [|n ns IH]; simpl; [done|].
  destruct (nd_nodeid n =? k) eqn:E; simpl; [by rewrite Hf, E|by rewrite E].
Qed.

Lemma get_upd_other ns k j f : (forall n, nd_nodeid (f n) = nd_nodeid n) -> k <> j ->
  get_node_history (upd_node ns j f) k = get_node_history ns k.
Proof.
  intros Hf Hk. induction ns as [|n ns IH]; simpl; [done|].
  destruct (nd_nodeid n =? j) eqn:E; simpl; [|by rewrite IH].
  rewrite Hf. zcase; [|done]. zbool. lia.
Qed.

(** A failed node that had started must be fenced. *)
Lemma removed_awaits c v fs seq now k reason lefts n : cfgd_enable_fencing c = true ->
  nd_add_time n <> 0 -> left_failed reason = true ->
  NoDup (map fst lefts) -> (k, reason) ∈ lefts -> forall m ns, mem_ok m ->
  get_node_history ns k = Some n ->
  awaits v now k (snd (fst (add_removed c fs seq now m ns lefts))).
Proof.
  intros Hen Hadd Hf. induction lefts as [|[j r] lefts IH]; intros Hnd Hin m ns Hm Hn;
    [by apply elem_of_nil in Hin|].
  apply NoDup_cons in Hnd as [Hj Hnd]. simpl.
  destruct (malloc_ok m Hm) as (g & m1 & -> & Hm1).
  set (ns1 := if left_failed r then _ else _).
  apply elem_of_cons in Hin as [[= <- <-]|Hin].
  - assert (H1 : awaits v now k ns1).
    { right. unfold ns1. rewrite Hf. exists (nd_fail c fs seq reason now n). split.
      - unfold node_history_fail. rewrite get_upd_same by done. by rewrite Hn.
      - unfold unfenced, nd_fail, c_true. simpl. rewrite Hen.
        rewrite (proj2 (Z.eqb_neq _ _) Hadd). simpl. split; [done|lia]. }
    eapply awaits_evolves; [exact H1|].
    pose proof (evolves_removed v now c fs seq now lefts ltac:(lia) m1 ns1) as H2.
    by destruct (add_removed _ _ _ _ _ _ _) as [[[? ?] ?] ?].
  - assert (Hn1 : get_node_history ns1 k = Some n).
    { unfold ns1, node_history_fail, node_history_left.
      destruct (left_failed r); rewrite get_upd_other; try done.
      all: intros ->; apply Hj; apply list_elem_of_fmap; by exists (j, reason). }
    specialize (IH Hnd Hin m1 ns1 Hm1 Hn1).
    by destruct (add_removed _ _ _ _ _ _ _) as [[[? ?] ?] ?].
Qed.

Lemma add_change_awaits c v s members lefts joined k reason n :
  cfgd_enable_fencing c = true -> mem_ok (wd_mem (s_wd s)) -> NoDup (map fst lefts) ->
  (k, reason) ∈ lefts -> left_failed reason = true ->
  get_node_history (l_node_history (s_ls s)) k = Some n -> nd_add_time n <> 0 ->
  awaits v (wd_time (s_wd s)) k
    (l_node_history (s_ls (snd (add_change c s members lefts joined)))).
Proof.
  intros Hen Hm Hnd Hin Hf Hn Hadd. unfold add_change.
  destruct (malloc_ok _ Hm) as (g & m1 & -> & Hm1).
  destruct (add_members_ok members m1 Hm1) as (ms & m2 & -> & Hm2 & _).
  set (seq := next_seq _). cbn [l_set_seq l_fs_registered l_node_history].
  pose proof (removed_awaits c v (l_fs_registered (s_ls s)) seq (wd_time (s_wd s)) k reason
    lefts n Hen Hadd Hf Hnd Hin m2 _ Hm2 Hn) as H1.
  destruct (add_removed _ _ _ _ _ _ _) as [[[[rm|] m3] ns3] ks]; [|exact H1].
  pose proof (evolves_joined v (wd_time (s_wd s)) (our_nodeid (cfg_plock c)) seq joined m3
    ns3 ms false) as H2.
  destruct (add_joined _ _ _ _ _ _ _) as [[[[ms4 w4]|] m4] ns4];
    [|by eapply awaits_evolves].
  assert (H3 : evolves v (wd_time (s_wd s)) ns4
    (fst (if w4 then history_init_all ns4 m4 seq ms4 else (ns4, m4)))).
  { destruct w4; [apply evolves_init_all|apply hist_evolves_refl]. }
  destruct (if w4 then _ else _) as [ns5 m5].
  eapply awaits_evolves; [exact H1|]. eapply hist_evolves_trans; [exact H2|exact H3].
Qed.

(** A run leaves the node waiting unless the fence daemon reports it on the way. *)
Lemma run_awaits c ft k ins : forall s s' n,
  Forall (fun j => forall k, is_Some (v_fence_node_time (in_env j) k)) ins ->
  Forall (fun j => ft <= in_time j) ins ->
  get_node_history (l_node_history (s_ls s)) k = Some n -> unfenced ft n ->
  mrun c s ins = Some s' ->
  (exists j, j ∈ ins /\ fenced (in_env j) ft k) \/
  exists n', get_node_history (l_node_history (s_ls s')) k = Some n' /\ unfenced ft n'.
Proof.
  induction ins as [|i ins IH]; intros s s' n Ha Ht Hn Hu; simpl.
  - intros [= <-]. right. by exists n.
  - apply Forall_cons in Ha as [Ha1 Ha]. apply Forall_cons in Ht as [Ht1 Ht].
    destruct (mstep c s i) as [s1|] eqn:E; [|done]. intros Hrun.
    destruct (awaits_evolves (in_env i) ft k _ _ (or_intror (ex_intro _ n (conj Hn Hu)))
      (mstep_evolves c ft s i s1 Ha1 Ht1 E)) as [Hf|(n1 & Hn1 & Hu1)].
    + left. exists i. split; [by left|done].
    + destruct (IH s1 s' n1 Ha Ht Hn1 Hu1 Hrun) as [(j & Hj & Hf)|H]; [|by right].
      left. exists j. split; [by right|done].
Qed.

Lemma mrun_inv c ins : forall s s', Forall input_ok ins -> inv c (view_of s) ->
  mrun c s ins = Some s' ->
  inv c (view_of s') /\
  current (view_of s') =
    foldl (fun acc i => match in_ev i with EvConfchg members _ _ => Some members | _ => acc end)
      (current (view_of s)) ins.
Proof.
  induction ins as [|i ins IH]; intros s s' Hok Hi; simpl; [by intros [= <-]|].
  apply Forall_cons in Hok as [Hok1 Hok]. destruct (mstep c s i) as [s1|] eqn:E; [|done].
  destruct (mstep_inv c s i s1 Hi Hok1 E) as [H1 H2]. intros Hrun.
  destruct (IH s1 s' Hok H1 Hrun) as [H3 H4]. split; [done|]. by rewrite H4, H2.
Qed.

Lemma init_inv c fs gid : inv c (view_of (init fs gid)).
Proof. split; simpl; try done. constructor. Qed.

(** The members of the last configuration of a run. *)
Definition last_members (ins : list input) : option (list Z) :=
  foldl (fun acc i => match in_ev i with EvConfchg members _ _ => Some members | _ => acc end)
    None ins.

(** C8: as long as memory is available while configuration changes are handled (when
    [add_change] fails, the kernel is not stopped), and the process group reports nodes that
    join among the members and nodes that leave once: whenever the kernel lockspace runs, no
    membership change is outstanding, no failed node is still to be fenced or to leave the
    cluster, and the members the kernel was given are those of the last configuration of the
    group. *)
Theorem kernel_runs_settled c fs gid ins s
  (Hok : Forall input_ok ins) (Hrun : mrun c (init fs gid) ins = Some s)
  (Hk : l_kernel_stopped (s_ls s) = false) :
  l_changes (s_ls s) = [] /\ calm (l_node_history (s_ls s)) /\
  kernel_members (s_out s) = last_members ins.
Proof.
  destruct (mrun_inv c ins _ _ Hok (init_inv c fs gid) Hrun) as [Hi Hc].
  split_and!.
  - destruct (l_changes (s_ls s)) eqn:E; [done|].
    pose proof (inv_stopped _ _ Hi) as H. simpl in H. rewrite E, Hk in H. by specialize (H ltac:(done)).
  - by apply (inv_running _ _ Hi).
  - pose proof (inv_kernel _ _ Hi Hk) as H. by rewrite Hc in H.
Qed.

(** C3: with fencing enabled, after a member that had sent its start message fails, the
    kernel lockspace does not run again before the fence daemon has reported a fencing of
    that node at or after the failure. This needs that the daemon answers every query from
    the failure on (a query that fails lets the check pass, [failed_fence_query_passes]),
    that the clock does not go back behind the failure, that memory is available while
    configuration changes are handled, and what the process group promises: a node that
    joins is a member, and no node leaves twice in a change. *)
Theorem fencing_before_restart c fs gid ins0 s i members lefts joined ins s' k reason n
  (Hrun0 : mrun c (init fs gid) ins0 = Some s)
  (Hok : Forall input_ok (ins0 ++ i :: ins))
  (Hen : cfgd_enable_fencing c = true)
  (Hev : in_ev i = EvConfchg members lefts joined)
  (Hin : (k, reason) ∈ lefts) (Hfail : left_failed reason = true)
  (Hn : get_node_history (l_node_history (s_ls s)) k = Some n)
  (Hadd : nd_add_time n <> 0)
  (Hans : Forall (fun j => forall k, is_Some (v_fence_node_time (in_env j) k)) (i :: ins))
  (Hclock : Forall (fun j => in_time i <= in_time j) ins)
  (Hrun : mrun c s (i :: ins) = Some s') (Hk : l_kernel_stopped (s_ls s') = false) :
  exists j t, j ∈ i :: ins /\ v_fence_node_time (in_env j) k = Some t /\ in_time i <= t.
Proof.
  apply Forall_app in Hok as [Hok0 Hok].
  destruct (mrun_inv c ins0 _ _ Hok0 (init_inv c fs gid) Hrun0) as [Hi0 _].
  destruct (mrun_inv c (i :: ins) _ _ Hok Hi0 Hrun) as [Hi' _].
  apply Forall_cons in Hans as [Ha1 Ha]. apply Forall_cons in Hok as [Hok1 _].
  simpl in Hrun. destruct (mstep c s i) as [s1|] eqn:E; [|done].
  assert (H1 : awaits (in_env i) (in_time i) k (l_node_history (s_ls s1))).
  { unfold mstep in E. rewrite Hev in E. unfold input_ok in Hok1. rewrite Hev in Hok1.
    destruct Hok1 as (Hm & _ & Hnd). set (s0 := s_set_wd s _) in E.
    destruct (confchg_cb _ _ _ _ _ _) as [[[] s2]|] eqn:Ec; try done. injection E as <-.
    destruct (confchg_evolves c (in_env i) (in_time i) s0 members lefts joined s2 Ha1
      (Z.le_refl (in_time i)) Ec) as [He _].
    eapply awaits_evolves; [|exact He]. by eapply (add_change_awaits c (in_env i) s0). }
  destruct H1 as [(t & Ht & Hle)|(n1 & Hn1 & Hu1)].
  - exists i, t. split; [by left|done].
  - destruct (run_awaits c (in_time i) k ins s1 s' n1 Ha Hclock Hn1 Hu1 Hrun)
      as [(j & Hj & t & Ht & Hle)|(n2 & Hn2 & Hc2 & _)].
    + exists j, t. split; [by right|done].
    + pose proof (inv_running _ _ Hi' Hk) as Hcalm. exfalso.
      assert (Hp : pending n2 = false).
      { unfold calm in Hcalm. rewrite Forall_forall in Hcalm. apply Hcalm.
        by eapply get_node_history_elem. }
      unfold pending in Hp. by rewrite Hc2 in Hp.
Qed.

(** ** Matching *)

(** A change as [add_change] makes it: its count is the number of its members, who
    are distinct. *)
Definition counted (cg : change) : Prop :=
  NoDup (format_member_ids cg) /\ cg_member_count cg = Z.of_nat (length (cg_members cg)).

(** A message matches a change only if it was sent for the same membership:
    the ids it carries are the members of the change, it comes from one of them
    and the receiver is one of them; all four counts agree. *)
Theorem match_change_sound our ns cg hd li ids
  (Hcg : counted cg) (Hids : NoDup ids)
  (Hcount : li_member_count li = Z.of_nat (length ids))
  (Hm : match_change our ns cg hd li ids = true) :
  ids ≡ₚ format_member_ids cg /\ our ∈ ids /\ s32 (hd_nodeid hd) ∈ ids /\
  li_joined_count li = cg_joined_count cg /\ li_remove_count li = cg_remove_count cg /\
  li_failed_count li = cg_failed_count cg.
Proof.
  destruct Hcg as [Hnd Hc]. unfold match_change in Hm.
  zcase_in Hm; [done|]. destruct (find_memb cg _) as [mb|] eqn:Ef; [|done].
  zcase_in Hm; [done|]. zcase_in Hm; [done|].
  destruct (get_node_history ns _); [|done]. zcase_in Hm; [done|]. zcase_in Hm; [done|].
  assert (Hsub : ids ⊆ format_member_ids cg).
  { intros x Hx. apply forallb_forall with (x := x) in Hm; [|by apply list_elem_of_In].
    apply find_memb_elem. unfold find_memb in Hm.
    destruct (find_memb_in (cg_members cg) x); [by eexists|done]. }
  assert (Hp : ids ≡ₚ format_member_ids cg).
  { apply submseteq_length_Permutation; [by apply NoDup_submseteq|].
    unfold format_member_ids. rewrite length_map. lia. }
  split_and!; [done| | |done..].
  - unfold has_id in *. match goal with H : existsb _ _ = true |- _ =>
      apply existsb_exists in H as (x & Hx & E) end.
    apply Z.eqb_eq in E as ->. by apply list_elem_of_In.
  - rewrite Hp. apply find_memb_elem. by eexists.
Qed.

(** [add_change] makes counted changes of distinct members. *)
Lemma add_change_counted c s members lefts joined :
  mem_ok (wd_mem (s_wd s)) -> Forall (fun n => n ∈ members) joined -> NoDup members ->
  exists cg s1, add_change c s members lefts joined = (inl cg, s1) /\ counted cg.
Proof.
  intros Hm Hj Hnd.
  destruct (add_change_ok c s members lefts joined Hm Hj) as (cg & s1 & E & _ & Hi & _).
  exists cg, s1. split; [done|]. split; [by rewrite Hi|].
  assert (Hl : length (cg_members cg) = length members)
    by (rewrite <- Hi; unfold format_member_ids; by rewrite length_map).
  rewrite Hl. unfold add_change in E.
  destruct (malloc (wd_mem (s_wd s))) as [[g|] m]; [|done].
  destruct (add_members m members) as [[ms|] m2]; [|done].
  destruct (add_removed _ _ _ _ _ _ _) as [[[[rm|] m3] ns3] ks]; [|done].
  destruct (add_joined _ _ _ _ _ _ _) as [[[[ms4 w4]|] m4] ns4]; [|done].
  destruct (if w4 then _ else _) as [ns5 m5]. by injection E as <- _.
Qed.

(** ** The node that writes the checkpoint *)

Definition have_plock (m : member) : bool := c_true (Z.land (mb_start_flags m) DLM_MFLG_HAVEPLOCK).

Lemma low_ckpt_fold ms : Forall (fun m => 0 < mb_nodeid m) ms -> forall low, 0 <= low ->
  let r := foldl (fun low m =>
    if negb (have_plock m) then low
    else if (low =? 0) || (mb_nodeid m <? low) then mb_nodeid m else low) low ms in
  0 <= r /\
  (r = low \/ exists m, m ∈ ms /\ have_plock m = true /\ mb_nodeid m = r) /\
  (low <> 0 -> 0 < r <= low) /\
  (forall m, m ∈ ms -> have_plock m = true -> 0 < r <= mb_nodeid m).
Proof.
  induction 1 as [|m ms Hm Hms IH]; intros low Hl; cbn [foldl].
  - split_and!; [done|by left|lia|]. intros m Hm. by apply elem_of_nil in Hm.
  - set (low1 := if negb (have_plock m) then low else _).
    assert (H1 : 0 <= low1 /\ (low <> 0 -> 0 < low1 <= low) /\
      (have_plock m = true -> 0 < low1 <= mb_nodeid m) /\
      (low1 = low \/ have_plock m = true /\ low1 = mb_nodeid m)).
    { unfold low1. destruct (have_plock m); simpl; [|split_and!; auto; lia || done].
      zcase; [split_and!; auto; lia|]. split_and!; auto; lia. }
    destruct H1 as (P1 & P2 & P3 & P4). destruct (IH low1 P1) as (Q1 & Q2 & Q3 & Q4).
    split_and!; [done| | |].
    + destruct Q2 as [Q2|(x & Hx & Hp & Hn)].
      * rewrite Q2. destruct P4 as [->|[Hp ->]]; [by left|right; exists m].
        split_and!; [by left|done..].
      * right. exists x. split_and!; [by right|done..].
    + intros H. specialize (P2 H). assert (low1 <> 0) by lia. specialize (Q3 H0). lia.
    + intros x Hx Hp. apply elem_of_cons in Hx as [->|Hx]; [|by apply Q4].
      specialize (P3 Hp). assert (low1 <> 0) by lia. specialize (Q3 H). lia.
Qed.

(** The node that writes the checkpoint is the lowest member that said it has
    plock state in its start message, and 0 exactly when there is none. *)
Theorem low_ckpt_node_lowest cg
  (Hpos : Forall (fun m => 0 < mb_nodeid m) (cg_members cg)) :
  (low_ckpt_node cg = 0 /\ Forall (fun m => have_plock m = false) (cg_members cg)) \/
  exists m, m ∈ cg_members cg /\ have_plock m = true /\ mb_nodeid m = low_ckpt_node cg /\
    forall x, x ∈ cg_members cg -> have_plock x = true -> low_ckpt_node cg <= mb_nodeid x.
Proof.
  destruct (low_ckpt_fold (cg_members cg) Hpos 0 ltac:(lia)) as (H1 & H2 & _ & H4).
  change (foldl _ 0 (cg_members cg)) with (low_ckpt_node cg) in *.
  destruct H2 as [H2|(m & Hm & Hp & Hn)].
  - left. split; [done|]. apply Forall_forall. intros x Hx.
    destruct (have_plock x) eqn:E; [|done]. specialize (H4 x Hx E). lia.
  - right. exists m. split_and!; try done. intros x Hx Hpx. specialize (H4 x Hx Hpx). lia.
Qed.

(** ** Conditions that are passed too early *)

(** When the query for a failed node fails, [check_fencing_done] compares the
    time the previous node of the history was fenced: both are taken for fenced
    although nothing is known of the second. *)
Theorem failed_fence_query_passes c v n1 n2 t
  (Hen : cfgd_enable_fencing c = true)
  (Hc1 : nd_check_fencing n1 = true) (Hc2 : nd_check_fencing n2 = true)
  (Hq1 : v_fence_node_time v (nd_nodeid n1) = Some t)
  (Hq2 : v_fence_node_time v (nd_nodeid n2) = None)
  (Ht1 : nd_fail_time n1 <= t) (Ht2 : nd_fail_time n2 <= t)
  (Hp : v_fence_in_progress v = Some 0) :
  let '(done, ns) := check_fencing_done c v [n1; n2] in
  done = true /\ Forall (fun n => nd_check_fencing n = false) ns.
Proof.
  unfold check_fencing_done. rewrite Hen. cbn [negb check_fencing_loop].
  unfold check_fencing_node. rewrite Hc1, Hc2, Hq1, Hq2. cbn [negb from_option id].
  rewrite Z.geb_leb, (proj2 (Z.leb_le _ _) Ht1).
  rewrite Z.geb_leb, (proj2 (Z.leb_le _ _) Ht2).
  simpl. rewrite Hp. split; [done|repeat constructor].
Qed.

(** [fs_notified] is never cleared: once the file system daemon has
    acknowledged a failure of a node, every later failure of it passes
    [check_fs_done] without a new acknowledgement. *)
Theorem fs_notified_not_cleared c ns k n seq reason now
  (Hn : get_node_history ns k = Some n) (Hnot : nd_fs_notified n = true)
  (Hclear : Forall (fun n => nd_check_fs n = false) ns) :
  let ns1 := node_history_fail c ns true k seq reason now in
  (exists n1, get_node_history ns1 k = Some n1 /\ nd_check_fs n1 = true) /\
  fst (check_fs_done true ns1) = true.
Proof.
  cbv zeta. split.
  - exists (nd_fail c true seq reason now n). split; [|done].
    unfold node_history_fail. rewrite get_upd_same by done. by rewrite Hn.
  - unfold check_fs_done, node_history_fail. cbn [negb fst]. apply negb_true_iff.
    apply existsb_false_Forall, Forall_map. clear -Hclear Hn Hnot.
    induction Hclear as [|m ns Hm Hns IH]; simpl in *; [constructor|].
    destruct (nd_nodeid m =? k); constructor.
    + injection Hn as ->. unfold check_fs_node. simpl. by rewrite Hnot.
    + eapply Forall_impl; [exact Hns|]. intros x Hx. unfold check_fs_node. by rewrite Hx.
    + unfold check_fs_node. by rewrite Hm.
    + auto.
Qed.

(** ** A run *)

Definition ex_cfg : cfg_cpg := mkCfgCpg true false (1, 1, 1) (mkConfig 1 true false 0 0 0 0 false).

(** The other daemons, with the time node 2 was last fenced. *)
Definition ex_env (fenced_at : Z) : env :=
  mkEnv (fun _ => Some fenced_at) (Some 0) (fun _ => true) true true true (fun _ => true) 0.

Definition ex_start (from flags seq : Z) (li : ls_info) (ids : list Z) : mevent :=
  EvDeliver from (mkHd (1, 1, 1) DLM_MSG_START from 0 7 flags seq 0) (PInfo li ids) 0 None.

(** Node 1 joins node 2 at time 10, both send their start messages. *)
Definition ex_join : list input :=
  [mkIn [] 10000000 (ex_env 5) (EvConfchg [1; 2] [] [1]);
   mkIn [] 11000000 (ex_env 5) (ex_start 1 1 1 (mkLi 32 4 2 0 2 1 0 0) [1; 2]);
   mkIn [] 11000000 (ex_env 5) (ex_start 2 2 4 (mkLi 32 4 2 1 2 1 0 0) [1; 2])].

(** Node 2 fails at time 20, is fenced at time 25, and node 1 goes on alone. *)
Definition ex_fail : input :=
  mkIn [] 20000000 (ex_env 5) (EvConfchg [1] [(2, CPG_REASON_NODEDOWN)] []).
Definition ex_after : list input :=
  [mkIn [] 22000000 (ex_env 5) EvPoll;
   mkIn [] 30000000 (ex_env 25) EvPoll;
   mkIn [] 31000000 (ex_env 25) (ex_start 1 2 2 (mkLi 32 4 1 1 1 0 1 1) [1])].

Definition ex_state (ins : list input) : mstate :=
  default (init false 7) (mrun ex_cfg (init false 7) ins).

Lemma ex_inputs_ok : Forall input_ok (ex_join ++ ex_fail :: ex_after).
Proof.
  assert (H1 : 1 ∈ [1; 2]) by left.
  assert (H2 : NoDup (map fst [(2, CPG_REASON_NODEDOWN)])) by apply NoDup_singleton.
  assert (H3 : NoDup (map fst (@nil (Z * Z)))) by apply NoDup_nil_2.
  unfold ex_join, ex_fail, ex_after. repeat apply Forall_cons_2; try apply Forall_nil_2.
  all: try exact I.
  - split_and!; [apply Forall_nil_2|apply Forall_cons_2; [done|apply Forall_nil_2]|done].
  - split_and!; [apply Forall_nil_2|apply Forall_nil_2|done].
Qed.

Lemma kernel_runs_settled_witness :
  let s := ex_state (ex_join ++ ex_fail :: ex_after) in
  l_changes (s_ls s) = [] /\ calm (l_node_history (s_ls s)) /\
  kernel_members (s_out s) = Some [1].
Proof.
  apply (kernel_runs_settled ex_cfg false 7 (ex_join ++ ex_fail :: ex_after)
    (ex_state (ex_join ++ ex_fail :: ex_after)) ex_inputs_ok).
  - vm_compute. reflexivity.
  - vm_compute. reflexivity.
Defined.

Lemma fencing_before_restart_witness :
  l_kernel_stopped (s_ls (ex_state (ex_join ++ [ex_fail]))) = true /\
  exists j t, j ∈ ex_fail :: ex_after /\ v_fence_node_time (in_env j) 2 = Some t /\ 20 <= t.
Proof.
  split; [vm_compute; reflexivity|].
  apply (fencing_before_restart ex_cfg false 7 ex_join (ex_state ex_join) ex_fail [1]
    [(2, CPG_REASON_NODEDOWN)] [] ex_after (ex_state (ex_join ++ ex_fail :: ex_after)) 2
    CPG_REASON_NODEDOWN (default (node_zero 2)
      (get_node_history (l_node_history (s_ls (ex_state ex_join))) 2))).
  - vm_compute. reflexivity.
  - exact ex_inputs_ok.
  - reflexivity.
  - reflexivity.
  - left.
  - reflexivity.
  - vm_compute. reflexivity.
  - vm_compute. discriminate.
  - repeat (apply Forall_cons_2; [intros ?; eexists; reflexivity|]). apply Forall_nil_2.
  - repeat (apply Forall_cons_2; [vm_compute; discriminate|]). apply Forall_nil_2.
  - vm_compute. reflexivity.
  - vm_compute. reflexivity.
Defined.

(** ** Progress *)

(** The other daemons have done their part for every failed node. *)
Definition ready (c : cfg_cpg) (v : env) (l : mls) : Prop :=
  v_fence_in_progress v = Some 0 /\ v_cluster_quorate v = true /\
  Forall (fun n =>
    (nd_check_fencing n = true ->
       exists t, v_fence_node_time v (nd_nodeid n) = Some t /\ nd_fail_time n <= t) /\
    (nd_check_quorum n = true -> v_is_cluster_member v (nd_nodeid n) = false) /\
    (nd_check_fs n = true -> nd_fs_notified n = true)) (l_node_history l).

(** The part of [ready] the later conditions use survives the earlier ones. *)
Definition ready_rest (v : env) (n : node) : Prop :=
  (nd_check_quorum n = true -> v_is_cluster_member v (nd_nodeid n) = false) /\
  (nd_check_fs n = true -> nd_fs_notified n = true).

Lemma ready_fencing v ns :
  Forall (fun n => (nd_check_fencing n = true ->
    exists t, v_fence_node_time v (nd_nodeid n) = Some t /\ nd_fail_time n <= t) /\
    ready_rest v n) ns ->
  forall last, exists ns', check_fencing_loop v last ns = (ns', 0) /\ Forall (ready_rest v) ns'.
Proof.
  induction 1 as [|n ns [H1 H2] Hns IH]; intros last; [exists []; by split|].
  cbn [check_fencing_loop]. unfold check_fencing_node.
  destruct (nd_check_fencing n) eqn:E; cbn [negb].
  - destruct (H1 eq_refl) as (t & -> & Ht). cbn [from_option id].
    rewrite Z.geb_leb, (proj2 (Z.leb_le _ _) Ht).
    destruct (IH t) as (ns' & -> & Hr). eexists. split; [reflexivity|].
    constructor; done.
  - destruct (IH last) as (ns' & -> & Hr). eexists. split; [reflexivity|].
    constructor; done.
Qed.

Lemma conditions_ready c v l : ready c v l -> fst (wait_conditions_done c v l) = true.
Proof.
  intros (Hp & Hq & Hr). unfold wait_conditions_done.
  assert (H1 : exists ns, check_fencing_done c v (l_node_history l) = (true, ns) /\
    Forall (ready_rest v) ns).
  { unfold check_fencing_done. zcase.
    - eexists. split; [done|]. eapply Forall_impl; [exact Hr|]. unfold ready_rest. simpl.
      intuition.
    - destruct (ready_fencing v _ Hr (v_garbage v)) as (ns & -> & Hn).
      simpl. rewrite Hp. by eexists. }
  destruct H1 as (ns1 & -> & H1). cbn [negb].
  assert (H2 : exists ns, check_quorum_done c v ns1 = (true, ns) /\ Forall (ready_rest v) ns).
  { unfold check_quorum_done. zcase; [by eexists|].
    replace (existsb nd_check_quorum (map (check_quorum_node v) ns1)) with false.
    - rewrite Hq. eexists. split; [done|]. apply Forall_map.
      eapply Forall_impl; [exact H1|]. intros n [Ha Hb]. unfold check_quorum_node.
      by zcase.
    - symmetry. apply existsb_false_Forall, Forall_map.
      eapply Forall_impl; [exact H1|]. intros n [Ha _]. unfold check_quorum_node.
      destruct (nd_check_quorum n) eqn:E; simpl; [|done]. by rewrite Ha. }
  destruct H2 as (ns2 & -> & H2). cbn [negb]. unfold check_fs_done. zcase; [done|].
  simpl. apply negb_true_iff, existsb_false_Forall, Forall_map.
  eapply Forall_impl; [exact H2|]. intros n [_ Hb]. unfold check_fs_node.
  destruct (nd_check_fs n) eqn:E; simpl; [|done]. by rewrite Hb.
Qed.

Lemma store_loop_fits c cr rs : Forall res_fits rs -> forall secs f l,
  store_loop c cr rs secs f l <> StoreOverflow.
Proof.
  induction 1 as [|r rs Hr Hrs IH]; intros secs f l; cbn [store_loop]; [done|].
  destruct (store_owner c r) as [o|]; [|apply IH].
  rewrite (pack_section_fits c r o Hr). zcase; [apply IH|done].
Qed.

Lemma prepare_plocks_fits c v s cg :
  Forall res_fits (ls_plock_resources (l_plock (s_ls s))) ->
  is_Some (prepare_plocks c v s cg).
Proof.
  intros Hf. unfold prepare_plocks. repeat (zcase; [by eexists|]). zcase; [|by eexists].
  destruct (store_plocks _ _ _ _ _ _ _) as [[[p secs] sig]|] eqn:E; [by eexists|].
  exfalso. unfold store_plocks in E. zcase_in E; [done|]. zcase_in E; [done|].
  destruct (store_counts _) as [rc pc]. zcase_in E; [done|].
  pose proof (store_loop_fits (cfg_plock c) (v_create_ok v) _ Hf
    (if v_unlink_ok v then [] else s_ckpt s) 0 0) as Hso.
  by destruct (store_loop _ _ _ _ _ _).
Qed.

(** C36: when the other daemons have done their part the latest change goes on to
    wait for messages; and when every member has sent its start message the kernel
    lockspace is started with the members of that change, which becomes the
    started one. *)
Theorem change_progress c v s cg older
  (Hcg : l_changes (s_ls s) = cg :: older) (Hk : l_kernel_stopped (s_ls s) = true)
  (Hf : Forall res_fits (ls_plock_resources (l_plock (s_ls s)))) :
  (cg_st cg = CGST_WAIT_CONDITIONS -> ready c v (s_ls s) ->
   exists s1, apply_changes c v s = Some s1 /\
     l_changes (s_ls s1) = cg_set_state cg CGST_WAIT_MESSAGES :: older) /\
  (cg_st cg = CGST_WAIT_MESSAGES -> Forall (fun m => mb_start m = true) (cg_members cg) ->
   exists s1, apply_changes c v s = Some s1 /\ l_kernel_stopped (s_ls s1) = false /\
     l_changes (s_ls s1) = [] /\ kernel_members (s_out s1) = Some (format_member_ids cg) /\
     option_map format_member_ids (l_started_change (s_ls s1)) =
       Some (format_member_ids cg)).
Proof.
  unfold apply_changes. rewrite Hcg. split; intros Hst H; rewrite Hst.
  - apply conditions_ready in H. destruct (wait_conditions_done c v (s_ls s)) as [b l].
    cbn [fst] in H. subst b. by eexists.
  - unfold wait_messages_done. replace (forallb mb_start (cg_members cg)) with true
      by (symmetry; apply forallb_forall; rewrite Forall_forall in H; intros m Hm;
          by apply H, list_elem_of_In).
    destruct (prepare_plocks_fits c v (start_kernel s cg older) cg) as [s2 E].
    { unfold start_kernel. by rewrite Hk. }
    rewrite E. eexists. split; [reflexivity|].
    apply view_prepare_plocks in E. unfold start_kernel in E. rewrite Hk in E. cbn [negb] in E.
    unfold view_of in E. injection E as E1 _ _ _ E5.
    cbn [s_set_ls s_ls s_out cleanup_changes l_kernel_stopped l_changes l_started_change].
    split_and!; [by rewrite E1|done| |done].
    rewrite E5. cbn [s_emit s_out]. unfold kernel_members. rewrite foldl_app.
    by destruct (l_joining (s_ls s)).
Qed.

(** ** Examples *)

Definition ex_memb (k flags : Z) : member := mkMemb k true false false false flags.
Definition ex_cg (st : cg_state) : change :=
  mkCg [ex_memb 1 0; ex_memb 3 2; ex_memb 2 2] [] 3 1 0 0 st false 4 0 10.
Definition ex_node (k : Z) (notified : bool) (fail : Z) : node :=
  mkNode k true false false notified 5 fail 0 3 0 0 1 2 3.

Ltac nodup_concrete := apply (bool_decide_unpack _); vm_compute; exact I.

Lemma match_change_sound_witness :
  [3; 2; 1] ≡ₚ format_member_ids (ex_cg CGST_WAIT_CONDITIONS) /\ 1 ∈ [3; 2; 1] /\
  s32 2 ∈ [3; 2; 1] /\ 1 = 1 /\ 0 = 0 /\ 0 = 0.
Proof.
  apply (match_change_sound 1 [ex_node 2 false 0] (ex_cg CGST_WAIT_CONDITIONS)
    (mkHd (1, 1, 1) DLM_MSG_PLOCKS_STORED 2 0 7 0 4 0) (mkLi 32 4 3 1 3 1 0 0) [3; 2; 1]).
  - split; [nodup_concrete|reflexivity].
  - nodup_concrete.
  - reflexivity.
  - reflexivity.
Defined.

Lemma low_ckpt_node_lowest_witness :
  low_ckpt_node (ex_cg CGST_WAIT_MESSAGES) = 2 /\
  ((low_ckpt_node (ex_cg CGST_WAIT_MESSAGES) = 0 /\
  Forall (fun m => have_plock m = false) (cg_members (ex_cg CGST_WAIT_MESSAGES))) \/
   exists m, m ∈ cg_members (ex_cg CGST_WAIT_MESSAGES) /\ have_plock m = true /\
  mb_nodeid m = low_ckpt_node (ex_cg CGST_WAIT_MESSAGES) /\
  forall x, x ∈ cg_members (ex_cg CGST_WAIT_MESSAGES) -> have_plock x = true ->
       low_ckpt_node (ex_cg CGST_WAIT_MESSAGES) <= mb_nodeid x).
Proof.
  split; [reflexivity|]. apply (low_ckpt_node_lowest (ex_cg CGST_WAIT_MESSAGES)).
  repeat (apply Forall_cons_2; [reflexivity|]). apply Forall_nil_2.
Defined.

(** Node 2 was fenced at time 25, the query for node 3 fails. *)
Definition ex_bad_env : env :=
  mkEnv (fun k => if k =? 2 then Some 25 else None) (Some 0) (fun _ => true) true true true
    (fun _ => true) 0.

Lemma failed_fence_query_passes_witness :
  let '(done, ns) :=
    check_fencing_done ex_cfg ex_bad_env [ex_node 2 false 20; ex_node 3 false 20] in
  done = true /\ Forall (fun n => nd_check_fencing n = false) ns.
Proof.
  apply (failed_fence_query_passes ex_cfg ex_bad_env (ex_node 2 false 20) (ex_node 3 false 20)
    25); first [reflexivity | vm_compute; discriminate].
Defined.

Lemma fs_notified_not_cleared_witness :
  let ns1 := node_history_fail ex_cfg [ex_node 2 true 20] true 2 5 CPG_REASON_NODEDOWN 60 in
  (exists n1, get_node_history ns1 2 = Some n1 /\ nd_check_fs n1 = true) /\
  fst (check_fs_done true ns1) = true.
Proof.
  apply (fs_notified_not_cleared ex_cfg [ex_node 2 true 20] 2 (ex_node 2 true 20) 5
    CPG_REASON_NODEDOWN 60).
  - reflexivity.
  - reflexivity.
  - repeat (apply Forall_cons_2; [reflexivity|]). apply Forall_nil_2.
Defined.

(** A state whose latest change is [ex_cg]. *)
Definition ex_pending (st : cg_state) (kstate : mstate) : mstate :=
  s_set_ls kstate (l_set_changes (s_ls kstate) [ex_cg st]).

Lemma change_progress_witness :
  exists s1,
    apply_changes ex_cfg (ex_env 5) (ex_pending CGST_WAIT_MESSAGES (init false 7)) = Some s1 /\
    l_kernel_stopped (s_ls s1) = false /\ l_changes (s_ls s1) = [] /\
    kernel_members (s_out s1) = Some [1; 3; 2] /\
    option_map format_member_ids (l_started_change (s_ls s1)) = Some [1; 3; 2].
Proof.
  apply (change_progress ex_cfg (ex_env 5) (ex_pending CGST_WAIT_MESSAGES (init false 7))
    (ex_cg CGST_WAIT_MESSAGES) []).
  - reflexivity.
  - reflexivity.
  - apply Forall_nil_2.
  - reflexivity.
  - repeat (apply Forall_cons_2; [reflexivity|]). apply Forall_nil_2.
Defined.
