(* ===== verification/Fenced.v ===== *)
(** * The fence domain

    [src/fence/fenced/cpg.c] and [recover.c], and the view of the cluster in
    [member_cman.c]: fenced keeps the nodes that failed as members of the fence
    domain as victims.  Every configuration change is agreed on by start messages;
    then the lowest member that has complete information becomes the master and
    fences the victims, one after the other, until each is fenced, has come
    back clean, was fenced by somebody else or is given up by the
    administrator.  It tells the others of every victim it has dealt with, and at
    the end that all is complete.

    The domain runs in the libcpg mode and is the only one.  The calls that wait
    for the world during fencing (cman, the daemon group, agents, the
    administrator) take their answers from a tape; a run that needs more answers
    than the tape has is still waiting and gives [None].  Messages, agent runs
    and kills are effects, in order.  Allocations succeed; logging and names
    are left out. *)

From S2P Require Import Prelude.
Open Scope Z_scope.

(** ** Data *)

Definition FD_MFLG_JOINING : Z := 1.
Definition FD_MFLG_COMPLETE : Z := 2.
Definition IDI_NODEID_IS_MEMBER : Z := 1.
Definition VIC_DONE_AGENT : Z := 1.
Definition VIC_DONE_MEMBER : Z := 2.
Definition VIC_DONE_OVERRIDE : Z := 3.
Definition VIC_DONE_EXTERNAL : Z := 4.
Definition PV_STATEFUL : Z := 1.
Definition CPG_REASON_LEAVE : Z := 2.
Definition CPG_REASON_NODEDOWN : Z := 3.
Definition CPG_REASON_PROCDOWN : Z := 5.

Record member := mkMemb {
  mb_nodeid : Z;
  mb_start : bool;
  mb_added : bool;
  mb_failed : bool;
  mb_disallowed : bool;
  mb_start_flags : Z
}.

Inductive cg_state := CGST_WAIT_CONDITIONS | CGST_WAIT_MESSAGES | CGST_WAIT_FENCING.

Record change := mkCg {
  cg_members : list member;
  cg_removed : list member;
  cg_member_count : Z;
  cg_joined_count : Z;
  cg_remove_count : Z;
  cg_failed_count : Z;
  cg_st : cg_state;
  cg_we_joined : bool;
  cg_seq : Z;
  cg_create_time : Z
}.

Record node_history := mkNh {
  nh_nodeid : Z;
  nh_check_quorum : bool;
  nh_add_time : Z;
  nh_left_time : Z;
  nh_fail_time : Z;
  nh_fence_time : Z;
  nh_fence_time_local : Z;
  nh_fence_external_time : Z;
  nh_cluster_add_time : Z;
  nh_cluster_remove_time : Z;
  nh_fence_external_node : Z;
  nh_fence_master : Z;
  nh_fence_how : Z
}.

(** [struct node]: a victim, or a node of the configuration. *)
Record node := mkNode {
  vn_nodeid : Z;
  vn_init : bool;
  vn_done : bool
}.

Record fd := mkFd {
  fd_change_seq : Z;
  fd_started_count : Z;
  fd_started_change : option change;
  fd_changes : list change;
  fd_history : list node_history;
  fd_init_complete : bool;
  fd_local_init_complete : bool;
  fd_master : Z;
  fd_joining_group : bool;
  fd_leaving_group : bool;
  fd_current_victim : Z;
  fd_victims : list node;
  fd_complete : list node
}.

(** Versions are major, minor, patch and flags. *)
Record protocol := mkProto {
  p_max : Z * Z * Z * Z;
  p_run : Z * Z * Z * Z
}.

Definition zero_proto : protocol := mkProto (0, 0, 0, 0) (0, 0, 0, 0).

Record node_daemon := mkNd {
  dn_nodeid : Z;
  dn_is_member : bool;
  dn_killed : bool;
  dn_join_time : Z;
  dn_left_time : Z;
  dn_proto : protocol
}.

(** The payloads of messages, in host order. *)
Record fd_info := mkFi {
  fi_started_count : Z;
  fi_member_count : Z;
  fi_joined_count : Z;
  fi_remove_count : Z;
  fi_failed_count : Z
}.

Record id_info := mkId {
  id_nodeid : Z;
  id_flags : Z;
  id_fence_external_node : Z;
  id_fence_master : Z;
  id_fence_how : Z;
  id_fence_time : Z;
  id_fence_external_time : Z
}.

Inductive effect :=
  | SendStart (flags seq : Z) (fi : fd_info) (ids : list id_info)
  | SendComplete (flags seq : Z) (fi : fd_info) (ids : list id_info)
  | SendVictimDone (flags seq : Z) (id : id_info)
  | SendExternal (victim : Z)
  | SendProtocol (p : protocol)
  | FenceNode (nodeid : Z) (ok : bool)
  | KickNode (nodeid : Z).

(** Configuration changes and messages of the daemon group. *)
Inductive daemon_event :=
  | DConfchg (members joined : list Z)
  | DProtocol (nodeid : Z) (p : protocol).

(** The answers of the tape, with the time at which they are given: a query of
    cman ([None] when the list of nodes is not available), the pending
    callbacks of the daemon group, the agents of a node, the administrator. *)
Inductive answer :=
  | A_nodes (now : Z) (quorate : bool) (nodes : option (list (Z * bool)))
  | A_daemon (evs : list daemon_event)
  | A_agent (ok : bool)
  | A_override (ok : bool).

Record config := mkCfg {
  our_nodeid : Z;
  cfgd_post_join_delay : Z;
  cfgd_post_fail_delay : Z;
  cfgd_override_path : bool
}.

(** The state of the daemon: the domain, the daemon group, the view of
    cman, the time, and the effects so far. *)
Record fstate := mkFs {
  f_fd : fd;
  f_daemon_nodes : list node_daemon;
  f_daemon_member : list Z;
  f_protocol : protocol;
  f_quorate : bool;
  f_quorate_time : Z;
  f_cman_nodes : list (Z * bool);
  f_now : Z;
  f_out : list effect
}.

(** ** A state monad with a tape of answers *)

Definition M (A : Type) : Type := fstate -> list answer -> option (A * fstate * list answer).

#[export] Instance M_ret : MRet M := fun A a s t => Some (a, s, t).
#[export] Instance M_bind : MBind M := fun A B f m s t =>
  match m s t with
  | Some (a, s', t') => f a s' t'
  | None => None
  end.
Definition gets {A} (f : fstate -> A) : M A := fun s t => Some (f s, s, t).
Definition modify (f : fstate -> fstate) : M unit := fun s t => Some (tt, f s, t).

(** The next answer; [None] when the daemon still waits for it. *)
Definition next_answer : M answer :=
  fun s t => match t with [] => None | a :: t' => Some (a, s, t') end.
Definition wrong_answer {A} : M A := fun _ _ => None.
Definition tape_length : M nat := fun s t => Some (length t, s, t).

(** Iterating an operation over a list. *)
Fixpoint for_each {A} (f : A -> M unit) (l : list A) : M unit :=
  match l with
  | [] => mret tt
  | x :: l' => f x ;; for_each f l'
  end.

(** ** Updates of the state *)

Definition f_set_fd (s : fstate) (d : fd) : fstate :=
  mkFs d (f_daemon_nodes s) (f_daemon_member s) (f_protocol s) (f_quorate s)
    (f_quorate_time s) (f_cman_nodes s) (f_now s) (f_out s).
Definition f_set_daemon (s : fstate) (ns : list node_daemon) (ms : list Z) : fstate :=
  mkFs (f_fd s) ns ms (f_protocol s) (f_quorate s) (f_quorate_time s) (f_cman_nodes s)
    (f_now s) (f_out s).
Definition f_set_protocol (s : fstate) (p : protocol) : fstate :=
  mkFs (f_fd s) (f_daemon_nodes s) (f_daemon_member s) p (f_quorate s) (f_quorate_time s)
    (f_cman_nodes s) (f_now s) (f_out s).
Definition f_set_cman (s : fstate) (now : Z) (q : bool) (qt : Z) (ns : list (Z * bool)) : fstate :=
  mkFs (f_fd s) (f_daemon_nodes s) (f_daemon_member s) (f_protocol s) q qt ns now (f_out s).
Definition f_emit (s : fstate) (e : effect) : fstate :=
  mkFs (f_fd s) (f_daemon_nodes s) (f_daemon_member s) (f_protocol s) (f_quorate s)
    (f_quorate_time s) (f_cman_nodes s) (f_now s) (f_out s ++ [e]).

Definition fd_set_changes (d : fd) (l : list change) : fd :=
  mkFd (fd_change_seq d) (fd_started_count d) (fd_started_change d) l (fd_history d)
    (fd_init_complete d) (fd_local_init_complete d) (fd_master d) (fd_joining_group d)
    (fd_leaving_group d) (fd_current_victim d) (fd_victims d) (fd_complete d).
Definition fd_set_history (d : fd) (l : list node_history) : fd :=
  mkFd (fd_change_seq d) (fd_started_count d) (fd_started_change d) (fd_changes d) l
    (fd_init_complete d) (fd_local_init_complete d) (fd_master d) (fd_joining_group d)
    (fd_leaving_group d) (fd_current_victim d) (fd_victims d) (fd_complete d).
Definition fd_set_victims (d : fd) (l : list node) : fd :=
  mkFd (fd_change_seq d) (fd_started_count d) (fd_started_change d) (fd_changes d)
    (fd_history d) (fd_init_complete d) (fd_local_init_complete d) (fd_master d)
    (fd_joining_group d) (fd_leaving_group d) (fd_current_victim d) l (fd_complete d).
Definition fd_set_current (d : fd) (k : Z) : fd :=
  mkFd (fd_change_seq d) (fd_started_count d) (fd_started_change d) (fd_changes d)
    (fd_history d) (fd_init_complete d) (fd_local_init_complete d) (fd_master d)
    (fd_joining_group d) (fd_leaving_group d) k (fd_victims d) (fd_complete d).
Definition fd_set_master (d : fd) (k : Z) : fd :=
  mkFd (fd_change_seq d) (fd_started_count d) (fd_started_change d) (fd_changes d)
    (fd_history d) (fd_init_complete d) (fd_local_init_complete d) k
    (fd_joining_group d) (fd_leaving_group d) (fd_current_victim d) (fd_victims d)
    (fd_complete d).
Definition fd_set_init_complete (d : fd) (init loc : bool) : fd :=
  mkFd (fd_change_seq d) (fd_started_count d) (fd_started_change d) (fd_changes d)
    (fd_history d) init loc (fd_master d) (fd_joining_group d) (fd_leaving_group d)
    (fd_current_victim d) (fd_victims d) (fd_complete d).

Definition upd_fd (f : fd -> fd) : M unit := modify (fun s => f_set_fd s (f (f_fd s))).
Definition emit (e : effect) : M unit := modify (fun s => f_emit s e).

Definition nh_set_check (v : bool) (n : node_history) : node_history :=
  let '(mkNh a _ b c d e f g h i j k l) := n in mkNh a v b c d e f g h i j k l.
Definition nh_set_add (t : Z) (n : node_history) : node_history :=
  let '(mkNh a q _ c d e f g h i j k l) := n in mkNh a q t c d e f g h i j k l.
Definition nh_set_left (t : Z) (n : node_history) : node_history :=
  let '(mkNh a q b _ d e f g h i j k l) := n in mkNh a q b t d e f g h i j k l.
Definition nh_set_fail (t : Z) (n : node_history) : node_history :=
  let '(mkNh a _ b c _ e f g h i j k l) := n in mkNh a true b c t e f g h i j k l.
Definition nh_set_fence (master how t : Z) (n : node_history) : node_history :=
  let '(mkNh a q b c d _ f g h i j _ _) := n in mkNh a q b c d t f g h i j master how.
Definition nh_set_fence_local (t : Z) (n : node_history) : node_history :=
  let '(mkNh a q b c d e _ g h i j k l) := n in mkNh a q b c d e t g h i j k l.
Definition nh_set_external (from t : Z) (n : node_history) : node_history :=
  let '(mkNh a q b c d e f _ h i _ k l) := n in mkNh a q b c d e f t h i from k l.
Definition nh_set_cluster_add (t : Z) (n : node_history) : node_history :=
  let '(mkNh a q b c d e f g _ i j k l) := n in mkNh a q b c d e f g t i j k l.
Definition nh_set_cluster_remove (t : Z) (n : node_history) : node_history :=
  let '(mkNh a q b c d e f g h _ j k l) := n in mkNh a q b c d e f g h t j k l.

(** ** Node history *)

Definition get_node_history (l : list node_history) (nodeid : Z) : option node_history :=
  List.find (fun n => nh_nodeid n =? nodeid) l.

(** Change the first entry of a node. *)
Fixpoint upd_history (nodeid : Z) (f : node_history -> node_history) (l : list node_history)
    : list node_history :=
  match l with
  | [] => []
  | n :: l' => if nh_nodeid n =? nodeid then f n :: l' else n :: upd_history nodeid f l'
  end.

Definition node_history_init (nodeid : Z) (l : list node_history) : list node_history :=
  match get_node_history l nodeid with
  | Some _ => l
  | None => l ++ [mkNh nodeid false 0 0 0 0 0 0 0 0 0 0 0]
  end.

Definition node_history_cluster_add (now nodeid : Z) (l : list node_history) :=
  upd_history nodeid (nh_set_cluster_add now) (node_history_init nodeid l).
Definition node_history_cluster_remove (now nodeid : Z) := upd_history nodeid (nh_set_cluster_remove now).
Definition node_history_start (now nodeid : Z) := upd_history nodeid (nh_set_add now).
Definition node_history_left (now nodeid : Z) := upd_history nodeid (nh_set_left now).
Definition node_history_fail (now nodeid : Z) := upd_history nodeid (nh_set_fail now).
Definition node_history_fence (victim master how mastertime : Z) :=
  upd_history victim (nh_set_fence master how mastertime).
Definition node_history_fence_external (now nodeid from : Z) :=
  upd_history nodeid (nh_set_external from now).

(** [save_history] for one entry: only what is not known yet is taken over. *)
Definition save_entry (l : list node_history) (i : id_info) : list node_history :=
  upd_history (id_nodeid i) (fun n =>
    let n1 := if (nh_fence_time n =? 0) && c_true (id_fence_time i)
              then nh_set_fence (id_fence_master i) (id_fence_how i) (id_fence_time i) n
              else n in
    if (nh_fence_external_time n1 =? 0) && c_true (id_fence_external_time i)
    then nh_set_external (id_fence_external_node i) (id_fence_external_time i) n1
    else n1) (node_history_init (id_nodeid i) l).

Definition save_history (ids : list id_info) (l : list node_history) : list node_history :=
  foldl save_entry l ids.

Definition is_fenced_external (l : list node_history) (nodeid : Z) : bool :=
  match get_node_history l nodeid with
  | None => false
  | Some n => nh_fence_external_time n >? nh_add_time n
  end.

(** ** The view of cman *)

Definition is_member (l : list (Z * bool)) (nodeid : Z) : bool :=
  match List.find (fun p => fst p =? nodeid) l with
  | Some p => snd p
  | None => false
  end.

(** The loops of [update_cluster]: nodes that were and are no more members, and
    nodes that are new members. *)
Definition cluster_removed (now : Z) (old new : list (Z * bool)) (h : list node_history) :=
  foldl (fun h p => if (snd p : bool) && negb (is_member new (fst p))
                    then node_history_cluster_remove now (fst p) h else h) h old.
Definition cluster_added (now : Z) (old new : list (Z * bool)) (h : list node_history) :=
  foldl (fun h p => if (snd p : bool) && negb (is_member old (fst p))
                    then node_history_cluster_add now (fst p) h else h) h new.

Definition update_cluster_with (now : Z) (q : bool) (nodes : option (list (Z * bool)))
    (s : fstate) : fstate :=
  let qt := if negb (f_quorate s) && q then now else f_quorate_time s in
  let old := f_cman_nodes s in
  match nodes with
  | None => f_set_cman s now q qt []
  | Some new =>
      let h := cluster_added now old new
                 (cluster_removed now old new (fd_history (f_fd s))) in
      f_set_cman (f_set_fd s (fd_set_history (f_fd s) h)) now q qt new
  end.

Definition update_cluster : M unit :=
  a ← next_answer;
  match a with
  | A_nodes now q nodes => modify (update_cluster_with now q nodes)
  | _ => wrong_answer
  end.

Definition is_cluster_member_reread (nodeid : Z) : M bool :=
  update_cluster ;; gets (fun s => is_member (f_cman_nodes s) nodeid).

(** ** The daemon group *)

Definition get_node_daemon (l : list node_daemon) (nodeid : Z) : option node_daemon :=
  List.find (fun n => dn_nodeid n =? nodeid) l.

Definition add_node_daemon (l : list node_daemon) (nodeid : Z) : list node_daemon :=
  match get_node_daemon l nodeid with
  | Some _ => l
  | None => l ++ [mkNd nodeid false false 0 0 zero_proto]
  end.

Fixpoint upd_daemon (nodeid : Z) (f : node_daemon -> node_daemon) (l : list node_daemon)
    : list node_daemon :=
  match l with
  | [] => []
  | n :: l' => if dn_nodeid n =? nodeid then f n :: l' else n :: upd_daemon nodeid f l'
  end.

Definition v_major (v : Z * Z * Z * Z) : Z := let '(a, _, _, _) := v in a.
Definition v_minor (v : Z * Z * Z * Z) : Z := let '(_, b, _, _) := v in b.
Definition v_patch (v : Z * Z * Z * Z) : Z := let '(_, _, c, _) := v in c.
Definition v_flags (v : Z * Z * Z * Z) : Z := let '(_, _, _, d) := v in d.

Definition stateful (p : protocol) : bool := c_true (Z.land (v_flags (p_run p)) PV_STATEFUL).

Definition all_protocol_messages (s : fstate) : bool :=
  match f_daemon_member s with
  | [] => false
  | ms => forallb (fun k => match get_node_daemon (f_daemon_nodes s) k with
                            | None => false
                            | Some n => c_true (v_major (p_max (dn_proto n)))
                            end) ms
  end.

(** One pass of [pick_min_protocol]: the minimum of the values given, where zero
    means none yet. *)
Definition pick_min (vs : list Z) : Z :=
  foldl (fun m v => if (m =? 0) || (v <? m) then v else m) 0 vs.

Definition pick_min_protocol (s : fstate) (p : protocol) : option protocol :=
  nds ← mapM (get_node_daemon (f_daemon_nodes s)) (f_daemon_member s);
  let vs := map (fun n => p_max (dn_proto n)) nds in
  let m0 := pick_min (map v_major vs) in
  if m0 =? 0 then None
  else
    let vs1 := List.filter (fun v => v_major v =? m0) vs in
    let m1 := pick_min (map v_minor vs1) in
    if m1 =? 0 then None
    else
      let vs2 := List.filter (fun v => v_minor v =? m1) vs1 in
      let m2 := pick_min (map v_patch vs2) in
      if m2 =? 0 then None
      else Some (mkProto (p_max p) (m0, m1, m2, 0)).

Definition receive_protocol (c : config) (nodeid : Z) (p : protocol) (s : fstate) : fstate :=
  let '(m0, m1, m2, _) := p_max p in
  let '(r0, r1, r2, _) := p_run p in
  if (m0 =? 0) || (m1 =? 0) || (m2 =? 0) then s
  else if c_true r0 && ((r1 =? 0) || (r2 =? 0)) then s
  else match get_node_daemon (f_daemon_nodes s) nodeid with
  | None => s
  | Some n =>
      if negb (dn_is_member n) then s
      else if negb (nodeid =? our_nodeid c) && (v_major (p_max (dn_proto n)) =? 0) &&
              stateful p && stateful (f_protocol s) then
        if f_quorate s && c_true (dn_left_time n) && (f_quorate_time s <? dn_left_time n) then
          let s1 := if dn_killed n then s else f_emit s (KickNode nodeid) in
          f_set_daemon s1 (upd_daemon nodeid (fun n =>
            mkNd (dn_nodeid n) (dn_is_member n) true (dn_join_time n) (dn_left_time n)
              (dn_proto n)) (f_daemon_nodes s1)) (f_daemon_member s1)
        else s
      else
        let s1 := f_set_daemon s (upd_daemon nodeid (fun n =>
          mkNd (dn_nodeid n) (dn_is_member n) (dn_killed n) (dn_join_time n) (dn_left_time n) p)
          (f_daemon_nodes s)) (f_daemon_member s) in
        if c_true (v_major (p_run (f_protocol s1))) then s1
        else if c_true r0 then
          f_set_protocol s1 (mkProto (p_max (f_protocol s1)) (r0, r1, r2, v_flags (p_run (f_protocol s1))))
        else s1
  end.

Definition daemon_member_change (now : Z) (members : list Z) (n : node_daemon) : node_daemon :=
  if existsb (Z.eqb (dn_nodeid n)) members then
    if dn_is_member n then n
    else mkNd (dn_nodeid n) true (dn_killed n) now (dn_left_time n) (dn_proto n)
  else
    if negb (dn_is_member n) then n
    else mkNd (dn_nodeid n) false false (dn_join_time n) now zero_proto.

Definition confchg_cb_daemon (members joined : list Z) (s : fstate) : fstate :=
  let s1 := match joined with [] => s | _ => f_emit s (SendProtocol (f_protocol s)) end in
  f_set_daemon s1
    (map (daemon_member_change (f_now s1) members)
       (foldl add_node_daemon (f_daemon_nodes s1) members)) members.

Definition daemon_dispatch (c : config) (s : fstate) (e : daemon_event) : fstate :=
  match e with
  | DConfchg members joined => confchg_cb_daemon members joined s
  | DProtocol nodeid p => receive_protocol c nodeid p s
  end.

Definition is_clean_daemon_member (c : config) (nodeid : Z) : M bool :=
  a ← next_answer;
  match a with
  | A_daemon evs =>
      modify (fun s => foldl (daemon_dispatch c) s evs) ;;
      gets (fun s => match get_node_daemon (f_daemon_nodes s) nodeid with
                     | None => false
                     | Some n => dn_is_member n && c_true (v_major (p_max (dn_proto n)))
                     end)
  | _ => wrong_answer
  end.

(** ** Fencing the victims *)

Definition is_victim (l : list node) (nodeid : Z) : bool :=
  existsb (fun v => vn_nodeid v =? nodeid) l.

Definition get_node_victim (l : list node) (nodeid : Z) : option node :=
  List.find (fun v => vn_nodeid v =? nodeid) l.

Definition complete_flag (d : fd) : Z :=
  if fd_init_complete d || fd_local_init_complete d then FD_MFLG_COMPLETE else 0.

Definition send_victim_done (c : config) (victim : Z) : M unit :=
  d ← gets f_fd;
  match fd_changes d with
  | [] => wrong_answer
  | cg :: _ =>
      match get_node_history (fd_history d) victim with
      | None => mret tt
      | Some n =>
          emit (SendVictimDone (complete_flag d) (cg_seq cg)
            (mkId victim 0 0 (our_nodeid c) (nh_fence_how n) (nh_fence_time n) 0))
      end
  end.

Definition victim_done (c : config) (victim how : Z) : M unit :=
  now ← gets f_now;
  upd_fd (fun d => fd_set_history d
    (node_history_fence victim (our_nodeid c) how now (fd_history d))) ;;
  send_victim_done c victim.

(** The first victim of that id leaves the list. *)
Fixpoint remove_victim (nodeid : Z) (l : list node) : list node :=
  match l with
  | [] => []
  | v :: l' => if vn_nodeid v =? nodeid then l' else v :: remove_victim nodeid l'
  end.

(** One victim of [reduce_victims]; the daemon group is only asked about
    members. *)
Definition reduce_victim (c : config) (nodeid : Z) : M unit :=
  m ← is_cluster_member_reread nodeid;
  clean ← (if m : bool then is_clean_daemon_member c nodeid else mret false);
  if clean : bool then
    victim_done c nodeid VIC_DONE_MEMBER ;;
    upd_fd (fun d => fd_set_victims d (remove_victim nodeid (fd_victims d)))
  else mret tt.

Definition reduce_victims (c : config) : M nat :=
  vs ← gets (fun s => map vn_nodeid (fd_victims (f_fd s)));
  for_each (reduce_victim c) vs ;;
  gets (fun s => length (fd_victims (f_fd s))).

(** The loop of [delay_fencing]; [start], [last] and [delay] are its variables. *)
Fixpoint delay_loop (c : config) (fuel : nat) (start : Z) (last : nat) (delay : Z) : M unit :=
  match fuel with
  | O => wrong_answer
  | S fuel' =>
      count ← reduce_victims c;
      now ← gets f_now;
      if (count =? 0)%nat then mret tt
      else
        let less := (count <? last)%nat in
        let start' := if less then now else start in
        let delay' := if less && (0 <? delay) && (delay <? cfgd_post_join_delay c)
                      then cfgd_post_join_delay c else delay in
        if delay' =? -1 then delay_loop c fuel' start' count delay'
        else if now - start' >=? delay' then mret tt
        else delay_loop c fuel' start' count delay'
  end.

Definition delay_fencing (c : config) (node_join : bool) : M unit :=
  vs ← gets (fun s => fd_victims (f_fd s));
  match vs with
  | [] => mret tt
  | _ =>
      let delay := if node_join then cfgd_post_join_delay c else cfgd_post_fail_delay c in
      if delay =? 0 then mret tt
      else
        now ← gets f_now;
        n ← tape_length;
        delay_loop c (S n) now 0 delay
  end.

Definition set_victim_done (nodeid : Z) : M unit :=
  upd_fd (fun d => fd_set_victims d
    (map (fun v => if vn_nodeid v =? nodeid then mkNode (vn_nodeid v) (vn_init v) true else v)
       (fd_victims d))).

(** The attempts to deal with one victim, from the label [retry]. *)
Fixpoint fence_retry (c : config) (fuel : nat) (nodeid : Z) : M unit :=
  match fuel with
  | O => wrong_answer
  | S fuel' =>
      upd_fd (fun d => fd_set_current d nodeid) ;;
      cluster_member ← is_cluster_member_reread nodeid;
      cpg_member ← is_clean_daemon_member c nodeid;
      ext ← gets (fun s => is_fenced_external (fd_history (f_fd s)) nodeid);
      if (cluster_member && cpg_member) || (ext : bool) then
        set_victim_done nodeid ;;
        victim_done c nodeid (if ext : bool then VIC_DONE_EXTERNAL else VIC_DONE_MEMBER)
      else
        a ← next_answer;
        match a with
        | A_agent ok =>
            emit (FenceNode nodeid ok) ;;
            if ok : bool then set_victim_done nodeid ;; victim_done c nodeid VIC_DONE_AGENT
            else if negb (cfgd_override_path c) then fence_retry c fuel' nodeid
            else
              o ← next_answer;
              match o with
              | A_override true => set_victim_done nodeid ;; victim_done c nodeid VIC_DONE_OVERRIDE
              | A_override false => fence_retry c fuel' nodeid
              | _ => wrong_answer
              end
        | _ => wrong_answer
        end
  end.

(** One victim of [fence_victims]. *)
Definition fence_victim (c : config) (v : node) : M unit :=
  if vn_done v then mret tt
  else n ← tape_length; fence_retry c (S n) (vn_nodeid v).

Definition fence_victims (c : config) : M unit :=
  vs ← gets (fun s => fd_victims (f_fd s));
  for_each (fence_victim c) vs ;;
  upd_fd (fun d => fd_set_current d 0).

(** ** Changes *)

Definition find_memb (cg : change) (nodeid : Z) : option member :=
  List.find (fun m => mb_nodeid m =? nodeid) (cg_members cg).

Fixpoint upd_memb (nodeid : Z) (f : member -> member) (l : list member) : list member :=
  match l with
  | [] => []
  | m :: l' => if mb_nodeid m =? nodeid then f m :: l' else m :: upd_memb nodeid f l'
  end.

Definition cg_set_members (cg : change) (l : list member) : change :=
  mkCg l (cg_removed cg) (cg_member_count cg) (cg_joined_count cg) (cg_remove_count cg)
    (cg_failed_count cg) (cg_st cg) (cg_we_joined cg) (cg_seq cg) (cg_create_time cg).
Definition cg_set_state (cg : change) (st : cg_state) : change :=
  mkCg (cg_members cg) (cg_removed cg) (cg_member_count cg) (cg_joined_count cg)
    (cg_remove_count cg) (cg_failed_count cg) st (cg_we_joined cg) (cg_seq cg)
    (cg_create_time cg).

(** The loop of [check_quorum_done]: every failed node must be gone from
    cman; the number of those that are not. *)
Fixpoint check_quorum_loop (nodeids : list Z) (wait_count : nat) : M nat :=
  match nodeids with
  | [] => mret wait_count
  | k :: rest =>
      h ← gets (fun s => get_node_history (fd_history (f_fd s)) k);
      match h with
      | Some n =>
          if negb (nh_check_quorum n) then check_quorum_loop rest wait_count
          else
            m ← is_cluster_member_reread k;
            if negb (m : bool) then
              upd_fd (fun d => fd_set_history d
                (upd_history k (nh_set_check false) (fd_history d))) ;;
              check_quorum_loop rest wait_count
            else check_quorum_loop rest (S wait_count)
      | None => check_quorum_loop rest wait_count
      end
  end.

Definition check_quorum_done : M bool :=
  ks ← gets (fun s => map nh_nodeid (fd_history (f_fd s)));
  wait_count ← check_quorum_loop ks 0;
  if negb (wait_count =? 0)%nat then mret false
  else gets f_quorate.

Definition wait_conditions_done : M bool := check_quorum_done.
Definition wait_messages_done (cg : change) : bool := forallb mb_start (cg_members cg).

(** The lowest member, and the lowest of those that have complete information;
    0 for none. *)
Definition low_of (low : Z) (k : Z) : Z := if (low =? 0) || (k <? low) then k else low.

Definition set_master_of (l : list member) : Z :=
  let low := foldl (fun a m => low_of a (mb_nodeid m)) 0 l in
  let complete := foldl (fun a m =>
    if negb (c_true (Z.land (mb_start_flags m) FD_MFLG_COMPLETE)) then a
    else low_of a (mb_nodeid m)) 0 l in
  if c_true complete then complete else low.

(** The first change of the list becomes the started one. *)
Definition cleanup_changes (d : fd) : fd :=
  match fd_changes d with
  | [] => d
  | cg :: _ =>
      let sc := u32 (fd_started_count d + 1) in
      mkFd (fd_change_seq d) (if sc =? 0 then 1 else sc) (Some cg) [] (fd_history d)
        (fd_init_complete d) (fd_local_init_complete d) (fd_master d) (fd_joining_group d)
        (fd_leaving_group d) (fd_current_victim d) (fd_victims d) (fd_complete d)
  end.

(** The header of a delivered message. *)
Record fhdr := mkHdr {
  h_version : Z * Z;
  h_nodeid : Z;
  h_flags : Z;
  h_msgdata : Z
}.

Definition get_id_struct (ids : list id_info) (nodeid : Z) : option id_info :=
  List.find (fun i => id_nodeid i =? nodeid) ids.

Definition is_member_id (i : id_info) : bool := c_true (Z.land (id_flags i) IDI_NODEID_IS_MEMBER).

Definition we_are_in (c : config) (ids : list id_info) : bool :=
  match get_id_struct ids (our_nodeid c) with
  | None => false
  | Some i => is_member_id i
  end.

Definition match_change (c : config) (d : fd) (cg : change) (hd : fhdr) (fi : fd_info)
    (ids : list id_info) : bool :=
  if negb (we_are_in c ids) then false
  else match find_memb cg (h_nodeid hd) with
  | None => false
  | Some m =>
      if mb_start m then false
      else match get_node_history (fd_history d) (h_nodeid hd) with
      | None => false
      | Some n =>
          if nh_cluster_add_time n >? cg_create_time cg then false
          else if negb (fi_member_count fi =? cg_member_count cg) ||
                  negb (fi_joined_count fi =? cg_joined_count cg) ||
                  negb (fi_remove_count fi =? cg_remove_count cg) ||
                  negb (fi_failed_count fi =? cg_failed_count cg) then false
          else forallb (fun i => negb (is_member_id i) || bool_decide (is_Some (find_memb cg (id_nodeid i))))
                 ids
      end
  end.

(** The changes are searched from the oldest, the last of the list. *)
Definition find_change (c : config) (d : fd) (hd : fhdr) (fi : fd_info) (ids : list id_info)
    : option change :=
  List.find (fun cg => match_change c d cg hd fi ids) (rev (fd_changes d)).

Definition is_added (d : fd) (nodeid : Z) : bool :=
  existsb (fun cg => match find_memb cg nodeid with
                     | Some m => mb_added m
                     | None => false
                     end) (fd_changes d).

(** Change the member of the change with that number. *)
Definition upd_change_memb (seq nodeid : Z) (f : member -> member) (d : fd) : fd :=
  fd_set_changes d (map (fun cg => if cg_seq cg =? seq
                                   then cg_set_members cg (upd_memb nodeid f (cg_members cg))
                                   else cg) (fd_changes d)).

Definition receive_start (c : config) (now : Z) (hd : fhdr) (fi : fd_info) (ids : list id_info)
    (d : fd) : fd :=
  match find_change c d hd fi ids with
  | None => d
  | Some cg =>
      let k := h_nodeid hd in
      let d1 := upd_change_memb (cg_seq cg) k (fun m =>
        mkMemb (mb_nodeid m) (mb_start m) (mb_added m) (mb_failed m) (mb_disallowed m)
          (h_flags hd)) d in
      if is_added d k && c_true (fi_started_count fi) && c_true (fd_started_count d) then
        upd_change_memb (cg_seq cg) k (fun m =>
          mkMemb (mb_nodeid m) (mb_start m) (mb_added m) (mb_failed m) true
            (mb_start_flags m)) d1
      else
        let d2 := upd_change_memb (cg_seq cg) k (fun m =>
          mkMemb (mb_nodeid m) true (mb_added m) (mb_failed m) (mb_disallowed m)
            (mb_start_flags m)) d1 in
        fd_set_history d2 (save_history ids (node_history_start now k (fd_history d2)))
  end.

Definition receive_victim_done (c : config) (now : Z) (hd : fhdr) (i : id_info) (d : fd) : fd :=
  match get_node_victim (fd_victims d) (id_nodeid i) with
  | None => d
  | Some _ =>
      let h1 := upd_history (id_nodeid i) (nh_set_fence_local now) (fd_history d) in
      let h2 := if h_nodeid hd =? our_nodeid c then h1
                else node_history_fence (id_nodeid i) (id_fence_master i) (id_fence_how i)
                       (id_fence_time i) h1 in
      fd_set_victims (fd_set_history d h2) (remove_victim (id_nodeid i) (fd_victims d))
  end.

Definition receive_complete (c : config) (ids : list id_info) (d : fd) : fd :=
  if fd_init_complete d then d
  else if negb (we_are_in c ids) then d
  else fd_set_victims (fd_set_init_complete d true (fd_local_init_complete d)) [].

Definition receive_external (now : Z) (hd : fhdr) (d : fd) : fd :=
  fd_set_history d (node_history_fence_external now (h_msgdata hd) (h_nodeid hd) (fd_history d)).

(** The payload of a start or complete message. *)
Definition info_ids (d : fd) (cg : change) : list id_info :=
  map (fun n => mkId (nh_nodeid n)
                  (if bool_decide (is_Some (find_memb cg (nh_nodeid n)))
                   then IDI_NODEID_IS_MEMBER else 0)
                  (nh_fence_external_node n) (nh_fence_master n) (nh_fence_how n)
                  (nh_fence_time n) (nh_fence_external_time n)) (fd_history d).

Definition info_of (d : fd) (cg : change) : fd_info :=
  mkFi (fd_started_count d) (cg_member_count cg) (cg_joined_count cg) (cg_remove_count cg)
    (cg_failed_count cg).

Definition info_flags (d : fd) (cg : change) : Z :=
  (if cg_we_joined cg then FD_MFLG_JOINING else 0) + complete_flag d.

Definition send_start (cg : change) : M unit :=
  d ← gets f_fd; emit (SendStart (info_flags d cg) (cg_seq cg) (info_of d cg) (info_ids d cg)).
Definition send_complete (cg : change) : M unit :=
  d ← gets f_fd; emit (SendComplete (info_flags d cg) (cg_seq cg) (info_of d cg) (info_ids d cg)).

Definition nodes_added (d : fd) : bool :=
  existsb (fun cg => c_true (cg_joined_count cg)) (fd_changes d).

Definition set_head_state (st : cg_state) (d : fd) : fd :=
  match fd_changes d with
  | [] => d
  | cg :: l => fd_set_changes d (cg_set_state cg st :: l)
  end.

Definition set_stateful (s : fstate) : fstate :=
  let p := f_protocol s in
  let '(r0, r1, r2, fl) := p_run p in
  f_set_protocol s (mkProto (p_max p) (r0, r1, r2, Z.lor fl PV_STATEFUL)).

Definition apply_changes (c : config) : M unit :=
  d ← gets f_fd;
  match fd_changes d with
  | [] => mret tt
  | cg :: _ =>
      match cg_st cg with
      | CGST_WAIT_CONDITIONS =>
          done ← wait_conditions_done;
          if done : bool then send_start cg ;; upd_fd (set_head_state CGST_WAIT_MESSAGES)
          else mret tt
      | CGST_WAIT_MESSAGES =>
          if wait_messages_done cg then
            modify set_stateful ;;
            upd_fd (fun d => fd_set_master d (set_master_of (cg_members cg))) ;;
            upd_fd (set_head_state CGST_WAIT_FENCING) ;;
            master ← gets (fun s => fd_master (f_fd s));
            (if master =? our_nodeid c then
               delay_fencing c (nodes_added d) ;;
               fence_victims c ;;
               send_complete cg ;;
               upd_fd (fun d => fd_set_init_complete d (fd_init_complete d) true)
             else mret tt) ;;
            upd_fd cleanup_changes ;;
            upd_fd (fun d =>
              mkFd (fd_change_seq d) (fd_started_count d) (fd_started_change d) (fd_changes d)
                (fd_history d) (fd_init_complete d) (fd_local_init_complete d) (fd_master d)
                false (fd_leaving_group d) (fd_current_victim d) (fd_victims d) (fd_complete d))
          else mret tt
      | CGST_WAIT_FENCING => mret tt
      end
  end.

Definition left_failed (reason : Z) : bool :=
  (reason =? CPG_REASON_NODEDOWN) || (reason =? CPG_REASON_PROCDOWN).

(** The loop of [add_change] over the nodes that left: history and kills. *)
Definition add_removed (now : Z) (p : Z * Z) : M unit :=
  let '(k, reason) := p in
  upd_fd (fun d => fd_set_history d
    (if left_failed reason then node_history_fail now k (fd_history d)
     else node_history_left now k (fd_history d))) ;;
  if reason =? CPG_REASON_PROCDOWN then emit (KickNode k) else mret tt.

(** The loop over the nodes that joined; [None] when one is no member. *)
Fixpoint add_joined (c : config) (joined : list Z) (cg : change) (h : list node_history)
    : option change * list node_history :=
  match joined with
  | [] => (Some cg, h)
  | k :: rest =>
      match find_memb cg k with
      | None => (None, h)
      | Some _ =>
          let cg1 := cg_set_members cg (upd_memb k (fun m =>
            mkMemb (mb_nodeid m) (mb_start m) true (mb_failed m) (mb_disallowed m)
              (mb_start_flags m)) (cg_members cg)) in
          let cg2 := if k =? our_nodeid c then
            mkCg (cg_members cg1) (cg_removed cg1) (cg_member_count cg1) (cg_joined_count cg1)
              (cg_remove_count cg1) (cg_failed_count cg1) (cg_st cg1) true (cg_seq cg1)
              (cg_create_time cg1) else cg1 in
          add_joined c rest cg2 (if k =? our_nodeid c then h else node_history_init k h)
      end
  end.

Definition new_member (k : Z) (failed : bool) : member := mkMemb k false false failed false 0.

Definition add_change (c : config) (members : list Z) (lefts : list (Z * Z)) (joined : list Z)
    : M (option change) :=
  upd_fd (fun d => mkFd (u32 (fd_change_seq d + 1)) (fd_started_count d) (fd_started_change d)
    (fd_changes d) (fd_history d) (fd_init_complete d) (fd_local_init_complete d) (fd_master d)
    (fd_joining_group d) (fd_leaving_group d) (fd_current_victim d) (fd_victims d)
    (fd_complete d)) ;;
  now ← gets f_now;
  for_each (add_removed now) lefts ;;
  d ← gets f_fd;
  let removed := map (fun p => new_member (fst p) (left_failed (snd p))) lefts in
  let cg := mkCg (map (fun k => new_member k false) members) removed
    (Z.of_nat (length members)) (Z.of_nat (length joined)) (Z.of_nat (length lefts))
    (Z.of_nat (length (List.filter mb_failed removed)))
    CGST_WAIT_CONDITIONS false (fd_change_seq d) now in
  let '(r, h) := add_joined c joined cg (fd_history d) in
  match r with
  | None => upd_fd (fun d => fd_set_history d h) ;; mret None
  | Some cg' =>
      let h' := if cg_we_joined cg' then foldl (fun h k => node_history_init k h) h members else h in
      upd_fd (fun d => fd_set_changes (fd_set_history d h') (cg' :: fd_changes d)) ;;
      mret (Some cg')
  end.

(** [add_victims]: the failed nodes are put at the head of the victims. *)
Definition add_victims (removed : list member) (vs : list node) : list node :=
  foldl (fun vs m => if negb (mb_failed m) then vs
                     else if is_victim vs (mb_nodeid m) then vs
                     else mkNode (mb_nodeid m) false false :: vs) vs removed.

(** The nodes of the configuration that are not here become victims. *)
Fixpoint add_victims_init (cg : change) (complete : list node) : M unit :=
  match complete with
  | [] => mret tt
  | n :: rest =>
      upd_fd (fun d => mkFd (fd_change_seq d) (fd_started_count d) (fd_started_change d)
        (fd_changes d) (fd_history d) (fd_init_complete d) (fd_local_init_complete d)
        (fd_master d) (fd_joining_group d) (fd_leaving_group d) (fd_current_victim d)
        (fd_victims d) rest) ;;
      m ← is_cluster_member_reread (vn_nodeid n);
      (if negb (m : bool) && negb (bool_decide (is_Some (find_memb cg (vn_nodeid n))))
       then upd_fd (fun d => if is_victim (fd_victims d) (vn_nodeid n) then d
              else fd_set_victims d (mkNode (vn_nodeid n) true (vn_done n) :: fd_victims d))
       else mret tt) ;;
      add_victims_init cg rest
  end.

(** The flag is false when the domain is left and freed. *)
Definition confchg_cb_domain (c : config) (members : list Z) (lefts : list (Z * Z))
    (joined : list Z) : M bool :=
  d ← gets f_fd;
  if fd_leaving_group d && existsb (fun p => fst p =? our_nodeid c) lefts then mret false
  else
    r ← add_change c members lefts joined;
    match r with
    | None => mret true
    | Some cg =>
        upd_fd (fun d => fd_set_victims d (add_victims (cg_removed cg) (fd_victims d))) ;;
        (if cg_we_joined cg
         then l ← gets (fun s => fd_complete (f_fd s)); add_victims_init cg l
         else mret tt) ;;
        apply_changes c ;; mret true
    end.

Inductive payload :=
  | PStart (fi : fd_info) (ids : list id_info)
  | PVictimDone (i : id_info)
  | PComplete (fi : fd_info) (ids : list id_info)
  | PExternal
  | PUnknown.

Definition receive (c : config) (now : Z) (hd : fhdr) (pl : payload) (d : fd) : fd :=
  match pl with
  | PStart fi ids => receive_start c now hd fi ids d
  | PVictimDone i => receive_victim_done c now hd i d
  | PComplete _ ids => receive_complete c ids d
  | PExternal => receive_external now hd d
  | PUnknown => d
  end.

(** [nodeid] is the sender that the group reports. *)
Definition deliver_cb_domain (c : config) (nodeid : Z) (hd : fhdr) (pl : payload) : M unit :=
  p ← gets f_protocol;
  if negb (fst (h_version hd) =? v_major (p_run p)) ||
     negb (snd (h_version hd) =? v_minor (p_run p)) then mret tt
  else if negb (h_nodeid hd =? nodeid) then mret tt
  else
    now ← gets f_now;
    upd_fd (receive c now hd pl) ;;
    apply_changes c.

Definition process_fd_changes (c : config) : M unit :=
  d ← gets f_fd;
  match fd_changes d with
  | [] => mret tt
  | _ => apply_changes c
  end.

(** [cman_callback] for a change of the cluster's state. *)
Definition cman_statechange (c : config) : M unit :=
  q0 ← gets f_quorate;
  update_cluster ;;
  q1 ← gets f_quorate;
  if negb q0 && q1 then process_fd_changes c else mret tt.
