(* ===== verification/FencedThm.v ===== *)
(** * The fence domain: theorems

    A failed member stays a victim until somebody reports it done or it comes
    back; the master does not report a change complete before the victims that
    stay away are fenced; all members choose the same master.  Two runs show
    how a victim is forgotten and how a change is left waiting. *)

From S2P Require Import Prelude Fenced.
Open Scope Z_scope.

(** ** Triples

    [triple Q P m R]: started in a state with [P], with answers that all satisfy
    [Q], [m] ends, if it does not wait, with [R]. *)

Definition triple {A} (Q : answer -> Prop) (P : fstate -> Prop) (m : M A)
    (R : A -> fstate -> Prop) : Prop :=
  forall s t a s' t', P s -> Forall Q t -> m s t = Some (a, s', t') -> R a s' /\ Forall Q t'.

Section Triples.
Context (Q : answer -> Prop).

Lemma triple_ret {A} P (a : A) (R : A -> fstate -> Prop) :
  (forall s, P s -> R a s) -> triple Q P (mret a) R.
Proof. intros H s t a' s' t' HP HQ E. cbv in E. simplify_eq. auto. Qed.

Lemma triple_bind {A B} P (m : M A) (f : A -> M B) (S : A -> fstate -> Prop) R :
  triple Q P m S -> (forall a, triple Q (S a) (f a) R) -> triple Q P (mbind f m) R.
Proof.
  intros H1 H2 s t b s' t' HP HQ E. unfold mbind, M_bind in E.
  destruct (m s t) as [[[a s1] t1]|] eqn:E1; [|done].
  destruct (H1 _ _ _ _ _ HP HQ E1). by eapply H2.
Qed.

Lemma triple_gets {A} P (f : fstate -> A) (R : A -> fstate -> Prop) :
  (forall s, P s -> R (f s) s) -> triple Q P (gets f) R.
Proof. intros H s t a s' t' HP HQ E. cbv in E. simplify_eq. auto. Qed.

Lemma triple_modify P f (R : unit -> fstate -> Prop) :
  (forall s, P s -> R tt (f s)) -> triple Q P (modify f) R.
Proof. intros H s t a s' t' HP HQ E. unfold modify in E. simplify_eq. auto. Qed.

Lemma triple_next P R :
  (forall a s, Q a -> P s -> R a s) -> triple Q P next_answer R.
Proof.
  intros H s t a s' t' HP HQ E. destruct HQ as [|b t HQ HQs]; cbv in E; [done|].
  simplify_eq. auto.
Qed.

Lemma triple_wrong {A} P (R : A -> fstate -> Prop) : triple Q P wrong_answer R.
Proof. by intros s t a s' t'. Qed.

Lemma triple_tape P (R : nat -> fstate -> Prop) :
  (forall n s, P s -> R n s) -> triple Q P tape_length R.
Proof. intros H s t a s' t' HP HQ E. unfold tape_length in E. simplify_eq. auto. Qed.

Lemma triple_weaken {A} (P P' : fstate -> Prop) (m : M A) (R R' : A -> fstate -> Prop) :
  triple Q P m R -> (forall s, P' s -> P s) -> (forall a s, R a s -> R' a s) -> triple Q P' m R'.
Proof. intros H H1 H2 s t a s' t' HP HQ E. edestruct H; [by apply H1|done|done|auto]. Qed.

Lemma triple_for_each {A} (P : fstate -> Prop) (f : A -> M unit) l :
  (forall x, x ∈ l -> triple Q P (f x) (fun _ => P)) ->
  triple Q P (for_each f l) (fun _ => P).
Proof.
  induction l as [|x l IH]; intros H; cbn; [by apply triple_ret|].
  eapply triple_bind; [apply H; left|]. intros ?. apply IH. intros y Hy. apply H. by right.
Qed.
Lemma triple_pure {A} (P : fstate -> Prop) (Phi : Prop) (m : M A) R :
  (Phi -> triple Q P m R) -> triple Q (fun s => P s /\ Phi) m R.
Proof. intros H s t a s' t' [HP Hphi]. by apply H. Qed.
End Triples.

(** ** Victims are not forgotten *)

#[local] Arguments is_victim : simpl never.

(** No answer of cman shows node [k] as a member. *)
Definition away (k : Z) (a : answer) : Prop :=
  match a with
  | A_nodes _ _ (Some nodes) => is_member nodes k = false
  | _ => True
  end.

(** [k] is a victim and the domain has complete information. *)
Definition kept (k : Z) (s : fstate) : Prop :=
  fd_init_complete (f_fd s) = true /\ is_victim (fd_victims (f_fd s)) k = true.

Lemma kept_modify Q k f :
  (forall s, fd_init_complete (f_fd (f s)) = fd_init_complete (f_fd s) /\
             fd_victims (f_fd (f s)) = fd_victims (f_fd s)) ->
  triple Q (kept k) (modify f) (fun _ => kept k).
Proof.
  intros H. apply triple_modify. intros s [H1 H2]. destruct (H s) as [E1 E2]. unfold kept.
  by rewrite E1, E2.
Qed.

Lemma kept_upd_fd Q k f :
  (forall d, fd_init_complete (f d) = fd_init_complete d /\ fd_victims (f d) = fd_victims d) ->
  triple Q (kept k) (upd_fd f) (fun _ => kept k).
Proof. intros H. apply kept_modify. intros s. apply H. Qed.

Lemma update_cluster_with_fd now q nodes s :
  fd_init_complete (f_fd (update_cluster_with now q nodes s)) = fd_init_complete (f_fd s) /\
  fd_victims (f_fd (update_cluster_with now q nodes s)) = fd_victims (f_fd s).
Proof. by destruct nodes. Qed.

Lemma receive_protocol_fd c n p s : f_fd (receive_protocol c n p s) = f_fd s.
Proof.
  unfold receive_protocol. destruct (p_max p) as [[[m0 m1] m2] m3], (p_run p) as [[[r0 r1] r2] r3].
  by repeat case_match.
Qed.

Lemma daemon_dispatch_fd c evs s : f_fd (foldl (daemon_dispatch c) s evs) = f_fd s.
Proof.
  revert s. induction evs as [|e evs IH]; intros s; [done|]. cbn. rewrite IH.
  destruct e; cbn; [|apply receive_protocol_fd]. by destruct joined.
Qed.

Lemma member_reread_kept k n :
  triple (away k) (kept k) (is_cluster_member_reread n)
    (fun m s => kept k s /\ (n = k -> m = false)).
Proof.
  unfold is_cluster_member_reread, update_cluster.
  eapply triple_bind with (S := fun _ s => kept k s /\ is_member (f_cman_nodes s) k = false).
  - eapply triple_bind with (S := fun a s => away k a /\ kept k s); [by apply triple_next|].
    intros []; try apply triple_wrong. apply triple_modify. intros s [Ha [H1 H2]].
    destruct (update_cluster_with_fd now quorate nodes s) as [E1 E2].
    split; [unfold kept; by rewrite E1, E2|]. by destruct nodes.
  - intros ?. apply triple_gets. intros s [H1 H2]. split; [done|]. by intros ->.
Qed.

Lemma clean_member_kept Q c k n :
  triple Q (kept k) (is_clean_daemon_member c n) (fun _ => kept k).
Proof.
  unfold is_clean_daemon_member.
  eapply triple_bind with (S := fun _ => kept k); [by apply triple_next|]. intros a.
  destruct a; try apply triple_wrong.
  eapply triple_bind with (S := fun _ => kept k); [|intros ?; by apply triple_gets].
  apply kept_modify. intros s. by rewrite daemon_dispatch_fd.
Qed.

Lemma victim_done_kept Q c k n how : triple Q (kept k) (victim_done c n how) (fun _ => kept k).
Proof.
  unfold victim_done, send_victim_done.
  eapply triple_bind with (S := fun _ => kept k); [by apply triple_gets|]. intros now.
  eapply triple_bind; [by apply kept_upd_fd|]. intros ?.
  eapply triple_bind with (S := fun _ => kept k); [by apply triple_gets|]. intros d.
  destruct (fd_changes d); [apply triple_wrong|].
  destruct (get_node_history (fd_history d) n); [|by apply triple_ret]. by apply kept_modify.
Qed.

Lemma remove_victim_other n k l :
  n <> k -> is_victim (remove_victim n l) k = is_victim l k.
Proof.
  intros Hne. unfold is_victim. induction l as [|v l IH]; [done|]. cbn. destruct (Z.eqb_spec (vn_nodeid v) n) as [E|E].
  - rewrite (proj2 (Z.eqb_neq (vn_nodeid v) k)) by congruence. done.
  - cbn. by rewrite IH.
Qed.

Lemma set_victim_done_kept Q k n : triple Q (kept k) (set_victim_done n) (fun _ => kept k).
Proof.
  apply triple_modify. intros s [H1 H2]. split; [done|]. cbn.
  unfold is_victim in *. rewrite existsb_exists_elem in *. destruct H2 as (v & Hv & E).
  exists (if vn_nodeid v =? n then mkNode (vn_nodeid v) (vn_init v) true else v).
  split; [apply list_elem_of_fmap; by exists v|]. by case_match.
Qed.

Lemma reduce_victim_kept c k n :
  triple (away k) (kept k) (reduce_victim c n) (fun _ => kept k).
Proof.
  unfold reduce_victim. eapply triple_bind; [apply member_reread_kept|]. intros m.
  eapply triple_bind with (S := fun cl s => kept k s /\ (n = k -> cl = false)).
  - destruct m; [|apply triple_ret; intros s [? _]; done].
    eapply triple_weaken with (P := fun s => kept k s /\ n <> k) (R := fun _ s => kept k s /\ n <> k).
    + intros s t a s' t' [HK Hn] HQ E. destruct (clean_member_kept _ c k n _ _ _ _ _ HK HQ E). done.
    + intros s [HK Hn]. split; [done|]. intros ->. by specialize (Hn eq_refl).
    + intros a s [HK Hn]. split; [done|]. congruence.
  - intros cl. destruct cl; [|apply triple_ret; intros s [? _]; done].
    eapply triple_weaken with (P := fun s => kept k s /\ n <> k) (R := fun _ s => kept k s);
      [|intros s [HK Hn]; split; [done|intros ->; by specialize (Hn eq_refl)]|done].
    eapply triple_bind with (S := fun _ s => kept k s /\ n <> k).
    + intros s t a s' t' [HK Hn] HQ E. destruct (victim_done_kept _ c k n _ _ _ _ _ _ HK HQ E). done.
    + intros ?. apply triple_modify. intros s [[H1 H2] Hn]. split; [done|]. cbn.
      by rewrite remove_victim_other.
Qed.

(** The invariant is kept by the first operation, then by the rest. *)
Ltac seq k := eapply triple_bind with (S := fun _ => kept k); [|intros ?].

(** Split on the condition of the operation. *)
Ltac branch :=
  match goal with
  | |- triple _ _ (if ?b then _ else _) _ => destruct b
  | |- triple _ _ (match ?x with _ => _ end) _ => destruct x
  | |- _ (if ?b then _ else _) => destruct b
  | |- _ (match ?x with _ => _ end) => destruct x
  end.

Lemma reduce_victims_kept c k : triple (away k) (kept k) (reduce_victims c) (fun _ => kept k).
Proof.
  unfold reduce_victims. seq k; [by apply triple_gets|].
  seq k; [|by apply triple_gets]. apply triple_for_each. intros n _. apply reduce_victim_kept.
Qed.

Lemma delay_fencing_kept c k nj : triple (away k) (kept k) (delay_fencing c nj) (fun _ => kept k).
Proof.
  unfold delay_fencing. seq k; [by apply triple_gets|].
  branch; [by apply triple_ret|]. cbv zeta.
  generalize (if nj then cfgd_post_join_delay c else cfgd_post_fail_delay c). intros de0.
  destruct (de0 =? 0); [by apply triple_ret|].
  seq k; [by apply triple_gets|]. seq k; [by apply triple_tape|].
  match goal with |- triple _ _ (delay_loop c ?f ?st ?la ?de) _ => generalize f, st, la, de end.
  intros f. induction f as [|f IHn]; intros st la de; cbn; [apply triple_wrong|].
  seq k; [apply reduce_victims_kept|]. seq k; [by apply triple_gets|].
  branch; [by apply triple_ret|]. branch; [apply IHn|].
  branch; [by apply triple_ret|apply IHn].
Qed.

Lemma fence_retry_kept c k fuel n :
  triple (away k) (kept k) (fence_retry c fuel n) (fun _ => kept k).
Proof.
  assert (Hdone : forall how, triple (away k) (kept k) (set_victim_done n ;; victim_done c n how)
                                (fun _ => kept k)).
  { intros how. seq k; [apply set_victim_done_kept|apply victim_done_kept]. }
  induction fuel as [|fuel IH]; cbn; [apply triple_wrong|].
  seq k; [by apply kept_upd_fd|].
  seq k; [eapply triple_weaken; [apply member_reread_kept|done|naive_solver]|].
  seq k; [apply clean_member_kept|]. seq k; [by apply triple_gets|].
  branch; [apply Hdone|]. seq k; [by apply triple_next|].
  branch; try apply triple_wrong. seq k; [by apply kept_modify|].
  branch; [apply Hdone|]. branch; [apply IH|]. seq k; [by apply triple_next|].
  branch; try apply triple_wrong. branch; [apply Hdone|apply IH].
Qed.

Lemma fence_victims_kept c k : triple (away k) (kept k) (fence_victims c) (fun _ => kept k).
Proof.
  unfold fence_victims. seq k; [by apply triple_gets|]. seq k; [|by apply kept_upd_fd].
  apply triple_for_each. intros v _. unfold fence_victim.
  branch; [by apply triple_ret|]. seq k; [by apply triple_tape|]. apply fence_retry_kept.
Qed.

Lemma check_quorum_kept k ks w :
  triple (away k) (kept k) (check_quorum_loop ks w) (fun _ => kept k).
Proof.
  revert w. induction ks as [|j ks IH]; intros w; cbn; [by apply triple_ret|].
  seq k; [by apply triple_gets|]. branch; [|apply IH]. branch; [apply IH|].
  seq k; [eapply triple_weaken; [apply member_reread_kept|done|naive_solver]|].
  branch; [|apply IH]. seq k; [by apply kept_upd_fd|apply IH].
Qed.

Lemma apply_changes_kept c k : triple (away k) (kept k) (apply_changes c) (fun _ => kept k).
Proof.
  unfold apply_changes. seq k; [by apply triple_gets|]. branch; [by apply triple_ret|].
  assert (Hst : forall st, triple (away k) (kept k) (upd_fd (set_head_state st)) (fun _ => kept k)).
  { intros st. apply kept_upd_fd. intros d. unfold set_head_state. by destruct (fd_changes d). }
  branch; [| |by apply triple_ret].
  - unfold wait_conditions_done, check_quorum_done. seq k.
    { seq k; [by apply triple_gets|]. seq k; [apply check_quorum_kept|].
      branch; [by apply triple_ret|by apply triple_gets]. }
    branch; [|by apply triple_ret]. seq k; [|apply Hst].
    unfold send_start. seq k; [by apply triple_gets|]. by apply kept_modify.
  - branch; [|by apply triple_ret].
    seq k; [apply kept_modify; intros s; unfold set_stateful;
            by destruct (p_run (f_protocol s)) as [[[? ?] ?] ?]|].
    seq k; [by apply kept_upd_fd|]. seq k; [apply Hst|]. seq k; [by apply triple_gets|]. seq k.
    + branch; [|by apply triple_ret].
      seq k; [apply delay_fencing_kept|]. seq k; [apply fence_victims_kept|].
      seq k; [|by apply kept_upd_fd]. unfold send_complete. seq k; [by apply triple_gets|].
      by apply kept_modify.
    + seq k; [|by apply kept_upd_fd]. apply kept_upd_fd. intros d. unfold cleanup_changes.
      by destruct (fd_changes d).
Qed.

Lemma is_victim_cons v l k : is_victim (v :: l) k = (vn_nodeid v =? k) || is_victim l k.
Proof. done. Qed.

Lemma add_victims_mono removed vs k :
  is_victim vs k = true -> is_victim (add_victims removed vs) k = true.
Proof.
  unfold add_victims. revert vs. induction removed as [|m l IH]; intros vs H; [done|]. cbn. apply IH.
  repeat case_match; try done. rewrite is_victim_cons, H. apply orb_true_r.
Qed.

Lemma add_victims_failed removed vs k :
  Exists (fun m => mb_nodeid m = k /\ mb_failed m = true) removed ->
  is_victim (add_victims removed vs) k = true.
Proof.
  revert vs. induction removed as [|m l IH]; intros vs H; [by apply Exists_nil in H|].
  apply Exists_cons in H as [[<- Hf]|H]; [|by apply IH].
  change (add_victims (m :: l) vs) with (add_victims l (if negb (mb_failed m) then vs
    else if is_victim vs (mb_nodeid m) then vs else mkNode (mb_nodeid m) false false :: vs)).
  apply add_victims_mono. rewrite Hf. cbn. destruct (is_victim vs (mb_nodeid m)) eqn:E; [done|].
  by rewrite is_victim_cons, Z.eqb_refl.
Qed.

Lemma add_victims_init_kept k cg l :
  triple (away k) (kept k) (add_victims_init cg l) (fun _ => kept k).
Proof.
  induction l as [|n l IH]; cbn; [by apply triple_ret|]. seq k; [by apply kept_upd_fd|].
  seq k; [eapply triple_weaken; [apply member_reread_kept|done|naive_solver]|].
  seq k; [|apply IH]. branch; [|by apply triple_ret].
  apply triple_modify. intros s [H1 H2]. cbn. unfold kept; cbn.
  destruct (is_victim (fd_victims (f_fd s)) (vn_nodeid n)); cbn; [done|].
  rewrite is_victim_cons, H2. by rewrite orb_true_r.
Qed.

Lemma add_change_kept k c members lefts joined :
  triple (away k) (kept k) (add_change c members lefts joined) (fun _ => kept k).
Proof.
  unfold add_change. seq k; [by apply kept_upd_fd|]. seq k; [by apply triple_gets|].
  seq k.
  { apply triple_for_each. intros [j reason] _. unfold add_removed.
    seq k; [by apply kept_upd_fd|]. branch; [by apply kept_modify|by apply triple_ret]. }
  seq k; [by apply triple_gets|]. destruct (add_joined _ _ _ _) as [[cg|] h].
  - seq k; [by apply kept_upd_fd|by apply triple_ret].
  - seq k; [by apply kept_upd_fd|by apply triple_ret].
Qed.

Lemma confchg_kept k c members lefts joined :
  triple (away k) (kept k) (confchg_cb_domain c members lefts joined) (fun _ => kept k).
Proof.
  unfold confchg_cb_domain. seq k; [by apply triple_gets|]. branch; [by apply triple_ret|].
  seq k; [apply add_change_kept|]. branch; [|by apply triple_ret]. seq k.
  { apply triple_modify. intros s [H1 H2]. split; [done|]. by apply add_victims_mono. }
  seq k.
  { branch; [|by apply triple_ret]. seq k; [by apply triple_gets|apply add_victims_init_kept]. }
  seq k; [apply apply_changes_kept|by apply triple_ret].
Qed.

(** The message does not report victim [k] done. *)
Definition not_done (k : Z) (pl : payload) : Prop :=
  match pl with
  | PVictimDone i => id_nodeid i <> k
  | _ => True
  end.

Lemma receive_kept c now hd pl d k :
  not_done k pl -> fd_init_complete d = true -> is_victim (fd_victims d) k = true ->
  fd_init_complete (receive c now hd pl d) = true /\
  is_victim (fd_victims (receive c now hd pl d)) k = true.
Proof.
  intros Hn H1 H2. destruct pl as [fi ids|i|fi ids| |]; cbn in *; try done.
  - unfold receive_start. by repeat case_match.
  - unfold receive_victim_done. case_match; [|done]. cbn. split; [done|].
    by rewrite remove_victim_other.
  - unfold receive_complete. by rewrite H1.
Qed.

Lemma deliver_kept k c nodeid hd pl :
  not_done k pl -> triple (away k) (kept k) (deliver_cb_domain c nodeid hd pl) (fun _ => kept k).
Proof.
  intros Hn. unfold deliver_cb_domain. seq k; [by apply triple_gets|].
  branch; [by apply triple_ret|]. branch; [by apply triple_ret|].
  seq k; [by apply triple_gets|]. seq k; [|apply apply_changes_kept].
  apply triple_modify. intros s [H1 H2]. by apply receive_kept.
Qed.

Lemma cman_statechange_kept k c :
  triple (away k) (kept k) (cman_statechange c) (fun _ => kept k).
Proof.
  unfold cman_statechange. seq k; [by apply triple_gets|]. seq k.
  { unfold update_cluster. seq k; [by apply triple_next|]. branch; try apply triple_wrong.
    apply kept_modify. apply update_cluster_with_fd. }
  seq k; [by apply triple_gets|]. branch; [|by apply triple_ret].
  unfold process_fd_changes. seq k; [by apply triple_gets|].
  branch; [by apply triple_ret|apply apply_changes_kept].
Qed.

(** ** Runs *)

Inductive fevent :=
  | EvConfchg (members : list Z) (lefts : list (Z * Z)) (joined : list Z)
  | EvDeliver (nodeid : Z) (hd : fhdr) (pl : payload)
  | EvCman
  | EvDaemon (evs : list daemon_event).

(** An event, the time at which it comes, and the answers its handler gets. *)
Record finput := mkIn {
  in_now : Z;
  in_ev : fevent;
  in_tape : list answer
}.

Definition handler (c : config) (e : fevent) : M unit :=
  match e with
  | EvConfchg members lefts joined => confchg_cb_domain c members lefts joined ;; mret tt
  | EvDeliver nodeid hd pl => deliver_cb_domain c nodeid hd pl
  | EvCman => cman_statechange c
  | EvDaemon evs => modify (fun s => foldl (daemon_dispatch c) s evs)
  end.

Definition set_now (now : Z) (s : fstate) : fstate :=
  f_set_cman s now (f_quorate s) (f_quorate_time s) (f_cman_nodes s).

Definition fstep (c : config) (i : finput) (s : fstate) : option fstate :=
  match handler c (in_ev i) (set_now (in_now i) s) (in_tape i) with
  | Some (_, s', _) => Some s'
  | None => None
  end.

Fixpoint frun (c : config) (ins : list finput) (s : fstate) : option fstate :=
  match ins with
  | [] => Some s
  | i :: ins' => s' ← fstep c i s; frun c ins' s'
  end.

(** Nothing in the input shows node [k] back in the cluster or dealt with. *)
Definition no_word_of (k : Z) (i : finput) : Prop :=
  Forall (away k) (in_tape i) /\
  match in_ev i with
  | EvDeliver _ _ pl => not_done k pl
  | _ => True
  end.

Lemma fstep_kept c k i s s' :
  no_word_of k i -> kept k s -> fstep c i s = Some s' -> kept k s'.
Proof.
  intros [Ht He] HK E. unfold fstep in E.
  destruct (handler c (in_ev i) (set_now (in_now i) s) (in_tape i)) as [[[u s1] t1]|] eqn:Eh; [|done].
  simplify_eq. assert (HT : triple (away k) (kept k) (handler c (in_ev i)) (fun _ => kept k)).
  { destruct (in_ev i) as [members lefts joined|n hd pl| |evs]; cbn.
    - seq k; [apply confchg_kept|by apply triple_ret].
    - by apply deliver_kept.
    - apply cman_statechange_kept.
    - apply kept_modify. intros s0. by rewrite daemon_dispatch_fd. }
  by destruct (HT _ _ _ _ _ (HK : kept k (set_now (in_now i) s)) Ht Eh).
Qed.

Lemma fd_upd_memb_ids k f l :
  (forall m, mb_nodeid (f m) = mb_nodeid m) -> map mb_nodeid (upd_memb k f l) = map mb_nodeid l.
Proof.
  intros Hf. induction l as [|m l IH]; [done|]. cbn. case_match; cbn; [by rewrite Hf|by rewrite IH].
Qed.

Lemma find_memb_ids cg k : k ∈ map mb_nodeid (cg_members cg) -> is_Some (find_memb cg k).
Proof.
  intros H. apply list_elem_of_fmap in H as (m & -> & Hm). unfold find_memb.
  destruct (List.find _ _) eqn:E; [done|].
  apply List.find_none with (x := m) in E; [|by apply list_elem_of_In]. zbool. done.
Qed.

(** When all that joined are members the change is added. *)
Lemma add_joined_some c joined cg h :
  (forall j, j ∈ joined -> j ∈ map mb_nodeid (cg_members cg)) ->
  exists cg' h', add_joined c joined cg h = (Some cg', h') /\ cg_removed cg' = cg_removed cg.
Proof.
  revert cg h. induction joined as [|j joined IH]; intros cg h H; cbn; [by exists cg, h|].
  destruct (find_memb_ids cg j) as [m ->]; [apply H; left|].
  match goal with |- context [add_joined c joined ?cg2 ?h2] =>
    destruct (IH cg2 h2) as (cg' & h' & E & Er) end.
  { intros i Hi. assert (Hi' : i ∈ map mb_nodeid (cg_members cg)) by (apply H; by right).
    destruct (j =? our_nodeid c); cbn; by rewrite fd_upd_memb_ids. }
  exists cg', h'. split; [done|]. rewrite Er. by destruct (j =? our_nodeid c).
Qed.

Definition has_info (s : fstate) : Prop := fd_init_complete (f_fd s) = true.

Lemma add_change_some Q c members lefts joined :
  (forall j, j ∈ joined -> j ∈ members) ->
  triple Q has_info (add_change c members lefts joined)
    (fun r s => has_info s /\ exists cg, r = Some cg /\
       cg_removed cg = map (fun p => new_member (fst p) (left_failed (snd p))) lefts).
Proof.
  intros Hj. unfold add_change.
  eapply triple_bind with (S := fun _ => has_info); [by apply triple_modify|]. intros ?.
  eapply triple_bind with (S := fun _ => has_info); [by apply triple_gets|]. intros now.
  eapply triple_bind with (S := fun _ => has_info).
  { apply triple_for_each. intros [j reason] _. unfold add_removed.
    eapply triple_bind with (S := fun _ => has_info); [by apply triple_modify|]. intros ?.
    branch; [by apply triple_modify|by apply triple_ret]. }
  intros ?. eapply triple_bind with (S := fun _ => has_info); [by apply triple_gets|]. intros d.
  match goal with |- context [add_joined c joined ?cg ?h] =>
    destruct (add_joined_some c joined cg h) as (cg' & h' & E & Er) end.
  { cbn. intros j Hjj. rewrite map_map. cbn. rewrite map_id. by apply Hj. }
  rewrite E. eapply triple_bind with (S := fun _ => has_info); [by apply triple_modify|]. intros ?.
  apply triple_ret. intros s Hs. split; [done|]. by exists cg'.
Qed.

(** The failure of a member makes it a victim. *)
Lemma confchg_makes_victim c members lefts joined k reason :
  (k, reason) ∈ lefts -> left_failed reason = true -> (forall j, j ∈ joined -> j ∈ members) ->
  triple (away k) (fun s => has_info s /\ fd_leaving_group (f_fd s) = false)
    (confchg_cb_domain c members lefts joined) (fun _ => kept k).
Proof.
  intros Hin Hf Hj. unfold confchg_cb_domain.
  eapply triple_bind with (S := fun d s => has_info s /\ fd_leaving_group d = false);
    [by apply triple_gets|]. intros d. apply triple_pure. intros ->. cbn [andb].
  eapply triple_bind; [by apply add_change_some|]. intros r. apply triple_pure.
  intros (cg & -> & Er). seq k.
  { apply triple_modify. intros s Hs. split; [done|]. cbn. apply add_victims_failed.
    rewrite Er. apply Exists_exists. exists (new_member k (left_failed reason)).
    split; [apply list_elem_of_fmap; by exists (k, reason)|]. by rewrite Hf. }
  seq k; [|seq k; [apply apply_changes_kept|by apply triple_ret]].
  branch; [|by apply triple_ret]. seq k; [by apply triple_gets|apply add_victims_init_kept].
Qed.

(** C5: A member that fails becomes a victim, and stays one on every node of the
    domain that has complete information until a victim_done message reports it
    dealt with or cman shows it as a member again, whatever else happens. *)
Theorem victim_not_forgotten c i ins s s1 s' members lefts joined k reason :
  in_ev i = EvConfchg members lefts joined -> (k, reason) ∈ lefts -> left_failed reason = true ->
  fd_init_complete (f_fd s) = true -> fd_leaving_group (f_fd s) = false ->
  (forall j, j ∈ joined -> j ∈ members) -> Forall (no_word_of k) (i :: ins) ->
  fstep c i s = Some s1 -> frun c ins s1 = Some s' ->
  is_victim (fd_victims (f_fd s')) k = true.
Proof.
  intros Ei Hin Hf Hic Hlv Hj Hno E1 E2. apply Forall_cons in Hno as [[Ht _] Hno].
  assert (HK : kept k s1).
  { unfold fstep in E1. rewrite Ei in E1. cbn [handler] in E1.
    match type of E1 with match ?m ?a ?b with _ => _ end = _ =>
      destruct (m a b) as [[[u s2] t2]|] eqn:Eh; [|done] end. simplify_eq.
    assert (HT := confchg_makes_victim c members lefts joined k reason Hin Hf Hj).
    eapply triple_bind with (f := fun _ => mret tt) (R := fun _ => kept k) in HT;
      [|intros ?; by apply triple_ret].
    by destruct (HT (set_now (in_now i) s) _ _ _ _ (conj Hic Hlv) Ht Eh). }
  cut (kept k s'); [by intros []|]. clear -Hno HK E2. revert s1 HK E2.
  induction Hno as [|j ins Hj Hno IH]; intros s1 HK E2; cbn in E2; [by simplify_eq|].
  destruct (fstep c j s1) as [s2|] eqn:E; [|done]. cbn in E2.
  eapply IH; [|done]. by eapply fstep_kept.
Qed.

(** ** The master fences before it reports *)

(** Changes of the history that leave the external fencing and the start
    of the nodes alone. *)
Lemma external_upd h j f k :
  (forall n, nh_nodeid (f n) = nh_nodeid n /\
     nh_fence_external_time (f n) = nh_fence_external_time n /\ nh_add_time (f n) = nh_add_time n) ->
  is_fenced_external (upd_history j f h) k = is_fenced_external h k.
Proof.
  intros Hf. unfold is_fenced_external, get_node_history. induction h as [|n h IH]; [done|]. cbn.
  destruct (Hf n) as (E1 & E2 & E3). destruct (nh_nodeid n =? j); cbn.
  - rewrite E1. destruct (nh_nodeid n =? k); [by rewrite E2, E3|done].
  - by destruct (nh_nodeid n =? k).
Qed.

Lemma external_init h j k :
  is_fenced_external h k = false -> is_fenced_external (node_history_init j h) k = false.
Proof.
  intros H. unfold node_history_init. destruct (get_node_history h j); [done|].
  unfold is_fenced_external, get_node_history in *. rewrite find_app.
  destruct (List.find _ h); [done|]. cbn. by destruct (j =? k).
Qed.

Lemma external_cluster now q nodes s k :
  is_fenced_external (fd_history (f_fd s)) k = false ->
  is_fenced_external (fd_history (f_fd (update_cluster_with now q nodes s))) k = false.
Proof.
  intros H. destruct nodes as [new|]; [|done]. cbn.
  assert (H1 : is_fenced_external (cluster_removed now (f_cman_nodes s) new (fd_history (f_fd s))) k
               = false).
  { unfold cluster_removed. revert H. generalize (fd_history (f_fd s)).
    induction (f_cman_nodes s) as [|p l IH]; intros h H; [done|]. cbn. apply IH.
    case_match; [|done]. unfold node_history_cluster_remove.
    by rewrite external_upd by (by intros []). }
  revert H1. unfold cluster_added. generalize (cluster_removed now (f_cman_nodes s) new (fd_history (f_fd s))).
  generalize (f_cman_nodes s). intros old. clear H. revert old.
  assert (HH : forall old l h, is_fenced_external h k = false ->
    is_fenced_external (foldl (fun h p => if (snd p : bool) && negb (is_member old (fst p))
      then node_history_cluster_add now (fst p) h else h) h l) k = false).
  { intros old l. induction l as [|p l IH]; intros h H; [done|]. cbn. apply IH.
    case_match; [|done]. unfold node_history_cluster_add.
    rewrite external_upd by (by intros []). by apply external_init. }
  intros old h H. by apply HH.
Qed.

Section Master.
Context (k : Z) (out0 : list effect).

(** The effects after the first ones, [out0]. *)
Definition new (s : fstate) : list effect := drop (length out0) (f_out s).
Definition fenced (s : fstate) : Prop := FenceNode k true ∈ new s.

Definition order_ok (l : list effect) : Prop :=
  forall a b fl sq fi ids, l = a ++ SendComplete fl sq fi ids :: b -> FenceNode k true ∈ a.

Definition ordered (s : fstate) : Prop := f_out s = out0 ++ new s /\ order_ok (new s).

(** [k] is a victim that is not done, and nobody else has fenced it. *)
Definition waiting (s : fstate) : Prop :=
  ordered s /\ is_fenced_external (fd_history (f_fd s)) k = false /\
  exists v, v ∈ fd_victims (f_fd s) /\ vn_nodeid v = k /\ vn_done v = false.

Definition dealt_with (s : fstate) : Prop := ordered s /\ fenced s.

(** No administrator gives up on a node, and [k] stays away. *)
Definition on_its_own (a : answer) : Prop := away k a /\ a <> A_override true.

Lemma order_snoc l e :
  order_ok l -> (forall fl sq fi ids, e = SendComplete fl sq fi ids -> FenceNode k true ∈ l) ->
  order_ok (l ++ [e]).
Proof.
  intros H He a b fl sq fi ids E. destruct b as [|x b _] using rev_ind.
  - apply app_inj_tail in E as [-> ->]. by eapply He.
  - rewrite app_comm_cons, app_assoc in E. apply app_inj_tail in E as [-> _]. by eapply H.
Qed.

Definition is_complete (e : effect) : bool :=
  match e with SendComplete _ _ _ _ => true | _ => false end.

(** What the operations do to the parts of the state that matter here. *)
Record frame (s s' : fstate) : Prop := {
  fr_out : exists es, f_out s' = f_out s ++ es /\ Forall (fun e => is_complete e = false) es;
  fr_ext : is_fenced_external (fd_history (f_fd s)) k = false ->
    is_fenced_external (fd_history (f_fd s')) k = false;
  fr_victim : forall v, v ∈ fd_victims (f_fd s) -> vn_nodeid v = k -> vn_done v = false ->
    v ∈ fd_victims (f_fd s')
}.

Lemma ordered_app s s' es :
  f_out s' = f_out s ++ es -> Forall (fun e => is_complete e = false) es -> ordered s ->
  ordered s' /\ (fenced s -> fenced s').
Proof.
  intros E He [Hn Ho]. assert (Hnew : new s' = new s ++ es).
  { unfold new at 1. by rewrite E, Hn, <- app_assoc, drop_app_length. }
  split; [split|].
  - by rewrite E, Hn, Hnew, <- app_assoc.
  - rewrite Hnew. clear Hnew E. revert Ho. generalize (new s). induction He as [|e es He _ IH];
      intros l Ho; [by rewrite app_nil_r|].
    replace (l ++ e :: es) with ((l ++ [e]) ++ es) by by rewrite <- app_assoc.
    apply IH, order_snoc; [done|]. intros ? ? ? ? ->. done.
  - unfold fenced. rewrite Hnew. intros H. apply elem_of_app. by left.
Qed.

Lemma waiting_frame s s' : frame s s' -> waiting s -> waiting s'.
Proof.
  intros [(es & E & He) Hx Hv] (Ho & Hext & v & Hin & Ek & Ed).
  destruct (ordered_app _ _ _ E He Ho) as [Ho' _].
  split; [done|]. split; [auto|]. exists v. auto.
Qed.

Lemma dealt_frame s s' : frame s s' -> dealt_with s -> dealt_with s'.
Proof.
  intros [(es & E & He) _ _] [Ho H]. destruct (ordered_app _ _ _ E He Ho) as [Ho' Hf].
  split; auto.
Qed.

(** An operation that only does what [frame] allows. *)
Definition framed {A} (m : M A) : Prop :=
  forall s t a s' t', Forall on_its_own t -> m s t = Some (a, s', t') ->
    frame s s' /\ Forall on_its_own t'.

Lemma frame_refl s : frame s s.
Proof. split; [exists []; by rewrite app_nil_r|done|done]. Qed.

Lemma frame_trans s1 s2 s3 : frame s1 s2 -> frame s2 s3 -> frame s1 s3.
Proof.
  intros [(e1 & E1 & H1) X1 V1] [(e2 & E2 & H2) X2 V2]. split; [|auto|auto].
  exists (e1 ++ e2). rewrite E2, E1, <- app_assoc. split; [done|by apply Forall_app].
Qed.

Lemma framed_bind {A B} (m : M A) (f : A -> M B) :
  framed m -> (forall a, framed (f a)) -> framed (mbind f m).
Proof.
  intros H1 H2 s t b s' t' HQ E. unfold mbind, M_bind in E.
  destruct (m s t) as [[[a s1] t1]|] eqn:E1; [|done].
  destruct (H1 _ _ _ _ _ HQ E1) as [F1 HQ1]. destruct (H2 _ _ _ _ _ _ HQ1 E) as [F2 HQ2].
  split; [by eapply frame_trans|done].
Qed.

Lemma framed_ret {A} (a : A) : framed (mret a).
Proof. intros s t a' s' t' HQ E. cbv in E. simplify_eq. split; [apply frame_refl|done]. Qed.
Lemma framed_gets {A} (f : fstate -> A) : framed (gets f).
Proof. intros s t a' s' t' HQ E. cbv in E. simplify_eq. split; [apply frame_refl|done]. Qed.
Lemma framed_tape : framed tape_length.
Proof. intros s t a' s' t' HQ E. unfold tape_length in E. simplify_eq. split; [apply frame_refl|done]. Qed.
Lemma framed_wrong {A} : framed (@wrong_answer A).
Proof. by intros s t a' s' t'. Qed.
Lemma framed_next : framed next_answer.
Proof.
  intros s t a' s' t' HQ E. destruct HQ as [|b t HQ HQs]; cbv in E; [done|]. simplify_eq.
  split; [apply frame_refl|done].
Qed.
Lemma framed_modify f : (forall s, frame s (f s)) -> framed (modify f).
Proof. intros H s t a' s' t' HQ E. unfold modify in E. simplify_eq. auto. Qed.
Lemma framed_emit e : is_complete e = false -> framed (emit e).
Proof.
  intros He. apply framed_modify. intros s. split; [|done|done]. exists [e]. split; [done|].
  by apply Forall_singleton.
Qed.
Lemma framed_upd_fd f :
  (forall d, (is_fenced_external (fd_history d) k = false ->
              is_fenced_external (fd_history (f d)) k = false) /\
     (forall v, v ∈ fd_victims d -> vn_nodeid v = k -> vn_done v = false -> v ∈ fd_victims (f d))) ->
  framed (upd_fd f).
Proof.
  intros H. apply framed_modify. intros s. destruct (H (f_fd s)) as [H1 H2].
  split; [exists []; by rewrite app_nil_r|done|done].
Qed.
Lemma framed_for_each {A} (f : A -> M unit) l : (forall x, framed (f x)) -> framed (for_each f l).
Proof.
  intros H. induction l as [|x l IH]; cbn; [apply framed_ret|by apply framed_bind].
Qed.

Lemma framed_triple {A} (P : fstate -> Prop) (m : M A) :
  (forall s s', frame s s' -> P s -> P s') -> framed m -> triple on_its_own P m (fun _ => P).
Proof. intros HP H s t a s' t' Hs HQ E. destruct (H _ _ _ _ _ HQ E). eauto. Qed.

Lemma framed_reread j : framed (is_cluster_member_reread j).
Proof.
  apply framed_bind; [|intros ?; apply framed_gets]. apply framed_bind; [apply framed_next|].
  intros []; try apply framed_wrong. apply framed_modify. intros s. split.
  - exists []. rewrite app_nil_r. by destruct nodes.
  - apply external_cluster.
  - destruct (update_cluster_with_fd now quorate nodes s) as [_ ->]. done.
Qed.

(** [k] is not seen as a member. *)
Lemma reread_away s t m s' t' :
  Forall on_its_own t -> is_cluster_member_reread k s t = Some (m, s', t') -> m = false.
Proof.
  intros HQ E. destruct HQ as [|a t [Ha _] HQ]; [done|]. cbv [is_cluster_member_reread update_cluster
    next_answer mbind M_bind gets modify] in E. destruct a; try done. cbn in E.
  destruct nodes; cbn in *; by simplify_eq.
Qed.

Lemma framed_clean c j : framed (is_clean_daemon_member c j).
Proof.
  apply framed_bind; [apply framed_next|]. intros []; try apply framed_wrong.
  apply framed_bind; [|intros ?; apply framed_gets]. apply framed_modify. intros s.
  split; [|by rewrite daemon_dispatch_fd|by rewrite daemon_dispatch_fd].
  revert s. induction evs as [|e evs IH]; intros s; [exists []; by rewrite app_nil_r|]. cbn.
  destruct (IH (daemon_dispatch c s e)) as (es & -> & He).
  assert (H1 : exists es, f_out (daemon_dispatch c s e) = f_out s ++ es /\
                     Forall (fun e => is_complete e = false) es).
  { destruct e as [ms js|j' p]; cbn.
    - destruct js; cbn; [exists []; by rewrite app_nil_r|].
      eexists. split; [done|by apply Forall_singleton].
    - unfold receive_protocol. destruct (p_max p) as [[[m0 m1] m2] m3], (p_run p) as [[[r0 r1] r2] r3].
      repeat case_match; cbn; first [by exists []; rewrite app_nil_r|
        eexists; split; [done|by apply Forall_singleton]]. }
  destruct H1 as (es1 & -> & He1). exists (es1 ++ es). rewrite <- app_assoc.
  split; [done|by apply Forall_app].
Qed.

Lemma framed_victim_done c j how : framed (victim_done c j how).
Proof.
  apply framed_bind; [apply framed_gets|]. intros now. apply framed_bind.
  - apply framed_upd_fd. intros d. split; [|done]. cbn. unfold node_history_fence.
    by rewrite external_upd by (by intros []).
  - intros ?. apply framed_bind; [apply framed_gets|]. intros d.
    destruct (fd_changes d); [apply framed_wrong|].
    destruct (get_node_history _ _); [by apply framed_emit|apply framed_ret].
Qed.

Lemma remove_victim_elem j v l : v ∈ l -> vn_nodeid v <> j -> v ∈ remove_victim j l.
Proof.
  intros Hv Hne. induction l as [|u l IH]; [done|]. cbn. apply elem_of_cons in Hv as [->|Hv].
  - rewrite (proj2 (Z.eqb_neq _ _)) by done. left.
  - case_match; [done|]. right. by apply IH.
Qed.

Lemma framed_reduce_victim c j : framed (reduce_victim c j).
Proof.
  destruct (decide (j = k)) as [->|Hne].
  - intros s t a s' t' HQ E. unfold reduce_victim, mbind, M_bind in E.
    destruct (is_cluster_member_reread k s t) as [[[m s1] t1]|] eqn:E1; [|done].
    destruct (framed_reread k _ _ _ _ _ HQ E1) as [F HQ1].
    rewrite (reread_away _ _ _ _ _ HQ E1) in E. cbv in E. by simplify_eq.
  - apply framed_bind; [apply framed_reread|]. intros m. apply framed_bind.
    + destruct m; [apply framed_clean|apply framed_ret].
    + intros []; [|apply framed_ret]. apply framed_bind; [apply framed_victim_done|]. intros ?.
      apply framed_upd_fd. intros d. split; [done|]. intros v Hv Ek _. cbn.
      apply remove_victim_elem; [done|]. congruence.
Qed.

Lemma framed_reduce_victims c : framed (reduce_victims c).
Proof.
  apply framed_bind; [apply framed_gets|]. intros vs. apply framed_bind; [|intros ?; apply framed_gets].
  apply framed_for_each. apply framed_reduce_victim.
Qed.

Lemma framed_delay c nj : framed (delay_fencing c nj).
Proof.
  apply framed_bind; [apply framed_gets|]. intros [|v vs]; [apply framed_ret|].
  cbv zeta. generalize (if nj then cfgd_post_join_delay c else cfgd_post_fail_delay c). intros de0.
  destruct (de0 =? 0); [apply framed_ret|]. apply framed_bind; [apply framed_gets|]. intros now.
  apply framed_bind; [apply framed_tape|]. intros len.
  match goal with |- framed (delay_loop c ?f ?st ?la ?de) => generalize f, st, la, de end.
  intros f. induction f as [|f IH]; intros st la de; cbn; [apply framed_wrong|].
  apply framed_bind; [apply framed_reduce_victims|]. intros count.
  apply framed_bind; [apply framed_gets|]. intros now'.
  destruct (count =? 0)%nat; [apply framed_ret|].
  match goal with |- framed (if ?b then _ else _) => destruct b; [apply IH|] end.
  match goal with |- framed (if ?b then _ else _) => destruct b; [apply framed_ret|apply IH] end.
Qed.

(** An operation that reports nothing complete. *)
Definition quiet {A} (m : M A) : Prop :=
  triple on_its_own dealt_with m (fun _ => dealt_with).

Lemma framed_quiet {A} (m : M A) : framed m -> quiet m.
Proof. apply framed_triple. apply dealt_frame. Qed.

Lemma quiet_bind {A B} (m : M A) (f : A -> M B) :
  quiet m -> (forall a, quiet (f a)) -> quiet (mbind f m).
Proof. intros H1 H2. by eapply triple_bind. Qed.

Lemma quiet_done c j how : quiet (set_victim_done j ;; victim_done c j how).
Proof.
  apply quiet_bind; [|intros ?; apply framed_quiet, framed_victim_done].
  apply triple_modify. intros s [Ho Hf]. done.
Qed.

Lemma fence_retry_quiet c fuel j : quiet (fence_retry c fuel j).
Proof.
  induction fuel as [|fuel IH]; cbn; [apply triple_wrong|].
  apply quiet_bind; [by apply framed_quiet, framed_upd_fd|]. intros u1.
  apply quiet_bind; [apply framed_quiet, framed_reread|]. intros m.
  apply quiet_bind; [apply framed_quiet, framed_clean|]. intros cl.
  apply quiet_bind; [apply framed_quiet, framed_gets|]. intros ext.
  branch; [apply quiet_done|]. apply quiet_bind; [apply framed_quiet, framed_next|]. intros a.
  branch; try apply triple_wrong. apply quiet_bind; [by apply framed_quiet, framed_emit|]. intros u2.
  branch; [apply quiet_done|]. branch; [apply IH|].
  apply quiet_bind; [apply framed_quiet, framed_next|]. intros o.
  branch; try apply triple_wrong. branch; [apply quiet_done|apply IH].
Qed.

(** Fencing another victim. *)
Lemma framed_done c j how : j <> k -> framed (set_victim_done j ;; victim_done c j how).
Proof.
  intros Hne. apply framed_bind; [|intros ?; apply framed_victim_done].
  apply framed_upd_fd. intros d. split; [done|]. intros v Hv Ek _. cbn.
  apply list_elem_of_fmap. exists v. split; [|done].
  by rewrite (proj2 (Z.eqb_neq _ _)) by congruence.
Qed.

Lemma framed_fence_retry c fuel j : j <> k -> framed (fence_retry c fuel j).
Proof.
  intros Hne. induction fuel as [|fuel IH]; cbn; [apply framed_wrong|].
  apply framed_bind; [by apply framed_upd_fd|]. intros u3.
  apply framed_bind; [apply framed_reread|]. intros m.
  apply framed_bind; [apply framed_clean|]. intros cl.
  apply framed_bind; [apply framed_gets|]. intros ext.
  destruct (_ || _); [by apply framed_done|]. apply framed_bind; [apply framed_next|]. intros a.
  destruct a; try apply framed_wrong. apply framed_bind; [by apply framed_emit|]. intros u4.
  destruct ok; [by apply framed_done|]. destruct (negb _); [apply IH|].
  apply framed_bind; [apply framed_next|]. intros o.
  destruct o; try apply framed_wrong. destruct ok; [by apply framed_done|apply IH].
Qed.

(** Fencing [k] itself: it ends only when the agents succeed. *)
Lemma fence_retry_fences c fuel :
  triple on_its_own waiting (fence_retry c fuel k) (fun _ => dealt_with).
Proof.
  induction fuel as [|fuel IH]; cbn; [apply triple_wrong|].
  eapply triple_bind; [apply framed_triple; [apply waiting_frame|by apply framed_upd_fd]|]. intros u5.
  eapply triple_bind with (S := fun m s => waiting s /\ m = false).
  { intros s t m s' t' Hw HQ E. destruct (framed_reread k _ _ _ _ _ HQ E) as [F HQ'].
    split; [|done]. split; [by eapply waiting_frame|exact (reread_away _ _ _ _ _ HQ E)]. }
  intros m. apply triple_pure. intros ->. cbn [andb].
  eapply triple_bind; [apply framed_triple; [apply waiting_frame|apply framed_clean]|]. intros cl.
  eapply triple_bind with (S := fun ext s => waiting s /\ ext = false).
  { apply triple_gets. intros s Hw. split; [done|]. by destruct Hw as (_ & ? & _). }
  intros ext. apply triple_pure. intros ->. cbn [orb].
  eapply triple_bind; [apply framed_triple; [apply waiting_frame|apply framed_next]|]. intros a.
  destruct a; try apply triple_wrong. destruct ok.
  - eapply triple_bind with (S := fun _ => dealt_with); [|intros ?; apply quiet_done].
    apply triple_modify. intros s (Ho & _). unfold dealt_with.
    destruct (ordered_app s (f_emit s (FenceNode k true)) [FenceNode k true] eq_refl) as [Ho' _];
      [by apply Forall_singleton|done|]. split; [done|].
    unfold fenced, new. cbn. destruct Ho as [Hn _].
    rewrite Hn, <- app_assoc, drop_app_length. apply elem_of_app. right. left.
  - eapply triple_bind; [apply framed_triple; [apply waiting_frame|by apply framed_emit]|]. intros u6.
    branch; [apply IH|]. eapply triple_bind with (S := fun o s => waiting s /\ o <> A_override true).
    { apply triple_next. intros o s [_ Ho] Hw. done. }
    intros o. apply triple_pure. intros Hno. destruct o; try apply triple_wrong.
    destruct ok; [done|apply IH].
Qed.

Lemma for_each_fences c vs :
  (exists v, v ∈ vs /\ vn_nodeid v = k /\ vn_done v = false) ->
  triple on_its_own waiting (for_each (fence_victim c) vs) (fun _ => dealt_with).
Proof.
  assert (Hq : forall vs, quiet (for_each (fence_victim c) vs)).
  { intros l. apply triple_for_each. intros v _. unfold fence_victim.
    branch; [by apply triple_ret|].
    apply quiet_bind; [apply framed_quiet, framed_tape|]. intros len. apply fence_retry_quiet. }
  induction vs as [|v vs IH]; intros (w & Hw & Ek & Ed); [by apply not_elem_of_nil in Hw|]. cbn.
  destruct (decide (vn_nodeid v = k /\ vn_done v = false)) as [[Ev Dv]|Hn].
  - eapply triple_bind with (S := fun _ => dealt_with); [|intros ?; apply Hq].
    unfold fence_victim. rewrite Dv, Ev.
    eapply triple_bind; [apply framed_triple; [apply waiting_frame|apply framed_tape]|]. intros len.
    apply fence_retry_fences.
  - eapply triple_bind with (S := fun _ => waiting).
    + apply framed_triple; [apply waiting_frame|]. unfold fence_victim.
      destruct (vn_done v) eqn:Dv; [apply framed_ret|].
      apply framed_bind; [apply framed_tape|]. intros len. apply framed_fence_retry. tauto.
    + intros ?. apply IH. exists w. apply elem_of_cons in Hw as [->|Hw]; [tauto|done].
Qed.

Lemma fence_victims_fences c : triple on_its_own waiting (fence_victims c) (fun _ => dealt_with).
Proof.
  unfold fence_victims. eapply triple_bind with (S := fun vs s => waiting s /\
    exists v, v ∈ vs /\ vn_nodeid v = k /\ vn_done v = false).
  { apply triple_gets. intros s Hw. split; [done|]. by destruct Hw as (_ & _ & ?). }
  intros vs. apply triple_pure. intros Hv. eapply triple_bind; [by apply for_each_fences|].
  intros ?. by apply framed_quiet, framed_upd_fd.
Qed.
End Master.

Lemma framed_check_quorum k ks w : framed k (check_quorum_loop ks w).
Proof.
  revert w. induction ks as [|j ks IH]; intros w; cbn; [apply framed_ret|].
  apply framed_bind; [apply framed_gets|]. intros h. branch; [|apply IH]. branch; [apply IH|].
  apply framed_bind; [apply framed_reread|]. intros m. branch; [|apply IH].
  apply framed_bind; [|intros ?; apply IH]. apply framed_upd_fd. intros d. split; [|done]. cbn.
  by rewrite external_upd by (by intros []).
Qed.

Lemma framed_conditions k : framed k wait_conditions_done.
Proof.
  apply framed_bind; [apply framed_gets|]. intros ks.
  apply framed_bind; [apply framed_check_quorum|]. intros w.
  branch; [apply framed_ret|apply framed_gets].
Qed.

Lemma framed_head_state k st : framed k (upd_fd (set_head_state st)).
Proof.
  apply framed_upd_fd. intros d. unfold set_head_state. by destruct (fd_changes d).
Qed.

Lemma apply_changes_ordered k out0 c :
  triple (on_its_own k) (waiting k out0) (apply_changes c) (fun _ => ordered k out0).
Proof.
  pose proof (waiting_frame k out0) as WF. pose proof (dealt_frame k out0) as DF.
  assert (WO : forall s, waiting k out0 s -> ordered k out0 s) by (by intros s []).
  unfold apply_changes.
  eapply triple_bind; [apply (framed_triple k _ _ WF), framed_gets|]. intros d.
  branch; [apply triple_ret; by auto|]. branch; [| |apply triple_ret; by auto].
  - eapply triple_bind; [apply (framed_triple k _ _ WF), framed_conditions|]. intros ready.
    branch; [|apply triple_ret; by auto]. 
    eapply triple_weaken with (P := waiting k out0) (R := fun _ => waiting k out0);
      [|done|intros _; exact WO].
    apply (framed_triple k _ _ WF). apply framed_bind; [|intros ?; apply framed_head_state].
    apply framed_bind; [apply framed_gets|]. intros d'. by apply framed_emit.
  - branch; [|apply triple_ret; by auto].
    eapply triple_bind; [apply (framed_triple k _ _ WF), framed_modify|].
    { intros s. unfold set_stateful. destruct (p_run (f_protocol s)) as [[[? ?] ?] ?].
      split; [exists []; by rewrite app_nil_r|done|done]. }
    intros u1. eapply triple_bind; [by apply (framed_triple k _ _ WF), framed_upd_fd|]. intros u2.
    eapply triple_bind; [apply (framed_triple k _ _ WF), framed_head_state|]. intros u3.
    eapply triple_bind; [apply (framed_triple k _ _ WF), framed_gets|]. intros master.
    eapply triple_bind with (S := fun _ => ordered k out0).
    + branch; [|apply triple_ret; by auto].
      eapply triple_bind; [apply (framed_triple k _ _ WF), framed_delay|]. intros u4.
      eapply triple_bind; [apply fence_victims_fences|]. intros u5.
      eapply triple_bind with (S := fun _ => ordered k out0); [|intros ?; by apply triple_modify].
      eapply triple_bind; [apply (framed_triple k _ _ DF), framed_gets|]. intros d'.
      apply triple_modify. intros s [[E1 E2] Hf]. split; unfold new in *; cbn.
      * by rewrite E1, <- app_assoc, !drop_app_length.
      * rewrite E1, <- app_assoc, drop_app_length. apply order_snoc; [done|]. done.
    + intros u6. eapply triple_bind with (S := fun _ => ordered k out0); [|intros ?; by apply triple_modify].
      apply triple_modify. intros s Ho. done.
Qed.

(** C10: The master reports a change complete only after the agents have
    succeeded on every victim that is still to be dealt with, that cman does not
    show as a member meanwhile, that nobody else has fenced and that no
    administrator has given up on. *)
Theorem complete_after_fencing c k v s t s' t' :
  v ∈ fd_victims (f_fd s) -> vn_nodeid v = k -> vn_done v = false ->
  is_fenced_external (fd_history (f_fd s)) k = false ->
  Forall (on_its_own k) t -> apply_changes c s t = Some (tt, s', t') ->
  exists es, f_out s' = f_out s ++ es /\
    forall a b fl sq fi ids, es = a ++ SendComplete fl sq fi ids :: b -> FenceNode k true ∈ a.
Proof.
  intros Hv Ek Ed Hx HQ E.
  assert (Hnil : new (f_out s) s = []) by apply drop_all.
  assert (Hw : waiting k (f_out s) s).
  { split; [|split; [done|by exists v]]. split; [by rewrite Hnil, app_nil_r|]. rewrite Hnil.
    intros a b fl sq fi ids El. by apply app_cons_not_nil in El. }
  destruct (apply_changes_ordered k (f_out s) c _ _ _ _ _ Hw HQ E) as [[E1 E2] _].
  by exists (new (f_out s) s').
Qed.

(** ** The choice of the master *)

Definition complete_member (m : member) : Prop :=
  Z.land (mb_start_flags m) FD_MFLG_COMPLETE <> 0.

(** The fold of [set_master] finds the lowest id. *)
Lemma low_of_fold (P : member -> bool) l a :
  0 <= a -> Forall (fun m => 0 < mb_nodeid m) l ->
  let r := foldl (fun a m => if negb (P m) then a else low_of a (mb_nodeid m)) a l in
  (r = 0 <-> a = 0 /\ Forall (fun m => P m = false) l) /\ 0 <= r /\
  (0 < a -> r <= a) /\ (forall m, m ∈ l -> P m = true -> r <= mb_nodeid m) /\
  (r = a \/ exists m, m ∈ l /\ P m = true /\ mb_nodeid m = r).
Proof.
  revert a. induction l as [|m l IH]; intros a Ha Hl; cbn.
  { split; [rewrite Forall_nil; tauto|]. split; [done|]. split; [lia|].
    split; [intros m Hm; by apply not_elem_of_nil in Hm|by left]. }
  apply Forall_cons in Hl as [Hm Hl]. set (a' := if negb (P m) then a else low_of a (mb_nodeid m)).
  assert (Ha' : 0 <= a' /\ (a' = 0 <-> a = 0 /\ P m = false) /\ (0 < a -> a' <= a) /\
    (P m = true -> a' <= mb_nodeid m) /\ (a' = a \/ P m = true /\ mb_nodeid m = a')).
  { unfold a', low_of. destruct (P m); cbn; [|split; [lia|split; [tauto|split; [lia|split; [done|by left]]]]].
    destruct (Z.eqb_spec a 0), (Z.ltb_spec (mb_nodeid m) a); cbn;
      (split; [lia|]); (split; [split; [lia|intros [_ ?]; done]|]); (split; [lia|]);
      (split; [lia|]); auto. }
  destruct Ha' as (H0 & Hz & Hle & Hpm & Hor). destruct (IH a' H0 Hl) as (I1 & I2 & I3 & I4 & I5).
  split; [rewrite I1, Hz, Forall_cons; tauto|]. split; [done|]. split; [intros; assert (0 < a') by lia; lia|].
  assert (Hpos : P m = true -> 0 < a') by (intros Hp; destruct (decide (a' = 0)) as [E|]; [|lia];
    apply Hz in E as [_ E]; congruence).
  split.
  - intros m' Hm' Hp. apply elem_of_cons in Hm' as [->|Hm']; [|by apply I4].
    specialize (Hpm Hp). specialize (Hpos Hp). lia.
  - destruct I5 as [E|(m' & Hm' & Hp & E)]; [|right; exists m'; split; [by right|done]].
    rewrite E. destruct Hor as [->|[Hp E2]]; [by left|]. right. exists m. split; [left|done].
Qed.

(** The lowest of the members that have complete information, or of all when
    none has. *)
Definition is_master (l : list member) (m : member) : Prop :=
  m ∈ l /\
  ((exists m', m' ∈ l /\ complete_member m') ->
    complete_member m /\ forall m', m' ∈ l -> complete_member m' -> mb_nodeid m <= mb_nodeid m') /\
  ((forall m', m' ∈ l -> ~ complete_member m') -> forall m', m' ∈ l -> mb_nodeid m <= mb_nodeid m').

Lemma set_master_spec l :
  l <> [] -> Forall (fun m => 0 < mb_nodeid m) l ->
  exists m, is_master l m /\ mb_nodeid m = set_master_of l.
Proof.
  intros Hne Hpos. pose (P := fun m => c_true (Z.land (mb_start_flags m) FD_MFLG_COMPLETE)).
  assert (HP : forall m, P m = true <-> complete_member m).
  { intros m. unfold P, c_true, complete_member. rewrite negb_true_iff. apply Z.eqb_neq. }
  pose proof (low_of_fold P l 0 (Z.le_refl 0) Hpos) as (C1 & C2 & _ & C4 & C5).
  pose proof (low_of_fold (fun _ => true) l 0 (Z.le_refl 0) Hpos) as (L1 & L2 & _ & L4 & L5).
  cbn [negb] in L1, L2, L4, L5. unfold set_master_of. cbv zeta. fold P in C1, C2, C4, C5.
  change (foldl (fun a m => if negb (c_true (Z.land (mb_start_flags m) FD_MFLG_COMPLETE)) then a
            else low_of a (mb_nodeid m)) 0 l)
    with (foldl (fun a m => if negb (P m) then a else low_of a (mb_nodeid m)) 0 l).
  revert C1 C2 C4 C5 L1 L2 L4 L5.
  generalize (foldl (fun a m => if negb (P m) then a else low_of a (mb_nodeid m)) 0 l) as cpl.
  generalize (foldl (fun a m => low_of a (mb_nodeid m)) 0 l) as low. intros low cpl.
  intros C1 C2 C4 C5 L1 L2 L4 L5. unfold c_true. destruct (Z.eqb_spec cpl 0) as [E|E]; cbn.
  - apply C1 in E as [_ Hnone]. rewrite Forall_forall in Hnone.
    destruct L5 as [E|(m & Hm & _ & Em)].
    { apply L1 in E as [_ E]. destruct l as [|x l]; [done|]. by apply Forall_cons in E as [E _]. }
    exists m. split; [|done]. split; [done|]. split.
    + intros (m' & Hm' & Hc). apply HP in Hc. by rewrite Hnone in Hc.
    + intros _ m' Hm'. rewrite Em. by apply L4.
  - destruct C5 as [?|(m & Hm & Hp & Em)]; [done|]. exists m. split; [|done]. split; [done|]. split.
    + intros _. split; [by apply HP|]. intros m' Hm' Hc. rewrite Em. by apply C4, HP.
    + intros Hn. exfalso. by apply (Hn m Hm), HP.
Qed.

#[export] Instance complete_member_dec m : Decision (complete_member m).
Proof. unfold complete_member. apply _. Defined.

Lemma is_master_unique l m1 m2 : is_master l m1 -> is_master l m2 -> mb_nodeid m1 = mb_nodeid m2.
Proof.
  intros (H1 & C1 & L1) (H2 & C2 & L2).
  destruct (decide (Exists complete_member l)) as [He|He].
  - apply Exists_exists in He. destruct (C1 He) as [D1 M1], (C2 He) as [D2 M2].
    specialize (M1 m2 H2 D2). specialize (M2 m1 H1 D1). lia.
  - assert (Hn : forall m', m' ∈ l -> ~ complete_member m').
    { intros m' Hm' Hc. apply He, Exists_exists. eauto. }
    specialize (L1 Hn m2 H2). specialize (L2 Hn m1 H1). lia.
Qed.

(** The master is the member with the lowest id among those that have
    complete information, or the lowest member when none has; members that have
    seen the same start messages, in whatever order, choose the same one. *)
Theorem set_master_agreed l l' :
  l <> [] -> Forall (fun m => 0 < mb_nodeid m) l -> (forall m, m ∈ l <-> m ∈ l') ->
  (exists m, is_master l m /\ mb_nodeid m = set_master_of l) /\
  set_master_of l' = set_master_of l.
Proof.
  intros Hne Hpos Heq. destruct (set_master_spec l Hne Hpos) as (m & Hm & Em).
  split; [by exists m|]. destruct (set_master_spec l') as (m' & Hm' & Em').
  - intros ->. apply (not_elem_of_nil m), Heq, Hm.
  - apply Forall_forall. intros x Hx. rewrite Forall_forall in Hpos. by apply Hpos, Heq.
  - rewrite <- Em, <- Em'. apply (is_master_unique l); [|done].
    unfold is_master in *. setoid_rewrite Heq. done.
Qed.

Lemma set_master_agreed_witness :
  let a := mkMemb 1 true false false false 0 in
  let b := mkMemb 2 true false false false FD_MFLG_COMPLETE in
  let c := mkMemb 3 true false false false FD_MFLG_COMPLETE in
  set_master_of [c; a; b] = set_master_of [a; b; c] /\ set_master_of [a; b; c] = 2.
Proof.
  intros a b c. split; [|reflexivity]. apply (set_master_agreed [a; b; c] [c; a; b]).
  - done.
  - repeat (apply Forall_cons_2; [cbn; lia|]). apply Forall_nil_2.
  - intros m. rewrite !elem_of_cons. tauto.
Defined.

(** ** Two defects *)

(** Node 2 joins the domain of nodes 1 and 3.  While node 1 works on the change,
    node 3 fails; then the message arrives in which node 1 reports the first
    change complete, and node 1 fails in its turn. *)
Definition cfg2 : config := mkCfg 2 0 0 false.

Definition joining_fd : fd :=
  mkFd 0 0 None [] (foldl (fun h k => node_history_init k h) [] [1; 2; 3]) false false 0 true false 0 []
    [mkNode 3 false false; mkNode 2 false false; mkNode 1 false false].

Definition joining_state : fstate :=
  mkFs joining_fd [] [] (mkProto (1, 1, 1, 0) (1, 1, 1, 0)) true 1 [] 1 [].

Definition member_ids (ks : list Z) : list id_info :=
  map (fun k => mkId k (if existsb (Z.eqb k) ks then IDI_NODEID_IS_MEMBER else 0) 0 0 0 0 0) [1; 2; 3].

Definition start_from (k flags started : Z) (counts : Z * Z * Z * Z) (ks : list Z) : fevent :=
  let '(m, j, r, f) := counts in
  EvDeliver k (mkHdr (1, 1) k flags 0) (PStart (mkFi started m j r f) (member_ids ks)).

Definition seen (t : Z) (ks : list Z) : answer := A_nodes t true (Some (map (fun k => (k, true)) ks)).

Definition before_failure : list finput :=
  [mkIn 10 (EvConfchg [1; 2; 3] [] [2]) [seen 10 [1; 2; 3]; seen 10 [1; 2; 3]; seen 10 [1; 2; 3]];
   mkIn 11 (start_from 1 FD_MFLG_COMPLETE 1 (3, 1, 0, 0) [1; 2; 3]) [];
   mkIn 11 (start_from 2 FD_MFLG_JOINING 0 (3, 1, 0, 0) [1; 2; 3]) [];
   mkIn 12 (start_from 3 FD_MFLG_COMPLETE 1 (3, 1, 0, 0) [1; 2; 3]) []].

Definition after_failure : list finput :=
  [mkIn 20 (EvConfchg [1; 2] [(3, CPG_REASON_NODEDOWN)] []) [seen 20 [1; 2]];
   mkIn 21 (EvDeliver 1 (mkHdr (1, 1) 1 FD_MFLG_COMPLETE 0)
              (PComplete (mkFi 2 3 1 0 0) (member_ids [1; 2; 3]))) [];
   mkIn 22 (start_from 2 0 1 (2, 0, 1, 1) [1; 2]) [];
   mkIn 30 (EvConfchg [2] [(1, CPG_REASON_NODEDOWN)] []) [seen 30 [2]];
   mkIn 31 (start_from 2 FD_MFLG_COMPLETE 1 (1, 0, 1, 1) [2])
     [seen 31 [2]; A_daemon []; A_agent true];
   mkIn 32 (EvDeliver 2 (mkHdr (1, 1) 2 FD_MFLG_COMPLETE 0)
              (PVictimDone (mkId 1 0 0 2 VIC_DONE_AGENT 31 0))) []].

(** The nodes on which agents were run. *)
Definition fenced_nodes (out : list effect) : list Z :=
  omap (fun e => match e with FenceNode k _ => Some k | _ => None end) out.

(** [receive_complete] clears all victims of a node that has just joined,
    also one that failed after the change that is reported complete.  In this run
    nothing is heard of node 3 after its failure; node 2 ends as the
    master that has fenced node 1, with no change and no victim left, and node 3
    was never fenced. *)
Theorem complete_forgets_victim :
  exists s s', frun cfg2 before_failure joining_state = Some s /\ frun cfg2 after_failure s = Some s' /\
    fd_changes (f_fd s') = [] /\ fd_victims (f_fd s') = [] /\ fd_master (f_fd s') = 2 /\
    fenced_nodes (f_out s') = [1] /\ Forall (no_word_of 3) after_failure.
Proof.
  destruct (frun cfg2 before_failure joining_state) as [s|] eqn:E1; [|vm_compute in E1; discriminate].
  assert (E : exists s', frun cfg2 after_failure s = Some s' /\
    (fd_changes (f_fd s'), fd_victims (f_fd s'), fd_master (f_fd s'), fenced_nodes (f_out s'))
    = ([], [], 2, [1])).
  { vm_compute in E1. injection E1 as <-. eexists. split; vm_compute; reflexivity. }
  destruct E as (s' & E2 & E3). exists s, s'. split; [done|]. split; [done|].
  split; [congruence|]. split; [congruence|]. split; [congruence|]. split; [congruence|].
  unfold after_failure.
  repeat (apply Forall_cons_2; [split; [repeat (apply Forall_cons_2; [done|]); apply Forall_nil_2|done]|]).
  apply Forall_nil_2.
Qed.

(** A change that waits because cman still shows a failed node as a member
    is not taken up again when cman drops the node: [cman_callback] looks at the
    changes only when the cluster becomes quorate. *)
Theorem quorum_wait_not_resumed c s t s' t' :
  f_quorate s = true -> cman_statechange c s t = Some (tt, s', t') ->
  fd_changes (f_fd s') = fd_changes (f_fd s) /\ f_out s' = f_out s.
Proof.
  intros Hq E. unfold cman_statechange, update_cluster, mbind, M_bind, gets in E.
  destruct t as [|a t]; [done|]. cbn in E. destruct a; try done. cbn in E.
  rewrite Hq in E. cbn in E. cbv [mret M_ret] in E. simplify_eq. by destruct nodes.
Qed.

(** The daemon of node 3 dies; cman removes the node later, and the condition that
    the change waits for holds, but nothing was sent. *)
Definition member_fd : fd :=
  mkFd 5 1 None [] (foldl (fun h k => node_history_init k h) [] [1; 2; 3]) true false 1 false false 0 [] [].
Definition member_state : fstate :=
  mkFs member_fd [] [] (mkProto (1, 1, 1, 0) (1, 1, 1, 1)) true 1 [(1, true); (2, true); (3, true)] 1 [].

Lemma quorum_wait_not_resumed_witness :
  exists s s' t', fstep cfg2 (mkIn 10 (EvConfchg [1; 2] [(3, CPG_REASON_PROCDOWN)] [])
                      [seen 10 [1; 2; 3]]) member_state = Some s /\
    cman_statechange cfg2 s [seen 15 [1; 2]] = Some (tt, s', t') /\
    fd_changes (f_fd s') = fd_changes (f_fd s) /\ f_out s' = f_out s /\
    map cg_st (fd_changes (f_fd s')) = [CGST_WAIT_CONDITIONS] /\
    (exists s2 t2, wait_conditions_done s' [seen 16 [1; 2]] = Some (true, s2, t2)).
Proof.
  destruct (fstep cfg2 _ member_state) as [s|] eqn:E1; [|vm_compute in E1; discriminate].
  vm_compute in E1. injection E1 as <-.
  match goal with |- exists s s' t', Some ?x = Some s /\ _ => exists x end.
  eexists _, _. split; [reflexivity|]. split; [vm_compute; reflexivity|].
  match goal with |- _ = fd_changes (f_fd ?s) /\ _ =>
    destruct (quorum_wait_not_resumed cfg2 s [seen 15 [1; 2]] _ _ eq_refl eq_refl) as [H1 H2] end.
  split; [exact H1|]. split; [exact H2|]. split; [reflexivity|].
  eexists _, _. vm_compute. reflexivity.
Defined.

(** Node 3 fails and nothing more is heard of it. *)
Definition failure_of_3 : finput :=
  mkIn 10 (EvConfchg [1; 2] [(3, CPG_REASON_NODEDOWN)] []) [seen 10 [1; 2]].
Definition own_start : finput := mkIn 11 (start_from 2 FD_MFLG_COMPLETE 1 (2, 0, 1, 1) [1; 2]) [].

Lemma victim_not_forgotten_witness :
  exists s1 s', fstep cfg2 failure_of_3 member_state = Some s1 /\ frun cfg2 [own_start] s1 = Some s' /\
    is_victim (fd_victims (f_fd s')) 3 = true.
Proof.
  destruct (fstep cfg2 failure_of_3 member_state) as [s1|] eqn:E1; [|vm_compute in E1; discriminate].
  assert (E2 : is_Some (frun cfg2 [own_start] s1)).
  { vm_compute in E1. injection E1 as <-. eexists. vm_compute. reflexivity. }
  destruct E2 as [s' E2]. exists s1, s'. split; [done|]. split; [done|].
  apply (victim_not_forgotten cfg2 failure_of_3 [own_start] member_state s1 s' [1; 2]
           [(3, CPG_REASON_NODEDOWN)] [] 3 CPG_REASON_NODEDOWN).
  - reflexivity.
  - left.
  - reflexivity.
  - reflexivity.
  - reflexivity.
  - intros j Hj. by apply not_elem_of_nil in Hj.
  - apply Forall_cons_2; [split; [|exact I]|apply Forall_cons_2; [split; [|exact I]|apply Forall_nil_2]].
    + apply Forall_cons_2; [reflexivity|apply Forall_nil_2].
    + apply Forall_nil_2.
  - exact E1.
  - exact E2.
Defined.

(** Node 2 is alone, has all start messages and node 1 as its victim. *)
Definition master_state : fstate :=
  mkFs (mkFd 6 1 None
          [mkCg [mkMemb 2 true false false false FD_MFLG_COMPLETE] [] 1 0 1 1 CGST_WAIT_MESSAGES false 6 9]
          (foldl (fun h k => node_history_init k h) [] [1; 2]) true false 1 false false 0
          [mkNode 1 false false] [])
    [] [] (mkProto (1, 1, 1, 0) (1, 1, 1, 1)) true 1 [(2, true)] 9 [].

Lemma complete_after_fencing_witness :
  exists s' t', apply_changes cfg2 master_state [seen 31 [2]; A_daemon []; A_agent true] = Some (tt, s', t') /\
    existsb is_complete (f_out s') = true /\
    exists es, f_out s' = [] ++ es /\
      forall a b fl sq fi ids, es = a ++ SendComplete fl sq fi ids :: b -> FenceNode 1 true ∈ a.
Proof.
  destruct (apply_changes cfg2 master_state [seen 31 [2]; A_daemon []; A_agent true]) as [[[[] s'] t']|] eqn:E;
    [|vm_compute in E; discriminate].
  exists s', t'. split; [done|]. split; [vm_compute in E; injection E as <- <-; reflexivity|].
  apply (complete_after_fencing cfg2 1 (mkNode 1 false false) master_state
           [seen 31 [2]; A_daemon []; A_agent true] s' t').
  - left.
  - reflexivity.
  - reflexivity.
  - reflexivity.
  - repeat (apply Forall_cons_2; [split; [done|discriminate]|]). apply Forall_nil_2.
  - exact E.
Defined.
