(* ===== verification/GfsMount.v ===== *)
(** * Mount groups of gfs_controld

    [src/group/gfs_controld/cpg-new.c]: the nodes that have mounted a GFS file system
    form a process group.  Every configuration change of the group is agreed on by
    start messages, which also carry the state a new node needs; then every node
    assigns journals to the new members, and the journals of failed nodes are
    recovered.  The file system is blocked on a node from the failure of another
    until all journals are recovered.

    The kernel, dlm_controld and mount.gfs are inputs and effects.  A reference
    through a null pointer, or to the first element of an empty list, gives [None].  Allocations succeed and messages have the
    sizes of this version; logging, names, queries and the choice of the protocol at
    startup are left out. *)

From S2P Require Import Prelude.
Open Scope Z_scope.

(** ** Data *)

Definition MAX_JOURNALS : Z := 256.
Definition JID_NONE : Z := -1.
Definition IDI_NODEID_IS_MEMBER : Z := 0x1.
Definition IDI_JID_NEEDS_RECOVERY : Z := 0x2.
Definition IDI_MOUNT_DONE : Z := 0x8.
Definition IDI_MOUNT_ERROR : Z := 0x10.
Definition IDI_MOUNT_RO : Z := 0x20.
Definition IDI_MOUNT_SPECTATOR : Z := 0x40.
Definition GFS_MFLG_JOINING : Z := 1.
Definition LM_RD_SUCCESS : Z := 309.
Definition CPG_REASON_NODEDOWN : Z := 3.
Definition CPG_REASON_PROCDOWN : Z := 5.

Record mg_info := mkMi {
  mi_started_count : Z;
  mi_member_count : Z;
  mi_joined_count : Z;
  mi_remove_count : Z;
  mi_failed_count : Z;
  mi_first_recovery_needed : bool;
  mi_first_recovery_master : Z
}.

Record id_info := mkId {
  id_nodeid : Z;
  id_jid : Z;
  id_flags : Z
}.

(** The body of a start message. *)
Record start_msg := mkStart {
  sm_info : mg_info;
  sm_ids : list id_info
}.

Record journal := mkJ {
  j_jid : Z;
  j_nodeid : Z;
  j_failed_nodeid : Z;
  j_needs_recovery : bool;
  j_local_recovery_done : bool;
  j_local_recovery_result : Z;
  j_failed_recovery_count : Z
}.

(** [struct node]; its [proto] belongs to the daemon group. *)
Record node := mkNode {
  nd_nodeid : Z;
  nd_jid : Z;
  nd_ro : bool;
  nd_spectator : bool;
  nd_kernel_mount_done : bool;
  nd_kernel_mount_error : bool;
  nd_check_dlm : bool;
  nd_dlm_notify_callback : bool;
  nd_dlm_notify_result : Z;
  nd_failed_reason : Z;
  nd_added_seq : Z;
  nd_removed_seq : Z;
  nd_add_time : Z;
  nd_withdraw : bool;
  nd_send_withdraw_ack : bool;
  nd_cluster_add_time : Z;
  nd_cluster_remove_time : Z
}.

(** [start_msg] and [mg_info] of [struct member] are set together. *)
Record member := mkMemb {
  mb_nodeid : Z;
  mb_start : bool;
  mb_added : bool;
  mb_failed : bool;
  mb_disallowed : bool;
  mb_start_msg : option start_msg
}.

(** The messages that a new node saves. *)
Inductive save_msg :=
  | SavedMountDone (nodeid result : Z)
  | SavedRecoveryResult (nodeid jid result : Z).

Inductive cg_state := CGST_WAIT_CONDITIONS | CGST_WAIT_MESSAGES.

Record change := mkCg {
  cg_members : list member;
  cg_removed : list member;
  cg_saved_messages : list save_msg;
  cg_member_count : Z;
  cg_joined_count : Z;
  cg_remove_count : Z;
  cg_failed_count : Z;
  cg_st : cg_state;
  cg_we_joined : bool;
  cg_seq : Z;
  cg_combined_seq : Z;
  cg_create_time : Z
}.

(** The fields of [struct mountgroup], in groups: the mount on this node, the first
    recovery of the file system, and the recovery that runs in the local kernel. *)
Record local_mount := mkLocal {
  lo_joining : bool;
  lo_leaving : bool;
  lo_kernel_stopped : bool;
  lo_kernel_mount_done : bool;
  lo_kernel_mount_error : Z;
  lo_mount_client_notified : bool;
  lo_first_mounter : bool;
  lo_ro : bool;
  lo_spectator : bool;
  lo_our_jid : Z;
  lo_withdraw_uevent : bool
}.

Record first_recovery := mkFirst {
  fr_done_uevent : bool;
  fr_needed : bool;
  fr_master : Z;
  fr_msg : bool
}.

(** [changes] has the latest change first, [journals] the latest journal. *)
Record mountgroup := mkMg {
  mg_local : local_mount;
  mg_first : first_recovery;
  mg_local_recovery_jid : Z;
  mg_local_recovery_busy : bool;
  mg_dlm_registered : bool;
  mg_dlm_notify_nodeid : Z;
  mg_change_seq : Z;
  mg_started_count : Z;
  mg_started_change : option change;
  mg_changes : list change;
  mg_node_history : list node;
  mg_journals : list journal
}.

(** What the daemon does: sysfs files of the file system, the answer to mount.gfs,
    messages, calls of dlm_controld, cman and libcpg. *)
Inductive effect :=
  | SysfsBlock (v : bool)
  | SysfsRecover (jid : Z)
  | SysfsWithdraw
  | ReplyJoin (jid : Z) (first : bool)
  | ReplyRemount (result : Z)
  | SendStart (seq flags : Z) (msg : start_msg)
  | SendMountDone (result : Z)
  | SendFirstRecoveryDone
  | SendRecoveryResult (jid result : Z)
  | SendRemount (ro : bool)
  | SendWithdraw
  | SendWithdrawAck (nodeid : Z)
  | DlmNotified (nodeid : Z)
  | DlmUnregister
  | KickNode (nodeid : Z)
  | CpgLeave.

(** The mount group exists, has been left and waits for the acknowledgement of its
    withdrawal, or is gone. *)
Inductive life := Alive | Withdrawn | Gone.

Record gstate := mkGs {
  s_mg : mountgroup;
  s_life : life;
  s_poll_dlm : bool;
  s_out : list effect
}.

(** The node and the protocol it runs; the time, and the results of the calls. *)
Record config := mkCfg {
  our_nodeid : Z;
  daemon_run : Z * Z
}.

Record env := mkEnv {
  v_now : Z;
  v_notified_ok : bool;
  v_recover_ok : bool;
  v_recover_done : option Z;
  v_recover_status : option Z;
  v_first_done : option Z
}.

(** ** A state monad; [None] is a reference through a bad pointer *)

Definition M (A : Type) : Type := gstate -> option (A * gstate).

#[export] Instance M_ret : MRet M := fun A a s => Some (a, s).
#[export] Instance M_bind : MBind M := fun A B f m s =>
  match m s with
  | Some (a, s') => f a s'
  | None => None
  end.

Definition get_mg : M mountgroup := fun s => Some (s_mg s, s).
Definition upd_mg (f : mountgroup -> mountgroup) : M unit :=
  fun s => Some (tt, mkGs (f (s_mg s)) (s_life s) (s_poll_dlm s) (s_out s)).
Definition set_life (l : life) : M unit :=
  fun s => Some (tt, mkGs (s_mg s) l (s_poll_dlm s) (s_out s)).
Definition set_poll_dlm (b : bool) : M unit :=
  fun s => Some (tt, mkGs (s_mg s) (s_life s) b (s_out s)).
Definition emit (e : effect) : M unit :=
  fun s => Some (tt, mkGs (s_mg s) (s_life s) (s_poll_dlm s) (s_out s ++ [e])).
Definition deref {A} (o : option A) : M A := fun s => a ← o; Some (a, s).

(** ** Updates of single fields *)

Definition set_local (g : mountgroup) (x : local_mount) : mountgroup :=
  let '(mkMg _ b c d e f h i j k l m) := g in mkMg x b c d e f h i j k l m.
Definition set_first (g : mountgroup) (x : first_recovery) : mountgroup :=
  let '(mkMg a _ c d e f h i j k l m) := g in mkMg a x c d e f h i j k l m.
Definition set_busy (g : mountgroup) (jid : Z) (busy : bool) : mountgroup :=
  let '(mkMg a b _ _ e f h i j k l m) := g in mkMg a b jid busy e f h i j k l m.
Definition set_registered (g : mountgroup) : mountgroup :=
  let '(mkMg a b c d _ f h i j k l m) := g in mkMg a b c d true f h i j k l m.
Definition set_notify (g : mountgroup) (x : Z) : mountgroup :=
  let '(mkMg a b c d e _ h i j k l m) := g in mkMg a b c d e x h i j k l m.
Definition set_change_seq (g : mountgroup) (x : Z) : mountgroup :=
  let '(mkMg a b c d e f _ i j k l m) := g in mkMg a b c d e f x i j k l m.
Definition set_started (g : mountgroup) (n : Z) (x : option change) : mountgroup :=
  let '(mkMg a b c d e f h _ _ k l m) := g in mkMg a b c d e f h n x k l m.
Definition set_changes (g : mountgroup) (x : list change) : mountgroup :=
  let '(mkMg a b c d e f h i j _ l m) := g in mkMg a b c d e f h i j x l m.
Definition set_history (g : mountgroup) (x : list node) : mountgroup :=
  let '(mkMg a b c d e f h i j k _ m) := g in mkMg a b c d e f h i j k x m.
Definition set_journals (g : mountgroup) (x : list journal) : mountgroup :=
  let '(mkMg a b c d e f h i j k l _) := g in mkMg a b c d e f h i j k l x.

Definition lo_set_leaving (x : local_mount) : local_mount :=
  let '(mkLocal a _ c d e f g h i j k) := x in mkLocal a true c d e f g h i j k.
Definition lo_set_stopped (v : bool) (x : local_mount) : local_mount :=
  let '(mkLocal a b _ d e f g h i j k) := x in mkLocal a b v d e f g h i j k.
Definition lo_set_joined (x : local_mount) : local_mount :=
  let '(mkLocal _ b c d e _ g h i j k) := x in mkLocal false b c d e true g h i j k.
Definition lo_set_mount_done (error : Z) (x : local_mount) : local_mount :=
  let '(mkLocal a b c _ _ f g h i j k) := x in mkLocal a b c true error f g h i j k.
Definition lo_set_first_mounter (x : local_mount) : local_mount :=
  let '(mkLocal a b c d e f _ h i j k) := x in mkLocal a b c d e f true h i j k.
Definition lo_set_ro (v : bool) (x : local_mount) : local_mount :=
  let '(mkLocal a b c d e f g _ i j k) := x in mkLocal a b c d e f g v i j k.
Definition lo_set_jid (v : Z) (x : local_mount) : local_mount :=
  let '(mkLocal a b c d e f g h i _ k) := x in mkLocal a b c d e f g h i v k.
Definition lo_set_withdraw (x : local_mount) : local_mount :=
  let '(mkLocal a b c d e f g h i j _) := x in mkLocal a b c d e f g h i j true.

Definition upd_local (f : local_mount -> local_mount) : M unit :=
  upd_mg (fun g => set_local g (f (mg_local g))).

Definition mb_set_start (x : start_msg) (m : member) : member :=
  mkMemb (mb_nodeid m) true (mb_added m) (mb_failed m) (mb_disallowed m) (Some x).
Definition mb_set_added (m : member) : member :=
  mkMemb (mb_nodeid m) (mb_start m) true (mb_failed m) (mb_disallowed m) (mb_start_msg m).
Definition mb_set_disallowed (m : member) : member :=
  mkMemb (mb_nodeid m) (mb_start m) (mb_added m) (mb_failed m) true (mb_start_msg m).

Definition cg_set_members (cg : change) (x : list member) : change :=
  let '(mkCg _ b c d e f g h i j k l) := cg in mkCg x b c d e f g h i j k l.
Definition cg_set_saved (cg : change) (x : list save_msg) : change :=
  let '(mkCg a b _ d e f g h i j k l) := cg in mkCg a b x d e f g h i j k l.
Definition cg_set_state (cg : change) (x : cg_state) : change :=
  let '(mkCg a b c d e f g _ i j k l) := cg in mkCg a b c d e f g x i j k l.
Definition cg_set_combined (cg : change) (x : Z) : change :=
  let '(mkCg a b c d e f g h i j _ l) := cg in mkCg a b c d e f g h i j x l.

Definition j_set_failed (j : journal) : journal :=
  mkJ (j_jid j) 0 (j_nodeid j) true (j_local_recovery_done j) (j_local_recovery_result j)
    (j_failed_recovery_count j).
Definition j_set_recovered (j : journal) : journal :=
  mkJ (j_jid j) (j_nodeid j) (j_failed_nodeid j) false (j_local_recovery_done j)
    (j_local_recovery_result j) (j_failed_recovery_count j).
Definition j_count_failed (j : journal) : journal :=
  mkJ (j_jid j) (j_nodeid j) (j_failed_nodeid j) (j_needs_recovery j) (j_local_recovery_done j)
    (j_local_recovery_result j) (j_failed_recovery_count j + 1).
Definition j_set_local (result : Z) (j : journal) : journal :=
  mkJ (j_jid j) (j_nodeid j) (j_failed_nodeid j) (j_needs_recovery j) true result
    (j_failed_recovery_count j).

(** ** Lists *)

Fixpoint find_memb_in (ms : list member) (nodeid : Z) : option member :=
  match ms with
  | [] => None
  | m :: ms' => if mb_nodeid m =? nodeid then Some m else find_memb_in ms' nodeid
  end.

Definition find_memb (cg : change) (nodeid : Z) : option member := find_memb_in (cg_members cg) nodeid.

Fixpoint upd_memb (ms : list member) (nodeid : Z) (f : member -> member) : list member :=
  match ms with
  | [] => []
  | m :: ms' => if mb_nodeid m =? nodeid then f m :: ms' else m :: upd_memb ms' nodeid f
  end.

Definition find_journal (js : list journal) (jid : Z) : option journal :=
  List.find (fun j => j_jid j =? jid) js.

Definition find_journal_by_nodeid (js : list journal) (nodeid : Z) : option journal :=
  List.find (fun j => j_nodeid j =? nodeid) js.

(** Update the first journal with a property. *)
Fixpoint upd_journal (p : journal -> bool) (f : journal -> journal) (js : list journal) : list journal :=
  match js with
  | [] => []
  | j :: js' => if p j then f j :: js' else j :: upd_journal p f js'
  end.

Fixpoint get_node_history (ns : list node) (nodeid : Z) : option node :=
  match ns with
  | [] => None
  | n :: ns' => if nd_nodeid n =? nodeid then Some n else get_node_history ns' nodeid
  end.

Fixpoint upd_node (ns : list node) (nodeid : Z) (f : node -> node) : list node :=
  match ns with
  | [] => []
  | n :: ns' => if nd_nodeid n =? nodeid then f n :: ns' else n :: upd_node ns' nodeid f
  end.

Fixpoint del_node (ns : list node) (nodeid : Z) : list node :=
  match ns with
  | [] => []
  | n :: ns' => if nd_nodeid n =? nodeid then ns' else n :: del_node ns' nodeid
  end.

(** ** The history of nodes *)

Definition node_zero (nodeid added_seq : Z) : node :=
  mkNode nodeid 0 false false false false false false 0 0 added_seq 0 0 false false 0 0.

(** An entry that exists is cleared; [seq] is that of the change, if one is given. *)
Definition node_history_init (ns : list node) (nodeid : Z) (seq : option Z) : list node :=
  del_node ns nodeid ++ [node_zero nodeid (default 0 seq)].

Definition nd_set_cluster_add (t : Z) (n : node) : node :=
  let '(mkNode a b c d e f g h i j k l m o p _ r) := n in mkNode a b c d e f g h i j k l m o p t r.
Definition nd_set_cluster_remove (t : Z) (n : node) : node :=
  let '(mkNode a b c d e f g h i j k l m o p q _) := n in mkNode a b c d e f g h i j k l m o p q t.
Definition nd_set_add_time (t : Z) (n : node) : node :=
  let '(mkNode a b c d e f g h i j k l _ o p q r) := n in mkNode a b c d e f g h i j k l t o p q r.
Definition nd_set_left (seq : Z) (n : node) : node :=
  let '(mkNode a b c d e f g h i j k _ _ o p q r) := n in mkNode a b c d e f g h i j k seq 0 o p q r.
Definition nd_set_failed (seq reason : Z) (n : node) : node :=
  let '(mkNode a b c d e f _ h i _ k _ m o p q r) := n in mkNode a b c d e f true h i reason k seq m o p q r.
Definition nd_set_dlm (check callback : bool) (result : Z) (n : node) : node :=
  let '(mkNode a b c d e f _ _ _ j k l m o p q r) := n in mkNode a b c d e f check callback result j k l m o p q r.
Definition nd_set_mount (done error : bool) (n : node) : node :=
  let '(mkNode a b c d _ _ g h i j k l m o p q r) := n in mkNode a b c d done error g h i j k l m o p q r.
Definition nd_set_jid (jid : Z) (n : node) : node :=
  let '(mkNode a _ c d e f g h i j k l m o p q r) := n in mkNode a jid c d e f g h i j k l m o p q r.
Definition nd_set_options (ro spectator : bool) (n : node) : node :=
  let '(mkNode a b _ _ e f g h i j k l m o p q r) := n in mkNode a b ro spectator e f g h i j k l m o p q r.
Definition nd_set_withdraw (n : node) : node :=
  let '(mkNode a b c d e f g h i j k l m _ p q r) := n in mkNode a b c d e f g h i j k l m true p q r.
Definition nd_set_ack (n : node) : node :=
  let '(mkNode a b c d e f g h i j k l m o _ q r) := n in mkNode a b c d e f g h i j k l m o true q r.

Definition node_history_cluster_add (ns : list node) (nodeid now : Z) : list node :=
  upd_node (node_history_init ns nodeid None) nodeid (nd_set_cluster_add now).
Definition node_history_cluster_remove (ns : list node) (nodeid now : Z) : list node :=
  upd_node ns nodeid (nd_set_cluster_remove now).
Definition node_history_start (ns : list node) (nodeid now : Z) : list node :=
  upd_node ns nodeid (nd_set_add_time now).
Definition node_history_left (ns : list node) (nodeid seq : Z) : list node :=
  upd_node ns nodeid (nd_set_left seq).
Definition node_history_fail (ns : list node) (nodeid seq reason : Z) : list node :=
  upd_node ns nodeid (nd_set_failed seq reason).

(** ** Which journals need recovery *)

Definition is_added (cgs : list change) (nodeid : Z) : bool :=
  existsb (fun cg => match find_memb cg nodeid with Some m => mb_added m | None => false end) cgs.

Definition is_withdraw (ns : list node) (nodeid : Z) : bool :=
  match get_node_history ns nodeid with
  | Some n => nd_withdraw n
  | None => false
  end.

(** The nodes that the changes remove and whose journals are dirty, in the order of
    the loops. *)
Definition dirty_removed (g : mountgroup) : list Z :=
  map mb_nodeid (List.filter (fun m => mb_failed m || is_withdraw (mg_node_history g) (mb_nodeid m))
    (concat (map cg_removed (mg_changes g)))).

Definition journals_need_recovery (g : mountgroup) : Z :=
  Z.of_nat (length (List.filter j_needs_recovery (mg_journals g))) +
  Z.of_nat (length (dirty_removed g)).

Section Mount.
Context (c : config) (v : env).

(** ** Stopping and starting the file system *)

Definition start_kernel : M unit :=
  g ← get_mg;
  if negb (lo_kernel_stopped (mg_local g)) then
    _ ← deref (mg_started_change g); mret tt
  else
    _ ← deref (mg_started_change g);
    emit (SysfsBlock false) ;;
    upd_local (lo_set_stopped false) ;;
    if lo_joining (mg_local g) then
      emit (ReplyJoin (lo_our_jid (mg_local g)) (lo_first_mounter (mg_local g))) ;;
      upd_local lo_set_joined
    else mret tt.

Definition stop_kernel : M unit :=
  g ← get_mg;
  if negb (lo_kernel_stopped (mg_local g)) then
    emit (SysfsBlock true) ;; upd_local (lo_set_stopped true)
  else mret tt.

(** ** The conditions before a start message *)

(** The loop of [check_dlm_notify_done]: the nodes, and what ended it. *)
Inductive notify_verdict := NotifyDone | NotifyRetry | NotifyAsk (nodeid : Z).

Fixpoint check_dlm_loop (ns : list node) : list node * notify_verdict :=
  match ns with
  | [] => ([], NotifyDone)
  | n :: ns' =>
      if negb (nd_check_dlm n) then
        let '(r, x) := check_dlm_loop ns' in (n :: r, x)
      else if nd_dlm_notify_callback n && (nd_dlm_notify_result n =? 0) then
        let '(r, x) := check_dlm_loop ns' in
        (nd_set_dlm false false (nd_dlm_notify_result n) n :: r, x)
      else if nd_dlm_notify_callback n then
        (nd_set_dlm true false (nd_dlm_notify_result n) n :: ns', NotifyRetry)
      else (n :: ns', NotifyAsk (nd_nodeid n))
  end.

Definition check_dlm_notify_done : M bool :=
  g ← get_mg;
  if c_true (mg_dlm_notify_nodeid g) then mret false
  else
    let '(ns, x) := check_dlm_loop (mg_node_history g) in
    upd_mg (fun g => set_history g ns) ;;
    match x with
    | NotifyDone => mret true
    | NotifyRetry => set_poll_dlm true ;; mret false
    | NotifyAsk nodeid =>
        emit (DlmNotified nodeid) ;;
        if v_notified_ok v then upd_mg (fun g => set_notify g nodeid) ;; mret false
        else mret false
    end.

Definition wait_conditions_done : M bool :=
  g ← get_mg;
  let lo := mg_local g in
  if negb (mg_dlm_registered g) then mret false
  else if fr_needed (mg_first g) then mret true
  else if mg_started_count g =? 0 then mret true
  else if journals_need_recovery g =? 0 then mret true
  else if negb (lo_mount_client_notified lo) then mret true
  else if lo_kernel_mount_done lo && c_true (lo_kernel_mount_error lo) then mret true
  else if negb (lo_kernel_mount_done lo) then mret false
  else stop_kernel ;; check_dlm_notify_done.

Definition wait_messages_done (cg : change) : bool := forallb mb_start (cg_members cg).

(** ** Start messages *)

Definition get_id_struct (ids : list id_info) (nodeid : Z) : option id_info :=
  List.find (fun i => id_nodeid i =? nodeid) ids.

Definition flag (f bit : Z) : bool := c_true (Z.land f bit).

Definition match_change (ns : list node) (cg : change) (nodeid : Z) (msg : start_msg) : bool :=
  let mi := sm_info msg in
  match get_id_struct (sm_ids msg) (our_nodeid c) with
  | None => false
  | Some id =>
      if negb (flag (id_flags id) IDI_NODEID_IS_MEMBER) then false
      else match find_memb cg nodeid with
      | None => false
      | Some memb =>
          if mb_start memb then false
          else match get_node_history ns nodeid with
          | None => false
          | Some n =>
              if nd_cluster_add_time n >? cg_create_time cg then false
              else if negb ((mi_member_count mi =? cg_member_count cg) &&
                            (mi_joined_count mi =? cg_joined_count cg) &&
                            (mi_remove_count mi =? cg_remove_count cg) &&
                            (mi_failed_count mi =? cg_failed_count cg)) then false
              else forallb (fun id => negb (flag (id_flags id) IDI_NODEID_IS_MEMBER) ||
                     match find_memb cg (id_nodeid id) with Some _ => true | None => false end)
                     (sm_ids msg)
          end
      end
  end.

(** The position in [changes] of the oldest change that matches. *)
Fixpoint find_change (ns : list node) (cgs : list change) (nodeid : Z) (msg : start_msg) : option nat :=
  match cgs with
  | [] => None
  | cg :: cgs' =>
      match find_change ns cgs' nodeid msg with
      | Some k => Some (S k)
      | None => if match_change ns cg nodeid msg then Some O else None
      end
  end.

Definition upd_change_memb (g : mountgroup) (k : nat) (nodeid : Z) (f : member -> member) : mountgroup :=
  match mg_changes g !! k with
  | Some cg => set_changes g (<[k := cg_set_members cg (upd_memb (cg_members cg) nodeid f)]> (mg_changes g))
  | None => g
  end.

Definition receive_start (nodeid : Z) (msg : start_msg) : M unit :=
  g ← get_mg;
  match find_change (mg_node_history g) (mg_changes g) nodeid msg with
  | None => mret tt
  | Some k =>
      if is_added (mg_changes g) nodeid && c_true (mi_started_count (sm_info msg)) &&
         c_true (mg_started_count g)
      then upd_mg (fun g => upd_change_memb g k nodeid mb_set_disallowed)
      else
        upd_mg (fun g => set_history g (node_history_start (mg_node_history g) nodeid (v_now v))) ;;
        upd_mg (fun g => upd_change_memb g k nodeid (mb_set_start msg))
  end.

Definition count_ids (g : mountgroup) (cg : change) : Z :=
  Z.of_nat (length (cg_members cg)) +
  Z.of_nat (length (List.filter j_needs_recovery (mg_journals g))) +
  Z.of_nat (length (List.filter (fun n => match find_journal_by_nodeid (mg_journals g) n with
                                          | Some _ => true | None => false end) (dirty_removed g))).

(** The entry of a member; none for an old member without history. *)
Definition member_id (g : mountgroup) (memb : member) : option id_info :=
  let nodeid := mb_nodeid memb in
  if (mg_started_count g =? 0) || is_added (mg_changes g) nodeid then
    let ours := (mg_started_count g =? 0) && (nodeid =? our_nodeid c) in
    Some (mkId nodeid JID_NONE
      (Z.lor IDI_NODEID_IS_MEMBER
        (Z.lor (if ours && lo_ro (mg_local g) then IDI_MOUNT_RO else 0)
               (if ours && lo_spectator (mg_local g) then IDI_MOUNT_SPECTATOR else 0))))
  else
    n ← get_node_history (mg_node_history g) nodeid;
    Some (mkId nodeid (nd_jid n)
      (Z.lor IDI_NODEID_IS_MEMBER
        (Z.lor (if nd_ro n then IDI_MOUNT_RO else 0)
        (Z.lor (if nd_spectator n then IDI_MOUNT_SPECTATOR else 0)
        (Z.lor (if nd_kernel_mount_done n then IDI_MOUNT_DONE else 0)
               (if nd_kernel_mount_error n then IDI_MOUNT_ERROR else 0)))))).

Definition failed_id (jid : Z) : id_info := mkId 0 jid IDI_JID_NEEDS_RECOVERY.

(** The entries of the journals that need recovery: from earlier cycles, and from the
    changes of this one. *)
Definition old_journal_ids (g : mountgroup) : list id_info :=
  map (fun j => failed_id (j_jid j)) (List.filter j_needs_recovery (mg_journals g)).
Definition new_journal_ids (g : mountgroup) : list id_info :=
  omap (fun n => j ← find_journal_by_nodeid (mg_journals g) n; Some (failed_id (j_jid j)))
    (dirty_removed g).

(** Whether a member is sent as an old one. *)
Definition old_member (g : mountgroup) (memb : member) : bool :=
  negb ((mg_started_count g =? 0) || is_added (mg_changes g) (mb_nodeid memb)).

(** The message, when the checks allow to send it; entries that were not filled in
    are zero. *)
Definition start_message (g : mountgroup) (cg : change) : option start_msg :=
  let id_count := count_ids g cg in
  let new := mg_started_count g =? 0 in
  if new && negb (id_count =? cg_member_count cg) then None
  else
    let ids := omap (member_id g) (cg_members cg) ++ old_journal_ids g ++ new_journal_ids g in
    if new && (negb (bool_decide (old_journal_ids g = [])) || negb (bool_decide (new_journal_ids g = [])))
    then None
    else
      Some (mkStart (mkMi (mg_started_count g) (cg_member_count cg) (cg_joined_count cg)
                       (cg_remove_count cg) (cg_failed_count cg) (fr_needed (mg_first g))
                       (fr_master (mg_first g)))
              (ids ++ replicate (Z.to_nat id_count - length ids) (mkId 0 0 0))).

Definition send_start (cg : change) : M unit :=
  g ← get_mg;
  match start_message g cg with
  | None => mret tt
  | Some msg =>
      emit (SendStart (cg_seq cg) (if lo_joining (mg_local g) then GFS_MFLG_JOINING else 0) msg)
  end.

(** ** Messages outside the start cycle *)

Definition receive_mount_done (g : mountgroup) (nodeid result : Z) : mountgroup :=
  set_history g (upd_node (mg_node_history g) nodeid (nd_set_mount true (c_true result))).

Definition receive_recovery_result (g : mountgroup) (jid result : Z) : mountgroup :=
  match find_journal (mg_journals g) jid with
  | None => g
  | Some j =>
      if negb (j_needs_recovery j) then g
      else set_journals g (upd_journal (fun j => j_jid j =? jid)
             (if result =? LM_RD_SUCCESS then j_set_recovered else j_count_failed) (mg_journals g))
  end.

Definition receive_first_recovery_done : M unit :=
  g ← get_mg;
  let fr := mg_first g in
  upd_mg (fun g => set_first g (mkFirst (fr_done_uevent fr) false 0 true)) ;;
  match mg_changes g with
  | [] => if negb (fr_master fr =? our_nodeid c) then start_kernel else mret tt
  | _ => mret tt
  end.

Definition receive_remount (nodeid : Z) (ro : bool) : M unit :=
  g ← get_mg;
  match get_node_history (mg_node_history g) nodeid with
  | None => mret tt
  | Some n =>
      upd_mg (fun g => set_history g (upd_node (mg_node_history g) nodeid
        (fun n => nd_set_options ro (nd_spectator n) n))) ;;
      if nodeid =? our_nodeid c then upd_local (lo_set_ro ro) else mret tt
  end.

Definition leave_mountgroup : M unit :=
  g ← get_mg;
  if lo_leaving (mg_local g) then mret tt
  else upd_local lo_set_leaving ;; emit CpgLeave.

Definition receive_withdraw (nodeid : Z) : M unit :=
  g ← get_mg;
  match get_node_history (mg_node_history g) nodeid with
  | None => mret tt
  | Some _ =>
      upd_mg (fun g => set_history g (upd_node (mg_node_history g) nodeid nd_set_withdraw)) ;;
      if nodeid =? our_nodeid c then leave_mountgroup else mret tt
  end.

Definition save_message (m : save_msg) : M unit :=
  g ← get_mg;
  match mg_changes g with
  | [] => deref None
  | cg :: cgs => upd_mg (fun g => set_changes g (cg_set_saved cg (cg_saved_messages cg ++ [m]) :: cgs))
  end.

(** ** The state after a start cycle *)

(** The members with their start messages. *)
Definition infos (cg : change) : option (list (Z * start_msg)) :=
  mapM (fun m => x ← mb_start_msg m; Some (mb_nodeid m, x)) (cg_members cg).

Definition started (x : Z * start_msg) : bool := c_true (mi_started_count (sm_info (snd x))).

Definition all_nodes_new (l : list (Z * start_msg)) : bool := forallb (fun x => negb (started x)) l.

Definition any_nodes_first_recovery (l : list (Z * start_msg)) : bool :=
  let old := List.filter started l in
  let yes := existsb (fun x => mi_first_recovery_needed (sm_info (snd x))) old in
  let no := existsb (fun x => negb (mi_first_recovery_needed (sm_info (snd x)))) old in
  if no && yes then true else negb no.

Definition low_nodeid (l : list (Z * start_msg)) : Z :=
  foldl (fun low x => if low =? 0 then fst x else if fst x <? low then fst x else low) 0 l.

Definition pick_first_recovery_master (cg : change) (l : list (Z * start_msg)) (all_new : bool) : Z :=
  let old := foldl (fun old x => if started x then mi_first_recovery_master (sm_info (snd x)) else old) 0 l in
  match find_memb cg old with
  | None => low_nodeid l
  | Some _ => if all_new then low_nodeid l else old
  end.

(** The entries of the first old node. *)
Definition get_id_list (l : list (Z * start_msg)) : option (list id_info) :=
  x ← List.find started l; Some (sm_ids (snd x)).

Definition new_journal (jid nodeid : Z) : journal := mkJ jid nodeid 0 false false 0 0.

(** The loops return at the first node or entry that is missing or wrong. *)
Fixpoint create_old_nodes_loop (ids : list id_info) (l : list (Z * start_msg)) (ns : list node)
    (js : list journal) : list node * list journal :=
  match l with
  | [] => (ns, js)
  | x :: l' =>
      if negb (started x) then create_old_nodes_loop ids l' ns js
      else match get_node_history ns (fst x), get_id_struct ids (fst x) with
      | Some _, Some id =>
          let f := id_flags id in
          if negb (flag f IDI_NODEID_IS_MEMBER) || flag f IDI_JID_NEEDS_RECOVERY then (ns, js)
          else
            let set n := nd_set_jid (id_jid id)
                           (nd_set_mount (flag f IDI_MOUNT_DONE) (flag f IDI_MOUNT_ERROR)
                             (nd_set_options (flag f IDI_MOUNT_RO) (flag f IDI_MOUNT_SPECTATOR) n)) in
            create_old_nodes_loop ids l' (upd_node ns (fst x) set) (new_journal (id_jid id) (fst x) :: js)
      | _, _ => (ns, js)
      end
  end.

Definition create_old_nodes (l : list (Z * start_msg)) (g : mountgroup) : mountgroup :=
  match get_id_list l with
  | None => g
  | Some ids =>
      let '(ns, js) := create_old_nodes_loop ids l (mg_node_history g) (mg_journals g) in
      set_journals (set_history g ns) js
  end.

Fixpoint create_new_nodes_loop (l : list (Z * start_msg)) (ns : list node) : option (list node) :=
  match l with
  | [] => Some ns
  | x :: l' =>
      if started x then create_new_nodes_loop l' ns
      else match get_node_history ns (fst x) with
      | None => Some ns
      | Some _ =>
          id ← get_id_struct (sm_ids (snd x)) (fst x);
          let f := id_flags id in
          if negb (flag f IDI_NODEID_IS_MEMBER) || flag f IDI_JID_NEEDS_RECOVERY then Some ns
          else create_new_nodes_loop l' (upd_node ns (fst x) (fun n =>
                 nd_set_jid JID_NONE (nd_set_options (flag f IDI_MOUNT_RO) (flag f IDI_MOUNT_SPECTATOR) n)))
      end
  end.

Definition create_new_nodes (l : list (Z * start_msg)) (g : mountgroup) : option mountgroup :=
  ns ← create_new_nodes_loop l (mg_node_history g); Some (set_history g ns).

Definition create_failed_journals (l : list (Z * start_msg)) (g : mountgroup) : mountgroup :=
  match get_id_list l with
  | None => g
  | Some ids =>
      set_journals g (foldl (fun js id => if flag (id_flags id) IDI_JID_NEEDS_RECOVERY
                                          then mkJ (id_jid id) 0 0 true false 0 0 :: js else js)
                        (mg_journals g) ids)
  end.

Definition set_failed_journals (g : mountgroup) : mountgroup :=
  set_journals g (foldl (fun js n => upd_journal (fun j => j_nodeid j =? n) j_set_failed js)
                    (mg_journals g) (dirty_removed g)).

(** The lowest new node above [prev]; 0 for none. *)
Definition next_new_nodeid (l : list (Z * start_msg)) (prev : Z) : Z :=
  low_nodeid (List.filter (fun x => negb (started x) && negb (fst x <=? prev)) l).

Definition next_free_jid (js : list journal) : Z :=
  match List.find (fun i => match find_journal js i with Some _ => false | None => true end)
          (seqZ 0 MAX_JOURNALS) with
  | Some i => i
  | None => -1
  end.

(** The loop over the new nodes; the fuel is more than their number. *)
Fixpoint new_journals_loop (fuel : nat) (l : list (Z * start_msg)) (nodeid : Z) (g : mountgroup)
    : option mountgroup :=
  match fuel with
  | O => None
  | S fuel' =>
      let nodeid := next_new_nodeid l nodeid in
      if nodeid =? 0 then Some g
      else match get_node_history (mg_node_history g) nodeid with
      | None => new_journals_loop fuel' l nodeid g
      | Some n =>
          let jid := if nd_spectator n then JID_NONE else next_free_jid (mg_journals g) in
          let g1 := set_history g (upd_node (mg_node_history g) nodeid (nd_set_jid jid)) in
          let g2 := if nodeid =? our_nodeid c then set_local g1 (lo_set_jid jid (mg_local g1)) else g1 in
          let g3 := if jid =? JID_NONE then g2
                    else set_journals g2 (new_journal jid nodeid :: mg_journals g2) in
          new_journals_loop fuel' l nodeid g3
      end
  end.

(** The journals that stay: those to be recovered and those of members. *)
Definition keep_journal (cg : change) (j : journal) : bool :=
  j_needs_recovery j || match find_memb cg (j_nodeid j) with Some _ => true | None => false end.

Definition create_new_journals (cg : change) (l : list (Z * start_msg)) (g : mountgroup)
    : option mountgroup :=
  new_journals_loop (S (length l)) l 0
    (set_journals g (List.filter (keep_journal cg) (mg_journals g))).

Definition apply_saved (g : mountgroup) (m : save_msg) : mountgroup :=
  match m with
  | SavedMountDone nodeid result => receive_mount_done g nodeid result
  | SavedRecoveryResult _ jid result => receive_recovery_result g jid result
  end.

Definition apply_saved_messages (cg : change) (g : mountgroup) : mountgroup :=
  foldl apply_saved g (cg_saved_messages cg).

(** The first part of [sync_state]: whether the file system needs a first recovery,
    and who does it. *)
Definition sync_first (cg : change) (l : list (Z * start_msg)) (fr : first_recovery) : first_recovery :=
  if fr_msg fr then fr
  else if all_nodes_new l then
    mkFirst (fr_done_uevent fr) true (pick_first_recovery_master cg l true) (fr_msg fr)
  else if any_nodes_first_recovery l then
    mkFirst (fr_done_uevent fr) true (pick_first_recovery_master cg l false) (fr_msg fr)
  else fr.

(** The acknowledgements that are due. *)
Definition ack_due (n : node) : bool := nd_withdraw n && negb (nd_send_withdraw_ack n).

Definition send_withdraw_acks : M unit :=
  g ← get_mg;
  (fun s => Some (tt, mkGs (s_mg s) (s_life s) (s_poll_dlm s)
     (s_out s ++ map (fun n => SendWithdrawAck (nd_nodeid n)) (List.filter ack_due (mg_node_history g))))) ;;
  upd_mg (fun g => set_history g (map (fun n => if ack_due n then nd_set_ack n else n) (mg_node_history g))).

(** The second part: the nodes and their journals. *)
Definition sync_nodes (cg : change) (l : list (Z * start_msg)) (g : mountgroup) : option mountgroup :=
  if mg_started_count g =? 0 then
    g1 ← create_new_nodes l (create_old_nodes l g);
    create_new_journals cg l (apply_saved_messages cg (create_failed_journals l g1))
  else
    g1 ← create_new_nodes l g;
    create_new_journals cg l (set_failed_journals g1).

Definition sync_state (cg : change) : M unit :=
  l ← deref (infos cg);
  upd_mg (fun g => set_first g (sync_first cg l (mg_first g))) ;;
  send_withdraw_acks ;;
  g ← get_mg;
  g' ← deref (sync_nodes cg l g);
  upd_mg (fun _ => g').

(** The number of starts skips zero, which stands for never started. *)
Definition next_started (n : Z) : Z :=
  let n1 := u32 (n + 1) in if n1 =? 0 then u32 (n1 + 1) else n1.

Definition cleanup_changes (g : mountgroup) : mountgroup :=
  match mg_changes g with
  | [] => g
  | cg :: cgs =>
      set_changes (set_started g (next_started (mg_started_count g))
        (Some (cg_set_combined cg (foldl (fun _ c => cg_seq c) (cg_seq cg) cgs)))) []
  end.

(** ** Progress *)

Definition apply_changes (cg : change) (cgs : list change) : M unit :=
  match cg_st cg with
  | CGST_WAIT_CONDITIONS =>
      ok ← wait_conditions_done;
      if ok : bool then
        send_start cg ;;
        upd_mg (fun g => set_changes g (cg_set_state cg CGST_WAIT_MESSAGES :: cgs))
      else mret tt
  | CGST_WAIT_MESSAGES =>
      if wait_messages_done cg then sync_state cg ;; upd_mg cleanup_changes else mret tt
  end.

Definition start_journal_recovery (jid : Z) : M unit :=
  emit (SysfsRecover jid) ;;
  if v_recover_ok v then upd_mg (fun g => set_busy g jid true) else mret tt.

Definition wait_recoveries_done (g : mountgroup) : bool :=
  negb (existsb j_needs_recovery (mg_journals g)).

Definition pick_journal_to_recover (g : mountgroup) : option Z :=
  j ← List.find (fun j => j_needs_recovery j && negb (j_local_recovery_done j)) (mg_journals g);
  Some (j_jid j).

Definition apply_recovery : M unit :=
  g ← get_mg;
  let lo := mg_local g in
  if fr_needed (mg_first g) then
    if (fr_master (mg_first g) =? our_nodeid c) && negb (lo_mount_client_notified lo) then
      upd_local lo_set_first_mounter ;; start_kernel
    else mret tt
  else if negb (wait_recoveries_done g) then
    if negb (lo_kernel_mount_done lo) || c_true (lo_kernel_mount_error lo) then mret tt
    else if lo_spectator lo then mret tt
    else if mg_local_recovery_busy g then mret tt
    else match pick_journal_to_recover g with
    | Some jid => start_journal_recovery jid
    | None => mret tt
    end
  else if negb (lo_kernel_stopped lo) then mret tt
  else start_kernel.

Definition apply_changes_recovery : M unit :=
  g ← get_mg;
  match mg_changes g with
  | [] => mret tt
  | cg :: cgs => apply_changes cg cgs
  end ;;
  g ← get_mg;
  match mg_started_change g, mg_changes g with
  | Some _, [] => apply_recovery
  | _, _ => mret tt
  end.

(** ** Events of the kernel, dlm_controld and mount.gfs *)

Inductive dlm_result :=
  | DLMC_RESULT_NOTIFIED (nodeid result : Z)
  | DLMC_RESULT_REGISTER (result : Z)
  | DLMC_RESULT_OTHER.

Definition process_dlmcontrol (r : dlm_result) : M unit :=
  g ← get_mg;
  match r with
  | DLMC_RESULT_NOTIFIED n result =>
      match get_node_history (mg_node_history g) n with
      | None => mret tt
      | Some nd =>
          if negb (mg_dlm_notify_nodeid g =? n) then mret tt
          else
            upd_mg (fun g => set_notify (set_history g (upd_node (mg_node_history g) n
              (nd_set_dlm (nd_check_dlm nd) true result))) 0) ;;
            set_poll_dlm false ;; apply_changes_recovery
      end
  | DLMC_RESULT_REGISTER _ => upd_mg set_registered ;; set_poll_dlm false ;; apply_changes_recovery
  | DLMC_RESULT_OTHER => set_poll_dlm false ;; apply_changes_recovery
  end.

(** [process_recovery_uevent] with its arguments, of which negative ones are read
    from sysfs. *)
Definition process_recovery_uevent (jid status first_done : Z) : M unit :=
  let arg x o := if x <? 0 then o else Some x in
  match arg jid (v_recover_done v), arg status (v_recover_status v) with
  | Some jid, Some status =>
      g ← get_mg;
      if negb (fr_needed (mg_first g)) then
        if negb (mg_local_recovery_busy g) then mret tt
        else
          upd_mg (fun g => set_busy g (mg_local_recovery_jid g) false) ;;
          if negb (mg_local_recovery_jid g =? jid) then mret tt
          else match find_journal (mg_journals g) jid with
          | None => mret tt
          | Some j =>
              upd_mg (fun g => set_journals g
                (upd_journal (fun j => j_jid j =? jid) (j_set_local status) (mg_journals g))) ;;
              (if j_needs_recovery j then emit (SendRecoveryResult jid status) else mret tt) ;;
              apply_changes_recovery
          end
      else if fr_done_uevent (mg_first g) then mret tt
      else match arg first_done (v_first_done v) with
      | None => mret tt
      | Some fd =>
          (if c_true fd then
             upd_mg (fun g => set_first g (mkFirst true (fr_needed (mg_first g)) (fr_master (mg_first g))
                                             (fr_msg (mg_first g)))) ;;
             emit SendFirstRecoveryDone
           else mret tt) ;;
          apply_changes_recovery
      end
  | _, _ => mret tt
  end.

(** [do_mount_done] of [main.c]. *)
Definition do_mount_done (result : Z) : M unit :=
  upd_local (lo_set_mount_done result) ;; emit (SendMountDone result).

Definition do_leave : M unit :=
  g ← get_mg;
  if lo_withdraw_uevent (mg_local g) then mret tt else leave_mountgroup.

(** The device is suspended by a process of its own, whose end is
    [dmsetup_suspend_done]. *)
Definition do_withdraw (cfgd_enable_withdraw : bool) : M unit :=
  if negb cfgd_enable_withdraw then mret tt else upd_local lo_set_withdraw.

Definition dmsetup_suspend_done (rv : Z) : M unit :=
  if rv =? 0 then emit SendWithdraw else mret tt.

(** A remount, whose options are only ro or rw. *)
Definition do_remount (ro : bool) : M unit :=
  g ← get_mg;
  if lo_spectator (mg_local g) then emit (ReplyRemount (-1))
  else if Bool.eqb (lo_ro (mg_local g)) ro then emit (ReplyRemount 0)
  else emit (SendRemount ro) ;; emit (ReplyRemount 0).

(** ** Configuration changes *)

Definition new_member (nodeid : Z) : member := mkMemb nodeid false false false false None.

(** One node of [left_list], with the reason. *)
Definition left_failed (x : Z * Z) : bool :=
  (snd x =? CPG_REASON_NODEDOWN) || (snd x =? CPG_REASON_PROCDOWN).

Definition add_removed (seq : Z) (ns : list node) (x : Z * Z) : list node :=
  if left_failed x then node_history_fail ns (fst x) seq (snd x) else node_history_left ns (fst x) seq.

Definition removed_member (x : Z * Z) : member :=
  mkMemb (fst x) false false (left_failed x) false None.

(** The loop over [joined_list]: the members, the history, and whether we are there;
    [None] when a joined node is no member. *)
Fixpoint add_joined (seq : Z) (joined : list Z) (ms : list member) (ns : list node) (we : bool)
    : list node * option (list member * bool) :=
  match joined with
  | [] => (ns, Some (ms, we))
  | n :: l =>
      match find_memb_in ms n with
      | None => (ns, None)
      | Some _ =>
          let ms' := upd_memb ms n mb_set_added in
          if n =? our_nodeid c then add_joined seq l ms' ns true
          else add_joined seq l ms' (node_history_init ns n (Some seq)) we
      end
  end.

(** The change is not added when a joined node is no member. *)
Definition add_change (member_list : list Z) (left_list : list (Z * Z)) (joined_list : list Z)
    (g : mountgroup) : bool * mountgroup * list effect :=
  let seq1 := u32 (mg_change_seq g + 1) in
  let seq := if seq1 =? 0 then u32 (seq1 + 1) else seq1 in
  let g1 := set_change_seq g seq in
  let ns := foldl (add_removed seq) (mg_node_history g1) left_list in
  let kicks := omap (fun x => if snd x =? CPG_REASON_PROCDOWN then Some (KickNode (fst x)) else None)
                 left_list in
  let '(ns, r) := add_joined seq joined_list (map new_member member_list) ns false in
  match r with
  | None => (false, set_history g1 ns, kicks)
  | Some (ms, we_joined) =>
      let ns := if we_joined : bool
                then foldl (fun ns m => node_history_init ns (mb_nodeid m) (Some seq)) ns ms else ns in
      let cg := mkCg ms (map removed_member left_list) [] (Z.of_nat (length member_list))
                  (Z.of_nat (length joined_list)) (Z.of_nat (length left_list))
                  (Z.of_nat (length (List.filter left_failed left_list))) CGST_WAIT_CONDITIONS
                  we_joined seq 0 (v_now v) in
      (true, set_changes (set_history g1 ns) (cg :: mg_changes g1), kicks)
  end.

Definition we_left (left_list : list (Z * Z)) : bool :=
  existsb (fun x => fst x =? our_nodeid c) left_list.

Fixpoint emit_all (l : list effect) : M unit :=
  match l with
  | [] => mret tt
  | e :: l' => emit e ;; emit_all l'
  end.

Definition confchg_cb (member_list : list Z) (left_list : list (Z * Z)) (joined_list : list Z) : M unit :=
  g ← get_mg;
  if lo_leaving (mg_local g) && we_left left_list then
    emit DlmUnregister ;;
    if negb (lo_withdraw_uevent (mg_local g)) then set_life Gone
    else match member_list with
    | [] => emit SysfsWithdraw ;; set_life Gone
    | _ => set_life Withdrawn
    end
  else
    let '(ok, g', kicks) := add_change member_list left_list joined_list g in
    emit_all kicks ;;
    upd_mg (fun _ => g') ;;
    if ok : bool then apply_changes_recovery else mret tt.

(** ** Messages *)

Inductive payload :=
  | GFS_MSG_START (msg : start_msg)
  | GFS_MSG_MOUNT_DONE (result : Z)
  | GFS_MSG_FIRST_RECOVERY_DONE
  | GFS_MSG_RECOVERY_RESULT (jid result : Z)
  | GFS_MSG_REMOUNT (ro : bool)
  | GFS_MSG_WITHDRAW
  | GFS_MSG_UNKNOWN.

(** The header: the version and the sender. *)
Record gfs_header := mkHd {
  hd_version : Z * Z;
  hd_nodeid : Z
}.

Definition gfs_header_check (hd : gfs_header) (nodeid : Z) : bool :=
  (fst (hd_version hd) =? fst (daemon_run c)) && (snd (hd_version hd) =? snd (daemon_run c)) &&
  (hd_nodeid hd =? nodeid).

Definition receive (nodeid : Z) (p : payload) : M unit :=
  g ← get_mg;
  match p with
  | GFS_MSG_START msg => receive_start nodeid msg
  | GFS_MSG_MOUNT_DONE result =>
      if mg_started_count g =? 0 then save_message (SavedMountDone nodeid result)
      else upd_mg (fun g => receive_mount_done g nodeid result)
  | GFS_MSG_FIRST_RECOVERY_DONE => receive_first_recovery_done
  | GFS_MSG_RECOVERY_RESULT jid result =>
      if mg_started_count g =? 0 then save_message (SavedRecoveryResult nodeid jid result)
      else upd_mg (fun g => receive_recovery_result g jid result)
  | GFS_MSG_REMOUNT ro => receive_remount nodeid ro
  | GFS_MSG_WITHDRAW => receive_withdraw nodeid
  | GFS_MSG_UNKNOWN => mret tt
  end.

Definition deliver_cb (nodeid : Z) (hd : gfs_header) (p : payload) : M unit :=
  if negb (gfs_header_check hd nodeid) then mret tt
  else receive (hd_nodeid hd) p ;; apply_changes_recovery.

End Mount.

(** [receive_withdraw_ack] for this file system, on a mount that was left. *)
Definition receive_withdraw_ack (s : gstate) : gstate :=
  match s_life s with
  | Withdrawn => mkGs (s_mg s) Gone (s_poll_dlm s) (s_out s ++ [SysfsWithdraw])
  | _ => s
  end.

(** ** The daemon *)

Inductive event :=
  | EvConfchg (members : list Z) (lefts : list (Z * Z)) (joined : list Z)
  | EvDeliver (nodeid : Z) (hd : gfs_header) (p : payload)
  | EvDlm (r : dlm_result)
  | EvRecovery (jid status first_done : Z)
  | EvMountDone (result : Z)
  | EvLeave
  | EvRemount (ro : bool)
  | EvWithdraw (enabled : bool)
  | EvSuspended (rv : Z)
  | EvWithdrawAck
  | EvClusterAdd (nodeid : Z)
  | EvClusterRemove (nodeid : Z)
  | EvPoll.

(** One event with the answers of that time; a mount group that was left is not found
    any more.  A remount replies through the group even then. *)
Definition step (c : config) (s : gstate) (x : event * env) : option gstate :=
  let '(e, v) := x in
  let run (m : M unit) := match s_life s with
                          | Alive => '(_, s') ← m s; Some s'
                          | _ => Some s
                          end in
  match e with
  | EvConfchg members lefts joined => run (confchg_cb c v members lefts joined)
  | EvDeliver nodeid hd p => run (deliver_cb c v nodeid hd p)
  | EvDlm r => run (process_dlmcontrol c v r)
  | EvRecovery jid status first_done => run (process_recovery_uevent c v jid status first_done)
  | EvMountDone result => run (do_mount_done result)
  | EvLeave => run do_leave
  | EvRemount ro => match s_life s with Alive => run (do_remount ro) | _ => None end
  | EvWithdraw enabled => run (do_withdraw enabled)
  | EvSuspended rv => run (dmsetup_suspend_done rv)
  | EvWithdrawAck => Some (receive_withdraw_ack s)
  | EvClusterAdd nodeid =>
      run (upd_mg (fun g => set_history g (node_history_cluster_add (mg_node_history g) nodeid (v_now v))))
  | EvClusterRemove nodeid =>
      run (upd_mg (fun g => set_history g (node_history_cluster_remove (mg_node_history g) nodeid (v_now v))))
  | EvPoll => run (apply_changes_recovery c v)
  end.

Fixpoint run (c : config) (s : gstate) (l : list (event * env)) : option gstate :=
  match l with
  | [] => Some s
  | x :: l' => s' ← step c s x; run c s' l'
  end.

(** [gfs_join_mountgroup], with the options of the mount. *)
Definition gfs_join_mountgroup (ro spectator : bool) : gstate :=
  mkGs (mkMg (mkLocal true false true false 0 false false ro spectator 0 false)
          (mkFirst false false 0 false) 0 false false 0 0 0 None [] [] [])
    Alive false [].
