(* ===== verification/GfsMountThm.v ===== *)
(** * Mount groups: the file system is blocked until the journals are recovered, and
    the members agree on the journals

    The first part is an invariant of all executions of one node.  The second part
    compares what an old and a new member compute at the end of a start cycle. *)

From S2P Require Import Prelude GfsMount.
Open Scope Z_scope.

(** ** Triples over the mount group *)

Definition triple {A} (P : mountgroup -> Prop) (m : M A) (Q : A -> mountgroup -> Prop) : Prop :=
  forall s a s', P (s_mg s) -> m s = Some (a, s') -> Q a (s_mg s').

Lemma t_ret {A} (a : A) P (Q : A -> mountgroup -> Prop) :
  (forall g, P g -> Q a g) -> triple P (mret a) Q.
Proof. intros H s b s' HP [= <- <-]; auto. Qed.

Lemma t_bind {A B} (m : M A) (f : A -> M B) P Q R :
  triple P m Q -> (forall a, triple (Q a) (f a) R) -> triple P (m ≫= f) R.
Proof.
  intros H1 H2 s b s' HP E. unfold mbind, M_bind in E.
  destruct (m s) as [[a s1]|] eqn:E1; [|discriminate]. eapply H2; eauto.
Qed.

Lemma t_get {B} (f : mountgroup -> M B) P R :
  (forall g0, triple (fun g => P g /\ g = g0) (f g0) R) -> triple P (get_mg ≫= f) R.
Proof. intros H s b s' HP E. eapply (H (s_mg s) s); eauto. Qed.

Lemma t_upd f P (Q : unit -> mountgroup -> Prop) :
  (forall g, P g -> Q tt (f g)) -> triple P (upd_mg f) Q.
Proof. intros H s b s' HP [= <- <-]; cbn; auto. Qed.

Lemma t_emit e (P : mountgroup -> Prop) : triple P (emit e) (fun _ => P).
Proof. intros s b s' HP [= <- <-]; done. Qed.

Lemma t_emit_all l (P : mountgroup -> Prop) : triple P (emit_all l) (fun _ => P).
Proof.
  induction l as [|e l IH]; [by apply t_ret|]. eapply t_bind; [apply t_emit|done].
Qed.

Lemma t_poll b (P : mountgroup -> Prop) : triple P (set_poll_dlm b) (fun _ => P).
Proof. intros s a s' HP [= <- <-]; done. Qed.

Lemma t_life l (P : mountgroup -> Prop) : triple P (set_life l) (fun _ => P).
Proof. intros s a s' HP [= <- <-]; done. Qed.

Lemma t_deref {A} (o : option A) (P : mountgroup -> Prop) :
  triple P (deref o) (fun a g => P g /\ o = Some a).
Proof. intros s a s' HP E. destruct o; [|discriminate]. by injection E as <- <-. Qed.

Lemma t_conseq {A} (m : M A) (P P' : mountgroup -> Prop) (Q Q' : A -> mountgroup -> Prop) :
  triple P m Q -> (forall g, P' g -> P g) -> (forall a g, Q a g -> Q' a g) -> triple P' m Q'.
Proof. intros H H1 H2 s a s' HP E. eapply H2, H; eauto. Qed.

Create HintDb mount.
#[export] Hint Resolve t_emit t_emit_all t_poll t_life : mount.

(** ** The invariant *)

Definition mount_failed (g : mountgroup) : bool :=
  lo_kernel_mount_done (mg_local g) && c_true (lo_kernel_mount_error (mg_local g)).

Definition stopped (g : mountgroup) : bool := lo_kernel_stopped (mg_local g).

Definition clean (g : mountgroup) : Prop := Forall (fun j => j_needs_recovery j = false) (mg_journals g).

(** Our start message for the latest change is out. *)
Definition waiting (g : mountgroup) : Prop :=
  match mg_changes g with
  | cg :: _ => cg_st cg = CGST_WAIT_MESSAGES
  | [] => False
  end.

(** Nothing is to be recovered, and no failure is in the changes we have sent a start message
    for. *)
Definition quiet (g : mountgroup) : Prop := clean g /\ (waiting g -> dirty_removed g = []).

(** The file system may run. *)
Definition guarded (g : mountgroup) : Prop :=
  fr_needed (mg_first g) = true \/ stopped g = true \/ mount_failed g = true \/ quiet g.

Record safe (g : mountgroup) : Prop := mkSafe {
  sf_joining : lo_joining (mg_local g) = negb (lo_mount_client_notified (mg_local g));
  sf_notified : lo_mount_client_notified (mg_local g) = false -> stopped g = true;
  sf_count : mg_started_count g = 0 -> stopped g = true;
  sf_change : mg_started_change g <> None -> mg_started_count g <> 0;
  sf_history : NoDup (map nd_nodeid (mg_node_history g));
  sf_guarded : guarded g
}.

(** What the invariant depends on, but for journals and removed nodes. *)
Definition ctl (g : mountgroup) :=
  (lo_joining (mg_local g), stopped g, mount_failed g, lo_mount_client_notified (mg_local g),
   fr_needed (mg_first g), mg_started_count g, mg_started_change g).

Lemma safe_ctl g g' :
  ctl g' = ctl g -> (clean g -> clean g') ->
  (NoDup (map nd_nodeid (mg_node_history g)) -> NoDup (map nd_nodeid (mg_node_history g'))) ->
  (clean g -> waiting g' -> waiting g /\ (dirty_removed g = [] -> dirty_removed g' = [])) ->
  safe g -> safe g'.
Proof.
  unfold ctl. intros [= H1 H2 H3 H4 H5 H6 H7] Hc Hn Hd [A B C D N E].
  constructor; rewrite ?H1, ?H2, ?H4, ?H6, ?H7; auto.
  unfold guarded. rewrite H2, H3, H5.
  destruct E as [?|[?|[?|[E1 E2]]]]; [by auto..|]. do 3 right. split; [auto|].
  intros W. destruct (Hd E1 W). auto.
Qed.

(** An update of the history that keeps or clears the withdraw flags. *)
Definition fewer (ns ns' : list node) : Prop :=
  forall n, is_withdraw ns' n = true -> is_withdraw ns n = true.

Lemma dirty_fewer g g' :
  fewer (mg_node_history g) (mg_node_history g') ->
  concat (map cg_removed (mg_changes g')) = concat (map cg_removed (mg_changes g)) ->
  dirty_removed g = [] -> dirty_removed g' = [].
Proof.
  unfold dirty_removed. intros F ->. generalize (concat (map cg_removed (mg_changes g))).
  induction l as [|m l IH]; cbn; [done|]. intros E.
  destruct (mb_failed m); [discriminate|]. cbn in *.
  destruct (is_withdraw (mg_node_history g) (mb_nodeid m)) eqn:W; [discriminate|].
  destruct (is_withdraw (mg_node_history g') (mb_nodeid m)) eqn:W'; [|auto].
  apply F in W'. congruence.
Qed.

Lemma get_upd_node ns n f m :
  (forall x, nd_nodeid (f x) = nd_nodeid x) ->
  get_node_history (upd_node ns n f) m =
    if m =? n then f <$> get_node_history ns m else get_node_history ns m.
Proof.
  intros Hf. induction ns as [|x ns IH]; cbn; [by destruct (m =? n)|].
  destruct (Z.eqb_spec (nd_nodeid x) n); cbn; rewrite ?Hf.
  - destruct (Z.eqb_spec (nd_nodeid x) m), (Z.eqb_spec m n); cbn; try done; lia.
  - rewrite IH. destruct (Z.eqb_spec (nd_nodeid x) m), (Z.eqb_spec m n); cbn; try done; lia.
Qed.

Lemma get_del_node ns n m :
  m <> n -> get_node_history (del_node ns n) m = get_node_history ns m.
Proof.
  intros Hm. induction ns as [|x ns IH]; cbn; [done|].
  destruct (Z.eqb_spec (nd_nodeid x) n); cbn; [|by rewrite IH].
  destruct (Z.eqb_spec (nd_nodeid x) m); [lia|done].
Qed.

Lemma get_node_app ns ns' m :
  get_node_history (ns ++ ns') m =
    match get_node_history ns m with Some x => Some x | None => get_node_history ns' m end.
Proof. induction ns as [|x ns IH]; cbn; [done|]. by destruct (nd_nodeid x =? m). Qed.

Lemma fewer_refl ns : fewer ns ns.
Proof. by intros n. Qed.

Lemma fewer_trans a b d : fewer a b -> fewer b d -> fewer a d.
Proof. intros H1 H2 n H. auto. Qed.

Lemma fewer_upd ns n f :
  (forall x, nd_nodeid (f x) = nd_nodeid x) -> (forall x, nd_withdraw (f x) = nd_withdraw x) ->
  fewer ns (upd_node ns n f).
Proof.
  intros H1 H2 m. unfold is_withdraw. rewrite get_upd_node by done.
  destruct (m =? n); [|done]. destruct (get_node_history ns m); cbn; [by rewrite H2|done].
Qed.

Lemma ids_upd ns n f :
  (forall x, nd_nodeid (f x) = nd_nodeid x) -> map nd_nodeid (upd_node ns n f) = map nd_nodeid ns.
Proof.
  intros Hf. induction ns as [|x ns IH]; cbn; [done|].
  destruct (nd_nodeid x =? n); cbn; [by rewrite Hf|by rewrite IH].
Qed.

Lemma del_node_notin ns n : NoDup (map nd_nodeid ns) -> n ∉ map nd_nodeid (del_node ns n).
Proof.
  induction ns as [|x ns IH]; cbn; [set_solver|]. rewrite NoDup_cons. intros [H1 H2].
  destruct (Z.eqb_spec (nd_nodeid x) n); [congruence|]. cbn. rewrite not_elem_of_cons. auto.
Qed.

Lemma del_node_sub ns n : map nd_nodeid (del_node ns n) `sublist_of` map nd_nodeid ns.
Proof.
  induction ns as [|x ns IH]; cbn; [done|].
  destruct (nd_nodeid x =? n); [by apply sublist_cons|by apply sublist_skip].
Qed.

Lemma get_node_none ns n : n ∉ map nd_nodeid ns -> get_node_history ns n = None.
Proof.
  induction ns as [|x ns IH]; cbn; [done|]. rewrite not_elem_of_cons. intros [H1 H2].
  destruct (Z.eqb_spec (nd_nodeid x) n); [congruence|auto].
Qed.

(** The history of one node, which an update leaves without duplicates. *)
Definition tidy (ns ns' : list node) : Prop :=
  NoDup (map nd_nodeid ns) -> NoDup (map nd_nodeid ns') /\ fewer ns ns'.

Lemma tidy_refl ns : tidy ns ns.
Proof. intros H. split; [done|apply fewer_refl]. Qed.

Lemma tidy_trans a b d : tidy a b -> tidy b d -> tidy a d.
Proof. intros H1 H2 H. destruct (H1 H) as [N F], (H2 N). eauto using fewer_trans. Qed.

Lemma tidy_upd ns n f :
  (forall x, nd_nodeid (f x) = nd_nodeid x) -> (forall x, nd_withdraw (f x) = nd_withdraw x) ->
  tidy ns (upd_node ns n f).
Proof. intros H1 H2 H. rewrite ids_upd by done. eauto using fewer_upd. Qed.

Lemma tidy_init ns n seq : tidy ns (node_history_init ns n seq).
Proof.
  intros H. pose proof (del_node_notin ns n H) as Hn. unfold node_history_init. split.
  - rewrite map_app. apply NoDup_app. repeat split; [by eapply sublist_NoDup, del_node_sub| |apply NoDup_singleton].
    intros x Hx ->%list_elem_of_singleton. done.
  - intros m. unfold is_withdraw. rewrite get_node_app. destruct (decide (m = n)) as [->|Hm].
    + rewrite get_node_none by done. cbn. by rewrite Z.eqb_refl.
    + rewrite get_del_node by done. destruct (get_node_history ns m); [done|]. cbn.
      by destruct (Z.eqb_spec n m).
Qed.

Lemma tidy_foldl {B} (f : list node -> B -> list node) l ns :
  (forall ns b, tidy ns (f ns b)) -> tidy ns (foldl f ns l).
Proof. intros Hf. revert ns. induction l; cbn; eauto using tidy_refl, tidy_trans. Qed.

#[export] Hint Resolve tidy_refl tidy_upd tidy_init : mount.

Ltac by_node := intros; match goal with x : node |- _ => by destruct x end.

(** ** The operations keep the invariant *)

(** A change of the history alone. *)
Lemma safe_history g ns : tidy (mg_node_history g) ns -> safe g -> safe (set_history g ns).
Proof.
  destruct g. cbn. intros T S. pose proof (T (sf_history _ S)) as [N F]; cbn in *.
  eapply safe_ctl; [..|exact S]; try done. intros _ W. split; [done|]. by apply dirty_fewer.
Qed.

(** A change of the journals that dirties none. *)
Lemma safe_journals g js : (clean g -> clean (set_journals g js)) -> safe g -> safe (set_journals g js).
Proof. destruct g. intros H S. eapply safe_ctl; [..|exact S]; done. Qed.

Lemma start_kernel_safe g0 :
  triple (fun g => safe g /\ g = g0 /\ (fr_needed (mg_first g) = true \/ (clean g /\ ~ waiting g)))
    start_kernel (fun _ => safe).
Proof.
  apply t_get. intros g. destruct (lo_kernel_stopped (mg_local g)) eqn:Est; cbn [negb].
  2: { eapply t_bind; [apply t_deref|]. intros a. apply t_ret. tauto. }
  eapply t_bind; [apply t_deref|]. intros cg. cbn beta.
  eapply t_bind; [apply t_emit|]. intros []. cbn beta.
  eapply t_bind with (Q := fun _ g' => exists g1, g' = set_local g1 (lo_set_stopped false (mg_local g1)) /\
    safe g1 /\ g1 = g /\ mg_started_change g = Some cg /\
    (fr_needed (mg_first g) = true \/ (clean g /\ ~ waiting g))).
  { apply t_upd. intros g' [[[S [-> H]] <-] E]. eauto 10. }
  intros []. destruct (lo_joining (mg_local g)) eqn:Ej.
  - eapply t_bind; [apply t_emit|]. intros []. apply t_upd.
    intros ? (g1 & -> & [A B C D N E] & -> & Hs & H). destruct g as [[] [] ? ? ? ? ? ? ? ? ? ?].
    cbn in *. constructor; cbn; try done.
    + intros Hz. exfalso. apply D; congruence.
    + destruct H as [H|[H W]]; [by left|]. do 3 right. split; [done|]. intros W'. done.
  - apply t_ret. intros ? (g1 & -> & [A B C D N E] & -> & Hs & H). destruct g as [[] [] ? ? ? ? ? ? ? ? ? ?].
    cbn in *. constructor; cbn; try done.
    + intros Hn. subst. discriminate.
    + intros Hz. exfalso. apply D; congruence.
    + destruct H as [H|[H W]]; [by left|]. do 3 right. split; [done|]. intros W'. done.
Qed.

Lemma check_dlm_tidy ns : tidy ns (fst (check_dlm_loop ns)).
Proof.
  intros H. assert (map nd_nodeid (fst (check_dlm_loop ns)) = map nd_nodeid ns /\
    forall n, is_withdraw (fst (check_dlm_loop ns)) n = is_withdraw ns n) as [-> E].
  { clear H. unfold is_withdraw. induction ns as [|x ns [IH1 IH2]]; cbn; [done|].
    destruct (check_dlm_loop ns) as [r v]. cbn in *. destruct x; cbn in *.
    repeat case_match; simplify_eq/=; split; try congruence; intros n; cbn;
      repeat case_match; simplify_eq/=; try done; specialize (IH2 n); simplify_option_eq; done. }
  split; [done|]. intros n. by rewrite E.
Qed.

(** With failures to handle, a start message goes out only when the file system is
    stopped, or was never mounted. *)
Definition may_start (g : mountgroup) : Prop :=
  fr_needed (mg_first g) = true \/ stopped g = true \/ mount_failed g = true \/
  (clean g /\ dirty_removed g = []).

Lemma no_recovery g : journals_need_recovery g = 0 -> clean g /\ dirty_removed g = [].
Proof.
  unfold journals_need_recovery, clean. intros H. split.
  - assert (length (List.filter j_needs_recovery (mg_journals g)) = 0%nat) as E by lia. clear H. revert E.
    induction (mg_journals g) as [|j js IH]; [constructor|]. cbn.
    destruct (j_needs_recovery j) eqn:E; cbn; [lia|]. auto.
  - destruct (dirty_removed g); [done|]. cbn in H. lia.
Qed.

Lemma safe_stopped g : safe g -> safe (set_local g (lo_set_stopped true (mg_local g))).
Proof.
  intros [A B C D N E]. destruct g as [[] [] ? ? ? ? ? ? ? ? ? ?]. constructor; cbn in *; try done.
  right. by left.
Qed.

Lemma check_dlm_notify_done_safe v cgs :
  triple (fun g => safe g /\ stopped g = true /\ mg_changes g = cgs) (check_dlm_notify_done v)
    (fun _ g => safe g /\ stopped g = true /\ mg_changes g = cgs).
Proof.
  apply t_get. intros g. destruct (c_true (mg_dlm_notify_nodeid g)); [apply t_ret; tauto|].
  pose proof (check_dlm_tidy (mg_node_history g)) as T.
  destruct (check_dlm_loop (mg_node_history g)) as [ns x]. cbn in T.
  eapply t_bind with (Q := fun _ g => safe g /\ stopped g = true /\ mg_changes g = cgs).
  { apply t_upd. intros g' [(S & St & E) ->]. split; [by apply safe_history|]. by destruct g. }
  intros []. destruct x.
  - apply t_ret. tauto.
  - eapply t_bind; [apply t_poll|]. intros []. apply t_ret. tauto.
  - eapply t_bind; [apply t_emit|]. intros []. destruct (v_notified_ok v); [|apply t_ret; tauto].
    eapply t_bind with (Q := fun _ g => safe g /\ stopped g = true /\ mg_changes g = cgs);
      [|intros []; by apply t_ret].
    apply t_upd. intros g' (S & St & E). destruct g'. cbn in *. split; [|done].
    eapply safe_ctl; [..|exact S]; done.
Qed.

Lemma wait_conditions_safe v cgs :
  triple (fun g => safe g /\ mg_changes g = cgs) (wait_conditions_done v)
    (fun ok g => safe g /\ mg_changes g = cgs /\ (ok = true -> may_start g)).
Proof.
  apply t_get. intros g. unfold may_start.
  destruct (mg_dlm_registered g); cbn [negb]; [|apply t_ret; intros g' [[S E] ->]; done].
  destruct (fr_needed (mg_first g)) eqn:Ef; [apply t_ret; intros g' [[S E] ->]; tauto|].
  destruct (Z.eqb_spec (mg_started_count g) 0).
  { apply t_ret. intros g' [[S E] ->]. pose proof (sf_count g S). tauto. }
  destruct (Z.eqb_spec (journals_need_recovery g) 0).
  { apply t_ret. intros g' [[S E] ->]. pose proof (no_recovery g). tauto. }
  destruct (lo_mount_client_notified (mg_local g)) eqn:En; cbn [negb].
  2: { apply t_ret. intros g' [[S E] ->]. pose proof (sf_notified g S). tauto. }
  destruct (lo_kernel_mount_done (mg_local g) && c_true (lo_kernel_mount_error (mg_local g))) eqn:Em.
  { apply t_ret. intros g' [[S E] ->]. unfold mount_failed. tauto. }
  destruct (lo_kernel_mount_done (mg_local g)); cbn [negb]; [|apply t_ret; intros g' [[S E] ->]; done].
  eapply t_bind with (Q := fun _ g => safe g /\ stopped g = true /\ mg_changes g = cgs).
  - apply t_get. intros g1. destruct (lo_kernel_stopped (mg_local g1)) eqn:Es; cbn [negb].
    + apply t_ret. intros g' [[[S E] ->] ->]. done.
    + eapply t_bind; [apply t_emit|]. intros []. apply t_upd. intros g' [[[S E] ->] ->].
      split; [by apply safe_stopped|]. by destruct g1 as [[] ? ? ? ? ? ? ? ? ? ? ?].
  - intros []. eapply t_conseq; [apply (check_dlm_notify_done_safe v cgs)|tauto|].
    intros ok g' (S & St & E). tauto.
Qed.

(** ** The end of a start cycle *)

Definition frame (g g' : mountgroup) : Prop :=
  ctl g' = ctl g /\ mg_changes g' = mg_changes g /\ mg_first g' = mg_first g /\
  tidy (mg_node_history g) (mg_node_history g').

Lemma mg_frame_trans g1 g2 g3 : frame g1 g2 -> frame g2 g3 -> frame g1 g3.
Proof. intros (A & B & C & D) (A' & B' & C' & D').
  do 3 (split; [congruence|]). eauto using tidy_trans.
Qed.

Lemma mg_frame_refl g : frame g g.
Proof. do 3 (split; [done|]). apply tidy_refl. Qed.

Lemma frame_history g ns : tidy (mg_node_history g) ns -> frame g (set_history g ns).
Proof. by destruct g. Qed.

Lemma frame_journals g js : frame g (set_journals g js).
Proof. destruct g. do 3 (split; [done|]). apply tidy_refl. Qed.

Lemma create_old_nodes_frame l g : frame g (create_old_nodes l g).
Proof.
  unfold create_old_nodes. destruct (get_id_list l) as [ids|]; [|apply mg_frame_refl].
  assert (H : forall l ns js, tidy ns (fst (create_old_nodes_loop ids l ns js))).
  { clear. induction l as [|x l IH]; intros ns js; cbn; [apply tidy_refl|].
    repeat case_match; try apply tidy_refl; try apply IH.
    eapply tidy_trans; [|apply IH]. apply tidy_upd; by_node. }
  specialize (H l (mg_node_history g) (mg_journals g)).
  destruct (create_old_nodes_loop _ _ _ _) as [ns js].
  eapply mg_frame_trans; [by apply frame_history|apply frame_journals].
Qed.

Lemma create_new_nodes_frame l g g' : create_new_nodes l g = Some g' -> frame g g' /\ mg_journals g' = mg_journals g.
Proof.
  unfold create_new_nodes. intros (ns & E & [= <-])%bind_Some. split; [|by destruct g].
  apply frame_history. revert E. generalize (mg_node_history g).
  induction l as [|x l IH]; intros ns0; cbn; [intros [= <-]; apply tidy_refl|].
  destruct (started x); [apply IH|].
  destruct (get_node_history ns0 x.1); [|intros [= <-]; apply tidy_refl].
  intros (id & _ & E)%bind_Some. case_match; [injection E as <-; apply tidy_refl|].
  eapply tidy_trans; [|by apply IH]. apply tidy_upd; by_node.
Qed.

Lemma create_failed_frame l g : frame g (create_failed_journals l g).
Proof. unfold create_failed_journals. case_match; [apply frame_journals|apply mg_frame_refl]. Qed.

Lemma receive_mount_done_frame g n r : frame g (receive_mount_done g n r).
Proof. apply frame_history, tidy_upd; by_node. Qed.

Lemma receive_result_frame g jid r : frame g (receive_recovery_result g jid r).
Proof. unfold receive_recovery_result. repeat case_match; try apply mg_frame_refl; apply frame_journals. Qed.

Lemma apply_saved_frame cg g : frame g (apply_saved_messages cg g).
Proof.
  unfold apply_saved_messages. generalize (cg_saved_messages cg) as l. intros l. revert g.
  induction l as [|m l IH]; intros g; cbn; [apply mg_frame_refl|].
  eapply mg_frame_trans; [|apply IH]. destruct m; [apply receive_mount_done_frame|apply receive_result_frame].
Qed.

Lemma new_journals_frame c fuel l n g g' :
  new_journals_loop c fuel l n g = Some g' -> frame g g' /\ (clean g -> clean g').
Proof.
  revert n g. induction fuel as [|fuel IH]; intros n g E; cbn in E; [discriminate|].
  destruct (next_new_nodeid l n =? 0); [injection E as <-; split; [apply mg_frame_refl|done]|].
  destruct (get_node_history _ _) as [nd|]; [|by eapply IH].
  apply IH in E as [F C]. clear IH. set (jid := if nd_spectator nd then _ else _) in *.
  assert (T : tidy (mg_node_history g) (upd_node (mg_node_history g) (next_new_nodeid l n) (nd_set_jid jid)))
    by (apply tidy_upd; by_node).
  split.
  - eapply mg_frame_trans; [|exact F]. clear F C. clearbody jid. destruct g as [[] ? ? ? ? ? ? ? ? ? ? ?].
    repeat case_match; cbn in *; do 3 (split; [done|]); exact T.
  - intros Hc. apply C. clear F C T. clearbody jid. destruct g as [[] ? ? ? ? ? ? ? ? ? ? ?].
    repeat case_match; cbn in *; try done; constructor; done.
Qed.

Lemma sync_nodes_safe c cg l g g' :
  sync_nodes c cg l g = Some g' ->
  frame g g' /\ (clean g -> dirty_removed g = [] -> mg_started_count g <> 0 ->
                 NoDup (map nd_nodeid (mg_node_history g)) -> clean g').
Proof.
  unfold sync_nodes, create_new_journals. destruct (Z.eqb_spec (mg_started_count g) 0).
  - intros (g1 & E1 & E2)%bind_Some. apply create_new_nodes_frame in E1 as [E1 _].
    apply new_journals_frame in E2 as [E2 _]. split; [|done].
    eapply mg_frame_trans; [apply create_old_nodes_frame|]. eapply mg_frame_trans; [exact E1|].
    eapply mg_frame_trans; [apply create_failed_frame|]. eapply mg_frame_trans; [apply apply_saved_frame|].
    eapply mg_frame_trans; [apply frame_journals|exact E2].
  - intros (g1 & E1 & E2)%bind_Some. apply create_new_nodes_frame in E1 as [E1 J1].
    apply new_journals_frame in E2 as [E2 C2]. split.
    + eapply mg_frame_trans; [exact E1|]. eapply mg_frame_trans; [apply frame_journals|].
      eapply mg_frame_trans; [apply frame_journals|exact E2].
    + intros Hc Hd _ N. apply C2. destruct E1 as (_ & Ec & _ & T). unfold set_failed_journals.
      rewrite (dirty_fewer g g1); [|apply T, N|by rewrite Ec|done]. cbn.
      unfold clean in *. rewrite <- J1 in Hc. destruct g1; cbn in *.
      apply Forall_forall. intros j Hj. apply list_elem_of_In, filter_In in Hj as [Hj _].
      rewrite Forall_forall in Hc. apply Hc. by apply list_elem_of_In.
Qed.

Lemma safe_first g fr :
  (fr_needed (mg_first g) = true -> fr_needed fr = true) -> safe g -> safe (set_first g fr).
Proof.
  intros H [A B C D N E]. destruct g. constructor; cbn in *; try done.
  unfold guarded in *. cbn in *. destruct E as [E|E]; [left; auto|right; exact E].
Qed.

Lemma sync_first_needed cg l fr : fr_needed fr = true -> fr_needed (sync_first cg l fr) = true.
Proof. unfold sync_first. intros H. by repeat case_match. Qed.

Lemma acks_tidy ns : tidy ns (map (fun n => if ack_due n then nd_set_ack n else n) ns).
Proof.
  intros H. assert (E : map nd_nodeid (map (fun n => if ack_due n then nd_set_ack n else n) ns) = map nd_nodeid ns).
  { clear H. induction ns as [|x ns IH]; cbn; [done|]. rewrite IH. by destruct x, (ack_due _). }
  rewrite E. split; [done|]. intros n. clear. unfold is_withdraw.
  induction ns as [|x ns IH]; cbn; [done|].
  assert (nd_nodeid (if ack_due x then nd_set_ack x else x) = nd_nodeid x) as -> by by destruct x, (ack_due _).
  destruct (nd_nodeid x =? n); [|done]. by destruct x, (ack_due _).
Qed.

Lemma acks_safe cgs :
  triple (fun g => safe g /\ mg_changes g = cgs) send_withdraw_acks
    (fun _ g => safe g /\ mg_changes g = cgs).
Proof.
  apply t_get. intros g.
  eapply t_bind with (Q := fun _ g => safe g /\ mg_changes g = cgs); [intros s a s' [H _] [= <- <-]; exact H|].
  intros []. apply t_upd. intros g' [S E]. split; [apply safe_history; [apply acks_tidy|done]|by destruct g'].
Qed.

Lemma next_started_nonzero n : next_started n <> 0.
Proof. unfold next_started. destruct (Z.eqb_spec (u32 (n + 1)) 0) as [->|]; [done|done]. Qed.

(** After the cycle a node either blocks, or has nothing to recover. *)
Lemma cleanup_safe g cg cgs :
  mg_changes g = cg :: cgs ->
  lo_joining (mg_local g) = negb (lo_mount_client_notified (mg_local g)) ->
  (lo_mount_client_notified (mg_local g) = false -> stopped g = true) ->
  NoDup (map nd_nodeid (mg_node_history g)) ->
  (fr_needed (mg_first g) = true \/ stopped g = true \/ mount_failed g = true \/ clean g) ->
  safe (cleanup_changes g) /\ mg_changes (cleanup_changes g) = [].
Proof.
  intros E A B N H. unfold cleanup_changes. rewrite E. destruct g as [[] [] ? ? ? ? ? ? ? ? ? ?]. cbn in *.
  split; [|done]. constructor; cbn; try done.
  - intros Hz. by apply next_started_nonzero in Hz.
  - intros _. apply next_started_nonzero.
  - unfold guarded, quiet, waiting. cbn. destruct H as [?|[?|[?|?]]]; auto.
Qed.

Lemma sync_state_safe c cg cgs :
  cg_st cg = CGST_WAIT_MESSAGES ->
  triple (fun g => safe g /\ mg_changes g = cg :: cgs) (sync_state c cg ;; upd_mg cleanup_changes)
    (fun _ g => safe g /\ mg_changes g = []).
Proof.
  intros Hst. eapply t_bind with (Q := fun _ g => exists g0, safe g0 /\ mg_changes g0 = cg :: cgs /\
    exists l, sync_nodes c cg l g0 = Some g).
  - unfold sync_state. eapply t_bind; [apply t_deref|]. intros l. cbn beta.
    eapply t_bind with (Q := fun _ g => safe g /\ mg_changes g = cg :: cgs).
    { apply t_upd. intros g [[S E] _]. split; [|by destruct g].
      apply safe_first; [apply sync_first_needed|done]. }
    intros []. eapply t_bind; [apply acks_safe|]. intros []. apply t_get. intros g.
    eapply t_bind; [apply t_deref|]. intros g1. apply t_upd. intros g2 [[[S E] ->] H]. eauto 6.
  - intros []. apply t_upd. intros g (g0 & [A B C D N G] & E & l & H).
    apply sync_nodes_safe in H as [(Fc & Fch & Ff & T) Hc]. injection Fc as H1 H2 H3 H4 H5 H6 H7.
    apply cleanup_safe with cg cgs; rewrite ?H1, ?H2, ?H3, ?H4, ?H5; try done; [congruence|by apply T|].
    destruct G as [?|[?|[?|[G1 G2]]]]; [tauto..|].
    destruct (decide (mg_started_count g0 = 0)) as [Hz|]; [pose proof (C Hz); tauto|].
    do 3 right. apply Hc; try done. apply G2. unfold waiting. by rewrite E.
Qed.

Lemma send_start_keeps c cg P : triple P (send_start c cg) (fun _ => P).
Proof.
  apply t_get. intros g. destruct (start_message c g cg) as [msg|]; [|apply t_ret; tauto].
  intros s a s' [H _] [= <- <-]. exact H.
Qed.

Lemma apply_changes_safe c v cg cgs :
  triple (fun g => safe g /\ mg_changes g = cg :: cgs) (apply_changes c v cg cgs) (fun _ => safe).
Proof.
  unfold apply_changes. destruct (cg_st cg) eqn:Est.
  - eapply t_bind; [apply wait_conditions_safe|]. intros []; [|apply t_ret; tauto].
    eapply t_bind; [apply send_start_keeps|]. intros []. apply t_upd. intros g (S & E & H).
    specialize (H eq_refl). destruct S as [A B C D N G]. unfold may_start in H.
    destruct g; cbn in *; subst. constructor; cbn; try done. unfold guarded, quiet, dirty_removed in *.
    destruct cg; cbn in *. tauto.
  - destruct (wait_messages_done cg); [|apply t_ret; tauto].
    eapply t_conseq; [by apply (sync_state_safe c cg cgs)|tauto|]. intros _ g [S _]. done.
Qed.

Lemma wait_recoveries_clean g : wait_recoveries_done g = true -> clean g.
Proof.
  unfold wait_recoveries_done, clean. intros H%negb_true_iff.
  induction (mg_journals g) as [|j js IH]; [constructor|]. cbn in H.
  apply orb_false_iff in H as [H1 H2]. constructor; auto.
Qed.

Lemma safe_busy g jid b : safe g -> safe (set_busy g jid b).
Proof. destruct g. intros S. eapply safe_ctl; [..|exact S]; done. Qed.

Lemma safe_first_mounter g : safe g -> safe (set_local g (lo_set_first_mounter (mg_local g))).
Proof. destruct g as [[] ? ? ? ? ? ? ? ? ? ? ?]. intros S. eapply safe_ctl; [..|exact S]; done. Qed.

Lemma apply_recovery_safe c v :
  triple (fun g => safe g /\ mg_changes g = []) (apply_recovery c v) (fun _ => safe).
Proof.
  apply t_get. intros g. cbv zeta. destruct (fr_needed (mg_first g)) eqn:Ef.
  { case_match; [|apply t_ret; tauto].
    eapply t_bind with (Q := fun _ g' => safe g' /\ fr_needed (mg_first g') = true).
    - apply t_upd. intros g' [[S E] ->]. split; [by apply safe_first_mounter|by destruct g].
    - intros [] s a s' [S F] E. eapply (start_kernel_safe (s_mg s) s); eauto. }
  destruct (wait_recoveries_done g) eqn:Ew; cbn [negb].
  - case_match; [apply t_ret; tauto|]. intros s a s' [[S E] Eg] Es.
    eapply (start_kernel_safe (s_mg s) s); eauto. split; [done|]. split; [done|]. right.
    subst g. split; [by apply wait_recoveries_clean|]. unfold waiting. rewrite E. tauto.
  - repeat case_match; try (apply t_ret; tauto).
    eapply t_bind; [apply t_emit|]. intros []. case_match; [|apply t_ret; tauto].
    apply t_upd. intros g' [[S E] ->]. by apply safe_busy.
Qed.

Lemma apply_changes_recovery_safe c v : triple safe (apply_changes_recovery c v) (fun _ => safe).
Proof.
  apply t_get. intros g. eapply t_bind with (Q := fun _ => safe).
  - destruct (mg_changes g) as [|cg cgs] eqn:E; [apply t_ret; tauto|].
    eapply t_conseq; [apply apply_changes_safe| |done]. intros g' [S ->]. done.
  - intros []. apply t_get. intros g1. repeat case_match; try (apply t_ret; tauto).
    eapply t_conseq; [apply apply_recovery_safe| |done]. intros g' [S ->]. done.
Qed.

(** ** Events *)

(** A change of the pending changes that keeps the state and the removed nodes. *)
Lemma safe_changes g cgs :
  map cg_st cgs = map cg_st (mg_changes g) -> map cg_removed cgs = map cg_removed (mg_changes g) ->
  safe g -> safe (set_changes g cgs).
Proof.
  destruct g as [? ? ? ? ? ? ? ? ? cgs0 ? ?]. cbn. intros E1 E2 S.
  eapply safe_ctl; [..|exact S]; try done. intros _ W. unfold waiting in *. cbn in *. split.
  - destruct cgs, cgs0; try done. by injection E1 as <-.
  - unfold dirty_removed. cbn. by rewrite E2.
Qed.

Lemma map_insert_same {A B} (f : A -> B) l k x y : l !! k = Some x -> f y = f x -> map f (<[k:=y]> l) = map f l.
Proof.
  intros E H. revert k E. induction l as [|z l IH]; intros [|k] E; cbn in *; simplify_eq; [by rewrite H|by rewrite IH].
Qed.

Lemma safe_upd_memb g k n f : safe g -> safe (upd_change_memb g k n f).
Proof.
  intros S. unfold upd_change_memb. destruct (mg_changes g !! k) as [cg|] eqn:E; [|done].
  apply safe_changes; [..|done]; eapply map_insert_same; eauto; by destruct cg.
Qed.

Lemma add_joined_tidy c seq joined ms ns we : tidy ns (fst (add_joined c seq joined ms ns we)).
Proof.
  revert ms ns we. induction joined as [|n l IH]; intros ms ns we; cbn; [apply tidy_refl|].
  repeat case_match; try apply tidy_refl; [apply IH|]. eapply tidy_trans; [apply tidy_init|apply IH].
Qed.

Lemma add_removed_tidy seq ns x : tidy ns (add_removed seq ns x).
Proof. unfold add_removed. case_match; apply tidy_upd; by_node. Qed.

Lemma add_change_safe c v ms ls js g ok g' ks :
  add_change c v ms ls js g = (ok, g', ks) -> safe g -> safe g'.
Proof.
  unfold add_change. set (seq := if _ : bool then _ else _). clearbody seq. intros H S.
  assert (T : tidy (mg_node_history g) (foldl (add_removed seq) (mg_node_history g) ls))
    by (apply tidy_foldl; intros; apply add_removed_tidy).
  replace (mg_node_history (set_change_seq g seq)) with (mg_node_history g) in H by by destruct g.
  pose proof (add_joined_tidy c seq js (map new_member ms)
    (foldl (add_removed seq) (mg_node_history g) ls) false) as T2.
  destruct (add_joined _ _ _ _ _ _) as [ns r]. cbn in T2.
  assert (S1 : safe (set_change_seq g seq)).
  { destruct g. eapply safe_ctl; [..|exact S]; done. }
  destruct r as [[mems we]|]; injection H as <- <- <-.
  - set (ns' := if we : bool then _ else _).
    assert (T3 : tidy (mg_node_history g) ns').
    { eapply tidy_trans; [exact T|]. eapply tidy_trans; [exact T2|]. subst ns'.
      destruct we; [|apply tidy_refl]. apply tidy_foldl. intros; apply tidy_init. }
    clearbody ns'. assert (S2 : safe (set_history (set_change_seq g seq) ns')).
    { apply safe_history; [by destruct g|done]. }
    destruct g. cbn in *. eapply safe_ctl; [..|exact S2]; done.
  - apply safe_history; [|done]. destruct g. cbn in *. by eapply tidy_trans.
Qed.

Lemma confchg_safe c v ms ls js : triple safe (confchg_cb c v ms ls js) (fun _ => safe).
Proof.
  apply t_get. intros g. case_match.
  - eapply t_bind with (Q := fun _ => safe); [by intros s a s' [S _] [= <- <-]|]. intros [].
    repeat case_match; try apply t_life. eapply t_bind; [apply t_emit|]. intros []. apply t_life.
  - destruct (add_change c v ms ls js g) as [[ok g'] ks] eqn:E.
    eapply t_bind; [apply t_emit_all|]. intros []. cbn beta.
    eapply t_bind with (Q := fun _ => safe).
    + apply t_upd. intros g1 [S ->]. by eapply add_change_safe.
    + intros []. destruct ok; [apply apply_changes_recovery_safe|by apply t_ret].
Qed.

Lemma safe_upd_journal g p f :
  (forall j, j_needs_recovery j = false -> j_needs_recovery (f j) = false) ->
  safe g -> safe (set_journals g (upd_journal p f (mg_journals g))).
Proof.
  intros Hf S. apply safe_journals; [clear S|done]. unfold clean; destruct g; cbn; intros Hc.
  induction Hc; cbn; [constructor|]. case_match; constructor; auto.
Qed.

Lemma result_safe g jid r : safe g -> safe (receive_recovery_result g jid r).
Proof.
  intros S. unfold receive_recovery_result. repeat case_match; try done; by apply safe_upd_journal.
Qed.

Lemma safe_local g f :
  (forall x, lo_joining (f x) = lo_joining x /\ lo_kernel_stopped (f x) = lo_kernel_stopped x /\
    lo_kernel_mount_done (f x) = lo_kernel_mount_done x /\
    lo_kernel_mount_error (f x) = lo_kernel_mount_error x /\
    lo_mount_client_notified (f x) = lo_mount_client_notified x) ->
  safe g -> safe (set_local g (f (mg_local g))).
Proof.
  intros H S. destruct g as [lo ? ? ? ? ? ? ? ? ? ? ?]. destruct (H lo) as (H1 & H2 & H3 & H4 & H5).
  eapply safe_ctl; [..|exact S]; try done. unfold ctl, stopped, mount_failed. cbn. congruence.
Qed.

Ltac by_local := intros x; destruct x; cbn; repeat split.

Lemma leave_safe : triple safe leave_mountgroup (fun _ => safe).
Proof.
  apply t_get. intros g. case_match; [apply t_ret; tauto|].
  eapply t_bind with (Q := fun _ => safe); [|intros []; apply t_emit].
  apply t_upd. intros g' [S _]. apply safe_local; [by_local|done].
Qed.

(** What is taken of the surroundings: when the message that the first recovery is done
    comes, nothing is left to be recovered, since the file system is then started without
    looking; a node that withdraws has not left in one of the pending changes, and mount.gfs
    reports its result once. *)
Definition regular (g : mountgroup) (e : event) : Prop :=
  match e with
  | EvDeliver _ _ GFS_MSG_FIRST_RECOVERY_DONE => quiet g
  | EvDeliver _ hd GFS_MSG_WITHDRAW =>
      hd_nodeid hd ∉ map mb_nodeid (concat (map cg_removed (mg_changes g)))
  | EvMountDone _ => lo_kernel_mount_done (mg_local g) = false
  | _ => True
  end.

Fixpoint regular_run (c : config) (s : gstate) (l : list (event * env)) : Prop :=
  match l with
  | [] => True
  | x :: l' =>
      regular (s_mg s) (fst x) /\
      match step c s x with
      | Some s' => regular_run c s' l'
      | None => True
      end
  end.

Lemma dirty_other g n f :
  n ∉ map mb_nodeid (concat (map cg_removed (mg_changes g))) -> (forall x, nd_nodeid (f x) = nd_nodeid x) ->
  dirty_removed (set_history g (upd_node (mg_node_history g) n f)) = dirty_removed g.
Proof.
  intros Hn Hf. unfold dirty_removed. destruct g as [? ? ? ? ? ? ? ? ? cgs ns ?]. cbn in *. revert Hn.
  generalize (concat (map cg_removed cgs)). induction l as [|m l IH]; cbn; [done|].
  rewrite not_elem_of_cons. intros [H1 H2]. unfold is_withdraw at 1. rewrite get_upd_node by done.
  destruct (Z.eqb_spec (mb_nodeid m) n); [congruence|]. fold (is_withdraw ns (mb_nodeid m)).
  case_match; cbn; by rewrite IH.
Qed.

Lemma withdraw_safe c n :
  triple (fun g => safe g /\ n ∉ map mb_nodeid (concat (map cg_removed (mg_changes g))))
    (receive_withdraw c n) (fun _ => safe).
Proof.
  apply t_get. intros g. case_match; [|apply t_ret; tauto].
  eapply t_bind with (Q := fun _ => safe); [|intros []; case_match; [apply leave_safe|by apply t_ret]].
  apply t_upd. intros g' [[S Hn] ->].
  pose proof (dirty_other g n nd_set_withdraw Hn ltac:(by_node)) as E.
  eapply safe_ctl; [..|exact S]; [by destruct g..| |].
  - replace (mg_node_history (set_history g (upd_node (mg_node_history g) n nd_set_withdraw)))
      with (upd_node (mg_node_history g) n nd_set_withdraw) by by destruct g.
    rewrite ids_upd; [done|by_node].
  - intros _ W. split; [by destruct g|congruence].
Qed.

Lemma first_recovery_safe c : triple (fun g => safe g /\ quiet g) (receive_first_recovery_done c) (fun _ => safe).
Proof.
  apply t_get. intros g. cbv zeta.
  eapply t_bind with (Q := fun _ g' => safe g' /\ quiet g' /\ mg_changes g' = mg_changes g).
  { apply t_upd. intros g' [[[A B C D N E] Q] ->]. destruct g. cbn in *.
    split; [|by split]. constructor; cbn; try done. do 3 right. exact Q. }
  intros []. destruct (mg_changes g) eqn:Ec; [|apply t_ret; tauto]. case_match; [|apply t_ret; tauto].
  intros s a s' (S & [Q _] & E) Es. eapply (start_kernel_safe (s_mg s) s); eauto.
  split; [done|]. split; [done|]. right. split; [done|]. unfold waiting. rewrite E. tauto.
Qed.

Lemma receive_safe c v n p :
  triple (fun g => safe g /\ regular g (EvDeliver 0 (mkHd (0, 0) n) p)) (receive c v n p) (fun _ => safe).
Proof.
  apply t_get. intros g. destruct p; cbn [regular hd_nodeid].
  - apply t_get. intros g1. case_match; [|apply t_ret; tauto]. case_match.
    + apply t_upd. intros g' [[[S _] _] _]. by apply safe_upd_memb.
    + eapply t_bind with (Q := fun _ => safe).
      * apply t_upd. intros g' [[[S _] _] _]. apply safe_history; [apply tidy_upd; by_node|done].
      * intros []. apply t_upd. intros g' S. by apply safe_upd_memb.
  - case_match; [|apply t_upd; intros g' [[S _] _]; apply safe_history; [apply tidy_upd; by_node|done]].
    apply t_get. intros g1. case_match; [by intros s a s' _ [=]|].
    apply t_upd. intros g' [[[S _] _] ->]. apply safe_changes; [..|done]; rewrite H0; by destruct c0.
  - eapply t_conseq; [apply first_recovery_safe|tauto|done].
  - case_match; [|apply t_upd; intros g' [[S _] _]; by apply result_safe].
    apply t_get. intros g1. case_match; [by intros s a s' _ [=]|].
    apply t_upd. intros g' [[[S _] _] ->]. apply safe_changes; [..|done]; rewrite H0; by destruct c0.
  - apply t_get. intros g1. case_match; [|apply t_ret; tauto].
    eapply t_bind with (Q := fun _ => safe).
    + apply t_upd. intros g' [[[S _] _] _]. apply safe_history; [apply tidy_upd; by_node|done].
    + intros []. case_match; [|by apply t_ret]. apply t_upd. intros g' S. apply safe_local; [by_local|done].
  - eapply t_conseq; [apply withdraw_safe|tauto|done].
  - apply t_ret. tauto.
Qed.

Lemma deliver_safe c v n hd p :
  triple (fun g => safe g /\ regular g (EvDeliver n hd p)) (deliver_cb c v n hd p) (fun _ => safe).
Proof.
  unfold deliver_cb. case_match; [apply t_ret; tauto|].
  eapply t_bind with (Q := fun _ => safe); [|intros []; apply apply_changes_recovery_safe].
  eapply t_conseq; [apply receive_safe| |done]. intros g [S R]. split; [done|]. by destruct p.
Qed.

Lemma dlm_safe c v r : triple safe (process_dlmcontrol c v r) (fun _ => safe).
Proof.
  assert (H : triple safe (set_poll_dlm false ;; apply_changes_recovery c v) (fun _ => safe)).
  { eapply t_bind; [apply t_poll|]. intros []. apply apply_changes_recovery_safe. }
  apply t_get. intros g. destruct r.
  - repeat case_match; try (apply t_ret; tauto).
    eapply t_bind with (Q := fun _ => safe); [|by intros []]. apply t_upd. intros g' [S ->].
    assert (S' : safe (set_history g (upd_node (mg_node_history g) nodeid
      (nd_set_dlm (nd_check_dlm n) true result)))) by (apply safe_history; [apply tidy_upd; by_node|done]).
    destruct g. eapply safe_ctl; [..|exact S']; done.
  - eapply t_bind with (Q := fun _ => safe); [|by intros []]. apply t_upd. intros g' [S ->].
    destruct g. eapply safe_ctl; [..|exact S]; done.
  - eapply t_conseq; [exact H|tauto|done].
Qed.

Lemma uevent_safe c v jid st fd : triple safe (process_recovery_uevent c v jid st fd) (fun _ => safe).
Proof.
  unfold process_recovery_uevent. cbv zeta.
  destruct (if jid <? 0 then _ else _) as [jid'|]; [|by apply t_ret].
  destruct (if st <? 0 then _ else _) as [st'|]; [|by apply t_ret].
  apply t_get. intros g. destruct (fr_needed (mg_first g)) eqn:Ef; cbn [negb].
  - case_match; [apply t_ret; tauto|]. destruct (if fd <? 0 then _ else _) as [fd'|]; [|apply t_ret; tauto].
    eapply t_bind with (Q := fun _ => safe); [|intros []; apply apply_changes_recovery_safe].
    case_match; [|apply t_ret; tauto]. eapply t_bind with (Q := fun _ => safe); [|intros []; apply t_emit].
    apply t_upd. intros g' [S ->]. by apply safe_first.
  - case_match; [apply t_ret; tauto|]. eapply t_bind with (Q := fun _ => safe).
    { apply t_upd. intros g' [S ->]. by apply safe_busy. }
    intros []. repeat case_match; try by apply t_ret.
    all: eapply t_bind with (Q := fun _ => safe);
      [apply t_upd; intros g' S; by apply safe_upd_journal|].
    all: intros []; eapply t_bind with (Q := fun _ => safe); [|intros []; apply apply_changes_recovery_safe].
    all: first [apply t_emit|by apply t_ret].
Qed.

Lemma mount_done_safe r :
  triple (fun g => safe g /\ lo_kernel_mount_done (mg_local g) = false) (do_mount_done r) (fun _ => safe).
Proof.
  eapply t_bind with (Q := fun _ => safe); [|intros []; apply t_emit]. apply t_upd.
  intros g [[A B C D N G] H]. destruct g as [[] [] ? ? ? ? ? ? ? ? ? ?]. cbn in *. constructor; cbn; try done.
  unfold guarded, mount_failed, stopped in *. cbn in *. subst. destruct G as [?|[?|[[=]|?]]]; tauto.
Qed.

Lemma step_safe c s x s' : safe (s_mg s) -> regular (s_mg s) (fst x) -> step c s x = Some s' -> safe (s_mg s').
Proof.
  intros S R. destruct x as [e v]. unfold step. cbn in R.
  assert (H : forall m : M unit, triple (fun g => safe g /\ regular g e) m (fun _ => safe) ->
    match s_life s with Alive => '(_, s'0) ← m s; Some s'0 | _ => Some s end = Some s' -> safe (s_mg s')).
  { intros m T. destruct (s_life s); [|by intros [= <-]..].
    intros ([[] s1] & E & [= <-])%bind_Some. by eapply (T s). }
  destruct e; try (apply H; clear H).
  - eapply t_conseq; [apply confchg_safe|tauto|done].
  - apply deliver_safe.
  - eapply t_conseq; [apply dlm_safe|tauto|done].
  - eapply t_conseq; [apply uevent_safe|tauto|done].
  - apply mount_done_safe.
  - apply t_get. intros g. case_match; [apply t_ret; tauto|].
    eapply t_conseq; [apply leave_safe|tauto|done].
  - intros E. specialize (H (do_remount ro)). destruct (s_life s); [|discriminate..].
    apply H; [|exact E]. clear H E.
    apply t_get. intros g. repeat case_match; try (intros s1 a s2 [[? _] _] [= <- <-]; done).
  - unfold do_withdraw. case_match; [apply t_ret; tauto|]. apply t_upd. intros g [S1 _].
    apply safe_local; [by_local|done].
  - unfold dmsetup_suspend_done. case_match; [|apply t_ret; tauto]. by intros s1 a s2 [? _] [= <- <-].
  - intros [= <-]. unfold receive_withdraw_ack. by destruct (s_life s).
  - apply t_upd. intros g [S1 _]. apply safe_history; [|done].
    eapply tidy_trans; [apply tidy_init|apply tidy_upd; by_node].
  - apply t_upd. intros g [S1 _]. apply safe_history; [|done]. apply tidy_upd; by_node.
  - eapply t_conseq; [apply apply_changes_recovery_safe|tauto|done].
Qed.

Lemma run_safe c l s s' : safe (s_mg s) -> regular_run c s l -> run c s l = Some s' -> safe (s_mg s').
Proof.
  revert s. induction l as [|x l IH]; intros s S R E; cbn in *; [by injection E as <-|].
  apply bind_Some in E as (s1 & E1 & E). destruct R as [R1 R2]. rewrite E1 in R2.
  apply (IH s1); [by eapply step_safe|done|done].
Qed.

Lemma join_safe ro spectator : safe (s_mg (gfs_join_mountgroup ro spectator)).
Proof. constructor; cbn; try done; [constructor|]. right. by left. Qed.

(** C4: in the executions of a node that joined a mount group, when no first recovery
    is under way and the file system runs on the node (it is not blocked and its mount
    has not failed), no journal waits for recovery, and the changes that the node has
    sent a start message for contain no failed and no withdrawn node.  So a failure is
    followed by blocking the file system before the start message, and the file system
    is not started before all journals are recovered.  The executions are those in which a
    message that the first recovery is done comes when nothing is left to be recovered (it
    starts the file system whatever the journals are), no node withdraws that a pending change
    has removed, and mount.gfs reports its result once. *)
Theorem blocked_until_recovered c ro spectator l s
  (Hr : regular_run c (gfs_join_mountgroup ro spectator) l)
  (Hs : run c (gfs_join_mountgroup ro spectator) l = Some s)
  (Hf : fr_needed (mg_first (s_mg s)) = false)
  (Hk : lo_kernel_stopped (mg_local (s_mg s)) = false)
  (Hm : mount_failed (s_mg s) = false) :
  Forall (fun j => j_needs_recovery j = false) (mg_journals (s_mg s)) /\
  (waiting (s_mg s) -> dirty_removed (s_mg s) = []).
Proof.
  pose proof (sf_guarded _ (run_safe _ _ _ _ (join_safe ro spectator) Hr Hs)) as [H|[H|[H|H]]];
    [congruence| |congruence|exact H]. unfold stopped in H. congruence.
Qed.

(** A run: node 2 joins the mount group of 1 and 3 and mounts; node 3 fails, the file
    system is blocked, its journal is recovered by node 2, and the file system runs. *)
Definition ex_cfg : config := mkCfg 2 (1, 1).
Definition ex_v : env := mkEnv 100 true true None None None.
Definition ex_hd (n : Z) : gfs_header := mkHd (1, 1) n.

Definition ex_start (started members joined removed failed : Z) (ids : list id_info) : payload :=
  GFS_MSG_START (mkStart (mkMi started members joined removed failed false 0) ids).

Definition ex_msg1 : payload := ex_start 1 3 1 0 0 [mkId 1 0 9; mkId 2 (-1) 1; mkId 3 1 9].
Definition ex_msg2 : payload := ex_start 0 3 1 0 0 [mkId 1 (-1) 1; mkId 2 (-1) 1; mkId 3 (-1) 1].
Definition ex_msg3 (n : Z) : payload := ex_start n 2 0 1 1 [mkId 1 0 9; mkId 2 2 9; mkId 0 1 2].

Definition ex_events : list event :=
  [EvConfchg [1; 2; 3] [] [2]; EvDlm (DLMC_RESULT_REGISTER 0);
   EvDeliver 1 (ex_hd 1) ex_msg1; EvDeliver 2 (ex_hd 2) ex_msg2; EvDeliver 3 (ex_hd 3) ex_msg1;
   EvMountDone 0; EvDeliver 2 (ex_hd 2) (GFS_MSG_MOUNT_DONE 0);
   EvConfchg [1; 2] [(3, CPG_REASON_NODEDOWN)] []; EvDlm (DLMC_RESULT_NOTIFIED 3 0);
   EvDeliver 1 (ex_hd 1) (ex_msg3 2); EvDeliver 2 (ex_hd 2) (ex_msg3 1);
   EvRecovery 1 LM_RD_SUCCESS 0; EvDeliver 2 (ex_hd 2) (GFS_MSG_RECOVERY_RESULT 1 LM_RD_SUCCESS)].

Definition ex_run (n : nat) : option gstate :=
  run ex_cfg (gfs_join_mountgroup false false) (map (fun e => (e, ex_v)) (take n ex_events)).

(** What the node does, in order. *)
Example ex_effects :
  s_out <$> ex_run 13 = Some
    [SendStart 1 1 (mkStart (mkMi 0 3 1 0 0 false 0) [mkId 1 (-1) 1; mkId 2 (-1) 1; mkId 3 (-1) 1]);
     SysfsBlock false; ReplyJoin 2 false; SendMountDone 0;
     SysfsBlock true; DlmNotified 3;
     SendStart 2 0 (mkStart (mkMi 1 2 0 1 1 false 0) [mkId 1 0 9; mkId 2 2 9; mkId 0 1 2]);
     SysfsRecover 1; SendRecoveryResult 1 LM_RD_SUCCESS; SysfsBlock false].
Proof. vm_compute. reflexivity. Qed.

Definition ex_final : gstate := default (gfs_join_mountgroup false false) (ex_run 13).

Lemma blocked_until_recovered_witness :
  ex_run 13 = Some ex_final /\ lo_kernel_stopped (mg_local (s_mg ex_final)) = false /\
  Forall (fun j => j_needs_recovery j = false) (mg_journals (s_mg ex_final)).
Proof.
  split; [vm_compute; reflexivity|]. split; [vm_compute; reflexivity|].
  apply (blocked_until_recovered ex_cfg false false (map (fun e => (e, ex_v)) (take 13 ex_events)) ex_final).
  - vm_compute. repeat split.
  - vm_compute. reflexivity.
  - vm_compute. reflexivity.
  - vm_compute. reflexivity.
  - vm_compute. reflexivity.
Defined.

