(* ===== verification/GfsJournals.v ===== *)
(** * Mount groups: old and new members agree on the journals

    At the end of a start cycle an old member updates its journals, and a new member
    builds them from a start message.  Journals are compared up to their order in the
    list and the name of the failed node: by owner and need of recovery of every
    journal id. *)

From S2P Require Import Prelude GfsMount GfsMountThm.
Open Scope Z_scope.

(** ** Journal lists up to the order *)

Definition jview (js : list journal) (jid : Z) : option (Z * bool) :=
  (fun j => (j_nodeid j, j_needs_recovery j)) <$> find_journal js jid.

Definition jeq (js js' : list journal) : Prop := forall jid, jview js jid = jview js' jid.

#[export] Instance jeq_equiv : Equivalence jeq.
Proof. split; [by intros js|by intros js js' H jid|]. intros a b d H1 H2 jid. by rewrite H1. Qed.

Lemma find_view js jid :
  (match find_journal js jid with Some _ => false | None => true end) =
  (match jview js jid with Some _ => false | None => true end).
Proof. unfold jview. by destruct (find_journal js jid). Qed.

#[export] Instance next_free_jid_proper : Proper (jeq ==> eq) next_free_jid.
Proof.
  intros js js' H. unfold next_free_jid. generalize (seqZ 0 MAX_JOURNALS).
  induction l as [|i l IH]; cbn; [done|]. rewrite !find_view, (H i). by destruct (jview js' i).
Qed.

#[export] Instance jeq_cons_proper j : Proper (jeq ==> jeq) (cons j).
Proof.
  intros js js' H jid. unfold jview, find_journal. cbn. destruct (j_jid j =? jid); [done|apply H].
Qed.

Definition jids (js : list journal) : list Z := map j_jid js.

Lemma find_journal_in js j : NoDup (jids js) -> j ∈ js -> find_journal js (j_jid j) = Some j.
Proof.
  induction js as [|k js IH]; cbn; [set_solver|]. rewrite NoDup_cons. intros [H1 H2] [->|Hj]%elem_of_cons.
  - by rewrite Z.eqb_refl.
  - destruct (Z.eqb_spec (j_jid k) (j_jid j)) as [E|]; [|by apply IH].
    exfalso. apply H1. rewrite E. apply list_elem_of_fmap. eauto.
Qed.

Lemma find_journal_some js jid j : find_journal js jid = Some j -> j ∈ js /\ j_jid j = jid.
Proof. intros [H1 H2]%find_some. split; [by apply list_elem_of_In|lia]. Qed.

Lemma find_journal_none js jid : find_journal js jid = None -> jid ∉ jids js.
Proof.
  intros H (j & -> & Hj)%list_elem_of_fmap. eapply find_none in H; [|by apply list_elem_of_In].
  cbn in H. lia.
Qed.

Definition jtriple (j : journal) : Z * Z * bool := (j_jid j, j_nodeid j, j_needs_recovery j).

Lemma jeq_triples js js' :
  NoDup (jids js) -> NoDup (jids js') ->
  (forall t, t ∈ map jtriple js <-> t ∈ map jtriple js') -> jeq js js'.
Proof.
  intros N N' H jid. unfold jview.
  assert (W : forall a b, NoDup (jids b) -> (forall t, t ∈ map jtriple a -> t ∈ map jtriple b) ->
    forall j, find_journal a jid = Some j ->
    exists k, find_journal b jid = Some k /\ j_nodeid k = j_nodeid j /\ j_needs_recovery k = j_needs_recovery j).
  { intros a b Nb Hab j [Hj <-]%find_journal_some.
    assert (Ht : jtriple j ∈ map jtriple a) by (apply list_elem_of_fmap; eauto).
    apply Hab in Ht. apply list_elem_of_fmap in Ht as (k & [= E1 E2 E3] & Hk).
    exists k. rewrite E1. by rewrite find_journal_in. }
  destruct (find_journal js jid) as [j|] eqn:E.
  - destruct (W js js' N' ltac:(intros; by apply H) j E) as (k & -> & E1 & E2). cbn. congruence.
  - destruct (find_journal js' jid) as [k|] eqn:E'; [|done].
    destruct (W js' js N ltac:(intros; by apply H) k E') as (j & E2 & _). congruence.
Qed.

(** ** The loop over the new nodes *)

Definition pos_ids (l : list (Z * start_msg)) : Prop := Forall (fun x => 0 < fst x) l.

Lemma low_nodeid_spec l :
  pos_ids l ->
  (l = [] /\ low_nodeid l = 0) \/
  ((exists x, x ∈ l /\ fst x = low_nodeid l) /\ forall y, y ∈ l -> low_nodeid l <= fst y).
Proof.
  unfold low_nodeid, pos_ids. destruct l as [|x l]; [by left|]. intros [Hx Hl]%Forall_cons. right. cbn [foldl].
  change (if 0 =? 0 then fst x else _) with (fst x).
  assert (W : forall a, 0 < a -> let r := foldl (fun low y => if low =? 0 then fst y else if fst y <? low then fst y else low) a l in
    (r = a \/ exists y, y ∈ l /\ fst y = r) /\ r <= a /\ forall y, y ∈ l -> r <= fst y).
  { clear Hx. induction Hl as [|y l Hy Hl IH]; intros a Ha; cbn; [split; [by left|]; split; [lia|set_solver]|].
    destruct (Z.eqb_spec a 0); [lia|]. destruct (Z.ltb_spec (fst y) a).
    - destruct (IH (fst y) Hy) as ([E|(z & Hz & E)] & L1 & L2).
      + split; [right; exists y; split; [set_solver|done]|]. split; [lia|]. intros z [->|Hz]%elem_of_cons; auto.
      + split; [right; exists z; split; [set_solver|done]|]. split; [lia|]. intros w [->|Hw]%elem_of_cons; auto.
    - destruct (IH a Ha) as ([E|(z & Hz & E)] & L1 & L2).
      + split; [by left|]. split; [lia|]. intros z [->|Hz]%elem_of_cons; [lia|auto].
      + split; [right; exists z; split; [set_solver|done]|]. split; [lia|].
        intros w [->|Hw]%elem_of_cons; [lia|auto]. }
  destruct (W (fst x) Hx) as ([E|(z & Hz & E)] & L1 & L2); split.
  - exists x. split; [set_solver|done].
  - intros y [->|Hy]%elem_of_cons; auto.
  - exists z. split; [set_solver|done].
  - intros y [->|Hy]%elem_of_cons; auto.
Qed.

(** The new nodes above [prev]. *)
Definition new_above (l : list (Z * start_msg)) (prev : Z) : list (Z * start_msg) :=
  List.filter (fun x => negb (started x) && negb (fst x <=? prev)) l.

Lemma elem_new_above l prev x : x ∈ new_above l prev <-> x ∈ l /\ started x = false /\ prev < fst x.
Proof.
  unfold new_above. rewrite !list_elem_of_In, filter_In, andb_true_iff, !negb_true_iff. intuition lia.
Qed.

Lemma pos_above l prev : pos_ids l -> pos_ids (new_above l prev).
Proof.
  unfold pos_ids. rewrite !Forall_forall. intros H x Hx%elem_new_above. apply H. tauto.
Qed.

Lemma new_above_shrinks l prev x :
  x ∈ new_above l prev -> (length (new_above l (fst x)) < length (new_above l prev))%nat.
Proof.
  intros (Hl & Hn & Hp)%elem_new_above. unfold new_above.
  assert (W : forall l0, (length (new_above l0 (fst x)) <= length (new_above l0 prev))%nat).
  { induction l0 as [|y l0 IH]; cbn; [done|]. destruct (started y); cbn; [done|].
    destruct (Z.leb_spec (fst y) (fst x)), (Z.leb_spec (fst y) prev); cbn; unfold new_above in IH; lia. }
  induction l as [|y l IH]; [set_solver|]. cbn. specialize (W l). unfold new_above in W.
  apply elem_of_cons in Hl as [<-|Hl].
  - rewrite Hn. cbn. destruct (Z.leb_spec (fst x) (fst x)), (Z.leb_spec (fst x) prev); cbn; lia.
  - specialize (IH Hl). destruct (started y); cbn; [done|].
    destruct (Z.leb_spec (fst y) (fst x)), (Z.leb_spec (fst y) prev); cbn; lia.
Qed.

Lemma next_free_fresh js : next_free_jid js = JID_NONE \/ jview js (next_free_jid js) = None.
Proof.
  unfold next_free_jid. destruct (List.find _ _) as [i|] eqn:E; [right|by left].
  apply find_some in E as [_ E]. rewrite find_view in E. by destruct (jview js i).
Qed.

Lemma jview_none js jid : jview js jid = None -> jid ∉ jids js.
Proof. unfold jview. intros H%fmap_None. by apply find_journal_none. Qed.

(** The journal id of a member, and that it is the member's journal. *)
Definition node_jid (g : mountgroup) (n : Z) : option Z := nd_jid <$> get_node_history (mg_node_history g) n.

Definition owned (g : mountgroup) (n : Z) : Prop :=
  exists jid, node_jid g n = Some jid /\ (jid = JID_NONE \/ jview (mg_journals g) jid = Some (n, false)).

(** One turn of the loop. *)
Definition assign (c : config) (n : Z) (jid : Z) (g : mountgroup) : mountgroup :=
  let g1 := set_history g (upd_node (mg_node_history g) n (nd_set_jid jid)) in
  let g2 := if n =? our_nodeid c then set_local g1 (lo_set_jid jid (mg_local g1)) else g1 in
  if jid =? JID_NONE then g2 else set_journals g2 (new_journal jid n :: mg_journals g2).

Lemma assign_history c n jid g :
  mg_node_history (assign c n jid g) = upd_node (mg_node_history g) n (nd_set_jid jid).
Proof. unfold assign. destruct g. by repeat case_match. Qed.

Lemma assign_journals c n jid g :
  mg_journals (assign c n jid g) =
    if jid =? JID_NONE then mg_journals g else new_journal jid n :: mg_journals g.
Proof. unfold assign. destruct g. by repeat case_match. Qed.

Lemma assign_get c n jid g m :
  get_node_history (mg_node_history (assign c n jid g)) m =
    if m =? n then nd_set_jid jid <$> get_node_history (mg_node_history g) m
    else get_node_history (mg_node_history g) m.
Proof. rewrite assign_history, get_upd_node; [done|by_node]. Qed.

Lemma assign_jid c n jid g m :
  node_jid (assign c n jid g) m = if m =? n then (fun _ => jid) <$> node_jid g m else node_jid g m.
Proof.
  unfold node_jid. rewrite assign_get. destruct (m =? n); [|done].
  destruct (get_node_history _ m) as [x|]; [by destruct x|done].
Qed.

Lemma loop_turn c fuel l prev g n x :
  next_new_nodeid l prev = n -> n <> 0 -> get_node_history (mg_node_history g) n = Some x ->
  new_journals_loop c (S fuel) l prev g =
  new_journals_loop c fuel l n
    (assign c n (if nd_spectator x then JID_NONE else next_free_jid (mg_journals g)) g).
Proof. intros <- Hn E. cbn. destruct (Z.eqb_spec (next_new_nodeid l prev) 0); [done|]. by rewrite E. Qed.

Lemma assign_owned c n jid g :
  jid = JID_NONE \/ jview (mg_journals g) jid = None ->
  (get_node_history (mg_node_history g) n <> None -> owned (assign c n jid g) n) /\
  (forall m, owned g m -> owned (assign c n jid g) m).
Proof.
  intros Hj.
  assert (New : jid = JID_NONE \/ jview (mg_journals (assign c n jid g)) jid = Some (n, false)).
  { rewrite assign_journals. destruct (Z.eqb_spec jid JID_NONE); [by left|right].
    unfold jview. cbn. by rewrite Z.eqb_refl. }
  split.
  - intros Hg. exists jid. rewrite assign_jid, Z.eqb_refl. unfold node_jid.
    destruct (get_node_history _ n); [|done]. split; [done|exact New].
  - intros m (k & Hk & Ho). unfold owned. rewrite assign_jid, Hk. destruct (Z.eqb_spec m n) as [->|Hm].
    + exists jid. split; [done|exact New].
    + exists k. split; [done|]. destruct Ho as [Ho|Ho]; [by left|right]. rewrite assign_journals.
      destruct (Z.eqb_spec jid JID_NONE); [done|]. unfold jview, find_journal. cbn [List.find new_journal j_jid].
      destruct (Z.eqb_spec jid k) as [->|]; [|done]. destruct Hj; congruence.
Qed.

Lemma assign_nodup c n jid g :
  jid = JID_NONE \/ jview (mg_journals g) jid = None ->
  NoDup (jids (mg_journals g)) -> NoDup (jids (mg_journals (assign c n jid g))).
Proof.
  intros Hj N. rewrite assign_journals. destruct (Z.eqb_spec jid JID_NONE); [done|].
  destruct Hj as [|Hj]; [done|]. cbn. apply NoDup_cons. split; [by apply jview_none|done].
Qed.

(** Two nodes agree on the members of [l] up to [prev]. *)
Record agree (l : list (Z * start_msg)) (prev : Z) (g h : mountgroup) : Prop := mkAgree {
  ag_journals : jeq (mg_journals g) (mg_journals h);
  ag_nodup : NoDup (jids (mg_journals g));
  ag_nodup' : NoDup (jids (mg_journals h));
  ag_known : forall x, x ∈ l -> started x = false -> exists a b,
    get_node_history (mg_node_history g) (fst x) = Some a /\
    get_node_history (mg_node_history h) (fst x) = Some b /\ nd_spectator a = nd_spectator b;
  ag_jid : forall x, x ∈ l -> started x = true \/ fst x <= prev ->
    node_jid g (fst x) = node_jid h (fst x) /\ owned g (fst x)
}.

Lemma agree_assign c c' l prev n jid g h :
  agree l prev g h ->
  (exists y, y ∈ l /\ started y = false /\ fst y = n) ->
  (forall y, y ∈ l -> started y = false -> prev < fst y -> n <= fst y) ->
  jid = JID_NONE \/ jview (mg_journals g) jid = None ->
  agree l n (assign c n jid g) (assign c' n jid h).
Proof.
  intros [A N N' K J] (y & Hy & Hs & <-) Hmin Hj.
  assert (Hj' : jid = JID_NONE \/ jview (mg_journals h) jid = None) by (rewrite <- (A jid); done).
  destruct (K y Hy Hs) as (a & b & Ea & Eb & _).
  destruct (assign_owned c (fst y) jid g Hj) as [O1 O2]. constructor.
  - rewrite !assign_journals. destruct (jid =? JID_NONE); [done|]. by f_equiv.
  - by apply assign_nodup.
  - by apply assign_nodup.
  - intros x Hx Hn. destruct (K x Hx Hn) as (p & q & E1 & E2 & E3). rewrite !assign_get, E1, E2.
    destruct (fst x =? fst y); [|by exists p, q]. eexists _, _. repeat split. by destruct p, q.
  - intros x Hx Hc. destruct (decide (fst x = fst y)) as [E|E].
    + rewrite E. split; [|apply O1; congruence]. rewrite !assign_jid, Z.eqb_refl. unfold node_jid.
      by rewrite Ea, Eb.
    + assert (Hc' : started x = true \/ fst x <= prev).
      { destruct Hc as [?|Hc]; [by left|]. destruct (started x) eqn:Es; [by left|right].
        destruct (Z.le_gt_cases (fst x) prev) as [|Hgt]; [done|]. specialize (Hmin x Hx Es ltac:(lia)). lia. }
      destruct (J x Hx Hc') as [J1 J2]. split; [|by apply O2]. rewrite !assign_jid.
      destruct (Z.eqb_spec (fst x) (fst y)); [done|exact J1].
Qed.

Lemma new_journals_agree c c' l :
  pos_ids l -> forall fuel prev g h,
  (length (new_above l prev) < fuel)%nat -> 0 <= prev -> agree l prev g h ->
  exists g' h', new_journals_loop c fuel l prev g = Some g' /\ new_journals_loop c' fuel l prev h = Some h' /\
    jeq (mg_journals g') (mg_journals h') /\ NoDup (jids (mg_journals g')) /\ NoDup (jids (mg_journals h')) /\
    forall x, x ∈ l -> node_jid g' (fst x) = node_jid h' (fst x) /\ owned g' (fst x).
Proof.
  intros Hp. induction fuel as [|fuel IH]; intros prev g h Hl H0 A; [lia|].
  destruct (low_nodeid_spec (new_above l prev) (pos_above l prev Hp)) as [[E Ez]|[(y & Hy & Ey) Hmin]].
  - exists g, h. cbn. unfold next_new_nodeid. fold (new_above l prev). rewrite Ez. cbn.
    destruct A as [A N N' K J]. repeat split; try done; apply J; try done;
      (destruct (started x) eqn:Es; [by left|right]; apply Z.nlt_ge; intros Hlt;
       assert (Hx : x ∈ new_above l prev) by (by apply elem_new_above); rewrite E in Hx; set_solver).
  - change (low_nodeid (new_above l prev)) with (next_new_nodeid l prev) in Ey, Hmin.
    set (n := next_new_nodeid l prev) in *.
    pose proof (new_above_shrinks l prev y Hy) as Hs. rewrite Ey in Hs.
    apply elem_new_above in Hy as (Hyl & Hys & Hyp). destruct (ag_known _ _ _ _ A y Hyl Hys) as (a & b & Ea & Eb & Es).
    rewrite Ey in *. rewrite (loop_turn c fuel l prev g n a), (loop_turn c' fuel l prev h n b) by (done || lia).
    assert (Ej : next_free_jid (mg_journals h) = next_free_jid (mg_journals g)) by (by rewrite (ag_journals _ _ _ _ A)).
    rewrite Ej, <- Es. apply IH; [lia|lia|]. eapply agree_assign; [exact A|by exists y| |].
    + intros z Hz Hzs Hzp. apply Hmin, elem_new_above. done.
    + destruct (nd_spectator a); [by left|apply next_free_fresh].
Qed.

(** The fuel is enough for any members. *)
Lemma new_journals_total c l :
  pos_ids l -> forall fuel prev g, (length (new_above l prev) < fuel)%nat ->
  exists g', new_journals_loop c fuel l prev g = Some g' /\
    (NoDup (jids (mg_journals g)) -> NoDup (jids (mg_journals g'))) /\
    (forall j, j ∈ mg_journals g -> j ∈ mg_journals g').
Proof.
  intros Hp. induction fuel as [|fuel IH]; intros prev g Hl; [lia|]. cbn [new_journals_loop]. cbv zeta.
  unfold next_new_nodeid. fold (new_above l prev).
  destruct (low_nodeid_spec (new_above l prev) (pos_above l prev Hp)) as [[_ ->]|[(y & Hy & Ey) _]];
    [by exists g|]. rewrite <- Ey.
  pose proof (new_above_shrinks l prev y Hy) as Hs.
  assert (0 < fst y) by (pose proof (pos_above l prev Hp) as P; unfold pos_ids in P; rewrite Forall_forall in P; auto).
  destruct (Z.eqb_spec (fst y) 0); [lia|].
  destruct (get_node_history (mg_node_history g) (fst y)) as [x|]; [|apply IH; lia].
  set (jid := if nd_spectator x then _ else _).
  assert (Hj : jid = JID_NONE \/ jview (mg_journals g) jid = None)
    by (subst jid; destruct (nd_spectator x); [by left|apply next_free_fresh]).
  destruct (IH (fst y) (assign c (fst y) jid g) ltac:(lia)) as (g' & E & N & K).
  exists g'. split; [exact E|]. split; [eauto using assign_nodup|]. intros j Hin. apply K.
  rewrite assign_journals. case_match; [done|set_solver].
Qed.

(** ** The nodes of a start cycle *)

Lemma infos_ids cg l : infos cg = Some l -> map fst l = map mb_nodeid (cg_members cg).
Proof.
  unfold infos. generalize (cg_members cg). intros ms E%mapM_Some.
  induction E as [|m x ms l H _ IH]; cbn; [done|].
  apply bind_Some in H as (y & _ & [= <-]). by rewrite IH.
Qed.

Lemma find_memb_in_ids ms n :
  match find_memb_in ms n with Some _ => true | None => false end = bool_decide (n ∈ map mb_nodeid ms).
Proof.
  induction ms as [|m ms IH]; cbn; [by rewrite bool_decide_eq_false_2 by set_solver|].
  destruct (Z.eqb_spec (mb_nodeid m) n) as [<-|Hn]; [by rewrite bool_decide_eq_true_2 by set_solver|].
  rewrite IH. apply bool_decide_ext. rewrite elem_of_cons. naive_solver.
Qed.

Lemma member_in_infos cg l n :
  infos cg = Some l ->
  match find_memb cg n with Some _ => true | None => false end = bool_decide (n ∈ map fst l).
Proof. intros H. rewrite (infos_ids cg l H). apply find_memb_in_ids. Qed.

Definition news (l : list (Z * start_msg)) : list (Z * start_msg) := List.filter (fun x => negb (started x)) l.
Definition olds (l : list (Z * start_msg)) : list (Z * start_msg) := List.filter started l.

(** What a new node says of itself. *)
Definition own_entry (x : Z * start_msg) : Prop :=
  exists id, get_id_struct (sm_ids (snd x)) (fst x) = Some id /\
    flag (id_flags id) IDI_NODEID_IS_MEMBER = true /\ flag (id_flags id) IDI_JID_NEEDS_RECOVERY = false.
Definition own_spectator (x : Z * start_msg) : bool :=
  match get_id_struct (sm_ids (snd x)) (fst x) with
  | Some id => flag (id_flags id) IDI_MOUNT_SPECTATOR
  | None => false
  end.

Lemma elem_ids (l : list (Z * start_msg)) x : x ∈ l -> fst x ∈ map fst l.
Proof. intros H. apply list_elem_of_fmap. eauto. Qed.

Lemma ids_inj (l : list (Z * start_msg)) x y :
  NoDup (map fst l) -> x ∈ l -> y ∈ l -> fst x = fst y -> x = y.
Proof.
  induction l as [|z l IH]; [set_solver|]. cbn. rewrite NoDup_cons, !elem_of_cons. intros [Hz N] Hx Hy E.
  pose proof (elem_ids l) as Hi. destruct Hx as [->|Hx], Hy as [->|Hy]; [done|..|by apply IH].
  - exfalso. apply Hz. rewrite E. auto.
  - exfalso. apply Hz. rewrite <- E. auto.
Qed.

Lemma create_new_spec l ns :
  NoDup (map fst l) ->
  (forall x, x ∈ l -> get_node_history ns (fst x) <> None) ->
  (forall x, x ∈ l -> started x = false -> own_entry x) ->
  exists ns', create_new_nodes_loop l ns = Some ns' /\
    (forall m, m ∉ map fst (news l) -> get_node_history ns' m = get_node_history ns m) /\
    (forall x, x ∈ l -> started x = false -> exists a,
       get_node_history ns' (fst x) = Some a /\ nd_spectator a = own_spectator x).
Proof.
  revert ns. induction l as [|x l IH]; intros ns N K E; cbn; [exists ns; set_solver|].
  cbn in N. apply NoDup_cons in N as [Nx N].
  assert (E' : forall y, y ∈ l -> started y = false -> own_entry y) by (intros; apply E; [set_solver|done]).
  destruct (started x) eqn:Es; cbn [negb].
  - destruct (IH ns N) as (ns' & H1 & H2 & H3); [intros; apply K; set_solver|done|].
    exists ns'. split; [done|]. split; [done|]. intros y [->|Hy]%elem_of_cons Hn; [congruence|auto].
  - destruct (E x ltac:(set_solver) Es) as (id & Eid & F1 & F2).
    destruct (get_node_history ns (fst x)) as [a|] eqn:Ea; [|by destruct (K x ltac:(set_solver))].
    rewrite Eid. cbn. rewrite F1, F2. cbn.
    match goal with |- context [upd_node ns (fst x) ?f] => set (upd := f) end.
    assert (Hu : forall y, nd_nodeid (upd y) = nd_nodeid y) by (subst upd; by_node).
    destruct (IH (upd_node ns (fst x) upd) N) as (ns' & H1 & H2 & H3); [|done|].
    + intros y Hy. rewrite get_upd_node by done. specialize (K y ltac:(set_solver)).
      destruct (fst y =? fst x); [|done]. by destruct (get_node_history ns (fst y)).
    + exists ns'. split; [done|]. split.
      * intros m. cbn. rewrite not_elem_of_cons. intros [Hm1 Hm2]. rewrite H2 by done.
        rewrite get_upd_node by done. by destruct (Z.eqb_spec m (fst x)).
      * intros y [->|Hy]%elem_of_cons Hn; [|auto]. rewrite H2.
        2: { intros Hin. apply Nx. apply list_elem_of_fmap in Hin as (z & -> & Hz).
             apply elem_ids. apply list_elem_of_In, filter_In in Hz as [Hz _]. by apply list_elem_of_In. }
        rewrite get_upd_node, Z.eqb_refl, Ea by done. eexists. split; [done|].
        unfold own_spectator. rewrite Eid. by destruct a.
Qed.

(** What a start message says of an old member. *)
Definition old_entry (ids : list id_info) (n jid : Z) : Prop :=
  exists id, get_id_struct ids n = Some id /\ id_jid id = jid /\
    flag (id_flags id) IDI_NODEID_IS_MEMBER = true /\ flag (id_flags id) IDI_JID_NEEDS_RECOVERY = false.

Lemma create_old_spec ids l (jid : Z -> Z) ns js :
  NoDup (map fst l) ->
  (forall x, x ∈ l -> get_node_history ns (fst x) <> None) ->
  (forall x, x ∈ l -> started x = true -> old_entry ids (fst x) (jid (fst x))) ->
  exists ns', create_old_nodes_loop ids l ns js =
      (ns', rev (map (fun x => new_journal (jid (fst x)) (fst x)) (olds l)) ++ js) /\
    (forall m, get_node_history ns m <> None -> get_node_history ns' m <> None) /\
    (forall m, m ∉ map fst l -> get_node_history ns' m = get_node_history ns m) /\
    (forall x, x ∈ l -> started x = true -> nd_jid <$> get_node_history ns' (fst x) = Some (jid (fst x))).
Proof.
  revert ns js. induction l as [|x l IH]; intros ns js N K E; cbn; [exists ns; set_solver|].
  cbn in N. apply NoDup_cons in N as [Nx N].
  assert (E' : forall y, y ∈ l -> started y = true -> old_entry ids (fst y) (jid (fst y)))
    by (intros; apply E; [set_solver|done]).
  destruct (started x) eqn:Es; cbn [negb].
  - destruct (E x ltac:(set_solver) Es) as (id & Eid & Ej & F1 & F2).
    destruct (get_node_history ns (fst x)) as [a|] eqn:Ea; [|by destruct (K x ltac:(set_solver))].
    rewrite Eid, F1, F2. cbn [negb orb]. cbv zeta.
    match goal with |- context [upd_node ns (fst x) ?f] => set (upd := f) end.
    assert (Hu : forall y, nd_nodeid (upd y) = nd_nodeid y) by (subst upd; by_node).
    assert (Hk : forall m, get_node_history ns m <> None -> get_node_history (upd_node ns (fst x) upd) m <> None).
    { intros m Hm. rewrite get_upd_node by done. destruct (m =? fst x); [|done]. by destruct (get_node_history ns m). }
    destruct (IH (upd_node ns (fst x) upd) (new_journal (id_jid id) (fst x) :: js) N) as (ns' & H1 & H2 & H3 & H4);
      [intros; apply Hk, K; set_solver|done|].
    exists ns'. split; [rewrite H1; cbn; by rewrite <- app_assoc, Ej|]. split; [auto|]. split.
    + intros m. cbn. rewrite not_elem_of_cons. intros [Hm1 Hm2]. rewrite H3 by done.
      rewrite get_upd_node by done. by destruct (Z.eqb_spec m (fst x)).
    + intros y [->|Hy]%elem_of_cons Hn; [|auto]. rewrite H3, get_upd_node, Z.eqb_refl, Ea by done.
      cbn. subst upd. destruct a. cbn. by rewrite Ej.
  - destruct (IH ns js N) as (ns' & H1 & H2 & H3 & H4); [intros; apply K; set_solver|done|].
    exists ns'. split; [done|]. split; [done|]. split; [set_solver|].
    intros y [->|Hy]%elem_of_cons Hn; [congruence|auto].
Qed.

(** ** The entries of a start message *)

Lemma member_id_nodeid c g m id : member_id c g m = Some id -> id_nodeid id = mb_nodeid m.
Proof. unfold member_id. case_match; [by intros [= <-]|]. by intros (n & _ & [= <-])%bind_Some. Qed.

Lemma find_member_id c g ms rest m id :
  NoDup (map mb_nodeid ms) -> m ∈ ms -> member_id c g m = Some id ->
  get_id_struct (omap (member_id c g) ms ++ rest) (mb_nodeid m) = Some id.
Proof.
  intros N Hm E. unfold get_id_struct. induction ms as [|m' ms IH]; [set_solver|].
  cbn in N. apply NoDup_cons in N as [Nm N]. cbn. apply elem_of_cons in Hm as [<-|Hm].
  - rewrite E. cbn. by rewrite (member_id_nodeid _ _ _ _ E), Z.eqb_refl.
  - destruct (member_id c g m') as [id'|] eqn:E'; [|by apply IH]. cbn.
    rewrite (member_id_nodeid _ _ _ _ E'). destruct (Z.eqb_spec (mb_nodeid m') (mb_nodeid m)) as [En|]; [|by apply IH].
    exfalso. apply Nm. rewrite En. apply list_elem_of_fmap. eauto.
Qed.

Lemma old_member_id c g m n :
  mg_started_count g <> 0 -> is_added (mg_changes g) (mb_nodeid m) = false ->
  get_node_history (mg_node_history g) (mb_nodeid m) = Some n ->
  exists id, member_id c g m = Some id /\ id_jid id = nd_jid n /\
    flag (id_flags id) IDI_NODEID_IS_MEMBER = true /\ flag (id_flags id) IDI_JID_NEEDS_RECOVERY = false.
Proof.
  intros H1 H2 H3. unfold member_id. destruct (Z.eqb_spec (mg_started_count g) 0); [done|].
  rewrite H2, H3. cbn. eexists. split; [done|]. split; [done|].
  by destruct (nd_ro n), (nd_spectator n), (nd_kernel_mount_done n), (nd_kernel_mount_error n).
Qed.

Definition needs_flag (i : id_info) : bool := flag (id_flags i) IDI_JID_NEEDS_RECOVERY.

Lemma member_id_flag c g m id : member_id c g m = Some id -> needs_flag id = false.
Proof.
  unfold member_id, needs_flag. case_match.
  - intros [= <-]. cbn. by repeat case_match.
  - intros (n & _ & [= <-])%bind_Some. cbn. by repeat case_match.
Qed.

Lemma members_flag c g ms : List.filter needs_flag (omap (member_id c g) ms) = [].
Proof.
  induction ms as [|m ms IH]; cbn; [done|]. destruct (member_id c g m) as [id|] eqn:E; [|done].
  cbn. by rewrite (member_id_flag _ _ _ _ E).
Qed.

(** The journals that the message names as dirty. *)
Definition dirty_journals (g : mountgroup) : list journal :=
  List.filter j_needs_recovery (mg_journals g) ++
  omap (find_journal_by_nodeid (mg_journals g)) (dirty_removed g).

Lemma start_message_ids c g cg msg :
  start_message c g cg = Some msg ->
  exists rest, sm_ids msg = omap (member_id c g) (cg_members cg) ++ rest.
Proof.
  unfold start_message. cbv zeta. repeat case_match; try discriminate; intros [= <-]; cbn [sm_ids].
  all: rewrite <- !app_assoc; eauto.
Qed.

Lemma start_message_dirty c g cg msg :
  start_message c g cg = Some msg ->
  List.filter needs_flag (sm_ids msg) = map (fun j => failed_id (j_jid j)) (dirty_journals g).
Proof.
  assert (E : List.filter needs_flag (old_journal_ids g ++ new_journal_ids g) =
    map (fun j => failed_id (j_jid j)) (dirty_journals g)).
  { unfold dirty_journals, old_journal_ids, new_journal_ids. rewrite map_app, List.filter_app. f_equal.
    - induction (List.filter j_needs_recovery (mg_journals g)) as [|j js IH]; cbn; [done|by rewrite IH].
    - induction (dirty_removed g) as [|n d IH]; cbn; [done|].
      destruct (find_journal_by_nodeid (mg_journals g) n); cbn; [by rewrite IH|done]. }
  assert (P : forall k, List.filter needs_flag (replicate k (mkId 0 0 0)) = []) by (induction k; done).
  unfold start_message. cbv zeta. repeat case_match; try discriminate; intros [= <-]; cbn [sm_ids].
  all: rewrite List.filter_app in E; by rewrite !List.filter_app, members_flag, P, app_nil_r, <- E.
Qed.

(** ** The journals of an old member *)

(** The nodes that own a journal. *)
Definition owners (js : list journal) : list Z := List.filter (fun n => negb (n =? 0)) (map j_nodeid js).

Definition mark (d : list Z) (j : journal) : journal :=
  if bool_decide (j_nodeid j ∈ d) then j_set_failed j else j.

Lemma elem_owners js n : n ∈ owners js <-> n <> 0 /\ exists j, j ∈ js /\ j_nodeid j = n.
Proof.
  unfold owners. rewrite list_elem_of_In, filter_In, <- list_elem_of_In, list_elem_of_fmap, negb_true_iff.
  split; [intros [(j & -> & Hj) H]|intros [H (j & Hj & <-)]]; [|split; [eauto|]]; [split; [lia|eauto]|lia].
Qed.

Lemma upd_owner n js :
  n <> 0 -> NoDup (owners js) ->
  upd_journal (fun j => j_nodeid j =? n) j_set_failed js = map (mark [n]) js.
Proof.
  intros Hn. unfold mark. induction js as [|j js IH]; [done|]. unfold owners. cbn. fold (owners js). intros N.
  assert (E : bool_decide (j_nodeid j ∈ [n]) = (j_nodeid j =? n)).
  { destruct (Z.eqb_spec (j_nodeid j) n); [apply bool_decide_eq_true_2|apply bool_decide_eq_false_2]; set_solver. }
  rewrite E. destruct (Z.eqb_spec (j_nodeid j) n) as [En|].
  - f_equal. rewrite En in N. destruct (Z.eqb_spec n 0); [done|]. cbn in N. apply NoDup_cons in N as [N _].
    clear IH E. induction js as [|k js IH]; [done|]. cbn.
    rewrite elem_owners in N. rewrite bool_decide_eq_false_2.
    + f_equal. apply IH. rewrite elem_owners. intros [H (x & Hx & Ex)]. apply N. split; [done|]. exists x. set_solver.
    + intros Hk%list_elem_of_singleton. apply N. split; [done|]. exists k. set_solver.
  - f_equal. apply IH. case_match; [|done]. by apply NoDup_cons in N as [_ N].
Qed.

Lemma owners_mark d js : owners (map (mark d) js) `sublist_of` owners js.
Proof.
  unfold owners. induction js as [|j js IH]; cbn; [done|].
  assert (j_nodeid (mark d j) = 0 \/ j_nodeid (mark d j) = j_nodeid j) as [-> | ->]
    by (unfold mark; case_bool_decide; auto); cbn.
  - case_match; [by apply sublist_cons|done].
  - case_match; [by apply sublist_skip|done].
Qed.

Lemma set_failed_map d js :
  0 ∉ d -> NoDup (owners js) ->
  foldl (fun js n => upd_journal (fun j => j_nodeid j =? n) j_set_failed js) js d = map (mark d) js.
Proof.
  revert js. induction d as [|n d IH]; intros js H0 N; cbn.
  - unfold mark. rewrite <- (map_id js) at 1. apply map_ext. intros j. by rewrite bool_decide_eq_false_2 by set_solver.
  - rewrite upd_owner, IH; [|set_solver|by eapply sublist_NoDup, owners_mark|set_solver|done].
    rewrite map_map. apply map_ext. intros j. unfold mark. destruct (decide (j_nodeid j = n)) as [E|E].
    + rewrite (bool_decide_eq_true_2 (j_nodeid j ∈ [n])), (bool_decide_eq_true_2 (j_nodeid j ∈ n :: d)) by set_solver.
      by rewrite bool_decide_eq_false_2 by (cbn; set_solver).
    + rewrite (bool_decide_eq_false_2 (j_nodeid j ∈ [n])) by set_solver.
      assert (bool_decide (j_nodeid j ∈ n :: d) = bool_decide (j_nodeid j ∈ d)) as -> by (apply bool_decide_ext; set_solver).
      done.
Qed.

Lemma find_owner js n j : find_journal_by_nodeid js n = Some j -> j ∈ js /\ j_nodeid j = n.
Proof. intros [H1 H2]%find_some. split; [by apply list_elem_of_In|lia]. Qed.

Lemma find_owner_in js j :
  NoDup (owners js) -> j ∈ js -> j_nodeid j <> 0 -> find_journal_by_nodeid js (j_nodeid j) = Some j.
Proof.
  unfold find_journal_by_nodeid. induction js as [|k js IH]; [set_solver|]. intros N Hj H0. cbn.
  apply elem_of_cons in Hj as [<-|Hj]; [by rewrite Z.eqb_refl|].
  unfold owners in N. cbn in N. fold (owners js) in N. destruct (Z.eqb_spec (j_nodeid k) (j_nodeid j)) as [E|].
  - rewrite E in N. destruct (Z.eqb_spec (j_nodeid j) 0); [done|]. cbn in N. apply NoDup_cons in N as [N _].
    exfalso. apply N, elem_owners. eauto.
  - apply IH; [|done|done]. case_match; [by apply NoDup_cons in N as [_ N]|done].
Qed.

Lemma elem_owned js (d : list Z) j : j ∈ omap (find_journal_by_nodeid js) d -> j ∈ js /\ j_nodeid j ∈ d.
Proof. rewrite list_elem_of_omap. intros (n & Hn & [Hj <-]%find_owner). done. Qed.

Lemma owned_nodup js (d : list Z) : NoDup d -> NoDup (omap (find_journal_by_nodeid js) d).
Proof.
  induction 1 as [|n d Hn Hd IH]; cbn; [constructor|].
  destruct (find_journal_by_nodeid js n) as [j|] eqn:E; [|done]. apply NoDup_cons. split; [|done].
  intros [_ H]%elem_owned. apply find_owner in E as [_ <-]. done.
Qed.

Lemma jid_inj js j k : NoDup (jids js) -> j ∈ js -> k ∈ js -> j_jid j = j_jid k -> j = k.
Proof. intros N Hj Hk E. pose proof (find_journal_in js j N Hj) as H. rewrite E, find_journal_in in H by done. congruence. Qed.

Lemma create_new_withdraw l ns ns' m :
  create_new_nodes_loop l ns = Some ns' -> is_withdraw ns' m = is_withdraw ns m.
Proof.
  revert ns. induction l as [|x l IH]; intros ns; cbn; [by intros [= <-]|].
  destruct (started x); [apply IH|]. destruct (get_node_history ns (fst x)); [|by intros [= <-]].
  intros (id & _ & E)%bind_Some. case_match; [by injection E as <-|]. rewrite (IH _ E).
  unfold is_withdraw. rewrite get_upd_node by by_node. destruct (m =? fst x); [|done].
  destruct (get_node_history ns m) as [y|]; [by destruct y|done].
Qed.

Lemma foldl_cons {A B} (p : A -> bool) (f : A -> B) l js :
  foldl (fun js a => if p a then f a :: js else js) js l = rev (map f (List.filter p l)) ++ js.
Proof.
  revert js. induction l as [|a l IH]; intros js; cbn; [done|]. rewrite IH.
  destruct (p a); cbn; [by rewrite <- app_assoc|done].
Qed.

(** ** A start cycle with an old and a new member *)

(** The old member [g] in the change [cg], the new member [h] in its change [cg'], with
    the same start messages [l] received.  The new node has built no state yet, and the
    first message from an old node is that of [g].  No member has left and come back
    within the pending changes, no node is removed twice by them, and no old member is
    a spectator. *)
Record cycle (c : config) (cg cg' : change) (l : list (Z * start_msg)) (g h : mountgroup) : Prop := mkCycle {
  cy_infos : infos cg = Some l;
  cy_infos' : infos cg' = Some l;
  cy_ids : NoDup (map fst l);
  cy_pos : pos_ids l;
  cy_msg : exists msg, start_message c g cg = Some msg /\ get_id_list l = Some (sm_ids msg);
  cy_old : mg_started_count g <> 0;
  cy_new : mg_started_count h = 0;
  cy_empty : mg_journals h = [];
  cy_saved : cg_saved_messages cg' = [];
  cy_started : forall x, x ∈ l -> started x = negb (is_added (mg_changes g) (fst x));
  cy_known : forall x, x ∈ l -> get_node_history (mg_node_history g) (fst x) <> None;
  cy_known' : forall x, x ∈ l -> get_node_history (mg_node_history h) (fst x) <> None;
  cy_entries : forall x, x ∈ l -> started x = false -> own_entry x;
  cy_jids : NoDup (jids (mg_journals g));
  cy_owners : NoDup (owners (mg_journals g));
  cy_dirty : forall j, j ∈ mg_journals g -> j_needs_recovery j = true -> j_nodeid j = 0;
  cy_journal : forall x, x ∈ l -> started x = true ->
    exists j, j ∈ mg_journals g /\ j_nodeid j = fst x /\ node_jid g (fst x) = Some (j_jid j);
  cy_fresh : forall x j, x ∈ l -> started x = false -> j ∈ mg_journals g -> j_nodeid j <> fst x;
  cy_removed : NoDup (dirty_removed g);
  cy_gone : forall n, n ∈ dirty_removed g -> n <> 0 /\ n ∉ map fst l
}.

Section Cycle.
Context (c c' : config) (cg cg' : change) (l : list (Z * start_msg)) (g h : mountgroup).
Context (Cy : cycle c cg cg' l g h).

Abbreviation J := (mg_journals g).
Abbreviation D := (dirty_removed g).

Definition jid_of (n : Z) : Z := default 0 (node_jid g n).

Lemma cycle_entries ids :
  get_id_list l = Some ids ->
  (forall x, x ∈ l -> started x = true -> old_entry ids (fst x) (jid_of (fst x))) /\
  List.filter needs_flag ids = map (fun j => failed_id (j_jid j)) (dirty_journals g).
Proof.
  intros E. destruct (cy_msg _ _ _ _ _ _ Cy) as (msg & Em & Ei). rewrite Ei in E. injection E as <-.
  split; [|by eapply start_message_dirty]. intros x Hx Hs.
  destruct (start_message_ids _ _ _ _ Em) as [rest ->].
  pose proof (elem_ids l x Hx) as Hid. rewrite (infos_ids _ _ (cy_infos _ _ _ _ _ _ Cy)) in Hid.
  apply list_elem_of_fmap in Hid as (m & Em' & Hm).
  pose proof (cy_started _ _ _ _ _ _ Cy x Hx) as Ha. rewrite Hs, Em' in Ha. symmetry in Ha.
  apply negb_true_iff in Ha. pose proof (cy_known _ _ _ _ _ _ Cy x Hx) as Hk. rewrite Em' in Hk.
  destruct (get_node_history (mg_node_history g) (mb_nodeid m)) as [n|] eqn:En; [|done].
  destruct (old_member_id c g m n (cy_old _ _ _ _ _ _ Cy) Ha En) as (id & H1 & H2 & H3 & H4).
  exists id. split.
  - rewrite Em'. apply find_member_id; [|done|done].
    rewrite <- (infos_ids _ _ (cy_infos _ _ _ _ _ _ Cy)). apply Cy.
  - split; [|done]. unfold jid_of, node_jid. rewrite Em', En. cbn. done.
Qed.

(** The journals of the old members. *)
Definition live_journals : list journal := omap (find_journal_by_nodeid J) (map fst (olds l)).

Lemma elem_olds x : x ∈ olds l <-> x ∈ l /\ started x = true.
Proof. unfold olds. by rewrite !list_elem_of_In, filter_In. Qed.

Lemma old_journal x : x ∈ olds l ->
  exists j, find_journal_by_nodeid J (fst x) = Some j /\ j_jid j = jid_of (fst x) /\ j_needs_recovery j = false.
Proof.
  intros [Hx Hs]%elem_olds. destruct (cy_journal _ _ _ _ _ _ Cy x Hx Hs) as (j & Hj & En & Ej).
  assert (Hp : 0 < fst x) by (pose proof (cy_pos _ _ _ _ _ _ Cy) as P; unfold pos_ids in P; rewrite Forall_forall in P; auto).
  exists j. rewrite <- En. split; [apply find_owner_in; [apply Cy|done|lia]|].
  unfold jid_of. rewrite En, Ej. split; [done|].
  destruct (j_needs_recovery j) eqn:Er; [|done]. pose proof (cy_dirty _ _ _ _ _ _ Cy j Hj Er). lia.
Qed.

Lemma live_jids : map j_jid live_journals = map (fun x => jid_of (fst x)) (olds l).
Proof.
  unfold live_journals. pose proof old_journal as H. induction (olds l) as [|x o IH]; cbn; [done|].
  destruct (H x ltac:(set_solver)) as (j & -> & Ej & _). cbn. rewrite Ej. f_equal. apply IH. intros; apply H. set_solver.
Qed.

Lemma olds_nodup : NoDup (map fst (olds l)).
Proof.
  eapply sublist_NoDup; [apply (cy_ids _ _ _ _ _ _ Cy)|]. unfold olds. clear Cy.
  induction l as [|x k IH]; cbn; [done|]. destruct (started x); cbn; [by apply sublist_skip|by apply sublist_cons].
Qed.

Lemma elem_dirty j : j ∈ dirty_journals g <-> j ∈ J /\ (j_needs_recovery j = true \/ j_nodeid j ∈ D).
Proof.
  unfold dirty_journals. rewrite elem_of_app, (list_elem_of_In (List.filter _ _) j), filter_In, <- list_elem_of_In.
  split; [intros [?|?%elem_owned]; tauto|]. intros [Hj [?|Hd]]; [tauto|right].
  apply list_elem_of_omap. exists (j_nodeid j). split; [done|].
  apply find_owner_in; [apply Cy|done|]. by apply (cy_gone _ _ _ _ _ _ Cy).
Qed.

Lemma all_journals_nodup : NoDup (map j_jid (dirty_journals g ++ live_journals)).
Proof.
  assert (Nj : NoDup J) by (eapply NoDup_fmap_1, (cy_jids _ _ _ _ _ _ Cy)).
  assert (Live : forall j, j ∈ live_journals -> j ∈ J /\ j_nodeid j ∈ map fst (olds l)) by apply elem_owned.
  assert (Lp : forall j, j ∈ live_journals -> 0 < j_nodeid j /\ j_nodeid j ∈ map fst l).
  { intros j [_ (x & -> & [Hx _]%elem_olds)%list_elem_of_fmap]%Live. split; [|by apply elem_ids].
    pose proof (cy_pos _ _ _ _ _ _ Cy) as P. unfold pos_ids in P. rewrite Forall_forall in P. auto. }
  apply NoDup_fmap_2_strong.
  - assert (In : forall j, j ∈ dirty_journals g ++ live_journals -> j ∈ J).
    { intros j [[? _]%elem_dirty|[? _]%Live]%elem_of_app; done. }
    intros j k Hj%In Hk%In. by apply (jid_inj J j k (cy_jids _ _ _ _ _ _ Cy)).
  - apply NoDup_app. split; [apply NoDup_app; split; [by apply NoDup_ListNoDup, List.NoDup_filter, NoDup_ListNoDup|split]|split].
    + intros j Hj [_ Hd]%elem_owned. apply list_elem_of_In, filter_In in Hj as [Hj Hr].
      apply list_elem_of_In in Hj. pose proof (cy_dirty _ _ _ _ _ _ Cy j Hj Hr).
      by destruct (cy_gone _ _ _ _ _ _ Cy _ Hd).
    + apply owned_nodup, Cy.
    + intros j [Hj [Hr|Hd]]%elem_dirty Hl; destruct (Lp j Hl) as [L1 L2].
      * pose proof (cy_dirty _ _ _ _ _ _ Cy j Hj Hr). lia.
      * by destruct (cy_gone _ _ _ _ _ _ Cy _ Hd).
    + apply owned_nodup, olds_nodup.
Qed.

(** The journals of the old member before new ones are assigned, and of the new one. *)
Definition old_side : list journal := List.filter (keep_journal cg) (map (mark D) J).
Definition new_side : list journal :=
  rev (map (fun j => mkJ (j_jid j) 0 0 true false 0 0) (dirty_journals g)) ++
  rev (map (fun x => new_journal (jid_of (fst x)) (fst x)) (olds l)).

Lemma new_side_nodup : NoDup (jids new_side).
Proof.
  unfold jids, new_side. rewrite map_app, !map_rev, !map_map. cbn.
  pose proof all_journals_nodup as N. rewrite map_app, live_jids in N.
  by rewrite <- !Permutation_rev.
Qed.

Lemma old_side_nodup : NoDup (jids old_side).
Proof.
  eapply sublist_NoDup; [apply (cy_jids _ _ _ _ _ _ Cy)|]. unfold jids, old_side. clear Cy.
  induction J as [|j js IH]; cbn; [done|].
  assert (j_jid (mark D j) = j_jid j) as E by (unfold mark; by case_bool_decide).
  case_match; cbn; rewrite ?E; [by apply sublist_skip|by apply sublist_cons].
Qed.

Lemma sides_agree : jeq old_side new_side.
Proof.
  apply jeq_triples; [apply old_side_nodup|apply new_side_nodup|]. intros t.
  unfold new_side. rewrite map_app, elem_of_app, !map_rev, !list_elem_of_In, <- !in_rev, <- !list_elem_of_In, !map_map.
  cbn [jtriple j_jid j_nodeid j_needs_recovery new_journal]. rewrite !list_elem_of_fmap. split.
  - intros (k & -> & [Hk Hkeep]%list_elem_of_In%filter_In). apply list_elem_of_In in Hk.
    apply list_elem_of_fmap in Hk as (j & -> & Hj). unfold keep_journal, mark in *.
    case_bool_decide as Hd; [left; exists j; split; [done|apply elem_dirty; auto]|].
    destruct (j_needs_recovery j) eqn:Er.
    + left. exists j. split; [|apply elem_dirty; auto]. unfold jtriple. rewrite Er.
      by rewrite (cy_dirty _ _ _ _ _ _ Cy j Hj Er).
    + right. cbn in Hkeep. rewrite (member_in_infos _ _ _ (cy_infos _ _ _ _ _ _ Cy)) in Hkeep.
      apply bool_decide_eq_true in Hkeep as (x & Ex & Hx)%list_elem_of_fmap.
      destruct (started x) eqn:Es; [|by destruct (cy_fresh _ _ _ _ _ _ Cy x j Hx Es Hj)].
      assert (Ho : x ∈ olds l) by (by apply elem_olds). exists x. split; [|done].
      destruct (old_journal x Ho) as (k & Ek & E1 & _). rewrite <- Ex in *.
      assert (Hp : j_nodeid j <> 0).
      { pose proof (cy_pos _ _ _ _ _ _ Cy) as P. unfold pos_ids in P. rewrite Forall_forall in P.
        specialize (P x Hx). cbn in P. lia. }
      rewrite (find_owner_in J j) in Ek by (done || apply Cy). injection Ek as <-. unfold jtriple. cbn. congruence.
  - intros [(j & -> & [Hj Hc]%elem_dirty)|(x & -> & Hx)].
    + exists (mark D j). unfold mark. split.
      * case_bool_decide as Hd; [done|]. destruct Hc as [Hr|]; [|done]. unfold jtriple. rewrite Hr.
        by rewrite (cy_dirty _ _ _ _ _ _ Cy j Hj Hr).
      * apply list_elem_of_In, filter_In. split; [apply in_map_iff; exists j; split; [done|by apply list_elem_of_In]|].
        unfold keep_journal. case_bool_decide; [done|]. destruct Hc as [->|]; done.
    + destruct (old_journal x Hx) as (j & [Hj En]%find_owner & E1 & E2). apply elem_olds in Hx as [Hx Hs].
      assert (Hd : j_nodeid j ∉ D).
      { intros Hd. destruct (cy_gone _ _ _ _ _ _ Cy _ Hd) as [_ H]. apply H. rewrite En. by apply elem_ids. }
      exists j. split; [unfold jtriple; cbn; congruence|]. apply list_elem_of_In, filter_In. split.
      * apply in_map_iff. exists j. split; [unfold mark; by rewrite bool_decide_eq_false_2|by apply list_elem_of_In].
      * unfold keep_journal. rewrite (member_in_infos _ _ _ (cy_infos _ _ _ _ _ _ Cy)).
        rewrite bool_decide_eq_true_2; [by rewrite orb_true_r|]. rewrite En. by apply elem_ids.
Qed.

(** The states before new journals are assigned. *)
Lemma old_before :
  exists ns, create_new_nodes_loop l (mg_node_history g) = Some ns /\
    sync_nodes c cg l g = new_journals_loop c (S (length l)) l 0 (set_journals (set_history g ns) old_side).
Proof.
  destruct (create_new_spec l (mg_node_history g)) as (ns & E & _); [apply Cy..|].
  exists ns. split; [done|]. unfold sync_nodes, create_new_nodes.
  destruct (Z.eqb_spec (mg_started_count g) 0) as [Hz|_]; [by destruct (cy_old _ _ _ _ _ _ Cy)|].
  rewrite E. cbn [mbind option_bind]. unfold create_new_journals, set_failed_journals.
  assert (Ed : dirty_removed (set_history g ns) = D).
  { unfold dirty_removed. destruct g as [? ? ? ? ? ? ? ? ? cgs ns0 ?]. cbn in *. f_equal.
    apply List.filter_ext. intros m. by rewrite (create_new_withdraw _ _ _ _ E). }
  rewrite Ed. replace (mg_journals (set_history g ns)) with J by by destruct g.
  rewrite set_failed_map; [|intros H; by destruct (cy_gone _ _ _ _ _ _ Cy _ H)|apply Cy].
  unfold old_side. by destruct g.
Qed.

Lemma new_side_kept : List.filter (keep_journal cg') new_side = new_side.
Proof.
  assert (H : Forall (fun j => keep_journal cg' j = true) new_side).
  { unfold new_side. apply Forall_forall. intros j. unfold keep_journal.
    rewrite elem_of_app, !list_elem_of_In, <- !in_rev, <- !list_elem_of_In, !list_elem_of_fmap.
    intros [(k & -> & _)|(x & -> & [Hx _]%elem_olds)]; [done|]. cbn.
    rewrite (member_in_infos _ _ _ (cy_infos' _ _ _ _ _ _ Cy)). apply bool_decide_eq_true_2. by apply elem_ids. }
  induction H as [|j js Hj _ IH]; cbn; [done|]. by rewrite Hj, IH.
Qed.

Lemma new_before :
  exists ns ns', create_new_nodes_loop l ns = Some ns' /\
    (forall x, x ∈ l -> get_node_history ns (fst x) <> None) /\
    (forall x, x ∈ l -> started x = true -> nd_jid <$> get_node_history ns (fst x) = Some (jid_of (fst x))) /\
    sync_nodes c' cg' l h = new_journals_loop c' (S (length l)) l 0 (set_journals (set_history h ns') new_side).
Proof.
  destruct (cy_msg _ _ _ _ _ _ Cy) as (msg & _ & Ei). destruct (cycle_entries _ Ei) as [He Hd].
  destruct (create_old_spec (sm_ids msg) l jid_of (mg_node_history h) []) as (ns & E1 & K & _ & Hj); [apply Cy..|done|].
  assert (K' : forall x, x ∈ l -> get_node_history ns (fst x) <> None)
    by (intros x Hx; by apply K, (cy_known' _ _ _ _ _ _ Cy)).
  destruct (create_new_spec l ns) as (ns' & E2 & _); [apply Cy|done|apply Cy|].
  exists ns, ns'. do 3 (split; [done|]). unfold sync_nodes, create_new_nodes, create_old_nodes.
  rewrite (cy_new _ _ _ _ _ _ Cy), Ei, (cy_empty _ _ _ _ _ _ Cy), E1. cbn [Z.eqb].
  replace (mg_node_history (set_journals (set_history h ns) _)) with ns by by destruct h. rewrite E2.
  cbn [mbind option_bind]. unfold create_failed_journals, apply_saved_messages, create_new_journals.
  rewrite Ei, (cy_saved _ _ _ _ _ _ Cy). cbn [foldl].
  rewrite (foldl_cons (fun id => flag (id_flags id) IDI_JID_NEEDS_RECOVERY) (fun id => mkJ (id_jid id) 0 0 true false 0 0)).
  change (List.filter _ (sm_ids msg)) with (List.filter needs_flag (sm_ids msg)). rewrite Hd, map_map.
  pose proof new_side_kept as Ek. unfold new_side in *. destruct h. cbn. rewrite app_nil_r. by rewrite Ek.
Qed.

Lemma cycle_agree :
  exists g' h', sync_nodes c cg l g = Some g' /\ sync_nodes c' cg' l h = Some h' /\
    jeq (mg_journals g') (mg_journals h') /\ NoDup (jids (mg_journals g')) /\ NoDup (jids (mg_journals h')) /\
    forall x, x ∈ l -> node_jid g' (fst x) = node_jid h' (fst x) /\ owned g' (fst x).
Proof.
  destruct old_before as (ns & E & ->). destruct new_before as (ms & ms' & E' & K' & Hj & ->).
  destruct (create_new_spec l (mg_node_history g)) as (ns0 & E0 & O1 & O2); [apply Cy..|].
  rewrite E in E0. injection E0 as <-.
  destruct (create_new_spec l ms) as (ms0 & E0 & N1 & N2); [apply Cy|done|apply Cy|].
  rewrite E' in E0. injection E0 as <-.
  apply new_journals_agree; [apply Cy| |done|].
  { assert (H : (length (new_above l 0) <= length l)%nat) by apply List.filter_length_le. lia. }
  constructor.
  - pose proof sides_agree. by destruct g, h.
  - pose proof old_side_nodup. by destruct g.
  - pose proof new_side_nodup. by destruct h.
  - intros x Hx Hs. destruct (O2 x Hx Hs) as (a & Ea & Sa), (N2 x Hx Hs) as (b & Eb & Sb).
    exists a, b. split; [by destruct g|]. split; [by destruct h|congruence].
  - intros x Hx Hs. destruct (started x) eqn:Es.
    2: { destruct Hs as [|Hs]; [done|]. pose proof (cy_pos _ _ _ _ _ _ Cy) as P. unfold pos_ids in P.
         rewrite Forall_forall in P. specialize (P x Hx). cbn in P. lia. }
    assert (Hn : fst x ∉ map fst (news l)).
    { intros (y & Ey & Hy)%list_elem_of_fmap. apply list_elem_of_In, filter_In in Hy as [Hy Hny].
      apply list_elem_of_In in Hy. apply negb_true_iff in Hny. pose proof (cy_ids _ _ _ _ _ _ Cy) as N.
      rewrite (ids_inj l x y N Hx Hy Ey) in Es. congruence. }
    assert (Ho : x ∈ olds l) by (by apply elem_olds). destruct (old_journal x Ho) as (j & Ej & E1 & E2).
    destruct (cy_journal _ _ _ _ _ _ Cy x Hx Es) as (k & _ & _ & Hk).
    assert (Jg : node_jid (set_journals (set_history g ns) old_side) (fst x) = Some (jid_of (fst x))).
    { unfold jid_of. rewrite Hk. unfold node_jid in *. cbn. rewrite <- Hk, <- O1 by done. by destruct g. }
    assert (Jh : node_jid (set_journals (set_history h ms') new_side) (fst x) = Some (jid_of (fst x))).
    { rewrite <- (Hj x Hx Es), <- N1 by done. unfold node_jid. by destruct h. }
    split; [congruence|]. exists (jid_of (fst x)). split; [done|right].
    replace (mg_journals (set_journals (set_history g ns) old_side)) with old_side by by destruct g.
    rewrite (sides_agree (jid_of (fst x))). unfold jview.
    enough (H : new_journal (jid_of (fst x)) (fst x) ∈ new_side).
    { pose proof (find_journal_in new_side _ new_side_nodup H) as Ef. cbn [new_journal j_jid] in Ef. by rewrite Ef. }
    unfold new_side. apply elem_of_app. right. apply list_elem_of_In. rewrite <- in_rev.
    apply in_map_iff. exists x. split; [done|by apply list_elem_of_In].
Qed.

End Cycle.

(** C9: at the end of a start cycle as [cycle] describes it, an old member and a new member
    that has only the start messages finish with the same journals: the same journal ids,
    each with the same owner and the same need of recovery. No id occurs twice, both nodes
    give every member the same journal id, and that journal, if there is one, is the
    member's own and clean. In such a cycle both nodes have the same start messages, one
    from each member, and a message of an old member with the state the old member has;
    every old member has its journal, so no old member is a spectator, and no new member has
    one, so no node left and came back ([rejoin_disagrees] is such a cycle); the journals of
    the old member have different ids and owners, and those that need recovery have none;
    nodes that failed are no members; and the new member has no saved messages. *)
Theorem journals_agree c c' cg cg' l g h (Cy : cycle c cg cg' l g h) :
  exists g' h', sync_nodes c cg l g = Some g' /\ sync_nodes c' cg' l h = Some h' /\
    (forall jid, jview (mg_journals g') jid = jview (mg_journals h') jid) /\
    NoDup (map j_jid (mg_journals g')) /\ NoDup (map j_jid (mg_journals h')) /\
    forall n, n ∈ map fst l -> exists jid, node_jid g' n = Some jid /\ node_jid h' n = Some jid /\
      (jid = JID_NONE \/ jview (mg_journals g') jid = Some (n, false)).
Proof.
  destruct (cycle_agree c c' cg cg' l g h Cy) as (g' & h' & E1 & E2 & A & N & N' & H).
  exists g', h'. do 5 (split; [done|]). intros n (x & -> & Hx)%list_elem_of_fmap.
  destruct (H x Hx) as [E (jid & Ej & O)]. exists jid. split; [done|]. split; [congruence|done].
Qed.

(** The assignment of journals to new members always ends, for members with
    positive node ids and whatever their start messages and the journals are.  Journals
    in use or waiting for recovery stay, and distinct journal ids stay distinct. *)
Theorem create_new_journals_terminates c cg l g (Hp : pos_ids l) :
  exists g', create_new_journals c cg l g = Some g' /\
    (NoDup (jids (mg_journals g)) -> NoDup (jids (mg_journals g'))) /\
    (forall j, j ∈ mg_journals g -> keep_journal cg j = true -> j ∈ mg_journals g').
Proof.
  set (g0 := set_journals g (List.filter (keep_journal cg) (mg_journals g))).
  assert (E : mg_journals g0 = List.filter (keep_journal cg) (mg_journals g)) by by destruct g.
  assert (Hl : (length (new_above l 0) <= length l)%nat) by apply List.filter_length_le.
  destruct (new_journals_total c l Hp (S (length l)) 0 g0 ltac:(lia)) as (g' & E1 & N & K).
  exists g'. split; [exact E1|]. rewrite E in *. split.
  - intros Hn. apply N. unfold jids. clear - Hn. induction (mg_journals g) as [|j js IH]; cbn in *; [done|].
    apply NoDup_cons in Hn as [H1 H2]. case_match; [|auto]. cbn. apply NoDup_cons. split; [|auto].
    intros (k & Ek & Hk)%list_elem_of_fmap. apply H1. rewrite Ek. apply list_elem_of_fmap. exists k.
    split; [done|]. apply list_elem_of_In, filter_In in Hk as [Hk _]. by apply list_elem_of_In.
  - intros j Hj Hk. apply K, list_elem_of_In, filter_In. by rewrite <- list_elem_of_In.
Qed.

(** Node 1 has mounted; node 3 failed, and then node 2 joined. *)
Definition ex_node (n jid : Z) : node := nd_set_mount true false (nd_set_jid jid (node_zero n 1)).
Definition ex_failed : change :=
  mkCg [mkMemb 1 false false false false None] [mkMemb 3 false false true false None] []
    1 0 1 1 CGST_WAIT_CONDITIONS false 2 0 0.
Definition ex_joined (msgs : list (option start_msg)) (seq : Z) : change :=
  mkCg (zip_with (fun n m => mkMemb n true (n =? 2) false false m) [1; 2] msgs) [] []
    2 1 0 0 CGST_WAIT_MESSAGES false seq 0 0.
Definition ex_local : local_mount := mkLocal false false true true 0 true false false false 0 false.
Definition ex_old (cg : change) : mountgroup :=
  mkMg ex_local (mkFirst false false 0 false) 0 false true 0 3 1 None [cg; ex_failed]
    [ex_node 1 0; ex_node 3 1; node_zero 2 3] [new_journal 1 3; new_journal 0 1].
Definition ex_old_msg : start_msg :=
  default (mkStart (mkMi 0 0 0 0 0 false 0) [])
    (start_message (mkCfg 1 (1, 1)) (ex_old (ex_joined [None; None] 3)) (ex_joined [None; None] 3)).
Definition ex_new_msg : start_msg := mkStart (mkMi 0 2 1 0 0 false 0) [mkId 1 (-1) 1; mkId 2 (-1) 1].
Definition ex_cg (seq : Z) : change := ex_joined [Some ex_old_msg; Some ex_new_msg] seq.
Definition ex_new : mountgroup :=
  mkMg (mkLocal true false true false 0 false false false false 0 false) (mkFirst false false 0 false)
    0 false true 0 1 0 None [ex_cg 1] [node_zero 1 1; node_zero 2 1] [].

Lemma ex_cycle :
  cycle (mkCfg 1 (1, 1)) (ex_cg 3) (ex_cg 1) [(1, ex_old_msg); (2, ex_new_msg)] (ex_old (ex_cg 3)) ex_new.
Proof.
  assert (F : forall P : Z * start_msg -> Prop, P (1, ex_old_msg) -> P (2, ex_new_msg) ->
    forall x, x ∈ [(1, ex_old_msg); (2, ex_new_msg)] -> P x).
  { intros P H1 H2 x. rewrite !elem_of_cons. intros [->|[->|H]]; [done|done|]. by apply elem_of_nil in H. }
  constructor; try (vm_compute; reflexivity); try (apply F; vm_compute; (done || reflexivity)).
  - apply (bool_decide_eq_true_1 _). by vm_compute.
  - by repeat constructor.
  - exists ex_old_msg. by vm_compute.
  - by vm_compute.
  - refine (F (fun x => started x = false -> own_entry x) _ _); intros H; [by vm_compute in H|].
    exists (mkId 2 (-1) 1). by vm_compute.
  - apply (bool_decide_eq_true_1 _). by vm_compute.
  - apply (bool_decide_eq_true_1 _). by vm_compute.
  - intros j. cbn. rewrite !elem_of_cons, elem_of_nil. by intros [->|[->|[]]].
  - refine (F (fun x => started x = true -> exists j, j ∈ mg_journals (ex_old (ex_cg 3)) /\
      j_nodeid j = fst x /\ node_jid (ex_old (ex_cg 3)) (fst x) = Some (j_jid j)) _ _);
      intros H; [|by vm_compute in H].
    exists (new_journal 0 1). split; [cbn; set_solver|by vm_compute].
  - intros x j Hx. revert x Hx. refine (F (fun x => started x = false -> _ -> j_nodeid j <> fst x) _ _);
      intros H; [by vm_compute in H|]. cbn. rewrite !elem_of_cons, elem_of_nil. by intros [->|[->|[]]].
  - apply (bool_decide_eq_true_1 _). by vm_compute.
  - intros n. change (dirty_removed (ex_old (ex_cg 3))) with [3]. rewrite list_elem_of_singleton. intros ->.
    split; [done|]. cbn. set_solver.
Qed.

Lemma journals_agree_witness :
  cycle (mkCfg 1 (1, 1)) (ex_cg 3) (ex_cg 1) [(1, ex_old_msg); (2, ex_new_msg)] (ex_old (ex_cg 3)) ex_new /\
  exists g' h', sync_nodes (mkCfg 1 (1, 1)) (ex_cg 3) [(1, ex_old_msg); (2, ex_new_msg)] (ex_old (ex_cg 3)) = Some g' /\
    sync_nodes (mkCfg 2 (1, 1)) (ex_cg 1) [(1, ex_old_msg); (2, ex_new_msg)] ex_new = Some h' /\
    forall jid, jview (mg_journals g') jid = jview (mg_journals h') jid.
Proof.
  split; [exact ex_cycle|].
  destruct (journals_agree (mkCfg 1 (1, 1)) (mkCfg 2 (1, 1)) _ _ _ _ _ ex_cycle) as (g' & h' & E1 & E2 & H & _).
  by exists g', h'.
Defined.

(** In the example, node 2 gets the journal 2, since journal 1 waits for recovery. *)
Example ex_assigned :
  (fun g => map jtriple (mg_journals g)) <$>
    sync_nodes (mkCfg 2 (1, 1)) (ex_cg 1) [(1, ex_old_msg); (2, ex_new_msg)] ex_new =
  Some [(2, 2, false); (1, 0, true); (0, 1, false)].
Proof. vm_compute. reflexivity. Qed.

Lemma create_new_journals_terminates_witness :
  pos_ids [(1, ex_old_msg); (2, ex_new_msg)] /\
  exists g', create_new_journals (mkCfg 1 (1, 1)) (ex_cg 3) [(1, ex_old_msg); (2, ex_new_msg)] (ex_old (ex_cg 3)) = Some g'.
Proof.
  assert (P : pos_ids [(1, ex_old_msg); (2, ex_new_msg)]) by (by repeat constructor).
  split; [exact P|].
  destruct (create_new_journals_terminates (mkCfg 1 (1, 1)) (ex_cg 3) _ (ex_old (ex_cg 3)) P) as (g' & E & _).
  by exists g'.
Defined.

(** ** Where the agreement fails *)

(** A member that leaves and comes back within one start cycle.  Members 1, 2, 3 have
    the journals 0, 1, 2; node 2 leaves and joins again.  Node 1 keeps journal 1 for
    it and assigns journal 3; node 2 itself takes journal 1. *)
Definition ex_left : change :=
  mkCg (map new_member [1; 3]) [mkMemb 2 false false false false None] [] 2 0 1 0 CGST_WAIT_CONDITIONS false 2 0 0.
Definition ex_back (msgs : list (option start_msg)) : change :=
  mkCg (zip_with (fun n m => mkMemb n true (n =? 2) false false m) [1; 2; 3] msgs) [] []
    3 1 0 0 CGST_WAIT_MESSAGES false 3 0 0.
Definition ex_stay (cg : change) : mountgroup :=
  mkMg ex_local (mkFirst false false 0 false) 0 false true 0 3 1 None [cg; ex_left]
    [ex_node 1 0; ex_node 3 2; node_zero 2 3] [new_journal 2 3; new_journal 1 2; new_journal 0 1].
Definition ex_stay_msg : start_msg :=
  default ex_new_msg (start_message (mkCfg 1 (1, 1)) (ex_stay (ex_back [None; None; None])) (ex_back [None; None; None])).
Definition ex_back_msg : start_msg :=
  mkStart (mkMi 0 3 1 0 0 false 0) [mkId 1 (-1) 1; mkId 2 (-1) 1; mkId 3 (-1) 1].
Definition ex_back_infos : list (Z * start_msg) := [(1, ex_stay_msg); (2, ex_back_msg); (3, ex_stay_msg)].
Definition ex_back_cg : change := ex_back (map (fun x => Some (snd x)) ex_back_infos).

Example rejoin_disagrees :
  (g ← sync_nodes (mkCfg 1 (1, 1)) ex_back_cg ex_back_infos (ex_stay ex_back_cg); node_jid g 2) = Some 3 /\
  (h ← sync_nodes (mkCfg 2 (1, 1)) ex_back_cg ex_back_infos
         (set_history ex_new [node_zero 1 1; node_zero 2 1; node_zero 3 1]); node_jid h 2) = Some 1.
Proof. vm_compute. done. Qed.

(** A spectator that fails.  Node 2 joined when the spectator 3 was there, and made a
    journal with id -1 for it; after the failure it asks the kernel to recover that
    journal, and the file system stays blocked. *)
Definition ex_spectator_events : list event :=
  [EvConfchg [1; 2; 3] [] [2]; EvDlm (DLMC_RESULT_REGISTER 0);
   EvDeliver 1 (ex_hd 1) (ex_start 1 3 1 0 0 [mkId 1 0 9; mkId 2 (-1) 1; mkId 3 (-1) 73]);
   EvDeliver 2 (ex_hd 2) ex_msg2;
   EvDeliver 3 (ex_hd 3) (ex_start 1 3 1 0 0 [mkId 1 0 9; mkId 2 (-1) 1; mkId 3 (-1) 73]);
   EvMountDone 0; EvDeliver 2 (ex_hd 2) (GFS_MSG_MOUNT_DONE 0);
   EvConfchg [1; 2] [(3, CPG_REASON_NODEDOWN)] []; EvDlm (DLMC_RESULT_NOTIFIED 3 0);
   EvDeliver 1 (ex_hd 1) (ex_start 2 2 0 1 1 [mkId 1 0 9; mkId 2 1 9]);
   EvDeliver 2 (ex_hd 2) (ex_start 1 2 0 1 1 [mkId 1 0 9; mkId 2 1 9; mkId 0 (-1) 2])].

Example spectator_never_recovered :
  (fun s => (lo_kernel_stopped (mg_local (s_mg s)), last (s_out s), map jtriple (mg_journals (s_mg s)))) <$>
    run ex_cfg (gfs_join_mountgroup false false) (map (fun e => (e, ex_v)) ex_spectator_events) =
  Some (true, Some (SysfsRecover (-1)), [(1, 2, false); (-1, 0, true); (0, 1, false)]).
Proof. vm_compute. reflexivity. Qed.

(** A failed node that is back in the cluster before dlm_controld has seen its failure:
    its history is cleared, and the start message goes out in spite of the answer. *)
Definition ex_reboot_events : list event :=
  take 8 ex_events ++ [EvClusterAdd 3; EvDlm (DLMC_RESULT_NOTIFIED 3 1)].

Example cluster_add_skips_dlm :
  (fun s => (default false (nd_check_dlm <$> get_node_history (mg_node_history (s_mg s)) 3),
             match last (s_out s) with Some (SendStart seq _ _) => seq | _ => 0 end)) <$>
    run ex_cfg (gfs_join_mountgroup false false) (map (fun e => (e, ex_v)) ex_reboot_events) =
  Some (false, 2).
Proof. vm_compute. reflexivity. Qed.
