(* ===== verification/CmanQuorum.v ===== *)
(** * Membership and quorum of the cluster manager

    [src/cman/daemon/commands.c]: the list of cluster nodes, the votes and the
    quorum, the quorum device, the commands that change them and the messages
    between the daemons; [read_cman_nodes] of [src/cman/daemon/cmanconfig.c].

    The messages and notifications that are sent are effects; the configuration
    database and the clock are inputs; allocations succeed.  A node is
    referred to by its node id where the program holds a pointer to it. *)

From S2P Require Import Prelude.
From stdpp Require Import strings.
Open Scope Z_scope.

(** ** Data *)

Inductive nodestate := JOINING | MEMBER | DEAD | LEAVING | AISONLY.

#[export] Instance nodestate_eq_dec : EqDecision nodestate.
Proof. solve_decision. Defined.

Definition NODE_FLAGS_BEENDOWN : Z := 1.
Definition NODE_FLAGS_FENCED : Z := 2.
Definition NODE_FLAGS_FENCEDWHILEUP : Z := 4.
Definition NODE_FLAGS_SEESDISALLOWED : Z := 8.
Definition NODE_FLAGS_DIRTY : Z := 16.
Definition NODE_FLAGS_REREAD : Z := 32.

Definition CLUSTER_LEAVEFLAG_KILLED : Z := 1.
Definition CLUSTER_LEAVEFLAG_REMOVED : Z := 3.
Definition CLUSTER_KILL_CMANTOOL : Z := 2.
Definition CLUSTER_KILL_REJOIN : Z := 3.

Definition EBUSY : Z := 16.
Definition ENOTCONN : Z := 107.
Definition EALREADY : Z := 114.

(** [struct cluster_node] without its addresses and its join time; [port_bits] are
    32 bytes. *)
Record cluster_node := mkNode {
  cn_name : string;
  cn_us : bool;
  cn_id : Z;
  cn_flags : Z;
  cn_state : nodestate;
  cn_fence_time : Z;
  cn_fence_agent : option string;
  cn_cman_join_time : Z;
  cn_votes : Z;
  cn_expected : Z;
  cn_leave_reason : Z;
  cn_incarnation : Z;
  cn_port_bits : list Z
}.

(** The fields of the quorum device that are used. *)
Record quorum_dev := mkQdev {
  qd_name : string;
  qd_state : nodestate;
  qd_votes : Z;
  qd_last_hello : Z
}.

Inductive cman_effect :=
| SendKill (nodeid reason : Z)
| SendReconfigure (nodeid param value : Z)
| SendFence (to nodeid timesec : Z) (fenced : bool) (agent : string)
| SetQuorum (members : list Z) (quorate : bool)
| NotifyState (quorate : bool)
| ExitDaemon.

Record cman := mkCman {
  cm_nodes : list cluster_node;
  cm_members : Z;                      (* cluster_members *)
  cm_quorum : Z;
  cm_two_node : bool;
  cm_quorate : bool;                   (* cluster_is_quorate *)
  cm_qdev : option quorum_dev;
  cm_config_error : bool;
  cm_us : Z;
  cm_joined : bool;                    (* we_are_a_cluster_member *)
  cm_ais_running : bool;
  cm_disallowed : bool;                (* enable_disallowed *)
  cm_first_trans : bool;               (* local_first_trans *)
  cm_out : list cman_effect
}.

(** ** Updates of single fields *)

Definition cn_set_state (v : nodestate) (n : cluster_node) : cluster_node :=
  mkNode (cn_name n) (cn_us n) (cn_id n) (cn_flags n) v (cn_fence_time n) (cn_fence_agent n)
    (cn_cman_join_time n) (cn_votes n) (cn_expected n) (cn_leave_reason n)
    (cn_incarnation n) (cn_port_bits n).
Definition cn_set_flags (v : Z) (n : cluster_node) : cluster_node :=
  mkNode (cn_name n) (cn_us n) (cn_id n) v (cn_state n) (cn_fence_time n) (cn_fence_agent n)
    (cn_cman_join_time n) (cn_votes n) (cn_expected n) (cn_leave_reason n)
    (cn_incarnation n) (cn_port_bits n).
Definition cn_set_fence (t : Z) (a : option string) (n : cluster_node) : cluster_node :=
  mkNode (cn_name n) (cn_us n) (cn_id n) (cn_flags n) (cn_state n) t a
    (cn_cman_join_time n) (cn_votes n) (cn_expected n) (cn_leave_reason n)
    (cn_incarnation n) (cn_port_bits n).
Definition cn_set_join_time (v : Z) (n : cluster_node) : cluster_node :=
  mkNode (cn_name n) (cn_us n) (cn_id n) (cn_flags n) (cn_state n) (cn_fence_time n)
    (cn_fence_agent n) v (cn_votes n) (cn_expected n) (cn_leave_reason n)
    (cn_incarnation n) (cn_port_bits n).
Definition cn_set_votes (v : Z) (n : cluster_node) : cluster_node :=
  mkNode (cn_name n) (cn_us n) (cn_id n) (cn_flags n) (cn_state n) (cn_fence_time n)
    (cn_fence_agent n) (cn_cman_join_time n) v (cn_expected n) (cn_leave_reason n)
    (cn_incarnation n) (cn_port_bits n).
Definition cn_set_expected (v : Z) (n : cluster_node) : cluster_node :=
  mkNode (cn_name n) (cn_us n) (cn_id n) (cn_flags n) (cn_state n) (cn_fence_time n)
    (cn_fence_agent n) (cn_cman_join_time n) (cn_votes n) v (cn_leave_reason n)
    (cn_incarnation n) (cn_port_bits n).
Definition cn_set_leave (v : Z) (n : cluster_node) : cluster_node :=
  mkNode (cn_name n) (cn_us n) (cn_id n) (cn_flags n) (cn_state n) (cn_fence_time n)
    (cn_fence_agent n) (cn_cman_join_time n) (cn_votes n) (cn_expected n) v
    (cn_incarnation n) (cn_port_bits n).
Definition cn_set_incarnation (v : Z) (n : cluster_node) : cluster_node :=
  mkNode (cn_name n) (cn_us n) (cn_id n) (cn_flags n) (cn_state n) (cn_fence_time n)
    (cn_fence_agent n) (cn_cman_join_time n) (cn_votes n) (cn_expected n)
    (cn_leave_reason n) v (cn_port_bits n).
Definition cn_set_ports (v : list Z) (n : cluster_node) : cluster_node :=
  mkNode (cn_name n) (cn_us n) (cn_id n) (cn_flags n) (cn_state n) (cn_fence_time n)
    (cn_fence_agent n) (cn_cman_join_time n) (cn_votes n) (cn_expected n)
    (cn_leave_reason n) (cn_incarnation n) v.
Definition cn_set_name (v : string) (n : cluster_node) : cluster_node :=
  mkNode v (cn_us n) (cn_id n) (cn_flags n) (cn_state n) (cn_fence_time n)
    (cn_fence_agent n) (cn_cman_join_time n) (cn_votes n) (cn_expected n)
    (cn_leave_reason n) (cn_incarnation n) (cn_port_bits n).

Definition cm_set_nodes (s : cman) (v : list cluster_node) : cman :=
  mkCman v (cm_members s) (cm_quorum s) (cm_two_node s) (cm_quorate s) (cm_qdev s)
    (cm_config_error s) (cm_us s) (cm_joined s) (cm_ais_running s) (cm_disallowed s)
    (cm_first_trans s) (cm_out s).
Definition cm_set_members (s : cman) (v : Z) : cman :=
  mkCman (cm_nodes s) v (cm_quorum s) (cm_two_node s) (cm_quorate s) (cm_qdev s)
    (cm_config_error s) (cm_us s) (cm_joined s) (cm_ais_running s) (cm_disallowed s)
    (cm_first_trans s) (cm_out s).
Definition cm_set_quorum (s : cman) (q : Z) (quorate : bool) : cman :=
  mkCman (cm_nodes s) (cm_members s) q (cm_two_node s) quorate (cm_qdev s)
    (cm_config_error s) (cm_us s) (cm_joined s) (cm_ais_running s) (cm_disallowed s)
    (cm_first_trans s) (cm_out s).
Definition cm_set_qdev (s : cman) (v : option quorum_dev) : cman :=
  mkCman (cm_nodes s) (cm_members s) (cm_quorum s) (cm_two_node s) (cm_quorate s) v
    (cm_config_error s) (cm_us s) (cm_joined s) (cm_ais_running s) (cm_disallowed s)
    (cm_first_trans s) (cm_out s).
Definition cm_set_config (s : cman) (err two_node first : bool) : cman :=
  mkCman (cm_nodes s) (cm_members s) (cm_quorum s) two_node (cm_quorate s) (cm_qdev s)
    err (cm_us s) (cm_joined s) (cm_ais_running s) (cm_disallowed s) first (cm_out s).
Definition cm_emit (s : cman) (es : list cman_effect) : cman :=
  mkCman (cm_nodes s) (cm_members s) (cm_quorum s) (cm_two_node s) (cm_quorate s) (cm_qdev s)
    (cm_config_error s) (cm_us s) (cm_joined s) (cm_ais_running s) (cm_disallowed s)
    (cm_first_trans s) (cm_out s ++ es).

(** ** Ports *)

Definition upd_byte (bits : list Z) (byte : nat) (f : Z -> Z) : list Z := alter f byte bits.

Definition set_port_bit (n : cluster_node) (port : Z) : cluster_node :=
  cn_set_ports (upd_byte (cn_port_bits n) (Z.to_nat (port / 8))
    (fun b => u8 (Z.lor b (Z.shiftl 1 (port mod 8))))) n.

Definition clear_port_bit (n : cluster_node) (port : Z) : cluster_node :=
  cn_set_ports (upd_byte (cn_port_bits n) (Z.to_nat (port / 8))
    (fun b => u8 (Z.land b (Z.lnot (Z.shiftl 1 (port mod 8)))))) n.

Definition get_port_bit (n : cluster_node) (port : Z) : bool :=
  c_true (Z.land (default 0 (cn_port_bits n !! Z.to_nat (port / 8)))
            (Z.shiftl 1 (port mod 8))).

(** ** The node list *)

Definition is_state (st : nodestate) (n : cluster_node) : bool := bool_decide (cn_state n = st).

Fixpoint find_node_by_nodeid (ns : list cluster_node) (nodeid : Z) : option cluster_node :=
  match ns with
  | [] => None
  | n :: rest => if cn_id n =? nodeid then Some n else find_node_by_nodeid rest nodeid
  end.

Fixpoint find_node_by_name (ns : list cluster_node) (name : string) : option cluster_node :=
  match ns with
  | [] => None
  | n :: rest => if bool_decide (cn_name n = name) then Some n else find_node_by_name rest name
  end.

(** Update the node with this id. *)
Fixpoint upd_cnode (ns : list cluster_node) (nodeid : Z) (f : cluster_node -> cluster_node)
  : list cluster_node :=
  match ns with
  | [] => []
  | n :: rest => if cn_id n =? nodeid then f n :: rest else n :: upd_cnode rest nodeid f
  end.

Fixpoint node_add_ordered (ns : list cluster_node) (newnode : cluster_node)
  : list cluster_node :=
  match ns with
  | [] => [newnode]
  | n :: rest =>
      if cn_id newnode <? cn_id n then newnode :: n :: rest
      else n :: node_add_ordered rest newnode
  end.

(** What [add_new_node] does to a node that exists or was just allocated. *)
Definition fill_node (name : string) (votes expected : Z) (n : cluster_node) : cluster_node :=
  let n := if votes >=? 0 then cn_set_votes votes n else n in
  let n := if c_true expected then cn_set_expected (u32 expected) n else n in
  let n := cn_set_name name n in
  cn_set_flags (Z.lor (cn_flags n) NODE_FLAGS_REREAD) n.

Definition add_new_node (ns : list cluster_node) (name : string)
    (nodeid votes expected : Z) (state : nodestate) (incarnation : Z) : list cluster_node :=
  match (if c_true nodeid then find_node_by_nodeid ns nodeid else None) with
  | Some _ => upd_cnode ns nodeid (fill_node name votes expected)
  | None =>
      node_add_ordered ns (fill_node name votes expected
        (mkNode name false nodeid 0 state 0 None 0 0 0 0
           (if bool_decide (state = MEMBER) then incarnation else 0) (repeat 0 32)))
  end.

Definition have_disallowed (s : cman) : bool :=
  cm_disallowed s && existsb (is_state AISONLY) (cm_nodes s).

(** ** Quorum *)

(** The loop of [calculate_quorum] writes [max_expected] to the members. *)
Definition set_max_expected (max_expected : Z) (n : cluster_node) : cluster_node :=
  if is_state MEMBER n && c_true max_expected then cn_set_expected (u32 max_expected) n else n.

Definition member_votes (ns : list cluster_node) : Z :=
  foldl (fun t n => if is_state MEMBER n then u32 (t + cn_votes n) else t) 0 ns.

Definition highest_expected (ns : list cluster_node) : Z :=
  foldl (fun t n => if is_state MEMBER n then Z.max t (cn_expected n) else t) 0 ns.

Definition total_nodes (ns : list cluster_node) : Z :=
  Z.of_nat (length (List.filter (is_state MEMBER) ns)).

Definition qdev_votes (s : cman) : Z :=
  match cm_qdev s with
  | Some q => if bool_decide (qd_state q = MEMBER) then qd_votes q else 0
  | None => 0
  end.

(** [calculate_quorum]: the new quorum, [*ret_total_votes] and the nodes. *)
Definition calculate_quorum (s : cman) (allow_decrease : bool) (max_expected : Z)
  : Z * Z * list cluster_node :=
  let ns := map (set_max_expected max_expected) (cm_nodes s) in
  let total_votes := u32 (member_votes (cm_nodes s) + qdev_votes s) in
  let highest :=
    if max_expected >? 0 then u32 max_expected
    else if c_true max_expected then 0 else highest_expected (cm_nodes s) in
  let q1 := u32 (highest + 2) / 2 in
  let q2 := u32 (total_votes + 2) / 2 in
  let newquorum := Z.max q1 q2 in
  let newquorum := if allow_decrease then newquorum else Z.max (u32 (cm_quorum s)) newquorum in
  let newquorum :=
    if cm_two_node s && (total_nodes (cm_nodes s) <=? 2) then 1 else newquorum in
  (s32 newquorum, total_votes, ns).

(** [set_quorate]: the comparison with [total_votes] is of signed values. *)
Definition set_quorate (s : cman) (total_votes : Z) : cman :=
  let quorate := negb ((cm_quorum s >? s32 total_votes) || cm_config_error s) in
  let kills :=
    if negb (cm_quorate s) && quorate
    then map (fun n => SendKill (cn_id n) CLUSTER_KILL_REJOIN)
           (List.filter (is_state AISONLY) (cm_nodes s))
    else [] in
  cm_emit (cm_set_quorum s (cm_quorum s) quorate)
    (kills ++ [SetQuorum (map cn_id (List.filter (is_state MEMBER) (cm_nodes s))) quorate]).

Definition recalculate_quorum (s : cman) (allow_decrease by_current_nodes : bool) : cman :=
  let '(q, total, ns) :=
    calculate_quorum s allow_decrease (if by_current_nodes then cm_members s else 0) in
  let s1 := set_quorate (cm_set_quorum (cm_set_nodes s ns) q (cm_quorate s)) total in
  cm_emit s1 [NotifyState (cm_quorate s1)].

(** ** Commands *)

Definition RECONFIG_PARAM_EXPECTED_VOTES : Z := 1.
Definition RECONFIG_PARAM_NODE_VOTES : Z := 2.

Definition override_expected (ns : list cluster_node) (newexp : Z) : list cluster_node :=
  map (fun n => if is_state MEMBER n && (cn_expected n >? u32 newexp)
                then cn_set_expected (u32 newexp) n else n) ns.

(** [do_cmd_set_expected]; [newexp] is the unsigned value of the command. *)
Definition do_cmd_set_expected (s : cman) (newexp : Z) : Z * cman :=
  if negb (cm_joined s) then (- ENOENT, s)
  else if existsb (is_state AISONLY) (cm_nodes s) then (- EINVAL, s)
  else
    let '(newquorum, total_votes, ns) := calculate_quorum s true (s32 newexp) in
    let s1 := cm_set_nodes s ns in
    let newquorum := u32 newquorum in
    if (newquorum <? total_votes / 2) || (newquorum >? total_votes) then (- EINVAL, s1)
    else
      (0, cm_emit (cm_set_nodes s1 (override_expected (cm_nodes s1) (s32 newexp)))
            [SendReconfigure (cm_us s) RECONFIG_PARAM_EXPECTED_VOTES newexp]).

Definition do_cmd_kill_node (s : cman) (nodeid : Z) : Z * cman :=
  if negb (cm_joined s) then (- ENOENT, s)
  else
    match find_node_by_nodeid (cm_nodes s) nodeid with
    | None => (- EINVAL, s)
    | Some n =>
        if negb (is_state MEMBER n) && negb (is_state AISONLY n) then (- EINVAL, s)
        else
          (0, cm_emit (cm_set_nodes s (upd_cnode (cm_nodes s) nodeid
                (fun n => cn_set_state LEAVING (cn_set_leave CLUSTER_LEAVEFLAG_KILLED n))))
                [SendKill nodeid CLUSTER_KILL_CMANTOOL])
    end.

Definition do_cmd_set_votes (s : cman) (nodeid newvotes : Z) : Z * cman :=
  if negb (cm_joined s) then (- ENOTCONN, s)
  else
    let nodeid := if c_true nodeid then nodeid else cm_us s in
    match find_node_by_nodeid (cm_nodes s) nodeid with
    | None => (- ENOENT, s)
    | Some n =>
        let s1 := cm_set_nodes s (upd_cnode (cm_nodes s) nodeid (cn_set_votes (u32 newvotes))) in
        let '(newquorum, total_votes, ns) := calculate_quorum s1 true 0 in
        let newquorum := u32 newquorum in
        if (newquorum <? total_votes / 2) || (newquorum >? total_votes)
        then (- EINVAL, cm_set_nodes s1 (upd_cnode ns nodeid (cn_set_votes (cn_votes n))))
        else
          (0, cm_emit (recalculate_quorum (cm_set_nodes s1 ns) true false)
                [SendReconfigure nodeid RECONFIG_PARAM_NODE_VOTES newvotes])
    end.

Definition MAX_CLUSTER_MEMBER_NAME_LEN : nat := 255.

Definition do_cmd_register_quorum_device (s : cman) (name : string) (votes : Z) : Z * cman :=
  if negb (cm_ais_running s) then (- ENOTCONN, s)
  else if negb (cm_joined s) then (- ENOENT, s)
  else if (MAX_CLUSTER_MEMBER_NAME_LEN <? String.length name)%nat then (- EINVAL, s)
  else if (match cm_qdev s with Some q => negb (bool_decide (qd_name q = name)) | None => false end)
  then (- EBUSY, s)
  else
    match find_node_by_name (cm_nodes s) name with
    | Some _ => (- EALREADY, s)
    | None =>
        let q := default (mkQdev name DEAD 0 0) (cm_qdev s) in
        let s1 := cm_set_qdev s (Some (mkQdev (qd_name q) (qd_state q) (u32 votes)
                    (qd_last_hello q))) in
        if bool_decide (qd_state q = MEMBER) && negb (s32 (qd_votes q) =? votes)
        then (0, recalculate_quorum s1 true false) else (0, s1)
    end.

Definition do_cmd_unregister_quorum_device (s : cman) : Z * cman :=
  match cm_qdev s with
  | None => (- EINVAL, s)
  | Some q =>
      if bool_decide (qd_state q = MEMBER) then (- EBUSY, s) else (0, cm_set_qdev s None)
  end.

(** [do_cmd_poll_quorum_device]; the timer it arms or deletes is not modelled. *)
Definition do_cmd_poll_quorum_device (s : cman) (yes : bool) (now : Z) : Z * cman :=
  match cm_qdev s with
  | None => (- EINVAL, s)
  | Some q =>
      if yes then
        let st := qd_state q in
        let s1 := cm_set_qdev s (Some (mkQdev (qd_name q)
                    (if bool_decide (st = DEAD) then MEMBER else st) (qd_votes q) now)) in
        if bool_decide (st = DEAD) then (0, recalculate_quorum s1 false false) else (0, s1)
      else if bool_decide (qd_state q = MEMBER) then
        (0, recalculate_quorum (cm_set_qdev s (Some (mkQdev (qd_name q) DEAD (qd_votes q)
              (qd_last_hello q)))) false false)
      else (0, s)
  end.

(** [quorum_device_timer_fn]; [poll] is [quorumdev_poll] in milliseconds. *)
Definition quorum_device_timer_fn (s : cman) (poll now : Z) : cman :=
  match cm_qdev s with
  | None => s
  | Some q =>
      if bool_decide (qd_state q = DEAD) then s
      else if qd_last_hello q + poll / 1000 <? now then
        recalculate_quorum (cm_set_qdev s (Some (mkQdev (qd_name q) DEAD (qd_votes q)
          (qd_last_hello q)))) false false
      else s
  end.

(** ** Node up and node down *)

(** [add_ais_node]; [tempname] is the emergency name of a node without entry. *)
Definition add_ais_node (s : cman) (nodeid incar total_members : Z) (tempname : string) : cman :=
  let found := find_node_by_nodeid (cm_nodes s) nodeid in
  let '(id, ns) :=
    match found with
    | Some _ => (nodeid, cm_nodes s)
    | None =>
        if total_members =? 1 then (cm_us s, cm_nodes s)
        else (nodeid, add_new_node (cm_nodes s) tempname nodeid 1 total_members DEAD incar)
    end in
  match find_node_by_nodeid ns id with
  | None => cm_set_nodes s ns
  | Some n =>
      if is_state DEAD n || is_state LEAVING n then
        let ns1 := upd_cnode ns id (fun n =>
          cn_set_leave 0 (cn_set_state MEMBER (cn_set_incarnation incar n))) in
        recalculate_quorum (cm_set_members (cm_set_nodes s ns1) (cm_members s + 1)) false false
      else cm_set_nodes s ns
  end.

(** The flags of a node that goes down at time [t]. *)
Definition down_flags (t : Z) (n : cluster_node) : Z :=
  let f := cn_flags n in
  let f := if negb (c_true (Z.land f NODE_FLAGS_FENCEDWHILEUP)) || (t - cn_fence_time n >? 120)
           then Z.land f (Z.lnot NODE_FLAGS_FENCED) else f in
  Z.lor (Z.land f (Z.lnot NODE_FLAGS_FENCEDWHILEUP)) NODE_FLAGS_BEENDOWN.

Definition del_ais_node (s : cman) (nodeid t : Z) : cman :=
  match find_node_by_nodeid (cm_nodes s) nodeid with
  | None => s
  | Some n =>
      let upd f := cm_set_nodes s (upd_cnode (cm_nodes s) nodeid
                     (fun n => f (cn_set_flags (down_flags t n) n))) in
      match cn_state n with
      | MEMBER =>
          let s1 := upd (fun n => cn_set_ports (repeat 0 32) (cn_set_state DEAD n)) in
          recalculate_quorum (cm_set_members s1 (cm_members s - 1)) false false
      | AISONLY => upd (cn_set_state DEAD)
      | LEAVING =>
          let s1 := upd (fun n => cn_set_ports (repeat 0 32) (cn_set_state DEAD n)) in
          let removed := cn_leave_reason n =? CLUSTER_LEAVEFLAG_REMOVED in
          recalculate_quorum (cm_set_members s1 (cm_members s - 1)) removed removed
      | JOINING | DEAD => upd id
      end
  end.

(** ** Messages *)

(** [do_reconfigure_msg] but for a new configuration version. *)
Definition do_reconfigure_msg (s : cman) (nodeid param value : Z) : cman :=
  match find_node_by_nodeid (cm_nodes s) nodeid with
  | None => s
  | Some _ =>
      let s := cm_set_config s (cm_config_error s) (cm_two_node s) false in
      if param =? RECONFIG_PARAM_EXPECTED_VOTES then
        let ns := upd_cnode (cm_nodes s) nodeid (cn_set_expected value) in
        recalculate_quorum (cm_set_nodes s
          (map (fun n => if is_state MEMBER n && (cn_expected n >? value)
                         then cn_set_expected value n else n) ns)) true false
      else if param =? RECONFIG_PARAM_NODE_VOTES then
        recalculate_quorum
          (cm_set_nodes s (upd_cnode (cm_nodes s) nodeid (cn_set_votes value))) true false
      else s
  end.

Definition do_fence_msg (s : cman) (nodeid timesec : Z) (fenced : bool) (agent : string) : cman :=
  cm_set_nodes s (upd_cnode (cm_nodes s) nodeid (fun n =>
    let n1 := cn_set_fence timesec (Some agent) n in
    if fenced then
      let f := Z.lor (cn_flags n1) NODE_FLAGS_FENCED in
      cn_set_flags (if is_state MEMBER n1 then Z.lor f NODE_FLAGS_FENCEDWHILEUP else f) n1
    else n1)).

Definition do_cmd_update_fence_info (s : cman) (nodeid fence_time : Z) (agent : string)
  : Z * cman :=
  match find_node_by_nodeid (cm_nodes s) nodeid with
  | None => (- EINVAL, s)
  | Some _ =>
      if (255 <=? String.length agent)%nat then (- EINVAL, s)
      else
        let ns := upd_cnode (cm_nodes s) nodeid (fun n =>
          let f := Z.lor (cn_flags n) NODE_FLAGS_FENCED in
          cn_set_flags (if is_state MEMBER n then Z.lor f NODE_FLAGS_FENCEDWHILEUP else f) n) in
        (0, cm_emit (cm_set_nodes s ns) [SendFence 0 nodeid fence_time true agent])
  end.

(** The fields of a transition message that matter once [valid_transition_msg]
    has accepted it; an empty agent is the empty string. *)
Record transmsg := mkTrans {
  tm_first_trans : bool;
  tm_votes : Z;
  tm_expected_votes : Z;
  tm_minor_version : Z;
  tm_flags : Z;
  tm_fence_time : Z;
  tm_join_time : Z;
  tm_fence_agent : string
}.

(** A node that must not be merged is set aside, and killed when we are quorate. *)
Definition set_aside (s : cman) (nodeid : Z) (n : cluster_node) : cman :=
  if is_state AISONLY n then s
  else
    let s1 := cm_set_nodes s (upd_cnode (cm_nodes s) nodeid (cn_set_state AISONLY)) in
    if cm_quorate s then cm_emit s1 [SendKill nodeid CLUSTER_KILL_REJOIN] else s1.

(** The state that makes a rejoin impossible: the tests of [do_process_transition]
    under [enable_disallowed]. *)
Definition must_set_aside (s : cman) (n us : cluster_node) (msg : transmsg) (flags : Z) : bool :=
  let dirty := c_true (Z.land flags NODE_FLAGS_DIRTY) in
  (dirty && c_true (Z.land (cn_flags n) NODE_FLAGS_BEENDOWN)) ||
  (dirty && tm_first_trans msg && negb (cn_us n) &&
   c_true (Z.land (cn_flags us) NODE_FLAGS_DIRTY)) ||
  ((tm_minor_version msg =? 0) && (tm_join_time msg =? cn_cman_join_time n) &&
   c_true (Z.land (cn_flags n) NODE_FLAGS_BEENDOWN)).

(** The end of [do_process_transition]: flags and votes, quorum, fence data. *)
Definition accept_transition (s : cman) (nodeid : Z) (old : cluster_node) (msg : transmsg)
    (flags : Z) : cman :=
  let aside := cm_disallowed s && tm_first_trans msg && negb (cn_us old) && have_disallowed s in
  let ns := if aside then upd_cnode (cm_nodes s) nodeid (cn_set_state AISONLY) else cm_nodes s in
  let ns := upd_cnode ns nodeid (fun n => cn_set_expected (tm_expected_votes msg)
              (cn_set_flags flags n)) in
  let ns := upd_cnode ns (cm_us s) (fun u =>
              cn_set_expected (Z.max (cn_expected u) (tm_expected_votes msg)) u) in
  let s1 := cm_set_nodes s ns in
  match find_node_by_nodeid ns nodeid with
  | None => s1
  | Some n =>
      let s2 := if negb (bool_decide (cn_state old = cn_state n)) ||
                   negb (cn_expected old =? cn_expected n)
                then recalculate_quorum s1 false false else s1 in
      let news := match cn_fence_agent n with
                  | Some a => negb (bool_decide (tm_fence_agent msg = EmptyString)) &&
                              negb (bool_decide (a = tm_fence_agent msg))
                  | None => false end in
      let s3 := if news then cm_set_nodes s2 (upd_cnode (cm_nodes s2) nodeid
                  (cn_set_fence (tm_fence_time msg) (Some (tm_fence_agent msg)))) else s2 in
      match cn_fence_agent n with
      | Some a =>
          if negb news && c_true (cn_fence_time n) && (tm_fence_time msg =? 0) &&
             bool_decide (tm_fence_agent msg = EmptyString)
          then cm_emit s3 [SendFence nodeid nodeid (cn_fence_time n) false a] else s3
      | None => s3
      end
  end.

(** [do_process_transition] of a message that [valid_transition_msg] accepted.
    [None] is the daemon's exit when it joined a cluster with disallowed nodes. *)
Definition do_process_transition (s : cman) (nodeid : Z) (msg : transmsg)
    (incarnation num_ais_nodes : Z) (tempname : string) : option cman :=
  if cm_disallowed s && cm_first_trans s &&
     c_true (Z.land (tm_flags msg) NODE_FLAGS_SEESDISALLOWED) && negb (have_disallowed s)
  then None
  else
    let flags := Z.land (tm_flags msg) (Z.lnot NODE_FLAGS_SEESDISALLOWED) in
    let s := match find_node_by_nodeid (cm_nodes s) nodeid with
             | Some _ => s
             | None => add_ais_node s nodeid incarnation num_ais_nodes tempname end in
    match find_node_by_nodeid (cm_nodes s) nodeid, find_node_by_nodeid (cm_nodes s) (cm_us s) with
    | Some n, Some us =>
        if cm_disallowed s && must_set_aside s n us msg flags then Some (set_aside s nodeid n)
        else
          let s1 := if cm_disallowed s
                    then cm_set_nodes s (upd_cnode (cm_nodes s) nodeid
                           (cn_set_join_time (tm_join_time msg)))
                    else s in
          let s2 := add_ais_node s1 nodeid incarnation num_ais_nodes tempname in
          Some (accept_transition s2 nodeid n msg flags)
    | _, _ => None
    end.

(** The leave case of [process_internal_message], for a message of another node. *)
Definition process_leave_msg (s : cman) (nodeid reason : Z) : cman :=
  cm_set_nodes s (upd_cnode (cm_nodes s) nodeid (fun n =>
    let n1 := cn_set_leave reason n in
    if is_state MEMBER n1 || is_state AISONLY n1 then cn_set_state LEAVING n1 else n1)).

(** ** Configuration *)

Definition clear_reread_flags (ns : list cluster_node) : list cluster_node :=
  map (fun n => cn_set_flags (Z.land (cn_flags n) (Z.lnot NODE_FLAGS_REREAD)) n) ns.

Definition remove_unread_nodes (ns : list cluster_node) : list cluster_node :=
  List.filter (fun n => c_true (Z.land (cn_flags n) NODE_FLAGS_REREAD) ||
                        negb (is_state DEAD n)) ns.

Definition add_ccs_node (ns : list cluster_node) (name : string) (nodeid votes expected : Z)
  : list cluster_node := add_new_node ns name nodeid votes expected DEAD 0.

(** A node of the configuration: its name, votes and node id. *)
Record ccs_node := mkCcs { cc_name : string; cc_votes : Z; cc_id : Z }.

(** The loop of [read_cman_nodes] over the nodes of the database; false when a node
    id is missing and [check_nodeids] is set. *)
Fixpoint read_nodes_loop (ns : list cluster_node) (ccs : list ccs_node) (expected : Z)
    (check_nodeids : bool) (total : Z) : bool * list cluster_node * Z :=
  match ccs with
  | [] => (true, ns, total)
  | x :: rest =>
      if check_nodeids && (cc_id x =? 0) then (false, ns, total)
      else
        read_nodes_loop (add_ccs_node ns (cc_name x) (cc_id x) (cc_votes x) expected) rest
          expected check_nodeids (u32 (total + cc_votes x))
  end.

(** [read_cman_nodes]: [expected] and [two_node] are those of the database. *)
Definition read_cman_nodes (s : cman) (ccs : list ccs_node) (expected : Z) (two_node : bool)
    (check_nodeids : bool) : Z * cman :=
  let s := cm_set_config s (cm_config_error s) two_node (cm_first_trans s) in
  let '(ok, ns, total) :=
    read_nodes_loop (clear_reread_flags (cm_nodes s)) ccs expected check_nodeids 0 in
  if negb ok then (- EINVAL, cm_set_nodes s ns)
  else
    let expected := if expected =? 0 then total else expected in
    (0, cm_set_nodes s (remove_unread_nodes (override_expected ns (s32 expected)))).
