(* ===== verification/CmanThm.v ===== *)
(** * Properties of the cluster manager's quorum and node list

    Quorum is a majority of the expected votes, so that two disjoint partitions
    are never both quorate; nodes with state that come back are set aside; the
    node list stays ordered; and where the commands leave the state wrong. *)

From S2P Require Import Prelude CmanQuorum.
From stdpp Require Import strings sorting.
Open Scope Z_scope.

(** ** Sums of votes *)

Definition votes_sum (ns : list cluster_node) : Z :=
  foldr (fun n t => if is_state MEMBER n then cn_votes n + t else t) 0 ns.

Definition nodes_typed (ns : list cluster_node) : Prop :=
  Forall (fun n => 0 <= cn_votes n /\ 0 <= cn_expected n) ns.

Lemma votes_sum_nonneg ns : nodes_typed ns -> 0 <= votes_sum ns.
Proof.
  induction 1 as [|n ns [Hv _] Hns IH]; simpl; [lia|]. destruct (is_state MEMBER n); lia.
Qed.

Lemma member_votes_fold ns : nodes_typed ns -> forall t, 0 <= t ->
  t + votes_sum ns < 2 ^ 32 ->
  foldl (fun t n => if is_state MEMBER n then u32 (t + cn_votes n) else t) t ns =
  t + votes_sum ns.
Proof.
  induction 1 as [|n ns [Hv _] Hns IH]; intros t Ht Hlt; simpl in *; [lia|].
  pose proof (votes_sum_nonneg ns Hns).
  destruct (is_state MEMBER n).
  - rewrite wrap_small by (unfold in_u; lia). rewrite IH; lia.
  - rewrite IH; lia.
Qed.

Lemma member_votes_sum ns : nodes_typed ns -> votes_sum ns < 2 ^ 32 ->
  member_votes ns = votes_sum ns.
Proof. intros Ht Hv. unfold member_votes. rewrite member_votes_fold; [lia|done|lia|lia]. Qed.

Lemma highest_expected_fold ns : forall t,
  let h := foldl (fun t n => if is_state MEMBER n then Z.max t (cn_expected n) else t) t ns in
  t <= h /\ Forall (fun n => is_state MEMBER n = true -> cn_expected n <= h) ns /\
  (h = t \/ exists n, n ∈ ns /\ is_state MEMBER n = true /\ h = cn_expected n).
Proof.
  induction ns as [|n ns IH]; intros t; cbn [foldl].
  - split_and!; [lia|constructor|by left].
  - destruct (IH (if is_state MEMBER n then Z.max t (cn_expected n) else t)) as (H1 & H2 & H3).
    destruct (is_state MEMBER n) eqn:E.
    + split_and!; [lia|constructor; [intros _; lia|done]|].
      destruct H3 as [H3|(m & Hm & Hs & Hh)].
      * destruct (Z.max_spec t (cn_expected n)) as [[Hl Hm]|[Hl Hm]]; rewrite Hm in *;
          [|by left].
        right. exists n. split_and!; [by left|done|done].
      * right. exists m. split_and!; [by right|done..].
    + split_and!; [done|constructor; [congruence|done]|].
      destruct H3 as [H3|(m & Hm & Hs & Hh)]; [by left|].
      right. exists m. split_and!; [by right|done..].
Qed.

Lemma highest_expected_ge ns n : n ∈ ns -> is_state MEMBER n = true ->
  cn_expected n <= highest_expected ns.
Proof.
  intros Hn Hs. destruct (highest_expected_fold ns 0) as (_ & H & _).
  rewrite Forall_forall in H. by apply H.
Qed.

Lemma highest_expected_nonneg ns : 0 <= highest_expected ns.
Proof. by destruct (highest_expected_fold ns 0) as (H & _). Qed.

(** All the votes the daemon counts. *)
Definition present_votes (s : cman) : Z := votes_sum (cm_nodes s) + qdev_votes s.

(** The votes that are expected: those that the members say, or, after a node has been removed
    with [cman_tool leave remove], the number of members. *)
Definition expected_votes (s : cman) (by_current : bool) : Z :=
  if by_current && (0 <? cm_members s) then cm_members s else highest_expected (cm_nodes s).

(** The values are in range. *)
Record quorum_range (s : cman) (by_current : bool) : Prop := mkQuorumRange {
  qr_typed : nodes_typed (cm_nodes s);
  qr_qdev : 0 <= qdev_votes s;
  qr_votes : present_votes s + 2 < 2 ^ 31;
  qr_expected : expected_votes s by_current + 2 < 2 ^ 31;
  qr_quorum : 0 <= cm_quorum s < 2 ^ 31;
  qr_members : by_current = true -> 0 <= cm_members s
}.

(** Two nodes that may each go on alone. *)
Definition two_alone (s : cman) : bool := cm_two_node s && (total_nodes (cm_nodes s) <=? 2).

Definition new_quorum (s : cman) (a b : bool) : Z :=
  let m := Z.max ((expected_votes s b + 2) / 2) ((present_votes s + 2) / 2) in
  if two_alone s then 1 else if a then m else Z.max (cm_quorum s) m.

Lemma expected_votes_nonneg s b : 0 <= expected_votes s b.
Proof. unfold expected_votes. destruct (b && _) eqn:E; [|apply highest_expected_nonneg]. apply andb_true_iff in E as [_ E]. lia. Qed.

Lemma calculate_quorum_eq s a b : quorum_range s b ->
  let e := if b then cm_members s else 0 in
  calculate_quorum s a e = (new_quorum s a b, present_votes s, map (set_max_expected e) (cm_nodes s)).
Proof.
  intros [Ht Hq Hv He Hqu Hm] e. pose proof (votes_sum_nonneg _ Ht). pose proof (expected_votes_nonneg s b).
  assert ((if e >? 0 then u32 e else if c_true e then 0 else highest_expected (cm_nodes s)) = expected_votes s b) as Ee.
  { unfold e, expected_votes, c_true in *. destruct b; [|done]. specialize (Hm eq_refl). cbn [andb] in *. rewrite Z.gtb_ltb.
    destruct (Z.ltb_spec 0 (cm_members s)); [apply wrap_small; unfold in_u; lia|].
    by replace (cm_members s) with 0 by lia. }
  unfold calculate_quorum, present_votes in *. cbv zeta. rewrite Ee, member_votes_sum by (done || lia).
  rewrite (wrap_small 32 (votes_sum _ + _)) by (unfold in_u; lia).
  rewrite (wrap_small 32 (cm_quorum s)) by (unfold in_u; lia).
  rewrite (wrap_small 32 (expected_votes _ _ + _)) by (unfold in_u; lia).
  rewrite (wrap_small 32 (votes_sum _ + _ + _)) by (unfold in_u; lia).
  f_equal. f_equal. fold (two_alone s). unfold new_quorum, present_votes. destruct (two_alone s); [done|].
  assert (Hb : forall x, 0 <= x -> x < 2 ^ 31 -> 0 <= x / 2 < 2 ^ 31).
  { intros x H1 H2. split; [apply Z.div_pos; lia|apply Z.div_lt_upper_bound; lia]. }
  pose proof (Hb (expected_votes s b + 2) ltac:(lia) ltac:(lia)).
  pose proof (Hb (votes_sum (cm_nodes s) + qdev_votes s + 2) ltac:(lia) ltac:(lia)).
  destruct a; rewrite swrap_small; unfold in_s; lia.
Qed.

Lemma set_max_expected_0 ns : map (set_max_expected 0) ns = ns.
Proof.
  rewrite <- (map_id ns) at 2. apply map_ext. intros n. unfold set_max_expected.
  by rewrite andb_false_r.
Qed.

(** What a recalculation leaves. *)
Lemma recalculate_quorum_eq s (a b : bool) : quorum_range s b ->
  let s' := recalculate_quorum s a b in
  cm_quorum s' = new_quorum s a b /\
  cm_quorate s' = (new_quorum s a b <=? present_votes s) && negb (cm_config_error s).
Proof.
  intros Hok. cbv zeta. unfold recalculate_quorum. rewrite calculate_quorum_eq by done. simpl. split; [done|].
  destruct Hok as [Ht Hq Hv _ _ _]. pose proof (votes_sum_nonneg _ Ht).
  unfold present_votes in *. rewrite swrap_small by (unfold in_s; lia).
  rewrite negb_orb. f_equal. rewrite Z.gtb_ltb, Z.ltb_antisym. by rewrite negb_involutive.
Qed.


(** ** Two partitions *)

Lemma votes_sum_ids (votes : Z -> Z) ns :
  Forall (fun n => is_state MEMBER n = true -> cn_votes n = votes (cn_id n)) ns ->
  votes_sum ns = foldr (fun k t => votes k + t) 0
    (map cn_id (List.filter (is_state MEMBER) ns)).
Proof.
  induction 1 as [|n ns Hn Hns IH]; simpl; [done|].
  destruct (is_state MEMBER n); simpl; [rewrite Hn, IH by done|]; done.
Qed.

Lemma foldr_votes_app (votes : Z -> Z) l k :
  foldr (fun k t => votes k + t) 0 (l ++ k) =
  foldr (fun k t => votes k + t) 0 l + foldr (fun k t => votes k + t) 0 k.
Proof. induction l as [|x l IH]; simpl; [lia|]. rewrite IH. lia. Qed.

Lemma foldr_votes_sub (votes : Z -> Z) l all :
  Forall (fun k => 0 <= votes k) all -> l ⊆+ all ->
  foldr (fun k t => votes k + t) 0 l <= foldr (fun k t => votes k + t) 0 all.
Proof.
  intros Hv Hs. induction Hs as [|x l k Hs IH|x y l|x l k Hs IH|l1 l2 l3 H1 IH1 H2 IH2]; simpl.
  - lia.
  - apply Forall_cons in Hv as [_ Hv]. specialize (IH Hv). lia.
  - lia.
  - apply Forall_cons in Hv as [Hx Hv]. specialize (IH Hv). lia.
  - pose proof (IH2 Hv). assert (Forall (fun k => 0 <= votes k) l2).
    { rewrite Forall_forall in *. intros z Hz. apply Hv. by eapply elem_of_submseteq. }
    specialize (IH1 H0). lia.
Qed.

Definition member_ids (s : cman) : list Z :=
  map cn_id (List.filter (is_state MEMBER) (cm_nodes s)).

(** A partition of a cluster: its members are nodes of the cluster, with the votes
    the configuration gives them, and one of them knows how many to expect. *)
Record partition (votes : Z -> Z) (E : Z) (s : cman) : Prop := mkPartition {
  pt_ok : quorum_range s false;
  pt_alone : two_alone s = false;
  pt_votes : Forall (fun n => is_state MEMBER n = true -> cn_votes n = votes (cn_id n)) (cm_nodes s);
  pt_expected : exists n, n ∈ cm_nodes s /\ is_state MEMBER n = true /\ E <= cn_expected n
}.

(** C11: no split brain, outside of the [two_node] mode.  Two partitions without a common
    member, whose members expect at least the votes of all nodes and the quorum device, and of
    which at most one has the quorum device, do not both come out quorate when they recalculate
    their quorum from the expected votes, whatever the history of their quorum. *)
Theorem no_split_brain votes E all qv s1 s2 (a1 a2 : bool)
  (Hp1 : partition votes E s1) (Hp2 : partition votes E s2)
  (Hvotes : Forall (fun k => 0 <= votes k) all)
  (Hsub : member_ids s1 ++ member_ids s2 ⊆+ all)
  (Hqd : qdev_votes s1 + qdev_votes s2 <= qv)
  (HE : foldr (fun k t => votes k + t) 0 all + qv <= E)
  (Hq1 : cm_quorate (recalculate_quorum s1 a1 false) = true)
  (Hq2 : cm_quorate (recalculate_quorum s2 a2 false) = true) : False.
Proof.
  assert (Hmaj : forall s (a : bool), partition votes E s ->
    cm_quorate (recalculate_quorum s a false) = true -> E < 2 * present_votes s).
  { intros s a [Hok Hal _ (n & Hn & Hm & He)] Hq.
    destruct (recalculate_quorum_eq s a false Hok) as (_ & Hr). rewrite Hr in Hq.
    apply andb_true_iff in Hq as [Hq _]. apply Z.leb_le in Hq. unfold new_quorum in Hq. rewrite Hal in Hq.
    change (expected_votes s false) with (highest_expected (cm_nodes s)) in Hq.
    pose proof (highest_expected_ge _ _ Hn Hm) as Hh. set (h := highest_expected _) in *.
    pose proof (Z.div_mod (h + 2) 2 ltac:(lia)).
    pose proof (Z.mod_pos_bound (h + 2) 2 ltac:(lia)). destruct a; lia. }
  pose proof (Hmaj _ _ Hp1 Hq1) as H1. pose proof (Hmaj _ _ Hp2 Hq2) as H2.
  unfold present_votes in *.
  rewrite (votes_sum_ids votes _ (pt_votes _ _ _ Hp1)) in H1.
  rewrite (votes_sum_ids votes _ (pt_votes _ _ _ Hp2)) in H2.
  pose proof (foldr_votes_sub votes _ _ Hvotes Hsub) as H3.
  rewrite foldr_votes_app in H3. unfold member_ids in H3. lia.
Qed.

(** ** The node list *)

Definition ordered (ns : list cluster_node) : Prop := StronglySorted Z.lt (map cn_id ns).

Lemma upd_cnode_ids ns k f : (forall n, cn_id (f n) = cn_id n) ->
  map cn_id (upd_cnode ns k f) = map cn_id ns.
Proof.
  intros Hf. induction ns as [|n ns IH]; simpl; [done|].
  destruct (cn_id n =? k); simpl; by rewrite ?Hf, ?IH.
Qed.

Lemma find_upd_same ns k f : (forall n, cn_id (f n) = cn_id n) ->
  find_node_by_nodeid (upd_cnode ns k f) k = option_map f (find_node_by_nodeid ns k).
Proof.
  intros Hf. induction ns as [|n ns IH]; simpl; [done|].
  destruct (cn_id n =? k) eqn:E; simpl; [by rewrite Hf, E|by rewrite E].
Qed.

Lemma find_upd_other ns k j f : (forall n, cn_id (f n) = cn_id n) -> j <> k ->
  find_node_by_nodeid (upd_cnode ns k f) j = find_node_by_nodeid ns j.
Proof.
  intros Hf Hj. induction ns as [|n ns IH]; simpl; [done|].
  destruct (cn_id n =? k) eqn:E; simpl; [|by rewrite IH].
  rewrite Hf. zbool. rewrite E. by rewrite (proj2 (Z.eqb_neq k j)) by lia.
Qed.

Lemma find_None_ids ns k : find_node_by_nodeid ns k = None <-> k ∉ map cn_id ns.
Proof.
  induction ns as [|n ns IH]; simpl; [split; [intros _ H; inversion H|done]|].
  rewrite not_elem_of_cons. zcase; [split; [done|intros [H _]; lia]|]. rewrite IH.
  intuition congruence.
Qed.

Lemma find_Some_elem ns k n : find_node_by_nodeid ns k = Some n -> n ∈ ns /\ cn_id n = k.
Proof.
  induction ns as [|m ns IH]; simpl; [done|]. rewrite elem_of_cons.
  zcase; [intros [= <-]; auto|]. intros H. destruct (IH H); auto.
Qed.

Lemma add_ordered_perm ns x : node_add_ordered ns x ≡ₚ x :: ns.
Proof.
  induction ns as [|n ns IH]; simpl; [done|].
  destruct (cn_id x <? cn_id n); [done|]. rewrite IH. by constructor.
Qed.

Lemma add_ordered_sorted ns x : ordered ns -> cn_id x ∉ map cn_id ns ->
  ordered (node_add_ordered ns x).
Proof.
  unfold ordered. induction ns as [|n ns IH]; simpl; intros Hs Hx; [repeat constructor|].
  apply not_elem_of_cons in Hx as [Hx1 Hx2]. inversion Hs as [|? ? Hs1 Hs2]; subst.
  zcase; simpl.
  - constructor; [done|]. constructor; [done|].
    eapply Forall_impl; [exact Hs2|]. simpl. intros; lia.
  - constructor; [by apply IH|]. rewrite (Permutation_map cn_id (add_ordered_perm ns x)).
    simpl. constructor; [lia|done].
Qed.

Lemma find_add_ordered ns x k : cn_id x ∉ map cn_id ns ->
  find_node_by_nodeid (node_add_ordered ns x) k =
  if cn_id x =? k then Some x else find_node_by_nodeid ns k.
Proof.
  induction ns as [|n ns IH]; simpl; intros Hx; [done|].
  apply not_elem_of_cons in Hx as [Hx1 Hx2].
  destruct (cn_id x <? cn_id n); simpl; [done|]. rewrite IH by done.
  repeat zcase; try done. zbool. lia.
Qed.

Lemma fill_node_id name v e n : cn_id (fill_node name v e n) = cn_id n.
Proof. unfold fill_node. by repeat zcase. Qed.

(** [add_new_node] on a node id that is not 0. *)
Lemma add_new_node_spec ns name k v e st inc : k <> 0 -> ordered ns ->
  let ns' := add_new_node ns name k v e st inc in
  ordered ns' /\
  (exists n0, find_node_by_nodeid ns' k = Some (fill_node name v e n0) /\ cn_id n0 = k) /\
  (forall j, j <> k -> find_node_by_nodeid ns' j = find_node_by_nodeid ns j) /\
  (forall n, n ∈ ns' -> n ∈ ns \/ cn_id n = k).
Proof.
  intros Hk Ho. unfold add_new_node, c_true.
  rewrite (proj2 (Z.eqb_neq k 0) Hk). cbn [negb].
  pose proof (fill_node_id name v e) as Hf.
  destruct (find_node_by_nodeid ns k) as [n|] eqn:E.
  - split_and!.
    + unfold ordered. by rewrite upd_cnode_ids.
    + exists n. rewrite find_upd_same, E by done. split; [done|].
      by destruct (find_Some_elem _ _ _ E).
    + intros j Hj. by apply find_upd_other.
    + intros m. clear E Ho. induction ns as [|x ns IH]; simpl; [auto|].
      zcase; rewrite !elem_of_cons; [|intuition].
      intros [->|H]; [right; by rewrite Hf|auto].
  - set (x := fill_node name v e _). assert (Hx : cn_id x = k) by (unfold x; rewrite fill_node_id; reflexivity).
    apply find_None_ids in E. rewrite <- Hx in E. split_and!.
    + by apply add_ordered_sorted.
    + eexists. rewrite find_add_ordered by done. rewrite Hx, Z.eqb_refl. by split.
    + intros j Hj. rewrite find_add_ordered by done. zcase; [lia|done].
    + intros m. rewrite (add_ordered_perm ns x), elem_of_cons. intros [->|H]; auto.
Qed.

(** ** Reading the configuration *)

Definition reread (n : cluster_node) : bool := c_true (Z.land (cn_flags n) NODE_FLAGS_REREAD).

Lemma fill_node_spec name v e n : 0 <= v ->
  let n' := fill_node name v e n in
  cn_name n' = name /\ cn_votes n' = v /\ cn_state n' = cn_state n /\ reread n' = true.
Proof.
  intros Hv. unfold fill_node. rewrite Z.geb_leb, (proj2 (Z.leb_le 0 v) Hv).
  set (m := if c_true e then _ else _).
  assert (Hm : cn_votes m = v /\ cn_state m = cn_state n) by (unfold m; by destruct (c_true e)).
  destruct Hm as [H1 H2]. unfold reread, c_true. simpl. split_and!; try done.
  apply negb_true_iff, Z.eqb_neq. rewrite Z.land_lor_distr_l, Z.land_diag.
  rewrite Z.lor_eq_0_iff. by intros [_ H].
Qed.

(** The nodes of [seen] are in the list as configured, and only they were read. *)
Record installed (seen : list ccs_node) (ns : list cluster_node) : Prop := mkInstalled {
  is_ordered : ordered ns;
  is_seen : Forall (fun x => exists n, find_node_by_nodeid ns (cc_id x) = Some n /\
    cn_name n = cc_name x /\ cn_votes n = cc_votes x /\ reread n = true) seen;
  is_only : Forall (fun n => reread n = true -> cn_id n ∈ map cc_id seen) ns
}.

Lemma installed_add seen ns x e : installed seen ns -> cc_id x <> 0 -> 0 <= cc_votes x ->
  cc_id x ∉ map cc_id seen ->
  installed (seen ++ [x]) (add_ccs_node ns (cc_name x) (cc_id x) (cc_votes x) e).
Proof.
  intros [Ho Hs Hr] Hk Hv Hx. unfold add_ccs_node.
  destruct (add_new_node_spec ns (cc_name x) (cc_id x) (cc_votes x) e DEAD 0 Hk Ho)
    as (H1 & (n0 & H2 & _) & H3 & H4).
  set (ns' := add_new_node _ _ _ _ _ _ _) in *. split; [done| |].
  - apply Forall_app. split; [|constructor; [|constructor]].
    + rewrite Forall_forall in *. intros y Hy. rewrite H3; [by apply Hs|].
      intros E. apply Hx. rewrite <- E. by apply list_elem_of_fmap_2.
    + destruct (fill_node_spec (cc_name x) (cc_votes x) e n0 Hv) as (P1 & P2 & _ & P4).
      eexists. split; [exact H2|done].
  - rewrite Forall_forall in *. intros n Hn Hrr. rewrite map_app, elem_of_app. simpl.
    destruct (H4 n Hn) as [Hin|E]; [left; by apply Hr|right].
    rewrite E. by apply list_elem_of_singleton.
Qed.

Lemma read_nodes_loop_installs ccs e chk : forall seen ns total,
  installed seen ns -> NoDup (map cc_id (seen ++ ccs)) ->
  Forall (fun x => cc_id x <> 0 /\ 0 <= cc_votes x) ccs ->
  exists ns' total', read_nodes_loop ns ccs e chk total = (true, ns', total') /\
    installed (seen ++ ccs) ns'.
Proof.
  induction ccs as [|x ccs IH]; intros seen ns total Hi Hnd Hc; simpl.
  - exists ns, total. by rewrite app_nil_r.
  - apply Forall_cons in Hc as [[Hx Hv] Hc].
    rewrite (proj2 (Z.eqb_neq _ _) Hx), andb_false_r.
    replace (seen ++ x :: ccs) with ((seen ++ [x]) ++ ccs) in * by (by rewrite <- app_assoc).
    apply IH; [|done|done]. apply installed_add; try done.
    rewrite !map_app in Hnd. simpl in Hnd. apply NoDup_app in Hnd as [Hnd _].
    apply NoDup_app in Hnd as (_ & Hd & _). intros Hin. eapply Hd; [exact Hin|].
    by apply list_elem_of_singleton.
Qed.

Lemma map_cnode_find ns f k : (forall n, cn_id (f n) = cn_id n) ->
  find_node_by_nodeid (map f ns) k = option_map f (find_node_by_nodeid ns k).
Proof.
  intros Hf. induction ns as [|n ns IH]; simpl; [done|]. rewrite Hf. by zcase.
Qed.

Lemma find_filter ns p k n : find_node_by_nodeid ns k = Some n -> p n = true ->
  find_node_by_nodeid (List.filter p ns) k = Some n.
Proof.
  induction ns as [|m ns IH]; simpl; [done|]. destruct (cn_id m =? k) eqn:E.
  - intros [= ->] ->. simpl. by rewrite E.
  - intros H Hp. destruct (p m); simpl; [rewrite E|]; by apply IH.
Qed.

Lemma StronglySorted_filter_ids (ns : list cluster_node) p :
  StronglySorted Z.lt (map cn_id ns) -> StronglySorted Z.lt (map cn_id (List.filter p ns)).
Proof.
  induction ns as [|n ns IH]; simpl; intros Hs; [constructor|].
  inversion Hs as [|? ? H1 H2]; subst. destruct (p n); [|by apply IH]. simpl.
  constructor; [by apply IH|]. rewrite Forall_forall in *. intros k Hk. apply H2.
  apply list_elem_of_In, in_map_iff in Hk as (m & <- & Hm). apply filter_In in Hm as [Hm _].
  apply list_elem_of_In. by apply in_map.
Qed.

(** Reading a configuration of distinct node ids succeeds and installs it:
    every configured node is in the list with its name and votes, the list stays
    ordered, and the nodes that are not configured stay only while they are part
    of the cluster. *)
Theorem read_cman_nodes_installs s ccs expected two_node chk
  (Hord : ordered (cm_nodes s)) (Hnd : NoDup (map cc_id ccs))
  (Hccs : Forall (fun x => cc_id x <> 0 /\ 0 <= cc_votes x) ccs) :
  exists s', read_cman_nodes s ccs expected two_node chk = (0, s') /\
    ordered (cm_nodes s') /\
    Forall (fun x => exists n, find_node_by_nodeid (cm_nodes s') (cc_id x) = Some n /\
      cn_name n = cc_name x /\ cn_votes n = cc_votes x) ccs /\
    Forall (fun n => cn_state n <> DEAD \/ cn_id n ∈ map cc_id ccs) (cm_nodes s').
Proof.
  unfold read_cman_nodes.
  assert (Hi : installed [] (clear_reread_flags (cm_nodes s))).
  { split; [|constructor|].
    - unfold ordered, clear_reread_flags. rewrite map_map. exact Hord.
    - apply Forall_map, Forall_true. intros n. unfold reread, c_true. simpl.
      rewrite <- Z.land_assoc. change (Z.land (Z.lnot 32) NODE_FLAGS_REREAD) with 0.
      by rewrite Z.land_0_r. }
  destruct (read_nodes_loop_installs ccs expected chk [] _ 0 Hi Hnd Hccs)
    as (ns & total & E & [Ho Hs Hr]).
  cbn [cm_set_config cm_nodes]. rewrite E. cbn [negb app] in *.
  set (e := if expected =? 0 then total else expected).
  set (f := fun n => if is_state MEMBER n && (cn_expected n >? u32 (s32 e))
    then cn_set_expected (u32 (s32 e)) n else n).
  assert (Hf : forall n, cn_id (f n) = cn_id n /\ cn_name (f n) = cn_name n /\
    cn_votes (f n) = cn_votes n /\ cn_flags (f n) = cn_flags n /\ cn_state (f n) = cn_state n)
    by (intros n; unfold f; by destruct (_ && _)).
  eexists. split; [reflexivity|]. cbn [cm_nodes cm_set_nodes].
  change (override_expected ns (s32 e)) with (map f ns). unfold remove_unread_nodes.
  split_and!.
  - unfold ordered. apply (StronglySorted_filter_ids (map f ns)).
    unfold ordered in Ho. rewrite map_map. erewrite map_ext; [exact Ho|].
    intros n. apply Hf.
  - eapply Forall_impl; [exact Hs|]. intros x (n & H1 & H2 & H3 & H4).
    destruct (Hf n) as (F1 & F2 & F3 & F4 & F5).
    exists (f n). split; [|by rewrite F2, F3]. apply find_filter.
    + rewrite map_cnode_find, H1 by apply Hf. done.
    + rewrite F4. unfold reread in H4. by rewrite H4.
  - apply Forall_forall. intros n Hn. apply list_elem_of_In, filter_In in Hn as [Hn Hp].
    apply in_map_iff in Hn as (m & <- & Hm). apply list_elem_of_In in Hm.
    destruct (Hf m) as (F1 & F2 & F3 & F4 & F5). rewrite F1, F5. rewrite F4 in Hp.
    rewrite Forall_forall in Hr. apply orb_true_iff in Hp as [Hp|Hp]; [right; by apply Hr|].
    left. unfold is_state in Hp. rewrite F5 in Hp. by apply negb_true_iff, bool_decide_eq_false in Hp.
Qed.

(** ** Nodes that come back with state *)

Lemma recalculate_nodes s a : cm_nodes (recalculate_quorum s a false) = cm_nodes s.
Proof. unfold recalculate_quorum, calculate_quorum. simpl. apply set_max_expected_0. Qed.

Lemma recalculate_keeps s a b : let s' := recalculate_quorum s a b in
  cm_us s' = cm_us s /\ cm_disallowed s' = cm_disallowed s /\
  cm_first_trans s' = cm_first_trans s /\ cm_members s' = cm_members s.
Proof. done. Qed.

Definition has_flag (f flags : Z) : bool := c_true (Z.land flags f).

Lemma down_flags_beendown t n : has_flag NODE_FLAGS_BEENDOWN (down_flags t n) = true.
Proof.
  unfold has_flag, down_flags, c_true. apply negb_true_iff, Z.eqb_neq.
  rewrite Z.land_lor_distr_l, Z.land_diag, Z.lor_eq_0_iff. by intros [_ H].
Qed.

Lemma sees_dirty flags : Z.land (Z.land flags (Z.lnot NODE_FLAGS_SEESDISALLOWED)) NODE_FLAGS_DIRTY =
  Z.land flags NODE_FLAGS_DIRTY.
Proof. by rewrite <- Z.land_assoc. Qed.

(** A member that goes down and comes back announcing state of its own is not
    taken back: the transition message leaves it set aside, and it is killed when
    the receiver is quorate. *)
Theorem dirty_rejoin_set_aside s k t msg inc num tmp n
  (Hdis : cm_disallowed s = true) (Hft : cm_first_trans s = false)
  (Hn : find_node_by_nodeid (cm_nodes s) k = Some n) (Hm : cn_state n = MEMBER)
  (Hus : is_Some (find_node_by_nodeid (cm_nodes s) (cm_us s)))
  (Hdirty : has_flag NODE_FLAGS_DIRTY (tm_flags msg) = true) :
  let s1 := del_ais_node s k t in
  exists s2 n2,
    do_process_transition s1 k msg inc num tmp = Some s2 /\
    find_node_by_nodeid (cm_nodes s2) k = Some n2 /\ cn_state n2 = AISONLY /\
    cm_out s2 = cm_out s1 ++ (if cm_quorate s1 then [SendKill k CLUSTER_KILL_REJOIN] else []).
Proof.
  unfold del_ais_node. rewrite Hn, Hm. cbv zeta.
  set (g := fun n => cn_set_ports (repeat 0 32) (cn_set_state DEAD (cn_set_flags (down_flags t n) n))).
  set (s0 := cm_set_members (cm_set_nodes s (upd_cnode (cm_nodes s) k _)) _).
  set (s1 := recalculate_quorum s0 false false).
  assert (E1 : cm_nodes s1 = upd_cnode (cm_nodes s) k g) by (unfold s1; by rewrite recalculate_nodes).
  assert (K : cm_us s1 = cm_us s /\ cm_disallowed s1 = true /\ cm_first_trans s1 = false)
    by (by rewrite <- Hdis, <- Hft).
  clearbody s1. destruct K as (K1 & K2 & K3).
  assert (En : find_node_by_nodeid (cm_nodes s1) k = Some (g n))
    by (rewrite E1, find_upd_same, Hn by done; done).
  assert (Eu : exists u, find_node_by_nodeid (cm_nodes s1) (cm_us s1) = Some u).
  { rewrite E1, K1. destruct Hus as [u Hu].
    destruct (decide (cm_us s = k)) as [E|E].
    - exists (g n). rewrite E, find_upd_same, Hn by done. done.
    - exists u. by rewrite find_upd_other. }
  destruct Eu as [u Eu]. unfold do_process_transition.
  rewrite K2, K3. cbn [andb]. rewrite En, En, Eu, K2.
  replace (must_set_aside s1 (g n) u msg _) with true.
  2: { symmetry. unfold must_set_aside. rewrite sees_dirty.
       unfold has_flag in Hdirty. rewrite Hdirty.
       pose proof (down_flags_beendown t n) as Hb. unfold has_flag in Hb. simpl.
       by rewrite Hb. }
  cbn [andb]. unfold set_aside. change (is_state AISONLY (g n)) with false. cbv iota.
  exists (if cm_quorate s1
    then cm_emit (cm_set_nodes s1 (upd_cnode (cm_nodes s1) k (cn_set_state AISONLY)))
           [SendKill k CLUSTER_KILL_REJOIN]
    else cm_set_nodes s1 (upd_cnode (cm_nodes s1) k (cn_set_state AISONLY))),
    (cn_set_state AISONLY (g n)).
  split; [done|]. destruct (cm_quorate s1); cbn [cm_nodes cm_emit cm_set_nodes cm_out];
    rewrite find_upd_same, En, ?app_nil_r by done; done.
Qed.

(** ** Commands that leave the state wrong *)

(** A rejected request to set the expected votes is not without effect: the
    trial calculation has written the rejected value to every member. *)
Theorem rejected_expected_votes_written s newexp s'
  (Hjoin : cm_joined s = true) (Hais : existsb (is_state AISONLY) (cm_nodes s) = false)
  (Hexp : 0 < newexp < 2 ^ 31)
  (Hrej : do_cmd_set_expected s newexp = (- EINVAL, s')) :
  Forall (fun n => cn_state n = MEMBER -> cn_expected n = newexp) (cm_nodes s').
Proof.
  unfold do_cmd_set_expected in Hrej. rewrite Hjoin, Hais in Hrej. cbn [negb] in Hrej.
  rewrite (swrap_small 32) in Hrej by (unfold in_s; lia).
  unfold calculate_quorum in Hrej. zcase_in Hrej; [|done]. injection Hrej as <-.
  cbn [cm_nodes cm_set_nodes]. apply Forall_map, Forall_true. intros n.
  unfold set_max_expected, is_state, c_true.
  rewrite (proj2 (Z.eqb_neq newexp 0)) by lia.
  destruct (bool_decide (cn_state n = MEMBER)) eqn:E; simpl.
  - intros _. apply wrap_small. unfold in_u. lia.
  - intros H. by apply bool_decide_eq_false in E.
Qed.

(** The number of nodes that are members or leaving. *)
Definition present_nodes (ns : list cluster_node) : Z :=
  Z.of_nat (length (List.filter (fun n => is_state MEMBER n || is_state LEAVING n) ns)).

(** Killing a node that was set aside makes [cluster_members] wrong: the node
    was never counted, and its departure is counted all the same. *)
Theorem killed_disallowed_node_uncounted s k t n
  (Hjoin : cm_joined s = true) (Hn : find_node_by_nodeid (cm_nodes s) k = Some n)
  (Hst : cn_state n = AISONLY) :
  let '(rv, s1) := do_cmd_kill_node s k in
  let s2 := del_ais_node s1 k t in
  rv = 0 /\ cm_members s2 = cm_members s - 1 /\
  present_nodes (cm_nodes s2) = present_nodes (cm_nodes s).
Proof.
  unfold do_cmd_kill_node. rewrite Hjoin, Hn. cbn [negb].
  unfold is_state at 1 2. rewrite Hst. simpl.
  unfold del_ais_node. cbn [cm_nodes cm_emit cm_set_nodes].
  set (f := fun n => cn_set_state LEAVING (cn_set_leave CLUSTER_LEAVEFLAG_KILLED n)).
  rewrite find_upd_same, Hn by done. cbn [option_map]. change (cn_state (f n)) with LEAVING.
  cbv iota. change (cn_leave_reason (f n) =? CLUSTER_LEAVEFLAG_REMOVED) with false.
  split_and!; [done|done|]. rewrite recalculate_nodes. cbn [cm_nodes cm_set_members cm_set_nodes].
  clear -Hn Hst. unfold present_nodes. do 2 f_equal.
  induction (cm_nodes s) as [|m ns IH]; simpl in *; [done|].
  destruct (cn_id m =? k) eqn:E; simpl; rewrite E; simpl.
  - injection Hn as ->. unfold is_state. rewrite Hst. done.
  - destruct (is_state MEMBER m || is_state LEAVING m); simpl; [f_equal|]; by apply IH.
Qed.

(** ** Ports *)

Lemma land_bit b i : 0 <= i -> c_true (Z.land b (Z.shiftl 1 i)) = Z.testbit b i.
Proof.
  intros Hi. unfold c_true. rewrite Z.shiftl_1_l.
  destruct (Z.testbit b i) eqn:E; [apply negb_true_iff, Z.eqb_neq | apply negb_false_iff, Z.eqb_eq].
  - intros H. assert (Hb : Z.testbit (Z.land b (2 ^ i)) i = true)
      by (by rewrite Z.land_spec, E, Z.pow2_bits_true). by rewrite H, Z.bits_0 in Hb.
  - apply Z.bits_inj'. intros j Hj. rewrite Z.land_spec, Z.bits_0, Z.pow2_bits_eqb by done.
    destruct (i =? j) eqn:Ej; [|apply andb_false_r]. apply Z.eqb_eq in Ej as ->. by rewrite E.
Qed.

Definition port_ok (p : Z) : Prop := 0 <= p < 256.

(** The ports of a byte. *)
Lemma port_byte p q : port_ok p -> port_ok q ->
  (p = q <-> Z.to_nat (p / 8) = Z.to_nat (q / 8) /\ p mod 8 = q mod 8).
Proof.
  unfold port_ok. intros Hp Hq. split; [by intros ->|]. intros [H1 H2].
  pose proof (Z.div_mod p 8). pose proof (Z.div_mod q 8).
  pose proof (Z.div_pos p 8). pose proof (Z.div_pos q 8). lia.
Qed.

Lemma get_port_upd n p q f (g : bool -> bool -> bool) : port_ok p -> port_ok q ->
  length (cn_port_bits n) = 32%nat ->
  (forall b i, 0 <= i < 8 -> Z.testbit (f b) i = g (p mod 8 =? i) (Z.testbit b i)) ->
  (forall x, g false x = x) ->
  get_port_bit (cn_set_ports (upd_byte (cn_port_bits n) (Z.to_nat (p / 8)) f) n) q =
  g (p =? q) (get_port_bit n q).
Proof.
  intros Hp Hq Hl Hf Hg. pose proof (port_byte p q Hp Hq) as Hpq. unfold port_ok in *.
  pose proof (Z.mod_pos_bound q 8 ltac:(lia)).
  assert (Hlt : (Z.to_nat (q / 8) < 32)%nat)
    by (pose proof (Z.div_lt_upper_bound q 8 32); pose proof (Z.div_pos q 8); lia).
  unfold get_port_bit, upd_byte. cbn [cn_port_bits cn_set_ports].
  destruct (decide (Z.to_nat (p / 8) = Z.to_nat (q / 8))) as [E|E].
  - rewrite E, list_lookup_alter, !land_bit by lia.
    destruct (lookup_lt_is_Some_2 (cn_port_bits n) (Z.to_nat (q / 8))) as [b ->]; [lia|].
    rewrite decide_True by done. change (default 0 (f <$> Some b)) with (f b).
    rewrite Hf by lia. change (default 0 (Some b)) with b. f_equal.
    destruct (p =? q) eqn:Epq; zbool; [apply Z.eqb_eq; congruence|].
    apply Z.eqb_neq. tauto.
  - rewrite list_lookup_alter_ne by done. rewrite (proj2 (Z.eqb_neq p q)) by tauto.
    by rewrite Hg.
Qed.

(** The port bitmap of a node is a set of ports: opening and closing a port
    change that port and no other. *)
Theorem port_bits_set n p q (Hp : port_ok p) (Hq : port_ok q)
  (Hl : length (cn_port_bits n) = 32%nat) :
  get_port_bit (set_port_bit n p) q = (p =? q) || get_port_bit n q /\
  get_port_bit (clear_port_bit n p) q = negb (p =? q) && get_port_bit n q.
Proof.
  unfold port_ok in *. pose proof (Z.mod_pos_bound p 8 ltac:(lia)).
  split.
  - apply (get_port_upd n p q _ orb); try done. intros b i Hi. unfold wrap.
    rewrite Z.mod_pow2_bits_low by lia. rewrite Z.lor_spec, Z.shiftl_1_l, Z.pow2_bits_eqb by lia.
    apply orb_comm.
  - apply (get_port_upd n p q _ (fun e x => negb e && x)); try done. intros b i Hi. unfold wrap.
    rewrite Z.mod_pow2_bits_low by lia. rewrite Z.land_spec, Z.lnot_spec by lia.
    rewrite Z.shiftl_1_l, Z.pow2_bits_eqb by lia. apply andb_comm.
Qed.

(** ** Examples *)

Definition ex_node (k v e : Z) (st : nodestate) : cluster_node :=
  mkNode "node" (k =? 1) k 0 st 0 None 0 v e 0 0 (repeat 0 32).
Definition ex_cman (ns : list cluster_node) (q : Z) (disallowed : bool) : cman :=
  mkCman ns (total_nodes ns) q false false None false 1 true true disallowed false [].

(** A cluster of three nodes with one vote each, split in two. *)
Definition ex_part1 : cman :=
  ex_cman [ex_node 1 1 3 MEMBER; ex_node 2 1 3 MEMBER; ex_node 3 1 3 DEAD] 2 true.
Definition ex_part2 : cman :=
  ex_cman [ex_node 1 1 3 DEAD; ex_node 2 1 3 DEAD; ex_node 3 1 3 MEMBER] 2 true.

Ltac quorum_range_concrete :=
  split; [repeat constructor; simpl; lia | vm_compute; discriminate | reflexivity | reflexivity
         | simpl; lia | discriminate].


(** The larger part stays quorate, so the smaller one is not. *)
Lemma no_split_brain_witness :
  cm_quorate (recalculate_quorum ex_part1 false false) = true /\
  cm_quorate (recalculate_quorum ex_part2 false false) <> true.
Proof.
  split; [vm_compute; reflexivity|]. intros Hq2.
  apply (no_split_brain (fun _ => 1) 3 [1; 2; 3] 0 ex_part1 ex_part2 false false).
  - split; [quorum_range_concrete|reflexivity|repeat constructor|]. exists (ex_node 1 1 3 MEMBER).
    split_and!; [left|reflexivity|vm_compute; discriminate].
  - split; [quorum_range_concrete|reflexivity|repeat constructor|]. exists (ex_node 3 1 3 MEMBER).
    split_and!; [right; right; left|reflexivity|vm_compute; discriminate].
  - repeat constructor; discriminate.
  - reflexivity.
  - vm_compute; discriminate.
  - vm_compute; discriminate.
  - vm_compute; reflexivity.
  - exact Hq2.
Defined.

Definition ex_ccs : list ccs_node := [mkCcs "a" 1 1; mkCcs "b" 2 4].

Lemma read_cman_nodes_installs_witness :
  exists s', read_cman_nodes ex_part1 ex_ccs 0 false true = (0, s') /\
    ordered (cm_nodes s') /\
    Forall (fun x => exists n, find_node_by_nodeid (cm_nodes s') (cc_id x) = Some n /\
      cn_name n = cc_name x /\ cn_votes n = cc_votes x) ex_ccs /\
    Forall (fun n => cn_state n <> DEAD \/ cn_id n ∈ map cc_id ex_ccs) (cm_nodes s').
Proof.
  apply (read_cman_nodes_installs ex_part1 ex_ccs 0 false true).
  - repeat constructor.
  - apply (bool_decide_unpack _). vm_compute. exact I.
  - repeat constructor; discriminate.
Defined.

Definition ex_trans (flags : Z) : transmsg := mkTrans false 1 3 2 flags 0 0 "".

Lemma dirty_rejoin_set_aside_witness :
  let s1 := del_ais_node ex_part1 2 100 in
  exists s2 n2,
    do_process_transition s1 2 (ex_trans NODE_FLAGS_DIRTY) 7 2 "Node2" = Some s2 /\
    find_node_by_nodeid (cm_nodes s2) 2 = Some n2 /\ cn_state n2 = AISONLY /\
    cm_out s2 = cm_out s1 ++ (if cm_quorate s1 then [SendKill 2 CLUSTER_KILL_REJOIN] else []).
Proof.
  apply (dirty_rejoin_set_aside ex_part1 2 100 (ex_trans NODE_FLAGS_DIRTY) 7 2 "Node2"
    (ex_node 2 1 3 MEMBER)).
  - reflexivity.
  - reflexivity.
  - reflexivity.
  - reflexivity.
  - eexists; reflexivity.
  - reflexivity.
Defined.

(** Ten expected votes with two present are refused. *)
Lemma rejected_expected_votes_written_witness :
  cn_expected (ex_node 1 1 3 MEMBER) = 3 /\
  Forall (fun n => cn_state n = MEMBER -> cn_expected n = 10)
    (cm_nodes (snd (do_cmd_set_expected ex_part1 10))).
Proof.
  split; [reflexivity|].
  apply (rejected_expected_votes_written ex_part1 10 (snd (do_cmd_set_expected ex_part1 10))).
  - reflexivity.
  - reflexivity.
  - lia.
  - vm_compute. reflexivity.
Defined.

Definition ex_aside : cman :=
  ex_cman [ex_node 1 1 3 MEMBER; ex_node 2 1 3 MEMBER; ex_node 3 1 3 AISONLY] 2 true.

Lemma killed_disallowed_node_uncounted_witness :
  let '(rv, s1) := do_cmd_kill_node ex_aside 3 in
  let s2 := del_ais_node s1 3 100 in
  rv = 0 /\ cm_members s2 = 2 - 1 /\ present_nodes (cm_nodes s2) = 2.
Proof.
  apply (killed_disallowed_node_uncounted ex_aside 3 100 (ex_node 3 1 3 AISONLY)); reflexivity.
Defined.

Lemma port_bits_set_witness :
  get_port_bit (set_port_bit (ex_node 1 1 3 MEMBER) 11) 11 = true /\
  get_port_bit (clear_port_bit (ex_node 1 1 3 MEMBER) 11) 11 = false.
Proof.
  apply (port_bits_set (ex_node 1 1 3 MEMBER) 11 11).
  - unfold port_ok; lia.
  - unfold port_ok; lia.
  - reflexivity.
Defined.
