(* ===== verification/CStrings.v ===== *)
(** * Strings of the C library and of the configuration

    [atoi], [strcasecmp] and [strstr] as the daemons use them, and the answers of the cluster
    configuration to a path. *)

From stdpp Require Import strings.
From S2P Require Import Prelude.
Open Scope Z_scope.

(** ** Numbers *)

(** [atoi]: blanks, a sign, digits; a value that does not fit a [long] is the nearest one,
    and the result is cut to an [int]. *)
Definition code (a : Ascii.ascii) : Z := Z.of_nat (Ascii.nat_of_ascii a).
Definition is_blank (a : Ascii.ascii) : bool := (code a =? 32) || ((9 <=? code a) && (code a <=? 13)).
Definition digit (a : Ascii.ascii) : option Z :=
  if (48 <=? code a) && (code a <=? 57) then Some (code a - 48) else None.

Fixpoint digits (acc : Z) (s : string) : Z :=
  match s with
  | EmptyString => acc
  | String a s' => match digit a with Some d => digits (acc * 10 + d) s' | None => acc end
  end.

Fixpoint skip_blanks (s : string) : string :=
  match s with String a s' => if is_blank a then skip_blanks s' else s | EmptyString => s end.

Definition to_long (z : Z) : Z := Z.max (- 2 ^ 63) (Z.min z (2 ^ 63 - 1)).

Definition atoi (s : string) : Z :=
  s32 (to_long
    (match skip_blanks s with
     | EmptyString => 0
     | String a s' =>
         if code a =? 45 then - digits 0 s'
         else if code a =? 43 then digits 0 s'
         else digits 0 (String a s')
     end)).

(** ** Comparison *)

Definition lower (c : Ascii.ascii) : Ascii.ascii :=
  let n := Ascii.nat_of_ascii c in
  if (65 <=? n)%nat && (n <=? 90)%nat then Ascii.ascii_of_nat (n + 32) else c.

Fixpoint strcaseeq (s t : string) : bool :=
  match s, t with
  | EmptyString, EmptyString => true
  | String a s', String b t' => Ascii.eqb (lower a) (lower b) && strcaseeq s' t'
  | _, _ => false
  end.

(** [strstr]. *)
Fixpoint contains (s t : string) : bool :=
  String.prefix t s || match s with EmptyString => false | String _ s' => contains s' t end.

(** ** Configuration *)

(** What [ccs_get] answers to a path. *)
Definition ccs : Type := string -> option string.

Definition ccs_int (c : ccs) (path : string) : option Z := atoi <$> c path.
