(* ===== verification/QDisk.v ===== *)
(** * The quorum disk daemon

    [src/cman/qdisk]: every node writes a status block of its own to a shared disk once
    per interval and reads the blocks of the others.  From them it tells who is alive,
    and the nodes elect a master, which evicts nodes that stop writing and says which
    nodes belong to its partition; these tell cman that the quorum device is there.

    This file has the bit masks of [bitmap.c], the writing of a status block of
    [disk_util.c], the heuristics of [score.c] and a turn of the main loop of [main.c].
    The blocks read, the clock, the results of writes and what cman and the heuristics
    answer are inputs; writes, reboots and calls of cman are effects.  Log messages, the
    status file and reconfiguration during the loop are left out. *)

From S2P Require Import Prelude.
Open Scope Z_scope.

(** ** Masks *)

(** [mask] is a list of bytes; an index past the end gives -1 and no change. *)
Definition bit_idx (bitidx : Z) : Z := Z.shiftr bitidx 3.
Definition bit_val (bitidx : Z) : Z := Z.shiftl 1 (Z.land bitidx 0x7).

Definition clear_bit (mask : list Z) (bitidx masklen : Z) : Z * list Z :=
  if bit_idx bitidx >=? masklen then (-1, mask)
  else (0, alter (fun b => u8 (Z.land b (u32 (Z.lnot (bit_val bitidx))))) (Z.to_nat (bit_idx bitidx)) mask).

Definition set_bit (mask : list Z) (bitidx masklen : Z) : Z * list Z :=
  if bit_idx bitidx >=? masklen then (-1, mask)
  else (0, alter (fun b => u8 (Z.lor b (bit_val bitidx))) (Z.to_nat (bit_idx bitidx)) mask).

Definition is_bit_set (mask : list Z) (bitidx masklen : Z) : Z :=
  if bit_idx bitidx >=? masklen then -1
  else if c_true (Z.land (default 0 (mask !! Z.to_nat (bit_idx bitidx))) (bit_val bitidx)) then 1 else 0.

(** ** Data *)

Definition MAX_NODES_DISK : Z := 16.
Definition DISK_MEMB_MASK_LEN : Z := 8.
Definition HISTORY_LENGTH : Z := 60.

Definition S_NONE : Z := 0.
Definition S_EVICT : Z := 1.
Definition S_INIT : Z := 2.
Definition S_RUN : Z := 5.
Definition S_MASTER : Z := 6.

Definition M_NONE : Z := 0.
Definition M_BID : Z := 1.
Definition M_ACK : Z := 2.
Definition M_NACK : Z := 3.

Definition RF_REBOOT : Z := 0x1.
Definition RF_STOP_CMAN : Z := 0x2.
Definition RF_DEBUG : Z := 0x4.
Definition RF_PARANOID : Z := 0x8.
Definition RF_ALLOW_KILL : Z := 0x10.
Definition RF_UPTIME : Z := 0x20.
Definition RF_CMAN_LABEL : Z := 0x40.
Definition RF_IOTIMEOUT : Z := 0x80.
Definition RF_MASTER_WINS : Z := 0x100.
Definition RF_AUTO_VOTES : Z := 0x200.
Definition RF_AUTO_MASTER_WINS : Z := 0x400.

Definition STATE_MAGIC_NUMBER : Z := 0x47bacef8.

Definition memb_mask : Type := list Z.
Definition empty_mask : memb_mask := replicate 8 0.

(** Seconds and microseconds. *)
Definition timeval : Type := Z * Z.

(** [status_block_t]; the pads are zero. *)
Record status_block := mkSb {
  ps_magic : Z;
  ps_updatenode : Z;
  ps_timestamp : Z;
  ps_nodeid : Z;
  ps_state : Z;
  ps_flags : Z;
  ps_score : Z;
  ps_scoremax : Z;
  ps_ca : timeval;
  ps_lc : timeval;
  ps_incarnation : Z;
  ps_msg : Z;
  ps_seq : Z;
  ps_arg : Z;
  ps_mask : memb_mask;
  ps_master_mask : memb_mask
}.

Record disk_msg := mkMsg {
  m_msg : Z;
  m_arg : Z;
  m_seq : Z
}.

Record node_info := mkNi {
  ni_incarnation : Z;
  ni_evil_incarnation : Z;
  ni_last_seen : Z;
  ni_misses : Z;
  ni_seen : Z;
  ni_msg : disk_msg;
  ni_last_msg : disk_msg;
  ni_state : Z;
  ni_status : status_block
}.

(** The parameters of [qd_ctx], and the fields that change in the loop. *)
Record qd_conf := mkConf {
  qc_incarnation : Z;
  qc_my_id : Z;
  qc_interval : Z;
  qc_tko : Z;
  qc_tko_up : Z;
  qc_upgrade_wait : Z;
  qc_master_wait : Z;
  qc_votes : Z;
  qc_scoremin : Z;
  qc_max_error_cycles : Z;
  qc_token_timeout : Z;
  qc_flags : Z
}.

Record qd_ctx := mkCtx {
  qc_writes : Z;
  qc_last : list timeval;
  qc_average : timeval;
  qc_status : Z;
  qc_master : Z
}.

(** A write to the block of a node, with the clock before and after it, where it can be
    read, the time of day, and whether the write succeeds. *)
Record write_env := mkWe {
  we_now : Z;
  we_start : option timeval;
  we_end : option timeval;
  we_ok : bool
}.

Inductive effect :=
  | WriteBlock (nid : Z) (sb : status_block) (ok : bool)
  | CmanKill (nid : Z)
  | CmanPoll (available : bool)
  | CmanRegister (votes : Z)
  | CmanWait (t : timeval)
  | Reboot
  | SigStop.

Definition flag_set (flags bit : Z) : bool := c_true (Z.land flags bit).

(** ** The state: the context, what the next writes will meet, the effects so far *)

Record qstate := mkQ {
  q_ctx : qd_ctx;
  q_tape : nat -> write_env;
  q_out : list effect
}.

Definition Q (A : Type) : Type := qstate -> A * qstate.

#[export] Instance Q_ret : MRet Q := fun A a s => (a, s).
#[export] Instance Q_bind : MBind Q := fun A B f m s => let '(a, s') := m s in f a s'.

Definition q_get : Q qd_ctx := fun s => (q_ctx s, s).
Definition q_put (c : qd_ctx) : Q unit := fun s => (tt, mkQ c (q_tape s) (q_out s)).
Definition q_emit (e : effect) : Q unit := fun s => (tt, mkQ (q_ctx s) (q_tape s) (q_out s ++ [e])).

Definition q_next : Q write_env := fun s =>
  (q_tape s 0%nat, mkQ (q_ctx s) (fun n => q_tape s (S n)) (q_out s)).

Definition q_emits (l : list effect) : Q unit := fun s => (tt, mkQ (q_ctx s) (q_tape s) (q_out s ++ l)).

Definition set_status (st : Z) : Q unit :=
  c ← q_get; q_put (mkCtx (qc_writes c) (qc_last c) (qc_average c) st (qc_master c)).
Definition set_master (m : Z) : Q unit :=
  c ← q_get; q_put (mkCtx (qc_writes c) (qc_last c) (qc_average c) (qc_status c) m).

(** ** Times *)

Definition diff_tv (start end_ : timeval) : timeval :=
  let sec := fst end_ - fst start in
  let usec := snd end_ - snd start in
  if usec <? 0 then (sec - 1, usec + 1000000) else (sec, usec).

(** -1 when the first is later, 1 when the second is. *)
Definition cmp_tv (left right : timeval) : Z :=
  if fst left >? fst right then -1
  else if fst left <? fst right then 1
  else if snd left >? snd right then -1
  else if snd left <? snd right then 1
  else 0.

(** The average of the first [max] entries, as the code indexes them. *)
Definition sum_tv (l : list timeval) : Z := foldl (fun s t => u64 (u64 (s + fst t * 1000000) + snd t)) 0 l.

Definition qd_update_wtime (c : qd_ctx) (newtime : timeval) : qd_ctx :=
  let writes := qc_writes c + 1 in
  let last := <[Z.to_nat (writes mod HISTORY_LENGTH) := newtime]> (qc_last c) in
  let max := if writes <? HISTORY_LENGTH then writes else HISTORY_LENGTH in
  let sum := sum_tv (take (Z.to_nat max) last) / max in
  mkCtx writes last (sum / 1000000, sum mod 1000000) (qc_status c) (qc_master c).

(** ** Writing a status block *)

Definition status_of (cf : qd_conf) (c : qd_ctx) (nid state now : Z) (msg : option disk_msg)
    (mask master : option memb_mask) : status_block :=
  let lc := if c_true (qc_writes c)
            then default (0, 0) (qc_last c !! Z.to_nat ((qc_writes c - 1) mod HISTORY_LENGTH))
            else (0, 0) in
  mkSb STATE_MAGIC_NUMBER (qc_my_id cf) now nid (u8 state) 0 0 0
    (u32 (fst (qc_average c)), u32 (snd (qc_average c))) (u32 (fst lc), u32 (snd lc)) (qc_incarnation cf)
    (match msg with Some m => u16 (m_msg m) | None => 0 end)
    (match msg with Some m => m_seq m | None => 0 end)
    (match msg with Some m => m_arg m | None => 0 end)
    (default empty_mask mask) (default empty_mask master).

Definition qd_write_status (cf : qd_conf) (nid state : Z) (msg : option disk_msg)
    (mask master : option memb_mask) : Q Z :=
  if nid <=? 0 then mret (-1)
  else
    c ← q_get;
    w ← q_next;
    q_emit (WriteBlock nid (status_of cf c nid state (we_now w) msg mask master) (we_ok w)) ;;
    if negb (we_ok w) then mret (-1)
    else
      let t := match we_start w, we_end w with
               | Some s, Some e => diff_tv s e
               | _, _ => qc_average c
               end in
      q_put (qd_update_wtime c t) ;;
      mret 0.

(** ** Reading the blocks of the nodes *)

Definition state_run (state : Z) : bool := state >=? S_INIT.

Definition sb_zero (nodeid timestamp : Z) : status_block :=
  mkSb 0 0 timestamp nodeid 0 0 0 0 (0, 0) (0, 0) 0 0 0 0 empty_mask empty_mask.

Definition node_info_init (t : Z) (max : Z) : list node_info :=
  map (fun x => mkNi 0 0 t 0 0 (mkMsg 0 0 0) (mkMsg 0 0 0) S_NONE (sb_zero (x + 1) t)) (seqZ 0 max).

(** Somebody else wrote our block: an eviction reboots, and anything else stops. *)
Definition check_self (cf : qd_conf) (sb : status_block) : list effect :=
  if negb (c_true (ps_updatenode sb)) || (ps_updatenode sb =? qc_my_id cf) then []
  else if ps_state sb =? S_EVICT then [Reboot; SigStop]
  else [SigStop].

(** One turn of the loop of [read_node_blocks]; a block that cannot be read is kept. *)
Definition read_node_block (cf : qd_conf) (n : node_info) (r : option status_block)
    : node_info * bool * list effect :=
  match r with
  | None => (n, true, [])
  | Some sb =>
      if ps_nodeid sb =? qc_my_id cf then
        (mkNi (ni_incarnation n) (ni_evil_incarnation n) (ni_last_seen n) (ni_misses n) (ni_seen n)
           (ni_msg n) (ni_last_msg n) (ni_state n) sb, false, check_self cf sb)
      else
        let msg := mkMsg (ps_msg sb) (ps_arg sb) (ps_seq sb) in
        let with_seen misses seen last :=
          mkNi (ni_incarnation n) (ni_evil_incarnation n) last misses seen msg (ni_msg n) (ni_state n) sb in
        if negb (state_run (ps_state sb)) then (with_seen (ni_misses n) (ni_seen n) (ni_last_seen n), false, [])
        else if ps_timestamp sb =? ni_last_seen n then
          (with_seen (ni_misses n + 1) (ni_seen n) (ni_last_seen n), false, [])
        else (with_seen 0 (ni_seen n + 1) (ps_timestamp sb), false, [])
  end.

Fixpoint read_node_blocks (cf : qd_conf) (ni : list node_info) (rs : list (option status_block))
    : list node_info * Z * list effect :=
  match ni, rs with
  | n :: ni', r :: rs' =>
      let '(n1, e, out1) := read_node_block cf n r in
      let '(l, errors, out2) := read_node_blocks cf ni' rs' in
      (n1 :: l, (if e : bool then errors + 1 else errors), out1 ++ out2)
  | _, _ => (ni, 0, [])
  end.

(** ** Transitions of the nodes *)

Definition ni_set (n : node_info) (inc evil misses seen state : Z) (sb : status_block) : node_info :=
  mkNi inc evil (ni_last_seen n) misses seen (ni_msg n) (ni_last_msg n) state sb.

Definition sb_set_state (sb : status_block) (state : Z) : status_block :=
  let '(mkSb a b c d _ f g h i j k l m o p q) := sb in mkSb a b c d state f g h i j k l m o p q.

(** The change of the mask that a node causes: its bit is set, cleared or kept. *)
Inductive mask_change := MaskSet | MaskClear | MaskKeep.

Definition kill_if_allowed (cf : qd_conf) (nid : Z) : Q unit :=
  if flag_set (qc_flags cf) RF_ALLOW_KILL then q_emit (CmanKill (s32 nid)) else mret tt.

(** One turn of the loop of [check_transitions], with the cases of the code. *)
Definition check_transition (cf : qd_conf) (n : node_info) : Q (node_info * mask_change) :=
  let sb := ni_status n in
  let nid := ps_nodeid sb in
  if ((ni_state n >=? S_EVICT) && (ps_state sb <=? S_EVICT)) ||
     (c_true (ni_incarnation n) && negb (ni_incarnation n =? ps_incarnation sb)) then
    let evil := if ps_state sb =? S_EVICT then ni_evil_incarnation n else 0 in
    mret (ni_set n 0 evil 0 0 S_NONE sb, MaskClear)
  else if (ni_misses n >? qc_tko cf) && state_run (ps_state sb) then
    let seen := if (ps_state sb >=? S_RUN) && c_true (ni_seen n) then 0 else ni_seen n in
    c ← q_get;
    (if qc_status c =? S_MASTER then
       qd_write_status cf (s32 nid) S_EVICT None None None ;; kill_if_allowed cf nid
     else mret tt) ;;
    mret (ni_set n (ni_incarnation n) (ni_incarnation n) (ni_misses n) seen S_EVICT
            (sb_set_state sb S_EVICT), MaskClear)
  else if c_true (ni_evil_incarnation n) && (ni_evil_incarnation n =? ps_incarnation sb) &&
          (ps_updatenode sb =? nid) then
    qd_write_status cf (s32 nid) S_EVICT None None None ;;
    kill_if_allowed cf nid ;;
    mret (ni_set n (ni_incarnation n) (ni_evil_incarnation n) (ni_misses n) (ni_seen n) (ni_state n)
            (sb_set_state sb S_EVICT), MaskKeep)
  else if (ni_seen n >? qc_tko_up cf) && negb (state_run (ni_state n)) then
    mret (ni_set n (ps_incarnation sb) 0 (ni_misses n) (ni_seen n) S_RUN sb, MaskSet)
  else if (ni_state n =? S_RUN) && (ps_state sb =? S_MASTER) then
    mret (ni_set n (ni_incarnation n) (ni_evil_incarnation n) (ni_misses n) (ni_seen n) S_MASTER sb, MaskSet)
  else if state_run (ni_state n) && negb (ni_incarnation n =? ps_incarnation sb) then
    mret (ni_set n (ps_incarnation sb) 0 (ni_misses n) (ni_seen n) (ni_state n) sb, MaskKeep)
  else if state_run (ni_state n) then
    mret (ni_set n (ni_incarnation n) (ni_evil_incarnation n) (ni_misses n) (ni_seen n) (ps_state sb) sb, MaskSet)
  else mret (n, MaskKeep).

Definition change_mask (mask : memb_mask) (nid : Z) (ch : mask_change) : memb_mask :=
  match ch with
  | MaskSet => snd (set_bit mask (u32 (nid - 1)) DISK_MEMB_MASK_LEN)
  | MaskClear => snd (clear_bit mask (u32 (nid - 1)) DISK_MEMB_MASK_LEN)
  | MaskKeep => mask
  end.

Fixpoint check_transitions_loop (cf : qd_conf) (ni : list node_info) (mask : memb_mask)
    : Q (list node_info * memb_mask) :=
  match ni with
  | [] => mret ([], mask)
  | n :: ni' =>
      '(n1, ch) ← check_transition cf n;
      '(l, mask') ← check_transitions_loop cf ni' (change_mask mask (ps_nodeid (ni_status n)) ch);
      mret (n1 :: l, mask')
  end.

(** The mask is cleared first. *)
Definition check_transitions (cf : qd_conf) (ni : list node_info) : Q (list node_info * memb_mask) :=
  check_transitions_loop cf ni empty_mask.

(** ** The election *)

(** The first master, the lowest candidate and the number of masters. *)
Record masters := mkMasters { ms_ret : Z; ms_low : Z; ms_count : Z }.

Definition master_step (my_id : Z) (r : masters) (n : node_info) : masters :=
  let sb := ni_status n in
  if (ni_state n >=? S_RUN) && (ps_state sb =? S_MASTER) && negb (ps_nodeid sb =? my_id) then
    mkMasters (if ms_ret r =? 0 then s32 (ps_nodeid sb) else ms_ret r) (ms_low r) (ms_count r + 1)
  else if (ps_nodeid sb =? my_id) && (ps_state sb =? S_MASTER) then
    mkMasters (if ms_ret r =? 0 then my_id else ms_ret r) (ms_low r) (ms_count r + 1)
  else if ni_state n <? S_RUN then r
  else mkMasters (ms_ret r) (if ps_nodeid sb <? ms_low r then s32 (ps_nodeid sb) else ms_low r) (ms_count r).

Definition master_exists (cf : qd_conf) (ni : list node_info) : masters :=
  foldl (master_step (qc_my_id cf)) (mkMasters 0 (qc_my_id cf) 0) ni.

(** The vote for a node with its bid. *)
Definition ack_for (sb : status_block) : disk_msg := mkMsg M_ACK (ps_nodeid sb) (ps_seq sb).

Definition do_vote (cf : qd_conf) (ni : list node_info) (msg : disk_msg) : disk_msg :=
  match List.find (fun n => (ni_state n =? S_RUN) && (ps_msg (ni_status n) =? M_BID) &&
                            (ps_nodeid (ni_status n) <? qc_my_id cf)) ni with
  | Some n => ack_for (ni_status n)
  | None => msg
  end.

Record votes := mkVotes { vt_running : Z; vt_acks : Z; vt_nacks : Z; vt_low : Z; vt_msg : disk_msg }.

Definition vote_step (my_id : Z) (r : votes) (n : node_info) : votes :=
  let sb := ni_status n in
  if negb (state_run (ni_state n)) then r
  else
    let ours m := (ps_msg sb =? m) && (ps_arg sb =? my_id) in
    let lower := (ps_msg sb =? M_BID) && (ps_nodeid sb <? vt_low r) in
    mkVotes (vt_running r + 1)
      (if ours M_ACK then vt_acks r + 1 else vt_acks r)
      (if ours M_NACK then vt_nacks r + 1 else vt_nacks r)
      (if lower then s32 (ps_nodeid sb) else vt_low r)
      (if lower then ack_for sb else vt_msg r).

Definition check_votes (cf : qd_conf) (ni : list node_info) (msg : disk_msg) : Z * disk_msg :=
  let r := foldl (vote_step (qc_my_id cf)) (mkVotes 0 0 0 (qc_my_id cf) msg) ni in
  (if vt_acks r =? vt_running r then 3
   else if c_true (vt_nacks r) then 2
   else if negb (vt_low r =? qc_my_id cf) then 1
   else 0, vt_msg r).

(** The members of cman: their ids, and whether they are online. *)
Definition check_cman (nodes : option (list (Z * bool))) (mask master_mask : memb_mask) : memb_mask :=
  match nodes with
  | None => master_mask
  | Some l =>
      foldl (fun m x =>
          let bit := u32 (fst x - 1) in
          if c_true (is_bit_set mask bit DISK_MEMB_MASK_LEN) && (snd x : bool)
          then snd (set_bit m bit DISK_MEMB_MASK_LEN) else snd (clear_bit m bit DISK_MEMB_MASK_LEN))
        empty_mask l
  end.

Definition register_device (cf : qd_conf) : Q unit :=
  c ← q_get;
  q_emit (CmanRegister (if negb (flag_set (qc_flags cf) RF_MASTER_WINS) || (qc_status c =? S_MASTER)
                        then qc_votes cf else 0)).

Definition adjust_votes (cf : qd_conf) : Q unit :=
  if negb (flag_set (qc_flags cf) RF_MASTER_WINS) then mret tt else register_device cf.

(** ** A turn of the main loop *)

Record loop := mkLoop {
  lp_msg : disk_msg;
  lp_bid_pending : Z;
  lp_upgrade : Z;
  lp_mask : memb_mask;
  lp_master_mask : memb_mask;
  lp_error_cycles : Z;
  lp_rd_lastok : timeval;
  lp_wr_lastok : timeval;
  lp_running : bool
}.

(** What comes from outside in one turn: the blocks, the score, the members cman knows,
    whether cman can be talked to and asks to shut down, and the time at the start, after
    the reads, after the write and at the end. *)
Record cycle_env := mkCy {
  cy_reads : list (option status_block);
  cy_score : Z;
  cy_score_max : Z;
  cy_nodes : option (list (Z * bool));
  cy_wait_ok : bool;
  cy_shutdown : bool;
  cy_old : timeval;
  cy_read : timeval;
  cy_written : timeval;
  cy_new : timeval
}.

Definition no_bid (lp : loop) : loop :=
  mkLoop (mkMsg M_NONE (m_arg (lp_msg lp)) (u16 (m_seq (lp_msg lp) + 1))) 0 (lp_upgrade lp) (lp_mask lp)
    (lp_master_mask lp) (lp_error_cycles lp) (lp_rd_lastok lp) (lp_wr_lastok lp) (lp_running lp).
Definition lp_set_upgrade (lp : loop) (u : Z) : loop :=
  let '(mkLoop a b _ d e f g h i) := lp in mkLoop a b u d e f g h i.
Definition lp_set_bid (lp : loop) (m : disk_msg) (b : Z) : loop :=
  let '(mkLoop _ _ c d e f g h i) := lp in mkLoop m b c d e f g h i.
Definition lp_set_mask (lp : loop) (m : memb_mask) : loop :=
  let '(mkLoop a b c _ e f g h i) := lp in mkLoop a b c m e f g h i.
Definition lp_set_master_mask (lp : loop) (m : memb_mask) : loop :=
  let '(mkLoop a b c d _ f g h i) := lp in mkLoop a b c d m f g h i.
Definition lp_set_rd (lp : loop) (t : timeval) : loop :=
  let '(mkLoop a b c d e f _ h i) := lp in mkLoop a b c d e f t h i.
Definition lp_set_wr (lp : loop) (t : timeval) : loop :=
  let '(mkLoop a b c d e f g _ i) := lp in mkLoop a b c d e f g t i.
Definition lp_set_errors (lp : loop) (n : Z) (running : bool) : loop :=
  let '(mkLoop a b c d e _ g h _) := lp in mkLoop a b c d e n g h running.

Definition required_score (cf : qd_conf) (score_max : Z) : Z :=
  if qc_scoremin cf <=? 0 then Z.quot score_max 2 + 1 else qc_scoremin cf.

(** The part on the score: a node with too low a score does not take part. *)
Definition apply_score (cf : qd_conf) (v : cycle_env) (lp : loop) : Q loop :=
  c ← q_get;
  if cy_score v <? required_score cf (cy_score_max v) then
    let lp1 := lp_set_mask lp (snd (clear_bit (lp_mask lp) (u32 (qc_my_id cf - 1)) DISK_MEMB_MASK_LEN)) in
    if qc_status c >? S_NONE then
      set_status S_NONE ;;
      adjust_votes cf ;;
      (if cy_wait_ok v then q_emit (CmanPoll false) else mret tt) ;;
      (if flag_set (qc_flags cf) RF_REBOOT then q_emit Reboot else mret tt) ;;
      mret (no_bid lp1)
    else mret lp1
  else
    let lp1 := lp_set_mask lp (snd (set_bit (lp_mask lp) (u32 (qc_my_id cf - 1)) DISK_MEMB_MASK_LEN)) in
    if qc_status c =? S_NONE then
      set_status S_RUN ;; mret (no_bid (lp_set_upgrade lp1 (qc_upgrade_wait cf)))
    else mret lp1.

(** A master that sees another one first gives up. *)
Definition resolve_conflict (cf : qd_conf) (ms : masters) (lp : loop) : Q loop :=
  c ← q_get;
  if (ms_count ms >=? 1) && (qc_status c =? S_MASTER) && negb (ms_ret ms =? qc_my_id cf) then
    set_status S_RUN ;; adjust_votes cf ;;
    mret (no_bid (lp_set_upgrade lp (qc_upgrade_wait cf)))
  else mret lp.

(** How the turn goes on: write the status, or return from the loop; [OutOfArray] is a
    master id that is no index of the array. *)
Inductive verdict := Go (lp : loop) | Halt | OutOfArray.

Definition elect (cf : qd_conf) (v : cycle_env) (ni : list node_info) (ms : masters) (errors : Z) (lp : loop)
    : Q verdict :=
  c ← q_get;
  let master := ms_ret ms in
  let bid := lp_bid_pending lp in
  if (master =? 0) && (ms_low ms =? qc_my_id cf) && (qc_status c =? S_RUN) && (bid =? 0) &&
     (lp_upgrade lp =? 0) then
    mret (Go (lp_set_bid lp (mkMsg M_BID (m_arg (lp_msg lp)) (u16 (m_seq (lp_msg lp) + 1))) 1))
  else if (master =? 0) && (bid =? 0) then
    mret (Go (lp_set_bid lp (do_vote cf ni (lp_msg lp)) 0))
  else if master =? 0 then
    let bid := bid + 1 in
    let '(r, msg) := check_votes cf ni (lp_msg lp) in
    let none := mkMsg M_NONE (m_arg msg) (m_seq msg) in
    if r =? 3 then
      if bid <? qc_master_wait cf then mret (Go (lp_set_bid lp msg bid))
      else set_status S_MASTER ;; adjust_votes cf ;; mret (Go (lp_set_bid lp none 0))
    else if r =? 2 then mret (Go (lp_set_bid lp none 0))
    else if r =? 1 then mret (Go (lp_set_bid lp msg 0))
    else mret (Go (lp_set_bid lp msg bid))
  else if (qc_status c =? S_MASTER) && negb (master =? qc_my_id cf) then mret (Go lp)
  else if (qc_status c =? S_MASTER) && (master =? qc_my_id cf) then
    if negb (cy_wait_ok v) then mret Halt
    else
      let lp1 := lp_set_master_mask lp (check_cman (cy_nodes v) (lp_mask lp) (lp_master_mask lp)) in
      (if errors =? 0 then q_emit (CmanPoll true) else mret tt) ;;
      mret (Go lp1)
  else if (qc_status c =? S_RUN) && negb (master =? qc_my_id cf) then
    match ni !! Z.to_nat (master - 1) with
    | None => mret OutOfArray
    | Some n =>
        if c_true (is_bit_set (ps_master_mask (ni_status n)) (u32 (qc_my_id cf - 1)) DISK_MEMB_MASK_LEN) then
          if negb (cy_wait_ok v) then mret Halt
          else (if errors =? 0 then q_emit (CmanPoll true) else mret tt) ;; mret (Go lp)
        else mret (Go lp)
    end
  else mret (Go lp).

Definition reboot_if (cf : qd_conf) (late : bool) (flag : Z) : Q unit :=
  if late && flag_set (qc_flags cf) flag && negb (flag_set (qc_flags cf) RF_DEBUG)
  then q_emit Reboot else mret tt.

(** What is left of the interval, or all of it when the turn took longer. *)
Definition sleep_time (cf : qd_conf) (spent : timeval) : timeval :=
  let interval := (qc_interval cf, 0) in
  if cmp_tv spent interval =? 1 then diff_tv spent interval else interval.

(** The last part: our status is written, and a node that cannot write or read any
    more, or is too slow, reboots. *)
Definition finish (cf : qd_conf) (v : cycle_env) (errors : Z) (lp : loop) : Q loop :=
  c ← q_get;
  rv ← qd_write_status cf (qc_my_id cf) (qc_status c) (Some (lp_msg lp)) (Some (lp_mask lp))
         (Some (lp_master_mask lp));
  let errors := if rv =? 0 then errors else errors + 1 in
  let lp1 := if rv =? 0 then lp_set_wr lp (cy_written v) else lp in
  let maxtime := (s32 (qc_interval cf * qc_tko cf), 0) in
  let late since := cmp_tv maxtime (diff_tv since (cy_new v)) =? 1 in
  reboot_if cf (late (lp_wr_lastok lp1)) RF_IOTIMEOUT ;;
  reboot_if cf (late (lp_rd_lastok lp1)) RF_IOTIMEOUT ;;
  reboot_if cf (late (cy_old v)) RF_PARANOID ;;
  let running := lp_running lp1 && negb (cy_shutdown v) in
  let lp2 := if c_true errors && c_true (qc_max_error_cycles cf) then
               let n := lp_error_cycles lp1 + 1 in
               lp_set_errors lp1 n (running && negb (n >=? qc_max_error_cycles cf))
             else lp_set_errors lp1 0 running in
  (if lp_running lp2 then q_emit (CmanWait (sleep_time cf (diff_tv (cy_old v) (cy_new v)))) else mret tt) ;;
  mret lp2.

(** One turn, with the nodes and the variables of the loop; [None] when it ends without
    writing the status. *)
Definition quorum_cycle (cf : qd_conf) (v : cycle_env) (ni : list node_info) (lp : loop)
    : Q (option (list node_info * loop)) :=
  let '(ni1, errors, out) := read_node_blocks cf ni (cy_reads v) in
  q_emits out ;;
  let lp1 := if errors =? 0 then lp_set_rd lp (cy_read v) else lp in
  '(ni2, mask) ← check_transitions cf ni1;
  let lp2 := lp_set_mask lp1 mask in
  let lp3 := if lp_upgrade lp2 >? 0 then lp_set_upgrade lp2 (lp_upgrade lp2 - 1) else lp2 in
  lp4 ← apply_score cf v lp3;
  let ms := master_exists cf ni2 in
  set_master (ms_ret ms) ;;
  lp5 ← resolve_conflict cf ms lp4;
  r ← elect cf v ni2 ms errors lp5;
  match r with
  | Go lp6 => lp7 ← finish cf v errors lp6; mret (Some (ni2, lp7))
  | Halt | OutOfArray => mret None
  end.

(** The variables of the loop at its start; the masks are not initialised there. *)
Definition loop_start (mask master_mask : memb_mask) : loop :=
  mkLoop (mkMsg 0 0 0) 0 0 mask master_mask 0 (0, 0) (0, 0) true.

(** ** Start and end *)

(** One turn of the initialisation: the blocks of the others are read, ours says that we
    are initialising.  Nothing is kept of a mask. *)
Definition init_turn (cf : qd_conf) (reads : list (option status_block)) (ni : list node_info)
    : Q (list node_info * Z) :=
  let '(ni1, _, out) := read_node_blocks cf ni reads in
  q_emits out ;;
  '(ni2, _) ← check_transitions cf ni1;
  rv ← qd_write_status cf (qc_my_id cf) S_INIT None None None;
  mret (ni2, rv).

(** What a turn of the initialisation meets. *)
Record init_env := mkInitEnv {
  ie_reads : list (option status_block);
  ie_score : Z;
  ie_score_max : Z;
  ie_shutdown : bool
}.

(** At most [n] turns, [score_req] as the last turn left it; 1 is a shutdown and -1 an
    error. *)
Fixpoint init_turns (cf : qd_conf) (n : nat) (env : nat -> init_env) (ni : list node_info) (score_req : Z)
    : Q (Z * list node_info * Z) :=
  match n with
  | O => mret (0, ni, score_req)
  | S n' =>
      let e := env O in
      '(ni1, rv) ← init_turn cf (ie_reads e) ni;
      if negb (rv =? 0) then mret (-1, ni1, score_req)
      else
        let req := required_score cf (ie_score_max e) in
        if ie_shutdown e then mret (1, ni1, req)
        else init_turns cf n' (fun k => env (S k)) ni1 req
  end.

(** [last] has the score at the end. *)
Definition quorum_init (cf : qd_conf) (t : Z) (env : nat -> init_env) (last_score : Z) : Q (Z * list node_info) :=
  let ni := node_info_init t MAX_NODES_DISK in
  set_status S_INIT ;;
  rv ← qd_write_status cf (qc_my_id cf) S_INIT None None None;
  if negb (rv =? 0) then mret (-1, ni)
  else
    '(r, ni1, score_req) ← init_turns cf (Z.to_nat (qc_tko cf)) env ni 0;
    if negb (r =? 0) then mret (r, ni1)
    else if flag_set (qc_flags cf) RF_STOP_CMAN && (last_score <? score_req) then mret (-1, ni1)
    else mret (0, ni1).

(** Our block says that we have left. *)
Definition quorum_logout (cf : qd_conf) : Q Z :=
  qd_write_status cf (qc_my_id cf) S_NONE None None None ;; mret 0.

(** The incarnation comes from the time of the start; a zero is tried again. *)
Definition token_of (sec : Z) : Z := u64 (Z.lor (u64 (Z.shiftl sec 32)) (Z.land sec 0xffffffff)).

(** ** Heuristics *)

Record h_data := mkH {
  h_nextrun : Z * Z;
  h_failtime : Z * Z;
  h_score : Z;
  h_available : bool;
  h_tko : Z;
  h_interval : Z;
  h_maxtime : Z;
  h_misses : Z;
  h_failed : Z;
  h_childpid : Z
}.

Definition ETIMEDOUT : Z := 110.
Definition ECHILD : Z := 10.

(** [pid] is what [fork] gives in the parent. *)
Definition fork_heuristic (h : h_data) (now : Z * Z) (pid : Z) : Z * h_data :=
  if c_true (h_childpid h) then (-1, h)
  else if (fst now <? fst (h_nextrun h)) || (snd now <? snd (h_nextrun h)) then (0, h)
  else
    let h1 c := mkH (fst now + h_interval h, snd now) (fst now + h_maxtime h, snd now) (h_score h)
                  (h_available h) (h_tko h) (h_interval h) (h_maxtime h) (h_misses h) (h_failed h) c in
    if pid <? 0 then (-1, h1 (h_childpid h)) else (0, h1 pid).

Definition total_score (h : list h_data) : Z * Z :=
  match h with
  | [] => (1, 1)
  | _ => foldl (fun '(score, maxscore) x =>
                  (if h_available x then s32 (score + h_score x) else score, s32 (maxscore + h_score x))) (0, 0) h
  end.

(** What [waitpid] says: the child runs, is not ours, or has ended, cleanly or not. *)
Inductive child := ChildRuns | NoChild | ChildEnded (clean : bool).

Definition h_set (h : h_data) (avail : bool) (misses failed childpid : Z) : h_data :=
  mkH (h_nextrun h) (h_failtime h) (h_score h) avail (h_tko h) (h_interval h) (h_maxtime h) misses failed childpid.

(** The label [miss]. *)
Definition heuristic_miss (h : h_data) (failed : Z) : h_data :=
  if h_available h then
    let misses := h_misses h + 1 in
    h_set h (negb (misses >=? h_tko h)) misses failed 0
  else h_set h false (h_misses h) failed 0.

(** Without blocking. *)
Definition check_heuristic (h : h_data) (now : Z * Z) (ch : child) : h_data :=
  if h_childpid h =? 0 then h
  else match ch with
  | ChildRuns =>
      if h_maxtime h =? 0 then h
      else if (fst now >? fst (h_failtime h)) ||
              ((fst now =? fst (h_failtime h)) && (snd now >? snd (h_failtime h)))
      then h_set h false (h_tko h) ETIMEDOUT (h_childpid h)
      else h
  | NoChild => heuristic_miss h (h_failed h)
  | ChildEnded clean =>
      if c_true (h_failed h) then heuristic_miss h 0
      else if negb clean then heuristic_miss h (h_failed h)
      else h_set h true 0 (h_failed h) 0
  end.

(** The interval and the number of tries for a time to report in. *)
Definition auto_heuristic_timing (interval tko absmax : Z) : Z * Z :=
  if absmax <? 3 then (interval, tko)
  else
    let i := if absmax <=? 4 then 1 else if absmax <=? 22 then 2 else if absmax <=? 39 then 3
             else if absmax <=? 50 then 4 else 5 in
    (i, Z.quot absmax i).
