(* ===== verification/QDiskThm.v ===== *)
(** * A turn of the quorum disk daemon, as a function

    When the disk can be read and written, a turn of [quorum_loop] does four things: it
    updates what the node knows of each other node ([next_view]), writes eviction notices,
    moves the node's own place in the election ([next_core]) and writes its own block.
    [quorum_cycle_spec] shows that the code does exactly that.  The theorems on the
    election (QDiskElect) are about these functions. *)

From S2P Require Import Prelude QDisk.
Open Scope Z_scope.

(** ** What a node knows of another one *)

Definition transition (cf : qd_conf) (n : node_info) : node_info * mask_change :=
  let sb := ni_status n in
  if ((ni_state n >=? S_EVICT) && (ps_state sb <=? S_EVICT)) ||
     (c_true (ni_incarnation n) && negb (ni_incarnation n =? ps_incarnation sb)) then
    (ni_set n 0 (if ps_state sb =? S_EVICT then ni_evil_incarnation n else 0) 0 0 S_NONE sb, MaskClear)
  else if (ni_misses n >? qc_tko cf) && state_run (ps_state sb) then
    (ni_set n (ni_incarnation n) (ni_incarnation n) (ni_misses n)
       (if (ps_state sb >=? S_RUN) && c_true (ni_seen n) then 0 else ni_seen n) S_EVICT
       (sb_set_state sb S_EVICT), MaskClear)
  else if c_true (ni_evil_incarnation n) && (ni_evil_incarnation n =? ps_incarnation sb) &&
          (ps_updatenode sb =? ps_nodeid sb) then
    (ni_set n (ni_incarnation n) (ni_evil_incarnation n) (ni_misses n) (ni_seen n) (ni_state n)
       (sb_set_state sb S_EVICT), MaskKeep)
  else if (ni_seen n >? qc_tko_up cf) && negb (state_run (ni_state n)) then
    (ni_set n (ps_incarnation sb) 0 (ni_misses n) (ni_seen n) S_RUN sb, MaskSet)
  else if (ni_state n =? S_RUN) && (ps_state sb =? S_MASTER) then
    (ni_set n (ni_incarnation n) (ni_evil_incarnation n) (ni_misses n) (ni_seen n) S_MASTER sb, MaskSet)
  else if state_run (ni_state n) && negb (ni_incarnation n =? ps_incarnation sb) then
    (ni_set n (ps_incarnation sb) 0 (ni_misses n) (ni_seen n) (ni_state n) sb, MaskKeep)
  else if state_run (ni_state n) then
    (ni_set n (ni_incarnation n) (ni_evil_incarnation n) (ni_misses n) (ni_seen n) (ps_state sb) sb, MaskSet)
  else (n, MaskKeep).

(** An eviction notice is only written when the second or the third case applies. *)
Definition evictable (cf : qd_conf) (n : node_info) : bool :=
  let sb := ni_status n in
  negb (((ni_state n >=? S_EVICT) && (ps_state sb <=? S_EVICT)) ||
        (c_true (ni_incarnation n) && negb (ni_incarnation n =? ps_incarnation sb))) &&
  (((ni_misses n >? qc_tko cf) && state_run (ps_state sb)) ||
   (c_true (ni_evil_incarnation n) && (ni_evil_incarnation n =? ps_incarnation sb) &&
    (ps_updatenode sb =? ps_nodeid sb))).

Definition seen_block (cf : qd_conf) (n : node_info) (sb : status_block) : node_info :=
  (read_node_block cf n (Some sb)).1.1.

Definition next_view (cf : qd_conf) (n : node_info) (sb : status_block) : node_info :=
  (transition cf (seen_block cf n sb)).1.

(** ** The node's place in the election *)

Record core := mkCore { c_status : Z; c_upgrade : Z; c_bid : Z; c_msg : disk_msg }.

Definition core_none (c : core) : core :=
  mkCore (c_status c) (c_upgrade c) 0 (mkMsg M_NONE (m_arg (c_msg c)) (u16 (m_seq (c_msg c) + 1))).

Definition core_score (cf : qd_conf) (enough : bool) (c : core) : core :=
  if enough then
    if c_status c =? S_NONE then core_none (mkCore S_RUN (qc_upgrade_wait cf) (c_bid c) (c_msg c)) else c
  else if c_status c >? S_NONE then core_none (mkCore S_NONE (c_upgrade c) (c_bid c) (c_msg c)) else c.

Definition core_conflict (cf : qd_conf) (ms : masters) (c : core) : core :=
  if (ms_count ms >=? 1) && (c_status c =? S_MASTER) && negb (ms_ret ms =? qc_my_id cf)
  then core_none (mkCore S_RUN (qc_upgrade_wait cf) (c_bid c) (c_msg c)) else c.

Definition core_elect (cf : qd_conf) (ni : list node_info) (ms : masters) (c : core) : core :=
  let msg := c_msg c in
  if negb (ms_ret ms =? 0) then c
  else if (ms_low ms =? qc_my_id cf) && (c_status c =? S_RUN) && (c_bid c =? 0) && (c_upgrade c =? 0) then
    mkCore (c_status c) (c_upgrade c) 1 (mkMsg M_BID (m_arg msg) (u16 (m_seq msg + 1)))
  else if c_bid c =? 0 then mkCore (c_status c) (c_upgrade c) 0 (do_vote cf ni msg)
  else
    let '(r, msg') := check_votes cf ni msg in
    let none := mkMsg M_NONE (m_arg msg') (m_seq msg') in
    let bid := c_bid c + 1 in
    if r =? 3 then
      if bid <? qc_master_wait cf then mkCore (c_status c) (c_upgrade c) bid msg'
      else mkCore S_MASTER (c_upgrade c) 0 none
    else if r =? 2 then mkCore (c_status c) (c_upgrade c) 0 none
    else mkCore (c_status c) (c_upgrade c) (if r =? 1 then 0 else bid) msg'.

Definition core_tick (c : core) : core :=
  mkCore (c_status c) (if c_upgrade c >? 0 then c_upgrade c - 1 else c_upgrade c) (c_bid c) (c_msg c).

Definition next_core (cf : qd_conf) (enough : bool) (ni : list node_info) (c : core) : core :=
  let ms := master_exists cf ni in
  core_elect cf ni ms (core_conflict cf ms (core_score cf enough (core_tick c))).

(** ** The effects on the disk *)

(** The blocks of a list of effects: notices for others, and the block of node [me]. *)
Definition notices (me : Z) (out : list effect) (disk : list status_block) : list status_block :=
  foldl (fun d e => match e with
                    | WriteBlock nid sb true => if nid =? me then d else <[Z.to_nat (nid - 1) := sb]> d
                    | _ => d
                    end) disk out.

Definition own_block (me : Z) (out : list effect) : option status_block :=
  foldl (fun o e => match e with
                    | WriteBlock nid sb true => if nid =? me then Some sb else o
                    | _ => o
                    end) None out.

(** ** The code does this *)

(** Every write succeeds, at time [now]. *)
Definition tape_ok (now : Z) (s : qstate) : Prop :=
  forall k, we_ok (q_tape s k) = true /\ we_now (q_tape s k) = now.

(** The state moves on with some effects; the status is the same. *)
Definition moved (now : Z) (s s' : qstate) (o : list effect) : Prop :=
  q_out s' = q_out s ++ o /\ tape_ok now s' /\ qc_status (q_ctx s') = qc_status (q_ctx s).

Definition is_write (e : effect) : bool := match e with WriteBlock _ _ _ => true | _ => false end.
Definition no_writes (o : list effect) : Prop := Forall (fun e => is_write e = false) o.

(** A notice for one of a list of nodes. *)
Definition notice_for (ids : list Z) (e : effect) : Prop :=
  match e with
  | WriteBlock nid sb _ => nid ∈ ids /\ ps_state sb = S_EVICT /\ ps_nodeid sb = nid
  | _ => True
  end.

Definition core_of (s : qstate) (lp : loop) : core :=
  mkCore (qc_status (q_ctx s)) (lp_upgrade lp) (lp_bid_pending lp) (lp_msg lp).

Lemma moved_refl now s : tape_ok now s -> moved now s s [].
Proof. intros. unfold moved. split_and!; [by rewrite app_nil_r|done..]. Qed.

Lemma moved_trans now s1 s2 s3 o1 o2 : moved now s1 s2 o1 -> moved now s2 s3 o2 -> moved now s1 s3 (o1 ++ o2).
Proof.
  intros (E1 & _ & S1) (E2 & T2 & S2). unfold moved. split_and!; [|done|congruence].
  by rewrite E2, E1, app_assoc.
Qed.

Lemma bind_run {A B} (m : Q A) (f : A -> Q B) s a s' : m s = (a, s') -> (m ≫= f) s = f a s'.
Proof. unfold mbind, Q_bind. by intros ->. Qed.

Lemma moved_emit now s e : tape_ok now s -> is_write e = false -> moved now s (q_emit e s).2 [e].
Proof. intros T _. unfold moved. by split_and!. Qed.

Lemma qd_write_status_run cf nid st msg mask mm s now :
  tape_ok now s -> 0 < nid ->
  exists s', qd_write_status cf nid st msg mask mm s = (0, s') /\
    moved now s s' [WriteBlock nid (status_of cf (q_ctx s) nid st now msg mask mm) true].
Proof.
  intros T Hn. pose proof (T 0%nat) as [Tok Tnow].
  unfold qd_write_status. rewrite (proj2 (Z.leb_gt _ _) Hn).
  unfold mbind, Q_bind, q_get, q_next, q_emit, q_put. cbn. rewrite Tok, Tnow. cbn.
  eexists. split; [reflexivity|]. unfold moved. split_and!; [done| |done]. intros k. apply T.
Qed.

Lemma kill_if_allowed_run cf nid s now :
  tape_ok now s -> exists s' o, kill_if_allowed cf nid s = (tt, s') /\ moved now s s' o /\ no_writes o.
Proof.
  intros T. unfold kill_if_allowed. case_match.
  - exists (q_emit (CmanKill (s32 nid)) s).2, [CmanKill (s32 nid)].
    split_and!; [done|by apply moved_emit|by repeat constructor].
  - exists s, []. split_and!; [done|by apply moved_refl|constructor].
Qed.

Lemma evict_run cf nid kid s now :
  tape_ok now s ->
  exists s' o,
    (qd_write_status cf nid S_EVICT None None None ;; kill_if_allowed cf kid) s = (tt, s') /\
    moved now s s' o /\ Forall (notice_for [nid]) o.
Proof.
  intros T. destruct (decide (0 < nid)) as [Hn|Hn].
  - destruct (qd_write_status_run cf nid S_EVICT None None None s now T Hn) as (s1 & E1 & M1).
    destruct (kill_if_allowed_run cf kid s1 now) as (s2 & o & E2 & M2 & W); [apply M1|].
    exists s2, ([WriteBlock nid (status_of cf (q_ctx s) nid S_EVICT now None None None) true] ++ o).
    split_and!.
    + by rewrite (bind_run _ _ _ _ _ E1).
    + by eapply moved_trans.
    + apply Forall_app. split.
      * apply Forall_singleton. cbn. split_and!; [set_solver|done..].
      * eapply Forall_impl; [exact W|]. by intros [].
  - destruct (kill_if_allowed_run cf kid s now T) as (s2 & o & E2 & M2 & W).
    exists s2, o. split_and!; [|done|eapply Forall_impl; [exact W|]; by intros []].
    unfold qd_write_status. by rewrite (proj2 (Z.leb_le nid 0)) by lia.
Qed.

(** The cases of [check_transition] in turn. *)
Ltac run_case s :=
  exists s, []; split_and!; [reflexivity|by apply moved_refl|constructor].

Lemma check_transition_run cf n s now :
  tape_ok now s ->
  exists s' o, check_transition cf n s = (transition cf n, s') /\ moved now s s' o /\
    Forall (notice_for (if evictable cf n then [s32 (ps_nodeid (ni_status n))] else [])) o.
Proof.
  intros T. unfold check_transition, transition, evictable.
  set (c1 := _ || _). destruct c1; cbn [negb andb]; [run_case s|].
  set (c2 := _ && state_run _). destruct c2; cbn [orb].
  { rewrite (bind_run q_get _ s (q_ctx s) s) by done. destruct (qc_status (q_ctx s) =? S_MASTER).
    - destruct (evict_run cf (s32 (ps_nodeid (ni_status n))) (ps_nodeid (ni_status n)) s now T) as (s' & o & E & M & W).
      exists s', o. split_and!; [|done|done]. by rewrite (bind_run _ _ _ _ _ E).
    - run_case s. }
  set (c3 := _ && (ps_updatenode _ =? _)). destruct c3.
  { destruct (evict_run cf (s32 (ps_nodeid (ni_status n))) (ps_nodeid (ni_status n)) s now T) as (s' & o & E & M & W).
    exists s', o. split_and!; [|done|done].
    unfold mbind, Q_bind in E |- *. destruct (qd_write_status _ _ _ _ _ _ s) as [r s1].
    rewrite E. reflexivity. }
  repeat (case_match; [run_case s|]). run_case s.
Qed.

Lemma notice_for_mono (l k : list Z) e : (forall x, x ∈ l -> x ∈ k) -> notice_for l e -> notice_for k e.
Proof. intros H. destruct e; cbn; [|done..]. intros (? & ?). auto. Qed.

Lemma no_writes_notices l o : no_writes o -> Forall (notice_for l) o.
Proof. intros H. eapply Forall_impl; [exact H|]. by intros []. Qed.

(** The nodes a notice is written for. *)
Definition evicted_ids (cf : qd_conf) (ni : list node_info) : list Z :=
  map (fun n => s32 (ps_nodeid (ni_status n))) (List.filter (evictable cf) ni).

Lemma check_transitions_loop_run cf ni mask s now :
  tape_ok now s ->
  exists s' o mask', check_transitions_loop cf ni mask s = ((map (fun n => (transition cf n).1) ni, mask'), s') /\
    moved now s s' o /\ Forall (notice_for (evicted_ids cf ni)) o.
Proof.
  revert mask s. induction ni as [|n ni IH]; intros mask s T.
  - exists s, [], mask. split_and!; [done|by apply moved_refl|constructor].
  - destruct (check_transition_run cf n s now T) as (s1 & o1 & E1 & M1 & W1).
    set (mask1 := change_mask mask (ps_nodeid (ni_status n)) (transition cf n).2).
    destruct (IH mask1 s1) as (s2 & o2 & mask2 & E2 & M2 & W2); [apply M1|].
    exists s2, (o1 ++ o2), mask2. split_and!; [|by eapply moved_trans|].
    + cbn [check_transitions_loop map]. rewrite (bind_run _ _ _ _ _ E1).
      destruct (transition cf n) as [n1 ch] eqn:Et. cbn in mask1 |- *.
      by rewrite (bind_run _ _ _ _ _ E2).
    + unfold evicted_ids. cbn [List.filter].
      apply Forall_app. split; (eapply Forall_impl; [eassumption|]; intros e; apply notice_for_mono);
        destruct (evictable cf n); cbn; set_solver.
Qed.

Lemma read_node_blocks_run cf ni disk :
  length ni = length disk ->
  exists out, read_node_blocks cf ni (map Some disk) = (zip_with (seen_block cf) ni disk, 0, out) /\ no_writes out.
Proof.
  revert disk. induction ni as [|n ni IH]; intros [|sb disk] Hl; try discriminate Hl.
  - exists []. split; [done|constructor].
  - destruct (IH disk) as (out & E & W); [by injection Hl|].
    cbn [read_node_blocks map zip_with]. rewrite E. unfold seen_block.
    destruct (read_node_block cf n (Some sb)) as [[n1 e] out1] eqn:Er.
    assert (e = false /\ no_writes out1) as [-> W1].
    { cbn in Er. repeat case_match; simplify_eq; (split; [done|]); try by constructor.
      unfold check_self. repeat case_match; by repeat constructor. }
    exists (out1 ++ out). split; [done|]. by apply Forall_app.
Qed.

(** A part of the turn that moves the core by [f] and writes nothing. *)
Definition core_run (now : Z) (f : core -> core) (lp : loop) (m : Q loop) : Prop :=
  forall s, tape_ok now s -> exists s' lp' o, m s = (lp', s') /\ core_of s' lp' = f (core_of s lp) /\
    q_out s' = q_out s ++ o /\ tape_ok now s' /\ no_writes o.

Lemma adjust_votes_run cf s now :
  tape_ok now s -> exists s' o, adjust_votes cf s = (tt, s') /\ moved now s s' o /\ no_writes o.
Proof.
  intros T. unfold adjust_votes. case_match.
  - exists s, []. split_and!; [done|by apply moved_refl|constructor].
  - eexists _, [_]. split_and!; [reflexivity|unfold moved; by split_and!|by repeat constructor].
Qed.

Lemma emit_if_run (b : bool) (e : effect) s now :
  tape_ok now s -> is_write e = false ->
  exists s' o, (if b then q_emit e else mret tt) s = (tt, s') /\ moved now s s' o /\ no_writes o.
Proof.
  intros T He. destruct b.
  - exists (q_emit e s).2, [e]. split_and!; [done|by apply moved_emit|by repeat constructor].
  - exists s, []. split_and!; [done|by apply moved_refl|constructor].
Qed.

Lemma set_status_adjust_run cf st s now :
  tape_ok now s ->
  exists s' o, (set_status st ;; adjust_votes cf) s = (tt, s') /\
    q_out s' = q_out s ++ o /\ tape_ok now s' /\ qc_status (q_ctx s') = st /\ no_writes o.
Proof.
  intros T. destruct (adjust_votes_run cf (set_status st s).2 now T) as (s2 & o & E2 & (M1 & M2 & M3) & W).
  by exists s2, o.
Qed.

Ltac core_stay s lp :=
  eexists s, _, []; rewrite app_nil_r; split_and!; [reflexivity|by destruct lp|done|done|constructor].

Lemma apply_score_run cf v lp now :
  core_run now (core_score cf (negb (cy_score v <? required_score cf (cy_score_max v)))) lp (apply_score cf v lp).
Proof.
  intros s T. unfold apply_score, core_score. rewrite (bind_run q_get _ s (q_ctx s) s) by done.
  destruct (cy_score v <? _); cbn [negb c_status core_of].
  - destruct (qc_status (q_ctx s) >? S_NONE); [|core_stay s lp].
    destruct (set_status_adjust_run cf S_NONE s now T) as (s1 & o1 & E1 & M1 & T1 & St1 & W1).
    destruct (emit_if_run (cy_wait_ok v) (CmanPoll false) s1 now T1 eq_refl) as (s2 & o2 & E2 & (M2 & T2 & St2) & W2).
    destruct (emit_if_run (flag_set (qc_flags cf) RF_REBOOT) Reboot s2 now T2 eq_refl)
      as (s3 & o3 & E3 & (M3 & T3 & St3) & W3).
    eexists s3, _, (o1 ++ o2 ++ o3).
    unfold mbind, Q_bind in E1 |- *. destruct (set_status S_NONE s) as [u s0]. rewrite E1, E2, E3.
    split_and!; [reflexivity| |by rewrite M3, M2, M1, <- !app_assoc|done|by repeat apply Forall_app_2].
    unfold core_of, core_none. cbn. by destruct lp; cbn; rewrite St3, St2, St1.
  - destruct (qc_status (q_ctx s) =? S_NONE); [|core_stay s lp].
    eexists _, _, []. rewrite app_nil_r. split_and!; [reflexivity|by destruct lp|done|done|constructor].
Qed.

Lemma resolve_conflict_run cf ms lp now : core_run now (core_conflict cf ms) lp (resolve_conflict cf ms lp).
Proof.
  intros s T. unfold resolve_conflict, core_conflict. rewrite (bind_run q_get _ s (q_ctx s) s) by done.
  cbn [c_status core_of]. case_match; [|core_stay s lp].
  destruct (set_status_adjust_run cf S_RUN s now T) as (s1 & o1 & E1 & M1 & T1 & St1 & W1).
  eexists s1, _, o1. unfold mbind, Q_bind in E1 |- *. destruct (set_status S_RUN s) as [u s0]. rewrite E1.
  split_and!; [reflexivity| |done..]. unfold core_of, core_none. destruct lp. cbn. by rewrite St1.
Qed.

Ltac go_stay s lp :=
  eexists s, _, []; rewrite app_nil_r; split_and!; [reflexivity|done|done|constructor|try done; by destruct lp].

(** The election either halts the daemon or moves the core. *)
Lemma elect_run cf v ni ms errors lp s now :
  tape_ok now s ->
  exists s' r o, elect cf v ni ms errors lp s = (r, s') /\ q_out s' = q_out s ++ o /\ tape_ok now s' /\ no_writes o /\
    match r with Go lp' => core_of s' lp' = core_elect cf ni ms (core_of s lp) | _ => True end.
Proof.
  intros T. unfold elect, core_elect. rewrite (bind_run q_get _ s (q_ctx s) s) by done.
  cbn [c_status c_bid c_upgrade c_msg core_of].
  destruct (ms_ret ms =? 0) eqn:Em; cbn [negb andb].
  - case_match; [go_stay s lp|]. destruct (lp_bid_pending lp =? 0) eqn:Eb; [go_stay s lp|].
    destruct (check_votes cf ni (lp_msg lp)) as [r msg] eqn:Ev. cbv zeta.
    destruct (r =? 3) eqn:E3; [|destruct (r =? 2) eqn:E2; [go_stay s lp|]; destruct (r =? 1); go_stay s lp].
    destruct (_ <? _); [go_stay s lp|].
    destruct (set_status_adjust_run cf S_MASTER s now T) as (s1 & o1 & E1 & M1 & T1 & St1 & W1).
    eexists s1, _, o1. unfold mbind, Q_bind in E1 |- *. destruct (set_status S_MASTER s) as [u s0]. rewrite E1.
    split_and!; [reflexivity|done..|]. unfold core_of. destruct lp. cbn. by rewrite St1.
  - case_match; [go_stay s lp|]. case_match.
    { case_match; [go_stay s lp|].
      destruct (emit_if_run (errors =? 0) (CmanPoll true) s now T eq_refl) as (s1 & o1 & E1 & (M1 & T1 & St1) & W1).
      eexists s1, _, o1. rewrite (bind_run _ _ _ _ _ E1). split_and!; [reflexivity|done..|].
      unfold core_of. destruct lp. cbn. by rewrite St1. }
    case_match; [|go_stay s lp]. case_match; [|go_stay s lp]. case_match; [|go_stay s lp].
    case_match; [go_stay s lp|].
    destruct (emit_if_run (errors =? 0) (CmanPoll true) s now T eq_refl) as (s1 & o1 & E1 & (M1 & T1 & St1) & W1).
    eexists s1, _, o1. rewrite (bind_run _ _ _ _ _ E1). split_and!; [reflexivity|done..|].
    unfold core_of. by rewrite St1.
Qed.

Lemma reboot_if_run cf late flag s now :
  tape_ok now s -> exists s' o, reboot_if cf late flag s = (tt, s') /\ moved now s s' o /\ no_writes o.
Proof. intros T. unfold reboot_if. by apply emit_if_run. Qed.

(** The block a node writes for itself. *)
Definition own_status (cf : qd_conf) (now : Z) (c : core) (sb : status_block) : Prop :=
  ps_nodeid sb = qc_my_id cf /\ ps_updatenode sb = qc_my_id cf /\ ps_timestamp sb = now /\
  ps_incarnation sb = qc_incarnation cf /\ ps_state sb = u8 (c_status c) /\
  ps_msg sb = u16 (m_msg (c_msg c)) /\ ps_arg sb = m_arg (c_msg c).

Lemma finish_run cf v errors lp s now :
  tape_ok now s -> 0 < qc_my_id cf ->
  exists s' lp' sb o, finish cf v errors lp s = (lp', s') /\ core_of s' lp' = core_of s lp /\ tape_ok now s' /\
    q_out s' = q_out s ++ WriteBlock (qc_my_id cf) sb true :: o /\ no_writes o /\ own_status cf now (core_of s lp) sb.
Proof.
  intros T Hme. unfold finish. rewrite (bind_run q_get _ s (q_ctx s) s) by done.
  destruct (qd_write_status_run cf (qc_my_id cf) (qc_status (q_ctx s)) (Some (lp_msg lp)) (Some (lp_mask lp))
              (Some (lp_master_mask lp)) s now T Hme) as (s1 & E1 & M1 & T1 & St1).
  rewrite (bind_run _ _ _ _ _ E1). cbv zeta. rewrite !(Z.eqb_refl 0).
  set (lp1 := lp_set_wr lp (cy_written v)).
  set (late t := cmp_tv (s32 (qc_interval cf * qc_tko cf), 0) (diff_tv t (cy_new v)) =? 1).
  destruct (reboot_if_run cf (late (lp_wr_lastok lp1)) RF_IOTIMEOUT s1 now T1) as (s2 & o2 & E2 & (M2 & T2 & St2) & W2).
  destruct (reboot_if_run cf (late (lp_rd_lastok lp1)) RF_IOTIMEOUT s2 now T2) as (s3 & o3 & E3 & (M3 & T3 & St3) & W3).
  destruct (reboot_if_run cf (late (cy_old v)) RF_PARANOID s3 now T3) as (s4 & o4 & E4 & (M4 & T4 & St4) & W4).
  rewrite (bind_run _ _ _ _ _ E2), (bind_run _ _ _ _ _ E3), (bind_run _ _ _ _ _ E4).
  match goal with |- context [lp_running (if ?b then ?x else ?y)] => set (lp2 := if b then x else y) end.
  destruct (emit_if_run (lp_running lp2) (CmanWait (sleep_time cf (diff_tv (cy_old v) (cy_new v)))) s4 now T4 eq_refl)
    as (s5 & o5 & E5 & (M5 & T5 & St5) & W5).
  rewrite (bind_run _ _ _ _ _ E5).
  eexists s5, lp2, _, (o2 ++ o3 ++ o4 ++ o5). split_and!; [reflexivity| |done| |by repeat apply Forall_app_2|].
  - unfold core_of. rewrite St5, St4, St3, St2, St1. subst lp2 lp1. destruct lp. destruct (c_true errors && c_true (qc_max_error_cycles cf)); reflexivity.
  - rewrite M5, M4, M3, M2, M1. by rewrite <- !app_assoc.
  - by unfold own_status.
Qed.

Lemma transition_views cf ni disk :
  map (fun n => (transition cf n).1) (zip_with (seen_block cf) ni disk) = zip_with (next_view cf) ni disk.
Proof. revert disk. induction ni as [|n ni IH]; intros [|sb disk]; cbn; [done..|]. by rewrite IH. Qed.

(** A turn with a disk that can be read and written: what is known of the others, the
    place in the election and the writes.  Notices go to nodes that are evictable, and
    the own block is the last one written. *)
Lemma quorum_cycle_spec cf v ni lp s now disk :
  cy_reads v = map Some disk -> length ni = length disk -> tape_ok now s -> 0 < qc_my_id cf ->
  let views := zip_with (next_view cf) ni disk in
  let ids := evicted_ids cf (zip_with (seen_block cf) ni disk) in
  let enough := negb (cy_score v <? required_score cf (cy_score_max v)) in
  exists r s' o, quorum_cycle cf v ni lp s = (r, s') /\ Forall (notice_for ids) o /\
    match r with
    | None => q_out s' = q_out s ++ o
    | Some (ni', lp') =>
        ni' = views /\ core_of s' lp' = next_core cf enough views (core_of s lp) /\
        exists sb o', q_out s' = q_out s ++ o ++ WriteBlock (qc_my_id cf) sb true :: o' /\ no_writes o' /\
          own_status cf now (core_of s' lp') sb
    end.
Proof.
  intros Hr Hl T Hme views ids enough. unfold quorum_cycle. rewrite Hr.
  destruct (read_node_blocks_run cf ni disk Hl) as (out & E0 & W0). rewrite E0. cbv zeta.
  set (ni1 := zip_with (seen_block cf) ni disk) in *.
  set (s1 := (q_emits out s).2). assert (tape_ok now s1) as T1 by exact T.
  rewrite (bind_run (q_emits out) _ s tt s1) by done.
  destruct (check_transitions_loop_run cf ni1 empty_mask s1 now T1) as (s2 & o2 & mask & E2 & (M2 & T2 & St2) & W2).
  unfold check_transitions. rewrite (bind_run _ _ _ _ _ E2).
  assert (map (fun n => (transition cf n).1) ni1 = views) as -> by apply transition_views.
  set (lp2 := lp_set_mask _ mask).
  set (lp3 := if lp_upgrade lp2 >? 0 then lp_set_upgrade lp2 (lp_upgrade lp2 - 1) else lp2).
  assert (core_of s2 lp3 = core_tick (core_of s lp)) as C3.
  { unfold core_of, core_tick. subst lp3 lp2. rewrite St2. destruct lp. cbn. by case_match. }
  destruct (apply_score_run cf v lp3 now s2 T2) as (s4 & lp4 & o4 & E4 & C4 & M4 & T4 & W4).
  rewrite (bind_run _ _ _ _ _ E4). set (ms := master_exists cf views).
  set (s5 := (set_master (ms_ret ms) s4).2). assert (tape_ok now s5) as T5 by exact T4.
  rewrite (bind_run (set_master (ms_ret ms)) _ s4 tt s5) by done.
  destruct (resolve_conflict_run cf ms lp4 now s5 T5) as (s6 & lp6 & o6 & E6 & C6 & M6 & T6 & W6).
  rewrite (bind_run _ _ _ _ _ E6).
  destruct (elect_run cf v views ms 0 lp6 s6 now T6) as (s7 & r & o7 & E7 & M7 & T7 & W7 & C7).
  rewrite (bind_run _ _ _ _ _ E7).
  set (o := out ++ o2 ++ o4 ++ o6 ++ o7).
  assert (q_out s7 = q_out s ++ o) as M.
  { rewrite M7, M6. change (q_out s5) with (q_out s4). rewrite M4, M2. change (q_out s1) with (q_out s ++ out).
    subst o. by rewrite <- !app_assoc. }
  assert (Forall (notice_for ids) o) as W.
  { subst o. rewrite !Forall_app. split_and!; try by apply no_writes_notices. done. }
  destruct r as [lp7| |]; [|exists None, s7, o; by split_and!..].
  destruct (finish_run cf v 0 lp7 s7 now T7 Hme) as (s8 & lp8 & sb & o8 & E8 & C8 & T8 & M8 & W8 & Own).
  rewrite (bind_run _ _ _ _ _ E8). eexists (Some (views, lp8)), s8, o. split_and!; [reflexivity|done|done| |].
  - rewrite C8, C7, C6. change (core_of s5 lp4) with (core_of s4 lp4). by rewrite C4, C3.
  - exists sb, o8. rewrite M8, M, <- app_assoc, C8. by split_and!.
Qed.

(** A turn of the initialisation does the same, and the block says so. *)
Lemma init_turn_spec cf ni s now disk :
  length ni = length disk -> tape_ok now s -> 0 < qc_my_id cf ->
  exists s' o sb, init_turn cf (map Some disk) ni s = ((zip_with (next_view cf) ni disk, 0), s') /\
    Forall (notice_for (evicted_ids cf (zip_with (seen_block cf) ni disk))) o /\
    qc_status (q_ctx s') = qc_status (q_ctx s) /\
    q_out s' = q_out s ++ o ++ [WriteBlock (qc_my_id cf) sb true] /\
    own_status cf now (mkCore S_INIT 0 0 (mkMsg 0 0 0)) sb.
Proof.
  intros Hl T Hme. unfold init_turn.
  destruct (read_node_blocks_run cf ni disk Hl) as (out & E0 & W0). rewrite E0.
  set (ni1 := zip_with (seen_block cf) ni disk) in *.
  set (s1 := (q_emits out s).2). assert (tape_ok now s1) as T1 by exact T.
  rewrite (bind_run (q_emits out) _ s tt s1) by done.
  destruct (check_transitions_loop_run cf ni1 empty_mask s1 now T1) as (s2 & o2 & mask & E2 & (M2 & T2 & St2) & W2).
  unfold check_transitions. rewrite (bind_run _ _ _ _ _ E2).
  destruct (qd_write_status_run cf (qc_my_id cf) S_INIT None None None s2 now T2 Hme) as (s3 & E3 & M3 & T3 & St3).
  rewrite (bind_run _ _ _ _ _ E3). eexists s3, (out ++ o2), _. split_and!; [|..].
  - subst ni1. rewrite transition_views. reflexivity.
  - apply Forall_app. split; [by apply no_writes_notices|done].
  - by rewrite St3, St2.
  - rewrite M3, M2. subst s1. cbn. by rewrite <- !app_assoc.
  - by unfold own_status.
Qed.
