(* ===== verification/QDiskViews.v ===== *)
(** * What the nodes of a quorum disk know, and how they vote

    Lemmas on one turn of one node: what it knows of another node, live or dead, after it
    has read that node's block ([next_view_ok], [next_view_live]), and how its own place in
    the election moves ([next_core_ok]). *)

From S2P Require Import Prelude QDisk QDiskThm.
Open Scope Z_scope.

(** Node ids are the blocks' numbers, from 1. *)
Definition node_id (i : Z) : Prop := 1 <= i <= MAX_NODES_DISK.

(** ** What a node knows of another one *)

(** [hi] is the last incarnation of the other node, and [rb] says that its block on the
    disk has it running. *)
Record view_ok (cf : qd_conf) (hi : Z) (rb : bool) (n : node_info) : Prop := {
  vo_inc : 0 <= ni_incarnation n <= hi;
  vo_evil : 0 <= ni_evil_incarnation n <= hi;
  vo_none : ni_state n = S_NONE -> ni_seen n <= qc_tko_up cf /\ ni_incarnation n = 0;
  vo_run : state_run (ni_state n) = true -> ni_incarnation n <> 0;
  vo_state : 0 <= ni_state n;
  vo_seen : 0 <= ni_seen n;
  vo_dead : ni_state n = S_NONE -> ni_evil_incarnation n = hi -> rb = false
}.

(** A block that says its node runs is of the last incarnation and of the last write. *)
Definition block_ok (hi ht : Z) (sb : status_block) : Prop :=
  0 <= ps_state sb /\ (state_run (ps_state sb) = true -> 0 < hi /\ ps_incarnation sb = hi /\ ps_timestamp sb = ht).

(** The other node lives; [ht] is the time of its last block, [f] says that it has written
    since we read, and [c] how often we have read while it ran; it is -1 as long as we have
    not read since it started, and may still know an earlier life of it. *)
Record view_live (hi ht : Z) (f : bool) (c : Z) (n : node_info) : Prop := {
  vl_evil : ni_evil_incarnation n < hi;
  vl_fresh : f = true -> ni_last_seen n <> ht;
  vl_inc : 0 <= c -> ni_incarnation n = 0 \/ ni_incarnation n = hi;
  vl_seen : 0 <= c -> state_run (ni_state n) = true \/ c <= ni_seen n
}.

(** The cases of [check_transitions]. *)
Inductive trans_case (cf : qd_conf) (n : node_info) (sb := ni_status n) : node_info -> Prop :=
  | t_reset : (1 <= ni_state n /\ ps_state sb <= 1) \/ (ni_incarnation n <> 0 /\ ni_incarnation n <> ps_incarnation sb) ->
      trans_case cf n (ni_set n 0 (if ps_state sb =? S_EVICT then ni_evil_incarnation n else 0) 0 0 S_NONE sb)
  | t_down seen : ps_state sb >= 2 -> qc_tko cf < ni_misses n -> (seen = 0 \/ seen = ni_seen n) ->
      ni_incarnation n = 0 \/ ni_incarnation n = ps_incarnation sb ->
      trans_case cf n (ni_set n (ni_incarnation n) (ni_incarnation n) (ni_misses n) seen S_EVICT (sb_set_state sb S_EVICT))
  | t_undead : ni_evil_incarnation n <> 0 -> ni_evil_incarnation n = ps_incarnation sb ->
      (ni_state n < 1 \/ 1 < ps_state sb) ->
      trans_case cf n (ni_set n (ni_incarnation n) (ni_evil_incarnation n) (ni_misses n) (ni_seen n) (ni_state n)
                         (sb_set_state sb S_EVICT))
  | t_up : qc_tko_up cf < ni_seen n -> ni_state n < 2 -> (ni_state n < 1 \/ 1 < ps_state sb) ->
      trans_case cf n (ni_set n (ps_incarnation sb) 0 (ni_misses n) (ni_seen n) S_RUN sb)
  | t_changed : 2 <= ni_state n -> ni_incarnation n = 0 ->
      trans_case cf n (ni_set n (ps_incarnation sb) 0 (ni_misses n) (ni_seen n) (ni_state n) sb)
  | t_believe : 2 <= ni_state n -> 2 <= ps_state sb -> ni_incarnation n = 0 \/ ni_incarnation n = ps_incarnation sb ->
      trans_case cf n (ni_set n (ni_incarnation n) (ni_evil_incarnation n) (ni_misses n) (ni_seen n) (ps_state sb) sb)
  | t_none : ni_state n < 2 -> ni_seen n <= qc_tko_up cf -> (ni_state n < 1 \/ 1 < ps_state sb) ->
      ni_incarnation n = 0 \/ ni_incarnation n = ps_incarnation sb ->
      trans_case cf n n.

Ltac next_if E := match goal with |- trans_case _ _ (if ?b then _ else _).1 => destruct b eqn:E end.

Lemma transition_cases cf n : trans_case cf n (transition cf n).1.
Proof.
  unfold transition, state_run, c_true, S_INIT, S_RUN, S_EVICT.
  next_if E1; [apply t_reset; zbool; lia|].
  assert (ni_incarnation n = 0 \/ ni_incarnation n = ps_incarnation (ni_status n)) as Hinc by (zbool; lia).
  assert (ni_state n < 1 \/ 1 < ps_state (ni_status n)) as Hst by (zbool; lia).
  next_if E2; [apply t_down; zbool; try done; [lia..|]; case_match; auto|].
  next_if E3; [apply t_undead; zbool; [lia..|done]|].
  next_if E4; [apply t_up; zbool; [lia..|done]|].
  next_if E5; [zbool; rewrite <- H0; apply t_believe; unfold S_MASTER in *; [lia..|done]|].
  next_if E6; [apply t_changed; zbool; lia|].
  next_if E7; [apply t_believe; zbool; [lia..|done]|].
  cbn [fst]. apply t_none; zbool; [lia|destruct E4; zbool; done || lia|done..].
Qed.

(** The three ways to read the block of another node. *)
Lemma seen_block_cases cf n sb (n' := seen_block cf n sb) :
  ps_nodeid sb <> qc_my_id cf ->
  ni_state n' = ni_state n /\ ni_incarnation n' = ni_incarnation n /\
  ni_evil_incarnation n' = ni_evil_incarnation n /\ ni_status n' = sb /\
  ((ps_state sb < 2 /\ ni_misses n' = ni_misses n /\ ni_seen n' = ni_seen n /\ ni_last_seen n' = ni_last_seen n) \/
   (2 <= ps_state sb /\ ps_timestamp sb = ni_last_seen n /\
    ni_misses n' = ni_misses n + 1 /\ ni_seen n' = ni_seen n /\ ni_last_seen n' = ni_last_seen n) \/
   (2 <= ps_state sb /\ ps_timestamp sb <> ni_last_seen n /\
    ni_misses n' = 0 /\ ni_seen n' = ni_seen n + 1 /\ ni_last_seen n' = ps_timestamp sb)).
Proof.
  intros Hid. subst n'. unfold seen_block, read_node_block. rewrite (proj2 (Z.eqb_neq _ _) Hid).
  unfold state_run, S_INIT. destruct (ps_state sb >=? 2) eqn:E; cbn [negb]; zbool.
  - destruct (_ =? _) eqn:E2; zbool; cbn; split_and!; try done; auto with lia.
  - cbn; split_and!; try done. left; split_and!; done || lia.
Qed.

Lemma next_view_ok cf hi ht n sb :
  0 <= hi -> 0 <= qc_tko_up cf -> ps_nodeid sb <> qc_my_id cf -> block_ok hi ht sb ->
  view_ok cf hi (state_run (ps_state sb)) n -> view_ok cf hi (state_run (ps_state sb)) (next_view cf n sb).
Proof.
  intros Hh Hu Hid [Hs Hb] [V1 V2 V4 V5 V6 V7 V8]. unfold next_view.
  destruct (seen_block_cases cf n sb Hid) as (E1 & E2 & E3 & E4 & E5).
  set (n1 := seen_block cf n sb) in *. clearbody n1.
  unfold state_run, S_INIT, S_NONE in *. rewrite Z.geb_leb in *.
  assert (2 <= ps_state sb -> 0 < hi /\ ps_incarnation sb = hi) as Hb' by (intros; destruct Hb as (? & ? & _); lia).
  assert (0 <= ni_seen n1 /\ (ps_state sb < 2 -> ni_seen n1 = ni_seen n)) as [P2 P3] by lia.
  assert (2 <= ni_state n -> ni_incarnation n <> 0) as P4 by (intros; apply V5; lia).
  clear E5 Hb V5 V7.
  destruct (transition_cases cf n1); rewrite ?E4 in *; unfold ni_set; split; cbn;
    unfold S_NONE, S_EVICT, S_RUN, state_run, S_INIT; try rewrite Z.geb_leb; try zcase; lia.
Qed.

Lemma evictable_false cf n :
  (ni_misses n <= qc_tko cf \/ ps_state (ni_status n) < 2) -> ni_evil_incarnation n <> ps_incarnation (ni_status n) ->
  evictable cf n = false.
Proof.
  intros Hm He. unfold evictable, c_true. apply andb_false_iff. right. apply orb_false_iff. split.
  - apply andb_false_iff. unfold state_run, S_INIT. rewrite Z.gtb_ltb, Z.geb_leb. lia.
  - apply andb_false_iff. left. apply andb_false_iff. right. by apply Z.eqb_neq.
Qed.

(** Reading a block that says its node runs, of a live node that has written. *)
Lemma next_view_running cf hi c n sb :
  0 < hi -> 0 <= qc_tko cf -> 0 <= qc_tko_up cf -> -1 <= c -> ps_nodeid sb <> qc_my_id cf -> 2 <= ps_state sb ->
  ps_incarnation sb = hi -> view_ok cf hi true n -> view_live hi (ps_timestamp sb) true c n ->
  view_live hi (ps_timestamp sb) false (c + 1) (next_view cf n sb) /\ evictable cf (seen_block cf n sb) = false /\
  ni_status (next_view cf n sb) = sb /\
  (qc_tko_up cf + 1 <= c + 1 -> ni_state (next_view cf n sb) = S_RUN \/ ni_state (next_view cf n sb) = ps_state sb).
Proof.
  intros Hh Ht Hu Hc Hid Hs Hi [V1 V2 V4 V5 V6 V7 V8] [L1 L2 L5 L6]. unfold next_view. specialize (L2 eq_refl).
  destruct (seen_block_cases cf n sb Hid) as (E1 & E2 & E3 & E4 & E5).
  set (n1 := seen_block cf n sb) in *. clearbody n1.
  assert (ni_misses n1 = 0) as P2 by lia.
  assert (1 <= ni_seen n1 /\ (0 <= c -> 2 <= ni_state n \/ c + 1 <= ni_seen n1)) as [P3 P4].
  { unfold state_run, S_INIT in L6. rewrite Z.geb_leb in L6. lia. }
  assert (evictable cf n1 = false) as Hev by (apply evictable_false; rewrite ?E4; lia).
  assert (2 <= ni_state n -> ni_incarnation n <> 0) as P5.
  { intros. apply V5. unfold state_run, S_INIT. rewrite Z.geb_leb. lia. }
  clear L6 E5 L2 V4 V5 V8.
  destruct (transition_cases cf n1); rewrite ?E4 in *; try lia; unfold ni_set;
    (split; [split|split_and!]); cbn; unfold state_run, S_INIT, S_NONE, S_RUN, S_EVICT;
    rewrite ?Z.geb_leb; try zcase; try done; try lia.
Qed.

(** Reading the block of a live node that has written: it is seen again, and it is not
    evicted. *)
Lemma next_view_live cf hi ht c n sb (rb := state_run (ps_state sb)) (c' := if rb then c + 1 else 0) :
  0 < hi -> 0 <= qc_tko cf -> 0 <= qc_tko_up cf -> -1 <= c -> ps_nodeid sb <> qc_my_id cf ->
  block_ok hi ht sb -> ps_incarnation sb = hi ->
  view_ok cf hi rb n -> view_live hi ht true c n ->
  view_live hi ht false c' (next_view cf n sb) /\ evictable cf (seen_block cf n sb) = false /\
  ni_status (next_view cf n sb) = sb /\
  (qc_tko_up cf + 1 <= c' -> state_run (ni_state (next_view cf n sb)) = true /\
     (ps_state sb = S_MASTER -> S_RUN <= ni_state (next_view cf n sb))).
Proof.
  intros Hh Ht Hu Hc Hid [Hs Hb] Hi V L. subst c'.
  assert (rb = true <-> 2 <= ps_state sb) as Hrb by (unfold rb, state_run; rewrite Z.geb_leb, Z.leb_le; done).
  destruct rb eqn:Er.
  { destruct (Hb Er) as (_ & _ & Et). rewrite <- Et in *.
    destruct (next_view_running cf hi c n sb) as (A & B & C & D); try done; [by apply Hrb|].
    split_and!; try done. intros H. specialize (D H). unfold state_run, S_RUN, S_INIT, S_MASTER in *.
    rewrite Z.geb_leb, Z.leb_le. lia. }
  assert (ps_state sb < 2) as Hlt by (destruct (Z.lt_ge_cases (ps_state sb) 2); [done|]; by apply Hrb in H).
  destruct V as [V1 V2 V4 V5 V6 V7 V8], L as [L1 L2 L5 L6]. clear L5 L6 Hrb.
  destruct (seen_block_cases cf n sb Hid) as (E1 & E2 & E3 & E4 & E5).
  unfold next_view. set (n1 := seen_block cf n sb) in *. clearbody n1.
  assert (evictable cf n1 = false) as Hev by (apply evictable_false; rewrite ?E4; lia).
  assert (ni_seen n1 = ni_seen n) as P1 by lia. clear E5 V5 V8 L2. unfold S_NONE in V4.
  destruct (transition_cases cf n1); rewrite ?E4 in *; try lia; unfold ni_set;
    (split; [split|split_and!]); cbn; try zcase; try done; lia.
Qed.

(** The time a node was last seen is that of a block that said it runs. *)
Lemma next_view_last cf n sb :
  ps_nodeid sb <> qc_my_id cf ->
  ni_last_seen (next_view cf n sb) = ni_last_seen n \/
  state_run (ps_state sb) = true /\ ni_last_seen (next_view cf n sb) = ps_timestamp sb.
Proof.
  intros Hid. unfold next_view, state_run, S_INIT. rewrite Z.geb_leb, Z.leb_le.
  destruct (seen_block_cases cf n sb Hid) as (_ & _ & _ & _ & E).
  set (n1 := seen_block cf n sb) in *. clearbody n1. destruct (transition_cases cf n1); unfold ni_set; cbn; lia.
Qed.

(** ** Counting votes and masters *)

Definition good_ids (ni : list node_info) : Prop := Forall (fun n => node_id (ps_nodeid (ni_status n))) ni.

Lemma s32_id i : node_id i -> s32 i = i.
Proof. unfold node_id, MAX_NODES_DISK. intros. unfold s32. apply swrap_small; unfold in_s; lia. Qed.

Lemma master_step_ret my r n : node_id my -> node_id (ps_nodeid (ni_status n)) -> ms_ret r <> 0 -> ms_ret (master_step my r n) <> 0.
Proof.
  intros Hm Hn Hr. unfold master_step. rewrite (s32_id _ Hn). repeat case_match; cbn; zbool; done.
Qed.

(** With no master found, no live node says that it is one. *)
Lemma no_master_found cf ni n :
  node_id (qc_my_id cf) -> good_ids ni -> ms_ret (master_exists cf ni) = 0 -> n ∈ ni ->
  ps_state (ni_status n) = S_MASTER -> S_RUN <= ni_state n -> ps_nodeid (ni_status n) = qc_my_id cf.
Proof.
  intros Hm Hg. unfold master_exists. generalize (mkMasters 0 (qc_my_id cf) 0) as r0.
  induction Hg as [|x ni Hx Hg IH]; intros r0 H0 Hin Hs Hst; [by apply not_elem_of_nil in Hin|].
  cbn in H0. apply elem_of_cons in Hin as [->|Hin]; [|by eapply IH].
  destruct (decide (ps_nodeid (ni_status x) = qc_my_id cf)) as [|Hne]; [done|]. exfalso.
  assert (ms_ret (master_step (qc_my_id cf) r0 x) <> 0) as Hr.
  { unfold master_step. rewrite Hs. rewrite (proj2 (Z.geb_le (ni_state x) S_RUN) Hst), Z.eqb_refl.
    rewrite (proj2 (Z.eqb_neq _ _) Hne). cbn. rewrite (s32_id _ Hx). unfold node_id in Hx. case_match; zbool; lia. }
  revert H0 Hr. generalize (master_step (qc_my_id cf) r0 x) as r. clear -Hm Hg.
  induction Hg as [|y ni Hy Hg IH]; intros r H0 Hr; [done|]. cbn in H0.
  eapply IH; [exact H0|]. by apply master_step_ret.
Qed.

(** The fields of the count, from any start. *)
Lemma vote_fold my ni r (r' := foldl (vote_step my) r ni) :
  vt_acks r' - vt_acks r <= vt_running r' - vt_running r /\
  (vt_acks r' - vt_acks r = vt_running r' - vt_running r -> forall n, n ∈ ni -> state_run (ni_state n) = true ->
     ps_msg (ni_status n) = M_ACK /\ ps_arg (ni_status n) = my).
Proof.
  subst r'. revert r. induction ni as [|x ni IH]; intros r; cbn [foldl].
  - split; [lia|]. intros _ n Hn. by apply not_elem_of_nil in Hn.
  - destruct (IH (vote_step my r x)) as [Hle Hall]. unfold vote_step in Hle, Hall |- *.
    destruct (state_run (ni_state x)) eqn:Er; cbn [negb] in *; [|split; [lia|]].
    + cbn [vt_acks vt_running] in *.
      destruct ((ps_msg (ni_status x) =? M_ACK) && (ps_arg (ni_status x) =? my)) eqn:Ea; cbn in *.
      * split; [lia|]. intros He n Hn Hr. apply elem_of_cons in Hn as [->|Hn]; [zbool; done|]. apply Hall; [lia|done..].
      * split; [lia|]. lia.
    + intros He n Hn Hr. apply elem_of_cons in Hn as [->|Hn]; [congruence|]. by apply Hall.
Qed.

Lemma check_votes_all cf ni msg n :
  (check_votes cf ni msg).1 = 3 -> n ∈ ni -> state_run (ni_state n) = true ->
  ps_msg (ni_status n) = M_ACK /\ ps_arg (ni_status n) = qc_my_id cf.
Proof.
  unfold check_votes. set (r0 := mkVotes _ _ _ _ _). intros H.
  destruct (vote_fold (qc_my_id cf) ni r0) as [_ Hall]. cbn in H.
  destruct (_ =? _) eqn:E in H; [zbool; apply Hall; cbn; lia|]. by destruct (c_true _) in H; [|destruct (negb _) in H].
Qed.

(** The vote of a bidder only changes for the bid of a lower node. *)
Lemma vote_fold_msg my ni r (r' := foldl (vote_step my) r ni) :
  good_ids ni -> vt_low r <= my ->
  vt_low r' <= vt_low r /\ (vt_msg r' = vt_msg r \/
    vt_low r' < my /\ m_msg (vt_msg r') = M_ACK /\ exists n, n ∈ ni /\ state_run (ni_state n) = true /\ ps_msg (ni_status n) = M_BID).
Proof.
  subst r'. intros Hg. revert r. induction Hg as [|x ni Hx Hg IH]; intros r Hl; cbn [foldl]; [split; [lia|by left]|].
  assert (vote_step my r x = r \/ (vt_low (vote_step my r x) = vt_low r /\ vt_msg (vote_step my r x) = vt_msg r) \/
    (vt_low (vote_step my r x) < vt_low r /\ m_msg (vt_msg (vote_step my r x)) = M_ACK /\
     state_run (ni_state x) = true /\ ps_msg (ni_status x) = M_BID)) as Hx'.
  { unfold vote_step. rewrite (s32_id _ Hx). destruct (state_run (ni_state x)) eqn:Er; cbn [negb]; [right|by left].
    cbn. destruct ((ps_msg (ni_status x) =? M_BID) && _) eqn:El; zbool; [right|by left]. by split_and!. }
  destruct (IH (vote_step my r x)) as [Hle Hm]; [destruct Hx' as [->|[[]|[]]]; lia|].
  split; [destruct Hx' as [Hx'|[[]|[]]]; [rewrite Hx' in *|..]; lia|].
  destruct Hm as [Hm|(Hlt & Hack & n & Hn & Hr)].
  - rewrite Hm. destruct Hx' as [->|[[_ Hx']|(? & ? & ? & ?)]]; [by left|by left|right].
    split_and!; [lia|done|]. exists x. split; [set_solver|done].
  - right. split_and!; [done..|]. exists n. split; [set_solver|done].
Qed.

(** ** The place of a node in the election *)

(** [r] is the number of turns in a row that the node has run. *)
Record core_inv (cf : qd_conf) (r : Z) (c : core) : Prop := {
  ci_status : c_status c = S_NONE \/ c_status c = S_RUN \/ c_status c = S_MASTER;
  ci_upgrade : 0 <= c_upgrade c;
  ci_bid : 0 <= c_bid c;
  ci_run : c_status c = S_RUN -> 1 + qc_upgrade_wait cf - c_upgrade c <= r;
  ci_bidding : 0 < c_bid c -> c_status c = S_RUN /\ qc_upgrade_wait cf + c_bid c <= r;
  ci_master : c_status c = S_MASTER -> qc_upgrade_wait cf + qc_master_wait cf <= r;
  ci_ack : m_msg (c_msg c) = M_ACK -> c_bid c = 0;
  ci_msg : 0 <= m_msg (c_msg c) <= M_NACK
}.

(** The first two parts of a turn; the turn itself counts, so [r] is one more when the
    node still runs. *)
Definition core_mid (cf : qd_conf) (r : Z) (c : core) : Prop :=
  (c_status c = S_NONE \/ c_status c = S_RUN \/ c_status c = S_MASTER) /\ 0 <= c_upgrade c /\ 0 <= c_bid c /\
  (c_status c = S_RUN -> qc_upgrade_wait cf - c_upgrade c <= r) /\
  (0 < c_bid c -> c_status c = S_RUN /\ qc_upgrade_wait cf + c_bid c <= r) /\
  (c_status c = S_MASTER -> qc_upgrade_wait cf + qc_master_wait cf <= r) /\
  (m_msg (c_msg c) = M_ACK -> c_bid c = 0) /\ 0 <= m_msg (c_msg c) <= M_NACK.

Lemma core_mid_ok cf enough ms r c :
  1 <= qc_upgrade_wait cf -> 0 <= r -> core_inv cf r c ->
  core_mid cf r (core_conflict cf ms (core_score cf enough (core_tick c))) /\
  c_bid (core_conflict cf ms (core_score cf enough (core_tick c))) <= c_bid c /\
  (c_status (core_conflict cf ms (core_score cf enough (core_tick c))) = S_MASTER -> c_status c = S_MASTER).
Proof.
  intros Hu Hr [C1 C2 C3 C4 C5 C6 C7 C8]. unfold core_mid, core_conflict, core_score, core_tick, core_none.
  unfold S_NONE, S_RUN, S_MASTER, M_NONE, M_ACK, M_NACK in *. cbn.
  destruct enough; repeat (zcase; cbn in * ); split_and!; intros; cbn in *; zbool; try done; lia.
Qed.

(** A vote for another node ends the own bid, and with all votes nobody else bids. *)
Lemma check_votes_ack cf ni msg :
  good_ids ni -> m_msg msg <> M_ACK ->
  m_msg (check_votes cf ni msg).2 = M_ACK -> (check_votes cf ni msg).1 = 1 \/ (check_votes cf ni msg).1 = 2.
Proof.
  intros Hg Hm Ha. pose proof (check_votes_all cf ni msg) as Hall. revert Ha Hall.
  unfold check_votes. set (r0 := mkVotes _ _ _ _ _).
  destruct (vote_fold_msg (qc_my_id cf) ni r0 Hg) as [Hl Hmsg]; [cbn; lia|].
  cbn [fst snd]. intros Ha Hall. destruct Hmsg as [E|(Hlt & _ & n & Hn & Hrun & Hbid)]; [by rewrite E in Ha|].
  destruct (_ =? _) eqn:E3; [|destruct (c_true _); [by right|]; rewrite (proj2 (Z.eqb_neq _ _)); [by left|lia]].
  destruct (Hall n eq_refl Hn Hrun) as [Hack _]. rewrite Hbid in Hack. discriminate.
Qed.

Lemma check_votes_msg cf ni msg :
  good_ids ni -> (check_votes cf ni msg).2 = msg \/ m_msg (check_votes cf ni msg).2 = M_ACK.
Proof.
  intros Hg. unfold check_votes. cbn [snd]. set (r0 := mkVotes _ _ _ _ _).
  destruct (vote_fold_msg (qc_my_id cf) ni r0 Hg) as [_ [->|(_ & H & _)]]; cbn; auto. lia.
Qed.

Lemma do_vote_msg cf ni msg : do_vote cf ni msg = msg \/ m_msg (do_vote cf ni msg) = M_ACK.
Proof. unfold do_vote. destruct (List.find _ ni); [by right|by left]. Qed.

Ltac core_case := unfold S_RUN, S_NONE, S_MASTER, M_NONE, M_BID, M_ACK, M_NACK in *; lia.

Lemma core_elect_ok cf ni ms r c (c' := core_elect cf ni ms c) :
  good_ids ni -> 0 <= r -> core_mid cf r c ->
  core_inv cf (if c_status c' =? S_NONE then 0 else r + 1) c' /\ c_bid c' <= c_bid c + 1 /\
  (c_status c' = S_MASTER -> c_status c = S_MASTER \/
     ms_ret ms = 0 /\ qc_master_wait cf <= c_bid c + 1 /\ exists msg, (check_votes cf ni msg).1 = 3).
Proof.
  intros Hg Hr (C1 & C2 & C3 & C4 & C5 & C6 & C7 & C8). subst c'. unfold core_elect. cbv zeta.
  destruct (negb (ms_ret ms =? 0)) eqn:Em; [|destruct (_ && _ && _ && _) eqn:Eb].
  - split_and!; [|lia|by left]. split; try done; zcase; core_case.
  - zbool. split_and!; cbn; [|lia|by left]. split; cbn; try done; try lia; zcase; core_case.
  - destruct (c_bid c =? 0) eqn:E0.
    + zbool. assert (0 <= m_msg (do_vote cf ni (c_msg c)) <= M_NACK) as Hd
        by (destruct (do_vote_msg cf ni (c_msg c)) as [->| ->]; done).
      split_and!; cbn; [|lia|by left].
      split; cbn; try done; zcase; core_case.
    + zbool. destruct C5 as [C5 C5']; [lia|].
      pose proof (check_votes_ack cf ni (c_msg c) Hg) as Hack.
      assert (0 <= m_msg (check_votes cf ni (c_msg c)).2 <= M_NACK) as Hd
        by (destruct (check_votes_msg cf ni (c_msg c) Hg) as [->| ->]; done).
      assert (forall v msg, check_votes cf ni (c_msg c) = (v, msg) -> v = 3 -> exists m, (check_votes cf ni m).1 = 3) as H3.
      { intros v msg E ->. exists (c_msg c). by rewrite E. }
      destruct (check_votes cf ni (c_msg c)) as [v msg] eqn:Ev. cbn [fst snd] in Hack, Hd. specialize (H3 v msg eq_refl).
      assert (m_msg msg = M_ACK -> v = 1 \/ v = 2) as Hack' by (intros; apply Hack; [|done]; intros Hx; apply C7 in Hx; lia).
      destruct (v =? 3) eqn:E3; zbool.
      { destruct (_ <? _) eqn:Ew; zbool.
        - split_and!; cbn; [|lia|by left]. split; cbn; try done; try lia; zcase; core_case.
        - split_and!; cbn; [|lia|right]. split; cbn; try done; try lia; core_case.
          split_and!; [done|lia|auto]. }
      destruct (v =? 2) eqn:E2; zbool.
      * split_and!; cbn; [|lia|by left]. split; cbn; try done; try lia; zcase; core_case.
      * split_and!; cbn; [|zcase; lia|by left].
        split; cbn; try done; repeat zcase; core_case.
Qed.

Lemma next_core_ok cf enough ni r c (c' := next_core cf enough ni c) :
  good_ids ni -> 1 <= qc_upgrade_wait cf -> 0 <= r -> core_inv cf r c ->
  core_inv cf (if c_status c' =? S_NONE then 0 else r + 1) c' /\ c_bid c' <= c_bid c + 1 /\
  (c_status c' = S_MASTER -> c_status c = S_MASTER \/
     ms_ret (master_exists cf ni) = 0 /\ qc_master_wait cf <= c_bid c + 1 /\ exists msg, (check_votes cf ni msg).1 = 3).
Proof.
  intros Hg Hu Hr Hc. subst c'. unfold next_core. set (ms := master_exists cf ni).
  destruct (core_mid_ok cf enough ms r c Hu Hr Hc) as (Hmid & Hb & Hms).
  destruct (core_elect_ok cf ni ms r _ Hg Hr Hmid) as (A & B & C).
  split_and!; [done|lia|]. intros H. destruct (C H) as [|(? & ? & ?)]; [left; auto|right; split_and!; [done|lia|done]].
Qed.
