(* ===== verification/QDiskElect.v ===== *)
(** * The election of the quorum disk master

    The nodes run [quorum_init] and the turns of [quorum_loop] over one disk, in any
    order, and a turn is not atomic: what a node decides from the blocks it has read is
    written later, and others read and write in between.  Nodes start, crash, leave and
    start again at any time, and their scores come and go.

    The nodes keep step: none reads again before every other live node has written since.
    When every node bids for longer than it takes it to see another, there is never more
    than one master ([elects_one]). *)

From stdpp Require Import functions.
From S2P Require Import Prelude QDisk QDiskThm QDiskViews.
Open Scope Z_scope.

(** ** Nodes on a disk *)

Inductive phase := Initialising (left : nat) | Looping.

(** A running daemon; [p_pending] is the block it is about to write. *)
Record proc := mkProc {
  p_conf : qd_conf;
  p_ctx : qd_ctx;
  p_ni : list node_info;
  p_lp : loop;
  p_phase : phase;
  p_pending : option status_block
}.

(** [w_fresh i j]: node [j] has written since node [i] read.  [w_time] and [w_inc] are the
    time of the last block of a node and its last incarnation, [w_now] the latest time of
    anything so far, and [w_boot] that of the last start of a daemon. *)
Record world := mkWorld {
  w_disk : list status_block;
  w_proc : Z -> option proc;
  w_fresh : Z -> Z -> bool;
  w_time : Z -> Z;
  w_inc : Z -> Z;
  w_now : Z;
  w_boot : Z
}.

Definition put_block (i : Z) (sb : status_block) (d : list status_block) : list status_block :=
  <[Z.to_nat (i - 1) := sb]> d.

(** Everybody has something new to read from [i]. *)
Definition wrote (i : Z) (f : Z -> Z -> bool) : Z -> Z -> bool := fun x y => (y =? i) || f x y.

(** [i] has read everything. *)
Definition has_read (i : Z) (f : Z -> Z -> bool) : Z -> Z -> bool := fun x y => negb (x =? i) && f x y.

(** A node that starts has everything to read. *)
Definition started (i : Z) (f : Z -> Z -> bool) : Z -> Z -> bool := fun x y => (x =? i) || (y =? i) || f x y.

Definition keeps_step (w : world) (i : Z) : Prop :=
  forall j q, j <> i -> w_proc w j = Some q -> w_fresh w i j = true.

Definition ctx_start : qd_ctx := mkCtx 0 (replicate 60 (0, 0)) (0, 0) S_INIT 0.

Definition with_status (c : qd_ctx) (st : Z) : qd_ctx :=
  mkCtx (qc_writes c) (qc_last c) (qc_average c) st (qc_master c).

(** The configuration of a node: a node bids for longer than it needs to see another. *)
Record good_conf (cf : qd_conf) : Prop := {
  gc_tko : 1 <= qc_tko cf;
  gc_up : 1 <= qc_tko_up cf;
  gc_upgrade : 1 <= qc_upgrade_wait cf;
  gc_wait : qc_tko_up cf < qc_master_wait cf;
  gc_inc : 0 < qc_incarnation cf
}.

(** What the election depends on; a configuration that is read again leaves it alone. *)
Definition timings (cf : qd_conf) : list Z :=
  [qc_incarnation cf; qc_my_id cf; qc_tko cf; qc_tko_up cf; qc_upgrade_wait cf; qc_master_wait cf].

(** The times a turn or a logout may have: later than the node's last block, not in the
    past, and not in the second in which a daemon has started. *)
Definition tick (w : world) (i now : Z) : Prop := w_time w i < now /\ w_boot w < now /\ w_now w <= now.

(** [ok] are the configurations a daemon starts with, [reread] those it changes to. *)
Section election.
Context (ok : qd_conf -> Prop) (reread : qd_conf -> qd_conf -> Prop).

Inductive step (w : world) : world -> Prop :=
  | step_start (i : Z) (cf : qd_conf) (t now : Z) (tape : nat -> write_env) (m mm : memb_mask) (s : qstate)
      (sb : status_block) :
      node_id i -> w_proc w i = None -> qc_my_id cf = i -> ok cf ->
      w_inc w i < qc_incarnation cf -> w_now w < t <= now -> tape_ok now (mkQ ctx_start tape []) ->
      qd_write_status cf i S_INIT None None None (mkQ ctx_start tape []) = (0, s) ->
      own_block i (q_out s) = Some sb ->
      step w (mkWorld (put_block i sb (w_disk w))
        (<[i := Some (mkProc cf (q_ctx s) (node_info_init t MAX_NODES_DISK) (loop_start m mm)
                        (Initialising (Z.to_nat (qc_tko cf))) None)]> (w_proc w))
        (started i (w_fresh w)) (<[i := now]> (w_time w)) (<[i := qc_incarnation cf]> (w_inc w)) now now)
  | step_init (i : Z) (p : proc) (n : nat) (now : Z) (tape : nat -> write_env) (ni : list node_info) (s : qstate) :
      w_proc w i = Some p -> p_phase p = Initialising (S n) -> p_pending p = None -> keeps_step w i ->
      tick w i now -> tape_ok now (mkQ (p_ctx p) tape []) ->
      init_turn (p_conf p) (map Some (w_disk w)) (p_ni p) (mkQ (p_ctx p) tape []) = ((ni, 0), s) ->
      step w (mkWorld (notices i (q_out s) (w_disk w))
        (<[i := Some (mkProc (p_conf p) (q_ctx s) ni (p_lp p) (Initialising n) (own_block i (q_out s)))]> (w_proc w))
        (has_read i (w_fresh w)) (w_time w) (w_inc w) now (w_boot w))
  | step_enter (i : Z) (p : proc) (m mm : memb_mask) :
      w_proc w i = Some p -> p_phase p = Initialising 0 -> p_pending p = None ->
      step w (mkWorld (w_disk w)
        (<[i := Some (mkProc (p_conf p) (with_status (p_ctx p) S_NONE) (p_ni p) (loop_start m mm) Looping None)]>
           (w_proc w)) (w_fresh w) (w_time w) (w_inc w) (w_now w) (w_boot w))
  | step_turn (i : Z) (p : proc) (v : cycle_env) (now : Z) (tape : nat -> write_env)
      (r : option (list node_info * loop)) (s : qstate) :
      w_proc w i = Some p -> p_phase p = Looping -> p_pending p = None -> keeps_step w i ->
      tick w i now -> tape_ok now (mkQ (p_ctx p) tape []) -> cy_reads v = map Some (w_disk w) ->
      quorum_cycle (p_conf p) v (p_ni p) (p_lp p) (mkQ (p_ctx p) tape []) = (r, s) ->
      step w (mkWorld (notices i (q_out s) (w_disk w))
        (<[i := match r with
                | Some (ni, lp) => Some (mkProc (p_conf p) (q_ctx s) ni lp Looping (own_block i (q_out s)))
                | None => None
                end]> (w_proc w))
        (has_read i (w_fresh w)) (w_time w) (w_inc w) now (w_boot w))
  | step_write (i : Z) (p : proc) (sb : status_block) :
      w_proc w i = Some p -> p_pending p = Some sb ->
      step w (mkWorld (put_block i sb (w_disk w))
        (<[i := Some (mkProc (p_conf p) (p_ctx p) (p_ni p) (p_lp p) (p_phase p) None)]> (w_proc w))
        (wrote i (w_fresh w)) (<[i := ps_timestamp sb]> (w_time w)) (w_inc w) (w_now w) (w_boot w))
  | step_leave (i : Z) (p : proc) (now : Z) (tape : nat -> write_env) (s : qstate) (sb : status_block) :
      w_proc w i = Some p -> p_pending p = None -> tick w i now -> tape_ok now (mkQ (p_ctx p) tape []) ->
      quorum_logout (p_conf p) (mkQ (p_ctx p) tape []) = (0, s) -> own_block i (q_out s) = Some sb ->
      step w (mkWorld (put_block i sb (w_disk w)) (<[i := None]> (w_proc w)) (wrote i (w_fresh w))
        (<[i := now]> (w_time w)) (w_inc w) now (w_boot w))
  | step_reconf (i : Z) (p : proc) (cf : qd_conf) :
      w_proc w i = Some p -> reread (p_conf p) cf ->
      step w (mkWorld (w_disk w)
        (<[i := Some (mkProc cf (p_ctx p) (p_ni p) (p_lp p) (p_phase p) (p_pending p))]> (w_proc w))
        (w_fresh w) (w_time w) (w_inc w) (w_now w) (w_boot w))
  | step_crash (i : Z) (p : proc) :
      w_proc w i = Some p ->
      step w (mkWorld (w_disk w) (<[i := None]> (w_proc w)) (w_fresh w) (w_time w) (w_inc w) (w_now w) (w_boot w)).

(** A disk that nobody has used: every block has its node's id and says that the node is
    not there.  The rest of a block does not matter; [qdisk_init] does not set all of it. *)
Definition fresh_disk (d : list status_block) : Prop :=
  Z.of_nat (length d) = MAX_NODES_DISK /\
  forall (k : nat) sb, d !! k = Some sb -> ps_nodeid sb = Z.of_nat k + 1 /\ ps_state sb = S_NONE.

(** The block of a node that [qdisk_init] writes; [junk] is what the stack had. *)
Definition init_block (junk : status_block) (t nid : Z) : status_block :=
  mkSb STATE_MAGIC_NUMBER 0 t nid S_NONE 0 0 0 (0, 0) (0, snd (ps_lc junk)) (ps_incarnation junk) (ps_msg junk)
    (ps_seq junk) (ps_arg junk) (ps_mask junk) (ps_master_mask junk).

Definition qdisk_init (junk : status_block) (t : Z) : list status_block :=
  map (init_block junk t) (seqZ 1 MAX_NODES_DISK).

Lemma qdisk_init_fresh junk t : fresh_disk (qdisk_init junk t).
Proof.
  unfold qdisk_init. split; [rewrite length_map, length_seqZ; done|]. intros k sb Hk.
  apply list_lookup_fmap_Some in Hk as (x & -> & Hx). apply lookup_seqZ in Hx as [-> _]. cbn. split; [lia|done].
Qed.

Definition world_start (d : list status_block) : world :=
  mkWorld d (fun _ => None) (fun _ _ => false) (fun _ => 0) (fun _ => 0) 0 0.

Definition reachable (w : world) : Prop := exists d, fresh_disk d /\ rtc step (world_start d) w.
End election.

(** A node that takes itself for the master, whether it has told so or not. *)
Definition is_master (w : world) (i : Z) : Prop :=
  exists p, w_proc w i = Some p /\ p_phase p = Looping /\ qc_status (p_ctx p) = S_MASTER.

(** ** The invariant *)

Definition blk (w : world) (i : Z) : status_block := default (sb_zero 0 0) (w_disk w !! Z.to_nat (i - 1)).
Definition ni0 : node_info := mkNi 0 0 0 0 0 (mkMsg 0 0 0) (mkMsg 0 0 0) 0 (sb_zero 0 0).
Definition view (p : proc) (j : Z) : node_info := default ni0 (p_ni p !! Z.to_nat (j - 1)).

Definition runs_block (sb : status_block) : bool := state_run (ps_state sb).
Definition p_core (p : proc) : core :=
  mkCore (qc_status (p_ctx p)) (lp_upgrade (p_lp p)) (lp_bid_pending (p_lp p)) (lp_msg (p_lp p)).

(** History: for how many turns in a row a node has run, counted from below zero while it
    initialises, and how often [i] has read while the block of [j] said that [j] runs, or
    -1 as long as [i] has not read since [j] started. *)
Record history := mkHist { g_prog : Z -> Z; g_cnt : Z -> Z -> Z }.

Definition pend (p : proc) : Z := match p_pending p with None => 0 | Some _ => 1 end.

Record disk_inv (w : world) : Prop := {
  di_len : Z.of_nat (length (w_disk w)) = MAX_NODES_DISK;
  di_id : forall j, node_id j -> ps_nodeid (blk w j) = j;
  di_block : forall j, node_id j -> block_ok (w_inc w j) (w_time w j) (blk w j);
  di_inc : forall j, 0 <= w_inc w j;
  di_time : forall j, w_time w j <= w_now w;
  di_boot : w_boot w <= w_now w
}.

Definition silent (n : node_info) : Prop :=
  ni_state n = S_NONE /\ ni_incarnation n = 0 /\ ni_evil_incarnation n = 0 /\ ni_misses n = 0 /\ ni_seen n = 0.

Record proc_inv (w : world) (g : history) (i : Z) (p : proc) : Prop := {
  pi_id : node_id i;
  pi_my_id : qc_my_id (p_conf p) = i;
  pi_conf : good_conf (p_conf p);
  pi_len : length (p_ni p) = length (w_disk w);
  pi_inc : qc_incarnation (p_conf p) = w_inc w i;
  pi_self : silent (view p i);
  pi_views : forall j, node_id j -> j <> i -> view_ok (p_conf p) (w_inc w j) (runs_block (blk w j)) (view p j);
  pi_last : forall j, node_id j -> j <> i -> ni_last_seen (view p j) <= Z.max (w_time w j) (w_boot w);
  pi_core : match p_phase p with
            | Looping => 0 <= g_prog g i /\ core_inv (p_conf p) (g_prog g i) (p_core p)
            | Initialising n => g_prog g i = - Z.of_nat n /\ c_status (p_core p) = S_INIT /\ c_bid (p_core p) = 0
            end;
  pi_block_inc : ps_incarnation (blk w i) = w_inc w i;
  pi_block_run : runs_block (blk w i) = false -> g_prog g i <= pend p;
  pi_block_ack : ps_msg (blk w i) = M_ACK -> c_bid (p_core p) <= pend p;
  pi_block_master : p_phase p = Looping -> c_status (p_core p) = S_MASTER ->
    ps_state (blk w i) = S_MASTER \/ ps_msg (blk w i) <> M_ACK;
  pi_pending : forall sb, p_pending p = Some sb ->
    ps_nodeid sb = i /\ ps_incarnation sb = w_inc w i /\ w_time w i < ps_timestamp sb <= w_now w /\ 0 <= ps_state sb /\
    (p_phase p = Looping -> ps_state sb = c_status (p_core p)) /\
    (ps_msg sb = M_ACK -> c_bid (p_core p) = 0) /\ (runs_block sb = false -> g_prog g i = 0)
}.

(** The node [i] has seen a master [j] for long enough to see it, should it win. *)
Definition in_sight (g : history) (i j : Z) (p : proc) : Prop :=
  qc_tko_up (p_conf p) + 1 <= g_cnt g i j + qc_master_wait (p_conf p) - c_bid (p_core p) \/
  g_prog g i - g_cnt g i j <= 1.

(** Two live nodes; the first reads the blocks of the second. *)
Record pair_inv (w : world) (g : history) (i j : Z) (p q : proc) : Prop := {
  pa_cnt : -1 <= g_cnt g i j;
  pa_view : view_live (w_inc w j) (w_time w j) (w_fresh w i j) (g_cnt g i j) (view p j);
  pa_pending : forall sb, p_pending q = Some sb -> ni_last_seen (view p j) <> ps_timestamp sb;
  pa_new : g_cnt g i j = -1 -> g_prog g j + Z.b2z (w_fresh w j i) + pend p <= 1;
  pa_lag : 1 <= g_cnt g i j \/ (g_cnt g i j = 0 /\ pend p = 0) \/
    g_prog g j + Z.b2z (w_fresh w j i) + pend p <= g_cnt g i j + 3;
  pa_diff : g_prog g i - g_cnt g i j <= 1 \/ g_prog g j - g_cnt g j i <= 1;
  pa_master : p_phase q = Looping -> c_status (p_core q) = S_MASTER ->
    c_status (p_core p) <> S_MASTER /\ in_sight g i j p
}.

Record world_inv (w : world) (g : history) : Prop := {
  wi_disk : disk_inv w;
  wi_proc : forall i p, w_proc w i = Some p -> proc_inv w g i p;
  wi_pair : forall i j p q, i <> j -> w_proc w i = Some p -> w_proc w j = Some q -> pair_inv w g i j p q
}.

(** *** Lookups *)

Lemma node_id_index i j : node_id i -> node_id j -> Z.to_nat (i - 1) = Z.to_nat (j - 1) -> i = j.
Proof. unfold node_id. lia. Qed.

Lemma blk_put_eq d pr f t n nw bt i sb :
  Z.of_nat (length d) = MAX_NODES_DISK -> node_id i -> blk (mkWorld (put_block i sb d) pr f t n nw bt) i = sb.
Proof.
  intros Hl Hi. unfold blk, put_block. cbn. rewrite list_lookup_insert_eq; [done|].
  unfold node_id, MAX_NODES_DISK in *. lia.
Qed.

Lemma blk_put_ne d pr f t n nw bt i j sb :
  node_id i -> node_id j -> i <> j ->
  blk (mkWorld (put_block i sb d) pr f t n nw bt) j = default (sb_zero 0 0) (d !! Z.to_nat (j - 1)).
Proof.
  intros Hi Hj Hne. unfold blk, put_block. cbn. rewrite list_lookup_insert_ne; [done|].
  intros E. by apply node_id_index in E.
Qed.

(** *** Reading *)

Definition new_views (w : world) (p : proc) : list node_info := zip_with (next_view (p_conf p)) (p_ni p) (w_disk w).

Section reading.
Context (w : world) (g : history) (i : Z) (p : proc).
Hypothesis (W : world_inv w g) (Hp : w_proc w i = Some p) (Hstep : keeps_step w i).

Let P : proc_inv w g i p := wi_proc w g W i p Hp.

Lemma index_lt j : node_id j -> (Z.to_nat (j - 1) < length (w_disk w))%nat.
Proof. intros Hj. pose proof (di_len w (wi_disk w g W)). unfold node_id in Hj. lia. Qed.

Lemma new_views_lookup j :
  node_id j -> new_views w p !! Z.to_nat (j - 1) = Some (next_view (p_conf p) (view p j) (blk w j)).
Proof.
  intros Hj. pose proof (index_lt j Hj) as Hl. unfold new_views, view, blk.
  destruct (lookup_lt_is_Some_2 (w_disk w) _ Hl) as [sb Hsb].
  rewrite <- (pi_len _ _ _ _ P) in Hl. destruct (lookup_lt_is_Some_2 (p_ni p) _ Hl) as [n Hn].
  rewrite lookup_zip_with, Hn, Hsb. done.
Qed.

Lemma self_quiet (cf : qd_conf) (n : node_info) (sb : status_block) :
  good_conf cf -> silent n -> ps_nodeid sb = qc_my_id cf ->
  silent (next_view cf n sb) /\ evictable cf (seen_block cf n sb) = false.
Proof.
  intros [] (H1 & H2 & H3 & H4 & H5) Hid. unfold next_view, seen_block, read_node_block, silent, evictable, transition.
  rewrite Hid, Z.eqb_refl. cbn. rewrite H1, H2, H3, H4, H5. cbn.
  assert ((0 >? qc_tko cf) = false) as -> by (rewrite Z.gtb_ltb; lia).
  assert ((0 >? qc_tko_up cf) = false) as -> by (rewrite Z.gtb_ltb; lia). cbn. by split_and!.
Qed.

(** Reading the block of another live node. *)
Lemma live_view j q (c' := if runs_block (blk w j) then g_cnt g i j + 1 else 0) :
  j <> i -> w_proc w j = Some q ->
  let n' := next_view (p_conf p) (view p j) (blk w j) in
  view_live (w_inc w j) (w_time w j) false c' n' /\
  evictable (p_conf p) (seen_block (p_conf p) (view p j) (blk w j)) = false /\ ni_status n' = blk w j /\
  (qc_tko_up (p_conf p) + 1 <= c' -> state_run (ni_state n') = true /\
     (ps_state (blk w j) = S_MASTER -> S_RUN <= ni_state n')).
Proof.
  intros Hj Hq n'. pose proof (wi_proc w g W j q Hq) as Pj.
  pose proof (wi_pair w g W i j p q (not_eq_sym Hj) Hp Hq) as [A1 A3 _ _ _ _ _].
  rewrite (Hstep j q Hj Hq) in A3. pose proof (pi_id _ _ _ _ Pj) as Hid.
  destruct (pi_conf _ _ _ _ P) as [G1 G2 _ _ _].
  apply next_view_live; try done; [|lia..| | | |].
  - rewrite <- (pi_inc _ _ _ _ Pj). by destruct (pi_conf _ _ _ _ Pj).
  - rewrite (di_id w (wi_disk w g W) j Hid), (pi_my_id _ _ _ _ P). done.
  - by apply (di_block w (wi_disk w g W)).
  - by apply (pi_block_inc _ _ _ _ Pj).
  - by apply (pi_views _ _ _ _ P).
Qed.

(** Notices go to nodes that are not there. *)
Lemma evicted_dead x :
  x ∈ evicted_ids (p_conf p) (zip_with (seen_block (p_conf p)) (p_ni p) (w_disk w)) ->
  node_id x /\ x <> i /\ w_proc w x = None.
Proof.
  unfold evicted_ids. rewrite list_elem_of_fmap. intros (n & -> & Hn).
  apply list_elem_of_In, filter_In in Hn as [Hn He]. apply list_elem_of_In, list_elem_of_lookup in Hn as [k Hk].
  apply lookup_zip_with_Some in Hk as (n0 & sb & -> & Hn0 & Hsb).
  assert (node_id (Z.of_nat k + 1)) as Hid.
  { apply lookup_lt_Some in Hsb. pose proof (di_len w (wi_disk w g W)). unfold node_id. lia. }
  assert (view p (Z.of_nat k + 1) = n0 /\ blk w (Z.of_nat k + 1) = sb) as [Ev Eb].
  { unfold view, blk. replace (Z.to_nat (Z.of_nat k + 1 - 1)) with k by lia. by rewrite Hn0, Hsb. }
  set (j := Z.of_nat k + 1) in *.
  assert (ps_nodeid sb = j) as Hj by (rewrite <- Eb; by apply (di_id w (wi_disk w g W))).
  assert (ni_status (seen_block (p_conf p) n0 sb) = sb) as Est.
  { unfold seen_block, read_node_block. by repeat case_match. }
  rewrite Est, Hj, s32_id by done. split; [done|].
  assert (j <> i) as Hne.
  { intros E. destruct (self_quiet (p_conf p) (view p i) sb) as [_ Hq].
    - apply (pi_conf _ _ _ _ P).
    - apply (pi_self _ _ _ _ P).
    - by rewrite Hj, E, (pi_my_id _ _ _ _ P).
    - rewrite <- E, Ev in Hq. congruence. }
  split; [done|]. destruct (w_proc w j) as [q|] eqn:Hq; [|done].
  destruct (live_view j q Hne Hq) as (_ & Hl & _). rewrite Ev, Eb in Hl. congruence.
Qed.
End reading.

(** *** Notices *)

Lemma notices_app me o1 o2 d : notices me (o1 ++ o2) d = notices me o2 (notices me o1 d).
Proof. apply foldl_app. Qed.

Lemma notices_no_writes me o d : no_writes o -> notices me o d = d.
Proof. intros H. revert d. induction H as [|e o He _ IH]; intros d; [done|]. cbn. destruct e; try discriminate He; apply IH. Qed.

Lemma own_block_no_writes me o x :
  no_writes o ->
  foldl (fun a e => match e with WriteBlock nid sb true => if nid =? me then Some sb else a | _ => a end) x o = x.
Proof. intros H. revert x. induction H as [|e o He _ IH]; intros x; [done|]. cbn. destruct e; try discriminate He; apply IH. Qed.

Lemma own_block_last me o sb o' : no_writes o' -> own_block me (o ++ WriteBlock me sb true :: o') = Some sb.
Proof. intros H. unfold own_block. rewrite foldl_app. cbn. rewrite Z.eqb_refl. by apply own_block_no_writes. Qed.

Lemma notices_last me o sb o' d : no_writes o' -> notices me (o ++ WriteBlock me sb true :: o') d = notices me o d.
Proof. intros H. rewrite notices_app. cbn. rewrite Z.eqb_refl. by apply notices_no_writes. Qed.

(** Every block is as before, or a notice for a node of the list. *)
Lemma notices_blocks ids me o d :
  Forall (notice_for ids) o -> Z.of_nat (length d) = MAX_NODES_DISK -> (forall x, x ∈ ids -> node_id x) ->
  length (notices me o d) = length d /\
  forall j, node_id j ->
    notices me o d !! Z.to_nat (j - 1) = d !! Z.to_nat (j - 1) \/
    j ∈ ids /\ exists sb, notices me o d !! Z.to_nat (j - 1) = Some sb /\ ps_state sb = S_EVICT /\ ps_nodeid sb = j.
Proof.
  intros Ho. revert d. induction Ho as [|e o He Ho IH]; intros d Hl Hids; [split; [done|by left]|].
  destruct (match e with WriteBlock nid sb true => if nid =? me then None else Some (nid, sb) | _ => None end)
    as [[nid sb]|] eqn:Ew.
  - assert (notices me (e :: o) d = notices me o (put_block nid sb d) /\ nid ∈ ids /\ ps_state sb = S_EVICT /\ ps_nodeid sb = nid)
      as (-> & Hn & Hst & Hid).
    { destruct e as [n' sb' [|]| | | | | |]; try discriminate. cbn in *. destruct (n' =? me); [discriminate|].
      simplify_eq. split_and!; [done|apply He..]. }
    destruct (IH (put_block nid sb d)) as [Hlen Hall]; [by unfold put_block; rewrite length_insert|done|].
    split; [rewrite Hlen; unfold put_block; by rewrite length_insert|].
    intros j Hj. destruct (Hall j Hj) as [E|E]; [|by right]. rewrite E. unfold put_block.
    destruct (decide (nid = j)) as [->|Hne].
    + right. split; [done|]. exists sb. split; [|done]. apply list_lookup_insert_eq.
      unfold node_id, MAX_NODES_DISK in *. lia.
    + left. apply list_lookup_insert_ne. intros E2. apply node_id_index in E2; auto.
  - assert (notices me (e :: o) d = notices me o d) as -> by (destruct e as [n' sb' [|]| | | | | |]; try done; cbn in *; by destruct (n' =? me)).
    by apply IH.
Qed.

(** *** After a read *)

Lemma pend_bound p : 0 <= pend p <= 1.
Proof. unfold pend. case_match; lia. Qed.

Lemma b2z_bound b : 0 <= Z.b2z b <= 1.
Proof. destruct b; cbn; lia. Qed.

Lemma view_ok_mono cf hi hi' (rb rb' : bool) n :
  view_ok cf hi rb n -> hi <= hi' ->
  (ni_evil_incarnation n < hi' \/ hi = hi' /\ (rb' = true -> rb = true)) -> view_ok cf hi' rb' n.
Proof.
  intros [V1 V2 V4 V5 V6 V7 V8] Hh Hb. split; try done; [lia..|]. intros Hn He.
  destruct Hb as [|[-> Hb]]; [lia|]. specialize (V8 Hn He). destruct rb'; [|done]. by rewrite Hb in V8.
Qed.

(** Blocks of live nodes stay; others may be replaced by a notice. *)
Definition dead_changes (w : world) (i : Z) (d : list status_block) : Prop :=
  length d = length (w_disk w) /\
  forall j, node_id j -> d !! Z.to_nat (j - 1) = w_disk w !! Z.to_nat (j - 1) \/
    j <> i /\ w_proc w j = None /\
    exists sb, d !! Z.to_nat (j - 1) = Some sb /\ ps_state sb = S_EVICT /\ ps_nodeid sb = j.

(** The turns in a row that a node has run, with the one it has decided on. *)
Definition prog_next (r : Z) (p' : proc) : Z :=
  match p_phase p' with
  | Looping => if c_status (p_core p') =? S_NONE then 0 else r + 1
  | Initialising _ => r + 1
  end.

Definition hist_read (w : world) (g : history) (i r : Z) : history :=
  mkHist (<[i := r]> (g_prog g))
    (fun x y => if x =? i then (if runs_block (blk w y) then g_cnt g i y + 1 else 0) else g_cnt g x y).

(** What a node that has read is like. *)
Record read_result (w : world) (p p' : proc) (now : Z) (sb : status_block) : Prop := {
  rr_conf : p_conf p' = p_conf p;
  rr_ni : p_ni p' = new_views w p;
  rr_pending : p_pending p' = Some sb;
  rr_id : ps_nodeid sb = qc_my_id (p_conf p);
  rr_inc : ps_incarnation sb = qc_incarnation (p_conf p);
  rr_time : ps_timestamp sb = now;
  rr_core :
    (p_phase p = Looping /\ p_phase p' = Looping /\ ps_state sb = u8 (c_status (p_core p')) /\
     ps_msg sb = u16 (m_msg (c_msg (p_core p'))) /\
     exists enough, p_core p' = next_core (p_conf p) enough (new_views w p) (p_core p)) \/
    (exists n, p_phase p = Initialising (S n) /\ p_phase p' = Initialising n /\ ps_state sb = S_INIT /\ ps_msg sb = 0 /\
     c_status (p_core p') = c_status (p_core p) /\ c_bid (p_core p') = c_bid (p_core p))
}.

Section after_read.
Context (w : world) (g : history) (i : Z) (p : proc) (now r : Z).
Hypothesis (W : world_inv w g) (Hp : w_proc w i = Some p) (Hstep : keeps_step w i) (Hpend : p_pending p = None).
Hypothesis (Hnow : tick w i now).
Context (d : list status_block).
Hypothesis (Hd : dead_changes w i d).

Let P : proc_inv w g i p := wi_proc w g W i p Hp.
Let after (op : option proc) : world :=
  mkWorld d (<[i := op]> (w_proc w)) (has_read i (w_fresh w)) (w_time w) (w_inc w) now (w_boot w).
Let g' : history := hist_read w g i r.

Lemma after_blk op j : node_id j -> (w_proc w j <> None \/ j = i) -> blk (after op) j = blk w j.
Proof.
  intros Hj Ha. unfold blk. cbn. destruct Hd as [_ Hall].
  destruct (Hall j Hj) as [->|(Hne & Hn & _)]; [done|]. by destruct Ha.
Qed.

Lemma after_runs op j : node_id j -> runs_block (blk (after op) j) = true -> runs_block (blk w j) = true.
Proof.
  intros Hj. unfold blk. cbn. destruct Hd as [_ Hall].
  destruct (Hall j Hj) as [->|(_ & _ & sb & -> & Hst & _)]; [done|]. cbn. unfold runs_block. by rewrite Hst.
Qed.

Lemma after_disk op : disk_inv (after op).
Proof.
  pose proof (wi_disk w g W) as [D1 D2 D3 D4 D5 D6]. destruct Hd as [Hl Hall], Hnow as (N1 & N2 & N3).
  split; cbn; [by rewrite Hl| | |done| |lia]; intros j; [intros Hj..|].
  - unfold blk. cbn. destruct (Hall j Hj) as [->|(_ & _ & sb & -> & _ & Hid)]; [by apply D2|done].
  - unfold blk. cbn. destruct (Hall j Hj) as [->|(_ & _ & sb & -> & Hst & Hid)]; [by apply D3|].
    split; cbn; rewrite Hst; [done|discriminate].
  - specialize (D5 j). lia.
Qed.

Lemma after_views op k q j :
  w_proc w k = Some q -> node_id j -> j <> k ->
  view_ok (p_conf q) (w_inc w j) (runs_block (blk (after op) j)) (view q j).
Proof.
  intros Hq Hj Hne. eapply view_ok_mono; [by apply (pi_views _ _ _ _ (wi_proc w g W k q Hq))|done..|].
  right. split; [done|]. by apply after_runs.
Qed.

Lemma after_other op k q : k <> i -> w_proc w k = Some q -> proc_inv (after op) g' k q.
Proof.
  intros Hk Hq. pose proof (wi_proc w g W k q Hq) as []. destruct Hnow as (N1 & N2 & N3).
  assert (blk (after op) k = blk w k) as Eb by (apply after_blk; [done|left; by rewrite Hq]).
  assert (g_prog g' k = g_prog g k) as Ep by (cbn; by rewrite fn_lookup_insert_ne).
  split; try done; rewrite ?Eb, ?Ep; try done.
  - cbn. destruct Hd as [-> _]. done.
  - intros j Hj Hne. by apply (after_views op k q j).
  - intros sb Hsb. destruct (pi_pending0 sb Hsb) as (? & ? & ? & ? & ? & ? & ?). cbn. split_and!; try done; lia.
Qed.

(** The pair of two other nodes. *)
Lemma after_pair_other op k k' q q' :
  k <> i -> k' <> i -> k <> k' -> w_proc w k = Some q -> w_proc w k' = Some q' -> pair_inv (after op) g' k k' q q'.
Proof.
  intros Hk Hk' Hne Hq Hq'. pose proof (wi_pair w g W k k' q q' Hne Hq Hq') as [].
  pose proof (wi_proc w g W k' q' Hq') as Pk.
  assert (blk (after op) k' = blk w k') as Eb by (apply after_blk; [apply (pi_id _ _ _ _ Pk)|left; by rewrite Hq']).
  assert (has_read i (w_fresh w) k' k = w_fresh w k' k) as Ef by (unfold has_read; by rewrite (proj2 (Z.eqb_neq _ _) Hk')).
  assert (has_read i (w_fresh w) k k' = w_fresh w k k') as Ef' by (unfold has_read; by rewrite (proj2 (Z.eqb_neq _ _) Hk)).
  assert (g_prog g' k = g_prog g k /\ g_prog g' k' = g_prog g k') as [E1 E2] by (cbn; by rewrite !fn_lookup_insert_ne).
  assert (g_cnt g' k k' = g_cnt g k k' /\ g_cnt g' k' k = g_cnt g k' k) as [E3 E4].
  { cbn. by rewrite (proj2 (Z.eqb_neq _ _) Hk), (proj2 (Z.eqb_neq _ _) Hk'). }
  split; unfold in_sight; cbn [after w_inc w_time w_fresh]; rewrite ?Eb, ?Ef, ?Ef', ?E1, ?E2, ?E3, ?E4; done.
Qed.

Context (p' : proc) (sb : status_block).
Hypothesis (R : read_result w p p' now sb) (Hr : r = prog_next (g_prog g i) p').

Lemma next_view_nodeid cf n b : ps_nodeid (ni_status (next_view cf n b)) = ps_nodeid b.
Proof.
  unfold next_view. assert (ni_status (seen_block cf n b) = b) as E.
  { unfold seen_block, read_node_block. by repeat case_match. }
  set (n1 := seen_block cf n b) in *. clearbody n1.
  destruct (transition_cases cf n1); cbn; rewrite ?E; try done; by destruct b.
Qed.

Lemma new_good_ids : good_ids (new_views w p).
Proof.
  pose proof (wi_disk w g W) as [D1 D2 D3 D4]. apply Forall_lookup. intros k n Hn.
  unfold new_views in Hn. apply lookup_zip_with_Some in Hn as (n0 & b & -> & Hn0 & Hb).
  rewrite next_view_nodeid. assert (node_id (Z.of_nat k + 1)) as Hid.
  { apply lookup_lt_Some in Hb. unfold node_id. lia. }
  specialize (D2 _ Hid). unfold blk in D2. replace (Z.to_nat (Z.of_nat k + 1 - 1)) with k in D2 by lia.
  rewrite Hb in D2. cbn in D2. by rewrite D2.
Qed.

(** The node's own part. *)
Lemma after_core :
  match p_phase p' with
  | Looping => 0 <= r /\ core_inv (p_conf p) r (p_core p')
  | Initialising n => r = - Z.of_nat n /\ c_status (p_core p') = S_INIT /\ c_bid (p_core p') = 0
  end /\ c_bid (p_core p') <= c_bid (p_core p) + 1 /\ 0 <= ps_state sb /\
  (p_phase p' = Looping -> ps_state sb = c_status (p_core p')) /\
  (ps_msg sb = M_ACK -> c_bid (p_core p') = 0) /\ (runs_block sb = false -> r = 0) /\ r <= g_prog g i + 1.
Proof.
  pose proof (pi_core _ _ _ _ P) as Hc. rewrite Hr. unfold prog_next.
  destruct (rr_core _ _ _ _ _ R) as [(F1 & F2 & F3 & F4 & enough & F5)|(n & F1 & F2 & F3 & F4 & F5 & F6)].
  - rewrite F1 in Hc. destruct Hc as [Hc0 Hc]. rewrite F2.
    destruct (next_core_ok (p_conf p) enough (new_views w p) (g_prog g i) (p_core p)) as (A & B & _);
      [apply new_good_ids|apply (pi_conf _ _ _ _ P)|done|done|]. rewrite <- F5 in A, B.
    assert (ps_state sb = c_status (p_core p')) as Es.
    { rewrite F3. destruct (ci_status _ _ _ A) as [->|[->| ->]]; done. }
    assert (ps_msg sb = m_msg (c_msg (p_core p'))) as Em.
    { rewrite F4. apply wrap_small. pose proof (ci_msg _ _ _ A). unfold M_NACK, in_u in *. lia. }
    rewrite Em. unfold runs_block. rewrite Es.
    split_and!; [case_match; lia|done|done| |done|apply A| |case_match; lia];
      destruct (ci_status _ _ _ A) as [->|[->| ->]]; done.
  - rewrite F1 in Hc. destruct Hc as (Hc1 & Hc2 & Hc3). rewrite F2, F5, F6.
    unfold runs_block. rewrite F3, F4. split_and!; try done; lia.
Qed.

Lemma view_after j : node_id j -> view p' j = next_view (p_conf p) (view p j) (blk w j).
Proof. intros Hj. unfold view at 1. rewrite (rr_ni _ _ _ _ _ R), (new_views_lookup w g i p W Hp j Hj). done. Qed.

Lemma pend_after : pend p = 0 /\ pend p' = 1.
Proof. unfold pend. by rewrite Hpend, (rr_pending _ _ _ _ _ R). Qed.

(** *** Winning *)

Definition wins : Prop :=
  p_phase p = Looping /\ ms_ret (master_exists (p_conf p) (new_views w p)) = 0 /\
  qc_master_wait (p_conf p) <= c_bid (p_core p) + 1 /\ exists msg, (check_votes (p_conf p) (new_views w p) msg).1 = 3.

Lemma becomes_master :
  p_phase p' = Looping -> c_status (p_core p') = S_MASTER ->
  (p_phase p = Looping /\ c_status (p_core p) = S_MASTER) \/ wins.
Proof.
  intros Hl Hm. destruct (rr_core _ _ _ _ _ R) as [(F1 & F2 & F3 & F4 & enough & F5)|(n & _ & F2 & _)]; [|congruence].
  pose proof (pi_core _ _ _ _ P) as Hc. rewrite F1 in Hc. destruct Hc as [Hc0 Hc].
  destruct (next_core_ok (p_conf p) enough (new_views w p) (g_prog g i) (p_core p)) as (_ & _ & C);
    [apply new_good_ids|apply (pi_conf _ _ _ _ P)|done|done|]. rewrite <- F5 in C.
  destruct (C Hm) as [Hold|(C1 & C2 & C3)]; [by left|by right].
Qed.

(** A node that wins has run for as long as the two waits together. *)
Lemma wins_prog : wins ->
  qc_upgrade_wait (p_conf p) + qc_master_wait (p_conf p) <= g_prog g i + 1 /\ 0 < c_bid (p_core p).
Proof.
  intros (Hl & _ & Hb & _). pose proof (pi_core _ _ _ _ P) as Hc. rewrite Hl in Hc. destruct Hc as [_ Hc].
  destruct (pi_conf _ _ _ _ P). destruct (ci_bidding _ _ _ Hc); lia.
Qed.

(** A node that it sees running has acknowledged its bid, and is no master. *)
Lemma wins_seen j q (c' := if runs_block (blk w j) then g_cnt g i j + 1 else 0) :
  wins -> j <> i -> w_proc w j = Some q -> qc_tko_up (p_conf p) + 1 <= c' ->
  ps_msg (blk w j) = M_ACK /\ ps_state (blk w j) <> S_MASTER.
Proof.
  intros (Hl & Hnone & _ & msg & Hvotes) Hj Hq Hc. pose proof (pi_id _ _ _ _ (wi_proc w g W j q Hq)) as Hid.
  destruct (live_view w g i p W Hp Hstep j q Hj Hq) as (_ & _ & Est & Hvis). set (n' := next_view _ _ _) in *.
  assert (n' ∈ new_views w p) as Hin by (eapply list_elem_of_lookup_2, (new_views_lookup w g i p W Hp j Hid)).
  destruct (Hvis Hc) as [Hrun Hmas]. split.
  - destruct (check_votes_all _ _ _ _ Hvotes Hin Hrun) as [Hack _]. by rewrite Est in Hack.
  - intros Hm. assert (ps_nodeid (ni_status n') = qc_my_id (p_conf p)) as E.
    { eapply no_master_found; try done; [rewrite (pi_my_id _ _ _ _ P); apply P|apply new_good_ids|by rewrite Est|by apply Hmas]. }
    rewrite Est, (di_id w (wi_disk w g W) j Hid), (pi_my_id _ _ _ _ P) in E. done.
Qed.

(** The block of a master says that it runs. *)
Lemma master_runs j q :
  w_proc w j = Some q -> p_phase q = Looping -> c_status (p_core q) = S_MASTER -> runs_block (blk w j) = true.
Proof.
  intros Hq Hl Hm. pose proof (wi_proc w g W j q Hq) as Pj. pose proof (pi_core _ _ _ _ Pj) as Hc. rewrite Hl in Hc.
  destruct Hc as [_ Hc]. pose proof (ci_master _ _ _ Hc Hm). destruct (pi_conf _ _ _ _ Pj).
  destruct (runs_block (blk w j)) eqn:E; [done|]. pose proof (pi_block_run _ _ _ _ Pj E). pose proof (pend_bound q). lia.
Qed.

Lemma wins_no_master j q :
  wins -> j <> i -> w_proc w j = Some q -> ~ (p_phase q = Looping /\ c_status (p_core q) = S_MASTER).
Proof.
  intros Hw Hj Hq [Hl Hm]. destruct (wins_prog Hw) as [Hprog _]. destruct Hw as (Hlp & H1 & Hbid & H2).
  destruct (pa_master _ _ _ _ _ _ (wi_pair w g W i j p q (not_eq_sym Hj) Hp Hq) Hl Hm) as (_ & Hsight).
  pose proof (master_runs j q Hq Hl Hm) as Hrun. pose proof (wins_seen j q) as Hseen. rewrite Hrun in Hseen.
  destruct (pi_conf _ _ _ _ P). destruct Hseen; [by split_and!|done|done|unfold in_sight in Hsight; lia|].
  by destruct (pi_block_master _ _ _ _ (wi_proc w g W j q Hq) Hl Hm).
Qed.

(** Every other node will see the new master, or its votes, before it can win. *)
Lemma wins_in_sight j q : wins -> j <> i -> w_proc w j = Some q -> in_sight g j i q.
Proof.
  intros Hw Hj Hq. destruct (wins_prog Hw) as [Hprog _]. pose proof (wi_proc w g W j q Hq) as Pj.
  destruct (pi_conf _ _ _ _ P) as [G1 G2 G3 G4 G5], (pi_conf _ _ _ _ Pj) as [K1 K2 K3 K4 K5].
  destruct (wi_pair w g W j i q p Hj Hq Hp) as [A1 _ _ A4 A5 A6 _]. rewrite (Hstep j q Hj Hq) in A4, A5.
  cbn [Z.b2z] in A4, A5. pose proof (pend_bound q) as Hpq. unfold in_sight.
  assert (0 <= g_cnt g j i) as Hc by lia.
  destruct A6 as [A6|A6]; [by right|].
  destruct (runs_block (blk w j)) eqn:Hrun; [|pose proof (pi_block_run _ _ _ _ Pj Hrun); lia].
  pose proof (wins_seen j q Hw Hj Hq) as Hseen. rewrite Hrun in Hseen. destruct Hseen as [Hack _]; [lia|].
  pose proof (pi_block_ack _ _ _ _ Pj Hack). lia.
Qed.

Lemma after_self : proc_inv (after (Some p')) g' i p'.
Proof.
  destruct after_core as (C1 & C2 & C3 & C4 & C5 & C6 & C7). pose proof (wi_disk w g W) as [D1 D2 D3 D4 D5 D6].
  pose proof becomes_master as Hbm. pose proof wins_prog as Hwp. destruct R as [R1 R2 R3 R4 R5 R6 _]. destruct P as [Q1 Q2 Q3 Q4 Q5 Q6 Q7 Q8 Q9 Q10 Q11 Q12 Q13 Q14].
  destruct pend_after as [Ep Ep']. destruct Hnow as (N1 & N2 & N3).
  assert (blk (after (Some p')) i = blk w i) as Eb by (apply after_blk; [done|by right]).
  assert (g_prog g' i = r) as Er by (cbn; by rewrite fn_lookup_insert).
  split; rewrite ?R1, ?Eb, ?Er; try done.
  - rewrite R2. unfold new_views. cbn. destruct Hd as [-> _]. rewrite length_zip_with, Q4. lia.
  - rewrite view_after by done. apply self_quiet; [done..|]. by rewrite D2, Q2.
  - intros j Hj Hne. cbn [after w_inc]. rewrite view_after by done.
    eapply view_ok_mono; [|done..|right; split; [done|by apply after_runs]].
    destruct Q3. eapply next_view_ok; [done|lia| |by apply D3|by apply Q7]. by rewrite D2, Q2.
  - intros j Hj Hne. cbn [after w_time w_boot]. rewrite view_after by done. specialize (Q8 j Hj Hne).
    destruct (next_view_last (p_conf p) (view p j) (blk w j)) as [->|[Hrun ->]]; [by rewrite D2, Q2|done|].
    destruct (D3 j Hj) as [_ Hb]. destruct (Hb Hrun) as (_ & _ & ->). lia.
  - intros Hn. specialize (Q11 Hn). lia.
  - intros Ha. specialize (Q12 Ha). lia.
  - intros Hl Hm. destruct (Hbm Hl Hm) as [[? ?]|Hw]; [by apply Q13|]. right. intros Ha.
    specialize (Q12 Ha). destruct (Hwp Hw). lia.
  - intros b Hb. rewrite R3 in Hb. injection Hb as <-. cbn. rewrite Q2 in R4. rewrite R5, R6. by split_and!.
Qed.

(** *** Pairs after a read *)

(** How far two nodes are apart. *)
Lemma after_diff j q : j <> i -> w_proc w j = Some q ->
  r - (if runs_block (blk w j) then g_cnt g i j + 1 else 0) <= 1 \/ g_prog g j - g_cnt g j i <= 1.
Proof.
  intros Hj Hq. destruct after_core as (_ & _ & _ & _ & _ & _ & C7). pose proof (wi_proc w g W j q Hq) as Pj.
  destruct (wi_pair w g W i j p q (not_eq_sym Hj) Hp Hq) as [A1 _ _ _ _ A6 _].
  destruct (wi_pair w g W j i q p Hj Hq Hp) as [B1 _ _ B4 _ _ _].
  rewrite (Hstep j q Hj Hq) in B4. cbn [Z.b2z] in B4. pose proof (pend_bound q).
  destruct (runs_block (blk w j)) eqn:Hrun; [lia|]. pose proof (pi_block_run _ _ _ _ Pj Hrun). lia.
Qed.

(** The node reads the block of another live one. *)
Lemma after_pair_reader j q : j <> i -> w_proc w j = Some q -> pair_inv (after (Some p')) g' i j p' q.
Proof.
  intros Hj Hq. destruct (wi_pair w g W i j p q (not_eq_sym Hj) Hp Hq) as [A1 A2 A3 A4 A5 A6 A7].
  pose proof (wi_proc w g W j q Hq) as Pj. pose proof (pi_id _ _ _ _ Pj) as Hid.
  destruct (live_view w g i p W Hp Hstep j q Hj Hq) as (V & _). destruct after_core as (C1 & C2 & C3 & C4 & C5 & C6 & C7).
  assert (blk (after (Some p')) j = blk w j) as Eb by (apply after_blk; [done|left; by rewrite Hq]).
  assert (has_read i (w_fresh w) j i = w_fresh w j i) as Ef by (unfold has_read; by rewrite (proj2 (Z.eqb_neq _ _) Hj)).
  assert (has_read i (w_fresh w) i j = false) as Ef' by (unfold has_read; by rewrite Z.eqb_refl).
  destruct pend_after as [Ep Ep']. pose proof (pend_bound q) as Hpq. pose proof (b2z_bound (w_fresh w j i)) as Hb.
  split; unfold in_sight; cbn [after w_inc w_time w_fresh g_cnt g_prog g' hist_read];
    rewrite ?Z.eqb_refl, ?fn_lookup_insert, ?fn_lookup_insert_ne, ?(proj2 (Z.eqb_neq _ _) Hj), ?Eb, ?Ef, ?Ef', ?Ep' by done.
  - destruct (runs_block (blk w j)); lia.
  - by rewrite view_after.
  - intros b Hpb. destruct (pi_pending _ _ _ _ Pj b Hpb) as (_ & _ & Ht & _). rewrite view_after by done.
    destruct (next_view_last (p_conf p) (view p j) (blk w j)) as [->|[Hrun ->]]; [|by apply A3|].
    + by rewrite (di_id _ (wi_disk w g W)), (pi_my_id _ _ _ _ P).
    + destruct (di_block _ (wi_disk w g W) j Hid) as [_ Hbk]. destruct (Hbk Hrun) as (_ & _ & ->). lia.
  - destruct (runs_block (blk w j)); lia.
  - destruct (runs_block (blk w j)) eqn:Hrun; [lia|]. pose proof (pi_block_run _ _ _ _ Pj Hrun). lia.
  - by apply (after_diff j q).
  - intros Hl Hm. destruct (A7 Hl Hm) as (M1 & M3). rewrite (master_runs j q Hq Hl Hm), (rr_conf _ _ _ _ _ R).
    split; [|unfold in_sight in M3; lia]. intros Hm'. destruct (p_phase p') as [n|] eqn:Hph.
    + destruct C1 as (_ & C1 & _). by rewrite C1 in Hm'.
    + destruct (becomes_master Hph Hm') as [[_ ?]|Hw]; [done|]. by apply (wins_no_master j q Hw Hj Hq).
Qed.

(** Another live node and the block of this one. *)
Lemma after_pair_writer j q : j <> i -> w_proc w j = Some q -> pair_inv (after (Some p')) g' j i q p'.
Proof.
  intros Hj Hq. destruct (wi_pair w g W j i q p Hj Hq Hp) as [A1 A2 A3 A4 A5 A6 A7].
  pose proof (wi_proc w g W j q Hq) as Pj. destruct after_core as (C1 & C2 & C3 & C4 & C5 & C6 & C7).
  assert (blk (after (Some p')) i = blk w i) as Eb by (apply after_blk; [apply P|by right]).
  assert (has_read i (w_fresh w) j i = w_fresh w j i) as Ef by (unfold has_read; by rewrite (proj2 (Z.eqb_neq _ _) Hj)).
  assert (has_read i (w_fresh w) i j = false) as Ef' by (unfold has_read; by rewrite Z.eqb_refl).
  destruct pend_after as [Ep Ep']. rewrite (Hstep j q Hj Hq) in A4, A5. cbn [Z.b2z] in A4, A5.
  split; unfold in_sight; cbn [after w_inc w_time w_fresh g_cnt g_prog g' hist_read Z.b2z];
    rewrite ?Z.eqb_refl, ?fn_lookup_insert, ?fn_lookup_insert_ne, ?(proj2 (Z.eqb_neq _ _) Hj), ?Eb, ?Ef, ?Ef' by done;
    cbn [Z.b2z]; try done; try lia.
  - intros b Hb. rewrite (rr_pending _ _ _ _ _ R) in Hb. injection Hb as <-. rewrite (rr_time _ _ _ _ _ R).
    pose proof (pi_last _ _ _ _ Pj i (pi_id _ _ _ _ P) (not_eq_sym Hj)). destruct Hnow as (? & ? & ?). lia.
  - pose proof (after_diff j q Hj Hq). lia.
  - intros Hl Hm. destruct (becomes_master Hl Hm) as [[Hl' Hm']|Hw]; [by apply A7|]. split.
    + intros Hm'. destruct (p_phase q) as [n|] eqn:Hph; [|by apply (wins_no_master j q Hw Hj Hq)].
      pose proof (pi_core _ _ _ _ Pj) as Hc. rewrite Hph in Hc. destruct Hc as (_ & Hc & _). by rewrite Hc in Hm'.
    + by apply wins_in_sight.
Qed.

Lemma after_read_inv : world_inv (after (Some p')) g'.
Proof.
  split; [apply after_disk| |].
  - intros k q. cbn. destruct (decide (k = i)) as [->|Hk].
    + rewrite fn_lookup_insert. intros [= <-]. apply after_self.
    + rewrite fn_lookup_insert_ne by done. by apply after_other.
  - intros k k' q q' Hne. cbn. destruct (decide (k = i)) as [->|Hk]; [|destruct (decide (k' = i)) as [->|Hk']].
    + rewrite fn_lookup_insert, fn_lookup_insert_ne by done. intros [= <-] Hq'. by apply after_pair_reader.
    + rewrite fn_lookup_insert, fn_lookup_insert_ne by done. intros Hq [= <-]. by apply after_pair_writer.
    + rewrite !fn_lookup_insert_ne by done. by apply after_pair_other.
Qed.
End after_read.

(** The node that has read may also be gone. *)
Lemma after_gone_inv w g i p now d :
  world_inv w g -> w_proc w i = Some p -> tick w i now -> dead_changes w i d ->
  world_inv (mkWorld d (<[i := None]> (w_proc w)) (has_read i (w_fresh w)) (w_time w) (w_inc w) now (w_boot w))
    (hist_read w g i 0).
Proof.
  intros W Hp Hn Hd. split; [by eapply after_disk| |].
  - intros k q. cbn. destruct (decide (k = i)) as [->|Hk]; [by rewrite fn_lookup_insert|].
    rewrite fn_lookup_insert_ne by done. intros Hq. by eapply after_other.
  - intros k k' q q' Hne. cbn. destruct (decide (k = i)) as [->|Hk]; [by rewrite fn_lookup_insert|].
    destruct (decide (k' = i)) as [->|Hk']; [by rewrite fn_lookup_insert|].
    rewrite !fn_lookup_insert_ne by done. intros. by eapply after_pair_other.
Qed.

(** *** After a write of the own block *)

Section after_put.
Context (w : world) (g g' : history) (i : Z) (op : option proc) (sb : status_block) (f : Z -> Z -> bool) (tm inc : Z -> Z).
Context (nw bt : Z).
Hypothesis (W : world_inv w g) (Hi : node_id i).
Hypothesis (Hblock : ps_nodeid sb = i /\ block_ok (inc i) (tm i) sb).
Hypothesis (Htime : w_time w i < tm i <= nw) (Hinc : 0 <= inc i /\ w_inc w i <= inc i).
Hypothesis (Hnw : w_now w <= nw) (Hbt : w_boot w <= bt <= nw).
Hypothesis (Htm : forall x, x <> i -> tm x = w_time w x) (Hin : forall x, x <> i -> inc x = w_inc w x).
Hypothesis (Hevil : forall k q, k <> i -> w_proc w k = Some q -> ni_evil_incarnation (view q i) < inc i).
Hypothesis (Hf : forall x y, x <> i -> y <> i -> f x y = w_fresh w x y).
Hypothesis (Hg : forall x, x <> i -> g_prog g' x = g_prog g x).
Hypothesis (Hg2 : forall x y, x <> i -> y <> i -> g_cnt g' x y = g_cnt g x y).

Let after : world := mkWorld (put_block i sb (w_disk w)) (<[i := op]> (w_proc w)) f tm inc nw bt.

Lemma put_blk_self : blk after i = sb.
Proof. apply blk_put_eq; [apply (di_len _ (wi_disk w g W))|done]. Qed.

Lemma put_blk_other j : node_id j -> j <> i -> blk after j = blk w j.
Proof. intros. unfold after. by rewrite blk_put_ne. Qed.

Lemma put_disk : disk_inv after.
Proof.
  pose proof (wi_disk w g W) as [D1 D2 D3 D4 D5 D6]. destruct Hblock as [B1 B2].
  split; cbn; [by unfold put_block; rewrite length_insert| | | | |lia]; intros j; destruct (decide (j = i)) as [->|Hj].
  - by rewrite put_blk_self.
  - intros. rewrite put_blk_other by done. auto.
  - by rewrite put_blk_self.
  - intros. rewrite put_blk_other, Htm, Hin by done. auto.
  - lia.
  - rewrite Hin by done. apply D4.
  - lia.
  - rewrite Htm by done. specialize (D5 j). lia.
Qed.

Lemma put_other k q : k <> i -> w_proc w k = Some q -> proc_inv after g' k q.
Proof.
  intros Hk Hq. pose proof (wi_proc w g W k q Hq) as [].
  split; cbn [after w_inc w_time w_disk w_now w_boot]; rewrite ?Hg, ?Htm, ?Hin by done; try done;
    rewrite ?put_blk_other by done; try done.
  - unfold put_block. by rewrite length_insert.
  - intros j Hj Hne. destruct (decide (j = i)) as [->|Hji].
    + eapply view_ok_mono; [by apply pi_views0|lia..|]. left. by eapply Hevil.
    + rewrite Hin, put_blk_other by done. by apply pi_views0.
  - intros j Hj Hne. specialize (pi_last0 j Hj Hne).
    destruct (decide (j = i)) as [->|Hji]; [lia|]. rewrite Htm by done. lia.
  - intros b Hb. destruct (pi_pending0 b Hb) as (? & ? & ? & ? & ? & ? & ?). split_and!; done || lia.
Qed.

Lemma put_pair_other k k' q q' :
  k <> i -> k' <> i -> k <> k' -> w_proc w k = Some q -> w_proc w k' = Some q' -> pair_inv after g' k k' q q'.
Proof.
  intros Hk Hk' Hne Hq Hq'. pose proof (wi_pair w g W k k' q q' Hne Hq Hq') as [].
  split; unfold in_sight; cbn [after w_inc w_time w_fresh]; rewrite ?Hg, ?Hg2, ?Hf, ?Htm, ?Hin by done; done.
Qed.

(** With what holds of the node itself, and between it and each other node. *)
Lemma put_inv :
  (forall p, op = Some p -> proc_inv after g' i p) ->
  (forall p j q, op = Some p -> j <> i -> w_proc w j = Some q -> pair_inv after g' i j p q /\ pair_inv after g' j i q p) ->
  world_inv after g'.
Proof.
  intros Hself Hpair. split; [apply put_disk| |].
  - intros k q. cbn. destruct (decide (k = i)) as [->|Hk].
    + rewrite fn_lookup_insert. apply Hself.
    + rewrite fn_lookup_insert_ne by done. by apply put_other.
  - intros k k' q q' Hne. cbn. destruct (decide (k = i)) as [->|Hk]; [|destruct (decide (k' = i)) as [->|Hk']].
    + rewrite fn_lookup_insert, fn_lookup_insert_ne by done. intros Ho Hq. by apply (Hpair q k' q').
    + rewrite fn_lookup_insert, fn_lookup_insert_ne by done. intros Hq Ho. by apply (Hpair q' k q).
    + rewrite !fn_lookup_insert_ne by done. by apply put_pair_other.
Qed.
End after_put.

Lemma write_inv w g i p sb :
  world_inv w g -> w_proc w i = Some p -> p_pending p = Some sb ->
  world_inv (mkWorld (put_block i sb (w_disk w))
    (<[i := Some (mkProc (p_conf p) (p_ctx p) (p_ni p) (p_lp p) (p_phase p) None)]> (w_proc w))
    (wrote i (w_fresh w)) (<[i := ps_timestamp sb]> (w_time w)) (w_inc w) (w_now w) (w_boot w)) g.
Proof.
  intros W Hp Hsb. pose proof (wi_proc w g W i p Hp) as P. pose proof (di_boot _ (wi_disk w g W)) as Hbt.
  destruct (pi_pending _ _ _ _ P sb Hsb) as (B1 & B2 & B3 & B4 & B5 & B6 & B7). pose proof (pi_id _ _ _ _ P) as Hi.
  assert (0 < w_inc w i) as Hpos by (rewrite <- (pi_inc _ _ _ _ P); apply (pi_conf _ _ _ _ P)).
  apply put_inv with (g := g); cbn; rewrite ?fn_lookup_insert; try done.
  - lia.
  - intros x Hx. by rewrite fn_lookup_insert_ne.
  - intros k q Hk Hq. by apply (wi_pair w g W k i q p Hk Hq Hp).
  - intros x y Hx Hy. unfold wrote. by rewrite (proj2 (Z.eqb_neq _ _) Hy).
  - intros p0 [= <-]. destruct P as [Q1 Q2 Q3 Q4 Q5 Q6 Q7 Q8 Q9 Q10 Q11 Q12 Q13 Q14].
    split; cbn [p_conf p_ni p_phase p_pending w_disk w_inc w_time w_boot]; try done;
      rewrite ?(put_blk_self w g) by done; try done.
    + unfold put_block. by rewrite length_insert.
    + intros j Hj Hne. rewrite (put_blk_other w i) by done. by apply Q7.
    + intros j Hj Hne. rewrite fn_lookup_insert_ne by done. by apply Q8.
    + intros Hn. rewrite B7 by done. done.
    + intros Ha. apply B6 in Ha. cbn in *. lia.
    + intros Hl Hm. left. rewrite B5 by done. exact Hm.
  - intros p0 j q [= <-] Hj Hq.
    destruct (wi_pair w g W i j p q (not_eq_sym Hj) Hp Hq) as [A1 A2 A3 A4 A5 A6 A7].
    destruct (wi_pair w g W j i q p Hj Hq Hp) as [K1 K2 K3 K4 K5 K6 K7].
    assert (wrote i (w_fresh w) j i = true) as Ew by (unfold wrote; by rewrite Z.eqb_refl).
    assert (wrote i (w_fresh w) i j = w_fresh w i j) as Ew' by (unfold wrote; by rewrite (proj2 (Z.eqb_neq _ _) Hj)).
    assert (pend p = 1) as Ep by (unfold pend; by rewrite Hsb). pose proof (b2z_bound (w_fresh w j i)).
    split; split; unfold in_sight; cbn [p_conf p_phase w_fresh w_inc w_time p_pending];
      rewrite ?Ew, ?Ew', ?fn_lookup_insert, ?fn_lookup_insert_ne by done; try done;
      unfold pend; cbn [p_pending Z.b2z]; try lia.
    destruct K2 as [L1 L2 L3 L4]. split; try done. intros _. by apply K3.
Qed.

(** A crash changes nothing for the others. *)
Lemma crash_inv w g i :
  world_inv w g ->
  world_inv (mkWorld (w_disk w) (<[i := None]> (w_proc w)) (w_fresh w) (w_time w) (w_inc w) (w_now w) (w_boot w)) g.
Proof.
  intros [D Wp Wq]. split; [by destruct D| |].
  - intros k q. cbn. destruct (decide (k = i)) as [->|Hk]; [by rewrite fn_lookup_insert|].
    rewrite fn_lookup_insert_ne by done. intros Hq. by destruct (Wp k q Hq).
  - intros k k' q q' Hne. cbn. destruct (decide (k = i)) as [->|Hk]; [by rewrite fn_lookup_insert|].
    destruct (decide (k' = i)) as [->|Hk']; [by rewrite fn_lookup_insert|].
    rewrite !fn_lookup_insert_ne by done. intros Hq Hq'. by destruct (Wq k k' q q' Hne Hq Hq').
Qed.

(** The daemon starts: it knows nothing of the others, and its block says so. *)
Lemma init_view t j lp c ph pe cf :
  node_id j -> exists m m' sb,
  view (mkProc cf c (node_info_init t MAX_NODES_DISK) lp ph pe) j = mkNi 0 0 t 0 0 m m' S_NONE sb.
Proof.
  intros Hj. unfold view, node_info_init. cbn [p_ni]. rewrite list_lookup_fmap, lookup_seqZ_lt.
  - eexists _, _, _. reflexivity.
  - unfold node_id, MAX_NODES_DISK in *. lia.
Qed.

Definition hist_start (g : history) (i : Z) (cf : qd_conf) : history :=
  mkHist (<[i := - qc_tko cf]> (g_prog g)) (fun x y => if x =? i then 0 else if y =? i then -1 else g_cnt g x y).

Lemma start_inv w g i cf c lp t now sb :
  world_inv w g -> node_id i -> w_proc w i = None -> qc_my_id cf = i -> good_conf cf ->
  w_inc w i < qc_incarnation cf -> w_now w < t <= now ->
  qc_status c = S_INIT -> lp_bid_pending lp = 0 ->
  own_status cf now (mkCore S_INIT 0 0 (mkMsg 0 0 0)) sb ->
  world_inv (mkWorld (put_block i sb (w_disk w))
    (<[i := Some (mkProc cf c (node_info_init t MAX_NODES_DISK) lp (Initialising (Z.to_nat (qc_tko cf))) None)]> (w_proc w))
    (started i (w_fresh w)) (<[i := now]> (w_time w)) (<[i := qc_incarnation cf]> (w_inc w)) now now) (hist_start g i cf).
Proof.
  intros W Hi Hno Hmy Hgood Hinc Htime Hst Hbid (O1 & O2 & O3 & O4 & O5 & O6 & O7).
  pose proof (wi_disk w g W) as [D1 D2 D3 D4 D5 D6]. pose proof (D4 i) as Hi0. pose proof (D5 i) as Hi5. cbn in O5, O6.
  assert (forall x, x <> i -> (x =? i) = false) as Hneq by (intros; by apply Z.eqb_neq).
  apply put_inv with (g := g); cbn; rewrite ?fn_lookup_insert; try done; try lia.
  - split; [by rewrite O1|]. split; [by rewrite O5|]. intros _. split_and!; [lia|done..].
  - intros x Hx. by rewrite fn_lookup_insert_ne.
  - intros x Hx. by rewrite fn_lookup_insert_ne.
  - intros k q Hk Hq.
    pose proof (vo_evil _ _ _ _ (pi_views _ _ _ _ (wi_proc w g W k q Hq) i Hi (not_eq_sym Hk))). lia.
  - intros x y Hx Hy. unfold started. by rewrite !Hneq.
  - intros x Hx. by rewrite !fn_lookup_insert_ne.
  - intros x y Hx Hy. by rewrite !Hneq.
  - intros p0 [= <-].
    split; cbn [p_conf p_ni p_phase p_pending w_disk w_inc w_time w_boot g_prog hist_start];
      rewrite ?fn_lookup_insert, ?(put_blk_self w g) by done; try done.
    + unfold put_block, node_info_init. rewrite length_insert, length_map, length_seqZ. unfold MAX_NODES_DISK in *. lia.
    + destruct (init_view t i lp c (Initialising (Z.to_nat (qc_tko cf))) None cf Hi) as (m & m' & b & ->). by unfold silent.
    + intros j Hj Hne. rewrite !fn_lookup_insert_ne, (put_blk_other w i) by done.
      destruct (init_view t j lp c (Initialising (Z.to_nat (qc_tko cf))) None cf Hj) as (m & m' & b & ->). pose proof (D4 j).
      destruct Hgood. split; cbn; try done; try lia.
      intros _ Hz. destruct (runs_block (blk w j)) eqn:Er; [|done]. destruct (D3 j Hj) as [_ Hb]. specialize (Hb Er). lia.
    + intros j Hj Hne. destruct (init_view t j lp c (Initialising (Z.to_nat (qc_tko cf))) None cf Hj) as (m & m' & b & ->).
      cbn. lia.
    + destruct Hgood. split_and!; [lia|done..].
    + unfold runs_block. by rewrite O5.
    + by rewrite O6.
  - intros p0 j q [= <-] Hj Hq. pose proof (wi_proc w g W j q Hq) as Pj. pose proof (pi_id _ _ _ _ Pj) as Hid.
    assert (started i (w_fresh w) i j = true) as E1 by (unfold started; by rewrite Z.eqb_refl).
    assert (started i (w_fresh w) j i = true) as E2 by (unfold started; by rewrite Z.eqb_refl, orb_true_r).
    pose proof (pend_bound q) as Hpq. pose proof (D5 j) as Hj5. destruct Hgood as [G1 G2 G3 G4 G5].
    split; split; unfold in_sight; cbn [p_conf p_phase g_cnt g_prog hist_start w_fresh w_inc w_time p_pending];
      rewrite ?E1, ?E2, ?Z.eqb_refl, ?Hneq, ?fn_lookup_insert, ?fn_lookup_insert_ne by done;
      cbn [pend p_pending Z.b2z]; try done; try lia.
    + destruct (init_view t j lp c (Initialising (Z.to_nat (qc_tko cf))) None cf Hid) as (m & m' & b & ->).
      split; cbn; try lia. rewrite <- (pi_inc _ _ _ _ Pj). apply (pi_conf _ _ _ _ Pj).
    + intros b Hb. destruct (pi_pending _ _ _ _ Pj b Hb) as (_ & _ & Ht & _).
      destruct (init_view t j lp c (Initialising (Z.to_nat (qc_tko cf))) None cf Hid) as (m & m' & b' & ->). cbn. lia.
    + intros _ _. cbn. rewrite Hst. split; [done|lia].
    + pose proof (pi_views _ _ _ _ Pj i Hi (not_eq_sym Hj)) as [V1 V2 V4 V5 V6 V7 V8].
      pose proof (pi_last _ _ _ _ Pj i Hi (not_eq_sym Hj)). split; try lia.
Qed.

(** The daemon leaves, with a block that says so. *)
Lemma leave_inv w g i p now sb :
  world_inv w g -> w_proc w i = Some p -> tick w i now -> ps_nodeid sb = i -> ps_state sb = S_NONE ->
  world_inv (mkWorld (put_block i sb (w_disk w)) (<[i := None]> (w_proc w)) (wrote i (w_fresh w))
    (<[i := now]> (w_time w)) (w_inc w) now (w_boot w)) g.
Proof.
  intros W Hp (N1 & N2 & N3) Hid Hst. pose proof (wi_proc w g W i p Hp) as P. pose proof (wi_disk w g W) as [D1 D2 D3 D4 D5 D6].
  apply put_inv with (g := g); cbn; rewrite ?fn_lookup_insert; try done; try lia.
  - apply P.
  - split; [done|]. split; [by rewrite Hst|]. by rewrite Hst.
  - intros x Hx. by rewrite fn_lookup_insert_ne.
  - intros k q Hk Hq. by apply (wi_pair w g W k i q p Hk Hq Hp).
  - intros x y Hx Hy. unfold wrote. by rewrite (proj2 (Z.eqb_neq _ _) Hy).
Qed.

(** The loop starts. *)
Lemma enter_inv w g i p m mm :
  world_inv w g -> w_proc w i = Some p -> p_phase p = Initialising 0 -> p_pending p = None ->
  world_inv (mkWorld (w_disk w)
    (<[i := Some (mkProc (p_conf p) (with_status (p_ctx p) S_NONE) (p_ni p) (loop_start m mm) Looping None)]>
       (w_proc w)) (w_fresh w) (w_time w) (w_inc w) (w_now w) (w_boot w)) g.
Proof.
  intros W Hp Hph Hpe. pose proof (wi_proc w g W i p Hp) as P.
  assert (pend p = 0) as Ep by (unfold pend; by rewrite Hpe). destruct (pi_conf _ _ _ _ P) as [G1 G2 G3 G4 G5].
  pose proof (pi_core _ _ _ _ P) as Hc. rewrite Hph in Hc. destruct Hc as (Hc1 & Hc2 & Hc3). cbn in Hc1.
  split; [by destruct (wi_disk w g W)| |].
  - intros k q. cbn. destruct (decide (k = i)) as [->|Hk].
    + rewrite fn_lookup_insert. intros [= <-]. destruct P as [Q1 Q2 Q3 Q4 Q5 Q6 Q7 Q8 Q9 Q10 Q11 Q12 Q13 Q14].
      rewrite Ep in Q11. split; cbn; try done; try lia. split; [lia|]. rewrite Hc1. split; cbn; try done; by left.
    + rewrite fn_lookup_insert_ne by done. intros Hq. by destruct (wi_proc w g W k q Hq).
  - intros k k' q q' Hne. cbn. destruct (decide (k = i)) as [->|Hk]; [|destruct (decide (k' = i)) as [->|Hk']].
    + rewrite fn_lookup_insert, fn_lookup_insert_ne by done. intros [= <-] Hq'.
      destruct (wi_pair w g W i k' p q' Hne Hp Hq') as [A1 A2 A3 A4 A5 A6 A7].
      rewrite Ep in A4, A5. split; unfold in_sight; cbn; try done; try lia.
      intros Hl Hm. destruct (A7 Hl Hm) as [_ Hs]. unfold in_sight in Hs. split; [done|lia].
    + rewrite fn_lookup_insert, fn_lookup_insert_ne by done. intros Hq [= <-].
      destruct (wi_pair w g W k i q p Hne Hq Hp) as [A1 A2 A3 A4 A5 A6 A7]. split; cbn; try done; lia.
    + rewrite !fn_lookup_insert_ne by done. intros Hq Hq'. by destruct (wi_pair w g W k k' q q' Hne Hq Hq').
Qed.

(** The configuration is read again. *)
Lemma reconf_inv w g i p cf :
  world_inv w g -> w_proc w i = Some p -> timings cf = timings (p_conf p) ->
  world_inv (mkWorld (w_disk w)
    (<[i := Some (mkProc cf (p_ctx p) (p_ni p) (p_lp p) (p_phase p) (p_pending p))]> (w_proc w))
    (w_fresh w) (w_time w) (w_inc w) (w_now w) (w_boot w)) g.
Proof.
  intros W Hp [= T1 T2 T3 T4 T5 T6]. split; [by destruct (wi_disk w g W)| |].
  - intros k q. cbn. destruct (decide (k = i)) as [->|Hk].
    + rewrite fn_lookup_insert. intros [= <-].
      destruct (wi_proc w g W i p Hp) as [Q1 Q2 [G1 G2 G3 G4 G5] Q4 Q5 Q6 Q7 Q8 Q9 Q10 Q11 Q12 Q13 Q14].
      split; cbn [p_conf p_phase p_ni w_disk w_inc w_time w_boot]; try congruence; try done.
      * split; congruence.
      * intros j Hj Hne. destruct (Q7 j Hj Hne). split; try done. by rewrite T4.
      * destruct (p_phase p); [done|]. destruct Q9 as [? []]. split; [done|]. split; rewrite ?T5, ?T6; done.
    + rewrite fn_lookup_insert_ne by done. intros Hq. by destruct (wi_proc w g W k q Hq).
  - intros k k' q q' Hne. cbn. destruct (decide (k = i)) as [->|Hk]; [|destruct (decide (k' = i)) as [->|Hk']].
    + rewrite fn_lookup_insert, fn_lookup_insert_ne by done. intros [= <-] Hq'.
      destruct (wi_pair w g W i k' p q' Hne Hp Hq'). split; unfold in_sight; cbn [p_conf]; rewrite ?T4, ?T6; done.
    + rewrite fn_lookup_insert, fn_lookup_insert_ne by done. intros Hq [= <-].
      by destruct (wi_pair w g W k i q p Hne Hq Hp).
    + rewrite !fn_lookup_insert_ne by done. intros Hq Hq'. by destruct (wi_pair w g W k k' q q' Hne Hq Hq').
Qed.

(** A turn writes notices for nodes that are not there, and keeps its own block for later. *)
Lemma turn_disk w g i p o sb o' :
  world_inv w g -> w_proc w i = Some p -> keeps_step w i ->
  Forall (notice_for (evicted_ids (p_conf p) (zip_with (seen_block (p_conf p)) (p_ni p) (w_disk w)))) o ->
  no_writes o' -> dead_changes w i (notices i o (w_disk w)) /\
  dead_changes w i (notices i (o ++ WriteBlock i sb true :: o') (w_disk w)) /\
  own_block i (o ++ WriteBlock i sb true :: o') = Some sb.
Proof.
  intros W Hp Hs Ho Ho'. rewrite notices_last, own_block_last by done.
  assert (dead_changes w i (notices i o (w_disk w))) as Hd; [|done].
  destruct (notices_blocks _ i o (w_disk w) Ho) as [Hl Hall]; [apply (wi_disk w g W)| |].
  - intros x Hx. by apply (evicted_dead w g i p W Hp Hs) in Hx as (? & _).
  - split; [done|]. intros j Hj. destruct (Hall j Hj) as [|[Hin Hex]]; [by left|right].
    apply (evicted_dead w g i p W Hp Hs) in Hin as (_ & ? & ?). by split_and!.
Qed.

(** *** Steps *)

Section one_master.
Context (ok : qd_conf -> Prop) (reread : qd_conf -> qd_conf -> Prop).
Hypothesis (Hok : forall cf, ok cf -> good_conf cf).
Hypothesis (Hre : forall cf cf', reread cf cf' -> timings cf' = timings cf).

Lemma step_inv w w' g : world_inv w g -> step ok reread w w' -> exists g', world_inv w' g'.
Proof.
  intros W Hs. destruct Hs as [i cf t now tape m mm s sb Hi Hno Hmy Hgood Hinc Htime T Hw Hown
    |i p n now tape ni s Hp Hph Hpe Hks Htime T Hrun|i p m mm Hp Hph Hpe|i p v now tape r s Hp Hph Hpe Hks Htime T Hv Hrun
    |i p sb Hp Hpe|i p now tape s sb Hp Hpe Htime T Hrun Hown|i p cf Hp Hcf|i p Hp].
  - destruct (qd_write_status_run cf i S_INIT None None None _ now T) as (s' & E & M & T' & St).
    { unfold node_id in Hi. lia. }
    rewrite E in Hw. injection Hw as <-. rewrite M in Hown. cbn in Hown. rewrite Z.eqb_refl in Hown. injection Hown as <-.
    eexists. eapply start_inv; try done. by apply Hok.
  - pose proof (wi_proc w g W i p Hp) as P. pose proof (pi_my_id _ _ _ _ P) as Hmy.
    destruct (init_turn_spec (p_conf p) (p_ni p) _ now (w_disk w) (pi_len _ _ _ _ P) T) as (s' & o & sb & E & Ho & St & M & Own).
    { rewrite Hmy. pose proof (pi_id _ _ _ _ P). unfold node_id in *. lia. }
    rewrite E in Hrun. injection Hrun as <- <-. cbn in M. rewrite Hmy in M.
    destruct (turn_disk w g i p o sb [] W Hp Hks Ho) as (_ & Hd & Hb); [constructor|]. rewrite M, Hb.
    destruct Own as (O1 & O2 & O3 & O4 & O5 & O6 & O7).
    eexists. eapply after_read_inv with (sb := sb); try done. split; try done.
    right. exists n. rewrite Hph. split_and!; try done.
  - eexists. by apply enter_inv.
  - pose proof (wi_proc w g W i p Hp) as P. pose proof (pi_my_id _ _ _ _ P) as Hmy.
    destruct (quorum_cycle_spec (p_conf p) v (p_ni p) (p_lp p) _ now (w_disk w) Hv (pi_len _ _ _ _ P) T)
      as (r' & s' & o & E & Ho & Hr).
    { rewrite Hmy. pose proof (pi_id _ _ _ _ P). unfold node_id in *. lia. }
    rewrite E in Hrun. injection Hrun as <- <-. destruct r' as [[ni lp]|].
    + destruct Hr as (-> & Hc & sb & o' & M & Ho' & Own). cbn in M. rewrite Hmy in M.
      destruct (turn_disk w g i p o sb o' W Hp Hks Ho Ho') as (_ & Hd & Hb). rewrite M, Hb.
      destruct Own as (O1 & O2 & O3 & O4 & O5 & O6 & O7).
      eexists. eapply after_read_inv with (sb := sb); try done. split; try done.
      left. split_and!; try done. eexists. exact Hc.
    + cbn in Hr. rewrite Hr. destruct (turn_disk w g i p o (sb_zero 0 0) [] W Hp Hks Ho) as (Hd & _); [constructor|].
      eexists. by eapply after_gone_inv.
  - eexists. by apply write_inv.
  - pose proof (wi_proc w g W i p Hp) as P. pose proof (pi_my_id _ _ _ _ P) as Hmy.
    destruct (qd_write_status_run (p_conf p) i S_NONE None None None _ now T) as (s' & E & M & T' & St).
    { pose proof (pi_id _ _ _ _ P). unfold node_id in *. lia. }
    unfold quorum_logout in Hrun. rewrite Hmy, (bind_run _ _ _ _ _ E) in Hrun. injection Hrun as <-.
    rewrite M in Hown. cbn in Hown. rewrite Z.eqb_refl in Hown. injection Hown as <-.
    eexists. by eapply leave_inv.
  - eexists. by apply reconf_inv; auto.
  - eexists. by apply crash_inv.
Qed.

Lemma reachable_inv w : reachable ok reread w -> exists g, world_inv w g.
Proof.
  intros (d & [Hl Hd] & Hr). assert (exists g, world_inv (world_start d) g) as Hinv.
  { exists (mkHist (fun _ => 0) (fun _ _ => 0)). split; try done. split; cbn; try done.
    - intros j Hj. unfold blk. cbn.
      destruct (lookup_lt_is_Some_2 d (Z.to_nat (j - 1))) as [sb Hsb]; [unfold node_id in Hj; lia|].
      rewrite Hsb. cbn. destruct (Hd _ _ Hsb) as [-> _]. unfold node_id in Hj. lia.
    - intros j Hj. unfold blk. cbn.
      destruct (lookup_lt_is_Some_2 d (Z.to_nat (j - 1))) as [sb Hsb]; [unfold node_id in Hj; lia|].
      rewrite Hsb. cbn. destruct (Hd _ _ Hsb) as [_ Hst]. split; by rewrite Hst. }
  clear Hl Hd. induction Hr as [w|w w' w'' Hs _ IH]; [done|]. destruct Hinv as [g Hg]. apply IH. by eapply step_inv.
Qed.

Lemma elects_one w i j : reachable ok reread w -> is_master w i -> is_master w j -> i = j.
Proof.
  intros Hr (p & Hp & Hl & Hm) (q & Hq & _ & Hm'). destruct (reachable_inv w Hr) as [g W].
  destruct (decide (i = j)) as [|Hne]; [done|].
  by destruct (pa_master _ _ _ _ _ _ (wi_pair w g W j i q p (not_eq_sym Hne) Hq Hp) Hl Hm) as [? _].
Qed.
End one_master.
