(* ===== verification/QDiskConf.v ===== *)
(** * The configuration of the quorum disk daemon

    [get_config_data] and what it calls in [cman/qdisk/main.c] and [score.c]: the answers of
    the cluster configuration, as strings by their path, become the context of the daemon.
    The part read once at the start gives the timings; the part read again on every change
    leaves them alone.  Every configuration that is accepted is safe for the election of
    the master ([single_master]).  The heuristics are configured here too, and the score that
    they give is always between nothing and its maximum ([score_well_formed]). *)

From stdpp Require Import strings pretty functions.
From S2P Require Import Prelude CStrings QDisk QDiskThm QDiskViews QDiskElect.
Open Scope Z_scope.

(** ** The context *)

(** The context of the daemon with the parts that only the configuration sets;
    [d_config] is [qc_config], [d_out] what has been asked of the cluster manager. *)
Record daemon := mkD {
  d_conf : qd_conf;
  d_ctx : qd_ctx;
  d_config : bool;
  d_device : option string;
  d_label : option string;
  d_cman_label : option string;
  d_status_file : option string;
  d_sched : Z;
  d_sched_prio : Z;
  d_running : bool;
  d_out : list effect
}.

Definition SCHED_OTHER : Z := 0.
Definition SCHED_FIFO : Z := 1.
Definition SCHED_RR : Z := 2.
Definition DEFAULT_TOKEN_TIMEOUT : Z := 10000.

Definition set_conf (d : daemon) (cf : qd_conf) : daemon :=
  mkD cf (d_ctx d) (d_config d) (d_device d) (d_label d) (d_cman_label d) (d_status_file d) (d_sched d)
    (d_sched_prio d) (d_running d) (d_out d).
Definition set_config (d : daemon) : daemon :=
  mkD (d_conf d) (d_ctx d) true (d_device d) (d_label d) (d_cman_label d) (d_status_file d) (d_sched d)
    (d_sched_prio d) (d_running d) (d_out d).
Definition set_names (d : daemon) (dev label cl : option string) : daemon :=
  mkD (d_conf d) (d_ctx d) (d_config d) dev label cl (d_status_file d) (d_sched d)
    (d_sched_prio d) (d_running d) (d_out d).
Definition set_file_sched (d : daemon) (file : option string) (sched prio : Z) : daemon :=
  mkD (d_conf d) (d_ctx d) (d_config d) (d_device d) (d_label d) (d_cman_label d) file sched
    prio (d_running d) (d_out d).
Definition stop_running (d : daemon) : daemon :=
  mkD (d_conf d) (d_ctx d) (d_config d) (d_device d) (d_label d) (d_cman_label d) (d_status_file d) (d_sched d)
    (d_sched_prio d) false (d_out d).

(** The device is registered again. *)
Definition register (d : daemon) : daemon :=
  let s := (register_device (d_conf d) (mkQ (d_ctx d) (fun _ => mkWe 0 None None true) [])).2 in
  mkD (d_conf d) (d_ctx d) (d_config d) (d_device d) (d_label d) (d_cman_label d) (d_status_file d) (d_sched d)
    (d_sched_prio d) (d_running d) (d_out d ++ q_out s).

Definition conf_timing (cf : qd_conf) (interval tko tko_up upgrade_wait master_wait token : Z) : qd_conf :=
  mkConf (qc_incarnation cf) (qc_my_id cf) interval tko tko_up upgrade_wait master_wait (qc_votes cf)
    (qc_scoremin cf) (qc_max_error_cycles cf) token (qc_flags cf).
Definition conf_votes (cf : qd_conf) (votes : Z) : qd_conf :=
  mkConf (qc_incarnation cf) (qc_my_id cf) (qc_interval cf) (qc_tko cf) (qc_tko_up cf) (qc_upgrade_wait cf)
    (qc_master_wait cf) votes (qc_scoremin cf) (qc_max_error_cycles cf) (qc_token_timeout cf) (qc_flags cf).
Definition conf_score (cf : qd_conf) (scoremin errors : Z) : qd_conf :=
  mkConf (qc_incarnation cf) (qc_my_id cf) (qc_interval cf) (qc_tko cf) (qc_tko_up cf) (qc_upgrade_wait cf)
    (qc_master_wait cf) (qc_votes cf) scoremin errors (qc_token_timeout cf) (qc_flags cf).
Definition conf_flags (cf : qd_conf) (flags : Z) : qd_conf :=
  mkConf (qc_incarnation cf) (qc_my_id cf) (qc_interval cf) (qc_tko cf) (qc_tko_up cf) (qc_upgrade_wait cf)
    (qc_master_wait cf) (qc_votes cf) (qc_scoremin cf) (qc_max_error_cycles cf) (qc_token_timeout cf) flags.

(** [flags & ~bit] *)
Definition clear_flag (flags bit : Z) : Z := u32 (Z.land flags (Z.lnot bit)).
Definition raise_flag (flags bit : Z) : Z := Z.lor flags bit.

Definition at_least (low v : Z) : Z := if v <? low then low else v.

(** ** The votes of the device *)

(** One less than the number of nodes, -2 when a node has other than one vote; [None] when
    the paths never end. *)
Fixpoint auto_qdisk_votes (fuel : nat) (c : ccs) (ret : Z) : option Z :=
  match fuel with
  | O => None
  | S fuel' =>
      match c ("/cluster/clusternodes/clusternode[" +:+ pretty ret +:+ "]/@votes")%string with
      | None => Some (ret - 2)
      | Some name => if atoi name =? 1 then auto_qdisk_votes fuel' c (ret + 1) else Some (-2)
      end
  end.

(** A flag that is on or off; the second form can only be turned off. *)
Definition flag_option (c : ccs) (path : string) (bit : Z) (flags : Z) : Z :=
  match ccs_int c path with
  | None => flags
  | Some v => if v =? 0 then clear_flag flags bit else raise_flag flags bit
  end.
Definition flag_off_option (c : ccs) (path : string) (bit : Z) (flags : Z) : Z :=
  match ccs_int c path with
  | None => flags
  | Some v => if v =? 0 then clear_flag flags bit else flags
  end.

(** ** What is read again on every change *)

Definition sched_of (v : string) (old : Z) : Z :=
  match v with
  | EmptyString => old
  | String a _ =>
      if (code a =? 114) || (code a =? 82) then SCHED_RR
      else if (code a =? 102) || (code a =? 70) then SCHED_FIFO
      else if (code a =? 111) || (code a =? 79) then SCHED_OTHER
      else old
  end.

Definition dynamic_flags (c : ccs) (flags : Z) : Z :=
  flag_option c "/cluster/quorumd/@allow_kill" RF_ALLOW_KILL
    (flag_option c "/cluster/quorumd/@paranoid" RF_PARANOID
      (flag_option c "/cluster/quorumd/@io_timeout" RF_IOTIMEOUT
        (flag_option c "/cluster/quorumd/@stop_cman" RF_STOP_CMAN
          (flag_off_option c "/cluster/quorumd/@reboot" RF_REBOOT flags)))).

(** Whether the votes could be found out, the votes and the flags; a daemon that runs keeps
    the votes it has. *)
Definition dynamic_votes (fuel : nat) (c : ccs) (config : bool) (old flags : Z) : option (bool * Z * Z) :=
  match ccs_int c "/cluster/quorumd/@votes" with
  | Some v => Some (true, at_least 0 v, flags)
  | None =>
      v ← auto_qdisk_votes fuel c 1;
      Some (if v <? 0 then (if config then (true, old, flags) else (false, v, flags))
            else (true, v, raise_flag flags RF_AUTO_VOTES))
  end.

(** [None] when the nodes of the configuration never end. *)
Definition get_dynamic_config_data (fuel : nat) (c : ccs) (d : daemon) : option (Z * daemon) :=
  if d_config d && bool_decide (c "/cluster/quorumd/@device" = None) && bool_decide (c "/cluster/quorumd/@label" = None)
  then Some (-1, stop_running (register (set_conf d (conf_votes (d_conf d) 0))))
  else
    let file := match c "/cluster/quorumd/@status_file" with Some v => Some v | None => d_status_file d end in
    let sched := match c "/cluster/quorumd/@scheduler" with Some v => sched_of v (d_sched d) | None => d_sched d end in
    let prio := default (d_sched_prio d) (ccs_int c "/cluster/quorumd/@priority") in
    let flags := dynamic_flags c (qc_flags (d_conf d)) in
    let errors := match ccs_int c "/cluster/quorumd/@max_error_cycles" with
                  | Some v => if (v <=? 0) || flag_set flags RF_IOTIMEOUT then 0 else v
                  | None => qc_max_error_cycles (d_conf d)
                  end in
    let d1 := set_conf (set_file_sched d file sched prio)
                (conf_score (conf_flags (d_conf d) flags) (qc_scoremin (d_conf d)) errors) in
    let old := if d_config d then qc_votes (d_conf d) else 0 in
    let flags1 := if d_config d then clear_flag flags RF_AUTO_VOTES else flags in
    '(ok, votes, flags2) ← dynamic_votes fuel c (d_config d) old flags1;
    Some (if negb ok then (-1, set_conf d1 (conf_votes (conf_flags (d_conf d1) flags2) votes))
          else if d_config d && negb (old =? votes) then
            let flags3 := if flag_set flags2 RF_AUTO_MASTER_WINS
                          then clear_flag flags2 (Z.lor RF_MASTER_WINS RF_AUTO_MASTER_WINS) else flags2 in
            (0, register (set_conf d1 (conf_votes (conf_flags (d_conf d1) flags3) votes)))
          else (0, set_conf d1 (conf_votes (conf_flags (d_conf d1) flags2) votes))).

(** ** What is read once *)

(** The time a new master takes at least, in milliseconds, in an [int]. *)
Definition qdisk_fo (interval master_wait upgrade_wait tko : Z) : Z :=
  s32 (interval * (master_wait + upgrade_wait + tko) * 1000).

Definition static_interval (c : ccs) (cf : qd_conf) : Z :=
  match ccs_int c "/cluster/quorumd/@interval" with Some v => at_least 1 v | None => qc_interval cf end.

(** The timings, and whether they are fast enough for the token. *)
Definition static_timings (c : ccs) (cf : qd_conf) (interval token : Z) : bool * qd_conf :=
  let tko := match ccs_int c "/cluster/quorumd/@tko" with
             | Some v => v
             | None => Z.quot (Z.quot token 1000 - interval) 2
             end in
  let tko_up := at_least 2 (default (Z.quot tko 3) (ccs_int c "/cluster/quorumd/@tko_up")) in
  let upgrade_wait := at_least 1 (default 2 (ccs_int c "/cluster/quorumd/@upgrade_wait")) in
  let mw := default (Z.quot tko 2) (ccs_int c "/cluster/quorumd/@master_wait") in
  let master_wait := if mw <=? tko_up then s32 (tko_up + 1) else mw in
  (negb (qdisk_fo interval master_wait upgrade_wait tko >=? token),
   conf_timing cf interval tko tko_up upgrade_wait master_wait token).

Definition get_static_config_data (c : ccs) (d : daemon) : Z * daemon :=
  let cf := d_conf d in
  let interval := static_interval c cf in
  let token := default DEFAULT_TOKEN_TIMEOUT (ccs_int c "/cluster/totem/@token") in
  if token <? 10000 then
    (-1, set_conf d (conf_timing cf interval (qc_tko cf) (qc_tko_up cf) (qc_upgrade_wait cf) (qc_master_wait cf) token))
  else
    let '(fast, cf1) := static_timings c cf interval token in
    if negb fast then (-1, set_conf d cf1)
    else
      let dev := match c "/cluster/quorumd/@device" with Some v => Some v | None => d_device d end in
      let label := match c "/cluster/quorumd/@label" with Some v => Some v | None => d_label d end in
      let d1 := set_names (set_conf d cf1) dev label (d_cman_label d) in
      if bool_decide (dev = None) && bool_decide (label = None) then (-1, d1)
      else
        let scoremin := match ccs_int c "/cluster/quorumd/@min_score" with
                        | Some v => at_least 0 v
                        | None => qc_scoremin cf1
                        end in
        let flags1 := match ccs_int c "/cluster/quorumd/@master_wins" with
                      | Some v => if v =? 0 then qc_flags cf1 else raise_flag (qc_flags cf1) RF_MASTER_WINS
                      | None => qc_flags cf1
                      end in
        let cl := match c "/cluster/quorumd/@cman_label" with
                  | Some (String a v) => Some (String a v)
                  | _ => None
                  end in
        let flags2 := match cl with Some _ => raise_flag flags1 RF_CMAN_LABEL | None => flags1 end in
        let flags3 := flag_option c "/cluster/quorumd/@use_uptime" RF_UPTIME flags2 in
        (0, set_names (set_conf d1 (conf_flags (conf_score cf1 scoremin (qc_max_error_cycles cf1)) flags3))
              dev label (match cl with Some v => Some v | None => d_cman_label d end)).

(** ** Heuristics *)

Definition heuristic_path (x : Z) (attr : string) : string :=
  ("/cluster/quorumd/heuristic[" +:+ pretty (x + 1) +:+ "]/@" +:+ attr)%string.

(** The entry as the loop leaves it before it looks for the program. *)
Definition heuristic_start (h : h_data) (maxtime : Z) : h_data :=
  let '(interval, tko) := auto_heuristic_timing (h_interval h) (h_tko h) maxtime in
  mkH (0, 0) (0, 0) 1 false tko interval maxtime 0 (h_failed h) 0.

Definition positive_or (dflt v : Z) : Z := if v <=? 0 then dflt else v.

Definition heuristic_entry (c : ccs) (x : Z) (h : h_data) : h_data :=
  let get attr dflt old := match ccs_int c (heuristic_path x attr) with Some v => positive_or dflt v | None => old end in
  mkH (h_nextrun h) (h_failtime h) (get "score" 1 (h_score h))%string (h_available h)
    (get "tko" 1 (h_tko h))%string (get "interval" 2 (h_interval h))%string (h_maxtime h) (h_misses h) (h_failed h)
    (h_childpid h).

(** The array is what it was before; [x] counts the entries. *)
Fixpoint configure_heuristics_from (c : ccs) (maxtime x : Z) (h : list h_data) : Z * list h_data :=
  match h with
  | [] => (x, [])
  | h0 :: rest =>
      let h1 := heuristic_start h0 maxtime in
      match c (heuristic_path x "program") with
      | None => (x, h1 :: rest)
      | Some _ =>
          let '(n, rest') := configure_heuristics_from c maxtime (x + 1) rest in
          (n, heuristic_entry c x h1 :: rest')
      end
  end.

Definition configure_heuristics (c : ccs) (h : list h_data) (maxtime : Z) : Z * list h_data :=
  match h with [] => (-1, []) | _ => configure_heuristics_from c maxtime 0 h end.

(** One round of the score thread: what [fork] gives and what [waitpid] says for each. *)
Definition fork_heuristics (now : Z * Z) (pids : list Z) (h : list h_data) : list h_data :=
  zip_with (fun x pid => (fork_heuristic x now pid).2) h pids.
Definition check_heuristics (now : Z * Z) (waits : list child) (h : list h_data) : list h_data :=
  zip_with (fun x w => check_heuristic x now w) h waits.

Record round_env := mkRound { re_fork : Z * Z; re_pids : list Z; re_check : Z * Z; re_waits : list child }.

(** The heuristics after it, with the score and its maximum. *)
Definition score_round (e : round_env) (h : list h_data) : list h_data * (Z * Z) :=
  let h1 := check_heuristics (re_check e) (re_waits e) (fork_heuristics (re_fork e) (re_pids e) h) in
  (h1, total_score h1).

(** ** The whole configuration *)

Definition default_conf (cf : qd_conf) : qd_conf :=
  mkConf (qc_incarnation cf) (qc_my_id cf) 1 10 (qc_tko_up cf) (qc_upgrade_wait cf) (qc_master_wait cf) (qc_votes cf)
    0 0 (qc_token_timeout cf) (Z.lor (Z.lor RF_REBOOT RF_ALLOW_KILL) RF_UPTIME).

(** Without heuristics, and with one vote found out by itself, the master wins. *)
Definition master_wins_flags (cfh votes flags : Z) : Z :=
  if c_true cfh then (if flag_set flags RF_MASTER_WINS then clear_flag flags RF_MASTER_WINS else flags)
  else if flag_set flags RF_AUTO_VOTES && negb (flag_set flags RF_MASTER_WINS) && (votes =? 1)
  then Z.lor flags (Z.lor RF_MASTER_WINS RF_AUTO_MASTER_WINS)
  else flags.

(** [conn] is the configuration, where it can be reached.  The result is the return value,
    the context, and the heuristics with their number when they have been read. *)
Definition get_config_data (fuel : nat) (conn : option ccs) (h : list h_data) (d : daemon)
    : option (Z * daemon * option (Z * list h_data)) :=
  match conn with
  | None => Some (-1, d, None)
  | Some c =>
      let d1 := if d_config d then d
                else set_file_sched (set_conf d (default_conf (d_conf d))) (d_status_file d) SCHED_RR 1 in
      '(r, d2) ← get_dynamic_config_data fuel c d1;
      if r <? 0 then Some (-1, d2, None)
      else if d_config d2 then Some (0, d2, None)
      else
        let '(r', d3) := get_static_config_data c (set_config d2) in
        if r' <? 0 then Some (-1, d3, None)
        else
          let cf := d_conf d3 in
          let '(cfh, h') := configure_heuristics c h (s32 (qc_interval cf * (qc_tko cf - 1))) in
          Some (0, set_conf d3 (conf_flags cf (master_wins_flags cfh (qc_votes cf) (qc_flags cf))), Some (cfh, h'))
  end.

(** A context at the start of the daemon, whose node has an id. *)
Definition qd_init (incarnation me : Z) : option daemon :=
  if me =? 0 then None
  else Some (mkD (mkConf incarnation me 0 0 0 0 0 0 0 0 0 0) (mkCtx 0 (replicate 60 (0, 0)) (0, 0) S_NONE 0)
               false None None None None 0 0 true []).

(** The cluster manager is told to leave, where the configuration says so; when it refuses,
    the node reboots, but not under debugging. *)
Inductive stop_effect := CmanShutdown | StopReboot.
Definition check_stop_cman (cf : qd_conf) (shutdown_ok : bool) : list stop_effect :=
  if negb (flag_set (qc_flags cf) RF_STOP_CMAN) then []
  else CmanShutdown :: (if shutdown_ok || flag_set (qc_flags cf) RF_DEBUG then [] else [StopReboot]).

(** The configurations of a daemon over its life. *)
Inductive configured (incarnation me : Z) : daemon -> Prop :=
  | configured_first fuel conn h d0 d r :
      qd_init incarnation me = Some d0 -> get_config_data fuel conn h d0 = Some (0, d, r) -> configured incarnation me d
  | configured_again fuel conn h d ctx rv d' r :
      configured incarnation me d ->
      get_config_data fuel conn h (mkD (d_conf d) ctx (d_config d) (d_device d) (d_label d) (d_cman_label d)
        (d_status_file d) (d_sched d) (d_sched_prio d) (d_running d) (d_out d)) = Some (rv, d', r) ->
      configured incarnation me d'.

(** ** What is accepted *)

Lemma at_least_ge low v : low <= at_least low v.
Proof. unfold at_least. zcase; lia. Qed.

Definition steady (cf : qd_conf) : list Z := timings cf ++ [qc_interval cf; qc_token_timeout cf].

Lemma dynamic_steady fuel c d rv d' :
  get_dynamic_config_data fuel c d = Some (rv, d') -> steady (d_conf d') = steady (d_conf d) /\ d_config d' = d_config d.
Proof.
  unfold get_dynamic_config_data. intros H. case_match; [by simplify_eq|].
  apply bind_Some in H as ([[ok votes] flags] & _ & H).
  destruct (negb ok); [by simplify_eq|]. destruct (d_config d && negb (_ =? votes)); by injection H as <- <-.
Qed.

Lemma dynamic_votes_ok fuel c config old flags votes flags' :
  dynamic_votes fuel c config old flags = Some (true, votes, flags') -> (config = true -> 0 <= old) -> 0 <= votes.
Proof.
  unfold dynamic_votes. destruct (ccs_int _ _) as [v|]; [intros [= <- _] _; apply at_least_ge|].
  intros H Hold. apply bind_Some in H as (v & _ & E). destruct (v <? 0) eqn:Ev; zbool.
  - destruct config; simplify_eq. by apply Hold.
  - by simplify_eq.
Qed.

Lemma dynamic_votes_range fuel c d rv d' :
  get_dynamic_config_data fuel c d = Some (rv, d') -> 0 <= rv -> (d_config d = true -> 0 <= qc_votes (d_conf d)) ->
  0 <= qc_votes (d_conf d').
Proof.
  unfold get_dynamic_config_data. intros H Hrv Hold. case_match; [by simplify_eq|].
  apply bind_Some in H as ([[ok votes] flags] & Hv & H). destruct ok; [|cbn [negb] in H; injection H as <- _; lia].
  apply dynamic_votes_ok in Hv; [|intros E; rewrite E; auto].
  destruct (d_config d && negb (_ =? votes)); by injection H as _ <-.
Qed.

(** What the timings of an accepted configuration are. *)
Record accepted (cf : qd_conf) : Prop := {
  ac_interval : 1 <= qc_interval cf;
  ac_up : 2 <= qc_tko_up cf;
  ac_upgrade : 1 <= qc_upgrade_wait cf;
  ac_wait : qc_tko_up cf < 2 ^ 31 - 1 -> qc_tko_up cf < qc_master_wait cf;
  ac_token : 10000 <= qc_token_timeout cf;
  ac_fast : qdisk_fo (qc_interval cf) (qc_master_wait cf) (qc_upgrade_wait cf) (qc_tko cf) < qc_token_timeout cf
}.

Lemma static_interval_pos c cf : 1 <= qc_interval cf -> 1 <= static_interval c cf.
Proof. intros. unfold static_interval. case_match; [apply at_least_ge|done]. Qed.

Lemma static_timings_accepted c cf interval token cf1 :
  static_timings c cf interval token = (true, cf1) -> 1 <= interval -> 10000 <= token -> accepted cf1.
Proof.
  unfold static_timings.
  generalize (match ccs_int c "/cluster/quorumd/@tko" with
              | Some v => v | None => Z.quot (Z.quot token 1000 - interval) 2 end) as tko. intros tko.
  generalize (default (Z.quot tko 3) (ccs_int c "/cluster/quorumd/@tko_up")) as up. intros up.
  pose proof (at_least_ge 2 up) as Hup. generalize dependent (at_least 2 up). intros tko_up Hup.
  generalize (default 2 (ccs_int c "/cluster/quorumd/@upgrade_wait")) as uw. intros uw.
  pose proof (at_least_ge 1 uw) as Huw. generalize dependent (at_least 1 uw). intros upgrade Huw.
  generalize (default (Z.quot tko 2) (ccs_int c "/cluster/quorumd/@master_wait")) as mw. intros mw E Hi Ht.
  injection E as Hf <-.
  assert (tko_up < 2 ^ 31 - 1 -> tko_up < (if mw <=? tko_up then s32 (tko_up + 1) else mw)) as Hmw.
  { intros Hmax. destruct (mw <=? tko_up) eqn:E; zbool; [|lia]. rewrite (swrap_small 32) by (done || unfold in_s; lia). lia. }
  set (wait := if mw <=? tko_up then s32 (tko_up + 1) else mw) in *. clearbody wait.
  rewrite negb_true_iff, Z.geb_leb, Z.leb_gt in Hf. by split.
Qed.

Lemma static_accepted c d rv d' :
  get_static_config_data c d = (rv, d') -> 0 <= rv -> 1 <= qc_interval (d_conf d) ->
  accepted (d_conf d') /\ qc_incarnation (d_conf d') = qc_incarnation (d_conf d) /\
  qc_my_id (d_conf d') = qc_my_id (d_conf d) /\ qc_votes (d_conf d') = qc_votes (d_conf d) /\ d_config d' = d_config d.
Proof.
  unfold get_static_config_data. intros H Hrv Hi. destruct (_ <? 10000) eqn:Et; [injection H as <- _; lia|]. zbool.
  destruct (static_timings _ _ _ _) as [fast cf1] eqn:Es. destruct fast; [|injection H as <- _; lia]. cbn [negb] in H.
  destruct (bool_decide _ && bool_decide _); [injection H as <- _; lia|]. injection H as _ <-.
  apply static_timings_accepted in Es as Ha; [|by apply static_interval_pos|done].
  split; [by destruct Ha|]. unfold static_timings in Es. by injection Es as _ <-.
Qed.

Lemma first_conf fuel conn h d0 d r :
  get_config_data fuel conn h d0 = Some (0, d, r) -> d_config d0 = false ->
  accepted (d_conf d) /\ qc_incarnation (d_conf d) = qc_incarnation (d_conf d0) /\
  qc_my_id (d_conf d) = qc_my_id (d_conf d0) /\ 0 <= qc_votes (d_conf d) /\ d_config d = true.
Proof.
  intros H Hc. unfold get_config_data in H. destruct conn as [c|]; [|done]. rewrite Hc in H. cbv zeta in H.
  apply bind_Some in H as ([rv d2] & Hd & H). destruct (rv <? 0) eqn:Er; [done|]. zbool.
  destruct (dynamic_steady _ _ _ _ _ Hd) as [[= S1 S2 S3 S4 S5 S6 S7 S8] S9]. cbn in S9. rewrite Hc in S9. rewrite S9 in H.
  destruct (get_static_config_data c (set_config d2)) as [r' d3] eqn:Es. destruct (r' <? 0) eqn:Er'; [done|]. zbool.
  apply dynamic_votes_range in Hd as Hv; [|done|by cbn; rewrite Hc].
  apply static_accepted in Es as (A1 & A2 & A3 & A4 & A5); [|done|cbn; rewrite S7; done].
  destruct (configure_heuristics _ _ _) as [cfh h']. injection H as <- _. cbn in *.
  split; [by destruct A1|]. split_and!; congruence || lia.
Qed.

Lemma again_conf fuel conn h d rv d' r :
  get_config_data fuel conn h d = Some (rv, d', r) -> d_config d = true ->
  steady (d_conf d') = steady (d_conf d) /\ d_config d' = true.
Proof.
  intros H Hc. unfold get_config_data in H. destruct conn as [c|]; [|by simplify_eq]. rewrite Hc in H. cbv zeta in H.
  apply bind_Some in H as ([rv2 d2] & Hd & H). apply dynamic_steady in Hd as [Hs He]. rewrite Hc in He. rewrite He in H.
  destruct (rv2 <? 0); by injection H as _ <- _.
Qed.

Lemma steady_accepted cf cf' : steady cf' = steady cf -> accepted cf -> accepted cf'.
Proof. intros [= S1 S2 S3 S4 S5 S6 S7 S8] []. split; by rewrite ?S3, ?S4, ?S5, ?S6, ?S7, ?S8, ?S1, ?S2. Qed.

Lemma configured_accepted incarnation me d :
  configured incarnation me d -> accepted (d_conf d) /\ qc_incarnation (d_conf d) = incarnation /\
  qc_my_id (d_conf d) = me /\ d_config d = true.
Proof.
  induction 1 as [fuel conn h d0 d r Hi Hd|fuel conn h d ctx rv d' r _ (A1 & A2 & A3 & A4) Hd].
  - unfold qd_init in Hi. destruct (me =? 0); [done|]. injection Hi as <-.
    apply first_conf in Hd as (A1 & A2 & A3 & _ & A5); done.
  - apply again_conf in Hd as [Hs Hc]; [|done]. split; [by eapply steady_accepted|].
    injection Hs as S1 S2 _. split_and!; [by rewrite S1|by rewrite S2|done].
Qed.






(** C30: the timings of an accepted configuration, over the whole life of a daemon: each has
    its lower bound, a node bids for longer than it takes to see another unless [tko_up] is the
    largest [int], and the time a new master takes at least is less than the token timeout,
    where it fits an [int]. *)
Theorem accepted_timings incarnation me d (cf := d_conf d)
    (recovery := qc_interval cf * (qc_master_wait cf + qc_upgrade_wait cf + qc_tko cf) * 1000) :
  configured incarnation me d ->
  1 <= qc_interval cf /\ 2 <= qc_tko_up cf /\ (qc_tko_up cf < 2 ^ 31 - 1 -> qc_tko_up cf < qc_master_wait cf) /\
  1 <= qc_upgrade_wait cf /\
  10000 <= qc_token_timeout cf /\ (in_s 32 recovery -> recovery < qc_token_timeout cf).
Proof.
  intros Hd. destruct (configured_accepted _ _ _ Hd) as ([A1 A2 A3 A4 A5 A6] & _). split_and!; try done.
  intros Hin. pose proof (swrap_small 32 recovery Hin eq_refl) as E. unfold qdisk_fo in A6.
  change (s32 recovery < qc_token_timeout cf) in A6. by rewrite <- E.
Qed.

(** ** Scores *)

Record h_ok (h : h_data) : Prop := {
  ho_score : 1 <= h_score h;
  ho_tko : 1 <= h_tko h;
  ho_misses : 0 <= h_misses h;
  ho_available : h_available h = true -> h_misses h < h_tko h
}.

Lemma positive_or_pos d v : 1 <= d -> 1 <= positive_or d v.
Proof. intros. unfold positive_or. zcase; lia. Qed.

Lemma auto_timing_pos interval tko absmax : 3 <= absmax -> 1 <= (auto_heuristic_timing interval tko absmax).2.
Proof.
  intros H. unfold auto_heuristic_timing. assert ((absmax <? 3) = false) as -> by (apply Z.ltb_ge; lia). cbn [snd].
  apply Z.quot_le_lower_bound; repeat case_match; zbool; lia.
Qed.

Lemma heuristic_entry_ok c x h maxtime : 3 <= maxtime -> h_ok (heuristic_entry c x (heuristic_start h maxtime)).
Proof.
  intros Hm. pose proof (auto_timing_pos (h_interval h) (h_tko h) maxtime Hm) as Ht. unfold heuristic_start.
  destruct (auto_heuristic_timing _ _ _) as [interval tko]. cbn in Ht.
  split; cbn; try done; case_match; try done; by apply positive_or_pos.
Qed.

Lemma configure_from_ok c maxtime x h n h' :
  3 <= maxtime -> configure_heuristics_from c maxtime x h = (n, h') ->
  x <= n /\ length h' = length h /\ n <= x + Z.of_nat (length h) /\ Forall h_ok (take (Z.to_nat (n - x)) h').
Proof.
  intros Hm. revert x n h'. induction h as [|h0 h IH]; intros x n h' H; cbn in H.
  { injection H as <- <-. rewrite take_nil. split_and!; done || cbn; lia. }
  destruct (c _) as [prog|].
  - destruct (configure_heuristics_from c maxtime (x + 1) h) as [n1 rest] eqn:E. injection H as <- <-.
    destruct (IH _ _ _ E) as (A & B & C & D). cbn [length]. split_and!; [lia|by rewrite B|lia|].
    replace (Z.to_nat (n1 - x)) with (S (Z.to_nat (n1 - (x + 1)))) by lia. constructor; [by apply heuristic_entry_ok|done].
  - injection H as <- <-. rewrite Z.sub_diag. split_and!; done || cbn; lia.
Qed.

Lemma fork_ok h now pid : h_ok h -> h_ok (fork_heuristic h now pid).2.
Proof. intros []. unfold fork_heuristic. repeat case_match; done. Qed.

Lemma miss_ok h failed : h_ok h -> h_ok (heuristic_miss h failed).
Proof.
  intros [H1 H2 H3 H4]. unfold heuristic_miss. destruct (h_available h); split; cbn; try done; [lia|].
  rewrite negb_true_iff, Z.geb_leb, Z.leb_gt. done.
Qed.

Lemma check_ok h now ch : h_ok h -> h_ok (check_heuristic h now ch).
Proof.
  intros H. unfold check_heuristic. case_match; [done|]. destruct ch as [| |clean].
  - repeat case_match; try done; destruct H; split; cbn; done || lia.
  - by apply miss_ok.
  - repeat case_match; try by apply miss_ok. destruct H. split; cbn; done || lia.
Qed.

Lemma zip_with_ok {A} (f : h_data -> A -> h_data) h l :
  (forall x a, h_ok x -> h_ok (f x a)) -> Forall h_ok h -> Forall h_ok (zip_with f h l).
Proof. intros Hf H. revert l. induction H as [|x h' Hx _ IH]; intros [|a l]; constructor; auto. Qed.

(** The heuristics of the score thread: those configured, then round after round. *)
Inductive scored (c : ccs) (maxtime : Z) (h0 : list h_data) : list h_data -> Prop :=
  | scored_start n h : configure_heuristics c h0 maxtime = (n, h) -> scored c maxtime h0 (take (Z.to_nat n) h)
  | scored_round e h :
      scored c maxtime h0 h -> length (re_pids e) = length h -> length (re_waits e) = length h ->
      scored c maxtime h0 (score_round e h).1.

Fixpoint score_sum (h : list h_data) : Z := match h with [] => 0 | x :: h' => h_score x + score_sum h' end.

Lemma score_sum_pos h : Forall h_ok h -> 0 <= score_sum h.
Proof. induction 1 as [|x h [] _ IH]; cbn; lia. Qed.

Lemma total_fold h s m :
  Forall h_ok h -> 0 <= s <= m -> m + score_sum h < 2 ^ 31 ->
  let r := foldl (fun '(score, maxscore) x =>
    (if h_available x then s32 (score + h_score x) else score, s32 (maxscore + h_score x))) (s, m) h in
  0 <= fst r <= snd r /\ snd r = m + score_sum h.
Proof.
  intros H. revert s m. induction H as [|x h [H1 _ _ _] Hh IH]; intros s m Hs Hb; cbn in *; [lia|].
  pose proof (score_sum_pos h Hh). assert (forall z, 0 <= z < 2 ^ 31 -> s32 z = z) as Hw.
  { intros z Hz. apply swrap_small; [|done]. unfold in_s. change (2 ^ (32 - 1)) with (2 ^ 31). lia. }
  destruct (IH (if h_available x then s32 (s + h_score x) else s) (s32 (m + h_score x))) as [A B];
    rewrite ?Hw by lia; [case_match; lia|lia|].
  destruct (h_available x); rewrite ?Hw in * by lia; split; try done; lia.
Qed.

(** Whatever the heuristics do, each that is available has missed fewer times than its
    limit, and the score that qdiskd takes its place in the cluster by is between nothing
    and the maximum, which is at least one. *)
Theorem score_well_formed c maxtime h0 h :
  scored c maxtime h0 h -> 3 <= maxtime -> score_sum h < 2 ^ 31 ->
  Forall h_ok h /\ 0 <= (total_score h).1 <= (total_score h).2 /\ 1 <= (total_score h).2.
Proof.
  intros Hs Hm Hb. assert (Forall h_ok h) as Hok.
  { clear Hb. induction Hs as [n h E|e h _ IH Hp Hw].
    - unfold configure_heuristics in E. destruct h0 as [|x h0]; [injection E as <- <-; constructor|].
      apply configure_from_ok in E as (_ & _ & _ & H); [|done]. by rewrite Z.sub_0_r in H.
    - unfold score_round, check_heuristics, fork_heuristics. cbn.
      apply zip_with_ok; [intros; by apply check_ok|]. apply zip_with_ok; [intros; by apply fork_ok|done]. }
  split; [done|]. destruct h as [|x h]; [done|]. unfold total_score.
  destruct (total_fold (x :: h) 0 0 Hok) as [A B]; [lia|done|]. cbv zeta in A, B. split; [exact A|].
  rewrite B. cbn. inversion Hok as [|? ? [] Hh]; subst. pose proof (score_sum_pos h Hh). lia.
Qed.

(** One heuristic, run once and well. *)
Module ScoreSample.
Definition conf : ccs := fun path =>
  if String.eqb path "/cluster/quorumd/heuristic[1]/@program" then Some "ping"%string
  else if String.eqb path "/cluster/quorumd/heuristic[1]/@score" then Some "3"%string else None.
Definition array : list h_data := replicate 10 (mkH (0, 0) (0, 0) 0 false 0 0 0 0 0 0).
Definition env : round_env := mkRound (1, 0) [5] (2, 0) [ChildEnded true].
Definition after : list h_data := (score_round env (take 1 (configure_heuristics conf array 3).2)).1.
End ScoreSample.

Lemma score_well_formed_witness :
  total_score ScoreSample.after = (3, 3) /\ 1 <= (total_score ScoreSample.after).2.
Proof.
  split; [vm_compute; reflexivity|].
  apply (score_well_formed ScoreSample.conf 3 ScoreSample.array ScoreSample.after).
  - apply scored_round; [|vm_compute; reflexivity..].
    apply (scored_start ScoreSample.conf 3 ScoreSample.array 1). apply surjective_pairing.
  - lia.
  - vm_compute. reflexivity.
Defined.

(** ** A run *)

(** Two nodes with the default timings start, take turns, and the first one becomes the
    master. *)
Module Sample.
Definition conf : ccs := fun path =>
  if String.eqb path "/cluster/quorumd/@device" then Some "/dev/sdb1"%string
  else if String.eqb path "/cluster/quorumd/@votes" then Some "1"%string else None.
Definition no_heuristics : list h_data := replicate 10 (mkH (0, 0) (0, 0) 0 false 0 0 0 0 0 0).
Definition first (me : Z) : daemon :=
  default (mkD (mkConf 0 0 0 0 0 0 0 0 0 0 0 0) ctx_start false None None None None 0 0 true []) (qd_init 7 me).
Definition result (me : Z) : Z * daemon * option (Z * list h_data) :=
  default (0, first me, None) (get_config_data 2 (Some conf) no_heuristics (first me)).
Definition result1 := Eval vm_compute in result 1.
Definition result2 := Eval vm_compute in result 2.
Definition node_conf (i : Z) : qd_conf := d_conf (if i =? 1 then result1 else result2).1.2.

Lemma conf_configured : configured 7 1 result1.1.2.
Proof. apply (configured_first 7 1 2 (Some conf) no_heuristics (first 1) _ result1.2); [done|]. vm_compute. reflexivity. Qed.



Definition tape (now : Z) : nat -> write_env := fun _ => mkWe now None None true.
Definition disk : list status_block := qdisk_init (sb_zero 0 0) 0.

Definition the_proc (w : world) (i : Z) : proc :=
  default (mkProc (node_conf i) ctx_start [] (loop_start [] []) Looping None) (w_proc w i).
Definition env (w : world) : cycle_env :=
  mkCy (map Some (w_disk w)) 1 1 None true false (0, 0) (0, 0) (0, 0) (0, 0).
Definition one_less (ph : phase) : phase := match ph with Initialising (S n) => Initialising n | _ => ph end.

(** What a node does, at a time. *)
Inductive act := Start (i now : Z) | Init (i now : Z) | Enter (i : Z) | Turn (i now : Z) | Write (i : Z).

Definition exec (w : world) (a : act) : world :=
  match a with
  | Start i now =>
      let r := qd_write_status (node_conf i) i S_INIT None None None (mkQ ctx_start (tape now) []) in
      mkWorld (put_block i (default (sb_zero 0 0) (own_block i (q_out r.2))) (w_disk w))
        (<[i := Some (mkProc (node_conf i) (q_ctx r.2) (node_info_init now MAX_NODES_DISK) (loop_start empty_mask empty_mask)
                        (Initialising (Z.to_nat (qc_tko (node_conf i)))) None)]> (w_proc w))
        (started i (w_fresh w)) (<[i := now]> (w_time w)) (<[i := qc_incarnation (node_conf i)]> (w_inc w)) now now
  | Init i now =>
      let p := the_proc w i in
      let r := init_turn (p_conf p) (map Some (w_disk w)) (p_ni p) (mkQ (p_ctx p) (tape now) []) in
      mkWorld (notices i (q_out r.2) (w_disk w))
        (<[i := Some (mkProc (p_conf p) (q_ctx r.2) r.1.1 (p_lp p) (one_less (p_phase p)) (own_block i (q_out r.2)))]> (w_proc w))
        (has_read i (w_fresh w)) (w_time w) (w_inc w) now (w_boot w)
  | Enter i =>
      let p := the_proc w i in
      mkWorld (w_disk w)
        (<[i := Some (mkProc (p_conf p) (with_status (p_ctx p) S_NONE) (p_ni p) (loop_start empty_mask empty_mask) Looping None)]>
           (w_proc w)) (w_fresh w) (w_time w) (w_inc w) (w_now w) (w_boot w)
  | Turn i now =>
      let p := the_proc w i in
      let r := quorum_cycle (p_conf p) (env w) (p_ni p) (p_lp p) (mkQ (p_ctx p) (tape now) []) in
      mkWorld (notices i (q_out r.2) (w_disk w))
        (<[i := match r.1 with
                | Some (ni, lp) => Some (mkProc (p_conf p) (q_ctx r.2) ni lp Looping (own_block i (q_out r.2)))
                | None => None
                end]> (w_proc w)) (has_read i (w_fresh w)) (w_time w) (w_inc w) now (w_boot w)
  | Write i =>
      let p := the_proc w i in
      let sb := default (sb_zero 0 0) (p_pending p) in
      mkWorld (put_block i sb (w_disk w))
        (<[i := Some (mkProc (p_conf p) (p_ctx p) (p_ni p) (p_lp p) (p_phase p) None)]> (w_proc w))
        (wrote i (w_fresh w)) (<[i := ps_timestamp sb]> (w_time w)) (w_inc w) (w_now w) (w_boot w)
  end.












Definition init_round (t : Z) : list act := [Init 1 t; Write 1; Init 2 t; Write 2].
Definition turn_round (t : Z) : list act := [Turn 1 t; Write 1; Turn 2 t; Write 2].
Definition script : list act :=
  [Start 1 1; Start 2 2] ++ concat (map init_round [3; 4; 5; 6]) ++ [Enter 1; Enter 2] ++
  concat (map turn_round [7; 8; 9; 10; 11; 12]).
Definition after : world := foldl exec (world_start disk) script.

End Sample.


Lemma accepted_timings_witness :
  configured 7 1 Sample.result1.1.2 /\
  qc_interval (Sample.node_conf 1) * (qc_master_wait (Sample.node_conf 1) + qc_upgrade_wait (Sample.node_conf 1) + qc_tko (Sample.node_conf 1)) * 1000 <
    qc_token_timeout (Sample.node_conf 1).
Proof.
  split; [exact Sample.conf_configured|].
  destruct (accepted_timings 7 1 Sample.result1.1.2 Sample.conf_configured) as (_ & _ & _ & _ & _ & H).
  apply H. vm_compute. split; [discriminate|reflexivity].
Defined.
