(* ===== verification/DiskHash.v ===== *)
(** * The hash of names and log headers

    [src/gfs2/libgfs2/gfs2_disk_hash.c]: directories order their entries by the
    hash of the names, and a log header carries the hash of its bytes.  The same
    function with the same table is [cpgname_to_crc] of
    [src/group/dlm_controld/crc.c] and [src/group/gfs_controld/crc.c], which gives
    a lockspace or mount group its number.  A [char] is a signed byte, as on the
    machines the suite runs on; the hash does not depend on it. *)

From S2P Require Import Prelude.
Open Scope Z_scope.

Definition crc_32_tab : list Z :=
  [0x00000000; 0x77073096; 0xee0e612c; 0x990951ba; 0x076dc419; 0x706af48f; 0xe963a535; 0x9e6495a3;
   0x0edb8832; 0x79dcb8a4; 0xe0d5e91e; 0x97d2d988; 0x09b64c2b; 0x7eb17cbd; 0xe7b82d07; 0x90bf1d91;
   0x1db71064; 0x6ab020f2; 0xf3b97148; 0x84be41de; 0x1adad47d; 0x6ddde4eb; 0xf4d4b551; 0x83d385c7;
   0x136c9856; 0x646ba8c0; 0xfd62f97a; 0x8a65c9ec; 0x14015c4f; 0x63066cd9; 0xfa0f3d63; 0x8d080df5;
   0x3b6e20c8; 0x4c69105e; 0xd56041e4; 0xa2677172; 0x3c03e4d1; 0x4b04d447; 0xd20d85fd; 0xa50ab56b;
   0x35b5a8fa; 0x42b2986c; 0xdbbbc9d6; 0xacbcf940; 0x32d86ce3; 0x45df5c75; 0xdcd60dcf; 0xabd13d59;
   0x26d930ac; 0x51de003a; 0xc8d75180; 0xbfd06116; 0x21b4f4b5; 0x56b3c423; 0xcfba9599; 0xb8bda50f;
   0x2802b89e; 0x5f058808; 0xc60cd9b2; 0xb10be924; 0x2f6f7c87; 0x58684c11; 0xc1611dab; 0xb6662d3d;
   0x76dc4190; 0x01db7106; 0x98d220bc; 0xefd5102a; 0x71b18589; 0x06b6b51f; 0x9fbfe4a5; 0xe8b8d433;
   0x7807c9a2; 0x0f00f934; 0x9609a88e; 0xe10e9818; 0x7f6a0dbb; 0x086d3d2d; 0x91646c97; 0xe6635c01;
   0x6b6b51f4; 0x1c6c6162; 0x856530d8; 0xf262004e; 0x6c0695ed; 0x1b01a57b; 0x8208f4c1; 0xf50fc457;
   0x65b0d9c6; 0x12b7e950; 0x8bbeb8ea; 0xfcb9887c; 0x62dd1ddf; 0x15da2d49; 0x8cd37cf3; 0xfbd44c65;
   0x4db26158; 0x3ab551ce; 0xa3bc0074; 0xd4bb30e2; 0x4adfa541; 0x3dd895d7; 0xa4d1c46d; 0xd3d6f4fb;
   0x4369e96a; 0x346ed9fc; 0xad678846; 0xda60b8d0; 0x44042d73; 0x33031de5; 0xaa0a4c5f; 0xdd0d7cc9;
   0x5005713c; 0x270241aa; 0xbe0b1010; 0xc90c2086; 0x5768b525; 0x206f85b3; 0xb966d409; 0xce61e49f;
   0x5edef90e; 0x29d9c998; 0xb0d09822; 0xc7d7a8b4; 0x59b33d17; 0x2eb40d81; 0xb7bd5c3b; 0xc0ba6cad;
   0xedb88320; 0x9abfb3b6; 0x03b6e20c; 0x74b1d29a; 0xead54739; 0x9dd277af; 0x04db2615; 0x73dc1683;
   0xe3630b12; 0x94643b84; 0x0d6d6a3e; 0x7a6a5aa8; 0xe40ecf0b; 0x9309ff9d; 0x0a00ae27; 0x7d079eb1;
   0xf00f9344; 0x8708a3d2; 0x1e01f268; 0x6906c2fe; 0xf762575d; 0x806567cb; 0x196c3671; 0x6e6b06e7;
   0xfed41b76; 0x89d32be0; 0x10da7a5a; 0x67dd4acc; 0xf9b9df6f; 0x8ebeeff9; 0x17b7be43; 0x60b08ed5;
   0xd6d6a3e8; 0xa1d1937e; 0x38d8c2c4; 0x4fdff252; 0xd1bb67f1; 0xa6bc5767; 0x3fb506dd; 0x48b2364b;
   0xd80d2bda; 0xaf0a1b4c; 0x36034af6; 0x41047a60; 0xdf60efc3; 0xa867df55; 0x316e8eef; 0x4669be79;
   0xcb61b38c; 0xbc66831a; 0x256fd2a0; 0x5268e236; 0xcc0c7795; 0xbb0b4703; 0x220216b9; 0x5505262f;
   0xc5ba3bbe; 0xb2bd0b28; 0x2bb45a92; 0x5cb36a04; 0xc2d7ffa7; 0xb5d0cf31; 0x2cd99e8b; 0x5bdeae1d;
   0x9b64c2b0; 0xec63f226; 0x756aa39c; 0x026d930a; 0x9c0906a9; 0xeb0e363f; 0x72076785; 0x05005713;
   0x95bf4a82; 0xe2b87a14; 0x7bb12bae; 0x0cb61b38; 0x92d28e9b; 0xe5d5be0d; 0x7cdcefb7; 0x0bdbdf21;
   0x86d3d2d4; 0xf1d4e242; 0x68ddb3f8; 0x1fda836e; 0x81be16cd; 0xf6b9265b; 0x6fb077e1; 0x18b74777;
   0x88085ae6; 0xff0f6a70; 0x66063bca; 0x11010b5c; 0x8f659eff; 0xf862ae69; 0x616bffd3; 0x166ccf45;
   0xa00ae278; 0xd70dd2ee; 0x4e048354; 0x3903b3c2; 0xa7672661; 0xd06016f7; 0x4969474d; 0x3e6e77db;
   0xaed16a4a; 0xd9d65adc; 0x40df0b66; 0x37d83bf0; 0xa9bcae53; 0xdebb9ec5; 0x47b2cf7f; 0x30b5ffe9;
   0xbdbdf21c; 0xcabac28a; 0x53b39330; 0x24b4a3a6; 0xbad03605; 0xcdd70693; 0x54de5729; 0x23d967bf;
   0xb3667a2e; 0xc4614ab8; 0x5d681b02; 0x2a6f2b94; 0xb40bbe37; 0xc30c8ea1; 0x5a05df1b; 0x2d02ef8d].

(** One turn of the loop of [gfs2_disk_hash]. *)
Definition hash_byte (hash d : Z) : Z :=
  Z.lxor (nth (Z.to_nat (Z.land (Z.lxor hash (u32 d)) 0xff)) crc_32_tab 0) (Z.shiftr hash 8).

Definition gfs2_disk_hash (data : list Z) : Z :=
  u32 (Z.lnot (foldl hash_byte 0xffffffff data)).

Lemma disk_hash_range data : in_u 32 (gfs2_disk_hash data).
Proof. unfold gfs2_disk_hash. by apply wrap_range. Qed.

(** ** The polynomial

    [crc32_le] of the kernel, which the comment of [gfs2_disk_hash] refers to: the
    remainder for the reflected polynomial, one bit at a time. *)

Definition crc_step (x : Z) : Z :=
  Z.lxor (Z.shiftr x 1) (if Z.testbit x 0 then 0xedb88320 else 0).

Definition crc32_le (crc : Z) (data : list Z) : Z :=
  foldl (fun x d => Nat.iter 8 crc_step (Z.lxor x d)) crc data.

(** The step is linear, and undoes a shift. *)
Lemma crc_step_lxor a b : crc_step (Z.lxor a b) = Z.lxor (crc_step a) (crc_step b).
Proof.
  unfold crc_step. rewrite Z.lxor_spec, Z.shiftr_lxor.
  apply Z.bits_inj'. intros i _. rewrite !Z.lxor_spec.
  destruct (Z.testbit a 0), (Z.testbit b 0); cbn [xorb]; rewrite ?Z.bits_0;
    by destruct (Z.testbit (Z.shiftr a 1) i), (Z.testbit (Z.shiftr b 1) i), (Z.testbit 0xedb88320 i).
Qed.

Lemma crc_steps_lxor n a b :
  Nat.iter n crc_step (Z.lxor a b) = Z.lxor (Nat.iter n crc_step a) (Nat.iter n crc_step b).
Proof. induction n as [|n IH]; simpl; [done|]. by rewrite IH, crc_step_lxor. Qed.

Lemma crc_steps_shiftl n y : Nat.iter n crc_step (Z.shiftl y (Z.of_nat n)) = y.
Proof.
  revert y. induction n as [|n IH]; intros y; [by rewrite Z.shiftl_0_r|].
  rewrite Nat.iter_succ_r. rewrite <- (IH y) at 2. f_equal. unfold crc_step.
  rewrite Z.shiftl_spec_low, Z.lxor_0_r by lia.
  rewrite Z.shiftr_shiftl_l by lia. f_equal. lia.
Qed.

Lemma crc_steps_shiftl8 y : Nat.iter 8 crc_step (Z.shiftl y 8) = y.
Proof. exact (crc_steps_shiftl 8 y). Qed.

Lemma crc_step_in_u x : in_u 32 x -> in_u 32 (crc_step x).
Proof.
  intros H. apply in_u_lxor; [lia|by apply in_u_shiftr|]. by destruct (Z.testbit x 0).
Qed.

Lemma crc_steps_in_u n x : in_u 32 x -> in_u 32 (Nat.iter n crc_step x).
Proof. intros H. induction n; simpl; [done|by apply crc_step_in_u]. Qed.

(** The table holds the remainders of the bytes. *)
Lemma crc_32_tab_spec k :
  in_u 8 k -> nth (Z.to_nat k) crc_32_tab 0 = Nat.iter 8 crc_step k.
Proof.
  intros [H0 H1].
  assert (T : forallb (fun i => nth i crc_32_tab 0 =? Nat.iter 8 crc_step (Z.of_nat i))
                (seq 0 256) = true) by (vm_compute; reflexivity).
  rewrite forallb_forall in T. specialize (T (Z.to_nat k)).
  rewrite Z2Nat.id in T by done. apply Z.eqb_eq, T, in_seq. lia.
Qed.

Lemma byte_and_rest x : x = Z.lxor (Z.land x 0xff) (Z.shiftl (Z.shiftr x 8) 8).
Proof.
  apply Z.bits_inj'. intros i Hi. change 0xff with (Z.ones 8).
  rewrite Z.lxor_spec, Z.land_spec, Z.testbit_ones_nonneg by lia.
  destruct (Z.ltb_spec i 8).
  - rewrite Z.shiftl_spec_low by done. by rewrite andb_true_r, xorb_false_r.
  - rewrite Z.shiftl_spec, Z.shiftr_spec by lia. rewrite andb_false_r. simpl. f_equal. lia.
Qed.

Lemma hash_byte_crc h d : hash_byte h d = Nat.iter 8 crc_step (Z.lxor h (u8 d)).
Proof.
  unfold hash_byte. set (x := Z.lxor h (u8 d)).
  assert (Hlow : Z.land (Z.lxor h (u32 d)) 0xff = Z.land x 0xff).
  { apply Z.bits_inj'. intros i Hi. change 0xff with (Z.ones 8). subst x.
    rewrite !Z.land_spec, !Z.lxor_spec, !wrap_testbit, Z.testbit_ones_nonneg by lia.
    destruct (Z.ltb_spec i 8), (Z.ltb_spec i 32); rewrite ?andb_false_r; try done; lia. }
  assert (Hhigh : Z.shiftr h 8 = Z.shiftr x 8).
  { apply Z.bits_inj'. intros i Hi. subst x. rewrite !Z.shiftr_spec, Z.lxor_spec, wrap_testbit by lia.
    destruct (Z.ltb_spec (i + 8) 8); [lia|]. by rewrite xorb_false_r. }
  rewrite Hlow, Hhigh, crc_32_tab_spec
    by (change 0xff with (Z.ones 8); rewrite Z.land_ones by lia; apply Z.mod_pos_bound; lia).
  rewrite (byte_and_rest x) at 3. rewrite crc_steps_lxor.
  by rewrite crc_steps_shiftl8.
Qed.

Lemma hash_bytes_crc data h : foldl hash_byte h data = crc32_le h (map u8 data).
Proof.
  revert h. unfold crc32_le. induction data as [|d data IH]; intros h; simpl; [done|].
  by rewrite hash_byte_crc, IH.
Qed.

Lemma crc32_le_in_u data h : in_u 32 h -> in_u 32 (crc32_le h (map u8 data)).
Proof.
  revert h. unfold crc32_le. induction data as [|d data IH]; intros h Hh; [done|].
  cbn [map foldl]. apply IH, crc_steps_in_u, in_u_lxor; [lia|done|].
  apply (in_u_bounded 32 8); [lia|]. by apply wrap_range.
Qed.

Lemma u32_lnot x : in_u 32 x -> u32 (Z.lnot x) = Z.lxor x 0xffffffff.
Proof.
  intros H. apply Z.bits_inj'. intros i Hi. rewrite wrap_testbit by lia.
  change 0xffffffff with (Z.ones 32). rewrite Z.lxor_spec, Z.testbit_ones_nonneg, Z.lnot_spec by lia.
  destruct (Z.ltb_spec i 32); simpl.
  - by destruct (Z.testbit x i).
  - rewrite in_u_testbit in H by lia. rewrite H by lia. done.
Qed.

Lemma disk_hash_crc data :
  gfs2_disk_hash data = Z.lxor (crc32_le 0xffffffff (map u8 data)) 0xffffffff.
Proof.
  unfold gfs2_disk_hash. rewrite hash_bytes_crc. apply u32_lnot, crc32_le_in_u. done.
Qed.

(** C34: The hash of a name or a log header is the CRC the kernel computes,
    [crc32_le(0xFFFFFFFF, data, len) ^ 0xFFFFFFFF], for every sequence of
    characters, signed or not. *)
Theorem disk_hash_is_crc32 data :
  gfs2_disk_hash data = Z.lxor (crc32_le 0xffffffff (map u8 data)) 0xffffffff /\
  in_u 32 (gfs2_disk_hash data).
Proof.
  rewrite disk_hash_crc. split; [done|]. apply in_u_lxor; [lia|by apply crc32_le_in_u|done].
Qed.

(** ** What the hash detects *)

Lemma crc_step_zero x : in_u 32 x -> crc_step x = 0 -> x = 0.
Proof.
  intros Hx E. rewrite in_u_testbit in Hx by lia. unfold crc_step in E.
  destruct (Z.testbit x 0) eqn:E0.
  - apply (f_equal (fun z => Z.testbit z 31)) in E.
    rewrite Z.lxor_spec, Z.shiftr_spec, Hx in E by lia. discriminate E.
  - rewrite Z.lxor_0_r in E. apply Z.bits_inj'. intros i Hi. rewrite Z.bits_0.
    destruct (decide (i = 0)) as [->|Hne]; [done|].
    apply (f_equal (fun z => Z.testbit z (i - 1))) in E.
    rewrite Z.shiftr_spec, Z.bits_0 in E by lia. rewrite <- E. f_equal. lia.
Qed.

Lemma crc_steps_inj n a b :
  in_u 32 a -> in_u 32 b -> Nat.iter n crc_step a = Nat.iter n crc_step b -> a = b.
Proof.
  intros Ha Hb. assert (G : forall m x, in_u 32 x -> Nat.iter m crc_step x = 0 -> x = 0).
  { induction m as [|m IH]; intros x Hx; [done|]. rewrite Nat.iter_succ_r. intros E.
    apply crc_step_zero; [done|]. apply IH; [by apply crc_step_in_u|done]. }
  intros E. apply Z.lxor_eq. apply (G n); [by apply in_u_lxor|].
  by rewrite crc_steps_lxor, E, Z.lxor_nilpotent.
Qed.

Lemma crc32_le_word l h :
  crc32_le h l = Nat.iter (8 * length l) crc_step (Z.lxor h (le_word l)).
Proof.
  revert h. induction l as [|b l IH]; intros h.
  - cbn. by rewrite Z.lxor_0_r.
  - change (crc32_le h (b :: l)) with (crc32_le (Nat.iter 8 crc_step (Z.lxor h b)) l).
    rewrite IH. cbn [length le_word].
    replace (8 * S (length l))%nat with (8 * length l + 8)%nat by lia.
    by rewrite Nat.iter_add, <- Z.lxor_assoc, (crc_steps_lxor 8 (Z.lxor h b)), crc_steps_shiftl8.
Qed.

Lemma u8_bytes data : Forall (in_u 8) (map u8 data).
Proof. apply Forall_fmap, Forall_true. intros d. by apply wrap_range. Qed.

Lemma crc32_le_app l l' h : crc32_le h (l ++ l') = crc32_le (crc32_le h l) l'.
Proof. apply foldl_app. Qed.

Lemma in_u_byte d : in_u 32 (u8 d).
Proof. apply (in_u_bounded 32 8); [lia|by apply wrap_range]. Qed.

Lemma lxor_cancel_r a b c : Z.lxor a c = Z.lxor b c -> a = b.
Proof.
  intros E. apply (f_equal (fun z => Z.lxor z c)) in E.
  by rewrite !Z.lxor_assoc, !Z.lxor_nilpotent, !Z.lxor_0_r in E.
Qed.

Lemma crc32_le_inj data a b :
  in_u 32 a -> in_u 32 b ->
  crc32_le a (map u8 data) = crc32_le b (map u8 data) -> a = b.
Proof.
  revert a b. induction data as [|d data IH]; intros a b Ha Hb; [done|].
  change (crc32_le (Nat.iter 8 crc_step (Z.lxor a (u8 d))) (map u8 data) =
          crc32_le (Nat.iter 8 crc_step (Z.lxor b (u8 d))) (map u8 data) -> a = b).
  intros E. pose proof (in_u_byte d) as Hd.
  assert (Ha' : in_u 32 (Z.lxor a (u8 d))) by (by apply in_u_lxor).
  assert (Hb' : in_u 32 (Z.lxor b (u8 d))) by (by apply in_u_lxor).
  apply IH in E; [|by apply crc_steps_in_u..].
  apply crc_steps_inj in E; [|done..]. by apply lxor_cancel_r in E.
Qed.

(** A change of a log header or a name that lies within four consecutive
    bytes always changes the hash. *)
Theorem disk_hash_detects pre post d d' :
  length d = length d' -> (length d <= 4)%nat -> map u8 d <> map u8 d' ->
  gfs2_disk_hash (pre ++ d ++ post) <> gfs2_disk_hash (pre ++ d' ++ post).
Proof.
  intros Hlen H4 Hne E. rewrite !disk_hash_crc, !map_app, !crc32_le_app in E.
  apply lxor_cancel_r in E.
  assert (Hh : in_u 32 (crc32_le 0xffffffff (map u8 pre))) by (apply crc32_le_in_u; done).
  generalize dependent (crc32_le 0xffffffff (map u8 pre)). intros h E Hh.
  apply crc32_le_inj in E; [|by apply crc32_le_in_u..].
  rewrite !crc32_le_word, !length_map, Hlen in E.
  assert (W : forall l, (length l <= 4)%nat -> in_u 32 (le_word (map u8 l))).
  { intros l Hl. eapply in_u_bounded; [|apply le_word_in_u, u8_bytes].
    rewrite length_map. lia. }
  apply crc_steps_inj in E; [|apply in_u_lxor; [lia|done|apply W; lia]..].
  apply Hne, le_word_inj; [apply u8_bytes..|by rewrite !length_map|].
  rewrite !(Z.lxor_comm h) in E. by apply lxor_cancel_r in E.
Qed.

Lemma disk_hash_detects_witness :
  gfs2_disk_hash ([0x01; 0x16] ++ [0x19; 0x70] ++ [0; 8]) <>
  gfs2_disk_hash ([0x01; 0x16] ++ [0x19; 0x71] ++ [0; 8]).
Proof. apply disk_hash_detects; [reflexivity|simpl; lia|vm_compute; discriminate]. Defined.
