(* ===== verification/QDiskBlock.v ===== *)
(** * The blocks of the quorum disk

    [src/cman/qdisk/disk.c]: every block of the disk has a header with checksums in front
    of its data, in little-endian order; the status block within it is in big-endian
    order.  [qdisk_write] and [qdisk_read] go through a bounce buffer when their own one
    is not aligned to twice the block size.

    [crc32] of zlib is a parameter; what is used of it is that it is a 32-bit value and
    that a change within four bytes in a row changes it.  The buffers that
    [posix_memalign] gives have contents of their own, and the results of [read] and
    [write] are inputs. *)

From S2P Require Import Prelude QDisk PlockWire DiskHash.
Open Scope Z_scope.

Definition le_swap (h : host) (n : nat) (v : Z) : Z :=
  match h with LittleEndian => v | BigEndian => bswap n v end.
Definition be_swap (h : host) (n : nat) (v : Z) : Z :=
  match h with LittleEndian => bswap n v | BigEndian => v end.

Definition SHARED_HEADER_MAGIC : Z := 0x00DEBB1E.

(** ** The header of a block *)

Record shared_header := mkSh {
  h_magic : Z;
  h_hcrc : Z;
  h_dcrc : Z;
  h_length : Z;
  h_view : Z;
  h_timestamp : Z
}.

Definition header_sizes : list nat := [4; 4; 4; 4; 8; 8]%nat.
Definition HEADER_LEN : Z := 32.

Definition header_fields (hd : shared_header) : list Z :=
  [h_magic hd; h_hcrc hd; h_dcrc hd; h_length hd; h_view hd; h_timestamp hd].

(** A header as the bytes a host has in its memory, and back. *)
Definition header_bytes (h : host) (hd : shared_header) : list Z := store_fields h header_sizes (header_fields hd).

Definition header_at (h : host) (l : list Z) : shared_header :=
  match load_fields h header_sizes l with
  | [m; hc; dc; len; v; t] => mkSh m hc dc len v t
  | _ => mkSh 0 0 0 0 0 0
  end.

Definition header_swap (h : host) (hd : shared_header) : shared_header :=
  mkSh (le_swap h 4 (h_magic hd)) (le_swap h 4 (h_hcrc hd)) (le_swap h 4 (h_dcrc hd)) (le_swap h 4 (h_length hd))
    (le_swap h 8 (h_view hd)) (le_swap h 8 (h_timestamp hd)).

Definition header_encode (h : host) (hd : shared_header) : shared_header :=
  if h_magic hd =? le_swap h 4 SHARED_HEADER_MAGIC then hd else header_swap h hd.

Definition header_decode (h : host) (hd : shared_header) : shared_header :=
  if h_magic hd =? SHARED_HEADER_MAGIC then hd else header_swap h hd.

Definition set_hcrc (hd : shared_header) (c : Z) : shared_header :=
  mkSh (h_magic hd) c (h_dcrc hd) (h_length hd) (h_view hd) (h_timestamp hd).

(** ** The status block *)

Definition status_sizes : list nat :=
  [4; 4; 8; 4; 4; 1; 1; 2; 2; 2; 4; 4; 4; 4; 8; 2; 2; 4]%nat.
Definition STATUS_LEN : Z := 80.

Definition status_fields (sb : status_block) : list Z :=
  [ps_magic sb; ps_updatenode sb; ps_timestamp sb; ps_nodeid sb; 0; ps_state sb; 0; ps_flags sb; ps_score sb;
   ps_scoremax sb; fst (ps_ca sb); snd (ps_ca sb); fst (ps_lc sb); snd (ps_lc sb); ps_incarnation sb; ps_msg sb;
   ps_seq sb; ps_arg sb].

Definition status_bytes (h : host) (sb : status_block) : list Z :=
  store_fields h status_sizes (status_fields sb) ++ ps_mask sb ++ ps_master_mask sb.

Definition status_at (h : host) (l : list Z) : status_block :=
  match load_fields h status_sizes l with
  | [m; u; t; n; _; st; _; fl; sc; mx; cs; cu; ls; lu; inc; msg; seq; arg] =>
      mkSb m u t n st fl sc mx (cs, cu) (ls, lu) inc msg seq arg (take 8 (drop 64 l)) (take 8 (drop 72 l))
  | _ => sb_zero 0 0
  end.

(** The incarnation is not converted; the pads are zero. *)
Definition swab_status_block (h : host) (sb : status_block) : status_block :=
  mkSb (be_swap h 4 (ps_magic sb)) (be_swap h 4 (ps_updatenode sb)) (be_swap h 8 (ps_timestamp sb))
    (be_swap h 4 (ps_nodeid sb)) (ps_state sb) (be_swap h 2 (ps_flags sb)) (be_swap h 2 (ps_score sb))
    (be_swap h 2 (ps_scoremax sb)) (be_swap h 4 (fst (ps_ca sb)), be_swap h 4 (snd (ps_ca sb)))
    (be_swap h 4 (fst (ps_lc sb)), be_swap h 4 (snd (ps_lc sb))) (ps_incarnation sb) (be_swap h 2 (ps_msg sb))
    (be_swap h 2 (ps_seq sb)) (be_swap h 4 (ps_arg sb)) (ps_mask sb) (ps_master_mask sb).

Section disk.
Context (crc32 : list Z -> Z).

Definition clu_crc32 (data : list Z) : Z := u32 (crc32 data).

(** ** Checksums *)

(** [None] when a checksum is zero. *)
Definition header_generate (h : host) (data : list Z) (now : Z) : option shared_header :=
  let with_data := negb (Z.of_nat (length data) =? 0) in
  let dcrc := if with_data then clu_crc32 data else 0 in
  let len := if with_data then u32 (Z.of_nat (length data)) else 0 in
  if with_data && (dcrc =? 0) then None
  else
    let hd := set_hcrc (header_encode h (mkSh SHARED_HEADER_MAGIC 0 dcrc len 0 (u64 now))) 0 in
    let hd := set_hcrc hd (le_swap h 4 (clu_crc32 (header_bytes h hd))) in
    if h_hcrc hd =? 0 then None else Some hd.

(** A header that passes, one that does not, and a checksum over more bytes than there
    are.  Data shorter than the header says is not checked. *)
Inductive ver_result := VerOk (hd : shared_header) | VerBad | VerOverrun.

Definition header_verify (h : host) (hd : shared_header) (data : list Z) (count : Z) : ver_result :=
  let bkupcrc := le_swap h 4 (h_hcrc hd) in
  let crc := clu_crc32 (header_bytes h (set_hcrc hd 0)) in
  let hd := set_hcrc hd bkupcrc in
  if negb (bkupcrc =? crc) then VerBad
  else
    let hd := header_decode h hd in
    if negb (h_magic hd =? SHARED_HEADER_MAGIC) then VerBad
    else if (count =? 0) || (count <? h_length hd) then VerOk hd
    else
      let n := if count >? h_length hd then h_length hd else count in
      if n >? Z.of_nat (length data) then VerOverrun
      else if negb (h_dcrc hd =? clu_crc32 (take (Z.to_nat n) data)) then VerBad
      else VerOk hd.

(** ** Raw transfers *)

(** [bounce] says that the buffer is not aligned.  [media] is what [read] gives; [None] is
    an error.  The bounce buffer is copied to from the buffer, not the other way. *)
Definition diskRawRead (bounce : bool) (blksz : Z) (buf : list Z) (media : option (list Z)) (len : Z) : Z * list Z :=
  let got := match media with Some l => Z.of_nat (length l) | None => -1 end in
  let bounce := bounce || negb (len mod blksz =? 0) in
  if negb bounce then (got, match media with Some l => l ++ drop (length l) buf | None => buf end)
  else if len >? blksz then (-1, buf)
  else (if (got >? 0) && (got >? len) then len else got, buf).

(** The block, as it is after the transfer, and what is put on the disk; [wrote] is the
    result of [write].  The bounce buffer is copied over the buffer. *)
Definition diskRawWrite (bounce : bool) (blksz : Z) (buf spare : list Z) (wrote len : Z) : Z * option (list Z) :=
  let bounce := bounce || negb (len mod blksz =? 0) in
  if negb bounce then (wrote, Some (take (Z.to_nat len) buf))
  else if len >? blksz then (-1, None)
  else (if wrote >? len then len else wrote, Some spare).

(** Results of [qdisk_read]: an error, the bytes for the caller, or an access outside of
    the block or of the caller's buffer. *)
Inductive io_result := ReadErr | ReadOk (data : list Z) | ReadOutside.

(** [buf] is what [posix_memalign] gave, of the size of a block. *)
Definition qdisk_read (h : host) (bounce : bool) (blksz : Z) (buf : list Z) (media : option (list Z)) (count : Z)
    : io_result :=
  let '(ret, blk) := diskRawRead bounce blksz buf media blksz in
  if negb (ret =? blksz) then ReadErr
  else
    let data := drop (Z.to_nat HEADER_LEN) blk in
    match header_verify h (header_at h blk) data blksz with
    | VerBad => ReadErr
    | VerOverrun => ReadOutside
    | VerOk hd =>
        if (h_length hd >? Z.of_nat (length data)) || (h_length hd >? count) then ReadOutside
        else ReadOk (take (Z.to_nat (h_length hd)) data ++ replicate (Z.to_nat (count - h_length hd)) 0)
    end.

(** The result and the block on the disk, when there is one.  Data that fits in a block
    but not with its header is not written, and the result is that of a success. *)
Definition qdisk_write (h : host) (bounce : bool) (blksz : Z) (buf spare data : list Z) (now wrote : Z)
    : Z * option (list Z) :=
  let count := Z.of_nat (length data) in
  if count >=? blksz then (-1, None)
  else match header_generate h data now with
  | None => (-1, None)
  | Some hd =>
      let whole := header_bytes h hd ++ data in
      if count + HEADER_LEN >? blksz then (count, None)
      else
        let blk := whole ++ drop (length whole) buf in
        let '(ret, out) := diskRawWrite bounce blksz blk spare wrote blksz in
        (if ret =? blksz then count else -1, out)
  end.

(** A status block, written on one host and read on another. *)
Definition write_status (h : host) (bounce : bool) (blksz : Z) (buf spare : list Z) (sb : status_block) (now wrote : Z)
    : Z * option (list Z) :=
  qdisk_write h bounce blksz buf spare (status_bytes h (swab_status_block h sb)) now wrote.

Definition read_status (h : host) (bounce : bool) (blksz : Z) (buf : list Z) (media : option (list Z))
    : option status_block :=
  match qdisk_read h bounce blksz buf media STATUS_LEN with
  | ReadOk l => Some (swab_status_block h (status_at h l))
  | _ => None
  end.

(** ** What the bytes of a header say *)

Lemma store_load h n l : Forall is_byte l -> length l = n -> store h n (load h l) = l.
Proof.
  intros Hb <-. destruct h; cbn.
  - rewrite <- (length_rev l), le_bytes_value by (by apply Forall_rev). apply rev_involutive.
  - by apply le_bytes_value.
Qed.

Lemma le_swap_load h n l : Forall is_byte l -> length l = n -> le_swap h n (load h l) = le_value l.
Proof.
  intros Hb <-. destruct h; [|done]. cbn. unfold bswap.
  rewrite <- (length_rev l), le_bytes_value by (by apply Forall_rev). by rewrite rev_involutive.
Qed.

Lemma load_le_swap h n v : in_u (8 * Z.of_nat n) v -> load h (le_bytes n v) = le_swap h n v.
Proof. intros. rewrite load_le_bytes by done. by destruct h. Qed.

(** Six fields and what follows. *)
Record header_split (l m c d n v t rest : list Z) : Prop := {
  hs_eq : l = m ++ c ++ d ++ n ++ v ++ t ++ rest;
  hs_len : length m = 4%nat /\ length c = 4%nat /\ length d = 4%nat /\ length n = 4%nat /\ length v = 8%nat /\ length t = 8%nat;
  hs_bytes : Forall is_byte (m ++ c ++ d ++ n ++ v ++ t)
}.

Definition zeros : list Z := [0; 0; 0; 0].

Ltac fields_at := repeat (rewrite take_app_length' || rewrite drop_app_length'); try done.

Lemma header_at_split h l m c d n v t rest :
  header_split l m c d n v t rest ->
  header_at h l = mkSh (load h m) (load h c) (load h d) (load h n) (load h v) (load h t).
Proof.
  intros [-> (L1 & L2 & L3 & L4 & L5 & L6) _]. unfold header_at, header_sizes. cbn [load_fields]. by fields_at.
Qed.

Lemma header_bytes_split h l m c d n v t rest :
  header_split l m c d n v t rest ->
  header_bytes h (set_hcrc (header_at h l) 0) = m ++ zeros ++ d ++ n ++ v ++ t /\
  le_swap h 4 (h_hcrc (header_at h l)) = le_value c.
Proof.
  intros H. rewrite (header_at_split h _ _ _ _ _ _ _ _ H). destruct H as [_ (L1 & L2 & L3 & L4 & L5 & L6) Hb].
  rewrite !Forall_app in Hb. destruct Hb as (B1 & B2 & B3 & B4 & B5 & B6).
  split; [|by apply le_swap_load]. unfold header_bytes, header_sizes, header_fields. cbn [store_fields set_hcrc h_magic h_hcrc h_dcrc h_length h_view h_timestamp].
  rewrite !store_load, app_nil_r by done. by destruct h.
Qed.

Lemma verify_bad_crc h l m c d n v t rest data count :
  header_split l m c d n v t rest ->
  le_value c <> clu_crc32 (m ++ zeros ++ d ++ n ++ v ++ t) -> header_verify h (header_at h l) data count = VerBad.
Proof.
  intros H Hne. destruct (header_bytes_split h _ _ _ _ _ _ _ _ H) as [E1 E2]. unfold header_verify.
  rewrite E1, E2. by rewrite (proj2 (Z.eqb_neq _ _) Hne).
Qed.

(** A header with a right checksum and magic number, on any host. *)
Lemma verify_good h l m c d n v t rest data count :
  header_split l m c d n v t rest ->
  le_value c = clu_crc32 (m ++ zeros ++ d ++ n ++ v ++ t) -> le_value m = SHARED_HEADER_MAGIC ->
  le_value n <= Z.of_nat (length data) <= count -> 0 < count ->
  exists hd, h_length hd = le_value n /\
  header_verify h (header_at h l) data count =
    if le_value d =? clu_crc32 (take (Z.to_nat (le_value n)) data) then VerOk hd else VerBad.
Proof.
  intros H Hc Hm Hn Hcnt. destruct (header_bytes_split h _ _ _ _ _ _ _ _ H) as [E1 E2]. unfold header_verify.
  rewrite E1, E2, <- Hc, Z.eqb_refl. cbn [negb].
  rewrite (header_at_split h _ _ _ _ _ _ _ _ H). destruct H as [_ (L1 & L2 & L3 & L4 & L5 & L6) Hb].
  rewrite !Forall_app in Hb. destruct Hb as (B1 & B2 & B3 & B4 & B5 & B6).
  set (hd := header_decode _ _).
  assert (h_magic hd = SHARED_HEADER_MAGIC /\ h_length hd = le_value n /\ h_dcrc hd = le_value d) as (M & N & D).
  { subst hd. unfold header_decode. cbn [set_hcrc h_magic].
    rewrite <- Hm, <- (le_swap_load h 4 m), <- (le_swap_load h 4 n), <- (le_swap_load h 4 d) by done.
    destruct h; cbn [le_swap]; [|by rewrite Z.eqb_refl]. rewrite (proj2 (Z.eqb_neq _ _)); [done|].
    intros E. assert (bswap 4 (load BigEndian m) = SHARED_HEADER_MAGIC) as E3.
    { rewrite <- Hm. by apply (le_swap_load BigEndian 4). }
    rewrite E3 in E. rewrite E in E3. vm_compute in E3. discriminate E3. }
  rewrite M, N, D, Z.eqb_refl. cbn [negb]. exists hd. split; [done|].
  rewrite (proj2 (Z.eqb_neq _ _)), (proj2 (Z.ltb_ge _ _)) by lia. cbn [orb].
  set (k := if count >? le_value n then _ else _). assert (k = le_value n) as -> by (subst k; case_match; [done|]; zbool; lia).
  rewrite Z.gtb_ltb, (proj2 (Z.ltb_ge _ _)) by lia. by destruct (_ =? _).
Qed.

(** The same for the bytes of a block. *)
Definition f_magic (l : list Z) : Z := le_value (take 4 l).
Definition f_hcrc (l : list Z) : Z := le_value (take 4 (drop 4 l)).
Definition f_dcrc (l : list Z) : Z := le_value (take 4 (drop 8 l)).
Definition f_length (l : list Z) : Z := le_value (take 4 (drop 12 l)).
Definition zeroed (l : list Z) : list Z := take 4 l ++ zeros ++ take 24 (drop 8 l).

Lemma split_block l : (32 <= length l)%nat -> Forall is_byte l ->
  header_split l (take 4 l) (take 4 (drop 4 l)) (take 4 (drop 8 l)) (take 4 (drop 12 l)) (take 8 (drop 16 l))
    (take 8 (drop 24 l)) (drop 32 l).
Proof.
  intros Hl Hb. assert (forall (a n : nat) (x : list Z), drop a x = take n (drop a x) ++ drop (a + n) x) as Hd.
  { intros a n x. by rewrite <- drop_drop, take_drop. }
  split.
  - rewrite <- (take_drop 4 l) at 1. f_equal. etransitivity; [apply (Hd 4 4)%nat|]. f_equal.
    etransitivity; [apply (Hd 8 4)%nat|]. f_equal. etransitivity; [apply (Hd 12 4)%nat|]. f_equal.
    etransitivity; [apply (Hd 16 8)%nat|]. f_equal. apply (Hd 24 8)%nat.
  - rewrite !length_take, !length_drop. lia.
  - rewrite !Forall_app. split_and!; auto using Forall_take, Forall_drop.
Qed.

Lemma zeroed_split l : (32 <= length l)%nat ->
  take 4 l ++ zeros ++ take 4 (drop 8 l) ++ take 4 (drop 12 l) ++ take 8 (drop 16 l) ++ take 8 (drop 24 l) = zeroed l.
Proof.
  intros Hl. unfold zeroed. do 2 f_equal.
  assert (forall (a n k : nat) (x : list Z), take n (drop a x) ++ take k (drop (a + n) x) = take (n + k) (drop a x)) as Hd.
  { intros a n k x. rewrite <- drop_drop. apply take_take_drop. }
  by rewrite (Hd 16 8 8)%nat, (Hd 12 4 16)%nat, (Hd 8 4 20)%nat.
Qed.

Lemma verify_block_bad h l data count :
  (32 <= length l)%nat -> Forall is_byte l -> f_hcrc l <> clu_crc32 (zeroed l) ->
  header_verify h (header_at h l) data count = VerBad.
Proof. intros Hl Hb Hc. eapply verify_bad_crc; [by apply split_block|]. by rewrite zeroed_split. Qed.

Lemma verify_block_good h l data count :
  (32 <= length l)%nat -> Forall is_byte l -> f_hcrc l = clu_crc32 (zeroed l) -> f_magic l = SHARED_HEADER_MAGIC ->
  f_length l <= Z.of_nat (length data) <= count -> 0 < count ->
  exists hd, h_length hd = f_length l /\ header_verify h (header_at h l) data count =
    if f_dcrc l =? clu_crc32 (take (Z.to_nat (f_length l)) data) then VerOk hd else VerBad.
Proof. intros Hl Hb Hc Hm Hn H0. eapply verify_good; try done; [by apply split_block|]. by rewrite zeroed_split. Qed.

(** ** Blocks that were written *)

(** What [qdisk_write] leaves on the disk. *)
Record good_block (blksz : Z) (data blk : list Z) : Prop := {
  gb_len : Z.of_nat (length blk) = blksz;
  gb_bytes : Forall is_byte blk;
  gb_magic : f_magic blk = SHARED_HEADER_MAGIC;
  gb_hcrc : f_hcrc blk = clu_crc32 (zeroed blk);
  gb_length : f_length blk = Z.of_nat (length data);
  gb_dcrc : f_dcrc blk = clu_crc32 data;
  gb_data : take (length data) (drop 32 blk) = data;
  gb_fits : Z.of_nat (length data) + HEADER_LEN <= blksz
}.

Lemma store_le_swap h n v : store h n (le_swap h n v) = le_bytes n v.
Proof. destruct h; [|done]. apply (store_cpu_to_le BigEndian). Qed.

(** The header of some data, whatever the host. *)
Definition le_header (hcrc dcrc len now : Z) : list Z :=
  le_bytes 4 SHARED_HEADER_MAGIC ++ le_bytes 4 hcrc ++ le_bytes 4 dcrc ++ le_bytes 4 len ++ le_bytes 8 0 ++ le_bytes 8 now.

Lemma header_generate_bytes h data now hd :
  data <> [] -> header_generate h data now = Some hd ->
  let len := u32 (Z.of_nat (length data)) in
  header_bytes h hd = le_header (clu_crc32 (le_header 0 (clu_crc32 data) len (u64 now))) (clu_crc32 data) len (u64 now).
Proof.
  intros Hne H len. unfold header_generate in H.
  assert (negb (Z.of_nat (length data) =? 0) = true) as Hd.
  { apply negb_true_iff, Z.eqb_neq. destruct data; [done|]. cbn [length]. lia. }
  rewrite Hd in H. cbn [andb] in H. destruct (clu_crc32 data =? 0); [discriminate|]. cbv zeta in H.
  assert (forall c, header_bytes h (set_hcrc (header_encode h (mkSh SHARED_HEADER_MAGIC 0 (clu_crc32 data) len 0 (u64 now)))
            (le_swap h 4 c)) = le_header c (clu_crc32 data) len (u64 now)) as He.
  { intros c. unfold header_encode. cbn [h_magic]. destruct h.
    - assert ((SHARED_HEADER_MAGIC =? le_swap BigEndian 4 SHARED_HEADER_MAGIC) = false) as -> by reflexivity.
      unfold header_bytes, header_sizes, header_fields. cbn -[le_bytes bswap].
      by rewrite !le_bytes_bswap, !rev_involutive, app_nil_r.
    - unfold header_bytes, header_sizes, header_fields. cbn -[le_bytes]. by rewrite app_nil_r. }
  assert (le_swap h 4 0 = 0) as H0 by (by destruct h).
  pose proof (He 0) as He0. rewrite H0 in He0. fold len in H. rewrite He0 in H.
  destruct (_ =? 0) in H; [discriminate|]. injection H as <-. apply He.
Qed.

Hypothesis crc32_range : forall l, in_u 32 (crc32 l).
(** A change of one byte changes the checksum. *)
Hypothesis crc32_detects : forall l k x b,
  l !! k = Some x -> is_byte x -> is_byte b -> x <> b -> crc32 (<[k := b]> l) <> crc32 l.

Lemma clu_crc32_eq l : clu_crc32 l = crc32 l.
Proof. apply wrap_small, crc32_range. Qed.

Lemma le_header_fields hcrc dcrc len now rest (l := le_header hcrc dcrc len now ++ rest) :
  in_u 32 hcrc -> in_u 32 dcrc -> in_u 32 len ->
  f_magic l = SHARED_HEADER_MAGIC /\ f_hcrc l = hcrc /\ f_dcrc l = dcrc /\ f_length l = len /\
  zeroed l = le_header 0 dcrc len now /\ drop 32 l = rest.
Proof.
  intros H1 H2 H3. split_and!; [reflexivity|exact (le_value_bytes 4 hcrc H1)|exact (le_value_bytes 4 dcrc H2)
    |exact (le_value_bytes 4 len H3)|reflexivity..].
Qed.

(** A successful write of some data leaves a good block. *)
Lemma qdisk_write_good h blksz buf spare data now blk :
  data <> [] -> Forall is_byte data -> Forall is_byte buf -> Z.of_nat (length buf) = blksz -> blksz < 2 ^ 32 ->
  qdisk_write h false blksz buf spare data now blksz = (Z.of_nat (length data), Some blk) -> good_block blksz data blk.
Proof.
  intros Hne Hb Hbuf Hlen Hsz H. unfold qdisk_write in H.
  destruct (_ >=? _) eqn:E1 in H; [discriminate|]. destruct (header_generate h data now) as [hd|] eqn:Eg; [|discriminate].
  cbv zeta in H. destruct (_ >? _) eqn:E2 in H; [discriminate|]. zbool.
  unfold diskRawWrite in H. destruct (decide (blksz = 0)) as [->|H0]; [destruct data; cbn in E1; lia|].
  rewrite Z_mod_same_full, Z.eqb_refl in H. cbn [orb negb] in H. rewrite Z.eqb_refl in H. injection H as <-.
  rewrite (header_generate_bytes h data now hd Hne Eg). set (len := u32 (Z.of_nat (length data))).
  assert (len = Z.of_nat (length data)) as El by (apply wrap_small; unfold in_u; lia).
  set (dcrc := clu_crc32 data). set (hcrc := clu_crc32 _). set (rest := drop _ buf). unfold HEADER_LEN in E2.
  assert (length (le_header hcrc dcrc len (u64 now)) = 32%nat) as Lh by (unfold le_header; rewrite !length_app, !le_bytes_length; done).
  rewrite take_ge by (rewrite !length_app; subst rest; rewrite length_drop, !length_app; lia).
  rewrite <- app_assoc.
  destruct (le_header_fields hcrc dcrc len (u64 now) (data ++ rest)) as (F1 & F2 & F3 & F4 & F5 & F6);
    [apply (wrap_range 32); lia|apply (wrap_range 32); lia|apply (wrap_range 32); lia|].
  split; [|..|unfold HEADER_LEN; lia].
  - rewrite !length_app. subst rest. rewrite length_drop, !length_app. lia.
  - rewrite !Forall_app. split_and!; [|done|by apply Forall_drop].
    unfold le_header. rewrite !Forall_app. split_and!; apply le_bytes_bytes.
  - exact F1.
  - by rewrite F5, F2.
  - by rewrite F4.
  - exact F3.
  - rewrite F6. by rewrite take_app_length.
Qed.

(** A read that gives a whole block. *)
Lemma qdisk_read_block h blksz buf blk count :
  Z.of_nat (length buf) = blksz -> Z.of_nat (length blk) = blksz -> 0 < blksz ->
  qdisk_read h false blksz buf (Some blk) count =
    match header_verify h (header_at h blk) (drop 32 blk) blksz with
    | VerBad => ReadErr
    | VerOverrun => ReadOutside
    | VerOk hd =>
        if (h_length hd >? Z.of_nat (length (drop 32 blk))) || (h_length hd >? count) then ReadOutside
        else ReadOk (take (Z.to_nat (h_length hd)) (drop 32 blk) ++ replicate (Z.to_nat (count - h_length hd)) 0)
    end.
Proof.
  intros Hbuf Hblk H0. unfold qdisk_read, diskRawRead.
  rewrite Z_mod_same_full, Z.eqb_refl. cbn [orb negb]. rewrite Hblk, Z.eqb_refl. cbn [negb].
  rewrite (drop_ge buf), app_nil_r by lia. done.
Qed.

(** Reading a good block on any host. *)
Lemma qdisk_read_good h blksz buf data blk count :
  Z.of_nat (length buf) = blksz -> good_block blksz data blk -> Z.of_nat (length data) <= count ->
  qdisk_read h false blksz buf (Some blk) count = ReadOk (data ++ replicate (Z.to_nat (count - Z.of_nat (length data))) 0).
Proof.
  intros Hbuf [G1 G2 G3 G4 G5 G6 G7 G8] Hc. unfold HEADER_LEN in *.
  assert (Z.of_nat (length (drop 32 blk)) = blksz - 32) as Hd by (rewrite length_drop; lia).
  rewrite qdisk_read_block by (done || lia).
  destruct (verify_block_good h blk (drop 32 blk) blksz) as (hd & Hl & ->); try done; try lia.
  rewrite G5, Nat2Z.id, G7, G6, Z.eqb_refl, Hl, G5, Hd, Nat2Z.id, G7, !Z.gtb_ltb.
  rewrite (proj2 (Z.ltb_ge _ _)), (proj2 (Z.ltb_ge _ _)) by lia. done.
Qed.

(** Where a byte of the header goes. *)
Lemma f_hcrc_insert l k b : (k < 4 \/ 8 <= k)%nat -> f_hcrc (<[k := b]> l) = f_hcrc l.
Proof.
  intros [H|H]; unfold f_hcrc; [by rewrite drop_insert_lt by lia|].
  rewrite drop_insert_ge, take_insert_ge by lia. done.
Qed.

Lemma zeroed_insert l k b :
  (32 <= length l)%nat -> (k < 32)%nat ->
  zeroed (<[k := b]> l) = if decide (4 <= k < 8)%nat then zeroed l else <[k := b]> (zeroed l).
Proof.
  intros Hl Hk. unfold zeroed. destruct (decide _) as [Hd|Hd].
  - by rewrite take_insert_ge, drop_insert_lt by lia.
  - destruct (decide (k < 4)%nat).
    + rewrite take_insert_lt, drop_insert_lt, insert_app_l by (rewrite ?length_take; lia). done.
    + rewrite take_insert_ge, drop_insert_ge, take_insert_lt by lia.
      rewrite insert_app_r_alt by (rewrite length_take; lia). f_equal.
      rewrite insert_app_r_alt by (rewrite length_take; unfold zeros; cbn [length]; lia). f_equal.
      f_equal. rewrite length_take. unfold zeros. cbn [length]. lia.
Qed.

Lemma zeroed_lookup l k : (32 <= length l)%nat -> (k < 4 \/ 8 <= k < 32)%nat -> zeroed l !! k = l !! k.
Proof.
  intros Hl Hk. unfold zeroed. destruct (decide (k < 4)%nat).
  - rewrite lookup_app_l by (rewrite length_take; lia). by rewrite lookup_take_lt.
  - rewrite lookup_app_r by (rewrite length_take; lia). rewrite lookup_app_r by (rewrite length_take; unfold zeros; cbn [length]; lia).
    rewrite lookup_take_lt, lookup_drop by (rewrite length_take; unfold zeros; cbn [length]; lia).
    f_equal. rewrite length_take. unfold zeros. cbn [length]. lia.
Qed.

Lemma clu_crc32_detects l k x b :
  l !! k = Some x -> is_byte x -> is_byte b -> x <> b -> clu_crc32 (<[k := b]> l) <> clu_crc32 l.
Proof. rewrite !clu_crc32_eq. apply crc32_detects. Qed.

Lemma f_hcrc_changed l k x b :
  (4 <= k < 8)%nat -> Forall is_byte l -> l !! k = Some x -> is_byte b -> x <> b -> f_hcrc (<[k := b]> l) <> f_hcrc l.
Proof.
  intros Hk Hb Hx Hbb Hne E. unfold f_hcrc in E. rewrite drop_insert_ge, take_insert_lt in E by lia.
  set (c := take 4 (drop 4 l)) in *. assert (Forall is_byte c) as Hc by (by apply Forall_take, Forall_drop).
  assert (c !! (k - 4)%nat = Some x) as Hcx.
  { unfold c. rewrite lookup_take_lt, lookup_drop by lia. by replace (4 + (k - 4))%nat with k by lia. }
  apply (f_equal (le_bytes (length c))) in E. rewrite le_bytes_value in E by done.
  rewrite <- (length_insert c (k - 4) b), le_bytes_value in E by (by apply Forall_insert).
  assert (<[(k - 4)%nat := b]> c !! (k - 4)%nat = Some b) as Hi by (by eapply list_lookup_insert_eq, lookup_lt_Some).
  rewrite E in Hi. congruence.
Qed.

(** A damaged byte in the header is noticed. *)
Lemma header_damaged l k x b :
  (32 <= length l)%nat -> (k < 32)%nat -> Forall is_byte l -> f_hcrc l = clu_crc32 (zeroed l) ->
  l !! k = Some x -> is_byte b -> x <> b -> f_hcrc (<[k := b]> l) <> clu_crc32 (zeroed (<[k := b]> l)).
Proof.
  intros Hl Hk Hb Hc Hx Hbb Hne. rewrite zeroed_insert by done. destruct (decide (4 <= k < 8)%nat) as [Hd|Hd].
  - rewrite <- Hc. by eapply f_hcrc_changed.
  - rewrite f_hcrc_insert, Hc by lia. intros E. symmetry in E. revert E.
    apply (clu_crc32_detects _ _ x); [rewrite zeroed_lookup by lia; done| |done..].
    eapply Forall_lookup_1; [exact Hb|done].
Qed.

(** A damaged byte in the header or in the data is noticed. *)
Lemma qdisk_read_damaged h blksz buf data blk count k x b :
  Z.of_nat (length buf) = blksz -> good_block blksz data blk -> (k < 32 + length data)%nat ->
  blk !! k = Some x -> is_byte b -> x <> b ->
  qdisk_read h false blksz buf (Some (<[k := b]> blk)) count = ReadErr.
Proof.
  intros Hbuf [G1 G2 G3 G4 G5 G6 G7 G8] Hk Hx Hb Hne. unfold HEADER_LEN in *.
  assert (is_byte x) as Hxb by (eapply Forall_lookup_1; [exact G2|done]).
  assert (Forall is_byte (<[k := b]> blk)) as Hbytes by (by apply Forall_insert).
  rewrite qdisk_read_block by (rewrite ?length_insert; done || lia).
  destruct (decide (k < 32)%nat) as [Hh|Hh].
  { rewrite verify_block_bad; [done|rewrite length_insert; lia|done|]. eapply header_damaged; done || lia. }
  assert (f_length (<[k := b]> blk) = f_length blk /\ f_magic (<[k := b]> blk) = f_magic blk /\
    f_dcrc (<[k := b]> blk) = f_dcrc blk /\ zeroed (<[k := b]> blk) = zeroed blk) as (E1 & E2 & E3 & E4).
  { unfold f_length, f_magic, f_dcrc, zeroed. rewrite !drop_insert_ge, !take_insert_ge by lia. done. }
  assert (drop 32 (<[k := b]> blk) = <[(k - 32)%nat := b]> (drop 32 blk)) as Ed by (apply drop_insert_ge; lia).
  destruct (verify_block_good h (<[k := b]> blk) (drop 32 (<[k := b]> blk)) blksz) as (hd & Hl & ->);
    [rewrite length_insert; lia|done|rewrite f_hcrc_insert, E4 by lia; done|by rewrite E2| |lia|].
  { rewrite E1, G5, Ed, length_insert, length_drop. lia. }
  rewrite E1, E3, G5, G6, Nat2Z.id, Ed, take_insert_lt, G7 by lia.
  rewrite (proj2 (Z.eqb_neq _ _)); [done|]. intros E. symmetry in E. revert E.
  apply (clu_crc32_detects _ _ x); [|done..]. rewrite <- G7, lookup_take_lt, lookup_drop by lia.
  by replace (32 + (k - 32))%nat with k by lia.
Qed.

(** ** Status blocks *)

Record status_typed (sb : status_block) : Prop := {
  st_magic : in_u 32 (ps_magic sb);
  st_updatenode : in_u 32 (ps_updatenode sb);
  st_timestamp : in_u 64 (ps_timestamp sb);
  st_nodeid : in_u 32 (ps_nodeid sb);
  st_state : in_u 8 (ps_state sb);
  st_flags : in_u 16 (ps_flags sb);
  st_score : in_u 16 (ps_score sb);
  st_scoremax : in_u 16 (ps_scoremax sb);
  st_ca : in_u 32 (fst (ps_ca sb)) /\ in_u 32 (snd (ps_ca sb));
  st_lc : in_u 32 (fst (ps_lc sb)) /\ in_u 32 (snd (ps_lc sb));
  st_incarnation : in_u 64 (ps_incarnation sb);
  st_msg : in_u 16 (ps_msg sb);
  st_seq : in_u 16 (ps_seq sb);
  st_arg : in_u 32 (ps_arg sb);
  st_mask : length (ps_mask sb) = 8%nat /\ Forall is_byte (ps_mask sb);
  st_master_mask : length (ps_master_mask sb) = 8%nat /\ Forall is_byte (ps_master_mask sb)
}.

Definition be_bytes (n : nat) (v : Z) : list Z := rev (le_bytes n v).

Lemma store_be_swap h n v : store h n (be_swap h n v) = be_bytes n v.
Proof. destruct h; [done|]. apply le_bytes_bswap. Qed.

Lemma be_swap_load h n v : in_u (8 * Z.of_nat n) v -> be_swap h n (load h (be_bytes n v)) = v.
Proof.
  intros Hv. unfold be_bytes. destruct h; cbn [load be_swap].
  - rewrite rev_involutive. by apply le_value_bytes.
  - change (le_value (rev (le_bytes n v))) with (bswap n v). by apply bswap_bswap.
Qed.

Lemma store_byte h v : in_u 8 v -> store h 1 v = [v].
Proof. unfold in_u. intros Hv. assert (v mod 256 = v) as E by (apply Z.mod_small; lia). destruct h; cbn -[Z.modulo Z.div]; by rewrite E. Qed.

Lemma store_fields_bytes h ns vs : Forall is_byte (store_fields h ns vs).
Proof.
  revert vs. induction ns as [|n ns IH]; intros [|v vs]; cbn; [constructor..|].
  apply Forall_app. split; [apply store_bytes|apply IH].
Qed.

Definition with_incarnation (sb : status_block) (v : Z) : status_block :=
  mkSb (ps_magic sb) (ps_updatenode sb) (ps_timestamp sb) (ps_nodeid sb) (ps_state sb) (ps_flags sb) (ps_score sb)
    (ps_scoremax sb) (ps_ca sb) (ps_lc sb) v (ps_msg sb) (ps_seq sb) (ps_arg sb) (ps_mask sb) (ps_master_mask sb).

(** The bytes of a status block on the disk; only the incarnation depends on the host. *)
Lemma status_bytes_disk h sb :
  status_typed sb ->
  status_bytes h (swab_status_block h sb) =
  be_bytes 4 (ps_magic sb) ++ be_bytes 4 (ps_updatenode sb) ++ be_bytes 8 (ps_timestamp sb) ++ be_bytes 4 (ps_nodeid sb) ++
  be_bytes 4 0 ++ [ps_state sb] ++ [0] ++ be_bytes 2 (ps_flags sb) ++ be_bytes 2 (ps_score sb) ++
  be_bytes 2 (ps_scoremax sb) ++ be_bytes 4 (fst (ps_ca sb)) ++ be_bytes 4 (snd (ps_ca sb)) ++
  be_bytes 4 (fst (ps_lc sb)) ++ be_bytes 4 (snd (ps_lc sb)) ++ store h 8 (ps_incarnation sb) ++
  be_bytes 2 (ps_msg sb) ++ be_bytes 2 (ps_seq sb) ++ be_bytes 4 (ps_arg sb) ++ ps_mask sb ++ ps_master_mask sb.
Proof.
  intros []. unfold status_bytes, status_sizes, status_fields, swab_status_block.
  cbn [store_fields ps_magic ps_updatenode ps_timestamp ps_nodeid ps_state ps_flags ps_score ps_scoremax ps_ca ps_lc
    ps_incarnation ps_msg ps_seq ps_arg ps_mask ps_master_mask fst snd].
  rewrite !store_be_swap, (store_byte h (ps_state sb)), (store_byte h 0) by done.
  replace (store h 4 0) with (be_bytes 4 0) by (by destruct h). by rewrite app_nil_r, <- !app_assoc.
Qed.

Lemma status_at_disk h h' sb :
  status_typed sb ->
  swab_status_block h' (status_at h' (status_bytes h (swab_status_block h sb))) =
    with_incarnation sb (load h' (store h 8 (ps_incarnation sb))).
Proof.
  intros Ht. rewrite status_bytes_disk by done. destruct Ht as [T1 T2 T3 T4 T5 T6 T7 T8 [T9 T10] [T11 T12] T13 T14 T15 T16 [L1 _] [L2 _]].
  set (tail := ps_mask sb ++ ps_master_mask sb). unfold status_at. set (l := be_bytes 4 (ps_magic sb) ++ _).
  replace (load_fields h' status_sizes l) with
    [load h' (be_bytes 4 (ps_magic sb)); load h' (be_bytes 4 (ps_updatenode sb)); load h' (be_bytes 8 (ps_timestamp sb));
     load h' (be_bytes 4 (ps_nodeid sb)); load h' (be_bytes 4 0); load h' [ps_state sb]; load h' [0];
     load h' (be_bytes 2 (ps_flags sb)); load h' (be_bytes 2 (ps_score sb)); load h' (be_bytes 2 (ps_scoremax sb));
     load h' (be_bytes 4 (fst (ps_ca sb))); load h' (be_bytes 4 (snd (ps_ca sb)));
     load h' (be_bytes 4 (fst (ps_lc sb))); load h' (be_bytes 4 (snd (ps_lc sb))); load h' (store h 8 (ps_incarnation sb));
     load h' (be_bytes 2 (ps_msg sb)); load h' (be_bytes 2 (ps_seq sb)); load h' (be_bytes 4 (ps_arg sb))]
    by (destruct h; reflexivity).
  replace (drop 64 l) with tail by (destruct h; reflexivity).
  replace (drop 72 l) with (drop 8 tail) by (destruct h; reflexivity).
  unfold tail. rewrite take_app_length', drop_app_length', take_ge by lia.
  unfold swab_status_block, with_incarnation. cbn [ps_magic ps_updatenode ps_timestamp ps_nodeid ps_state ps_flags ps_score
    ps_scoremax ps_ca ps_lc ps_incarnation ps_msg ps_seq ps_arg ps_mask ps_master_mask fst snd].
  rewrite !be_swap_load by done. destruct sb as [? ? ? ? st ? ? ? [] [] ? ? ? ? ? ?]. cbn in *. f_equal.
  destruct h'; cbn; lia.
Qed.

Lemma status_bytes_length h sb : status_typed sb -> length (status_bytes h (swab_status_block h sb)) = 80%nat.
Proof.
  intros Ht. rewrite status_bytes_disk by done. destruct Ht. unfold be_bytes.
  rewrite !length_app, !length_rev, !le_bytes_length. destruct st_mask0 as [-> _], st_master_mask0 as [-> _].
  assert (length (store h 8 (ps_incarnation sb)) = 8%nat) as ->; [|done].
  destruct h; cbn [store]; by rewrite ?length_rev, le_bytes_length.
Qed.

Lemma status_bytes_typed h sb : status_typed sb -> Forall is_byte (status_bytes h (swab_status_block h sb)).
Proof. intros []. unfold status_bytes. rewrite !Forall_app. split_and!; [apply store_fields_bytes|apply st_mask0|apply st_master_mask0]. Qed.

(** A status block that one node has written is read back by every other node, also
    one of the other byte order; only the incarnation, which nodes merely compare, is seen
    in the byte order of the reader. *)
Theorem status_block_roundtrip h h' blksz buf buf' spare sb now blk :
  status_typed sb -> blksz < 2 ^ 32 -> Z.of_nat (length buf) = blksz -> Z.of_nat (length buf') = blksz -> Forall is_byte buf ->
  write_status h false blksz buf spare sb now blksz = (STATUS_LEN, Some blk) ->
  read_status h' false blksz buf' (Some blk) = Some (with_incarnation sb (load h' (store h 8 (ps_incarnation sb)))).
Proof.
  intros Ht Hsz Hl Hl' Hb Hw. unfold write_status in Hw. pose proof (status_bytes_length h sb Ht) as Hlen.
  set (data := status_bytes h (swab_status_block h sb)) in *.
  assert (good_block blksz data blk) as Hg.
  { eapply qdisk_write_good; try done; [by intros E; rewrite E in Hlen|by apply status_bytes_typed|]. rewrite Hlen. exact Hw. }
  unfold read_status. rewrite (qdisk_read_good h' blksz buf' data blk) by (try done; rewrite Hlen; done).
  rewrite Hlen. cbn [Z.to_nat Z.sub STATUS_LEN replicate]. rewrite app_nil_r. f_equal. by apply status_at_disk.
Qed.

(** C31: a block that is written and read with buffers of its size and aligned, and of which
    one byte of the header or of the data has been changed in between, is not accepted by
    any node, where the checksum is one that tells two blocks apart that differ in one byte
    (the checksum of the program is, [disk_hash_byte]). *)
Theorem damaged_block_rejected h h' blksz buf buf' spare data now blk count k x b :
  data <> [] -> Forall is_byte data -> blksz < 2 ^ 32 ->
  Z.of_nat (length buf) = blksz -> Z.of_nat (length buf') = blksz -> Forall is_byte buf ->
  qdisk_write h false blksz buf spare data now blksz = (Z.of_nat (length data), Some blk) ->
  (k < Z.to_nat HEADER_LEN + length data)%nat -> blk !! k = Some x -> is_byte b -> x <> b ->
  qdisk_read h' false blksz buf' (Some (<[k := b]> blk)) count = ReadErr.
Proof. intros. eapply qdisk_read_damaged; try done. by eapply qdisk_write_good. Qed.
End disk.

(** ** With the checksum the blocks really have *)

Lemma disk_hash_byte l k x b :
  l !! k = Some x -> is_byte x -> is_byte b -> x <> b -> gfs2_disk_hash (<[k := b]> l) <> gfs2_disk_hash l.
Proof.
  intros Hx Hxb Hb Hne. pose proof (lookup_lt_Some _ _ _ Hx) as Hl.
  rewrite insert_take_drop by done. rewrite <- (take_drop_middle l k x Hx) at 3.
  apply (disk_hash_detects (take k l) (drop (S k) l) [b] [x]); [done|cbn; lia|]. cbn. intros E. injection E as E.
  unfold is_byte in *. rewrite !wrap_small in E by (unfold in_u; lia). congruence.
Qed.

Module BlockSample.
Definition sb : status_block :=
  mkSb STATE_MAGIC_NUMBER 2 0x4b2f1a00 2 S_RUN 0 0 0 (0, 512) (0, 498) 0x4b2f1a004b2f1a00 M_BID 7 0 [6; 0; 0; 0; 0; 0; 0; 0] empty_mask.
Definition buf : list Z := replicate 512 0xa5.
Definition blk : list Z := default [] (write_status gfs2_disk_hash LittleEndian false 512 buf [] sb 0x4b2f1a01 512).2.

Lemma sb_typed : status_typed sb.
Proof.
  split; cbn -[Z.pow]; try (unfold in_u; lia); split; try (unfold in_u; lia); try done;
    repeat (constructor; [unfold is_byte; lia|]); constructor.
Qed.

Lemma buf_bytes : Forall is_byte buf.
Proof. apply Forall_replicate. unfold is_byte. lia. Qed.
End BlockSample.

Lemma status_block_roundtrip_witness :
  read_status gfs2_disk_hash BigEndian false 512 BlockSample.buf (Some BlockSample.blk) =
    Some (with_incarnation BlockSample.sb 0x001a2f4b001a2f4b).
Proof.
  exact (status_block_roundtrip gfs2_disk_hash LittleEndian BigEndian 512 BlockSample.buf BlockSample.buf []
    BlockSample.sb 0x4b2f1a01 BlockSample.blk BlockSample.sb_typed eq_refl eq_refl eq_refl BlockSample.buf_bytes
    ltac:(vm_compute; reflexivity)).
Defined.

Lemma damaged_block_rejected_witness :
  qdisk_read gfs2_disk_hash BigEndian false 512 BlockSample.buf (Some (<[50%nat := 17]> BlockSample.blk)) STATUS_LEN = ReadErr.
Proof.
  apply (damaged_block_rejected gfs2_disk_hash disk_hash_range disk_hash_byte LittleEndian BigEndian 512 BlockSample.buf
    BlockSample.buf [] (status_bytes LittleEndian (swab_status_block LittleEndian BlockSample.sb)) 0x4b2f1a01 BlockSample.blk
    STATUS_LEN 50%nat 0 17); try (vm_compute; reflexivity).
  - vm_compute. discriminate.
  - apply status_bytes_typed, BlockSample.sb_typed.
  - apply BlockSample.buf_bytes.
  - vm_compute. lia.
  - unfold is_byte. lia.
  - lia.
Defined.
