(* ===== verification/Gfs2Bits.v ===== *)
(** * Bitmaps of GFS2

    [src/gfs2/libgfs2/fs_bits.c], the functions on a buffer: a bitmap holds two
    bits per block, the lowest first; [gfs2_bitfit] looks for the next block in a
    given state a word at a time.  And the map of [src/gfs2/libgfs2/block_list.c]
    and [src/gfs2/fsck/util.h], in which fsck notes what it found each block to be,
    four bits per block, with the list of special blocks.

    A buffer is the list of the bytes that can be read from its address on; a
    read beyond it has no result ([None]).  [BITS_PER_LONG] is 64. *)

From S2P Require Import Prelude.
Open Scope Z_scope.

(** ** The constants of the format *)

Definition GFS2_NBBY : Z := 4.
Definition GFS2_BIT_SIZE : Z := 2.
Definition GFS2_BIT_MASK : Z := 3.
Definition GFS2_BLKST_FREE : Z := 0.
Definition GFS2_BLKST_USED : Z := 1.
Definition GFS2_BLKST_UNLINKED : Z := 2.
Definition GFS2_BLKST_DINODE : Z := 3.
Definition BFITNOENT : Z := 0xffffffff.

(** ** Searching a bitmap *)

(** The 64-bit word number [k] of the buffer, [le64_to_cpu( *ptr)]. *)
Definition word_at (buf : list Z) (k : Z) : option Z :=
  if (0 <=? k) && (8 * k + 8 <=? Z.of_nat (length buf))
  then Some (le_word (take 8 (drop (Z.to_nat (8 * k)) buf))) else None.

Definition search_pattern (state : Z) : Z :=
  nth (Z.to_nat state)
    [0xffffffffffffffff; 0xaaaaaaaaaaaaaaaa; 0x5555555555555555; 0x0000000000000000] 0.

Definition gfs2_bit_search (w mask state : Z) : Z :=
  let tmp := Z.lxor w (search_pattern state) in
  let tmp := Z.land tmp (Z.shiftr tmp 1) in
  Z.land tmp mask.

(** [ffsll]: the number of the lowest bit set, from 1; 0 for none. *)
Fixpoint pos_ffs (p : positive) : Z :=
  match p with
  | xO q => 1 + pos_ffs q
  | _ => 1
  end.

Definition ffsll (z : Z) : Z :=
  match z with
  | Zpos p => pos_ffs p
  | _ => 0
  end.

(** The loop of [gfs2_bitfit]; [n] words are left before [end]. *)
Fixpoint bitfit_loop (buf : list Z) (state : Z) (n : nat) (ptr tmp : Z) : option (Z * Z) :=
  match n with
  | O => Some (ptr, tmp)
  | S n' =>
      if tmp =? 0 then
        w ← word_at buf ptr;
        bitfit_loop buf state n' (ptr + 1) (gfs2_bit_search w 0x5555555555555555 state)
      else Some (ptr, tmp)
  end.

Definition ALIGN (x a : Z) : Z := Z.land (x + a - 1) (Z.lnot (a - 1)).

Definition gfs2_bitfit (buf : list Z) (len goal state : Z) : option Z :=
  let spoint := Z.land (u64 (Z.shiftl goal 1)) 63 in
  let ptr := Z.shiftr goal 5 in
  let end_ := ALIGN len 8 / 8 in
  if state >? 3 then Some 0
  else
    let mask := u64 (Z.shiftl 0x5555555555555555 spoint) in
    w ← word_at buf ptr;
    '(ptr, tmp) ← bitfit_loop buf state (Z.to_nat (end_ - (ptr + 1))) (ptr + 1)
                    (gfs2_bit_search w mask state);
    let tmp := if (ptr =? end_) && c_true (Z.land len 7)
               then Z.land tmp (Z.shiftr 0xffffffffffffffff (64 - 8 * Z.land len 7)) else tmp in
    if tmp =? 0 then Some BFITNOENT
    else Some ((ptr - 1) * 8 * GFS2_NBBY + ffsll tmp / 2).

(** The four blocks of one byte, in the loop of [gfs2_bitcount]. *)
Definition count_byte (state count byte : Z) : Z :=
  foldl (fun count bit => if Z.land (Z.shiftr byte bit) GFS2_BIT_MASK =? state
                          then u32 (count + 1) else count) count [0; 2; 4; 6].

Definition gfs2_bitcount (buf : list Z) (buflen state : Z) : Z :=
  foldl (count_byte state) 0 (take (Z.to_nat buflen) buf).

(** ** The block map of fsck *)

Inductive gfs2_mark_block :=
  | gfs2_block_free | gfs2_block_used | gfs2_indir_blk | gfs2_inode_dir | gfs2_inode_file
  | gfs2_inode_lnk | gfs2_inode_blk | gfs2_inode_chr | gfs2_inode_fifo | gfs2_inode_sock
  | gfs2_inode_invalid | gfs2_meta_inval | gfs2_leaf_blk | gfs2_meta_rgrp | gfs2_meta_eattr
  | gfs2_bad_block.

#[export] Instance gfs2_mark_block_eq_dec : EqDecision gfs2_mark_block.
Proof. solve_decision. Defined.

Definition all_marks : list gfs2_mark_block :=
  [gfs2_block_free; gfs2_block_used; gfs2_indir_blk; gfs2_inode_dir; gfs2_inode_file;
   gfs2_inode_lnk; gfs2_inode_blk; gfs2_inode_chr; gfs2_inode_fifo; gfs2_inode_sock;
   gfs2_inode_invalid; gfs2_meta_inval; gfs2_leaf_blk; gfs2_meta_rgrp; gfs2_meta_eattr;
   gfs2_bad_block].

(** The value of the enumeration constant, and the constant of a value. *)
Definition mark_value (m : gfs2_mark_block) : Z :=
  match m with
  | gfs2_block_free => 0 | gfs2_block_used => 1 | gfs2_indir_blk => 2 | gfs2_inode_dir => 3
  | gfs2_inode_file => 4 | gfs2_inode_lnk => 5 | gfs2_inode_blk => 6 | gfs2_inode_chr => 7
  | gfs2_inode_fifo => 8 | gfs2_inode_sock => 9 | gfs2_inode_invalid => 10
  | gfs2_meta_inval => 11 | gfs2_leaf_blk => 12 | gfs2_meta_rgrp => 13 | gfs2_meta_eattr => 14
  | gfs2_bad_block => 15
  end.

Definition mark_of (v : Z) : gfs2_mark_block := nth (Z.to_nat v) all_marks gfs2_bad_block.

Definition blockmap_to_bitmap (m : gfs2_mark_block) : Z :=
  nth (Z.to_nat (mark_value m))
    [GFS2_BLKST_FREE; GFS2_BLKST_USED; GFS2_BLKST_USED; GFS2_BLKST_DINODE; GFS2_BLKST_DINODE;
     GFS2_BLKST_DINODE; GFS2_BLKST_DINODE; GFS2_BLKST_DINODE; GFS2_BLKST_DINODE;
     GFS2_BLKST_DINODE; GFS2_BLKST_FREE; GFS2_BLKST_FREE; GFS2_BLKST_USED; GFS2_BLKST_USED;
     GFS2_BLKST_USED; GFS2_BLKST_USED] 0.

Definition BLOCKMAP_SIZE4 (size : Z) : Z := Z.shiftr size 1.
Definition BLOCKMAP_BYTE_OFFSET4 (x : Z) : Z := Z.shiftl (Z.land x 1) 2.
Definition BLOCKMAP_MASK4 : Z := 0xf.

Record gfs2_bmap := mkBmap {
  bm_size : Z;
  bm_mapsize : Z;
  bm_map : list Z
}.

(** The allocation of the map succeeds; its bytes are those of [bm_map]. *)
Definition gfs2_blockmap_create (size : Z) : gfs2_bmap :=
  let mapsize := BLOCKMAP_SIZE4 size in
  mkBmap size mapsize (replicate (Z.to_nat mapsize) 0).

(** The byte after [*byte &= ~(BLOCKMAP_MASK4 << b)] and
    [*byte |= (mark & BLOCKMAP_MASK4) << b]. *)
Definition set_nibble (byte off v : Z) : Z :=
  let byte := Z.land byte (u8 (Z.lnot (Z.shiftl BLOCKMAP_MASK4 off))) in
  u8 (Z.lor byte (Z.shiftl (Z.land v BLOCKMAP_MASK4) off)).

(** The return value and the map; [None] when the byte is outside the map. *)
Definition gfs2_blockmap_set (b : gfs2_bmap) (bblock : Z) (mark : gfs2_mark_block)
    : option (Z * gfs2_bmap) :=
  if bblock >? bm_size b then Some (-1, b)
  else
    let k := Z.to_nat (BLOCKMAP_SIZE4 bblock) in
    let off := BLOCKMAP_BYTE_OFFSET4 bblock in
    byte ← bm_map b !! k;
    Some (0, mkBmap (bm_size b) (bm_mapsize b)
               (<[k := set_nibble byte off (mark_value mark)]> (bm_map b))).

(** [block_type] of fsck. *)
Definition block_type (b : gfs2_bmap) (bblock : Z) : option Z :=
  let off := BLOCKMAP_BYTE_OFFSET4 bblock in
  byte ← bm_map b !! Z.to_nat (BLOCKMAP_SIZE4 bblock);
  Some (Z.shiftr (Z.land byte (Z.shiftl BLOCKMAP_MASK4 off)) off).

(** ** Special blocks *)

Definition blockfind (blist : list Z) (num : Z) : bool := existsb (Z.eqb num) blist.

(** A failed allocation leaves the list as it is. *)
Definition gfs2_special_add (m : mem) (blist : list Z) (block : Z) : list Z * mem :=
  let '(r, m') := malloc m in
  match r with
  | Some _ => (block :: blist, m')
  | None => (blist, m')
  end.

Definition gfs2_special_set (m : mem) (blist : list Z) (block : Z) : list Z * mem :=
  if blockfind blist block then (blist, m) else gfs2_special_add m blist block.

(** The first entry of that number leaves the list. *)
Fixpoint gfs2_special_clear (blist : list Z) (block : Z) : list Z :=
  match blist with
  | [] => []
  | b :: l => if b =? block then l else b :: gfs2_special_clear l block
  end.
