(* ===== verification/Gfs2BitsThm.v ===== *)
(** * The bitmaps of GFS2: theorems

    [gfs2_bitfit], which compares 32 blocks at a time, finds the block that a scan
    block by block finds; [gfs2_bitcount] counts; the block map of fsck returns
    the marks it was given, on the blocks it has room for. *)

From S2P Require Import Prelude Gfs2Bits.
Open Scope Z_scope.

(** ** The specification: the state of a block, and the scan *)

Definition block_state (buf : list Z) (b : Z) : Z :=
  Z.land (Z.shiftr (nth (Z.to_nat (b / 4)) buf 0) (2 * (b mod 4))) 3.

Definition bitfit_ref (buf : list Z) (len goal state : Z) : Z :=
  match List.find (fun b => block_state buf b =? state) (seqZ goal (4 * len - goal)) with
  | Some b => b
  | None => BFITNOENT
  end.

(** ** Words and pairs of bits *)

Ltac dm := Z.div_mod_to_equations; lia.

Lemma le_word_testbit l i :
  Forall (in_u 8) l -> 0 <= i -> Z.testbit (le_word l) i = Z.testbit (nth (Z.to_nat (i / 8)) l 0) (i mod 8).
Proof.
  intros H. revert i. induction H as [|b l Hb Hl IH]; intros i Hi.
  - cbn [le_word]. rewrite Z.bits_0. destruct (Z.to_nat (i / 8)); by rewrite Z.bits_0.
  - cbn [le_word]. rewrite le_word_testbit_low by done. destruct (Z.ltb_spec i 8).
    + rewrite Z.div_small, Z.mod_small by lia. done.
    + rewrite IH by lia.
      replace (Z.to_nat (i / 8)) with (S (Z.to_nat ((i - 8) / 8))) by dm.
      cbn [nth]. f_equal. dm.
Qed.

(** The two bits at a position of a word. *)
Definition pair_at (w i : Z) : Z := Z.land (Z.shiftr w i) 3.

Lemma pair_eqb w i state :
  0 <= i -> 0 <= state <= 3 ->
  (pair_at w i =? state) =
  eqb (Z.testbit w i) (Z.testbit state 0) && eqb (Z.testbit w (i + 1)) (Z.testbit state 1).
Proof.
  intros Hi Hs.
  assert (E : pair_at w i = Z.b2z (Z.testbit w i) + 2 * Z.b2z (Z.testbit w (i + 1))).
  { unfold pair_at. change 3 with (Z.ones 2). rewrite Z.land_ones by lia.
    rewrite (Z.testbit_spec' w i), (Z.testbit_spec' w (i + 1)) by lia.
    rewrite Z.shiftr_div_pow2, Z.pow_add_r, <- Z.div_div by lia. change (2 ^ 1) with 2.
    change (2 ^ 2) with 4. set (v := w / 2 ^ i). dm. }
  rewrite E. assert (state = 0 \/ state = 1 \/ state = 2 \/ state = 3) as [->|[->|[->| ->]]] by lia;
    by destruct (Z.testbit w i), (Z.testbit w (i + 1)).
Qed.

Lemma search_pattern_bits state j :
  0 <= state <= 3 -> 0 <= j < 32 ->
  Z.testbit (search_pattern state) (2 * j) = negb (Z.testbit state 0) /\
  Z.testbit (search_pattern state) (2 * j + 1) = negb (Z.testbit state 1).
Proof.
  intros Hs Hj.
  assert (T : forallb (fun st => forallb (fun k =>
      eqb (Z.testbit (search_pattern st) (2 * Z.of_nat k)) (negb (Z.testbit st 0)) &&
      eqb (Z.testbit (search_pattern st) (2 * Z.of_nat k + 1)) (negb (Z.testbit st 1)))
    (seq 0 32)) [0; 1; 2; 3] = true) by (vm_compute; reflexivity).
  rewrite forallb_forall in T. specialize (T state ltac:(simpl; lia)).
  rewrite forallb_forall in T. specialize (T (Z.to_nat j)). rewrite Z2Nat.id in T by lia.
  apply andb_true_iff in T as [T1 T2]; [|apply in_seq; lia].
  split; by apply eqb_prop.
Qed.

(** A bit of the result of [gfs2_bit_search] is set where the mask is and the pair
    of bits there is the state. *)
Lemma bit_search_testbit w mask state j :
  0 <= state <= 3 -> 0 <= j < 32 ->
  Z.testbit (gfs2_bit_search w mask state) (2 * j) =
  Z.testbit mask (2 * j) && (pair_at w (2 * j) =? state).
Proof.
  intros Hs Hj. destruct (search_pattern_bits state j Hs Hj) as [P0 P1].
  unfold gfs2_bit_search. rewrite !Z.land_spec, Z.shiftr_spec, !Z.lxor_spec, pair_eqb by lia.
  rewrite P0, P1. destruct (Z.testbit w (2 * j)), (Z.testbit w (2 * j + 1)), (Z.testbit state 0),
    (Z.testbit state 1), (Z.testbit mask (2 * j)); done.
Qed.

Lemma bit_search_mask w mask state i :
  Z.testbit mask i = false -> Z.testbit (gfs2_bit_search w mask state) i = false.
Proof. intros E. unfold gfs2_bit_search. by rewrite Z.land_spec, E, andb_false_r. Qed.

Lemma word_at_pair buf k w j :
  Forall (in_u 8) buf -> word_at buf k = Some w -> 0 <= j < 32 ->
  pair_at w (2 * j) = block_state buf (32 * k + j).
Proof.
  unfold word_at. intros Hb Hw Hj. zcase_in Hw; [|done]. injection Hw as <-.
  assert (H8 : Forall (in_u 8) (take 8 (drop (Z.to_nat (8 * k)) buf)))
    by (by apply Forall_take, Forall_drop).
  assert (Hn : nth (Z.to_nat (2 * j / 8)) (take 8 (drop (Z.to_nat (8 * k)) buf)) 0 =
               nth (Z.to_nat ((32 * k + j) / 4)) buf 0).
  { rewrite !nth_lookup, lookup_take_lt, lookup_drop by dm. f_equal. f_equal. dm. }
  unfold pair_at, block_state. apply Z.bits_inj'. intros i Hi. rewrite !Z.land_spec.
  change 3 with (Z.ones 2). rewrite Z.testbit_ones_nonneg by lia.
  destruct (Z.ltb_spec i 2); [|by rewrite !andb_false_r]. rewrite !andb_true_r, !Z.shiftr_spec by lia.
  rewrite le_word_testbit by (done || lia).
  replace ((i + 2 * j) / 8) with (2 * j / 8) by dm. rewrite Hn. f_equal. dm.
Qed.

(** ** The lowest bit of a word *)

Lemma ffsll_spec z :
  0 < z -> exists i, 0 <= i /\ ffsll z = i + 1 /\ Z.testbit z i = true /\
    forall k, k < i -> Z.testbit z k = false.
Proof.
  destruct z as [|p|]; [lia| |lia]. intros _. cbn [ffsll].
  induction p as [p IH|p (i & Hi & E & Ht & Hl)|].
  - exists 0. split; [lia|]. split; [done|]. split; [done|]. intros k Hk. by apply Z.testbit_neg_r.
  - exists (i + 1). split; [lia|]. split; [cbn [pos_ffs]; lia|].
    change (Z.pos p~0) with (2 * Z.pos p). split.
    + replace (i + 1) with (Z.succ i) by lia. by rewrite Z.testbit_even_succ.
    + intros k Hk. destruct (decide (k < 0)); [by apply Z.testbit_neg_r|].
      destruct (decide (k = 0)) as [->|]; [apply Z.testbit_even_0|].
      replace k with (Z.succ (k - 1)) by lia. rewrite Z.testbit_even_succ by lia. apply Hl. lia.
  - exists 0. split; [lia|]. split; [done|]. split; [done|]. intros k Hk. by apply Z.testbit_neg_r.
Qed.

(** ** The search *)

(** The bits set in [tmp] are those of the blocks of word [p] in that state that
    satisfy [Q]. *)
Definition matches (buf : list Z) (state : Z) (Q : Z -> Prop) (p tmp : Z) : Prop :=
  0 <= tmp /\ forall i, Z.testbit tmp i = true <->
    exists j, 0 <= j < 32 /\ i = 2 * j /\ Q (32 * p + j) /\ block_state buf (32 * p + j) = state.

Lemma mask_5_testbit i : 0 <= i -> Z.testbit 0x5555555555555555 i = Z.even i && (i <? 64).
Proof.
  intros Hi. destruct (Z.ltb_spec i 64) as [Hlt|Hge].
  - assert (T : forallb (fun k => eqb (Z.testbit 0x5555555555555555 (Z.of_nat k)) (Z.even (Z.of_nat k)))
                  (seq 0 64) = true) by (vm_compute; reflexivity).
    rewrite forallb_forall in T. specialize (T (Z.to_nat i)). rewrite Z2Nat.id in T by lia.
    rewrite andb_true_r. apply eqb_prop, T, in_seq. lia.
  - rewrite andb_false_r. assert (H : in_u 64 0x5555555555555555) by (unfold in_u; lia).
    rewrite in_u_testbit in H by lia. apply H. lia.
Qed.

Lemma bit_search_matches buf state p w mask (Q : Z -> Prop) :
  Forall (in_u 8) buf -> 0 <= state <= 3 -> 0 <= mask -> word_at buf p = Some w ->
  (forall i, Z.testbit mask i = true <-> exists j, 0 <= j < 32 /\ i = 2 * j /\ Q (32 * p + j)) ->
  matches buf state Q p (gfs2_bit_search w mask state).
Proof.
  intros Hb Hs Hm Hw HQ. split.
  - unfold gfs2_bit_search. apply Z.land_nonneg. by right.
  - intros i. split.
    + intros Ht. assert (Hmi : Z.testbit mask i = true).
      { destruct (Z.testbit mask i) eqn:E; [done|]. by rewrite bit_search_mask in Ht. }
      destruct (proj1 (HQ i) Hmi) as (j & Hj & -> & HQj). exists j.
      rewrite bit_search_testbit, (word_at_pair buf p) in Ht by done. zbool. done.
    + intros (j & Hj & -> & HQj & Hst).
      rewrite bit_search_testbit, (word_at_pair buf p) by done.
      rewrite (proj2 (HQ (2 * j))) by eauto. by rewrite Hst, Z.eqb_refl.
Qed.

Lemma even_half i : Z.even i = true -> i = 2 * (i / 2).
Proof. intros E. apply Z.even_spec in E as [k ->]. dm. Qed.

(** The mask of the first word leaves the blocks from the goal on. *)
Lemma first_mask_spec goal i :
  0 <= goal ->
  Z.testbit (u64 (Z.shiftl 0x5555555555555555 (Z.land (u64 (Z.shiftl goal 1)) 63))) i = true <->
  exists j, 0 <= j < 32 /\ i = 2 * j /\ goal <= 32 * Z.shiftr goal 5 + j.
Proof.
  intros Hg.
  assert (E : Z.land (u64 (Z.shiftl goal 1)) 63 = 2 * (goal mod 32)).
  { change 63 with (Z.ones 6). rewrite Z.land_ones by lia. unfold wrap.
    rewrite Z.shiftl_mul_pow2 by lia. change (2 ^ 1) with 2. change (2 ^ 6) with 64.
    rewrite Z.mod_mod_divide by (exists (2 ^ 58); reflexivity).
    rewrite Z.mul_comm. change 64 with (2 * 32). by rewrite Z.mul_mod_distr_l by lia. }
  rewrite E, Z.shiftr_div_pow2 by lia. change (2 ^ 5) with 32. clear E.
  rewrite wrap_testbit by lia. split.
  - intros Ht. apply andb_true_iff in Ht as [Hlt Ht]. zbool.
    assert (Hi : 0 <= i). { destruct (decide (0 <= i)); [done|]. by rewrite Z.testbit_neg_r in Ht by lia. }
    rewrite Z.shiftl_spec in Ht by done.
    assert (Hge : 2 * (goal mod 32) <= i).
    { destruct (decide (2 * (goal mod 32) <= i)); [done|]. by rewrite Z.testbit_neg_r in Ht by lia. }
    rewrite mask_5_testbit in Ht by lia. apply andb_true_iff in Ht as [He _].
    rewrite Z.even_sub, Z.even_mul in He. cbn [Z.even orb] in He.
    exists (i / 2). apply eqb_prop, even_half in He. dm.
  - intros (j & Hj & -> & Hq). apply andb_true_iff. split; [apply Z.ltb_lt; lia|].
    rewrite Z.shiftl_spec by lia. rewrite mask_5_testbit by dm.
    apply andb_true_iff. split; [|apply Z.ltb_lt; dm].
    rewrite Z.even_sub, !Z.even_mul. done.
Qed.

Lemma word_at_Some buf k :
  0 <= k -> 8 * k + 8 <= Z.of_nat (length buf) -> exists w, word_at buf k = Some w.
Proof.
  intros H1 H2. unfold word_at.
  rewrite (proj2 (Z.leb_le _ _) H1), (proj2 (Z.leb_le _ _) H2). simpl. eauto.
Qed.

Lemma bitfit_loop_spec buf state goal n ptr tmp :
  Forall (in_u 8) buf -> 0 <= state <= 3 -> 0 <= goal < 32 * ptr ->
  8 * (ptr + Z.of_nat n) <= Z.of_nat (length buf) -> 0 < ptr ->
  matches buf state (Z.le goal) (ptr - 1) tmp ->
  (forall b, goal <= b < 32 * (ptr - 1) -> block_state buf b <> state) ->
  exists ptr' tmp', bitfit_loop buf state n ptr tmp = Some (ptr', tmp') /\
    ptr <= ptr' <= ptr + Z.of_nat n /\ (tmp' = 0 -> ptr' = ptr + Z.of_nat n) /\
    matches buf state (Z.le goal) (ptr' - 1) tmp' /\
    (forall b, goal <= b < 32 * (ptr' - 1) -> block_state buf b <> state).
Proof.
  intros Hb Hs Hg. revert ptr tmp Hg. induction n as [|n IH]; intros ptr tmp Hg Hlen Hp Hm Hnone.
  - exists ptr, tmp. cbn [bitfit_loop]. split; [done|]. split; [lia|]. split; [lia|]. done.
  - cbn [bitfit_loop]. destruct (Z.eqb_spec tmp 0) as [->|Hne].
    + destruct (word_at_Some buf ptr) as [w Hw]; [lia..|]. rewrite Hw. cbn [mbind option_bind].
      destruct (IH (ptr + 1) (gfs2_bit_search w 0x5555555555555555 state))
        as (p' & t' & E & Hp' & Hz & Hm' & Hn'); [lia..| | |].
      * replace (ptr + 1 - 1) with ptr by lia. apply bit_search_matches; [done|done|lia|done|].
        intros i. split.
        -- intros Ht. destruct (decide (0 <= i)) as [Hi|]; [|by rewrite Z.testbit_neg_r in Ht by lia].
           rewrite mask_5_testbit in Ht by done. apply andb_true_iff in Ht as [He Hlt]. zbool.
           exists (i / 2). apply even_half in He. dm.
        -- intros (j & Hj & -> & _). rewrite mask_5_testbit by lia. apply andb_true_iff.
           split; [|apply Z.ltb_lt; lia]. by rewrite Z.even_mul.
      * intros b Hbb Hst. destruct (decide (b < 32 * (ptr - 1))); [by apply (Hnone b); [lia|]|].
        destruct Hm as [_ Hm]. specialize (Hm (2 * (b - 32 * (ptr - 1)))).
        rewrite Z.bits_0 in Hm. apply diff_false_true, Hm.
        exists (b - 32 * (ptr - 1)). replace (32 * (ptr - 1) + (b - 32 * (ptr - 1))) with b by lia.
        split; [lia|]. split; [done|]. split; [lia|done].
      * exists p', t'. split; [done|]. split; [lia|]. split; [lia|]. done.
    + exists ptr, tmp. split; [done|]. split; [lia|]. split; [lia|]. done.
Qed.

Lemma ALIGN_8 len : ALIGN len 8 = 8 * (ALIGN len 8 / 8) /\ ALIGN len 8 / 8 = (len + 7) / 8.
Proof.
  assert (E : ALIGN len 8 = 8 * ((len + 7) / 8)).
  { unfold ALIGN. replace (len + 8 - 1) with (len + 7) by lia. change (8 - 1) with (Z.ones 3).
    rewrite <- Z.ldiff_land, Z.ldiff_ones_r, Z.shiftl_mul_pow2, Z.shiftr_div_pow2 by lia.
    change (2 ^ 3) with 8. lia. }
  rewrite E. split; dm.
Qed.

(** After the last mask only the blocks of the bitmap are left. *)
Lemma last_mask_matches buf state goal len ptr tmp :
  0 < len -> 0 < ptr <= ALIGN len 8 / 8 ->
  matches buf state (Z.le goal) (ptr - 1) tmp ->
  matches buf state (fun b => goal <= b < 4 * len) (ptr - 1)
    (if (ptr =? ALIGN len 8 / 8) && c_true (Z.land len 7)
     then Z.land tmp (Z.shiftr 0xffffffffffffffff (64 - 8 * Z.land len 7)) else tmp).
Proof.
  intros Hl Hp [H0 Hm].
  rewrite (proj2 (ALIGN_8 len)) in *.
  assert (E7 : Z.land len 7 = len mod 8) by (change 7 with (Z.ones 3); by rewrite Z.land_ones by lia).
  rewrite E7. unfold c_true. destruct (Z.eqb_spec ptr ((len + 7) / 8)) as [->|Hne];
    [destruct (Z.eqb_spec (len mod 8) 0) as [Hz|Hnz]|]; cbn [andb negb].
  - split; [done|]. intros i. rewrite Hm. split.
    + intros (j & Hj & -> & Hq & Hst). exists j. split; [done|]. split; [done|]. split; [dm|done].
    + intros (j & Hj & -> & Hq & Hst). exists j. split; [done|]. split; [done|]. split; [lia|done].
  - change 0xffffffffffffffff with (Z.ones 64). rewrite Z.shiftr_div_pow2 by dm.
    rewrite Z.ones_div_pow2 by dm. replace (64 - (64 - 8 * (len mod 8))) with (8 * (len mod 8)) by lia.
    split; [apply Z.land_nonneg; by left|]. intros i. rewrite Z.land_spec, andb_true_iff, Hm. split.
    + intros [(j & Hj & -> & Hq & Hst) Ho]. rewrite Z.testbit_ones_nonneg in Ho by dm. zbool.
      exists j. split; [done|]. split; [done|]. split; [dm|done].
    + intros (j & Hj & -> & Hq & Hst). rewrite Z.testbit_ones_nonneg by dm. split.
      * exists j. split; [done|]. split; [done|]. split; [lia|done].
      * apply Z.ltb_lt. dm.
  - split; [done|]. intros i. rewrite Hm. split.
    + intros (j & Hj & -> & Hq & Hst). exists j. split; [done|]. split; [done|]. split; [dm|done].
    + intros (j & Hj & -> & Hq & Hst). exists j. split; [done|]. split; [done|]. split; [lia|done].
Qed.

Lemma find_seqZ_first (P : Z -> bool) a n r :
  a <= r < a + n -> P r = true -> (forall b, a <= b < r -> P b = false) ->
  List.find P (seqZ a n) = Some r.
Proof.
  intros Hr HP Hn.
  replace n with ((r - a) + (1 + (n - (r - a) - 1))) by lia.
  rewrite seqZ_app by lia. rewrite seqZ_app by lia.
  assert (N : List.find P (seqZ a (r - a)) = None).
  { destruct (List.find P _) as [x|] eqn:E; [|done]. apply List.find_some in E as [Hin Hx].
    apply list_elem_of_In, elem_of_seqZ in Hin. rewrite Hn in Hx by lia. done. }
  rewrite find_app, N. replace (a + (r - a)) with r by lia.
  rewrite seqZ_cons by lia. cbn [app List.find]. by rewrite HP.
Qed.

Lemma find_seqZ_none (P : Z -> bool) a n :
  (forall b, a <= b < a + n -> P b = false) -> List.find P (seqZ a n) = None.
Proof.
  intros Hn. destruct (List.find P _) as [x|] eqn:E; [|done].
  apply List.find_some in E as [Hin Hx]. apply list_elem_of_In, elem_of_seqZ in Hin.
  by rewrite Hn in Hx.
Qed.

Lemma matches_zero buf state Q p j :
  matches buf state Q p 0 -> 0 <= j < 32 -> Q (32 * p + j) -> block_state buf (32 * p + j) <> state.
Proof.
  intros [_ Hm] Hj HQ Hst. specialize (Hm (2 * j)). rewrite Z.bits_0 in Hm.
  apply diff_false_true, Hm. eauto.
Qed.

(** The lowest bit of the word is that of its first block that matches. *)
Lemma matches_first buf state Q p tmp :
  matches buf state Q p tmp -> tmp <> 0 ->
  let r := p * 8 * GFS2_NBBY + ffsll tmp / 2 in
  32 * p <= r < 32 * p + 32 /\ Q r /\ block_state buf r = state /\
  forall b, 32 * p <= b < r -> Q b -> block_state buf b <> state.
Proof.
  intros [H0 Hm] Hne. destruct (ffsll_spec tmp) as (i & Hi & -> & Ht & Hl); [lia|].
  destruct (proj1 (Hm i) Ht) as (j & Hj & -> & HQ & Hst). intros r.
  assert (Er : r = 32 * p + j) by (subst r; unfold GFS2_NBBY; dm). rewrite Er. clear r Er.
  split; [lia|]. split; [done|]. split; [done|]. intros b Hb HQb Hstb.
  assert (T : Z.testbit tmp (2 * (b - 32 * p)) = true).
  { apply Hm. exists (b - 32 * p). replace (32 * p + (b - 32 * p)) with b by lia.
    split; [lia|]. split; done. }
  rewrite Hl in T by lia. done.
Qed.

Lemma bitfit_scan buf len goal state :
  Forall (in_u 8) buf -> 0 <= state <= 3 -> 0 <= goal < 4 * len ->
  ALIGN len 8 <= Z.of_nat (length buf) ->
  gfs2_bitfit buf len goal state = Some (bitfit_ref buf len goal state).
Proof.
  intros Hb Hs Hg Hlen. unfold gfs2_bitfit.
  destruct (Z.gtb_spec state 3); [lia|]. set (e := ALIGN len 8 / 8) in *.
  assert (EA : ALIGN len 8 = 8 * e /\ e = (len + 7) / 8) by apply ALIGN_8.
  set (p := Z.shiftr goal 5). assert (Ep : p = goal / 32) by (subst p; by rewrite Z.shiftr_div_pow2).
  destruct (word_at_Some buf p) as [w Hw]; [dm..|]. rewrite Hw. cbn [mbind option_bind].
  destruct (bitfit_loop_spec buf state goal (Z.to_nat (e - (p + 1))) (p + 1)
    (gfs2_bit_search w (u64 (Z.shiftl 0x5555555555555555 (Z.land (u64 (Z.shiftl goal 1)) 63))) state))
    as (q & t & -> & Hq & Hz & Hm & Hnone); [done|done|dm|dm|dm| |dm|].
  { replace (p + 1 - 1) with p by lia. apply bit_search_matches; [done|done| |done|].
    - by apply wrap_range.
    - intros i. apply first_mask_spec. lia. }
  cbn [mbind option_bind]. apply (last_mask_matches _ _ _ len) in Hm; [|lia|fold e; dm].
  fold e in Hm. set (t' := if _ && _ then _ else _) in *. unfold bitfit_ref.
  destruct (Z.eqb_spec t' 0) as [E0|Hne].
  - rewrite E0 in Hm. rewrite find_seqZ_none; [done|]. intros b Hbb. apply Z.eqb_neq.
    destruct (decide (b < 32 * (q - 1))); [apply Hnone; lia|].
    assert (Hqe : q = e).
    { destruct (Z.eqb_spec q e) as [|Hqe]; [done|]. cbn in t'. subst t'. rewrite Hz in Hqe; dm. }
    pose proof (matches_zero _ _ _ _ (b - 32 * (q - 1)) Hm) as H1.
    replace (32 * (q - 1) + (b - 32 * (q - 1))) with b in H1 by lia. apply H1; dm.
  - destruct (matches_first _ _ _ _ _ Hm Hne) as (Hr & HQ & Hst & Hf).
    rewrite (find_seqZ_first _ _ _ ((q - 1) * 8 * GFS2_NBBY + ffsll t' / 2)); [done|lia|by apply Z.eqb_eq|].
    intros b Hbb. apply Z.eqb_neq. destruct (decide (b < 32 * (q - 1))); [apply Hnone; lia|].
    apply Hf; lia.
Qed.

(** C33: [gfs2_bitfit] returns the first block from the goal on that is in the
    given state, or [BFITNOENT] when there is none: searching words and shifting
    masks finds what a scan block by block finds, for every length of the bitmap and
    every goal in it. *)
Theorem bitfit_finds_first buf len goal state :
  Forall (in_u 8) buf -> 0 <= state <= 3 -> 0 <= goal < 4 * len ->
  ALIGN len 8 <= Z.of_nat (length buf) ->
  gfs2_bitfit buf len goal state = Some (bitfit_ref buf len goal state).
Proof. apply bitfit_scan. Qed.

(** ** Counting *)

Definition blocks_in_state (buf : list Z) (len state : Z) : Z :=
  countZ (fun b => block_state buf b =? state) 0 (4 * len).

Lemma block_state_cons x buf b : 4 <= b -> block_state (x :: buf) b = block_state buf (b - 4).
Proof.
  intros Hb. unfold block_state. replace (Z.to_nat (b / 4)) with (S (Z.to_nat ((b - 4) / 4))) by dm.
  cbn [nth]. f_equal. f_equal. dm.
Qed.

Lemma count_fold {A} (f : A -> bool) l count :
  0 <= count -> count + Z.of_nat (length l) < 2 ^ 32 ->
  foldl (fun c x => if f x then u32 (c + 1) else c) count l =
  count + Z.of_nat (length (List.filter f l)).
Proof.
  revert count. induction l as [|x l IH]; intros count H0 H1; simpl; [lia|]. cbn [length] in H1.
  destruct (f x).
  - rewrite (wrap_small 32) by (unfold in_u; lia). rewrite IH by lia. cbn [length]. lia.
  - apply IH; lia.
Qed.

Lemma count_byte_spec state count x buf :
  0 <= count -> count + 4 < 2 ^ 32 ->
  count_byte state count x = count + countZ (fun b => block_state (x :: buf) b =? state) 0 4.
Proof.
  intros H0 H1. unfold count_byte. rewrite count_fold by (simpl; lia). f_equal.
  do 4 rewrite countZ_cons by lia. rewrite countZ_nil by lia. cbn [List.filter].
  change (block_state (x :: buf) 0) with (Z.land (Z.shiftr x 0) GFS2_BIT_MASK).
  change (block_state (x :: buf) (Z.succ 0)) with (Z.land (Z.shiftr x 2) GFS2_BIT_MASK).
  change (block_state (x :: buf) (Z.succ (Z.succ 0))) with (Z.land (Z.shiftr x 4) GFS2_BIT_MASK).
  change (block_state (x :: buf) (Z.succ (Z.succ (Z.succ 0)))) with (Z.land (Z.shiftr x 6) GFS2_BIT_MASK).
  by repeat match goal with |- context [Z.land (Z.shiftr x ?k) GFS2_BIT_MASK =? state] =>
    destruct (Z.land (Z.shiftr x k) GFS2_BIT_MASK =? state) end.
Qed.

Lemma bitcount_loop state buf count :
  0 <= count -> count + 4 * Z.of_nat (length buf) < 2 ^ 32 ->
  foldl (count_byte state) count buf =
  count + countZ (fun b => block_state buf b =? state) 0 (4 * Z.of_nat (length buf)).
Proof.
  revert count. induction buf as [|x buf IH]; intros count H0 H1; cbn [foldl].
  - rewrite countZ_nil by (cbn [length]; lia). lia.
  - rewrite (count_byte_spec state count x buf) by (cbn [length] in H1; lia).
    pose proof (countZ_range (fun b => block_state (x :: buf) b =? state) 0 4).
    rewrite IH by (cbn [length] in H1; lia). cbn [length].
    replace (4 * Z.of_nat (S (length buf))) with (4 + 4 * Z.of_nat (length buf)) by lia.
    rewrite countZ_app by lia. rewrite (countZ_shift _ 0 4).
    rewrite (countZ_ext (fun x0 => block_state (x :: buf) (x0 + 4) =? state)
      (fun b => block_state buf b =? state)); [lia|].
    intros b Hb. rewrite block_state_cons by lia. do 2 f_equal. lia.
Qed.

Lemma bitcount_counts buf len state :
  0 <= len <= Z.of_nat (length buf) -> 4 * len < 2 ^ 32 ->
  gfs2_bitcount buf len state = blocks_in_state buf len state.
Proof.
  intros Hl H4. unfold gfs2_bitcount, blocks_in_state.
  rewrite bitcount_loop by (rewrite ?length_take; lia). rewrite length_take.
  replace (Z.of_nat (Z.to_nat len `min` length buf)) with len by lia.
  rewrite Z.add_0_l. apply countZ_ext. intros b Hb. unfold block_state.
  rewrite !nth_lookup, lookup_take_lt by dm. done.
Qed.

(** ** The block map *)

Lemma nibble_offset b : BLOCKMAP_BYTE_OFFSET4 b = 4 * (b mod 2).
Proof.
  unfold BLOCKMAP_BYTE_OFFSET4. change 1 with (Z.ones 1). rewrite Z.land_ones by lia.
  rewrite Z.shiftl_mul_pow2 by lia. change (2 ^ 2) with 4. change (2 ^ 1) with 2. lia.
Qed.

Lemma mark_value_range m : 0 <= mark_value m < 16.
Proof. destruct m; simpl; lia. Qed.

Lemma mark_of_value m : mark_of (mark_value m) = m.
Proof. by destruct m. Qed.

Lemma mask4_testbit off i : 0 <= off -> 0 <= i ->
  Z.testbit (Z.shiftl BLOCKMAP_MASK4 off) i = (off <=? i) && (i <? off + 4).
Proof.
  intros Ho Hi. rewrite Z.shiftl_spec by done. change BLOCKMAP_MASK4 with (Z.ones 4).
  destruct (Z.leb_spec off i); cbn [andb].
  - rewrite Z.testbit_ones_nonneg by lia. apply Bool.eq_iff_eq_true. rewrite !Z.ltb_lt. lia.
  - apply Z.testbit_neg_r. lia.
Qed.

Lemma set_nibble_testbit byte off v i :
  0 <= off <= 4 -> 0 <= v < 16 -> 0 <= i < 8 ->
  Z.testbit (set_nibble byte off v) i =
  if (off <=? i) && (i <? off + 4) then Z.testbit v (i - off) else Z.testbit byte i.
Proof.
  intros Ho Hv Hi. unfold set_nibble. rewrite wrap_testbit, Z.lor_spec, Z.land_spec, wrap_testbit by lia.
  destruct (Z.ltb_spec i 8); [|lia]. cbn [andb]. rewrite Z.lnot_spec, mask4_testbit by lia.
  rewrite Z.shiftl_spec by lia. replace (Z.land v BLOCKMAP_MASK4) with v.
  2:{ change BLOCKMAP_MASK4 with (Z.ones 4). rewrite Z.land_ones by lia. by rewrite Z.mod_small. }
  destruct (Z.leb_spec off i), (Z.ltb_spec i (off + 4)); cbn [andb negb]; rewrite ?andb_false_r, ?andb_true_r.
  - done.
  - assert (Hu : in_u 4 v) by (unfold in_u; lia). rewrite in_u_testbit in Hu by lia.
    rewrite Hu by lia. apply orb_false_r.
  - rewrite (Z.testbit_neg_r v) by lia. apply orb_false_r.
  - lia.
Qed.

Lemma get_nibble_testbit byte off i :
  0 <= off -> 0 <= i ->
  Z.testbit (Z.shiftr (Z.land byte (Z.shiftl BLOCKMAP_MASK4 off)) off) i =
  (i <? 4) && Z.testbit byte (i + off).
Proof.
  intros Ho Hi. rewrite Z.shiftr_spec, Z.land_spec, mask4_testbit by lia.
  destruct (Z.leb_spec off (i + off)); [|lia]. rewrite andb_comm. f_equal.
  apply Bool.eq_iff_eq_true. rewrite !Z.ltb_lt. lia.
Qed.

Lemma get_set_nibble byte off off' v :
  (off = 0 \/ off = 4) -> (off' = 0 \/ off' = 4) -> 0 <= v < 16 ->
  Z.shiftr (Z.land (set_nibble byte off v) (Z.shiftl BLOCKMAP_MASK4 off')) off' =
  if off' =? off then v else Z.shiftr (Z.land byte (Z.shiftl BLOCKMAP_MASK4 off')) off'.
Proof.
  intros Ho Ho' Hv. apply Z.bits_inj'. intros i Hi. rewrite get_nibble_testbit by lia.
  destruct (Z.ltb_spec i 4) as [H4|H4]; cbn [andb].
  - rewrite set_nibble_testbit by lia. destruct (Z.eqb_spec off' off) as [->|Hne].
    + destruct (Z.leb_spec off (i + off)), (Z.ltb_spec (i + off) (off + 4)); try lia.
      cbn [andb]. f_equal. lia.
    + rewrite get_nibble_testbit by lia. destruct (Z.ltb_spec i 4); [|lia]. cbn [andb].
      destruct (Z.leb_spec off (i + off')), (Z.ltb_spec (i + off') (off + 4)); try lia; done.
  - destruct (Z.eqb_spec off' off).
    + assert (Hu : in_u 4 v) by (unfold in_u; lia). rewrite in_u_testbit in Hu by lia.
      rewrite Hu by lia. done.
    + rewrite get_nibble_testbit by lia. by destruct (Z.ltb_spec i 4); [lia|].
Qed.

(** The block has four bits in the allocated bytes. *)
Definition in_map (b : gfs2_bmap) (bblock : Z) : Prop :=
  0 <= bblock <= bm_size b /\ bblock / 2 < Z.of_nat (length (bm_map b)).

(** The block map gives back the last mark set for a block, and setting a mark
    changes no other block, for the blocks within the allocated bytes. *)
Theorem blockmap_set_get b bblock mark :
  in_map b bblock ->
  exists b', gfs2_blockmap_set b bblock mark = Some (0, b') /\
    bm_size b' = bm_size b /\ length (bm_map b') = length (bm_map b) /\
    block_type b' bblock = Some (mark_value mark) /\
    forall c, 0 <= c -> c <> bblock -> block_type b' c = block_type b c.
Proof.
  intros [Hs Hl]. unfold gfs2_blockmap_set, block_type, BLOCKMAP_SIZE4.
  destruct (Z.gtb_spec bblock (bm_size b)); [lia|].
  rewrite Z.shiftr_div_pow2 by lia. change (2 ^ 1) with 2.
  destruct (lookup_lt_is_Some_2 (bm_map b) (Z.to_nat (bblock / 2))) as [byte Hb]; [dm|].
  rewrite Hb. cbn [mbind option_bind].
  eexists. split; [reflexivity|]. cbn [bm_size bm_map]. rewrite length_insert.
  split; [done|]. split; [done|].
  assert (Hk : (Z.to_nat (bblock / 2) < length (bm_map b))%nat) by dm.
  assert (Hoff : forall c, 0 <= c -> BLOCKMAP_BYTE_OFFSET4 c = 0 \/ BLOCKMAP_BYTE_OFFSET4 c = 4).
  { intros c Hc. rewrite nibble_offset. dm. }
  pose proof (mark_value_range mark) as Hm. split.
  - rewrite list_lookup_insert_eq by done. cbn [mbind option_bind].
    rewrite get_set_nibble by (auto with lia). by rewrite Z.eqb_refl.
  - intros c Hc Hne. rewrite Z.shiftr_div_pow2 by lia. change (2 ^ 1) with 2.
    destruct (decide (c / 2 = bblock / 2)) as [E|E].
    + rewrite E, list_lookup_insert_eq, Hb by done. cbn [mbind option_bind].
      rewrite get_set_nibble by (auto with lia).
      destruct (Z.eqb_spec (BLOCKMAP_BYTE_OFFSET4 c) (BLOCKMAP_BYTE_OFFSET4 bblock)) as [E2|]; [|done].
      rewrite !nibble_offset in E2. exfalso. dm.
    + by rewrite list_lookup_insert_ne by dm.
Qed.

(** The map of a file system with an odd number of blocks has no room for the last
    one: marking it writes the byte after the map. *)
Theorem blockmap_last_block_outside size mark :
  0 < size -> size mod 2 = 1 ->
  gfs2_blockmap_set (gfs2_blockmap_create size) (size - 1) mark = None.
Proof.
  intros H0 H1. unfold gfs2_blockmap_set, gfs2_blockmap_create, BLOCKMAP_SIZE4. cbn [bm_size bm_map].
  destruct (Z.gtb_spec (size - 1) size); [lia|]. rewrite !Z.shiftr_div_pow2 by lia.
  change (2 ^ 1) with 2. rewrite lookup_ge_None_2; [done|]. rewrite length_replicate. dm.
Qed.

(** ** Witnesses *)

Definition sample_bitmap : list Z := <[9%nat := 0xcf]> (replicate 16 0xff).

Lemma bitfit_finds_first_witness :
  gfs2_bitfit sample_bitmap 13 3 GFS2_BLKST_FREE = Some (bitfit_ref sample_bitmap 13 3 GFS2_BLKST_FREE) /\
  bitfit_ref sample_bitmap 13 3 GFS2_BLKST_FREE = 38.
Proof.
  split; [|vm_compute; reflexivity].
  apply bitfit_finds_first; [|vm_compute; by split|vm_compute; by split|vm_compute; by intros ?].
  apply Forall_forall. intros x Hx. apply (list_elem_of_In) in Hx. vm_compute in Hx.
  repeat destruct Hx as [<-|Hx]; [unfold in_u; lia..|done].
Defined.

Lemma blockmap_set_get_witness :
  exists b', gfs2_blockmap_set (gfs2_blockmap_create 10) 7 gfs2_inode_dir = Some (0, b') /\
    bm_size b' = 10 /\ length (bm_map b') = 5%nat /\ block_type b' 7 = Some 3 /\
    forall c, 0 <= c -> c <> 7 -> block_type b' c = block_type (gfs2_blockmap_create 10) c.
Proof.
  apply (blockmap_set_get (gfs2_blockmap_create 10) 7 gfs2_inode_dir). vm_compute. by repeat split.
Defined.
