(* ===== verification/Gfs2Rgrp.v ===== *)
(** * Resource groups of GFS2

    A file system is divided in resource groups; each starts with the blocks of its
    bitmap, followed by the blocks it describes.  This file models
    [src/gfs2/libgfs2/rgrp.c] (the parts of a bitmap, the group of a block),
    [gfs2_set_bitmap] and [gfs2_get_bitmap] of [fs_bits.c], the layout of
    [fs_geometry.c], the allocation and freeing of blocks of [fs_ops.c],
    [gfs2_next_rg_meta] of [structures.c], and the last pass of fsck
    ([src/gfs2/fsck/pass5.c]), which makes the bitmaps agree with what fsck found.

    The sizes of the structures on disk and the encoding of a resource group
    header come from a header of the kernel and are parameters.  The list of
    groups is a list, a pointer to a group is its position, and the static
    variable of [gfs2_blk2rgrpd] is part of the state.  Messages are left out; the
    answers to the questions of fsck are inputs. *)

From S2P Require Import Prelude Gfs2Bits.
Open Scope Z_scope.

(** ** Data *)

Record sizes := mkSizes {
  sz_meta_header : Z;
  sz_rgrp : Z
}.

Record gfs2_rindex := mkRi {
  ri_addr : Z;
  ri_length : Z;
  ri_data0 : Z;
  ri_data : Z;
  ri_bitbytes : Z
}.

Record gfs2_rgrp := mkRg {
  rg_flags : Z;
  rg_free : Z;
  rg_dinodes : Z
}.

Record gfs2_bitmap := mkBits {
  bi_offset : Z;
  bi_start : Z;
  bi_len : Z
}.

Record gfs2_buffer_head := mkBh {
  b_blocknr : Z;
  b_modified : bool;
  b_data : list Z
}.

(** [NULL] pointers are [None]. *)
Record rgrp_list := mkRgd {
  rl_start : Z;
  rl_length : Z;
  rl_ri : gfs2_rindex;
  rl_rg : gfs2_rgrp;
  rl_bits : option (list gfs2_bitmap);
  rl_bh : option (list (option gfs2_buffer_head))
}.

(** The fields of the superblock structure that matter here, and [prev_rgd]. *)
Record gfs2_sbd := mkSbd {
  sd_bsize : Z;
  sd_rgsize : Z;
  sd_sb_addr : Z;
  sd_dev_start : Z;
  sd_dev_length : Z;
  sd_fssize : Z;
  sd_blks_total : Z;
  sd_blks_alloced : Z;
  sd_dinodes_alloced : Z;
  sd_rgrps : Z;
  sd_new_rgrps : Z;
  sd_rglist : list rgrp_list;
  sd_prev_rgd : option nat
}.

(** Calls that end the program ([die], [exit]), and reads or writes outside an
    object. *)
Inductive res (A : Type) :=
  | Ok (a : A)
  | Die
  | Fault.
Arguments Ok {A} a.
Arguments Die {A}.
Arguments Fault {A}.

#[export] Instance res_ret : MRet res := @Ok.
#[export] Instance res_bind : MBind res := fun A B f m =>
  match m with
  | Ok a => f a
  | Die => Die
  | Fault => Fault
  end.

Definition of_option {A} (o : option A) : res A :=
  match o with
  | Some a => Ok a
  | None => Fault
  end.

Definition rl_set_rg (r : rgrp_list) (g : gfs2_rgrp) : rgrp_list :=
  mkRgd (rl_start r) (rl_length r) (rl_ri r) g (rl_bits r) (rl_bh r).
Definition rl_set_bits (r : rgrp_list) (b : option (list gfs2_bitmap)) : rgrp_list :=
  mkRgd (rl_start r) (rl_length r) (rl_ri r) (rl_rg r) b (rl_bh r).
Definition rl_set_bh (r : rgrp_list) (b : option (list (option gfs2_buffer_head))) : rgrp_list :=
  mkRgd (rl_start r) (rl_length r) (rl_ri r) (rl_rg r) (rl_bits r) b.

Definition sd_set_rglist (s : gfs2_sbd) (l : list rgrp_list) : gfs2_sbd :=
  mkSbd (sd_bsize s) (sd_rgsize s) (sd_sb_addr s) (sd_dev_start s) (sd_dev_length s) (sd_fssize s)
    (sd_blks_total s) (sd_blks_alloced s) (sd_dinodes_alloced s) (sd_rgrps s) (sd_new_rgrps s) l
    (sd_prev_rgd s).
Definition sd_set_prev (s : gfs2_sbd) (p : option nat) : gfs2_sbd :=
  mkSbd (sd_bsize s) (sd_rgsize s) (sd_sb_addr s) (sd_dev_start s) (sd_dev_length s) (sd_fssize s)
    (sd_blks_total s) (sd_blks_alloced s) (sd_dinodes_alloced s) (sd_rgrps s) (sd_new_rgrps s)
    (sd_rglist s) p.
Definition sd_set_alloced (s : gfs2_sbd) (blks dinodes : Z) : gfs2_sbd :=
  mkSbd (sd_bsize s) (sd_rgsize s) (sd_sb_addr s) (sd_dev_start s) (sd_dev_length s) (sd_fssize s)
    (sd_blks_total s) blks dinodes (sd_rgrps s) (sd_new_rgrps s) (sd_rglist s) (sd_prev_rgd s).
Definition sd_set_total (s : gfs2_sbd) (total fssize : Z) : gfs2_sbd :=
  mkSbd (sd_bsize s) (sd_rgsize s) (sd_sb_addr s) (sd_dev_start s) (sd_dev_length s) fssize
    total (sd_blks_alloced s) (sd_dinodes_alloced s) (sd_rgrps s) (sd_new_rgrps s) (sd_rglist s)
    (sd_prev_rgd s).

Definition bmodified (bh : gfs2_buffer_head) : gfs2_buffer_head :=
  mkBh (b_blocknr bh) true (b_data bh).
Definition bh_set_data (bh : gfs2_buffer_head) (d : list Z) : gfs2_buffer_head :=
  mkBh (b_blocknr bh) (b_modified bh) d.

(** The buffer number [i] of a group. *)
Definition get_bh (r : rgrp_list) (i : nat) : option gfs2_buffer_head :=
  l ← rl_bh r; b ← l !! i; b.
Definition set_bh (r : rgrp_list) (i : nat) (bh : gfs2_buffer_head) : rgrp_list :=
  match rl_bh r with
  | Some l => rl_set_bh r (Some (<[i := Some bh]> l))
  | None => r
  end.

Section Rgrp.
Context (sz : sizes).

(** ** The parts of a bitmap *)

(** The loop of [gfs2_compute_bitstructs]; [x] is its counter. *)
Fixpoint bitstructs_loop (bsize length bitbytes : Z) (n : nat) (x bytes_left : Z)
    : list gfs2_bitmap * Z :=
  match n with
  | O => ([], bytes_left)
  | S n' =>
      let '(bits, bytes) :=
        if length =? 1 then (mkBits (sz_rgrp sz) 0 bytes_left, bytes_left)
        else if x =? 0 then
          let bytes := u32 (bsize - sz_rgrp sz) in (mkBits (sz_rgrp sz) 0 bytes, bytes)
        else if x + 1 =? length then
          (mkBits (sz_meta_header sz) (u32 (bitbytes - bytes_left)) bytes_left, bytes_left)
        else
          let bytes := u32 (bsize - sz_meta_header sz) in
          (mkBits (sz_meta_header sz) (u32 (bitbytes - bytes_left)) bytes, bytes) in
      let '(l, rest) := bitstructs_loop bsize length bitbytes n' (x + 1) (u32 (bytes_left - bytes)) in
      (bits :: l, rest)
  end.

(** The return value, the group and the allocator. *)
Definition gfs2_compute_bitstructs (m : mem) (bsize : Z) (rgd : rgrp_list) : Z * rgrp_list * mem :=
  let length := ri_length (rl_ri rgd) in
  if (length >? 2149) || (length =? 0) then (-1, rgd, m)
  else
    let '(ok, m1) := match rl_bits rgd with
                     | None => malloc m
                     | Some _ => (Some 0, m)
                     end in
    match ok with
    | None => (-1, rgd, m1)
    | Some _ =>
        let bitbytes := ri_bitbytes (rl_ri rgd) in
        let '(bits, bytes_left) := bitstructs_loop bsize length bitbytes (Z.to_nat length) 0 bitbytes in
        let rgd1 := rl_set_bits rgd (Some bits) in
        let last := List.last bits (mkBits 0 0 0) in
        if c_true bytes_left then (-1, rgd1, m1)
        else if negb (u32 (u32 (bi_start last + bi_len last) * GFS2_NBBY) =? ri_data (rl_ri rgd))
        then (-1, rgd1, m1)
        else match rl_bh rgd with
        | Some _ => (0, rgd1, m1)
        | None =>
            let '(r, m2) := malloc m1 in
            match r with
            | None => (-1, rgd1, m2)
            | Some _ => (0, rl_set_bh rgd1 (Some (replicate (Z.to_nat length) None)), m2)
            end
        end
    end.

(** ** The group of a block *)

Definition in_data (ri : gfs2_rindex) (blk : Z) : bool :=
  (ri_data0 ri <=? blk) && (blk <? u64 (ri_data0 ri + ri_data ri)).
Definition in_header (ri : gfs2_rindex) (blk : Z) : bool :=
  (blk >=? ri_addr ri) && (blk <? u64 (ri_addr ri + ri_length ri)).

(** The search of the list, from position [i] on. *)
Fixpoint rgrpd_search (l : list rgrp_list) (i : nat) (blk : Z) : option nat :=
  match l with
  | [] => None
  | rgd :: l' =>
      if in_header (rl_ri rgd) blk || in_data (rl_ri rgd) blk then Some i
      else rgrpd_search l' (S i) blk
  end.

Definition gfs2_blk2rgrpd (s : gfs2_sbd) (blk : Z) : option nat * gfs2_sbd :=
  let hit := match sd_prev_rgd s with
             | Some p => match sd_rglist s !! p with
                         | Some rgd => in_data (rl_ri rgd) blk || in_header (rl_ri rgd) blk
                         | None => false
                         end
             | None => false
             end in
  if hit then (sd_prev_rgd s, s)
  else match rgrpd_search (sd_rglist s) 0 blk with
  | Some p => (Some p, sd_set_prev s (Some p))
  | None => (None, s)
  end.

(** ** The state of a block in the bitmap *)

(** The first part of the bitmap that reaches beyond the block; the number of
    parts when none does. *)
Fixpoint find_bits (rgrp_block : Z) (l : list gfs2_bitmap) : nat :=
  match l with
  | [] => O
  | b :: l' => if rgrp_block <? u32 (u32 (bi_start b + bi_len b) * GFS2_NBBY) then O
               else S (find_bits rgrp_block l')
  end.

(** The position of the byte in its buffer, and of the pair of bits in the byte. *)
Definition byte_of (b : gfs2_bitmap) (rgrp_block : Z) : Z :=
  bi_offset b + (rgrp_block / GFS2_NBBY - bi_start b).
Definition bit_of (rgrp_block : Z) : Z := (rgrp_block mod GFS2_NBBY) * GFS2_BIT_SIZE.

(** The byte after the statements on [*byte] of [gfs2_set_bitmap]. *)
Definition set_pair (byte bit state : Z) : Z :=
  let cur_state := Z.land (Z.shiftr byte bit) GFS2_BIT_MASK in
  let byte := u8 (Z.lxor byte (Z.shiftl cur_state bit)) in
  u8 (Z.lor byte (Z.shiftl state bit)).

(** [gfs2_set_bitmap] after the group is known. *)
Definition set_bitmap_in (rgd : rgrp_list) (blkno state : Z) : res rgrp_list :=
  let rgrp_block := u32 (blkno - ri_data0 (rl_ri rgd)) in
  bits ← of_option (rl_bits rgd);
  let buf := find_bits rgrp_block (take (Z.to_nat (ri_length (rl_ri rgd))) bits) in
  b ← of_option (bits !! buf);
  bh ← of_option (get_bh rgd buf);
  let k := Z.to_nat (byte_of b rgrp_block) in
  byte ← of_option (b_data bh !! k);
  mret (set_bh rgd buf (bmodified (bh_set_data bh
    (<[k := set_pair byte (bit_of rgrp_block) state]> (b_data bh))))).

Definition set_rgd (s : gfs2_sbd) (p : nat) (rgd : rgrp_list) : gfs2_sbd :=
  sd_set_rglist s (<[p := rgd]> (sd_rglist s)).

Definition gfs2_set_bitmap (s : gfs2_sbd) (blkno state : Z) : res (Z * gfs2_sbd) :=
  if (state <? GFS2_BLKST_FREE) || (state >? GFS2_BLKST_DINODE) then mret (-1, s)
  else
    let '(r, s1) := gfs2_blk2rgrpd s blkno in
    match r with
    | None => mret (-1, s1)
    | Some p =>
        rgd ← of_option (sd_rglist s1 !! p);
        rgd' ← set_bitmap_in rgd blkno state;
        mret (0, set_rgd s1 p rgd')
    end.

(** [gfs2_get_bitmap] after the group is known. *)
Definition get_bitmap_in (rgd : rgrp_list) (blkno : Z) : res Z :=
  let rgrp_block := u32 (blkno - ri_data0 (rl_ri rgd)) in
  bits ← of_option (rl_bits rgd);
  let i := find_bits rgrp_block (take (Z.to_nat (ri_length (rl_ri rgd))) bits) in
  if Z.of_nat i >=? ri_length (rl_ri rgd) then mret (-1)
  else
    b ← of_option (bits !! i);
    bh ← of_option (get_bh rgd i);
    byte ← of_option (b_data bh !! Z.to_nat (byte_of b rgrp_block));
    mret (Z.land (Z.shiftr byte (bit_of rgrp_block)) GFS2_BIT_MASK).

(** [None] for the group asks for a search. *)
Definition gfs2_get_bitmap (s : gfs2_sbd) (blkno : Z) (rgd : option nat) : res (Z * gfs2_sbd) :=
  let '(r, s1) := match rgd with
                  | None => gfs2_blk2rgrpd s blkno
                  | Some p => (Some p, s)
                  end in
  match r with
  | None => mret (-1, s1)
  | Some p =>
      g ← of_option (sd_rglist s1 !! p);
      v ← get_bitmap_in g blkno;
      mret (v, s1)
  end.

Definition gfs2_check_range (s : gfs2_sbd) (blkno : Z) : Z :=
  if (blkno >? sd_fssize s) || (blkno <=? sd_sb_addr s) then -1 else 0.

(** ** The layout of a new or grown file system *)

Definition GFS2_DEFAULT_RGSIZE : Z := 256.
Definition GFS2_EXCESSIVE_RGS : Z := 10000.

Definition DIV_RU (x y : Z) : res Z := if y =? 0 then Fault else Ok (u64 (x + y - 1) / y).

(** The number of groups and their size in megabytes. *)
Fixpoint how_many_loop (fuel : nat) (dev_length bsize : Z) (specified : bool) (rgsize : Z)
    : res (Z * Z) :=
  match fuel with
  | O => Fault
  | S fuel' =>
      nrgrp ← DIV_RU dev_length (u32 (Z.shiftl rgsize 20) / bsize);
      if specified || (nrgrp <=? GFS2_EXCESSIVE_RGS) || (rgsize >=? 2048) then Ok (nrgrp, rgsize)
      else how_many_loop fuel' dev_length bsize specified (u32 (rgsize + GFS2_DEFAULT_RGSIZE))
  end.

Definition how_many_rgrps (s : gfs2_sbd) (specified : bool) : res (Z * Z) :=
  how_many_loop 9 (sd_dev_length s) (sd_bsize s) specified (sd_rgsize s).

Definition new_rgrp (start length : Z) : rgrp_list :=
  mkRgd start length (mkRi 0 0 0 0 0) (mkRg 0 0 0) None None.

(** The loop that appends groups: [n] are to come, after one that starts at [start]
    and has [len] blocks. *)
Fixpoint append_rgrps (n : nat) (start len rglength : Z) : list rgrp_list :=
  match n with
  | O => []
  | S n' =>
      let start' := u64 (start + len) in
      new_rgrp start' rglength :: append_rgrps n' start' rglength rglength
  end.

(** The last two groups of a list. *)
Fixpoint last_two (l : list rgrp_list) (rlast rlast2 : option rgrp_list)
    : option rgrp_list * option rgrp_list :=
  match l with
  | [] => (rlast, rlast2)
  | rl :: l' => last_two l' (Some rl) rlast
  end.

Definition layout_new (s : gfs2_sbd) (specified : bool) : res gfs2_sbd :=
  '(n, rgsize) ← how_many_rgrps s specified;
  let nrgrp := u32 n in
  if nrgrp =? 0 then Fault
  else
    let len := sd_dev_length s in
    let rglength := len / nrgrp in
    let first := u64 (len - u64 (u32 (nrgrp - 1) * (len / nrgrp))) in
    let l := new_rgrp (sd_dev_start s) first ::
             append_rgrps (Z.to_nat (nrgrp - 1)) (sd_dev_start s) first rglength in
    mret (mkSbd (sd_bsize s) rgsize (sd_sb_addr s) (sd_dev_start s) len (sd_fssize s)
      (sd_blks_total s) (sd_blks_alloced s) (sd_dinodes_alloced s) nrgrp nrgrp l (sd_prev_rgd s)).

Definition layout_grow (s : gfs2_sbd) : res gfs2_sbd :=
  match last_two (sd_rglist s) None None with
  | (Some rlast, Some rlast2) =>
      let start := ri_addr (rl_ri rlast) in
      let rglength := u64 (ri_addr (rl_ri rlast) - ri_addr (rl_ri rlast2)) in
      if rglength =? 0 then Fault
      else
        let rlast' := mkRgd start rglength (rl_ri rlast) (rl_rg rlast) (rl_bits rlast) (rl_bh rlast) in
        let old_length := u64 (start + rglength) in
        let new_chunk := u64 (sd_dev_length s - old_length) in
        let new_rgrps := new_chunk / rglength in
        let count := length (sd_rglist s) in
        let nrgrp := u32 (Z.of_nat count + new_rgrps) in
        let l := <[pred count := rlast']> (sd_rglist s) ++
                 append_rgrps (Z.to_nat (nrgrp - Z.of_nat count)) start rglength rglength in
        mret (mkSbd (sd_bsize s) (sd_rgsize s) (sd_sb_addr s) (sd_dev_start s) (sd_dev_length s)
          (sd_fssize s) (sd_blks_total s) (sd_blks_alloced s) (sd_dinodes_alloced s) nrgrp
          new_rgrps l (sd_prev_rgd s))
  | _ => Fault
  end.

Definition compute_rgrp_layout (s : gfs2_sbd) (specified : bool) : res gfs2_sbd :=
  let reserve := sd_sb_addr s + 1 in
  let start := u64 (sd_dev_start s + reserve) in
  let with_dev len :=
    mkSbd (sd_bsize s) (sd_rgsize s) (sd_sb_addr s) start len (sd_fssize s) (sd_blks_total s)
      (sd_blks_alloced s) (sd_dinodes_alloced s) (sd_rgrps s) 0 (sd_rglist s) (sd_prev_rgd s) in
  match sd_rglist s with
  | [] => layout_new (with_dev (u64 (sd_dev_length s - reserve))) specified
  | _ => layout_grow (with_dev (sd_dev_length s))
  end.

(** The loop of [rgblocks2bitblocks]: the bytes needed and the bitmap blocks. *)
Fixpoint bitblocks_loop (fuel : nat) (bsize rgblocks bitblocks provided last : Z) : option (Z * Z) :=
  match fuel with
  | O => None
  | S fuel' =>
      let needed := u32 (rgblocks - bitblocks) / GFS2_NBBY in
      if provided >=? needed
      then Some (needed, if last >=? needed then u32 (bitblocks - 1) else bitblocks)
      else bitblocks_loop fuel' bsize rgblocks (u32 (bitblocks + 1))
             (u32 (provided + (bsize - sz_meta_header sz))) provided
  end.

(** The data blocks and the bitmap blocks of a group of [rgblocks] blocks. *)
Definition rgblocks2bitblocks (bsize rgblocks : Z) : option (Z * Z) :=
  '(needed, bitblocks) ← bitblocks_loop (S (Z.to_nat (rgblocks / 4))) bsize rgblocks 1
                           (u32 (bsize - sz_rgrp sz)) 0;
  Some (u32 (needed * GFS2_NBBY), bitblocks).

(** ** Writing resource groups

    [rgrp_out] and [rb_out] write the header of a group and of a further bitmap
    block into the bytes of a block ([gfs2_rgrp_out], [gfs2_meta_header_out]). *)

Context (rgrp_out : gfs2_rgrp -> list Z -> list Z) (rb_out : list Z -> list Z).

Definition write_rg (rgd : rgrp_list) : res rgrp_list :=
  bh ← of_option (get_bh rgd 0);
  mret (set_bh rgd 0 (bmodified (bh_set_data bh (rgrp_out (rl_rg rgd) (b_data bh))))).

(** A new buffer for a block, as [bget] returns it, with its header. *)
Definition new_bitmap_block (bsize start : Z) (rg : gfs2_rgrp) (x : nat) : gfs2_buffer_head :=
  let zero := replicate (Z.to_nat bsize) 0 in
  mkBh (u64 (start + Z.of_nat x)) true
    (match x with
     | O => rgrp_out rg zero
     | S _ => rb_out zero
     end).

(** One group of [build_rgrps]; the counters and the allocator are threaded. *)
Definition build_rgrp (m : mem) (s : gfs2_sbd) (do_write : bool) (rl : rgrp_list)
    : res (rgrp_list * gfs2_sbd * mem) :=
  '(rgblocks, bitblocks) ← of_option (rgblocks2bitblocks (sd_bsize s) (u32 (rl_length rl)));
  let ri := mkRi (rl_start rl) bitblocks (u64 (rl_start rl + bitblocks)) rgblocks
              (rgblocks / GFS2_NBBY) in
  let rg := mkRg 0 rgblocks 0 in
  let rl1 := mkRgd (rl_start rl) (rl_length rl) ri rg (rl_bits rl) (rl_bh rl) in
  let '(_, rl2, m1) := gfs2_compute_bitstructs m (sd_bsize s) rl1 in
  rl3 ← (if do_write && (0 <? bitblocks) then
           match rl_bh rl2 with
           | Some l =>
               if Z.of_nat (length l) <? bitblocks then Fault
               else Ok (rl_set_bh rl2 (Some
                 (map (fun x => Some (new_bitmap_block (sd_bsize s) (rl_start rl) rg x))
                    (seq 0 (Z.to_nat bitblocks)) ++ drop (Z.to_nat bitblocks) l)))
           | None => Fault
           end
         else Ok rl2);
  mret (rl3, sd_set_total s (u64 (sd_blks_total s + rgblocks)) (u64 (ri_data0 ri + ri_data ri)), m1).

Fixpoint build_loop (m : mem) (s : gfs2_sbd) (do_write : bool) (l : list rgrp_list)
    : res (list rgrp_list * gfs2_sbd * mem) :=
  match l with
  | [] => mret ([], s, m)
  | rl :: l' =>
      '(rl1, s1, m1) ← build_rgrp m s do_write rl;
      '(l2, s2, m2) ← build_loop m1 s1 do_write l';
      mret (rl1 :: l2, s2, m2)
  end.

Definition build_rgrps (m : mem) (s : gfs2_sbd) (do_write : bool) : res (gfs2_sbd * mem) :=
  '(l, s1, m1) ← build_loop m s do_write (sd_rglist s);
  mret (sd_set_rglist s1 l, m1).

(** ** Allocating and freeing blocks *)

Inductive blk_type := DATA | META | DINODE.

(** The first free block of a byte. *)
Definition free_in_byte (byte : Z) : option Z :=
  List.find (fun y => Z.land (Z.shiftr byte (GFS2_BIT_SIZE * y)) 3 =? GFS2_BLKST_FREE) [0; 1; 2; 3].

(** The first byte of a list with a free block: its position, the block in it, and
    the number of blocks passed. *)
Fixpoint scan_bytes (l : list Z) (bn : Z) : option (nat * Z) * Z :=
  match l with
  | [] => (None, bn)
  | byte :: l' =>
      match free_in_byte byte with
      | Some y => (Some (O, y), u32 (bn + y))
      | None =>
          let '(r, bn') := scan_bytes l' (u32 (bn + 4)) in
          (match r with Some (x, y) => Some (S x, y) | None => None end, bn')
      end
  end.

(** The blocks of the bitmap: the buffer, the byte and the block in it, and the
    number of the block. *)
Fixpoint scan_blocks (bsize : Z) (rgd : rgrp_list) (n : nat) (block : nat) (bn : Z)
    : res (nat * nat * Z * Z) :=
  match n with
  | O => Die
  | S n' =>
      bh ← of_option (get_bh rgd block);
      let head := Z.to_nat (if (block =? 0)%nat then sz_rgrp sz else sz_meta_header sz) in
      if Z.of_nat (length (b_data bh)) <? bsize then Fault
      else match scan_bytes (drop head (take (Z.to_nat bsize) (b_data bh))) bn with
      | (Some (x, y), bn') => mret (block, (head + x)%nat, y, bn')
      | (None, bn') => scan_blocks bsize rgd n' (S block) bn'
      end
  end.

(** The byte with the state of block [y] replaced. *)
Definition put_state (byte y state : Z) : Z :=
  u8 (Z.lor (Z.land byte (u8 (Z.lnot (Z.shiftl 3 (GFS2_BIT_SIZE * y)))))
        (Z.shiftl state (GFS2_BIT_SIZE * y))).

(** [blk_alloc_i] on the group that was chosen: the block and the group. *)
Definition alloc_in (bsize : Z) (type : blk_type) (rl : rgrp_list) : res (Z * rgrp_list) :=
  let ri := rl_ri rl in
  '(block, x, y, bn) ← scan_blocks bsize rl (Z.to_nat (ri_length ri)) 0 0;
  if bn >=? u32 (ri_bitbytes ri * GFS2_NBBY) then Die
  else
    let '(state, dinodes) := match type with
                             | DATA | META => (GFS2_BLKST_USED, rg_dinodes (rl_rg rl))
                             | DINODE => (GFS2_BLKST_DINODE, u32 (rg_dinodes (rl_rg rl) + 1))
                             end in
    bh ← of_option (get_bh rl block);
    byte ← of_option (b_data bh !! x);
    let rl1 := set_bh rl block (bmodified (bh_set_data bh (<[x := put_state byte y state]> (b_data bh)))) in
    let rl2 := rl_set_rg rl1 (mkRg (rg_flags (rl_rg rl)) (u32 (rg_free (rl_rg rl) - 1)) dinodes) in
    rl3 ← write_rg rl2;
    mret (u64 (ri_data0 ri + bn), rl3).

(** The first group with free blocks. *)
Fixpoint free_rgrp (l : list rgrp_list) (i : nat) : option (nat * rgrp_list) :=
  match l with
  | [] => None
  | rl :: l' => if c_true (rg_free (rl_rg rl)) then Some (i, rl) else free_rgrp l' (S i)
  end.

Definition blk_alloc_i (s : gfs2_sbd) (type : blk_type) : res (Z * gfs2_sbd) :=
  match free_rgrp (sd_rglist s) 0 with
  | None => Die
  | Some (p, rl) =>
      '(blk, rl') ← alloc_in (sd_bsize s) type rl;
      mret (blk, sd_set_alloced (set_rgd s p rl') (u64 (sd_blks_alloced s + 1)) (sd_dinodes_alloced s))
  end.

Definition dinode_alloc (s : gfs2_sbd) : res (Z * gfs2_sbd) :=
  blk_alloc_i (sd_set_alloced s (sd_blks_alloced s) (u64 (sd_dinodes_alloced s + 1))) DINODE.

Definition gfs2_free_block (s : gfs2_sbd) (block : Z) : res gfs2_sbd :=
  let '(r, s1) := gfs2_blk2rgrpd s block in
  match r with
  | None => mret s1
  | Some p =>
      '(_, s2) ← gfs2_set_bitmap s1 block GFS2_BLKST_FREE;
      rgd ← of_option (sd_rglist s2 !! p);
      let rg := rl_rg rgd in
      rgd' ← write_rg (rl_set_rg rgd (mkRg (rg_flags rg) (u32 (rg_free rg + 1)) (rg_dinodes rg)));
      let s3 := set_rgd s2 p rgd' in
      mret (sd_set_alloced s3 (u64 (sd_blks_alloced s3 - 1)) (sd_dinodes_alloced s3))
  end.

(** ** Stepping through the dinodes of a group *)

(** The first loop of [gfs2_next_rg_meta]: the part of the bitmap and the block in
    it where the search starts. *)
Fixpoint skip_bits (l : list gfs2_bitmap) (i : nat) (blk : Z) : nat * Z :=
  match l with
  | [] => (i, blk)
  | b :: l' => if blk <? u32 (bi_len b * GFS2_NBBY) then (i, blk)
               else skip_bits l' (S i) (u32 (blk - u32 (bi_len b * GFS2_NBBY)))
  end.

(** The second loop, on the parts from [i] on; [None] when no dinode is left. *)
Fixpoint meta_loop (rgd : rgrp_list) (l : list gfs2_bitmap) (i : nat) (blk : Z) : res (option Z) :=
  match l with
  | [] => mret None
  | b :: l' =>
      bh ← of_option (get_bh rgd i);
      r ← of_option (gfs2_bitfit (drop (Z.to_nat (bi_offset b)) (b_data bh)) (bi_len b) blk
                       GFS2_BLKST_DINODE);
      let blk := u32 r in
      if negb (blk =? BFITNOENT)
      then mret (Some (u64 (u32 (blk + u32 (bi_start b * GFS2_NBBY)) + ri_data0 (rl_ri rgd))))
      else meta_loop rgd l' (S i) 0
  end.

(** The next dinode after [block], or the first one of the group. *)
Definition gfs2_next_rg_meta (rgd : rgrp_list) (block : Z) (first : bool) : res (option Z) :=
  let ri := rl_ri rgd in
  let blk := if first then 0 else u32 (block + 1 - ri_data0 ri) in
  if negb first && (block <? ri_data0 ri) then Die
  else
    bits ← of_option (rl_bits rgd);
    let l := take (Z.to_nat (ri_length ri)) bits in
    let '(i, blk) := skip_bits l 0 blk in
    meta_loop rgd (drop i l) i blk.

(** ** The last pass of fsck

    [answers] are those to the questions, one after the other; when they are used
    up the answer is yes, as with the option [-y].  The run is not interrupted. *)

Definition query (answers : list bool) : bool * list bool :=
  match answers with
  | [] => (true, [])
  | a :: l => (a, l)
  end.

(** The state of the bitmap for a mark, 255 for none, and the counts. *)
Definition convert_mark (q : gfs2_mark_block) (count : Z * Z * Z) : Z * (Z * Z * Z) :=
  let '(c0, c1, c2) := count in
  match q with
  | gfs2_meta_inval | gfs2_inode_invalid | gfs2_block_free =>
      (GFS2_BLKST_FREE, (u32 (c0 + 1), c1, c2))
  | gfs2_block_used => (GFS2_BLKST_USED, (c0, c1, u32 (c2 + 1)))
  | gfs2_inode_dir | gfs2_inode_file | gfs2_inode_lnk | gfs2_inode_blk | gfs2_inode_chr
  | gfs2_inode_fifo | gfs2_inode_sock => (GFS2_BLKST_DINODE, (c0, u32 (c1 + 1), c2))
  | gfs2_indir_blk | gfs2_leaf_blk | gfs2_meta_rgrp | gfs2_meta_eattr =>
      (GFS2_BLKST_USED, (c0, c1, u32 (c2 + 1)))
  | gfs2_bad_block => (255, (c0, c1, c2))
  end.

(** The state of pass 5: the file system, the block of the group, the counts and
    the answers left. *)
Record pass5_state := mkP5 {
  p5_sbd : gfs2_sbd;
  p5_block : Z;
  p5_count : Z * Z * Z;
  p5_answers : list bool
}.

(** The question whether to fix the bitmap, and the repair. *)
Definition fix_bitmap (s : gfs2_sbd) (block block_status : Z) (answers : list bool) : res (gfs2_sbd * list bool) :=
  let '(yes, answers) := query answers in
  if yes : bool then
    '(_, s1) ← gfs2_set_bitmap s block block_status;
    mret (s1, answers)
  else mret (s, answers).

(** One block: [k] is its number in part [i] of the bitmap of group [p].  The message
    about a difference takes the name of the state from an array of four. *)
Definition check_block (bl : gfs2_bmap) (p i : nat) (b : gfs2_bitmap) (data0 k : Z)
    (st : pass5_state) : res pass5_state :=
  let s := p5_sbd st in
  rgd ← of_option (sd_rglist s !! p);
  bh ← of_option (get_bh rgd i);
  byte ← of_option (b_data bh !! Z.to_nat (bi_offset b + k / 4));
  let rg_status := Z.land (Z.shiftr byte (2 * (k mod 4))) GFS2_BIT_MASK in
  let block := u64 (data0 + p5_block st) in
  q ← of_option (block_type bl block);
  let '(block_status, count) := convert_mark (mark_of q) (p5_count st) in
  '(s1, answers) ←
    (if (rg_status =? GFS2_BLKST_UNLINKED) && (block_status =? GFS2_BLKST_FREE) then
       fix_bitmap s block block_status (p5_answers st)
     else if negb (rg_status =? block_status) then
       if block_status >=? 4 then Fault else fix_bitmap s block block_status (p5_answers st)
     else mret (s, p5_answers st));
  mret (mkP5 s1 (p5_block st + 1) count answers).

(** [n] blocks of a part, from number [k] on. *)
Fixpoint check_block_status (bl : gfs2_bmap) (p i : nat) (b : gfs2_bitmap) (data0 : Z)
    (n : nat) (k : Z) (st : pass5_state) : res pass5_state :=
  match n with
  | O => mret st
  | S n' =>
      st1 ← check_block bl p i b data0 k st;
      check_block_status bl p i b data0 n' (k + 1) st1
  end.

Fixpoint check_parts (bl : gfs2_bmap) (p : nat) (data0 : Z) (l : list gfs2_bitmap) (i : nat)
    (st : pass5_state) : res pass5_state :=
  match l with
  | [] => mret st
  | b :: l' =>
      st1 ← check_block_status bl p i b data0 (Z.to_nat (bi_len b * 4)) 0 st;
      check_parts bl p data0 l' (S i) st1
  end.

Definition update_rgrp (bl : gfs2_bmap) (p : nat) (s : gfs2_sbd) (answers : list bool)
    : res (gfs2_sbd * list bool) :=
  rgd ← of_option (sd_rglist s !! p);
  bits ← of_option (rl_bits rgd);
  let ri := rl_ri rgd in
  st ← check_parts bl p (ri_data0 ri) (take (Z.to_nat (ri_length ri)) bits) 0
         (mkP5 s 0 (0, 0, 0) answers);
  let s1 := p5_sbd st in
  let '(c0, c1, c2) := p5_count st in
  rgd1 ← of_option (sd_rglist s1 !! p);
  let rg := rl_rg rgd1 in
  let update := negb (rg_free rg =? c0) || negb (rg_dinodes rg =? c1) in
  let rgd2 := rl_set_rg rgd1 (mkRg (rg_flags rg) c0 c1) in
  if negb (u32 (ri_data ri - c0 - c1) =? c2) then Die
  else if update then
    let '(yes, answers1) := query (p5_answers st) in
    rgd3 ← (if yes : bool then write_rg rgd2 else mret rgd2);
    mret (set_rgd s1 p rgd3, answers1)
  else mret (set_rgd s1 p rgd2, p5_answers st).

Fixpoint pass5_loop (bl : gfs2_bmap) (n p : nat) (s : gfs2_sbd) (answers : list bool)
    : res (gfs2_sbd * list bool) :=
  match n with
  | O => mret (s, answers)
  | S n' =>
      '(s1, a1) ← update_rgrp bl p s answers;
      pass5_loop bl n' (S p) s1 a1
  end.

Definition pass5 (bl : gfs2_bmap) (s : gfs2_sbd) (answers : list bool) : res (gfs2_sbd * list bool) :=
  pass5_loop bl (length (sd_rglist s)) 0 s answers.

End Rgrp.
