(* ===== verification/Gfs2RgrpThm.v ===== *)
(** * Resource groups of GFS2: theorems

    The bitmap of a group is spread over its blocks; [bitmap_of] is the bitmap as
    one sequence of bytes, and the operations are specified by what they do to it.
    On this rest the invariant of a file system, [fs_ok], that mkfs establishes and
    that allocating and freeing blocks preserve, and the repair by fsck. *)

From S2P Require Import Prelude Gfs2Bits Gfs2BitsThm Gfs2Rgrp.
Open Scope Z_scope.

(** ** The pairs of bits of a byte

    There are 256 bytes, four places and four states: the facts on a byte are
    checked on all of them. *)

Definition bytes : list Z := seqZ 0 256.

Lemma in_bytes byte : in_u 8 byte -> In byte bytes.
Proof. intros H. apply list_elem_of_In, elem_of_seqZ. unfold in_u in H. lia. Qed.

Lemma set_pair_spec byte y y' state :
  in_u 8 byte -> 0 <= y < 4 -> 0 <= y' < 4 -> 0 <= state <= 3 ->
  in_u 8 (set_pair byte (2 * y) state) /\
  Z.land (Z.shiftr (set_pair byte (2 * y) state) (2 * y')) 3 =
    (if y' =? y then state else Z.land (Z.shiftr byte (2 * y')) 3) /\
  put_state byte y state = set_pair byte (2 * y) state.
Proof.
  intros Hb Hy Hy' Hs.
  assert (T : forallb (fun byte => forallb (fun y => forallb (fun y' => forallb (fun state =>
      (0 <=? set_pair byte (2 * y) state) && (set_pair byte (2 * y) state <? 2 ^ 8) &&
      (Z.land (Z.shiftr (set_pair byte (2 * y) state) (2 * y')) 3 =?
        (if y' =? y then state else Z.land (Z.shiftr byte (2 * y')) 3)) &&
      (put_state byte y state =? set_pair byte (2 * y) state))
      [0; 1; 2; 3]) [0; 1; 2; 3]) [0; 1; 2; 3]) bytes = true) by (vm_compute; reflexivity).
  rewrite forallb_forall in T. specialize (T byte (in_bytes byte Hb)).
  rewrite forallb_forall in T. specialize (T y ltac:(simpl; lia)).
  rewrite forallb_forall in T. specialize (T y' ltac:(simpl; lia)).
  rewrite forallb_forall in T. specialize (T state ltac:(simpl; lia)).
  zbool. by unfold in_u.
Qed.

(** Setting the state of block [k] changes the state of that block only. *)
Lemma block_state_set buf k j state byte :
  Forall (in_u 8) buf -> 0 <= k -> 0 <= j -> 0 <= state <= 3 -> buf !! Z.to_nat (k / 4) = Some byte ->
  block_state (<[Z.to_nat (k / 4) := set_pair byte (2 * (k mod 4)) state]> buf) j =
  if j =? k then state else block_state buf j.
Proof.
  intros Hb Hk Hj Hs Hl. assert (Hby : in_u 8 byte) by (by eapply Forall_lookup_1).
  unfold block_state. rewrite !nth_lookup. destruct (decide (j / 4 = k / 4)) as [E|E].
  - rewrite E, list_lookup_insert_eq, Hl by (by eapply lookup_lt_Some). cbn [from_option id].
    destruct (set_pair_spec byte (k mod 4) (j mod 4) state) as (_ & -> & _); [done|dm|dm|done|].
    destruct (Z.eqb_spec (j mod 4) (k mod 4)), (Z.eqb_spec j k); try done; dm.
  - rewrite list_lookup_insert_ne by dm. destruct (Z.eqb_spec j k); [|done]. congruence.
Qed.

Lemma Forall_set_pair buf k state byte :
  Forall (in_u 8) buf -> 0 <= k -> 0 <= state <= 3 -> buf !! Z.to_nat (k / 4) = Some byte ->
  in_u 8 (set_pair byte (2 * (k mod 4)) state).
Proof.
  intros Hb Hk Hs Hl. apply (set_pair_spec byte (k mod 4) 0); [by eapply Forall_lookup_1|dm|lia|done].
Qed.

(** What the encoding of a group header promises: it stays within the bytes of the
    structure at the start of the block. *)
Class RgrpEncoding (sz : sizes) (rgrp_out : gfs2_rgrp -> list Z -> list Z) : Prop := {
  out_length rg d : length (rgrp_out rg d) = length d;
  out_tail rg d : drop (Z.to_nat (sz_rgrp sz)) (rgrp_out rg d) = drop (Z.to_nat (sz_rgrp sz)) d;
  out_bytes rg d : Forall (in_u 8) d -> Forall (in_u 8) (rgrp_out rg d)
}.

Section Groups.
Context (sz : sizes) (bsize : Z).

(** ** The bitmap of a group *)

Definition head_size (first : bool) : Z := if first then sz_rgrp sz else sz_meta_header sz.

(** The parts fill their blocks one after the other; only the last may end before
    the end of its block. *)
Fixpoint bits_ok (first : bool) (start : Z) (l : list gfs2_bitmap) : Prop :=
  match l with
  | [] => False
  | b :: l' =>
      bi_offset b = head_size first /\ bi_start b = start /\ 0 < bi_len b /\
      match l' with
      | [] => bi_offset b + bi_len b <= bsize
      | _ :: _ => bi_offset b + bi_len b = bsize /\ bits_ok false (start + bi_len b) l'
      end
  end.

Definition total_len (l : list gfs2_bitmap) : Z := foldr (fun b t => bi_len b + t) 0 l.

Definition part (b : gfs2_bitmap) (h : gfs2_buffer_head) : list Z :=
  take (Z.to_nat (bi_len b)) (drop (Z.to_nat (bi_offset b)) (b_data h)).

Fixpoint bitmap_of (bits : list gfs2_bitmap) (bhs : list gfs2_buffer_head) : list Z :=
  match bits, bhs with
  | b :: bits', h :: bhs' => part b h ++ bitmap_of bits' bhs'
  | _, _ => []
  end.

Definition buf_ok (h : gfs2_buffer_head) : Prop :=
  Z.of_nat (length (b_data h)) = bsize /\ Forall (in_u 8) (b_data h).

Record group (rgd : rgrp_list) (bits : list gfs2_bitmap) (bhs : list gfs2_buffer_head) : Prop := {
  g_bits : rl_bits rgd = Some bits;
  g_bh : rl_bh rgd = Some (map Some bhs);
  g_length : ri_length (rl_ri rgd) = Z.of_nat (length bits);
  g_count : length bhs = length bits;
  g_ok : bits_ok true 0 bits;
  g_total : total_len bits = ri_bitbytes (rl_ri rgd);
  g_data : ri_data (rl_ri rgd) = 4 * ri_bitbytes (rl_ri rgd);
  g_bufs : Forall buf_ok bhs;
  g_small : ri_data (rl_ri rgd) + 4 * bsize < 2 ^ 32;
  g_data0 : 0 <= ri_data0 (rl_ri rgd);
  g_end : ri_data0 (rl_ri rgd) + ri_data (rl_ri rgd) < 2 ^ 64
}.

Hypothesis Hsz : 0 <= sz_meta_header sz /\ 0 <= sz_rgrp sz.

Lemma head_size_nonneg first : 0 <= head_size first.
Proof. destruct first; apply Hsz. Qed.

(** Part by part: the length of the part that a buffer holds. *)
Lemma bits_ok_cons first start b l :
  bits_ok first start (b :: l) ->
  bi_offset b = head_size first /\ bi_start b = start /\ 0 < bi_len b /\
  0 <= bi_offset b /\ bi_offset b + bi_len b <= bsize /\ (l <> [] -> bits_ok false (start + bi_len b) l).
Proof.
  cbn [bits_ok]. intros (Ho & Hs & Hl & H). pose proof (head_size_nonneg first).
  destruct l as [|c l]; [|destruct H as [He Hk]]; split_and!; try done; lia.
Qed.

Lemma group_bsize rgd bits bhs : group rgd bits bhs -> 0 < bsize.
Proof.
  intros G. pose proof (g_ok _ _ _ G) as H. destruct bits as [|b l]; [done|].
  apply bits_ok_cons in H. lia.
Qed.

Lemma length_part b h :
  buf_ok h -> 0 <= bi_offset b -> 0 < bi_len b -> bi_offset b + bi_len b <= bsize ->
  Z.of_nat (length (part b h)) = bi_len b.
Proof.
  intros [Hb _] Ho Hl He. unfold part. rewrite length_take, length_drop. lia.
Qed.

Lemma part_lookup b h j :
  0 <= bi_offset b -> 0 <= j < bi_len b ->
  part b h !! Z.to_nat j = b_data h !! Z.to_nat (bi_offset b + j).
Proof.
  intros Ho Hj. unfold part. rewrite lookup_take_lt, lookup_drop by lia. f_equal. lia.
Qed.

Lemma part_insert b h j v :
  0 <= bi_offset b -> 0 <= j < bi_len b ->
  part b (bmodified (bh_set_data h (<[Z.to_nat (bi_offset b + j) := v]> (b_data h)))) =
  <[Z.to_nat j := v]> (part b h).
Proof.
  intros Ho Hj. unfold part. cbn [bmodified bh_set_data b_data].
  replace (Z.to_nat (bi_offset b + j)) with (Z.to_nat (bi_offset b) + Z.to_nat j)%nat by lia.
  rewrite drop_insert_ge by lia.
  replace (Z.to_nat (bi_offset b) + Z.to_nat j - Z.to_nat (bi_offset b))%nat with (Z.to_nat j) by lia.
  by rewrite take_insert_lt by lia.
Qed.

Lemma total_len_nonneg first start l : bits_ok first start l -> 0 <= total_len l.
Proof.
  revert first start. induction l as [|b l IH]; intros first start H; [done|].
  apply bits_ok_cons in H as (_ & _ & Hl & _ & _ & Hk). cbn [total_len foldr].
  destruct l as [|c l]; [cbn; lia|]. specialize (IH _ _ (Hk ltac:(done))).
  unfold total_len in *. lia.
Qed.

(** The part that holds byte [j] of the bitmap. *)
Lemma locate first start bits bhs j :
  bits_ok first start bits -> length bhs = length bits -> Forall buf_ok bhs ->
  start <= j < start + total_len bits -> 0 <= start -> 4 * (start + total_len bits) < 2 ^ 32 ->
  exists i b h, bits !! i = Some b /\ bhs !! i = Some h /\
    0 <= bi_offset b /\ 0 <= j - bi_start b < bi_len b /\ bi_offset b + bi_len b <= bsize /\
    bitmap_of bits bhs !! Z.to_nat (j - start) = b_data h !! Z.to_nat (bi_offset b + (j - bi_start b)) /\
    (forall v, bitmap_of bits (<[i := bmodified (bh_set_data h
         (<[Z.to_nat (bi_offset b + (j - bi_start b)) := v]> (b_data h)))]> bhs) =
       <[Z.to_nat (j - start) := v]> (bitmap_of bits bhs)) /\
    (forall k, 4 * j <= k < 4 * j + 4 -> find_bits k bits = i).
Proof.
  revert first start bhs. induction bits as [|b bits IH]; intros first start bhs Hok Hlen Hb Hj H0 Hs;
    [done|].
  destruct bhs as [|h bhs]; [done|]. apply Forall_cons in Hb as [Hh Hb].
  apply bits_ok_cons in Hok as (Ho & Hst & Hl & Ho0 & He & Hk).
  cbn [total_len foldr] in Hj, Hs. fold (total_len bits) in Hj, Hs.
  assert (Hlp : Z.of_nat (length (part b h)) = bi_len b) by (by apply length_part).
  assert (Htn : 0 <= total_len bits).
  { destruct bits; [by cbn|]. by apply (total_len_nonneg false (start + bi_len b)), Hk. }
  assert (Hw : u32 (u32 (bi_start b + bi_len b) * GFS2_NBBY) = 4 * (start + bi_len b)).
  { unfold GFS2_NBBY. rewrite !(wrap_small 32); unfold in_u; rewrite ?(wrap_small 32);
      unfold in_u; lia. }
  destruct (decide (j < start + bi_len b)) as [Hlt|Hge].
  - exists O, b, h. split; [done|]. split; [done|]. split; [done|]. split; [lia|]. split; [done|].
    rewrite Hst. cbn [bitmap_of]. split; [|split].
    + rewrite lookup_app_l by lia. apply part_lookup; lia.
    + intros v. cbn [insert list_insert]. rewrite part_insert by lia.
      by rewrite insert_app_l by lia.
    + intros k Hkk. cbn [find_bits]. rewrite Hw. destruct (Z.ltb_spec k (4 * (start + bi_len b))); lia.
  - assert (Hne : bits <> []) by (intros ->; cbn in Hj; lia).
    destruct (IH false (start + bi_len b) bhs) as (i & c & g & H1 & H2 & H3 & H4 & H5 & H6 & H7 & H8);
      [by apply Hk|by injection Hlen|done|lia|lia|lia|].
    exists (S i), c, g. split; [done|]. split; [done|]. split; [done|]. split; [done|]. split; [done|].
    assert (E : Z.to_nat (j - start) = (length (part b h) + Z.to_nat (j - (start + bi_len b)))%nat) by lia.
    rewrite E. cbn [bitmap_of]. split; [|split].
    + by rewrite lookup_app_r, Nat.add_sub', H6 by lia.
    + intros v. match goal with |- context [<[S i := ?x]> (h :: bhs)] =>
        change (<[S i := x]> (h :: bhs)) with (h :: <[i := x]> bhs) end.
      rewrite insert_app_r_alt by lia. rewrite Nat.add_sub', <- H7. reflexivity.
    + intros k Hkk. cbn [find_bits]. rewrite Hw.
      destruct (Z.ltb_spec k (4 * (start + bi_len b))); [lia|]. f_equal. by apply H8.
Qed.

(** A byte of the bitmap is in one part only. *)
Lemma parts_start first start bits i b :
  bits_ok first start bits -> bits !! i = Some b -> start <= bi_start b.
Proof.
  revert first start i. induction bits as [|c bits IH]; intros first start i Hok Hi; [done|].
  apply bits_ok_cons in Hok as (_ & Hs & Hl & _ & _ & Hk). destruct i as [|i].
  - injection Hi as ->. lia.
  - cbn in Hi. assert (Hne : bits <> []) by (by intros ->).
    specialize (IH false (start + bi_len c) i (Hk Hne) Hi). lia.
Qed.

Lemma parts_end first start bits i b :
  bits_ok first start bits -> bits !! i = Some b -> bi_start b + bi_len b <= start + total_len bits.
Proof.
  revert first start i. induction bits as [|c bits IH]; intros first start i Hok Hi; [done|].
  apply bits_ok_cons in Hok as (_ & Hs & Hl & _ & _ & Hk).
  change (total_len (c :: bits)) with (bi_len c + total_len bits). destruct i as [|i].
  - injection Hi as ->. destruct bits as [|d bits]; [cbn; lia|].
    pose proof (total_len_nonneg _ _ _ (Hk ltac:(done))). lia.
  - cbn in Hi. assert (Hne : bits <> []) by (by intros ->).
    specialize (IH false (start + bi_len c) i (Hk Hne) Hi). lia.
Qed.

Lemma parts_unique first start bits i i' b b' j :
  bits_ok first start bits -> bits !! i = Some b -> bits !! i' = Some b' ->
  0 <= j - bi_start b < bi_len b -> 0 <= j - bi_start b' < bi_len b' -> i = i'.
Proof.
  revert first start i i'. induction bits as [|c bits IH]; intros first start i i' Hok Hi Hi' Hj Hj'; [done|].
  apply bits_ok_cons in Hok as (_ & Hs & Hl & _ & _ & Hk).
  assert (T : forall n x, bits !! n = Some x -> start + bi_len c <= bi_start x).
  { intros n x Hn. assert (Hne : bits <> []) by (by intros ->). by eapply parts_start; [apply Hk|]. }
  destruct i as [|i], i' as [|i']; cbn in Hi, Hi'.
  - done.
  - injection Hi as ->. apply T in Hi'. lia.
  - injection Hi' as ->. apply T in Hi. lia.
  - f_equal. assert (Hne : bits <> []) by (by intros ->). by eapply IH; [apply Hk|..].
Qed.

Lemma length_bitmap_of first start bits bhs :
  bits_ok first start bits -> length bhs = length bits -> Forall buf_ok bhs ->
  Z.of_nat (length (bitmap_of bits bhs)) = total_len bits.
Proof.
  revert first start bhs. induction bits as [|b bits IH]; intros first start bhs Hok Hlen Hb; [done|].
  destruct bhs as [|h bhs]; [done|]. apply Forall_cons in Hb as [Hh Hb].
  apply bits_ok_cons in Hok as (Ho & Hst & Hl & Ho0 & He & Hk).
  cbn [bitmap_of total_len foldr]. rewrite length_app, Nat2Z.inj_add, length_part by done.
  f_equal. destruct bits as [|c bits]; [by destruct bhs|].
  eapply IH; [by apply Hk|by injection Hlen|done].
Qed.

Lemma bitmap_of_bytes bits bhs : Forall buf_ok bhs -> Forall (in_u 8) (bitmap_of bits bhs).
Proof.
  revert bhs. induction bits as [|b bits IH]; intros bhs H; [constructor|].
  destruct H as [|h bhs [_ Hh] Hb]; [constructor|]. cbn [bitmap_of]. apply Forall_app. split.
  - by apply Forall_take, Forall_drop.
  - by apply IH.
Qed.

(** ** Reading and setting a state *)

Definition state_in (bits : list gfs2_bitmap) (bhs : list gfs2_buffer_head) (k : Z) : Z :=
  block_state (bitmap_of bits bhs) k.

Lemma group_locate rgd bits bhs k :
  group rgd bits bhs -> 0 <= k < ri_data (rl_ri rgd) ->
  exists i b h byte, bits !! i = Some b /\ bhs !! i = Some h /\
    find_bits k (take (Z.to_nat (ri_length (rl_ri rgd))) bits) = i /\
    Z.to_nat (ri_length (rl_ri rgd)) <> i /\ get_bh rgd i = Some h /\
    b_data h !! Z.to_nat (byte_of b k) = Some byte /\
    bitmap_of bits bhs !! Z.to_nat (k / 4) = Some byte /\
    (forall v, bitmap_of bits (<[i := bmodified (bh_set_data h
         (<[Z.to_nat (byte_of b k) := v]> (b_data h)))]> bhs) =
       <[Z.to_nat (k / 4) := v]> (bitmap_of bits bhs)).
Proof.
  intros G Hk. destruct G as [Gb Gh Gl Gc Go Gt Gd Gf Gs G0 Ge].
  destruct (locate true 0 bits bhs (k / 4)) as (i & b & h & H1 & H2 & H3 & H4 & H5 & H6 & H7 & H8);
    [done|done|done|dm|lia|pose proof (group_bsize rgd bits bhs ltac:(by split)); lia|].
  rewrite Z.sub_0_r in *. unfold byte_of, GFS2_NBBY.
  assert (Hi : (i < length bits)%nat) by (by eapply lookup_lt_Some).
  destruct (lookup_lt_is_Some_2 (b_data h) (Z.to_nat (bi_offset b + (k / 4 - bi_start b)))) as [byte Hby].
  { assert (Hh : buf_ok h) by (by eapply Forall_lookup_1). destruct Hh as [Hh _]. lia. }
  exists i, b, h, byte. split; [done|]. split; [done|]. rewrite Gl, Nat2Z.id, take_ge by done.
  split; [apply H8; dm|]. split; [lia|]. split.
  { unfold get_bh. rewrite Gh. cbn [mbind option_bind]. by rewrite list_lookup_fmap, H2. }
  split; [done|]. split; [by rewrite H6|]. done.
Qed.

Lemma u32_block rgd bits bhs blk :
  group rgd bits bhs ->
  ri_data0 (rl_ri rgd) <= blk < ri_data0 (rl_ri rgd) + ri_data (rl_ri rgd) ->
  u32 (blk - ri_data0 (rl_ri rgd)) = blk - ri_data0 (rl_ri rgd).
Proof.
  intros G H1. pose proof (group_bsize _ _ _ G). pose proof (g_small _ _ _ G).
  apply wrap_small. unfold in_u. lia.
Qed.

Lemma get_bitmap_group rgd bits bhs blk :
  group rgd bits bhs ->
  ri_data0 (rl_ri rgd) <= blk < ri_data0 (rl_ri rgd) + ri_data (rl_ri rgd) ->
  get_bitmap_in rgd blk = Ok (state_in bits bhs (blk - ri_data0 (rl_ri rgd))).
Proof.
  intros G Hblk. set (k := blk - ri_data0 (rl_ri rgd)).
  destruct (group_locate rgd bits bhs k G) as (i & b & h & byte & H1 & H2 & H3 & H4 & H5 & H6 & H7 & _);
    [subst k; lia|].
  unfold get_bitmap_in. rewrite (u32_block _ _ _ _ G) by done. fold k.
  rewrite (g_bits _ _ _ G). cbn [of_option mbind res_bind]. rewrite H3.
  assert (Hi : (i < length bits)%nat) by (by eapply lookup_lt_Some).
  destruct (Z.geb_spec (Z.of_nat i) (ri_length (rl_ri rgd))); [rewrite (g_length _ _ _ G) in *; lia|].
  rewrite H1. cbn [of_option mbind res_bind]. rewrite H5. cbn [of_option mbind res_bind].
  rewrite H6. cbn [of_option mbind res_bind mret res_ret]. f_equal.
  unfold state_in, block_state, bit_of, GFS2_BIT_SIZE, GFS2_NBBY. rewrite nth_lookup, H7. cbn [from_option id].
  by rewrite (Z.mul_comm (k mod 4)).
Qed.

Lemma set_bh_group rgd bits bhs i h h' :
  group rgd bits bhs -> bhs !! i = Some h -> buf_ok h' ->
  group (set_bh rgd i h') bits (<[i := h']> bhs).
Proof.
  intros G Hi Hh'. destruct G as [Gb Gh Gl Gc Go Gt Gd Gf Gs G0 Ge].
  unfold set_bh. rewrite Gh. split; try done; cbn [rl_set_bh rl_bh].
  - by rewrite list_fmap_insert.
  - by rewrite length_insert.
  - by apply Forall_insert.
Qed.

Lemma set_bitmap_group rgd bits bhs blk state :
  group rgd bits bhs -> 0 <= state <= 3 ->
  ri_data0 (rl_ri rgd) <= blk < ri_data0 (rl_ri rgd) + ri_data (rl_ri rgd) ->
  exists rgd' bhs', set_bitmap_in rgd blk state = Ok rgd' /\ group rgd' bits bhs' /\
    rl_ri rgd' = rl_ri rgd /\ rl_rg rgd' = rl_rg rgd /\
    forall j, 0 <= j -> state_in bits bhs' j =
      if j =? blk - ri_data0 (rl_ri rgd) then state else state_in bits bhs j.
Proof.
  intros G Hs Hblk. set (k := blk - ri_data0 (rl_ri rgd)).
  destruct (group_locate rgd bits bhs k G) as (i & b & h & byte & H1 & H2 & H3 & H4 & H5 & H6 & H7 & H8);
    [subst k; lia|].
  unfold set_bitmap_in. rewrite (u32_block _ _ _ _ G) by done. fold k.
  rewrite (g_bits _ _ _ G). cbn [of_option mbind res_bind]. rewrite H3, H1. cbn [of_option mbind res_bind].
  rewrite H5. cbn [of_option mbind res_bind]. rewrite H6. cbn [of_option mbind res_bind mret res_ret].
  set (h' := bmodified _).
  assert (Eb : bit_of k = 2 * (k mod 4)) by (unfold bit_of, GFS2_BIT_SIZE, GFS2_NBBY; lia).
  assert (Hby : in_u 8 (set_pair byte (bit_of k) state)).
  { rewrite Eb. apply (Forall_set_pair (bitmap_of bits bhs)); [|subst k; lia|done|done].
    apply bitmap_of_bytes, G. }
  assert (Hh : buf_ok h) by (eapply Forall_lookup_1; [apply G|done]).
  exists (set_bh rgd i h'), (<[i := h']> bhs). split; [done|]. split.
  { apply (set_bh_group _ _ _ _ h); [done|done|]. destruct Hh as [Hh1 Hh2].
    split; cbn [bmodified bh_set_data b_data h']; [by rewrite length_insert|by apply Forall_insert]. }
  split; [unfold set_bh; by destruct (rl_bh rgd)|]. split; [unfold set_bh; by destruct (rl_bh rgd)|].
  intros j Hj. unfold state_in, h'. rewrite H8, Eb.
  apply block_state_set; [apply bitmap_of_bytes, G|subst k; lia|done|done|done].
Qed.

(** The state of block [k] of part [i]. *)
Lemma read_part rgd bits bhs i b k :
  group rgd bits bhs -> bits !! i = Some b -> 0 <= k < 4 * bi_len b ->
  exists h byte, get_bh rgd i = Some h /\ b_data h !! Z.to_nat (bi_offset b + k / 4) = Some byte /\
    Z.land (Z.shiftr byte (2 * (k mod 4))) 3 = state_in bits bhs (4 * bi_start b + k) /\
    0 <= 4 * bi_start b + k < ri_data (rl_ri rgd).
Proof.
  intros G Hi Hk. pose proof (g_ok _ _ _ G) as Hok. pose proof (parts_start _ _ _ _ _ Hok Hi) as Hs.
  pose proof (parts_end _ _ _ _ _ Hok Hi) as He. pose proof (g_total _ _ _ G). pose proof (g_data _ _ _ G).
  assert (Hr : 0 <= 4 * bi_start b + k < ri_data (rl_ri rgd)) by lia.
  assert (Eq : (4 * bi_start b + k) / 4 = bi_start b + k / 4) by dm.
  destruct (group_locate rgd bits bhs _ G Hr) as (i' & b' & h & byte & L1 & L2 & L3 & _ & L5 & L6 & L7 & _).
  rewrite (g_length _ _ _ G), Nat2Z.id, take_ge in L3 by done.
  destruct (locate true 0 bits bhs ((4 * bi_start b + k) / 4)) as (i2 & b2 & h2 & M1 & M2 & M3 & M4 & M5 & _ & _ & M8);
    [apply G..|rewrite Eq; dm|lia|pose proof (g_small _ _ _ G); pose proof (group_bsize _ _ _ G); lia|].
  rewrite (M8 (4 * bi_start b + k)) in L3 by dm. rewrite <- L3 in *. rewrite L1 in M1. injection M1 as <-.
  assert (i = i2) as -> by (apply (parts_unique true 0 bits i i2 b b' (bi_start b + k / 4)); [done|done|done|dm|]; rewrite <- Eq; lia).
  rewrite Hi in L1. injection L1 as <-. exists h, byte. split; [done|].
  unfold byte_of, GFS2_NBBY in L6. rewrite Eq in L6.
  replace (bi_offset b + (bi_start b + k / 4 - bi_start b)) with (bi_offset b + k / 4) in L6 by lia.
  split; [done|]. split; [|done]. unfold state_in, block_state. rewrite nth_lookup, L7. cbn [from_option id].
  do 2 f_equal. dm.
Qed.

(** ** The first free block *)

Lemma free_in_byte_spec byte :
  in_u 8 byte ->
  match free_in_byte byte with
  | Some y => 0 <= y < 4 /\ Z.land (Z.shiftr byte (2 * y)) 3 = 0 /\
      forall z, 0 <= z < y -> Z.land (Z.shiftr byte (2 * z)) 3 <> 0
  | None => forall z, 0 <= z < 4 -> Z.land (Z.shiftr byte (2 * z)) 3 <> 0
  end.
Proof.
  intros _. unfold free_in_byte, GFS2_BIT_SIZE, GFS2_BLKST_FREE. cbn [List.find].
  repeat match goal with |- context [if ?c =? 0 then _ else _] => destruct (Z.eqb_spec c 0) end;
    repeat split; try lia; try done; intros z Hz;
    (assert (z = 0 \/ z = 1 \/ z = 2 \/ z = 3) as [->|[->|[->| ->]]] by lia); try done; lia.
Qed.

Lemma block_state_0 byte l z : 0 <= z < 4 -> block_state (byte :: l) z = Z.land (Z.shiftr byte (2 * z)) 3.
Proof. intros Hz. unfold block_state. by rewrite Z.div_small, Z.mod_small by lia. Qed.

Lemma scan_bytes_found l bn k :
  Forall (in_u 8) l -> 0 <= bn -> bn + 4 * Z.of_nat (length l) < 2 ^ 32 ->
  0 <= k < 4 * Z.of_nat (length l) -> block_state l k = 0 ->
  (forall j, 0 <= j < k -> block_state l j <> 0) ->
  scan_bytes l bn = (Some (Z.to_nat (k / 4), k mod 4), bn + k).
Proof.
  intros H. revert bn k. induction H as [|byte l Hb Hl IH]; intros bn k H0 H1 Hk Hst Hf;
    cbn [length] in *; [lia|]. cbn [scan_bytes].
  pose proof (free_in_byte_spec byte Hb) as Hfree. destruct (free_in_byte byte) as [y|].
  - destruct Hfree as (Hy & Hy0 & Hyf). rewrite <- (block_state_0 byte l) in Hy0 by done.
    assert (Hle : k <= y). { apply Z.le_ngt. intros Hlt. apply (Hf y); [lia|done]. }
    assert (Heq : k = y).
    { destruct (Z.eq_dec k y); [done|]. exfalso. apply (Hyf k); [lia|].
      by rewrite <- (block_state_0 byte l) by lia. }
    subst y. rewrite Z.div_small, Z.mod_small, (wrap_small 32) by (unfold in_u; lia). done.
  - assert (Hge : 4 <= k).
    { apply Z.le_ngt. intros Hlt. apply (Hfree k); [lia|]. by rewrite <- (block_state_0 byte l) by lia. }
    rewrite (wrap_small 32) by (unfold in_u; lia). rewrite (IH (bn + 4) (k - 4)); [|lia|lia|lia| |].
    + replace (Z.to_nat (k / 4)) with (S (Z.to_nat ((k - 4) / 4))) by dm.
      f_equal; [|lia]. do 2 f_equal. dm.
    + by rewrite <- block_state_cons with (x := byte) by lia.
    + intros j Hj. rewrite <- (Z.add_simpl_r j 4), <- block_state_cons with (x := byte) by lia.
      apply Hf. lia.
Qed.

Lemma scan_bytes_none l bn :
  Forall (in_u 8) l -> 0 <= bn -> bn + 4 * Z.of_nat (length l) < 2 ^ 32 ->
  (forall j, 0 <= j < 4 * Z.of_nat (length l) -> block_state l j <> 0) ->
  scan_bytes l bn = (None, bn + 4 * Z.of_nat (length l)).
Proof.
  intros H. revert bn. induction H as [|byte l Hb Hl IH]; intros bn H0 H1 Hf; cbn [length] in *.
  - cbn. f_equal. lia.
  - cbn [scan_bytes]. pose proof (free_in_byte_spec byte Hb) as Hfree.
    destruct (free_in_byte byte) as [y|].
    + destruct Hfree as (Hy & Hy0 & _). exfalso. apply (Hf y); [lia|]. by rewrite block_state_0.
    + rewrite (wrap_small 32) by (unfold in_u; lia). rewrite IH; [f_equal; lia|lia|lia|].
      intros j Hj. rewrite <- (Z.add_simpl_r j 4), <- block_state_cons with (x := byte) by lia.
      apply Hf. lia.
Qed.

Lemma block_state_app l1 l2 j :
  0 <= j < 4 * Z.of_nat (length l1) -> block_state (l1 ++ l2) j = block_state l1 j.
Proof. intros Hj. unfold block_state. by rewrite !nth_lookup, lookup_app_l by dm. Qed.

Lemma block_state_app_r l1 l2 j :
  4 * Z.of_nat (length l1) <= j ->
  block_state (l1 ++ l2) j = block_state l2 (j - 4 * Z.of_nat (length l1)).
Proof.
  intros Hj. unfold block_state. rewrite !nth_lookup, lookup_app_r by dm.
  replace (Z.to_nat (j / 4) - length l1)%nat
    with (Z.to_nat ((j - 4 * Z.of_nat (length l1)) / 4)) by dm.
  f_equal. f_equal. dm.
Qed.

(** The bytes from the start of a part to the end of its block. *)
Lemma block_tail b h :
  buf_ok h -> 0 <= bi_offset b -> 0 < bi_len b -> bi_offset b + bi_len b <= bsize ->
  drop (Z.to_nat (bi_offset b)) (take (Z.to_nat bsize) (b_data h)) =
  part b h ++ drop (Z.to_nat (bi_offset b + bi_len b)) (b_data h).
Proof.
  intros [Hh _] Ho Hl He. rewrite take_ge by lia. unfold part.
  replace (Z.to_nat (bi_offset b + bi_len b)) with (Z.to_nat (bi_offset b) + Z.to_nat (bi_len b))%nat by lia.
  by rewrite <- drop_drop, take_drop.
Qed.

Lemma scan_blocks_first rgd n i0 start bits bhs k :
  bits_ok (i0 =? 0)%nat start bits -> length bhs = length bits -> Forall buf_ok bhs ->
  (forall j, (j < length bhs)%nat -> get_bh rgd (i0 + j) = bhs !! j) -> (length bits <= n)%nat ->
  0 <= start -> 4 * (start + total_len bits + bsize) < 2 ^ 32 ->
  4 * start <= k < 4 * (start + total_len bits) ->
  block_state (bitmap_of bits bhs) (k - 4 * start) = 0 ->
  (forall j, 0 <= j < k - 4 * start -> block_state (bitmap_of bits bhs) j <> 0) ->
  exists i b h, bits !! i = Some b /\ bhs !! i = Some h /\
    0 <= k / 4 - bi_start b < bi_len b /\
    scan_blocks sz bsize rgd n i0 (4 * start) = Ok ((i0 + i)%nat, Z.to_nat (byte_of b k), k mod 4, k).
Proof.
  revert n i0 start bhs. induction bits as [|b bits IH];
    intros n i0 start bhs Hok Hlen Hb Hg Hn H0 Hs Hk Hst Hf; [done|].
  destruct bhs as [|h bhs]; [done|]. destruct n as [|n]; [cbn in Hn; lia|].
  apply Forall_cons in Hb as [Hh Hb]. pose proof Hok as Hok'.
  apply bits_ok_cons in Hok as (Ho & Hbs & Hl & Ho0 & He & Hk').
  assert (Hlp : Z.of_nat (length (part b h)) = bi_len b) by (by apply length_part).
  assert (Htn : 0 <= total_len bits).
  { destruct bits; [by cbn|]. by apply (total_len_nonneg false (start + bi_len b)), Hk'. }
  change (total_len (b :: bits)) with (bi_len b + total_len bits) in *.
  cbn [scan_blocks]. pose proof (Hg O ltac:(cbn; lia)) as Hg0. rewrite Nat.add_0_r in Hg0. rewrite Hg0.
  cbn [of_option mbind res_bind lookup list_lookup]. destruct (Z.ltb_spec (Z.of_nat (length (b_data h))) bsize);
    [destruct Hh as [Hh _]; lia|].
  change (Z.to_nat (if (i0 =? 0)%nat then sz_rgrp sz else sz_meta_header sz))
    with (Z.to_nat (head_size (i0 =? 0)%nat)). rewrite <- Ho, block_tail by done.
  set (rest := drop (Z.to_nat (bi_offset b + bi_len b)) (b_data h)).
  assert (Hrest : Z.of_nat (length rest) = bsize - (bi_offset b + bi_len b)).
  { subst rest. rewrite length_drop. destruct Hh as [Hh _]. lia. }
  assert (Hbytes : Forall (in_u 8) (part b h ++ rest)).
  { apply Forall_app. split; [apply Forall_take|]; apply Forall_drop, Hh. }
  cbn [bitmap_of] in Hst, Hf. destruct (decide (k < 4 * (start + bi_len b))) as [Hlt|Hge].
  - exists O, b, h. split; [done|]. split; [done|]. split; [rewrite Hbs; dm|].
    rewrite block_state_app in Hst by lia. rewrite (scan_bytes_found _ _ (k - 4 * start)).
    + cbn [mret res_ret]. rewrite Nat.add_0_r. unfold byte_of, GFS2_NBBY. rewrite Hbs. f_equal.
      f_equal; [|lia]. f_equal; [|dm]. f_equal. rewrite <- Z2Nat.inj_add by dm. f_equal. dm.
    + done.
    + lia.
    + rewrite length_app, Nat2Z.inj_add, Hrest, Hlp. lia.
    + rewrite length_app, Nat2Z.inj_add, Hrest, Hlp. lia.
    + by rewrite block_state_app by lia.
    + intros j Hj. rewrite block_state_app by lia. rewrite <- (block_state_app _ (bitmap_of bits bhs)) by lia.
      apply Hf. lia.
  - assert (Hne : bits <> []) by (intros ->; cbn in Hk; lia).
    assert (Hrest0 : rest = []).
    { apply length_zero_iff_nil. cbn [bits_ok] in Hok'. destruct bits; [done|]. lia. }
    rewrite Hrest0, app_nil_r in Hbytes |- *.
    rewrite scan_bytes_none; [|done|lia|lia|].
    + destruct (IH n (S i0) (start + bi_len b) bhs) as (i & c & g & H1 & H2 & H3 & H4).
      * by apply Hk'.
      * by injection Hlen.
      * done.
      * intros j Hj. rewrite Nat.add_succ_comm. apply (Hg (S j)). cbn. lia.
      * cbn in Hn. lia.
      * lia.
      * lia.
      * lia.
      * rewrite <- Hst. rewrite block_state_app_r by lia. f_equal. lia.
      * intros j Hj. specialize (Hf (4 * bi_len b + j)). rewrite block_state_app_r in Hf by lia.
        replace (4 * bi_len b + j - 4 * Z.of_nat (length (part b h))) with j in Hf by lia. apply Hf. lia.
      * exists (S i), c, g. split; [done|]. split; [done|]. split; [done|].
        replace (4 * start + 4 * Z.of_nat (length (part b h))) with (4 * (start + bi_len b)) by lia.
        by rewrite H4, Nat.add_succ_comm.
    + intros j Hj. rewrite <- (block_state_app _ (bitmap_of bits bhs)) by lia. apply Hf. lia.
Qed.

(** ** The file system *)

Definition rgd_bitmap (rgd : rgrp_list) : list Z :=
  match rl_bits rgd, rl_bh rgd with
  | Some bits, Some l => bitmap_of bits (omap id l)
  | _, _ => []
  end.

(** The state of block [k] of a group. *)
Definition rgd_state (rgd : rgrp_list) (k : Z) : Z := block_state (rgd_bitmap rgd) k.

(** The state of a block of the file system; [None] for a block that no bitmap
    describes. *)
Definition fs_state (s : gfs2_sbd) (blk : Z) : option Z :=
  rgd ← List.find (fun rgd => in_data (rl_ri rgd) blk) (sd_rglist s);
  Some (rgd_state rgd (blk - ri_data0 (rl_ri rgd))).

Definition group_ok (rgd : rgrp_list) : Prop :=
  (exists bits bhs, group rgd bits bhs) /\
  0 <= ri_addr (rl_ri rgd) /\ ri_addr (rl_ri rgd) + ri_length (rl_ri rgd) <= ri_data0 (rl_ri rgd).

(** The groups do not overlap. *)
Definition apart (r r' : rgrp_list) : Prop :=
  ri_data0 (rl_ri r) + ri_data (rl_ri r) <= ri_addr (rl_ri r') \/
  ri_data0 (rl_ri r') + ri_data (rl_ri r') <= ri_addr (rl_ri r).

Record fs_wf (s : gfs2_sbd) : Prop := {
  w_bsize : sd_bsize s = bsize;
  w_groups : Forall group_ok (sd_rglist s);
  w_apart : forall i j r r', sd_rglist s !! i = Some r -> sd_rglist s !! j = Some r' -> i <> j -> apart r r'
}.

Lemma omap_id_map_Some {A} (l : list A) : omap id (map Some l) = l.
Proof. induction l as [|x l IH]; [done|]. cbn. by f_equal. Qed.

Lemma group_bitmap rgd bits bhs : group rgd bits bhs -> rgd_bitmap rgd = bitmap_of bits bhs.
Proof. intros G. unfold rgd_bitmap. by rewrite (g_bits _ _ _ G), (g_bh _ _ _ G), omap_id_map_Some. Qed.

Lemma group_state rgd bits bhs k : group rgd bits bhs -> rgd_state rgd k = state_in bits bhs k.
Proof. intros G. unfold rgd_state. by rewrite (group_bitmap _ _ _ G). Qed.

Lemma group_range rgd : group_ok rgd ->
  0 <= ri_addr (rl_ri rgd) /\ 0 < ri_length (rl_ri rgd) /\
  ri_addr (rl_ri rgd) + ri_length (rl_ri rgd) <= ri_data0 (rl_ri rgd) /\
  0 < ri_data (rl_ri rgd) /\ ri_data0 (rl_ri rgd) + ri_data (rl_ri rgd) < 2 ^ 64.
Proof.
  intros ((bits & bhs & G) & Ha & Hl). pose proof (g_ok _ _ _ G) as Hok.
  destruct bits as [|b l]; [done|]. pose proof (g_length _ _ _ G) as GL. cbn [length] in GL.
  pose proof (g_total _ _ _ G) as GT. change (total_len (b :: l)) with (bi_len b + total_len l) in GT.
  assert (Htn : 0 <= total_len l).
  { destruct l; [by cbn|]. apply bits_ok_cons in Hok as (_ & _ & _ & _ & _ & Hk).
    by apply (total_len_nonneg false (0 + bi_len b)), Hk. }
  apply bits_ok_cons in Hok. pose proof (g_data _ _ _ G). pose proof (g_end _ _ _ G). lia.
Qed.

Lemma in_data_spec rgd blk : group_ok rgd ->
  in_data (rl_ri rgd) blk = true <->
  ri_data0 (rl_ri rgd) <= blk < ri_data0 (rl_ri rgd) + ri_data (rl_ri rgd).
Proof.
  intros H. apply group_range in H. unfold in_data.
  rewrite (wrap_small 64) by (unfold in_u; lia). rewrite andb_true_iff, Z.leb_le, Z.ltb_lt. done.
Qed.

Lemma in_header_spec rgd blk : group_ok rgd ->
  in_header (rl_ri rgd) blk = true <->
  ri_addr (rl_ri rgd) <= blk < ri_addr (rl_ri rgd) + ri_length (rl_ri rgd).
Proof.
  intros H. apply group_range in H. unfold in_header.
  rewrite (wrap_small 64) by (unfold in_u; lia). rewrite andb_true_iff, Z.geb_le, Z.ltb_lt. done.
Qed.

(** The blocks of a group: those of its bitmap and those it describes. *)
Definition covers (rgd : rgrp_list) (blk : Z) : bool :=
  in_header (rl_ri rgd) blk || in_data (rl_ri rgd) blk.

Lemma covers_unique s i j r r' blk :
  fs_wf s -> sd_rglist s !! i = Some r -> sd_rglist s !! j = Some r' ->
  covers r blk = true -> covers r' blk = true -> i = j.
Proof.
  intros W Hi Hj Hc Hc'. destruct (decide (i = j)) as [|Hne]; [done|]. exfalso.
  pose proof (w_apart _ W i j r r' Hi Hj Hne) as Ha. unfold apart in Ha.
  pose proof (Forall_lookup_1 _ _ _ _ (w_groups _ W) Hi) as G.
  pose proof (Forall_lookup_1 _ _ _ _ (w_groups _ W) Hj) as G'.
  pose proof (group_range _ G). pose proof (group_range _ G').
  unfold covers in *. rewrite orb_true_iff, in_header_spec, in_data_spec in Hc, Hc' by done. lia.
Qed.

Lemma rgrpd_search_spec l i0 blk :
  match rgrpd_search l i0 blk with
  | Some p => exists j r, p = (i0 + j)%nat /\ l !! j = Some r /\ covers r blk = true
  | None => forall j r, l !! j = Some r -> covers r blk = false
  end.
Proof.
  revert i0. induction l as [|r l IH]; intros i0; cbn [rgrpd_search]; [done|].
  fold (covers r blk). destruct (covers r blk) eqn:E.
  - exists O, r. by rewrite Nat.add_0_r.
  - specialize (IH (S i0)). destruct (rgrpd_search l (S i0) blk) as [p|].
    + destruct IH as (j & r' & -> & H1 & H2). exists (S j), r'. split; [lia|done].
    + intros [|j] r' Hj; [by injection Hj as <-|by apply (IH j)].
Qed.

Lemma blk2rgrpd_found s p r blk :
  fs_wf s -> sd_rglist s !! p = Some r -> covers r blk = true ->
  gfs2_blk2rgrpd s blk = (Some p, sd_set_prev s (Some p)).
Proof.
  intros W Hp Hc. unfold gfs2_blk2rgrpd.
  assert (Hsearch : rgrpd_search (sd_rglist s) 0 blk = Some p).
  { pose proof (rgrpd_search_spec (sd_rglist s) 0 blk) as S.
    destruct (rgrpd_search (sd_rglist s) 0 blk) as [q|]; [|by rewrite (S p r Hp) in Hc].
    destruct S as (j & r' & -> & Hj & Hc'). f_equal. by eapply covers_unique. }
  rewrite Hsearch. destruct s as [? ? ? ? ? ? ? ? ? ? ? l [q|]]; cbn [sd_prev_rgd sd_rglist] in *; [|done].
  destruct (l !! q) as [r'|] eqn:Hq; [|done]. rewrite orb_comm. fold (covers r' blk).
  destruct (covers r' blk) eqn:E; [|done].
  replace q with p; [done|]. by eapply (covers_unique (mkSbd _ _ _ _ _ _ _ _ _ _ _ l (Some q))).
Qed.

Lemma blk2rgrpd_none s blk :
  (forall j r, sd_rglist s !! j = Some r -> covers r blk = false) -> gfs2_blk2rgrpd s blk = (None, s).
Proof.
  intros H. unfold gfs2_blk2rgrpd.
  assert (Hsearch : rgrpd_search (sd_rglist s) 0 blk = None).
  { pose proof (rgrpd_search_spec (sd_rglist s) 0 blk) as S.
    destruct (rgrpd_search (sd_rglist s) 0 blk) as [q|]; [|done].
    destruct S as (j & r' & -> & Hj & Hc'). by rewrite (H j r') in Hc'. }
  rewrite Hsearch. destruct (sd_prev_rgd s) as [q|]; [|done].
  destruct (sd_rglist s !! q) as [r'|] eqn:Hq; [|done]. rewrite orb_comm. fold (covers r' blk).
  by rewrite (H q r').
Qed.

Lemma fs_state_owner s p r blk :
  fs_wf s -> sd_rglist s !! p = Some r -> in_data (rl_ri r) blk = true ->
  fs_state s blk = Some (rgd_state r (blk - ri_data0 (rl_ri r))).
Proof.
  intros W Hp Hd. unfold fs_state.
  destruct (List.find _ _) as [r'|] eqn:E.
  - apply List.find_some in E as [Hin Hd']. apply list_elem_of_In, list_elem_of_lookup in Hin as [q Hq].
    assert (q = p) as ->.
    { eapply (covers_unique s); [done|exact Hq|exact Hp| |]; unfold covers; rewrite ?Hd, ?Hd'; apply orb_true_r. }
    rewrite Hp in Hq. injection Hq as ->. done.
  - rewrite (List.find_none _ _ E r) in Hd; [done|].
    apply list_elem_of_In, list_elem_of_lookup. by exists p.
Qed.

Lemma fs_state_Some s blk v :
  fs_state s blk = Some v -> exists p r, sd_rglist s !! p = Some r /\ in_data (rl_ri r) blk = true /\
    v = rgd_state r (blk - ri_data0 (rl_ri r)).
Proof.
  unfold fs_state. destruct (List.find _ _) as [r|] eqn:E; [|done]. intros Hv. injection Hv as <-.
  apply List.find_some in E as [Hin Hd]. apply list_elem_of_In, list_elem_of_lookup in Hin as [q Hq]. eauto.
Qed.

Lemma set_rgd_wf s p r r' :
  fs_wf s -> sd_rglist s !! p = Some r -> group_ok r' -> rl_ri r' = rl_ri r -> fs_wf (set_rgd s p r').
Proof.
  intros W Hp G E. split; cbn [set_rgd sd_set_rglist sd_bsize sd_rglist].
  - apply W.
  - apply Forall_insert; [apply W|done].
  - assert (L : forall i x, <[p := r']> (sd_rglist s) !! i = Some x ->
      exists y, sd_rglist s !! i = Some y /\ rl_ri x = rl_ri y).
    { intros i x. destruct (decide (i = p)) as [->|Hne].
      - rewrite list_lookup_insert_eq by (by eapply lookup_lt_Some). intros Hx. injection Hx as <-. eauto.
      - rewrite list_lookup_insert_ne by done. eauto. }
    intros i j x y Hx Hy Hne. apply L in Hx as (x' & Hx & Ex), Hy as (y' & Hy & Ey).
    pose proof (w_apart _ W i j x' y' Hx Hy Hne) as A. unfold apart in *. by rewrite Ex, Ey.
Qed.

(** The states after a change of one group. *)
Lemma set_rgd_state s p r r' blk :
  fs_wf s -> sd_rglist s !! p = Some r -> group_ok r' -> rl_ri r' = rl_ri r ->
  fs_state (set_rgd s p r') blk =
  if in_data (rl_ri r) blk then Some (rgd_state r' (blk - ri_data0 (rl_ri r))) else fs_state s blk.
Proof.
  intros W Hp G E. pose proof (set_rgd_wf s p r r' W Hp G E) as W'.
  assert (Hp' : sd_rglist (set_rgd s p r') !! p = Some r').
  { cbn. apply list_lookup_insert_eq. by eapply lookup_lt_Some. }
  destruct (in_data (rl_ri r) blk) eqn:Hd.
  - rewrite (fs_state_owner _ p r' blk W' Hp') by (by rewrite E). by rewrite E.
  - destruct (fs_state s blk) as [v|] eqn:Hv.
    + apply fs_state_Some in Hv as (q & x & Hq & Hdx & ->). apply (fs_state_owner _ q); [done| |done].
      cbn. rewrite list_lookup_insert_ne; [done|]. intros ->. congruence.
    + destruct (fs_state (set_rgd s p r') blk) as [v'|] eqn:Hv'; [|done].
      apply fs_state_Some in Hv' as (q & x & Hq & Hdx & ->). exfalso. cbn in Hq.
      destruct (decide (q = p)) as [->|Hne].
      * rewrite list_lookup_insert_eq in Hq by (by eapply lookup_lt_Some). injection Hq as <-.
        rewrite E in Hdx. congruence.
      * rewrite list_lookup_insert_ne in Hq by done. by rewrite (fs_state_owner _ q x) in Hv.
Qed.

Lemma sd_set_prev_wf s p : fs_wf s -> fs_wf (sd_set_prev s p).
Proof. intros W. by split; apply W. Qed.

Lemma sd_set_alloced_wf s a d : fs_wf s -> fs_wf (sd_set_alloced s a d).
Proof. intros W. by split; apply W. Qed.

Lemma set_bitmap_owned s p r blk state :
  fs_wf s -> sd_rglist s !! p = Some r -> in_data (rl_ri r) blk = true -> 0 <= state <= 3 ->
  exists r' s', gfs2_set_bitmap s blk state = Ok (0, s') /\
    s' = set_rgd (sd_set_prev s (Some p)) p r' /\ group_ok r' /\ rl_ri r' = rl_ri r /\ rl_rg r' = rl_rg r /\
    rl_bits r' = rl_bits r /\
    forall j, 0 <= j -> rgd_state r' j = if j =? blk - ri_data0 (rl_ri r) then state else rgd_state r j.
Proof.
  intros W Hp Hd Hs. pose proof (Forall_lookup_1 _ _ _ _ (w_groups _ W) Hp) as G.
  pose proof G as ((bits & bhs & Gr) & Ha & Hl). unfold gfs2_set_bitmap.
  destruct (Z.ltb_spec state GFS2_BLKST_FREE); [unfold GFS2_BLKST_FREE in *; lia|].
  destruct (Z.gtb_spec state GFS2_BLKST_DINODE); [unfold GFS2_BLKST_DINODE in *; lia|]. cbn [orb].
  rewrite (blk2rgrpd_found s p r blk W Hp) by (unfold covers; rewrite Hd; apply orb_true_r).
  cbn [sd_set_prev sd_rglist]. rewrite Hp. cbn [of_option mbind res_bind].
  destruct (set_bitmap_group r bits bhs blk state Gr Hs) as (r' & bhs' & -> & Gr' & E1 & E2 & Hst).
  { by apply in_data_spec. }
  cbn [mbind res_bind mret res_ret]. exists r'. eexists. split; [done|]. split; [done|].
  split. { rewrite <- E1 in Ha, Hl. split; [by exists bits, bhs'|]. by rewrite E1 in *. }
  split; [done|]. split; [done|].
  split; [by rewrite (g_bits _ _ _ Gr), (g_bits _ _ _ Gr')|]. intros j Hj.
  by rewrite (group_state _ _ _ j Gr'), (group_state _ _ _ j Gr), Hst.
Qed.

Lemma fs_state_prev s p blk : fs_state (sd_set_prev s p) blk = fs_state s blk.
Proof. done. Qed.

Lemma get_bitmap_owned s p r blk :
  fs_wf s -> sd_rglist s !! p = Some r -> in_data (rl_ri r) blk = true ->
  gfs2_get_bitmap s blk None =
    Ok (rgd_state r (blk - ri_data0 (rl_ri r)), sd_set_prev s (Some p)).
Proof.
  intros W Hp Hd. pose proof (Forall_lookup_1 _ _ _ _ (w_groups _ W) Hp) as G.
  pose proof G as ((bits & bhs & Gr) & Ha & Hl). unfold gfs2_get_bitmap.
  rewrite (blk2rgrpd_found s p r blk W Hp) by (unfold covers; rewrite Hd; apply orb_true_r).
  cbn [sd_set_prev sd_rglist]. rewrite Hp. cbn [of_option mbind res_bind].
  rewrite (get_bitmap_group r bits bhs) by (done || by apply in_data_spec).
  cbn [mbind res_bind mret res_ret]. by rewrite (group_state _ _ _ _ Gr).
Qed.

(** Setting the state of a block in the bitmaps succeeds on every block that a
    group describes, wherever the block lies in the bitmap blocks and whichever group
    was used last; [gfs2_get_bitmap] then returns the state for that block and the
    states of all other blocks are unchanged. *)
Theorem set_get_bitmap s blk old state :
  fs_wf s -> fs_state s blk = Some old -> 0 <= state <= 3 ->
  exists s', gfs2_set_bitmap s blk state = Ok (0, s') /\ fs_wf s' /\
    fs_state s' blk = Some state /\ (forall b, b <> blk -> fs_state s' b = fs_state s b) /\
    forall b v, fs_state s' b = Some v -> exists s'', gfs2_get_bitmap s' b None = Ok (v, s'').
Proof.
  intros W Hold Hs. apply fs_state_Some in Hold as (p & r & Hp & Hd & _).
  pose proof (Forall_lookup_1 _ _ _ _ (w_groups _ W) Hp) as G.
  destruct (set_bitmap_owned s p r blk state W Hp Hd Hs) as (r' & s' & E & Es & G' & Er & _ & _ & Hst).
  pose proof (sd_set_prev_wf s (Some p) W) as W1.
  assert (W' : fs_wf s') by (rewrite Es; by apply (set_rgd_wf _ p r)).
  assert (St : forall b, fs_state s' b =
    if in_data (rl_ri r) b then Some (rgd_state r' (b - ri_data0 (rl_ri r))) else fs_state s b).
  { intros b. rewrite Es, (set_rgd_state _ p r) by done. done. }
  exists s'. split; [done|]. split; [done|]. split; [|split].
  - rewrite St, Hd, Hst by (apply in_data_spec in Hd; [lia|done]). by rewrite Z.eqb_refl.
  - intros b Hb. rewrite St. destruct (in_data (rl_ri r) b) eqn:Hdb; [|done].
    rewrite (fs_state_owner s p r b W Hp Hdb). apply in_data_spec in Hdb; [|done].
    rewrite Hst by lia. destruct (Z.eqb_spec (b - ri_data0 (rl_ri r)) (blk - ri_data0 (rl_ri r))); [lia|done].
  - intros b v Hv. apply fs_state_Some in Hv as (q & x & Hq & Hdx & ->).
    eexists. by apply (get_bitmap_owned s' q x).
Qed.

(** [gfs2_blk2rgrpd] finds the group that a block belongs to, whatever group the
    previous call has left in its static variable, and returns nothing for a block of
    no group. *)
Theorem blk2rgrpd_correct s blk p :
  fs_wf s ->
  fst (gfs2_blk2rgrpd s blk) = Some p <-> exists r, sd_rglist s !! p = Some r /\ covers r blk = true.
Proof.
  intros W. split.
  - destruct (List.find (fun r => covers r blk) (sd_rglist s)) as [r|] eqn:E.
    + apply List.find_some in E as [Hin Hc]. apply list_elem_of_In, list_elem_of_lookup in Hin as [q Hq].
      rewrite (blk2rgrpd_found s q r blk W Hq Hc). cbn [fst]. intros H. injection H as <-. eauto.
    + rewrite blk2rgrpd_none; [done|]. intros j r Hj.
      apply (List.find_none _ _ E r). apply list_elem_of_In, list_elem_of_lookup. eauto.
  - intros (r & Hp & Hc). by rewrite (blk2rgrpd_found s p r blk W Hp Hc).
Qed.

(** ** Allocation *)

Context (rgrp_out : gfs2_rgrp -> list Z -> list Z) {Enc : RgrpEncoding sz rgrp_out}.

(** The counts of the header are those of the bitmap. *)
Definition counts_ok (rgd : rgrp_list) : Prop :=
  rg_free (rl_rg rgd) = countZ (fun k => rgd_state rgd k =? GFS2_BLKST_FREE) 0 (ri_data (rl_ri rgd)) /\
  rg_dinodes (rl_rg rgd) = countZ (fun k => rgd_state rgd k =? GFS2_BLKST_DINODE) 0 (ri_data (rl_ri rgd)).

Definition fs_ok (s : gfs2_sbd) : Prop := fs_wf s /\ Forall counts_ok (sd_rglist s).

Lemma rl_set_rg_group rgd bits bhs rg : group rgd bits bhs -> group (rl_set_rg rgd rg) bits bhs.
Proof. intros G. by split; apply G. Qed.

Lemma write_rg_group rgd bits bhs :
  group rgd bits bhs ->
  exists rgd' bhs', write_rg rgrp_out rgd = Ok rgd' /\ group rgd' bits bhs' /\
    rl_ri rgd' = rl_ri rgd /\ rl_rg rgd' = rl_rg rgd /\ bitmap_of bits bhs' = bitmap_of bits bhs.
Proof.
  intros G. pose proof (g_ok _ _ _ G) as Hok. pose proof (g_count _ _ _ G) as Hc.
  destruct bits as [|b bits]; [done|]. destruct bhs as [|h bhs]; [done|].
  apply bits_ok_cons in Hok as (Ho & _).
  assert (Hg : get_bh rgd 0 = Some h) by (unfold get_bh; by rewrite (g_bh _ _ _ G)).
  assert (Hh : buf_ok h) by (pose proof (g_bufs _ _ _ G) as F; by apply Forall_cons in F as [? _]).
  unfold write_rg. rewrite Hg. cbn [of_option mbind res_bind mret res_ret]. set (h' := bmodified _).
  exists (set_bh rgd 0 h'), (h' :: bhs). split; [done|]. split.
  { apply (set_bh_group rgd (b :: bits) (h :: bhs) 0 h); [done|done|]. destruct Hh as [H1 H2].
    split; cbn [h' bmodified bh_set_data b_data]; [by rewrite out_length|by apply out_bytes]. }
  split; [unfold set_bh; by destruct (rl_bh rgd)|]. split; [unfold set_bh; by destruct (rl_bh rgd)|].
  cbn [bitmap_of]. f_equal. unfold part. cbn [h' bmodified bh_set_data b_data].
  rewrite Ho. cbn [head_size]. by rewrite out_tail.
Qed.

Lemma write_rg_ok rgd : group_ok rgd ->
  exists rgd', write_rg rgrp_out rgd = Ok rgd' /\ group_ok rgd' /\ rl_ri rgd' = rl_ri rgd /\
    rl_rg rgd' = rl_rg rgd /\ forall k, rgd_state rgd' k = rgd_state rgd k.
Proof.
  intros ((bits & bhs & G) & Ha & Hl). destruct (write_rg_group _ _ _ G) as (r' & bhs' & E & G' & E1 & E2 & Eb).
  exists r'. split; [done|]. split; [rewrite <- E1 in Ha, Hl; split; [by exists bits, bhs'|]; by rewrite E1 in *|].
  split; [done|]. split; [done|]. intros k. unfold rgd_state.
  by rewrite (group_bitmap _ _ _ G'), (group_bitmap _ _ _ G), Eb.
Qed.

Lemma rl_set_rg_ok rgd rg : group_ok rgd -> group_ok (rl_set_rg rgd rg).
Proof. intros ((bits & bhs & G) & H). split; [|done]. exists bits, bhs. by apply rl_set_rg_group. Qed.

(** The state that an allocation of a type gives to the block. *)
Definition new_state (type : blk_type) : Z :=
  match type with
  | DATA | META => GFS2_BLKST_USED
  | DINODE => GFS2_BLKST_DINODE
  end.

Lemma scan_group rgd bits bhs k :
  group rgd bits bhs -> 0 <= k < ri_data (rl_ri rgd) -> state_in bits bhs k = 0 ->
  (forall j, 0 <= j < k -> state_in bits bhs j <> 0) ->
  exists i b h byte, bhs !! i = Some h /\ get_bh rgd i = Some h /\
    b_data h !! Z.to_nat (byte_of b k) = Some byte /\
    bitmap_of bits bhs !! Z.to_nat (k / 4) = Some byte /\
    (forall v, bitmap_of bits (<[i := bmodified (bh_set_data h
         (<[Z.to_nat (byte_of b k) := v]> (b_data h)))]> bhs) =
       <[Z.to_nat (k / 4) := v]> (bitmap_of bits bhs)) /\
    scan_blocks sz bsize rgd (Z.to_nat (ri_length (rl_ri rgd))) 0 0 =
      Ok (i, Z.to_nat (byte_of b k), k mod 4, k).
Proof.
  intros G Hk Hst Hf.
  destruct (scan_blocks_first rgd (Z.to_nat (ri_length (rl_ri rgd))) 0 0 bits bhs k)
    as (i & b & h & H1 & H2 & H3 & H4).
  - apply G.
  - apply G.
  - apply G.
  - intros j Hj. unfold get_bh. rewrite (g_bh _ _ _ G). cbn [mbind option_bind].
    rewrite list_lookup_fmap. cbn [Nat.add]. by destruct (bhs !! j).
  - rewrite (g_length _ _ _ G). lia.
  - lia.
  - pose proof (g_small _ _ _ G). pose proof (g_total _ _ _ G). pose proof (g_data _ _ _ G). lia.
  - pose proof (g_total _ _ _ G). pose proof (g_data _ _ _ G). lia.
  - by rewrite Z.mul_0_r, Z.sub_0_r.
  - intros j Hj. apply Hf. lia.
  - destruct (group_locate rgd bits bhs k G Hk) as (i' & b' & h' & byte & L1 & L2 & L3 & L4 & L5 & L6 & L7 & L8).
    rewrite Z.mul_0_r in H4.
    assert (Ei : i = i').
    { destruct (locate true 0 bits bhs (k / 4)) as (i2 & b2 & h2 & M1 & M2 & M3 & M4 & M5 & _ & _ & M8);
        [apply G..|pose proof (g_total _ _ _ G); pose proof (g_data _ _ _ G); dm|lia| |].
      { pose proof (g_small _ _ _ G). pose proof (group_bsize _ _ _ G). pose proof (g_total _ _ _ G).
        pose proof (g_data _ _ _ G). lia. }
      rewrite <- L3, (g_length _ _ _ G), Nat2Z.id, take_ge by done.
      rewrite (M8 k) by dm. by apply (parts_unique true 0 bits i i2 b b2 (k / 4)); [apply G|..]. }
    clear L3. subst i'. rewrite H1 in L1. injection L1 as <-. rewrite H2 in L2. injection L2 as <-.
    exists i, b, h, byte. done.
Qed.

(** Counting after the state of one block has changed. *)
Lemma count_states (f g : Z -> Z) n k v st :
  0 <= k < n -> (forall j, 0 <= j -> g j = if j =? k then v else f j) ->
  countZ (fun j => g j =? st) 0 n =
  countZ (fun j => f j =? st) 0 n - Z.b2z (f k =? st) + Z.b2z (v =? st).
Proof.
  intros Hk Hg. rewrite (countZ_update (fun j => f j =? st) _ 0 n k); [|lia|].
  - rewrite Hg, Z.eqb_refl by lia. by destruct (f k =? st), (v =? st).
  - intros j Hj Hne. rewrite Hg by lia. by rewrite (proj2 (Z.eqb_neq j k) Hne).
Qed.

(** The first block in a state. *)
Lemma count_least (f : Z -> Z) st n :
  0 <= n -> countZ (fun j => f j =? st) 0 n <> 0 ->
  exists k, 0 <= k < n /\ f k = st /\ forall j, 0 <= j < k -> f j <> st.
Proof.
  intros Hn Hc. pose proof (countZ_range (fun j => f j =? st) 0 n Hn).
  destruct (countZ_pos (fun j => f j =? st) 0 n) as (x & Hx & Ex); [lia|].
  destruct (least_in (fun j => f j =? st) 0 x ltac:(lia) Ex) as (k & Hk & Hst & Hmin).
  exists k. split; [lia|]. split; [by apply Z.eqb_eq|]. intros j Hj. by apply Z.eqb_neq, Hmin.
Qed.

(** Changing the byte of block [k] of a group. *)
Lemma poke_group rgd bits bhs i b h byte k state :
  group rgd bits bhs -> 0 <= k -> 0 <= state <= 3 -> bhs !! i = Some h ->
  bitmap_of bits bhs !! Z.to_nat (k / 4) = Some byte ->
  (forall v, bitmap_of bits (<[i := bmodified (bh_set_data h
       (<[Z.to_nat (byte_of b k) := v]> (b_data h)))]> bhs) =
     <[Z.to_nat (k / 4) := v]> (bitmap_of bits bhs)) ->
  let h' := bmodified (bh_set_data h
    (<[Z.to_nat (byte_of b k) := set_pair byte (2 * (k mod 4)) state]> (b_data h))) in
  group (set_bh rgd i h') bits (<[i := h']> bhs) /\
  forall j, 0 <= j -> state_in bits (<[i := h']> bhs) j = if j =? k then state else state_in bits bhs j.
Proof.
  intros G Hk Hs H2 H7 H8 h'.
  assert (Hby : in_u 8 (set_pair byte (2 * (k mod 4)) state)).
  { apply (Forall_set_pair (bitmap_of bits bhs)); [|done..]. apply bitmap_of_bytes, G. }
  assert (Hh : buf_ok h) by (eapply Forall_lookup_1; [apply G|done]).
  split.
  - apply (set_bh_group _ _ _ _ h); [done|done|]. destruct Hh as [Hh1 Hh2].
    split; cbn [bmodified bh_set_data b_data h']; [by rewrite length_insert|by apply Forall_insert].
  - intros j Hj. unfold state_in, h'. rewrite H8.
    apply block_state_set; [apply bitmap_of_bytes, G|done|done|done|done].
Qed.

Lemma alloc_in_ok type rgd :
  group_ok rgd -> counts_ok rgd -> rg_free (rl_rg rgd) <> 0 ->
  exists k rgd', alloc_in sz rgrp_out bsize type rgd = Ok (ri_data0 (rl_ri rgd) + k, rgd') /\
    0 <= k < ri_data (rl_ri rgd) /\ rgd_state rgd k = GFS2_BLKST_FREE /\
    (forall j, 0 <= j < k -> rgd_state rgd j <> GFS2_BLKST_FREE) /\
    group_ok rgd' /\ counts_ok rgd' /\ rl_ri rgd' = rl_ri rgd /\
    forall j, 0 <= j -> rgd_state rgd' j = if j =? k then new_state type else rgd_state rgd j.
Proof.
  intros GO [Cf Cd] Hf. pose proof GO as ((bits & bhs & G) & Ha & Hl).
  rewrite Cf in Hf. pose proof (group_range _ GO) as Hr.
  destruct (count_least (rgd_state rgd) GFS2_BLKST_FREE (ri_data (rl_ri rgd))) as (k & Hkd & Hst & Hmin');
    [lia|done|].
  destruct (scan_group rgd bits bhs k G Hkd) as (i & b & h & byte & H1 & H2 & H3 & H4 & H5 & H6);
    [by rewrite <- (group_state _ _ _ _ G)|intros; rewrite <- (group_state _ _ _ _ G); by apply Hmin'|].
  assert (Hn : 0 <= new_state type <= 3) by (by destruct type).
  destruct (poke_group rgd bits bhs i b h byte k (new_state type) G) as [G1 St1]; [lia|done..|].
  set (h' := bmodified _) in G1, St1. set (rg' := mkRg (rg_flags (rl_rg rgd)) (u32 (rg_free (rl_rg rgd) - 1))
    (match type with DINODE => u32 (rg_dinodes (rl_rg rgd) + 1) | _ => rg_dinodes (rl_rg rgd) end)).
  assert (E1 : rl_ri (set_bh rgd i h') = rl_ri rgd) by (unfold set_bh; by destruct (rl_bh rgd)).
  assert (G2 : group_ok (rl_set_rg (set_bh rgd i h') rg')).
  { apply rl_set_rg_ok. split; [by exists bits, (<[i := h']> bhs)|]. by rewrite E1. }
  destruct (write_rg_ok _ G2) as (r3 & E3 & G3 & Ri3 & Rg3 & St3).
  assert (St : forall j, 0 <= j -> rgd_state r3 j = if j =? k then new_state type else rgd_state rgd j).
  { intros j Hj. rewrite St3. change (rgd_state (rl_set_rg (set_bh rgd i h') rg') j)
      with (rgd_state (set_bh rgd i h') j). by rewrite (group_state _ _ _ j G1), (group_state _ _ _ j G), St1. }
  exists k, r3. split.
  { unfold alloc_in. rewrite H6. cbn [mbind res_bind].
    pose proof (g_small _ _ _ G). pose proof (group_bsize _ _ _ G). pose proof (g_data _ _ _ G).
    destruct (Z.geb_spec k (u32 (ri_bitbytes (rl_ri rgd) * GFS2_NBBY))) as [Hge|_].
    { rewrite (wrap_small 32) in Hge; unfold in_u, GFS2_NBBY in *; lia. }
    assert (Ep : forall state, 0 <= state <= 3 -> put_state byte (k mod 4) state =
      set_pair byte (2 * (k mod 4)) state).
    { intros state Hs. apply (set_pair_spec byte (k mod 4) 0); [|dm|lia|done].
      eapply Forall_lookup_1; [apply bitmap_of_bytes, G|done]. }
    rewrite (wrap_small 64) by (unfold in_u; lia).
    assert (Et : match type with
                 | DATA | META => (GFS2_BLKST_USED, rg_dinodes (rl_rg rgd))
                 | DINODE => (GFS2_BLKST_DINODE, u32 (rg_dinodes (rl_rg rgd) + 1))
                 end = (new_state type, rg_dinodes rg')) by (by destruct type).
    rewrite Et, H2. cbn [of_option mbind res_bind]. rewrite H3. cbn [of_option mbind res_bind].
    rewrite Ep by done. fold h'. change (mkRg _ _ _) with rg'. by rewrite E3. }
  cbn [rl_set_rg rl_ri] in Ri3. rewrite E1 in Ri3.
  split; [done|]. split; [done|]. split; [done|]. split; [done|]. split; [|done].
  unfold counts_ok. rewrite Rg3, Ri3. cbn [rl_set_rg rl_rg rg' rg_free rg_dinodes].
  rewrite !(count_states (rgd_state rgd) (rgd_state r3) _ k (new_state type)) by done.
  rewrite Cf, Cd, Hst. pose proof (g_small _ _ _ G).
  pose proof (group_bsize _ _ _ G).
  pose proof (countZ_range (fun k => rgd_state rgd k =? GFS2_BLKST_FREE) 0 (ri_data (rl_ri rgd))).
  pose proof (countZ_range (fun k => rgd_state rgd k =? GFS2_BLKST_DINODE) 0 (ri_data (rl_ri rgd))).
  rewrite (wrap_small 32) by (unfold in_u; lia). split; [by destruct type; cbn; lia|].
  destruct type; cbn; try lia. rewrite Z.sub_0_r. apply wrap_small. unfold in_u. lia.
Qed.

Lemma free_rgrp_spec l i :
  match free_rgrp l i with
  | Some (p, r) => exists j, p = (i + j)%nat /\ l !! j = Some r /\ rg_free (rl_rg r) <> 0
  | None => forall j r, l !! j = Some r -> rg_free (rl_rg r) = 0
  end.
Proof.
  revert i. induction l as [|r l IH]; intros i; cbn [free_rgrp]; [done|]. unfold c_true.
  destruct (Z.eqb_spec (rg_free (rl_rg r)) 0) as [E|E]; cbn [negb].
  - specialize (IH (S i)). destruct (free_rgrp l (S i)) as [[p r']|].
    + destruct IH as (j & -> & H1 & H2). exists (S j). split; [lia|done].
    + intros [|j] r' Hj; [by injection Hj as <-|by apply (IH j)].
  - exists O. by rewrite Nat.add_0_r.
Qed.

Lemma set_rgd_ok s p r r' :
  fs_ok s -> sd_rglist s !! p = Some r -> group_ok r' -> counts_ok r' -> rl_ri r' = rl_ri r ->
  fs_ok (set_rgd s p r').
Proof. intros [W C] Hp G H E. split; [by eapply set_rgd_wf|]. by apply Forall_insert. Qed.

(** No block of a group is free when the count is zero. *)
Lemma no_free rgd k :
  counts_ok rgd -> rg_free (rl_rg rgd) = 0 -> 0 <= k < ri_data (rl_ri rgd) -> rgd_state rgd k <> GFS2_BLKST_FREE.
Proof.
  intros [Cf _] H0 Hk E. rewrite Cf in H0. pose proof (count_states (rgd_state rgd)
    (fun j => if j =? k then 1 else rgd_state rgd j) (ri_data (rl_ri rgd)) k 1 GFS2_BLKST_FREE Hk (fun _ _ => eq_refl)) as H.
  rewrite H0, E in H.
  pose proof (countZ_range (fun j => (if j =? k then 1 else rgd_state rgd j) =? GFS2_BLKST_FREE) 0
    (ri_data (rl_ri rgd)) ltac:(lia)). change (Z.b2z (GFS2_BLKST_FREE =? GFS2_BLKST_FREE)) with 1 in H.
  change (Z.b2z (1 =? GFS2_BLKST_FREE)) with 0 in H. lia.
Qed.

Lemma blk_alloc_ok s type :
  fs_ok s ->
  match blk_alloc_i sz rgrp_out s type with
  | Ok (blk, s') => fs_state s blk = Some GFS2_BLKST_FREE /\ fs_ok s' /\
      fs_state s' blk = Some (new_state type) /\ (forall b, b <> blk -> fs_state s' b = fs_state s b) /\
      sd_blks_alloced s' = u64 (sd_blks_alloced s + 1)
  | Die => forall b, fs_state s b <> Some GFS2_BLKST_FREE
  | Fault => False
  end.
Proof.
  intros [W C]. unfold blk_alloc_i. pose proof (free_rgrp_spec (sd_rglist s) 0) as F.
  destruct (free_rgrp (sd_rglist s) 0) as [[p r]|].
  - destruct F as (j & -> & Hp & Hf). cbn [Nat.add] in *.
    pose proof (Forall_lookup_1 _ _ _ _ (w_groups _ W) Hp) as G.
    pose proof (Forall_lookup_1 _ _ _ _ C Hp) as Cr. rewrite (w_bsize _ W).
    destruct (alloc_in_ok type r G Cr Hf) as (k & r' & -> & Hk & Hfree & _ & G' & C' & E & St).
    cbn [mbind res_bind mret res_ret]. set (blk := ri_data0 (rl_ri r) + k).
    assert (Hd : in_data (rl_ri r) blk = true) by (apply in_data_spec; [done|subst blk; lia]).
    assert (Ek : blk - ri_data0 (rl_ri r) = k) by (subst blk; lia).
    assert (S' : forall b, fs_state (sd_set_alloced (set_rgd s j r') (u64 (sd_blks_alloced s + 1))
      (sd_dinodes_alloced s)) b = fs_state (set_rgd s j r') b) by done.
    split; [by rewrite (fs_state_owner s j r blk W Hp Hd), Ek, Hfree|].
    split. { destruct (set_rgd_ok s j r r' (conj W C) Hp G' C' E) as [W2 C2].
             split; [by apply sd_set_alloced_wf|done]. }
    split; [|split; [|done]].
    + rewrite S', (set_rgd_state s j r r' blk W Hp G' E), Hd, Ek, St, Z.eqb_refl by lia. done.
    + intros b Hb. rewrite S', (set_rgd_state s j r r' b W Hp G' E).
      destruct (in_data (rl_ri r) b) eqn:Hdb; [|done]. rewrite (fs_state_owner s j r b W Hp Hdb).
      apply in_data_spec in Hdb; [|done]. rewrite St by lia.
      by rewrite (proj2 (Z.eqb_neq _ _)) by (subst blk; lia).
  - intros b Hb. apply fs_state_Some in Hb as (p & r & Hp & Hd & Hv).
    pose proof (Forall_lookup_1 _ _ _ _ (w_groups _ W) Hp) as G.
    apply in_data_spec in Hd; [|done]. symmetry in Hv. revert Hv. apply no_free; [|by eapply F|lia].
    by eapply Forall_lookup_1.
Qed.

(** C24: Allocating a block on a consistent file system: when some block is free, the
    call returns a free block and gives it the state of its type; no other block
    changes, and the file system is consistent again, with the counts of the group
    adjusted.  When no block is free the call ends the program; it never writes
    outside a bitmap. *)
Theorem blk_alloc_correct s type :
  fs_ok s ->
  match blk_alloc_i sz rgrp_out s type with
  | Ok (blk, s') => fs_state s blk = Some GFS2_BLKST_FREE /\ fs_ok s' /\
      fs_state s' blk = Some (new_state type) /\ (forall b, b <> blk -> fs_state s' b = fs_state s b) /\
      sd_blks_alloced s' = u64 (sd_blks_alloced s + 1)
  | Die => forall b, fs_state s b <> Some GFS2_BLKST_FREE
  | Fault => False
  end.
Proof. apply blk_alloc_ok. Qed.

(** C35: Freeing a block of a file or a metadata block undoes its allocation: the block
    is free, nothing else changes, and the counts agree with the bitmap again. *)
Theorem free_block_correct s blk :
  fs_ok s -> fs_state s blk = Some GFS2_BLKST_USED ->
  exists s', gfs2_free_block rgrp_out s blk = Ok s' /\ fs_ok s' /\
    fs_state s' blk = Some GFS2_BLKST_FREE /\ (forall b, b <> blk -> fs_state s' b = fs_state s b) /\
    sd_blks_alloced s' = u64 (sd_blks_alloced s - 1).
Proof.
  intros [W C] Hs. apply fs_state_Some in Hs as (p & r & Hp & Hd & Hv).
  pose proof (Forall_lookup_1 _ _ _ _ (w_groups _ W) Hp) as G.
  destruct (Forall_lookup_1 _ _ _ _ C Hp) as [Cf Cd]. set (s0 := sd_set_prev s (Some p)).
  assert (W0 : fs_wf s0) by (by apply sd_set_prev_wf). unfold gfs2_free_block.
  rewrite (blk2rgrpd_found s p r blk W Hp) by (unfold covers; rewrite Hd; apply orb_true_r). fold s0.
  destruct (set_bitmap_owned s0 p r blk GFS2_BLKST_FREE W0 Hp Hd) as (r1 & s1 & -> & Es & G1 & E1 & R1 & _ & St1);
    [by unfold GFS2_BLKST_FREE|].
  cbn [mbind res_bind]. change (sd_set_prev s0 (Some p)) with s0 in Es.
  assert (Hp1 : sd_rglist s1 !! p = Some r1).
  { rewrite Es. cbn. apply list_lookup_insert_eq. by eapply lookup_lt_Some. }
  rewrite Hp1. cbn [of_option mbind res_bind].
  set (rg := mkRg _ _ _). destruct (write_rg_ok (rl_set_rg r1 rg)) as (r2 & -> & G2 & E2 & R2 & St2);
    [by apply rl_set_rg_ok|]. cbn [mbind res_bind mret res_ret]. cbn [rl_set_rg rl_ri rl_rg] in E2, R2.
  apply in_data_spec in Hd as Hb; [|done].
  assert (St : forall j, 0 <= j -> rgd_state r2 j =
    if j =? blk - ri_data0 (rl_ri r) then GFS2_BLKST_FREE else rgd_state r j).
  { intros j Hj. rewrite St2. by apply St1. }
  assert (C2 : counts_ok r2).
  { unfold counts_ok. rewrite R2, E2, E1. cbn [rg rg_free rg_dinodes]. rewrite R1.
    rewrite !(count_states (rgd_state r) (rgd_state r2) _ (blk - ri_data0 (rl_ri r)) GFS2_BLKST_FREE)
      by (done || lia). rewrite <- Hv, Cf, Cd. cbn.
    pose proof (countZ_range (fun k => rgd_state r k =? GFS2_BLKST_FREE) 0 (ri_data (rl_ri r))).
    pose proof (group_range _ G). pose proof G as ((bits & bhs & Gr) & _). pose proof (g_small _ _ _ Gr).
    pose proof (group_bsize _ _ _ Gr). rewrite Z.sub_0_r. split; [apply wrap_small; unfold in_u; lia|lia]. }
  assert (E : rl_ri r2 = rl_ri r) by congruence.
  assert (Ok1 : fs_ok (set_rgd s0 p r2)) by (by apply (set_rgd_ok s0 p r)).
  assert (Es2 : set_rgd s1 p r2 = set_rgd s0 p r2).
  { rewrite Es. unfold set_rgd, sd_set_rglist. cbn. by rewrite list_insert_insert_eq. }
  rewrite Es2. eexists. split; [done|]. split; [destruct Ok1; split; [by apply sd_set_alloced_wf|done]|].
  assert (S' : forall b, fs_state (sd_set_alloced (set_rgd s0 p r2) (u64 (sd_blks_alloced (set_rgd s0 p r2) - 1))
      (sd_dinodes_alloced (set_rgd s0 p r2))) b =
      if in_data (rl_ri r) b then Some (rgd_state r2 (b - ri_data0 (rl_ri r))) else fs_state s b).
  { intros b. exact (set_rgd_state s0 p r r2 b W0 Hp G2 E). }
  split; [rewrite S', Hd, St, Z.eqb_refl by lia; done|]. split; [|done].
  intros b Hne. rewrite S'. destruct (in_data (rl_ri r) b) eqn:Hdb; [|done].
  rewrite (fs_state_owner s p r b W Hp Hdb). apply in_data_spec in Hdb; [|done].
  rewrite St by lia. by rewrite (proj2 (Z.eqb_neq _ _)) by lia.
Qed.

End Groups.
