(* ===== verification/Gfs2LayoutThm.v ===== *)
(** * The layout of a new GFS2 file system: theorems

    How many resource groups mkfs makes and how the blocks of a group are divided
    between bitmap and data, that the bitmap parts cover the bitmap exactly, and that
    the groups which mkfs builds form a consistent file system ([fs_ok]) with all
    blocks free. *)

From S2P Require Import Prelude Gfs2Bits Gfs2BitsThm Gfs2Rgrp Gfs2RgrpThm.
Open Scope Z_scope.

(** ** The number of groups *)

Definition ceil_div (x y : Z) : Z := (x + y - 1) / y.

(** The blocks of a group of [rgsize] megabytes. *)
Definition rg_blocks (bsize rgsize : Z) : Z := rgsize * 2 ^ 20 / bsize.

Lemma rg_blocks_pos bsize rgsize : 0 < bsize <= 2 ^ 20 -> 1 <= rgsize -> 0 < rg_blocks bsize rgsize.
Proof. intros Hb Hr. apply Z.div_str_pos. lia. Qed.

Lemma rg_blocks_le bsize rgsize : 0 < bsize -> 0 <= rgsize -> rg_blocks bsize rgsize <= rgsize * 2 ^ 20.
Proof. intros Hb Hr. apply Z.div_le_upper_bound; [done|]. nia. Qed.

Lemma div_round dev bsize rgsize :
  0 <= dev < 2 ^ 63 -> 0 < bsize <= 2 ^ 20 -> 1 <= rgsize < 4096 ->
  DIV_RU dev (u32 (Z.shiftl rgsize 20) / bsize) = Ok (ceil_div dev (rg_blocks bsize rgsize)).
Proof.
  intros Hd Hb Hr. pose proof (rg_blocks_pos bsize rgsize Hb ltac:(lia)).
  pose proof (rg_blocks_le bsize rgsize ltac:(lia) ltac:(lia)).
  rewrite Z.shiftl_mul_pow2, (wrap_small 32) by (unfold in_u; lia). fold (rg_blocks bsize rgsize).
  unfold DIV_RU. destruct (Z.eqb_spec (rg_blocks bsize rgsize) 0); [lia|].
  rewrite (wrap_small 64) by (unfold in_u; lia). done.
Qed.

Lemma how_many_round fuel dev bsize spec rgsize :
  0 <= dev < 2 ^ 63 -> 0 < bsize <= 2 ^ 20 -> 1 <= rgsize < 4096 ->
  how_many_loop (S fuel) dev bsize spec rgsize =
  let nrgrp := ceil_div dev (rg_blocks bsize rgsize) in
  if spec || (nrgrp <=? GFS2_EXCESSIVE_RGS) || (rgsize >=? 2048) then Ok (nrgrp, rgsize)
  else how_many_loop fuel dev bsize spec (u32 (rgsize + GFS2_DEFAULT_RGSIZE)).
Proof. intros Hd Hb Hr. cbn [how_many_loop]. by rewrite div_round. Qed.

(** The loop ends after at most [n + 1] rounds when [n] steps reach 2048. *)
Lemma how_many_loop_spec n dev bsize spec rgsize :
  0 <= dev < 2 ^ 63 -> 0 < bsize <= 2 ^ 20 -> 1 <= rgsize < 2048 + GFS2_DEFAULT_RGSIZE ->
  2048 <= rgsize + GFS2_DEFAULT_RGSIZE * Z.of_nat n ->
  exists nrgrp rs, how_many_loop (S n) dev bsize spec rgsize = Ok (nrgrp, rs) /\
    rgsize <= rs < 2048 + GFS2_DEFAULT_RGSIZE /\ (GFS2_DEFAULT_RGSIZE | rs - rgsize) /\
    nrgrp = ceil_div dev (rg_blocks bsize rs) /\
    (spec = false -> nrgrp <= GFS2_EXCESSIVE_RGS \/ 2048 <= rs) /\ (spec = true -> rs = rgsize) /\
    (forall smaller, rgsize <= smaller < rs -> (GFS2_DEFAULT_RGSIZE | smaller - rgsize) ->
       GFS2_EXCESSIVE_RGS < ceil_div dev (rg_blocks bsize smaller)).
Proof.
  unfold GFS2_DEFAULT_RGSIZE. revert rgsize. induction n as [|n IH]; intros rgsize Hd Hb Hr Hn;
    rewrite how_many_round by lia; cbv zeta.
  - destruct (Z.geb_spec rgsize 2048); [|lia]. rewrite orb_true_r.
    eexists _, rgsize. split; [done|]. split; [lia|]. split; [rewrite Z.sub_diag; apply Z.divide_0_r|]. split; [done|]. split; [by right|]. split; [done|]. lia.
  - destruct spec; cbn [orb].
    { eexists _, rgsize. split; [done|]. split; [lia|]. split; [rewrite Z.sub_diag; apply Z.divide_0_r|]. split; [done|]. split; [done|]. split; [done|]. lia. }
    destruct (Z.leb_spec (ceil_div dev (rg_blocks bsize rgsize)) GFS2_EXCESSIVE_RGS) as [H|H]; cbn [orb].
    { eexists _, rgsize. split; [done|]. split; [lia|]. split; [rewrite Z.sub_diag; apply Z.divide_0_r|]. split; [done|]. split; [by left|]. split; [done|]. lia. }
    destruct (Z.geb_spec rgsize 2048); cbn [orb].
    { eexists _, rgsize. split; [done|]. split; [lia|]. split; [rewrite Z.sub_diag; apply Z.divide_0_r|]. split; [done|]. split; [by right|]. split; [done|]. lia. }
    unfold GFS2_DEFAULT_RGSIZE. rewrite (wrap_small 32) by (unfold in_u; lia).
    destruct (IH (rgsize + 256)) as (nrgrp & rs & E & Hrs & [q' Hq'] & Hnr & Hex & Hsp & Hmin); [done|done|lia|lia|].
    exists nrgrp, rs. split; [exact E|]. split; [lia|]. split; [exists (q' + 1); lia|]. split; [done|]. split; [done|]. split; [done|].
    intros smaller Hsm [q Hq]. destruct (decide (q = 0)) as [->|Hq0].
    + by replace smaller with rgsize by lia.
    + apply Hmin; [nia|]. exists (q - 1). lia.
Qed.

(** C37: Choosing the number of resource groups takes at most nine rounds for every
    size of a group that mkfs accepts; the result is the device length divided by the
    group size, rounded up, for the smallest size of the tried ones that does not give
    an excessive number of groups, or for one of at least 2048 MB. *)
Theorem how_many_rgrps_terminates s spec :
  0 <= sd_dev_length s < 2 ^ 63 -> 0 < sd_bsize s <= 2 ^ 20 -> 1 <= sd_rgsize s <= 2048 ->
  exists nrgrp rs, how_many_rgrps s spec = Ok (nrgrp, rs) /\
    sd_rgsize s <= rs < 2048 + GFS2_DEFAULT_RGSIZE /\ (GFS2_DEFAULT_RGSIZE | rs - sd_rgsize s) /\
    nrgrp = ceil_div (sd_dev_length s) (rg_blocks (sd_bsize s) rs) /\
    (spec = false -> nrgrp <= GFS2_EXCESSIVE_RGS \/ 2048 <= rs) /\ (spec = true -> rs = sd_rgsize s) /\
    (forall smaller, sd_rgsize s <= smaller < rs -> (GFS2_DEFAULT_RGSIZE | smaller - sd_rgsize s) ->
       GFS2_EXCESSIVE_RGS < ceil_div (sd_dev_length s) (rg_blocks (sd_bsize s) smaller)).
Proof.
  intros Hd Hb Hr. apply (how_many_loop_spec 8); [done|done| |]; unfold GFS2_DEFAULT_RGSIZE; lia.
Qed.

(** What the encoding of the header of a further bitmap block promises. *)
Class RbEncoding (sz : sizes) (rb_out : list Z -> list Z) : Prop := {
  rb_length d : length (rb_out d) = length d;
  rb_tail d : drop (Z.to_nat (sz_meta_header sz)) (rb_out d) = drop (Z.to_nat (sz_meta_header sz)) d;
  rb_bytes d : Forall (in_u 8) d -> Forall (in_u 8) (rb_out d)
}.

Section Layout.
Context (sz : sizes) (bsize : Z).
Hypothesis Hm : 0 <= sz_meta_header sz < bsize.
Hypothesis Hr : 0 <= sz_rgrp sz < bsize.
Hypothesis Hb : bsize < 2 ^ 31.

(** The bytes of bitmap that [n] blocks hold. *)
Definition capacity (n : Z) : Z :=
  if n =? 0 then 0 else (bsize - sz_rgrp sz) + (n - 1) * (bsize - sz_meta_header sz).

Lemma capacity_0 : capacity 0 = 0.
Proof. done. Qed.

Lemma capacity_1 : capacity 1 = bsize - sz_rgrp sz.
Proof. unfold capacity. cbn. lia. Qed.

Lemma capacity_S n : 1 <= n -> capacity (n + 1) = capacity n + (bsize - sz_meta_header sz).
Proof. intros Hn. unfold capacity. destruct (Z.eqb_spec (n + 1) 0), (Z.eqb_spec n 0); lia. Qed.

Lemma capacity_ge n : 0 <= n -> n <= capacity n.
Proof. intros Hn. unfold capacity. destruct (Z.eqb_spec n 0); nia. Qed.

Lemma capacity_mono a b : 0 <= a < b -> capacity a < capacity b.
Proof. intros H. unfold capacity. destruct (Z.eqb_spec a 0), (Z.eqb_spec b 0); nia. Qed.

(** ** The bitmap blocks of a group *)

Lemma bitblocks_loop_spec fuel rgblocks n :
  1 <= n -> 4 < rgblocks < 2 ^ 32 -> rgblocks / 4 + 2 <= Z.of_nat fuel + n -> n <= rgblocks / 4 + 1 ->
  capacity n < 2 ^ 32 ->
  (n = 1 \/ capacity (n - 1) < (rgblocks - (n - 1)) / 4) ->
  exists needed bb, bitblocks_loop sz fuel bsize rgblocks n (capacity n) (capacity (n - 1)) =
      Some (needed, bb) /\ 1 <= bb /\ capacity (bb - 1) < needed <= capacity bb /\
    rgblocks - 4 <= 4 * needed + bb <= rgblocks.
Proof.
  revert n. induction fuel as [|fuel IH]; intros n Hn Hg Hf Hn2 Hc Hp; [lia|].
  cbn [bitblocks_loop]. unfold GFS2_NBBY.
  assert (n <= rgblocks) by dm. rewrite (wrap_small 32) by (unfold in_u; dm).
  pose proof (capacity_ge n ltac:(lia)).
  destruct (Z.geb_spec (capacity n) ((rgblocks - n) / 4)) as [Hge|Hlt].
  - destruct (Z.geb_spec (capacity (n - 1)) ((rgblocks - n) / 4)) as [Hge1|Hlt1].
    + destruct Hp as [->|Hp]; [change (capacity (1 - 1)) with 0 in Hge1; dm|].
      assert (n <> 1) by (intros ->; change (capacity (1 - 1)) with 0 in Hge1; dm).
      rewrite (wrap_small 32) by (unfold in_u; dm).
      eexists _, (n - 1). split; [done|]. split; [lia|].
      pose proof (capacity_mono (n - 1 - 1) (n - 1)). split; dm.
    + eexists _, n. split; [done|]. split; [lia|]. split; [lia|]. dm.
  - rewrite !(wrap_small 32); [| |unfold in_u; dm].
    + rewrite <- capacity_S by lia. replace (capacity n) with (capacity (n + 1 - 1)) by (f_equal; lia).
      apply IH; [lia|done|lia|dm| |right; by replace (n + 1 - 1) with n by lia].
      rewrite capacity_S by lia. dm.
    + unfold in_u. dm.
Qed.

Lemma bitblocks_spec rgblocks :
  4 < rgblocks < 2 ^ 32 ->
  exists bytes bb, rgblocks2bitblocks sz bsize rgblocks = Some (4 * bytes, bb) /\
    1 <= bb /\ capacity (bb - 1) < bytes <= capacity bb /\
    rgblocks - 4 <= 4 * bytes + bb <= rgblocks.
Proof.
  intros Hg. unfold rgblocks2bitblocks. rewrite (wrap_small 32) by (unfold in_u; lia).
  rewrite <- capacity_1. change 0 with (capacity (1 - 1)).
  destruct (bitblocks_loop_spec (S (Z.to_nat (rgblocks / 4))) rgblocks 1) as (needed & bb & -> & H1 & H2 & H3);
    [lia|done|dm|dm|rewrite capacity_1; lia|by left|].
  cbn [mbind option_bind]. exists needed, bb. split; [|done].
  assert (0 <= capacity (bb - 1)) by (pose proof (capacity_ge (bb - 1)); lia).
  unfold GFS2_NBBY. rewrite (wrap_small 32) by (unfold in_u; lia). by rewrite Z.mul_comm.
Qed.

(** Dividing the blocks of a group between bitmap and data, for every size of a
    group of more than four blocks: the loop ends, the bitmap describes every data
    block and not one block of bitmap is more than needed, both together fit into the
    group, and at most four blocks of the group are left unused. *)
Theorem rgblocks2bitblocks_correct rgblocks :
  4 < rgblocks < 2 ^ 32 ->
  exists data bb, rgblocks2bitblocks sz bsize rgblocks = Some (data, bb) /\
    (4 | data) /\ 1 <= bb /\ capacity (bb - 1) < data / 4 <= capacity bb /\
    rgblocks - 4 <= data + bb <= rgblocks.
Proof.
  intros Hg. destruct (bitblocks_spec rgblocks Hg) as (bytes & bb & E & H1 & H2 & H3).
  exists (4 * bytes), bb. split; [done|]. split; [apply Z.divide_factor_l|]. split; [done|].
  split; [|done]. by rewrite Z.mul_comm, Z.div_mul.
Qed.

(** ** The parts of the bitmap *)

(** What the index of groups says of a group, when it is right. *)
Record ri_ok (ri : gfs2_rindex) : Prop := {
  rk_length : 1 <= ri_length ri;
  rk_fill : capacity (ri_length ri - 1) < ri_bitbytes ri <= capacity (ri_length ri);
  rk_data : ri_data ri = 4 * ri_bitbytes ri;
  rk_small : ri_data ri + 4 * bsize < 2 ^ 32;
  rk_addr : 0 <= ri_addr ri;
  rk_data0 : ri_data0 ri = ri_addr ri + ri_length ri;
  rk_end : ri_data0 ri + ri_data ri < 2 ^ 64
}.

Lemma bitstructs_later length bitbytes n x :
  1 <= x -> x + Z.of_nat n = length -> (0 < n)%nat -> 1 < length ->
  capacity (length - 1) < bitbytes <= capacity length -> 4 * bitbytes + 4 * bsize < 2 ^ 32 ->
  exists bits, bitstructs_loop sz bsize length bitbytes n x (bitbytes - capacity x) = (bits, 0) /\
    bits_ok sz bsize false (capacity x) bits /\ total_len bits = bitbytes - capacity x /\
    List.length bits = n /\
    bi_start (List.last bits (mkBits 0 0 0)) + bi_len (List.last bits (mkBits 0 0 0)) = bitbytes.
Proof.
  revert x. induction n as [|n IH]; intros x Hx Hn H0 Hl Hc Hs; [lia|]. cbn [bitstructs_loop].
  destruct (Z.eqb_spec length 1); [lia|]. destruct (Z.eqb_spec x 0); [lia|].
  pose proof (capacity_ge x ltac:(lia)).
  assert (Hcx : capacity x < bitbytes).
  { destruct (decide (x = length - 1)) as [->|]; [lia|]. pose proof (capacity_mono x (length - 1)). lia. }
  assert (Est : u32 (bitbytes - (bitbytes - capacity x)) = capacity x).
  { rewrite (wrap_small 32); [lia|]. unfold in_u. lia. }
  destruct (Z.eqb_spec (x + 1) length) as [E|E]; rewrite Est.
  - assert (n = O) as -> by lia. cbn [bitstructs_loop]. rewrite Z.sub_diag. eexists. split; [done|].
    cbn [bits_ok bi_offset bi_start bi_len total_len foldr List.length List.last head_size].
    replace length with (x + 1) in Hc by lia. rewrite capacity_S in Hc by lia.
    split; [split_and!; try done; lia|]. split; [lia|]. split; [done|]. lia.
  - assert (Hcx1 : capacity (x + 1) < bitbytes).
    { destruct (decide (x + 1 = length - 1)) as [->|]; [lia|].
      pose proof (capacity_mono (x + 1) (length - 1)). lia. }
    rewrite capacity_S in Hcx1 by lia.
    rewrite !(wrap_small 32) by (unfold in_u; rewrite ?(wrap_small 32) by (unfold in_u; lia); lia).
    replace (bitbytes - capacity x - (bsize - sz_meta_header sz)) with (bitbytes - capacity (x + 1))
      by (rewrite capacity_S; lia).
    destruct (IH (x + 1)) as (bits & -> & H1 & H2 & H3 & H4); [lia|lia|lia|done|done|done|].
    eexists. split; [done|]. destruct bits as [|b bits]; [done|]. split.
    { rewrite capacity_S in H1 by lia. split; [done|]. split; [done|]. cbn [bi_offset bi_len].
      split; [lia|]. split; [lia|exact H1]. }
    split.
    + cbn [total_len foldr] in H2 |- *. cbn [bi_len]. rewrite capacity_S in H2 by lia. lia.
    + split; [cbn in H3 |- *; lia|]. exact H4.
Qed.

Lemma bitstructs_spec ri :
  ri_ok ri ->
  exists bits, bitstructs_loop sz bsize (ri_length ri) (ri_bitbytes ri) (Z.to_nat (ri_length ri)) 0
      (ri_bitbytes ri) = (bits, 0) /\
    bits_ok sz bsize true 0 bits /\ total_len bits = ri_bitbytes ri /\
    Z.of_nat (length bits) = ri_length ri /\
    bi_start (List.last bits (mkBits 0 0 0)) + bi_len (List.last bits (mkBits 0 0 0)) = ri_bitbytes ri.
Proof.
  intros [H1 H2 H3 H4 _ _ _]. destruct (Z.to_nat (ri_length ri)) as [|n] eqn:En; [lia|].
  cbn [bitstructs_loop]. destruct (Z.eqb_spec (ri_length ri) 1) as [E|E].
  - assert (n = O) as -> by lia. cbn [bitstructs_loop]. rewrite Z.sub_diag. eexists. split; [done|].
    rewrite E in H2 |- *. rewrite capacity_1 in H2. change (capacity (1 - 1)) with 0 in H2.
    cbn [bits_ok bi_offset bi_start bi_len total_len foldr List.length List.last head_size].
    split; [split_and!; try done; lia|]. split; [lia|]. split; [done|]. lia.
  - change (0 =? 0) with true. cbn iota. pose proof (capacity_1) as C1.
    assert (Hc1 : capacity 1 < ri_bitbytes ri).
    { destruct (decide (1 = ri_length ri - 1)) as [->|]; [lia|].
      pose proof (capacity_mono 1 (ri_length ri - 1)). lia. }
    rewrite !(wrap_small 32) by (unfold in_u; rewrite ?(wrap_small 32) by (unfold in_u; lia); lia).
    rewrite <- C1, Z.add_0_l.
    destruct (bitstructs_later (ri_length ri) (ri_bitbytes ri) n 1) as (bits & -> & K1 & K2 & K3 & K4);
      [lia|lia|lia|lia|done|lia|].
    eexists. split; [done|]. destruct bits as [|b bits]; [cbn in K3; lia|]. split.
    { split; [done|]. split; [done|]. cbn [bi_offset bi_len]. split; [lia|]. split; [lia|exact K1]. }
    split; [cbn [total_len foldr bi_len] in K2 |- *; lia|]. split; [cbn in K3 |- *; lia|]. exact K4.
Qed.

Lemma parts_cover first start bits j :
  bits_ok sz bsize first start bits -> start <= j < start + total_len bits ->
  exists i b, bits !! i = Some b /\ 0 <= j - bi_start b < bi_len b /\
    bi_offset b = head_size sz (if (i =? 0)%nat then first else false) /\ bi_offset b + bi_len b <= bsize.
Proof.
  revert first start. induction bits as [|b bits IH]; intros first start Hok Hj; [done|].
  apply bits_ok_cons in Hok as (Ho & Hs & Hl & _ & He & Hk); [|lia].
  change (total_len (b :: bits)) with (bi_len b + total_len bits) in Hj.
  destruct (decide (j < start + bi_len b)).
  - exists O, b. split; [done|]. split; [lia|]. done.
  - assert (Hne : bits <> []) by (intros ->; cbn in Hj; lia).
    destruct (IH false (start + bi_len b) (Hk Hne)) as (i & c & H1 & H2 & H3 & H4); [lia|].
    exists (S i), c. split; [done|]. split; [done|]. split; [|done]. rewrite H3. by destruct i.
Qed.

(** Memory is available. *)
Definition roomy (m : mem) : Prop := Forall is_Some m.

Lemma malloc_roomy m : roomy m -> exists v m', malloc m = (Some v, m') /\ roomy m'.
Proof.
  intros [|o m' [v ->] H]; [by exists 0, []; split; [|constructor]|]. by exists v, m'.
Qed.

Definition bits_right (ri : gfs2_rindex) (bits : list gfs2_bitmap) : Prop :=
  bits_ok sz bsize true 0 bits /\ total_len bits = ri_bitbytes ri /\
  Z.of_nat (length bits) = ri_length ri.

Lemma compute_bitstructs_spec m rgd :
  ri_ok (rl_ri rgd) -> ri_length (rl_ri rgd) <= 2149 -> roomy m ->
  exists bits m', gfs2_compute_bitstructs sz m bsize rgd =
      (0, rl_set_bh (rl_set_bits rgd (Some bits))
            (Some (default (replicate (length bits) None) (rl_bh rgd))), m') /\
    roomy m' /\ bits_right (rl_ri rgd) bits.
Proof.
  intros K Hlen Hroom. destruct (bitstructs_spec _ K) as (bits & Eb & H1 & H2 & H3 & H4).
  pose proof K as [K1 K2 K3 K4 _ _ _].
  assert (Hc : 0 <= capacity (ri_length (rl_ri rgd) - 1)) by (pose proof (capacity_ge (ri_length (rl_ri rgd) - 1)); lia).
  unfold gfs2_compute_bitstructs. destruct (Z.gtb_spec (ri_length (rl_ri rgd)) 2149); [lia|].
  destruct (Z.eqb_spec (ri_length (rl_ri rgd)) 0); [lia|]. cbn [orb].
  assert (T : exists v m1, (match rl_bits rgd with None => malloc m | Some _ => (Some 0, m) end) = (Some v, m1) /\
    roomy m1).
  { destruct (rl_bits rgd); [by exists 0, m|]. by apply malloc_roomy. }
  destruct T as (v & m1 & -> & Hr1). rewrite Eb. change (c_true 0) with false. cbn iota.
  rewrite H4. unfold GFS2_NBBY.
  rewrite !(wrap_small 32) by (unfold in_u; rewrite ?(wrap_small 32) by (unfold in_u; lia); lia).
  rewrite (Z.mul_comm _ 4), <- K3, Z.eqb_refl. cbn [negb].
  exists bits. destruct rgd as [? ? ri ? ? [bh|]]; cbn [rl_bh rl_ri] in *.
  - exists m1. done.
  - destruct (malloc_roomy m1 Hr1) as (v' & m2 & -> & Hr2). exists m2. split; [|done].
    cbn [default]. do 4 f_equal. by rewrite <- H3, Nat2Z.id.
Qed.

(** For an index entry that is right, [gfs2_compute_bitstructs] succeeds when
    memory is available, and the parts it computes cover the bitmap of the group
    exactly once, each within its block behind the header of the block. *)
Theorem compute_bitstructs_correct m rgd :
  ri_ok (rl_ri rgd) -> ri_length (rl_ri rgd) <= 2149 -> roomy m ->
  exists bits rgd' m', gfs2_compute_bitstructs sz m bsize rgd = (0, rgd', m') /\
    rl_bits rgd' = Some bits /\ bits_right (rl_ri rgd') bits /\ rl_ri rgd' = rl_ri rgd /\
    forall j, 0 <= j < ri_bitbytes (rl_ri rgd) -> exists! i, exists b, bits !! i = Some b /\
      0 <= j - bi_start b < bi_len b /\ bi_offset b = head_size sz (i =? 0)%nat /\
      bi_offset b + bi_len b <= bsize.
Proof.
  intros K Hlen Hroom. destruct (compute_bitstructs_spec m rgd K Hlen Hroom) as (bits & m' & E & _ & B).
  eexists bits, _, m'. split; [exact E|]. split; [done|]. split; [done|]. split; [done|]. intros j Hj.
  destruct B as (B1 & B2 & B3). destruct (parts_cover true 0 bits j B1) as (i & b & H1 & H2 & H3 & H4); [lia|].
  exists i. split; [exists b; by destruct (i =? 0)%nat|].
  intros i' (b' & H1' & H2' & _). by apply (parts_unique sz bsize ltac:(lia) true 0 bits i i' b b' j).
Qed.

(** ** Building the groups *)

Context (rgrp_out : gfs2_rgrp -> list Z -> list Z) {Enc : RgrpEncoding sz rgrp_out}
        (rb_out : list Z -> list Z) {RbEnc : RbEncoding sz rb_out}.

(** All blocks of the bitmap of a new group are zero behind their headers. *)
Definition zero_buf (first : bool) (h : gfs2_buffer_head) : Prop :=
  buf_ok bsize h /\
  drop (Z.to_nat (head_size sz first)) (b_data h) = replicate (Z.to_nat bsize - Z.to_nat (head_size sz first)) 0.

Lemma new_block_zero start rg x : zero_buf (x =? 0)%nat (new_bitmap_block rgrp_out rb_out bsize start rg x).
Proof.
  assert (Hz : Forall (in_u 8) (replicate (Z.to_nat bsize) 0)) by (apply Forall_replicate; unfold in_u; lia).
  unfold new_bitmap_block. destruct x as [|x]; cbn [Nat.eqb].
  - split; [split|]; cbn [b_data head_size].
    + rewrite out_length, length_replicate. lia.
    + by apply out_bytes.
    + by rewrite out_tail, drop_replicate.
  - split; [split|]; cbn [b_data head_size].
    + rewrite rb_length, length_replicate. lia.
    + by apply rb_bytes.
    + by rewrite rb_tail, drop_replicate.
Qed.

Lemma zero_bitmap start rg first st x bits :
  bits_ok sz bsize first st bits -> first = (x =? 0)%nat ->
  exists n, bitmap_of bits (map (new_bitmap_block rgrp_out rb_out bsize start rg) (seq x (length bits))) =
    replicate n 0.
Proof.
  revert first st x. induction bits as [|b bits IH]; intros first st x Hok ->; [done|].
  apply bits_ok_cons in Hok as (Ho & _ & _ & _ & He & Hk); [|lia]. cbn [length seq map bitmap_of].
  destruct (new_block_zero start rg x) as [_ Hz]. unfold part at 1.
  rewrite Ho, Hz, take_replicate.
  assert (T : exists n, bitmap_of bits (map (new_bitmap_block rgrp_out rb_out bsize start rg)
    (seq (S x) (length bits))) = replicate n 0).
  { destruct bits as [|c bits]; [by exists O|]. by eapply IH; [apply Hk|]. }
  destruct T as (n & ->). eexists. by rewrite <- replicate_add.
Qed.

(** The sizes of a group that mkfs can build. *)
Definition buildable (n : Z) : Prop := 4 < n /\ n < 4 * capacity 2149 + 2154 /\ n + 4 * bsize < 2 ^ 32.

(** A group as mkfs leaves it, from the extent that the layout gave it. *)
Definition built (rl rl' : rgrp_list) : Prop :=
  group_ok sz bsize rl' /\ counts_ok rl' /\ (forall k, rgd_state rl' k = GFS2_BLKST_FREE) /\
  ri_addr (rl_ri rl') = rl_start rl /\
  rl_length rl - 4 <= ri_length (rl_ri rl') + ri_data (rl_ri rl') <= rl_length rl /\
  ri_data0 (rl_ri rl') = ri_addr (rl_ri rl') + ri_length (rl_ri rl').

Lemma block_state_replicate n k : block_state (replicate n 0) k = 0.
Proof.
  unfold block_state. rewrite nth_lookup. destruct (replicate n 0 !! Z.to_nat (k / 4)) as [v|] eqn:E;
    [apply lookup_replicate in E as [-> _]|]; cbn [from_option id]; by rewrite Z.shiftr_0_l.
Qed.

Lemma countZ_all P a n : 0 <= n -> (forall x, P x = true) -> countZ P a n = n.
Proof.
  intros Hn H. rewrite (countZ_ext P (fun _ => true)) by (intros; apply H). unfold countZ.
  assert (E : forall l : list Z, List.filter (fun _ => true) l = l) by (induction l as [|x l IH]; cbn; congruence).
  rewrite E, length_seqZ. lia.
Qed.

Lemma build_rgrp_spec m s rl :
  sd_bsize s = bsize -> roomy m -> rl_bits rl = None -> rl_bh rl = None -> buildable (rl_length rl) ->
  0 <= rl_start rl -> rl_start rl + rl_length rl < 2 ^ 64 ->
  exists rl' m', build_rgrp sz rgrp_out rb_out m s true rl =
      Ok (rl', sd_set_total s (u64 (sd_blks_total s + ri_data (rl_ri rl')))
                 (ri_data0 (rl_ri rl') + ri_data (rl_ri rl')), m') /\
    roomy m' /\ built rl rl'.
Proof.
  intros Hbs Hroom Hb0 Hh0 (L1 & L2 & L3) S1 S2. unfold build_rgrp. rewrite Hbs.
  rewrite (wrap_small 32) by (unfold in_u; lia).
  destruct (bitblocks_spec (rl_length rl)) as (bytes & bb & -> & B1 & B2 & B3); [lia|].
  cbn [of_option mbind res_bind].
  assert (0 <= capacity (bb - 1)) by (pose proof (capacity_ge (bb - 1)); lia).
  rewrite !(wrap_small 64) by (unfold in_u; rewrite ?(wrap_small 64) by (unfold in_u; lia); lia).
  unfold GFS2_NBBY at 1. rewrite (Z.mul_comm 4 bytes), Z.div_mul, (Z.mul_comm bytes 4) by done.
  set (ri := mkRi _ _ _ _ _). set (rg := mkRg _ _ _). rewrite Hb0, Hh0.
  assert (K : ri_ok ri) by (split; cbn; try done; lia).
  assert (Hbb : bb <= 2149).
  { apply Z.le_ngt. intros Hlt. destruct (decide (bb = 2150)) as [->|].
    - change (2150 - 1) with 2149 in B2. lia.
    - pose proof (capacity_mono 2149 (bb - 1)). lia. }
  destruct (compute_bitstructs_spec m (mkRgd (rl_start rl) (rl_length rl) ri rg None None) K Hbb Hroom)
    as (bits & m' & -> & Hroom' & C1 & C2 & C3).
  cbn [rl_ri ri ri_length ri_bitbytes] in C2, C3. cbn [default rl_set_bh rl_set_bits rl_bh].
  destruct (Z.ltb_spec 0 bb); [|lia]. cbn [andb]. rewrite length_replicate.
  destruct (Z.ltb_spec (Z.of_nat (length bits)) bb); [lia|]. cbn [mbind res_bind mret res_ret].
  replace (Z.to_nat bb) with (length bits) by lia.
  rewrite drop_ge, app_nil_r by (by rewrite length_replicate).
  unfold rl_set_bh, rl_set_bits. cbn [rl_start rl_length rl_ri rl_rg rl_bits ri_data0 ri_data].
  set (rl' := mkRgd _ _ _ _ _ _). exists rl', m'.
  split; [by rewrite (wrap_small 64 (_ + _ + _)) by (unfold in_u; lia)|]. split; [done|].
  set (bhs := map (new_bitmap_block rgrp_out rb_out bsize (rl_start rl) rg) (seq 0 (length bits))).
  assert (G : group sz bsize rl' bits bhs).
  { split; cbn [rl' rl_bits rl_bh rl_ri ri ri_length ri_bitbytes ri_data ri_data0]; try done; try lia.
    - subst bhs. by rewrite !map_map.
    - subst bhs. by rewrite length_map, length_seq.
    - subst bhs. apply Forall_map, Forall_forall. intros x _. apply (new_block_zero (rl_start rl) rg x). }
  assert (St : forall k, rgd_state rl' k = GFS2_BLKST_FREE).
  { intros k. destruct (zero_bitmap (rl_start rl) rg true 0 0 bits C1 eq_refl) as (n & En).
    unfold rgd_state. rewrite (group_bitmap _ _ _ _ _ G). fold bhs in En. rewrite En. apply block_state_replicate. }
  split; [split; [by exists bits, bhs|cbn; lia]|]. split.
  { split; cbn [rl' rl_rg rl_ri ri rg rg_free rg_dinodes ri_data].
    - rewrite countZ_all; [done|lia|]. intros x. by rewrite St.
    - rewrite (countZ_ext _ (fun _ => false)) by (intros x _; by rewrite St).
      unfold countZ. by induction (seqZ 0 (4 * bytes)). }
  split; [done|]. split; [done|]. split; [cbn; lia|]. done.
Qed.

(** Groups one after the other from block [start] on, ready to be built. *)
Fixpoint chain (start : Z) (l : list rgrp_list) : Prop :=
  match l with
  | [] => start < 2 ^ 64
  | r :: l' => rl_start r = start /\ rl_bits r = None /\ rl_bh r = None /\ buildable (rl_length r) /\
      chain (start + rl_length r) l'
  end.

Lemma chain_end start l : chain start l -> start < 2 ^ 64.
Proof.
  revert start. induction l as [|r l IH]; intros start H; [done|]. destruct H as (_ & _ & _ & (B & _) & H).
  apply IH in H. lia.
Qed.

Lemma chain_after start l i r : chain start l -> l !! i = Some r -> start <= rl_start r.
Proof.
  revert start i. induction l as [|x l IH]; intros start i H Hi; [done|].
  destruct H as (Hs & _ & _ & (B & _) & H). destruct i as [|i]; [injection Hi as <-; lia|].
  specialize (IH _ i H Hi). lia.
Qed.

Lemma chain_order start l i j r r' :
  chain start l -> l !! i = Some r -> l !! j = Some r' -> (i < j)%nat -> rl_start r + rl_length r <= rl_start r'.
Proof.
  revert start i j. induction l as [|x l IH]; intros start i j H Hi Hj Hlt; [done|].
  destruct H as (Hs & _ & _ & _ & H). destruct j as [|j]; [lia|]. destruct i as [|i].
  - injection Hi as <-. rewrite Hs. by eapply chain_after.
  - eapply (IH _ i j); [done|done|done|lia].
Qed.

Lemma build_loop_spec m s start l :
  sd_bsize s = bsize -> roomy m -> 0 <= start -> chain start l ->
  exists l' s' m', build_loop sz rgrp_out rb_out m s true l = Ok (l', s', m') /\ Forall2 built l l' /\
    sd_bsize s' = bsize.
Proof.
  revert m s start. induction l as [|r l IH]; intros m s start Hbs Hroom H0 H; [by exists [], s, m|].
  destruct H as (Hs & Hb0 & Hh0 & B & H). pose proof (chain_end _ _ H). pose proof B as (B1 & _).
  destruct (build_rgrp_spec m s r Hbs Hroom Hb0 Hh0 B) as (r' & m1 & E & Hroom1 & Bt); [lia|lia|].
  cbn [build_loop]. rewrite E. cbn [mbind res_bind]. set (s1 := sd_set_total _ _ _).
  destruct (IH m1 s1 (start + rl_length r)) as (l' & s' & m' & -> & F & Hbs'); [done|done|lia|done|].
  cbn [mbind res_bind mret res_ret]. exists (r' :: l'), s', m'. split; [done|]. split; [by constructor|done].
Qed.

Lemma built_wf s start l l' :
  sd_bsize s = bsize -> chain start l -> Forall2 built l l' -> fs_ok sz bsize (sd_set_rglist s l').
Proof.
  intros Hbs Hc F. split; [split|].
  - done.
  - cbn. apply Forall_lookup. intros i r' Hi. eapply Forall2_lookup_r in F as (r & _ & B); [|done]. apply B.
  - cbn. assert (T : forall i j r r', l' !! i = Some r -> l' !! j = Some r' -> (i < j)%nat ->
      ri_data0 (rl_ri r) + ri_data (rl_ri r) <= ri_addr (rl_ri r')).
    { intros i j r r' Hi Hj Hlt. eapply Forall2_lookup_r in F as Fi; [|exact Hi].
      eapply Forall2_lookup_r in F as Fj; [|exact Hj]. destruct Fi as (x & Hx & Bx), Fj as (y & Hy & By).
      pose proof (chain_order _ _ i j x y Hc Hx Hy Hlt).
      destruct Bx as (_ & _ & _ & X1 & X2 & X3), By as (_ & _ & _ & Y1 & _). lia. }
    intros i j r r' Hi Hj Hne. unfold apart. destruct (decide (i < j)%nat) as [Hlt|Hge].
    + left. by apply (T i j).
    + right. apply (T j i); [done|done|lia].
  - cbn. apply Forall_lookup. intros i r' Hi. eapply Forall2_lookup_r in F as (r & _ & B); [|done]. apply B.
Qed.

Lemma append_chain n start len rglength :
  0 <= start -> 0 <= len -> buildable rglength -> start + len + Z.of_nat n * rglength < 2 ^ 64 ->
  chain (start + len) (append_rgrps n start len rglength).
Proof.
  revert start len. induction n as [|n IH]; intros start len Hs Hl B He; [cbn; lia|].
  pose proof B as (B1 & _). cbn [append_rgrps]. rewrite (wrap_small 64) by (unfold in_u; nia).
  split; [done|]. split; [done|]. split; [done|]. split; [done|]. cbn [new_rgrp rl_length].
  apply IH; [lia|lia|done|lia].
Qed.

(** The end of the last group of the layout. *)
Definition lengths (l : list rgrp_list) : Z := foldr (fun r t => rl_length r + t) 0 l.

Lemma append_lengths n start len rglength :
  lengths (append_rgrps n start len rglength) = Z.of_nat n * rglength.
Proof.
  revert start len. induction n as [|n IH]; intros start len; [done|].
  cbn [append_rgrps lengths foldr new_rgrp rl_length]. fold (lengths (append_rgrps n (u64 (start + len)) rglength rglength)).
  rewrite IH. lia.
Qed.

(** The numbers of the layout: [n] groups for [len] blocks, at most [g] blocks each. *)
Lemma ceil_div_facts len g :
  4 < len -> 16 <= g ->
  1 <= ceil_div len g /\ 4 < len / ceil_div len g <= g /\ ceil_div len g <= len.
Proof.
  intros Hl Hg. unfold ceil_div. set (n := (len + g - 1) / g).
  assert (Hn : n * g <= len + g - 1 < n * g + g) by (subst n; dm).
  assert (Hn1 : 1 <= n) by nia. split; [done|].
  assert (H5 : 5 * n <= len).
  { destruct (decide (n = 1)) as [->|]; [lia|].
    assert ((n - 1) * 16 <= (n - 1) * g) by (apply Z.mul_le_mono_nonneg_l; lia). lia. }
  split; [|lia]. split; [apply Z.lt_le_trans with 5; [lia|apply Z.div_le_lower_bound; lia]|].
  apply Z.lt_succ_r, Z.div_lt_upper_bound; [lia|]. nia.
Qed.

Lemma ceil_div_anti len g g' : 0 <= len -> 0 < g <= g' -> ceil_div len g' <= ceil_div len g.
Proof.
  intros Hl Hg. unfold ceil_div. set (a := (len + g' - 1) / g'). set (b := (len + g - 1) / g).
  assert (a * g' <= len + g' - 1 < a * g' + g') by (subst a; dm).
  assert (b * g <= len + g - 1 < b * g + g) by (subst b; dm).
  assert (0 <= b) by (apply Z.div_pos; lia). apply Z.le_ngt. intros Hlt.
  assert (b * g <= b * g') by (apply Z.mul_le_mono_nonneg_l; lia).
  assert ((b + 1) * g' <= a * g') by (apply Z.mul_le_mono_nonneg_r; lia). lia.
Qed.

Lemma rg_blocks_mono bs a b : 0 < bs -> a <= b -> rg_blocks bs a <= rg_blocks bs b.
Proof. intros H1 H2. apply Z.div_le_mono; [done|]. lia. Qed.

Lemma rg_blocks_min bs a : 0 < bs <= 2 ^ 16 -> 1 <= a -> 16 <= rg_blocks bs a.
Proof. intros H1 H2. apply Z.div_le_lower_bound; lia. Qed.

Lemma layout_chain start len n :
  0 <= start -> 0 <= len -> start + len < 2 ^ 63 -> 1 <= n < 2 ^ 32 -> buildable (len / n) ->
  buildable (len / n + len mod n) ->
  let first := u64 (len - u64 (u32 (n - 1) * (len / n))) in
  let l := new_rgrp start first :: append_rgrps (Z.to_nat (n - 1)) start first (len / n) in
  chain start l /\ lengths l = len.
Proof.
  intros Hs Hl He Hn B1 B2 first l.
  assert (Hd : len = n * (len / n) + len mod n) by (apply Z.div_mod; lia).
  pose proof (Z.mod_pos_bound len n). pose proof B1 as (B1' & _).
  assert (Ef : first = len / n + len mod n).
  { subst first. rewrite (wrap_small 32) by (unfold in_u; lia).
    rewrite !(wrap_small 64) by (unfold in_u; rewrite ?(wrap_small 64) by (unfold in_u; nia); nia). nia. }
  subst l. rewrite Ef. split.
  - split; [done|]. split; [done|]. split; [done|]. split; [done|]. cbn [new_rgrp rl_length].
    apply append_chain; [done|lia|done|]. rewrite Z2Nat.id by lia. nia.
  - cbn [lengths foldr new_rgrp rl_length].
    fold (lengths (append_rgrps (Z.to_nat (n - 1)) start (len / n + len mod n) (len / n))).
    rewrite append_lengths, Z2Nat.id by lia. nia.
Qed.

(** C23: mkfs makes a consistent file system: for every device with room for a group,
    the groups that it lays out fill the device behind the superblock one after the
    other, and building them succeeds when memory is available and leaves a file
    system in which bitmaps and counts are consistent and every block that a group
    describes is free.  The two bounds say that the largest group, which takes the
    remainder of the division, needs no more than 2149 bitmap blocks and fits into 32
    bits. *)
Theorem mkfs_consistent m s spec :
  let len := sd_dev_length s - (sd_sb_addr s + 1) in
  let most := rg_blocks bsize 2048 + ceil_div len (rg_blocks bsize (sd_rgsize s)) in
  sd_bsize s = bsize -> sd_rglist s = [] -> roomy m -> 0 < bsize <= 2 ^ 16 ->
  0 <= sd_dev_start s -> 0 <= sd_sb_addr s -> sd_dev_start s + sd_dev_length s < 2 ^ 63 -> 4 < len ->
  1 <= sd_rgsize s <= 2048 -> spec = true \/ sd_rgsize s = GFS2_DEFAULT_RGSIZE ->
  most < 4 * capacity 2149 + 2154 -> most + 4 * bsize < 2 ^ 32 ->
  exists s1 s2 m', compute_rgrp_layout s spec = Ok s1 /\
    lengths (sd_rglist s1) = len /\ chain (sd_dev_start s + (sd_sb_addr s + 1)) (sd_rglist s1) /\
    build_rgrps sz rgrp_out rb_out m s1 true = Ok (s2, m') /\ fs_ok sz bsize s2 /\
    length (sd_rglist s2) = length (sd_rglist s1) /\
    forall blk v, fs_state s2 blk = Some v -> v = GFS2_BLKST_FREE.
Proof.
  intros len most Hbs Hl Hroom Hb16 H0 Hsb He Hlen Hrg Hspec Hmost Hmost2.
  unfold compute_rgrp_layout. rewrite Hl, !(wrap_small 64) by (unfold in_u; lia). fold len.
  unfold layout_new. set (s0 := mkSbd _ _ _ _ _ _ _ _ _ _ _ _ _).
  destruct (how_many_loop_spec 8 len bsize spec (sd_rgsize s)) as (n & rs & En & Hrs & [q Hq] & Hn & _ & Hsp & _);
    [lia|lia|unfold GFS2_DEFAULT_RGSIZE; lia..|].
  assert (Hrs2 : rs <= 2048).
  { unfold GFS2_DEFAULT_RGSIZE in *. destruct Hspec as [->|E]; [rewrite Hsp by done; lia|lia]. }
  pose proof (rg_blocks_min bsize (sd_rgsize s)) as G1. pose proof (rg_blocks_mono bsize (sd_rgsize s) rs) as G2.
  pose proof (rg_blocks_mono bsize rs 2048) as G3.
  destruct (ceil_div_facts len (rg_blocks bsize rs)) as (F1 & F2 & F3); [done|lia|]. rewrite <- Hn in *.
  pose proof (ceil_div_anti len (rg_blocks bsize (sd_rgsize s)) (rg_blocks bsize rs)) as F4. rewrite <- Hn in F4.
  pose proof (rg_blocks_pos bsize 2048) as G4. pose proof (Z.mod_pos_bound len n).
  destruct (layout_chain (sd_dev_start s + (sd_sb_addr s + 1)) len n) as (C1 & C2);
    [lia|lia|lia|lia|unfold buildable; lia|unfold buildable; lia|].
  unfold how_many_rgrps. cbn [s0 sd_dev_length sd_bsize sd_rgsize sd_dev_start]. rewrite Hbs, En.
  cbn [mbind res_bind]. rewrite (wrap_small 32 n) by (unfold in_u; lia).
  destruct (Z.eqb_spec n 0); [lia|]. cbn [mret res_ret]. set (s1 := mkSbd _ _ _ _ _ _ _ _ _ _ _ _ _).
  exists s1.
  destruct (build_loop_spec m s1 (sd_dev_start s + (sd_sb_addr s + 1)) (sd_rglist s1)) as (l' & s2 & m' & E & F & Hbs2);
    [done|done|lia|done|].
  exists (sd_set_rglist s2 l'), m'. split; [done|]. split; [done|]. split; [done|].
  split; [unfold build_rgrps; by rewrite E|]. split; [by eapply built_wf|].
  split; [symmetry; by eapply Forall2_length|].
  intros blk v Hv. apply fs_state_Some in Hv as (p & r & Hp & _ & ->).
  eapply Forall2_lookup_r in F as (x & _ & B); [|exact Hp]. apply B.
Qed.

(** A group that needs more than 2149 bitmap blocks: [gfs2_compute_bitstructs] fails,
    [build_rgrps] does not look at its result and stores the buffers through a null
    pointer.  The first group of a layout, which takes the remainder of the division,
    can be that large. *)
Theorem build_too_large m s rl :
  sd_bsize s = bsize -> rl_bh rl = None -> 4 * capacity 2149 + 2154 <= rl_length rl < 2 ^ 32 ->
  build_rgrp sz rgrp_out rb_out m s true rl = Fault.
Proof.
  intros Hbs Hh0 L. pose proof (capacity_ge 2149 ltac:(lia)). unfold build_rgrp. rewrite Hbs.
  rewrite (wrap_small 32) by (unfold in_u; lia).
  destruct (bitblocks_spec (rl_length rl)) as (bytes & bb & -> & B1 & B2 & B3); [lia|].
  cbn [of_option mbind res_bind].
  assert (Hbb : 2149 < bb).
  { apply Z.nle_gt. intros Hle. destruct (decide (bb = 2149)) as [->|]; [lia|].
    pose proof (capacity_mono bb 2149). lia. }
  unfold gfs2_compute_bitstructs. cbn [rl_ri ri_length]. destruct (Z.gtb_spec bb 2149); [|lia].
  cbn [orb rl_bh]. rewrite Hh0. by destruct (Z.ltb_spec 0 bb); [|lia].
Qed.

End Layout.

(** Growing a file system that has one group dereferences the null pointer to the
    group before the last. *)
Theorem grow_one_group s spec r : sd_rglist s = [r] -> compute_rgrp_layout s spec = Fault.
Proof. intros E. unfold compute_rgrp_layout. by rewrite E. Qed.
