(* ===== verification/Gfs2FsckThm.v ===== *)
(** * Walking and repairing the bitmaps of GFS2: theorems

    [gfs2_next_rg_meta] visits the dinodes of a resource group, and the last pass
    of fsck makes the bitmaps and the counts of the groups agree with the block map
    that the other passes have built. *)

From S2P Require Import Prelude Gfs2Bits Gfs2BitsThm Gfs2Rgrp Gfs2RgrpThm.
Open Scope Z_scope.

Lemma find_ext_in {A} (f g : A -> bool) l : (forall x, In x l -> f x = g x) -> List.find f l = List.find g l.
Proof.
  induction l as [|x l IH]; intros H; [done|]. cbn. rewrite (H x) by (by left).
  destruct (g x); [done|]. apply IH. intros y Hy. apply H. by right.
Qed.

Lemma find_seqZ_shift P a k n :
  List.find P (seqZ (a + k) n) = option_map (fun x => x + k) (List.find (fun x => P (x + k)) (seqZ a n)).
Proof.
  rewrite (Z.add_comm a k), <- fmap_add_seqZ. induction (seqZ a n) as [|x l IH]; [done|].
  cbn [fmap list_fmap List.find]. rewrite (Z.add_comm k x). by destruct (P (x + k)).
Qed.

Section Fsck.
Context (sz : sizes) (bsize : Z).
Hypothesis Hsz : 0 <= sz_meta_header sz /\ 0 <= sz_rgrp sz.

(** The headers of the bitmap blocks end on a boundary of eight bytes. *)
Hypothesis Hm8 : (8 | bsize - sz_meta_header sz).
Hypothesis Hr8 : (8 | bsize - sz_rgrp sz).

(** ** Visiting the dinodes of a group *)

Lemma align_part first b h :
  bi_offset b = head_size sz first -> 0 < bi_len b -> 0 <= bi_offset b -> bi_offset b + bi_len b <= bsize ->
  buf_ok bsize h -> ALIGN (bi_len b) 8 <= Z.of_nat (length (drop (Z.to_nat (bi_offset b)) (b_data h))).
Proof.
  intros Ho Hl H0 He [Hh _]. rewrite length_drop. destruct (ALIGN_8 (bi_len b)) as [E1 E2]. rewrite E1, E2.
  assert (D : (8 | bsize - bi_offset b)) by (rewrite Ho; by destruct first). destruct D as [q Hq].
  replace (Z.of_nat (length (b_data h) - Z.to_nat (bi_offset b))) with (bsize - bi_offset b) by lia. dm.
Qed.

(** The search of one part. *)
Lemma bitfit_part first b h goal :
  bi_offset b = head_size sz first -> 0 < bi_len b -> 0 <= bi_offset b -> bi_offset b + bi_len b <= bsize ->
  buf_ok bsize h -> 0 <= goal < 4 * bi_len b -> 4 * bsize < 2 ^ 32 ->
  gfs2_bitfit (drop (Z.to_nat (bi_offset b)) (b_data h)) (bi_len b) goal GFS2_BLKST_DINODE =
  Some (default BFITNOENT (List.find (fun k => block_state (part b h) k =? GFS2_BLKST_DINODE)
    (seqZ goal (4 * bi_len b - goal)))).
Proof.
  intros Ho Hl H0 He Hh Hg H32.
  rewrite bitfit_scan; [|apply Forall_drop, Hh|by unfold GFS2_BLKST_DINODE|done|by eapply align_part].
  unfold bitfit_ref. rewrite (find_ext_in _ (fun k => block_state (part b h) k =? GFS2_BLKST_DINODE)).
  - by destruct (List.find _ _).
  - intros k Hk. apply list_elem_of_In, elem_of_seqZ in Hk. unfold block_state, part. do 3 f_equal.
    rewrite !nth_lookup, lookup_take_lt by dm. done.
Qed.

(** The blocks of the parts [l], the first of which starts at byte [st], in a state. *)
Definition first_dinode (l : list gfs2_bitmap) (bhs : list gfs2_buffer_head) (st g : Z) : option Z :=
  List.find (fun k => block_state (bitmap_of l bhs) (k - 4 * st) =? GFS2_BLKST_DINODE)
    (seqZ g (4 * (st + total_len l) - g)).

(** The search splits at the end of a part. *)
Lemma first_dinode_cons b l h bhs st g :
  Z.of_nat (length (part b h)) = bi_len b -> 0 < bi_len b -> 0 <= total_len l ->
  4 * st <= g < 4 * (st + bi_len b) ->
  first_dinode (b :: l) (h :: bhs) st g =
  match List.find (fun k => block_state (part b h) k =? GFS2_BLKST_DINODE)
          (seqZ (g - 4 * st) (4 * bi_len b - (g - 4 * st))) with
  | Some k => Some (k + 4 * st)
  | None => first_dinode l bhs (st + bi_len b) (4 * (st + bi_len b))
  end.
Proof.
  intros Hp Hl Ht Hg. unfold first_dinode. change (total_len (b :: l)) with (bi_len b + total_len l).
  replace (4 * (st + (bi_len b + total_len l)) - g)
    with ((4 * (st + bi_len b) - g) + 4 * total_len l) by lia.
  rewrite seqZ_app, find_app by lia. cbn [bitmap_of].
  replace (seqZ g (4 * (st + bi_len b) - g))
    with (seqZ (g - 4 * st + 4 * st) (4 * bi_len b - (g - 4 * st))) by (f_equal; lia).
  rewrite find_seqZ_shift.
  rewrite (find_ext_in _ (fun k => block_state (part b h) k =? GFS2_BLKST_DINODE)).
  - destruct (List.find _ (seqZ (g - 4 * st) _)); [done|]. cbn [option_map].
    replace (g + (4 * (st + bi_len b) - g)) with (4 * (st + bi_len b)) by lia.
    replace (4 * (st + bi_len b + total_len l) - 4 * (st + bi_len b)) with (4 * total_len l) by lia.
    apply find_ext_in. intros k Hk. apply list_elem_of_In, elem_of_seqZ in Hk.
    rewrite block_state_app_r by lia. do 2 f_equal. lia.
  - intros k Hk. apply list_elem_of_In, elem_of_seqZ in Hk.
    rewrite block_state_app by lia. do 2 f_equal. lia.
Qed.

Lemma first_dinode_skip b l h bhs st g :
  Z.of_nat (length (part b h)) = bi_len b -> 0 < bi_len b -> 4 * (st + bi_len b) <= g ->
  first_dinode (b :: l) (h :: bhs) st g = first_dinode l bhs (st + bi_len b) g.
Proof.
  intros Hp Hl Hg. unfold first_dinode. change (total_len (b :: l)) with (bi_len b + total_len l).
  rewrite Z.add_assoc. apply find_ext_in. intros k Hk. apply list_elem_of_In, elem_of_seqZ in Hk.
  cbn [bitmap_of]. rewrite block_state_app_r by lia. do 2 f_equal. lia.
Qed.

Section Walk.
Context (rgd : rgrp_list).
Hypothesis H0 : 0 <= ri_data0 (rl_ri rgd).

(** The parts [l] are those of the group from number [i] on, in the buffers [bhs]. *)
Record walk (first : bool) (st : Z) (l : list gfs2_bitmap) (i : nat) (bhs : list gfs2_buffer_head) : Prop := {
  wk_ok : bits_ok sz bsize first st l;
  wk_count : length bhs = length l;
  wk_bufs : Forall (buf_ok bsize) bhs;
  wk_get : forall j, (j < length bhs)%nat -> get_bh rgd (i + j) = bhs !! j;
  wk_start : 0 <= st;
  wk_small : 4 * (st + total_len l) + 4 * bsize < 2 ^ 32;
  wk_end : ri_data0 (rl_ri rgd) + 4 * (st + total_len l) < 2 ^ 64
}.

Lemma walk_cons first st b l i h bhs :
  walk first st (b :: l) i (h :: bhs) ->
  bi_offset b = head_size sz first /\ bi_start b = st /\ 0 < bi_len b /\ 0 <= bi_offset b /\
  bi_offset b + bi_len b <= bsize /\ buf_ok bsize h /\ get_bh rgd i = Some h /\ 0 <= total_len l /\
  Z.of_nat (length (part b h)) = bi_len b /\ (l <> [] -> walk false (st + bi_len b) l (S i) bhs).
Proof.
  intros [W1 W2 W3 W4 W5 W6 W7]. apply bits_ok_cons in W1 as (B1 & B2 & B3 & B4 & B5 & B6); [|done].
  change (total_len (b :: l)) with (bi_len b + total_len l) in *. apply Forall_cons in W3 as [W3 W3'].
  pose proof (W4 O ltac:(cbn; lia)) as G. rewrite Nat.add_0_r in G. cbn in G.
  assert (Ht : 0 <= total_len l) by (destruct l; [by cbn|]; eapply total_len_nonneg; [done|by apply B6]).
  split_and!; try done; [by apply (length_part bsize)|intros Hne].
  split; [by apply B6|by injection W2|done| |lia|lia|lia].
  intros j Hj. rewrite Nat.add_succ_comm. apply (W4 (S j)). cbn. lia.
Qed.

Lemma meta_loop_spec l : forall first st i bhs g,
  walk first st l i bhs -> 4 * st <= g ->
  match l with [] => True | b :: _ => g < 4 * (st + bi_len b) end ->
  meta_loop rgd l i (g - 4 * st) =
  Ok (option_map (fun k => ri_data0 (rl_ri rgd) + k) (first_dinode l bhs st g)).
Proof.
  induction l as [|b l IH]; intros first st i bhs g W Hg Hgb; [by destruct (wk_ok _ _ _ _ _ W)|].
  destruct bhs as [|h bhs]; [by pose proof (wk_count _ _ _ _ _ W)|]. pose proof (wk_small _ _ _ _ _ W) as Ws.
  pose proof (wk_start _ _ _ _ _ W). pose proof (wk_end _ _ _ _ _ W) as We.
  apply walk_cons in W as (B1 & B2 & B3 & B4 & B5 & Hh & Gh & Ht & Hp & Hk).
  change (total_len (b :: l)) with (bi_len b + total_len l) in Ws, We.
  cbn [meta_loop]. rewrite Gh. cbn [of_option mbind res_bind].
  rewrite (bitfit_part first b h) by (done || lia). cbn [of_option mbind res_bind].
  rewrite first_dinode_cons by (done || lia).
  destruct (List.find _ (seqZ (g - 4 * st) _)) as [k|] eqn:E; cbn [default from_option id].
  - apply List.find_some in E as [E _]. apply list_elem_of_In, elem_of_seqZ in E.
    rewrite (wrap_small 32 k) by (unfold in_u; lia).
    destruct (Z.eqb_spec k BFITNOENT); [unfold BFITNOENT in *; lia|]. cbn [negb option_map mret res_ret].
    unfold GFS2_NBBY. rewrite B2. rewrite !(wrap_small 32) by (unfold in_u; rewrite ?(wrap_small 32) by (unfold in_u; lia); lia).
    rewrite (wrap_small 64) by (unfold in_u; lia). do 2 f_equal. lia.
  - change (u32 BFITNOENT =? BFITNOENT) with true. cbn [negb]. destruct l as [|c l].
    + cbn [meta_loop]. unfold first_dinode. rewrite seqZ_nil by (cbn; lia). done.
    + specialize (Hk ltac:(done)). replace 0 with (4 * (st + bi_len b) - 4 * (st + bi_len b)) by lia.
      eapply IH; [exact Hk|lia|]. pose proof (wk_ok _ _ _ _ _ Hk) as K.
      apply bits_ok_cons in K as (_ & _ & K & _); [lia|done].
Qed.

Lemma skip_meta_spec l : forall first st i bhs g,
  walk first st l i bhs -> 4 * st <= g <= 4 * (st + total_len l) ->
  exists n blk, skip_bits l i (g - 4 * st) = ((i + n)%nat, blk) /\
    meta_loop rgd (drop n l) (i + n) blk =
    Ok (option_map (fun k => ri_data0 (rl_ri rgd) + k) (first_dinode l bhs st g)).
Proof.
  induction l as [|b l IH]; intros first st i bhs g W Hg; [by destruct (wk_ok _ _ _ _ _ W)|].
  destruct bhs as [|h bhs]; [by pose proof (wk_count _ _ _ _ _ W)|]. pose proof (wk_small _ _ _ _ _ W) as Ws.
  pose proof (wk_start _ _ _ _ _ W). pose proof W as W0.
  apply walk_cons in W as (B1 & B2 & B3 & B4 & B5 & Hh & Gh & Ht & Hp & Hk).
  change (total_len (b :: l)) with (bi_len b + total_len l) in Ws, Hg.
  cbn [skip_bits]. unfold GFS2_NBBY. rewrite (wrap_small 32) by (unfold in_u; lia).
  destruct (Z.ltb_spec (g - 4 * st) (bi_len b * 4)).
  - exists O, (g - 4 * st). rewrite Nat.add_0_r. split; [done|]. cbn [drop]. eapply meta_loop_spec; [done|lia|lia].
  - rewrite first_dinode_skip by (done || lia). rewrite (wrap_small 32) by (unfold in_u; lia).
    destruct l as [|c l].
    + exists 1%nat. cbn [skip_bits]. eexists. split; [f_equal; lia|]. cbn [drop meta_loop].
      unfold first_dinode. cbn in Hg |- *. rewrite seqZ_nil by lia. done.
    + destruct (IH false (st + bi_len b) (S i) bhs g) as (n & blk & E & M); [by apply Hk|lia|].
      exists (S n), blk. rewrite <- Nat.add_succ_comm. split; [|exact M].
      rewrite <- E. f_equal. lia.
Qed.

End Walk.

Lemma group_walk rgd bits bhs :
  group sz bsize rgd bits bhs -> ri_data0 (rl_ri rgd) + ri_data (rl_ri rgd) < 2 ^ 64 ->
  walk rgd true 0 bits 0 bhs.
Proof.
  intros G He. pose proof (g_total _ _ _ _ _ G). pose proof (g_data _ _ _ _ _ G). pose proof (g_small _ _ _ _ _ G).
  split; try apply G; try lia. intros j Hj. unfold get_bh. rewrite (g_bh _ _ _ _ _ G). cbn [mbind option_bind].
  rewrite list_lookup_fmap. cbn [Nat.add]. by destruct (bhs !! j).
Qed.

(** What [List.find] returns on an interval. *)
Lemma find_seqZ_spec (P : Z -> bool) a n :
  match List.find P (seqZ a n) with
  | Some k => a <= k < a + n /\ P k = true /\ forall j, a <= j < k -> P j = false
  | None => forall j, a <= j < a + n -> P j = false
  end.
Proof.
  destruct (List.find P (seqZ a n)) as [k|] eqn:E.
  - apply List.find_some in E as F. destruct F as [F HP]. apply list_elem_of_In, elem_of_seqZ in F.
    split; [done|]. split; [done|]. intros j Hj. destruct (P j) eqn:Ej; [|done]. exfalso.
    destruct (least_in P a j ltac:(lia) Ej) as (q & Hq & HPq & Hm).
    rewrite (find_seqZ_first P a n q) in E; [injection E as E; lia|lia|done|done].
  - intros j Hj. apply (List.find_none _ _ E), list_elem_of_In, elem_of_seqZ. lia.
Qed.

(** The bitmap of the group has a dinode in block [b] of the file system. *)
Definition dinode_at (rgd : rgrp_list) (b : Z) : Prop :=
  rgd_state rgd (b - ri_data0 (rl_ri rgd)) = GFS2_BLKST_DINODE.

(** Stepping through the dinodes of a group: [gfs2_next_rg_meta] returns the first
    dinode behind the given block, or the first of the group, and reports the end when
    there is none; across the parts of the bitmap no dinode is missed and none is
    returned that the bitmap does not have. *)
Theorem next_rg_meta_next rgd block first :
  group_ok sz bsize rgd ->
  (first = false -> ri_data0 (rl_ri rgd) <= block < ri_data0 (rl_ri rgd) + ri_data (rl_ri rgd)) ->
  let from := if first then ri_data0 (rl_ri rgd) else block + 1 in
  exists r, gfs2_next_rg_meta rgd block first = Ok r /\
  match r with
  | Some b => from <= b < ri_data0 (rl_ri rgd) + ri_data (rl_ri rgd) /\ dinode_at rgd b /\
      forall c, from <= c < b -> ~ dinode_at rgd c
  | None => forall c, from <= c < ri_data0 (rl_ri rgd) + ri_data (rl_ri rgd) -> ~ dinode_at rgd c
  end.
Proof.
  intros GO Hblk from. pose proof (group_range sz bsize Hsz rgd GO) as Hr.
  destruct GO as ((bits & bhs & G) & _). pose proof (g_total _ _ _ _ _ G) as Gt.
  pose proof (g_data _ _ _ _ _ G) as Gd. unfold dinode_at. set (data0 := ri_data0 (rl_ri rgd)) in *.
  pose proof (group_bsize _ _ Hsz _ _ _ G) as Hbs. pose proof (g_small _ _ _ _ _ G) as Gs.
  destruct (skip_meta_spec rgd ltac:(lia) bits true 0 0 bhs (from - data0)) as (n & blk & E & M).
  { apply group_walk; [done|]. lia. }
  { subst from. destruct first; [lia|]. specialize (Hblk eq_refl). lia. }
  exists (option_map (fun k => data0 + k) (first_dinode bits bhs 0 (from - data0))). split.
  - unfold gfs2_next_rg_meta. fold data0. destruct first.
    + cbn [negb andb]. rewrite (g_bits _ _ _ _ _ G). cbn [of_option mbind res_bind].
      rewrite (g_length _ _ _ _ _ G), Nat2Z.id, take_ge by done.
      replace (from - data0 - 4 * 0) with 0 in E by (subst from; lia). rewrite E. exact M.
    + specialize (Hblk eq_refl). cbn [negb andb]. destruct (Z.ltb_spec block data0); [lia|].
      rewrite (g_bits _ _ _ _ _ G). cbn [of_option mbind res_bind].
      rewrite (g_length _ _ _ _ _ G), Nat2Z.id, take_ge, (wrap_small 32) by (unfold in_u; lia || done).
      replace (from - data0 - 4 * 0) with (block + 1 - data0) in E by (subst from; lia). rewrite E. exact M.
  - assert (S : forall c, 0 <= c -> rgd_state rgd c = block_state (bitmap_of bits bhs) (c - 4 * 0)).
    { intros c _. rewrite (group_state _ _ _ _ _ _ G). unfold state_in. f_equal. lia. }
    assert (Hf : 0 <= from - data0) by (subst from; destruct first; [lia|specialize (Hblk eq_refl); lia]).
    unfold first_dinode. pose proof (find_seqZ_spec (fun k => block_state (bitmap_of bits bhs) (k - 4 * 0) =?
      GFS2_BLKST_DINODE) (from - data0) (4 * (0 + total_len bits) - (from - data0))) as F.
    destruct (List.find _ _) as [k|]; cbn [option_map].
    + destruct F as (F1 & F2 & F3). split; [lia|]. split.
      * rewrite S by lia. apply Z.eqb_eq in F2. rewrite <- F2. f_equal. lia.
      * intros c Hc Hd. rewrite S in Hd by lia. specialize (F3 (c - data0) ltac:(lia)). by apply Z.eqb_neq in F3.
    + intros c Hc Hd. rewrite S in Hd by lia.
      specialize (F (c - data0) ltac:(lia)). by apply Z.eqb_neq in F.
Qed.

(** ** The last pass of fsck *)

Context (rgrp_out : gfs2_rgrp -> list Z -> list Z) {Enc : RgrpEncoding sz rgrp_out} (bl : gfs2_bmap).

(** The state that a mark stands for, and the one the block map asks for a block. *)
Definition mark_state (q : gfs2_mark_block) : Z := fst (convert_mark q (0, 0, 0)).

Definition wanted (blk : Z) : Z :=
  match block_type bl blk with
  | Some q => mark_state (mark_of q)
  | None => GFS2_BLKST_FREE
  end.

(** The block map has a mark for the block, and a valid one. *)
Definition marked (blk : Z) : Prop :=
  exists q, block_type bl blk = Some q /\ mark_of q <> gfs2_bad_block.

Lemma wanted_cases blk : marked blk -> wanted blk = 0 \/ wanted blk = 1 \/ wanted blk = 3.
Proof.
  intros (q & E & Hq). unfold wanted, mark_state. rewrite E. destruct (mark_of q); cbn; auto; done.
Qed.

Definition tally (data0 n : Z) : Z * Z * Z :=
  (countZ (fun j => wanted (data0 + j) =? 0) 0 n, countZ (fun j => wanted (data0 + j) =? 3) 0 n,
   countZ (fun j => wanted (data0 + j) =? 1) 0 n).

Lemma countZ_snoc P n : 0 <= n -> countZ P 0 (n + 1) = countZ P 0 n + (if P n then 1 else 0).
Proof.
  intros Hn. rewrite (countZ_app P 0 n 1), Z.add_0_l by lia. f_equal.
  rewrite countZ_cons, countZ_nil by lia. lia.
Qed.

Lemma tally_step data0 n :
  0 <= n < 2 ^ 32 - 1 -> marked (data0 + n) ->
  exists q, block_type bl (data0 + n) = Some q /\
    convert_mark (mark_of q) (tally data0 n) = (wanted (data0 + n), tally data0 (n + 1)).
Proof.
  intros Hn (q & E & Hq). exists q. split; [done|]. unfold tally. rewrite !countZ_snoc by lia.
  pose proof (countZ_range (fun j => wanted (data0 + j) =? 0) 0 n ltac:(lia)).
  pose proof (countZ_range (fun j => wanted (data0 + j) =? 3) 0 n ltac:(lia)).
  pose proof (countZ_range (fun j => wanted (data0 + j) =? 1) 0 n ltac:(lia)).
  assert (Ew : wanted (data0 + n) = mark_state (mark_of q)) by (unfold wanted; by rewrite E).
  rewrite !Ew. destruct (mark_of q); try done; cbn [convert_mark mark_state fst];
    rewrite (wrap_small 32) by (unfold in_u; lia);
    unfold GFS2_BLKST_FREE, GFS2_BLKST_USED, GFS2_BLKST_DINODE; cbn; rewrite ?Z.add_0_r; done.
Qed.

Lemma tally_total data0 n :
  0 <= n -> (forall j, 0 <= j < n -> marked (data0 + j)) ->
  let '(c0, c1, c2) := tally data0 n in c0 + c1 + c2 = n.
Proof.
  intros Hn H. unfold tally. revert H. pattern n. apply natlike_ind; [done| |done].
  intros x Hx IH H. rewrite <- Z.add_1_r, !countZ_snoc by lia.
  specialize (IH ltac:(intros; apply H; lia)).
  destruct (wanted_cases (data0 + x)) as [E|[E|E]]; [by apply H; lia|..]; rewrite E; cbn; lia.
Qed.

(** After the first [n] blocks of group [p], which was [r0] in [s0]. *)
Record repaired (s0 : gfs2_sbd) (p : nat) (r0 : rgrp_list) (n : Z) (st : pass5_state) (r : rgrp_list) : Prop := {
  rp_block : p5_block st = n;
  rp_count : p5_count st = tally (ri_data0 (rl_ri r0)) n;
  rp_answers : p5_answers st = [];
  rp_wf : fs_wf sz bsize (p5_sbd st);
  rp_list : sd_rglist (p5_sbd st) = <[p := r]> (sd_rglist s0);
  rp_ok : group_ok sz bsize r;
  rp_ri : rl_ri r = rl_ri r0;
  rp_rg : rl_rg r = rl_rg r0;
  rp_bits : rl_bits r = rl_bits r0;
  rp_state : forall j, 0 <= j ->
    rgd_state r j = if j <? n then wanted (ri_data0 (rl_ri r0) + j) else rgd_state r0 j
}.

(** The two cases in which the states differ are handled in the same way. *)
Lemma fix_cases {A} (old new : Z) (fix_it same : res A) : new < 4 ->
  (if (old =? GFS2_BLKST_UNLINKED) && (new =? GFS2_BLKST_FREE) then fix_it
   else if negb (old =? new) then if new >=? 4 then Fault else fix_it else same) = if old =? new then same else fix_it.
Proof.
  intros H. destruct (Z.geb_spec new 4); [lia|]. destruct (Z.eqb_spec old new) as [->|]; cbn [negb]; [|by destruct (_ && _)].
  destruct (_ && _) eqn:E; [|done]. apply andb_true_iff in E as [E1%Z.eqb_eq E2%Z.eqb_eq]. by rewrite E1 in E2.
Qed.

Lemma check_block_step s0 p r0 bits i b k st r :
  sd_rglist s0 !! p = Some r0 -> rl_bits r0 = Some bits -> bits !! i = Some b -> 0 <= k < 4 * bi_len b ->
  (forall j, 0 <= j < ri_data (rl_ri r0) -> marked (ri_data0 (rl_ri r0) + j)) ->
  repaired s0 p r0 (4 * bi_start b + k) st r ->
  exists st' r', check_block bl p i b (ri_data0 (rl_ri r0)) k st = Ok st' /\
    repaired s0 p r0 (4 * bi_start b + (k + 1)) st' r'.
Proof.
  intros Hp Hbits Hi Hk Hm R. set (n := 4 * bi_start b + k) in *. set (data0 := ri_data0 (rl_ri r0)) in *.
  assert (Hp' : sd_rglist (p5_sbd st) !! p = Some r).
  { rewrite (rp_list _ _ _ _ _ _ R). apply list_lookup_insert_eq. by eapply lookup_lt_Some. }
  pose proof (rp_ok _ _ _ _ _ _ R) as GO. pose proof (rp_ri _ _ _ _ _ _ R) as Eri.
  pose proof (group_range _ _ Hsz _ GO) as Hrg. pose proof GO as ((bits' & bhs & G) & _).
  assert (bits' = bits) as ->.
  { pose proof (g_bits _ _ _ _ _ G) as E. rewrite (rp_bits _ _ _ _ _ _ R), Hbits in E. by injection E. }
  destruct (read_part _ _ Hsz r bits bhs i b k G Hi Hk) as (h & byte & E1 & E2 & E3 & Hn). fold n in E3, Hn.
  rewrite Eri in Hn, Hrg. pose proof (g_small _ _ _ _ _ G) as Gs. rewrite Eri in Gs.
  pose proof (group_bsize _ _ Hsz _ _ _ G). fold data0 in Hrg.
  destruct (tally_step data0 n ltac:(lia) (Hm n Hn)) as (q & Eq & Ec).
  unfold check_block. rewrite Hp'. cbn [of_option mbind res_bind]. rewrite E1. cbn [of_option mbind res_bind].
  rewrite E2. cbn [of_option mbind res_bind].
  unfold GFS2_BIT_MASK. rewrite E3, <- (group_state _ _ _ _ _ _ G), (rp_block _ _ _ _ _ _ R).
  rewrite (wrap_small 64) by (unfold in_u; lia). rewrite Eq. cbn [of_option mbind res_bind].
  rewrite (rp_count _ _ _ _ _ _ R). fold data0. rewrite Ec, (rp_answers _ _ _ _ _ _ R).
  replace (4 * bi_start b + (k + 1)) with (n + 1) by (subst n; lia).
  assert (Hw : 0 <= wanted (data0 + n) <= 3) by (destruct (wanted_cases _ (Hm n Hn)) as [->|[->| ->]]; lia).
  rewrite (fix_cases (rgd_state r n) (wanted (data0 + n))) by lia.
  destruct (Z.eqb_spec (rgd_state r n) (wanted (data0 + n))) as [Es|Es].
  { exists (mkP5 (p5_sbd st) (n + 1) (tally data0 (n + 1)) []), r. split; [done|].
    split; try apply R; try done. intros j Hj. rewrite (rp_state _ _ _ _ _ _ R j Hj). fold data0.
    destruct (Z.ltb_spec j n), (Z.ltb_spec j (n + 1)); try done; try lia.
    assert (j = n) as -> by lia. rewrite <- Es, (rp_state _ _ _ _ _ _ R n Hj). by rewrite Z.ltb_irrefl. }
  unfold fix_bitmap. cbn [query].
  assert (Hd : in_data (rl_ri r) (data0 + n) = true).
  { apply (in_data_spec _ _ Hsz _ _ GO). rewrite Eri. fold data0. lia. }
  destruct (set_bitmap_owned _ _ Hsz _ _ _ _ _ (rp_wf _ _ _ _ _ _ R) Hp' Hd Hw)
    as (r' & s' & -> & -> & GO' & F1 & F2 & F3 & F4). cbn [mbind res_bind mret res_ret].
  eexists _, r'. split; [done|]. rewrite Eri in F1, F4. fold data0 in F4.
  split; cbn [p5_block p5_count p5_answers p5_sbd]; try done.
  - apply (set_rgd_wf _ _ _ _ r); [apply sd_set_prev_wf, R|done|done|congruence].
  - cbn. rewrite (rp_list _ _ _ _ _ _ R). apply list_insert_insert_eq.
  - rewrite F2. apply R.
  - rewrite F3. apply R.
  - intros j Hj. rewrite F4 by done. replace (data0 + n - data0) with n by lia.
    rewrite (rp_state _ _ _ _ _ _ R j Hj). fold data0.
    destruct (Z.eqb_spec j n) as [->|]; [by rewrite (proj2 (Z.ltb_lt n (n + 1))) by lia|].
    destruct (Z.ltb_spec j n), (Z.ltb_spec j (n + 1)); try done; lia.
Qed.

Lemma check_blocks_spec s0 p r0 bits i b m : forall k st r,
  sd_rglist s0 !! p = Some r0 -> rl_bits r0 = Some bits -> bits !! i = Some b ->
  0 <= k -> k + Z.of_nat m = 4 * bi_len b ->
  (forall j, 0 <= j < ri_data (rl_ri r0) -> marked (ri_data0 (rl_ri r0) + j)) ->
  repaired s0 p r0 (4 * bi_start b + k) st r ->
  exists st' r', check_block_status bl p i b (ri_data0 (rl_ri r0)) m k st = Ok st' /\
    repaired s0 p r0 (4 * bi_start b + 4 * bi_len b) st' r'.
Proof.
  induction m as [|m IH]; intros k st r Hp Hbits Hi Hk Hm Hmap R; cbn [check_block_status].
  - exists st, r. split; [done|]. by replace (4 * bi_len b) with k by lia.
  - destruct (check_block_step s0 p r0 bits i b k st r Hp Hbits Hi) as (st1 & r1 & -> & R1); [lia|done|done|].
    cbn [mbind res_bind]. by apply (IH (k + 1) st1 r1); try done; lia.
Qed.

Lemma check_parts_spec s0 p r0 bits : forall l first start i st r,
  sd_rglist s0 !! p = Some r0 -> rl_bits r0 = Some bits -> l = drop i bits -> l <> [] ->
  bits_ok sz bsize first start l ->
  (forall j, 0 <= j < ri_data (rl_ri r0) -> marked (ri_data0 (rl_ri r0) + j)) ->
  repaired s0 p r0 (4 * start) st r ->
  exists st' r', check_parts bl p (ri_data0 (rl_ri r0)) l i st = Ok st' /\
    repaired s0 p r0 (4 * (start + total_len l)) st' r'.
Proof.
  induction l as [|b l IH]; intros first start i st r Hp Hbits Hl Hne Hok Hmap R; [done|].
  apply bits_ok_cons in Hok as (_ & Hs & Hlen & _ & _ & Hk); [|done].
  assert (Hi : bits !! i = Some b).
  { replace i with (i + 0)%nat by lia. by rewrite <- lookup_drop, <- Hl. }
  assert (Hl' : l = drop (S i) bits) by (rewrite (drop_S _ _ _ Hi) in Hl; by injection Hl).
  cbn [check_parts]. destruct (check_blocks_spec s0 p r0 bits i b (Z.to_nat (bi_len b * 4)) 0 st r)
    as (st1 & r1 & -> & R1); try done; [lia|by rewrite Z.add_0_r, Hs|]. cbn [mbind res_bind].
  rewrite Hs in R1. change (total_len (b :: l)) with (bi_len b + total_len l).
  replace (4 * start + 4 * bi_len b) with (4 * (start + bi_len b)) in R1 by lia. destruct l as [|c l].
  - exists st1, r1. split; [done|]. by replace (start + (bi_len b + total_len [])) with (start + bi_len b) by (cbn; lia).
  - rewrite Z.add_assoc. by apply (IH false (start + bi_len b) (S i) st1 r1); try done; apply Hk.
Qed.

(** The group after its repair. *)
Definition group_repaired (r0 r : rgrp_list) : Prop :=
  group_ok sz bsize r /\ rl_ri r = rl_ri r0 /\ counts_ok r /\
  forall j, 0 <= j < ri_data (rl_ri r0) -> rgd_state r j = wanted (ri_data0 (rl_ri r0) + j).

Lemma update_rgrp_spec s p r0 :
  fs_wf sz bsize s -> sd_rglist s !! p = Some r0 ->
  (forall j, 0 <= j < ri_data (rl_ri r0) -> marked (ri_data0 (rl_ri r0) + j)) ->
  exists s' r, update_rgrp rgrp_out bl p s [] = Ok (s', []) /\ fs_wf sz bsize s' /\
    sd_rglist s' = <[p := r]> (sd_rglist s) /\ group_repaired r0 r.
Proof.
  intros W Hp Hmap. pose proof (Forall_lookup_1 _ _ _ _ (w_groups _ _ _ W) Hp) as GO.
  pose proof (group_range _ _ Hsz _ GO) as Hrg. pose proof GO as ((bits & bhs & G) & _).
  pose proof (g_total _ _ _ _ _ G) as Gt. pose proof (g_data _ _ _ _ _ G) as Gd.
  pose proof (g_small _ _ _ _ _ G) as Gs. pose proof (group_bsize _ _ Hsz _ _ _ G) as Hbs.
  unfold update_rgrp. rewrite Hp. cbn [of_option mbind res_bind]. rewrite (g_bits _ _ _ _ _ G).
  cbn [of_option mbind res_bind]. rewrite (g_length _ _ _ _ _ G), Nat2Z.id, take_ge by done.
  assert (R0 : repaired s p r0 (4 * 0) (mkP5 s 0 (0, 0, 0) []) r0).
  { split; cbn [p5_block p5_count p5_answers p5_sbd]; try done; [by rewrite list_insert_id|]. intros j Hj. destruct (Z.ltb_spec j (4 * 0)); [lia|done]. }
  destruct (check_parts_spec s p r0 bits bits true 0 0 (mkP5 s 0 (0, 0, 0) []) r0 Hp (g_bits _ _ _ _ _ G) eq_refl)
    as (st & r & -> & R); [|apply G|done|done|].
  { pose proof (g_ok _ _ _ _ _ G). by intros ->. }
  cbn [mbind res_bind]. rewrite Z.add_0_l, Gt, <- Gd in R. set (data0 := ri_data0 (rl_ri r0)) in *.
  set (data := ri_data (rl_ri r0)) in *.
  assert (Hp1 : sd_rglist (p5_sbd st) !! p = Some r).
  { rewrite (rp_list _ _ _ _ _ _ R). apply list_lookup_insert_eq. by eapply lookup_lt_Some. }
  rewrite (rp_count _ _ _ _ _ _ R). fold data0. pose proof (tally_total data0 data ltac:(lia) Hmap) as Ht.
  unfold tally in *. set (c0 := countZ (fun j => _ =? 0) 0 data) in *. set (c1 := countZ (fun j => _ =? 3) 0 data) in *.
  set (c2 := countZ (fun j => _ =? 1) 0 data) in *. rewrite Hp1. cbn [of_option mbind res_bind].
  replace (data - c0 - c1) with c2 by lia.
  assert (0 <= c2 <= data) by (apply countZ_range; lia). rewrite (wrap_small 32), Z.eqb_refl by (unfold in_u; lia).
  cbn [negb]. rewrite (rp_answers _ _ _ _ _ _ R). cbn [query]. set (r2 := rl_set_rg r _).
  assert (GO2 : group_ok sz bsize r2) by (apply rl_set_rg_ok, R).
  assert (W1 : fs_wf sz bsize (p5_sbd st)) by apply R.
  assert (St2 : forall j, 0 <= j < data -> rgd_state r2 j = wanted (data0 + j)).
  { intros j Hj. change (rgd_state r2 j) with (rgd_state r j). rewrite (rp_state _ _ _ _ _ _ R) by lia.
    by rewrite (proj2 (Z.ltb_lt j data)) by lia. }
  assert (F : forall r3, group_ok sz bsize r3 -> rl_ri r3 = rl_ri r -> rl_rg r3 = rl_rg r2 ->
    (forall j, rgd_state r3 j = rgd_state r2 j) ->
    fs_wf sz bsize (set_rgd (p5_sbd st) p r3) /\ sd_rglist (set_rgd (p5_sbd st) p r3) = <[p := r3]> (sd_rglist s) /\
    group_repaired r0 r3).
  { intros r3 G3 E1 E2 E3. split; [by eapply set_rgd_wf|]. split.
    - cbn. rewrite (rp_list _ _ _ _ _ _ R). apply list_insert_insert_eq.
    - split; [done|]. split; [by rewrite E1, (rp_ri _ _ _ _ _ _ R)|]. fold data0 data. split.
      + unfold counts_ok. rewrite E1, E2, (rp_ri _ _ _ _ _ _ R). fold data. cbn [r2 rl_set_rg rl_rg rg_free rg_dinodes].
        split; apply countZ_ext; intros j Hj; rewrite E3, St2 by lia; done.
      + intros j Hj. by rewrite E3, St2. }
  destruct (_ || _).
  - destruct (write_rg_ok sz bsize Hsz rgrp_out r2 GO2) as (r3 & -> & G3 & E1 & E2 & E3).
    cbn [mbind res_bind mret res_ret]. exists (set_rgd (p5_sbd st) p r3), r3. split; [done|]. by apply F.
  - exists (set_rgd (p5_sbd st) p r2), r2. split; [done|]. by apply F.
Qed.

Lemma pass5_loop_spec n : forall s p,
  fs_wf sz bsize s -> (p + n = length (sd_rglist s))%nat ->
  (forall i r0, (p <= i)%nat -> sd_rglist s !! i = Some r0 -> forall j, 0 <= j < ri_data (rl_ri r0) ->
     marked (ri_data0 (rl_ri r0) + j)) ->
  exists s', pass5_loop rgrp_out bl n p s [] = Ok (s', []) /\ fs_wf sz bsize s' /\
    (forall i, (i < p)%nat -> sd_rglist s' !! i = sd_rglist s !! i) /\
    length (sd_rglist s') = length (sd_rglist s) /\
    forall i r0, (p <= i)%nat -> sd_rglist s !! i = Some r0 ->
      exists r, sd_rglist s' !! i = Some r /\ group_repaired r0 r.
Proof.
  induction n as [|n IH]; intros s p W Hn Hmap; cbn [pass5_loop].
  - exists s. split; [done|]. split; [done|]. split; [done|]. split; [done|].
    intros i r0 Hi Hl. apply lookup_lt_Some in Hl. lia.
  - destruct (lookup_lt_is_Some_2 (sd_rglist s) p ltac:(lia)) as [r0 Hp].
    destruct (update_rgrp_spec s p r0 W Hp) as (s1 & r & -> & W1 & E1 & GR); [by apply (Hmap p)|].
    cbn [mbind res_bind]. destruct (IH s1 (S p)) as (s' & -> & W' & K1 & K2 & K3); [done| | |].
    + rewrite E1, length_insert. lia.
    + intros i x Hi Hx. rewrite E1, list_lookup_insert_ne in Hx by lia. apply (Hmap i x); [lia|done].
    + exists s'. split; [done|]. split; [done|]. split; [|split].
      * intros i Hi. rewrite K1, E1 by lia. by rewrite list_lookup_insert_ne by lia.
      * by rewrite K2, E1, length_insert.
      * intros i x Hi Hx. destruct (decide (i = p)) as [->|Hne].
        -- rewrite Hp in Hx. injection Hx as <-. exists r. split; [|done]. rewrite K1, E1 by lia.
           apply list_lookup_insert_eq. by eapply lookup_lt_Some.
        -- apply K3; [lia|]. by rewrite E1, list_lookup_insert_ne by lia.
Qed.

(** C25: The last pass of fsck, with every question answered yes: when the block map
    has a valid mark for every block that a group describes, the pass succeeds on
    every well-formed file system, whatever states its bitmaps and counts had;
    afterwards the state of every block is the one its mark stands for, and the
    counts of every group agree with its bitmap. *)
Theorem pass5_repairs s :
  fs_wf sz bsize s -> (forall blk v, fs_state s blk = Some v -> marked blk) ->
  exists s', pass5 rgrp_out bl s [] = Ok (s', []) /\ fs_ok sz bsize s' /\
    forall blk, fs_state s' blk = (_ ← fs_state s blk; Some (wanted blk)).
Proof.
  intros W Hmap.
  destruct (pass5_loop_spec (length (sd_rglist s)) s 0 W eq_refl) as (s' & E & W' & _ & Hlen & K).
  { intros i r0 _ Hi j Hj. pose proof (Forall_lookup_1 _ _ _ _ (w_groups _ _ _ W) Hi) as GO.
    eapply Hmap. apply (fs_state_owner sz bsize Hsz s i r0); [done|done|]. apply (in_data_spec _ _ Hsz _ _ GO). lia. }
  assert (K' : forall i r, sd_rglist s' !! i = Some r -> exists r0, sd_rglist s !! i = Some r0 /\ group_repaired r0 r).
  { intros i r Hi. destruct (lookup_lt_is_Some_2 (sd_rglist s) i) as [r0 Hr0].
    - rewrite <- Hlen. by eapply lookup_lt_Some.
    - destruct (K i r0 ltac:(lia) Hr0) as (r' & Hr' & GR). rewrite Hi in Hr'. injection Hr' as <-. eauto. }
  exists s'. split; [done|]. split.
  - split; [done|]. apply Forall_lookup. intros i r Hi. destruct (K' i r Hi) as (r0 & _ & GR). apply GR.
  - intros blk. destruct (fs_state s blk) as [v|] eqn:Ev.
    + apply fs_state_Some in Ev as (p & r0 & Hp & Hd & _). destruct (K p r0 ltac:(lia) Hp) as (r & Hr & GR).
      pose proof (Forall_lookup_1 _ _ _ _ (w_groups _ _ _ W) Hp) as GO.
      destruct GR as (_ & Eri & _ & St). rewrite (fs_state_owner sz bsize Hsz s' p r) by (try done; by rewrite Eri).
      apply (in_data_spec _ _ Hsz _ _ GO) in Hd. cbn [mbind option_bind]. f_equal. rewrite Eri, St by lia. f_equal. lia.
    + cbn [mbind option_bind]. destruct (fs_state s' blk) as [v'|] eqn:Ev'; [|done].
      apply fs_state_Some in Ev' as (p & r & Hr & Hd & _). destruct (K' p r Hr) as (r0 & Hp & GR).
      destruct GR as (_ & Eri & _). rewrite (fs_state_owner sz bsize Hsz s p r0) in Ev by (try done; by rewrite <- Eri). done.
Qed.

(** A block with the mark for a bad block: [convert_mark] returns -1, and the message
    about the difference reads the name of state 255 from an array of four. *)
Theorem bad_block_outside s p r i b k count answers :
  sd_rglist s !! p = Some r -> group_ok sz bsize r ->
  (exists bits, rl_bits r = Some bits /\ bits !! i = Some b) -> 0 <= k < 4 * bi_len b ->
  block_type bl (ri_data0 (rl_ri r) + (4 * bi_start b + k)) = Some (mark_value gfs2_bad_block) ->
  check_block bl p i b (ri_data0 (rl_ri r)) k (mkP5 s (4 * bi_start b + k) count answers) = Fault.
Proof.
  intros Hp GO (bits & Eb & Hi) Hk Hq. pose proof (group_range _ _ Hsz _ GO) as Hrg.
  destruct GO as ((bits' & bhs & G) & _).
  assert (bits' = bits) as -> by (pose proof (g_bits _ _ _ _ _ G) as E; rewrite Eb in E; by injection E).
  destruct (read_part _ _ Hsz r bits bhs i b k G Hi Hk) as (h & byte & E1 & E2 & E3 & Hn).
  unfold check_block. cbn [p5_sbd p5_block p5_count]. rewrite Hp. cbn [of_option mbind res_bind].
  rewrite E1. cbn [of_option mbind res_bind]. rewrite E2. cbn [of_option mbind res_bind].
  rewrite (wrap_small 64) by (unfold in_u; lia). rewrite Hq. cbn [of_option mbind res_bind].
  destruct count as [[c0 c1] c2]. change (convert_mark (mark_of (mark_value gfs2_bad_block)) (c0, c1, c2))
    with (255, (c0, c1, c2)). cbn iota. change (255 =? GFS2_BLKST_FREE) with false. rewrite andb_false_r.
  destruct (Z.eqb_spec (Z.land (Z.shiftr byte (2 * (k mod 4))) GFS2_BIT_MASK) 255) as [E|_]; [|done].
  exfalso. unfold GFS2_BIT_MASK in E. assert (H : Z.land (Z.shiftr byte (2 * (k mod 4))) 3 < 4).
  { change 3 with (Z.ones 2). rewrite Z.land_ones by lia. by apply Z.mod_pos_bound. }
  lia.
Qed.

End Fsck.
