(* ===== verification/Gfs2Sample.v ===== *)
(** * A sample GFS2 file system

    A small file system, made by the model of mkfs, on which the theorems on resource
    groups are applied: blocks of 512 bytes, a device of 40 blocks, and the sizes
    that the structures have on disk. *)

From S2P Require Import Prelude Gfs2Bits Gfs2BitsThm Gfs2Rgrp Gfs2RgrpThm Gfs2LayoutThm Gfs2FsckThm.
Open Scope Z_scope.

Definition sample_sz : sizes := mkSizes 24 128.

(** Encodings that write the counts, and the type of a bitmap block, big endian. *)
Definition put_be32 (off : nat) (v : Z) (d : list Z) : list Z :=
  <[off := u8 (Z.shiftr v 24)]> (<[(off + 1)%nat := u8 (Z.shiftr v 16)]>
    (<[(off + 2)%nat := u8 (Z.shiftr v 8)]> (<[(off + 3)%nat := u8 v]> d))).

Definition sample_rgrp_out (rg : gfs2_rgrp) (d : list Z) : list Z :=
  put_be32 24 (rg_flags rg) (put_be32 28 (rg_free rg) (put_be32 32 (rg_dinodes rg) d)).

Definition sample_rb_out (d : list Z) : list Z := put_be32 0 0x01161970 (put_be32 4 3 d).

Lemma put_be32_length off v d : length (put_be32 off v d) = length d.
Proof. unfold put_be32. by rewrite !length_insert. Qed.

Lemma put_be32_tail off v d n : (off + 3 < n)%nat -> drop n (put_be32 off v d) = drop n d.
Proof. intros H. unfold put_be32. by rewrite !drop_insert_lt by lia. Qed.

Lemma put_be32_bytes off v d : Forall (in_u 8) d -> Forall (in_u 8) (put_be32 off v d).
Proof. intros H. unfold put_be32. repeat apply Forall_insert; try done; by apply wrap_range. Qed.

#[export] Instance sample_rgrp_encoding : RgrpEncoding sample_sz sample_rgrp_out.
Proof.
  split; intros rg d; unfold sample_rgrp_out.
  - by rewrite !put_be32_length.
  - by rewrite !put_be32_tail by (cbn; lia).
  - intros H. by repeat apply put_be32_bytes.
Qed.

#[export] Instance sample_rb_encoding : RbEncoding sample_sz sample_rb_out.
Proof.
  split; intros d; unfold sample_rb_out.
  - by rewrite !put_be32_length.
  - by rewrite !put_be32_tail by (cbn; lia).
  - intros H. by repeat apply put_be32_bytes.
Qed.

Definition sample_device : gfs2_sbd := mkSbd 512 GFS2_DEFAULT_RGSIZE 2 0 40 0 0 0 0 0 0 [] None.

Definition sample_layout : gfs2_sbd :=
  match compute_rgrp_layout sample_device false with
  | Ok s => s
  | _ => sample_device
  end.

Definition sample_fs : gfs2_sbd :=
  match build_rgrps sample_sz sample_rgrp_out sample_rb_out [] sample_layout true with
  | Ok (s, _) => s
  | _ => sample_layout
  end.

Lemma sample_sizes : 0 <= sz_meta_header sample_sz /\ 0 <= sz_rgrp sample_sz.
Proof. cbn. lia. Qed.

Lemma sample_fs_ok : fs_ok sample_sz 512 sample_fs.
Proof.
  assert (C : chain sample_sz 512 3 (sd_rglist sample_layout)).
  { assert (E : sd_rglist sample_layout = [new_rgrp 3 37]) by (vm_compute; reflexivity). rewrite E.
    split; [done|]. split; [done|]. split; [done|]. split; [|cbn; lia].
    split; [cbn; lia|]. split; [vm_compute; done|cbn; lia]. }
  destruct (build_loop_spec sample_sz 512 ltac:(cbn; lia) ltac:(cbn; lia) ltac:(lia) sample_rgrp_out sample_rb_out
    [] sample_layout 3 (sd_rglist sample_layout)) as (l' & s' & m' & E & F & Hb); [done|constructor|lia|done|].
  assert (Es : sample_fs = sd_set_rglist s' l') by (unfold sample_fs, build_rgrps; by rewrite E).
  rewrite Es. by eapply built_wf.
Qed.

(** ** Applications *)

Lemma set_get_bitmap_witness :
  fs_state sample_fs 10 = Some GFS2_BLKST_FREE /\
  exists s', gfs2_set_bitmap sample_fs 10 GFS2_BLKST_USED = Ok (0, s') /\
    fs_state s' 10 = Some GFS2_BLKST_USED /\ fs_state s' 11 = Some GFS2_BLKST_FREE.
Proof.
  split; [vm_compute; reflexivity|].
  destruct (set_get_bitmap sample_sz 512 sample_sizes sample_fs 10 GFS2_BLKST_FREE GFS2_BLKST_USED)
    as (s' & E & _ & H1 & H2 & _); [apply sample_fs_ok|vm_compute; reflexivity|vm_compute; done|].
  exists s'. split; [exact E|]. split; [exact H1|]. rewrite (H2 11) by discriminate. vm_compute. reflexivity.
Defined.

Lemma blk2rgrpd_correct_witness :
  fst (gfs2_blk2rgrpd sample_fs 10) = Some O /\
  exists r, sd_rglist sample_fs !! O = Some r /\ covers r 10 = true.
Proof.
  split; [vm_compute; reflexivity|].
  apply (blk2rgrpd_correct sample_sz 512 sample_sizes sample_fs 10 O); [apply sample_fs_ok|vm_compute; reflexivity].
Defined.

Lemma blk_alloc_correct_witness :
  match blk_alloc_i sample_sz sample_rgrp_out sample_fs DINODE with
  | Ok (blk, s') => fs_state sample_fs blk = Some GFS2_BLKST_FREE /\ fs_ok sample_sz 512 s' /\
      fs_state s' blk = Some GFS2_BLKST_DINODE
  | _ => False
  end.
Proof.
  pose proof (blk_alloc_correct sample_sz 512 sample_sizes sample_rgrp_out sample_fs DINODE sample_fs_ok) as H.
  destruct (blk_alloc_i sample_sz sample_rgrp_out sample_fs DINODE) as [[blk s']| |] eqn:E.
  - destruct H as (H1 & H2 & H3 & _). split; [exact H1|]. split; [exact H2|exact H3].
  - vm_compute in E. discriminate E.
  - exact H.
Defined.

(** The sample with its first block in use. *)
Definition sample_used : gfs2_sbd :=
  match blk_alloc_i sample_sz sample_rgrp_out sample_fs DATA with
  | Ok (_, s') => s'
  | _ => sample_fs
  end.

Lemma sample_used_ok : fs_ok sample_sz 512 sample_used.
Proof.
  destruct sample_fs_ok as [W C].
  destruct (lookup_lt_is_Some_2 (sd_rglist sample_fs) 0 ltac:(vm_compute; lia)) as [r Hr].
  pose proof (Forall_lookup_1 _ _ _ _ (w_groups _ _ _ W) Hr) as G. pose proof (Forall_lookup_1 _ _ _ _ C Hr) as Cr.
  assert (Hf : rg_free (rl_rg r) <> 0) by (vm_compute in Hr; injection Hr as <-; vm_compute; discriminate).
  destruct (alloc_in_ok sample_sz 512 sample_sizes sample_rgrp_out DATA r G Cr Hf)
    as (k & r' & E & _ & _ & _ & G' & C' & Er & _).
  assert (Es : sample_used = sd_set_alloced (set_rgd sample_fs 0 r') (u64 (sd_blks_alloced sample_fs + 1))
    (sd_dinodes_alloced sample_fs)).
  { unfold sample_used, blk_alloc_i. pose proof (free_rgrp_spec (sd_rglist sample_fs) 0) as F.
    destruct (sd_rglist sample_fs) as [|x l]; [discriminate Hr|]. cbn in Hr. injection Hr as ->. cbn [free_rgrp].
    unfold c_true. rewrite (proj2 (Z.eqb_neq _ _) Hf). cbn [negb]. change (sd_bsize sample_fs) with 512. by rewrite E. }
  rewrite Es. destruct (set_rgd_ok sample_sz 512 sample_fs 0 r r' (conj W C) Hr G' C' Er) as [W2 C2].
  split; [by apply sd_set_alloced_wf|exact C2].
Qed.

Lemma free_block_correct_witness :
  fs_state sample_used 4 = Some GFS2_BLKST_USED /\
  exists s', gfs2_free_block sample_rgrp_out sample_used 4 = Ok s' /\ fs_state s' 4 = Some GFS2_BLKST_FREE.
Proof.
  split; [vm_compute; reflexivity|].
  destruct (free_block_correct sample_sz 512 sample_sizes sample_rgrp_out sample_used 4) as (s' & E & _ & H & _);
    [apply sample_used_ok|vm_compute; reflexivity|]. exists s'. split; [exact E|exact H].
Defined.

Lemma how_many_rgrps_terminates_witness :
  exists nrgrp rs, how_many_rgrps sample_device false = Ok (nrgrp, rs) /\ rs < 2048 + GFS2_DEFAULT_RGSIZE.
Proof.
  destruct (how_many_rgrps_terminates sample_device false) as (n & rs & E & H & _);
    [cbn; lia|cbn; lia|cbn; unfold GFS2_DEFAULT_RGSIZE; lia|]. exists n, rs. split; [exact E|apply H].
Defined.

Lemma rgblocks2bitblocks_correct_witness :
  exists data bb, rgblocks2bitblocks sample_sz 512 4194304 = Some (data, bb) /\
    4194304 - 4 <= data + bb <= 4194304.
Proof.
  destruct (rgblocks2bitblocks_correct sample_sz 512) with (rgblocks := 4194304)
    as (data & bb & E & _ & _ & _ & H); [cbn; lia|cbn; lia|lia|lia|].
  exists data, bb. split; [exact E|exact H].
Defined.

Lemma compute_bitstructs_correct_witness :
  exists bits rgd' m', gfs2_compute_bitstructs sample_sz [] 512
    (mkRgd 3 1000 (mkRi 3 1 4 992 248) (mkRg 0 992 0) None None) = (0, rgd', m') /\ rl_bits rgd' = Some bits.
Proof.
  destruct (compute_bitstructs_correct sample_sz 512) with (m := @nil (option Z))
    (rgd := mkRgd 3 1000 (mkRi 3 1 4 992 248) (mkRg 0 992 0) None None) as (bits & rgd' & m' & E & H & _);
    [cbn; lia|cbn; lia| |cbn; lia|constructor|].
  - split; try (cbn; lia). split; vm_compute; done.
  - exists bits, rgd', m'. split; [exact E|exact H].
Defined.

Lemma mkfs_consistent_witness :
  exists s1 s2 m', compute_rgrp_layout sample_device false = Ok s1 /\
    build_rgrps sample_sz sample_rgrp_out sample_rb_out [] s1 true = Ok (s2, m') /\ fs_ok sample_sz 512 s2.
Proof.
  destruct (mkfs_consistent sample_sz 512) with (rgrp_out := sample_rgrp_out) (rb_out := sample_rb_out)
    (m := @nil (option Z)) (s := sample_device) (spec := false) as (s1 & s2 & m' & E1 & _ & _ & E2 & H & _);
    [cbn; lia|cbn; lia|lia|typeclasses eauto|typeclasses eauto|reflexivity|reflexivity|constructor|lia
    |cbn; lia|cbn; lia|cbn; lia|cbn; lia|cbn; unfold GFS2_DEFAULT_RGSIZE; lia|right; reflexivity
    |vm_compute; reflexivity|vm_compute; reflexivity|].
  exists s1, s2, m'. split; [exact E1|]. split; [exact E2|exact H].
Defined.

Lemma next_rg_meta_next_witness :
  exists r, sd_rglist sample_used !! O = Some r /\ gfs2_next_rg_meta r 4 false = Ok None.
Proof.
  destruct (lookup_lt_is_Some_2 (sd_rglist sample_used) 0 ltac:(vm_compute; lia)) as [r Hr].
  pose proof (Forall_lookup_1 _ _ _ _ (w_groups _ _ _ (proj1 sample_used_ok)) Hr) as G.
  exists r. split; [exact Hr|].
  destruct (next_rg_meta_next sample_sz 512 sample_sizes) with (rgd := r) (block := 4) (first := false)
    as (x & E & _); [exists 61; reflexivity|exists 48; reflexivity|exact G| |].
  - vm_compute in Hr. injection Hr as <-. cbn. lia.
  - rewrite E. vm_compute in Hr. injection Hr as <-. vm_compute in E. injection E as <-. reflexivity.
Defined.

(** A block map that marks every block as a directory. *)
Definition sample_map : gfs2_bmap := mkBmap 40 20 (replicate 20 0x33).

Lemma pass5_repairs_witness :
  exists s', pass5 sample_rgrp_out sample_map sample_used [] = Ok (s', []) /\ fs_ok sample_sz 512 s' /\
    fs_state s' 4 = Some GFS2_BLKST_DINODE.
Proof.
  destruct (pass5_repairs sample_sz 512 sample_sizes sample_rgrp_out sample_map sample_used) as (s' & E & H & F).
  - apply sample_used_ok.
  - intros blk v Hv. apply fs_state_Some in Hv as (p & r & Hp & Hd & _).
    assert (T : 4 <= blk < 40).
    { assert (Er : rl_ri r = mkRi 3 1 4 36 9)
        by (vm_compute in Hp; destruct p; [injection Hp as <-; reflexivity|discriminate Hp]).
      rewrite Er in Hd. change ((4 <=? blk) && (blk <? 40) = true) in Hd.
      apply andb_prop in Hd as [H1 H2]. apply Z.leb_le in H1. apply Z.ltb_lt in H2. lia. }
    assert (M : forallb (fun b => match block_type sample_map b with Some 3 => true | _ => false end) (seqZ 4 36) = true)
      by (vm_compute; reflexivity).
    rewrite forallb_forall in M. specialize (M blk ltac:(apply list_elem_of_In, elem_of_seqZ; lia)).
    destruct (block_type sample_map blk) as [q|] eqn:Eq; [|discriminate M].
    exists q. split; [exact Eq|]. destruct q as [|[[]|[]|]|]; try discriminate M. discriminate.
  - exists s'. split; [exact E|]. split; [exact H|]. rewrite F. vm_compute. reflexivity.
Defined.
