(* ===== verification/Gfs2Field.v ===== *)
(** * Fields in blocks of a disk

    A block is a list of bytes, a disk a function from numbers to blocks.  The numbers in a
    block are stored with the most significant byte first. *)

From stdpp Require Import functions.
From S2P Require Import Prelude PlockWire.
Open Scope Z_scope.

Definition block : Type := list Z.
Definition disk : Type := Z -> block.

Definition be_get (n off : nat) (b : block) : Z := load BigEndian (take n (drop off b)).
Definition be_set (n off : nat) (v : Z) (b : block) : block :=
  take off b ++ store BigEndian n v ++ drop (off + n) b.

Lemma disk_insert_eq (d : disk) (x : Z) (b : block) : (<[x := b]> d) x = b.
Proof. apply fn_lookup_insert. Qed.

Lemma disk_insert_ne (d : disk) (x y : Z) (b : block) : x <> y -> (<[x := b]> d) y = d y.
Proof. apply fn_lookup_insert_ne. Qed.

Lemma be_get_bytes (n off : nat) (b : block) : Forall is_byte b -> in_u (8 * Z.of_nat n) (be_get n off b).
Proof.
  intros Hb. unfold be_get, load. set (l := take n (drop off b)).
  assert (Forall is_byte (rev l)) as Hr by (by apply Forall_rev, Forall_take, Forall_drop).
  apply le_value_range in Hr. rewrite length_rev in Hr.
  assert (length l <= n)%nat by (unfold l; rewrite length_take; lia).
  unfold in_u in *. split; [lia|]. eapply Z.lt_le_trans; [apply Hr|]. apply Z.pow_le_mono_r; lia.
Qed.

Definition field (n off : nat) (b : block) : list Z := take n (drop off b).

Lemma store_length n v : length (store BigEndian n v) = n.
Proof. cbn. by rewrite length_rev, le_bytes_length. Qed.

Lemma load_store n v : in_u (8 * Z.of_nat n) v -> load BigEndian (store BigEndian n v) = v.
Proof. intros Hv. cbn. rewrite rev_involutive. by apply le_value_bytes. Qed.

Lemma be_set_length n off v b : (off + n <= length b)%nat -> length (be_set n off v b) = length b.
Proof. intros H. unfold be_set. rewrite !length_app, store_length, length_take, length_drop. lia. Qed.

Lemma be_set_inside n off v b : (off + n <= length b)%nat -> field n off (be_set n off v b) = store BigEndian n v.
Proof.
  intros H. unfold field, be_set. rewrite drop_app_length' by (rewrite length_take; lia).
  by rewrite take_app_length' by (by rewrite store_length).
Qed.

Lemma be_set_before n off n' off' v b : (off' + n' <= off)%nat -> (off + n <= length b)%nat ->
  field n' off' (be_set n off v b) = field n' off' b.
Proof.
  intros Hd H. unfold field, be_set. rewrite !take_drop_commute. f_equal.
  rewrite take_app_le by (rewrite length_take; lia). rewrite take_take. f_equal. lia.
Qed.

Lemma be_set_after n off n' off' v b : (off + n <= off')%nat -> (off + n <= length b)%nat ->
  field n' off' (be_set n off v b) = field n' off' b.
Proof.
  intros Hd H. unfold field, be_set. f_equal. rewrite app_assoc.
  rewrite drop_app_ge by (rewrite length_app, store_length, length_take; lia).
  rewrite length_app, store_length, length_take, drop_drop. f_equal. lia.
Qed.

Lemma be_set_twice n off v w b : (off + n <= length b)%nat -> be_set n off v (be_set n off w b) = be_set n off v b.
Proof.
  intros H. unfold be_set. f_equal; [|f_equal].
  - rewrite take_app_le by (rewrite length_take; lia). rewrite take_take. f_equal. lia.
  - rewrite app_assoc, drop_app_length'; [done|]. rewrite length_app, store_length, length_take. lia.
Qed.

Lemma be_set_field n off v b : (off + n <= length b)%nat -> field n off b = store BigEndian n v -> be_set n off v b = b.
Proof.
  intros H E. unfold be_set. rewrite <- E. unfold field. rewrite <- drop_drop, take_drop. apply take_drop.
Qed.

Lemma be_get_field n off b v : in_u (8 * Z.of_nat n) v -> field n off b = store BigEndian n v -> be_get n off b = v.
Proof. intros Hv E. unfold be_get. fold (field n off b). rewrite E. by apply load_store. Qed.

Lemma field_zeros n off k : (off + n <= k)%nat -> field n off (replicate k 0) = store BigEndian n 0.
Proof.
  intros H. unfold field. rewrite drop_replicate, take_replicate. replace (n `min` (k - off))%nat with n by lia.
  apply replicate_as_Forall. split; [apply store_length|]. cbn. apply Forall_rev.
  clear. induction n as [|m IH]; constructor; [done|apply IH].
Qed.
