(* ===== verification/Gfs2Log.v ===== *)
(** * The journal of GFS2 and its recovery

    [src/gfs2/libgfs2/recovery.c] and [src/gfs2/fsck/fs_recovery.c]: a journal is a circle
    of blocks; log headers with rising sequence numbers divide it, and the last one is its
    head.  Recovery finds the head, and when the journal is dirty goes twice over the blocks
    from the tail to the head: once for the revokes, once to copy the journaled blocks to
    their places; then it writes a header that says the journal is clean.

    The offsets and constants of the structures on disk come from a header of the kernel and
    are parameters ([format]); so is the map from the blocks of the journal to those of the
    disk ([j_map], what [block_map] gives for its inode, 0 for a hole).  The disk is a
    function from block numbers to bytes; buffers that are changed are written when they are
    released.  Messages and counts for messages are left out. *)

From stdpp Require Import functions.
From S2P Require Import Prelude PlockWire DiskHash Gfs2Field.
Open Scope Z_scope.

(** ** Structures *)

(** Offsets, sizes and constants of [gfs2_ondisk.h]. *)
Record format := mkFormat {
  f_magic : nat; f_type : nat; f_format : nat; f_pad0 : nat; f_pad1 : nat;
  f_sequence : nat; f_flags : nat; f_tail : nat; f_blkno : nat; f_hash : nat;
  f_ld_type : nat; f_ld_length : nat; f_ld_data1 : nat;
  f_mh_size : nat; f_lh_size : nat; f_ld_size : nat;
  GFS2_MAGIC : Z;
  GFS2_METATYPE_LH : Z; GFS2_METATYPE_LD : Z; GFS2_METATYPE_LB : Z; GFS2_FORMAT_LH : Z;
  GFS2_LOG_HEAD_UNMOUNT : Z;
  GFS2_LOG_DESC_METADATA : Z; GFS2_LOG_DESC_REVOKE : Z; GFS2_LOG_DESC_JDATA : Z
}.

Record log_header := mkLh {
  lh_magic : Z;
  lh_type : Z;
  lh_format : Z;
  lh_sequence : Z;
  lh_flags : Z;
  lh_tail : Z;
  lh_blkno : Z;
  lh_hash : Z
}.

(** A journal: its length in blocks and its blocks on the disk. *)
Record journal := mkJournal { jd_blocks : Z; j_map : Z -> Z; j_bsize : Z }.

Definition EIO : Z := 5.

Section log.
Context (F : format) (J : journal).

Definition gfs2_log_header_in (b : block) : log_header :=
  mkLh (be_get 4 (f_magic F) b) (be_get 4 (f_type F) b) (be_get 4 (f_format F) b) (be_get 8 (f_sequence F) b)
    (be_get 4 (f_flags F) b) (be_get 4 (f_tail F) b) (be_get 4 (f_blkno F) b) (be_get 4 (f_hash F) b).

Definition gfs2_meta_header_out (magic type fmt : Z) (b : block) : block :=
  be_set 4 (f_pad1 F) 0 (be_set 8 (f_pad0 F) 0
    (be_set 4 (f_format F) fmt (be_set 4 (f_type F) type (be_set 4 (f_magic F) magic b)))).

Definition gfs2_log_header_out (lh : log_header) (b : block) : block :=
  be_set 4 (f_hash F) (lh_hash lh) (be_set 4 (f_blkno F) (lh_blkno lh) (be_set 4 (f_tail F) (lh_tail lh)
    (be_set 4 (f_flags F) (lh_flags lh) (be_set 8 (f_sequence F) (lh_sequence lh)
      (gfs2_meta_header_out (lh_magic lh) (lh_type lh) (lh_format lh) b))))).

Definition gfs2_check_meta (b : block) (type : Z) : bool :=
  negb ((negb (be_get 4 (f_magic F) b =? GFS2_MAGIC F)) || (c_true type && negb (be_get 4 (f_type F) b =? type))).

(** ** Blocks of the journal *)

Definition gfs2_replay_incr_blk (blk : Z) : Z := let b := u32 (blk + 1) in if b =? jd_blocks J then 0 else b.

Definition gfs2_replay_read_block (d : disk) (blk : Z) : option block :=
  if j_map J blk =? 0 then None else Some (d (j_map J blk)).

(** Results of [get_log_header]: an error, 1, or the header. *)
Inductive lh_result := LhErr | LhBad | LhGood (lh : log_header).

Definition lh_checksum (b : block) : Z := gfs2_disk_hash (take (f_lh_size F) (be_set 4 (f_hash F) 0 b)).

Definition get_log_header (d : disk) (blk : Z) : lh_result :=
  match gfs2_replay_read_block d blk with
  | None => LhErr
  | Some b =>
      let lh := gfs2_log_header_in b in
      if negb (lh_blkno lh =? blk) || negb (lh_hash lh =? lh_checksum b) then LhBad else LhGood lh
  end.

(** ** The head of the journal *)

(** In what follows the outer [None] is a loop that has not ended within [fuel], the inner
    one [-EIO]. *)
Fixpoint find_good_lh_from (fuel : nat) (d : disk) (orig blk : Z) : option (option (Z * log_header)) :=
  match fuel with
  | O => None
  | S fuel' =>
      match get_log_header d blk with
      | LhErr => Some None
      | LhGood lh => Some (Some (blk, lh))
      | LhBad =>
          let blk' := gfs2_replay_incr_blk blk in
          if blk' =? orig then Some None else find_good_lh_from fuel' d orig blk'
      end
  end.

Definition find_good_lh (fuel : nat) (d : disk) (blk : Z) : option (option (Z * log_header)) :=
  find_good_lh_from fuel d blk blk.

Fixpoint jhead_scan_from (fuel : nat) (d : disk) (head : log_header) (blk : Z) : option (option log_header) :=
  match fuel with
  | O => None
  | S fuel' =>
      let blk := gfs2_replay_incr_blk blk in
      match get_log_header d blk with
      | LhErr => Some None
      | LhBad => jhead_scan_from fuel' d head blk
      | LhGood lh =>
          if lh_sequence lh =? lh_sequence head then Some None
          else if lh_sequence lh <? lh_sequence head then Some (Some head)
          else jhead_scan_from fuel' d lh blk
      end
  end.

Definition jhead_scan (fuel : nat) (d : disk) (head : log_header) : option (option log_header) :=
  jhead_scan_from fuel d head (lh_blkno head).

(** The search between [blk_1] and [blk_2]: a header of the last run of sequence numbers.
    [n] is enough for the loops in it. *)
Fixpoint jhead_search (fuel n : nat) (d : disk) (blk_1 blk_2 : Z) : option (option log_header) :=
  match fuel with
  | O => None
  | S fuel' =>
      let blk_m := u32 (blk_1 + blk_2) / 2 in
      r1 ← find_good_lh n d blk_1;
      match r1 with
      | None => Some None
      | Some (blk_1, lh_1) =>
          rm ← find_good_lh n d blk_m;
          match rm with
          | None => Some None
          | Some (blk_m, lh_m) =>
              if (blk_1 =? blk_m) || (blk_m =? blk_2) then Some (Some lh_1)
              else if lh_sequence lh_1 <=? lh_sequence lh_m then jhead_search fuel' n d blk_m blk_2
              else jhead_search fuel' n d blk_1 blk_m
          end
      end
  end.

Definition gfs2_find_jhead (fuel n : nat) (d : disk) : option (option log_header) :=
  r ← jhead_search fuel n d 0 (u32 (jd_blocks J - 1));
  match r with
  | None => Some None
  | Some lh_1 => jhead_scan fuel d lh_1
  end.

(** A header after the head that says the journal is clean. *)
Definition clean_header (seq blkno : Z) : block :=
  let b := replicate (Z.to_nat (j_bsize J)) 0 in
  let b := be_set 4 (f_magic F) (GFS2_MAGIC F) b in
  let b := be_set 4 (f_type F) (GFS2_METATYPE_LH F) b in
  let b := be_set 4 (f_format F) (GFS2_FORMAT_LH F) b in
  let b := be_set 8 (f_sequence F) seq b in
  let b := be_set 4 (f_flags F) (GFS2_LOG_HEAD_UNMOUNT F) b in
  let b := be_set 4 (f_blkno F) blkno b in
  be_set 4 (f_hash F) (gfs2_disk_hash (take (f_lh_size F) b)) b.

Definition clean_journal (d : disk) (head : log_header) : option disk :=
  let lblock := gfs2_replay_incr_blk (lh_blkno head) in
  if j_map J lblock =? 0 then None
  else Some (<[j_map J lblock := clean_header (u64 (lh_sequence head + 1)) lblock]> d).

(** ** Revokes *)

(** Each block that has been revoked, with where it was last; the newest first. *)
Definition revokes : Type := list (Z * Z).

Fixpoint revoke_move (rs : revokes) (blkno where_ : Z) : revokes :=
  match rs with
  | [] => []
  | (b, w) :: rs' => if b =? blkno then (b, where_) :: rs' else (b, w) :: revoke_move rs' blkno where_
  end.

Definition revoke_find (rs : revokes) (blkno : Z) : option Z := snd <$> find (fun r => fst r =? blkno) rs.

Definition gfs2_revoke_add (rs : revokes) (blkno where_ : Z) : revokes :=
  match revoke_find rs blkno with
  | Some _ => revoke_move rs blkno where_
  | None => (blkno, where_) :: rs
  end.

(** Whether a block journaled at [where_] has been revoked later, counted from [tail]. *)
Definition gfs2_revoke_check (rs : revokes) (tail blkno where_ : Z) : bool :=
  match revoke_find rs blkno with
  | None => false
  | Some rr_where =>
      let wrap := rr_where <? tail in
      let a := tail <? where_ in
      let b := where_ <? rr_where in
      if wrap then a || b else a && b
  end.

(** ** The elements of a descriptor *)

(** A pointer of the descriptor [b]; [None] outside of the block. *)
Definition ld_ptr (b : block) (ptr : nat) : option Z :=
  if (ptr + 8 <=? length b)%nat then Some (be_get 8 ptr b) else None.

(** Results here: the error and the disk, [None] for a read outside of a block. *)
Fixpoint buf_elements (blks : nat) (d : disk) (b : block) (ptr : nat) (rs : revokes) (tail start : Z)
    : option (Z * disk) :=
  match blks with
  | O => Some (0, d)
  | S blks' =>
      blkno ← ld_ptr b ptr;
      if gfs2_revoke_check rs tail blkno start
      then buf_elements blks' d b (ptr + 8) rs tail (gfs2_replay_incr_blk start)
      else match gfs2_replay_read_block d start with
      | None => Some (- EIO, d)
      | Some log =>
          if negb (be_get 4 (f_magic F) log =? GFS2_MAGIC F) then Some (- EIO, d)
          else buf_elements blks' (<[blkno := log]> d) b (ptr + 8) rs tail (gfs2_replay_incr_blk start)
      end
  end.

Definition buf_lo_scan_elements (d : disk) (b : block) (ptr : nat) (rs : revokes) (tail start pass : Z)
    : option (Z * disk) :=
  if negb (pass =? 1) || negb (be_get 4 (f_ld_type F) b =? GFS2_LOG_DESC_METADATA F) then Some (0, d)
  else buf_elements (Z.to_nat (be_get 4 (f_ld_data1 F) b)) d b ptr rs tail (gfs2_replay_incr_blk start).

(** Data that looked like metadata was escaped in the journal. *)
Definition unescape (esc : Z) (log : block) : block := if c_true esc then be_set 4 0 (GFS2_MAGIC F) log else log.

Fixpoint databuf_elements (blks : nat) (d : disk) (b : block) (ptr : nat) (rs : revokes) (tail start : Z)
    : option (Z * disk) :=
  match blks with
  | O => Some (0, d)
  | S blks' =>
      blkno ← ld_ptr b ptr;
      esc ← ld_ptr b (ptr + 8);
      if gfs2_revoke_check rs tail blkno start
      then databuf_elements blks' d b (ptr + 16) rs tail (gfs2_replay_incr_blk start)
      else match gfs2_replay_read_block d start with
      | None => Some (- EIO, d)
      | Some log =>
          databuf_elements blks' (<[blkno := unescape esc log]> d) b (ptr + 16) rs tail (gfs2_replay_incr_blk start)
      end
  end.

Definition databuf_lo_scan_elements (d : disk) (b : block) (ptr : nat) (rs : revokes) (tail start pass : Z)
    : option (Z * disk) :=
  if negb (pass =? 1) || negb (be_get 4 (f_ld_type F) b =? GFS2_LOG_DESC_JDATA F) then Some (0, d)
  else databuf_elements (Z.to_nat (be_get 4 (f_ld_data1 F) b)) d b ptr rs tail (gfs2_replay_incr_blk start).

(** The revokes of one block, from [offset] on, and how many are left. *)
Fixpoint revoke_entries (fuel : nat) (b : block) (offset : nat) (cnt start : Z) (rs : revokes) : revokes * Z :=
  match fuel with
  | O => (rs, cnt)
  | S fuel' =>
      if Z.of_nat (offset + 8) <=? j_bsize J then
        let rs := gfs2_revoke_add rs (be_get 8 offset b) start in
        let cnt := u32 (cnt - 1) in
        if cnt =? 0 then (rs, cnt) else revoke_entries fuel' b (offset + 8) cnt start rs
      else (rs, cnt)
  end.

(** The blocks of a revoke descriptor.  The buffers are marked as changed but are not. *)
Fixpoint revoke_blocks (blks : nat) (d : disk) (first : bool) (offset : nat) (cnt start : Z) (rs : revokes)
    : Z * revokes :=
  match blks with
  | O => (0, rs)
  | S blks' =>
      match gfs2_replay_read_block d start with
      | None => (- EIO, rs)
      | Some b =>
          if negb first && negb (gfs2_check_meta b (GFS2_METATYPE_LB F))
          then revoke_blocks blks' d first offset cnt (gfs2_replay_incr_blk start) rs
          else
            let '(rs, cnt) := revoke_entries (Z.to_nat (j_bsize J)) b offset cnt start rs in
            revoke_blocks blks' d false (f_mh_size F) cnt (gfs2_replay_incr_blk start) rs
      end
  end.

Definition revoke_lo_scan_elements (d : disk) (b : block) (rs : revokes) (start pass : Z) : Z * revokes :=
  if negb (pass =? 0) || negb (be_get 4 (f_ld_type F) b =? GFS2_LOG_DESC_REVOKE F) then (0, rs)
  else revoke_blocks (Z.to_nat (be_get 4 (f_ld_length F) b)) d true (f_ld_size F) (be_get 4 (f_ld_data1 F) b) start rs.

(** ** The active part of the journal *)

Definition ptr_offset : nat := Z.to_nat (Z.land (Z.of_nat (f_ld_size F) + 7) (Z.lnot 7)).

(** The buffer of the descriptor is written back at the end. *)
Definition put_back (d : disk) (start : Z) (b : block) : disk := <[j_map J start := b]> d.

(** One descriptor: its elements and the block after it. *)
Definition scan_descriptor (d : disk) (b : block) (rs : revokes) (tail start pass : Z)
    : option (Z * disk * revokes) :=
  '(e1, d1) ← databuf_lo_scan_elements d b ptr_offset rs tail start pass;
  if c_true e1 then Some (e1, d1, rs)
  else
    '(e2, d2) ← buf_lo_scan_elements d1 b ptr_offset rs tail start pass;
    if c_true e2 then Some (e2, d2, rs)
    else let '(e3, rs3) := revoke_lo_scan_elements d2 b rs start pass in Some (e3, d2, rs3).

(** [None] when it has not ended within [fuel], or reads outside of a block. *)
Fixpoint foreach_descriptor (fuel : nat) (d : disk) (rs : revokes) (tail start end_ pass : Z)
    : option (Z * disk * revokes) :=
  match fuel with
  | O => None
  | S fuel' =>
      if start =? end_ then Some (0, d, rs)
      else match gfs2_replay_read_block d start with
      | None => Some (- EIO, d, rs)
      | Some b =>
          if negb (be_get 4 (f_magic F) b =? GFS2_MAGIC F) then Some (- EIO, put_back d start b, rs)
          else if be_get 4 (f_type F) b =? GFS2_METATYPE_LH F then
            match get_log_header d start with
            | LhGood _ => foreach_descriptor fuel' (put_back d start b) rs tail (gfs2_replay_incr_blk start) end_ pass
            | LhBad | LhErr => Some (- EIO, put_back d start b, rs)
            end
          else if negb (gfs2_check_meta b (GFS2_METATYPE_LD F)) then Some (- EIO, put_back d start b, rs)
          else
            '(e, d1, rs1) ← scan_descriptor d b rs tail start pass;
            let d2 := put_back d1 start b in
            if c_true e then Some (e, d2, rs1)
            else
              let next := Nat.iter (Z.to_nat (be_get 4 (f_ld_length F) b)) gfs2_replay_incr_blk start in
              foreach_descriptor fuel' d2 rs1 tail next end_ pass
      end
  end.

(** ** Recovery *)

(** The two passes. *)
Definition replay (fuel : nat) (d : disk) (head : log_header) : option (Z * disk) :=
  '(e0, d0, rs0) ← foreach_descriptor fuel d [] (lh_tail head) (lh_tail head) (lh_blkno head) 0;
  if c_true e0 then Some (e0, d0)
  else
    '(e1, d1, _) ← foreach_descriptor fuel d0 rs0 (lh_tail head) (lh_tail head) (lh_blkno head) 1;
    Some (e1, d1).

(** A new journal: every block a header, [seq] the number of the first.  The blocks are there
    already: that missing ones are allocated is not modelled. *)
Definition journal_header (seq blkno : Z) : block :=
  let b := gfs2_log_header_out (mkLh (GFS2_MAGIC F) (GFS2_METATYPE_LH F) (GFS2_FORMAT_LH F) seq
             (GFS2_LOG_HEAD_UNMOUNT F) 0 blkno 0) (replicate (Z.to_nat (j_bsize J)) 0) in
  be_set 4 (f_hash F) (gfs2_disk_hash (take (f_lh_size F) b)) b.

(** [n] blocks from [x] on. *)
Fixpoint write_journal_from (n : nat) (d : disk) (x seq : Z) : disk :=
  match n with
  | O => d
  | S n' =>
      let seq' := if seq + 1 =? jd_blocks J then 0 else seq + 1 in
      write_journal_from n' (<[j_map J x := journal_header seq x]> d) (x + 1) seq'
  end.

Definition write_journal (d : disk) (seq : Z) : disk := write_journal_from (Z.to_nat (jd_blocks J)) d 0 seq.

(** Sequence numbers out of order are replaced by numbers above all before.  The checksum
    of the header stays as it was. *)
Record seq_state := mkSeq { sq_wrapped : bool; sq_high : Z; sq_low : Z; sq_prev : Z }.

(** The disk, the state, and the header as it is left. *)
Definition fix_block (d : disk) (blk : Z) (lh : log_header) (s : seq_state) : disk * seq_state * log_header :=
  let seq := lh_sequence lh in
  let low := if (sq_low s =? 0) || (seq <? sq_low s) then seq else sq_low s in
  let high := if (sq_high s =? 0) || (seq >? sq_high s) then seq else sq_high s in
  if seq >? sq_prev s then (d, mkSeq (sq_wrapped s) high low seq, lh)
  else if negb (sq_wrapped s) && (seq =? low) then (d, mkSeq true high low seq, lh)
  else
    let high := u64 (high + 1) in
    let lh := mkLh (lh_magic lh) (lh_type lh) (lh_format lh) high (lh_flags lh) (lh_tail lh) (lh_blkno lh) (lh_hash lh) in
    (<[j_map J blk := gfs2_log_header_out lh (d (j_map J blk))]> d, mkSeq (sq_wrapped s) high low high, lh).

(** [junk] is what the variable for the header has when nothing could be read. *)
Fixpoint fix_journal_from (n : nat) (d : disk) (blk : Z) (junk : log_header) (s : seq_state) : disk :=
  match n with
  | O => d
  | S n' =>
      match get_log_header d blk with
      | LhBad => fix_journal_from n' d (blk + 1) junk s
      | LhGood lh => let '(d1, s1, lh1) := fix_block d blk lh s in fix_journal_from n' d1 (blk + 1) lh1 s1
      | LhErr => let '(d1, s1, lh1) := fix_block d blk junk s in fix_journal_from n' d1 (blk + 1) lh1 s1
      end
  end.

Definition fix_journal_seq_no (d : disk) (junk : log_header) : disk :=
  fix_journal_from (Z.to_nat (jd_blocks J)) d 0 junk (mkSeq false 0 0 0).

(** What the user of fsck has said, and answers. *)
Record fsck_opts := mkOpts { op_no : bool; op_preen : bool; op_force : bool; op_nolock : bool }.

Definition preen_is_safe (o : fsck_opts) : bool := negb (op_preen o) || op_force o || op_nolock o.

Definition FSCK_ERROR : Z := 8.

(** The answers to the three questions, the first number of a journal that is written anew,
    and what the variable for a header has before. *)
Record recover_env := mkEnv { re_repair : bool; re_replay : bool; re_clear : bool; re_seq : Z; re_junk : log_header }.

(** The labels [reinit] and [out]; no is the answer to every question under the option for it. *)
Definition reinit (o : fsck_opts) (e : recover_env) (error : Z) (d : disk) : Z * disk :=
  if negb (op_no o) && re_clear e then (0, write_journal d (re_seq e)) else (error, d).

Definition out (o : fsck_opts) (e : recover_env) (error : Z) (d : disk) : Z * disk :=
  if error =? 0 then (0, d) else reinit o e error d.

(** The head, after a repair where it is needed and allowed; the inner result is an error. *)
Definition recover_head (fuel n : nat) (o : fsck_opts) (e : recover_env) (d : disk)
    : option (disk * (log_header + Z)) :=
  r ← gfs2_find_jhead fuel n d;
  match r with
  | Some head => Some (d, inl head)
  | None =>
      if op_no o || negb (preen_is_safe o) || negb (re_repair e) then Some (d, inr (- EIO))
      else
        let d1 := fix_journal_seq_no d (re_junk e) in
        r1 ← gfs2_find_jhead fuel n d1;
        Some (d1, match r1 with Some head => inl head | None => inr (- EIO) end)
  end.

(** The error, whether the journal was clean, and the disk. *)
Definition gfs2_recover_journal (fuel n : nat) (o : fsck_opts) (e : recover_env) (d : disk) : option (Z * bool * disk) :=
  '(d1, r) ← recover_head fuel n o e d;
  match r with
  | inr error => let '(err, d2) := out o e error d1 in Some (err, false, d2)
  | inl head =>
      if c_true (Z.land (lh_flags head) (GFS2_LOG_HEAD_UNMOUNT F)) then Some (0, true, d1)
      else if op_no o then let '(err, d2) := out o e 0 d1 in Some (err, false, d2)
      else if negb (preen_is_safe o) then let '(err, d2) := out o e FSCK_ERROR d1 in Some (err, false, d2)
      else if negb (re_replay e) then let '(err, d2) := reinit o e 0 d1 in Some (err, false, d2)
      else
        '(error, d2) ← replay fuel d1 head;
        if c_true error then let '(err, d3) := out o e error d2 in Some (err, false, d3)
        else match clean_journal d2 head with
        | None => let '(err, d3) := out o e (- EIO) d2 in Some (err, false, d3)
        | Some d3 => let '(err, d4) := out o e 0 d3 in Some (err, false, d4)
        end
  end.

End log.

(** All journals, one after the other, those that are missing left out; after an error the
    others are left alone. *)
Fixpoint replay_journals (F : format) (fuel n : nat) (o : fsck_opts) (js : list (option (journal * recover_env)))
    (error : Z) (clean : Z) (d : disk) : option (Z * Z * disk) :=
  match js with
  | [] => Some (error, clean, d)
  | None :: js' => replay_journals F fuel n o js' error clean d
  | Some (J, e) :: js' =>
      if error =? 0 then
        '(err, was_clean, d1) ← gfs2_recover_journal F J fuel n o e d;
        replay_journals F fuel n o js' err (clean + Z.b2z was_clean) d1
      else replay_journals F fuel n o js' error clean d
  end.
