(* ===== verification/Gfs2LogHead.v ===== *)
(** * The head of a GFS2 journal

    The log headers of a journal have rising sequence numbers along the circle of its
    blocks, starting after the head.  The search of [gfs2_find_jhead] then ends and gives
    the header with the highest number ([find_jhead_correct]). *)

From S2P Require Import Prelude PlockWire DiskHash Gfs2Field Gfs2Log.
Open Scope Z_scope.

Section head.
Context (F : format) (J : journal) (d : disk).

Notation N := (jd_blocks J).
Notation hdr := (get_log_header F J d).

Definition valid (b : Z) : Prop := exists lh, hdr b = LhGood lh.

(** The blocks of the journal are there, and there are not too many. *)
Record journal_ok : Prop := {
  jo_size : 2 <= N < 2 ^ 31;
  jo_map : forall b, 0 <= b < N -> j_map J b <> 0;
  jo_bsize : 0 < j_bsize J
}.

(** The place of a block when one goes around the circle and ends at [h]. *)
Definition place (h b : Z) : Z := if b <=? h then b + (N - h - 1) else b - h - 1.

(** [h] is the head: the numbers rise on the way to it, and there is another header. *)
Record sorted_log (h : Z) (lh : log_header) : Prop := {
  so_range : 0 <= h < N;
  so_head : hdr h = LhGood lh;
  so_rise : forall b b' l l', 0 <= b < N -> 0 <= b' < N -> hdr b = LhGood l -> hdr b' = LhGood l' ->
    place h b < place h b' -> lh_sequence l < lh_sequence l';
  so_other : exists b, 0 <= b < N /\ b <> h /\ valid b
}.

Lemma place_range h b : 0 <= h < N -> 0 <= b < N -> 0 <= place h b < N.
Proof. intros. unfold place. zcase; lia. Qed.

Lemma place_inj h b b' : 0 <= h < N -> 0 <= b < N -> 0 <= b' < N -> place h b = place h b' -> b = b'.
Proof. intros. unfold place in *. destruct (Z.leb_spec b h), (Z.leb_spec b' h); lia. Qed.

Lemma place_newer h y m : y <= m <= h -> (place h y <=? place h m) = true.
Proof. intros. unfold place. destruct (Z.leb_spec y h), (Z.leb_spec m h); lia. Qed.

Lemma place_older h y m : y <= h < N -> 0 <= y -> m < N -> h < m \/ m < y -> (place h y <=? place h m) = false.
Proof. intros. unfold place. destruct (Z.leb_spec y h), (Z.leb_spec m h); lia. Qed.

Lemma hdr_cases b : journal_ok -> 0 <= b < N -> valid b \/ hdr b = LhBad.
Proof.
  intros [_ Hm _] Hb. unfold valid, get_log_header, gfs2_replay_read_block.
  rewrite (proj2 (Z.eqb_neq _ _) (Hm b Hb)). case_match; eauto.
Qed.

Lemma hdr_blkno b lh : hdr b = LhGood lh -> lh_blkno lh = b.
Proof.
  unfold get_log_header. case_match; [|done]. destruct (_ || _) eqn:E; [done|]. intros [= <-]. zbool. done.
Qed.

Lemma incr_blk b : journal_ok -> 0 <= b < N -> gfs2_replay_incr_blk J b = if b + 1 =? N then 0 else b + 1.
Proof. intros [Hs _ _] Hb. unfold gfs2_replay_incr_blk. rewrite wrap_small; [done|]. unfold in_u. lia. Qed.

(** ** The next header *)

(** The first header from [x] on is at [y]. *)
Definition next_good (x y : Z) : Prop :=
  0 <= y < N /\ valid y /\
  ((x <= y /\ forall b, x <= b < y -> ~ valid b) \/
   (y < x /\ (forall b, x <= b < N -> ~ valid b) /\ forall b, 0 <= b < y -> ~ valid b)).

Lemma not_valid_bad b : journal_ok -> 0 <= b < N -> ~ valid b -> hdr b = LhBad.
Proof. intros Hj Hb Hv. by destruct (hdr_cases b Hj Hb). Qed.

(** Forward, without going around. *)
Lemma find_good_forward fuel orig x y lh :
  journal_ok -> 0 <= x <= y -> y < N -> hdr y = LhGood lh -> (forall b, x <= b < y -> ~ valid b) ->
  ~ (x < orig <= y) -> (Z.to_nat (y - x) < fuel)%nat -> find_good_lh_from F J fuel d orig x = Some (Some (y, lh)).
Proof.
  intros Hj Hx Hy Hh Hno Ho. revert fuel. remember (Z.to_nat (y - x)) as k eqn:Ek. revert x Hx Hno Ho Ek.
  induction k as [|k IH]; intros x Hx Hno Ho Ek fuel Hf; (destruct fuel as [|fuel]; [lia|]); cbn.
  - assert (x = y) as -> by lia. by rewrite Hh.
  - rewrite (not_valid_bad x Hj) by (try apply Hno; lia). rewrite incr_blk by (done || lia).
    rewrite (proj2 (Z.eqb_neq (x + 1) N)) by lia. rewrite (proj2 (Z.eqb_neq (x + 1) orig)) by lia.
    apply IH; try lia. intros b Hb. apply Hno. lia.
Qed.

(** To the end of the journal and then from its beginning. *)
Lemma find_good_around fuel x y lh :
  journal_ok -> 0 <= y < x -> x < N -> hdr y = LhGood lh -> (forall b, x <= b < N -> ~ valid b) ->
  (forall b, 0 <= b < y -> ~ valid b) -> (Z.to_nat (N - x + y) < fuel)%nat ->
  find_good_lh F J fuel d x = Some (Some (y, lh)).
Proof.
  intros Hj Hy Hx Hh Hhi Hlo Hf. unfold find_good_lh.
  assert (forall k z f, x <= z < N -> Z.to_nat (N - 1 - z) = k -> (Z.to_nat (N - z + y) < f)%nat ->
    find_good_lh_from F J f d x z = Some (Some (y, lh))) as Hgo.
  { induction k as [|k IH]; intros z f Hz Ek Hf'; (destruct f as [|f]; [lia|]); cbn;
      rewrite (not_valid_bad z Hj) by (try apply Hhi; lia); rewrite incr_blk by (done || lia).
    - assert (z = N - 1) as -> by lia. replace (N - 1 + 1 =? N) with true by lia.
      rewrite (proj2 (Z.eqb_neq 0 x)) by lia. apply find_good_forward; try done; try lia.
    - rewrite (proj2 (Z.eqb_neq (z + 1) N)) by lia. rewrite (proj2 (Z.eqb_neq (z + 1) x)) by lia. apply IH; lia. }
  by apply (Hgo (Z.to_nat (N - 1 - x))).
Qed.

Lemma find_good_next fuel x y :
  journal_ok -> 0 <= x < N -> next_good x y -> (Z.to_nat N <= fuel)%nat ->
  exists lh, hdr y = LhGood lh /\ find_good_lh F J fuel d x = Some (Some (y, lh)).
Proof.
  intros Hj Hx (Hy & [lh Hh] & [[Hle Hno]|(Hlt & Hhi & Hlo)]) Hf; exists lh; split; try done.
  - apply find_good_forward; try done; lia.
  - apply find_good_around; try done; lia.
Qed.

(** There is a next header when there is one at all. *)
Lemma least_valid a z : journal_ok -> 0 <= a -> a <= z < N -> valid z ->
  exists y, a <= y <= z /\ valid y /\ forall b, a <= b < y -> ~ valid b.
Proof.
  intros Hj Ha Hz. remember (Z.to_nat (z - a)) as k eqn:Ek. revert a Ha Hz Ek.
  induction k as [|k IH]; intros a Ha Hz Ek Hv.
  - exists a. assert (a = z) as -> by lia. split_and!; [lia..|done|intros; lia].
  - destruct (hdr_cases a Hj) as [Hva|Hb]; [lia| |].
    + exists a. split_and!; [lia..|done|intros; lia].
    + destruct (IH (a + 1)) as (y & Hy & Hvy & Hno); [lia..|done|]. exists y. split_and!; [lia..|done|].
      intros b Hb'. destruct (decide (b = a)) as [->|]; [intros [l Hl]; congruence|apply Hno; lia].
Qed.

Lemma none_or_least a : journal_ok -> 0 <= a <= N ->
  (forall b, a <= b < N -> ~ valid b) \/ (exists y, a <= y < N /\ valid y /\ forall b, a <= b < y -> ~ valid b).
Proof.
  intros Hj. remember (Z.to_nat (N - a)) as k eqn:Ek. revert a Ek.
  induction k as [|k IH]; intros a Ek Ha; [left; intros; lia|].
  destruct (hdr_cases a Hj) as [Hv|Hb]; [lia| |].
  - right. exists a. split_and!; [lia..|done|intros; lia].
  - assert (~ valid a) as Hna by (intros [l Hl]; congruence).
    destruct (IH (a + 1)) as [Hno|(y & Hy & Hv & Hno)]; [lia..| |].
    + left. intros b Hr. destruct (decide (b = a)) as [->|]; [done|apply Hno; lia].
    + right. exists y. split_and!; [lia..|done|]. intros b Hr.
      destruct (decide (b = a)) as [->|]; [done|apply Hno; lia].
Qed.

Lemma next_good_ex x z : journal_ok -> 0 <= x < N -> 0 <= z < N -> valid z -> exists y, next_good x y.
Proof.
  intros Hj Hx Hz Hv. destruct (none_or_least x Hj) as [Hhi|(y & Hy & Hvy & Hno)]; [lia| |].
  - destruct (least_valid 0 z Hj) as (y & Hy & Hvy & Hlo); [lia..|done|]. exists y. split_and!; [lia..|done|].
    right. split_and!; [|done..]. destruct (decide (y < x)); [done|]. exfalso. apply (Hhi y); [lia|done].
  - exists y. split_and!; [lia..|done|]. left. split; [lia|done].
Qed.

Lemma next_good_bound x y z : next_good x y -> 0 <= x <= z -> z < N -> valid z -> x <= y <= z.
Proof.
  intros (Hy & Hv & [[Hle Hno]|(Hlt & Hhi & Hlo)]) Hx Hz Hvz.
  - split; [done|]. destruct (decide (y <= z)); [done|]. exfalso. apply (Hno z); [lia|done].
  - exfalso. apply (Hhi z); [lia|done].
Qed.

Section sorted.
Context (Hj : journal_ok) (h : Z) (top : log_header) (Hs : sorted_log h top).

(** Headers up to [h] are newer than those after it. *)
Lemma sequence_lt b b' l l' : 0 <= b < N -> 0 <= b' < N -> hdr b = LhGood l -> hdr b' = LhGood l' ->
  place h b < place h b' -> lh_sequence l < lh_sequence l'.
Proof. apply (so_rise _ _ Hs). Qed.

Lemma sequence_le_iff b b' l l' : 0 <= b < N -> 0 <= b' < N -> hdr b = LhGood l -> hdr b' = LhGood l' ->
  lh_sequence l <= lh_sequence l' <-> place h b <= place h b'.
Proof.
  intros Hb Hb' Hl Hl'. pose proof (sequence_lt b b' l l' Hb Hb' Hl Hl').
  pose proof (sequence_lt b' b l' l Hb' Hb Hl' Hl). split; [lia|]. intros Hle.
  destruct (decide (place h b < place h b')); [lia|].
  assert (b = b') as -> by (apply (place_inj h); try done; try apply Hs; lia).
  rewrite Hl in Hl'. injection Hl' as ->. lia.
Qed.

Lemma search_result fuel n x b2 y m ly lm :
  0 <= x < N -> 0 <= b2 < N -> (Z.to_nat N <= n)%nat -> next_good x y -> next_good ((x + b2) / 2) m ->
  hdr y = LhGood ly -> hdr m = LhGood lm ->
  jhead_search F J (S fuel) n d x b2 =
    if (y =? m) || (m =? b2) then Some (Some ly)
    else if place h y <=? place h m then jhead_search F J fuel n d m b2 else jhead_search F J fuel n d y m.
Proof.
  intros Hx Hb2 Hn Hy Hm Ely Elm. pose proof (jo_size Hj). cbn.
  rewrite (wrap_small 32) by (unfold in_u; lia).
  destruct (find_good_next n x y Hj Hx Hy Hn) as (l1 & E1 & ->). cbn.
  destruct (find_good_next n ((x + b2) / 2) m Hj) as (l2 & E2 & ->); [|done..|].
  { split; [apply Z.div_pos; lia|apply Z.div_lt_upper_bound; lia]. }
  cbn. assert (l1 = ly) as -> by congruence. assert (l2 = lm) as -> by congruence.
  destruct ((y =? m) || (m =? b2)); [done|].
  pose proof (sequence_le_iff y m ly lm (proj1 Hy) (proj1 Hm) Ely Elm) as Hle.
  destruct (Z.leb_spec (lh_sequence ly) (lh_sequence lm)), (Z.leb_spec (place h y) (place h m)); try done; lia.
Qed.

(** Where the search can be: the end of the journal has not been left ([Top]), or the
    second block is a header after the head ([After]), or an older one before the first
    ([Before]). *)
Inductive stage (x y b2 : Z) : nat -> Prop :=
| Top : x <= y <= h -> b2 = N - 1 -> stage x y b2 (Z.to_nat (2 * N - x))
| After : x = y -> y <= h < b2 -> b2 < N -> valid b2 -> stage x y b2 (Z.to_nat (b2 - y))
| Before : x = y -> 0 <= b2 < y -> y <= h -> valid b2 -> stage x y b2 (Z.to_nat (y - b2)).

Lemma next_good_self y : 0 <= y < N -> valid y -> next_good y y.
Proof. intros. split_and!; [lia..|done|]. left. split; [lia|intros; lia]. Qed.

Lemma halves x b2 : 0 <= x < N -> 0 <= b2 < N -> 0 <= (x + b2) / 2 < N.
Proof. intros. split; [apply Z.div_pos; lia|apply Z.div_lt_upper_bound; lia]. Qed.

(** Each round leaves a stage that is smaller. *)
Lemma stage_smaller x b2 y m mu : 0 <= x < N -> 0 <= b2 < N ->
  next_good x y -> next_good ((x + b2) / 2) m -> y <> m -> m <> b2 -> stage x y b2 mu ->
  exists mu', (mu' < mu)%nat /\ if place h y <=? place h m then stage m m b2 mu' else stage y y m mu'.
Proof.
  pose proof (jo_size Hj) as HN. pose proof (so_range _ _ Hs) as Hh.
  intros Hx Hb2 (Hyr & Hvy & Hyf) Hm Hym Hmb Hst. pose proof Hm as (Hmr & Hvm & Hmf).
  assert (Hmh := Z.div_mod (x + b2) 2). assert (Hmod := Z.mod_pos_bound (x + b2) 2).
  destruct Hst as [Hxy -> | -> Hyh Hb2N Hvb | -> Hb2y Hyh Hvb].
  - destruct (decide ((x + (N - 1)) / 2 <= y)) as [Hle|Hgt].
    { exfalso. pose proof (next_good_bound _ _ y Hm ltac:(lia) ltac:(lia) Hvy) as Hb.
      destruct Hyf as [[_ Hno]|(? & _)]; [|lia]. apply (Hno m); [lia|done]. }
    destruct Hmf as [[Hle _]|(Hlt & Hhi & Hlo)].
    + destruct (decide (m <= h)).
      * rewrite place_newer by lia. eexists. split; [|apply Top; lia]. lia.
      * rewrite place_older by lia. eexists. split; [|apply After; try done; lia]. lia.
    + assert (m <= y) by (destruct (decide (m <= y)); [done|]; exfalso; apply (Hlo y); [lia|done]).
      rewrite place_older by lia. eexists. split; [|apply Before; try done; lia]. lia.
  - pose proof (next_good_bound _ _ b2 Hm ltac:(lia) ltac:(lia) Hvb) as Hb. destruct (decide (m <= h)).
    + rewrite place_newer by lia. eexists. split; [|apply After; try done; lia]. lia.
    + rewrite place_older by lia. eexists. split; [|apply After; try done; lia]. lia.
  - pose proof (next_good_bound _ _ y Hm ltac:(lia) ltac:(lia) Hvy) as Hb.
    rewrite place_older by lia. eexists. split; [|apply Before; try done; lia]. lia.
Qed.

Lemma search_ends fuel n : forall x b2 y mu, 0 <= x < N -> 0 <= b2 < N -> (Z.to_nat N <= n)%nat ->
  next_good x y -> stage x y b2 mu -> (mu < fuel)%nat ->
  exists b lh, 0 <= b < N /\ hdr b = LhGood lh /\ jhead_search F J fuel n d x b2 = Some (Some lh).
Proof.
  induction fuel as [|fuel IH]; intros x b2 y mu Hx Hb2 Hn Hy Hst Hmu; [lia|].
  destruct (next_good_ex ((x + b2) / 2) h Hj (halves x b2 Hx Hb2) (so_range _ _ Hs)) as [m Hm].
  { eexists. apply (so_head _ _ Hs). }
  pose proof Hy as (Hyr & [ly Ely] & _). pose proof Hm as (Hmr & [lm Elm] & _).
  rewrite (search_result fuel n x b2 y m ly lm) by done.
  destruct ((y =? m) || (m =? b2)) eqn:Estop; [by exists y, ly|].
  apply orb_false_iff in Estop as [Hym Hmb]. zbool.
  destruct (stage_smaller x b2 y m mu) as (mu' & Hlt & Hnext); try done.
  destruct (place h y <=? place h m).
  - apply (IH m b2 m mu'); try done; try lia. apply next_good_self; [lia|by eexists].
  - apply (IH y m y mu'); try done; try lia. apply next_good_self; [lia|by eexists].
Qed.

(** ** From any header to the head *)

(** The place of [b] when one starts from the head. *)
Definition after_head (b : Z) : Z := if b =? h then -1 else place h b.

Lemma incr_place b : 0 <= b < N ->
  0 <= gfs2_replay_incr_blk J b < N /\ place h (gfs2_replay_incr_blk J b) = after_head b + 1.
Proof.
  intros Hb. pose proof (so_range _ _ Hs). rewrite incr_blk by done. unfold after_head, place.
  destruct (Z.eqb_spec (b + 1) N), (Z.eqb_spec b h), (Z.leb_spec b h); (split; [lia|]);
    match goal with |- context [?x <=? h] => destruct (Z.leb_spec x h) end; lia.
Qed.

Lemma place_head b : 0 <= b < N -> place h b = N - 1 <-> b = h.
Proof. intros. pose proof (so_range _ _ Hs). unfold place. destruct (Z.leb_spec b h); lia. Qed.

Lemma after_head_place b : 0 <= b < N -> b <> h -> after_head b = place h b.
Proof. intros _ Hb. unfold after_head. by rewrite (proj2 (Z.eqb_neq b h) Hb). Qed.

(** After the head the first header is an older one. *)
Lemma scan_stops o fuel : 0 <= o < N -> o <> h -> valid o -> forall b, 0 <= b < N -> after_head b < place h o ->
  (Z.to_nat (place h o - after_head b) <= fuel)%nat -> jhead_scan_from F J fuel d top b = Some (Some top).
Proof.
  intros Ho Hoh Hvo. pose proof (so_range _ _ Hs) as Hh. pose proof (place_range h o Hh Ho).
  pose proof (place_head o Ho). pose proof (proj2 (place_head h Hh) eq_refl) as Hph.
  induction fuel as [|fuel IH]; intros b Hb Hlt Hf; [lia|]. cbn.
  destruct (incr_place b Hb) as [Hc Hpc]. set (c := gfs2_replay_incr_blk J b) in *.
  assert (c <> h) as Hch by (pose proof (place_head c Hc); lia).
  destruct (hdr_cases c Hj Hc) as [[l Hl]|Hbad]; [rewrite Hl|rewrite Hbad].
  - pose proof (sequence_lt c h l top Hc Hh Hl (so_head _ _ Hs)).
    rewrite (proj2 (Z.eqb_neq _ _)) by lia. by rewrite (proj2 (Z.ltb_lt _ _)) by lia.
  - assert (place h c <> place h o).
    { intros E%place_inj; try done. subst. destruct Hvo. congruence. }
    apply IH; try done; rewrite after_head_place by done; lia.
Qed.

(** On the way to the head the numbers rise. *)
Lemma scan_reaches fuel k : forall b b0 last, 0 <= b < N -> 0 <= b0 < N -> hdr b0 = LhGood last -> place h b0 <= place h b ->
  Z.of_nat k = N - 1 - place h b -> (b = h -> last = top) ->
  jhead_scan_from F J (k + fuel) d last b = jhead_scan_from F J fuel d top h.
Proof.
  pose proof (so_range _ _ Hs) as Hh. pose proof (proj2 (place_head h Hh) eq_refl) as Hph.
  induction k as [|k IH]; intros b b0 last Hb Hb0 Hl Hle Hk Hlast.
  - assert (b = h) as -> by (apply place_head; [done|lia]). by rewrite Hlast.
  - cbn. assert (b <> h) as Hbh by (intros ->; lia). destruct (incr_place b Hb) as [Hc Hpc].
    set (c := gfs2_replay_incr_blk J b) in *. rewrite after_head_place in Hpc by done.
    destruct (hdr_cases c Hj Hc) as [[l Hlc]|Hbad]; [rewrite Hlc|rewrite Hbad].
    + pose proof (sequence_lt b0 c last l Hb0 Hc Hl Hlc).
      rewrite (proj2 (Z.eqb_neq _ _)) by lia. rewrite (proj2 (Z.ltb_ge _ _)) by lia.
      apply (IH c c l); try done; try lia. intros ->. pose proof (so_head _ _ Hs). congruence.
    + apply (IH c b0 last); try done; try lia. intros ->. pose proof (so_head _ _ Hs). congruence.
Qed.

Lemma scan_ends fuel b lh : 0 <= b < N -> hdr b = LhGood lh -> (Z.to_nat (2 * N) <= fuel)%nat ->
  jhead_scan F J fuel d lh = Some (Some top).
Proof.
  intros Hb Hl Hf. unfold jhead_scan. rewrite (hdr_blkno b lh Hl). pose proof (so_range _ _ Hs) as Hh.
  pose proof (place_range h b Hh Hb). pose proof (jo_size Hj). destruct (so_other _ _ Hs) as (o & Ho & Hoh & Hvo).
  replace fuel with (Z.to_nat (N - 1 - place h b) + (fuel - Z.to_nat (N - 1 - place h b)))%nat by lia.
  rewrite (scan_reaches _ _ b b lh); try done; try lia.
  - assert (after_head h = -1) as E by (unfold after_head; by rewrite Z.eqb_refl).
    pose proof (place_range h o Hh Ho). apply (scan_stops o); try done; rewrite E; lia.
  - intros ->. pose proof (so_head _ _ Hs). congruence.
Qed.

Lemma find_jhead_sorted fuel n : (Z.to_nat (2 * N) < fuel)%nat -> (Z.to_nat N <= n)%nat ->
  gfs2_find_jhead F J fuel n d = Some (Some top).
Proof.
  intros Hf Hn. pose proof (jo_size Hj). pose proof (so_range _ _ Hs) as Hh.
  assert (valid h) as Hvh by (eexists; apply (so_head _ _ Hs)).
  destruct (least_valid 0 h Hj) as (y & Hy & Hvy & Hno); [lia..|done|].
  unfold gfs2_find_jhead. rewrite (wrap_small 32) by (unfold in_u; lia).
  destruct (search_ends fuel n 0 (N - 1) y (Z.to_nat (2 * N - 0))) as (b & lh & Hb & Hl & ->); try lia.
  - split_and!; [lia..|done|]. left. split; [lia|done].
  - by apply Top; lia.
  - cbn. apply (scan_ends fuel b lh); try done. lia.
Qed.
End sorted.
End head.

(** ** Checking a journal *)

(** The conditions on the headers, by looking at all of them. *)
Definition sorted_check (F : format) (J : journal) (d : disk) (h : Z) : bool :=
  forallb (fun b => forallb (fun b' =>
      match get_log_header F J d b, get_log_header F J d b' with
      | LhGood l, LhGood l' => negb (place J h b <? place J h b') || (lh_sequence l <? lh_sequence l')
      | _, _ => true
      end) (seqZ 0 (jd_blocks J))) (seqZ 0 (jd_blocks J)) &&
  existsb (fun b => negb (b =? h) && match get_log_header F J d b with LhGood _ => true | _ => false end)
    (seqZ 0 (jd_blocks J)).

Lemma sorted_checked F J d h lh : 0 <= h < jd_blocks J -> get_log_header F J d h = LhGood lh ->
  sorted_check F J d h = true -> sorted_log F J d h lh.
Proof.
  intros Hh Hg [Hall Hex]%andb_true_iff. rewrite forallb_forall in Hall. apply existsb_exists in Hex as (o & Ho & Ho').
  apply list_elem_of_In, elem_of_seqZ in Ho. apply andb_true_iff in Ho' as [Hne Hv]. split; [done|done| |].
  - intros b b' l l' Hb Hb' Hl Hl' Hlt. specialize (Hall b ltac:(apply list_elem_of_In, elem_of_seqZ; lia)).
    rewrite forallb_forall in Hall. specialize (Hall b' ltac:(apply list_elem_of_In, elem_of_seqZ; lia)).
    rewrite Hl, Hl' in Hall. rewrite (proj2 (Z.ltb_lt _ _) Hlt) in Hall. cbn in Hall. lia.
  - exists o. split; [lia|]. zbool. split; [done|]. unfold valid. case_match; [done..|]. by eexists.
Qed.

(** A journal of eight blocks, the head in block 2 and the tail in block 4.  Two blocks are
    journaled after the tail, and one of them is revoked. *)
Module Sample.

Definition fmt : format :=
  mkFormat 0 4 16 8 20  24 32 36 40 44  24 28 32  24 48 72  0x01161970 8 9 10 800 1 300 301 302.

Definition jrn : journal := mkJournal 8 (fun x => 100 + x) 128.

Definition zero : block := replicate 128 0.

Definition header (seq tail blkno : Z) : block :=
  let b := gfs2_log_header_out fmt (mkLh 0x01161970 8 800 seq 0 tail blkno 0) zero in
  be_set 4 44 (gfs2_disk_hash (take 48 b)) b.

Definition descriptor (type length data1 : Z) (ptrs : list Z) : block :=
  let b := be_set 4 0 0x01161970 (be_set 4 4 9 zero) in
  let b := be_set 4 24 type (be_set 4 28 length (be_set 4 32 data1 b)) in
  take 72 b ++ flat_map (store BigEndian 8) ptrs ++ drop (72 + 8 * List.length ptrs) b.

Definition content (v : Z) : block := be_set 4 0 0x01161970 (be_set 4 100 v zero).

Definition blocks : list block :=
  [descriptor 301 1 1 [500]; header 12 4 1; header 13 4 2; header 9 3 3;
   header 11 4 4; descriptor 300 3 2 [500; 501]; content 7; content 8].

Definition dsk : disk := fun x => default zero (if (100 <=? x) && (x <? 108) then blocks !! Z.to_nat (x - 100) else None).

Definition head : log_header :=
  match get_log_header fmt jrn dsk 2 with LhGood lh => lh | _ => mkLh 0 0 0 0 0 0 0 0 end.

Lemma jrn_ok : journal_ok jrn.
Proof. split; cbn; lia. Qed.

Lemma dsk_sorted : sorted_log fmt jrn dsk 2 head.
Proof. apply sorted_checked; [cbn; lia|vm_compute; reflexivity..]. Qed.

End Sample.

(** C22: for a journal whose log headers have rising sequence numbers on the way around to the
    head, the search ends, with the given bounds on its loops, and returns the head. *)
Theorem find_jhead_correct (F : format) (J : journal) (d : disk) (h : Z) (lh : log_header) (fuel n : nat) :
  journal_ok J -> sorted_log F J d h lh -> (Z.to_nat (2 * jd_blocks J) < fuel)%nat -> (Z.to_nat (jd_blocks J) <= n)%nat ->
  gfs2_find_jhead F J fuel n d = Some (Some lh).
Proof. intros Hj Hs. by apply find_jhead_sorted with h. Qed.

Lemma find_jhead_correct_witness : gfs2_find_jhead Sample.fmt Sample.jrn 17 8 Sample.dsk = Some (Some Sample.head).
Proof.
  apply (find_jhead_correct Sample.fmt Sample.jrn Sample.dsk 2 Sample.head 17 8 Sample.jrn_ok Sample.dsk_sorted); cbn; lia.
Defined.
