(* ===== verification/Gfs2Replay.v ===== *)
(** * Replay of a GFS2 journal

    What the active part of a journal says is a list of records: copies of blocks, and
    revokes.  [recovered] is what the disk should be: the copies are put in their places in
    the order of the log, but for those revoked later.  The two passes of the replay, with
    their table of revokes and positions that go around the circle, do just that
    ([replay_records]). *)

From stdpp Require Import functions sorting.
From S2P Require Import Prelude PlockWire DiskHash Gfs2Field Gfs2Log Gfs2LogHead.
Open Scope Z_scope.

(** Positions count from the tail. *)
Inductive record := Copy (pos blkno : Z) (data : block) | Revoke (pos blkno : Z).

Definition position (r : record) : Z := match r with Copy p _ _ | Revoke p _ => p end.

(** Whether the copy of [blkno] at [pos] is revoked by a later record. *)
Definition revoked (rcs : list record) (pos blkno : Z) : bool :=
  existsb (fun r => match r with Revoke p b => (b =? blkno) && (pos <? p) | Copy _ _ _ => false end) rcs.

Definition recover_one (rcs : list record) (d : disk) (r : record) : disk :=
  match r with
  | Copy p b data => if revoked rcs p b then d else <[b := data]> d
  | Revoke _ _ => d
  end.

Definition recovered (rcs : list record) (d : disk) : disk := foldl (recover_one rcs) d rcs.

(** The types of descriptors are different from each other. *)
Record types_ok (F : format) : Prop := {
  ty_md_rv : GFS2_LOG_DESC_METADATA F <> GFS2_LOG_DESC_REVOKE F;
  ty_md_jd : GFS2_LOG_DESC_METADATA F <> GFS2_LOG_DESC_JDATA F;
  ty_rv_jd : GFS2_LOG_DESC_REVOKE F <> GFS2_LOG_DESC_JDATA F
}.

Section replay.
Context (F : format) (J : journal) (d : disk) (tail L : Z).
Notation N := (jd_blocks J).

(** The block of the journal at a position, and what it holds. *)
Definition at_pos (p : Z) : Z := (tail + p) mod N.
Definition log_block (p : Z) : block := d (j_map J (at_pos p)).

(** ** The records of a log *)

Definition has_magic (b : block) : bool := be_get 4 (f_magic F) b =? GFS2_MAGIC F.

Definition meta_records (p : Z) (b : block) (i n : nat) : list record :=
  (fun i => Copy (p + 1 + Z.of_nat i) (be_get 8 (ptr_offset F + 8 * i) b) (log_block (p + 1 + Z.of_nat i))) <$> seq i n.

Definition data_records (p : Z) (b : block) (i n : nat) : list record :=
  (fun i => Copy (p + 1 + Z.of_nat i) (be_get 8 (ptr_offset F + 16 * i) b)
              (unescape F (be_get 8 (ptr_offset F + 16 * i + 8) b) (log_block (p + 1 + Z.of_nat i)))) <$> seq i n.

(** How many numbers there are in a block from [off] on, and the first [k] of them. *)
Definition capacity (off : nat) : nat := Z.to_nat ((j_bsize J - Z.of_nat off) / 8).
Definition slots (off : nat) (b : block) (k : nat) : list Z := (fun i => be_get 8 (off + 8 * i) b) <$> seq 0 k.

Fixpoint revoke_records (len : nat) (first : bool) (p : Z) (off cnt : nat) : option (list record) :=
  match len with
  | O => if (cnt =? 0)%nat then Some [] else None
  | S len' =>
      if (cnt =? 0)%nat || negb first && negb (gfs2_check_meta F (log_block p) (GFS2_METATYPE_LB F)) then None
      else
        let k := Nat.min cnt (capacity off) in
        rest ← revoke_records len' false (p + 1) (f_mh_size F) (cnt - k);
        Some ((Revoke p <$> slots off (log_block p) k) ++ rest)
  end.

Definition descriptor_records (p : Z) (b : block) : option (list record) :=
  let type := be_get 4 (f_ld_type F) b in
  let n := Z.to_nat (be_get 4 (f_ld_data1 F) b) in
  let len := Z.to_nat (be_get 4 (f_ld_length F) b) in
  if type =? GFS2_LOG_DESC_METADATA F then
    if (n <? len)%nat && (ptr_offset F + 8 * n <=? length b)%nat &&
       forallb (fun i => has_magic (log_block (p + 1 + Z.of_nat i))) (seq 0 n)
    then Some (meta_records p b 0 n) else None
  else if type =? GFS2_LOG_DESC_JDATA F then
    if (n <? len)%nat && (ptr_offset F + 16 * n <=? length b)%nat then Some (data_records p b 0 n) else None
  else if type =? GFS2_LOG_DESC_REVOKE F then revoke_records len true p (f_ld_size F) n
  else Some [].

(** The records from position [p] to [L]; [None] when the log is damaged. *)
Fixpoint log_records (fuel : nat) (p : Z) : option (list record) :=
  match fuel with
  | O => None
  | S fuel' =>
      if p =? L then Some []
      else
        let b := log_block p in
        if negb (has_magic b) then None
        else if be_get 4 (f_type F) b =? GFS2_METATYPE_LH F then
          match get_log_header F J d (at_pos p) with LhGood _ => log_records fuel' (p + 1) | _ => None end
        else
          let len := be_get 4 (f_ld_length F) b in
          if negb (gfs2_check_meta F b (GFS2_METATYPE_LD F)) || negb (1 <=? len) || negb (p + len <=? L) then None
          else
            rcs ← descriptor_records p b;
            rest ← log_records fuel' (p + len);
            Some (rcs ++ rest)
  end.

Lemma log_records_mono fuel fuel' : (fuel <= fuel')%nat -> forall p rcs, log_records fuel p = Some rcs -> log_records fuel' p = Some rcs.
Proof.
  revert fuel'. induction fuel as [|fuel IH]; intros fuel' Hle p rcs Hr; [done|]. destruct fuel' as [|fuel']; [lia|].
  cbn [log_records] in *. destruct (p =? L); [done|]. destruct (negb (has_magic _)); [done|]. destruct (_ =? GFS2_METATYPE_LH F).
  - destruct (get_log_header _ _ _ _); [done..|]. by apply IH; [lia|].
  - destruct (_ || _); [done|]. apply bind_Some in Hr as (r1 & -> & (r2 & Hr2 & [= <-])%bind_Some).
    cbn [mbind option_bind]. by rewrite (IH fuel' ltac:(lia) _ r2 Hr2).
Qed.

(** ** Positions *)

Context (Hj : journal_ok J) (HL : 0 <= L < N).

Lemma at_pos_range p : 0 <= at_pos p < N.
Proof. apply Z.mod_pos_bound. pose proof (jo_size _ Hj). lia. Qed.

Lemma incr_at p : gfs2_replay_incr_blk J (at_pos p) = at_pos (p + 1).
Proof.
  pose proof (at_pos_range p) as Hr. pose proof (jo_size _ Hj). rewrite incr_blk by done. unfold at_pos in *.
  rewrite (Z.add_assoc tail p 1), <- (Z.add_mod_idemp_l (tail + p)) by lia.
  destruct (Z.eqb_spec ((tail + p) mod N + 1) N) as [->|]; [by rewrite Z.mod_same by lia|].
  rewrite (Z.mod_small (_ + 1)); lia.
Qed.

Lemma iter_incr_at k p : Nat.iter k (gfs2_replay_incr_blk J) (at_pos p) = at_pos (p + Z.of_nat k).
Proof.
  induction k as [|k IH]; [by rewrite Z.add_0_r|]. cbn [Nat.iter nat_rect]. unfold Nat.iter in IH. rewrite IH, incr_at.
  f_equal. lia.
Qed.

Lemma at_pos_inj p q : 0 <= p < N -> 0 <= q < N -> at_pos p = at_pos q -> p = q.
Proof.
  intros Hp Hq E. unfold at_pos in E. pose proof (jo_size _ Hj).
  assert ((p - q) mod N = 0) as E0.
  { replace (p - q) with ((tail + p) - (tail + q)) by lia. rewrite Zminus_mod, E, Z.sub_diag. by apply Z.mod_0_l; lia. }
  apply Z.mod_divide in E0; [|lia]. destruct E0 as [k Hk]. assert (k = 0) by nia. subst. lia.
Qed.

(** The test for revoked blocks, on positions. *)
Lemma revoke_check_position rs b p q : revoke_find rs b = Some (at_pos q) -> 0 <= tail < N -> 0 < p < N -> 0 <= q < N ->
  gfs2_revoke_check rs tail b (at_pos p) = (p <? q).
Proof.
  intros Hf Ht Hp Hq. unfold gfs2_revoke_check. rewrite Hf. unfold at_pos.
  assert (forall x, 0 <= x < N -> (tail + x) mod N = if tail + x <? N then tail + x else tail + x - N) as E.
  { intros x Hx. destruct (Z.ltb_spec (tail + x) N); [by rewrite Z.mod_small by lia|].
    symmetry. apply Z.mod_unique with 1; lia. }
  rewrite !E by lia.
  destruct (Z.ltb_spec (tail + p) N), (Z.ltb_spec (tail + q) N), (Z.ltb_spec p q);
    repeat match goal with |- context [?x <? ?y] => destruct (Z.ltb_spec x y) end; cbn; lia || done.
Qed.

(** ** Disks with the same journal *)

Definition same_log (d' : disk) : Prop := forall x, 0 <= x < N -> d' (j_map J x) = d (j_map J x).

Lemma read_same d' p : same_log d' -> gfs2_replay_read_block J d' (at_pos p) = Some (log_block p).
Proof.
  intros Hs. pose proof (at_pos_range p) as Hr. unfold gfs2_replay_read_block.
  rewrite (proj2 (Z.eqb_neq _ _) (jo_map _ Hj _ Hr)). by rewrite Hs.
Qed.

Lemma header_same d' p : same_log d' -> get_log_header F J d' (at_pos p) = get_log_header F J d (at_pos p).
Proof. intros Hs. unfold get_log_header. by rewrite !read_same. Qed.

(** No copy goes into the journal. *)
Definition outside (r : record) : Prop :=
  match r with Copy _ b _ => forall x, 0 <= x < N -> j_map J x <> b | Revoke _ _ => True end.

(** What the second pass does with a record, given the table of the first. *)
Definition apply_copy (rs : revokes) (d' : disk) (r : record) : disk :=
  match r with
  | Copy p b data => if gfs2_revoke_check rs tail b (at_pos p) then d' else <[b := data]> d'
  | Revoke _ _ => d'
  end.

Definition add_revoke (rs : revokes) (r : record) : revokes :=
  match r with Revoke p b => gfs2_revoke_add rs b (at_pos p) | Copy _ _ _ => rs end.

Lemma same_apply rs r d' : same_log d' -> outside r -> same_log (apply_copy rs d' r).
Proof.
  intros Hs Ho. destruct r as [p b data|p b]; [|done]. cbn [apply_copy]. destruct (gfs2_revoke_check _ _ _ _); [done|].
  intros x Hx. rewrite disk_insert_ne; [by apply Hs|]. intros E. by apply (Ho x Hx).
Qed.

Lemma same_applies rs rcs : Forall outside rcs -> forall d', same_log d' -> same_log (foldl (apply_copy rs) d' rcs).
Proof. induction 1 as [|r rcs Hr _ IH]; intros d' Hs; [done|]. by apply IH, same_apply. Qed.

(** ** The elements of the descriptors *)

Lemma buf_elements_records rs p b n : forall i d', same_log d' -> (ptr_offset F + 8 * (i + n) <= length b)%nat ->
  (forall k, (i <= k < i + n)%nat -> has_magic (log_block (p + 1 + Z.of_nat k)) = true) ->
  Forall outside (meta_records p b i n) ->
  buf_elements F J n d' b (ptr_offset F + 8 * i) rs tail (at_pos (p + 1 + Z.of_nat i)) =
    Some (0, foldl (apply_copy rs) d' (meta_records p b i n)).
Proof.
  induction n as [|n IH]; intros i d' Hs Hlen Hm Ho; [done|]. unfold meta_records in *. cbn [seq fmap list_fmap] in *.
  apply Forall_cons in Ho as [Ho Hos]. cbn [buf_elements]. unfold ld_ptr.
  rewrite (proj2 (Nat.leb_le _ _)) by lia. cbn [mbind option_bind foldl apply_copy].
  rewrite incr_at. replace (p + 1 + Z.of_nat i + 1) with (p + 1 + Z.of_nat (S i)) by lia.
  replace (ptr_offset F + 8 * i + 8)%nat with (ptr_offset F + 8 * S i)%nat by lia.
  pose proof (Hm i ltac:(lia)) as Hmi. unfold has_magic in Hmi.
  pose proof (same_apply rs _ d' Hs Ho) as Hs'. cbn [apply_copy] in Hs'.
  destruct (gfs2_revoke_check rs tail _ _); [|rewrite read_same, Hmi by done; cbn [negb]];
    (apply IH; [done|lia|intros; apply Hm; lia|done]).
Qed.

Lemma databuf_elements_records rs p b n : forall i d', same_log d' -> (ptr_offset F + 16 * (i + n) <= length b)%nat ->
  Forall outside (data_records p b i n) ->
  databuf_elements F J n d' b (ptr_offset F + 16 * i) rs tail (at_pos (p + 1 + Z.of_nat i)) =
    Some (0, foldl (apply_copy rs) d' (data_records p b i n)).
Proof.
  induction n as [|n IH]; intros i d' Hs Hlen Ho; [done|]. unfold data_records in *. cbn [seq fmap list_fmap] in *.
  apply Forall_cons in Ho as [Ho Hos]. cbn [databuf_elements]. unfold ld_ptr.
  rewrite !(proj2 (Nat.leb_le _ _)) by lia. cbn [mbind option_bind foldl apply_copy].
  rewrite incr_at. replace (p + 1 + Z.of_nat i + 1) with (p + 1 + Z.of_nat (S i)) by lia.
  replace (ptr_offset F + 16 * i + 16)%nat with (ptr_offset F + 16 * S i)%nat by lia.
  pose proof (same_apply rs _ d' Hs Ho) as Hs'. cbn [apply_copy] in Hs'.
  destruct (gfs2_revoke_check rs tail _ _); [|rewrite read_same by done]; (apply IH; [done|lia|done]).
Qed.

Lemma revoke_entries_slots p b cap : forall fuel off cnt rs,
  (0 < cnt)%nat -> Z.of_nat cnt < 2 ^ 32 -> capacity off = cap -> (cap < fuel)%nat ->
  revoke_entries J fuel b off (Z.of_nat cnt) (at_pos p) rs =
    (foldl add_revoke rs (Revoke p <$> slots off b (Nat.min cnt cap)), Z.of_nat (cnt - Nat.min cnt cap)).
Proof.
  unfold capacity. induction cap as [|cap IH]; intros fuel off cnt rs Hc Hc32 Hcap Hf; (destruct fuel as [|fuel]; [lia|]).
  - cbn [revoke_entries]. rewrite (proj2 (Z.leb_gt _ _)).
    { rewrite Nat.min_0_r, Nat.sub_0_r. done. }
    assert (~ 1 <= (j_bsize J - Z.of_nat off) / 8) by lia. pose proof (Z.div_le_lower_bound (j_bsize J - Z.of_nat off) 8 1 ltac:(lia)). lia.
  - cbn [revoke_entries]. assert (1 <= (j_bsize J - Z.of_nat off) / 8) by lia.
    pose proof (Z.mul_div_le (j_bsize J - Z.of_nat off) 8 ltac:(lia)). rewrite (proj2 (Z.leb_le _ _)) by lia.
    rewrite wrap_small by (unfold in_u; lia).
    destruct (Z.eqb_spec (Z.of_nat cnt - 1) 0).
    + replace cnt with 1%nat by lia. cbn. rewrite Nat.add_0_r. done.
    + replace (Z.of_nat cnt - 1) with (Z.of_nat (cnt - 1)) by lia. rewrite (IH fuel (off + 8)%nat).
      * replace (Nat.min cnt (S cap)) with (S (Nat.min (cnt - 1) cap)) by lia. unfold slots. cbn [seq fmap list_fmap foldl add_revoke].
        rewrite Nat.mul_0_r, Nat.add_0_r, <- fmap_S_seq, <- !list_fmap_compose. f_equal; [|lia]. f_equal.
        apply list_fmap_ext. intros ? ? _. apply (f_equal (fun o => Revoke p (be_get 8 o b))). lia.
      * lia.
      * lia.
      * replace (j_bsize J - Z.of_nat (off + 8)) with (j_bsize J - Z.of_nat off + (-1) * 8) by lia. rewrite Z.div_add by lia. lia.
      * lia.
Qed.

Lemma revoke_blocks_records len : forall first p off cnt rs rcs d', same_log d' -> Z.of_nat cnt < 2 ^ 32 ->
  revoke_records len first p off cnt = Some rcs ->
  revoke_blocks F J len d' first off (Z.of_nat cnt) (at_pos p) rs = (0, foldl add_revoke rs rcs).
Proof.
  induction len as [|len IH]; intros first p off cnt rs rcs d' Hs Hc Hr; cbn in Hr |- *.
  - destruct (cnt =? 0)%nat; [|done]. by injection Hr as <-.
  - destruct (_ || _) eqn:E; [done|]. apply orb_false_iff in E as [Hc0 Hm]. apply Nat.eqb_neq in Hc0.
    apply bind_Some in Hr as (rest & Hrest & [= <-]).
    rewrite read_same, Hm by done. rewrite (revoke_entries_slots p _ (capacity off)); [|lia|done|done|].
    + rewrite incr_at. rewrite (IH _ _ _ _ _ rest) by (done || lia). by rewrite foldl_app.
    + pose proof (jo_bsize _ Hj). unfold capacity. pose proof (Z.mul_div_le (j_bsize J - Z.of_nat off) 8 ltac:(lia)). lia.
Qed.

(** ** A descriptor and the whole log *)

Context (Hty : types_ok F).

(** The effect of a pass on the disk and on the table. *)
Definition effect (pass : Z) (s : disk * revokes) (r : record) : disk * revokes :=
  if pass =? 0 then (fst s, add_revoke (snd s) r) else (apply_copy (snd s) (fst s) r, snd s).

Lemma effect_pass0 rcs d' rs : foldl (effect 0) (d', rs) rcs = (d', foldl add_revoke rs rcs).
Proof. revert rs. induction rcs as [|r rcs IH]; intros rs; [done|apply IH]. Qed.

Lemma effect_pass1 rcs d' rs : foldl (effect 1) (d', rs) rcs = (foldl (apply_copy rs) d' rcs, rs).
Proof. revert d'. induction rcs as [|r rcs IH]; intros d'; [done|apply IH]. Qed.

Lemma copies_only rs (f : nat -> record) l : (forall i, exists p b data, f i = Copy p b data) ->
  foldl add_revoke rs (f <$> l) = rs.
Proof. intros Hf. induction l as [|i l IH]; [done|]. cbn. by destruct (Hf i) as (? & ? & ? & ->). Qed.

Lemma revokes_only rs d' len : forall first p off cnt rcs, revoke_records len first p off cnt = Some rcs ->
  foldl (apply_copy rs) d' rcs = d'.
Proof.
  induction len as [|len IH]; intros first p off cnt rcs Hr; cbn in Hr.
  - destruct (cnt =? 0)%nat; [|done]. by injection Hr as <-.
  - destruct (_ || _); [done|]. apply bind_Some in Hr as (rest & Hrest & [= <-]). rewrite foldl_app.
    assert (forall l, foldl (apply_copy rs) d' (Revoke p <$> l) = d') as -> by (induction l as [|b l IHl]; [done|apply IHl]).
    by apply IH in Hrest.
Qed.

Context (Hbytes : forall p, Forall is_byte (log_block p)).

Lemma be_get_range off p : in_u 32 (be_get 4 off (log_block p)).
Proof. apply (be_get_bytes 4), Hbytes. Qed.

Lemma buf_scan p d' rs : same_log d' -> be_get 4 (f_ld_type F) (log_block p) = GFS2_LOG_DESC_METADATA F ->
  let n := Z.to_nat (be_get 4 (f_ld_data1 F) (log_block p)) in
  (ptr_offset F + 8 * n <= length (log_block p))%nat ->
  forallb (fun i => has_magic (log_block (p + 1 + Z.of_nat i))) (seq 0 n) = true ->
  Forall outside (meta_records p (log_block p) 0 n) ->
  buf_lo_scan_elements F J d' (log_block p) (ptr_offset F) rs tail (at_pos p) 1 =
    Some (0, foldl (apply_copy rs) d' (meta_records p (log_block p) 0 n)).
Proof.
  intros Hs Hm n Hlen Hmagic Ho. unfold buf_lo_scan_elements. rewrite Hm, !Z.eqb_refl, incr_at. cbn [negb orb Z.eqb Pos.eqb].
  pose proof (buf_elements_records rs p (log_block p) n 0 d' Hs) as E. rewrite Nat.mul_0_r, !Nat.add_0_r, Z.add_0_r in E.
  apply E; [lia| |done]. intros k Hk. rewrite forallb_forall in Hmagic. apply Hmagic, in_seq. lia.
Qed.

Lemma databuf_scan p d' rs : same_log d' -> be_get 4 (f_ld_type F) (log_block p) = GFS2_LOG_DESC_JDATA F ->
  let n := Z.to_nat (be_get 4 (f_ld_data1 F) (log_block p)) in
  (ptr_offset F + 16 * n <= length (log_block p))%nat -> Forall outside (data_records p (log_block p) 0 n) ->
  databuf_lo_scan_elements F J d' (log_block p) (ptr_offset F) rs tail (at_pos p) 1 =
    Some (0, foldl (apply_copy rs) d' (data_records p (log_block p) 0 n)).
Proof.
  intros Hs Hm n Hlen Ho. unfold databuf_lo_scan_elements. rewrite Hm, !Z.eqb_refl, incr_at. cbn [negb orb Z.eqb Pos.eqb].
  pose proof (databuf_elements_records rs p (log_block p) n 0 d' Hs) as E.
  rewrite Nat.mul_0_r, !Nat.add_0_r, Z.add_0_r in E. apply E; [lia|done].
Qed.

Lemma revoke_scan p d' rs rcs : same_log d' -> be_get 4 (f_ld_type F) (log_block p) = GFS2_LOG_DESC_REVOKE F ->
  revoke_records (Z.to_nat (be_get 4 (f_ld_length F) (log_block p))) true p (f_ld_size F)
    (Z.to_nat (be_get 4 (f_ld_data1 F) (log_block p))) = Some rcs ->
  revoke_lo_scan_elements F J d' (log_block p) rs (at_pos p) 0 = (0, foldl add_revoke rs rcs).
Proof.
  intros Hs Hm Hr. unfold revoke_lo_scan_elements. rewrite Hm, !Z.eqb_refl. cbn [negb orb Z.eqb].
  pose proof (be_get_range (f_ld_data1 F) p) as [H0 H32].
  rewrite <- (Z2Nat.id (be_get 4 (f_ld_data1 F) _)) by done. apply revoke_blocks_records; [done|lia|done].
Qed.

(** A descriptor of another type, or in the other pass, is passed over. *)
Lemma databuf_skip d' b ptr rs start pass : pass = 0 \/ be_get 4 (f_ld_type F) b <> GFS2_LOG_DESC_JDATA F ->
  databuf_lo_scan_elements F J d' b ptr rs tail start pass = Some (0, d').
Proof. intros [-> | H%Z.eqb_neq]; unfold databuf_lo_scan_elements; [done|]. by rewrite H, orb_true_r. Qed.

Lemma buf_skip d' b ptr rs start pass : pass = 0 \/ be_get 4 (f_ld_type F) b <> GFS2_LOG_DESC_METADATA F ->
  buf_lo_scan_elements F J d' b ptr rs tail start pass = Some (0, d').
Proof. intros [-> | H%Z.eqb_neq]; unfold buf_lo_scan_elements; [done|]. by rewrite H, orb_true_r. Qed.

Lemma revoke_skip d' b rs start pass : pass = 1 \/ be_get 4 (f_ld_type F) b <> GFS2_LOG_DESC_REVOKE F ->
  revoke_lo_scan_elements F J d' b rs start pass = (0, rs).
Proof. intros [-> | H%Z.eqb_neq]; unfold revoke_lo_scan_elements; [done|]. by rewrite H, orb_true_r. Qed.

(** After a call without error. *)
Ltac ok_bind := cbn [mbind option_bind c_true negb Z.eqb].

(** The calls for a descriptor do in each pass what its records say. *)
Lemma scan_descriptor_records pass p d' rs rcs : pass = 0 \/ pass = 1 -> same_log d' -> Forall outside rcs ->
  descriptor_records p (log_block p) = Some rcs ->
  scan_descriptor F J d' (log_block p) rs tail (at_pos p) pass =
    let '(d1, rs1) := foldl (effect pass) (d', rs) rcs in Some (0, d1, rs1).
Proof.
  intros Hp Hs Ho Hd. destruct Hty as [Hmr Hmj Hrj]. unfold descriptor_records in Hd. unfold scan_descriptor.
  destruct (Z.eqb_spec (be_get 4 (f_ld_type F) (log_block p)) (GFS2_LOG_DESC_METADATA F)) as [Em|Em].
  { destruct (_ && _) eqn:E; [|done]. injection Hd as <-. apply andb_true_iff in E as [[_ Hl]%andb_true_iff Hmagic].
    apply Nat.leb_le in Hl. rewrite databuf_skip by (right; congruence). ok_bind.
    destruct Hp as [-> | ->].
    - rewrite buf_skip by by left. ok_bind. rewrite revoke_skip by (right; congruence).
      rewrite effect_pass0. unfold meta_records. by rewrite copies_only by eauto.
    - rewrite buf_scan by done. ok_bind. rewrite revoke_skip by by left. by rewrite effect_pass1. }
  destruct (Z.eqb_spec (be_get 4 (f_ld_type F) (log_block p)) (GFS2_LOG_DESC_JDATA F)) as [Ej|Ej].
  { destruct (_ && _) eqn:E; [|done]. injection Hd as <-. apply andb_true_iff in E as [_ Hl]. apply Nat.leb_le in Hl.
    destruct Hp as [-> | ->].
    - rewrite databuf_skip by by left. ok_bind. rewrite buf_skip by by left. ok_bind. rewrite revoke_skip by (right; congruence).
      rewrite effect_pass0. unfold data_records. by rewrite copies_only by eauto.
    - rewrite databuf_scan by done. ok_bind. rewrite buf_skip by by right. ok_bind. rewrite revoke_skip by by left. by rewrite effect_pass1. }
  rewrite databuf_skip by by right. ok_bind. rewrite buf_skip by by right. ok_bind.
  destruct (Z.eqb_spec (be_get 4 (f_ld_type F) (log_block p)) (GFS2_LOG_DESC_REVOKE F)) as [Er|Er].
  - destruct Hp as [-> | ->].
    + by rewrite (revoke_scan p d' rs rcs), effect_pass0.
    + rewrite revoke_skip by by left. by rewrite effect_pass1, (revokes_only rs d' _ _ _ _ _ _ Hd).
  - injection Hd as <-. by rewrite revoke_skip by by right.
Qed.

(** Disks are compared block by block. *)
Definition disk_eq : relation disk := pointwise_relation Z eq.

Lemma effect_eq pass rcs : forall d1 d2 rs, disk_eq d1 d2 ->
  disk_eq (fst (foldl (effect pass) (d1, rs) rcs)) (fst (foldl (effect pass) (d2, rs) rcs)) /\
  snd (foldl (effect pass) (d1, rs) rcs) = snd (foldl (effect pass) (d2, rs) rcs).
Proof.
  induction rcs as [|r rcs IH]; intros d1 d2 rs E; [done|]. cbn [foldl]. unfold effect at 2 4 6 8. cbn [fst snd].
  destruct (pass =? 0); [by apply IH|]. apply IH. destruct r as [p b data|]; [|done]. cbn [apply_copy].
  destruct (gfs2_revoke_check _ _ _ _); [done|]. intros x. destruct (decide (b = x)) as [->|].
  - by rewrite !disk_insert_eq.
  - by rewrite !disk_insert_ne.
Qed.

Lemma same_effect pass rcs d' rs : same_log d' -> Forall outside rcs -> same_log (fst (foldl (effect pass) (d', rs) rcs)).
Proof.
  intros Hs Ho. revert d' rs Hs. induction Ho as [|r rcs Hr _ IH]; intros d' rs Hs; [done|]. cbn [foldl].
  unfold effect at 2. cbn [fst snd]. destruct (pass =? 0); apply IH; [done|by apply same_apply].
Qed.

Lemma same_put_back d' p : same_log d' -> same_log (put_back J d' (at_pos p) (log_block p)).
Proof.
  intros Hs x Hx. unfold put_back. destruct (decide (j_map J (at_pos p) = j_map J x)) as [E|].
  - rewrite E, disk_insert_eq. unfold log_block. by rewrite E.
  - rewrite disk_insert_ne by done. by apply Hs.
Qed.

Lemma put_back_eq d' p : same_log d' -> disk_eq (put_back J d' (at_pos p) (log_block p)) d'.
Proof.
  intros Hs x. unfold put_back. destruct (decide (j_map J (at_pos p) = x)) as [<-|].
  - rewrite disk_insert_eq. symmetry. apply Hs, at_pos_range.
  - by rewrite disk_insert_ne.
Qed.

Lemma foreach_records pass fuel : pass = 0 \/ pass = 1 -> forall p rcs d' rs, 0 <= p <= L -> same_log d' -> Forall outside rcs ->
  log_records fuel p = Some rcs ->
  exists d1, foreach_descriptor F J fuel d' rs tail (at_pos p) (at_pos L) pass =
      Some (0, d1, snd (foldl (effect pass) (d', rs) rcs)) /\
    disk_eq d1 (fst (foldl (effect pass) (d', rs) rcs)).
Proof.
  intros Hpass. induction fuel as [|fuel IH]; intros p rcs d' rs Hp Hs Ho Hr; [done|].
  cbn [log_records] in Hr. cbn [foreach_descriptor]. destruct (Z.eqb_spec p L) as [->|Hne].
  { rewrite Z.eqb_refl. injection Hr as <-. by exists d'. }
  rewrite (proj2 (Z.eqb_neq (at_pos p) _)) by (intros E%at_pos_inj; lia). rewrite read_same by done.
  unfold has_magic in Hr. destruct (be_get 4 (f_magic F) (log_block p) =? GFS2_MAGIC F); [cbn [negb] in *|done].
  pose proof (same_put_back d' p Hs) as Hsp. pose proof (put_back_eq d' p Hs) as Hpe.
  destruct (be_get 4 (f_type F) (log_block p) =? GFS2_METATYPE_LH F).
  - rewrite header_same by done. destruct (get_log_header F J d (at_pos p)); [done..|]. rewrite incr_at.
    destruct (IH (p + 1) rcs _ rs ltac:(lia) Hsp Ho Hr) as (d1 & -> & E1).
    destruct (effect_eq pass rcs _ _ rs Hpe) as [E2 ->]. exists d1. split; [done|]. by etrans.
  - destruct (_ || _) eqn:Eg; [done|]. apply orb_false_iff in Eg as [[Hm Hl]%orb_false_iff HpL].
    rewrite Hm. zbool. apply bind_Some in Hr as (r1 & Hr1 & (r2 & Hr2 & [= <-])%bind_Some).
    apply Forall_app in Ho as [Ho1 Ho2]. rewrite (scan_descriptor_records pass p d' rs r1) by done.
    rewrite foldl_app. pose proof (same_effect pass r1 d' rs Hs Ho1) as Hs1.
    destruct (foldl (effect pass) (d', rs) r1) as [d1 rs1]. cbn [fst] in Hs1. ok_bind.
    rewrite iter_incr_at, Z2Nat.id by lia.
    destruct (IH (p + be_get 4 (f_ld_length F) (log_block p)) r2 _ rs1 ltac:(lia) (same_put_back d1 p Hs1) Ho2 Hr2) as (d2 & -> & E1).
    destruct (effect_eq pass r2 _ _ rs1 (put_back_eq d1 p Hs1)) as [E2 ->]. exists d2. split; [done|]. by etrans.
Qed.

(** ** The order of the records *)

(** The positions rise from [lo], below [hi]; copies are not at the tail itself. *)
Fixpoint placed (lo hi : Z) (rcs : list record) : Prop :=
  match rcs with
  | [] => lo <= hi
  | r :: rcs' => lo <= position r < hi /\ (match r with Copy p _ _ => 0 < p | Revoke _ _ => True end) /\ placed (position r) hi rcs'
  end.

Lemma placed_mono hi hi' rcs : hi <= hi' -> forall lo lo', lo' <= lo -> placed lo hi rcs -> placed lo' hi' rcs.
Proof.
  intros Hhi. induction rcs as [|r rcs IH]; cbn; [lia|]. intros lo lo' Hlo (? & ? & ?).
  split_and!; [lia..|done|]. by apply (IH (position r)).
Qed.

Lemma placed_app m hi r1 r2 : placed m hi r2 -> m <= hi -> forall lo, placed lo m r1 -> placed lo hi (r1 ++ r2).
Proof.
  intros H2 Hm. induction r1 as [|r r1 IH]; cbn; intros lo.
  - intros. by apply (placed_mono hi hi r2 ltac:(lia) m lo).
  - intros (? & ? & ?). split_and!; [lia..|done|]. by apply IH.
Qed.

Lemma placed_seq f p hi n : (forall i, exists b data, f i = Copy (p + 1 + Z.of_nat i) b data) -> 0 <= p ->
  forall i lo, p + 1 + Z.of_nat (i + n) <= hi -> lo <= p + 1 + Z.of_nat i -> placed lo hi (f <$> seq i n).
Proof.
  intros Hf Hp. induction n as [|n IH]; cbn [seq fmap list_fmap placed]; intros i lo Hi Hlo; [lia|].
  destruct (Hf i) as (b & data & ->). cbn [position]. split_and!; [lia..|]. apply IH; lia.
Qed.

Lemma placed_revokes len : forall first p off cnt rcs hi, revoke_records len first p off cnt = Some rcs ->
  p + Z.of_nat len <= hi -> placed p hi rcs.
Proof.
  induction len as [|len IH]; intros first p off cnt rcs hi Hr Hhi; cbn in Hr.
  - destruct (cnt =? 0)%nat; [|done]. injection Hr as <-. cbn. lia.
  - destruct (_ || _); [done|]. apply bind_Some in Hr as (rest & Hrest & [= <-]).
    apply (placed_app (p + 1)); [apply (IH _ _ _ _ _ _ Hrest); lia|lia|].
    generalize (slots off (log_block p) (cnt `min` capacity off)). intros l.
    induction l as [|b l IHl]; cbn; [lia|]. split_and!; [lia..|done|done].
Qed.

Lemma placed_descriptor p rcs : 0 <= p -> descriptor_records p (log_block p) = Some rcs ->
  1 <= be_get 4 (f_ld_length F) (log_block p) -> placed p (p + be_get 4 (f_ld_length F) (log_block p)) rcs.
Proof.
  intros Hp Hd Hl. unfold descriptor_records in Hd. destruct (_ =? _).
  { destruct (_ && _) eqn:E; [|done]. injection Hd as <-. apply andb_true_iff in E as [[E _]%andb_true_iff _].
    apply Nat.ltb_lt in E. apply (placed_seq _ p); [eauto|lia..]. }
  destruct (_ =? _).
  { destruct (_ && _) eqn:E; [|done]. injection Hd as <-. apply andb_true_iff in E as [E _].
    apply Nat.ltb_lt in E. apply (placed_seq _ p); [eauto|lia..]. }
  destruct (_ =? _); [|injection Hd as <-; cbn [placed]; lia]. apply (placed_revokes _ _ _ _ _ _ _ Hd). lia.
Qed.

Lemma placed_log fuel : forall p rcs, 0 <= p <= L -> log_records fuel p = Some rcs -> placed p L rcs.
Proof.
  induction fuel as [|fuel IH]; intros p rcs Hp Hr; [done|]. cbn [log_records] in Hr.
  destruct (Z.eqb_spec p L) as [->|]; [injection Hr as <-; cbn; lia|].
  destruct (negb (has_magic _)); [done|]. destruct (_ =? GFS2_METATYPE_LH F).
  - destruct (get_log_header _ _ _ _); [done..|]. apply (placed_mono L L _ ltac:(lia) (p + 1) p); [lia|]. apply IH; [lia|done].
  - destruct (_ || _) eqn:Eg; [done|]. apply orb_false_iff in Eg as [[_ Hl]%orb_false_iff HpL]. zbool.
    apply bind_Some in Hr as (r1 & Hr1 & (r2 & Hr2 & [= <-])%bind_Some).
    apply (placed_app (p + be_get 4 (f_ld_length F) (log_block p))); [apply IH; [lia|done]|lia|].
    apply placed_descriptor; [lia|done|lia].
Qed.

(** ** The table and the rule *)

(** The last revoke of a block. *)
Fixpoint last_revoke (rcs : list record) (blkno : Z) : option Z :=
  match rcs with
  | [] => None
  | r :: rcs' =>
      match last_revoke rcs' blkno with
      | Some p => Some p
      | None => match r with Revoke p b => if b =? blkno then Some p else None | Copy _ _ _ => None end
      end
  end.

Lemma revoke_find_move rs b w blkno :
  revoke_find (revoke_move rs b w) blkno = if b =? blkno then (fun _ => w) <$> revoke_find rs blkno else revoke_find rs blkno.
Proof.
  unfold revoke_find. induction rs as [|[b' w'] rs IH]; cbn; [by destruct (b =? blkno)|].
  destruct (Z.eqb_spec b' b) as [->|]; cbn; [by destruct (b =? blkno)|].
  destruct (Z.eqb_spec b' blkno) as [->|]; [|done]. by rewrite (proj2 (Z.eqb_neq b blkno)) by congruence.
Qed.

Lemma revoke_find_add rs b w blkno :
  revoke_find (gfs2_revoke_add rs b w) blkno = if b =? blkno then Some w else revoke_find rs blkno.
Proof.
  unfold gfs2_revoke_add. destruct (revoke_find rs b) eqn:E.
  - rewrite revoke_find_move. destruct (Z.eqb_spec b blkno) as [->|]; [by rewrite E|done].
  - unfold revoke_find. cbn. by destruct (b =? blkno).
Qed.

Lemma table_last rcs blkno : forall rs, revoke_find (foldl add_revoke rs rcs) blkno =
  match last_revoke rcs blkno with Some p => Some (at_pos p) | None => revoke_find rs blkno end.
Proof.
  induction rcs as [|r rcs IH]; intros rs; [done|]. cbn [foldl last_revoke]. rewrite IH.
  destruct (last_revoke rcs blkno); [done|]. destruct r as [|p b]; [done|]. cbn [add_revoke].
  rewrite revoke_find_add. by destruct (b =? blkno).
Qed.

Lemma last_revoke_range rcs blkno hi q : forall lo, placed lo hi rcs -> last_revoke rcs blkno = Some q -> lo <= q < hi.
Proof.
  induction rcs as [|r rcs IH]; intros lo; [done|]. cbn. intros (Hr & _ & Hp).
  destruct (last_revoke rcs blkno); [intros [= ->]; pose proof (IH _ Hp eq_refl); lia|].
  destruct r as [|p b]; [done|]. destruct (b =? blkno); [|done]. by intros [= ->].
Qed.

Lemma revoked_last rcs blkno hi pos : forall lo, placed lo hi rcs ->
  revoked rcs pos blkno = match last_revoke rcs blkno with Some q => pos <? q | None => false end.
Proof.
  induction rcs as [|r rcs IH]; intros lo; [done|]. intros (Hr & _ & Hp).
  cbn [last_revoke]. unfold revoked. cbn [existsb]. fold (revoked rcs pos blkno). rewrite (IH _ Hp).
  destruct (last_revoke rcs blkno) as [q|] eqn:E.
  - pose proof (last_revoke_range rcs blkno hi q _ Hp E). destruct r as [|p b]; [done|]. cbn in *.
    destruct (b =? blkno); [|done]. cbn. destruct (Z.ltb_spec pos p), (Z.ltb_spec pos q); done || lia.
  - rewrite orb_false_r. destruct r as [|p b]; [done|]. by destruct (b =? blkno).
Qed.

Lemma foldl_ext_elem {A B : Type} (f g : A -> B -> A) (l : list B) : forall a,
  (forall b a, b ∈ l -> f a b = g a b) -> foldl f a l = foldl g a l.
Proof.
  induction l as [|b l IH]; intros a Hfg; [done|]. cbn. rewrite Hfg by set_solver. apply IH. set_solver.
Qed.

Lemma placed_copy rcs p b data hi : Copy p b data ∈ rcs -> forall lo, placed lo hi rcs -> 0 < p < hi.
Proof.
  induction rcs as [|r rcs IH]; intros Hin lo; [by apply elem_of_nil in Hin|]. cbn. intros (Hr & Hc & Hp).
  apply elem_of_cons in Hin as [<-|Hin]; [cbn in *; lia|by apply (IH Hin (position r))].
Qed.

Lemma apply_recovers (rcs : list record) : 0 <= tail < N -> placed 0 L rcs ->
  forall r d', r ∈ rcs -> apply_copy (foldl add_revoke [] rcs) d' r = recover_one rcs d' r.
Proof.
  intros Ht Hp r d' Hr. destruct r as [p b data|]; [|done]. cbn [apply_copy recover_one].
  pose proof (placed_copy rcs p b data L Hr 0 Hp) as Hpos.
  rewrite (revoked_last rcs b L p 0 Hp). pose proof (table_last rcs b []) as E.
  destruct (last_revoke rcs b) as [q|] eqn:El.
  - rewrite (revoke_check_position _ b p q E Ht) by (pose proof (last_revoke_range rcs b L q 0 Hp El); lia). done.
  - unfold gfs2_revoke_check. by rewrite E.
Qed.

Lemma replay_records fuel head rcs : 0 <= tail < N -> lh_tail head = tail -> lh_blkno head = at_pos L ->
  Forall outside rcs -> log_records fuel 0 = Some rcs ->
  exists d1, replay F J fuel d head = Some (0, d1) /\ disk_eq d1 (recovered rcs d) /\ same_log d1.
Proof.
  intros Ht Etail Eblk Ho Hr. assert (at_pos 0 = tail) as E0 by (unfold at_pos; rewrite Z.add_0_r; by apply Z.mod_small).
  assert (same_log d) as Hs by done. unfold replay. rewrite Etail, Eblk.
  pose proof (foreach_records 0 fuel (or_introl eq_refl) 0 rcs d [] ltac:(lia) Hs Ho Hr) as (d0 & R0 & H0).
  rewrite E0 in R0. rewrite R0.
  rewrite effect_pass0 in *. cbn [fst snd] in *. ok_bind.
  assert (same_log d0) as Hs0 by (intros x Hx; rewrite H0; by apply Hs).
  pose proof (foreach_records 1 fuel (or_intror eq_refl) 0 rcs d0 (foldl add_revoke [] rcs) ltac:(lia) Hs0 Ho Hr) as (d1 & R1 & H1).
  rewrite E0 in R1. rewrite R1.
  exists d1. split; [done|]. set (rs := foldl add_revoke [] rcs) in *.
  destruct (effect_eq 1 rcs d0 d rs H0) as [E1 _]. pose proof (same_effect 1 rcs d rs Hs Ho) as Hs1.
  rewrite !effect_pass1 in *. cbn [fst] in *.
  assert (foldl (apply_copy rs) d rcs = recovered rcs d) as Erec.
  { unfold recovered. pose proof (placed_log fuel 0 rcs ltac:(lia) Hr) as Hp.
    apply (foldl_ext_elem _ _ _ _ (fun r d' Hin => apply_recovers rcs Ht Hp r d' Hin)). }
  assert (disk_eq d1 (recovered rcs d)) as E by (rewrite <- Erec; by etrans).
  split; [done|]. intros x Hx. rewrite E, <- Erec. by apply Hs1.
Qed.
End replay.
