(* ===== verification/Gfs2Recover.v ===== *)
(** * Recovery of a GFS2 journal

    A dirty journal that can be read is replayed: the disk becomes what its records say, and
    the journal is clean, so that a second recovery finds nothing to do
    ([recover_journal_correct]).  The same holds of a journal that is written anew
    ([write_journal_clean]). *)

From stdpp Require Import functions.
From S2P Require Import Prelude PlockWire DiskHash QDiskBlock Gfs2Field Gfs2Log Gfs2LogHead Gfs2Replay.
Open Scope Z_scope.

(** ** Headers that are written *)

(** The fields of a log header in the order of the structure. *)
Record layout_ok (F : format) (bsize : Z) : Prop := {
  ly_magic : (f_magic F + 4 <= f_type F)%nat;
  ly_type : (f_type F + 4 <= f_pad0 F)%nat;
  ly_pad0 : (f_pad0 F + 8 <= f_format F)%nat;
  ly_format : (f_format F + 4 <= f_pad1 F)%nat;
  ly_pad1 : (f_pad1 F + 4 <= f_sequence F)%nat;
  ly_sequence : (f_sequence F + 8 <= f_flags F)%nat;
  ly_flags : (f_flags F + 4 <= f_tail F)%nat;
  ly_tail : (f_tail F + 4 <= f_blkno F)%nat;
  ly_blkno : (f_blkno F + 4 <= f_hash F)%nat;
  ly_hash : (f_hash F + 4 <= f_lh_size F)%nat;
  ly_size : Z.of_nat (f_lh_size F) <= bsize;
  ly_unmount : in_u 32 (GFS2_LOG_HEAD_UNMOUNT F) /\ GFS2_LOG_HEAD_UNMOUNT F <> 0
}.

(** Lengths and fields of blocks that fields have been set in. *)
Lemma be_set_sized K n off v b : (off + n <= K)%nat -> length b = K -> length (be_set n off v b) = K.
Proof. intros H <-. by apply be_set_length. Qed.

Ltac sized := repeat (apply be_set_sized; [lia|]); assumption.

Lemma field_inside K n off v b : length b = K -> (off + n <= K)%nat -> field n off (be_set n off v b) = store BigEndian n v.
Proof. intros <-. apply be_set_inside. Qed.

Lemma field_before K n off n' off' v b : length b = K -> (off' + n' <= off)%nat -> (off + n <= K)%nat ->
  field n' off' (be_set n off v b) = field n' off' b.
Proof. intros <-. apply be_set_before. Qed.

Lemma field_after K n off n' off' v b : length b = K -> (off + n <= off')%nat -> (off + n <= K)%nat ->
  field n' off' (be_set n off v b) = field n' off' b.
Proof. intros <-. apply be_set_after. Qed.

Ltac fields K :=
  repeat first [rewrite (field_inside K) by (sized || lia) | rewrite (field_before K) by (lia || sized)
               | rewrite (field_after K) by (lia || sized)].

Section headers.
Context (F : format) (J : journal) (Hly : layout_ok F (j_bsize J)).

(** A header with its checksum. *)
Definition seal (b : block) : block := be_set 4 (f_hash F) (gfs2_disk_hash (take (f_lh_size F) b)) b.

Lemma sealed_good d blk b seq : j_map J blk <> 0 -> d (j_map J blk) = seal b -> Z.of_nat (length b) = j_bsize J ->
  field 4 (f_hash F) b = store BigEndian 4 0 -> in_u 32 blk -> field 4 (f_blkno F) b = store BigEndian 4 blk ->
  in_u 64 seq -> field 8 (f_sequence F) b = store BigEndian 8 seq ->
  field 4 (f_flags F) b = store BigEndian 4 (GFS2_LOG_HEAD_UNMOUNT F) ->
  exists lh, get_log_header F J d blk = LhGood lh /\ lh_sequence lh = seq /\ lh_flags lh = GFS2_LOG_HEAD_UNMOUNT F.
Proof.
  destruct Hly. intros Hm Hd Hlen Hh Hblk Eblk Hseq Eseq Efl. unfold get_log_header, gfs2_replay_read_block.
  rewrite (proj2 (Z.eqb_neq _ _) Hm), Hd. unfold gfs2_log_header_in. cbn [lh_blkno lh_hash].
  rewrite (be_get_field 4 (f_blkno F) (seal b) blk Hblk) by (unfold seal; by rewrite be_set_before by lia).
  rewrite (be_get_field 4 (f_hash F) (seal b) _ (disk_hash_range (take (f_lh_size F) b))) by (apply be_set_inside; lia).
  unfold lh_checksum, seal at 1. rewrite be_set_twice, be_set_field by (done || lia). rewrite !Z.eqb_refl. cbn [negb orb].
  eexists. split; [done|]. cbn [lh_sequence lh_flags].
  split; (apply be_get_field; [done || apply ly_unmount0|]); unfold seal; by rewrite be_set_before by lia.
Qed.

Definition zeros : block := replicate (Z.to_nat (j_bsize J)) 0.

Lemma clean_header_good d blk seq : j_map J blk <> 0 -> d (j_map J blk) = clean_header F J seq blk -> in_u 32 blk -> in_u 64 seq ->
  exists lh, get_log_header F J d blk = LhGood lh /\ lh_sequence lh = seq /\ lh_flags lh = GFS2_LOG_HEAD_UNMOUNT F.
Proof.
  pose proof Hly as []. intros Hm Hd Hblk Hseq.
  assert (length zeros = Z.to_nat (j_bsize J)) by apply length_replicate.
  eapply sealed_good; [done|exact Hd|..]; try done; fold zeros.
  - transitivity (Z.of_nat (Z.to_nat (j_bsize J))); [f_equal; sized|lia].
  - fields (Z.to_nat (j_bsize J)). apply field_zeros. lia.
  - by fields (Z.to_nat (j_bsize J)).
  - by fields (Z.to_nat (j_bsize J)).
  - by fields (Z.to_nat (j_bsize J)).
Qed.

Lemma journal_header_good d blk seq : j_map J blk <> 0 -> d (j_map J blk) = journal_header F J seq blk -> in_u 32 blk -> in_u 64 seq ->
  exists lh, get_log_header F J d blk = LhGood lh /\ lh_sequence lh = seq /\ lh_flags lh = GFS2_LOG_HEAD_UNMOUNT F.
Proof.
  pose proof Hly as []. intros Hm Hd Hblk Hseq.
  assert (length zeros = Z.to_nat (j_bsize J)) by apply length_replicate.
  eapply sealed_good; [done|exact Hd|..]; try done; fold zeros; unfold gfs2_log_header_out, gfs2_meta_header_out;
    cbn [lh_magic lh_type lh_format lh_sequence lh_flags lh_tail lh_blkno lh_hash].
  - transitivity (Z.of_nat (Z.to_nat (j_bsize J))); [f_equal; sized|lia].
  - by fields (Z.to_nat (j_bsize J)).
  - by fields (Z.to_nat (j_bsize J)).
  - by fields (Z.to_nat (j_bsize J)).
  - by fields (Z.to_nat (j_bsize J)).
Qed.
End headers.

(** ** Journals that are clean *)

Section recover.
Context (F : format) (J : journal) (Hly : layout_ok F (j_bsize J)) (Hj : journal_ok J).
Notation N := (jd_blocks J).

(** No block of the disk is in the journal twice. *)
Definition map_inj : Prop := forall x y, 0 <= x < N -> 0 <= y < N -> j_map J x = j_map J y -> x = y.

Context (Hinj : map_inj).

(** Bounds for the loops. *)
Definition enough (fuel n : nat) : Prop := (Z.to_nat (2 * N) < fuel)%nat /\ (Z.to_nat N <= n)%nat.

Lemma recover_clean d h lh fuel n o e : sorted_log F J d h lh -> lh_flags lh = GFS2_LOG_HEAD_UNMOUNT F -> enough fuel n ->
  gfs2_recover_journal F J fuel n o e d = Some (0, true, d).
Proof.
  intros Hs Hfl [Hf Hn]. unfold gfs2_recover_journal, recover_head.
  rewrite (find_jhead_sorted F J d Hj h lh Hs fuel n Hf Hn). cbn [mbind option_bind].
  rewrite Hfl, Z.land_diag. pose proof (ly_unmount _ _ Hly) as [_ Hu]. unfold c_true. by rewrite (proj2 (Z.eqb_neq _ _) Hu).
Qed.

Lemma blocks_in_u blk : 0 <= blk < N -> in_u 32 blk.
Proof. pose proof (jo_size _ Hj). unfold in_u. lia. Qed.

(** *** Written anew *)

Lemma write_journal_other n z : forall d x seq, (forall y, x <= y < x + Z.of_nat n -> j_map J y <> z) ->
  write_journal_from F J n d x seq z = d z.
Proof.
  induction n as [|n IH]; intros d x seq Hz; [done|]. cbn [write_journal_from]. rewrite IH by (intros; apply Hz; lia).
  apply disk_insert_ne. apply Hz. lia.
Qed.

Lemma write_journal_block n y : forall d x seq, 0 <= x -> x + Z.of_nat n <= N -> 0 <= seq < N -> x <= y < x + Z.of_nat n ->
  write_journal_from F J n d x seq (j_map J y) = journal_header F J ((seq + (y - x)) mod N) y.
Proof.
  induction n as [|n IH]; intros d x seq Hx Hn Hseq Hy; [lia|]. cbn [write_journal_from].
  destruct (decide (y = x)) as [->|Hne].
  - rewrite write_journal_other.
    + rewrite disk_insert_eq. f_equal. rewrite Z.sub_diag, Z.add_0_r. symmetry. by apply Z.mod_small.
    + intros z Hz E. apply Hinj in E; lia.
  - rewrite IH by (try destruct (Z.eqb_spec (seq + 1) N); lia). f_equal.
    destruct (Z.eqb_spec (seq + 1) N).
    + replace (seq + (y - x)) with (0 + (y - (x + 1)) + 1 * N) by lia. by rewrite Z.mod_add by lia.
    + f_equal. lia.
Qed.

Lemma written_sorted d s : 0 <= s < N ->
  exists lh, sorted_log F J (write_journal F J d s) (N - 1 - s) lh /\ lh_flags lh = GFS2_LOG_HEAD_UNMOUNT F.
Proof.
  intros Hs. pose proof (jo_size _ Hj) as HN. set (d' := write_journal F J d s).
  assert (forall y, 0 <= y < N -> exists lh, get_log_header F J d' y = LhGood lh /\
    lh_sequence lh = (s + y) mod N /\ lh_flags lh = GFS2_LOG_HEAD_UNMOUNT F) as Hall.
  { intros y Hy. apply journal_header_good; [done|by apply (jo_map _ Hj)| |by apply blocks_in_u|].
    - unfold d', write_journal. rewrite write_journal_block by lia. f_equal. f_equal. lia.
    - pose proof (Z.mod_pos_bound (s + y) N). unfold in_u. lia. }
  assert (forall y, 0 <= y < N -> place J (N - 1 - s) y = (s + y) mod N) as Hpl.
  { intros y Hy. unfold place. destruct (Z.leb_spec y (N - 1 - s)); [rewrite Z.mod_small; lia|].
    apply Z.mod_unique with 1; lia. }
  destruct (Hall (N - 1 - s)) as (lh & Hh & _ & Hfl); [lia|]. exists lh. split; [|done]. split.
  - lia.
  - done.
  - intros b b' l l' Hb Hb' Hl Hl'. rewrite !Hpl by done. destruct (Hall b Hb) as (k & Hk & <- & _).
    destruct (Hall b' Hb') as (k' & Hk' & <- & _). congruence.
  - destruct (decide (N - 1 - s = 0)).
    + exists 1. destruct (Hall 1) as (l1 & ? & _); [lia|]. split_and!; [lia..|by exists l1].
    + exists 0. destruct (Hall 0) as (l0 & ? & _); [lia|]. split_and!; [lia..|by exists l0].
Qed.

(** *** Marked as clean *)

Lemma clean_sorted d d' h lh : sorted_log F J d h lh -> same_log J d d' ->
  0 <= lh_sequence lh -> lh_sequence lh + 1 < 2 ^ 64 ->
  exists d3 lh', clean_journal F J d' lh = Some d3 /\
    d3 = <[j_map J (gfs2_replay_incr_blk J h) := clean_header F J (lh_sequence lh + 1) (gfs2_replay_incr_blk J h)]> d' /\
    sorted_log F J d3 (gfs2_replay_incr_blk J h) lh' /\ lh_flags lh' = GFS2_LOG_HEAD_UNMOUNT F.
Proof.
  intros Hs Hsame H0 H64. pose proof (so_range _ _ _ _ _ Hs) as Hh. pose proof (jo_size _ Hj).
  pose proof (incr_blk J h Hj Hh) as El. set (l := gfs2_replay_incr_blk J h) in *.
  assert (0 <= l < N) as Hl by (rewrite El; destruct (Z.eqb_spec (h + 1) N); lia).
  unfold clean_journal. rewrite (hdr_blkno F J d h lh (so_head _ _ _ _ _ Hs)). fold l.
  rewrite (proj2 (Z.eqb_neq _ _) (jo_map _ Hj l Hl)), wrap_small by (unfold in_u; lia).
  set (d3 := <[_ := _]> d').
  destruct (clean_header_good F J Hly d3 l (lh_sequence lh + 1)) as (lh' & Hg & Hseq & Hfl).
  { by apply (jo_map _ Hj). } { apply disk_insert_eq. } { by apply blocks_in_u. } { unfold in_u. lia. }
  exists d3, lh'. split; [done|]. split; [done|]. split; [|done].
  assert (forall b, 0 <= b < N -> b <> l -> get_log_header F J d3 b = get_log_header F J d b) as Hother.
  { intros b Hb Hne. unfold get_log_header, gfs2_replay_read_block, d3.
    rewrite disk_insert_ne by (intros E; apply Hinj in E; [congruence|done..]). by rewrite (Hsame b Hb). }
  assert (forall b, 0 <= b < N -> b <> l -> place J l b = place J h b - 1) as Hplace.
  { intros b Hb Hne. rewrite El in *. unfold place. destruct (Z.eqb_spec (h + 1) N);
      repeat match goal with |- context [?x <=? ?y] => destruct (Z.leb_spec x y) end; lia. }
  assert (place J l l = N - 1) as Hll by (unfold place; rewrite Z.leb_refl; lia).
  split; [done|exact Hg| |].
  - intros b b' k k' Hb Hb' Hk Hk' Hlt. pose proof (place_range J l b' Hl Hb') as Hr'.
    assert (b <> l) as Hbl by (intros ->; lia). rewrite Hother in Hk by done. rewrite (Hplace b) in Hlt by done.
    destruct (decide (b' = l)) as [->|Hbl'].
    + rewrite Hk' in Hg. injection Hg as ->. rewrite Hseq.
      pose proof (proj2 (sequence_le_iff F J d h lh Hs b h k lh Hb Hh Hk (so_head _ _ _ _ _ Hs))) as Hle.
      pose proof (place_range J h b Hh Hb). assert (place J h h = N - 1) by (unfold place; rewrite Z.leb_refl; lia). lia.
    + rewrite Hother in Hk' by done. rewrite (Hplace b') in Hlt by done.
      apply (so_rise _ _ _ _ _ Hs b b'); try done. lia.
  - exists h. assert (h <> l) as Hhl by (rewrite El; destruct (Z.eqb_spec (h + 1) N); lia). split_and!; [lia..|done|].
    exists lh. rewrite Hother by done. apply (so_head _ _ _ _ _ Hs).
Qed.

(** *** Replayed *)

(** A dirty journal that can be read: its head is [lh] at [h], and [rcs] are the records from
    its tail to the head.  [Z.to_nat N] is enough fuel for [log_records], as every step is at
    least a block. *)
Record recoverable (d : disk) (h : Z) (lh : log_header) (rcs : list record) : Prop := {
  rc_bytes : forall x, Forall is_byte (d x);
  rc_sorted : sorted_log F J d h lh;
  rc_dirty : Z.land (lh_flags lh) (GFS2_LOG_HEAD_UNMOUNT F) = 0;
  rc_sequence : lh_sequence lh + 1 < 2 ^ 64;
  rc_tail : 0 <= lh_tail lh < N;
  rc_records : log_records F J d (lh_tail lh) ((h - lh_tail lh) mod N) (Z.to_nat N) 0 = Some rcs;
  rc_outside : Forall (outside J) rcs
}.

Context (Hty : types_ok F).

Lemma hdr_sequence d h lh : (forall x, Forall is_byte (d x)) -> get_log_header F J d h = LhGood lh -> 0 <= lh_sequence lh.
Proof.
  intros Hb. unfold get_log_header, gfs2_replay_read_block. destruct (_ =? 0); [done|]. destruct (_ || _); [done|].
  intros [= <-]. apply (be_get_bytes 8), Hb.
Qed.

Lemma recover_dirty d h lh rcs fuel n o e : recoverable d h lh rcs -> enough fuel n ->
  op_no o = false -> preen_is_safe o = true -> re_replay e = true ->
  exists d3 lh', gfs2_recover_journal F J fuel n o e d = Some (0, false, d3) /\
    sorted_log F J d3 (gfs2_replay_incr_blk J h) lh' /\ lh_flags lh' = GFS2_LOG_HEAD_UNMOUNT F /\
    forall x, x <> j_map J (gfs2_replay_incr_blk J h) -> d3 x = recovered rcs d x.
Proof.
  intros [Hb Hs Hd Hq Ht Hr Ho] [Hf Hn] Hno Hpre Hre. pose proof (jo_size _ Hj). pose proof (so_range _ _ _ _ _ Hs) as Hh.
  pose proof (so_head _ _ _ _ _ Hs) as Hg. pose proof (hdr_blkno F J d h lh Hg) as Hblk.
  set (L := (h - lh_tail lh) mod N) in *. assert (0 <= L < N) as HL by (apply Z.mod_pos_bound; lia).
  assert (lh_blkno lh = at_pos J (lh_tail lh) L) as Hend.
  { rewrite Hblk. unfold at_pos, L. rewrite Z.add_mod_idemp_r by lia.
    replace (lh_tail lh + (h - lh_tail lh)) with h by lia. symmetry. by apply Z.mod_small. }
  pose proof (hdr_sequence d h lh Hb Hg) as Hseq.
  apply (log_records_mono F J d (lh_tail lh) L (Z.to_nat N) fuel ltac:(lia)) in Hr.
  destruct (replay_records F J d (lh_tail lh) L Hj HL Hty (fun p => Hb _) fuel lh rcs Ht eq_refl Hend Ho Hr) as (d1 & Hrep & Heq & Hsame).
  destruct (clean_sorted d d1 h lh Hs Hsame Hseq Hq) as (d3 & lh' & Hcl & Hd3 & Hs3 & Hfl).
  exists d3, lh'. split_and!; [|done..|].
  - unfold gfs2_recover_journal, recover_head. rewrite (find_jhead_sorted F J d Hj h lh Hs fuel n Hf Hn). cbn [mbind option_bind].
    rewrite Hd, Hno, Hpre, Hre. cbn [c_true negb Z.eqb]. rewrite Hrep. cbn [mbind option_bind c_true negb Z.eqb]. by rewrite Hcl.
  - intros x Hx. rewrite Hd3, disk_insert_ne by congruence. apply Heq.
Qed.
End recover.

(** ** The sample journal is recovered *)

Module RecoverSample.
Import Sample.

Definition rcs : list record := default [] (log_records fmt jrn dsk 4 6 8 0).

Definition opts : fsck_opts := mkOpts false false false false.
Definition env : recover_env := mkEnv true true true 3 head.

Lemma fmt_layout : layout_ok fmt 128.
Proof. split; cbn; lia || (split; [unfold in_u; lia|done]). Qed.

Lemma fmt_types : types_ok fmt.
Proof. split; done. Qed.

Lemma jrn_inj : map_inj jrn.
Proof. intros x y _ _. cbn. lia. Qed.

Lemma dsk_bytes x : Forall is_byte (dsk x).
Proof.
  assert (forall b, forallb (fun v => (0 <=? v) && (v <? 256)) b = true -> Forall is_byte b) as Hb.
  { intros b H. rewrite forallb_forall in H. apply List.Forall_forall. intros v Hv%H. unfold is_byte. lia. }
  unfold dsk. destruct (_ && _); [|by apply Hb]. destruct (blocks !! _) as [b|] eqn:E; [|by apply Hb].
  apply Hb. assert (forallb (forallb (fun v => (0 <=? v) && (v <? 256))) blocks = true) as Hall by (vm_compute; reflexivity).
  rewrite forallb_forall in Hall. apply Hall, list_elem_of_In, (list_elem_of_lookup_2 _ _ _ E).
Qed.

Lemma rcs_outside : Forall (outside jrn) rcs.
Proof.
  assert (forallb (fun r => match r with Copy _ b _ => 108 <=? b | Revoke _ _ => true end) rcs = true) as H
    by (vm_compute; reflexivity).
  rewrite forallb_forall in H. apply List.Forall_forall. intros [p b data|] Hr%H; [|done]. intros x Hx. cbn in *. lia.
Qed.

Lemma dsk_recoverable : recoverable fmt jrn dsk 2 head rcs.
Proof.
  split; [apply dsk_bytes|apply dsk_sorted|..|apply rcs_outside]; (vm_compute; reflexivity) || (vm_compute; split; congruence).
Qed.

End RecoverSample.

(** C13: a dirty journal that can be read is recovered.  The disk becomes what the records of the
    journal say: each copy in its place, in the order of the log, but for the blocks
    revoked later.  Only the block after the head is changed in addition; with it the
    journal is clean, so a second recovery changes nothing. *)
Theorem recover_journal_correct (F : format) (J : journal) (d : disk) (h : Z) (lh : log_header) (rcs : list record)
    (fuel n : nat) (o : fsck_opts) (e : recover_env) :
  layout_ok F (j_bsize J) -> types_ok F -> journal_ok J -> map_inj J -> recoverable F J d h lh rcs -> enough J fuel n ->
  op_no o = false -> preen_is_safe o = true -> re_replay e = true ->
  exists d', gfs2_recover_journal F J fuel n o e d = Some (0, false, d') /\
    (forall x, x <> j_map J (gfs2_replay_incr_blk J h) -> d' x = recovered rcs d x) /\
    forall o' e', gfs2_recover_journal F J fuel n o' e' d' = Some (0, true, d').
Proof.
  intros Hly Hty Hj Hinj Hrc Hen Hno Hpre Hre.
  destruct (recover_dirty F J Hly Hj Hinj Hty d h lh rcs fuel n o e Hrc Hen Hno Hpre Hre) as (d' & lh' & Hr & Hs & Hfl & Hd).
  exists d'. split; [done|]. split; [done|]. intros o' e'. by apply (recover_clean F J Hly Hj d' (gfs2_replay_incr_blk J h) lh').
Qed.

Lemma recover_journal_correct_witness :
  exists d', gfs2_recover_journal Sample.fmt Sample.jrn 17 8 RecoverSample.opts RecoverSample.env Sample.dsk = Some (0, false, d') /\
    d' 500 = Sample.dsk 500 /\ d' 501 = Sample.content 8 /\
    gfs2_recover_journal Sample.fmt Sample.jrn 17 8 RecoverSample.opts RecoverSample.env d' = Some (0, true, d').
Proof.
  destruct (recover_journal_correct Sample.fmt Sample.jrn Sample.dsk 2 Sample.head RecoverSample.rcs 17 8
    RecoverSample.opts RecoverSample.env RecoverSample.fmt_layout RecoverSample.fmt_types Sample.jrn_ok
    RecoverSample.jrn_inj RecoverSample.dsk_recoverable) as (d' & H1 & H2 & H3); [split; cbn; lia|reflexivity..|].
  exists d'. split; [exact H1|]. split; [|split; [|apply H3]]; rewrite H2 by (vm_compute; congruence); vm_compute; reflexivity.
Defined.

(** Whatever was on the disk, a journal that is written anew is clean: recovery finds
    it so and changes nothing.  Blocks outside of the journal are left alone. *)
Theorem write_journal_clean (F : format) (J : journal) (d : disk) (s : Z) (fuel n : nat) (o : fsck_opts) (e : recover_env) :
  layout_ok F (j_bsize J) -> journal_ok J -> map_inj J -> 0 <= s < jd_blocks J -> enough J fuel n ->
  gfs2_recover_journal F J fuel n o e (write_journal F J d s) = Some (0, true, write_journal F J d s) /\
  forall z, (forall y, 0 <= y < jd_blocks J -> j_map J y <> z) -> write_journal F J d s z = d z.
Proof.
  intros Hly Hj Hinj Hs Hen. destruct (written_sorted F J Hly Hj Hinj d s Hs) as (lh & Hso & Hfl). split.
  - by apply (recover_clean F J Hly Hj _ (jd_blocks J - 1 - s) lh).
  - intros z Hz. apply write_journal_other. intros y Hy. apply Hz. lia.
Qed.

Lemma write_journal_clean_witness :
  gfs2_recover_journal Sample.fmt Sample.jrn 17 8 RecoverSample.opts RecoverSample.env
    (write_journal Sample.fmt Sample.jrn Sample.dsk 3) = Some (0, true, write_journal Sample.fmt Sample.jrn Sample.dsk 3) /\
  write_journal Sample.fmt Sample.jrn Sample.dsk 3 500 = Sample.dsk 500.
Proof.
  destruct (write_journal_clean Sample.fmt Sample.jrn Sample.dsk 3 17 8 RecoverSample.opts RecoverSample.env
    RecoverSample.fmt_layout Sample.jrn_ok RecoverSample.jrn_inj) as [H1 H2]; [cbn; lia|split; cbn; lia|].
  split; [exact H1|]. apply H2. clear. intros y Hy. cbn in *. lia.
Defined.
