(* ===== verification/Gfs2File.v ===== *)
(** * libgfs2: the blocks of a file

    The part of [src/gfs2/libgfs2/fs_ops.c] that finds and allocates the blocks of a file and
    reads and writes its bytes, and the tables of [misc.c] that it uses.  A file is an inode
    in a buffer of its own, a disk, and the state of the allocator of blocks, of which only
    the interface ([Allocator]) is used.  Buffers are copies of blocks that are written back
    when they are released. *)

From stdpp Require Import functions.
From S2P Require Import Prelude PlockWire DiskHash Gfs2Field Gfs2Log Gfs2Bits Gfs2Rgrp.
Open Scope Z_scope.

(** What the files need of the allocator. *)
Class Allocator (A : Type) := alloc : A -> blk_type -> res (Z * A).

(** Sizes and constants of [gfs2_ondisk.h]. *)
Record file_format := mkFf {
  ff_head : format;                 (* headers of metadata blocks *)
  ff_dinode : nat;                  (* [sizeof(struct gfs2_dinode)] *)
  GFS2_METATYPE_IN : Z; GFS2_FORMAT_IN : Z;
  GFS2_METATYPE_JD : Z; GFS2_FORMAT_JD : Z;
  GFS2_MAX_META_HEIGHT : nat;
  GFS2_SB_ADDR : Z; GFS2_BASIC_BLOCK : Z; GFS2_BASIC_BLOCK_SHIFT : Z; GFS2_DIR_MAX_DEPTH : Z
}.

(** ** Tables *)

(** The sizes up to which a file has a height, until a product does not fit; [slots] are left
    in the array, and writing behind it is a fault. *)
Fixpoint heightsize_loop (slots : nat) (inptrs last : Z) : res (list Z) :=
  let space := u64 (last * inptrs) in
  let m := u32 (space mod inptrs) in
  let d := space / inptrs in
  if negb (d =? last) || c_true m then mret []
  else
    match slots with
    | O => Fault
    | S slots' => l ← heightsize_loop slots' inptrs space; mret (space :: l)
    end.

(** The array as far as it is filled; [None] is the error. *)
Definition compute_heightsize (ff : file_format) (bsize bsize1 diptrs inptrs : Z) : res (option (list Z)) :=
  let h0 := bsize - Z.of_nat (ff_dinode ff) in
  let h1 := u32 (bsize1 * diptrs) in
  l ← heightsize_loop (GFS2_MAX_META_HEIGHT ff - 2) inptrs h1;
  let hs := h0 :: h1 :: l in
  mret (if (GFS2_MAX_META_HEIGHT ff <? length hs)%nat then None else Some hs).

Record consts := mkConsts {
  c_bsize : Z;
  c_shift : Z;                      (* [sb_bsize_shift] *)
  c_diptrs : Z;
  c_inptrs : Z;
  c_jbsize : Z;
  c_heightsize : list Z;            (* as long as [sd_max_height] *)
  c_jheightsize : list Z
}.

(** [ffs]: the position of the lowest bit that is set, from 1. *)
Definition ffs (z : Z) : Z := if z =? 0 then 0 else Z.log2 (Z.land z (- z)) + 1.

Definition DIV_RU (x y : Z) : Z := u32 (u32 (x + y - 1) / y).

(** The indirect blocks of a hash table of a directory; 32 rounds halve every number to 1. *)
Fixpoint ind_loop (fuel : nat) (diptrs inptrs tmp_blocks ind_blocks : Z) : res Z :=
  if tmp_blocks >? diptrs then
    match fuel with
    | O => Fault
    | S fuel' => let t := DIV_RU tmp_blocks inptrs in ind_loop fuel' diptrs inptrs t (u32 (ind_blocks + t))
    end
  else mret ind_blocks.

(** What directories and the superblock use. *)
Record dir_consts := mkDirConsts {
  next_inum : Z;
  sb_addr : Z;
  sd_fsb2bb_shift : Z;
  sd_fsb2bb : Z;
  sd_hash_bsize : Z;
  sd_hash_bsize_shift : Z;
  sd_hash_ptrs : Z;
  sd_max_dirres : Z
}.

Definition compute_constants (ff : file_format) (bsize : Z) : res (option (consts * dir_consts)) :=
  let shift := ffs bsize - 1 in
  let addr := GFS2_SB_ADDR ff * GFS2_BASIC_BLOCK ff / bsize in
  let fsb2bb_shift := shift - GFS2_BASIC_BLOCK_SHIFT ff in
  let diptrs := (bsize - Z.of_nat (ff_dinode ff)) / 8 in
  let inptrs := (bsize - Z.of_nat (f_mh_size (ff_head ff))) / 8 in
  let jbsize := bsize - Z.of_nat (f_mh_size (ff_head ff)) in
  let hash_bsize := bsize / 2 in
  let hash_blocks := DIV_RU (8 * Z.shiftl 1 (GFS2_DIR_MAX_DEPTH ff)) jbsize in
  ind_blocks ← ind_loop 32 diptrs inptrs hash_blocks 0;
  let leaf_blocks := 2 + GFS2_DIR_MAX_DEPTH ff in
  let dc := mkDirConsts 1 addr fsb2bb_shift (Z.shiftl 1 fsb2bb_shift) hash_bsize (shift - 1) (hash_bsize / 8)
              (u32 (hash_blocks + ind_blocks + leaf_blocks)) in
  hs ← compute_heightsize ff bsize bsize diptrs inptrs;
  match hs with
  | None => mret None
  | Some hs =>
      jhs ← compute_heightsize ff bsize jbsize diptrs inptrs;
      mret ((fun jhs => (mkConsts bsize shift diptrs inptrs jbsize hs jhs, dc)) <$> jhs)
  end.

(** ** Inodes and buffers *)

Record inode := mkInode {
  i_addr : Z;                       (* [di_num.no_addr] *)
  i_data : block;                   (* the buffer of the inode *)
  di_size : Z;
  di_height : nat;
  di_blocks : Z;
  di_goal_data : Z;
  di_goal_meta : Z
}.

Record file (A : Type) := mkFile { f_alloc : A; f_disk : disk; f_ip : inode }.
Arguments mkFile {A} f_alloc f_disk f_ip.
Arguments f_alloc {A} f.
Arguments f_disk {A} f.
Arguments f_ip {A} f.

Definition ip_set_data (ip : inode) (d : block) : inode :=
  mkInode (i_addr ip) d (di_size ip) (di_height ip) (di_blocks ip) (di_goal_data ip) (di_goal_meta ip).
Definition ip_set_size (ip : inode) (s : Z) : inode :=
  mkInode (i_addr ip) (i_data ip) s (di_height ip) (di_blocks ip) (di_goal_data ip) (di_goal_meta ip).
Definition ip_set_height (ip : inode) (h : nat) : inode :=
  mkInode (i_addr ip) (i_data ip) (di_size ip) h (di_blocks ip) (di_goal_data ip) (di_goal_meta ip).
Definition ip_add_block (ip : inode) : inode :=
  mkInode (i_addr ip) (i_data ip) (di_size ip) (di_height ip) (u64 (di_blocks ip + 1)) (di_goal_data ip) (di_goal_meta ip).
Definition ip_set_goals (ip : inode) (data meta : Z) : inode :=
  mkInode (i_addr ip) (i_data ip) (di_size ip) (di_height ip) (di_blocks ip) data meta.

(** The buffer of the inode, or one of a block, which may have been changed. *)
Inductive handle := HInode | HBlock (addr : Z) (data : block) (modified : bool).

Section file.
Context {A : Type} `{!Allocator A} (ff : file_format) (C : consts) (isdir : bool).

Definition with_ip (st : file A) (ip : inode) : file A := mkFile (f_alloc st) (f_disk st) ip.

Definition hdata (st : file A) (h : handle) : block :=
  match h with HInode => i_data (f_ip st) | HBlock _ d _ => d end.

Definition hput (st : file A) (h : handle) (d : block) : file A * handle :=
  match h with
  | HInode => (with_ip st (ip_set_data (f_ip st) d), HInode)
  | HBlock a _ _ => (st, HBlock a d true)
  end.

Definition zero_block : block := replicate (Z.to_nat (c_bsize C)) 0.

Definition bget (a : Z) : handle := HBlock a zero_block false.
Definition bread (st : file A) (a : Z) : handle := HBlock a (f_disk st a) false.

(** The buffer of the inode stays. *)
Definition brelse (st : file A) (h : handle) : file A :=
  match h with
  | HBlock a d true => mkFile (f_alloc st) (<[a := d]> (f_disk st)) (f_ip st)
  | _ => st
  end.

Definition read_or_inode (st : file A) (a : Z) : handle := if a =? i_addr (f_ip st) then HInode else bread st a.

Definition meta_head (type fmt : Z) (h : handle) : handle :=
  match h with
  | HInode => HInode
  | HBlock a d _ => HBlock a (gfs2_meta_header_out (ff_head ff) (GFS2_MAGIC (ff_head ff)) type fmt d) true
  end.

Definition mh_size : nat := f_mh_size (ff_head ff).

(** ** Allocation *)

Definition data_alloc (st : file A) : res (Z * file A) :=
  '(x, a) ← alloc (f_alloc st) DATA;
  mret (x, mkFile a (f_disk st) (ip_set_goals (f_ip st) x (di_goal_meta (f_ip st)))).

Definition meta_alloc (st : file A) : res (Z * file A) :=
  '(x, a) ← alloc (f_alloc st) META;
  mret (x, mkFile a (f_disk st) (ip_set_goals (f_ip st) (di_goal_data (f_ip st)) x)).

Definition buffer_clear_tail (b : block) (head : nat) : block :=
  take head b ++ replicate (Z.to_nat (c_bsize C) - head) 0.

Definition buffer_copy_tail (to : block) (to_head : nat) (from : block) (from_head : nat) : block :=
  take to_head to ++ drop from_head from ++ replicate (from_head - to_head) 0.

(** The data of a stuffed inode goes to a block. *)
Definition unstuff_dinode (st : file A) : res (file A) :=
  let di := ff_dinode ff in
  '(block, st) ←
    (if di_size (f_ip st) =? 0 then mret (0, st)
     else if isdir then
       '(block, st) ← meta_alloc st;
       let b := gfs2_meta_header_out (ff_head ff) (GFS2_MAGIC (ff_head ff)) (GFS2_METATYPE_JD ff) (GFS2_FORMAT_JD ff) zero_block in
       mret (block, brelse st (HBlock block (buffer_copy_tail b mh_size (i_data (f_ip st)) di) true))
     else
       '(block, st) ← data_alloc st;
       mret (block, brelse st (HBlock block (buffer_copy_tail zero_block 0 (i_data (f_ip st)) di) true)));
  let cleared := buffer_clear_tail (i_data (f_ip st)) di in
  let ip := if di_size (f_ip st) =? 0 then ip_set_data (f_ip st) cleared
            else ip_add_block (ip_set_data (f_ip st) (be_set 8 di block cleared)) in
  mret (with_ip st (ip_set_height ip 1)).

(** ** Heights *)

Fixpoint first_height (size : Z) (arr : list Z) : nat :=
  match arr with
  | [] => 0
  | a :: arr' => if a >=? size then 0 else S (first_height size arr')
  end.

Definition calc_tree_height (ip : inode) (size : Z) : nat :=
  let size := if di_size ip >? size then di_size ip else size in
  first_height size (if isdir then c_jheightsize C else c_heightsize C).

(** Whether the inode has a pointer. *)
Definition any_pointer (b : block) : bool :=
  existsb (fun x => negb (be_get 8 (ff_dinode ff + 8 * x) b =? 0)) (seq 0 (Z.to_nat (c_diptrs C))).

Definition build_one (st : file A) : res (file A) :=
  let di := ff_dinode ff in
  let new_block := any_pointer (i_data (f_ip st)) in
  '(block, st) ←
    (if new_block then
       '(block, st) ← meta_alloc st;
       let b := gfs2_meta_header_out (ff_head ff) (GFS2_MAGIC (ff_head ff)) (GFS2_METATYPE_IN ff) (GFS2_FORMAT_IN ff) zero_block in
       mret (block, brelse st (HBlock block (buffer_copy_tail b mh_size (i_data (f_ip st)) di) true))
     else mret (0, st));
  let cleared := buffer_clear_tail (i_data (f_ip st)) di in
  let ip := if new_block then ip_add_block (ip_set_data (f_ip st) (be_set 8 di block cleared))
            else ip_set_data (f_ip st) cleared in
  mret (with_ip st (ip_set_height ip (S (di_height ip)))).

Fixpoint build_loop_from (n : nat) (st : file A) : res (file A) :=
  match n with
  | O => mret st
  | S n' => st ← build_one st; build_loop_from n' st
  end.

Definition build_height (st : file A) (height : nat) : res (file A) :=
  build_loop_from (height - di_height (f_ip st)) st.

(** ** The way to a block *)

Fixpoint find_metapath (height : nat) (b : Z) (mp : list Z) : list Z :=
  match height with
  | O => mp
  | S h' => find_metapath h' (b / c_inptrs C) (b mod c_inptrs C :: mp)
  end.

Definition metapointer (height : nat) (i : Z) : nat :=
  ((if (0 <? height)%nat then mh_size else ff_dinode ff) + 8 * Z.to_nat i)%nat.

(** The pointer, allocated when it is missing and wanted: whether it is new, and what it is. *)
Definition lookup_block (st : file A) (h : handle) (height : nat) (i : Z) (create : bool) : res (file A * handle * bool * Z) :=
  let off := metapointer height i in
  if (length (hdata st h) <? off + 8)%nat then Fault else
  let ptr := be_get 8 off (hdata st h) in
  if negb (ptr =? 0) then mret (st, h, false, ptr)
  else if negb create then mret (st, h, false, 0)
  else
    '(block, st) ← (if (height =? di_height (f_ip st) - 1)%nat && negb isdir then data_alloc st else meta_alloc st);
    let '(st, h) := hput st h (be_set 8 off block (hdata st h)) in
    mret (with_ip st (ip_add_block (f_ip st)), h, true, block).

(** Through the indirect blocks; without a handle when a pointer is missing. *)
Fixpoint walk (st : file A) (h : handle) (x : nat) (mp : list Z) (create new : bool) (dblock : Z)
    : res (file A * option handle * bool * Z) :=
  match mp with
  | [] => mret (st, Some h, new, dblock)
  | i :: mp' =>
      '(st, h, n, dblock) ← lookup_block st h x i create;
      let new := new || n in
      let st := brelse st h in
      if dblock =? 0 then mret (st, None, new, 0)
      else
        let h := if new then meta_head (GFS2_METATYPE_IN ff) (GFS2_FORMAT_IN ff) (bget dblock) else read_or_inode st dblock in
        walk st h (S x) mp' create new dblock
  end.

(** How many of the following pointers lead to the following blocks. *)
Fixpoint extent (fuel : nat) (b : block) (height : nat) (i nptrs dblock extlen : Z) : Z :=
  match fuel with
  | O => extlen
  | S fuel' =>
      let i := i + 1 in
      if negb (i <? nptrs) then extlen
      else if negb (u64 (dblock + extlen) =? be_get 8 (metapointer height i) b) then extlen
      else extent fuel' b height i nptrs dblock (u32 (extlen + 1))
  end.

Definition map_pointer (st : file A) (h : handle) (eom : nat) (i : Z) (create new : bool) (dblock : Z) (prealloc : bool)
    : res (file A * handle * bool * Z) :=
  if prealloc then mret (st, h, new, dblock)
  else '(st, h, n, b) ← lookup_block st h eom i create; mret (st, h, new || n, b).

(** The last pointer, and the extent that it begins. *)
Definition map_last (st : file A) (h : handle) (eom : nat) (i : Z) (create new : bool) (dblock : Z) (want_ext prealloc : bool)
    : res (file A * bool * Z * Z) :=
  '(st, h, new, dblock) ← map_pointer st h eom i create new dblock prealloc;
  let nptrs := if (0 <? eom)%nat then c_inptrs C else c_diptrs C in
  let extlen := if want_ext && negb (dblock =? 0)
                then (if new : bool then 1 else extent (Z.to_nat nptrs) (hdata st h) eom i nptrs dblock 1) else 0 in
  mret (brelse st h, new, dblock, extlen).

(** Whether the block is new, its number or 0, and the length of the extent. *)
Definition block_map (st : file A) (lblock : Z) (create want_ext prealloc : bool) : res (file A * bool * Z * Z) :=
  if (di_height (f_ip st) =? 0)%nat then
    if lblock =? 0 then mret (st, false, i_addr (f_ip st), if want_ext then 1 else 0) else mret (st, false, 0, 0)
  else
    let bsize := if isdir then c_jbsize C else c_bsize C in
    let height := calc_tree_height (f_ip st) (u64 ((lblock + 1) * bsize)) in
    if (di_height (f_ip st) <? height)%nat && negb create then mret (st, false, 0, 0)
    else
      st ← (if (di_height (f_ip st) <? height)%nat then build_height st height else mret st);
      if (GFS2_MAX_META_HEIGHT ff <? di_height (f_ip st))%nat then Fault else
      let mp := find_metapath (di_height (f_ip st)) lblock [] in
      let eom := (di_height (f_ip st) - 1)%nat in
      '(st, h, new, dblock) ← walk st HInode 0 (take eom mp) create false 0;
      match h with
      | None => mret (st, new, 0, 0)
      | Some h =>
          match mp !! eom with
          | None => Fault
          | Some i => map_last st h eom i create new dblock want_ext prealloc
          end
      end.

(** ** Reading and writing *)

(** The block and the place in it of an offset. *)
Definition locate (offset : Z) : Z * Z :=
  if isdir then (offset / c_jbsize C, offset mod c_jbsize C)
  else (Z.shiftr offset (c_shift C), Z.land offset (c_bsize C - 1)).

Definition start_of (st : file A) (o : Z) : Z :=
  if (di_height (f_ip st) =? 0)%nat then o + Z.of_nat (ff_dinode ff) else if isdir then o + Z.of_nat mh_size else o.

Definition next_start : Z := if isdir then Z.of_nat mh_size else 0.

(** Outside of the buffer is a fault. *)
Definition copy2mem (b : option block) (offset amount : Z) : res (list Z) :=
  match b with
  | Some b => if Z.of_nat (length b) <? offset + amount then Fault else mret (take (Z.to_nat amount) (drop (Z.to_nat offset) b))
  | None => mret (replicate (Z.to_nat amount) 0)
  end.

Definition read_map (st : file A) (lblock dblock extlen : Z) : res (file A * Z * Z) :=
  if extlen =? 0 then '(st, _, dblock, extlen) ← block_map st lblock false true false; mret (st, dblock, extlen)
  else mret (st, dblock, extlen).

(** [left] is [size - copied]. *)
Fixpoint readi_loop (fuel : nat) (st : file A) (left lblock o dblock extlen : Z) : res (file A * list Z) :=
  if left =? 0 then mret (st, []) else
  match fuel with
  | O => Fault
  | S fuel' =>
      let amount := Z.min left (u32 (c_bsize C - o)) in
      '(st, dblock, extlen) ← read_map st lblock dblock extlen;
      let b := if dblock =? 0 then None else Some (hdata st (read_or_inode st dblock)) in
      let dblock' := if dblock =? 0 then dblock else u64 (dblock + 1) in
      let extlen' := if dblock =? 0 then extlen else u32 (extlen - 1) in
      bytes ← copy2mem b o amount;
      '(st, rest) ← readi_loop fuel' st (left - amount) (u64 (lblock + 1)) next_start dblock' extlen';
      mret (st, bytes ++ rest)
  end.

(** The bytes read, whose number is the result. *)
Definition gfs2_readi (st : file A) (offset size : Z) : res (file A * list Z) :=
  if offset >=? di_size (f_ip st) then mret (st, []) else
  let size := if u64 (offset + size) >? di_size (f_ip st) then u32 (di_size (f_ip st) - offset) else size in
  if size =? 0 then mret (st, []) else
  let '(lblock, o) := locate offset in
  readi_loop (Z.to_nat size) st size lblock (start_of st o) 0 0.

Definition copy_from_mem (b : block) (offset : Z) (buf : list Z) : res block :=
  if Z.of_nat (length b) <? offset + Z.of_nat (length buf) then Fault
  else mret (take (Z.to_nat offset) b ++ buf ++ drop (Z.to_nat offset + length buf) b).

Definition write_map (st : file A) (lblock : Z) (new : bool) (dblock extlen : Z) : res (file A * bool * Z * Z) :=
  if extlen =? 0 then block_map st lblock true true false else mret (st, new, dblock, extlen).

Definition write_buffer (st : file A) (new : bool) (dblock : Z) : handle :=
  if new then (if isdir then meta_head (GFS2_METATYPE_JD ff) (GFS2_FORMAT_JD ff) (bget dblock) else bget dblock)
  else read_or_inode st dblock.

(** [buf] is what is left to copy. *)
Fixpoint writei_loop (fuel : nat) (st : file A) (buf : list Z) (lblock o : Z) (new : bool) (dblock extlen : Z) : res (file A) :=
  if (length buf =? 0)%nat then mret st else
  match fuel with
  | O => Fault
  | S fuel' =>
      let amount := Z.min (Z.of_nat (length buf)) (u32 (c_bsize C - o)) in
      '(st, new, dblock, extlen) ← write_map st lblock new dblock extlen;
      let h := write_buffer st new dblock in
      data ← copy_from_mem (hdata st h) o (take (Z.to_nat amount) buf);
      let '(st, h) := hput st h data in
      writei_loop fuel' (brelse st h) (drop (Z.to_nat amount) buf) (u64 (lblock + 1)) next_start new
        (u64 (dblock + 1)) (u32 (extlen - 1))
  end.

(** The result is the [int] that counted the bytes. *)
Definition gfs2_writei (st : file A) (buf : list Z) (offset : Z) : res (Z * file A) :=
  let size := Z.of_nat (length buf) in
  if size =? 0 then mret (0, st) else
  st ← (if (di_height (f_ip st) =? 0)%nat && (u64 (offset + size) >? c_bsize C - Z.of_nat (ff_dinode ff))
        then unstuff_dinode st else mret st);
  let '(lblock, o) := locate offset in
  st ← writei_loop (length buf) st buf lblock (start_of st o) false 0 0;
  let copied := s32 size in
  let end_ := u64 (offset + copied) in
  mret (copied, if di_size (f_ip st) <? end_ then with_ip st (ip_set_size (f_ip st) end_) else st).

(** The block for writing, allocated and within the size of the file unless it is only
    prepared. *)
Definition get_file_buf (st : file A) (lbn : Z) (prealloc : bool) : res (file A * handle) :=
  st ← (if (di_height (f_ip st) =? 0)%nat then unstuff_dinode st else mret st);
  '(st, new, dbn, _) ← block_map st lbn true false prealloc;
  if dbn =? 0 then Die else
  let end_ := u64 (Z.shiftl (u64 (lbn + 1)) (c_shift C)) in
  let st := if negb prealloc && (new : bool) && (di_size (f_ip st) <? end_) then with_ip st (ip_set_size (f_ip st) end_) else st in
  mret (st, read_or_inode st dbn).
End file.
