(* ===== verification/Gfs2FilePath.v ===== *)
(** * The allocator's laws, the constants and the paths of files

    What the blocks of a file rest on ([Gfs2File]): the laws of the allocator, the tables of
    sizes that are computed from the size of a block, and the paths of pointers that lead to
    the blocks of a file. *)

From stdpp Require Import functions.
From S2P Require Import Prelude PlockWire DiskHash Gfs2Field Gfs2Log Gfs2Bits Gfs2Rgrp Gfs2File.
Open Scope Z_scope.

(** What the allocator promises: it returns blocks that were free, and fails only when there
    are none. *)
Class AllocatorSpec (A : Type) `{!Allocator A} := {
  al_ok : A -> Prop;
  al_free : A -> Z -> Prop;
  al_range : forall s b, al_ok s -> al_free s b -> 0 < b < 2 ^ 63;
  al_spec : forall s t, al_ok s ->
    match alloc s t with
    | Ok (b, s') => al_free s b /\ al_ok s' /\ (forall c, al_free s' c <-> al_free s c /\ c <> b)
    | Die => forall b, ~ al_free s b
    | Fault => False
    end
}.

(** At least [n] blocks are free. *)
Definition room {A} `{AllocatorSpec A} (s : A) (n : nat) : Prop :=
  exists l, NoDup l /\ (n <= length l)%nat /\ forall b, b ∈ l -> al_free s b.

Lemma filter_ne_length (b : Z) (l : list Z) : NoDup l -> (length l <= S (length (filter (fun c => c <> b) l)))%nat.
Proof.
  induction 1 as [|x l Hx Hl IH]; [cbn; lia|]. destruct (decide (x = b)) as [->|Hn].
  - rewrite filter_cons_False by tauto. assert (filter (fun c => c <> b) l = l) as ->; [|cbn; lia].
    clear IH Hl. induction l as [|y l IH]; [done|]. apply not_elem_of_cons in Hx as [Hy Hx].
    rewrite filter_cons_True by congruence. f_equal. auto.
  - rewrite filter_cons_True by done. cbn [length]. lia.
Qed.

Lemma alloc_room {A} `{AllocatorSpec A} (s : A) t n : al_ok s -> room s (S n) ->
  exists b s', alloc s t = Ok (b, s') /\ al_free s b /\ al_ok s' /\ room s' n /\
    forall c, al_free s' c <-> al_free s c /\ c <> b.
Proof.
  intros Hok (l & Hn & Hl & Hf). pose proof (al_spec s t Hok) as Hs.
  destruct (alloc s t) as [[b s']| |]; [|exfalso|done].
  - destruct Hs as (Hb & Hok' & Hc). exists b, s'. split_and!; try done.
    exists (filter (fun c => c <> b) l). split_and!; [by apply NoDup_filter| |].
    + pose proof (filter_ne_length b l Hn). lia.
    + intros c [Hne Hi]%list_elem_of_filter. apply Hc. auto.
  - destruct l as [|b l]; [cbn in Hl; lia|]. apply (Hs b), Hf, list_elem_of_here.
Qed.

Lemma room_le {A} `{AllocatorSpec A} (s : A) m n : (m <= n)%nat -> room s n -> room s m.
Proof. intros Hm (l & ? & ? & ?). exists l. split_and!; try done. lia. Qed.

(** ** Geometry *)

(** The table of the heights: exact products, up to one that no offset reaches. *)
Definition heights_ok (first bs diptrs inptrs : Z) (hs : list Z) : Prop :=
  exists n, hs = first :: map (fun k => bs * (diptrs * inptrs ^ Z.of_nat k)) (seq 0 n) /\
    2 ^ 64 <= bs * (diptrs * inptrs ^ Z.of_nat n) /\ (0 < n)%nat.

Record geometry (ff : file_format) (C : consts) : Prop := {
  g_shift : 0 <= c_shift C /\ c_bsize C = 2 ^ c_shift C;
  g_small : c_bsize C < 2 ^ 31;
  g_di : c_bsize C = Z.of_nat (ff_dinode ff) + 8 * c_diptrs C;
  g_in : c_bsize C = Z.of_nat (mh_size ff) + 8 * c_inptrs C;
  g_order : (mh_size ff <= ff_dinode ff)%nat;
  g_ptrs : 1 <= c_diptrs C /\ 2 <= c_inptrs C;
  g_jbsize : c_jbsize C = c_bsize C - Z.of_nat (mh_size ff);
  g_head : Forall (fun o => (o <= mh_size ff)%nat)
    [(f_magic (ff_head ff) + 4)%nat; (f_type (ff_head ff) + 4)%nat; (f_format (ff_head ff) + 4)%nat;
     (f_pad0 (ff_head ff) + 8)%nat; (f_pad1 (ff_head ff) + 4)%nat];
  g_heights : heights_ok (c_bsize C - Z.of_nat (ff_dinode ff)) (c_bsize C) (c_diptrs C) (c_inptrs C) (c_heightsize C);
  g_jheights : heights_ok (c_bsize C - Z.of_nat (ff_dinode ff)) (c_jbsize C) (c_diptrs C) (c_inptrs C) (c_jheightsize C);
  g_max : (length (c_heightsize C) <= GFS2_MAX_META_HEIGHT ff)%nat;
  g_jmax : (length (c_jheightsize C) <= GFS2_MAX_META_HEIGHT ff)%nat
}.

(** ** The tables that are computed *)

(** The division finds out whether the product fits. *)
Lemma product_fits inptrs last : 2 <= inptrs < 2 ^ 32 -> 0 <= last ->
  let space := u64 (last * inptrs) in
  (negb (space / inptrs =? last) || c_true (u32 (space mod inptrs))) = negb (last * inptrs <? 2 ^ 64).
Proof.
  intros Hi Hl. cbv zeta. unfold c_true, wrap. destruct (last * inptrs <? 2 ^ 64) eqn:E; zbool.
  - rewrite (Z.mod_small (last * inptrs)) by nia. by rewrite Z.div_mul, Z.mod_mul, Z.eqb_refl by lia.
  - set (space := (last * inptrs) mod 2 ^ 64).
    assert (0 <= space < 2 ^ 64) by (apply Z.mod_pos_bound; lia).
    pose proof (Z.mod_pos_bound space inptrs). pose proof (Z.div_mod space inptrs ltac:(lia)) as Hd.
    rewrite (Z.mod_small (space mod inptrs)) by lia.
    destruct (space / inptrs =? last) eqn:E1; [|done]. zbool. rewrite E1 in Hd. cbn [negb orb].
    assert (inptrs * last = last * inptrs) by ring. lia.
Qed.

Lemma heightsize_loop_ok inptrs slots last l : 2 <= inptrs < 2 ^ 32 -> 0 < last ->
  heightsize_loop slots inptrs last = Ok l ->
  l = map (fun k => last * inptrs ^ Z.of_nat (S k)) (seq 0 (length l)) /\
  (length l <= slots)%nat /\ 2 ^ 64 <= last * inptrs ^ Z.of_nat (S (length l)).
Proof.
  intros Hi. revert last l. induction slots as [|slots IH]; intros last l Hl; cbn [heightsize_loop];
    rewrite product_fits by lia; destruct (last * inptrs <? 2 ^ 64) eqn:E; cbn [negb]; zbool; try done.
  - intros [= <-]. cbn [length seq map]. rewrite Z.pow_1_r. split_and!; [done|lia|lia].
  - unfold wrap. rewrite Z.mod_small by nia. set (space := last * inptrs) in *.
    destruct (heightsize_loop slots inptrs space) as [l'| |] eqn:E'; [|done|done]. intros [= <-].
    apply IH in E' as (E1 & E2 & E3); [|subst space; nia].
    assert (P : forall k, space * inptrs ^ Z.of_nat (S k) = last * inptrs ^ Z.of_nat (S (S k))).
    { intros k. rewrite (Nat2Z.inj_succ (S k)), Z.pow_succ_r by lia. subst space. ring. }
    cbn [length]. rewrite <- P. split_and!; [|lia|done]. cbn [seq map]. f_equal; [by rewrite Z.pow_1_r|].
    rewrite <- seq_shift, map_map. rewrite E1 at 1. apply map_ext. intros k. apply P.
  - intros [= <-]. cbn [length seq map]. rewrite Z.pow_1_r. split_and!; [done|lia|lia].
Qed.

Lemma compute_heightsize_ok ff bsize bs diptrs inptrs hs : (2 <= GFS2_MAX_META_HEIGHT ff)%nat ->
  2 <= inptrs < 2 ^ 32 -> 0 < bs * diptrs < 2 ^ 32 ->
  compute_heightsize ff bsize bs diptrs inptrs = Ok (Some hs) ->
  heights_ok (bsize - Z.of_nat (ff_dinode ff)) bs diptrs inptrs hs /\ (length hs <= GFS2_MAX_META_HEIGHT ff)%nat.
Proof.
  intros Hm Hi Hb. unfold compute_heightsize, wrap. rewrite (Z.mod_small (bs * diptrs)) by lia.
  destruct (heightsize_loop _ inptrs (bs * diptrs)) as [l| |] eqn:E; cbn [mbind res_bind]; [|done|done].
  apply heightsize_loop_ok in E as (E1 & E2 & E3); [|lia|lia].
  destruct (_ <? length _)%nat eqn:Hle; [done|]. apply Nat.ltb_ge in Hle. intros [= <-]. split; [|done].
  exists (S (length l)). split_and!; [|by rewrite Z.mul_assoc|lia]. f_equal. cbn [seq map]. f_equal.
  - cbn. lia.
  - rewrite <- seq_shift, map_map. rewrite E1 at 1. apply map_ext. intros k. by rewrite Z.mul_assoc.
Qed.

(** The check behind the loop finds nothing: what it looks for is a write behind the array. *)
Lemma heightsize_check_late ff bsize bs diptrs inptrs : (2 <= GFS2_MAX_META_HEIGHT ff)%nat ->
  2 <= inptrs < 2 ^ 32 -> 0 < bs * diptrs < 2 ^ 32 ->
  compute_heightsize ff bsize bs diptrs inptrs <> Ok None.
Proof.
  intros Hm Hi Hb. unfold compute_heightsize, wrap. rewrite (Z.mod_small (bs * diptrs)) by lia.
  destruct (heightsize_loop _ inptrs (bs * diptrs)) as [l| |] eqn:E; cbn [mbind res_bind]; [|done|done].
  apply heightsize_loop_ok in E as (_ & E2 & _); [|lia|lia].
  rewrite (proj2 (Nat.ltb_ge _ _)); [done|]. cbn [length]. lia.
Qed.

Lemma ffs_pow2 n : 0 <= n -> ffs (2 ^ n) = n + 1.
Proof.
  intros Hn. unfold ffs. pose proof (Z.pow_pos_nonneg 2 n ltac:(lia) Hn).
  rewrite (proj2 (Z.eqb_neq _ _)) by lia.
  assert (Z.land (2 ^ n) (- 2 ^ n) = 2 ^ n) as ->; [|by rewrite Z.log2_pow2].
  apply Z.bits_inj'. intros i Hi. rewrite Z.land_spec, Z.pow2_bits_eqb by done.
  destruct (n =? i) eqn:E; [|done]. apply Z.eqb_eq in E. subst i. cbn [andb].
  replace (- 2 ^ n) with (Z.shiftl (-1) n) by (rewrite Z.shiftl_mul_pow2; lia).
  rewrite Z.shiftl_spec by lia. by rewrite Z.sub_diag.
Qed.

(** What the sizes of the structures satisfy. *)
Record sizes_ok (ff : file_format) (bsize : Z) : Prop := {
  so_pow : exists n, 0 <= n /\ bsize = 2 ^ n;
  so_bsize : bsize <= 2 ^ 17;
  so_align : (8 | Z.of_nat (ff_dinode ff)) /\ (8 | Z.of_nat (mh_size ff)) /\ (8 | bsize);
  so_fit : (mh_size ff <= ff_dinode ff)%nat /\ (0 < mh_size ff)%nat /\ Z.of_nat (ff_dinode ff) + 16 <= bsize;
  so_head : Forall (fun o => (o <= mh_size ff)%nat)
    [(f_magic (ff_head ff) + 4)%nat; (f_type (ff_head ff) + 4)%nat; (f_format (ff_head ff) + 4)%nat;
     (f_pad0 (ff_head ff) + 8)%nat; (f_pad1 (ff_head ff) + 4)%nat];
  so_max : (2 <= GFS2_MAX_META_HEIGHT ff)%nat
}.

(** Every round halves the number at least. *)
Lemma ind_loop_total fuel diptrs inptrs t n : 1 <= diptrs -> 2 <= inptrs < 2 ^ 31 -> 0 <= t <= 2 ^ Z.of_nat fuel -> t < 2 ^ 31 ->
  exists m, ind_loop fuel diptrs inptrs t n = Ok m.
Proof.
  intros Hd Hi. revert t n. induction fuel as [|fuel IH]; intros t n Ht Hb; cbn [ind_loop];
    (destruct (t >? diptrs) eqn:E; zbool; [|by eexists]).
  - cbn in Ht. lia.
  - rewrite Nat2Z.inj_succ, Z.pow_succ_r in Ht by lia. assert (0 <= (t + inptrs - 1) / inptrs) by (apply Z.div_pos; lia).
    assert ((t + inptrs - 1) / inptrs < t) by (apply Z.div_lt_upper_bound; nia).
    assert ((t + inptrs - 1) / inptrs <= 2 ^ Z.of_nat fuel).
    { assert ((t + inptrs - 1) / inptrs < 2 ^ Z.of_nat fuel + 1); [|lia]. apply Z.div_lt_upper_bound; nia. }
    unfold DIV_RU, wrap. rewrite (Z.mod_small (t + inptrs - 1)), (Z.mod_small (_ / _)) by lia. apply IH; lia.
Qed.

Lemma compute_constants_geometry ff bsize C dc : sizes_ok ff bsize ->
  compute_constants ff bsize = Ok (Some (C, dc)) -> geometry ff C /\ c_bsize C = bsize.
Proof.
  intros [(n & Hn & Hp) Hb ([a Ha] & [m Hm] & [c Hc]) (Ho & Hm0 & Hf) Hh Hmax].
  unfold compute_constants. fold (mh_size ff).
  assert (D : (bsize - Z.of_nat (ff_dinode ff)) / 8 = c - a) by (rewrite Ha, Hc, <- Z.mul_sub_distr_r; by apply Z.div_mul).
  assert (I : (bsize - Z.of_nat (mh_size ff)) / 8 = c - m) by (rewrite Hm, Hc, <- Z.mul_sub_distr_r; by apply Z.div_mul).
  rewrite D, I. assert (bsize * (c - a) <= 2 ^ 17 * (2 ^ 14 - 1)) by nia.
  assert (0 < (bsize - Z.of_nat (mh_size ff)) * (c - a) < 2 ^ 32) by nia.
  destruct (ind_loop _ _ _ _ _) as [ind| |]; cbn [mbind res_bind]; [|done|done].
  destruct (compute_heightsize ff bsize bsize _ _) as [[hs|]| |] eqn:E1; cbn [mbind res_bind]; try done.
  destruct (compute_heightsize ff bsize (bsize - Z.of_nat (mh_size ff)) _ _) as [[jhs|]| |] eqn:E2;
    cbn [mbind res_bind]; try done.
  intros [= <- _]. apply compute_heightsize_ok in E1 as [? ?]; [|done|lia|nia].
  apply compute_heightsize_ok in E2 as [? ?]; [|done|lia|done].
  split; [|done]. split; cbn; try done; try lia. rewrite Hp, ffs_pow2 by done. split; [lia|f_equal; lia].
Qed.

(** ** Paths *)

Section paths.
Context (ff : file_format) (C : consts) (G : geometry ff C).

Local Abbreviation inptrs := (c_inptrs C).
Local Abbreviation diptrs := (c_diptrs C).

Lemma ptrs_range : 1 <= diptrs <= inptrs /\ 2 <= inptrs /\ 0 < c_bsize C.
Proof using G. destruct (g_ptrs _ _ G), (g_shift _ _ G), G. lia. Qed.

Definition path (h : nat) (l : Z) : list Z := find_metapath C h l [].

Lemma find_metapath_app h l mp : find_metapath C h l mp = path h l ++ mp.
Proof.
  unfold path. revert l mp. induction h as [|h IH]; intros l mp; [done|]. cbn [find_metapath].
  rewrite IH, (IH _ [_]), <- app_assoc. done.
Qed.

Lemma path_snoc h l : path (S h) l = path h (l / inptrs) ++ [l mod inptrs].
Proof. unfold path at 1. cbn [find_metapath]. apply find_metapath_app. Qed.

Lemma path_length h l : length (path h l) = h.
Proof. revert l. induction h as [|h IH]; intros l; [done|]. rewrite path_snoc, length_app, IH. cbn. lia. Qed.

(** From the top. *)
Lemma path_cons h l : 0 <= l < inptrs ^ Z.of_nat (S h) ->
  path (S h) l = l / inptrs ^ Z.of_nat h :: path h (l mod inptrs ^ Z.of_nat h).
Proof using G.
  destruct ptrs_range as (_ & Hi & _). revert l. induction h as [|h IH]; intros l Hl.
  - rewrite path_snoc. cbn in *. rewrite Z.div_1_r, Z.mod_small by lia. done.
  - rewrite path_snoc. rewrite Nat2Z.inj_succ, Z.pow_succ_r in Hl by lia.
    assert (0 < inptrs ^ Z.of_nat h) by (apply Z.pow_pos_nonneg; lia).
    rewrite IH by (split; [apply Z.div_pos; lia|apply Z.div_lt_upper_bound; lia]).
    rewrite (path_snoc h (_ mod _)). cbn [app].
    rewrite (Nat2Z.inj_succ h), Z.pow_succ_r by lia. f_equal.
    + rewrite Z.div_div by lia. done.
    + f_equal; [f_equal|f_equal].
      * rewrite Z.rem_mul_r by lia. rewrite (Z.mul_comm inptrs (_ mod _)), Z.div_add by lia.
        rewrite (Z.div_small (l mod inptrs)) by (apply Z.mod_pos_bound; lia). lia.
      * rewrite Z.rem_mul_r by lia. rewrite (Z.mul_comm inptrs (_ mod _)), Z.mod_add by lia.
        by rewrite Z.mod_mod by lia.
Qed.

(** The blocks of a tree of this height. *)
Definition cap (h : nat) : Z := diptrs * inptrs ^ Z.of_nat (h - 1).

Definition vp (p : list Z) : Prop :=
  match p with [] => True | i :: r => 0 <= i < diptrs /\ Forall (fun j => 0 <= j < inptrs) r end.

Lemma path_digits h l : 0 <= l -> Forall (fun j => 0 <= j < inptrs) (path h l).
Proof using G.
  destruct ptrs_range as (_ & Hi & _). revert l. induction h as [|h IH]; intros l Hl; [constructor|].
  rewrite path_snoc. apply Forall_app. split; [apply IH, Z.div_pos; lia|].
  apply Forall_singleton, Z.mod_pos_bound. lia.
Qed.

Lemma cap_pow h : 0 < cap (S h) <= inptrs ^ Z.of_nat (S h).
Proof using G.
  destruct ptrs_range as (Hd & Hi & _). unfold cap. replace (S h - 1)%nat with h by lia.
  rewrite Nat2Z.inj_succ, Z.pow_succ_r by lia. assert (0 < inptrs ^ Z.of_nat h) by (apply Z.pow_pos_nonneg; lia). nia.
Qed.

Lemma cap_mono h : 0 < cap (S h) <= cap (S (S h)).
Proof using G.
  destruct ptrs_range as (Hd & Hi & _). unfold cap. replace (S h - 1)%nat with h by lia.
  replace (S (S h) - 1)%nat with (S h) by lia.
  rewrite Nat2Z.inj_succ, Z.pow_succ_r by lia. assert (0 < inptrs ^ Z.of_nat h) by (apply Z.pow_pos_nonneg; lia). nia.
Qed.

Lemma path_vp h l : 0 <= l < cap (S h) -> vp (path (S h) l).
Proof using G.
  intros Hl. pose proof (cap_pow h). rewrite path_cons by lia. cbn. destruct ptrs_range as (Hd & Hi & _).
  assert (0 < inptrs ^ Z.of_nat h) by (apply Z.pow_pos_nonneg; lia). split.
  - split; [apply Z.div_pos; lia|]. apply Z.div_lt_upper_bound; [lia|].
    unfold cap in Hl. replace (S h - 1)%nat with h in Hl by lia. lia.
  - apply path_digits. apply Z.mod_pos_bound. lia.
Qed.

Lemma path_inj h l l' : 0 <= l < inptrs ^ Z.of_nat h -> 0 <= l' < inptrs ^ Z.of_nat h -> path h l = path h l' -> l = l'.
Proof using G.
  destruct ptrs_range as (_ & Hi & _). revert l l'. induction h as [|h IH]; intros l l' Hl Hl' E.
  - cbn in *. lia.
  - rewrite !path_snoc in E. apply app_inj_tail in E as [E1 E2]. rewrite Nat2Z.inj_succ, Z.pow_succ_r in Hl, Hl' by lia.
    apply IH in E1; [|split; [apply Z.div_pos|apply Z.div_lt_upper_bound]; lia..].
    rewrite (Z.div_mod l inptrs), (Z.div_mod l' inptrs) by lia. congruence.
Qed.

(** In a tree that is higher by one the old blocks are under the first pointer. *)
Lemma path_grow h l : 0 <= l < cap (S h) -> path (S (S h)) l = 0 :: path (S h) l.
Proof using G.
  intros Hl. pose proof (cap_pow h). pose proof (cap_pow (S h)). pose proof (cap_mono h).
  rewrite path_cons by lia. by rewrite Z.div_small, Z.mod_small by lia.
Qed.

(** The next block is behind the next pointer of the same block. *)
Lemma path_next h l j : 0 <= l -> 0 <= j -> l mod inptrs + j < inptrs ->
  path (S h) (l + j) = path h (l / inptrs) ++ [l mod inptrs + j].
Proof using G.
  destruct ptrs_range as (_ & Hi & _). intros Hl Hj Hs. rewrite path_snoc.
  pose proof (Z.mod_pos_bound l inptrs ltac:(lia)). pose proof (Z.div_mod l inptrs ltac:(lia)).
  assert (E : l + j = (l mod inptrs + j) + (l / inptrs) * inptrs) by lia.
  rewrite E at 1 2. rewrite Z.div_add, Z.mod_add by lia. by rewrite Z.div_small, Z.mod_small by lia.
Qed.
End paths.
