(* ===== verification/Gfs2FileTree.v ===== *)
(** * The tree of the blocks of a file

    The blocks that a file reaches through the pointers of its inode and of its indirect
    blocks ([Gfs2File]); no block is reached in two ways.  Setting a pointer that was 0 to a
    block that was free adds this block and changes nothing else. *)

From stdpp Require Import functions.
From S2P Require Import Prelude PlockWire DiskHash Gfs2Field Gfs2Log Gfs2Bits Gfs2Rgrp Gfs2File Gfs2FilePath.
Open Scope Z_scope.

Definition ptr (off : nat) (b : block) (i : Z) : Z := be_get 8 (off + 8 * Z.to_nat i) b.

Lemma ptr_set off b v i j : (off + 8 * Z.to_nat i + 8 <= length b)%nat -> 0 <= i -> 0 <= j -> in_u 64 v ->
  ptr off (be_set 8 (off + 8 * Z.to_nat i) v b) j = if decide (j = i) then v else ptr off b j.
Proof.
  intros Hl Hi Hj Hv. unfold ptr. destruct (decide (j = i)) as [->|Hn].
  - apply be_get_field; [done|]. by apply be_set_inside.
  - unfold be_get. fold (field 8 (off + 8 * Z.to_nat j) (be_set 8 (off + 8 * Z.to_nat i) v b)).
    destruct (Z_lt_le_dec j i); [rewrite be_set_before by lia|rewrite be_set_after by lia]; done.
Qed.

Section tree.
Context {A : Type} `{!Allocator A, !AllocatorSpec A} (ff : file_format) (C : consts) (G : geometry ff C).

Implicit Types (st : file A) (p q : list Z) (b : block).

(** The block at [a], read as the one that path [p] leads to. *)
Definition node st p (a : Z) : block := match p with [] => i_data (f_ip st) | _ => f_disk st a end.
Definition noff p : nat := match p with [] => ff_dinode ff | _ => mh_size ff end.
Definition nptrs p : Z := match p with [] => c_diptrs C | _ => c_inptrs C end.

Fixpoint follow (d : disk) (a : Z) p : Z :=
  match p with
  | [] => a
  | i :: p' => if a =? 0 then 0 else follow d (ptr (mh_size ff) (d a) i) p'
  end.

(** The block that a path leads to, or 0; the empty path leads to the inode. *)
Definition addr st p : Z :=
  match p with
  | [] => i_addr (f_ip st)
  | i :: p' => follow (f_disk st) (ptr (ff_dinode ff) (i_data (f_ip st)) i) p'
  end.

Lemma follow_snoc d a p i :
  follow d a (p ++ [i]) = if follow d a p =? 0 then 0 else ptr (mh_size ff) (d (follow d a p)) i.
Proof. revert a. induction p as [|j p IH]; intros a; cbn; [done|]. by destruct (a =? 0). Qed.

Lemma addr_snoc st p i : i_addr (f_ip st) <> 0 ->
  addr st (p ++ [i]) = if addr st p =? 0 then 0 else ptr (noff p) (node st p (addr st p)) i.
Proof.
  intros Ha. destruct p as [|j p]; cbn; [|apply follow_snoc]. by rewrite (proj2 (Z.eqb_neq _ _)).
Qed.

Lemma vp_snoc p i : vp C (p ++ [i]) <-> vp C p /\ 0 <= i < nptrs p.
Proof. destruct p as [|j p]; cbn; [split; intuition|]. rewrite Forall_app, Forall_singleton. tauto. Qed.

Definition full b : Prop := Z.of_nat (length b) = c_bsize C /\ Forall is_byte b.

Record sound st : Prop := {
  s_alloc : al_ok (f_alloc st);
  s_disk : forall a, full (f_disk st a);
  s_data : full (i_data (f_ip st));
  s_addr : in_u 64 (i_addr (f_ip st)) /\ i_addr (f_ip st) <> 0
}.

(** Every block of the file is in use, and one path leads to it; the numbers of blocks are far
    from the end of their type. *)
Record tree st (h : nat) : Prop := {
  t_inj : forall p q, vp C p -> vp C q -> (length p <= h)%nat -> (length q <= h)%nat ->
    addr st p <> 0 -> addr st p = addr st q -> p = q;
  t_used : forall p, vp C p -> (length p <= h)%nat -> addr st p <> 0 -> ~ al_free (f_alloc st) (addr st p);
  t_small : forall p, vp C p -> (length p <= h)%nat -> addr st p < 2 ^ 63
}.

Lemma node_full st p a : sound st -> full (node st p a).
Proof. intros S. destruct p; apply S. Qed.

Lemma slot_fits p i : 0 <= i < nptrs p -> (noff p + 8 * Z.to_nat i + 8 <= Z.to_nat (c_bsize C))%nat.
Proof using G. pose proof (g_di _ _ G). pose proof (g_in _ _ G). destruct p; cbn; lia. Qed.

Lemma addr_range st p : sound st -> in_u 64 (addr st p).
Proof.
  intros S. destruct p as [|j p _] using rev_ind; [apply S|]. rewrite addr_snoc by apply S.
  destruct (_ =? 0); [done|]. apply (be_get_bytes 8), node_full, S.
Qed.

(** Blocks on no path, and the blocks of data, do not matter for where paths lead. *)
Lemma addr_frame st st' h : i_addr (f_ip st') = i_addr (f_ip st) -> i_addr (f_ip st) <> 0 ->
  (forall q, vp C q -> (length q < h)%nat -> addr st q <> 0 -> node st' q (addr st q) = node st q (addr st q)) ->
  forall q, vp C q -> (length q <= h)%nat -> addr st' q = addr st q.
Proof.
  intros Ea Hne Hn q. induction q as [|j q IH] using rev_ind; [done|].
  rewrite length_app, vp_snoc. cbn [length]. intros [Hq _] Hl. rewrite !addr_snoc by congruence.
  rewrite IH by (done || lia). destruct (addr st q =? 0) eqn:E; [done|]. zbool. by rewrite Hn by (done || lia).
Qed.

(** Setting a pointer. *)
Section pointer.
Context (st st' : file A) (h : nat) (p : list Z) (i v : Z).
Context (S : sound st) (T : tree st h) (Hp : vp C p) (Hi : 0 <= i < nptrs p) (Hh : (length p < h)%nat)
  (Hparent : addr st p <> 0) (Hslot : addr st (p ++ [i]) = 0) (Hfree : al_free (f_alloc st) v)
  (Eaddr : i_addr (f_ip st') = i_addr (f_ip st))
  (Hnode : forall q, vp C q -> (length q < h)%nat -> addr st q <> 0 ->
     node st' q (addr st q) = if decide (q = p) then be_set 8 (noff p + 8 * Z.to_nat i) v (node st p (addr st p))
                              else node st q (addr st q))
  (Hnew : (length p + 1 < h)%nat -> forall j, 0 <= j < c_inptrs C -> ptr (mh_size ff) (f_disk st' v) j = 0).

Lemma v_range : 0 < v < 2 ^ 63.
Proof using Hfree S. eapply al_range; [apply S|done]. Qed.

Lemma v_fresh q : vp C q -> (length q <= h)%nat -> addr st q <> v.
Proof using Hfree S T.
  intros Hq Hl E. apply (t_used _ _ T q Hq Hl); rewrite E; [|done]. apply not_eq_sym, Z.lt_neq, v_range.
Qed.

Lemma set_pointer q : vp C q -> (length q <= h)%nat ->
  addr st' q = if decide (q = p ++ [i]) then v else addr st q.
Proof using All.
  pose proof v_range as Hv. pose proof (s_addr _ S) as [_ Ha].
  induction q as [|j q IH] using rev_ind.
  - intros _ _. destruct (decide _) as [E|_]; [by destruct p|done].
  - rewrite vp_snoc, length_app. cbn [length]. intros [Hq Hj] Hl. specialize (IH Hq ltac:(lia)).
    rewrite (addr_snoc st') by congruence. rewrite IH. destruct (decide (q = p ++ [i])) as [->|Hne].
    + rewrite length_app in Hl. cbn [length] in Hl. rewrite (proj2 (Z.eqb_neq v 0)) by lia.
      destruct (decide _) as [E|_]; [apply (f_equal length) in E; rewrite !length_app in E; cbn in E; lia|].
      rewrite (addr_snoc st (p ++ [i])), Hslot by done. cbn [Z.eqb].
      assert (N : forall r, r <> [] -> noff r = mh_size ff /\ node st' r v = f_disk st' v /\ nptrs r = c_inptrs C)
        by (by intros [|? ?]).
      destruct (N (p ++ [i])) as (-> & -> & En); [by destruct p|]. apply Hnew; [lia|]. by rewrite <- En.
    + destruct (decide (q ++ [j] = p ++ [i])) as [E|Hne2].
      * apply app_inj_tail in E as [-> ->]. rewrite (proj2 (Z.eqb_neq _ _)) by done.
        rewrite Hnode by (done || lia). rewrite decide_True by done.
        rewrite ptr_set; [by rewrite decide_True| |lia|lia|unfold in_u; lia].
        destruct (node_full st p (addr st p) S) as [Ef _]. pose proof (slot_fits p i Hi). lia.
      * rewrite (addr_snoc st q) by done. destruct (addr st q =? 0) eqn:E; [done|]. zbool.
        rewrite Hnode by (done || lia). destruct (decide (q = p)) as [->|]; [|done].
        rewrite ptr_set; [by rewrite decide_False by congruence| |lia|lia|unfold in_u; lia].
        destruct (node_full st p (addr st p) S) as [Ef _]. pose proof (slot_fits p i Hi). lia.
Qed.

Lemma set_pointer_tree : (forall c, al_free (f_alloc st') c <-> al_free (f_alloc st) c /\ c <> v) -> tree st' h.
Proof using All.
  intros Hf. split.
  - intros q r Hq Hr Lq Lr. rewrite !set_pointer by done.
    destruct (decide (q = _)) as [->|], (decide (r = _)) as [->|]; intros Hz E; try done.
    + by destruct (v_fresh r Hr Lr).
    + by destruct (v_fresh q Hq Lq).
    + by apply (t_inj _ _ T).
  - intros q Hq Lq. rewrite set_pointer by done. rewrite Hf. destruct (decide _); [tauto|].
    intros Hz [F _]. by apply (t_used _ _ T q Hq Lq Hz).
  - intros q Hq Lq. rewrite set_pointer by done. destruct (decide _); [apply v_range|by apply T].
Qed.
End pointer.
End tree.
