(* ===== verification/Gfs2FileMap.v ===== *)
(** * Mapping the blocks of a file

    [block_map] of [Gfs2File] on a well-formed file: it finds the block of an offset or, when
    it may, builds the way to it, without changing a byte of the file. *)

From stdpp Require Import functions.
From S2P Require Import Prelude PlockWire DiskHash Gfs2Field Gfs2Log Gfs2Bits Gfs2Rgrp Gfs2File Gfs2FilePath Gfs2FileTree.
Open Scope Z_scope.

(** ** Parts of blocks *)

Lemma be_set_drop n off v m (b : block) : (off + n <= m)%nat -> (m <= length b)%nat -> drop m (be_set n off v b) = drop m b.
Proof.
  intros H Hm. unfold be_set. rewrite app_assoc.
  rewrite drop_app_ge by (rewrite length_app, store_length, length_take; lia).
  rewrite length_app, store_length, length_take, drop_drop. f_equal. lia.
Qed.

Lemma be_set_bytes n off v (b : block) : Forall is_byte b -> Forall is_byte (be_set n off v b).
Proof.
  intros H. unfold be_set. rewrite !Forall_app. split_and!; [by apply Forall_take| |by apply Forall_drop].
  apply store_bytes.
Qed.

Lemma ptr_drop off b i : ptr off b i = ptr 0 (drop off b) i.
Proof. unfold ptr, be_get. by rewrite drop_drop. Qed.

Lemma ptr_zeros n i : (8 * Z.to_nat i + 8 <= n)%nat -> ptr 0 (replicate n 0) i = 0.
Proof. intros H. unfold ptr. apply be_get_field; [done|]. apply field_zeros. lia. Qed.

Lemma ptr_app_l (b b' : block) i : (8 * Z.to_nat i + 8 <= length b)%nat -> ptr 0 (b ++ b') i = ptr 0 b i.
Proof. intros H. unfold ptr, be_get. rewrite drop_app_le by lia. rewrite take_app_le; [done|]. rewrite length_drop. lia. Qed.

Lemma ptr_app_r (b b' : block) i k : length b = (8 * k)%nat -> Z.of_nat k <= i -> ptr 0 (b ++ b') i = ptr 0 b' (i - Z.of_nat k).
Proof.
  intros H Hk. unfold ptr, be_get. rewrite drop_app_ge by lia. do 3 f_equal. lia.
Qed.

Lemma replicate_bytes n : Forall is_byte (replicate n 0).
Proof. apply Forall_replicate. unfold is_byte. lia. Qed.

Section blocks.
Context (ff : file_format) (C : consts) (G : geometry ff C).

Local Abbreviation full := (full C).

Lemma sizes_nat : (mh_size ff <= ff_dinode ff <= Z.to_nat (c_bsize C))%nat /\
  (Z.to_nat (c_bsize C) = ff_dinode ff + 8 * Z.to_nat (c_diptrs C))%nat /\
  (Z.to_nat (c_bsize C) = mh_size ff + 8 * Z.to_nat (c_inptrs C))%nat.
Proof using G. pose proof (g_di _ _ G). pose proof (g_in _ _ G). pose proof (g_order _ _ G). pose proof (g_ptrs _ _ G). lia. Qed.

Lemma full_length b : full b -> length b = Z.to_nat (c_bsize C).
Proof. intros [? _]. lia. Qed.

Lemma full_intro b : length b = Z.to_nat (c_bsize C) -> Forall is_byte b -> full b.
Proof using G. intros E H. split; [|done]. destruct (ptrs_range ff C G) as (_ & _ & ?). lia. Qed.

Lemma be_set_full n off v b : full b -> (off + n <= Z.to_nat (c_bsize C))%nat -> full (be_set n off v b).
Proof using G.
  intros F H. pose proof (full_length _ F). apply full_intro; [by rewrite be_set_length by lia|]. apply be_set_bytes, F.
Qed.

Lemma zero_full : full (zero_block C).
Proof using G. apply full_intro; [apply length_replicate|apply replicate_bytes]. Qed.

Lemma header_full m t f b : full b -> full (gfs2_meta_header_out (ff_head ff) m t f b).
Proof using G.
  intros F. pose proof sizes_nat. pose proof (g_head _ _ G) as H1. unfold mh_size in *.
  repeat (apply Forall_cons in H1 as [? H1]). unfold gfs2_meta_header_out.
  do 5 (apply be_set_full; [|lia]). done.
Qed.

Lemma header_drop m t f b : full b -> drop (mh_size ff) (gfs2_meta_header_out (ff_head ff) m t f b) = drop (mh_size ff) b.
Proof using G.
  intros F. pose proof sizes_nat. pose proof (g_head _ _ G) as H1. unfold mh_size in *.
  repeat (apply Forall_cons in H1 as [? H1]). pose proof (full_length _ F). unfold gfs2_meta_header_out.
  repeat (rewrite be_set_drop; [|lia|rewrite ?be_set_length; rewrite ?be_set_length; rewrite ?be_set_length;
    rewrite ?be_set_length; lia]). done.
Qed.

Lemma clear_full b : full b -> full (buffer_clear_tail C b (ff_dinode ff)).
Proof using G.
  intros F. pose proof sizes_nat. pose proof (full_length _ F). unfold buffer_clear_tail. apply full_intro.
  - rewrite length_app, length_take, length_replicate. lia.
  - apply Forall_app. split; [apply Forall_take, F|apply replicate_bytes].
Qed.

Lemma clear_drop b : full b ->
  drop (ff_dinode ff) (buffer_clear_tail C b (ff_dinode ff)) = replicate (8 * Z.to_nat (c_diptrs C)) 0.
Proof using G.
  intros F. pose proof sizes_nat. pose proof (full_length _ F). unfold buffer_clear_tail.
  rewrite drop_app_length' by (rewrite length_take; lia). f_equal. lia.
Qed.

Lemma copy_full a k b : full a -> full b -> (k <= ff_dinode ff)%nat -> full (buffer_copy_tail a k b (ff_dinode ff)).
Proof using G.
  intros Fa Fb Hk. pose proof sizes_nat. pose proof (full_length _ Fa). pose proof (full_length _ Fb).
  unfold buffer_copy_tail. apply full_intro.
  - rewrite !length_app, length_take, length_drop, length_replicate. lia.
  - rewrite !Forall_app. split_and!; [apply Forall_take, Fa|apply Forall_drop, Fb|apply replicate_bytes].
Qed.

Lemma copy_drop a k b : full a -> (k <= ff_dinode ff)%nat ->
  drop k (buffer_copy_tail a k b (ff_dinode ff)) = drop (ff_dinode ff) b ++ replicate (ff_dinode ff - k) 0.
Proof using G.
  intros Fa Hk. pose proof sizes_nat. pose proof (full_length _ Fa). unfold buffer_copy_tail.
  by rewrite drop_app_length' by (rewrite length_take; lia).
Qed.

(** A block that is cleared leads nowhere. *)
Lemma clear_ptr b i : full b -> 0 <= i < c_diptrs C -> ptr (ff_dinode ff) (buffer_clear_tail C b (ff_dinode ff)) i = 0.
Proof using G. intros F Hi. rewrite ptr_drop, clear_drop by done. apply ptr_zeros. lia. Qed.

(** The pointers of an inode, copied. *)
Lemma copy_ptr a b i : full a -> full b -> 0 <= i < c_inptrs C ->
  ptr (mh_size ff) (buffer_copy_tail a (mh_size ff) b (ff_dinode ff)) i =
    if decide (i < c_diptrs C) then ptr (ff_dinode ff) b i else 0.
Proof using G.
  intros Fa Fb Hi. pose proof sizes_nat. pose proof (full_length _ Fb). pose proof (g_ptrs _ _ G).
  rewrite ptr_drop, copy_drop by (done || lia). destruct (decide _).
  - rewrite ptr_app_l by (rewrite length_drop; lia). symmetry. apply ptr_drop.
  - rewrite (ptr_app_r _ _ _ (Z.to_nat (c_diptrs C))) by (rewrite ?length_drop; lia). apply ptr_zeros. lia.
Qed.

Lemma header_ptr m t f i : 0 <= i < c_inptrs C ->
  ptr (mh_size ff) (gfs2_meta_header_out (ff_head ff) m t f (zero_block C)) i = 0.
Proof using G.
  intros Hi. pose proof sizes_nat. rewrite ptr_drop, header_drop by apply zero_full.
  unfold zero_block. rewrite drop_replicate. apply ptr_zeros. lia.
Qed.
End blocks.

(** ** Files and their bytes *)

Section map.
Context {A : Type} `{!Allocator A, !AllocatorSpec A} (ff : file_format) (C : consts) (isdir : bool) (G : geometry ff C).

Implicit Types (st : file A) (p q : list Z) (b : block).

Local Abbreviation addr := (addr ff).
Local Abbreviation tree := (tree ff C).
Local Abbreviation sound := (sound C).
Local Abbreviation vp := (vp C).
Local Abbreviation path := (path C).
Local Abbreviation cap := (cap C).

(** The bytes of the file in a block, and where they begin. *)
Definition bs : Z := if isdir then c_jbsize C else c_bsize C.
Definition hdr : nat := if isdir then mh_size ff else 0%nat.
Definition hs : list Z := if isdir then c_jheightsize C else c_heightsize C.

(** The byte at an offset; where there is no block it is 0. *)
Definition cell st (k : Z) : Z :=
  match di_height (f_ip st) with
  | O => nth (ff_dinode ff + Z.to_nat k) (i_data (f_ip st)) 0
  | S _ as h =>
      if k / bs <? cap h then
        let a := addr st (path h (k / bs)) in
        if a =? 0 then 0 else nth (hdr + Z.to_nat (k mod bs)) (f_disk st a) 0
      else 0
  end.

(** Equal but for how the disk is written down. *)
Record file_eq st st' : Prop := {
  fe_alloc : f_alloc st' = f_alloc st;
  fe_disk : forall a, f_disk st' a = f_disk st a;
  fe_ip : f_ip st' = f_ip st
}.

#[export] Instance file_eq_equiv : Equivalence file_eq.
Proof.
  split; [done|by intros ? ? [? ? ?]|]. intros ? ? ? [? H1 ?] [? H2 ?]. split; [congruence| |congruence].
  intros a. by rewrite H2, H1.
Qed.

#[export] Instance addr_proper : Proper (file_eq ==> eq ==> eq) addr.
Proof.
  intros st st' [_ Hd Hi] p ? <-. destruct p as [|i p]; cbn [Gfs2FileTree.addr]; rewrite Hi; [done|].
  generalize (ptr (ff_dinode ff) (i_data (f_ip st)) i). induction p as [|j p IH]; intros a; cbn [follow]; [done|].
  rewrite Hd. destruct (a =? 0); [done|apply IH].
Qed.

#[export] Instance sound_proper : Proper (file_eq ==> iff) sound.
Proof.
  assert (forall st st', file_eq st st' -> sound st -> sound st') as H.
  { intros st st' [Ha Hd Hi] [S1 S2 S3 S4]. split; rewrite ?Ha, ?Hi; try done. intros a. by rewrite Hd. }
  intros st st' E. split; apply H; [done|by symmetry].
Qed.

#[export] Instance tree_proper : Proper (file_eq ==> eq ==> iff) tree.
Proof.
  assert (forall st st' h, file_eq st st' -> tree st h -> tree st' h) as H.
  { intros st st' h E [T1 T2 T3]. split.
    - intros p q. rewrite <- E. apply T1.
    - intros p. rewrite (fe_alloc _ _ E), <- E. apply T2.
    - intros p. rewrite <- E. apply T3. }
  intros st st' E h ? <-. split; apply H; [done|by symmetry].
Qed.

(** A well-formed file with blocks. *)
Record mapped st (h : nat) : Prop := {
  m_sound : sound st;
  m_tree : tree st h;
  m_height : di_height (f_ip st) = h /\ (0 < h <= length hs)%nat;
  m_size : 0 <= di_size (f_ip st) <= cap h * bs
}.

(** How a file grows: blocks that were free are added, nothing that was in use is changed but
    the blocks of pointers of the file. *)
Record grows (h : nat) st st' : Prop := {
  gw_addr : i_addr (f_ip st') = i_addr (f_ip st);
  gw_size : di_size (f_ip st') = di_size (f_ip st);
  gw_height : di_height (f_ip st') = di_height (f_ip st);
  gw_free : forall c, al_free (f_alloc st') c -> al_free (f_alloc st) c;
  gw_old : forall q, vp q -> (length q <= h)%nat -> addr st q <> 0 -> addr st' q = addr st q;
  gw_own : forall q, vp q -> (length q <= h)%nat -> addr st' q <> 0 ->
    addr st' q = addr st q \/ al_free (f_alloc st) (addr st' q);
  gw_disk : forall a, ~ al_free (f_alloc st) a -> (forall q, vp q -> (length q < h)%nat -> q <> [] -> addr st q <> 0 -> addr st q <> a) ->
    f_disk st' a = f_disk st a
}.

Lemma grows_eq h st st' : file_eq st st' -> grows h st st'.
Proof.
  intros E. pose proof E as [Ea Ed Ei]. split; rewrite ?Ei, ?Ea; try done.
  - intros q _ _ _. by rewrite <- E.
  - intros q _ _ _. left. by rewrite <- E.
Qed.

Lemma grows_trans h st1 st2 st3 : grows h st1 st2 -> grows h st2 st3 -> grows h st1 st3.
Proof.
  intros [A1 B1 C1 D1 E1 F1 G1] [A2 B2 C2 D2 E2 F2 G2]. split; try congruence; [by auto| | |].
  - intros q Hq Hl Hz. rewrite E2, E1; try done. by rewrite E1.
  - intros q Hq Hl Hz. destruct (F2 q Hq Hl Hz) as [Eq|Hf]; [|by auto]. rewrite Eq in *. by apply F1.
  - intros a Hf Ha. rewrite G2, G1; [done|done|done|by auto|]. intros q Hq Hl Hn Hz Ea.
    destruct (F1 q Hq ltac:(lia) Hz) as [Eq|Hf2]; [|by rewrite Ea in Hf2].
    apply (Ha q Hq Hl Hn); congruence.
Qed.

(** ** Buffers of blocks *)

(** The file as it is when the buffer has been written. *)
Definition flush st (x : handle) : file A :=
  match x with
  | HInode => st
  | HBlock a d _ => mkFile (f_alloc st) (<[a := d]> (f_disk st)) (f_ip st)
  end.

(** The buffer is the one of the block that a path leads to. *)
Definition holds st (x : handle) p : Prop :=
  match x with
  | HInode => p = []
  | HBlock a d m => p <> [] /\ a = addr (flush st x) p /\ (m = true \/ d = f_disk st a)
  end.

Lemma brelse_flush st x p : holds st x p -> file_eq (flush st x) (brelse st x).
Proof.
  destruct x as [|a d [|]]; [done|done|]. intros (_ & _ & [?| ->]); [done|]. split; try done.
  intros c. cbn. destruct (Z.eq_dec a c) as [<-|Hne]; [by rewrite disk_insert_eq|by rewrite disk_insert_ne].
Qed.

Lemma holds_data st x p : holds st x p -> hdata st x = node (flush st x) p (addr (flush st x) p).
Proof.
  destruct x as [|a d m]; [by intros ->|]. intros (Hp & Ea & _). destruct p as [|i p]; [done|].
  rewrite <- Ea. cbn [hdata node flush f_disk]. by rewrite disk_insert_eq.
Qed.

Lemma node_disk st p a : p <> [] -> node st p a = f_disk st a.
Proof. by destruct p. Qed.

Lemma metapointer_node p i : metapointer ff (length p) i = (noff ff p + 8 * Z.to_nat i)%nat.
Proof. by destruct p. Qed.

(** ** Adding a block *)

Record links (h : nat) st st' p (i v : Z) : Prop := {
  l_free : al_free (f_alloc st) v;
  l_frees : forall c, al_free (f_alloc st') c <-> al_free (f_alloc st) c /\ c <> v;
  l_sound : sound st';
  l_addr : i_addr (f_ip st') = i_addr (f_ip st);
  l_size : di_size (f_ip st') = di_size (f_ip st);
  l_height : di_height (f_ip st') = di_height (f_ip st);
  l_node : forall q, vp q -> (length q < h)%nat -> addr st q <> 0 ->
    node st' q (addr st q) = if decide (q = p) then be_set 8 (noff ff p + 8 * Z.to_nat i) v (node st p (addr st p))
                             else node st q (addr st q);
  l_disk : forall a, a <> v -> p = [] \/ a <> addr st p -> f_disk st' a = f_disk st a
}.

(** The new block may be written. *)
Lemma links_write h st st' p i v b : sound st -> tree st h -> full C b -> links h st st' p i v ->
  links h st (mkFile (f_alloc st') (<[v := b]> (f_disk st')) (f_ip st')) p i v.
Proof.
  intros S T F [L1 L2 [S1 S2 S3 S4] L4 L5 L6 L7 L8]. split; cbn [f_alloc f_disk f_ip]; try done.
  - split; cbn [f_alloc f_disk f_ip]; try done. intros a.
    destruct (Z.eq_dec v a) as [<-|Hne]; [by rewrite disk_insert_eq|by rewrite disk_insert_ne].
  - intros q Hq Hl Hz. rewrite <- L7 by done. destruct q as [|j q]; [done|]. cbn [node f_disk].
    apply disk_insert_ne. intros E. apply (t_used _ _ _ _ T (j :: q) Hq ltac:(lia) Hz). by rewrite <- E.
  - intros a Ha Hp. rewrite disk_insert_ne by done. by apply L8.
Qed.

Section linked.
Context (st st' : file A) (h : nat) (p : list Z) (i v : Z).
Context (S : sound st) (T : tree st h) (Hp : vp p) (Hi : 0 <= i < nptrs C p) (Hh : (length p < h)%nat)
  (Hparent : addr st p <> 0) (Hslot : addr st (p ++ [i]) = 0) (L : links h st st' p i v)
  (Hnew : (length p + 1 < h)%nat -> forall j, 0 <= j < c_inptrs C -> ptr (mh_size ff) (f_disk st' v) j = 0).

Lemma linked_addr q : vp q -> (length q <= h)%nat -> addr st' q = if decide (q = p ++ [i]) then v else addr st q.
Proof using All. destruct L. by apply (set_pointer ff C G st st' h p i v). Qed.

Lemma linked_tree : tree st' h.
Proof using All. destruct L. by apply (set_pointer_tree ff C G st st' h p i v). Qed.

Lemma linked_grows : grows h st st'.
Proof using All.
  pose proof L as [L1 L2 L3 L4 L5 L6 L7 L8]. split; try done.
  - intros c Hc. by apply L2.
  - intros q Hq Hl Hz. rewrite linked_addr by done. destruct (decide _) as [->|]; [by destruct Hz|done].
  - intros q Hq Hl. rewrite linked_addr by done. destruct (decide _); [by right|by left].
  - intros a Hf Ha. apply L8; [by intros ->|]. destruct p as [|j r]; [by left|right].
    intros ->. by apply (Ha (j :: r)).
Qed.
End linked.

Lemma alloc_either st (c : bool) n : sound st -> room (f_alloc st) (S n) ->
  exists v a ip, (if c then data_alloc st else meta_alloc st) = Ok (v, mkFile a (f_disk st) ip) /\
    al_free (f_alloc st) v /\ al_ok a /\ room a n /\ (forall c, al_free a c <-> al_free (f_alloc st) c /\ c <> v) /\
    i_addr ip = i_addr (f_ip st) /\ i_data ip = i_data (f_ip st) /\ di_size ip = di_size (f_ip st) /\
    di_height ip = di_height (f_ip st).
Proof.
  intros S R. destruct c; unfold data_alloc, meta_alloc;
    [destruct (alloc_room _ DATA n (s_alloc _ _ S) R) as (v & a & -> & H1 & H2 & H3 & H4)
    |destruct (alloc_room _ META n (s_alloc _ _ S) R) as (v & a & -> & H1 & H2 & H3 & H4)];
    eexists v, a, _; (split; [reflexivity|]); cbn; split_and!; done.
Qed.

(** ** Looking up a pointer *)

Section lookup.
Context (st : file A) (x : handle) (p : list Z) (i : Z) (h : nat).
Local Abbreviation V := (flush st x).
Context (H : holds st x p) (S : sound V) (T : tree V h) (Hp : vp p) (Hi : 0 <= i < nptrs C p) (Hz : addr V p <> 0).

Lemma lookup_pointer : (length (hdata st x) <? metapointer ff (length p) i + 8)%nat = false /\
  be_get 8 (metapointer ff (length p) i) (hdata st x) = addr V (p ++ [i]).
Proof using G H S Hi Hz.
  rewrite metapointer_node, (holds_data _ _ _ H). split.
  - apply Nat.ltb_ge. rewrite (full_length _ _ (node_full _ _ p _ S)). by apply (slot_fits ff C G).
  - rewrite addr_snoc by apply S. by rewrite (proj2 (Z.eqb_neq _ _)).
Qed.

Lemma lookup_old create : addr V (p ++ [i]) <> 0 ->
  lookup_block ff isdir st x (length p) i create = Ok (st, x, false, addr V (p ++ [i])).
Proof using G H S Hi Hz.
  intros Hn. unfold lookup_block. destruct lookup_pointer as [-> ->]. by rewrite (proj2 (Z.eqb_neq _ _)).
Qed.

Lemma lookup_none : addr V (p ++ [i]) = 0 -> lookup_block ff isdir st x (length p) i false = Ok (st, x, false, 0).
Proof using G H S Hi Hz. intros Hn. unfold lookup_block. destruct lookup_pointer as [-> ->]. by rewrite Hn. Qed.

Lemma lookup_new n : (length p < h)%nat -> addr V (p ++ [i]) = 0 -> room (f_alloc st) (Datatypes.S n) ->
  exists st' x' v, lookup_block ff isdir st x (length p) i true = Ok (st', x', true, v) /\
    links h V (flush st' x') p i v /\ brelse st' x' = flush st' x' /\ room (f_alloc st') n.
Proof using All.
  intros Hl Hn R. unfold lookup_block. destruct lookup_pointer as [-> ->]. rewrite Hn. cbn [Z.eqb negb].
  assert (FA : f_alloc V = f_alloc st /\ f_ip V = f_ip st) by (by destruct x). destruct FA as [FA FI].
  assert (St : forall c : bool, exists v a ip, (if c then data_alloc st else meta_alloc st) = Ok (v, mkFile a (f_disk st) ip) /\
    al_free (f_alloc V) v /\ al_ok a /\ room a n /\ (forall c, al_free a c <-> al_free (f_alloc V) c /\ c <> v) /\
    i_addr ip = i_addr (f_ip V) /\ i_data ip = i_data (f_ip V) /\ di_size ip = di_size (f_ip V) /\
    di_height ip = di_height (f_ip V)).
  { intros c. rewrite FA, FI. apply (alloc_either (mkFile (f_alloc st) (f_disk V) (f_ip st))) with (c := c) in R as
      (v & a & ip & E & R); [|by destruct S; split; cbn; rewrite <- ?FA, <- ?FI].
    exists v, a, ip. split; [|exact R]. revert E. destruct c; unfold data_alloc, meta_alloc; cbn [f_alloc f_disk f_ip];
      (destruct (alloc _ _) as [[? ?]| |]; cbn; [|done|done]); by intros [= <- <- <-]. }
  destruct (St ((length p =? di_height (f_ip st) - 1)%nat && negb isdir)) as (v & a & ip & -> & F1 & F2 & F3 & F4 & F5 & F6 & F7 & F8).
  cbn [mbind res_bind]. clear St. rewrite metapointer_node.
  assert (HD : hdata (mkFile a (f_disk st) ip) x = node V p (addr V p)).
  { rewrite <- (holds_data _ _ _ H). destruct x; cbn; [|done]. by rewrite F6. }
  rewrite HD. set (nb := be_set 8 _ v _).
  assert (Fn : full C nb).
  { apply (be_set_full ff C G); [apply (node_full _ _ _ _ S)|by apply (slot_fits ff C G)]. }
  destruct x as [|c d m]; cbn [hput with_ip f_ip f_alloc f_disk ip_set_data] in *; eexists _, _, v;
    (split; [reflexivity|]); (split; [|by split]).
  - cbn in H. subst p. split; cbn [flush f_alloc f_disk f_ip ip_add_block i_addr i_data di_size di_height] in *; try done.
    + destruct S as [S1 S2 S3 S4]. split; cbn; try done. by rewrite F5.
    + intros q Hq Lq Hz'. destruct q as [|j q]; [by rewrite decide_True|by rewrite decide_False].
  - destruct H as (Hpn & Ec & _). split; cbn [flush f_alloc f_disk f_ip ip_add_block i_addr i_data di_size di_height] in *; try done.
    + destruct S as [S1 S2 S3 S4]. split; cbn in *; try done; [|by rewrite F6|by rewrite F5].
      intros y. specialize (S2 y). destruct (Z.eq_dec c y) as [<-|Hne]; [by rewrite disk_insert_eq|].
      rewrite disk_insert_ne in * by done. done.
    + intros q Hq Lq Hz'. destruct (decide (q = p)) as [->|Hqp].
      * rewrite node_disk by done. cbn [f_disk]. rewrite <- Ec at 1. apply disk_insert_eq.
      * destruct q as [|j q]; cbn [node f_disk f_ip]; [done|].
        assert (c <> addr (flush st (HBlock c d m)) (j :: q)) as Hne.
        { intros E. apply Hqp. symmetry. apply (t_inj _ _ _ _ T); [done|done|lia|lia|exact Hz|]. etrans; [symmetry; exact Ec|exact E]. }
        by rewrite !disk_insert_ne by exact Hne.
    + intros y Hy [->|Hne]; [done|]. rewrite <- Ec in Hne. by rewrite !disk_insert_ne by congruence.
Qed.
End lookup.

(** ** Walking through the indirect blocks *)

(** The buffer that reading gives. *)
Definition handle_of st p : handle := match p with [] => HInode | _ => bread st (addr st p) end.

Lemma handle_flush st p : file_eq st (flush st (handle_of st p)).
Proof.
  destruct p as [|i p]; [done|]. split; [done| |done]. intros a. cbn [flush handle_of bread f_disk].
  destruct (Z.eq_dec (addr st (i :: p)) a) as [<-|Hne]; [by rewrite disk_insert_eq|by rewrite disk_insert_ne].
Qed.

Lemma handle_holds st p : holds st (handle_of st p) p.
Proof.
  pose proof (handle_flush st p) as E. destruct p as [|i p]; [done|]. split; [done|]. split; [|by right].
  change (HBlock _ _ _) with (handle_of st (i :: p)). by rewrite <- E.
Qed.

Lemma handle_brelse st p : brelse st (handle_of st p) = st.
Proof. by destruct p. Qed.

Lemma read_handle st h p : sound st -> tree st h -> vp p -> (length p <= h)%nat -> p <> [] -> addr st p <> 0 ->
  read_or_inode st (addr st p) = handle_of st p.
Proof.
  intros S T Hp Hl Hn Hz. unfold read_or_inode. destruct (_ =? i_addr (f_ip st)) eqn:E; [|by destruct p]. zbool.
  destruct Hn. apply (t_inj _ _ _ _ T p []); [done|done|lia|cbn; lia|done|done].
Qed.

Lemma snoc_cons p (i : Z) mp : p ++ i :: mp = (p ++ [i]) ++ mp.
Proof. by rewrite <- app_assoc. Qed.

Lemma vp_prefix p q : vp (p ++ q) -> vp p.
Proof. destruct p as [|i p]; [done|]. cbn. rewrite Forall_app. tauto. Qed.

Lemma addr_prefix st p q : i_addr (f_ip st) <> 0 -> addr st p = 0 -> addr st (p ++ q) = 0.
Proof.
  intros Ha Hz. induction q as [|j q IH] using rev_ind; [by rewrite app_nil_r|].
  rewrite app_assoc, addr_snoc by done. by rewrite IH.
Qed.

(** Without creating: the last buffer, or none when a pointer is missing. *)
Lemma walk_find st h mp p db : sound st -> tree st h -> vp (p ++ mp) -> (length p + length mp <= h)%nat -> addr st p <> 0 ->
  if addr st (p ++ mp) =? 0
  then walk ff C isdir st (handle_of st p) (length p) mp false false db = Ok (st, None, false, 0)
  else exists db', walk ff C isdir st (handle_of st p) (length p) mp false false db =
         Ok (st, Some (handle_of st (p ++ mp)), false, db').
Proof using G isdir.
  intros S T. revert p db. induction mp as [|i mp IH]; intros p db Hp Hl Hz.
  - rewrite app_nil_r. rewrite (proj2 (Z.eqb_neq _ _)) by done. by exists db.
  - rewrite snoc_cons in Hp |- *. pose proof (vp_prefix _ _ Hp) as Hp1. apply vp_snoc in Hp1 as Hp2. destruct Hp2 as [Hp2 Hi].
    cbn [length] in Hl. cbn [walk]. pose proof (handle_flush st p) as E. pose proof (s_addr _ _ S) as [_ Ha].
    assert (S' : sound (flush st (handle_of st p))) by (by rewrite <- E).
    assert (Hz' : addr (flush st (handle_of st p)) p <> 0) by (by rewrite <- E).
    destruct (Z.eq_dec (addr st (p ++ [i])) 0) as [Hn|Hn].
    + rewrite (lookup_none st _ p i (handle_holds st p) S' Hi Hz') by (by rewrite <- E).
      rewrite (addr_prefix _ _ mp Ha Hn). cbn. by rewrite handle_brelse.
    + rewrite (lookup_old st _ p i (handle_holds st p) S' Hi Hz') by (by rewrite <- E).
      cbn [mbind res_bind]. rewrite handle_brelse.
      assert (addr (flush st (handle_of st p)) (p ++ [i]) = addr st (p ++ [i])) as -> by (by rewrite <- E).
      rewrite (proj2 (Z.eqb_neq (addr st (p ++ [i])) 0)) by done.
      cbn [orb]. rewrite (read_handle st h) by (done || (rewrite ?length_app; cbn; lia) || by destruct p).
      replace (Datatypes.S (length p)) with (length (p ++ [i])) by (rewrite length_app; cbn; lia).
      apply IH; [done|rewrite length_app; cbn; lia|done].
Qed.

(** What the walk holds: the buffer of the block of a path, in a file whose tree is well-formed
    once the buffer is written. *)
Record walking (h : nat) st x p (new : bool) : Prop := {
  wk_holds : holds st x p;
  wk_sound : sound (flush st x);
  wk_tree : tree (flush st x) h;
  wk_here : addr (flush st x) p <> 0;
  wk_new : new = true -> forall i, 0 <= i < nptrs C p -> addr (flush st x) (p ++ [i]) = 0
}.

Lemma flush_alloc st x : f_alloc (flush st x) = f_alloc st.
Proof. by destruct x. Qed.

(** To a block that is there. *)
Lemma walk_old h st x p i : walking h st x p false -> vp (p ++ [i]) -> (length p < h)%nat -> addr (flush st x) (p ++ [i]) <> 0 ->
  let st1 := brelse st x in
  let x1 := read_or_inode st1 (addr (flush st x) (p ++ [i])) in
  walking h st1 x1 (p ++ [i]) false /\ file_eq (flush st x) (flush st1 x1).
Proof using G isdir.
  intros [W1 W2 W3 W4 _] Hp Hl Hz. cbv zeta. pose proof (brelse_flush _ _ _ W1) as E.
  assert (addr (flush st x) (p ++ [i]) = addr (brelse st x) (p ++ [i])) as Ea by (by rewrite <- E). rewrite Ea in *.
  rewrite E in W2, W3. revert E W2 W3 Hz. generalize (brelse st x). intros st1 E W2 W3 Hz.
  rewrite (read_handle st1 h) by (done || (rewrite ?length_app; cbn; lia) || by destruct p).
  pose proof (handle_flush st1 (p ++ [i])) as E1. split; [|by rewrite E].
  split; [apply handle_holds|..|done]; by rewrite <- E1.
Qed.

(** To a new indirect block. *)
Lemma walk_new h st x p i st' x' v new : walking h st x p new -> vp (p ++ [i]) -> (length p + 1 < h)%nat ->
  addr (flush st x) (p ++ [i]) = 0 -> links h (flush st x) (flush st' x') p i v -> brelse st' x' = flush st' x' ->
  let st1 := brelse st' x' in
  let x1 := meta_head ff (GFS2_METATYPE_IN ff) (GFS2_FORMAT_IN ff) (bget C v) in
  walking h st1 x1 (p ++ [i]) true /\ grows h (flush st x) (flush st1 x1) /\
  (forall q, vp q -> length q = h -> addr (flush st1 x1) q = addr (flush st x) q).
Proof using G isdir.
  intros [W1 W2 W3 W4 _] Hp Hl Hz L Eb. cbv zeta. rewrite Eb. pose proof Hp as [Hp1 Hi]%vp_snoc.
  set (b := gfs2_meta_header_out (ff_head ff) (GFS2_MAGIC (ff_head ff)) (GFS2_METATYPE_IN ff) (GFS2_FORMAT_IN ff) (zero_block C)).
  change (meta_head ff _ _ _) with (HBlock v b true).
  assert (Fb : full C b) by (apply (header_full ff C G), (zero_full ff C G)).
  apply (links_write _ _ _ _ _ _ b) in L; [|done..].
  change (mkFile _ _ _) with (flush (flush st' x') (HBlock v b true)) in L.
  set (V2 := flush (flush st' x') (HBlock v b true)) in *.
  assert (D : f_disk V2 v = b) by (apply disk_insert_eq).
  assert (N : (length p + 1 < h)%nat -> forall j, 0 <= j < c_inptrs C -> ptr (mh_size ff) (f_disk V2 v) j = 0).
  { intros _ j Hj. rewrite D. by apply (header_ptr ff C G). }
  assert (Ad : forall q, vp q -> (length q <= h)%nat -> addr V2 q = if decide (q = p ++ [i]) then v else addr (flush st x) q)
    by (intros q; apply (linked_addr _ _ h p i v); done || lia).
  assert (Av : addr V2 (p ++ [i]) = v) by (rewrite Ad; [by rewrite decide_True|done|rewrite length_app; cbn; lia]).
  assert (Hv : 0 < v < 2 ^ 63) by (eapply al_range; [apply W2|apply L]).
  split; [|split].
  - split; [..|intros _ j Hj].
    + split; [by destruct p|]. split; [by symmetry|by left].
    + apply L.
    + eapply linked_tree; try done; lia.
    + fold V2. lia.
    + fold V2. rewrite addr_snoc by apply L. rewrite Av. rewrite (proj2 (Z.eqb_neq _ _)) by lia.
      assert (noff ff (p ++ [i]) = mh_size ff /\ nptrs C (p ++ [i]) = c_inptrs C) as [-> En] by (by destruct p).
      rewrite node_disk by (by destruct p). apply N; [done|]. by rewrite <- En.
  - apply (linked_grows _ _ h p i v); done || lia.
  - intros q Hq Lq. rewrite Ad by (done || lia). destruct (decide _) as [->|]; [|done].
    rewrite length_app in Lq. cbn in Lq. lia.
Qed.

Lemma walk_create h mp st x p new db n : walking h st x p new -> vp (p ++ mp) -> (length p + length mp < h)%nat ->
  room (f_alloc st) (length mp + n) ->
  exists st' x' new' db', walk ff C isdir st x (length p) mp true new db = Ok (st', Some x', new', db') /\
    walking h st' x' (p ++ mp) new' /\ grows h (flush st x) (flush st' x') /\
    (forall q, vp q -> length q = h -> addr (flush st' x') q = addr (flush st x) q) /\ room (f_alloc st') n.
Proof using G isdir.
  revert st x p new db. induction mp as [|i mp IH]; intros st x p new db W Hp Hl R.
  - exists st, x, new, db. rewrite app_nil_r. split_and!; try done. by apply grows_eq.
  - rewrite snoc_cons in Hp |- *. pose proof (vp_prefix _ _ Hp) as Hp1. apply vp_snoc in Hp1 as Hp2. destruct Hp2 as [Hp2 Hi].
    cbn [length Nat.add] in Hl, R. cbn [walk]. pose proof W as [W1 W2 W3 W4 W5].
    assert (El : Datatypes.S (length p) = length (p ++ [i])) by (rewrite length_app; cbn; lia).
    destruct (Z.eq_dec (addr (flush st x) (p ++ [i])) 0) as [Hn|Hn].
    + destruct (lookup_new st x p i h W1 W2 W3 Hp2 Hi W4 (length mp + n)) as (st' & x' & v & -> & L & Eb & R'); [lia|done|done|].
      cbn [mbind res_bind]. assert (Hv : 0 < v) by (eapply al_range; [apply W2|apply L]).
      rewrite (proj2 (Z.eqb_neq _ _)) by lia. rewrite orb_true_r.
      destruct (walk_new h st x p i st' x' v new) as (Wn & Gn & An); try done; [lia|].
      rewrite El. edestruct (IH _ _ (p ++ [i]) true v Wn Hp) as (st2 & x2 & new2 & db2 & -> & W' & G' & A' & R2);
        [rewrite length_app; cbn; lia|rewrite Eb, flush_alloc; exact R'|].
      exists st2, x2, new2, db2. split_and!; try done; [by eapply grows_trans|].
      intros q Hq Lq. rewrite A', An by done. done.
    + destruct new; [by destruct Hn; apply W5|].
      rewrite (lookup_old st x p i W1 W2 Hi W4) by done. cbn [mbind res_bind orb].
      rewrite (proj2 (Z.eqb_neq _ _)) by done.
      destruct (walk_old h st x p i W Hp1 ltac:(lia) Hn) as [Wo Eo]. rewrite El.
      edestruct (IH _ _ (p ++ [i]) false (addr (flush st x) (p ++ [i])) Wo Hp) as (st2 & x2 & new2 & db2 & -> & W' & G' & A' & R2);
        [rewrite length_app; cbn; lia| |].
      { pose proof (brelse_flush _ _ _ W1) as Eb. rewrite (fe_alloc _ _ Eb), flush_alloc.
        eapply room_le; [|exact R]. lia. }
      exists st2, x2, new2, db2. split_and!; try done; [eapply grows_trans; [by apply grows_eq|done]|].
      intros q Hq Lq. rewrite A' by done. by rewrite <- Eo.
Qed.

(** ** The last pointer *)

(** From a pointer on, [e] pointers lead to blocks that follow each other. *)
Definition run st p (i db e : Z) : Prop :=
  1 <= e /\ forall j, 0 <= j < e -> i + j < nptrs C p /\ addr st (p ++ [i + j]) = db + j.

Lemma extent_ok st h p i db fuel e : sound st -> tree st h -> vp p -> (length p < h)%nat -> addr st p <> 0 -> 0 <= i -> 0 < db ->
  run st p i db e ->
  run st p i db (extent ff fuel (node st p (addr st p)) (length p) (i + e - 1) (nptrs C p) db e).
Proof using G.
  intros S T Hp Hl Hz Hi Hdb. revert e. induction fuel as [|fuel IH]; intros e [He R]; cbn [extent]; [by split|].
  replace (i + e - 1 + 1) with (i + e) by lia. destruct (i + e <? nptrs C p) eqn:E1; cbn [negb]; [|by split]. zbool.
  assert (En : be_get 8 (metapointer ff (length p) (i + e)) (node st p (addr st p)) = addr st (p ++ [i + e])).
  { rewrite metapointer_node, addr_snoc by apply S. by rewrite (proj2 (Z.eqb_neq _ _)). }
  rewrite En. assert (db < 2 ^ 63).
  { destruct (R 0 ltac:(lia)) as [Hn E0]. rewrite !Z.add_0_r in *. rewrite <- E0. apply (t_small _ _ _ _ T).
    - apply vp_snoc. split; [done|lia].
    - rewrite length_app. cbn. lia. }
  assert (nptrs C p < 2 ^ 31).
  { pose proof (g_small _ _ G). pose proof (g_di _ _ G). pose proof (g_in _ _ G). pose proof (g_ptrs _ _ G). destruct p; cbn; lia. }
  unfold wrap. rewrite (Z.mod_small (db + e)), (Z.mod_small (e + 1)) by lia.
  destruct (db + e =? addr st (p ++ [i + e])) eqn:E2; cbn [negb]; [|by split]. zbool.
  replace (i + e) with (i + (e + 1) - 1) by lia. apply IH. split; [lia|]. intros j Hj.
  destruct (Z.eq_dec j e) as [->|]; [by rewrite <- E2|]. apply R. lia.
Qed.

Lemma eom_ptrs p : (if (0 <? length p)%nat then c_inptrs C else c_diptrs C) = nptrs C p.
Proof. by destruct p. Qed.

Lemma run_one st p i db : i < nptrs C p -> addr st (p ++ [i]) = db -> run st p i db 1.
Proof.
  intros Hi E. split; [lia|]. intros j Hj. replace j with 0 by lia. rewrite !Z.add_0_r. by split.
Qed.

Lemma map_find st h p i : sound st -> tree st h -> vp (p ++ [i]) -> (length p < h)%nat -> addr st p <> 0 ->
  let db := addr st (p ++ [i]) in
  forall db0, exists e, map_last ff C isdir st (handle_of st p) (length p) i false false db0 true false = Ok (st, false, db, e) /\
    if db =? 0 then e = 0 else run st p i db e.
Proof using G isdir.
  intros S T [Hp Hi]%vp_snoc Hl Hz db db0. pose proof (handle_flush st p) as E. unfold map_last, map_pointer.
  assert (S' : sound (flush st (handle_of st p))) by (by rewrite <- E).
  assert (Hz' : addr (flush st (handle_of st p)) p <> 0) by (by rewrite <- E).
  assert (Ea : addr (flush st (handle_of st p)) (p ++ [i]) = db) by (by rewrite <- E).
  assert (Hd : hdata st (handle_of st p) = node st p (addr st p)) by (by destruct p).
  destruct (db =? 0) eqn:Ez; zbool.
  - rewrite (lookup_none st _ p i (handle_holds st p) S' Hi Hz') by congruence. cbn. rewrite handle_brelse, Ez. by exists 0.
  - rewrite (lookup_old st _ p i (handle_holds st p) S' Hi Hz') by congruence. cbn [mbind res_bind mret res_ret orb andb].
    rewrite Ea, handle_brelse, eom_ptrs, Hd, (proj2 (Z.eqb_neq db 0)) by done. cbn [negb andb]. eexists. split; [reflexivity|].
    pose proof (addr_range ff C st (p ++ [i]) S) as Hr. unfold in_u in Hr. fold db in Hr.
    replace i with (i + 1 - 1) at 2 by lia. apply (extent_ok st h); try done; [lia|lia|]. by apply run_one; [lia|].
Qed.

Record last_ok (h : nat) st st' p (i db e : Z) (new : bool) : Prop := {
  la_sound : sound st';
  la_tree : tree st' h;
  la_grows : grows h st st';
  la_db : addr st' (p ++ [i]) = db /\ db <> 0;
  la_run : run st' p i db e;
  la_new : new = true -> addr st (p ++ [i]) = 0 /\ e = 1;
  la_old : new = false -> addr st (p ++ [i]) = db;
  la_rest : forall q, vp q -> length q = h -> q <> p ++ [i] -> addr st' q = addr st q
}.

Lemma map_create st x h p i new db0 n : walking h st x p new -> vp (p ++ [i]) -> (length p + 1)%nat = h ->
  room (f_alloc st) (S n) ->
  exists st' new' db e, map_last ff C isdir st x (length p) i true new db0 true false = Ok (st', new', db, e) /\
    last_ok h (flush st x) st' p i db e new' /\ room (f_alloc st') n.
Proof using G isdir.
  intros [W1 W2 W3 W4 W5] Hp Hl R. pose proof Hp as [Hp1 Hi]%vp_snoc. unfold map_last, map_pointer.
  destruct (Z.eq_dec (addr (flush st x) (p ++ [i])) 0) as [Hn|Hn].
  - destruct (lookup_new st x p i h W1 W2 W3 Hp1 Hi W4 n) as (st' & x' & v & -> & L & Eb & R'); [lia|done|done|].
    cbn [mbind res_bind mret res_ret]. assert (Hv : 0 < v) by (eapply al_range; [apply W2|apply L]).
    rewrite orb_true_r, (proj2 (Z.eqb_neq v 0)) by lia. cbn [negb andb]. eexists _, _, _, _. split; [reflexivity|].
    rewrite Eb, flush_alloc. split; [|done].
    assert (Ad : forall q, vp q -> (length q <= h)%nat -> addr (flush st' x') q = if decide (q = p ++ [i]) then v else addr (flush st x) q)
      by (intros q; apply (linked_addr _ _ h p i v); done || lia).
    assert (Av : addr (flush st' x') (p ++ [i]) = v) by (rewrite Ad; [by rewrite decide_True|done|rewrite length_app; cbn; lia]).
    split; try done; [apply L|apply (linked_tree (flush st x) _ h p i v); done || lia|
      apply (linked_grows _ _ h p i v); done || lia|split; [done|lia]|by apply run_one; [lia|]|].
    intros q Hq Lq Hne. rewrite Ad by (done || lia). by rewrite decide_False.
  - destruct new; [by destruct Hn; apply W5|]. rewrite (lookup_old st x p i W1 W2 Hi W4) by done.
    cbn [mbind res_bind mret res_ret orb]. set (db := addr (flush st x) (p ++ [i])) in *.
    rewrite (proj2 (Z.eqb_neq db 0)) by done. cbn [negb andb]. eexists _, _, _, _. split; [reflexivity|].
    pose proof (brelse_flush _ _ _ W1) as E. rewrite (fe_alloc _ _ E), flush_alloc.
    split; [|eapply room_le; [|exact R]; lia]. rewrite eom_ptrs, (holds_data _ _ _ W1).
    pose proof (addr_range ff C (flush st x) (p ++ [i]) W2) as Hr. unfold in_u in Hr. fold db in Hr.
    assert (Rn : run (flush st x) p i db (extent ff (Z.to_nat (nptrs C p)) (node (flush st x) p (addr (flush st x) p)) (length p) i (nptrs C p) db 1)).
    { replace i with (i + 1 - 1) at 2 by lia. apply (extent_ok _ h); try done; [lia|lia|lia|]. by apply run_one; [lia|]. }
    split; try done; [by rewrite <- E|by rewrite <- E|by apply grows_eq|split; [by rewrite <- E|done]| |].
    + destruct Rn as [R1 R2]. split; [done|]. intros j Hj. rewrite <- E. by apply R2.
    + intros q _ _ _. by rewrite <- E.
Qed.
End map.
