(* ===== verification/Gfs2FileHeight.v ===== *)
(** * The height of a file

    [build_height] and [unstuff_dinode] of [Gfs2File] make the tree of a file higher, and
    [block_map] finds or makes the block of an offset in it; the bytes of the file stay as they
    are. *)

From stdpp Require Import functions.
From S2P Require Import Prelude PlockWire DiskHash Gfs2Field Gfs2Log Gfs2Bits Gfs2Rgrp Gfs2File Gfs2FilePath Gfs2FileTree Gfs2FileMap.
Open Scope Z_scope.

Section height.
Context {A : Type} `{!Allocator A, !AllocatorSpec A} (ff : file_format) (C : consts) (isdir : bool) (G : geometry ff C).

Implicit Types (st : file A) (p q : list Z) (b : block).

Local Abbreviation addr := (addr ff).
Local Abbreviation tree := (tree ff C).
Local Abbreviation sound := (sound C).
Local Abbreviation vp := (vp C).
Local Abbreviation path := (path C).
Local Abbreviation cap := (cap C).
Local Abbreviation cell := (cell ff C isdir).
Local Abbreviation bs := (bs C isdir).
Local Abbreviation hdr := (hdr ff isdir).
Local Abbreviation hs := (hs C isdir).
Local Abbreviation mapped := (mapped ff C isdir).

Lemma bs_range : 0 < bs /\ bs + Z.of_nat hdr = c_bsize C.
Proof using G.
  pose proof (g_jbsize _ _ G). pose proof (g_in _ _ G). destruct (ptrs_range ff C G) as (_ & ? & ?).
  unfold Gfs2FileMap.bs, Gfs2FileMap.hdr. destruct isdir; lia.
Qed.

(** The blocks of the file. *)
Definition owned st (a : Z) : Prop :=
  exists p, p <> [] /\ vp p /\ (length p <= di_height (f_ip st))%nat /\ addr st p = a /\ a <> 0.

(** What is neither free nor of this file stays as it is. *)
Record extends st st' : Prop := {
  ex_addr : i_addr (f_ip st') = i_addr (f_ip st);
  ex_free : forall c, al_free (f_alloc st') c -> al_free (f_alloc st) c;
  ex_own : forall a, owned st' a -> owned st a \/ al_free (f_alloc st) a;
  ex_disk : forall a, ~ al_free (f_alloc st) a -> ~ owned st a -> f_disk st' a = f_disk st a
}.

Lemma extends_refl st : extends st st.
Proof. split; auto. Qed.

Lemma extends_trans st1 st2 st3 : extends st1 st2 -> extends st2 st3 -> extends st1 st3.
Proof.
  intros [A1 F1 O1 D1] [A2 F2 O2 D2]. split; [congruence|by auto| |].
  - intros a [Ho|Hf]%O2; auto.
  - intros a Hf Ho. rewrite D2, D1; auto. by intros [?|?]%O1.
Qed.

Lemma grows_extends h st st' : di_height (f_ip st) = h -> grows ff C h st st' -> extends st st'.
Proof.
  intros Eh [G1 G2 G3 G4 G5 G6 G7]. split; [done|done| |].
  - intros a (p & Hn & Hp & Hl & <- & Hz). rewrite G3, Eh in Hl. destruct (G6 p Hp Hl Hz) as [E|Hf]; [left|by right].
    exists p. split_and!; try done. lia.
  - intros a Hf Ho. apply G7; [done|]. intros q Hq Hl Hn Hz <-. apply Ho. exists q. split_and!; try done. lia.
Qed.

(** ** One more level *)

Lemma follow_zero d p : follow ff d 0 p = 0.
Proof. by destruct p. Qed.

(** The old paths begin with the first pointer now. *)
Record builds (h : nat) st st' : Prop := {
  b_sound : sound st';
  b_addr : i_addr (f_ip st') = i_addr (f_ip st);
  b_size : di_size (f_ip st') = di_size (f_ip st);
  b_height : di_height (f_ip st') = S h;
  b_free : forall c, al_free (f_alloc st') c -> al_free (f_alloc st) c;
  b_keep : forall q, q <> [] -> vp q -> (length q <= h)%nat -> addr st' (0 :: q) = addr st q;
  b_cases : forall q, vp q -> (length q <= S h)%nat -> addr st' q <> 0 ->
    q = [] \/ (q = [0] /\ al_free (f_alloc st) (addr st' q) /\ ~ al_free (f_alloc st') (addr st' q)) \/
    exists q', q = 0 :: q' /\ q' <> [] /\ vp q' /\ (length q' <= h)%nat /\ addr st' q = addr st q';
  b_disk : forall a, ~ al_free (f_alloc st) a -> f_disk st' a = f_disk st a
}.

Lemma any_pointer_false b i : any_pointer ff C b = false -> 0 <= i < c_diptrs C -> ptr (ff_dinode ff) b i = 0.
Proof.
  unfold any_pointer. intros E Hi. destruct (Z.eq_dec (ptr (ff_dinode ff) b i) 0) as [|Hn]; [done|].
  assert (existsb (fun x => negb (be_get 8 (ff_dinode ff + 8 * x) b =? 0)) (seq 0 (Z.to_nat (c_diptrs C))) = true) as E'; [|congruence].
  apply existsb_exists. exists (Z.to_nat i). split; [apply in_seq; lia|]. by rewrite (proj2 (Z.eqb_neq _ _)).
Qed.

Lemma build_none h st : sound st -> di_height (f_ip st) = h -> any_pointer ff C (i_data (f_ip st)) = false ->
  builds h st (with_ip st (ip_set_height (ip_set_data (f_ip st) (buffer_clear_tail C (i_data (f_ip st)) (ff_dinode ff))) (S h))).
Proof using G.
  intros S Eh Hn. set (st' := with_ip _ _). pose proof (s_data _ _ S) as Fd.
  assert (Z0 : forall q, q <> [] -> vp q -> addr st q = 0).
  { intros [|j q] Hq Hv; [done|]. destruct Hv as [Hj _]. cbn [Gfs2FileTree.addr]. by rewrite any_pointer_false, follow_zero. }
  assert (Z1 : forall q, q <> [] -> vp q -> addr st' q = 0).
  { intros [|j q] Hq Hv; [done|]. destruct Hv as [Hj _]. cbn [Gfs2FileTree.addr st' with_ip f_ip ip_set_height ip_set_data i_data].
    by rewrite (clear_ptr ff C G), follow_zero. }
  split; try done.
  - destruct S as [S1 S2 S3 S4]. split; try done. by apply (clear_full ff C G).
  - intros q Hq Hv Hl. rewrite Z0, Z1; try done. destruct q as [|j q]; [done|]. cbn in Hv |- *.
    pose proof (ptrs_range ff C G). split; [lia|]. constructor; [lia|tauto].
  - intros q Hq Hl Hz. left. destruct q; [done|]. by destruct Hz; apply Z1.
Qed.

Lemma build_some h st a v ip : sound st -> tree st h -> (0 < h)%nat ->
  al_free (f_alloc st) v -> al_ok a -> (forall c, al_free a c <-> al_free (f_alloc st) c /\ c <> v) ->
  i_addr ip = i_addr (f_ip st) -> i_data ip = i_data (f_ip st) -> di_size ip = di_size (f_ip st) ->
  let b := gfs2_meta_header_out (ff_head ff) (GFS2_MAGIC (ff_head ff)) (GFS2_METATYPE_IN ff) (GFS2_FORMAT_IN ff) (zero_block C) in
  let d := <[v := buffer_copy_tail b (mh_size ff) (i_data ip) (ff_dinode ff)]> (f_disk st) in
  let data := be_set 8 (ff_dinode ff) v (buffer_clear_tail C (i_data ip) (ff_dinode ff)) in
  builds h st (mkFile a d (ip_set_height (ip_add_block (ip_set_data ip data)) (S h))).
Proof using G.
  intros S T Hh Hf Ha Hfs Ea Ed Es. rewrite Ed. intros b d data. set (st' := mkFile _ _ _).
  pose proof (s_data _ _ S) as Fd. pose proof (sizes_nat ff C G) as Hsz. pose proof (ptrs_range ff C G) as Hpr.
  assert (Fb : full C b) by (apply (header_full ff C G), (zero_full ff C G)).
  assert (Fc : full C (buffer_clear_tail C (i_data (f_ip st)) (ff_dinode ff))) by (by apply (clear_full ff C G)).
  assert (Hv : 0 < v < 2 ^ 63) by (eapply al_range; [apply S|done]).
  assert (P0 : forall j, 0 <= j < c_diptrs C -> ptr (ff_dinode ff) data j = if decide (j = 0) then v else 0).
  { intros j Hj. unfold data. replace (be_set 8 (ff_dinode ff)) with (be_set 8 (ff_dinode ff + 8 * Z.to_nat 0)) by (f_equal; lia).
    rewrite ptr_set; [|rewrite (full_length _ _ Fc); lia|lia|lia|unfold in_u; lia].
    destruct (decide _); [done|]. by apply (clear_ptr ff C G). }
  assert (P1 : forall j r, 0 <= j < c_inptrs C ->
    addr st' (0 :: j :: r) = if decide (j < c_diptrs C) then addr (mkFile a d (f_ip st)) (j :: r) else 0).
  { intros j r Hj. cbn [Gfs2FileTree.addr st' f_ip f_disk ip_set_height ip_add_block ip_set_data i_data].
    rewrite P0, decide_True by (done || lia). cbn [follow]. rewrite (proj2 (Z.eqb_neq v 0)) by lia.
    unfold d at 2. rewrite disk_insert_eq, (copy_ptr ff C G) by done. destruct (decide _); [done|apply follow_zero]. }
  assert (P2 : forall q, vp q -> (length q <= h)%nat -> addr (mkFile a d (f_ip st)) q = addr st q).
  { apply addr_frame; [done|apply S|]. intros q Hq Hl Hz. destruct q as [|j q]; [done|]. cbn [node f_disk]. unfold d.
    apply disk_insert_ne. intros E. apply (t_used _ _ _ _ T (j :: q) Hq ltac:(lia) Hz). by rewrite <- E. }
  split; try done.
  - destruct S as [S1 S2 S3 S4]. split; cbn; try done; [|apply (be_set_full ff C G); [done|lia]|by rewrite Ea].
    intros y. unfold d. destruct (Z.eq_dec v y) as [<-|Hne]; [|by rewrite disk_insert_ne].
    rewrite disk_insert_eq. apply (copy_full ff C G); try done. lia.
  - intros c Hc. by apply Hfs.
  - intros q Hq Hvq Hl. destruct q as [|j r]; [done|]. destruct Hvq as [Hj Hr].
    rewrite P1 by lia. rewrite decide_True by lia. by apply P2.
  - intros q Hq Hl Hz. destruct q as [|i q]; [by left|right]. destruct Hq as [Hi Hq].
    destruct (Z.eq_dec i 0) as [->|Hi0]; [|destruct Hz; cbn [Gfs2FileTree.addr st' f_ip f_disk ip_set_height ip_add_block ip_set_data i_data];
      by rewrite P0, decide_False, follow_zero].
    destruct q as [|j r].
    + left. assert (addr st' [0] = v) as -> by (cbn [Gfs2FileTree.addr follow]; by rewrite P0).
      split_and!; [done|done|]. cbn. rewrite Hfs. tauto.
    + right. apply Forall_cons in Hq as [Hj Hr]. rewrite P1 in * by done. destruct (decide _); [|done].
      exists (j :: r). assert (vp (j :: r)) by (split; [lia|done]). cbn [length] in Hl.
      split_and!; try done; [cbn; lia|]. apply P2; [done|cbn; lia].
  - intros c Hc. cbn. unfold d. apply disk_insert_ne. by intros ->.
Qed.

Lemma path_vp_inv h l : (0 < h)%nat -> 0 <= l < c_inptrs C ^ Z.of_nat h -> vp (path h l) -> l < cap h.
Proof using G.
  destruct h as [|h']; [lia|]. intros _ Hl. rewrite (path_cons ff C G) by done. intros [[_ Hd] _].
  destruct (ptrs_range ff C G) as (_ & Hi & _). assert (0 < c_inptrs C ^ Z.of_nat h') by (apply Z.pow_pos_nonneg; lia).
  unfold Gfs2FilePath.cap. replace (S h' - 1)%nat with h' by lia.
  destruct (Z_lt_le_dec l (c_diptrs C * c_inptrs C ^ Z.of_nat h')) as [|Hge]; [done|].
  assert (c_diptrs C <= l / c_inptrs C ^ Z.of_nat h') by (apply Z.div_le_lower_bound; lia). lia.
Qed.

Section built.
Context (h : nat) (st st' : file A) (S : sound st) (T : tree st h) (Hh : (0 < h)%nat) (B : builds h st st').

Lemma used_fresh q v : vp q -> (length q <= h)%nat -> addr st q <> 0 -> al_free (f_alloc st) v -> addr st q <> v.
Proof using T. intros Hq Hl Hz Hf <-. by apply (t_used _ _ _ _ T q). Qed.

Lemma builds_tree : tree st' (Datatypes.S h).
Proof using All.
  assert (Hi : addr st' [] = addr st []) by apply B. pose proof (s_addr _ _ S) as [_ Ha].
  assert (C3 : forall q, vp q -> (length q <= Datatypes.S h)%nat -> addr st' q <> 0 ->
    (q = [0] /\ al_free (f_alloc st) (addr st' q) /\ ~ al_free (f_alloc st') (addr st' q)) \/
    exists q', vp q' /\ (length q' <= h)%nat /\ addr st' q = addr st q' /\ q = match q' with [] => [] | _ => 0 :: q' end).
  { intros q Hq Hl Hz. destruct (b_cases _ _ _ B q Hq Hl Hz) as [->|[?|(q' & -> & Hn & Hv & Hl' & E)]];
      [right|by left|right]; [exists []|exists q']; split_and!; try done; [cbn; lia|by destruct q']. }
  split.
  - intros q r Hq Hr Lq Lr Hz E. assert (Hz' : addr st' r <> 0) by congruence.
    destruct (C3 q Hq Lq Hz) as [(-> & F & _)|(q' & Vq & Lq' & Eq & ->)], (C3 r Hr Lr Hz') as [(-> & F' & _)|(r' & Vr & Lr' & Er & ->)].
    + done.
    + destruct (used_fresh r' _ Vr Lr' ltac:(congruence) F). congruence.
    + destruct (used_fresh q' _ Vq Lq' ltac:(congruence) F'). congruence.
    + assert (q' = r') as ->; [|done]. apply (t_inj _ _ _ _ T); try done; congruence.
  - intros q Hq Lq Hz. destruct (C3 q Hq Lq Hz) as [(_ & _ & F)|(q' & Vq & Lq' & Eq & _)]; [done|].
    intros F%(b_free _ _ _ B). rewrite Eq in *. by apply (t_used _ _ _ _ T q').
  - intros q Hq Lq. destruct (Z.eq_dec (addr st' q) 0) as [->|Hz]; [done|].
    destruct (C3 q Hq Lq Hz) as [(_ & F & _)|(q' & Vq & Lq' & -> & _)]; [|by apply T].
    eapply al_range; [apply S|done].
Qed.

Lemma builds_cell k : di_height (f_ip st) = h -> 0 <= k -> cell st' k = cell st k.
Proof using All.
  intros Eh Hk. unfold Gfs2FileMap.cell. rewrite (b_height _ _ _ B), Eh. destruct h as [|h']; [lia|].
  destruct bs_range as [Hb _]. set (l := k / bs). assert (0 <= l) by (apply Z.div_pos; lia).
  pose proof (cap_mono ff C G h') as Hc. pose proof (cap_pow ff C G (Datatypes.S h')) as Hcp.
  pose proof (path_vp ff C G) as Hvp. destruct (l <? cap (Datatypes.S h')) eqn:E1; zbool.
  - rewrite (proj2 (Z.ltb_lt _ _)) by lia. rewrite (path_grow ff C G) by lia.
    rewrite (b_keep _ _ _ B); [|by rewrite path_snoc; destruct (path h' _)|by apply Hvp|by rewrite path_length].
    destruct (_ =? 0) eqn:Ez; [done|]. zbool. rewrite (b_disk _ _ _ B); [done|].
    apply (t_used _ _ _ _ T); [by apply Hvp|by rewrite path_length|done].
  - destruct (l <? cap (Datatypes.S (Datatypes.S h'))) eqn:E2; [|done]. zbool. destruct (_ =? 0) eqn:Ez; [done|]. zbool.
    destruct (b_cases _ _ _ B (path (Datatypes.S (Datatypes.S h')) l)) as [E|[[E _]|(q & E & _ & Vq & _)]];
      [by apply Hvp|by rewrite path_length|done|..].
    1,2: apply (f_equal length) in E; rewrite path_length in E; done.
    rewrite (path_cons ff C G) in E by lia. injection E as E3 E4.
    assert (Hp : 0 < c_inptrs C ^ Z.of_nat (Datatypes.S h')) by (destruct (ptrs_range ff C G); apply Z.pow_pos_nonneg; lia).
    apply Z.div_small_iff in E3; [|lia]. rewrite Z.mod_small in E4 by lia. subst q.
    apply path_vp_inv in Vq; lia.
Qed.

Lemma builds_extends : di_height (f_ip st) = h -> extends st st'.
Proof using B Hh.
  intros Eh. split; [apply B|apply B| |].
  - intros a (q & Hn & Hq & Hl & <- & Hz). rewrite (b_height _ _ _ B) in Hl.
    destruct (b_cases _ _ _ B q Hq Hl Hz) as [?|[(_ & ? & _)|(q' & -> & Hn' & Hv & Hl' & E)]]; [done|by right|left].
    exists q'. split_and!; try done. lia.
  - intros a Hf _. by apply B.
Qed.
End built.

(** ** Building *)

(** A file with blocks, before and after; [n] blocks may be used. *)
Record raised st st' : Prop := {
  r_extends : extends st st';
  r_size : di_size (f_ip st') = di_size (f_ip st);
  r_cell : forall k, 0 <= k -> cell st' k = cell st k
}.

Lemma raised_refl st : raised st st.
Proof. split; [apply extends_refl|done|done]. Qed.

Lemma raised_trans st1 st2 st3 : raised st1 st2 -> raised st2 st3 -> raised st1 st3.
Proof.
  intros [E1 S1 C1] [E2 S2 C2]. split; [by eapply extends_trans|congruence|].
  intros k Hk. by rewrite C2, C1.
Qed.

Lemma cap_le h : (0 < h)%nat -> 0 < cap h <= cap (S h).
Proof using G. destruct h; [lia|]. intros _. apply (cap_mono ff C G). Qed.

Lemma build_one_ok h st n : mapped st h -> (S h <= length hs)%nat -> room (f_alloc st) (S n) ->
  exists st', build_one ff C st = Ok st' /\ mapped st' (S h) /\ raised st st' /\ room (f_alloc st') n.
Proof using G.
  intros [S T [Eh Hh] Hs] Hl R.
  assert (K : forall st', builds h st st' -> mapped st' (Datatypes.S h) /\ raised st st').
  { intros st' B. split.
    - split; [apply B|exact (builds_tree h st st' S T ltac:(lia) B)|by split; [apply B|lia]|].
      rewrite (b_size _ _ _ B). pose proof (cap_le h). destruct bs_range. nia.
    - split; [exact (builds_extends h st st' ltac:(lia) B Eh)|apply B|].
      intros k Hk. exact (builds_cell h st st' S T ltac:(lia) B k Eh Hk). }
  unfold build_one. destruct (any_pointer ff C (i_data (f_ip st))) eqn:Ep.
  - destruct (alloc_either C st false n S R) as (v & a & ip & E & F1 & F2 & F3 & F4 & F5 & F6 & F7 & F8).
    cbn in E. rewrite E. cbn [mbind res_bind mret res_ret brelse with_ip f_alloc f_disk f_ip].
    eexists. split; [reflexivity|]. cbn [ip_add_block ip_set_data di_height f_alloc]. rewrite F8, Eh.
    destruct (K _ (build_some h st a v ip S T ltac:(lia) F1 F2 F4 F5 F6 F7)). by split_and!.
  - cbn [mbind res_bind mret res_ret]. eexists. split; [reflexivity|]. cbn [ip_set_data di_height with_ip f_alloc]. rewrite Eh.
    pose proof (build_none h st S Eh Ep) as B. destruct (K _ B). split_and!; try done. by eapply room_le; [|exact R]; lia.
Qed.

Lemma build_height_ok h m st n : mapped st m -> (h <= length hs)%nat -> room (f_alloc st) (h - m + n) ->
  exists st', build_height ff C st h = Ok st' /\ mapped st' (Nat.max m h) /\ raised st st' /\ room (f_alloc st') n.
Proof using G.
  intros M Hl R. unfold build_height. rewrite (proj1 (m_height _ _ _ _ _ M)). remember (h - m)%nat as k eqn:Ek.
  revert m st Ek M R. induction k as [|k IH]; intros m st Ek M R; cbn [build_loop_from].
  - exists st. replace (Nat.max m h) with m by lia. split_and!; try done. apply raised_refl.
  - destruct (build_one_ok m st (k + n) M) as (st1 & -> & M1 & R1 & Rm1); [lia|done|]. cbn [mbind res_bind].
    destruct (IH (S m) st1) as (st2 & -> & M2 & R2 & Rm2); [lia|done|done|].
    exists st2. replace (Nat.max m h) with (Nat.max (S m) h) by lia. split_and!; try done. by eapply raised_trans.
Qed.

(** ** Heights *)

Lemma first_height_spec size arr : let h := first_height size arr in
  (h <= length arr)%nat /\ (forall a, arr !! h = Some a -> size <= a) /\
  (forall m a, arr !! m = Some a -> size <= a -> (h <= m)%nat).
Proof.
  cbv zeta. induction arr as [|x arr (IH1 & IH2 & IH3)]; cbn [first_height length]; [by split_and!|].
  destruct (x >=? size) eqn:E; zbool.
  - split_and!; [lia|intros a [= <-]; lia|lia].
  - split_and!; [lia|exact IH2|]. intros [|m] a Hm Ha; [injection Hm as <-; lia|]. specialize (IH3 m a Hm Ha). lia.
Qed.

Lemma hs_ok : exists n, length hs = S n /\ (0 < n)%nat /\ (forall k, (k < n)%nat -> hs !! S k = Some (cap (S k) * bs)) /\
  hs !! 0%nat = Some (c_bsize C - Z.of_nat (ff_dinode ff)) /\ 2 ^ 64 <= cap (S n) * bs.
Proof using G.
  pose proof (g_heights _ _ G) as H1. pose proof (g_jheights _ _ G) as H2. unfold Gfs2FileMap.hs, Gfs2FileMap.bs, Gfs2FilePath.cap.
  assert (K : forall first (b : Z) (l : list Z), heights_ok first b (c_diptrs C) (c_inptrs C) l -> exists n, length l = S n /\ (0 < n)%nat /\
    (forall k, (k < n)%nat -> l !! S k = Some (c_diptrs C * c_inptrs C ^ Z.of_nat (S k - 1) * b)) /\
    l !! 0%nat = Some first /\ 2 ^ 64 <= c_diptrs C * c_inptrs C ^ Z.of_nat (S n - 1) * b).
  { intros first b l (n & -> & Hn & Hp). exists n. cbn [length]. rewrite length_map, length_seq. split_and!; try done.
    - intros k Hk. etrans; [exact (list_lookup_fmap _ (seq 0 n) k)|]. rewrite lookup_seq_lt by done.
      cbn [fmap option_fmap option_map]. f_equal.
      replace (S k - 1)%nat with k by lia. cbn [Nat.add]. lia.
    - replace (S n - 1)%nat with n by lia. lia. }
  destruct isdir; by eapply K.
Qed.

Lemma cap_mono_le m n : (0 < m <= n)%nat -> cap m <= cap n.
Proof using G.
  intros [Hm Hn]. induction Hn as [|n Hn IH]; [done|]. pose proof (cap_le n ltac:(lia)). lia.
Qed.

Lemma calc_height_ok st size : 0 <= size < 2 ^ 64 -> 0 <= di_size (f_ip st) < 2 ^ 64 ->
  let h := calc_tree_height C isdir (f_ip st) size in
  (h <= length hs)%nat /\ (forall m, (0 < m)%nat -> (h <= m)%nat -> size <= cap m * bs) /\
  (forall m, (0 < m <= length hs)%nat -> size <= cap m * bs -> di_size (f_ip st) <= cap m * bs -> (h <= m)%nat).
Proof using G.
  intros Hs Hd. cbv zeta. unfold calc_tree_height. fold hs. set (sz := if _ >? _ then _ else _).
  assert (Hsz : size <= sz < 2 ^ 64 /\ sz = Z.max (di_size (f_ip st)) size) by (unfold sz; zcase; lia).
  destruct (first_height_spec sz hs) as (F1 & F2 & F3). destruct hs_ok as (n & El & Hn & Hk & H0 & Hb).
  destruct bs_range as [Hb0 Hbs]. set (h := first_height sz hs) in *. split; [done|]. split.
  - intros m Hm Hh. assert (Hh' : size <= cap (Nat.max h 1) * bs).
    { destruct h as [|k].
      - apply F2 in H0. pose proof (sizes_nat ff C G). pose proof (cap_pow ff C G 0). pose proof (g_jbsize _ _ G).
        assert (c_bsize C - Z.of_nat (ff_dinode ff) <= bs) by (unfold Gfs2FileMap.bs; destruct isdir; lia).
        change (Nat.max 0 1) with 1%nat. nia.
      - replace (Nat.max (S k) 1) with (S k) by lia. destruct (decide (k < n)%nat) as [Hlt|Hge].
        + specialize (F2 _ (Hk k Hlt)). lia.
        + replace k with n by lia. lia. }
    pose proof (cap_mono_le (Nat.max h 1) m ltac:(lia)). nia.
  - intros m Hm Hsm Hdm. destruct m as [|k]; [lia|]. destruct (decide (k < n)%nat) as [Hlt|Hge]; [|lia].
    eapply F3; [by apply Hk|lia].
Qed.

(** ** Blocks of the file *)

(** From a block of the file on, [e] blocks follow each other on the disk. *)
Definition frun st h (l db e : Z) : Prop :=
  1 <= e < 2 ^ 32 /\ forall j, 0 <= j < e -> l + j < cap h /\ addr st (path h (l + j)) = db + j.

Lemma cap_S h : (0 < h)%nat -> cap (S h) = cap h * c_inptrs C.
Proof.
  intros Hh. unfold Gfs2FilePath.cap. destruct h as [|k]; [lia|]. replace (S (S k) - 1)%nat with (S k) by lia.
  replace (S k - 1)%nat with k by lia. rewrite Nat2Z.inj_succ, Z.pow_succ_r by lia. ring.
Qed.

Lemma run_frun st h l db e : 0 <= l < cap (S h) ->
  run ff C st (path h (l / c_inptrs C)) (l mod c_inptrs C) db e -> frun st (S h) l db e.
Proof using G.
  intros Hl [He R]. destruct (ptrs_range ff C G) as (Hd & Hi & _). pose proof (g_small _ _ G). pose proof (g_in _ _ G).
  split.
  { destruct (R (e - 1) ltac:(lia)) as [Hn _]. pose proof (Z.mod_pos_bound l (c_inptrs C) ltac:(lia)).
    destruct (path h _); cbn in Hn; lia. }
  intros j Hj. destruct (R j Hj) as [Hn E]. pose proof (Z.mod_pos_bound l (c_inptrs C) ltac:(lia)) as Hm.
  pose proof (Z.div_mod l (c_inptrs C) ltac:(lia)) as Hdm.
  assert (Hlt : l mod c_inptrs C + j < c_inptrs C) by (destruct (path h _); cbn in Hn; lia).
  rewrite (path_next ff C G) by lia. split; [|done]. destruct h as [|h].
  - cbn in Hn. unfold Gfs2FilePath.cap in *. cbn in Hl |- *. rewrite Z.mod_small in Hn by lia. lia.
  - rewrite cap_S in * by lia. assert (l / c_inptrs C < cap (S h)) by (apply Z.div_lt_upper_bound; lia). nia.
Qed.

(** A block that stays where it is, with what it holds. *)
Lemma cell_same st st' h k : di_height (f_ip st) = S h -> di_height (f_ip st') = S h ->
  (k / bs < cap (S h) -> let a := addr st (path (S h) (k / bs)) in
     addr st' (path (S h) (k / bs)) = a /\ (a <> 0 -> f_disk st' a = f_disk st a)) ->
  cell st' k = cell st k.
Proof.
  intros E E' H. unfold Gfs2FileMap.cell. rewrite E, E'. destruct (_ <? _) eqn:Hk; [|done]. zbool.
  destruct (H Hk) as [-> Hd]. destruct (_ =? 0) eqn:Ez; [done|]. zbool. by rewrite Hd.
Qed.

Lemma grows_leaf h st st' q : sound st -> tree st h -> grows ff C h st st' -> vp q -> length q = h ->
  addr st q <> 0 -> f_disk st' (addr st q) = f_disk st (addr st q).
Proof.
  intros S T Gr Hq Hl Hz. apply (gw_disk _ _ _ _ _ Gr); [apply (t_used _ _ _ _ T); [done|lia|done]|].
  intros r Hr Lr Hn Hz' E. apply (t_inj _ _ _ _ T) in E as ->; try done; lia.
Qed.

(** ** [block_map] *)

(** The block that a file has, or has been given, for a number. *)
Record mapping st st' (h : nat) (l db e : Z) (new : bool) : Prop := {
  mp_mapped : mapped st' h;
  mp_extends : extends st st';
  mp_size : di_size (f_ip st') = di_size (f_ip st);
  mp_run : frun st' h l db e;
  mp_db : db <> 0;
  mp_cell : forall k, 0 <= k -> (new = true -> k / bs <> l) -> cell st' k = cell st k;
  mp_new : new = true -> e = 1 /\ forall k, 0 <= k -> k / bs = l -> cell st k = 0
}.

Lemma walk_start st h : sound st -> tree st h -> walking ff C h st HInode [] false.
Proof. intros S T. split; try done. apply S. Qed.

Lemma path_parts h l : take h (path (S h) l) = path h (l / c_inptrs C) /\ path (S h) l !! h = Some (l mod c_inptrs C).
Proof.
  rewrite path_snoc. split; [by rewrite take_app_length' by (by rewrite path_length)|].
  rewrite lookup_app_r by (by rewrite path_length). by rewrite path_length, Nat.sub_diag.
Qed.

(** In a tree that is high enough. *)
Lemma map_in_tree st h l n : mapped st (S h) -> 0 <= l < cap (S h) -> room (f_alloc st) (S h + n) ->
  exists st1 x new1 db1 st' new db e,
    walk ff C isdir st HInode 0 (path h (l / c_inptrs C)) true false 0 = Ok (st1, Some x, new1, db1) /\
    map_last ff C isdir st1 x h (l mod c_inptrs C) true new1 db1 true false = Ok (st', new, db, e) /\
    mapping st st' (S h) l db e new /\ room (f_alloc st') n.
Proof using G isdir.
  intros [S T [Eh Hh] Hs] Hl R. pose proof (path_vp ff C G h l Hl) as Hv. rewrite path_snoc in Hv.
  set (p := path h (l / c_inptrs C)) in *. set (i := l mod c_inptrs C) in *.
  assert (Lp : length p = h) by apply path_length.
  destruct (walk_create ff C isdir G (Datatypes.S h) p st HInode [] false 0 (Datatypes.S n)) as
    (st1 & x & new1 & db1 & E1 & W & G1 & A1 & R1);
    [by apply walk_start|by eapply vp_prefix|rewrite Lp; cbn; lia|eapply room_le; [|exact R]; lia|].
  cbn [app] in W. destruct (map_create ff C isdir G st1 x (Datatypes.S h) p i new1 db1 n W Hv ltac:(lia) R1) as
    (st' & new & db & e & E2 & [L1 L2 L3 L4 L5 L6 L7 L8] & R2).
  rewrite Lp in E2. exists st1, x, new1, db1, st', new, db, e. split; [done|]. split; [done|]. split; [|done].
  pose proof (grows_trans _ _ _ _ _ _ G1 L3) as Gr. cbn [flush] in Gr. pose proof Gr as [_ Gs Gh _ _ _ _].
  assert (Lf : forall m, 0 <= m < cap (Datatypes.S h) -> vp (path (Datatypes.S h) m) /\ length (path (Datatypes.S h) m) = Datatypes.S h)
    by (intros m Hm; split; [by apply (path_vp ff C G)|apply path_length]).
  assert (El : path (Datatypes.S h) l = p ++ [i]) by apply path_snoc.
  assert (Hb : 0 < bs) by apply bs_range. pose proof (cap_pow ff C G h) as Hcp.
  split; try done; [split; try done; [split; [congruence|done]|by rewrite Gs]|by eapply grows_extends|by apply run_frun|by apply L4| |].
  - intros k Hk Hn. assert (0 <= k / bs) by (by apply Z.div_pos).
    apply (cell_same _ _ h); [done|congruence|]. intros Hkl. cbv zeta. destruct (Lf (k / bs)) as [V1 V2]; [done|].
    split; [|intros Hz; by eapply grows_leaf]. destruct (decide (path (Datatypes.S h) (k / bs) = p ++ [i])) as [Ep|Hne].
    + destruct new; [|rewrite Ep, (proj1 L4), <- L7 by done; rewrite A1 by (done || by rewrite <- Ep); done].
      rewrite <- El in Ep. apply (path_inj ff C G) in Ep; [by destruct Hn|lia|lia].
    + by rewrite L8, A1.
  - intros ->. destruct (L6 eq_refl) as [Hz ->]. split; [done|]. intros k Hk Ek. unfold Gfs2FileMap.cell.
    rewrite Eh, Ek, (proj2 (Z.ltb_lt _ _)), El by lia.
    rewrite A1 in Hz by (done || (rewrite length_app, Lp; cbn; lia)). cbn [flush] in Hz. by rewrite Hz.
Qed.

Lemma u64_size l : 0 <= l -> (l + 1) * bs < 2 ^ 64 -> u64 ((l + 1) * bs) = (l + 1) * bs.
Proof using G. intros Hl Hb. destruct bs_range. unfold wrap. apply Z.mod_small. nia. Qed.

Lemma hs_max : (length hs <= GFS2_MAX_META_HEIGHT ff)%nat.
Proof using G. unfold Gfs2FileMap.hs. destruct isdir; apply G. Qed.

Lemma below_cap l h size : 0 <= l -> (0 < h)%nat -> (l + 1) * bs <= size -> size <= cap h * bs -> l < cap h.
Proof using G. intros. destruct bs_range. nia. Qed.

Lemma block_map_create st m l n : mapped st m -> 0 <= l -> (l + 1) * bs < 2 ^ 64 -> di_size (f_ip st) < 2 ^ 64 ->
  room (f_alloc st) (2 * length hs + n) ->
  exists st' h new db e, block_map ff C isdir st l true true false = Ok (st', new, db, e) /\
    mapping st st' h l db e new /\ room (f_alloc st') n.
Proof using G isdir.
  intros M Hl Hb Hd R. pose proof M as [S T [Eh Hh] Hs]. unfold block_map. rewrite Eh.
  rewrite (proj2 (Nat.eqb_neq m 0)) by lia. fold bs. rewrite u64_size by done.
  destruct bs_range as [Hb0 _]. destruct (calc_height_ok st ((l + 1) * bs)) as (H1 & H2 & _); [nia|lia|].
  set (hh := calc_tree_height C isdir (f_ip st) ((l + 1) * bs)) in *. rewrite andb_false_r.
  assert (B : exists st1, (if (m <? hh)%nat then build_height ff C st hh else mret st) = Ok st1 /\ mapped st1 (Nat.max m hh) /\
    raised st st1 /\ room (f_alloc st1) (length hs + n)).
  { destruct (m <? hh)%nat eqn:Em; [apply Nat.ltb_lt in Em|apply Nat.ltb_ge in Em].
    - apply build_height_ok; [done|done|]. eapply room_le; [|exact R]. lia.
    - exists st. replace (Nat.max m hh) with m by lia. split_and!; try done; [apply raised_refl|].
      eapply room_le; [|exact R]. lia. }
  destruct B as (st1 & -> & M1 & [X1 X2 X3] & R1). cbn [mbind res_bind]. rewrite (proj1 (m_height _ _ _ _ _ M1)).
  specialize (H2 (Nat.max m hh) ltac:(lia) ltac:(lia)). pose proof hs_max.
  remember (Nat.max m hh) as h eqn:Ehh. destruct h as [|h]; [lia|]. rewrite (proj2 (Nat.ltb_ge _ _)) by lia.
  replace (Datatypes.S h - 1)%nat with h by lia. fold (path (Datatypes.S h) l). destruct (path_parts h l) as [-> ->].
  assert (Hc : l < cap (Datatypes.S h)) by (eapply below_cap; [done|lia|reflexivity|lia]).
  destruct (map_in_tree st1 h l n M1) as (st2 & x & new1 & db1 & st' & new & db & e & -> & E & [P1 P2 P3 P4 P5 P6 P7] & R2);
    [lia|eapply room_le; [|exact R1]; lia|]. cbn [mbind res_bind]. rewrite E.
  exists st', (Datatypes.S h), new, db, e. split; [done|]. split; [|done].
  split; try done; [by eapply extends_trans|congruence|intros k Hk Hn; by rewrite P6, X3|].
  intros Hn. destruct (P7 Hn) as [-> P8]. split; [done|]. intros k Hk Ek. rewrite <- X3 by done. by apply P8.
Qed.

(** Only looking changes nothing. *)
Lemma block_map_find st m l : mapped st m -> 0 <= l -> (l + 1) * bs < 2 ^ 64 -> l * bs < di_size (f_ip st) < 2 ^ 64 ->
  l < cap m /\ let db := addr st (path m l) in
  exists e, block_map ff C isdir st l false true false = Ok (st, false, db, e) /\ if db =? 0 then e = 0 else frun st m l db e.
Proof using G isdir.
  intros [S T [Eh Hh] Hs] Hl Hb Hd. destruct bs_range as [Hb0 _].
  assert (Hc : l < cap m) by nia. split; [done|]. unfold block_map. rewrite Eh.
  rewrite (proj2 (Nat.eqb_neq m 0)) by lia. fold bs. rewrite u64_size by done.
  destruct (calc_height_ok st ((l + 1) * bs)) as (_ & _ & H3); [nia|lia|].
  rewrite (proj2 (Nat.ltb_ge _ _)) by (apply H3; [lia|nia|lia]). cbn [andb mbind res_bind mret res_ret].
  destruct m as [|h]; [lia|]. pose proof hs_max. rewrite Eh, (proj2 (Nat.ltb_ge _ _)) by lia.
  replace (Datatypes.S h - 1)%nat with h by lia. fold (path (Datatypes.S h) l). destruct (path_parts h l) as [-> ->].
  pose proof (path_vp ff C G h l ltac:(lia)) as Hv. rewrite path_snoc in Hv |- *.
  pose proof (run_frun st h l) as Rf. set (p := path h (l / c_inptrs C)) in *. set (i := l mod c_inptrs C) in *.
  assert (Lp : length p = h) by apply path_length. pose proof (s_addr _ _ S) as [_ Ha].
  pose proof (walk_find ff C isdir G st (Datatypes.S h) p [] 0 S T (vp_prefix _ _ _ Hv) ltac:(cbn; lia) Ha) as W.
  cbn [app length handle_of] in W. destruct (addr st p =? 0) eqn:Ez; zbool.
  - rewrite W. cbn [mbind res_bind mret res_ret]. rewrite addr_prefix by done. by exists 0.
  - destruct W as [db' ->]. cbn [mbind res_bind]. destruct (map_find ff C isdir G st (Datatypes.S h) p i S T Hv ltac:(lia) Ez db') as (e & E & Re).
    rewrite Lp in E. rewrite E. exists e. split; [done|]. destruct (_ =? 0); [done|]. apply Rf; [lia|done].
Qed.
End height.
