(* ===== verification/Gfs2FileThm.v ===== *)
(** * A file of libgfs2 is an array of bytes

    The abstract file is the list of its bytes.  Writing to a well-formed file ([gfs2_writei])
    implements writing to the list, reading ([gfs2_readi]) returns a part of it, and blocks that
    are in use elsewhere are not touched. *)

From stdpp Require Import functions.
From S2P Require Import Prelude PlockWire DiskHash Gfs2Field Gfs2Log Gfs2Bits Gfs2Rgrp Gfs2RgrpThm Gfs2File Gfs2FilePath Gfs2FileTree Gfs2FileMap Gfs2FileHeight.
Open Scope Z_scope.

Lemma nth_drop (m k : nat) (l : list Z) : nth (m + k) l 0 = nth k (drop m l) 0.
Proof. revert l. induction m as [|m IH]; intros [|x l]; cbn; try done. by destruct k. Qed.

Lemma nth_zeros k n : nth k (replicate n 0) 0 = 0.
Proof. revert k. induction n as [|n IH]; intros [|k]; cbn; auto. Qed.

Lemma nth_app_zeros k (l : list Z) n : nth k (l ++ replicate n 0) 0 = nth k l 0.
Proof.
  destruct (decide (k < length l)%nat); [by rewrite app_nth1|].
  rewrite app_nth2 by lia. by rewrite nth_zeros, (nth_overflow l) by lia.
Qed.

(** A part of a block, byte by byte. *)
Lemma slice_fmap (b : list Z) (o n : nat) (f : Z -> Z) (k : Z) : (o + n <= length b)%nat ->
  (forall i, (i < n)%nat -> nth (o + i) b 0 = f (k + Z.of_nat i)) -> take n (drop o b) = f <$> seqZ k (Z.of_nat n).
Proof.
  intros Hl H. apply list_eq_same_length with (n := n).
  - rewrite length_fmap, length_seqZ. lia.
  - rewrite length_take, length_drop. lia.
  - intros i x y Hi. rewrite lookup_take_lt, lookup_drop by done. rewrite list_lookup_fmap, lookup_seqZ_lt by lia.
    intros Hx [= <-]. rewrite <- H by done. symmetry. by apply nth_lookup_Some.
Qed.

(** ** The abstract file *)

(** Writing behind the end fills the gap with zeros. *)
Definition spec_write (f buf : list Z) (off : nat) : list Z :=
  take off (f ++ replicate (off - length f) 0) ++ buf ++ drop (off + length buf) f.

Definition spec_read (f : list Z) (off n : nat) : list Z := take n (drop off f).

Lemma spec_write_length f buf off : length (spec_write f buf off) = Nat.max (length f) (off + length buf).
Proof. unfold spec_write. rewrite !length_app, length_take, length_app, length_replicate, length_drop. lia. Qed.

Lemma spec_write_nth f buf off k : nth k (spec_write f buf off) 0 =
  if decide (off <= k < off + length buf)%nat then nth (k - off) buf 0 else nth k f 0.
Proof.
  unfold spec_write. set (a := take off _). assert (La : length a = off).
  { unfold a. rewrite length_take, length_app, length_replicate. lia. }
  destruct (decide (k < off)%nat) as [Hk|Hk].
  - rewrite app_nth1 by lia. rewrite decide_False by lia. rewrite <- (nth_app_zeros k f (off - length f)).
    rewrite <- (take_drop off (f ++ replicate (off - length f) 0)). fold a. by rewrite app_nth1 by lia.
  - rewrite app_nth2 by lia. rewrite La. destruct (decide _) as [Hi|Hi].
    + by rewrite app_nth1 by lia.
    + rewrite app_nth2 by lia. rewrite <- nth_drop. f_equal. lia.
Qed.

(** Reading what was written. *)
Lemma spec_read_write f buf off : spec_read (spec_write f buf off) off (length buf) = buf.
Proof.
  unfold spec_read, spec_write. set (a := take off _). assert (La : length a = off).
  { unfold a. rewrite length_take, length_app, length_replicate. lia. }
  rewrite drop_app_length' by done. by rewrite take_app_length' by done.
Qed.

Section thm.
Context {A : Type} `{!Allocator A, !AllocatorSpec A} (ff : file_format) (C : consts) (isdir : bool) (G : geometry ff C).

Implicit Types (st : file A) (p q : list Z) (b : block).

Local Abbreviation addr := (addr ff).
Local Abbreviation tree := (tree ff C).
Local Abbreviation sound := (sound C).
Local Abbreviation vp := (vp C).
Local Abbreviation path := (path C).
Local Abbreviation cap := (cap C).
Local Abbreviation cell := (cell ff C isdir).
Local Abbreviation bs := (bs C isdir).
Local Abbreviation hdr := (hdr ff isdir).
Local Abbreviation hs := (hs C isdir).
Local Abbreviation mapped := (mapped ff C isdir).
Local Abbreviation extends := (extends ff C).
Local Abbreviation raised := (raised ff C isdir).
Local Abbreviation frun := (frun ff C).

(** A file in the inode, or one with blocks; behind its end there are zeros. *)
Record file_ok st : Prop := {
  fo_shape : match di_height (f_ip st) with
    | O => sound st /\ tree st 0 /\ di_size (f_ip st) <= c_bsize C - Z.of_nat (ff_dinode ff)
    | S _ as h => mapped st h
    end;
  fo_size : 0 <= di_size (f_ip st) /\ di_size (f_ip st) + c_bsize C < 2 ^ 64;
  fo_zero : forall k, di_size (f_ip st) <= k -> cell st k = 0
}.

(** The bytes of the file. *)
Definition contents st : list Z := cell st <$> seqZ 0 (di_size (f_ip st)).

Lemma contents_length st : file_ok st -> Z.of_nat (length (contents st)) = di_size (f_ip st).
Proof. intros F. unfold contents. rewrite length_fmap, length_seqZ. destruct (fo_size _ F). lia. Qed.

Lemma contents_nth st k : file_ok st -> 0 <= k -> nth (Z.to_nat k) (contents st) 0 = cell st k.
Proof.
  intros F Hk. destruct (Z_lt_le_dec k (di_size (f_ip st))) as [Hlt|Hge].
  - apply nth_lookup_Some with (d := 0). unfold contents. rewrite list_lookup_fmap, lookup_seqZ_lt by lia. cbn. do 2 f_equal. lia.
  - rewrite nth_overflow; [symmetry; by apply F|]. pose proof (contents_length st F). lia.
Qed.

Lemma contents_byte st k : file_ok st -> nth k (contents st) 0 = cell st (Z.of_nat k).
Proof. intros F. rewrite <- (contents_nth st (Z.of_nat k) F) by lia. by rewrite Nat2Z.id. Qed.

(** ** Out of the inode *)

Lemma short_path p : vp p -> (length p <= 1)%nat -> p = [] \/ exists j, p = [j] /\ 0 <= j < c_diptrs C.
Proof.
  destruct p as [|j [|? ?]]; intros Hvp Hl; [by left|right|cbn in Hl; lia]. exists j. split; [done|]. by destruct Hvp.
Qed.

(** The inode has one block, [v], or none when it is 0. *)
Section unstuffed.
Context (st st' : file A) (v : Z) (b : block) (S : sound st) (T : tree st 0)
  (Hs : 0 <= di_size (f_ip st) <= c_bsize C - Z.of_nat (ff_dinode ff)) (H0 : di_height (f_ip st) = 0%nat) (S' : sound st')
  (Ea : i_addr (f_ip st') = i_addr (f_ip st)) (Es : di_size (f_ip st') = di_size (f_ip st)) (Eh : di_height (f_ip st') = 1%nat)
  (Hf : forall c, al_free (f_alloc st') c <-> al_free (f_alloc st) c /\ c <> v)
  (Hv : v = 0 \/ al_free (f_alloc st) v)
  (Hp : forall j, 0 <= j < c_diptrs C -> ptr (ff_dinode ff) (i_data (f_ip st')) j = if decide (j = 0) then v else 0)
  (Hd : forall a, ~ al_free (f_alloc st) a -> f_disk st' a = f_disk st a)
  (Hb : v <> 0 -> f_disk st' v = b)
  (Hn : forall k, (k < Z.to_nat bs)%nat -> nth (ff_dinode ff + k) (i_data (f_ip st)) 0 = if v =? 0 then 0 else nth (hdr + k) b 0).

Lemma first_addr j : 0 <= j < c_diptrs C -> addr st' [j] = if decide (j = 0) then v else 0.
Proof using All. apply Hp. Qed.

Lemma first_fresh : v <> i_addr (f_ip st) /\ v < 2 ^ 63.
Proof using All.
  destruct Hv as [->|Hv']; [split; [apply not_eq_sym, S|done]|]. split; [|eapply al_range; [apply S|done]]. intros ->.
  by apply (t_used _ _ _ _ T []); [done|done|apply S|].
Qed.

Lemma unstuffed_tree : tree st' 1.
Proof using All.
  destruct first_fresh as [Fi Fs]. assert (A0 : addr st' [] = i_addr (f_ip st)) by done. pose proof (s_addr _ _ S) as [_ Ha].
  split.
  - intros p q Vp Vq Lp Lq Hz E. destruct (short_path p Vp Lp) as [->|(j & -> & Hj)], (short_path q Vq Lq) as [->|(j' & -> & Hj')];
      rewrite ?A0, ?first_addr in * by done; [done|..]; repeat case_decide; congruence.
  - intros p Vp Lp Hz. rewrite Hf. destruct (short_path p Vp Lp) as [->|(j & -> & Hj)].
    + rewrite A0. intros [F _]. by apply (t_used _ _ _ _ T []); [done|done|apply S|].
    + rewrite first_addr in * by done. case_decide; [tauto|done].
  - intros p Vp Lp. destruct (short_path p Vp Lp) as [->|(j & -> & Hj)].
    + rewrite A0. by apply (t_small _ _ _ _ T []).
    + rewrite first_addr by done. by case_decide.
Qed.

Lemma unstuffed_cell k : 0 <= k -> cell st' k = cell st k.
Proof using All.
  intros Hk. destruct (bs_range ff C isdir G) as [Hb0 Hbs]. destruct (ptrs_range ff C G) as (Hdi & Hin & _).
  unfold Gfs2FileMap.cell. rewrite H0, Eh. change (cap 1) with (c_diptrs C * 1).
  assert (0 <= k / bs) by (by apply Z.div_pos). pose proof (Z.div_mod k bs ltac:(lia)) as Hdm.
  pose proof (Z.mod_pos_bound k bs Hb0) as Hm. destruct (Z.eq_dec (k / bs) 0) as [Ek|Ek].
  - rewrite Ek, (proj2 (Z.ltb_lt _ _)) by lia. change (path 1 0) with [0 mod c_inptrs C]. rewrite Z.mod_0_l by lia.
    rewrite first_addr, decide_True by (done || lia).
    replace (Z.to_nat k) with (Z.to_nat (k mod bs)) by (f_equal; lia). rewrite Hn by lia.
    destruct (v =? 0) eqn:Ez; [done|]. zbool. by rewrite Hb.
  - pose proof (sizes_nat ff C G) as Hsz. assert (Hk2 : bs <= k) by nia.
    assert (Z.to_nat (c_bsize C) <= ff_dinode ff + Z.to_nat bs)%nat.
    { pose proof (g_jbsize _ _ G). unfold Gfs2FileMap.bs. destruct isdir; lia. }
    rewrite (nth_overflow (i_data (f_ip st))) by (rewrite (full_length _ _ (s_data _ _ S)); lia).
    destruct (_ <? _) eqn:E1; [|done]. zbool. change (path 1 (k / bs)) with [(k / bs) mod c_inptrs C].
    rewrite Z.mod_small by lia. by rewrite first_addr, decide_False by lia.
Qed.

Lemma unstuffed : mapped st' 1 /\ raised st st'.
Proof using All.
  destruct (bs_range ff C isdir G) as [Hb0 _].
  assert (H8 : 8 <= bs).
  { pose proof (g_in _ _ G). pose proof (g_jbsize _ _ G). pose proof (g_ptrs _ _ G). unfold Gfs2FileMap.bs. destruct isdir; lia. }
  split; [split; [done|apply unstuffed_tree|split; [done|]|]|split; [split|done|apply unstuffed_cell]].
  - destruct (hs_ok ff C isdir G) as (n & -> & _). lia.
  - rewrite Es. change (cap 1) with (c_diptrs C * 1). pose proof (g_di _ _ G). pose proof (g_ptrs _ _ G). nia.
  - done.
  - intros c Hc. by apply Hf.
  - intros a (p & Hnp & Vp & Lp & <- & Hz). right. rewrite Eh in Lp. destruct (short_path p Vp Lp) as [->|(j & -> & Hj)]; [done|].
    rewrite first_addr in * by done. case_decide; [|done]. by destruct Hv.
  - intros a Hna _. by apply Hd.
Qed.
End unstuffed.

Lemma cleared_ptr st v : sound st -> in_u 64 v ->
  let data := be_set 8 (ff_dinode ff) v (buffer_clear_tail C (i_data (f_ip st)) (ff_dinode ff)) in
  full C data /\ forall j, 0 <= j < c_diptrs C -> ptr (ff_dinode ff) data j = if decide (j = 0) then v else 0.
Proof using G.
  intros S Hv data. pose proof (clear_full ff C G _ (s_data _ _ S)) as Fc. pose proof (sizes_nat ff C G).
  pose proof (g_ptrs _ _ G). split; [apply (be_set_full ff C G); [done|lia]|]. intros j Hj. unfold data.
  replace (be_set 8 (ff_dinode ff)) with (be_set 8 (ff_dinode ff + 8 * Z.to_nat 0)) by (f_equal; lia).
  rewrite ptr_set; [|rewrite (full_length _ _ Fc); lia|lia|lia|done].
  destruct (decide _); [done|]. apply (clear_ptr ff C G); [apply S|done].
Qed.

(** The block that takes the bytes of the inode. *)
Definition unstuff_block (d : block) : block :=
  buffer_copy_tail (if isdir then gfs2_meta_header_out (ff_head ff) (GFS2_MAGIC (ff_head ff)) (GFS2_METATYPE_JD ff) (GFS2_FORMAT_JD ff) (zero_block C)
                    else zero_block C) hdr d (ff_dinode ff).

Lemma unstuff_block_ok d : full C d -> full C (unstuff_block d) /\
  forall k, nth (hdr + k) (unstuff_block d) 0 = nth (ff_dinode ff + k) d 0.
Proof using G.
  intros F. unfold unstuff_block. set (b := if isdir then _ else _).
  assert (Fb : full C b) by (unfold b; destruct isdir; [apply (header_full ff C G)|]; apply (zero_full ff C G)).
  assert (Hh : (hdr <= ff_dinode ff)%nat) by (pose proof (g_order _ _ G); unfold Gfs2FileMap.hdr; destruct isdir; lia).
  split; [by apply (copy_full ff C G)|]. intros k. rewrite !nth_drop, (copy_drop ff C G) by done. apply nth_app_zeros.
Qed.

Lemma unstuff_dinode_ok st n : file_ok st -> di_height (f_ip st) = 0%nat -> room (f_alloc st) (S n) ->
  exists st', unstuff_dinode ff C isdir st = Ok st' /\ mapped st' 1 /\ raised st st' /\ room (f_alloc st') n.
Proof using G isdir.
  intros F H0 R. pose proof (fo_shape _ F) as Hsh. rewrite H0 in Hsh. destruct Hsh as (S & T & Hs).
  destruct (fo_size _ F) as [Hs0 _]. pose proof S as [S1 S2 S3 S4]. unfold unstuff_dinode.
  destruct (di_size (f_ip st) =? 0) eqn:Ez; zbool.
  - cbn [mbind res_bind mret res_ret with_ip f_ip ip_set_height]. rewrite Ez. cbn [Z.eqb]. eexists. split; [reflexivity|].
    cut (mapped (with_ip st (ip_set_height (ip_set_data (f_ip st) (buffer_clear_tail C (i_data (f_ip st)) (ff_dinode ff))) 1)) 1 /\
         raised st (with_ip st (ip_set_height (ip_set_data (f_ip st) (buffer_clear_tail C (i_data (f_ip st)) (ff_dinode ff))) 1))).
    { intros [? ?]. split_and!; try done. eapply room_le; [|exact R]. lia. }
    apply (unstuffed st _ 0 []); try done.
    + split; try done. by apply (clear_full ff C G).
    + intros c. split; [|tauto]. intros Hc. split; [done|]. intros ->. pose proof (al_range _ _ S1 Hc). lia.
    + by left.
    + intros j Hj. cbn [with_ip f_ip ip_set_height ip_set_data i_data]. rewrite (clear_ptr ff C G) by done. by destruct (decide _).
    + intros k _. rewrite Z.eqb_refl. pose proof (fo_zero _ F (Z.of_nat k) ltac:(lia)) as Hc.
      unfold Gfs2FileMap.cell in Hc. rewrite H0, Nat2Z.id in Hc. done.
  - destruct (alloc_either C st (negb isdir) n S R) as (v & a & ip & E & F1 & F2 & F3 & F4 & F5 & F6 & F7 & F8).
    assert (Hv : 0 < v < 2 ^ 63) by (exact (al_range _ _ S1 F1)).
    destruct (cleared_ptr st v S) as [Fd Pd]; [unfold in_u; lia|]. destruct (unstuff_block_ok (i_data (f_ip st)) S3) as [Fu Nu].
    set (st' := mkFile a (<[v := unstuff_block (i_data (f_ip st))]> (f_disk st))
      (ip_set_height (ip_add_block (ip_set_data ip (be_set 8 (ff_dinode ff) v (buffer_clear_tail C (i_data (f_ip st)) (ff_dinode ff))))) 1)).
    exists st'. split.
    { unfold st', unstuff_block, Gfs2FileMap.hdr. destruct isdir; cbn in E; rewrite E;
        cbn [mbind res_bind mret res_ret brelse with_ip f_ip f_alloc f_disk];
        rewrite F7, F6, (proj2 (Z.eqb_neq _ _)) by done; done. }
    cut (mapped st' 1 /\ raised st st'); [intros [? ?]; by split_and!|].
    apply (unstuffed st st' v (unstuff_block (i_data (f_ip st)))); try done.
    + split; try done; cbn; [|by rewrite F5]. intros y. destruct (Z.eq_dec v y) as [<-|Hne]; [by rewrite disk_insert_eq|by rewrite disk_insert_ne].
    + by right.
    + intros y Hy. cbn. apply disk_insert_ne. by intros ->.
    + intros _. cbn. apply disk_insert_eq.
    + intros k _. by rewrite (proj2 (Z.eqb_neq v 0)), Nu by lia.
Qed.

(** ** Writing *)

Definition put st (a : Z) (d : block) : file A := mkFile (f_alloc st) (<[a := d]> (f_disk st)) (f_ip st).

Lemma leaf st h l : mapped st h -> 0 <= l < cap h -> vp (path h l) /\ length (path h l) = h /\ path h l <> [].
Proof using G.
  intros [_ _ [_ Hh] _] Hl. destruct h as [|h]; [lia|]. split_and!; [by apply (path_vp ff C G)|apply path_length|].
  rewrite path_snoc. by destruct (path h _).
Qed.

Lemma cell_mapped st h k : di_height (f_ip st) = h -> (0 < h)%nat -> cell st k =
  if k / bs <? cap h then (if addr st (path h (k / bs)) =? 0 then 0
    else nth (hdr + Z.to_nat (k mod bs)) (f_disk st (addr st (path h (k / bs)))) 0) else 0.
Proof. intros E Hh. unfold Gfs2FileMap.cell. rewrite E. by destruct h; [lia|]. Qed.

Lemma cap_inptrs h : (0 < h)%nat -> cap h <= c_inptrs C ^ Z.of_nat h.
Proof using G. destruct h; [lia|]. intros _. apply (cap_pow ff C G). Qed.

Section put.
Context (st : file A) (h : nat) (l : Z) (d : block) (M : mapped st h) (Hl : 0 <= l < cap h) (Hz : addr st (path h l) <> 0)
  (F : full C d).
Let db := addr st (path h l).

Lemma put_addr q : vp q -> (length q <= h)%nat -> addr (put st db d) q = addr st q.
Proof using All.
  destruct (leaf st h l M Hl) as (V & L & N). destruct M as [S T _ _].
  apply addr_frame; [done|apply S|]. intros r Hr Lr Hzr. destruct r as [|j r]; [done|]. cbn [node put f_disk].
  apply disk_insert_ne. intros E. apply (t_inj _ _ _ _ T) in E; [rewrite <- E in Lr; lia|done|done|lia|lia|done].
Qed.

Lemma put_mapped : mapped (put st db d) h.
Proof using All.
  pose proof put_addr as PA. destruct M as [S T Hh Hs]. split; [|split|done|done].
  - destruct S as [S1 S2 S3 S4]. split; try done. intros a. cbn.
    destruct (Z.eq_dec db a) as [<-|Hne]; [by rewrite disk_insert_eq|by rewrite disk_insert_ne].
  - intros p q Hp Hq Lp Lq. rewrite !PA by done. by apply T.
  - intros p Hp Lp. rewrite PA by done. by apply T.
  - intros p Hp Lp. rewrite PA by done. by apply T.
Qed.

Lemma put_extends : extends st (put st db d).
Proof using All.
  pose proof put_addr as PA. destruct (leaf st h l M Hl) as (V & L & N). destruct M as [S T [Eh Hh] Hs].
  split; [done|done| |].
  - intros a (p & Hn & Hp & Lp & Ep & Hza). left. cbn in Lp. rewrite PA in Ep by (done || lia). by exists p.
  - intros a Hf Ho. cbn. apply disk_insert_ne. intros <-. apply Ho. exists (path h l). split_and!; try done. lia.
Qed.

Lemma put_cell k : 0 <= k -> cell (put st db d) k = if decide (k / bs = l) then nth (hdr + Z.to_nat (k mod bs)) d 0 else cell st k.
Proof using All.
  intros Hk. pose proof put_addr as PA. destruct (leaf st h l M Hl) as (V & L & N). pose proof M as [S T [Eh Hh] Hs].
  assert (0 <= k / bs) by (destruct (bs_range ff C isdir G); by apply Z.div_pos).
  rewrite (cell_mapped _ h), (cell_mapped st h) by (done || lia). pose proof (cap_inptrs h ltac:(lia)) as Hcp.
  destruct (decide (k / bs = l)) as [->|Hne].
  - rewrite (proj2 (Z.ltb_lt _ _)), PA by (done || lia). fold db. rewrite (proj2 (Z.eqb_neq db 0)) by done.
    cbn [put f_disk]. by rewrite disk_insert_eq.
  - destruct (_ <? _) eqn:Hc; [|done]. zbool. destruct (leaf st h (k / bs) M) as (V' & L' & _); [done|].
    rewrite PA by (done || lia). destruct (_ =? 0) eqn:Ez; [done|]. zbool. cbn [put f_disk]. rewrite disk_insert_ne; [done|].
    intros E. apply (t_inj _ _ _ _ T) in E; [|done|done|lia|lia|done]. apply (path_inj ff C G) in E; lia.
Qed.
End put.

Lemma locate_ok offset : 0 <= offset -> locate C isdir offset = (offset / bs, offset mod bs).
Proof using G.
  intros Ho. unfold locate, Gfs2FileMap.bs. destruct isdir; [done|]. destruct (g_shift _ _ G) as [Hs Eb]. rewrite Eb.
  f_equal; [by apply Z.shiftr_div_pow2|].
  replace (2 ^ c_shift C - 1) with (Z.ones (c_shift C)) by (rewrite Z.ones_equiv; lia). by apply Z.land_ones.
Qed.

Lemma next_start_hdr : next_start ff isdir = Z.of_nat hdr.
Proof. unfold next_start, Gfs2FileMap.hdr. by destruct isdir. Qed.

Lemma u32_rest o : 0 <= o <= c_bsize C -> u32 (c_bsize C - o) = c_bsize C - o.
Proof using G. intros Ho. pose proof (g_small _ _ G). unfold wrap. apply Z.mod_small. lia. Qed.

Lemma splice_nth (b c : list Z) (o : nat) k : (o + length c <= length b)%nat ->
  nth k (take o b ++ c ++ drop (o + length c) b) 0 = if decide (o <= k < o + length c)%nat then nth (k - o) c 0 else nth k b 0.
Proof.
  intros Hl. assert (Lt : length (take o b) = o) by (rewrite length_take; lia).
  destruct (decide (k < o)%nat).
  - rewrite app_nth1, decide_False by lia. rewrite <- (take_drop o b) at 2. by rewrite app_nth1 by lia.
  - rewrite app_nth2, Lt by lia. destruct (decide _); [by rewrite app_nth1 by lia|].
    rewrite app_nth2 by lia. rewrite <- nth_drop. f_equal. lia.
Qed.

Lemma splice_full (b c : block) (o : nat) : full C b -> Forall is_byte c -> (o + length c <= length b)%nat ->
  full C (take o b ++ c ++ drop (o + length c) b).
Proof using G.
  intros F Hc Hl. pose proof (full_length _ _ F). apply (full_intro ff C G).
  - rewrite !length_app, length_take, length_drop. lia.
  - rewrite !Forall_app. split_and!; [apply Forall_take, F|done|apply Forall_drop, F].
Qed.

(** What is in the buffer into which the bytes are copied. *)
Lemma write_buffer_ok st h l db new : mapped st h -> 0 <= l < cap h -> addr st (path h l) = db -> db <> 0 ->
  exists base m, write_buffer ff C isdir st new db = HBlock db base m /\ full C base /\
    forall k, nth (hdr + k) base 0 = if new then 0 else nth (hdr + k) (f_disk st db) 0.
Proof using G.
  intros M Hl Ed Hz. destruct (leaf st h l M Hl) as (V & L & N). pose proof M as [S T _ _]. unfold write_buffer. destruct new.
  - unfold Gfs2FileMap.hdr. destruct isdir; cbn [meta_head bget]; eexists _, _; (split; [reflexivity|]);
      (split; [try apply (header_full ff C G); apply (zero_full ff C G)|]); intros k.
    + rewrite nth_drop, (header_drop ff C G), <- nth_drop by apply (zero_full ff C G). apply nth_zeros.
    + apply nth_zeros.
  - rewrite <- Ed in Hz |- *. rewrite (read_handle ff C st h) by (done || lia). destruct (path h l) as [|i p]; [done|].
    eexists _, _. split; [reflexivity|]. split; [apply S|done].
Qed.

(** The bytes after [c] was written at [pos]. *)
Definition over (pos : Z) (c : list Z) (f : Z -> Z) (k : Z) : Z :=
  if decide (pos <= k < pos + Z.of_nat (length c)) then nth (Z.to_nat (k - pos)) c 0 else f k.

Lemma over_app pos c c' f k : over (pos + Z.of_nat (length c)) c' (over pos c f) k = over pos (c ++ c') f k.
Proof.
  unfold over. rewrite length_app. repeat case_decide; try lia; try done.
  - rewrite app_nth2 by lia. f_equal. lia.
  - by rewrite app_nth1 by lia.
Qed.

Lemma over_ext pos c f g k : (f k = g k) -> over pos c f k = over pos c g k.
Proof. intros E. unfold over. by case_decide. Qed.

Lemma over_nil pos f k : over pos [] f k = f k.
Proof. unfold over. case_decide; [cbn in *; lia|done]. Qed.

(** One block is written. *)
Lemma write_one_block st h l o c new db (f : Z -> Z) : mapped st h -> 0 <= l < cap h -> addr st (path h l) = db -> db <> 0 ->
  Z.of_nat hdr <= o -> o + Z.of_nat (length c) <= c_bsize C -> Forall is_byte c ->
  (forall k, 0 <= k -> (new = true -> k / bs <> l) -> cell st k = f k) ->
  (new = true -> forall k, 0 <= k -> k / bs = l -> f k = 0) ->
  exists data, let x := write_buffer ff C isdir st new db in
    copy_from_mem (hdata st x) o c = Ok data /\ hput st x data = (st, HBlock db data true) /\
    full C data /\ forall k, 0 <= k -> cell (put st db data) k = over (l * bs + (o - Z.of_nat hdr)) c f k.
Proof using G.
  intros M Hl Ed Hz Ho Hc Hcb Hf Hnew. destruct (write_buffer_ok st h l db new M Hl Ed Hz) as (base & m & -> & Fb & Nb).
  cbn [hdata hput]. unfold copy_from_mem. pose proof (full_length _ _ Fb) as Lb. destruct (bs_range ff C isdir G) as [Hb0 Hbs].
  rewrite (proj2 (Z.ltb_ge _ _)) by lia. eexists. split; [reflexivity|]. split; [done|].
  assert (Fd : full C (take (Z.to_nat o) base ++ c ++ drop (Z.to_nat o + length c) base)) by (apply splice_full; [done|done|lia]).
  split; [done|]. intros k Hk. rewrite <- Ed in Hz |- *. rewrite (put_cell st h l _ M Hl Hz Fd) by done.
  pose proof (Z.div_mod k bs ltac:(lia)) as Hdm. pose proof (Z.mod_pos_bound k bs Hb0) as Hm. unfold over.
  destruct (decide (k / bs = l)) as [Ek|Ek].
  - rewrite splice_nth by lia. rewrite Ek in Hdm. assert (k - l * bs = k mod bs) by lia.
    destruct (decide (Z.to_nat o <= _ < _)%nat), (decide (l * bs + (o - Z.of_nat hdr) <= k < _)); try lia.
    + f_equal. lia.
    + rewrite Nb. destruct new; [symmetry; by apply Hnew|]. rewrite <- Hf by done.
      destruct M as [_ _ [Eh Hh] _]. rewrite (cell_mapped st h), Ek, (proj2 (Z.ltb_lt _ _)) by (done || lia).
      by rewrite Ed, (proj2 (Z.eqb_neq db 0)) by congruence.
  - rewrite decide_False; [by apply Hf|]. intros Hr. apply Ek. symmetry. apply Z.div_unique with (r := k - l * bs); lia.
Qed.

(** The blocks that a range of bytes from a place in a block on needs. *)
Definition nblocks (o len : Z) : nat := Z.to_nat ((o + len + bs - 1) / bs).

Lemma nblocks_full o len : 0 <= o < bs -> bs - o <= len -> nblocks o len = S (nblocks 0 (len - (bs - o))).
Proof using G.
  intros Ho Hl. destruct (bs_range ff C isdir G) as [Hb _]. unfold nblocks.
  replace (o + len + bs - 1) with ((0 + (len - (bs - o)) + bs - 1) + 1 * bs) by lia. rewrite Z.div_add by lia.
  rewrite Z2Nat.inj_add by (try apply Z.div_pos; lia). lia.
Qed.

Lemma nblocks_pos o len : 0 <= o -> 0 < len -> (0 < nblocks o len)%nat.
Proof using G.
  intros Ho Hl. destruct (bs_range ff C isdir G) as [Hb _]. unfold nblocks.
  assert (1 <= (o + len + bs - 1) / bs) by (apply Z.div_le_lower_bound; lia). lia.
Qed.

Definition per_block : nat := 2 * length hs.

Lemma write_map_ok st h l db e new n : mapped st h -> 0 <= l -> (l + 1) * bs < 2 ^ 64 -> di_size (f_ip st) < 2 ^ 64 ->
  e = 0 \/ (frun st h l db e /\ new = false /\ db <> 0) -> room (f_alloc st) (per_block + n) ->
  exists st' h' new' db' e', write_map ff C isdir st l new db e = Ok (st', new', db', e') /\
    mapping ff C isdir st st' h' l db' e' new' /\ room (f_alloc st') n.
Proof using G.
  intros M Hl Hb Hd He R. unfold write_map. destruct (e =? 0) eqn:Ee; zbool.
  - destruct (block_map_create ff C isdir G st h l n M Hl Hb Hd R) as (st' & h' & new' & db' & e' & E & Mp & R').
    by exists st', h', new', db', e'.
  - destruct He as [|(Fr & -> & Hz)]; [done|]. exists st, h, false, db, e. split; [done|].
    split; [|eapply room_le; [|exact R]; lia]. split; try done. apply extends_refl.
Qed.

(** What writing bytes at [pos] makes of a file. *)
Record written st st' (pos : Z) (c : list Z) : Prop := {
  wr_extends : extends st st';
  wr_size : di_size (f_ip st') = di_size (f_ip st);
  wr_cell : forall k, 0 <= k -> cell st' k = over pos c (cell st) k
}.

Lemma written_app st1 st2 st3 pos c c' : written st1 st2 pos c -> written st2 st3 (pos + Z.of_nat (length c)) c' ->
  written st1 st3 pos (c ++ c').
Proof.
  intros [E1 S1 C1] [E2 S2 C2]. split; [by eapply extends_trans|congruence|]. intros k Hk.
  rewrite C2, <- over_app by done. by apply over_ext, C1.
Qed.

Lemma frun_next st h l db e d : mapped st h -> 0 <= l -> 1 < e -> frun st h l db e -> db <> 0 -> full C d ->
  frun (put st db d) h (l + 1) (db + 1) (e - 1).
Proof using G.
  intros M Hl He [H1 H2] Hz F. split; [lia|]. intros j Hj. destruct (H2 (j + 1) ltac:(lia)) as [Hc E].
  destruct (H2 0 ltac:(lia)) as [Hc0 E0]. rewrite !Z.add_0_r in *.
  replace (l + 1 + j) with (l + (j + 1)) by lia. split; [done|]. destruct (leaf st h (l + (j + 1)) M) as (V & L & _); [lia|].
  rewrite <- E0 in Hz |- *. rewrite (put_addr st h l d M) by (done || lia). rewrite E. lia.
Qed.

Lemma db_small st h l db : mapped st h -> 0 <= l < cap h -> addr st (path h l) = db -> 0 <= db < 2 ^ 63.
Proof using G.
  intros M Hl <-. destruct (leaf st h l M Hl) as (V & L & _). destruct M as [S T _ _].
  split; [apply (addr_range ff C st _ S)|]. apply (t_small _ _ _ _ T); [done|lia].
Qed.

Lemma write_block_ok st h l o c new db e n : mapped st h -> 0 <= l -> (l + 1) * bs < 2 ^ 64 -> di_size (f_ip st) < 2 ^ 64 ->
  e = 0 \/ (frun st h l db e /\ new = false /\ db <> 0) -> room (f_alloc st) (per_block + n) ->
  Z.of_nat hdr <= o -> o + Z.of_nat (length c) <= c_bsize C -> Forall is_byte c ->
  exists st1 h1 new1 db1 e1 data, write_map ff C isdir st l new db e = Ok (st1, new1, db1, e1) /\
    copy_from_mem (hdata st1 (write_buffer ff C isdir st1 new1 db1)) o c = Ok data /\
    hput st1 (write_buffer ff C isdir st1 new1 db1) data = (st1, HBlock db1 data true) /\
    let st2 := put st1 db1 data in
    mapped st2 h1 /\ l < cap h1 /\ written st st2 (l * bs + (o - Z.of_nat hdr)) c /\ room (f_alloc st2) n /\
    (u32 (e1 - 1) = 0 \/ (frun st2 h1 (l + 1) (u64 (db1 + 1)) (u32 (e1 - 1)) /\ new1 = false /\ u64 (db1 + 1) <> 0)).
Proof using G.
  intros M Hl Hb Hd He R Ho Hc Hcb.
  destruct (write_map_ok st h l db e new n M Hl Hb Hd He R) as (st1 & h1 & new1 & db1 & e1 & E1 & [M1 X1 Z1 F1 N1 C1 W1] & R1).
  destruct F1 as [He1 F1]. destruct (F1 0 ltac:(lia)) as [Hl1 A1]. rewrite !Z.add_0_r in *.
  destruct (write_one_block st1 h1 l o c new1 db1 (cell st)) as (data & E2 & E3 & Fd & Cd); try done; [by apply W1|].
  exists st1, h1, new1, db1, e1, data. split; [done|]. split; [done|]. split; [done|]. cbv zeta.
  assert (Hz : addr st1 (path h1 l) <> 0) by congruence. pose proof (db_small st1 h1 l db1 M1 ltac:(lia) A1).
  split_and!; [..|done|].
  - rewrite <- A1. by apply put_mapped.
  - done.
  - split; [|done|done]. eapply extends_trans; [exact X1|]. rewrite <- A1. by apply (put_extends st1 h1).
  - unfold wrap. rewrite (Z.mod_small (e1 - 1)), (Z.mod_small (db1 + 1)) by lia. destruct (Z.eq_dec e1 1) as [->|Hne]; [by left|right].
    split_and!; [|destruct new1; [by destruct (W1 eq_refl)|done]|lia]. apply frun_next; try done; lia.
Qed.

Lemma writei_loop_ok fuel st buf l o new db e h n : mapped st h -> Forall is_byte buf -> (length buf <= fuel)%nat ->
  Z.of_nat hdr <= o < c_bsize C -> 0 <= l -> l * bs + (o - Z.of_nat hdr) + Z.of_nat (length buf) + bs < 2 ^ 64 ->
  di_size (f_ip st) < 2 ^ 64 -> e = 0 \/ (frun st h l db e /\ new = false /\ db <> 0) ->
  room (f_alloc st) (nblocks (o - Z.of_nat hdr) (Z.of_nat (length buf)) * per_block + n) ->
  exists st' h', writei_loop ff C isdir fuel st buf l o new db e = Ok st' /\ mapped st' h' /\
    written st st' (l * bs + (o - Z.of_nat hdr)) buf /\ room (f_alloc st') n /\
    (buf <> [] -> l * bs + (o - Z.of_nat hdr) + Z.of_nat (length buf) <= cap h' * bs).
Proof using G.
  destruct (bs_range ff C isdir G) as [Hb0 Hbs]. revert st buf l o new db e h.
  induction fuel as [|fuel IH]; intros st buf l o new db e h M Hby Hfu Ho Hl Hlim Hd He R; cbn [writei_loop];
    destruct (length buf =? 0)%nat eqn:E0.
  1,3: apply Nat.eqb_eq, length_zero_iff_nil in E0; subst buf; exists st, h; split_and!; try done;
    [split; [apply extends_refl|done|intros k _; by rewrite over_nil]|eapply room_le; [|exact R]; lia].
  all: apply Nat.eqb_neq in E0.
  1: lia.
  rewrite u32_rest by lia. set (amt := Z.min _ _).
  assert (Ha : 0 < amt <= Z.of_nat (length buf)) by lia. set (c := take (Z.to_nat amt) buf). set (r := drop (Z.to_nat amt) buf).
  assert (Lc : Z.of_nat (length c) = amt) by (unfold c; rewrite length_take; lia).
  assert (Lr : Z.of_nat (length r) = Z.of_nat (length buf) - amt) by (unfold r; rewrite length_drop; lia).
  assert (Hcr : buf = c ++ r) by (symmetry; apply take_drop).
  assert (Hn : nblocks (o - Z.of_nat hdr) (Z.of_nat (length buf)) = S (nblocks 0 (Z.of_nat (length r))) \/
    (r = [] /\ (0 < nblocks (o - Z.of_nat hdr) (Z.of_nat (length buf)))%nat)).
  { destruct (Z_le_gt_dec (c_bsize C - o) (Z.of_nat (length buf))); [left; rewrite nblocks_full by lia; do 2 f_equal; lia|right].
    split; [apply length_zero_iff_nil; lia|apply nblocks_pos; lia]. }
  set (n1 := (nblocks 0 (Z.of_nat (length r)) * per_block + n)%nat).
  assert (R1 : room (f_alloc st) (per_block + n1)).
  { eapply room_le; [|exact R]. unfold n1. destruct Hn as [->|[-> Hn]]; [lia|].
    assert (nblocks 0 (Z.of_nat (length (@nil Z))) = 0%nat) as ->; [|nia].
    unfold nblocks. cbn [length Z.of_nat]. rewrite Z.div_small by lia. done. }
  destruct (write_block_ok st h l o c new db e n1) as (st1 & h1 & new1 & db1 & e1 & data & -> & E2 & E3 & M2 & Hl1 & W2 & R2 & He2);
    try done; [nia|lia|lia|by apply Forall_take|]. cbn [mbind res_bind]. rewrite E2. cbn [mbind res_bind]. rewrite E3.
  cbn [brelse]. change (mkFile _ _ _) with (put st1 db1 data). rewrite next_start_hdr.
  assert (u64 (l + 1) = l + 1) as -> by (unfold wrap; apply Z.mod_small; nia).
  destruct (decide (r = [])) as [Er|Er].
  - rewrite Er. exists (put st1 db1 data), h1. rewrite Er, app_nil_r in Hcr. rewrite <- Hcr in W2.
    split; [by destruct fuel|]. split_and!; try done; [eapply room_le; [apply Nat.le_add_l|exact R2]|]. intros _.
    assert ((l + 1) * bs <= cap h1 * bs) by nia. apply (f_equal length) in Hcr. lia.
  - assert (amt = c_bsize C - o) as Eamt by (destruct r; [done|]; cbn in Lr; lia).
    destruct (IH (put st1 db1 data) r (l + 1) (Z.of_nat hdr) new1 (u64 (db1 + 1)) (u32 (e1 - 1)) h1) as (st' & h' & -> & M' & W' & R' & B');
      try done; [by apply Forall_drop|lia|lia|lia|lia|by rewrite (wr_size _ _ _ _ W2)|by rewrite Z.sub_diag|].
    exists st', h'. replace ((l + 1) * bs + (Z.of_nat hdr - Z.of_nat hdr)) with (l * bs + (o - Z.of_nat hdr) + Z.of_nat (length c)) in * by lia.
    split_and!; try done; [rewrite Hcr; by eapply written_app|]. intros _. specialize (B' Er). lia.
Qed.

(** ** Writing to a file *)

(** A file whose end may be set: in the inode, or with blocks that reach it. *)
Definition shaped st (size : Z) : Prop :=
  match di_height (f_ip st) with
  | O => sound st /\ tree st 0 /\ size <= c_bsize C - Z.of_nat (ff_dinode ff)
  | S _ as h => mapped st h /\ size <= cap h * bs
  end.

Lemma file_shaped st : file_ok st -> shaped st (di_size (f_ip st)).
Proof. intros [H _ _]. unfold shaped. destruct (di_height _); [done|]. split; [done|apply H]. Qed.

Lemma with_size_addr st s q : addr (with_ip st (ip_set_size (f_ip st) s)) q = addr st q.
Proof. by destruct q. Qed.

Lemma with_size_tree st s h : tree st h -> tree (with_ip st (ip_set_size (f_ip st) s)) h.
Proof.
  intros [T1 T2 T3]. split; [intros p q|intros p|intros p]; rewrite !with_size_addr; [apply T1|apply T2|apply T3].
Qed.

Lemma with_size_sound st s : sound st -> sound (with_ip st (ip_set_size (f_ip st) s)).
Proof. intros [S1 S2 S3 S4]. by split. Qed.

(** The file when the bytes are written and the size is set. *)
Lemma write_finish st st1 buf offset : file_ok st -> 0 <= offset -> buf <> [] -> offset + Z.of_nat (length buf) + c_bsize C < 2 ^ 64 ->
  shaped st1 (Z.max (di_size (f_ip st)) (offset + Z.of_nat (length buf))) -> written st st1 offset buf ->
  let end_ := offset + Z.of_nat (length buf) in
  let st' := if di_size (f_ip st1) <? end_ then with_ip st1 (ip_set_size (f_ip st1) end_) else st1 in
  file_ok st' /\ contents st' = spec_write (contents st) buf (Z.to_nat offset) /\ extends st st'.
Proof using G.
  intros F Ho Hn Hlim Hsh [X Es Hc] end_ st'. destruct (fo_size _ F) as [Hs0 Hs1]. rewrite <- Es in Hsh.
  assert (Ed : di_size (f_ip st') = Z.max (di_size (f_ip st1)) end_ /\ di_height (f_ip st') = di_height (f_ip st1)).
  { unfold st'. destruct (_ <? _) eqn:E; zbool; cbn; split; try done; lia. }
  destruct Ed as [Ed Eh]. assert (Cc : forall k, cell st' k = cell st1 k).
  { intros k. unfold st'. destruct (_ <? _); [|done]. unfold Gfs2FileMap.cell. cbn. by destruct (di_height _). }
  assert (F' : file_ok st').
  { split.
    - unfold shaped in Hsh. rewrite Eh, Ed. destruct (di_height (f_ip st1)) eqn:E1; unfold st'; destruct (_ <? _).
      + destruct Hsh as (? & ? & ?). split_and!; [by apply with_size_sound|by apply with_size_tree|done].
      + done.
      + destruct Hsh as [[? ? ? ?] ?]. split; [by apply with_size_sound|by apply with_size_tree|done|cbn; lia].
      + apply Hsh.
    - rewrite Ed. lia.
    - intros k Hk. rewrite Cc, Hc by lia. unfold over. rewrite decide_False by lia. apply F. lia. }
  split; [done|]. split.
  - apply (nth_ext _ _ 0 0).
    + rewrite spec_write_length. pose proof (contents_length _ F). pose proof (contents_length _ F'). lia.
    + intros k _. rewrite spec_write_nth, !contents_byte, Cc, Hc by (done || lia). unfold over.
      destruct (decide (offset <= _ < _)), (decide (_ <= k < _)%nat); try lia. f_equal. lia.
  - destruct X as [X1 X2 X3 X4]. unfold st'. by destruct (_ <? _).
Qed.

Lemma inode_write st buf offset : file_ok st -> di_height (f_ip st) = 0%nat -> buf <> [] -> Forall is_byte buf -> 0 <= offset ->
  offset + Z.of_nat (length buf) <= c_bsize C - Z.of_nat (ff_dinode ff) ->
  exists st', writei_loop ff C isdir (length buf) st buf 0 (offset + Z.of_nat (ff_dinode ff)) false 0 0 = Ok st' /\
    shaped st' (Z.max (di_size (f_ip st)) (offset + Z.of_nat (length buf))) /\ written st st' offset buf /\ f_alloc st' = f_alloc st.
Proof using G.
  intros F H0 Hn Hby Ho Hle. pose proof (fo_shape _ F) as Hsh. rewrite H0 in Hsh. destruct Hsh as (S & T & Hs).
  pose proof (s_data _ _ S) as Fd. pose proof (full_length _ _ Fd) as Ld. pose proof (sizes_nat ff C G) as Hsz.
  destruct (length buf) as [|m] eqn:Eb; [by apply length_zero_iff_nil in Eb|].
  cbn [writei_loop]. rewrite Eb. cbn [Nat.eqb]. rewrite u32_rest by lia. unfold write_map, block_map.
  rewrite H0. cbn [Z.eqb Nat.eqb mbind res_bind mret res_ret]. unfold write_buffer, read_or_inode. rewrite Z.eqb_refl. cbn [hdata].
  replace (Z.min _ _) with (Z.of_nat (length buf)) by lia. rewrite Nat2Z.id, take_ge, drop_ge by lia. unfold copy_from_mem.
  rewrite (proj2 (Z.ltb_ge _ _)) by lia. cbn [mbind res_bind mret res_ret hput brelse].
  set (data := take _ _ ++ buf ++ drop _ _). set (st' := with_ip st _). exists st'. split; [by destruct m|].
  assert (Fd' : full C data) by (apply splice_full; [done|done|lia]).
  split; [|split; [split; [split; try done|done|]|done]].
  - unfold shaped. cbn [st' with_ip f_ip ip_set_data di_height]. rewrite H0. split_and!; [by destruct S| |lia].
    destruct T as [_ T2 T3]. split; [intros [|? ?] [|? ?]; cbn; lia || done|intros [|? ?]|intros [|? ?]]; cbn [length]; try lia.
    + apply (T2 []).
    + apply (T3 []).
  - intros a (p & Hnp & _ & Hl & _). cbn in Hl. destruct p; [done|]. cbn in Hl. lia.
  - intros k Hk. unfold Gfs2FileMap.cell, over. cbn [st' with_ip f_ip ip_set_data di_height i_data]. rewrite H0. unfold data.
    rewrite splice_nth by lia. destruct (decide (_ <= _ < _)%nat), (decide (offset <= k < _)); try lia. f_equal. lia.
Qed.

Lemma written_raised st st1 st2 pos c : raised st st1 -> written st1 st2 pos c -> written st st2 pos c.
Proof.
  intros [X1 Z1 C1] [X2 Z2 C2]. split; [by eapply extends_trans|congruence|].
  intros k Hk. rewrite C2 by done. by apply over_ext, C1.
Qed.

(** The blocks that are enough for writing. *)
Definition write_room (offset len : Z) : nat := S (nblocks (offset mod bs) len * per_block).

Lemma mapped_write st h buf offset n : mapped st h -> buf <> [] -> Forall is_byte buf -> 0 <= offset ->
  offset + Z.of_nat (length buf) + c_bsize C < 2 ^ 64 -> di_size (f_ip st) < 2 ^ 64 ->
  room (f_alloc st) (nblocks (offset mod bs) (Z.of_nat (length buf)) * per_block + n) ->
  exists st', writei_loop ff C isdir (length buf) st buf (offset / bs) (start_of ff isdir st (offset mod bs)) false 0 0 = Ok st' /\
    shaped st' (Z.max (di_size (f_ip st)) (offset + Z.of_nat (length buf))) /\ written st st' offset buf /\ room (f_alloc st') n.
Proof using G.
  intros M Hn Hby Ho Hlim Hd R. destruct (bs_range ff C isdir G) as [Hb0 Hbs].
  pose proof (Z.div_mod offset bs ltac:(lia)) as Hdm. pose proof (Z.mod_pos_bound offset bs Hb0) as Hm.
  assert (Est : start_of ff isdir st (offset mod bs) = offset mod bs + Z.of_nat hdr).
  { destruct M as [_ _ [Eh Hh] _]. unfold start_of. rewrite Eh, (proj2 (Nat.eqb_neq _ _)) by lia.
    unfold Gfs2FileMap.hdr. destruct isdir; lia. }
  rewrite Est. assert (Epos : offset / bs * bs + (offset mod bs + Z.of_nat hdr - Z.of_nat hdr) = offset) by lia.
  destruct (writei_loop_ok (length buf) st buf (offset / bs) (offset mod bs + Z.of_nat hdr) false 0 0 h n) as (st' & h' & E & M' & W' & R' & B');
    rewrite ?Epos in *; try done; [lia|by apply Z.div_pos|lia|by left|by rewrite Z.add_simpl_r|].
  exists st'. split; [done|]. split; [|by split]. unfold shaped. pose proof M' as [_ _ [Eh' Hh'] Hs']. rewrite Eh'.
  destruct h' as [|h']; [lia|]. split; [done|]. rewrite (wr_size _ _ _ _ W') in Hs'. specialize (B' Hn). lia.
Qed.

(** From the loop to the result. *)
Lemma write_end st (r : res (file A)) buf offset n : file_ok st -> 0 <= offset -> buf <> [] ->
  offset + Z.of_nat (length buf) + c_bsize C < 2 ^ 64 ->
  (exists st2, r = Ok st2 /\ shaped st2 (Z.max (di_size (f_ip st)) (offset + Z.of_nat (length buf))) /\ written st st2 offset buf /\
    room (f_alloc st2) n) ->
  exists st', (st2 ← r; mret (Z.of_nat (length buf), if di_size (f_ip st2) <? offset + Z.of_nat (length buf)
       then with_ip st2 (ip_set_size (f_ip st2) (offset + Z.of_nat (length buf))) else st2)) = Ok (Z.of_nat (length buf), st') /\
    file_ok st' /\ contents st' = spec_write (contents st) buf (Z.to_nat offset) /\
    extends st st' /\ room (f_alloc st') n.
Proof using G.
  intros F Ho Hn Hlim (st2 & -> & Sh & W & R). cbn [mbind res_bind]. eexists. split; [reflexivity|].
  destruct (write_finish st st2 buf offset F Ho Hn Hlim Sh W) as (F' & E' & X'). split_and!; try done.
  by destruct (_ <? _).
Qed.

Lemma writei_ok st buf offset n :
  file_ok st -> Forall is_byte buf -> Z.of_nat (length buf) < 2 ^ 31 -> 0 <= offset ->
  offset + Z.of_nat (length buf) + c_bsize C < 2 ^ 64 ->
  room (f_alloc st) (write_room offset (Z.of_nat (length buf)) + n) ->
  exists st', gfs2_writei ff C isdir st buf offset = Ok (Z.of_nat (length buf), st') /\ file_ok st' /\
    contents st' = (if decide (buf = []) then contents st else spec_write (contents st) buf (Z.to_nat offset)) /\
    extends st st' /\ room (f_alloc st') n.
Proof using G.
  intros F Hby Hlen Ho Hlim R. unfold gfs2_writei. destruct (decide (buf = [])) as [->|Hn]; [exists st; split_and!; try done; [apply extends_refl|eapply room_le; [|exact R]; lia]|].
  assert (Hlp : 0 < Z.of_nat (length buf)) by (destruct buf; [done|cbn; lia]).
  rewrite (proj2 (Z.eqb_neq _ _)) by lia. rewrite locate_ok by done. destruct (ptrs_range ff C G) as (_ & _ & Hbp).
  assert (W64 : u64 (offset + Z.of_nat (length buf)) = offset + Z.of_nat (length buf)) by (unfold wrap; apply Z.mod_small; lia).
  assert (W32 : s32 (Z.of_nat (length buf)) = Z.of_nat (length buf)) by (apply swrap_small; unfold in_s; lia).
  rewrite W32, W64. destruct (fo_size _ F) as [Hs0 Hs1].
  pose proof (fun r => write_end st r buf offset n F Ho Hn Hlim) as K.
  destruct (di_height (f_ip st) =? 0)%nat eqn:E0; [apply Nat.eqb_eq in E0|apply Nat.eqb_neq in E0]; cbn [andb].
  - destruct (_ >? _) eqn:Eg; zbool; cbn [mbind res_bind mret res_ret].
    + destruct (unstuff_dinode_ok st _ F E0 R) as (st1 & -> & M1 & Rs & R1). cbn [mbind res_bind]. apply K.
      destruct (mapped_write st1 1 buf offset n M1 Hn Hby Ho Hlim) as (st2 & E2 & Sh & W & R2);
        [rewrite (r_size _ _ _ _ _ Rs); lia|done|].
      exists st2. rewrite (r_size _ _ _ _ _ Rs) in Sh. split_and!; try done. by eapply written_raised.
    + apply K. destruct (bs_range ff C isdir G) as [Hb0 Hbs]. pose proof (sizes_nat ff C G) as Hsz.
      assert (offset < bs) by (unfold Gfs2FileMap.hdr in Hbs; destruct isdir; lia).
      rewrite Z.div_small, Z.mod_small by lia. unfold start_of. rewrite E0. cbn [Nat.eqb].
      destruct (inode_write st buf offset F E0 Hn Hby Ho) as (st2 & E2 & Sh & W & Ea); [lia|]. exists st2. split_and!; try done. rewrite Ea. eapply room_le; [|exact R]. lia.
  - apply K. pose proof (fo_shape _ F) as M. destruct (di_height (f_ip st)) as [|h] eqn:Eh; [done|].
    apply (mapped_write st (S h) buf offset n); try done; [lia|]. eapply room_le; [|exact R]. unfold write_room. lia.
Qed.

(** ** Reading *)

Lemma read_map_ok st h l db e : mapped st h -> 0 <= l -> (l + 1) * bs < 2 ^ 64 -> l * bs < di_size (f_ip st) < 2 ^ 64 ->
  e = 0 \/ (frun st h l db e /\ db <> 0) ->
  exists e', read_map ff C isdir st l db e = Ok (st, addr st (path h l), e') /\ l < cap h /\
    if addr st (path h l) =? 0 then e' = 0 else frun st h l (addr st (path h l)) e'.
Proof using G.
  intros M Hl Hb Hd He. unfold read_map. destruct (e =? 0) eqn:Ee; zbool.
  - destruct (block_map_find ff C isdir G st h l M Hl Hb Hd) as (Hc & e' & -> & H). by exists e'.
  - destruct He as [|[Fr Hz]]; [done|]. pose proof Fr as [H1 H2]. destruct (H2 0 ltac:(lia)) as [Hc E]. rewrite !Z.add_0_r in *.
    exists e. rewrite E, (proj2 (Z.eqb_neq db 0)) by done. by split_and!.
Qed.

(** The bytes of one block. *)
Lemma read_piece st h l o amt : mapped st h -> 0 <= l < cap h -> Z.of_nat hdr <= o -> 0 <= amt -> o + amt <= c_bsize C ->
  let a := addr st (path h l) in
  copy2mem (if a =? 0 then None else Some (hdata st (read_or_inode st a))) o amt =
    Ok (cell st <$> seqZ (l * bs + (o - Z.of_nat hdr)) amt).
Proof using G.
  intros M Hl Ho Ha Hoa a. destruct (bs_range ff C isdir G) as [Hb0 Hbs]. destruct (leaf st h l M Hl) as (V & L & N).
  pose proof M as [S T [Eh Hh] Hs]. set (pos := l * bs + (o - Z.of_nat hdr)).
  assert (Hcell : forall i, 0 <= i < amt -> cell st (pos + i) = if a =? 0 then 0 else nth (Z.to_nat (o + i)) (f_disk st a) 0).
  { intros i Hi. assert (D : l = (pos + i) / bs) by (apply Z.div_unique with (r := o - Z.of_nat hdr + i); unfold pos; lia).
    assert (D2 : o - Z.of_nat hdr + i = (pos + i) mod bs) by (apply Z.mod_unique with (q := l); unfold pos; lia).
    rewrite (cell_mapped st h), <- D, <- D2, (proj2 (Z.ltb_lt _ _)) by (done || lia). fold a. destruct (a =? 0); [done|].
    f_equal. lia. }
  unfold copy2mem. destruct (a =? 0) eqn:Ez; zbool.
  - cbn [mret res_ret]. f_equal. apply replicate_as_Forall. rewrite length_fmap, length_seqZ. split; [done|].
    apply Forall_fmap, Forall_forall. intros k Hk%elem_of_seqZ. cbn. replace k with (pos + (k - pos)) by lia. symmetry. apply Hcell. lia.
  - assert (hdata st (read_or_inode st a) = f_disk st a) as ->.
    { unfold a in *. rewrite (read_handle ff C st h) by (done || lia). by destruct (path h l). }
    pose proof (full_length _ _ (s_disk _ _ S a)) as Lf. rewrite (proj2 (Z.ltb_ge _ _)) by lia. cbn [mret res_ret]. f_equal.
    rewrite (slice_fmap _ _ _ (cell st) pos); [by rewrite Z2Nat.id|lia|].
    intros i Hi. rewrite Hcell by lia. f_equal. lia.
Qed.

Lemma readi_loop_ok fuel st left l o db e h : mapped st h -> 0 <= left -> (Z.to_nat left <= fuel)%nat ->
  Z.of_nat hdr <= o < c_bsize C -> 0 <= l -> l * bs + (o - Z.of_nat hdr) + left <= di_size (f_ip st) \/ left = 0 ->
  di_size (f_ip st) + c_bsize C < 2 ^ 64 -> e = 0 \/ (frun st h l db e /\ db <> 0) ->
  readi_loop ff C isdir fuel st left l o db e = Ok (st, cell st <$> seqZ (l * bs + (o - Z.of_nat hdr)) left).
Proof using G.
  destruct (bs_range ff C isdir G) as [Hb0 Hbs]. intros M. revert left l o db e.
  induction fuel as [|fuel IH]; intros left l o db e Hle Hfu Ho Hl Hend Hd He; cbn [readi_loop];
    (destruct (left =? 0) eqn:E0; zbool; [by subst left|]).
  1: lia. destruct Hend as [Hend|]; [|done]. rewrite u32_rest by lia. set (amt := Z.min _ _).
  destruct (read_map_ok st h l db e M Hl) as (e' & -> & Hc & Hr); [lia|lia|done|]. cbn [mbind res_bind].
  rewrite (read_piece st h l o amt M) by lia. cbn [mbind res_bind]. set (a := addr st (path h l)) in *.
  assert (u64 (l + 1) = l + 1) as -> by (unfold wrap; apply Z.mod_small; nia).
  rewrite next_start_hdr, IH; [|lia|lia|lia|lia|destruct (Z.eq_dec amt left); [right; lia|left; lia]|done|].
  - cbn [mbind res_bind mret res_ret]. do 2 f_equal. rewrite <- fmap_app. f_equal.
    destruct (Z.eq_dec amt left) as [E|E].
    + rewrite E, (Z.sub_diag left). change (seqZ ((l + 1) * bs + (Z.of_nat hdr - Z.of_nat hdr)) 0) with (@nil Z). by rewrite app_nil_r.
    + replace ((l + 1) * bs + (Z.of_nat hdr - Z.of_nat hdr)) with (l * bs + (o - Z.of_nat hdr) + amt) by lia.
      rewrite <- seqZ_app by lia. f_equal. lia.
  - destruct (a =? 0) eqn:Ea; [by left|]. zbool. destruct Hr as [He' Hr]. pose proof (db_small st h l a M ltac:(lia) eq_refl).
    unfold wrap. rewrite (Z.mod_small (e' - 1)), (Z.mod_small (a + 1)) by lia.
    destruct (Z.eq_dec e' 1) as [->|Hne]; [by left|right]. split; [|lia]. split; [lia|]. intros j Hj.
    destruct (Hr (j + 1) ltac:(lia)) as [Hj1 Hj2]. replace (l + 1 + j) with (l + (j + 1)) by lia. split; [done|]. lia.
Qed.

Lemma contents_slice st off len : file_ok st -> 0 <= off -> 0 <= len -> off + len <= di_size (f_ip st) ->
  cell st <$> seqZ off len = spec_read (contents st) (Z.to_nat off) (Z.to_nat len).
Proof.
  intros F Ho Hle Hs. unfold spec_read. rewrite (slice_fmap _ _ _ (cell st) off); [by rewrite Z2Nat.id| |].
  - pose proof (contents_length st F). lia.
  - intros i Hi. rewrite contents_byte by done. f_equal. lia.
Qed.

Lemma inode_read st off len : file_ok st -> di_height (f_ip st) = 0%nat -> 0 <= off -> 0 < len -> off + len <= di_size (f_ip st) ->
  readi_loop ff C isdir (Z.to_nat len) st len 0 (off + Z.of_nat (ff_dinode ff)) 0 0 = Ok (st, cell st <$> seqZ off len).
Proof using G.
  intros F H0 Ho Hl He. pose proof (fo_shape _ F) as Hsh. rewrite H0 in Hsh. destruct Hsh as (S & T & Hs).
  pose proof (full_length _ _ (s_data _ _ S)) as Ld. pose proof (sizes_nat ff C G) as Hsz. pose proof (s_addr _ _ S) as [Ha Ha0].
  destruct (Z.to_nat len) as [|m] eqn:Em; [lia|]. cbn [readi_loop]. rewrite (proj2 (Z.eqb_neq len 0)) by lia.
  rewrite u32_rest by lia. unfold read_map, block_map. rewrite H0. cbn [Z.eqb Nat.eqb mbind res_bind mret res_ret].
  rewrite (proj2 (Z.eqb_neq _ 0)) by done. replace (Z.min _ _) with len by lia. unfold read_or_inode. rewrite Z.eqb_refl.
  cbn [hdata copy2mem]. rewrite (proj2 (Z.ltb_ge _ _)) by lia. cbn [mbind res_bind mret res_ret]. rewrite Z.sub_diag.
  assert (forall s (a b c d : Z), readi_loop ff C isdir m s 0 a b c d = Ok (s, [])) as -> by (by destruct m).
  cbn [mbind res_bind mret res_ret]. rewrite app_nil_r. do 2 f_equal.
  rewrite (slice_fmap _ _ _ (cell st) off); [by rewrite Z2Nat.id by lia|lia|].
  intros i Hi. unfold Gfs2FileMap.cell. rewrite H0. f_equal. lia.
Qed.

Lemma readi_ok st offset size :
  file_ok st -> 0 <= offset -> 0 <= size < 2 ^ 31 -> offset + size < 2 ^ 64 ->
  gfs2_readi ff C isdir st offset size = Ok (st, spec_read (contents st) (Z.to_nat offset) (Z.to_nat size)).
Proof using G.
  intros F Ho Hsz Hlim. unfold gfs2_readi. destruct (fo_size _ F) as [Hs0 Hs1]. pose proof (contents_length st F) as Lc.
  destruct (offset >=? di_size (f_ip st)) eqn:Eo; zbool.
  { unfold spec_read. rewrite drop_ge, take_nil by lia. done. }
  assert (W : u64 (offset + size) = offset + size) by (unfold wrap; apply Z.mod_small; lia). rewrite W.
  set (n := if _ >? _ then _ else _).
  assert (En : n = Z.min size (di_size (f_ip st) - offset)).
  { unfold n. destruct (_ >? _) eqn:E; zbool; [|lia]. unfold wrap. rewrite Z.mod_small by lia. lia. }
  assert (Es : spec_read (contents st) (Z.to_nat offset) (Z.to_nat size) = cell st <$> seqZ offset n).
  { rewrite contents_slice by (done || lia). unfold spec_read. rewrite En. destruct (Z_le_gt_dec size (di_size (f_ip st) - offset)).
    - by rewrite Z.min_l by lia.
    - rewrite !take_ge; [done|rewrite length_drop; lia|rewrite length_drop; lia]. }
  rewrite Es. destruct (n =? 0) eqn:E0; zbool; [by rewrite E0|]. rewrite locate_ok by done.
  destruct (bs_range ff C isdir G) as [Hb0 Hbs]. pose proof (sizes_nat ff C G). pose proof (fo_shape _ F) as Sh. unfold start_of.
  destruct (di_height (f_ip st)) as [|h] eqn:Eh.
  - destruct Sh as (_ & _ & Hs). assert (offset < bs) by (unfold Gfs2FileMap.hdr in Hbs; destruct isdir; lia).
    rewrite Z.div_small, Z.mod_small by lia. cbn [Nat.eqb]. apply inode_read; try done; lia.
  - cbn [Nat.eqb]. pose proof (Z.div_mod offset bs ltac:(lia)). pose proof (Z.mod_pos_bound offset bs Hb0).
    assert ((if isdir then offset mod bs + Z.of_nat (mh_size ff) else offset mod bs) = offset mod bs + Z.of_nat hdr) as ->
      by (unfold Gfs2FileMap.hdr; destruct isdir; lia).
    rewrite (readi_loop_ok _ _ _ _ _ _ _ (S h)); try done; [|lia|lia|by apply Z.div_pos|left; lia|by left].
    do 4 f_equal. lia.
Qed.

Lemma file_sound st : file_ok st -> sound st.
Proof. intros [H _ _]. destruct (di_height _); [apply H|by destruct H]. Qed.

(** Preparing the blocks of a file whose pointers are all in the inode ends the program: there
    is no indirect block on the way, and 0 is taken for a failure. *)
Lemma get_file_buf_prealloc_dies st lbn : mapped st 1 -> di_size (f_ip st) < 2 ^ 64 -> 0 <= lbn < c_diptrs C ->
  (lbn + 1) * bs < 2 ^ 64 -> get_file_buf ff C isdir st lbn true = Die.
Proof using G.
  intros M Hd Hl Hb. pose proof M as [S T [Eh Hh] Hs]. destruct (bs_range ff C isdir G) as [Hb0 _].
  unfold get_file_buf. rewrite Eh. cbn [Nat.eqb mbind res_bind mret res_ret]. unfold block_map. rewrite Eh. cbn [Nat.eqb].
  fold bs. rewrite (u64_size ff C isdir G) by (done || lia).
  destruct (calc_height_ok ff C isdir G st ((lbn + 1) * bs)) as (_ & _ & H3); [nia|lia|].
  change (cap 1) with (c_diptrs C * 1) in *. rewrite (proj2 (Nat.ltb_ge _ _)) by (apply H3; change (cap 1) with (c_diptrs C * 1); [lia|nia|lia]).
  cbn [andb mbind res_bind mret res_ret]. pose proof (hs_max ff C isdir G). rewrite Eh, (proj2 (Nat.ltb_ge _ _)) by lia.
  cbn [Nat.sub find_metapath take walk mbind res_bind mret res_ret lookup list_lookup map_last map_pointer Z.eqb andb]. done.
Qed.

(** ** Files as lists of bytes *)

(** C14: Writing to a well-formed file of libgfs2, when enough blocks are free, never leaves a
    buffer and gives the abstract file with the bytes written: everything else reads as before,
    a gap behind the old end as zeros, and the size is the larger one.  The file is well-formed
    again, no block in use becomes free, and none that is not of this file is changed. *)
Theorem gfs2_writei_refines st buf offset :
  file_ok st -> Forall is_byte buf -> Z.of_nat (length buf) < 2 ^ 31 -> 0 <= offset ->
  offset + Z.of_nat (length buf) + c_bsize C < 2 ^ 64 ->
  room (f_alloc st) (write_room offset (Z.of_nat (length buf))) ->
  exists st', gfs2_writei ff C isdir st buf offset = Ok (Z.of_nat (length buf), st') /\ file_ok st' /\
    contents st' = (if decide (buf = []) then contents st else spec_write (contents st) buf (Z.to_nat offset)) /\
    forall a, ~ al_free (f_alloc st) a -> ~ al_free (f_alloc st') a /\ (~ owned ff C st a -> f_disk st' a = f_disk st a).
Proof using G.
  intros F Hby Hlen Ho Hlim R. rewrite <- (Nat.add_0_r (write_room _ _)) in R. destruct (writei_ok st buf offset 0 F Hby Hlen Ho Hlim R) as (st' & E & F' & Ec & [_ X2 _ X4] & _).
  exists st'. split_and!; try done. intros a Ha. split; [by intros ?%X2|by apply X4].
Qed.

(** C18: Reading from a well-formed file returns the part of the abstract file that is there,
    up to its end, through holes and runs of blocks, and changes nothing. *)
Theorem gfs2_readi_refines st offset size :
  file_ok st -> 0 <= offset -> 0 <= size < 2 ^ 31 -> offset + size < 2 ^ 64 ->
  gfs2_readi ff C isdir st offset size = Ok (st, spec_read (contents st) (Z.to_nat offset) (Z.to_nat size)).
Proof using G. apply readi_ok. Qed.

End thm.
