(* ===== verification/Gfs2FileDisk.v ===== *)
(** * Files on a file system

    The resource groups ([Gfs2Rgrp]) are an allocator for files ([Gfs2File]): what is written to
    a file of a consistent file system is read back, and the file system stays consistent.  The
    theorems on files are applied to a small file system. *)

From stdpp Require Import functions.
From S2P Require Import Prelude PlockWire DiskHash Gfs2Field Gfs2Log Gfs2Bits Gfs2BitsThm Gfs2Rgrp Gfs2RgrpThm Gfs2Sample.
From S2P Require Import Gfs2File Gfs2FilePath Gfs2FileTree Gfs2FileMap Gfs2FileHeight Gfs2FileThm.
Open Scope Z_scope.

Section disk.
Context (sz : sizes) (bsize : Z) (Hsz : 0 <= sz_meta_header sz /\ 0 <= sz_rgrp sz)
  (rgrp_out : gfs2_rgrp -> list Z -> list Z) {Enc : RgrpEncoding sz rgrp_out}.

(** A consistent file system, with numbers of blocks far from the end of their type. *)
Definition sbd_ok (s : gfs2_sbd) : Prop := fs_ok sz bsize s /\ forall b, fs_state s b <> None -> b < 2 ^ 63.

Definition sbd_free (s : gfs2_sbd) (b : Z) : Prop := fs_state s b = Some GFS2_BLKST_FREE.

#[local] Instance sbd_alloc : Allocator gfs2_sbd := blk_alloc_i sz rgrp_out.

Lemma sbd_range s b : sbd_ok s -> sbd_free s b -> 0 < b < 2 ^ 63.
Proof using Hsz.
  intros [[W _] Hs] Hf. split; [|apply Hs; by rewrite Hf]. apply fs_state_Some in Hf as (p & r & Hp & Hd & _).
  pose proof (Forall_lookup_1 _ _ _ _ (w_groups _ _ _ W) Hp) as Gr.
  pose proof (group_range sz bsize Hsz r Gr). apply (in_data_spec sz bsize Hsz r b Gr) in Hd. lia.
Qed.

Lemma sbd_alloc_law s t : sbd_ok s ->
  match alloc s t with
  | Ok (b, s') => sbd_free s b /\ sbd_ok s' /\ (forall c, sbd_free s' c <-> sbd_free s c /\ c <> b)
  | Die => forall b, ~ sbd_free s b
  | Fault => False
  end.
Proof using Hsz Enc.
  intros [F Hs]. pose proof (blk_alloc_ok sz bsize Hsz rgrp_out s t F) as H. unfold alloc, sbd_alloc.
  destruct (blk_alloc_i sz rgrp_out s t) as [[b s']| |]; [|exact H|exact H].
  destruct H as (H1 & H2 & H3 & H4 & _). split; [exact H1|]. split.
  - split; [exact H2|]. intros c Hc. apply Hs. destruct (Z.eq_dec c b) as [->|Hne]; [by rewrite H1|by rewrite <- H4].
  - intros c. unfold sbd_free. destruct (Z.eq_dec c b) as [->|Hne].
    + rewrite H3. destruct t; cbn; split; intros Hx; try discriminate; tauto.
    + rewrite H4 by done. tauto.
Qed.

#[local] Instance sbd_alloc_spec : AllocatorSpec gfs2_sbd :=
  {| al_ok := sbd_ok; al_free := sbd_free; al_range := sbd_range; al_spec := sbd_alloc_law |}.

Context (ff : file_format) (C : consts) (isdir : bool) (G : geometry ff C).

(** C15: On a consistent file system, with the allocator of the resource groups: what is written
    to a file is read back from it, the resource groups are consistent again, and no block in use
    that is not of the file is changed, neither in the bitmaps from used to free nor on disk. *)
Theorem disk_write_read (st : file gfs2_sbd) buf offset :
  file_ok ff C isdir st -> buf <> [] -> Forall is_byte buf -> Z.of_nat (length buf) < 2 ^ 31 ->
  0 <= offset -> offset + Z.of_nat (length buf) + c_bsize C < 2 ^ 64 ->
  room (f_alloc st) (write_room C isdir offset (Z.of_nat (length buf))) ->
  exists st', gfs2_writei ff C isdir st buf offset = Ok (Z.of_nat (length buf), st') /\
    gfs2_readi ff C isdir st' offset (Z.of_nat (length buf)) = Ok (st', buf) /\
    sbd_ok (f_alloc st') /\
    forall a, fs_state (f_alloc st) a <> Some GFS2_BLKST_FREE ->
      fs_state (f_alloc st') a <> Some GFS2_BLKST_FREE /\ (~ owned ff C st a -> f_disk st' a = f_disk st a).
Proof using G.
  intros F Hn Hby Hlen Ho Hlim R. destruct (ptrs_range ff C G) as (_ & _ & Hb).
  rewrite <- (Nat.add_0_r (write_room _ _ _ _)) in R. destruct (writei_ok ff C isdir G st buf offset 0 F Hby Hlen Ho Hlim R) as (st' & E & F' & Ec & [_ X2 _ X4] & _).
  rewrite decide_False in Ec by done. exists st'. split; [exact E|]. split.
  - rewrite (readi_ok ff C isdir G st' offset _ F') by lia. by rewrite Ec, Nat2Z.id, spec_read_write.
  - split; [exact (s_alloc _ _ (file_sound ff C isdir st' F'))|].
    intros a Ha. split; [intros Hf; by apply Ha, X2|by apply X4].
Qed.
End disk.

(** ** A sample file *)

Definition file_fmt : format :=
  mkFormat 0 4 16 8 20  24 32 36 40 44  24 28 32  24 48 72  0x01161970 8 9 10 800 1 300 301 302.

Definition sample_ff : file_format := mkFf file_fmt 232 5 500 7 700 10 128 512 9 17.

Definition sample_consts : consts :=
  match compute_constants sample_ff 512 with
  | Ok (Some (c, _)) => c
  | _ => mkConsts 0 0 0 0 0 [] []
  end.

Lemma sample_geometry : geometry sample_ff sample_consts.
Proof.
  eapply (compute_constants_geometry sample_ff 512); [|vm_compute; reflexivity]. split.
  - exists 9. done.
  - lia.
  - split_and!; [by exists 29|by exists 3|by exists 64].
  - cbn. lia.
  - repeat constructor; cbn; lia.
  - cbn. lia.
Qed.

#[local] Opaque sample_used.

(** A file in its inode, which is the block that is used. *)
Definition inode_file (text : list Z) : file gfs2_sbd :=
  mkFile sample_used (fun _ => replicate 512 0)
    (mkInode 4 (replicate 232 0 ++ text ++ replicate (280 - length text) 0) (Z.of_nat (length text)) 0 1 4 4).

Definition sample_file : file gfs2_sbd := inode_file [7; 8; 9].

#[local] Instance sample_alloc : Allocator gfs2_sbd := sbd_alloc sample_sz sample_rgrp_out.
#[local] Instance sample_alloc_spec : AllocatorSpec gfs2_sbd := sbd_alloc_spec sample_sz 512 sample_sizes sample_rgrp_out.

Lemma sample_sbd_ok : sbd_ok sample_sz 512 sample_used.
Proof.
  split; [apply sample_used_ok|]. intros b Hb. destruct (fs_state sample_used b) as [v|] eqn:E; [|by destruct Hb].
  apply fs_state_Some in E as (p & r & Hp & Hd & _).
  assert (Er : (rl_ri <$> sd_rglist sample_used) !! p = Some (rl_ri r)) by (rewrite list_lookup_fmap, Hp; reflexivity).
  assert (El : rl_ri <$> sd_rglist sample_used = [mkRi 3 1 4 36 9]) by (vm_compute; reflexivity). rewrite El in Er.
  destruct p as [|[|p]]; try discriminate Er. injection Er as Er. rewrite <- Er in Hd. clear - Hd.
  unfold in_data, wrap in Hd. cbn [ri_data0 ri_data] in Hd. rewrite Z.mod_small in Hd by lia. zbool. lia.
Qed.

Lemma sample_room n : (n <= 35)%nat -> room (A := gfs2_sbd) sample_used n.
Proof.
  intros Hn. exists (seqZ 5 35). split; [apply NoDup_seqZ|]. split; [rewrite length_seqZ; lia|].
  assert (H : forallb (fun b => match fs_state sample_used b with Some v => v =? GFS2_BLKST_FREE | None => false end) (seqZ 5 35) = true)
    by (vm_compute; reflexivity).
  intros b Hb. rewrite forallb_forall in H. specialize (H b (proj1 (list_elem_of_In _ _) Hb)). cbn. unfold sbd_free.
  destruct (fs_state sample_used b) as [v|]; [|discriminate H]. apply Z.eqb_eq in H. by subst.
Qed.

Lemma sample_bsize : c_bsize sample_consts = 512.
Proof. vm_compute. reflexivity. Qed.

Lemma sample_inode_used : ~ sbd_free sample_used 4.
Proof. unfold sbd_free. vm_compute. discriminate. Qed.

#[local] Opaque sample_consts.

Lemma inode_file_ok text : Forall is_byte text -> (length text <= 280)%nat ->
  file_ok sample_ff sample_consts false (inode_file text).
Proof.
  intros Hb Hl. set (data := replicate 232 0 ++ text ++ replicate (280 - length text) 0).
  assert (Fd : full sample_consts data).
  { split; [rewrite sample_bsize; unfold data; rewrite !length_app, !length_replicate; lia|].
    unfold data. rewrite !Forall_app. split_and!; [apply replicate_bytes|done|apply replicate_bytes]. }
  assert (Fz : full sample_consts (replicate 512 0)).
  { split; [by rewrite sample_bsize, length_replicate|apply replicate_bytes]. }
  split.
  - change (di_height (f_ip (inode_file text))) with 0%nat. cbv iota. split; [|split].
    + split; [exact sample_sbd_ok|intros a; exact Fz|exact Fd|]. cbn. unfold in_u. lia.
    + split; [intros [|? ?] [|? ?]|intros [|? ?]|intros [|? ?]]; cbn [length]; try (intros; lia).
      * intros _ _ _ _ _ _. reflexivity.
      * intros _ _ _. exact sample_inode_used.
      * intros _ _. cbn. lia.
    + rewrite sample_bsize. cbn. lia.
  - rewrite sample_bsize. cbn [inode_file f_ip di_size]. lia.
  - intros k Hk. unfold cell. cbn [inode_file f_ip di_height i_data di_size] in Hk |- *. fold data.
    rewrite nth_drop. unfold data. rewrite drop_app_length' by (by rewrite length_replicate).
    rewrite nth_app_zeros. apply nth_overflow. lia.
Qed.

Lemma sample_file_ok : file_ok sample_ff sample_consts false sample_file.
Proof. apply inode_file_ok; [repeat constructor; unfold is_byte; lia|cbn; lia]. Qed.

Lemma sample_write_room : (write_room sample_consts false 600 3 <= 35)%nat.
Proof. vm_compute. lia. Qed.

Lemma gfs2_writei_refines_witness :
  exists st', gfs2_writei sample_ff sample_consts false sample_file [1; 2; 3] 600 = Ok (3, st') /\
    contents sample_ff sample_consts false st' = [7; 8; 9] ++ replicate 597 0 ++ [1; 2; 3].
Proof.
  destruct (gfs2_writei_refines sample_ff sample_consts false sample_geometry sample_file [1; 2; 3] 600)
    as (st' & E & _ & Ec & _);
    [apply sample_file_ok|repeat constructor; unfold is_byte; lia|cbn; lia|lia|vm_compute; reflexivity|
     apply sample_room, sample_write_room|].
  exists st'. split; [exact E|]. rewrite Ec. vm_compute. reflexivity.
Defined.

Lemma gfs2_readi_refines_witness :
  gfs2_readi sample_ff sample_consts false sample_file 1 16 = Ok (sample_file, [8; 9]).
Proof.
  rewrite (gfs2_readi_refines sample_ff sample_consts false sample_geometry sample_file 1 16);
    [vm_compute; reflexivity|apply sample_file_ok|lia|lia|lia].
Defined.

Lemma disk_write_read_witness :
  exists st', gfs2_writei sample_ff sample_consts false sample_file [1; 2; 3] 600 = Ok (3, st') /\
    gfs2_readi sample_ff sample_consts false st' 600 3 = Ok (st', [1; 2; 3]).
Proof.
  destruct (disk_write_read sample_sz 512 sample_sizes sample_rgrp_out sample_ff sample_consts false sample_geometry
    sample_file [1; 2; 3] 600) as (st' & E & Er & _);
    [apply sample_file_ok|discriminate|repeat constructor; unfold is_byte; lia|cbn; lia|lia|vm_compute; reflexivity|
     apply sample_room, sample_write_room|].
  exists st'. split; [exact E|exact Er].
Defined.
