(* ===== verification/Gfs2Dinode.v ===== *)
(** * libgfs2: inodes on disk

    [src/gfs2/libgfs2/ondisk.c]: the fields of an inode into its block ([gfs2_dinode_out]) and
    back ([gfs2_dinode_in]).  Their places come from a header of the kernel and are parameters;
    that they are disjoint and inside of the structure is [dinode_layout].  What a file needs of
    an inode is in [inode] of [Gfs2File]; the other fields are here. *)

From stdpp Require Import functions.
From S2P Require Import Prelude PlockWire DiskHash Gfs2Field Gfs2Log Gfs2Bits Gfs2Rgrp Gfs2File Gfs2FileMap.
Open Scope Z_scope.

(** ** Bytes at a place *)

Definition set_bytes (off : nat) (l b : list Z) : list Z := take off b ++ l ++ drop (off + length l) b.

(** Fields one after the other. *)
Definition set_fields (fs : list (nat * list Z)) (b : list Z) : list Z := foldl (fun b f => set_bytes f.1 f.2 b) b fs.

Definition positions (fs : list (nat * list Z)) : list nat := concat ((fun f => seq f.1 (length f.2)) <$> fs).

Lemma be_set_set_bytes n off v b : be_set n off v b = set_bytes off (store BigEndian n v) b.
Proof. unfold be_set, set_bytes. by rewrite store_length. Qed.

Lemma set_bytes_length off l b : (off + length l <= length b)%nat -> length (set_bytes off l b) = length b.
Proof. intros H. unfold set_bytes. rewrite !length_app, length_take, length_drop. lia. Qed.

Lemma set_bytes_lookup off l (b : list Z) i : (off + length l <= length b)%nat ->
  set_bytes off l b !! i = if decide (off <= i < off + length l)%nat then l !! (i - off)%nat else b !! i.
Proof.
  intros H. unfold set_bytes. destruct (decide (i < off)%nat) as [Hi|Hi].
  - rewrite lookup_app_l by (rewrite length_take; lia). rewrite lookup_take_lt by done. by rewrite decide_False by lia.
  - rewrite lookup_app_r by (rewrite length_take; lia). rewrite length_take, Nat.min_l by lia. destruct (decide _) as [Hd|Hd].
    + by rewrite lookup_app_l by lia.
    + rewrite lookup_app_r, lookup_drop by lia. f_equal. lia.
Qed.

Section fields.
Context (n : nat).
Implicit Types (fs : list (nat * list Z)) (b : list Z).

Definition fields_below fs : Prop := Forall (fun f => f.1 + length f.2 <= n)%nat fs.

Lemma set_fields_length fs b : fields_below fs -> (n <= length b)%nat -> length (set_fields fs b) = length b.
Proof.
  intros H. revert b. induction H as [|[o l] fs Ho _ IH]; intros b Hb; [done|]. cbn in Ho. change (set_fields ((o, l) :: fs) b) with (set_fields fs (set_bytes o l b)).
  assert (length (set_bytes o l b) = length b) by (apply set_bytes_length; lia). rewrite IH; lia.
Qed.

(** A byte that no field covers stays. *)
Lemma set_fields_other fs b i : fields_below fs -> (n <= length b)%nat -> i ∉ positions fs -> set_fields fs b !! i = b !! i.
Proof.
  intros H. revert b. induction H as [|[o l] fs Ho _ IH]; intros b Hb Hi; [done|]. cbn in Ho. unfold positions in Hi. cbn in Hi.
  apply not_elem_of_app in Hi as [Hi1 Hi2]. rewrite elem_of_seq in Hi1. change (set_fields ((o, l) :: fs) b) with (set_fields fs (set_bytes o l b)).
  assert (length (set_bytes o l b) = length b) by (apply set_bytes_length; lia). rewrite IH by (done || lia). rewrite set_bytes_lookup by lia. by rewrite decide_False by lia.
Qed.

Lemma set_fields_get fs b o l : fields_below fs -> (n <= length b)%nat -> NoDup (positions fs) -> (o, l) ∈ fs ->
  take (length l) (drop o (set_fields fs b)) = l.
Proof.
  intros H. revert b. induction H as [|[o' l'] fs Ho Hfs IH]; intros b Hb Hnd Hin; [by apply elem_of_nil in Hin|]. cbn in Ho. unfold positions in Hnd. cbn in Hnd.
  change (set_fields ((o', l') :: fs) b) with (set_fields fs (set_bytes o' l' b)). apply NoDup_app in Hnd as (_ & Hd & Hnd).
  assert (Lb : length (set_bytes o' l' b) = length b) by (apply set_bytes_length; lia).
  apply elem_of_cons in Hin as [[= -> ->]|Hin]; [|by apply IH; rewrite ?Lb].
  assert (E : forall i, (i < length l')%nat -> set_fields fs (set_bytes o' l' b) !! (o' + i)%nat = l' !! i).
  { intros i Hi. rewrite set_fields_other; [|done|lia|apply Hd, elem_of_seq; lia].
    rewrite set_bytes_lookup by lia. rewrite decide_True by lia. f_equal. lia. }
  apply list_eq_same_length with (n := length l'); [done| |].
  - rewrite length_take, length_drop, set_fields_length by (done || lia). lia.
  - intros i x y Hi. rewrite lookup_take_lt, lookup_drop, E by done. congruence.
Qed.

Lemma set_fields_tail fs b : fields_below fs -> (n <= length b)%nat -> drop n (set_fields fs b) = drop n b.
Proof.
  intros H Hb. apply list_eq. intros i. rewrite !lookup_drop. apply set_fields_other; [done|done|].
  intros (x & (f & <- & Hf)%in_map_iff & Hx%in_seq)%list_elem_of_In%in_concat. apply list_elem_of_In in Hf.
  eapply Forall_forall in H; [|exact Hf]. cbn in H. lia.
Qed.

Lemma set_bytes_bytes o l b : Forall is_byte l -> Forall is_byte b -> Forall is_byte (set_bytes o l b).
Proof. intros Hl Hb. unfold set_bytes. rewrite !Forall_app. split_and!; [by apply Forall_take|done|by apply Forall_drop]. Qed.

Lemma set_fields_bytes fs b : Forall (fun f => Forall is_byte f.2) fs -> Forall is_byte b -> Forall is_byte (set_fields fs b).
Proof. intros H. revert b. induction H as [|[o l] fs Hl _ IH]; intros b Hb; [done|]. by apply IH, set_bytes_bytes. Qed.
End fields.

(** Fields in a part of a block. *)
Lemma set_bytes_app off l (a r c : list Z) : (off + length l <= length r)%nat ->
  set_bytes (length a + off) l (a ++ r ++ c) = a ++ set_bytes off l r ++ c.
Proof.
  intros H. unfold set_bytes. rewrite <- Nat.add_assoc, take_app_add', drop_app_add', take_app_le, drop_app_le by lia.
  by rewrite <- !app_assoc.
Qed.

Definition shift (k : nat) (fs : list (nat * list Z)) : list (nat * list Z) := (fun f => ((k + f.1)%nat, f.2)) <$> fs.

Lemma set_fields_app fs (a r c : list Z) : fields_below (length r) fs ->
  set_fields (shift (length a) fs) (a ++ r ++ c) = a ++ set_fields fs r ++ c.
Proof.
  intros H. remember (length r) as n eqn:En. revert r En. induction H as [|[o l] fs Ho _ IH]; intros r ->; [done|]. cbn in Ho.
  change (set_fields (shift (length a) ((o, l) :: fs)) (a ++ r ++ c)) with (set_fields (shift (length a) fs) (set_bytes (length a + o) l (a ++ r ++ c))).
  rewrite set_bytes_app by lia. apply IH. by rewrite set_bytes_length.
Qed.

(** Fields that follow each other. *)
Fixpoint ordered (o : nat) (fs : list (nat * list Z)) : Prop :=
  match fs with [] => True | f :: fs => (o <= f.1)%nat /\ ordered (f.1 + length f.2) fs end.

Lemma ordered_above o fs i : ordered o fs -> i ∈ positions fs -> (o <= i)%nat.
Proof.
  revert o. induction fs as [|[o' l] fs IH]; intros o Ho Hi; [by apply elem_of_nil in Hi|]. destruct Ho as [Ho1 Ho2]. cbn in Ho1, Ho2.
  unfold positions in Hi. cbn in Hi. apply elem_of_app in Hi as [Hi%elem_of_seq|Hi]; [lia|]. specialize (IH _ Ho2 Hi). lia.
Qed.

Lemma ordered_disjoint o fs : ordered o fs -> NoDup (positions fs).
Proof.
  revert o. induction fs as [|[o' l] fs IH]; intros o Ho; [constructor|]. destruct Ho as [_ Ho]. cbn in Ho.
  unfold positions. cbn. apply NoDup_app. split_and!; [apply NoDup_seq| |by eapply IH].
  intros i Hi%elem_of_seq Hi'. pose proof (ordered_above _ _ _ Ho Hi'). lia.
Qed.

(** ** Inodes *)

Record gfs2_inum := mkInum { no_formal_ino : Z; no_addr : Z }.

(** The fields of [struct gfs2_dinode] that are not in [inode]. *)
Record dinode := mkDi {
  mh_magic : Z; mh_type : Z; mh_format : Z;
  di_formal_ino : Z;                (* [di_num.no_formal_ino] *)
  di_mode : Z; di_uid : Z; di_gid : Z; di_nlink : Z;
  di_atime : Z; di_mtime : Z; di_ctime : Z;
  di_major : Z; di_minor : Z;
  di_flags : Z; di_payload_format : Z;
  di_depth : Z; di_entries : Z;
  di_eattr : Z; di_reserved : list Z
}.

(** Where the fields are. *)
Record dinode_format := mkDn {
  dn_formal : nat; dn_addr : nat; dn_mode : nat; dn_uid : nat; dn_gid : nat; dn_nlink : nat; dn_size : nat; dn_blocks : nat;
  dn_atime : nat; dn_mtime : nat; dn_ctime : nat; dn_major : nat; dn_minor : nat; dn_goal_meta : nat; dn_goal_data : nat;
  dn_flags : nat; dn_payload_format : nat; dn_height : nat; dn_depth : nat; dn_entries : nat; dn_eattr : nat; dn_reserved : nat
}.

Section dinode.
Context (ff : file_format) (dn : dinode_format).

Local Abbreviation be := (store BigEndian).

Definition dinode_fields (ip : inode) (di : dinode) : list (nat * list Z) :=
  let H := ff_head ff in
  [(f_magic H, be 4 (mh_magic di)); (f_type H, be 4 (mh_type di)); (f_format H, be 4 (mh_format di));
   (f_pad0 H, be 8 0); (f_pad1 H, be 4 0);
   (dn_formal dn, be 8 (di_formal_ino di)); (dn_addr dn, be 8 (i_addr ip));
   (dn_mode dn, be 4 (di_mode di)); (dn_uid dn, be 4 (di_uid di)); (dn_gid dn, be 4 (di_gid di)); (dn_nlink dn, be 4 (di_nlink di));
   (dn_size dn, be 8 (di_size ip)); (dn_blocks dn, be 8 (di_blocks ip));
   (dn_atime dn, be 8 (di_atime di)); (dn_mtime dn, be 8 (di_mtime di)); (dn_ctime dn, be 8 (di_ctime di));
   (dn_major dn, be 4 (di_major di)); (dn_minor dn, be 4 (di_minor di));
   (dn_goal_meta dn, be 8 (di_goal_meta ip)); (dn_goal_data dn, be 8 (di_goal_data ip));
   (dn_flags dn, be 4 (di_flags di)); (dn_payload_format dn, be 4 (di_payload_format di));
   (dn_height dn, be 2 (Z.of_nat (di_height ip))); (dn_depth dn, be 2 (di_depth di)); (dn_entries dn, be 4 (di_entries di));
   (dn_eattr dn, be 8 (di_eattr di)); (dn_reserved dn, di_reserved di)].

Definition gfs2_dinode_out (ip : inode) (di : dinode) (b : block) : block := set_fields (dinode_fields ip di) b.

Definition gfs2_dinode_in (b : block) : inode * dinode :=
  (mkInode (be_get 8 (dn_addr dn) b) b (be_get 8 (dn_size dn) b) (Z.to_nat (be_get 2 (dn_height dn) b))
     (be_get 8 (dn_blocks dn) b) (be_get 8 (dn_goal_data dn) b) (be_get 8 (dn_goal_meta dn) b),
   let H := ff_head ff in
   mkDi (be_get 4 (f_magic H) b) (be_get 4 (f_type H) b) (be_get 4 (f_format H) b)
     (be_get 8 (dn_formal dn) b) (be_get 4 (dn_mode dn) b) (be_get 4 (dn_uid dn) b) (be_get 4 (dn_gid dn) b) (be_get 4 (dn_nlink dn) b)
     (be_get 8 (dn_atime dn) b) (be_get 8 (dn_mtime dn) b) (be_get 8 (dn_ctime dn) b) (be_get 4 (dn_major dn) b) (be_get 4 (dn_minor dn) b)
     (be_get 4 (dn_flags dn) b) (be_get 4 (dn_payload_format dn) b) (be_get 2 (dn_depth dn) b) (be_get 4 (dn_entries dn) b)
     (be_get 8 (dn_eattr dn) b) (take 32 (drop (dn_reserved dn) b))).

(** The values have the widths of their types. *)
Record dinode_range (ip : inode) (di : dinode) : Prop := {
  dr_head : in_u 32 (mh_magic di) /\ in_u 32 (mh_type di) /\ in_u 32 (mh_format di);
  dr_ip : in_u 64 (i_addr ip) /\ in_u 64 (di_size ip) /\ in_u 64 (di_blocks ip) /\ in_u 64 (di_goal_meta ip) /\ in_u 64 (di_goal_data ip) /\
    in_u 16 (Z.of_nat (di_height ip));
  dr_64 : in_u 64 (di_formal_ino di) /\ in_u 64 (di_atime di) /\ in_u 64 (di_mtime di) /\ in_u 64 (di_ctime di) /\ in_u 64 (di_eattr di);
  dr_32 : in_u 32 (di_mode di) /\ in_u 32 (di_uid di) /\ in_u 32 (di_gid di) /\ in_u 32 (di_nlink di) /\ in_u 32 (di_major di) /\
    in_u 32 (di_minor di) /\ in_u 32 (di_flags di) /\ in_u 32 (di_payload_format di) /\ in_u 32 (di_entries di);
  dr_16 : in_u 16 (di_depth di);
  dr_reserved : length (di_reserved di) = 32%nat /\ Forall is_byte (di_reserved di)
}.

(** The fields do not overlap and are inside of the structure. *)
Definition sample_fields : list (nat * list Z) :=
  dinode_fields (mkInode 0 [] 0 0 0 0 0) (mkDi 0 0 0 0 0 0 0 0 0 0 0 0 0 0 0 0 0 0 (replicate 32 0)).
Record dinode_layout : Prop := {
  dl_disjoint : NoDup (positions sample_fields);
  dl_inside : fields_below (ff_dinode ff) sample_fields
}.

Definition spans (fs : list (nat * list Z)) : list (nat * nat) := (fun f => (f.1, length f.2)) <$> fs.

Lemma positions_spans fs : positions fs = concat ((fun s => seq s.1 s.2) <$> spans fs).
Proof. unfold positions, spans. by rewrite <- list_fmap_compose. Qed.

Lemma below_spans k fs : fields_below k fs <-> Forall (fun s => s.1 + s.2 <= k)%nat (spans fs).
Proof. unfold spans. by rewrite Forall_fmap. Qed.

Lemma fields_spans ip di : length (di_reserved di) = 32%nat -> spans (dinode_fields ip di) = spans sample_fields.
Proof. intros H. unfold spans, sample_fields, dinode_fields. cbn [fmap list_fmap fst snd]. rewrite !store_length. by rewrite H. Qed.

Context (L : dinode_layout).

Lemma fields_disjoint ip di : length (di_reserved di) = 32%nat -> NoDup (positions (dinode_fields ip di)).
Proof using L. intros H. rewrite positions_spans, (fields_spans ip di H), <- positions_spans. apply L. Qed.

Lemma fields_inside ip di : length (di_reserved di) = 32%nat -> fields_below (ff_dinode ff) (dinode_fields ip di).
Proof using L.
  intros H. apply below_spans. rewrite (fields_spans ip di H). apply below_spans, L.
Qed.

Section out.
Context (ip : inode) (di : dinode) (b : block) (R : dinode_range ip di) (Hb : (ff_dinode ff <= length b)%nat).

Lemma out_length : length (gfs2_dinode_out ip di b) = length b.
Proof using L R Hb. eapply set_fields_length; [apply fields_inside, R|done]. Qed.

(** Nothing behind the structure changes. *)
Lemma out_tail : drop (ff_dinode ff) (gfs2_dinode_out ip di b) = drop (ff_dinode ff) b.
Proof using L R Hb. apply set_fields_tail; [apply fields_inside, R|done]. Qed.

Lemma out_bytes off l : (off, l) ∈ dinode_fields ip di -> take (length l) (drop off (gfs2_dinode_out ip di b)) = l.
Proof using L R Hb. apply (set_fields_get (ff_dinode ff)); [apply fields_inside, R|done|apply fields_disjoint, R]. Qed.

Lemma out_get n off v : (off, store BigEndian n v) ∈ dinode_fields ip di -> in_u (8 * Z.of_nat n) v ->
  be_get n off (gfs2_dinode_out ip di b) = v.
Proof using L R Hb.
  intros Hin Hv. apply be_get_field; [done|]. unfold field.
  pose proof (out_bytes _ _ Hin) as E. by rewrite store_length in E.
Qed.

Lemma out_fields : Forall (fun f => take (length f.2) (drop f.1 (gfs2_dinode_out ip di b)) = f.2) (dinode_fields ip di).
Proof using L R Hb. apply Forall_forall. intros [off l] Hin. by apply out_bytes. Qed.

Lemma out_in : gfs2_dinode_in (gfs2_dinode_out ip di b) = (ip_set_data ip (gfs2_dinode_out ip di b), di).
Proof using L R Hb.
  pose proof out_fields as F. destruct R. destruct_and?. unfold dinode_fields in F.
  unfold gfs2_dinode_in. set (b' := gfs2_dinode_out ip di b) in *.
  repeat (apply Forall_cons in F as [?F F]; cbn [fst snd] in * ). rewrite ?store_length in *.
  repeat match goal with E : take ?n (drop ?o b') = store BigEndian ?n ?v |- _ =>
    assert (be_get n o b' = v) by (apply be_get_field; [first [assumption|done]|exact E]); clear E end.
  repeat match goal with E : be_get ?n ?o b' = _ |- _ => rewrite E; clear E end.
  match goal with E : length (di_reserved di) = _ |- _ => rewrite E in * end.
  match goal with E : take 32 (drop _ b') = _ |- _ => rewrite E end. rewrite Nat2Z.id. by destruct ip, di.
Qed.
End out.
End dinode.
