(* ===== verification/Gfs2Dir.v ===== *)
(** * libgfs2: directories

    The directory part of [src/gfs2/libgfs2/fs_ops.c].  The entries of a directory are records
    in the block of its inode or, when they do not fit there, in leaves, which a table in the
    file of the directory gives for the first bits of the hash of a name.  The table is read
    and written as a file ([Gfs2File]).

    The places of the fields come from a header of the kernel and are parameters.  A pointer to
    an entry is its place in the block; touching an entry outside of the block is a fault. *)

From stdpp Require Import functions.
From S2P Require Import Prelude PlockWire DiskHash Gfs2Field Gfs2Log Gfs2Bits Gfs2Rgrp Gfs2File Gfs2Dinode.
Open Scope Z_scope.

(** Places and constants of [gfs2_ondisk.h]. *)
Record dir_format := mkDf {
  df_size : nat;                    (* [sizeof(struct gfs2_dirent)] *)
  de_formal : nat; de_addr : nat;   (* [de_inum] *)
  de_hash : nat; de_rec_len : nat; de_name_len : nat; de_type : nat;
  GFS2_DIRENT_SIZE : Z -> Z;
  lf_size : nat;                    (* [sizeof(struct gfs2_leaf)] *)
  lf_depth : nat; lf_entries : nat; lf_dirent_format : nat; lf_next : nat;
  de_pad : nat; de_pad_len : nat;   (* [__pad] *)
  df_dinode : dinode_format;
  GFS2_METATYPE_LF : Z; GFS2_FORMAT_LF : Z; GFS2_FORMAT_DE : Z;
  GFS2_METATYPE_DI : Z; GFS2_FORMAT_DI : Z;
  GFS2_DIF_EXHASH : Z; GFS2_DIF_JDATA : Z;
  GFS2_FNAMESIZE : Z;
  IF2DT : Z -> Z
}.

Inductive dir_type := IS_LEAF | IS_DINODE.

(** The results of a search: found, with the entry before; -1; and [-ENOENT]. *)
Inductive search := Found (pos : nat) (prev : option nat) | Failed | NoEntry.

Section entries.
Context (ff : file_format) (df : dir_format) (bsize : Z).

(** ** Entries of a block *)

Definition is_leaf (b : block) : bool := be_get 4 (f_type (ff_head ff)) b =? GFS2_METATYPE_LF df.

Definition gfs2_dirent_first (b : block) : dir_type * nat :=
  if is_leaf b then (IS_LEAF, lf_size df) else (IS_DINODE, ff_dinode ff).

Definition in_block (b : block) (pos : nat) : bool := (pos + df_size df <=? length b)%nat.

Definition gfs2_dirent_next (b : block) (pos : nat) : option nat :=
  let cur_rec_len := be_get 2 (pos + de_rec_len df) b in
  if (cur_rec_len =? 0) || (Z.of_nat pos + cur_rec_len >=? bsize) then None
  else Some (pos + Z.to_nat cur_rec_len)%nat.

Definition entry_count (type : dir_type) (b : block) : Z :=
  match type with
  | IS_LEAF => be_get 2 (lf_entries df) b
  | IS_DINODE => be_get 4 (dn_entries (df_dinode df)) b
  end.

(** The place that is taken: an entry that is not used, or the end of one that is longer than
    it needs to be. *)
Definition dirent_take (b : block) (pos : nat) (name_len : Z) : res (block * nat) :=
  let cur_rec_len := be_get 2 (pos + de_rec_len df) b in
  let cur_name_len := be_get 2 (pos + de_name_len df) b in
  if c_true (be_get 8 (pos + de_formal df) b) then
    let used := GFS2_DIRENT_SIZE df cur_name_len in
    let new := (pos + Z.to_nat used)%nat in
    if negb (in_block b new) then Fault else
    let new_rec_len := u16 (cur_rec_len - used) in
    let b := take new b ++ replicate (df_size df) 0 ++ drop (new + df_size df) b in
    let b := be_set 2 (new + de_rec_len df) new_rec_len b in
    let b := be_set 2 (new + de_name_len df) (u16 name_len) b in
    mret (be_set 2 (pos + de_rec_len df) (u16 (cur_rec_len - new_rec_len)) b, new)
  else mret (be_set 2 (pos + de_name_len df) (u16 name_len) b, pos).

Definition dirent_fits (b : block) (pos : nat) (rec_len : Z) : bool :=
  let cur_rec_len := be_get 2 (pos + de_rec_len df) b in
  let cur_name_len := be_get 2 (pos + de_name_len df) b in
  (negb (c_true (be_get 8 (pos + de_formal df) b)) && (cur_rec_len >=? rec_len)) ||
  (cur_rec_len >=? GFS2_DIRENT_SIZE df cur_name_len + rec_len).

(** Every round goes on by at least one byte. *)
Fixpoint dirent_alloc_from (fuel : nat) (b : block) (pos : nat) (name_len : Z) : res (option (block * nat)) :=
  match fuel with
  | O => Fault
  | S fuel' =>
      if negb (in_block b pos) then Fault
      else if dirent_fits b pos (GFS2_DIRENT_SIZE df name_len) then r ← dirent_take b pos name_len; mret (Some r)
      else
        match gfs2_dirent_next b pos with
        | None => mret None
        | Some pos => dirent_alloc_from fuel' b pos name_len
        end
  end.

(** The block and the place of the entry, or [-ENOSPC]; with a place, [di_entries] goes up. *)
Definition dirent_alloc (b : block) (name_len : Z) : res (option (block * nat)) :=
  let '(type, pos) := gfs2_dirent_first b in
  if entry_count type b =? 0 then
    if negb (in_block b pos) then Fault
    else mret (Some (be_set 2 (pos + de_name_len df) (u16 name_len)
                       (be_set 2 (pos + de_rec_len df) (u16 (bsize - Z.of_nat pos)) b), pos))
  else dirent_alloc_from (length b) b pos name_len.

(** Without the change of [di_entries]. *)
Definition dirent2_del (b : block) (prev : option nat) (cur : nat) : block :=
  let b := if gfs2_check_meta (ff_head ff) b (GFS2_METATYPE_LF df)
           then be_set 2 (lf_entries df) (u16 (be_get 2 (lf_entries df) b - 1)) b else b in
  match prev with
  | None => be_set 8 (cur + de_formal df) 0 b
  | Some prev =>
      be_set 2 (prev + de_rec_len df) (u16 (be_get 2 (prev + de_rec_len df) b + be_get 2 (cur + de_rec_len df) b)) b
  end.

Definition gfs2_filecmp (file1 : list Z) (file2 : list Z) (len_of_file2 : Z) : bool :=
  (Z.of_nat (length file1) =? len_of_file2) && bool_decide (file1 = take (Z.to_nat len_of_file2) file2).

Fixpoint leaf_search_from (fuel : nat) (b : block) (name : list Z) (hash entries x : Z) (prev : option nat) (pos : nat) : res search :=
  match fuel with
  | O => Fault
  | S fuel' =>
      let next x prev :=
        match gfs2_dirent_next b pos with
        | None => mret NoEntry
        | Some pos => leaf_search_from fuel' b name hash entries x prev pos
        end in
      if negb (in_block b pos) then Fault
      else if negb (c_true (be_get 8 (pos + de_formal df) b)) then next x (Some pos)
      else
        let name_len := be_get 2 (pos + de_name_len df) b in
        if (be_get 4 (pos + de_hash df) b =? hash) && gfs2_filecmp name (drop (pos + df_size df) b) name_len
        then mret (Found pos prev)
        else if x >=? entries then mret Failed
        else next (x + 1) (Some pos)
  end.

Definition leaf_search (b : block) (name : list Z) (len : Z) : res search :=
  let '(type, pos) := gfs2_dirent_first b in
  leaf_search_from (length b) b name (gfs2_disk_hash (take (Z.to_nat len) name)) (entry_count type b) 0 None pos.

(** What is written into an entry. *)
Definition dirent_fill (b : block) (pos : nat) (inum : gfs2_inum) (hash type : Z) (name : list Z) : res block :=
  if (length b <? pos + df_size df + length name)%nat then Fault
  else
    let b := be_set 8 (pos + de_addr df) (no_addr inum) (be_set 8 (pos + de_formal df) (no_formal_ino inum) b) in
    let b := be_set 2 (pos + de_type df) (u16 type) (be_set 4 (pos + de_hash df) hash b) in
    mret (take (pos + df_size df) b ++ name ++ drop (pos + df_size df + length name) b).

Definition gfs2_inum_in (b : block) (pos : nat) : gfs2_inum :=
  mkInum (be_get 8 (pos + de_formal df) b) (be_get 8 (pos + de_addr df) b).
End entries.

(** ** Directories *)

(** [<sys/stat.h>] *)
Definition S_IFMT : Z := 61440.
Definition S_IFDIR : Z := 16384.
Definition S_ISDIR (mode : Z) : bool := Z.land mode S_IFMT =? S_IFDIR.

Definition di_set_entries (di : dinode) (n : Z) : dinode :=
  let '(mkDi m t f o mode uid gid nl at_ mt ct ma mi fl pf dep _ ea rs) := di in
  mkDi m t f o mode uid gid nl at_ mt ct ma mi fl pf dep n ea rs.
Definition di_set_depth (di : dinode) (n : Z) : dinode :=
  let '(mkDi m t f o mode uid gid nl at_ mt ct ma mi fl pf _ en ea rs) := di in
  mkDi m t f o mode uid gid nl at_ mt ct ma mi fl pf n en ea rs.
Definition di_set_flags (di : dinode) (flags payload : Z) : dinode :=
  let '(mkDi m t f o mode uid gid nl at_ mt ct ma mi _ _ dep en ea rs) := di in
  mkDi m t f o mode uid gid nl at_ mt ct ma mi flags payload dep en ea rs.
Definition di_set_nlink (di : dinode) (n : Z) : dinode :=
  let '(mkDi m t f o mode uid gid _ at_ mt ct ma mi fl pf dep en ea rs) := di in
  mkDi m t f o mode uid gid n at_ mt ct ma mi fl pf dep en ea rs.

(** An inode with its file and its other fields. *)
Record dirst (A : Type) := mkDir { d_file : file A; d_di : dinode }.
Arguments mkDir {A} d_file d_di.
Arguments d_file {A} d.
Arguments d_di {A} d.

(** Each pointer twice. *)
Fixpoint double_ptrs (n : nat) (l : list Z) : list Z :=
  match n with
  | O => []
  | S n' => take 8 l ++ take 8 l ++ double_ptrs n' (drop 8 l)
  end.

Section dirs.
Context {A : Type} `{!Allocator A} (ff : file_format) (df : dir_format) (C : consts) (DC : dir_consts).

Definition d_entries (d : dirst A) : Z := di_entries (d_di d).
Definition d_depth (d : dirst A) : Z := di_depth (d_di d).
Definition d_exhash (d : dirst A) : bool := c_true (Z.land (di_flags (d_di d)) (GFS2_DIF_EXHASH df)).
Definition d_isdir (d : dirst A) : bool := S_ISDIR (di_mode (d_di d)).

Definition readi (d : dirst A) : Z -> Z -> res (file A * list Z) := gfs2_readi ff C (d_isdir d) (d_file d).
Definition writei (d : dirst A) : list Z -> Z -> res (Z * file A) := gfs2_writei ff C (d_isdir d) (d_file d).

Definition with_file (d : dirst A) (st : file A) : dirst A := mkDir st (d_di d).
Definition with_entries (d : dirst A) (n : Z) : dirst A := mkDir (d_file d) (di_set_entries (d_di d) n).
Definition more_entries (d : dirst A) : dirst A := with_entries d (u32 (d_entries d + 1)).
Definition fewer_entries (d : dirst A) : dirst A := if c_true (d_entries d) then with_entries d (d_entries d - 1) else d.

Definition put_disk (d : dirst A) (a : Z) (b : block) : dirst A :=
  with_file d (mkFile (f_alloc (d_file d)) (<[a := b]> (f_disk (d_file d))) (f_ip (d_file d))).
Definition put_inode (d : dirst A) (b : block) : dirst A :=
  with_file d (with_ip (d_file d) (ip_set_data (f_ip (d_file d)) b)).
Definition add_block (d : dirst A) : dirst A := with_file d (with_ip (d_file d) (ip_add_block (f_ip (d_file d)))).

Definition gfs2_get_leaf_nr (d : dirst A) (lindex : Z) : res (dirst A * Z) :=
  '(st, bytes) ← readi d (lindex * 8) 8;
  if negb (length bytes =? 8)%nat then Die else mret (with_file d st, load BigEndian bytes).

Definition gfs2_put_leaf_nr (d : dirst A) (inx leaf_out : Z) : res (dirst A) :=
  '(count, st) ← writei d (store BigEndian 8 leaf_out) (inx * 8);
  if negb (count =? 8) then Die else mret (with_file d st).

(** An empty leaf. *)
Definition new_leaf : block :=
  be_set 4 (lf_dirent_format df) (GFS2_FORMAT_DE df)
    (gfs2_meta_header_out (ff_head ff) (GFS2_MAGIC (ff_head ff)) (GFS2_METATYPE_LF df) (GFS2_FORMAT_LF df) (zero_block C)).

(** *** The table *)

(** From the last block of the table to the first. *)
Fixpoint double_loop (block : nat) (d : dirst A) : res (dirst A) :=
  match block with
  | O => mret d
  | S block' =>
      '(st, buf) ← readi d (Z.of_nat block' * sd_hash_bsize DC) (sd_hash_bsize DC);
      if negb (Z.of_nat (length buf) =? sd_hash_bsize DC) then Die else
      '(count, st) ← writei (with_file d st) (double_ptrs (Z.to_nat (sd_hash_ptrs DC)) buf) (Z.of_nat block' * c_bsize C);
      if negb (count =? c_bsize C) then Die else double_loop block' (with_file d st)
  end.

Definition dir_double_exhash (d : dirst A) : res (dirst A) :=
  d ← double_loop (Z.to_nat (Z.shiftr (di_size (f_ip (d_file d))) (sd_hash_bsize_shift DC))) d;
  mret (mkDir (d_file d) (di_set_depth (d_di d) (u16 (d_depth d + 1)))).

(** *** Splitting a leaf *)

(** Entries with a small hash go from the old leaf to the new one. *)
Fixpoint split_loop (fuel : nat) (d : dirst A) (ob nb : block) (prev : option nat) (dent : nat) (divider : Z) (moved : bool)
    : res (dirst A * block * block * bool) :=
  match fuel with
  | O => Fault
  | S fuel' =>
      if negb (in_block df ob dent) then Fault else
      let next := gfs2_dirent_next df (c_bsize C) ob dent in
      '(d, ob, nb, prev, moved) ←
        (if c_true (be_get 8 (dent + de_formal df) ob) && (be_get 4 (dent + de_hash df) ob <? divider) then
           let name_len := be_get 2 (dent + de_name_len df) ob in
           r ← dirent_alloc ff df (c_bsize C) nb name_len;
           match r with
           | None => Die
           | Some (nb, new) =>
               nb ← dirent_fill df nb new (gfs2_inum_in df ob dent) (be_get 4 (dent + de_hash df) ob)
                      (be_get 2 (dent + de_type df) ob) (take (Z.to_nat name_len) (drop (dent + df_size df) ob));
               let nb := be_set 2 (lf_entries df) (u16 (be_get 2 (lf_entries df) nb + 1)) nb in
               mret (fewer_entries (more_entries d), dirent2_del ff df ob prev dent, nb,
                     match prev with None => Some dent | _ => prev end, true)
           end
         else mret (d, ob, nb, Some dent, moved));
      match next with
      | None => mret (d, ob, nb, moved : bool)
      | Some dent => split_loop fuel' d ob nb prev dent divider moved
      end
  end.

Definition dir_split_leaf (d : dirst A) (lindex leaf_no : Z) : res (dirst A) :=
  '(bn, st) ← meta_alloc (d_file d);
  let d := with_file d st in
  let ob := f_disk (d_file d) leaf_no in
  let len := u32 (Z.shiftl 1 (d_depth d - be_get 2 (lf_depth df) ob)) in
  let half_len := Z.shiftr len 1 in
  let start := Z.land lindex (u32 (Z.lnot (u32 (len - 1)))) in
  let lp := concat (replicate (Z.to_nat half_len) (store BigEndian 8 bn)) in
  '(count, st) ← writei d lp (start * 8);
  if negb (count =? half_len * 8) then Die else
  let d := with_file d st in
  let divider := u32 (Z.shiftl (start + half_len) (32 - d_depth d)) in
  '(d, ob, nb, moved) ← split_loop (length ob) d ob new_leaf None (gfs2_dirent_first ff df ob).2 divider false;
  '(d, nb) ←
    (if moved : bool then mret (d, nb)
     else
       r ← dirent_alloc ff df (c_bsize C) nb 0;
       match r with
       | None => Die
       | Some (nb, new) => mret (more_entries d, be_set 8 (new + de_formal df) 0 nb)
       end);
  let depth := u16 (be_get 2 (lf_depth df) ob + 1) in
  let ob := be_set 2 (lf_depth df) depth ob in
  let nb := be_set 2 (lf_depth df) depth nb in
  mret (put_disk (put_disk (add_block d) leaf_no ob) bn nb).

(** *** Adding an entry *)

(** The entry into a leaf, which is released. *)
Definition fill_leaf (d : dirst A) (leaf_no : Z) (b : block) (pos : nat) (inum : gfs2_inum) (hash type : Z) (name : list Z) : res (dirst A) :=
  b ← dirent_fill df b pos inum hash type name;
  mret (put_disk d leaf_no (be_set 2 (lf_entries df) (u16 (be_get 2 (lf_entries df) b + 1)) b)).

(** A leaf behind the last one of a chain. *)
Definition append_leaf (d : dirst A) (leaf_no : Z) (b : block) (inum : gfs2_inum) (hash type : Z) (name : list Z) : res (dirst A) :=
  '(bn, st) ← meta_alloc (d_file d);
  let nb := be_set 2 (lf_depth df) (be_get 2 (lf_depth df) b) new_leaf in
  r ← dirent_alloc ff df (c_bsize C) nb (Z.of_nat (length name));
  match r with
  | None => Die
  | Some (nb, pos) =>
      let d := put_disk (add_block (more_entries (with_file d st))) leaf_no (be_set 8 (lf_next df) bn b) in
      fill_leaf d bn nb pos inum hash type name
  end.

(** Along a chain; [false] asks for a restart, after a leaf was split or the table doubled. *)
Fixpoint add_to_chain (fuel : nat) (d : dirst A) (lindex leaf_no : Z) (inum : gfs2_inum) (hash type : Z) (name : list Z)
    : res (dirst A * bool) :=
  match fuel with
  | O => Fault
  | S fuel' =>
      let b := f_disk (d_file d) leaf_no in
      r ← dirent_alloc ff df (c_bsize C) b (Z.of_nat (length name));
      match r with
      | Some (b, pos) => d ← fill_leaf (more_entries d) leaf_no b pos inum hash type name; mret (d, true)
      | None =>
          if be_get 2 (lf_depth df) b <? d_depth d then d ← dir_split_leaf d lindex leaf_no; mret (d, false)
          else if d_depth d <? GFS2_DIR_MAX_DEPTH ff then d ← dir_double_exhash d; mret (d, false)
          else if c_true (be_get 8 (lf_next df) b) then
            add_to_chain fuel' d lindex (be_get 8 (lf_next df) b) inum hash type name
          else d ← append_leaf d leaf_no b inum hash type name; mret (d, true)
      end
  end.

Definition leaf_index (d : dirst A) (hash : Z) : Z := if c_true (d_depth d) then Z.shiftr hash (32 - d_depth d) else 0.

Fixpoint dir_e_add (fuel : nat) (d : dirst A) (name : list Z) (inum : gfs2_inum) (type : Z) : res (dirst A) :=
  match fuel with
  | O => Fault
  | S fuel' =>
      let hash := gfs2_disk_hash name in
      let lindex := leaf_index d hash in
      '(d, leaf_no) ← gfs2_get_leaf_nr d lindex;
      '(d, done) ← add_to_chain fuel' d lindex leaf_no inum hash type name;
      if done : bool then mret d else dir_e_add fuel' d name inum type
  end.

(** The place of the last entry of a block. *)
Fixpoint last_entry (fuel : nat) (b : block) (pos : nat) (x entries : Z) : res nat :=
  match fuel with
  | O => Fault
  | S fuel' =>
      if negb (in_block df b pos) then Fault else
      let next x := match gfs2_dirent_next df (c_bsize C) b pos with None => mret pos | Some pos => last_entry fuel' b pos x entries end in
      if negb (c_true (be_get 8 (pos + de_formal df) b)) then next x
      else if u32 (x + 1) =? entries then mret pos else next (u32 (x + 1))
  end.

(** From the inode to a leaf and a table of pointers to it. *)
Definition dir_make_exhash (d : dirst A) : res (dirst A) :=
  '(bn, st) ← meta_alloc (d_file d);
  let d := with_file d st in
  let data := i_data (f_ip (d_file d)) in
  let b := buffer_copy_tail (be_set 2 (lf_entries df) (u16 (d_entries d)) new_leaf) (lf_size df) data (ff_dinode ff) in
  pos ← last_entry (length b) b (gfs2_dirent_first ff df b).2 0 (d_entries d);
  let b := be_set 2 (pos + de_rec_len df)
             (u16 (be_get 2 (pos + de_rec_len df) b + Z.of_nat (ff_dinode ff) - Z.of_nat (lf_size df))) b in
  let d := put_disk d bn b in
  let lp := concat (replicate (Z.to_nat (sd_hash_ptrs DC)) (store BigEndian 8 bn)) in
  if (Z.to_nat (c_bsize C) <? ff_dinode ff + length lp)%nat then Fault else
  let data := take (ff_dinode ff) data ++ lp ++ replicate (Z.to_nat (c_bsize C) - ff_dinode ff - length lp) 0 in
  let ip := ip_add_block (ip_set_size (ip_set_data (f_ip (d_file d)) data) (c_bsize C / 2)) in
  let di := di_set_flags (d_di d) (Z.lor (di_flags (d_di d)) (GFS2_DIF_EXHASH df)) 0 in
  let di := di_set_depth di (u16 (Z.log2 (sd_hash_ptrs DC))) in
  let d := mkDir (with_ip (d_file d) (ip_set_data ip (gfs2_dinode_out ff (df_dinode df) ip di data))) di in
  mret (put_disk d (i_addr ip) (i_data (f_ip (d_file d)))).

Definition dir_l_add (fuel : nat) (d : dirst A) (name : list Z) (inum : gfs2_inum) (type : Z) : res (dirst A) :=
  r ← dirent_alloc ff df (c_bsize C) (i_data (f_ip (d_file d))) (Z.of_nat (length name));
  match r with
  | None => d ← dir_make_exhash d; dir_e_add fuel d name inum type
  | Some (b, pos) =>
      b ← dirent_fill df b pos inum (gfs2_disk_hash name) type name;
      mret (put_inode (more_entries d) b)
  end.

(** The name is the [len] bytes of [filename]. *)
Definition dir_add (fuel : nat) (d : dirst A) (name : list Z) (inum : gfs2_inum) (type : Z) : res (dirst A) :=
  if d_exhash d then dir_e_add fuel d name inum type else dir_l_add fuel d name inum type.

(** *** Looking for an entry *)

(** Along a chain of leaves, for a caller that goes on as long as there is a next one. *)
Fixpoint chain_search (fuel : nat) (d : dirst A) (leaf_no : Z) (name : list Z) (len : Z) : res (search * Z) :=
  match fuel with
  | O => Fault
  | S fuel' =>
      let b := f_disk (d_file d) leaf_no in
      s ← leaf_search ff df (c_bsize C) b name len;
      match s with
      | NoEntry =>
          if c_true (be_get 8 (lf_next df) b) then chain_search fuel' d (be_get 8 (lf_next df) b) name len
          else mret (NoEntry, leaf_no)
      | _ => mret (s, leaf_no)
      end
  end.

(** At the end of the chain the result is the -1 of [get_next_leaf]; a shift of the hash by 32
    is undefined. *)
Definition linked_leaf_search (fuel : nat) (d : dirst A) (name : list Z) (len : Z) : res (search * Z) :=
  let hsize := u32 (Z.shiftl 1 (d_depth d)) in
  if negb (hsize * 8 =? di_size (f_ip (d_file d))) then mret (Failed, 0)
  else if d_depth d =? 0 then Fault else
  let lindex := Z.shiftr (gfs2_disk_hash (take (Z.to_nat len) name)) (32 - d_depth d) in
  '(d, leaf_no) ← gfs2_get_leaf_nr d lindex;
  '(s, leaf_no) ← chain_search fuel d leaf_no name len;
  mret (match s with NoEntry => Failed | _ => s end, leaf_no).

(** What is found: the inode and its type; or the error. *)
Inductive lookup_result := Entry (inum : gfs2_inum) (type : Z) | LookupFailed | LookupNone.

Definition entry_at (b : block) (s : search) : lookup_result :=
  match s with
  | Found pos _ => Entry (gfs2_inum_in df b pos) (be_get 2 (pos + de_type df) b)
  | Failed => LookupFailed
  | NoEntry => LookupNone
  end.

Definition dir_e_search (fuel : nat) (d : dirst A) (name : list Z) (len : Z) : res lookup_result :=
  '(s, leaf_no) ← linked_leaf_search fuel d name len;
  mret (entry_at (f_disk (d_file d) leaf_no) s).

Definition dir_l_search (d : dirst A) (name : list Z) (len : Z) : res lookup_result :=
  if negb (di_height (f_ip (d_file d)) =? 0)%nat then mret LookupFailed else
  let b := i_data (f_ip (d_file d)) in
  s ← leaf_search ff df (c_bsize C) b name len;
  mret (entry_at b s).

Definition dir_search (fuel : nat) (d : dirst A) (name : list Z) (len : Z) : res lookup_result :=
  if negb (d_isdir d) then mret LookupFailed
  else if d_exhash d then dir_e_search fuel d name len else dir_l_search d name len.

(** *** Removing an entry *)

(** The results 0, 1 and -1. *)
Inductive del_result := Deleted | NotThere | DelFailed.

(** All pointers of the table from the last one on. *)
Fixpoint dir_e_del_from (fuel n : nat) (d : dirst A) (name : list Z) (len : Z) : res (dirst A * del_result) :=
  match n with
  | O => mret (d, NotThere)
  | S n' =>
      '(d, leaf_no) ← gfs2_get_leaf_nr d (Z.of_nat n');
      if leaf_no =? 0 then dir_e_del_from fuel n' d name len else
      '(s, leaf_no) ← chain_search fuel d leaf_no name len;
      match s with
      | Found cur prev =>
          mret (put_disk (fewer_entries d) leaf_no (dirent2_del ff df (f_disk (d_file d) leaf_no) prev cur), Deleted)
      | Failed => mret (d, DelFailed)
      | NoEntry => dir_e_del_from fuel n' d name len
      end
  end.

Definition dir_e_del (fuel : nat) (d : dirst A) (name : list Z) (len : Z) : res (dirst A * del_result) :=
  dir_e_del_from fuel (Z.to_nat (Z.shiftl 1 (d_depth d))) d name len.

Definition dir_l_del (d : dirst A) (name : list Z) (len : Z) : res (dirst A * del_result) :=
  if negb (di_height (f_ip (d_file d)) =? 0)%nat then mret (d, DelFailed) else
  let b := i_data (f_ip (d_file d)) in
  s ← leaf_search ff df (c_bsize C) b name len;
  mret
    match s with
    | Found cur prev => (put_inode (fewer_entries d) (dirent2_del ff df b prev cur), Deleted)
    | Failed => (d, DelFailed)
    | NoEntry => (d, NotThere)
    end.

Definition gfs2_dirent_del (fuel : nat) (d : dirst A) (name : list Z) (len : Z) : res (dirst A * del_result) :=
  if negb (d_isdir d) then mret (d, DelFailed)
  else if d_exhash d then dir_e_del fuel d name len else dir_l_del d name len.

(** *** Inodes *)

(** The inode of a block, and the state of a process that has opened it. *)
Definition inode_get (a : A) (dk : disk) (b : block) : dirst A :=
  let '(ip, di) := gfs2_dinode_in ff (df_dinode df) b in mkDir (mkFile a dk ip) di.

Definition inode_read (a : A) (dk : disk) (di_addr : Z) : dirst A := inode_get a dk (dk di_addr).

(** [modified] and [owned] are [b_modified] and [bh_owned]. *)
Definition inode_put (modified owned : bool) (d : dirst A) : A * disk :=
  let ip := f_ip (d_file d) in
  let b := gfs2_dinode_out ff (df_dinode df) ip (d_di d) (i_data ip) in
  (f_alloc (d_file d), if modified && owned then <[i_addr ip := b]> (f_disk (d_file d)) else f_disk (d_file d)).

(** An entry of a new directory, with its name. *)
Definition dirent_fields (inum : gfs2_inum) (hash rec_len name_len type : Z) : list (nat * list Z) :=
  [(de_formal df, store BigEndian 8 (no_formal_ino inum)); (de_addr df, store BigEndian 8 (no_addr inum));
   (de_hash df, store BigEndian 4 hash); (de_rec_len df, store BigEndian 2 rec_len); (de_name_len df, store BigEndian 2 name_len);
   (de_type df, store BigEndian 2 type); (de_pad df, replicate (de_pad_len df) 0)].

Definition gfs2_dirent_out (pos : nat) (inum : gfs2_inum) (hash rec_len name_len type : Z) (b : block) : block :=
  set_fields (shift pos (dirent_fields inum hash rec_len name_len type)) b.

Definition dot : list Z := [46].
Definition dotdot : list Z := [46; 46].

Definition init_entries (inum parent : gfs2_inum) (b : block) : block :=
  let type := u16 (IF2DT df S_IFDIR) in
  let rec_len := u16 (GFS2_DIRENT_SIZE df 1) in
  let first := ff_dinode ff in
  let second := (first + Z.to_nat rec_len)%nat in
  let b := gfs2_dirent_out first inum (gfs2_disk_hash dot) rec_len 1 type b in
  let b := set_bytes (first + df_size df) dot b in
  let b := gfs2_dirent_out second parent (gfs2_disk_hash dotdot) (u16 (c_bsize C - Z.of_nat (ff_dinode ff) - rec_len)) 2 type b in
  set_bytes (second + df_size df) dotdot b.

Definition init_dinode (inum : gfs2_inum) (mode flags time : Z) (parent : gfs2_inum) : block :=
  let ip size := mkInode (no_addr inum) [] size 0 1 (no_addr inum) (no_addr inum) in
  let di nlink flags payload entries :=
    mkDi (GFS2_MAGIC (ff_head ff)) (GFS2_METATYPE_DI df) (GFS2_FORMAT_DI df) (no_formal_ino inum) mode 0 0 nlink time time time 0 0
      flags payload 0 entries 0 (replicate 32 0) in
  if S_ISDIR mode then
    gfs2_dinode_out ff (df_dinode df) (ip (c_bsize C - Z.of_nat (ff_dinode ff)))
      (di 2 (Z.lor flags (GFS2_DIF_JDATA df)) (GFS2_FORMAT_DE df) 2) (init_entries inum parent (zero_block C))
  else gfs2_dinode_out ff (df_dinode df) (ip 0) (di 1 flags 0 0) (zero_block C).

(** The inode that is found, the directory itself for its name, or the error. *)
Inductive lookupi_result := Self | Inode (d : dirst A) | NameTooLong | Missing | LookupError.

Definition gfs2_lookupi (fuel : nat) (d : dirst A) (name : list Z) (len : Z) : res lookupi_result :=
  if negb (c_true len) || (GFS2_FNAMESIZE df <? len) then mret NameTooLong
  else if gfs2_filecmp name dot 1 then mret Self
  else
    r ← dir_search fuel d name len;
    mret
      match r with
      | Entry inum _ => Inode (inode_read (f_alloc (d_file d)) (f_disk (d_file d)) (no_addr inum))
      | LookupFailed => LookupError
      | LookupNone => Missing
      end.

(** The inode: an old one, or a new one. *)
Inductive created := Old (i : lookupi_result) | New (i : dirst A).

Definition add_link (d : dirst A) : dirst A := mkDir (d_file d) (di_set_nlink (d_di d) (u32 (di_nlink (d_di d) + 1))).

(** [next] is [md.next_inum]. *)
Definition createi (dinode_alloc : A -> res (Z * A)) (fuel : nat) (time : Z) (d : dirst A) (next : Z) (filename : list Z) (mode flags : Z)
    : res (dirst A * Z * created) :=
  r ← gfs2_lookupi fuel d filename (Z.of_nat (length filename));
  match r with
  | Self | Inode _ => mret (d, next, Old r)
  | _ =>
      '(bn, a) ← dinode_alloc (f_alloc (d_file d));
      let d := with_file d (mkFile a (f_disk (d_file d)) (f_ip (d_file d))) in
      let inum := mkInum next bn in
      d ← dir_add fuel d filename inum (IF2DT df mode);
      let d := if S_ISDIR mode then add_link d else d in
      let b := init_dinode inum mode flags time (mkInum (di_formal_ino (d_di d)) (i_addr (f_ip (d_file d)))) in
      mret (d, u64 (next + 1), New (inode_get (f_alloc (d_file d)) (f_disk (d_file d)) b))
  end.
End dirs.
