(* ===== verification/Gfs2DirRec.v ===== *)
(** * Records of directory entries

    A block of entries ([Gfs2Dir]) is a header and records, each as long as it says.  Looking
    for a name, taking a place for an entry, filling it in and removing an entry are described
    as operations on the list of records. *)

From stdpp Require Import functions.
From S2P Require Import Prelude PlockWire DiskHash Gfs2Field Gfs2Log Gfs2Bits Gfs2Rgrp Gfs2File Gfs2FileMap Gfs2Dinode Gfs2Dir.
Open Scope Z_scope.

(** ** Fields in parts of a block *)

Lemma be_get_app n off (a r c : block) : (off + n <= length r)%nat -> be_get n (length a + off) (a ++ r ++ c) = be_get n off r.
Proof.
  intros H. unfold be_get. f_equal. rewrite drop_app_add', drop_app_le by lia. rewrite take_app_le; [done|].
  rewrite length_drop. lia.
Qed.

Lemma be_set_app n off v (a r c : block) : (off + n <= length r)%nat ->
  be_set n (length a + off) v (a ++ r ++ c) = a ++ be_set n off v r ++ c.
Proof.
  intros H. unfold be_set. rewrite <- Nat.add_assoc, take_app_add', drop_app_add', take_app_le, drop_app_le by lia.
  by rewrite <- !app_assoc.
Qed.

Lemma be_get_front n off (a c : block) : (off + n <= length a)%nat -> be_get n off (a ++ c) = be_get n off a.
Proof. intros H. apply (be_get_app n off [] a c H). Qed.

Lemma be_get_set_other n off n' off' v b : (off + n <= off' \/ off' + n' <= off)%nat -> (off + n <= length b)%nat ->
  be_get n' off' (be_set n off v b) = be_get n' off' b.
Proof.
  intros H Hl. unfold be_get. fold (field n' off' (be_set n off v b)) (field n' off' b). f_equal.
  destruct H; [by apply be_set_after|by apply be_set_before].
Qed.

Lemma be_get_set_same n off v b : in_u (8 * Z.of_nat n) v -> (off + n <= length b)%nat -> be_get n off (be_set n off v b) = v.
Proof. intros Hv Hl. apply be_get_field; [done|]. by apply be_set_inside. Qed.

Section records.
Context (ff : file_format) (df : dir_format) (bsize : Z).

(** The fields of an entry follow each other, and an entry has room for its name. *)
Record fields_ok : Prop := {
  fk_order : (de_formal df + 8 <= de_addr df /\ de_addr df + 8 <= de_hash df /\ de_hash df + 4 <= de_rec_len df /\
    de_rec_len df + 2 <= de_name_len df /\ de_name_len df + 2 <= de_type df /\ de_type df + 2 <= df_size df)%nat;
  fk_size : forall n, 0 <= n -> Z.of_nat (df_size df) + n <= GFS2_DIRENT_SIZE df n
}.
Context (K : fields_ok).

Implicit Types (r c hd : block) (l : list block).

Definition rlen r : Z := be_get 2 (de_rec_len df) r.
Definition nlen r : Z := be_get 2 (de_name_len df) r.
Definition formal r : Z := be_get 8 (de_formal df) r.
Definition live r : bool := c_true (formal r).
Definition rname r : list Z := take (Z.to_nat (nlen r)) (drop (df_size df) r).
Definition rhash r : Z := be_get 4 (de_hash df) r.

(** A record is as long as it says, and a used one has room for its name. *)
Record rec_ok r : Prop := {
  ro_len : rlen r = Z.of_nat (length r);
  ro_size : (df_size df <= length r)%nat;
  ro_bytes : Forall is_byte r;
  ro_live : live r = true -> GFS2_DIRENT_SIZE df (nlen r) <= Z.of_nat (length r)
}.

(** A block of records behind a header. *)
Record recs_ok hd l : Prop := {
  rs_recs : Forall rec_ok l;
  rs_some : l <> [];
  rs_length : Z.of_nat (length hd + length (concat l)) = bsize;
  rs_fit : bsize <= 2 ^ 16;
  rs_head : (0 < length hd)%nat
}.

Definition blk hd l : block := hd ++ concat l.
Definition at_ hd l : nat := (length hd + length (concat l))%nat.

Lemma blk_split hd l1 r l2 : blk hd (l1 ++ r :: l2) = (hd ++ concat l1) ++ r ++ concat l2.
Proof. unfold blk. rewrite concat_app. cbn. by rewrite app_assoc. Qed.

Lemma at_length hd l : at_ hd l = length (hd ++ concat l).
Proof. unfold at_. by rewrite length_app. Qed.

Lemma get_rec n off hd l1 r l2 : (off + n <= length r)%nat -> be_get n (at_ hd l1 + off) (blk hd (l1 ++ r :: l2)) = be_get n off r.
Proof. intros H. rewrite blk_split, at_length. by apply be_get_app. Qed.

Lemma set_rec n off v hd l1 r l2 : (off + n <= length r)%nat ->
  be_set n (at_ hd l1 + off) v (blk hd (l1 ++ r :: l2)) = blk hd (l1 ++ be_set n off v r :: l2).
Proof. intros H. rewrite !blk_split, at_length. by apply be_set_app. Qed.

Lemma blk_length hd l : recs_ok hd l -> length (blk hd l) = Z.to_nat bsize.
Proof. intros R. unfold blk. rewrite length_app. pose proof (rs_length _ _ R). lia. Qed.

Lemma rec_in hd l1 r l2 : recs_ok hd (l1 ++ r :: l2) -> rec_ok r.
Proof. intros [R _ _ _ _]. by apply Forall_app in R as [_ [R _]%Forall_cons]. Qed.

Lemma in_block_rec hd l1 r l2 : rec_ok r -> in_block df (blk hd (l1 ++ r :: l2)) (at_ hd l1) = true.
Proof.
  intros R. unfold in_block. apply Nat.leb_le. rewrite blk_split, !length_app, at_length, length_app. pose proof (ro_size _ R). lia.
Qed.

Lemma next_rec hd l1 r l2 : recs_ok hd (l1 ++ r :: l2) ->
  gfs2_dirent_next df bsize (blk hd (l1 ++ r :: l2)) (at_ hd l1) = match l2 with [] => None | _ => Some (at_ hd (l1 ++ [r])) end.
Proof using K.
  intros R. pose proof (rec_in _ _ _ _ R) as Ro. pose proof (ro_len _ Ro) as Rl. pose proof (ro_size _ Ro) as Rs.
  pose proof (rs_length _ _ R) as Rt. destruct K as [Ko _]. unfold gfs2_dirent_next. rewrite get_rec by lia. fold (rlen r).
  rewrite Rl. rewrite (proj2 (Z.eqb_neq _ _)) by lia. cbn [orb]. rewrite concat_app, length_app in Rt. cbn [concat] in Rt.
  rewrite length_app in Rt. unfold at_. destruct l2 as [|r2 l2].
  - cbn in Rt. assert ((Z.of_nat (length hd + length (concat l1)) + Z.of_nat (length r) >=? bsize) = true) as ->; [|done].
    apply Z.geb_le. lia.
  - cbn [concat] in Rt. rewrite length_app in Rt. pose proof (rs_recs _ _ R) as Rr.
    apply Forall_app in Rr as [_ [_ [R2 _]%Forall_cons]%Forall_cons]. pose proof (ro_size _ R2).
    assert ((Z.of_nat (length hd + length (concat l1)) + Z.of_nat (length r) >=? bsize) = false) as ->.
    { destruct (_ >=? _) eqn:E; [|done]. apply Z.geb_le in E. lia. }
    f_equal. rewrite concat_app, length_app. cbn. rewrite app_nil_r. lia.
Qed.

Lemma app_snoc l1 r l2 : l1 ++ r :: l2 = (l1 ++ [r]) ++ l2.
Proof. by rewrite <- app_assoc. Qed.

(** ** Searching *)

Definition matches (name : list Z) (hash : Z) r : bool :=
  live r && (rhash r =? hash) && bool_decide (rname r = name).

Lemma name_room r : rec_ok r -> live r = true -> (df_size df + Z.to_nat (nlen r) <= length r)%nat.
Proof using K.
  intros R Hl. pose proof (ro_live _ R Hl). assert (0 <= nlen r) by (apply (be_get_bytes 2), R). pose proof (fk_size K (nlen r)). lia.
Qed.

Lemma filecmp_rec name hd l1 r l2 : rec_ok r -> live r = true ->
  gfs2_filecmp name (drop (at_ hd l1 + df_size df) (blk hd (l1 ++ r :: l2))) (nlen r) = bool_decide (rname r = name).
Proof using K.
  intros R Hl. pose proof (name_room r R Hl) as Hn. assert (0 <= nlen r) by (apply (be_get_bytes 2), R).
  assert (E : take (Z.to_nat (nlen r)) (drop (at_ hd l1 + df_size df) (blk hd (l1 ++ r :: l2))) = rname r).
  { rewrite blk_split, at_length, drop_app_add', drop_app_le by lia. unfold rname. rewrite take_app_le; [done|]. rewrite length_drop. lia. }
  unfold gfs2_filecmp. rewrite E. assert (Ln : length (rname r) = Z.to_nat (nlen r)).
  { unfold rname. rewrite length_take, length_drop. lia. }
  destruct (decide (rname r = name)) as [<-|Hne].
  - rewrite !bool_decide_true by done. rewrite (proj2 (Z.eqb_eq _ _)) by lia. done.
  - rewrite !bool_decide_false by congruence. apply andb_false_r.
Qed.

Definition lives l : nat := length (filter (fun r => live r = true) l).

Lemma lives_cons r l : lives (r :: l) = ((if live r then 1 else 0) + lives l)%nat.
Proof.
  unfold lives. destruct (live r) eqn:E; [by rewrite filter_cons_True|by rewrite filter_cons_False by congruence].
Qed.

(** The place of the record before. *)
Definition prev_of hd l1 : option nat :=
  match l1 with [] => None | _ => Some (at_ hd (removelast l1)) end.

Lemma prev_snoc hd l r : prev_of hd (l ++ [r]) = Some (at_ hd l).
Proof. unfold prev_of. destruct (l ++ [r]) eqn:E; [by destruct l|]. rewrite <- E. by rewrite removelast_last. Qed.

Lemma search_from hd name hash entries l1 l2 x fuel : recs_ok hd (l1 ++ l2) -> l2 <> [] ->
  x + Z.of_nat (lives l2) <= entries -> (length l2 <= fuel)%nat ->
  leaf_search_from df bsize fuel (blk hd (l1 ++ l2)) name hash entries x (prev_of hd l1) (at_ hd l1) =
    match list_find (fun r => matches name hash r = true) l2 with
    | Some (i, _) => Ok (Found (at_ hd (l1 ++ take i l2)) (prev_of hd (l1 ++ take i l2)))
    | None => Ok NoEntry
    end.
Proof using K.
  revert l1 x fuel. induction l2 as [|r l2 IH]; intros l1 x fuel R Hne Hx Hf; [done|]. destruct fuel as [|fuel]; [cbn in Hf; lia|].
  pose proof (rec_in _ _ _ _ R) as Ro. pose proof (ro_size _ Ro). pose proof (fk_order K) as Ko. cbn [length] in Hf.
  cbn [leaf_search_from]. rewrite (in_block_rec hd l1 r l2 Ro), !get_rec by lia. cbn [negb].
  fold (formal r) (nlen r) (rhash r). fold (live r). rewrite (next_rec hd l1 r l2 R).
  assert (N : forall x', x' + Z.of_nat (lives l2) <= entries -> matches name hash r = false ->
    match match l2 with [] => None | _ => Some (at_ hd (l1 ++ [r])) end with
    | None => mret NoEntry
    | Some pos => leaf_search_from df bsize fuel (blk hd (l1 ++ r :: l2)) name hash entries x' (Some (at_ hd l1)) pos
    end = match list_find (fun r => matches name hash r = true) (r :: l2) with
          | Some (i, _) => Ok (Found (at_ hd (l1 ++ take i (r :: l2))) (prev_of hd (l1 ++ take i (r :: l2))))
          | None => Ok NoEntry end).
  { intros x' Hx' Hm. cbn [list_find]. rewrite decide_False by congruence. destruct l2 as [|r2 l2]; [done|].
    rewrite app_snoc in R |- *. rewrite <- prev_snoc with (r := r). rewrite IH by (done || lia).
    destruct (list_find _ _) as [[i ?]|]; [|done]. cbn. by rewrite <- app_snoc. }
  rewrite lives_cons in Hx. destruct (live r) eqn:El; cbn [negb].
  - rewrite (filecmp_rec name hd l1 r l2 Ro El).
    assert (Em : matches name hash r = (rhash r =? hash) && bool_decide (rname r = name)) by (unfold matches; by rewrite El).
    rewrite <- Em. destruct (matches name hash r) eqn:Eq.
    + cbn [list_find]. rewrite decide_True by exact Eq. cbn. by rewrite app_nil_r.
    + assert ((x >=? entries) = false) as -> by (destruct (_ >=? _) eqn:E; [apply Z.geb_le in E; lia|done]).
      by apply N; [lia|].
  - apply N; [lia|]. unfold matches. by rewrite El.
Qed.

(** ** Taking a place *)

Lemma ds_pos n : 0 <= n -> Z.of_nat (df_size df) + n <= GFS2_DIRENT_SIZE df n.
Proof using K. apply K. Qed.

Definition fits (need : Z) r : bool :=
  (negb (live r) && (rlen r >=? need)) || (rlen r >=? GFS2_DIRENT_SIZE df (nlen r) + need).

(** The record that is left of a used one, and the one behind it. *)
Definition front r : block :=
  let used := GFS2_DIRENT_SIZE df (nlen r) in be_set 2 (de_rec_len df) used (take (Z.to_nat used) r).
Definition back r (n : Z) : block :=
  let used := GFS2_DIRENT_SIZE df (nlen r) in
  be_set 2 (de_name_len df) n (be_set 2 (de_rec_len df) (rlen r - used)
    (replicate (df_size df) 0 ++ drop (Z.to_nat used + df_size df) r)).

Definition slot r (n : Z) : list block * block :=
  if live r then ([front r], back r n) else ([], be_set 2 (de_name_len df) n r).

(** What is needed of a record for a part of [need] bytes. *)
Lemma fits_spec need r : rec_ok r -> 0 <= need -> fits need r = true ->
  if live r then GFS2_DIRENT_SIZE df (nlen r) + need <= Z.of_nat (length r) else need <= Z.of_nat (length r).
Proof using K.
  intros R Hn Hf. unfold fits in Hf. rewrite (ro_len _ R) in Hf.
  assert (0 <= nlen r) by (apply (be_get_bytes 2), R). pose proof (ds_pos (nlen r)).
  destruct (live r); cbn [negb andb orb] in Hf; zbool; lia.
Qed.

Lemma rlen_range r : rec_ok r -> 0 <= rlen r < 2 ^ 16.
Proof. intros R. apply (be_get_bytes 2), R. Qed.

(** The bytes of a block with a record in two parts. *)
Lemma blk_halves hd l1 r l2 k : blk hd (l1 ++ r :: l2) = blk hd (l1 ++ @cons block (take k r) (@cons block (drop k r) l2)).
Proof. rewrite !blk_split. cbn [concat]. rewrite (app_assoc (take k r)), take_drop. done. Qed.

Lemma at_snoc hd l r : at_ hd (l ++ [r]) = (at_ hd l + length r)%nat.
Proof. unfold at_. rewrite concat_app, length_app. cbn. rewrite app_nil_r. lia. Qed.

Lemma zero_rec hd l1 r l2 : (df_size df <= length r)%nat ->
  let b := blk hd (l1 ++ r :: l2) in
  take (at_ hd l1) b ++ replicate (df_size df) 0 ++ drop (at_ hd l1 + df_size df) b =
    blk hd (l1 ++ @cons block (replicate (df_size df) 0 ++ drop (df_size df) r) l2).
Proof.
  intros H. cbv zeta. rewrite !blk_split, at_length, take_app_length, drop_app_add', drop_app_le by lia.
  by rewrite <- !app_assoc.
Qed.

Lemma take_used hd l1 r l2 n : recs_ok hd (l1 ++ r :: l2) -> 0 <= n < 2 ^ 16 -> live r = true ->
  GFS2_DIRENT_SIZE df (nlen r) + GFS2_DIRENT_SIZE df n <= Z.of_nat (length r) ->
  dirent_take df (blk hd (l1 ++ r :: l2)) (at_ hd l1) n =
    Ok (blk hd (l1 ++ front r :: back r n :: l2), at_ hd (l1 ++ [front r])).
Proof using K.
  intros R Hn Hl Hfit. pose proof (rec_in _ _ _ _ R) as Ro. pose proof (rlen_range r Ro) as Hr. pose proof (ro_len _ Ro) as El.
  pose proof (fk_order K) as Ko. pose proof (ro_size _ Ro) as Hs. assert (0 <= nlen r) by (apply (be_get_bytes 2), Ro).
  pose proof (ds_pos (nlen r)) as D1. pose proof (ds_pos n) as D2. unfold dirent_take. rewrite !get_rec by lia.
  fold (formal r) (nlen r) (rlen r). fold (live r). rewrite Hl. set (used := GFS2_DIRENT_SIZE df (nlen r)) in *.
  specialize (D1 ltac:(lia)). specialize (D2 ltac:(lia)).
  set (k := Z.to_nat used).
  assert (exists r1 r2 : block, r1 = take k r /\ r2 = drop k r) as (r1 & r2 & E1 & E2) by eauto. assert (Hk : Z.of_nat k = used) by (unfold k; lia).
  assert (L1 : length r1 = k) by (rewrite E1, length_take; lia).
  assert (L2 : length r2 = (length r - k)%nat) by (rewrite E2, length_drop; lia).
  assert (Ea : (at_ hd l1 + k)%nat = at_ hd (l1 ++ [r1])) by (rewrite at_snoc; lia).
  rewrite (blk_halves hd l1 r l2 k). rewrite <- E1, <- E2, Ea.
  assert (in_block df (blk hd (l1 ++ r1 :: r2 :: l2)) (at_ hd (l1 ++ [r1])) = true) as ->.
  { unfold in_block. apply Nat.leb_le. rewrite (app_snoc l1 r1 (_ :: _)), blk_split, at_length, !length_app. lia. }
  cbn [negb mret res_ret]. rewrite (app_snoc l1 r1 (_ :: _)), zero_rec by lia. unfold wrap.
  rewrite (Z.mod_small (rlen r - used)) by lia.
  rewrite (Z.mod_small n) by lia.
  rewrite (Z.mod_small (rlen r - (rlen r - used))) by lia.
  rewrite !set_rec by (rewrite ?be_set_length; rewrite ?length_app, ?length_replicate, ?length_drop; lia).
  rewrite <- (app_snoc l1 r1), set_rec by lia. unfold front, back. fold used k. rewrite <- E1.
  replace (rlen r - (rlen r - used)) with used by lia. rewrite E2, drop_drop.
  f_equal. f_equal. rewrite !at_snoc. by rewrite be_set_length by lia.
Qed.

Lemma take_free hd l1 r l2 n : recs_ok hd (l1 ++ r :: l2) -> 0 <= n < 2 ^ 16 -> live r = false ->
  dirent_take df (blk hd (l1 ++ r :: l2)) (at_ hd l1) n = Ok (blk hd (l1 ++ be_set 2 (de_name_len df) n r :: l2), at_ hd l1).
Proof using K.
  intros R Hn Hl. pose proof (rec_in _ _ _ _ R) as Ro. pose proof (fk_order K) as Ko. pose proof (ro_size _ Ro) as Hs.
  unfold dirent_take. rewrite !get_rec by lia. fold (formal r). fold (live r). rewrite Hl. unfold wrap.
  rewrite Z.mod_small by lia. by rewrite set_rec by lia.
Qed.

Lemma alloc_from hd n l1 l2 fuel : recs_ok hd (l1 ++ l2) -> l2 <> [] -> 0 <= n < 2 ^ 16 -> (length l2 <= fuel)%nat ->
  dirent_alloc_from df bsize fuel (blk hd (l1 ++ l2)) (at_ hd l1) n =
    match list_find (fun r => fits (GFS2_DIRENT_SIZE df n) r = true) l2 with
    | Some (i, r) => let '(pre, s) := slot r n in
        Ok (Some (blk hd (l1 ++ take i l2 ++ pre ++ s :: drop (S i) l2), at_ hd (l1 ++ take i l2 ++ pre)))
    | None => Ok None
    end.
Proof using K.
  revert l1 fuel. induction l2 as [|r l2 IH]; intros l1 fuel R Hne Hn Hf; [done|]. destruct fuel as [|fuel]; [cbn in Hf; lia|].
  pose proof (rec_in _ _ _ _ R) as Ro. pose proof (ro_size _ Ro). pose proof (fk_order K) as Ko. cbn [length] in Hf.
  cbn [dirent_alloc_from]. rewrite (in_block_rec hd l1 r l2 Ro). cbn [negb]. unfold dirent_fits. rewrite !get_rec by lia.
  fold (formal r) (nlen r) (rlen r). fold (live r). fold (fits (GFS2_DIRENT_SIZE df n) r). cbn [list_find].
  destruct (fits (GFS2_DIRENT_SIZE df n) r) eqn:Ef.
  - rewrite decide_True by done. pose proof (ds_pos n ltac:(lia)). pose proof (fits_spec (GFS2_DIRENT_SIZE df n) r Ro ltac:(lia) Ef) as Hs. unfold slot.
    destruct (live r) eqn:El; [rewrite take_used by done|rewrite take_free by done]; cbn [mbind res_bind mret res_ret take drop app]; rewrite ?app_nil_r; done.
  - rewrite decide_False by done. rewrite (next_rec hd l1 r l2 R). destruct l2 as [|r2 l2]; [done|].
    rewrite app_snoc in R |- *. rewrite IH by (done || lia). destruct (list_find _ _) as [[i s]|]; [|done].
    cbn [fmap option_fmap option_map prod_map fst snd take drop]. change (id s) with s.
    destruct (slot s n) as [pre s']. by rewrite <- !app_assoc.
Qed.

(** ** Entries *)

Definition ent r : list Z * (gfs2_inum * Z) := (rname r, (gfs2_inum_in df r 0, be_get 2 (de_type df) r)).
Definition listing l : list (list Z * (gfs2_inum * Z)) := ent <$> filter (fun r => live r = true) l.
Definition hashed r : Prop := live r = true -> rhash r = gfs2_disk_hash (rname r).

Lemma listing_app l1 l2 : listing (l1 ++ l2) = listing l1 ++ listing l2.
Proof. unfold listing. by rewrite filter_app, fmap_app. Qed.

Lemma listing_cons r l : listing (r :: l) = (if live r then [ent r] else []) ++ listing l.
Proof.
  unfold listing. destruct (live r) eqn:E; [by rewrite filter_cons_True|by rewrite filter_cons_False by congruence].
Qed.

Lemma listing_length l : length (listing l) = lives l.
Proof. unfold listing, lives. by rewrite length_fmap. Qed.

(** Records that agree in their fields and in the bytes of their names. *)
Definition same_entry r r' : Prop := live r' = live r /\ rhash r' = rhash r /\ ent r' = ent r.

Lemma same_listing l1 r r' l2 : same_entry r r' -> listing (l1 ++ r' :: l2) = listing (l1 ++ r :: l2).
Proof. intros (H1 & _ & H3). by rewrite !listing_app, !listing_cons, H1, H3. Qed.

Lemma same_hashed r r' : same_entry r r' -> hashed r -> hashed r'.
Proof.
  intros (H1 & H2 & H3) H Hl. unfold ent in H3. injection H3 as Hn _ _. rewrite H2, Hn. apply H. by rewrite <- H1.
Qed.

Lemma nlen_range r : Forall is_byte r -> 0 <= nlen r < 2 ^ 16.
Proof. intros H. apply (be_get_bytes 2 _ _ H). Qed.

(** A change of the length of a record, and of what is behind its name. *)
Lemma relength r r' v : (df_size df <= length r')%nat -> (df_size df + Z.to_nat (nlen r) <= length r)%nat \/ live r = false ->
  (forall n off, (off + n <= df_size df)%nat -> be_get n off r' = be_get n off r) ->
  (live r = true -> take (Z.to_nat (nlen r)) (drop (df_size df) r') = rname r) ->
  live r = true -> same_entry r (be_set 2 (de_rec_len df) v r').
Proof using K.
  intros Hs Hn Hf Hname Hl. pose proof (fk_order K) as Ko. set (q := be_set 2 (de_rec_len df) v r').
  assert (Hq : forall n off, (off + n <= df_size df)%nat -> (off + n <= de_rec_len df \/ de_rec_len df + 2 <= off)%nat ->
    be_get n off q = be_get n off r).
  { intros n off H1 H2. unfold q. rewrite be_get_set_other by lia. by apply Hf. }
  assert (E1 : formal q = formal r) by (apply Hq; lia). assert (E2 : nlen q = nlen r) by (apply Hq; lia).
  split_and!; [unfold live; by rewrite E1|apply Hq; lia|]. unfold ent, gfs2_inum_in. cbn [Nat.add].
  rewrite !Hq by lia. f_equal. unfold rname at 1. rewrite E2. unfold q. rewrite be_set_drop by lia. by apply Hname.
Qed.

Lemma front_ok r n : rec_ok r -> live r = true -> 0 <= n -> GFS2_DIRENT_SIZE df (nlen r) + GFS2_DIRENT_SIZE df n <= Z.of_nat (length r) ->
  rec_ok (front r) /\ same_entry r (front r) /\ length (front r) = Z.to_nat (GFS2_DIRENT_SIZE df (nlen r)).
Proof using K.
  intros R Hl Hn Hfit. pose proof (fk_order K) as Ko. pose proof (nlen_range r (ro_bytes _ R)) as Hnl.
  pose proof (ds_pos (nlen r) ltac:(lia)) as D1. pose proof (ds_pos n Hn) as D2. pose proof (rlen_range r R) as Hr.
  rewrite (ro_len _ R) in Hr. unfold front. set (used := GFS2_DIRENT_SIZE df (nlen r)) in *. set (k := Z.to_nat used).
  assert (Hk : Z.of_nat k = used) by (unfold k; lia).
  assert (Lk : length (take k r) = k) by (rewrite length_take; lia).
  assert (Sm : same_entry r (be_set 2 (de_rec_len df) used (take k r))).
  { apply relength; [lia|left; lia| | |done].
    - intros m off Ho. rewrite <- (take_drop k r) at 2. by rewrite be_get_front by lia.
    - intros _. unfold rname. rewrite !take_drop_commute. rewrite take_take. do 2 f_equal. lia. }
  assert (Lf : length (be_set 2 (de_rec_len df) used (take k r)) = k) by (rewrite be_set_length; lia).
  split_and!; [|done|done]. destruct Sm as (_ & _ & Se). split.
  - unfold rlen. rewrite be_get_set_same by (unfold in_u; lia). lia.
  - lia.
  - apply be_set_bytes, Forall_take, R.
  - intros _. rewrite Lf. assert (nlen (be_set 2 (de_rec_len df) used (take k r)) = nlen r) as ->; [|fold used; lia].
    unfold nlen. rewrite be_get_set_other by lia. rewrite <- (take_drop k r) at 2. by rewrite be_get_front by lia.
Qed.

(** A place for an entry. *)
Record slot_ok r (n : Z) : Prop := {
  so_len : rlen r = Z.of_nat (length r);
  so_nlen : nlen r = n;
  so_room : GFS2_DIRENT_SIZE df n <= Z.of_nat (length r);
  so_byte : Forall is_byte r
}.

Lemma back_ok r n : rec_ok r -> 0 <= n < 2 ^ 16 -> GFS2_DIRENT_SIZE df (nlen r) + GFS2_DIRENT_SIZE df n <= Z.of_nat (length r) ->
  slot_ok (back r n) n /\ length (back r n) = (length r - Z.to_nat (GFS2_DIRENT_SIZE df (nlen r)))%nat.
Proof using K.
  intros R Hn Hfit. pose proof (fk_order K) as Ko. pose proof (nlen_range r (ro_bytes _ R)) as Hnl.
  pose proof (ds_pos (nlen r) ltac:(lia)) as D1. pose proof (ds_pos n ltac:(lia)) as D2. pose proof (rlen_range r R) as Hr.
  pose proof (ro_len _ R) as El. unfold back. set (used := GFS2_DIRENT_SIZE df (nlen r)) in *.
  set (z := replicate (df_size df) 0 ++ drop (Z.to_nat used + df_size df) r).
  assert (Lz : length z = (length r - Z.to_nat used)%nat) by (unfold z; rewrite length_app, length_replicate, length_drop; lia).
  assert (Bz : Forall is_byte z) by (unfold z; apply Forall_app; split; [apply replicate_bytes|apply Forall_drop, R]).
  assert (Lb : length (be_set 2 (de_rec_len df) (rlen r - used) z) = length z) by (apply be_set_length; lia).
  rewrite be_set_length by lia. split; [|lia]. remember (rlen r - used) as w eqn:Ew. split.
  - unfold rlen. rewrite be_get_set_other by lia. rewrite be_get_set_same by (unfold in_u; lia). rewrite be_set_length by lia. lia.
  - unfold nlen. apply be_get_set_same; [unfold in_u; lia|lia].
  - rewrite be_set_length by lia. lia.
  - by apply be_set_bytes, be_set_bytes.
Qed.

Lemma free_slot_ok r n : rec_ok r -> 0 <= n < 2 ^ 16 -> GFS2_DIRENT_SIZE df n <= Z.of_nat (length r) ->
  slot_ok (be_set 2 (de_name_len df) n r) n /\ length (be_set 2 (de_name_len df) n r) = length r.
Proof using K.
  intros R Hn Hfit. pose proof (fk_order K) as Ko. pose proof (ro_size _ R). rewrite be_set_length by lia. split; [|done]. split.
  - unfold rlen. rewrite be_get_set_other, be_set_length by lia. apply R.
  - unfold nlen. apply be_get_set_same; [unfold in_u; lia|lia].
  - by rewrite be_set_length by lia.
  - apply be_set_bytes, R.
Qed.

(** ** Filling an entry *)

Definition fill_head r (inum : gfs2_inum) (hash type : Z) : block :=
  be_set 2 (de_type df) type (be_set 4 (de_hash df) hash
    (be_set 8 (de_addr df) (no_addr inum) (be_set 8 (de_formal df) (no_formal_ino inum) r))).
Definition fill_rec r (inum : gfs2_inum) (hash type : Z) (name : list Z) : block :=
  let b := fill_head r inum hash type in take (df_size df) b ++ name ++ drop (df_size df + length name) b.

Record inum_ok (inum : gfs2_inum) (type : Z) : Prop := {
  io_formal : in_u 64 (no_formal_ino inum) /\ no_formal_ino inum <> 0;
  io_addr : in_u 64 (no_addr inum);
  io_type : in_u 16 type
}.

Lemma fill_head_length r inum hash type : (df_size df <= length r)%nat -> length (fill_head r inum hash type) = length r.
Proof using K. intros H. pose proof (fk_order K). unfold fill_head. by repeat rewrite be_set_length; try lia. Qed.

Lemma fill_blk hd l1 r l2 inum hash type name : (df_size df + length name <= length r)%nat -> in_u 16 type ->
  dirent_fill df (blk hd (l1 ++ r :: l2)) (at_ hd l1) inum hash type name = Ok (blk hd (l1 ++ fill_rec r inum hash type name :: l2)).
Proof using K.
  intros H Ht. pose proof (fk_order K) as Ko. unfold dirent_fill.
  assert ((length (blk hd (l1 ++ r :: l2)) <? at_ hd l1 + df_size df + length name)%nat = false) as ->.
  { apply Nat.ltb_ge. rewrite blk_split, at_length, !length_app. lia. }
  unfold wrap. rewrite (Z.mod_small type) by (unfold in_u in Ht; lia).
  rewrite set_rec by lia. rewrite set_rec by (rewrite be_set_length; lia).
  rewrite set_rec by (rewrite !be_set_length; rewrite ?be_set_length; lia).
  rewrite set_rec by (repeat rewrite be_set_length; lia). fold (fill_head r inum hash type).
  pose proof (fill_head_length r inum hash type ltac:(lia)) as Lh. cbn [mret res_ret]. f_equal.
  rewrite !blk_split, at_length, <- Nat.add_assoc, take_app_add', drop_app_add', take_app_le, drop_app_le by lia.
  unfold fill_rec. by rewrite <- !app_assoc.
Qed.

Lemma fill_rec_ok r inum name : let hash := gfs2_disk_hash name in forall type,
  slot_ok r (Z.of_nat (length name)) -> inum_ok inum type -> Forall is_byte name -> in_u 32 hash ->
  let q := fill_rec r inum hash type name in
  rec_ok q /\ live q = true /\ hashed q /\ ent q = (name, (inum, type)) /\ length q = length r.
Proof using K.
  intros hash type S [[If Ifn] Ia It] Hn Hh q. pose proof (fk_order K) as Ko. destruct S as [Sl Sn Sr Sb].
  pose proof (ds_pos (Z.of_nat (length name)) ltac:(lia)) as D. set (b := fill_head r inum hash type).
  assert (Lb : length b = length r) by (apply fill_head_length; lia).
  assert (Lq : length q = length r).
  { unfold q, fill_rec. fold b. rewrite !length_app, length_take, length_drop. lia. }
  assert (Hq : forall n off, (off + n <= df_size df)%nat -> be_get n off q = be_get n off b).
  { intros n off Ho. unfold q, fill_rec. fold b. rewrite <- (take_drop (df_size df) b) at 3.
    rewrite !be_get_front by (rewrite length_take; lia). done. }
  assert (B1 : forall n off, (off + n <= de_formal df \/ de_formal df + 8 <= off)%nat -> be_get n off (be_set 8 (de_formal df) (no_formal_ino inum) r) = be_get n off r)
    by (intros n off Ho; apply be_get_set_other; lia).
  assert (Fq : forall n off, (off = de_rec_len df \/ off = de_name_len df) -> n = 2%nat -> be_get n off q = be_get n off r).
  { intros n off Ho ->. rewrite Hq by lia. unfold b, fill_head.
    repeat rewrite be_get_set_other; repeat rewrite be_set_length; lia || done. }
  assert (Ff : formal q = no_formal_ino inum).
  { unfold formal. rewrite Hq by lia. unfold b, fill_head.
    do 3 (rewrite be_get_set_other; [|lia|repeat rewrite be_set_length; lia]). apply be_get_set_same; [done|lia]. }
  assert (Fa : be_get 8 (de_addr df) q = no_addr inum).
  { rewrite Hq by lia. unfold b, fill_head. do 2 (rewrite be_get_set_other; [|lia|repeat rewrite be_set_length; lia]).
    apply be_get_set_same; [done|rewrite be_set_length; lia]. }
  assert (Fh : rhash q = hash).
  { unfold rhash. rewrite Hq by lia. unfold b, fill_head. rewrite be_get_set_other by (repeat rewrite be_set_length; lia).
    apply be_get_set_same; [done|repeat rewrite be_set_length; lia]. }
  assert (Ft : be_get 2 (de_type df) q = type).
  { rewrite Hq by lia. unfold b, fill_head. apply be_get_set_same; [done|repeat rewrite be_set_length; lia]. }
  assert (Fl : live q = true) by (unfold live, c_true; rewrite Ff, (proj2 (Z.eqb_neq _ _)); done).
  assert (Fn : nlen q = Z.of_nat (length name)) by (unfold nlen; rewrite Fq by auto; done).
  assert (Fname : rname q = name).
  { unfold rname. rewrite Fn, Nat2Z.id. unfold q, fill_rec. rewrite drop_app_length' by (rewrite length_take, fill_head_length; lia).
    by rewrite take_app_length. }
  split_and!; [|done|by intros _; rewrite Fh, Fname| |done].
  - split; [unfold rlen; rewrite Fq by auto; rewrite Lq; done|lia| |intros _; rewrite Fn; lia].
    unfold q, fill_rec. rewrite !Forall_app. assert (Forall is_byte b) by (unfold b, fill_head; by repeat apply be_set_bytes).
    split_and!; [by apply Forall_take|done|by apply Forall_drop].
  - unfold ent, gfs2_inum_in. cbn [Nat.add]. rewrite Fname, Ft, Fa. fold (formal q). rewrite Ff. by destruct inum.
Qed.

(** Some records for others of the same length. *)
Lemma recs_replace hd l1 old new l2 : recs_ok hd (l1 ++ old ++ l2) -> Forall rec_ok new -> new <> [] ->
  length (concat new) = length (concat old) -> recs_ok hd (l1 ++ new ++ l2).
Proof.
  intros [R1 R2 R3 R4 R5] Hn Hne Hl. rewrite !Forall_app in R1. destruct R1 as (? & _ & ?). split; [|  | |done|done].
  - by rewrite !Forall_app.
  - by destruct l1, new.
  - rewrite !concat_app, !length_app in *. lia.
Qed.

Lemma hashed_replace l1 old new l2 : Forall hashed (l1 ++ old ++ l2) -> Forall hashed new -> Forall hashed (l1 ++ new ++ l2).
Proof. rewrite !Forall_app. naive_solver. Qed.

Lemma listing_replace l1 old new l2 x : listing new ≡ₚ x ++ listing old -> listing (l1 ++ new ++ l2) ≡ₚ x ++ listing (l1 ++ old ++ l2).
Proof. intros H. rewrite !listing_app, H. solve_Permutation. Qed.

(** The records when an entry is added at the first place that it fits in. *)
Definition added l i r (inum : gfs2_inum) (type : Z) (name : list Z) : list block :=
  let '(pre, s) := slot r (Z.of_nat (length name)) in
  take i l ++ pre ++ fill_rec s inum (gfs2_disk_hash name) type name :: drop (S i) l.

Lemma slot_filled r inum type name : rec_ok r -> hashed r -> let n := Z.of_nat (length name) in
  fits (GFS2_DIRENT_SIZE df n) r = true -> n < 2 ^ 16 ->
  inum_ok inum type -> Forall is_byte name -> in_u 32 (gfs2_disk_hash name) ->
  let new := (slot r n).1 ++ [fill_rec (slot r n).2 inum (gfs2_disk_hash name) type name] in
  slot_ok (slot r n).2 n /\
  Forall rec_ok new /\ Forall hashed new /\ length (concat new) = length r /\ listing new ≡ₚ [(name, (inum, type))] ++ listing [r].
Proof using K.
  intros Ro Hr n Hf Hlen Io Hb H32 new. pose proof (ds_pos n ltac:(lia)) as D.
  pose proof (fits_spec (GFS2_DIRENT_SIZE df n) r Ro ltac:(lia) Hf) as Hs. unfold new, slot. destruct (live r) eqn:Lr; cbn [fst snd app].
  - destruct (front_ok r n Ro Lr ltac:(lia) Hs) as (F1 & F2 & F3). destruct (back_ok r n Ro ltac:(lia) Hs) as (B1 & B2).
    destruct (fill_rec_ok (back r n) inum name type B1 Io Hb H32) as (Q1 & Q2 & Q3 & Q4 & Q5).
    set (q := fill_rec _ _ _ _ _) in *. assert (Lf : live (front r) = true) by (by destruct F2 as [-> _]).
    split_and!; [done|by rewrite !Forall_cons|rewrite !Forall_cons; split; [by eapply same_hashed|done]| |].
    + cbn. rewrite app_nil_r, length_app, F3, Q5, B2. pose proof (nlen_range r (ro_bytes _ Ro)). pose proof (ds_pos (nlen r) ltac:(lia)). lia.
    + rewrite !listing_cons, Lr, Q2, Lf, Q4. destruct F2 as (_ & _ & ->). cbn. solve_Permutation.
  - destruct (free_slot_ok r n Ro ltac:(lia) Hs) as (B1 & B2).
    destruct (fill_rec_ok (be_set 2 (de_name_len df) n r) inum name type B1 Io Hb H32) as (Q1 & Q2 & Q3 & Q4 & Q5).
    set (q := fill_rec _ _ _ _ _) in *. split_and!; [done|by rewrite Forall_singleton|by rewrite Forall_singleton| |].
    + cbn. rewrite app_nil_r. lia.
    + rewrite !listing_cons, Lr, Q2, Q4. done.
Qed.

Lemma added_ok hd l i r inum type name : recs_ok hd l -> Forall hashed l -> l !! i = Some r ->
  fits (GFS2_DIRENT_SIZE df (Z.of_nat (length name))) r = true -> Z.of_nat (length name) < 2 ^ 16 ->
  inum_ok inum type -> Forall is_byte name -> in_u 32 (gfs2_disk_hash name) ->
  let l' := added l i r inum type name in
  recs_ok hd l' /\ Forall hashed l' /\ listing l' ≡ₚ (name, (inum, type)) :: listing l.
Proof using K.
  intros R Hh Hi Hf Hlen Io Hb H32 l'. pose proof (take_drop_middle l i r Hi) as El.
  assert (Ro : rec_ok r) by (pose proof (rs_recs _ _ R) as Rr; by eapply Forall_lookup_1 in Rr).
  assert (Hr : hashed r) by (by eapply Forall_lookup_1 in Hh).
  destruct (slot_filled r inum type name Ro Hr Hf Hlen Io Hb H32) as (_ & N1 & N2 & N3 & N4).
  unfold l', added. destruct (slot r (Z.of_nat (length name))) as [pre s]. cbn [fst snd] in *.
  set (q := fill_rec _ _ _ _ _) in *. clear l' Hi. revert El R Hh. generalize (take i l) (drop (S i) l). intros l1 l2 <- R Hh.
  rewrite (app_assoc pre [q] l2 : pre ++ q :: l2 = _). change (r :: l2) with ([r] ++ l2) in *. split_and!.
  - eapply recs_replace; [exact R|done|by destruct pre|]. rewrite N3. cbn. by rewrite app_nil_r.
  - by eapply hashed_replace.
  - by apply (listing_replace _ _ _ _ [_]).
Qed.

Lemma recs_length l : Forall rec_ok l -> (length l <= length (concat l))%nat.
Proof using K.
  pose proof (fk_order K). induction 1 as [|r l Hr _ IH]; [done|]. cbn. rewrite length_app. pose proof (ro_size _ Hr). lia.
Qed.

(** Adding an entry to the records of a block that has some. *)
Lemma alloc_fill hd inum type name l : recs_ok hd l -> Forall hashed l -> Z.of_nat (length name) < 2 ^ 16 ->
  inum_ok inum type -> Forall is_byte name -> in_u 32 (gfs2_disk_hash name) ->
  let b := blk hd l in let n := Z.of_nat (length name) in
  match list_find (fun r => fits (GFS2_DIRENT_SIZE df n) r = true) l with
  | None => dirent_alloc_from df bsize (length b) b (at_ hd []) n = Ok None
  | Some (i, r) => exists b' pos, dirent_alloc_from df bsize (length b) b (at_ hd []) n = Ok (Some (b', pos)) /\
      dirent_fill df b' pos inum (gfs2_disk_hash name) type name = Ok (blk hd (added l i r inum type name))
  end.
Proof using K.
  intros R Hh Hlen Io Hb H32 b n. assert (Hn : 0 <= n < 2 ^ 16) by lia.
  assert (Hfuel : (length l <= length b)%nat).
  { unfold b, blk. rewrite length_app. pose proof (recs_length l (rs_recs _ _ R)). lia. }
  pose proof (alloc_from hd n [] l (length b) R (rs_some _ _ R) Hn Hfuel) as E. cbn [app] in E. fold b in E. rewrite E. clear E.
  destruct (list_find _ l) as [[i r]|] eqn:Ef; [|done]. apply list_find_Some in Ef as (Hi & Hf & _).
  assert (Ro : rec_ok r) by (pose proof (rs_recs _ _ R) as Rr; by eapply Forall_lookup_1 in Rr).
  assert (Hr : hashed r) by (by eapply Forall_lookup_1 in Hh).
  destruct (slot_filled r inum type name Ro Hr Hf Hlen Io Hb H32) as (S1 & _).
  unfold added. fold n in S1 |- *. destruct (slot r n) as [pre s]. cbn [fst snd app] in *.
  eexists _, _. split; [done|]. rewrite !(app_assoc (take i l) pre). apply fill_blk; [|apply Io].
  pose proof (ds_pos n ltac:(lia)). pose proof (so_room _ _ S1). lia.
Qed.

(** ** Removing an entry *)

Definition killed r : block := be_set 8 (de_formal df) 0 r.
Definition merged p r : block := be_set 2 (de_rec_len df) (rlen p + rlen r) (p ++ r).

Lemma killed_ok r : rec_ok r -> rec_ok (killed r) /\ live (killed r) = false /\ length (killed r) = length r.
Proof using K.
  intros [R1 R2 R3 R4]. pose proof (fk_order K) as Ko. assert (Lk : length (killed r) = length r) by (apply be_set_length; lia).
  assert (Hl : live (killed r) = false) by (unfold live, formal, killed; rewrite be_get_set_same by (done || lia); done).
  split_and!; [|done|done]. split; [|lia|by apply be_set_bytes|congruence].
  rewrite Lk, <- R1. apply be_get_set_other; lia.
Qed.

Lemma merged_ok p r : rec_ok p -> rec_ok r -> Z.of_nat (length p + length r) < 2 ^ 16 ->
  let q := merged p r in
  rec_ok q /\ (hashed p -> hashed q) /\ listing [q] = listing [p] /\ live q = live p /\ length q = (length p + length r)%nat.
Proof using K.
  intros P R Hl q. pose proof (fk_order K) as Ko. pose proof (ro_size _ P) as Sp.
  assert (Lq : length q = (length p + length r)%nat) by (unfold q, merged; rewrite be_set_length; rewrite length_app; lia).
  assert (Hf : forall n off, (off + n <= df_size df)%nat -> be_get n off (p ++ r) = be_get n off p) by (intros; apply be_get_front; lia).
  assert (Hq : forall n off, (off + n <= df_size df)%nat -> (off + n <= de_rec_len df \/ de_rec_len df + 2 <= off)%nat -> be_get n off q = be_get n off p).
  { intros n off H1 H2. unfold q, merged. rewrite be_get_set_other by (rewrite ?length_app; lia). by apply Hf. }
  assert (El : live q = live p) by (unfold live, formal; rewrite Hq by lia; done).
  assert (Sm : live p = true -> same_entry p q).
  { intros Hp. pose proof (name_room p P Hp). apply relength; [rewrite length_app; lia|by left|done| |done].
    intros _. rewrite drop_app_le by lia. rewrite take_app_le; [done|]. rewrite length_drop. lia. }
  split_and!; [|intros Hh Hlq|rewrite !listing_cons, El; destruct (live p); [|done]; by destruct Sm as (_ & _ & ->)|done|done].
  - split; [|lia|apply be_set_bytes, Forall_app; split; [apply P|apply R]|].
    + rewrite Lq. unfold rlen at 1, q, merged. rewrite (ro_len _ P), (ro_len _ R).
      rewrite be_get_set_same; [lia|unfold in_u; lia|rewrite length_app; lia].
    + intros Hlq. rewrite El in Hlq. pose proof (ro_live _ P Hlq). unfold nlen. rewrite Hq by lia. fold (nlen p). lia.
  - by apply (same_hashed p q); [apply Sm; congruence| |].
Qed.

(** The block with a header in which a leaf counts one entry less. *)
Definition del_head hd : block :=
  if gfs2_check_meta (ff_head ff) hd (GFS2_METATYPE_LF df) then be_set 2 (lf_entries df) (u16 (be_get 2 (lf_entries df) hd - 1)) hd else hd.

Record head_ok hd : Prop := {
  ho_magic : (f_magic (ff_head ff) + 4 <= length hd)%nat;
  ho_type : (f_type (ff_head ff) + 4 <= length hd)%nat;
  ho_entries : gfs2_check_meta (ff_head ff) hd (GFS2_METATYPE_LF df) = true -> (lf_entries df + 2 <= length hd)%nat
}.

Lemma del_head_length hd : head_ok hd -> length (del_head hd) = length hd.
Proof. intros H. unfold del_head. destruct (gfs2_check_meta _ _ _) eqn:E; [|done]. by rewrite be_set_length by (by apply (ho_entries _ H)). Qed.

Lemma be_set_head n off v (a c : block) : (off + n <= length a)%nat -> be_set n off v (a ++ c) = be_set n off v a ++ c.
Proof. intros H. apply (be_set_app n off v [] a c H). Qed.

Lemma check_meta_blk hd l t : head_ok hd -> gfs2_check_meta (ff_head ff) (blk hd l) t = gfs2_check_meta (ff_head ff) hd t.
Proof. intros H. unfold gfs2_check_meta, blk. by rewrite !be_get_front by apply H. Qed.

Lemma del_head_blk hd l : head_ok hd ->
  (if gfs2_check_meta (ff_head ff) (blk hd l) (GFS2_METATYPE_LF df)
   then be_set 2 (lf_entries df) (u16 (be_get 2 (lf_entries df) (blk hd l) - 1)) (blk hd l) else blk hd l) = blk (del_head hd) l.
Proof.
  intros H. rewrite (check_meta_blk hd l _ H). unfold del_head. destruct (gfs2_check_meta _ _ _) eqn:E; [|done].
  pose proof (ho_entries _ H E). unfold blk. by rewrite be_get_front, be_set_head by done.
Qed.

Lemma del_first hd r l2 : head_ok hd -> rec_ok r ->
  dirent2_del ff df (blk hd (r :: l2)) None (at_ hd []) = blk (del_head hd) (killed r :: l2).
Proof using K.
  intros H R. pose proof (fk_order K) as Ko. pose proof (ro_size _ R). unfold dirent2_del. rewrite (del_head_blk hd _ H).
  assert (at_ hd [] = at_ (del_head hd) []) as -> by (unfold at_; by rewrite del_head_length).
  apply (set_rec 8 (de_formal df) 0 (del_head hd) [] r l2). lia.
Qed.

Lemma del_merge hd l1 p r l2 : head_ok hd -> recs_ok hd (l1 ++ p :: r :: l2) ->
  dirent2_del ff df (blk hd (l1 ++ p :: r :: l2)) (Some (at_ hd l1)) (at_ hd (l1 ++ [p])) = blk (del_head hd) (l1 ++ merged p r :: l2).
Proof using K.
  intros H Rs. pose proof (rec_in _ _ _ _ Rs) as P. pose proof Rs as Rs'. rewrite app_snoc in Rs'. pose proof (rec_in _ _ _ _ Rs') as R.
  pose proof (fk_order K) as Ko. pose proof (ro_size _ P). pose proof (ro_size _ R). pose proof (rs_length _ _ Rs) as Ln.
  rewrite concat_app, length_app in Ln. cbn [concat] in Ln. rewrite !length_app in Ln. pose proof (rs_fit _ _ Rs). pose proof (rs_head _ _ Rs).
  unfold dirent2_del. rewrite (del_head_blk hd _ H).
  assert (forall l, at_ hd l = at_ (del_head hd) l) as E by (intros l; unfold at_; by rewrite del_head_length).
  rewrite !E. rewrite (get_rec 2 (de_rec_len df) (del_head hd) l1 p (r :: l2)) by lia.
  rewrite (app_snoc l1 p (r :: l2)), (get_rec 2 (de_rec_len df) (del_head hd) (l1 ++ [p]) r l2) by lia.
  fold (rlen p) (rlen r). unfold wrap. rewrite (Z.mod_small (rlen p + rlen r)) by (rewrite (ro_len _ P), (ro_len _ R); lia).
  rewrite <- (app_snoc l1 p (r :: l2)). assert (blk (del_head hd) (l1 ++ p :: r :: l2) = blk (del_head hd) (l1 ++ @cons block (p ++ r) l2)) as ->.
  { rewrite !blk_split. cbn [concat]. by rewrite <- !app_assoc. }
  rewrite set_rec by (rewrite length_app; lia). done.
Qed.

(** The records without an entry. *)
Definition removed l i : list block :=
  match i with
  | O => match l with r :: l => killed r :: l | [] => [] end
  | S j => match drop j l with p :: r :: l2 => take j l ++ merged p r :: l2 | _ => l end
  end.

Lemma recs_head hd hd' l : length hd' = length hd -> recs_ok hd l -> recs_ok hd' l.
Proof. intros E [R1 R2 R3 R4 R5]. split; rewrite ?E; done. Qed.

Lemma removed_recs_ok hd l i r : head_ok hd -> recs_ok hd l -> Forall hashed l -> l !! i = Some r -> live r = true ->
  let l' := removed l i in
  dirent2_del ff df (blk hd l) (prev_of hd (take i l)) (at_ hd (take i l)) = blk (del_head hd) l' /\
  recs_ok (del_head hd) l' /\ Forall hashed l' /\ listing l ≡ₚ ent r :: listing l'.
Proof using K.
  intros H R Hh Hi Hl l'. pose proof (del_head_length hd H) as Ld. unfold l'. destruct i as [|j].
  - destruct l as [|? l2]; [done|]. injection Hi as ->. cbn [removed take prev_of]. pose proof (rec_in _ [] _ _ R) as Ro.
    destruct (killed_ok r Ro) as (K1 & K2 & K3). split_and!; [by apply del_first| | |].
    + apply (recs_head hd); [done|]. apply (recs_replace hd [] [r] [killed r] l2 R); [by apply Forall_singleton|done|]. cbn. by rewrite !app_nil_r.
    + apply Forall_cons in Hh as [_ Hh]. apply Forall_cons. split; [intros ?; congruence|done].
    + by rewrite !listing_cons, Hl, K2.
  - destruct (lookup_lt_is_Some_2 l j) as [p Hp]; [apply lookup_lt_Some in Hi; lia|].
    assert (Ed : drop j l = p :: r :: drop (S (S j)) l) by (by rewrite (drop_S l p j Hp), (drop_S l r (S j) Hi)).
    assert (El : l = take j l ++ p :: r :: drop (S (S j)) l) by (by rewrite <- Ed, take_drop).
    rewrite (take_S_r l j p Hp), prev_snoc. cbn [removed]. rewrite Ed. revert El. generalize (take j l) (drop (S (S j)) l). intros l1 l2 ->.
    pose proof (rec_in _ _ _ _ R) as P. pose proof R as R'. rewrite app_snoc in R'. pose proof (rec_in _ _ _ _ R') as Ro.
    destruct (merged_ok p r P Ro) as (M1 & M2 & M3 & M4 & M5).
    { pose proof (rs_length _ _ R) as Ln. pose proof (rs_fit _ _ R). pose proof (rs_head _ _ R).
      rewrite concat_app, length_app in Ln. cbn [concat] in Ln. rewrite !length_app in Ln. lia. }
    split_and!; [by apply del_merge| | |].
    + apply (recs_head hd); [done|]. apply (recs_replace hd l1 [p; r] [merged p r] l2 R); [by apply Forall_singleton|done|].
      cbn. rewrite !app_nil_r, length_app. lia.
    + apply (hashed_replace l1 [p; r] [merged p r] l2 Hh). apply Forall_singleton, M2. by apply Forall_app in Hh as [_ [Hh _]%Forall_cons].
    + rewrite !listing_app. change (merged p r :: l2) with ([merged p r] ++ l2). rewrite (listing_app [merged p r]), M3, !listing_cons, Hl.
      destruct (live p); cbn; solve_Permutation.
Qed.

(** ** Blocks *)

(** The first entry of a block gets all of it. *)
Definition whole (area : block) (n : Z) : block :=
  be_set 2 (de_name_len df) n (be_set 2 (de_rec_len df) (Z.of_nat (length area)) area).

Lemma whole_ok area n : 0 <= n < 2 ^ 16 -> GFS2_DIRENT_SIZE df n <= Z.of_nat (length area) < 2 ^ 16 -> Forall is_byte area ->
  slot_ok (whole area n) n /\ length (whole area n) = length area.
Proof using K.
  intros Hn Ha Hb. pose proof (fk_order K) as Ko. pose proof (ds_pos n ltac:(lia)) as D. unfold whole.
  set (a := be_set 2 (de_rec_len df) _ area). assert (La : length a = length area) by (apply be_set_length; lia).
  rewrite be_set_length by lia. split; [|done]. split.
  - unfold rlen. rewrite be_get_set_other, be_set_length by lia. unfold a. rewrite be_get_set_same by (unfold in_u; lia). by fold a; rewrite La.
  - unfold nlen. apply be_get_set_same; [unfold in_u; lia|lia].
  - rewrite be_set_length; lia.
  - by apply be_set_bytes, be_set_bytes.
Qed.

(** A block whose records are [l] and whose count is right. *)
Record block_ok hd l : Prop := {
  bo_recs : recs_ok hd l;
  bo_hashed : Forall hashed l;
  bo_first : (gfs2_dirent_first ff df (blk hd l)).2 = length hd;
  bo_count : entry_count df (gfs2_dirent_first ff df (blk hd l)).1 (blk hd l) = Z.of_nat (lives l)
}.

Lemma lives_zero l : lives l = 0%nat -> listing l = [].
Proof. intros H. apply nil_length_inv. by rewrite listing_length. Qed.

(** What a name and an inode need for an entry. *)
Record entry_ok hd (name : list Z) (inum : gfs2_inum) (type : Z) : Prop := {
  eo_name : Forall is_byte name;
  eo_inum : inum_ok inum type;
  eo_hash : in_u 32 (gfs2_disk_hash name);
  eo_size : Z.of_nat (length name) < 2 ^ 16;
  eo_room : GFS2_DIRENT_SIZE df (Z.of_nat (length name)) + Z.of_nat (length hd) <= bsize
}.

Lemma area_bytes l : Forall rec_ok l -> Forall is_byte (concat l).
Proof. induction 1 as [|r l R _ IH]; [done|]. cbn. apply Forall_app. split; [apply R|done]. Qed.

(** The first entry of a block without entries. *)
Lemma fill_empty hd (area : block) name inum type t : entry_ok hd name inum type -> Forall is_byte area ->
  Z.of_nat (length hd + length area) = bsize -> bsize <= 2 ^ 16 -> (0 < length hd)%nat ->
  gfs2_dirent_first ff df (blk hd [area]) = (t, length hd) -> entry_count df t (blk hd [area]) = 0 ->
  exists b' pos q, dirent_alloc ff df bsize (blk hd [area]) (Z.of_nat (length name)) = Ok (Some (b', pos)) /\
    dirent_fill df b' pos inum (gfs2_disk_hash name) type name = Ok (blk hd [q]) /\
    rec_ok q /\ live q = true /\ hashed q /\ ent q = (name, (inum, type)) /\ length q = length area.
Proof using K.
  intros [En Ei Eh Es Er] Hb Ln Hfit Hhd Ef Ec. unfold dirent_alloc. rewrite Ef, Ec. cbn [Z.eqb].
  pose proof (ds_pos (Z.of_nat (length name)) ltac:(lia)) as D. pose proof (fk_order K) as Ko.
  destruct (whole_ok area (Z.of_nat (length name)) ltac:(lia) ltac:(lia) Hb) as [W1 W2].
  destruct (fill_rec_ok (whole area (Z.of_nat (length name))) inum name type W1 Ei En Eh) as (Q1 & Q2 & Q3 & Q4 & Q5).
  set (q := fill_rec _ _ _ _ _) in *.
  assert (in_block df (blk hd [area]) (length hd) = true) as ->.
  { unfold in_block. apply Nat.leb_le. unfold blk. cbn [concat]. rewrite !length_app. cbn. lia. }
  cbn [negb mret res_ret]. eexists _, _, q. split; [done|]. split; [|split_and!; congruence || done].
  assert (Ea : length hd = at_ hd []) by (unfold at_; cbn; lia). rewrite Ea. unfold wrap. rewrite !Z.mod_small by (unfold at_; cbn; lia).
  rewrite (set_rec 2 _ _ hd [] area []) by lia. rewrite (set_rec 2 _ _ hd [] _ []) by (rewrite be_set_length; lia).
  replace (bsize - Z.of_nat (at_ hd [])) with (Z.of_nat (length area)) by (unfold at_; cbn; lia). fold (whole area (Z.of_nat (length name))).
  apply (fill_blk hd [] (whole area _) []); [lia|apply Ei].
Qed.

Lemma dirent_add hd l name inum type : block_ok hd l -> entry_ok hd name inum type ->
  let n := Z.of_nat (length name) in
  (dirent_alloc ff df bsize (blk hd l) n = Ok None /\ lives l <> 0%nat /\ Forall (fun r => fits (GFS2_DIRENT_SIZE df n) r = false) l) \/
  exists b' pos l', dirent_alloc ff df bsize (blk hd l) n = Ok (Some (b', pos)) /\
    dirent_fill df b' pos inum (gfs2_disk_hash name) type name = Ok (blk hd l') /\
    recs_ok hd l' /\ Forall hashed l' /\ listing l' ≡ₚ (name, (inum, type)) :: listing l.
Proof using K.
  intros [R Hh Bf Bc] [En Ei Eh Es Er] n. unfold dirent_alloc. destruct (gfs2_dirent_first ff df (blk hd l)) as [t pos] eqn:Bt. cbn in Bf, Bc. subst pos.
  rewrite Bc. fold n in Es, Er. assert (Hn : 0 <= n < 2 ^ 16) by lia. assert (Dn : n = Z.of_nat (length name)) by done. clearbody n. pose proof (ds_pos n ltac:(lia)) as D. pose proof (rs_length _ _ R) as Ln. pose proof (rs_fit _ _ R) as Hfit. pose proof (rs_head _ _ R) as Hhd.
  destruct (Z.of_nat (lives l) =? 0) eqn:E0; zbool.
  - right. assert (Eb : blk hd l = blk hd (@cons block (concat l) [])) by (unfold blk; cbn; by rewrite app_nil_r). rewrite Eb in Bt, Bc |- *.
    assert (Bz : entry_count df t (blk hd (@cons block (concat l) [])) = 0) by (rewrite <- E0; exact Bc).
    destruct (fill_empty hd (concat l) name inum type t) as (b' & pos & q & E1 & E2 & Q1 & Q2 & Q3 & Q4 & Q5); try done.
    { by split; rewrite <- ?Dn. } { by apply area_bytes, R. }
    rewrite <- Dn in E1. unfold dirent_alloc in E1. rewrite Bt, Bz in E1. cbn [Z.eqb] in E1.
    exists b', pos, [q]. split; [exact E1|]. split_and!; [done| |by apply Forall_singleton|by rewrite listing_cons, Q2, Q4, (lives_zero l) by lia].
    split; [by apply Forall_singleton|done| |done|done]. cbn. rewrite app_nil_r, Q5. lia.
  - assert (Ea : length hd = at_ hd []) by (unfold at_; cbn; lia). rewrite Ea. rewrite Dn in Es. pose proof (alloc_fill hd inum type name l R Hh Es Ei En Eh) as F.
    cbv zeta in F. rewrite <- Dn in F. destruct (list_find _ l) as [[i r]|] eqn:Ef.
    + right. destruct F as (b' & pos & F1 & F2). apply list_find_Some in Ef as (Hi & Hf & _). rewrite Dn in Hf.
      exists b', pos, (added l i r inum type name). split; [done|]. split; [done|]. by apply added_ok.
    + left. split; [done|]. split; [lia|]. apply list_find_None in Ef. eapply Forall_impl; [exact Ef|]. intros r Hr. cbn in Hr. by destruct (fits _ r).
Qed.

(** When no record has the room, nothing is taken. *)
Lemma dirent_full hd l name inum type : block_ok hd l -> entry_ok hd name inum type -> lives l <> 0%nat ->
  Forall (fun r => fits (GFS2_DIRENT_SIZE df (Z.of_nat (length name))) r = false) l ->
  dirent_alloc ff df bsize (blk hd l) (Z.of_nat (length name)) = Ok None.
Proof using K.
  intros [R Hh Bf Bc] [En Ei Eh Es Er] Hl Hf. unfold dirent_alloc. destruct (gfs2_dirent_first ff df (blk hd l)) as [t pos]. cbn in Bf, Bc. subst pos.
  rewrite Bc. destruct (Z.of_nat (lives l) =? 0) eqn:E0; zbool; [lia|]. replace (length hd) with (at_ hd []) by (unfold at_; cbn; lia).
  pose proof (alloc_fill hd inum type name l R Hh Es Ei En Eh) as F. cbv zeta in F. destruct (list_find _ l) as [[i r]|] eqn:Ef; [|done].
  apply list_find_Some in Ef as (Hi & Hr & _). by rewrite (Forall_lookup_1 _ _ _ _ Hf Hi) in Hr.
Qed.

(** The records of a block are given by its bytes. *)
Lemma recs_unique l l' : Forall rec_ok l -> Forall rec_ok l' -> concat l = concat l' -> l = l'.
Proof using K.
  pose proof (fk_order K) as Ho. intros R. revert l'. induction R as [|r l Rr R IH]; intros [|r' l'] R' E; [done| | |];
    cbn in E; [apply Forall_cons in R' as [Rr' _]| |apply Forall_cons in R' as [Rr' R']].
  1, 2: exfalso; apply (f_equal length) in E; cbn in E; rewrite length_app in E.
  - pose proof (ro_size _ Rr'). lia.
  - pose proof (ro_size _ Rr). lia.
  - assert (Hl : rlen r = rlen r').
    { pose proof (ro_size _ Rr). pose proof (ro_size _ Rr'). unfold rlen. rewrite <- (be_get_front 2 _ r (concat l)), E by lia. apply be_get_front. lia. }
    rewrite (ro_len _ Rr), (ro_len _ Rr') in Hl. apply app_inj_1 in E as [-> E]; [|lia]. f_equal. by apply IH.
Qed.

(** Looking for a name among the entries. *)
Lemma matches_spec name r : hashed r -> matches name (gfs2_disk_hash name) r = true <-> live r = true /\ rname r = name.
Proof.
  intros Hh. unfold matches. rewrite !andb_true_iff, Z.eqb_eq, bool_decide_eq_true. split; [tauto|].
  intros [Hl Hn]. split_and!; [done| |done]. rewrite (Hh Hl). by rewrite Hn.
Qed.

Lemma leaf_search_ok hd l name : block_ok hd l ->
  leaf_search ff df bsize (blk hd l) name (Z.of_nat (length name)) =
    match list_find (fun r => matches name (gfs2_disk_hash name) r = true) l with
    | Some (i, _) => Ok (Found (at_ hd (take i l)) (prev_of hd (take i l)))
    | None => Ok NoEntry
    end.
Proof using K.
  intros [R Hh Bf Bc]. unfold leaf_search. destruct (gfs2_dirent_first ff df (blk hd l)) as [t pos]. cbn in Bf, Bc. subst pos.
  rewrite Bc, Nat2Z.id, firstn_all. replace (length hd) with (at_ hd []) by (unfold at_; cbn; lia).
  pose proof (recs_length l (rs_recs _ _ R)).
  apply (search_from hd name (gfs2_disk_hash name) (Z.of_nat (lives l)) [] l 0 (length (blk hd l)));
    [exact R|apply R|lia|unfold blk; rewrite length_app; lia].
Qed.
End records.
