(* ===== verification/Gfs2DirThm.v ===== *)
(** * A directory of libgfs2 is a finite map

    A directory whose entries are in the block of its inode implements a finite map from names
    to inodes, when the inode is put back between changes: looking for a name, adding an entry
    and removing one are the operations of the map. *)

From stdpp Require Import functions gmap.
From S2P Require Import Prelude PlockWire DiskHash Gfs2Field Gfs2Log Gfs2Bits Gfs2Rgrp Gfs2File Gfs2FileMap Gfs2Dinode Gfs2Dir Gfs2DirRec.
Open Scope Z_scope.

Abbreviation entries := (gmap (list Z) (gfs2_inum * Z)).

(** What is said of the layout of entries and inodes. *)
Record dir_layout (ff : file_format) (df : dir_format) : Prop := {
  dy_fields : fields_ok df;
  dy_dinode : dinode_layout ff (df_dinode df);
  dy_leaf : GFS2_METATYPE_LF df <> 0
}.

Lemma di_set_entries_entries di n : di_entries (di_set_entries di n) = n.
Proof. by destruct di. Qed.
Lemma di_set_entries_mode di n : di_mode (di_set_entries di n) = di_mode di.
Proof. by destruct di. Qed.
Lemma di_set_entries_flags di n : di_flags (di_set_entries di n) = di_flags di.
Proof. by destruct di. Qed.
Lemma di_set_entries_type di n : mh_type (di_set_entries di n) = mh_type di.
Proof. by destruct di. Qed.

Lemma range_entries ip di b n : dinode_range ip di -> in_u 32 n -> dinode_range (ip_set_data ip b) (di_set_entries di n).
Proof. intros [? ? ? ? ? ?] Hn. destruct di, ip. split; cbn in *; try done. by destruct_and!. Qed.

Section linear.
Context {A : Type} `{!Allocator A} (ff : file_format) (df : dir_format) (C : consts) (DC : dir_consts) (Y : dir_layout ff df).

Implicit Types (d : dirst A) (m : entries) (hd : block) (l : list block).

Local Abbreviation blk := Gfs2DirRec.blk.
Local Abbreviation dn := (df_dinode df).
Local Abbreviation block_ok := (block_ok ff df (c_bsize C)).
Local Abbreviation recs_ok := (recs_ok df (c_bsize C)).
Local Abbreviation listing := (listing df).
Local Abbreviation hashed := (hashed df).
Local Abbreviation lives := (lives df).

(** A directory with the entries [m], in the block of its inode. *)
Record linear d m : Prop := {
  ln_dir : d_isdir d = true;
  ln_exhash : d_exhash df d = false;
  ln_height : di_height (f_ip (d_file d)) = 0%nat;
  ln_type : mh_type (d_di d) <> GFS2_METATYPE_LF df;
  ln_range : dinode_range (f_ip (d_file d)) (d_di d);
  ln_count : d_entries d = Z.of_nat (size m);
  ln_leaf : is_leaf ff df (i_data (f_ip (d_file d))) = false;
  ln_block : exists hd l, i_data (f_ip (d_file d)) = blk hd l /\ length hd = ff_dinode ff /\ block_ok hd l /\ listing l ≡ₚ map_to_list m
}.

(** ** Putting the inode back *)

Definition reopen d : dirst A :=
  let '(a, dk) := inode_put ff df true true d in inode_read ff df a dk (i_addr (f_ip (d_file d))).

Lemma reopen_eq d : let ip := f_ip (d_file d) in dinode_range ip (d_di d) -> (ff_dinode ff <= length (i_data ip))%nat ->
  let b := gfs2_dinode_out ff dn ip (d_di d) (i_data ip) in
  reopen d = mkDir (mkFile (f_alloc (d_file d)) (<[i_addr ip := b]> (f_disk (d_file d))) (ip_set_data ip b)) (d_di d).
Proof using Y.
  intros ip R Hl b. unfold reopen, inode_put, inode_read, inode_get. fold ip b. cbn [andb]. rewrite disk_insert_eq. unfold b.
  by rewrite (out_in ff dn (dy_dinode _ _ Y)).
Qed.

Lemma listing_count l m : listing l ≡ₚ map_to_list m -> lives l = size m.
Proof. intros H. rewrite <- (listing_length df l), H. apply length_map_to_list. Qed.

Lemma in_fields ip di f : f ∈ dinode_fields ff dn ip di -> length (di_reserved di) = 32%nat -> (f.1 + length f.2 <= ff_dinode ff)%nat.
Proof using Y. intros Hf Hr. pose proof (fields_inside ff dn (dy_dinode _ _ Y) ip di Hr) as H. by eapply Forall_forall in H. Qed.

(** A directory whose count in the block may be an old one. *)
Record pending d m : Prop := {
  pd_dir : d_isdir d = true;
  pd_exhash : d_exhash df d = false;
  pd_height : di_height (f_ip (d_file d)) = 0%nat;
  pd_type : mh_type (d_di d) <> GFS2_METATYPE_LF df;
  pd_range : dinode_range (f_ip (d_file d)) (d_di d);
  pd_count : d_entries d = Z.of_nat (size m);
  pd_block : exists hd l, i_data (f_ip (d_file d)) = blk hd l /\ length hd = ff_dinode ff /\ recs_ok hd l /\ Forall hashed l /\ listing l ≡ₚ map_to_list m
}.

Lemma linear_pending d m : linear d m -> pending d m.
Proof. intros [H1 H2 H3 H4 H5 H6 H7 (hd & l & E & Lh & [B1 B2 _ _] & Hm)]. split; try done. by exists hd, l. Qed.

Lemma pending_reopen d m : pending d m -> linear (reopen d) m.
Proof using Y.
  intros [H1 H2 H3 H4 H5 H6 (hd & l & H7 & H8 & H9 & H10 & H11)]. set (ip := f_ip (d_file d)) in *.
  assert (Hl : (ff_dinode ff <= length (i_data ip))%nat) by (rewrite H7; unfold blk; rewrite length_app; lia).
  pose proof (reopen_eq d H5 Hl) as E. fold ip in E. set (b := gfs2_dinode_out ff dn ip (d_di d) (i_data ip)) in E.
  assert (G : forall n off v, (off, store BigEndian n v) ∈ dinode_fields ff dn ip (d_di d) -> in_u (8 * Z.of_nat n) v -> be_get n off b = v).
  { intros n off v Hf Hv. by apply (out_get ff dn (dy_dinode _ _ Y)). }
  assert (Gt : be_get 4 (f_type (ff_head ff)) b = mh_type (d_di d)) by (apply G; [by apply list_elem_of_lookup_2 with (i := 1%nat)|apply H5]).
  assert (Ge : be_get 4 (dn_entries dn) b = di_entries (d_di d)) by (apply G; [by apply list_elem_of_lookup_2 with (i := 24%nat)|apply H5]).
  assert (Lf : is_leaf ff df b = false) by (unfold is_leaf; rewrite Gt; by apply Z.eqb_neq).
  assert (Eb : b = blk (take (ff_dinode ff) b) l).
  { unfold blk. rewrite <- (take_drop (ff_dinode ff) b) at 1. f_equal. unfold b. rewrite (out_tail ff dn (dy_dinode _ _ Y)) by done.
    rewrite H7. unfold blk. by rewrite drop_app_length'. }
  assert (Lb : length b = length (i_data ip)) by (by apply (out_length ff dn (dy_dinode _ _ Y))).
  assert (Lt : length (take (ff_dinode ff) b) = ff_dinode ff) by (rewrite length_take; lia).
  clear G. clearbody b. rewrite E. split; cbn; try done; [by destruct H5|]. exists (take (ff_dinode ff) b), l. split_and!; [done|done| |done].
  split; [apply (recs_head df (c_bsize C) hd); [congruence|done]|done| |]; rewrite <- Eb; unfold gfs2_dirent_first; rewrite Lf; [done|].
  cbn [entry_count fst]. rewrite Ge, (listing_count l m H11). exact H6.
Qed.

(** ** The operations *)

Lemma head_layout (ip : inode) di hd : length (di_reserved di) = 32%nat -> length hd = ff_dinode ff -> is_leaf ff df hd = false -> head_ok ff df hd.
Proof using Y.
  intros Hr Hl Hf. assert (F : forall k f, dinode_fields ff dn ip di !! k = Some f -> (f.1 + length f.2 <= length hd)%nat).
  { intros k f Hk. rewrite Hl. eapply in_fields; [by eapply list_elem_of_lookup_2|done]. }
  split.
  - pose proof (F 0%nat _ eq_refl) as G. cbn [fst snd] in G. by rewrite store_length in G.
  - pose proof (F 1%nat _ eq_refl) as G. cbn [fst snd] in G. by rewrite store_length in G.
  - unfold gfs2_check_meta. unfold is_leaf in Hf. rewrite Hf. unfold c_true. rewrite (proj2 (Z.eqb_neq _ _) (dy_leaf _ _ Y)).
    by rewrite orb_true_r.
Qed.

Lemma lookup_listing l m name v : listing l ≡ₚ map_to_list m -> m !! name = Some v <-> (name, v) ∈ listing l.
Proof. intros H. by rewrite <- elem_of_map_to_list, H. Qed.

Lemma in_listing l e : e ∈ listing l <-> exists r, e = ent df r /\ r ∈ l /\ live df r = true.
Proof. unfold Gfs2DirRec.listing. rewrite list_elem_of_fmap. setoid_rewrite list_elem_of_filter. naive_solver. Qed.

(** Searching the records is looking a name up. *)
Lemma find_lookup l m name : Forall hashed l -> listing l ≡ₚ map_to_list m ->
  match list_find (fun r => matches df name (gfs2_disk_hash name) r = true) l with
  | Some (i, r) => l !! i = Some r /\ live df r = true /\ rname df r = name /\ m !! name = Some (ent df r).2
  | None => m !! name = None
  end.
Proof.
  intros Hh Hm. destruct (list_find _ l) as [[i r]|] eqn:E.
  - apply list_find_Some in E as (Hi & Hr & _). assert (hashed r) by (by eapply Forall_lookup_1 in Hh). apply matches_spec in Hr as [Hl Hn]; [|done].
    split_and!; try done. apply (lookup_listing l m name _ Hm), in_listing. exists r. split_and!; [|by eapply list_elem_of_lookup_2|done].
    unfold ent. cbn. by rewrite Hn.
  - apply eq_None_not_Some. intros [v Hv]. apply (lookup_listing l m name v Hm), in_listing in Hv as (r & Er & Hi & Hl).
    apply list_find_None in E. assert (matches df name (gfs2_disk_hash name) r <> true) as Hn by (by eapply Forall_forall in E).
    apply Hn, matches_spec; [by eapply Forall_forall in Hh|]. split; [done|]. unfold ent in Er. congruence.
Qed.

Definition spec_search m (name : list Z) : lookup_result :=
  match m !! name with Some (inum, type) => Entry inum type | None => LookupNone end.

Lemma linear_search d m fuel name : linear d m -> dir_search ff df C fuel d name (Z.of_nat (length name)) = Ok (spec_search m name).
Proof using Y.
  intros [H1 H2 H3 _ _ _ _ (hd & l & Eb & Lh & B & Hm)]. unfold dir_search, dir_l_search. rewrite H1, H2, H3, Eb. cbn [negb Nat.eqb].
  rewrite (leaf_search_ok ff df (c_bsize C) (dy_fields _ _ Y) hd l name B). pose proof (find_lookup l m name (bo_hashed _ _ _ _ _ B) Hm) as F.
  unfold spec_search. destruct (list_find _ l) as [[i r]|]; [|by rewrite F]. destruct F as (Hi & _ & _ & ->). cbn [mbind res_bind mret res_ret entry_at].
  f_equal. pose proof (take_drop_middle l i r Hi) as El. pose proof (fk_order _ (dy_fields _ _ Y)) as Ko.
  assert (Ro : rec_ok df r) by (pose proof (rs_recs _ _ _ _ (bo_recs _ _ _ _ _ B)) as Rr; by eapply Forall_lookup_1 in Rr). pose proof (ro_size _ _ Ro).
  unfold gfs2_inum_in. rewrite <- El at 2 4 6. by rewrite !get_rec by lia.
Qed.

(** What a name and an inode need. *)
Record new_ok (name : list Z) (inum : gfs2_inum) (type : Z) : Prop := {
  no_name : Forall is_byte name;
  no_inum : inum_ok inum type;
  no_size : Z.of_nat (length name) < 2 ^ 16;
  no_room : GFS2_DIRENT_SIZE df (Z.of_nat (length name)) + Z.of_nat (ff_dinode ff) <= c_bsize C
}.

Lemma lives_bound hd l : recs_ok hd l -> Z.of_nat (lives l) <= 2 ^ 16.
Proof using Y.
  intros R. pose proof (recs_length df (dy_fields _ _ Y) l (rs_recs _ _ _ _ R)). pose proof (rs_length _ _ _ _ R). pose proof (rs_fit _ _ _ _ R).
  pose proof (length_filter (fun r => live df r = true) l). unfold Gfs2DirRec.lives. lia.
Qed.

(** The bytes of a record that its entry, if it has one, does not need. *)
Definition spare (r : list Z) : Z := rlen df r - (if live df r then GFS2_DIRENT_SIZE df (nlen df r) else 0).

(** The block has entries, and the records of the block all have fewer bytes to spare than an
    entry with the name needs. *)
Definition block_full d (name : list Z) : Prop :=
  exists hd l, i_data (f_ip (d_file d)) = blk hd l /\ length hd = ff_dinode ff /\ recs_ok hd l /\ lives l <> 0%nat /\
    Forall (fun r => spare r < GFS2_DIRENT_SIZE df (Z.of_nat (length name))) l.

Lemma spare_fits need r : in_u 16 (nlen df r) -> fits df need r = false <-> spare r < need.
Proof using Y.
  unfold in_u. intros Hn. pose proof (fk_size _ (dy_fields _ _ Y) (nlen df r) ltac:(lia)).
  unfold fits, spare. rewrite orb_false_iff, andb_false_iff, negb_false_iff, !Z.geb_leb, !Z.leb_gt. destruct (live df r).
  { split; [intros [_ ?]; lia|]. intros. split; [by left|lia]. }
  split; [intros [[?|?] ?]; [done|lia]|]. intros. split; [right|]; lia.
Qed.

Lemma spare_all need hd l : recs_ok hd l -> Forall (fun r => fits df need r = false) l <-> Forall (fun r => spare r < need) l.
Proof using Y.
  intros [R _ _ _ _]. rewrite !Forall_forall. rewrite Forall_forall in R. split; intros H r Hr; specialize (H r Hr); specialize (R r Hr); revert H.
  all: apply spare_fits, (be_get_bytes 2), R.
Qed.

(** What adding an entry leaves of the inode. *)
Definition kept d d' : Prop :=
  di_formal_ino (d_di d') = di_formal_ino (d_di d) /\ di_nlink (d_di d') = di_nlink (d_di d) /\ i_addr (f_ip (d_file d')) = i_addr (f_ip (d_file d)).

Lemma linear_add d m fuel name inum type : linear d m -> m !! name = None -> new_ok name inum type ->
  (exists d', dir_add ff df C DC fuel d name inum type = Ok d' /\ pending d' (<[name := (inum, type)]> m) /\ kept d d') \/
  (block_full d name /\
   dir_add ff df C DC fuel d name inum type = (d' ← dir_make_exhash ff df C DC d; dir_e_add ff df C DC fuel d' name inum type)).
Proof using Y.
  intros [H1 H2 H3 H4 H5 H6 H7 (hd & l & Eb & Lh & B & Hm)] Hn [N1 N2 N3 N4]. unfold dir_add, dir_l_add. rewrite H2, Eb.
  assert (En : entry_ok df (c_bsize C) hd name inum type) by (split; [done|done|apply disk_hash_range|done|lia]).
  destruct (dirent_add ff df (c_bsize C) (dy_fields _ _ Y) hd l name inum type B En) as [(-> & Hlv & Hf)|(b & pos & l' & -> & F & R & Hh & Hl)].
  { right. split; [|done]. exists hd, l. split_and!; try done; [apply B|]. by apply (spare_all _ hd); [apply B|]. }
  left. cbn [mbind res_bind]. rewrite F. cbn [mret res_ret]. eexists. split; [done|].
  assert (Hc : listing l' ≡ₚ map_to_list (<[name := (inum, type)]> m)) by (by rewrite Hl, Hm, map_to_list_insert).
  pose proof (lives_bound hd l' R) as Hb. rewrite (listing_count l' _ Hc), map_size_insert_None in Hb by done.
  split; [|unfold kept; cbn; by destruct (d_di d)]. split; cbn; try done; [| | | | |by exists hd, l'].
  - unfold d_isdir. cbn. by rewrite di_set_entries_mode.
  - unfold d_exhash. cbn. by rewrite di_set_entries_flags.
  - by rewrite di_set_entries_type.
  - apply range_entries; [done|]. unfold wrap, in_u. apply Z.mod_pos_bound. lia.
  - unfold d_entries at 1. cbn. rewrite di_set_entries_entries, map_size_insert_None, H6 by done. unfold wrap. rewrite Z.mod_small; lia.
Qed.

(** In a block that is full there is no place to take. *)
Lemma full_alloc d m name inum type : linear d m -> new_ok name inum type -> block_full d name ->
  dirent_alloc ff df (c_bsize C) (i_data (f_ip (d_file d))) (Z.of_nat (length name)) = Ok None.
Proof using Y.
  intros [_ _ _ _ _ _ _ (hd & l & Eb & Lh & B & _)] [N1 N2 N3 N4] (hd' & l' & Eb' & Lh' & R' & Hv & Hf).
  rewrite Eb in Eb'. apply app_inj_1 in Eb' as [<- E]; [|lia].
  apply (recs_unique df (dy_fields _ _ Y)) in E as <-; [|apply B|apply R'].
  rewrite Eb. apply (dirent_full ff df (c_bsize C) (dy_fields _ _ Y) hd l name inum type); try done.
  - split; [done|done|apply disk_hash_range|done|lia].
  - by apply (spare_all _ hd); [apply B|].
Qed.

Lemma linear_full d m fuel name inum type : linear d m -> new_ok name inum type -> block_full d name ->
  dir_add ff df C DC fuel d name inum type = (d' ← dir_make_exhash ff df C DC d; dir_e_add ff df C DC fuel d' name inum type).
Proof using Y.
  intros Ln N F. unfold dir_add, dir_l_add. by rewrite (ln_exhash _ _ Ln), (full_alloc d m name inum type Ln N F).
Qed.

Lemma linear_del d m fuel name : linear d m ->
  exists d', gfs2_dirent_del ff df C fuel d name (Z.of_nat (length name)) = Ok (d', match m !! name with Some _ => Deleted | None => NotThere end) /\
    pending d' (delete name m).
Proof using Y.
  intros Ln. pose proof Ln as [H1 H2 H3 H4 H5 H6 H7 (hd & l & Eb & Lh & B & Hm)]. unfold gfs2_dirent_del, dir_l_del. rewrite H1, H2, H3, Eb. cbn [negb Nat.eqb].
  rewrite (leaf_search_ok ff df (c_bsize C) (dy_fields _ _ Y) hd l name B). pose proof (find_lookup l m name (bo_hashed _ _ _ _ _ B) Hm) as F.
  destruct (list_find _ l) as [[i r]|]; cbn [mbind res_bind mret res_ret].
  - destruct F as (Hi & Hl & Hr & Em). rewrite Em. eexists. split; [done|].
    assert (Hhd : is_leaf ff df hd = false).
    { rewrite Eb in H7. revert H7. unfold is_leaf, blk. rewrite be_get_front; [done|]. rewrite Lh.
      pose proof (in_fields (f_ip (d_file d)) (d_di d) (f_type (ff_head ff), store BigEndian 4 (mh_type (d_di d)))) as G. cbn [fst snd] in G.
      rewrite store_length in G. apply G; [by apply list_elem_of_lookup_2 with (i := 1%nat)|apply H5]. }
    assert (Ho : head_ok ff df hd) by (apply (head_layout (f_ip (d_file d)) (d_di d)); [apply H5|done|done]).
    destruct (removed_recs_ok ff df (c_bsize C) (dy_fields _ _ Y) hd l i r Ho (bo_recs _ _ _ _ _ B) (bo_hashed _ _ _ _ _ B) Hi Hl) as (E & R & Hh & Hp).
    set (l' := removed df l i) in *. rewrite E.
    assert (Hc : listing l' ≡ₚ map_to_list (delete name m)).
    { apply (Permutation_cons_inv (a := ent df r)). rewrite <- Hp, Hm. unfold ent at 1. rewrite Hr.
      symmetry. apply (map_to_list_delete m name (ent df r).2 Em). }
    assert (Hs : size m = S (size (delete name m))) 
      by (rewrite <- (insert_delete_id m name _ Em) at 1; by rewrite map_size_insert_None by apply lookup_delete_eq).
    assert (Ec : c_true (d_entries d) = true) by (unfold c_true; rewrite (proj2 (Z.eqb_neq _ _)); [done|lia]).
    unfold fewer_entries. rewrite Ec. split; cbn; try done; [| | | | |exists (del_head ff df hd), l'; split_and!; [done|by rewrite del_head_length|done|done|done]].
    + unfold d_isdir. cbn. by rewrite di_set_entries_mode.
    + unfold d_exhash. cbn. by rewrite di_set_entries_flags.
    + by rewrite di_set_entries_type.
    + apply range_entries; [done|]. destruct H5 as [_ _ _ D _ _]. unfold d_entries in *. unfold in_u in *. lia.
    + unfold d_entries at 1. cbn. rewrite di_set_entries_entries. lia.
  - rewrite F. eexists. split; [done|]. rewrite delete_id by done.
    by apply linear_pending.
Qed.

(** C16: A directory whose entries are in the block of its inode is a finite map from names to
    inodes, as long as the counts of entries in the inode and in its buffer are equal.  Looking
    for a name gives what the map has, or [-ENOENT].  Adding a name that is not there gives,
    when the inode is put back and read again, the map with the new entry, exactly when the
    block is empty or one of its records has as many bytes to spare as the entry needs;
    otherwise the directory gets a hash table first.  Removing a name gives the map without it,
    and returns 0, or 1 (not 0, as the comment of [gfs2_dirent_del] says) when the name was not
    there. *)
Theorem linear_dir_is_map d m fuel name inum type : linear d m -> new_ok name inum type ->
  dir_search ff df C fuel d name (Z.of_nat (length name)) = Ok (spec_search m name) /\
  (m !! name = None ->
    (~ block_full d name -> exists d', dir_add ff df C DC fuel d name inum type = Ok d' /\ linear (reopen d') (<[name := (inum, type)]> m)) /\
    (block_full d name ->
     dir_add ff df C DC fuel d name inum type = (d' ← dir_make_exhash ff df C DC d; dir_e_add ff df C DC fuel d' name inum type))) /\
  exists d', gfs2_dirent_del ff df C fuel d name (Z.of_nat (length name)) =
      Ok (d', match m !! name with Some _ => Deleted | None => NotThere end) /\ linear (reopen d') (delete name m).
Proof using Y.
  intros Ln N. split; [by apply linear_search|]. split.
  - intros Hn. split; intros Hf.
    + destruct (linear_add d m fuel name inum type Ln Hn N) as [(d' & E & P & _)|[H _]]; [|done].
      exists d'. split; [done|]. by apply pending_reopen.
    + by apply (linear_full d m).
  - destruct (linear_del d m fuel name Ln) as (d' & E & P). exists d'. split; [done|]. by apply pending_reopen.
Qed.
End linear.
