(* ===== verification/Gfs2DirInit.v ===== *)
(** * Creating inodes

    A directory that [init_dinode] makes has the entries of itself and of its parent.  [createi]
    adds a new inode to a directory, or returns the inode that has the name. *)

From stdpp Require Import functions gmap.
From S2P Require Import Prelude PlockWire DiskHash Gfs2Field Gfs2Log Gfs2Bits Gfs2Rgrp Gfs2File Gfs2FileMap Gfs2Dinode Gfs2Dir Gfs2DirRec Gfs2DirThm.
Open Scope Z_scope.

Lemma dots_bytes : Forall is_byte dot /\ Forall is_byte dotdot.
Proof. unfold is_byte, dot, dotdot. rewrite !Forall_cons. split_and!; try done; lia. Qed.

Section init.
Context {A : Type} `{!Allocator A} (ff : file_format) (df : dir_format) (C : consts) (DC : dir_consts) (Y : dir_layout ff df).

(** The sizes and constants that a new directory needs. *)
Record init_layout : Prop := {
  iy_pad : (de_type df + 2 <= de_pad df /\ de_pad df + de_pad_len df <= df_size df)%nat;
  iy_room : Z.of_nat (ff_dinode ff) + GFS2_DIRENT_SIZE df 1 + GFS2_DIRENT_SIZE df 2 <= c_bsize C <= 2 ^ 16;
  iy_dinode : (0 < ff_dinode ff)%nat;
  iy_type : GFS2_METATYPE_DI df <> GFS2_METATYPE_LF df;
  iy_range : in_u 32 (GFS2_MAGIC (ff_head ff)) /\ in_u 32 (GFS2_METATYPE_DI df) /\ in_u 32 (GFS2_FORMAT_DI df) /\
    in_u 32 (GFS2_FORMAT_DE df) /\ in_u 32 (GFS2_DIF_JDATA df);
  iy_flags : Z.land (GFS2_DIF_JDATA df) (GFS2_DIF_EXHASH df) = 0
}.
Context (I : init_layout).

(** A record that is written by [gfs2_dirent_out], with its name. *)
Definition init_rec (z : block) (inum : gfs2_inum) (rec_len type : Z) (name : list Z) : block :=
  set_fields (dirent_fields df inum (gfs2_disk_hash name) rec_len (Z.of_nat (length name)) type ++ [(df_size df, name)]) z.

Lemma init_rec_ok z inum type name : let L := Z.of_nat (length z) in
  inum_ok inum type -> Forall is_byte name -> Forall is_byte z -> GFS2_DIRENT_SIZE df (Z.of_nat (length name)) <= L < 2 ^ 16 ->
  Z.of_nat (length name) < 2 ^ 16 ->
  let r := init_rec z inum L type name in
  rec_ok df r /\ live df r = true /\ hashed df r /\ ent df r = (name, (inum, type)) /\ length r = length z.
Proof using Y I.
  intros L [[If Ifn] Ia It] Hn Hz HL Hlen r. pose proof (fk_order _ (dy_fields _ _ Y)) as Ko. pose proof (iy_pad I) as Kp.
  pose proof (ds_pos df (dy_fields _ _ Y) (Z.of_nat (length name)) ltac:(lia)) as D.
  set (fs := dirent_fields df inum (gfs2_disk_hash name) L (Z.of_nat (length name)) type ++ [(df_size df, name)]).
  assert (Ho : ordered 0 fs) by (unfold fs, dirent_fields; cbn [app ordered fst snd]; rewrite !store_length, length_replicate; lia).
  assert (Hb : fields_below (length z) fs).
  { unfold fields_below, fs, dirent_fields. cbn [app]. repeat (apply Forall_cons; split; [cbn [fst snd]; rewrite ?store_length, ?length_replicate; lia|]). done. }
  assert (Lr : length r = length z) by (by apply (set_fields_length (length z))).
  assert (G : forall k off n v, fs !! k = Some (off, store BigEndian n v) -> in_u (8 * Z.of_nat n) v -> be_get n off r = v).
  { intros k off n v Hk Hv. apply be_get_field; [done|]. unfold field. rewrite <- (store_length n v) at 1.
    apply (set_fields_get (length z)); [done|done|by eapply ordered_disjoint|by eapply list_elem_of_lookup_2]. }
  assert (Ff : formal df r = no_formal_ino inum) by (by apply (G 0%nat)).
  assert (Fa : be_get 8 (de_addr df) r = no_addr inum) by (by apply (G 1%nat)).
  assert (Fh : rhash df r = gfs2_disk_hash name) by (apply (G 2%nat); [done|apply disk_hash_range]).
  assert (Fr : rlen df r = L) by (apply (G 3%nat); [done|unfold in_u; lia]).
  assert (Fn : nlen df r = Z.of_nat (length name)) by (apply (G 4%nat); [done|unfold in_u; lia]).
  assert (Ft : be_get 2 (de_type df) r = type) by (by apply (G 5%nat)).
  assert (Fname : rname df r = name).
  { unfold rname. rewrite Fn, Nat2Z.id. apply (set_fields_get (length z)); [done|done|by eapply ordered_disjoint|].
    by apply list_elem_of_lookup_2 with (i := 7%nat). }
  assert (Fl : live df r = true) by (unfold live, c_true; rewrite Ff, (proj2 (Z.eqb_neq _ _)); done).
  split_and!; [|done|by intros _; rewrite Fh, Fname| |done].
  - split; [rewrite Lr; exact Fr|lia| |intros _; rewrite Fn, Lr; lia]. apply set_fields_bytes; [|done].
    unfold fs, dirent_fields. cbn [app]. repeat (apply Forall_cons; split; [cbn [snd]; first [apply store_bytes|apply replicate_bytes|done]|]). done.
  - unfold ent, gfs2_inum_in. cbn [Nat.add]. rewrite Fname, Ft, Fa. fold (formal df r). rewrite Ff. by destruct inum.
Qed.

(** Writing an entry with its name into a part of a block. *)
Lemma out_rec (a z c : block) inum rec_len type name :
  fields_below (length z) (dirent_fields df inum (gfs2_disk_hash name) rec_len (Z.of_nat (length name)) type) -> (df_size df + length name <= length z)%nat ->
  set_bytes (length a + df_size df) name
    (gfs2_dirent_out df (length a) inum (gfs2_disk_hash name) rec_len (Z.of_nat (length name)) type (a ++ z ++ c)) =
  a ++ init_rec z inum rec_len type name ++ c.
Proof.
  intros Hb Hl. unfold gfs2_dirent_out. rewrite set_fields_app by done. rewrite set_bytes_app by (erewrite set_fields_length; [|exact Hb|done]; done).
  unfold init_rec, set_fields. by rewrite foldl_app.
Qed.

Definition dir_mode_type : Z := u16 (IF2DT df S_IFDIR).

Lemma out_below (z : block) inum hash rec_len name_len type : (df_size df <= length z)%nat -> fields_below (length z) (dirent_fields df inum hash rec_len name_len type).
Proof using Y I.
  intros H. pose proof (fk_order _ (dy_fields _ _ Y)). pose proof (iy_pad I).
  unfold fields_below, dirent_fields. repeat (apply Forall_cons; split; [cbn [fst snd]; rewrite ?store_length, ?length_replicate; lia|]). done.
Qed.

Lemma init_entries_ok inum parent : inum_ok inum dir_mode_type -> inum_ok parent dir_mode_type ->
  exists hd l, init_entries ff df C inum parent (zero_block C) = blk hd l /\ length hd = ff_dinode ff /\
    recs_ok df (c_bsize C) hd l /\ Forall (hashed df) l /\
    listing df l ≡ₚ map_to_list (<[dot := (inum, dir_mode_type)]> {[dotdot := (parent, dir_mode_type)]} : entries).
Proof using Y I.
  intros Ii Ip. pose proof (iy_room I) as Hr. pose proof (ds_pos df (dy_fields _ _ Y) 1 ltac:(lia)) as D1. pose proof (ds_pos df (dy_fields _ _ Y) 2 ltac:(lia)) as D2.
  pose proof (iy_dinode I) as Hd. set (n1 := Z.to_nat (GFS2_DIRENT_SIZE df 1)). set (n2 := (Z.to_nat (c_bsize C) - ff_dinode ff - n1)%nat).
  set (hd := replicate (ff_dinode ff) 0 : block). set (z1 := replicate n1 0 : block). set (z2 := replicate n2 0 : block).
  assert (Lh : length hd = ff_dinode ff) by apply length_replicate. assert (L1 : length z1 = n1) by apply length_replicate.
  assert (L2 : length z2 = n2) by apply length_replicate.
  assert (Ez : zero_block C = hd ++ z1 ++ z2).
  { unfold zero_block, hd, z1, z2. rewrite <- !replicate_add. f_equal. lia. }
  destruct (init_rec_ok z1 inum dir_mode_type dot Ii) as (R1 & V1 & H1 & E1 & S1); [apply dots_bytes|apply replicate_bytes|rewrite L1; change (Z.of_nat (length dot)) with 1; lia|done|].
  destruct (init_rec_ok z2 parent dir_mode_type dotdot Ip) as (R2 & V2 & H2 & E2 & S2); [apply dots_bytes|apply replicate_bytes|rewrite L2; change (Z.of_nat (length dotdot)) with 2; lia|done|].
  set (r1 := init_rec z1 inum _ _ dot) in *. set (r2 := init_rec z2 parent _ _ dotdot) in *.
  exists hd, [r1; r2]. split_and!; [|done| | |].
  - unfold init_entries. fold dir_mode_type. assert (u16 (GFS2_DIRENT_SIZE df 1) = GFS2_DIRENT_SIZE df 1) as -> by (apply Z.mod_small; lia). fold n1.
    assert (u16 (c_bsize C - Z.of_nat (ff_dinode ff) - GFS2_DIRENT_SIZE df 1) = c_bsize C - Z.of_nat (ff_dinode ff) - GFS2_DIRENT_SIZE df 1) as -> by (apply Z.mod_small; lia).
    assert (N1 : Z.of_nat (length z1) = GFS2_DIRENT_SIZE df 1) by lia.
    assert (N2 : Z.of_nat (length z2) = c_bsize C - Z.of_nat (ff_dinode ff) - GFS2_DIRENT_SIZE df 1) by lia.
    pose proof (out_rec hd z1 z2 inum (Z.of_nat (length z1)) dir_mode_type dot) as O1. fold r1 in O1. change (Z.of_nat (length dot)) with 1 in O1.
    rewrite N1, Lh in O1. rewrite Ez, O1 by (apply out_below || cbn [dot length]; lia). clear O1.
    pose proof (out_rec (hd ++ r1) z2 [] parent (Z.of_nat (length z2)) dir_mode_type dotdot) as O2. fold r2 in O2.
    change (Z.of_nat (length dotdot)) with 2 in O2. rewrite N2, app_nil_r, <- app_assoc in O2.
    replace (length (hd ++ r1)) with (ff_dinode ff + n1)%nat in O2 by (rewrite length_app; lia).
    rewrite O2 by (apply out_below || cbn [dotdot length]; lia).
    unfold blk. cbn [concat]. by rewrite !app_nil_r, <- !app_assoc.
  - split; [by rewrite !Forall_cons|done| |lia|lia]. cbn [concat]. rewrite app_nil_r, length_app. lia.
  - by rewrite !Forall_cons.
  - rewrite map_to_list_insert, map_to_list_singleton by done. by rewrite !listing_cons, V1, V2, E1, E2.
Qed.

Local Abbreviation linear := (linear ff df C).

Lemma linear_ext (d d' : dirst A) m : f_ip (d_file d') = f_ip (d_file d) -> d_di d' = d_di d -> linear d m -> linear d' m.
Proof. intros E1 E2 [H1 H2 H3 H4 H5 H6 H7 H8]. split; unfold d_isdir, d_exhash, d_entries in *; rewrite ?E1, ?E2; done. Qed.

(** The entries of a new directory. *)
Definition dot_entries (inum parent : gfs2_inum) : entries := <[dot := (inum, dir_mode_type)]> {[dotdot := (parent, dir_mode_type)]}.

Lemma init_dinode_linear (a : A) dk inum mode flags time parent : S_ISDIR mode = true -> in_u 32 mode -> in_u 32 flags -> in_u 64 time ->
  Z.land flags (GFS2_DIF_EXHASH df) = 0 -> inum_ok inum dir_mode_type -> inum_ok parent dir_mode_type ->
  linear (inode_get ff df a dk (init_dinode ff df C inum mode flags time parent)) (dot_entries inum parent).
Proof using Y I.
  intros Hm Hm32 Hf32 Ht Hf Ii Ip. destruct (init_entries_ok inum parent Ii Ip) as (hd & l & Eb & Lh & R & Hh & Hl).
  unfold init_dinode. rewrite Hm. set (di := mkDi _ _ _ _ _ _ _ _ _ _ _ _ _ _ _ _ _ _ _).
  set (ip := mkInode (no_addr inum) (init_entries ff df C inum parent (zero_block C)) (c_bsize C - Z.of_nat (ff_dinode ff)) 0 1 (no_addr inum) (no_addr inum)).
  pose proof (iy_room I). pose proof (iy_range I) as Hr. destruct Ii as [[If _] Ia _].
  assert (Rg : dinode_range ip di).
  { pose proof (ds_pos df (dy_fields _ _ Y) 1). pose proof (ds_pos df (dy_fields _ _ Y) 2).
    assert (Hor : in_u 32 (Z.lor flags (GFS2_DIF_JDATA df))) by (apply in_u_lor; [lia|done|apply Hr]).
    split; cbn [mh_magic mh_type mh_format i_addr di_size di_blocks di_goal_meta di_goal_data di_height di_formal_ino di_atime di_mtime di_ctime
      di_eattr di_mode di_uid di_gid di_nlink di_major di_minor di_flags di_payload_format di_entries di_depth di_reserved ip di]; unfold in_u in *; split_and?;
      try lia; [done|by apply replicate_bytes]. }
  assert (Lb : (ff_dinode ff <= length (i_data ip))%nat) by (cbn; rewrite Eb; unfold blk; rewrite length_app; lia).
  assert (Pd : pending ff df C (mkDir (mkFile a dk ip) di) (dot_entries inum parent)).
  { split; try done; [|apply I|by exists hd, l]. unfold d_exhash. cbn [d_di di_flags di]. by rewrite Z.land_lor_distr_l, Hf, (iy_flags I). }
  pose proof (pending_reopen ff df C Y _ _ Pd) as Ln.
  pose proof (reopen_eq ff df Y (mkDir (mkFile a dk ip) di) Rg Lb) as Er. rewrite Er in Ln.
  unfold inode_get. change (gfs2_dinode_out ff (df_dinode df) (mkInode _ [] _ _ _ _ _) di _) with (gfs2_dinode_out ff (df_dinode df) ip di (i_data ip)).
  rewrite (out_in ff _ (dy_dinode _ _ Y)) by done. by eapply linear_ext; [| |exact Ln].
Qed.

(** ** Creating an inode *)

Lemma pending_link (d : dirst A) m : pending ff df C d m -> pending ff df C (add_link d) m.
Proof.
  intros [H1 H2 H3 H4 H5 H6 H7]. unfold d_isdir, d_exhash, d_entries in *. destruct d as [st di], di. split; cbn in *; try done.
  destruct H5 as [? ? ? R ? ?]. split; cbn in *; try done. destruct_and!. split_and!; try done. by apply wrap_range.
Qed.

(** The directory when a block was taken for the inode. *)
Definition after_alloc (d : dirst A) (a : A) : dirst A := with_file d (mkFile a (f_disk (d_file d)) (f_ip (d_file d))).

Lemma linear_alloc (d : dirst A) m a : linear d m -> linear (after_alloc d a) m.
Proof. by apply linear_ext. Qed.

(** The entry and the inode that are made. *)
Definition own_inum (d : dirst A) : gfs2_inum := mkInum (di_formal_ino (d_di d)) (i_addr (f_ip (d_file d))).

Definition linked (d : dirst A) (mode : Z) : dirst A := if S_ISDIR mode then add_link d else d.
Definition made (d : dirst A) (inum : gfs2_inum) (mode flags time : Z) : dirst A :=
  inode_get ff df (f_alloc (d_file d)) (f_disk (d_file d)) (init_dinode ff df C inum mode flags time (own_inum d)).

(** C21: Let the entries of a directory be in the block of its inode, with equal counts in the
    inode and its buffer, and let a name have 1 to [GFS2_FNAMESIZE] bytes and not be [.].
    Creating an inode with a name that the directory has returns that inode and changes nothing.
    With another name, when the allocator gives a block and one of the records of the directory
    has room for the entry, the entry is there with the next number when the inode is put back
    and read again; for a directory the number of links goes up by one, and the new inode has
    itself and its parent as its entries.  When the block of the directory is full, it gets a
    hash table, and the entry goes into that. *)
Theorem createi_new dinode_alloc fuel time (d : dirst A) m next name mode flags bn a :
  linear d m -> 0 < Z.of_nat (length name) <= GFS2_FNAMESIZE df -> name <> dot ->
  dinode_alloc (f_alloc (d_file d)) = Ok (bn, a) -> new_ok ff df C name (mkInum next bn) (IF2DT df mode) ->
  in_u 32 mode -> in_u 32 flags -> in_u 64 time -> Z.land flags (GFS2_DIF_EXHASH df) = 0 -> inum_ok (own_inum d) dir_mode_type ->
  let run := createi ff df C DC dinode_alloc fuel time d next name mode flags in
  match m !! name with
  | Some (inum, _) => run = Ok (d, next, Old (Inode (inode_read ff df (f_alloc (d_file d)) (f_disk (d_file d)) (no_addr inum))))
  | None =>
      (~ block_full ff df C d name -> exists d' i, run = Ok (d', u64 (next + 1), New i) /\
        linear (reopen ff df d') (<[name := (mkInum next bn, IF2DT df mode)]> m) /\
        (S_ISDIR mode = true -> di_nlink (d_di d') = u32 (di_nlink (d_di d) + 1) /\ linear i (dot_entries (mkInum next bn) (own_inum d)))) /\
      (block_full ff df C d name -> run =
        (d1 ← dir_make_exhash ff df C DC (after_alloc d a);
         d2 ← dir_e_add ff df C DC fuel d1 name (mkInum next bn) (IF2DT df mode);
         mret (linked d2 mode, u64 (next + 1), New (made (linked d2 mode) (mkInum next bn) mode flags time))))
  end.
Proof using Y I.
  intros Ln Hlen Hdot Ha N Hm Hf Ht Hx Ho run. unfold run, createi, gfs2_lookupi.
  assert (negb (c_true (Z.of_nat (length name))) || (GFS2_FNAMESIZE df <? Z.of_nat (length name)) = false) as ->.
  { unfold c_true. rewrite (proj2 (Z.eqb_neq _ _)) by lia. cbn. apply Z.ltb_ge. lia. }
  assert (gfs2_filecmp name dot 1 = false) as ->.
  { unfold gfs2_filecmp. destruct (_ =? 1); [|done]. by rewrite bool_decide_false by (by cbn). }
  rewrite (linear_search ff df C Y d m fuel name Ln). unfold spec_search. cbn [mbind res_bind mret res_ret].
  destruct (m !! name) as [[inum t]|] eqn:Em; [done|]. rewrite Ha. cbn [mbind res_bind].
  pose proof (linear_alloc d m a Ln) as La. fold (after_alloc d a). split; intros HF.
  2:{ rewrite (linear_full ff df C DC Y _ m fuel name _ _ La N HF). destruct (dir_make_exhash ff df C DC (after_alloc d a)) as [d1| |]; reflexivity. }
  destruct (linear_add ff df C DC Y _ m fuel name (mkInum next bn) (IF2DT df mode) La Em N) as [(d' & E & P & K1 & K2 & K3)|[F _]]; [|done].
  rewrite E. cbn [mbind res_bind mret res_ret]. do 2 eexists. split; [done|]. split.
  - apply pending_reopen; [done|]. destruct (S_ISDIR mode); [by apply pending_link|done].
  - intros Hd. rewrite Hd. assert (Ei : mkInum (di_formal_ino (d_di (add_link d'))) (i_addr (f_ip (d_file (add_link d')))) = own_inum d).
    { unfold own_inum, add_link in *. cbn in *. rewrite <- K1, <- K3. by destruct (d_di d'). }
    split; [unfold add_link; cbn; cbn in K2; rewrite <- K2; by destruct (d_di d')|]. rewrite Ei. destruct N as [_ [N1 N2 _] _ _].
    apply init_dinode_linear; try done. split; [done|done|]. apply Ho.
Qed.
End init.
