(* ===== verification/Gfs2DirHash.v ===== *)
(** * Doubling the table of a directory

    The table of a directory with a hash is the contents of its file: a pointer to a leaf for
    every value of the first bits of the hash.  [dir_double_exhash] writes every pointer twice,
    from the last block of the table to the first, in place; every hash leads to the same leaf
    afterwards. *)

From stdpp Require Import functions.
From S2P Require Import Prelude PlockWire DiskHash Gfs2Field Gfs2Log Gfs2Bits Gfs2Rgrp Gfs2RgrpThm Gfs2File Gfs2FilePath Gfs2FileTree Gfs2FileMap Gfs2FileHeight Gfs2FileThm Gfs2Dinode Gfs2Dir.
Open Scope Z_scope.

(** ** Lists of pointers *)

Lemma double_ptrs_length n l : (8 * n <= length l)%nat -> length (double_ptrs n l) = (16 * n)%nat.
Proof.
  revert l. induction n as [|n IH]; intros l Hl; [done|]. cbn [double_ptrs]. rewrite !length_app, length_take, IH; [lia|]. rewrite length_drop. lia.
Qed.

(** A byte of a doubled pointer. *)
Lemma double_ptrs_nth n l p : (8 * n <= length l)%nat -> (p < 16 * n)%nat ->
  nth p (double_ptrs n l) 0 = nth (8 * (p / 16) + p mod 8) l 0.
Proof.
  revert l p. induction n as [|n IH]; intros l p Hl Hp; [lia|]. cbn [double_ptrs]. set (w := take 8 l).
  assert (Lw : length w = 8%nat) by (unfold w; rewrite length_take; lia).
  assert (W : forall k, (k < 8)%nat -> nth k w 0 = nth k l 0).
  { intros k Hk. rewrite <- (take_drop 8 l). fold w. by rewrite app_nth1 by lia. }
  pose proof (Nat.div_mod_eq p 8) as Hm. pose proof (Nat.mod_upper_bound p 8 ltac:(lia)) as Hb.
  destruct (decide (p < 16)%nat) as [Hlt|Hge].
  - rewrite (Nat.div_small p 16) by done. rewrite Nat.mul_0_r, Nat.add_0_l. destruct (decide (p < 8)%nat).
    + rewrite app_nth1 by lia. rewrite W, Nat.mod_small by lia. done.
    + rewrite app_nth2, app_nth1 by lia. rewrite Lw, W by lia. f_equal. lia.
  - rewrite app_nth2, app_nth2 by lia. rewrite !Lw. replace (p - 8 - 8)%nat with (p - 16)%nat by lia.
    rewrite IH by (rewrite ?length_drop; lia). rewrite <- nth_drop.
    assert (p / 16 = S ((p - 16) / 16))%nat as ->.
    { replace p with (p - 16 + 1 * 16)%nat at 1 by lia. rewrite Nat.div_add by lia. lia. }
    assert (p mod 8 = (p - 16) mod 8)%nat as ->; [|f_equal; lia].
    replace p with (p - 16 + 2 * 8)%nat at 1 by lia. by rewrite Nat.Div0.mod_add.
Qed.

Lemma double_ptrs_bytes n l : Forall is_byte l -> Forall is_byte (double_ptrs n l).
Proof.
  revert l. induction n as [|n IH]; intros l Hl; [done|]. cbn [double_ptrs]. rewrite !Forall_app.
  split_and!; [by apply Forall_take|by apply Forall_take|by apply IH, Forall_drop].
Qed.

Lemma nth_spec_read f off n i : (i < n)%nat -> nth i (spec_read f off n) 0 = nth (off + i) f 0.
Proof.
  intros Hi. unfold spec_read. rewrite nth_drop. set (g := drop off f). rewrite <- (take_drop n g) at 2.
  destruct (decide (i < length (take n g))%nat); [by rewrite app_nth1|]. rewrite length_take in n0.
  rewrite nth_overflow by (rewrite length_take; lia). rewrite nth_overflow; [done|]. rewrite take_drop. lia.
Qed.

(** The sizes of the blocks of the table. *)
Record hash_sizes (C : consts) (DC : dir_consts) : Prop := {
  hz_bsize : c_bsize C = 2 * sd_hash_bsize DC;
  hz_ptrs : sd_hash_bsize DC = 8 * sd_hash_ptrs DC;
  hz_shift : sd_hash_bsize DC = 2 ^ sd_hash_bsize_shift DC;
  hz_pow : exists j, 0 <= j /\ sd_hash_ptrs DC = 2 ^ j
}.

Lemma compute_constants_hash ff bsize C dc n : bsize = 2 ^ n -> 4 <= n ->
  compute_constants ff bsize = Ok (Some (C, dc)) -> hash_sizes C dc.
Proof.
  intros Hb Hn. assert (H2 : bsize = 2 * 2 ^ (n - 1)) by (rewrite <- Z.pow_succ_r by lia; rewrite Hb; f_equal; lia).
  assert (H16 : bsize = 2 ^ (n - 4) * 8 * 2) by (rewrite Hb; change 8 with (2 ^ 3); rewrite <- Z.pow_add_r, <- (Z.pow_add_r 2 _ 1) by lia; f_equal; lia).
  assert (E1 : bsize / 2 = 2 ^ (n - 1)) by (rewrite H2, Z.mul_comm; by apply Z.div_mul).
  assert (E2 : 2 ^ (n - 1) = 8 * 2 ^ (n - 4)) by lia.
  assert (E3 : 2 ^ (n - 1) / 8 = 2 ^ (n - 4)) by (rewrite E2, Z.mul_comm; by apply Z.div_mul).
  assert (E4 : ffs bsize - 1 - 1 = n - 1) by (rewrite Hb, ffs_pow2; lia).
  unfold compute_constants. rewrite E1, E3, E4. destruct (ind_loop _ _ _ _ _) as [ind| |]; cbn [mbind res_bind]; [|done|done].
  destruct (compute_heightsize ff bsize bsize _ _) as [[hs|]| |]; cbn [mbind res_bind]; try done.
  destruct (compute_heightsize ff bsize _ _ _) as [[jhs|]| |]; cbn [mbind res_bind]; try done.
  intros [= <- <-]. split; cbn; try lia. exists (n - 4). lia.
Qed.

Lemma mult8 n z : Z.of_nat n = 8 * z -> (n mod 8 = 0)%nat.
Proof. intros H. apply Nat.Div0.mod_divides. exists (Z.to_nat z). lia. Qed.

Section table.
Context {A : Type} `{!Allocator A, !AllocatorSpec A} (ff : file_format) (df : dir_format) (C : consts) (DC : dir_consts)
  (G : geometry ff C) (HZ : hash_sizes C DC).

Implicit Types (d : dirst A) (st : file A).

Local Abbreviation file_ok := (file_ok ff C true).
Local Abbreviation contents := (contents ff C true).
Local Abbreviation extends := (extends ff C).
Local Abbreviation hb := (sd_hash_bsize DC).

Lemma hb_range : 8 <= hb /\ 2 * hb < 2 ^ 31.
Proof using G HZ.
  pose proof (hz_bsize _ _ HZ). pose proof (g_small _ _ G). destruct (hz_pow _ _ HZ) as (j & Hj & Ej). pose proof (hz_ptrs _ _ HZ).
  assert (0 < 2 ^ j) by (apply Z.pow_pos_nonneg; lia). lia.
Qed.

Lemma nth_byte (l : list Z) k : Forall is_byte l -> is_byte (nth k l 0).
Proof.
  intros H. destruct (nth_in_or_default k l 0) as [Hin| ->]; [|unfold is_byte; lia]. apply list_elem_of_In in Hin. by eapply Forall_forall in H.
Qed.

Lemma contents_bytes st : file_ok st -> Forall is_byte (contents st).
Proof.
  intros F. pose proof (file_sound ff C true st F) as S. apply Forall_fmap, Forall_true. intros k. cbn. unfold cell.
  assert (0 <= 0 < 256) by lia.
  destruct (di_height _); [apply nth_byte, S|]. destruct (_ <? _); [|done]. destruct (_ =? 0); [done|]. apply nth_byte, S.
Qed.

(** The blocks that are enough for writing a block of the table. *)
Definition block_room : nat := S (nblocks C true (bs C true - 1) (c_bsize C) * per_block C true).

Lemma block_room_enough o : 0 <= o -> (write_room C true o (c_bsize C) <= block_room)%nat.
Proof using G.
  intros Ho. destruct (bs_range ff C true G) as [Hb _]. unfold write_room, block_room, nblocks.
  pose proof (Z.mod_pos_bound o (bs C true) Hb) as Hm.
  assert ((o mod bs C true + c_bsize C + bs C true - 1) / bs C true <= (bs C true - 1 + c_bsize C + bs C true - 1) / bs C true)
    by (apply Z.div_le_mono; lia). apply le_n_S, Nat.mul_le_mono_r. lia.
Qed.

(** The table when the blocks from [k] on are doubled: [t] was the table. *)
Definition half_doubled (t : list Z) (k : nat) st : Prop :=
  file_ok st /\ forall p, nth p (contents st) 0 =
    if decide (k * Z.to_nat (c_bsize C) <= p)%nat then nth p (double_ptrs (length t / 8) t) 0 else nth p t 0.

(** The sizes as natural numbers. *)
Lemma sizes_16 : let P := Z.to_nat (sd_hash_ptrs DC) in Z.to_nat hb = (8 * P)%nat /\ Z.to_nat (c_bsize C) = (16 * P)%nat /\ (0 < P)%nat.
Proof using G HZ. pose proof hb_range. pose proof (hz_bsize _ _ HZ). pose proof (hz_ptrs _ _ HZ). lia. Qed.

(** A byte of a doubled block is one of the doubled table. *)
Lemma block_byte (P : nat) (t : list Z) (k p : nat) : let o := (k * (16 * P))%nat in (o <= p < o + 16 * P)%nat -> (S k * (8 * P) <= length t)%nat ->
  (length t mod 8 = 0)%nat ->
  nth p (double_ptrs (length t / 8) t) 0 = nth (k * (8 * P) + (8 * ((p - o) / 16) + (p - o) mod 8)) t 0.
Proof.
  intros o Hp Ht H8. pose proof (Nat.div_mod_eq (length t) 8). rewrite double_ptrs_nth by lia. f_equal.
  replace p with (p - o + (k * P) * 16)%nat at 1 2 by lia. rewrite Nat.div_add by lia.
  replace (p - o + k * P * 16)%nat with (p - o + (k * P * 2) * 8)%nat by lia. rewrite Nat.Div0.mod_add. lia.
Qed.

Lemma double_loop_ok t k d n : d_isdir d = true -> half_doubled t k (d_file d) -> (length t mod 8 = 0)%nat ->
  (k * Z.to_nat hb <= length t <= length (contents (d_file d)))%nat -> 2 * Z.of_nat (length t) + 2 * c_bsize C < 2 ^ 64 ->
  room (f_alloc (d_file d)) (k * block_room + n) ->
  exists st', double_loop ff C DC k d = Ok (with_file d st') /\ half_doubled t 0 st' /\ extends (d_file d) st' /\ room (f_alloc st') n /\
    length (contents st') = Nat.max (length (contents (d_file d))) (k * Z.to_nat (c_bsize C)).
Proof using G HZ.
  revert d. induction k as [|k IH]; intros d Hd [F Ht] H8 Hl Hlim R.
  { exists (d_file d). split_and!; try done; [by destruct d|apply extends_refl|lia]. }
  destruct sizes_16 as (S1 & S2 & S3). set (P := Z.to_nat (sd_hash_ptrs DC)) in *. pose proof hb_range as [Hb1 Hb2]. pose proof (hz_bsize _ _ HZ) as Hbs.
  cbn [double_loop]. unfold readi. rewrite Hd.
  assert (Hk : Z.of_nat k * hb = Z.of_nat (k * (8 * P))) by lia. assert (Hk2 : Z.of_nat k * c_bsize C = Z.of_nat (k * (16 * P))) by lia.
  rewrite (readi_ok ff C true G (d_file d) _ _ F) by lia. cbn [mbind res_bind]. rewrite Hk, Hk2, Nat2Z.id, S1. set (buf := spec_read _ _ _).
  assert (Lb : length buf = (8 * P)%nat) by (unfold buf, spec_read; rewrite length_take, length_drop; lia).
  rewrite (proj2 (Z.eqb_eq _ _)) by lia. cbn [negb]. fold P. unfold writei. change (d_isdir (with_file d (d_file d))) with (d_isdir d). rewrite Hd.
  assert (Ld : length (double_ptrs P buf) = (16 * P)%nat) by (apply double_ptrs_length; lia).
  assert (Bb : Forall is_byte buf) by (apply Forall_take, Forall_drop, contents_bytes, F).
  destruct (writei_ok ff C true G (d_file d) (double_ptrs P buf) (Z.of_nat (k * (16 * P))) (k * block_room + n) F) as (st1 & E1 & F1 & C1 & X1 & R1);
    [by apply double_ptrs_bytes|lia|lia|lia| |].
  { eapply room_le; [|exact R]. rewrite Ld. pose proof (block_room_enough (Z.of_nat (k * (16 * P))) ltac:(lia)) as W.
    replace (Z.of_nat (16 * P)) with (c_bsize C) by lia. lia. }
  cbn [with_file d_file]. rewrite E1. cbn [mbind res_bind]. rewrite (proj2 (Z.eqb_eq _ _)) by lia. cbn [negb].
  rewrite decide_False in C1 by (intros E; rewrite E in Ld; cbn in Ld; lia). rewrite Nat2Z.id in C1.
  destruct (IH (with_file d st1)) as (st' & E' & H' & X' & R' & L'); try done.
  - split; [done|]. cbn [with_file d_file]. intros p. rewrite C1, spec_write_nth, Ld, S2. destruct (decide (_ <= p < _)%nat) as [Hp|Hp].
    + rewrite decide_True by lia. rewrite (block_byte P t k p) by lia. rewrite double_ptrs_nth by lia.
      pose proof (Nat.div_mod_eq (p - k * (16 * P)) 16). pose proof (Nat.mod_upper_bound (p - k * (16 * P)) 8 ltac:(lia)).
      assert ((p - k * (16 * P)) / 16 < P)%nat by (apply Nat.Div0.div_lt_upper_bound; lia).
      unfold buf. rewrite nth_spec_read by lia. rewrite Ht, decide_False by (rewrite S2; lia). done.
    + rewrite Ht, S2. destruct (decide (S k * (16 * P) <= p)%nat), (decide (k * (16 * P) <= p)%nat); try lia; done.
  - cbn [with_file d_file]. rewrite C1, spec_write_length. lia.
  - exists st'. split_and!; try done; [by eapply extends_trans|]. rewrite L'. cbn [with_file d_file]. rewrite C1, spec_write_length, Ld. lia.
Qed.

(** A directory with a table for the first [di_depth] bits of the hash. *)
Record table_ok d : Prop := {
  to_dir : d_isdir d = true;
  to_file : file_ok (d_file d);
  to_depth : 0 <= d_depth d;
  to_size : di_size (f_ip (d_file d)) = 8 * 2 ^ d_depth d;
  to_min : sd_hash_ptrs DC <= 2 ^ d_depth d
}.

Lemma table_length d : table_ok d -> Z.of_nat (length (contents (d_file d))) = 8 * 2 ^ d_depth d.
Proof. intros [_ F _ Es _]. by rewrite (contents_length ff C true _ F). Qed.

(** The pointer at an index of the table. *)
Definition table_ptr (t : list Z) (i : Z) : Z := load BigEndian (spec_read t (Z.to_nat (8 * i)) 8).

Lemma get_leaf_nr_ok d i : table_ok d -> d_depth d <= 32 -> 0 <= i < 2 ^ d_depth d ->
  gfs2_get_leaf_nr ff C d i = Ok (d, table_ptr (contents (d_file d)) i).
Proof using G.
  intros T HD Hi. pose proof (table_length d T) as Lt. destruct T as [Td F Td0 Es _]. unfold gfs2_get_leaf_nr, readi. rewrite Td.
  assert (2 ^ d_depth d <= 2 ^ 32) by (apply Z.pow_le_mono_r; lia).
  rewrite (readi_ok ff C true G (d_file d) _ _ F) by lia. cbn [mbind res_bind]. replace (i * 8) with (8 * i) by lia.
  assert (length (spec_read (contents (d_file d)) (Z.to_nat (8 * i)) (Z.to_nat 8)) = 8)%nat as L8
    by (unfold spec_read; rewrite length_take, length_drop; lia).
  rewrite L8. cbn [Nat.eqb negb mret res_ret]. unfold table_ptr. change (Z.to_nat 8) with 8%nat. by destruct d.
Qed.

Lemma double_read t i : (8 * (i / 2) + 8 <= length t)%nat -> (length t mod 8 = 0)%nat ->
  spec_read (double_ptrs (length t / 8) t) (8 * i) 8 = spec_read t (8 * (i / 2)) 8.
Proof.
  intros Hi H8. pose proof (Nat.div_mod_eq (length t) 8). pose proof (Nat.div_mod_eq i 2). pose proof (Nat.mod_upper_bound i 2 ltac:(lia)).
  assert (Ld : length (double_ptrs (length t / 8) t) = (16 * (length t / 8))%nat) by (apply double_ptrs_length; lia).
  apply (nth_ext _ _ 0 0); [unfold spec_read; rewrite !length_take, !length_drop, Ld; lia|].
  intros j Hj. unfold spec_read in Hj. rewrite length_take in Hj. rewrite !nth_spec_read by lia. rewrite double_ptrs_nth by lia. f_equal.
  assert ((8 * i + j) / 16 = i / 2)%nat as ->.
  { symmetry. apply (Nat.div_unique _ 16 _ (8 * (i mod 2) + j)); lia. }
  assert ((8 * i + j) mod 8 = j)%nat as ->; [|lia]. symmetry. apply (Nat.mod_unique _ 8 i); lia.
Qed.

Lemma leaf_index_range d hash : 0 <= d_depth d <= 32 -> in_u 32 hash -> 0 <= leaf_index d hash < 2 ^ d_depth d.
Proof.
  intros HD Hh. unfold leaf_index, in_u in *. assert (0 < 2 ^ d_depth d) by (apply Z.pow_pos_nonneg; lia).
  destruct (c_true (d_depth d)); [|lia]. rewrite Z.shiftr_div_pow2 by lia. split; [apply Z.div_pos; lia|].
  apply Z.div_lt_upper_bound; [apply Z.pow_pos_nonneg; lia|]. rewrite <- Z.pow_add_r by lia. replace (32 - d_depth d + d_depth d) with 32 by lia. lia.
Qed.

(** One bit more of the hash. *)
Lemma leaf_index_half d d' hash : 0 <= d_depth d < 32 -> d_depth d' = d_depth d + 1 -> in_u 32 hash -> leaf_index d' hash / 2 = leaf_index d hash.
Proof.
  intros HD Hd' Hh. unfold leaf_index. rewrite Hd'. unfold c_true. rewrite (proj2 (Z.eqb_neq (d_depth d + 1) 0)) by lia. cbn [negb].
  rewrite !Z.shiftr_div_pow2 by lia. rewrite Z.div_div by (try apply Z.pow_nonzero; lia). rewrite <- (Z.pow_1_r 2) at 2.
  rewrite <- Z.pow_add_r by lia. replace (32 - (d_depth d + 1) + 1) with (32 - d_depth d) by lia.
  destruct (Z.eqb_spec (d_depth d) 0) as [E|E]; cbn [negb]; [|done]. rewrite E. apply Z.div_small. exact Hh.
Qed.

(** The number of blocks of the table. *)
Definition table_blocks d : nat := Z.to_nat (Z.shiftr (di_size (f_ip (d_file d))) (sd_hash_bsize_shift DC)).

Lemma table_blocks_ok d : table_ok d -> (table_blocks d * Z.to_nat hb = length (contents (d_file d)))%nat.
Proof using G HZ.
  intros T. pose proof (table_length d T) as Lt. destruct T as [_ _ TD Es Tm]. destruct (hz_pow _ _ HZ) as (j & Hj & Ej). pose proof (hz_ptrs _ _ HZ) as Hp.
  pose proof (hz_shift _ _ HZ) as Hs. pose proof hb_range as [Hb _]. unfold table_blocks.
  assert (0 <= sd_hash_bsize_shift DC) by (destruct (Z.lt_ge_cases (sd_hash_bsize_shift DC) 0); [rewrite Z.pow_neg_r in Hs; lia|lia]).
  rewrite Ej in Tm, Hp. assert (j <= d_depth d) by (apply (Z.pow_le_mono_r_iff 2); lia).
  assert (E : 8 * 2 ^ d_depth d = 2 ^ (d_depth d - j) * hb).
  { rewrite Hp. replace (d_depth d) with (d_depth d - j + j) at 1 by lia. rewrite Z.pow_add_r by lia. lia. }
  assert (0 < 2 ^ (d_depth d - j)) by (apply Z.pow_pos_nonneg; lia).
  rewrite Z.shiftr_div_pow2, <- Hs, Es, E, Z.div_mul by lia. rewrite E in Lt. nia.
Qed.

Lemma double_exhash_ok d n : table_ok d -> d_depth d < 32 -> room (f_alloc (d_file d)) (table_blocks d * block_room + n) ->
  exists d', dir_double_exhash ff C DC d = Ok d' /\ table_ok d' /\ d_depth d' = d_depth d + 1 /\
    extends (d_file d) (d_file d') /\ room (f_alloc (d_file d')) n /\
    contents (d_file d') = double_ptrs (length (contents (d_file d)) / 8) (contents (d_file d)).
Proof using G HZ.
  intros T HD R. pose proof (table_blocks_ok d T) as Hn. pose proof (table_length d T) as Lt. pose proof T as [Td F TD Es Tm].
  pose proof hb_range as [Hb1 Hb2]. pose proof (hz_bsize _ _ HZ) as Hbs. set (t := contents (d_file d)) in *.
  assert (Hp : 2 ^ d_depth d < 2 ^ 32) by (apply Z.pow_lt_mono_r; lia). assert (Hp0 : 0 < 2 ^ d_depth d) by (apply Z.pow_pos_nonneg; lia).
  assert (H8 : (length t mod 8 = 0)%nat) by (by eapply mult8).
  pose proof (Nat.div_mod_eq (length t) 8) as Hd8.
  destruct (double_loop_ok t (table_blocks d) d n) as (st' & E & [F' Ht] & X & R' & L'); try done; [|fold t; lia|lia|].
  { split; [done|]. fold t. intros p. destruct (decide _) as [Hle|]; [|done]. rewrite !nth_overflow; [done|rewrite double_ptrs_length; lia|lia]. }
  assert (Ec : contents st' = double_ptrs (length t / 8) t).
  { apply (nth_ext _ _ 0 0).
    - rewrite L', double_ptrs_length by lia. fold t. lia.
    - intros p _. rewrite Ht. by rewrite decide_True by lia. }
  unfold dir_double_exhash. fold (table_blocks d). rewrite E. cbn [mbind res_bind mret res_ret]. eexists. split; [done|].
  assert (Ed : u16 (d_depth (with_file d st') + 1) = d_depth d + 1).
  { unfold wrap, d_depth. cbn. apply Z.mod_small. unfold d_depth in *. lia. }
  assert (Dd : d_depth (mkDir (A := A) st' (di_set_depth (d_di d) (u16 (d_depth (with_file d st') + 1)))) = d_depth d + 1).
  { rewrite Ed. unfold d_depth. cbn. by destruct (d_di d). }
  cbn [with_file d_file d_di] in *. split_and!; try done. split; rewrite ?Dd; cbn; try done; [|lia| |].
  - unfold d_isdir in *. cbn. by destruct (d_di d).
  - rewrite <- (contents_length ff C true _ F'), Ec, double_ptrs_length, Z.pow_add_r by lia. lia.
  - rewrite Z.pow_add_r by lia. lia.
Qed.

(** C20: Doubling the table of a directory, with enough free blocks, gives a table for one bit
    more of the hash.  Every hash leads to the same leaf as before, and blocks that are in use
    elsewhere, such as the leaves, keep what they hold. *)
Theorem double_exhash_same_leaf d : table_ok d -> d_depth d < 32 -> room (f_alloc (d_file d)) (table_blocks d * block_room) ->
  exists d', dir_double_exhash ff C DC d = Ok d' /\ table_ok d' /\ d_depth d' = d_depth d + 1 /\
    (forall hash, in_u 32 hash -> exists leaf,
      gfs2_get_leaf_nr ff C d (leaf_index d hash) = Ok (d, leaf) /\ gfs2_get_leaf_nr ff C d' (leaf_index d' hash) = Ok (d', leaf)) /\
    forall a, ~ al_free (f_alloc (d_file d)) a -> ~ owned ff C (d_file d) a -> f_disk (d_file d') a = f_disk (d_file d) a.
Proof using G HZ.
  intros T HD R. rewrite <- (Nat.add_0_r (_ * _)) in R. destruct (double_exhash_ok d 0 T HD R) as (d' & E & T' & Dd & X & _ & Ec).
  exists d'. split_and!; try done; [|apply X]. intros hash Hh. pose proof (to_depth _ T) as TD.
  pose proof (leaf_index_range d hash ltac:(lia) Hh) as H1. pose proof (leaf_index_range d' hash ltac:(lia) Hh) as H2.
  pose proof (leaf_index_half d d' hash ltac:(lia) Dd Hh) as Hhalf. exists (table_ptr (contents (d_file d)) (leaf_index d hash)).
  split; [by apply get_leaf_nr_ok; [|lia|]|]. rewrite get_leaf_nr_ok by (done || lia). do 2 f_equal. unfold table_ptr. f_equal. rewrite Ec.
  pose proof (table_length d T) as Lt. rewrite <- Hhalf in *. remember (leaf_index d' hash) as i eqn:Ei.
  replace (Z.to_nat (8 * i)) with (8 * Z.to_nat i)%nat by lia.
  assert (Hi : Z.to_nat (8 * (i / 2)) = (8 * (Z.to_nat i / 2))%nat) by (rewrite Z2Nat.inj_mul, Z2Nat.inj_div by lia; done). rewrite Hi.
  apply double_read; [lia|]. by eapply mult8.
Qed.
End table.
