(* ===== verification/Gfs2DirLeaf.v ===== *)
(** * Splitting a leaf

    [split_loop] of [Gfs2Dir], the loop of [dir_split_leaf]: the entries of a leaf whose hash is
    below a bound go to an empty leaf, where they always fit, and the others stay. *)

From stdpp Require Import functions.
From S2P Require Import Prelude PlockWire DiskHash Gfs2Field Gfs2Log Gfs2Bits Gfs2Rgrp Gfs2File Gfs2FileMap Gfs2Dinode Gfs2Dir Gfs2DirRec.
Open Scope Z_scope.

Section leaf.
Context (ff : file_format) (df : dir_format) (bsize : Z) (K : fields_ok df).

(** The fields of the header and of a leaf follow each other. *)
Record leaf_layout : Prop := {
  ll_order : (f_magic (ff_head ff) + 4 <= f_type (ff_head ff) /\ f_type (ff_head ff) + 4 <= f_pad0 (ff_head ff) /\
    f_pad0 (ff_head ff) + 8 <= f_format (ff_head ff) /\ f_format (ff_head ff) + 4 <= f_pad1 (ff_head ff) /\
    f_pad1 (ff_head ff) + 4 <= lf_depth df /\ lf_depth df + 2 <= lf_entries df /\
    lf_entries df + 2 <= lf_dirent_format df /\ lf_dirent_format df + 4 <= lf_next df /\ lf_next df + 8 <= lf_size df)%nat;
  ll_type : GFS2_METATYPE_LF df <> 0
}.
Context (LL : leaf_layout).

Implicit Types (r hd : block) (l : list block).

Local Abbreviation blk := Gfs2DirRec.blk.
Local Abbreviation recs_ok := (recs_ok df bsize).
Local Abbreviation listing := (listing df).
Local Abbreviation hashed := (hashed df).
Local Abbreviation live := (live df).
Local Abbreviation lives := (lives df).
Local Abbreviation rec_ok := (rec_ok df).
Local Abbreviation nlen := (nlen df).
Local Abbreviation rname := (rname df).
Local Abbreviation DS := (GFS2_DIRENT_SIZE df).

(** The header of a leaf with [n] entries. *)
Record leaf_head hd (n : Z) : Prop := {
  lh_length : length hd = lf_size df;
  lh_leaf : is_leaf ff df hd = true;
  lh_meta : gfs2_check_meta (ff_head ff) hd (GFS2_METATYPE_LF df) = true;
  lh_entries : be_get 2 (lf_entries df) hd = n;
  lh_bytes : Forall is_byte hd
}.

Lemma leaf_head_ok hd n : leaf_head hd n -> head_ok ff df hd.
Proof using LL. intros [H1 _ _ _ _]. pose proof (ll_order LL). split; intros; lia. Qed.

(** Another count. *)
Lemma leaf_head_count hd n m : leaf_head hd n -> in_u 16 m -> leaf_head (be_set 2 (lf_entries df) m hd) m.
Proof using LL.
  intros [H1 H2 H3 H4 H5] Hm. pose proof (ll_order LL) as O. split.
  - rewrite be_set_length; lia.
  - unfold is_leaf in *. by rewrite be_get_set_other by lia.
  - unfold gfs2_check_meta in *. by rewrite !be_get_set_other by lia.
  - apply be_get_set_same; [done|lia].
  - by apply be_set_bytes.
Qed.

(** Another depth. *)
Lemma leaf_head_depth hd n v : leaf_head hd n -> leaf_head (be_set 2 (lf_depth df) v hd) n.
Proof using LL.
  intros [H1 H2 H3 H4 H5]. pose proof (ll_order LL) as O. split.
  - rewrite be_set_length; lia.
  - unfold is_leaf in *. by rewrite be_get_set_other by lia.
  - unfold gfs2_check_meta in *. by rewrite !be_get_set_other by lia.
  - by rewrite be_get_set_other by lia.
  - by apply be_set_bytes.
Qed.

Lemma leaf_head_del hd n : leaf_head hd n -> 0 < n < 2 ^ 16 -> leaf_head (del_head ff df hd) (n - 1).
Proof using LL.
  intros H Hn. unfold del_head. rewrite (lh_meta _ _ H), (lh_entries _ _ H). unfold wrap. rewrite Z.mod_small by lia.
  by eapply leaf_head_count; [|unfold in_u; lia].
Qed.

Lemma del_head_depth hd n : leaf_head hd n -> be_get 2 (lf_depth df) (del_head ff df hd) = be_get 2 (lf_depth df) hd.
Proof using LL.
  intros H. pose proof (ll_order LL). pose proof (lh_length _ _ H). unfold del_head. destruct (gfs2_check_meta _ _ _); [|done].
  by rewrite be_get_set_other by lia.
Qed.

Lemma leaf_first hd l n : leaf_head hd n -> gfs2_dirent_first ff df (blk hd l) = (IS_LEAF, length hd).
Proof using LL.
  intros [H1 H2 _ _ _]. pose proof (ll_order LL). unfold gfs2_dirent_first, is_leaf, blk in *. by rewrite be_get_front, H2, H1 by lia.
Qed.

Lemma leaf_count hd l n : leaf_head hd n -> be_get 2 (lf_entries df) (blk hd l) = n.
Proof using LL. intros [H1 _ _ H4 _]. pose proof (ll_order LL). unfold blk. by rewrite be_get_front by lia. Qed.

Lemma leaf_block_ok hd l : leaf_head hd (Z.of_nat (lives l)) -> recs_ok hd l -> Forall hashed l -> block_ok ff df bsize hd l.
Proof using LL.
  intros H R Hh. split; [done|done| |]; rewrite (leaf_first hd l _ H); [done|]. apply (leaf_count hd l _ H).
Qed.

(** ** The leaf that entries leave *)

(** Removing the entry behind [lp]: the place of the next one and the entry before it. *)
Lemma del_step hd lp r l2 : head_ok ff df hd -> recs_ok hd (lp ++ r :: l2) -> Forall hashed (lp ++ r :: l2) ->
  exists lp', dirent2_del ff df (blk hd (lp ++ r :: l2)) (prev_of hd lp) (at_ hd lp) = blk (del_head ff df hd) (lp' ++ l2) /\
    recs_ok (del_head ff df hd) (lp' ++ l2) /\ Forall hashed (lp' ++ l2) /\ listing lp' = listing lp /\
    match prev_of hd lp with None => Some (at_ hd lp) | _ => prev_of hd lp end = prev_of (del_head ff df hd) lp' /\
    at_ (del_head ff df hd) lp' = at_ hd (lp ++ [r]).
Proof using K.
  intros H R Hh. pose proof (del_head_length ff df hd H) as Ld. pose proof (rec_in df bsize _ _ _ _ R) as Ro.
  destruct lp as [|p lp _] using rev_ind.
  - destruct (killed_ok df K r Ro) as (K1 & K2 & K3). exists [killed df r]. cbn [app] in *. split_and!.
    + by apply (del_first ff df K).
    + apply (recs_head df bsize hd); [done|]. apply (recs_replace df bsize hd [] [r] [killed df r] l2 R); [by apply Forall_singleton|done|].
      cbn. by rewrite !app_nil_r.
    + apply Forall_cons in Hh as [_ Hh]. apply Forall_cons. split; [intros ?; congruence|done].
    + by rewrite listing_cons, K2.
    + cbn [prev_of removelast]. unfold at_. by rewrite Ld.
    + unfold at_. cbn [concat]. by rewrite !app_nil_r, Ld, K3.
  - rewrite <- app_assoc in R, Hh |- *. cbn [app] in *. pose proof (rec_in df bsize _ _ _ _ R) as P.
    destruct (merged_ok df K p r P Ro) as (M1 & M2 & M3 & M4 & M5).
    { pose proof (rs_length _ _ _ _ R) as Ln. pose proof (rs_fit _ _ _ _ R). pose proof (rs_head _ _ _ _ R).
      rewrite concat_app, length_app in Ln. cbn [concat] in Ln. rewrite !length_app in Ln. lia. }
    exists (lp ++ [merged df p r]). rewrite prev_snoc, <- !app_assoc. cbn [app]. split_and!.
    + by apply (del_merge ff df bsize K).
    + apply (recs_head df bsize hd); [done|]. apply (recs_replace df bsize hd lp [p; r] [merged df p r] l2 R); [by apply Forall_singleton|done|].
      cbn. rewrite !app_nil_r, length_app. lia.
    + apply (hashed_replace df lp [p; r] [merged df p r] l2 Hh). apply Forall_singleton, M2. by apply Forall_app in Hh as [_ [Hh _]%Forall_cons].
    + by rewrite !listing_app, M3.
    + rewrite prev_snoc. unfold at_. by rewrite Ld.
    + rewrite (app_snoc lp p [r]), !at_snoc. unfold at_. rewrite Ld, M5. lia.
Qed.

(** ** The leaf that entries go to *)

(** An entry without room behind its name. *)
Definition exact r : Prop := live r = true /\ Z.of_nat (length r) = DS (nlen r).

(** Entries one after the other, with at least [need] bytes behind the last one. *)
Record packed hd l (need : Z) : Prop := {
  pk_recs : recs_ok hd l;
  pk_hashed : Forall hashed l;
  pk_shape : exists init r, l = init ++ [r] /\ Forall exact init /\ live r = true /\ DS (nlen r) + need <= Z.of_nat (length r)
}.

(** No entries yet. *)
Definition fresh hd l (need : Z) : Prop :=
  exists area : block, l = [area] /\ live area = false /\ Forall is_byte area /\ need <= Z.of_nat (length area) /\
    Z.of_nat (length hd + length area) = bsize /\ bsize <= 2 ^ 16 /\ (0 < length hd)%nat.

Definition receives hd l (need : Z) : Prop := leaf_head hd (Z.of_nat (lives l)) /\ (fresh hd l need \/ packed hd l need).

Lemma name_length r : rec_ok r -> live r = true -> Z.of_nat (length (rname r)) = nlen r.
Proof using K.
  intros R Hl. pose proof (name_room df K r R Hl). pose proof (nlen_range df r (ro_bytes _ _ R)).
  unfold Gfs2DirRec.rname. rewrite length_take, length_drop. lia.
Qed.

Lemma exact_full need r : rec_ok r -> exact r -> 0 < need -> fits df need r = false.
Proof.
  intros R [Hl He] Hn. unfold fits. rewrite Hl, (ro_len _ _ R), He. cbn [negb andb orb]. destruct (_ >=? _) eqn:E; [|done]. apply Z.geb_le in E. lia.
Qed.

Record moving (name : list Z) (inum : gfs2_inum) (type : Z) : Prop := {
  mv_name : Forall is_byte name;
  mv_inum : inum_ok inum type;
  mv_size : Z.of_nat (length name) < 2 ^ 16
}.

Lemma lives_perm l l' e : listing l' ≡ₚ e :: listing l -> lives l' = S (lives l).
Proof. intros H. by rewrite <- !(listing_length df), H. Qed.

Lemma put_packed hd l name inum type need : packed hd l (DS (Z.of_nat (length name)) + need) -> 0 <= need -> moving name inum type ->
  exists b' pos l', dirent_alloc_from df bsize (length (blk hd l)) (blk hd l) (at_ hd []) (Z.of_nat (length name)) = Ok (Some (b', pos)) /\
    dirent_fill df b' pos inum (gfs2_disk_hash name) type name = Ok (blk hd l') /\ packed hd l' need /\
    listing l' ≡ₚ (name, (inum, type)) :: listing l.
Proof using K.
  intros [R Hh (init & r & -> & Hi & Hl & Hr)] Hn [M1 M2 M3]. set (n := Z.of_nat (length name)) in *. pose proof (ds_pos df K n ltac:(lia)) as D.
  pose proof (fk_order _ K) as Ko. pose proof (rec_in df bsize _ _ _ _ R) as Ro. pose proof (rs_recs _ _ _ _ R) as Rr.
  apply Forall_app in Rr as [Ri _]. assert (Hr0 : 0 <= nlen r < 2 ^ 16) by (apply nlen_range, Ro). pose proof (ds_pos df K (nlen r) ltac:(lia)) as Dr.
  assert (Ef : list_find (fun r => fits df (DS n) r = true) (init ++ [r]) = Some (length init, r)).
  { apply list_find_Some. split_and!; [by apply list_lookup_middle| |].
    - unfold fits. rewrite (ro_len _ _ Ro). apply orb_true_iff. right. apply Z.geb_le. lia.
    - intros j y Hj Hlt. rewrite lookup_app_l in Hj by done. rewrite exact_full; [done|by eapply Forall_lookup_1 in Ri|by eapply Forall_lookup_1 in Hi|lia]. }
  pose proof (alloc_fill df bsize K hd inum type name (init ++ [r]) R Hh M3 M2 M1 (disk_hash_range name)) as F. cbv zeta in F. fold n in F. rewrite Ef in F.
  destruct F as (b' & pos & F1 & F2). set (l' := added df (init ++ [r]) (length init) r inum type name) in *.
  destruct (added_ok df bsize K hd (init ++ [r]) (length init) r inum type name R Hh) as (A1 & A2 & A3); try done;
    [by apply list_lookup_middle|by apply list_find_Some in Ef as (_ & ? & _)|apply disk_hash_range|].
  exists b', pos, l'. split; [done|]. split; [done|]. split; [|done]. split; [done|done|].
  destruct (front_ok df K r n Ro Hl ltac:(lia) ltac:(lia)) as (G1 & G2 & G3). destruct (back_ok df K r n Ro ltac:(lia) ltac:(lia)) as (B1 & B2).
  destruct (fill_rec_ok df K (back df r n) inum name type B1 M2 M1 (disk_hash_range name)) as (Q1 & Q2 & Q3 & Q4 & Q5).
  set (q := fill_rec _ _ _ _ _ _) in *. assert (El : l' = (init ++ [front df r]) ++ [q]).
  { unfold l', added, slot. rewrite Hl. rewrite take_app_length, drop_ge by (rewrite length_app; cbn; lia). by rewrite <- app_assoc. }
  assert (Lf : live (front df r) = true) by (by destruct G2 as [-> _]). assert (Nf : nlen (front df r) = nlen r).
  { rewrite <- !name_length by done. destruct G2 as (_ & _ & G2). unfold ent in G2. injection G2 as G2 _. by rewrite G2. }
  exists (init ++ [front df r]), q. split_and!; [done|apply Forall_app; split; [done|]|done|].
  - apply Forall_singleton. split; [done|]. rewrite G3, Nf. lia.
  - assert (nlen q = n) as ->; [|rewrite Q5, B2; lia]. rewrite <- name_length by done. unfold ent in Q4. injection Q4 as Q4 _ _. by rewrite Q4.
Qed.

Lemma lives_small hd l : recs_ok hd l -> Z.of_nat (lives l) < 2 ^ 16.
Proof using K.
  intros R. pose proof (recs_length df K l (rs_recs _ _ _ _ R)). pose proof (rs_length _ _ _ _ R). pose proof (rs_fit _ _ _ _ R). pose proof (rs_head _ _ _ _ R).
  pose proof (length_filter (fun r => live r = true) l). unfold Gfs2DirRec.lives. lia.
Qed.

(** An entry goes to the leaf, and is counted. *)
Lemma receive hd l name inum type need : receives hd l (DS (Z.of_nat (length name)) + need) -> 0 <= need -> moving name inum type ->
  exists b' pos b hd' l', dirent_alloc ff df bsize (blk hd l) (Z.of_nat (length name)) = Ok (Some (b', pos)) /\
    dirent_fill df b' pos inum (gfs2_disk_hash name) type name = Ok b /\
    be_set 2 (lf_entries df) (u16 (be_get 2 (lf_entries df) b + 1)) b = blk hd' l' /\ receives hd' l' need /\
    packed hd' l' need /\ listing l' ≡ₚ (name, (inum, type)) :: listing l.
Proof using K LL.
  intros [H S] Hn M. set (n := Z.of_nat (length name)) in *. pose proof (ds_pos df K n ltac:(lia)) as D.
  assert (P : exists b' pos l', dirent_alloc ff df bsize (blk hd l) n = Ok (Some (b', pos)) /\
    dirent_fill df b' pos inum (gfs2_disk_hash name) type name = Ok (blk hd l') /\ packed hd l' need /\ listing l' ≡ₚ (name, (inum, type)) :: listing l).
  { pose proof (leaf_first hd l _ H) as Ef. pose proof (leaf_count hd l _ H) as Ec. destruct S as [(area & -> & Hl & Hb & Hr & Ln & Hfit & Hhd)|P].
    - assert (L0 : lives [area] = 0%nat) by (by rewrite lives_cons, Hl). rewrite L0 in Ec.
      destruct (fill_empty ff df bsize K hd area name inum type IS_LEAF) as (b' & pos & q & E1 & E2 & Q1 & Q2 & Q3 & Q4 & Q5); try done.
      { destruct M as [M1 M2 M3]. split; [done|done|apply disk_hash_range|done|]. fold n. lia. }
      exists b', pos, [q]. split; [done|]. split; [done|]. split; [|by rewrite !listing_cons, Q2, Q4, Hl].
      split; [|by apply Forall_singleton|].
      + split; [by apply Forall_singleton|done| |done|done]. cbn [concat]. rewrite app_nil_r, Q5. done.
      + exists [], q. split_and!; [done|done|done|]. rewrite Q5, <- name_length by done. unfold ent in Q4. injection Q4 as Q4 _ _. rewrite Q4. fold n. lia.
    - pose proof P as [_ _ (init & r & El & _ & Hl & _)]. destruct (put_packed hd l name inum type need P Hn M) as (b' & pos & l' & E1 & E2 & E3 & E4).
      exists b', pos, l'. split; [|done]. unfold dirent_alloc. rewrite Ef. cbn [entry_count]. rewrite Ec.
      rewrite (proj2 (Z.eqb_neq _ _)). { replace (length hd) with (at_ hd []) by (unfold at_; cbn; lia). exact E1. }
      assert (lives l <> 0%nat); [|lia]. rewrite El. unfold Gfs2DirRec.lives. rewrite filter_app, length_app, filter_cons_True by done. cbn. lia. }
  destruct P as (b' & pos & l' & E1 & E2 & [P1 P2 P3] & E4). exists b', pos, (blk hd l'). pose proof (lives_small hd l' P1) as Hs.
  pose proof (lives_perm l l' _ E4) as El. exists (be_set 2 (lf_entries df) (Z.of_nat (lives l')) hd), l'. split; [done|]. split; [done|].
  assert (H' : leaf_head (be_set 2 (lf_entries df) (Z.of_nat (lives l')) hd) (Z.of_nat (lives l'))) by (eapply leaf_head_count; [done|unfold in_u; lia]).
  assert (Pk : packed (be_set 2 (lf_entries df) (Z.of_nat (lives l')) hd) l' need).
  { split; [|done|done]. apply (recs_head df bsize hd); [|done]. rewrite (lh_length _ _ H'). symmetry. apply H. }
  split_and!; [|split; [done|by right]|done|done]. rewrite (leaf_count hd l' _ H). pose proof (ll_order LL). pose proof (lh_length _ _ H).
  unfold wrap. rewrite Z.mod_small by lia. replace (Z.of_nat (lives l) + 1) with (Z.of_nat (lives l')) by lia. unfold blk. by rewrite be_set_head by lia.
Qed.
End leaf.

(** ** The loop *)

Section split.
Context {A : Type} (ff : file_format) (df : dir_format) (C : consts) (K : fields_ok df) (LL : leaf_layout ff df) (divider : Z).

Implicit Types (r hd : block) (l : list block) (d : dirst A).

Local Abbreviation blk := Gfs2DirRec.blk.
Local Abbreviation recs_ok := (recs_ok df (c_bsize C)).
Local Abbreviation listing := (listing df).
Local Abbreviation hashed := (hashed df).
Local Abbreviation live := (live df).
Local Abbreviation lives := (lives df).
Local Abbreviation leaf_head := (leaf_head ff df).
Local Abbreviation receives := (receives ff df (c_bsize C)).
Local Abbreviation packed := (packed df (c_bsize C)).

(** A leaf with the records [l]. *)
Definition leaf_ok hd l : Prop := leaf_head hd (Z.of_nat (lives l)) /\ recs_ok hd l /\ Forall hashed l.

Definition moves r : bool := live r && (rhash df r <? divider).

Fixpoint move_need l : Z :=
  match l with [] => 0 | r :: l => (if moves r then GFS2_DIRENT_SIZE df (nlen df r) else 0) + move_need l end.

Lemma move_need_pos l : Forall (rec_ok df) l -> 0 <= move_need l.
Proof using K.
  induction 1 as [|r l R _ IH]; [done|]. cbn [move_need]. pose proof (nlen_range df r (ro_bytes _ _ R)).
  pose proof (ds_pos df K (nlen df r) ltac:(lia)). destruct (moves r); lia.
Qed.

(** The entry of a record fits where it is put. *)
Lemma record_moving r : rec_ok df r -> live r = true -> moving (rname df r) (gfs2_inum_in df r 0) (be_get 2 (de_type df) r).
Proof.
  intros R Hl. pose proof (ro_bytes _ _ R) as Rb. split.
  - by apply Forall_take, Forall_drop.
  - split; cbn; [split|by apply (be_get_bytes 8)|by apply (be_get_bytes 2)].
    + by apply (be_get_bytes 8).
    + unfold Gfs2DirRec.live, formal, c_true in Hl. zbool. done.
  - unfold rname. rewrite length_take. pose proof (nlen_range df r Rb). lia.
Qed.

Lemma same_entries d : 0 <= d_entries d < 2 ^ 32 - 1 -> fewer_entries (more_entries d) = d.
Proof.
  intros Hd. unfold fewer_entries, more_entries, with_entries, d_entries in *. destruct d as [st di], di. cbn in *.
  unfold wrap. rewrite Z.mod_small by lia. unfold c_true. rewrite (proj2 (Z.eqb_neq _ _)) by lia. cbn. do 2 f_equal. lia.
Qed.

(** The rest of the loop, from the records behind [lp] on. *)
Definition split_rest d hd lp l2 hn ln fuel moved : Prop := exists hd' lo hn' ln',
  match l2 with
  | [] => mret (d, blk hd lp, blk hn ln, moved)
  | _ => split_loop ff df C fuel d (blk hd (lp ++ l2)) (blk hn ln) (prev_of hd lp) (at_ hd lp) divider moved
  end = Ok (d, blk hd' lo, blk hn' ln', moved || existsb moves l2) /\
  leaf_ok hd' lo /\ receives hn' ln' 0 /\ (packed hn ln (move_need l2) \/ existsb moves l2 = true -> packed hn' ln' 0) /\
  listing lo ≡ₚ listing lp ++ listing (filter (fun r => moves r = false) l2) /\
  listing ln' ≡ₚ listing (filter (fun r => moves r = true) l2) ++ listing ln /\
  be_get 2 (lf_depth df) hd' = be_get 2 (lf_depth df) hd.

(** A record that stays. *)
Lemma split_stays d hd lp r l2 hn ln fuel moved : moves r = false -> leaf_ok hd (lp ++ r :: l2) ->
  split_rest d hd (lp ++ [r]) l2 hn ln fuel moved -> split_rest d hd lp (r :: l2) hn ln (S fuel) moved.
Proof using K.
  intros Hm (Hh & R & Hs) (hd' & lo & hn' & ln' & E & L & Rc & Pk & El & En & Dp). exists hd', lo, hn', ln'.
  pose proof (rec_in _ _ _ _ _ _ R) as Ro. pose proof (ro_size _ _ Ro). pose proof (fk_order _ K) as Ko.
  cbn [existsb move_need]. rewrite Hm. cbn [orb]. split_and!; try done.
  - cbn [split_loop]. rewrite (in_block_rec df hd lp r l2 Ro), !get_rec by lia. cbn [negb]. fold (formal df r) (rhash df r). fold (live r). fold (moves r).
    rewrite Hm. cbn [mbind res_bind mret res_ret]. rewrite (next_rec df (c_bsize C) K hd lp r l2 R). destruct l2 as [|r2 l2]; [exact E|].
    rewrite (app_snoc lp r), <- prev_snoc with (r := r). exact E.
  - rewrite filter_cons_True by done. rewrite El, listing_app. cbn. by rewrite <- app_assoc, <- (listing_app df [r]).
  - rewrite filter_cons_False by congruence. exact En.
Qed.

(** A record whose entry goes to the new leaf. *)
Lemma split_moves d hd lp r l2 hn ln fuel moved : moves r = true -> leaf_ok hd (lp ++ r :: l2) -> receives hn ln (move_need (r :: l2)) ->
  0 <= d_entries d < 2 ^ 32 - 1 ->
  (forall hd' lp' hn' ln', leaf_ok hd' (lp' ++ l2) -> listing lp' = listing lp -> receives hn' ln' (move_need l2) -> packed hn' ln' (move_need l2) ->
    listing ln' ≡ₚ ent df r :: listing ln -> split_rest d hd' lp' l2 hn' ln' fuel true) ->
  split_rest d hd lp (r :: l2) hn ln (S fuel) moved.
Proof using K LL.
  intros Hm (Hh & R & Hs) Rc Hd IH. pose proof (rec_in _ _ _ _ _ _ R) as Ro. pose proof (ro_size _ _ Ro). pose proof (fk_order _ K) as Ko.
  assert (Hl : live r = true) by (unfold moves in Hm; by apply andb_true_iff in Hm as [? _]). pose proof (record_moving r Ro Hl) as M.
  assert (Hr : hashed r) by (by apply Forall_app in Hs as [_ [? _]%Forall_cons]). pose proof (name_length df K r Ro Hl) as Nl.
  assert (N2 : 0 <= move_need l2) by (apply move_need_pos; pose proof (rs_recs _ _ _ _ R) as Rr; by apply Forall_app in Rr as [_ [_ ?]%Forall_cons]).
  cbn [move_need] in Rc. rewrite Hm, <- Nl in Rc. destruct (receive ff df (c_bsize C) K LL hn ln _ _ _ _ Rc N2 M) as (b' & pos & b & hn' & ln' & E1 & E2 & E3 & Rc' & Pk & En).
  destruct (del_step ff df (c_bsize C) K hd lp r l2 (leaf_head_ok ff df LL hd _ Hh) R Hs) as (lp' & F1 & F2 & F3 & F4 & F5 & F6).
  assert (Lv : lives (lp ++ r :: l2) = S (lives (lp' ++ l2))).
  { rewrite <- !(listing_length df), !listing_app, listing_cons, Hl, F4, !length_app. cbn. lia. }
  assert (L' : leaf_ok (del_head ff df hd) (lp' ++ l2)).
  { split; [|done]. replace (Z.of_nat (lives (lp' ++ l2))) with (Z.of_nat (lives (lp ++ r :: l2)) - 1) by lia.
    apply leaf_head_del; [done|done|]. pose proof (lives_small df (c_bsize C) K hd _ R). lia. }
  destruct (IH _ lp' hn' ln' L' F4 Rc' Pk En) as (hd' & lo & hn2 & ln2 & E & L & Rc2 & Pk2 & El & En2 & Dp). exists hd', lo, hn2, ln2.
  cbn [existsb]. rewrite Hm, orb_true_r. split_and!; try done.
  - cbn [split_loop]. rewrite (in_block_rec df hd lp r l2 Ro), !get_rec by lia. cbn [negb]. fold (formal df r) (rhash df r) (nlen df r). fold (live r). fold (moves r).
    rewrite Hm. assert (gfs2_inum_in df (blk hd (lp ++ r :: l2)) (at_ hd lp) = gfs2_inum_in df r 0) as -> by (unfold gfs2_inum_in; by rewrite !get_rec by lia).
    assert (take (Z.to_nat (nlen df r)) (drop (at_ hd lp + df_size df) (blk hd (lp ++ r :: l2))) = rname df r) as ->.
    { pose proof (name_room df K r Ro Hl). rewrite blk_split, at_length, drop_app_add', drop_app_le by lia. rewrite take_app_le; [done|]. rewrite length_drop. lia. }
    rewrite <- Nl, E1. cbn [mbind res_bind]. rewrite (Hr Hl), E2. cbn [mbind res_bind mret res_ret]. rewrite E3, F1, F5, (same_entries d Hd).
    rewrite (next_rec df (c_bsize C) K hd lp r l2 R). destruct l2 as [|r2 l2]; [|rewrite <- F6; exact E]. rewrite app_nil_r. exact E.
  - intros _. apply Pk2. by left.
  - rewrite filter_cons_False by congruence. by rewrite El, F4.
  - rewrite filter_cons_True by done. rewrite En2, En, (listing_cons df r), Hl. cbn. solve_Permutation.
  - rewrite Dp. by eapply del_head_depth.
Qed.

Lemma split_loop_ok l2 : forall d hd lp hn ln fuel moved, (length l2 <= fuel)%nat -> leaf_ok hd (lp ++ l2) ->
  receives hn ln (move_need l2) -> 0 <= d_entries d < 2 ^ 32 - 1 -> split_rest d hd lp l2 hn ln fuel moved.
Proof using K LL.
  induction l2 as [|r l2 IH]; intros d hd lp hn ln fuel moved Hf L Rc Hd.
  - exists hd, lp, hn, ln. rewrite app_nil_r in L. cbn. rewrite orb_false_r, app_nil_r. split_and!; try done. by intros [?|?].
  - destruct fuel as [|fuel]; [cbn in Hf; lia|]. cbn in Hf. destruct (moves r) eqn:Hm.
    + apply split_moves; try done. intros hd' lp' hn' ln' L' _ Rc' _ _. by apply IH; [lia|..].
    + apply split_stays; [done|done|]. apply IH; [lia|by rewrite <- app_snoc| |done]. cbn [move_need] in Rc. by rewrite Hm in Rc.
Qed.

(** The entries that move fit into a block of the same size. *)
Lemma move_need_le l : Forall (rec_ok df) l -> move_need l <= Z.of_nat (length (concat l)).
Proof using K.
  induction 1 as [|r l R _ IH]; [done|]. cbn [move_need concat]. rewrite length_app. destruct (moves r) eqn:Hm; [|lia].
  unfold moves in Hm. apply andb_true_iff in Hm as [Hl _]. pose proof (ro_live _ _ R Hl). lia.
Qed.
End split.
