(* ===== verification/Gfs2DirSplit.v ===== *)
(** * Splitting a leaf of a directory

    [dir_split_leaf]: a new leaf takes the lower half of the hashes of a leaf.  Afterwards every
    entry is in the leaf that the table gives for its hash. *)

From stdpp Require Import functions.
From S2P Require Import Prelude PlockWire DiskHash Gfs2Field Gfs2Log Gfs2Bits Gfs2Rgrp Gfs2RgrpThm Gfs2File Gfs2FilePath Gfs2FileTree Gfs2FileMap Gfs2FileHeight Gfs2FileThm Gfs2Dinode Gfs2Dir Gfs2DirRec Gfs2DirHash Gfs2DirLeaf.
Open Scope Z_scope.

Section frame.
Context {A : Type} `{!Allocator A, !AllocatorSpec A} (ff : file_format) (C : consts) (isdir : bool) (G : geometry ff C).

Local Abbreviation addr := (addr ff).
Local Abbreviation vp := (vp C).
Local Abbreviation owned := (owned ff C).

(** Blocks that are not of a file do not matter for it. *)
Lemma file_frame (st st' : file A) : file_ok ff C isdir st ->
  i_addr (f_ip st') = i_addr (f_ip st) -> i_data (f_ip st') = i_data (f_ip st) -> di_size (f_ip st') = di_size (f_ip st) ->
  di_height (f_ip st') = di_height (f_ip st) -> al_ok (f_alloc st') -> (forall c, al_free (f_alloc st') c -> al_free (f_alloc st) c) ->
  (forall a, full C (f_disk st' a)) -> (forall a, owned st a -> f_disk st' a = f_disk st a) ->
  file_ok ff C isdir st' /\ contents ff C isdir st' = contents ff C isdir st /\ forall a, owned st' a <-> owned st a.
Proof using G.
  intros F Ea Ed Es Eh Hok Hfree Hfull Hd. pose proof (file_sound ff C isdir st F) as Sd. set (h := di_height (f_ip st)) in *.
  assert (Adr : forall q, vp q -> (length q <= h)%nat -> addr st' q = addr st q).
  { apply addr_frame; [done|apply Sd|]. intros [|i q] Hq Hl Hz; [done|]. cbn [node]. apply Hd. exists (i :: q). split_and!; try done. fold h. lia. }
  assert (Sd' : sound C st') by (split; [done|done|rewrite Ed; apply Sd|rewrite Ea; apply Sd]).
  assert (Tr : forall k, (k <= h)%nat -> tree ff C st k -> tree ff C st' k).
  { intros k Hk [T1 T2 T3]. split.
    - intros p q Hp Hq Lp Lq Hz E. rewrite Adr in Hz, E by (done || lia). rewrite Adr in E by (done || lia). by apply T1.
    - intros p Hp Lp Hz Hf. rewrite Adr in Hz, Hf by (done || lia). by apply (T2 p Hp Lp Hz), Hfree.
    - intros p Hp Lp. rewrite Adr by (done || lia). by apply T3. }
  assert (Cl : forall k, 0 <= k -> cell ff C isdir st' k = cell ff C isdir st k).
  { intros k Hk. unfold cell. rewrite Eh, Ed. fold h. destruct h as [|h'] eqn:Eq; [done|]. destruct (_ <? _) eqn:El; [|done]. zbool.
    destruct (bs_range ff C isdir G) as [Hb _]. assert (0 <= k / bs C isdir) by (apply Z.div_pos; lia).
    assert (Hp : vp (path C (S h') (k / bs C isdir)) /\ length (path C (S h') (k / bs C isdir)) = S h') by (split; [by apply (path_vp ff C G)|by apply path_length]).
    destruct Hp as [Hp Lp]. rewrite Adr by (done || lia). destruct (_ =? 0) eqn:Ez; [done|]. zbool. rewrite Hd; [done|].
    exists (path C (S h') (k / bs C isdir)). split_and!; try done; [by intros E; rewrite E in Lp|]. fold h. lia. }
  split_and!.
  - destruct F as [Sh Sz Zr]. split; rewrite ?Es; [|done|].
    + rewrite Eh. fold h in Sh |- *. destruct h as [|h'] eqn:Eq; [destruct Sh as (_ & T & ?); split_and!; try done; by apply Tr|].
      destruct Sh as [_ T [_ Hh] Hz]. split; [done|by apply Tr|by split|by rewrite Es].
    + intros k Hk. rewrite Cl by lia. by apply Zr.
  - unfold contents. rewrite Es. apply list_fmap_ext. intros i x Hx%list_elem_of_lookup_2%elem_of_seqZ. apply Cl. lia.
  - intros a. unfold Gfs2FileHeight.owned. rewrite Eh. fold h.
    split; intros (p & H1 & H2 & H3 & H4 & H5); exists p; rewrite ?Adr in * by done; rewrite ?Adr; done.
Qed.
End frame.

(** ** Tables *)

Lemma nth_repeated (w : list Z) n k j : (j < length w)%nat -> (k < n)%nat -> nth (length w * k + j) (concat (replicate n w)) 0 = nth j w 0.
Proof.
  revert k. induction n as [|n IH]; intros k Hj Hk; [lia|]. cbn [replicate concat]. destruct k as [|k].
  - rewrite Nat.mul_0_r, app_nth1 by lia. done.
  - rewrite app_nth2 by lia. replace (length w * S k + j - length w)%nat with (length w * k + j)%nat by lia. apply IH; lia.
Qed.

Lemma repeated_length (w : list Z) n : length (concat (replicate n w)) = (n * length w)%nat.
Proof. induction n as [|n IH]; [done|]. cbn [replicate concat]. rewrite length_app, IH. lia. Qed.

(** The pointers from [s] on, as many as [n], are set to [v]. *)
Lemma write_ptrs (t : list Z) (s n : nat) v i : in_u 64 v -> (8 * (s + n) <= length t)%nat -> (8 * i + 8 <= length t)%nat ->
  table_ptr (spec_write t (concat (replicate n (store BigEndian 8 v))) (8 * s)) (Z.of_nat i) =
    if decide (s <= i < s + n)%nat then v else table_ptr t (Z.of_nat i).
Proof.
  intros Hv Hs Hi. set (w := store BigEndian 8 v). assert (Lw : length w = 8%nat) by apply store_length. unfold table_ptr.
  replace (Z.to_nat (8 * Z.of_nat i)) with (8 * i)%nat by lia.
  assert (Lr : length (concat (replicate n w)) = (n * 8)%nat) by (by rewrite repeated_length, Lw).
  set (t' := spec_write t _ _). assert (Lt : length t' = length t) by (unfold t'; rewrite spec_write_length, Lr; lia).
  assert (R8 : forall u, (8 * i + 8 <= length u)%nat -> length (spec_read u (8 * i) 8) = 8%nat)
    by (intros u Hu; unfold spec_read; rewrite length_take, length_drop; lia).
  assert (N : forall j, (j < 8)%nat -> nth j (spec_read t' (8 * i) 8) 0 = if decide (s <= i < s + n)%nat then nth j w 0 else nth j (spec_read t (8 * i) 8) 0).
  { intros j Hj. rewrite !nth_spec_read by done. unfold t'. rewrite spec_write_nth, Lr.
    destruct (decide (s <= i < s + n)%nat); [rewrite decide_True by lia|by rewrite decide_False by lia].
    replace (8 * i + j - 8 * s)%nat with (length w * (i - s) + j)%nat by lia. apply nth_repeated; lia. }
  destruct (decide (s <= i < s + n)%nat).
  - rewrite <- (load_store 8 v) by done. fold w. f_equal. apply (nth_ext _ _ 0 0); rewrite R8 by lia; [done|]. intros j Hj. by apply N.
  - f_equal. apply (nth_ext _ _ 0 0); rewrite !R8 by lia; [done|]. intros j Hj. by apply N.
Qed.

(** ** Numbers *)

Lemma land_start i k : 0 <= k < 32 -> in_u 32 i -> Z.land i (u32 (Z.lnot (u32 (u32 (Z.shiftl 1 k) - 1)))) = i / 2 ^ k * 2 ^ k.
Proof.
  intros Hk Hi. rewrite Z.shiftl_1_l. assert (0 < 2 ^ k) by (apply Z.pow_pos_nonneg; lia). assert (2 ^ k < 2 ^ 32) by (apply Z.pow_lt_mono_r; lia).
  assert (E1 : u32 (2 ^ k) = 2 ^ k) by (apply Z.mod_small; lia). assert (E2 : u32 (2 ^ k - 1) = 2 ^ k - 1) by (apply Z.mod_small; lia).
  rewrite E1, E2, <- Z.shiftr_div_pow2, <- Z.shiftl_mul_pow2 by lia. rewrite Z.sub_1_r, <- Z.ones_equiv. apply Z.bits_inj'. intros n Hn.
  rewrite Z.land_spec, wrap_testbit, Z.lnot_spec by lia. rewrite in_u_testbit in Hi by lia. destruct (Z.ltb_spec n 32).
  - rewrite Z.testbit_ones_nonneg by lia. destruct (Z.ltb_spec n k); cbn.
    + rewrite Z.shiftl_spec_low by lia. by rewrite andb_false_r.
    + rewrite Z.shiftl_spec, Z.shiftr_spec by lia. rewrite andb_true_r. f_equal. lia.
  - cbn. rewrite andb_false_r, Z.shiftl_spec, Z.shiftr_spec by lia. replace (n - k + k) with n by lia. by rewrite Hi by lia.
Qed.

(** The values of [k] more bits behind [i], of [D] bits in all. *)
Lemma start_fits i k D : 0 <= k <= D -> 0 <= i < 2 ^ D -> 0 <= i / 2 ^ k * 2 ^ k /\ i / 2 ^ k * 2 ^ k + 2 ^ k <= 2 ^ D.
Proof.
  intros Hk Hi. assert (0 < 2 ^ k) by (apply Z.pow_pos_nonneg; lia). assert (0 < 2 ^ (D - k)) by (apply Z.pow_pos_nonneg; lia).
  assert (E : 2 ^ D = 2 ^ (D - k) * 2 ^ k) by (rewrite <- Z.pow_add_r by lia; f_equal; lia).
  assert (0 <= i / 2 ^ k) by (apply Z.div_pos; lia). assert (i / 2 ^ k < 2 ^ (D - k)) by (apply Z.div_lt_upper_bound; lia). split; [nia|]. rewrite E. nia.
Qed.

Lemma hash_below hash b D : 0 <= D <= 32 -> (hash <? b * 2 ^ (32 - D)) = (hash / 2 ^ (32 - D) <? b).
Proof.
  intros HD. assert (0 < 2 ^ (32 - D)) by (apply Z.pow_pos_nonneg; lia). destruct (Z.ltb_spec (hash / 2 ^ (32 - D)) b).
  - apply Z.ltb_lt. pose proof (Z.div_mod hash (2 ^ (32 - D)) ltac:(lia)). pose proof (Z.mod_pos_bound hash (2 ^ (32 - D)) ltac:(lia)). nia.
  - apply Z.ltb_ge. pose proof (Z.div_mod hash (2 ^ (32 - D)) ltac:(lia)). pose proof (Z.mod_pos_bound hash (2 ^ (32 - D)) ltac:(lia)). nia.
Qed.

Lemma be_get_zeros n off k : (off + n <= k)%nat -> be_get n off (replicate k 0) = 0.
Proof. intros H. apply be_get_field; [|by apply field_zeros]. unfold in_u. split; [lia|]. apply Z.pow_pos_nonneg; lia. Qed.

(** ** Entries *)

Lemma listing_rec df (l : list block) e : e ∈ listing df l <-> exists r, e = ent df r /\ r ∈ l /\ live df r = true.
Proof. unfold listing. rewrite list_elem_of_fmap. setoid_rewrite list_elem_of_filter. naive_solver. Qed.

Lemma listing_one df (r : block) : live df r = true -> ent df r ∈ listing df [r].
Proof. intros Hl. apply listing_rec. exists r. split_and!; [done|apply list_elem_of_here|done]. Qed.

Lemma listing_split df (f : block -> bool) l :
  listing df l ≡ₚ listing df (filter (fun r => f r = false) l) ++ listing df (filter (fun r => f r = true) l).
Proof.
  induction l as [|r l IH]; [done|]. destruct (f r) eqn:E; [rewrite filter_cons_False, filter_cons_True by congruence|rewrite filter_cons_True, filter_cons_False by congruence];
    rewrite !(listing_cons df r), IH; solve_Permutation.
Qed.

Section split_leaf.
Context {A : Type} `{!Allocator A, !AllocatorSpec A} (ff : file_format) (df : dir_format) (C : consts) (DC : dir_consts)
  (G : geometry ff C) (HZ : hash_sizes C DC) (K : fields_ok df) (LL : leaf_layout ff df)
  (Hm : in_u 32 (GFS2_MAGIC (ff_head ff)) /\ in_u 32 (GFS2_METATYPE_LF df)).

Implicit Types (d : dirst A) (hd : block) (l : list block).

Local Abbreviation blk := Gfs2DirRec.blk.
Local Abbreviation leaf_ok := (leaf_ok ff df C).
Local Abbreviation receives := (receives ff df (c_bsize C)).
Local Abbreviation listing := (listing df).
Local Abbreviation contents := (contents ff C true).

(** Fields one after the other in a block of [n] bytes. *)
Lemma be_set_len n k off v (b : block) : length b = n -> (off + k <= n)%nat -> length (be_set k off v b) = n.
Proof. intros <- H. by apply be_set_length. Qed.

(** A new leaf takes what fits behind its header. *)
Lemma new_leaf_ok need : Z.of_nat (lf_size df + df_size df) <= c_bsize C <= 2 ^ 16 -> need <= c_bsize C - Z.of_nat (lf_size df) ->
  exists hd l, new_leaf ff df C = blk hd l /\ receives hd l need /\ listing l = [].
Proof using K LL Hm.
  intros Hb Hn. pose proof (ll_order _ _ LL) as O. pose proof (fk_order _ K) as Ko. destruct Hm as [M1 M2]. set (n := Z.to_nat (c_bsize C)).
  assert (exists z area : block, z = replicate (lf_size df) 0 /\ area = replicate (n - lf_size df) 0) as (z & area & Ez & Ear) by eauto.
  assert (Lz : length z = lf_size df) by (rewrite Ez; apply length_replicate).
  assert (Hz : zero_block C = z ++ area) by (rewrite Ez, Ear; unfold zero_block; fold n; rewrite <- replicate_add; f_equal; lia).
  assert (Hl : live df area = false) by (rewrite Ear; unfold live, formal; rewrite be_get_zeros by lia; done).
  set (b1 := be_set 4 (f_magic (ff_head ff)) (GFS2_MAGIC (ff_head ff)) z). assert (L1 : length b1 = lf_size df) by (apply be_set_len; [done|lia]).
  set (b2 := be_set 4 (f_type (ff_head ff)) (GFS2_METATYPE_LF df) b1). assert (L2 : length b2 = lf_size df) by (apply be_set_len; [done|lia]).
  set (b3 := be_set 4 (f_format (ff_head ff)) (GFS2_FORMAT_LF df) b2). assert (L3 : length b3 = lf_size df) by (apply be_set_len; [done|lia]).
  set (b4 := be_set 8 (f_pad0 (ff_head ff)) 0 b3). assert (L4 : length b4 = lf_size df) by (apply be_set_len; [done|lia]).
  set (b5 := be_set 4 (f_pad1 (ff_head ff)) 0 b4). assert (L5 : length b5 = lf_size df) by (apply be_set_len; [done|lia]).
  set (hd := be_set 4 (lf_dirent_format df) (GFS2_FORMAT_DE df) b5).
  assert (T : be_get 4 (f_type (ff_head ff)) hd = GFS2_METATYPE_LF df).
  { unfold hd. rewrite be_get_set_other by lia. unfold b5. rewrite be_get_set_other by lia. unfold b4. rewrite be_get_set_other by lia. unfold b3. rewrite be_get_set_other by lia. apply be_get_set_same; [done|lia]. }
  assert (Mg : be_get 4 (f_magic (ff_head ff)) hd = GFS2_MAGIC (ff_head ff)).
  { unfold hd. rewrite be_get_set_other by lia. unfold b5. rewrite be_get_set_other by lia. unfold b4. rewrite be_get_set_other by lia. unfold b3. rewrite be_get_set_other by lia. unfold b2. rewrite be_get_set_other by lia. apply be_get_set_same; [done|lia]. }
  assert (Ec : be_get 2 (lf_entries df) hd = 0).
  { unfold hd. rewrite be_get_set_other by lia. unfold b5. rewrite be_get_set_other by lia. unfold b4. rewrite be_get_set_other by lia. unfold b3. rewrite be_get_set_other by lia. unfold b2. rewrite be_get_set_other by lia. unfold b1. rewrite be_get_set_other by lia. rewrite Ez. apply be_get_zeros. lia. }
  exists hd, [area]. split_and!; [|split; [|left]|by rewrite listing_cons, Hl].
  - unfold new_leaf, gfs2_meta_header_out. rewrite Hz. rewrite be_set_head by lia. fold b1. rewrite be_set_head by lia. fold b2.
    rewrite be_set_head by lia. fold b3. rewrite be_set_head by lia. fold b4. rewrite be_set_head by lia. fold b5. rewrite be_set_head by lia.
    fold hd. unfold Gfs2DirRec.blk. cbn [concat]. by rewrite app_nil_r.
  - rewrite lives_cons, Hl. split; [by apply be_set_len; [|lia]| | |done|].
    + unfold is_leaf. rewrite T. by apply Z.eqb_eq.
    + unfold gfs2_check_meta. rewrite T, Mg, !Z.eqb_refl. cbn. by rewrite andb_false_r.
    + unfold hd, b5, b4, b3, b2, b1. repeat apply be_set_bytes. rewrite Ez. apply replicate_bytes.
  - assert (La : length area = (n - lf_size df)%nat) by (rewrite Ear; apply length_replicate).
    assert (Lh : length hd = lf_size df) by (apply be_set_len; [done|lia]).
    exists area. split_and!; try done; try lia. rewrite Ear. apply replicate_bytes.
Qed.

Lemma owned_used (st : file A) a : file_ok ff C true st -> owned ff C st a -> ~ al_free (f_alloc st) a.
Proof.
  intros F (p & Hp & Hv & Hl & <- & Hz). pose proof (fo_shape _ _ _ _ F) as Sh.
  destruct (di_height (f_ip st)); [destruct p; [done|cbn in Hl; lia]|]. destruct Sh as [_ T _ _]. by apply (t_used _ _ _ _ T).
Qed.

(** The new leaf is allocated, and the pointers to it are written. *)
Lemma split_table d (s n : Z) : table_ok ff C DC d -> d_depth d < 32 -> 0 <= s -> 0 < n -> n * 8 < 2 ^ 31 -> s + n <= 2 ^ d_depth d ->
  room (f_alloc (d_file d)) (S (write_room C true (s * 8) (n * 8))) ->
  exists bn st1 st2, meta_alloc (d_file d) = Ok (bn, st1) /\ f_disk st1 = f_disk (d_file d) /\ al_free (f_alloc (d_file d)) bn /\
    writei ff C (with_file d st1) (concat (replicate (Z.to_nat n) (store BigEndian 8 bn))) (s * 8) = Ok (n * 8, st2) /\
    table_ok ff C DC (with_file d st2) /\
    contents st2 = spec_write (contents (d_file d)) (concat (replicate (Z.to_nat n) (store BigEndian 8 bn))) (8 * Z.to_nat s) /\
    ~ owned ff C st2 bn /\
    forall a, ~ al_free (f_alloc (d_file d)) a -> ~ owned ff C (d_file d) a ->
      a <> bn /\ f_disk st2 a = f_disk (d_file d) a /\ ~ al_free (f_alloc st2) a /\ ~ owned ff C st2 a.
Proof using G.
  intros T HD Hs Hn Hn8 Hle R. pose proof (table_length ff C DC d T) as Lt. pose proof T as [Td F TD Es Tm]. pose proof (file_sound ff C true _ F) as Sd.
  destruct (alloc_room (f_alloc (d_file d)) META _ (s_alloc _ _ Sd) R) as (bn & a' & Ea & Hf & Hok & R' & Hc).
  unfold meta_alloc. rewrite Ea. cbn [mbind res_bind mret res_ret]. eexists bn, _. set (st1 := mkFile a' _ _).
  destruct (file_frame ff C true G (d_file d) st1 F) as (F1 & C1 & O1); try done; [intros c Hcc; by apply Hc|apply Sd|].
  set (lp := concat _). assert (Ll : length lp = (Z.to_nat n * 8)%nat) by (unfold lp; by rewrite repeated_length, store_length).
  assert (P32 : 2 ^ d_depth d < 2 ^ 32) by (apply Z.pow_lt_mono_r; lia). pose proof (g_small _ _ G). pose proof (al_range _ _ (s_alloc _ _ Sd) Hf) as Hbn.
  destruct (writei_ok ff C true G st1 lp (s * 8) 0 F1) as (st2 & E2 & F2 & C2 & [X1 X2 X3 X4] & _).
  { apply Forall_concat, Forall_replicate, store_bytes. } { lia. } { lia. } { lia. }
  { rewrite Ll, Nat.add_0_r. replace (Z.of_nat (Z.to_nat n * 8)) with (n * 8) by lia. exact R'. }
  rewrite decide_False in C2 by (intros E; rewrite E in Ll; cbn in Ll; lia). rewrite C1 in C2. replace (Z.to_nat (s * 8)) with (8 * Z.to_nat s)%nat in C2 by lia.
  exists st2. split_and!; try done.
  - fold st1. unfold writei. rewrite (Td : d_isdir (with_file d st1) = true). cbn [with_file d_file]. rewrite E2, Ll. do 2 f_equal. lia.
  - split; try done. cbn. rewrite <- (contents_length ff C true _ F2), C2, spec_write_length, Ll. unfold d_depth in *. cbn. lia.
  - intros [Ho|Ho]%X3; [by apply O1, (owned_used _ _ F) in Ho|]. by apply Hc in Ho as [_ ?].
  - intros a Hfa Hoa. assert (Hfa1 : ~ al_free (f_alloc st1) a) by (intros Hx; by apply Hc in Hx as [? _]). assert (Hoa1 : ~ owned ff C st1 a) by (by rewrite O1).
    split_and!; [by intros ->|by rewrite X4| |by intros [?|?]%X3]. intros Hx. by apply X2 in Hx.
Qed.

(** *** The new leaf at the end *)

Lemma packed_leaf hd l : receives hd l 0 -> packed df (c_bsize C) hd l 0 -> leaf_ok hd l.
Proof. intros [H _] [P1 P2 _]. by split_and!. Qed.

Lemma packed_some hd l need : packed df (c_bsize C) hd l need -> listing l <> [].
Proof. intros [_ _ (init & r & -> & _ & Hl & _)]. rewrite listing_app, listing_cons, Hl. by destruct (listing init). Qed.

(** A leaf without entries has a record that is not used. *)
Lemma empty_leaf hd l : receives hd l 0 -> listing l = [] -> GFS2_DIRENT_SIZE df 0 + Z.of_nat (lf_size df) <= c_bsize C ->
  exists b pos l', dirent_alloc ff df (c_bsize C) (blk hd l) 0 = Ok (Some (b, pos)) /\ be_set 8 (pos + de_formal df) 0 b = blk hd l' /\
    leaf_ok hd l' /\ listing l' = [].
Proof using K LL.
  intros [H [(area & -> & Hl & Hb & _ & Ln & Hfit & Hhd)|P]] He Hr; [|by apply packed_some in P].
  pose proof (lh_length _ _ _ _ H) as Lh. pose proof (ds_pos df K 0 ltac:(lia)) as D. pose proof (fk_order _ K) as Ko.
  destruct (whole_ok df K area 0 ltac:(lia) ltac:(lia) Hb) as [[W1 W2 W3 W4] W5]. set (w := whole df area 0) in *.
  assert (Ww : live df w = false).
  { unfold live, formal, w, whole. rewrite !be_get_set_other by (rewrite ?be_set_length; lia). exact Hl. }
  assert (Rw : rec_ok df w) by (split; [done|lia|done|congruence]). destruct (killed_ok df K w Rw) as (K1 & K2 & K3).
  unfold dirent_alloc. rewrite (leaf_first ff df LL hd [area] _ H). cbn [entry_count]. rewrite (leaf_count ff df LL hd [area] _ H), lives_cons, Hl. cbn [Nat.add lives filter length Z.of_nat Z.eqb].
  assert (in_block df (blk hd [area]) (length hd) = true) as ->.
  { unfold in_block. apply Nat.leb_le. unfold Gfs2DirRec.blk. cbn [concat]. rewrite !length_app. cbn. lia. }
  cbn [negb mret res_ret]. eexists _, _, [killed df w]. split; [reflexivity|].
  assert (Ea : length hd = at_ hd []) by (unfold at_; cbn; lia). rewrite Ea. split_and!.
  - unfold wrap. rewrite !Z.mod_small by (unfold at_; cbn; lia).
    rewrite (set_rec 2 (de_rec_len df) _ hd [] area []) by lia. rewrite (set_rec 2 (de_name_len df) _ hd [] _ []) by (rewrite be_set_length; lia).
    replace (c_bsize C - Z.of_nat (at_ hd [])) with (Z.of_nat (length area)) by (unfold at_; cbn; lia). fold (whole df area 0). fold w.
    apply (set_rec 8 (de_formal df) 0 hd [] w []). lia.
  - split; [|split].
    + rewrite lives_cons, K2. rewrite lives_cons, Hl in H. exact H.
    + split; [by apply Forall_singleton|done| |done|done]. cbn [concat]. rewrite app_nil_r. lia.
    + apply Forall_singleton. intros Hx. congruence.
  - by rewrite listing_cons, K2.
Qed.

(** The depth of a leaf. *)
Lemma set_depth hd l v : leaf_ok hd l -> in_u 16 v -> let hd' := be_set 2 (lf_depth df) v hd in
  be_set 2 (lf_depth df) v (blk hd l) = blk hd' l /\ leaf_ok hd' l /\ be_get 2 (lf_depth df) hd' = v.
Proof using LL.
  intros (H & R & Hh) Hv hd'. pose proof (ll_order _ _ LL). pose proof (lh_length _ _ _ _ H). unfold Gfs2DirRec.blk. split_and!.
  - by rewrite be_set_head by lia.
  - split; [by apply leaf_head_depth|]. split; [|done]. apply (recs_head df (c_bsize C) hd); [|done]. unfold hd'. rewrite be_set_length; lia.
  - apply be_get_set_same; [done|lia].
Qed.

Lemma leaf_full hd l : leaf_ok hd l -> full C (blk hd l).
Proof.
  intros (H & R & _). split.
  - rewrite (blk_length df (c_bsize C) hd l R). pose proof (rs_length _ _ _ _ R). lia.
  - unfold Gfs2DirRec.blk. apply Forall_app. split; [apply H|apply (area_bytes df), R].
Qed.

(** *** The whole step *)

(** The number of pointers to a leaf, and the first of them. *)
Definition span d hd : Z := 2 ^ (d_depth d - be_get 2 (lf_depth df) hd).
Definition first_index d hd (lindex : Z) : Z := lindex / span d hd * span d hd.

(** A leaf that can be split: the pointers of its hashes lead to it, and its entries have
    these hashes. *)
Record splittable d (lindex leaf_no : Z) hd l : Prop := {
  sp_table : table_ok ff C DC d;
  sp_depth : be_get 2 (lf_depth df) hd < d_depth d <= 28;
  sp_leaf : f_disk (d_file d) leaf_no = blk hd l /\ leaf_ok hd l;
  sp_index : 0 <= lindex < 2 ^ d_depth d;
  sp_used : ~ al_free (f_alloc (d_file d)) leaf_no /\ ~ owned ff C (d_file d) leaf_no;
  sp_ptrs : forall i, first_index d hd lindex <= i < first_index d hd lindex + span d hd -> table_ptr (contents (d_file d)) i = leaf_no;
  sp_hash : forall r, r ∈ l -> live df r = true ->
    first_index d hd lindex <= leaf_index d (rhash df r) < first_index d hd lindex + span d hd;
  sp_entries : 0 <= d_entries d < 2 ^ 32 - 1;
  sp_room : room (f_alloc (d_file d)) (S (write_room C true (first_index d hd lindex * 8) (span d hd / 2 * 8)));
  sp_size : GFS2_DIRENT_SIZE df 0 + Z.of_nat (lf_size df) <= c_bsize C
}.

(** The numbers that the code computes. *)
Lemma split_numbers d lindex leaf_no hd l : splittable d lindex leaf_no hd l ->
  let dl := be_get 2 (lf_depth df) hd in let len := u32 (Z.shiftl 1 (d_depth d - dl)) in
  let s := first_index d hd lindex in let n := span d hd / 2 in
  len = span d hd /\ Z.shiftr len 1 = n /\ Z.land lindex (u32 (Z.lnot (u32 (len - 1)))) = s /\ span d hd = n + n /\
  0 <= s /\ 0 < n /\ n * 8 < 2 ^ 31 /\ s + span d hd <= 2 ^ d_depth d /\ 0 <= dl < 2 ^ 16 /\
  u32 (Z.shiftl (s + n) (32 - d_depth d)) = (s + n) * 2 ^ (32 - d_depth d).
Proof.
  intros [_ HD [_ (Hh & _)] Hi _ _ _ _ _ _] dl len s n.
  assert (Hdl : 0 <= dl < 2 ^ 16) by (apply (be_get_bytes 2), Hh). set (D := d_depth d) in *. set (k := D - dl) in *.
  assert (Ek : span d hd = 2 ^ k) by done. assert (P : 0 < 2 ^ k) by (apply Z.pow_pos_nonneg; lia). assert (P28 : 2 ^ k <= 2 ^ 28) by (apply Z.pow_le_mono_r; lia).
  assert (El : len = 2 ^ k) by (unfold len; fold k; rewrite Z.shiftl_1_l; apply Z.mod_small; lia).
  assert (Eh : 2 ^ k = 2 ^ (k - 1) * 2) by (replace k with (k - 1 + 1) at 1 by lia; by rewrite Z.pow_add_r by lia).
  assert (En : n = 2 ^ (k - 1)) by (unfold n; rewrite Ek, Eh; by apply Z.div_mul). destruct (start_fits lindex k D ltac:(lia) Hi) as [S1 S2].
  assert (Es : s = lindex / 2 ^ k * 2 ^ k) by (unfold s, first_index; by rewrite Ek). rewrite <- Es in S1, S2.
  assert (PD : 2 ^ D <= 2 ^ 28) by (apply Z.pow_le_mono_r; lia).
  split_and!; try lia.
  - rewrite El, Z.shiftr_div_pow2 by lia. rewrite Eh. unfold n. rewrite Ek, Eh. done.
  - unfold len. fold k. rewrite land_start; [done|lia|]. unfold in_u. lia.
  - rewrite Z.shiftl_mul_pow2 by lia. apply Z.mod_small. split; [apply Z.mul_nonneg_nonneg; lia|].
    assert (Em : 2 ^ 32 = 2 ^ D * 2 ^ (32 - D)) by (rewrite <- Z.pow_add_r by lia; f_equal; lia). rewrite Em.
    apply Z.mul_lt_mono_pos_r; [apply Z.pow_pos_nonneg; lia|lia].
Qed.

(** The entries after the loop, with the new leaf completed. *)
Lemma split_entries d2 hd l div : leaf_ok hd l -> 0 <= d_entries d2 < 2 ^ 32 - 1 -> GFS2_DIRENT_SIZE df 0 + Z.of_nat (lf_size df) <= c_bsize C ->
  exists hd1 l1 hd2 l2 moved,
    ('(d, ob, nb, moved) ← split_loop ff df C (length (blk hd l)) d2 (blk hd l) (new_leaf ff df C) None (gfs2_dirent_first ff df (blk hd l)).2 div false;
     '(d, nb) ← (if moved : bool then mret (d, nb) else
        r ← dirent_alloc ff df (c_bsize C) nb 0;
        match r with None => Die | Some (nb, new) => mret (more_entries d, be_set 8 (new + de_formal df) 0 nb) end);
     mret (d, ob, nb)) = Ok (if moved : bool then d2 else more_entries d2, blk hd1 l1, blk hd2 l2) /\
    leaf_ok hd1 l1 /\ leaf_ok hd2 l2 /\ be_get 2 (lf_depth df) hd1 = be_get 2 (lf_depth df) hd /\ (moved = true <-> listing l2 <> []) /\
    listing l1 ≡ₚ listing (filter (fun r => moves df div r = false) l) /\ listing l2 ≡ₚ listing (filter (fun r => moves df div r = true) l).
Proof using K LL Hm.
  intros L Hd Hs. pose proof L as (Hh & R & _). pose proof (rs_length _ _ _ _ R) as Ln. pose proof (lh_length _ _ _ _ Hh) as Lh. pose proof (rs_fit _ _ _ _ R).
  pose proof (ds_pos df K 0 ltac:(lia)). pose proof (move_need_le df K div l (rs_recs _ _ _ _ R)) as Hn.
  destruct (new_leaf_ok (move_need df div l)) as (hn & ln & En & Rc & Ll); [lia|lia|].
  assert (Hf : (length l <= length (blk hd l))%nat) by (unfold Gfs2DirRec.blk; rewrite length_app; pose proof (recs_length df K l (rs_recs _ _ _ _ R)); lia).
  destruct (split_loop_ok ff df C K LL div l d2 hd [] hn ln (length (blk hd l)) false Hf L Rc Hd) as (hd1 & l1 & hn1 & ln1 & E & L1 & Rc1 & Pk & P1 & P2 & Dp).
  rewrite Ll, app_nil_r in P2. cbn [listing fmap list_fmap filter app orb] in P1, E.
  pose proof (rs_some _ _ _ _ R) as Hne. destruct l as [|r0 l0]; [done|]. set (l := r0 :: l0) in *. cbn [app] in E.
  assert (Ea : (gfs2_dirent_first ff df (blk hd l)).2 = at_ hd []) by (rewrite (leaf_first ff df LL hd l _ Hh); unfold at_; cbn; lia).
  rewrite En, Ea. change (prev_of hd []) with (@None nat) in E. rewrite E. cbn [mbind res_bind].
  destruct (existsb (moves df div) l) eqn:Ex.
  - exists hd1, l1, hn1, ln1, true. split; [done|]. assert (Pk1 : packed df (c_bsize C) hn1 ln1 0) by (apply Pk; by right).
    split; [done|]. split; [by apply packed_leaf|]. split; [done|]. split; [|done].
    split; [intros _; by eapply packed_some|done].
  - assert (L0 : listing ln1 = []).
    { apply Permutation_nil. rewrite P2. replace (filter (fun r => moves df div r = true) l) with (@nil block); [done|]. symmetry.
      clear - Ex. induction l as [|r l IH]; [done|]. cbn in Ex. apply orb_false_iff in Ex as [Er El]. rewrite filter_cons_False by congruence. auto. }
    destruct (empty_leaf hn1 ln1 Rc1 L0 Hs) as (b & pos & l2 & E1 & E2 & L2 & El). rewrite E1. cbn [mbind res_bind mret res_ret]. rewrite E2.
    exists hd1, l1, hn1, l2, false. split; [done|]. split; [done|]. split; [done|]. split; [done|]. split; [by rewrite El; split|]. split; [done|]. by rewrite El, <- L0.
Qed.

(** The state at the end. *)
Definition split_result d2 (moved : bool) (leaf_no bn : Z) (ob nb : block) : dirst A :=
  put_disk (put_disk (add_block (if moved then d2 else more_entries d2)) leaf_no ob) bn nb.

Lemma split_runs d lindex leaf_no hd l : splittable d lindex leaf_no hd l ->
  let s := first_index d hd lindex in let n := span d hd / 2 in let dl := be_get 2 (lf_depth df) hd in
  exists bn st2 hd1 l1 hd2 l2 moved,
    dir_split_leaf ff df C d lindex leaf_no = Ok (split_result (with_file d st2) moved leaf_no bn (blk hd1 l1) (blk hd2 l2)) /\
    al_free (f_alloc (d_file d)) bn /\ table_ok ff C DC (with_file d st2) /\
    contents st2 = spec_write (contents (d_file d)) (concat (replicate (Z.to_nat n) (store BigEndian 8 bn))) (8 * Z.to_nat s) /\
    ~ owned ff C st2 bn /\
    (forall a, ~ al_free (f_alloc (d_file d)) a -> ~ owned ff C (d_file d) a ->
      a <> bn /\ f_disk st2 a = f_disk (d_file d) a /\ ~ al_free (f_alloc st2) a /\ ~ owned ff C st2 a) /\
    (leaf_ok hd1 l1 /\ be_get 2 (lf_depth df) hd1 = dl + 1) /\ (leaf_ok hd2 l2 /\ be_get 2 (lf_depth df) hd2 = dl + 1) /\
    (moved = true <-> listing l2 <> []) /\
    let div := (s + n) * 2 ^ (32 - d_depth d) in
    listing l1 ≡ₚ listing (filter (fun r => moves df div r = false) l) /\ listing l2 ≡ₚ listing (filter (fun r => moves df div r = true) l).
Proof using G K LL Hm.
  intros Sp s n dl. destruct (split_numbers _ _ _ _ _ Sp) as (N1 & N2 & N3 & N4 & N5 & N6 & N7 & N8 & N9 & N10). fold s n dl in N1, N2, N3, N4, N5, N6, N7, N8, N9, N10.
  destruct Sp as [T HD [Eb L] Hi [Hu Ho] _ _ He R Hsz].
  destruct (split_table d s n T ltac:(lia) N5 N6 N7 ltac:(lia) R) as (bn & st1 & st2 & E1 & E1d & Hf & E2 & T2 & C2 & Hob & Fr).
  destruct (split_entries (with_file d st2) hd l ((s + n) * 2 ^ (32 - d_depth d)) L He Hsz) as (hd1 & l1 & hd2 & l2 & moved & E3 & L1 & L2 & Dp & Mv & P1 & P2).
  fold dl in Dp. destruct (set_depth hd1 l1 (dl + 1) L1) as (B1 & L1' & D1); [unfold in_u; lia|].
  destruct (set_depth hd2 l2 (dl + 1) L2) as (B2 & L2' & D2); [unfold in_u; lia|].
  exists bn, st2, (be_set 2 (lf_depth df) (dl + 1) hd1), l1, (be_set 2 (lf_depth df) (dl + 1) hd2), l2, moved. split_and!; try done; [|by apply Mv..].
  unfold dir_split_leaf. rewrite E1. cbn [mbind res_bind with_file d_file]. rewrite E1d, Eb.
  assert (Ed : be_get 2 (lf_depth df) (blk hd l) = dl).
  { pose proof (ll_order _ _ LL). destruct L as (Hh & _). pose proof (lh_length _ _ _ _ Hh). unfold Gfs2DirRec.blk. by rewrite be_get_front by lia. }
  rewrite Ed. change (d_depth (with_file d st1)) with (d_depth d). rewrite N3, N2, E2. cbn [mbind res_bind]. rewrite Z.eqb_refl. cbn [negb].
  change (d_depth (with_file (with_file d st1) st2)) with (d_depth d). change (with_file (with_file d st1) st2) with (with_file d st2). rewrite N10.
  destruct (split_loop _ _ _ _ _ _ _ _ _ _ _) as [[[[d3 ob] nb] mv]| |]; cbn [mbind res_bind] in E3 |- *; [|done|done].
  destruct (if mv then _ else _) as [[d4 nb']| |]; cbn [mbind res_bind mret res_ret] in E3 |- *; [|done|done]. injection E3 as -> -> ->.
  assert (be_get 2 (lf_depth df) (blk hd1 l1) = dl) as ->.
  { pose proof (ll_order _ _ LL). destruct L1 as (Hh & _). pose proof (lh_length _ _ _ _ Hh). unfold Gfs2DirRec.blk. by rewrite be_get_front by lia. }
  assert (u16 (dl + 1) = dl + 1) as -> by (apply Z.mod_small; lia). by rewrite B1, B2.
Qed.

(** The table of the result, and its leaves. *)
Lemma split_result_ok d st2 moved leaf_no bn ob nb : table_ok ff C DC (with_file d st2) -> leaf_no <> bn ->
  ~ owned ff C st2 leaf_no -> ~ owned ff C st2 bn -> full C ob -> full C nb ->
  let d' := split_result (with_file d st2) moved leaf_no bn ob nb in
  table_ok ff C DC d' /\ d_depth d' = d_depth d /\ contents (d_file d') = contents st2 /\
  f_disk (d_file d') leaf_no = ob /\ f_disk (d_file d') bn = nb /\
  (forall a, a <> leaf_no -> a <> bn -> f_disk (d_file d') a = f_disk st2 a) /\
  d_entries d' = if moved then d_entries d else u32 (d_entries d + 1).
Proof using G.
  intros T Hne Ho1 Ho2 F1 F2 d'. pose proof T as [Td F TD Es Tm]. pose proof (file_sound ff C true _ F) as Sd.
  assert (Ef : d_file d' = mkFile (f_alloc st2) (<[bn := nb]> (<[leaf_no := ob]> (f_disk st2))) (ip_add_block (f_ip st2))) by (unfold d'; by destruct moved).
  assert (Ei : di_mode (d_di d') = di_mode (d_di d) /\ di_depth (d_di d') = di_depth (d_di d)) by (unfold d'; destruct moved; cbn; by destruct (d_di d)).
  destruct Ei as [Em Ed]. assert (Fr : file_ok ff C true (d_file d') /\ contents (d_file d') = contents st2).
  { destruct (file_frame ff C true G st2 (d_file d') F) as (F' & C' & _); [..|by split]; rewrite Ef; cbn; try done; [apply Sd| |].
    - intros a. destruct (decide (a = bn)) as [->|]; [by rewrite disk_insert_eq|]. rewrite disk_insert_ne by done.
      destruct (decide (a = leaf_no)) as [->|]; [by rewrite disk_insert_eq|]. rewrite disk_insert_ne by done. apply Sd.
    - intros a Ha. rewrite !disk_insert_ne; [done|congruence|congruence]. }
  destruct Fr as [F' C'].
  split_and!.
  - split; unfold d_isdir, d_depth in *; rewrite ?Em, ?Ed; try done. by rewrite Ef.
  - unfold d_depth. exact Ed.
  - done.
  - rewrite Ef. cbn. rewrite disk_insert_ne, disk_insert_eq by done. done.
  - rewrite Ef. cbn. by rewrite disk_insert_eq.
  - intros a H1 H2. rewrite Ef. cbn. by rewrite !disk_insert_ne.
  - unfold d'. clear. destruct d as [st []], moved; reflexivity.
Qed.

(** Where the hash of a record leads. *)
Lemma moves_index d r b : 0 < d_depth d <= 32 -> live df r = true ->
  moves df (b * 2 ^ (32 - d_depth d)) r = (leaf_index d (rhash df r) <? b).
Proof.
  intros HD Hl. unfold moves, leaf_index, c_true. rewrite Hl, hash_below by lia. cbn. rewrite (proj2 (Z.eqb_neq _ _)) by lia. cbn.
  by rewrite Z.shiftr_div_pow2 by lia.
Qed.

(** C19: Splitting a leaf, with enough free blocks, moves entries to a new leaf and loses none.
    Every entry is then in the leaf that the table gives for the hash of its name, both leaves
    stand for one bit more of the hash, and blocks that are in use elsewhere keep what they
    hold.  When no entry is moved, the count of the directory is one too high. *)
Theorem split_leaf_found d lindex leaf_no hd l : splittable d lindex leaf_no hd l ->
  exists d' bn hd1 l1 hd2 l2, dir_split_leaf ff df C d lindex leaf_no = Ok d' /\
    table_ok ff C DC d' /\ d_depth d' = d_depth d /\
    (f_disk (d_file d') leaf_no = blk hd1 l1 /\ leaf_ok hd1 l1 /\ be_get 2 (lf_depth df) hd1 = be_get 2 (lf_depth df) hd + 1) /\
    (f_disk (d_file d') bn = blk hd2 l2 /\ leaf_ok hd2 l2 /\ be_get 2 (lf_depth df) hd2 = be_get 2 (lf_depth df) hd + 1) /\
    listing l ≡ₚ listing l1 ++ listing l2 /\
    (forall e, e ∈ listing l -> exists leaf, gfs2_get_leaf_nr ff C d' (leaf_index d' (gfs2_disk_hash e.1)) = Ok (d', leaf) /\
      (leaf = leaf_no /\ e ∈ listing l1 \/ leaf = bn /\ e ∈ listing l2)) /\
    d_entries d' = d_entries d + (if decide (listing l2 = []) then 1 else 0) /\
    forall a, ~ al_free (f_alloc (d_file d)) a -> ~ owned ff C (d_file d) a -> a <> leaf_no -> f_disk (d_file d') a = f_disk (d_file d) a.
Proof using G K LL Hm.
  intros Sp. destruct (split_numbers _ _ _ _ _ Sp) as (_ & _ & _ & N4 & N5 & N6 & _ & N8 & N9 & _).
  destruct (split_runs _ _ _ _ _ Sp) as (bn & st2 & hd1 & l1 & hd2 & l2 & moved & E & Hf & T2 & C2 & Hob & Fr & [L1 D1] & [L2 D2] & Mv & P1 & P2).
  destruct Sp as [T HD [Eb (_ & Rl & Hh)] Hi [Hu Ho] Hptr Hhash He _ _]. set (s := first_index d hd lindex) in *. set (n := span d hd / 2) in *.
  destruct (Fr leaf_no Hu Ho) as (Hne & _ & _ & Ho2).
  destruct (split_result_ok d st2 moved leaf_no bn (blk hd1 l1) (blk hd2 l2) T2 Hne Ho2 Hob (leaf_full _ _ L1) (leaf_full _ _ L2)) as (T' & Dd & Cd & B1 & B2 & Bo & De).
  set (d' := split_result _ _ _ _ _ _) in *. exists d', bn, hd1, l1, hd2, l2. split_and!; try done.
  - rewrite P1, P2. apply listing_split.
  - intros e (r & -> & Hr & Hl)%listing_rec. assert (Hh' : hashed df r) by (by eapply Forall_forall in Hh). cbn [ent fst]. rewrite <- (Hh' Hl).
    assert (H32 : in_u 32 (rhash df r)).
    { apply (be_get_bytes 4). pose proof (rs_recs _ _ _ _ Rl) as Rr. eapply Forall_forall in Rr; [|exact Hr]. apply Rr. }
    assert (Ei : leaf_index d' (rhash df r) = leaf_index d (rhash df r)) by (unfold leaf_index; by rewrite Dd).
    pose proof (leaf_index_range d _ ltac:(lia) H32) as Hx. pose proof (Hhash r Hr Hl) as Hs. rewrite Ei.
    rewrite (get_leaf_nr_ok ff C DC G d' _ T') by (rewrite ?Dd; lia). eexists. split; [reflexivity|].
    pose proof (moves_index d r (s + n) ltac:(lia) Hl) as Mi. set (i := leaf_index d (rhash df r)) in *.
    pose proof (table_length ff C DC d T) as Lt. pose proof (al_range _ _ (s_alloc _ _ (file_sound ff C true _ (to_file _ _ _ _ T))) Hf) as Hbn.
    assert (Bn : in_u 64 bn) by (unfold in_u; lia).
    rewrite Cd, C2. rewrite <- (Z2Nat.id i) by lia. rewrite (write_ptrs _ (Z.to_nat s) (Z.to_nat n) bn (Z.to_nat i)) by (done || lia).
    destruct (Z.ltb_spec i (s + n)) as [Hlt|Hge].
    + right. rewrite decide_True by lia. split; [done|]. rewrite P2. apply listing_rec. exists r. by rewrite list_elem_of_filter.
    + left. rewrite decide_False by lia. rewrite Z2Nat.id by lia. split; [by apply Hptr|]. rewrite P1. apply listing_rec. exists r. by rewrite list_elem_of_filter.
  - rewrite De. destruct (decide (listing l2 = [])) as [E0|E0]; destruct moved; try lia.
    + exfalso. by apply (proj1 Mv).
    + apply Z.mod_small. lia.
    + exfalso. by apply Mv in E0.
  - intros a Ha Hoa Hna. destruct (Fr a Ha Hoa) as (Hab & Ed & _). by rewrite Bo.
Qed.
End split_leaf.
