(* ===== verification/Gfs2DirSample.v ===== *)
(** * A sample directory

    The layout of the kernel's header, a new directory with blocks of 512 bytes on the sample
    resource group, and what happens to it: the theorems on directories apply, and a count of
    entries that is not put back hides an entry. *)

From stdpp Require Import functions gmap.
From S2P Require Import Prelude PlockWire DiskHash Gfs2Field Gfs2Log Gfs2Bits Gfs2Rgrp Gfs2RgrpThm Gfs2Sample Gfs2File Gfs2FilePath Gfs2FileMap Gfs2FileDisk Gfs2FileTree Gfs2FileHeight Gfs2FileThm Gfs2Dinode Gfs2Dir Gfs2DirRec Gfs2DirThm Gfs2DirInit Gfs2DirHash Gfs2DirLeaf Gfs2DirSplit.
Open Scope Z_scope.

Definition sample_dn : dinode_format := mkDn 24 32 40 44 48 52 56 64 72 80 88 96 100 104 112 128 132 138 146 148 168 176.

Definition sample_df : dir_format :=
  mkDf 40 0 8 16 20 22 24 (fun n => Z.land (40 + n + 7) (Z.lnot 7)) 104 24 26 28 32 26 14 sample_dn 6 600 1200 4 400 2 1 255
    (fun mode => Z.shiftr (Z.land mode S_IFMT) 12).

Definition sample_dir_consts : dir_consts :=
  match compute_constants sample_ff 512 with Ok (Some (_, dc)) => dc | _ => mkDirConsts 0 0 0 0 0 0 0 0 end.

#[local] Instance dir_alloc : Allocator gfs2_sbd := blk_alloc_i sample_sz sample_rgrp_out.

Lemma round8 x : 0 <= x -> x <= Z.land (x + 7) (Z.lnot 7).
Proof.
  intros Hx. rewrite <- Z.ldiff_land. change 7 with (Z.ones 3) at 2. rewrite Z.ldiff_ones_r, Z.shiftr_div_pow2, Z.shiftl_mul_pow2 by lia.
  change (2 ^ 3) with 8. pose proof (Z.div_mod (x + 7) 8 ltac:(lia)). pose proof (Z.mod_pos_bound (x + 7) 8 ltac:(lia)). lia.
Qed.

Lemma sample_layout : dir_layout sample_ff sample_df.
Proof.
  split; [split|split|done].
  - cbn. lia.
  - intros n Hn. apply (round8 (40 + n)). lia.
  - apply (bool_decide_unpack _). vm_compute. exact Logic.I.
  - unfold fields_below. apply (bool_decide_unpack _). vm_compute. exact Logic.I.
Qed.

Lemma sample_init : init_layout sample_ff sample_df sample_consts.
Proof. split; [cbn; lia|rewrite sample_bsize; split; vm_compute; discriminate|cbn; lia|done|cbn; unfold in_u; lia|done]. Qed.

(** A new directory in block 4 that is its own parent. *)
Definition sample_dir : dirst gfs2_sbd :=
  inode_get sample_ff sample_df sample_used (fun _ => replicate 512 0)
    (init_dinode sample_ff sample_df sample_consts (mkInum 1 4) 0x41ed 0 0 (mkInum 1 4)).

Lemma sample_inum_ok n a : 0 < n < 2 ^ 64 -> 0 <= a < 2 ^ 64 -> inum_ok (mkInum n a) (dir_mode_type sample_df).
Proof. intros Hn Ha. split; [cbn; unfold in_u; lia|done|done]. Qed.

Lemma sample_linear : linear sample_ff sample_df sample_consts sample_dir (dot_entries sample_df (mkInum 1 4) (mkInum 1 4)).
Proof. apply (init_dinode_linear sample_ff sample_df sample_consts sample_layout sample_init); try done; by apply sample_inum_ok. Qed.

Definition name_a : list Z := [97].
Definition name_b : list Z := [98].

Lemma sample_new_ok n a : 0 < n < 2 ^ 64 -> 0 <= a < 2 ^ 64 -> new_ok sample_ff sample_df sample_consts name_a (mkInum n a) 4.
Proof.
  intros Hn Ha. split; [|split; [cbn; unfold in_u; lia|done|done]|done|rewrite sample_bsize; vm_compute; discriminate].
  unfold is_byte, name_a. apply Forall_singleton. lia.
Qed.

Lemma sample_not_full n a : 0 < n < 2 ^ 64 -> 0 <= a < 2 ^ 64 -> ~ block_full sample_ff sample_df sample_consts sample_dir name_a.
Proof.
  intros Hn Ha F. pose proof (full_alloc sample_ff sample_df sample_consts sample_layout sample_dir _ name_a _ _ sample_linear (sample_new_ok n a Hn Ha) F) as H.
  vm_compute in H. discriminate H.
Qed.

Lemma linear_dir_is_map_witness :
  dir_search sample_ff sample_df sample_consts 0 sample_dir name_a 1 = Ok LookupNone /\
  exists d', dir_add sample_ff sample_df sample_consts sample_dir_consts 0 sample_dir name_a (mkInum 2 5) 4 = Ok d' /\
    linear sample_ff sample_df sample_consts (reopen sample_ff sample_df d')
      (<[name_a := (mkInum 2 5, 4)]> (dot_entries sample_df (mkInum 1 4) (mkInum 1 4))).
Proof.
  destruct (linear_dir_is_map sample_ff sample_df sample_consts sample_dir_consts sample_layout sample_dir _ 0 name_a (mkInum 2 5) 4
    sample_linear (sample_new_ok 2 5 ltac:(lia) ltac:(lia))) as (H1 & H2 & _).
  split; [exact H1|]. apply (H2 eq_refl), (sample_not_full 2 5); lia.
Defined.

(** Making a directory in it, with a block of the resource group. *)
Definition sample_bn : Z := match dinode_alloc sample_sz sample_rgrp_out sample_used with Ok (bn, _) => bn | _ => 0 end.
Definition sample_after : gfs2_sbd := match dinode_alloc sample_sz sample_rgrp_out sample_used with Ok (_, s) => s | _ => sample_used end.

Lemma createi_new_witness : exists d' i,
  createi sample_ff sample_df sample_consts sample_dir_consts (dinode_alloc sample_sz sample_rgrp_out) 0 0 sample_dir 2 name_a 0x41ed 0 =
    Ok (d', 3, New i) /\
  linear sample_ff sample_df sample_consts (reopen sample_ff sample_df d')
    (<[name_a := (mkInum 2 sample_bn, 4)]> (dot_entries sample_df (mkInum 1 4) (mkInum 1 4))) /\
  linear sample_ff sample_df sample_consts i (dot_entries sample_df (mkInum 2 sample_bn) (mkInum 1 4)).
Proof.
  destruct (createi_new sample_ff sample_df sample_consts sample_dir_consts sample_layout sample_init
    (dinode_alloc sample_sz sample_rgrp_out) 0 0 sample_dir _ 2 name_a 0x41ed 0 sample_bn sample_after sample_linear)
    as [H _].
  - cbn. lia.
  - done.
  - vm_compute. reflexivity.
  - apply (sample_new_ok 2 sample_bn); vm_compute; split; congruence.
  - done.
  - done.
  - done.
  - done.
  - apply (sample_inum_ok 1 4); lia.
  - destruct H as (d' & i & H1 & H2 & H3); [apply (sample_not_full 2 5); lia|].
    exists d', i. split; [exact H1|]. split; [exact H2|]. apply H3. reflexivity.
Defined.

(** ** Counts that are not put back *)

Definition sample_add (d : dirst gfs2_sbd) (name : list Z) : res (dirst gfs2_sbd) :=
  dir_add sample_ff sample_df sample_consts sample_dir_consts 0 d name (mkInum 2 5) 8.

Definition sample_find (d : dirst gfs2_sbd) (name : list Z) : res lookup_result :=
  dir_search sample_ff sample_df sample_consts 0 d name (Z.of_nat (length name)).

(** The search counts against the number in the buffer of the inode, and adding an entry changes
    only the number in the inode: after two additions the second entry is not found, unless the
    inode is put back in between. *)
Example two_additions :
  (d ← sample_add sample_dir name_a; d ← sample_add d name_b; sample_find d name_b) = Ok LookupFailed /\
  (d ← sample_add sample_dir name_a; d ← sample_add (reopen sample_ff sample_df d) name_b; sample_find d name_b) = Ok (Entry (mkInum 2 5) 8).
Proof. split; vm_compute; reflexivity. Qed.

(** Nor is a second entry of the same name refused then: [createi] makes it twice. *)
Example created_twice :
  let make d next name := createi sample_ff sample_df sample_consts sample_dir_consts (dinode_alloc sample_sz sample_rgrp_out) 0 0 d next name 0x81a4 0 in
  match ('(d, n, _) ← make sample_dir 2 name_a; '(d, n, _) ← make d n name_b; '(d, n, c) ← make d n name_b; mret (d_entries d, c)) with
  | Ok (5, New _) => True
  | _ => False
  end.
Proof. vm_compute. exact Logic.I. Qed.

(** ** A table *)

(** Blocks one after the other. *)
#[local] Instance counter : Allocator Z := fun a _ => if a <? 2 ^ 40 then Ok (a, a + 1) else Die.

#[local] Instance counter_spec : AllocatorSpec Z.
Proof.
  refine {| al_ok := fun a => 0 < a <= 2 ^ 40; al_free := fun a b => a <= b < 2 ^ 40 |}.
  - intros a b Ha Hb. lia.
  - intros a t Ha. unfold alloc, counter. destruct (a <? 2 ^ 40) eqn:E; zbool; [split_and!; try lia; intros c; lia|intros b; lia].
Defined.

Lemma counter_room n : Z.of_nat n < 2 ^ 39 -> room (A := Z) 1000 n.
Proof.
  intros Hn. exists (seqZ 1000 (Z.of_nat n)). split; [apply NoDup_seqZ|]. split; [rewrite length_seqZ; lia|].
  intros b Hb%elem_of_seqZ. cbn. lia.
Qed.

(** A directory in block 4 whose table leads to the leaf 7 for all hashes. *)
Definition table_data : block := replicate 232 0 ++ concat (replicate 32 (store BigEndian 8 7)) ++ replicate 24 0.
Definition table_on (dk : disk) (entries : Z) : dirst Z :=
  mkDir (mkFile 1000 dk (mkInode 4 table_data 256 0 1 4 4))
    (mkDi 0x01161970 4 400 1 0x41ed 0 0 2 0 0 0 0 0 3 0 5 entries 0 (replicate 32 0)).
Definition table_dir : dirst Z := table_on (fun _ => replicate 512 0) 0.

Lemma sample_hash_sizes : hash_sizes sample_consts sample_dir_consts.
Proof. apply (compute_constants_hash sample_ff 512 _ _ 9); [done|done|vm_compute; reflexivity]. Qed.

Lemma zeros_full n : n = 512%nat -> full sample_consts (replicate n 0).
Proof. intros ->. split; [by rewrite sample_bsize, length_replicate|apply replicate_bytes]. Qed.

Lemma table_data_full : full sample_consts table_data.
Proof.
  split; [vm_compute; reflexivity|]. unfold table_data. rewrite !Forall_app. split_and!; [apply replicate_bytes| |apply replicate_bytes].
  apply Forall_concat, Forall_replicate, store_bytes.
Qed.

Lemma table_on_ok dk entries : (forall a, full sample_consts (dk a)) -> table_ok sample_ff sample_consts sample_dir_consts (table_on dk entries).
Proof.
  intros Hdk. split; [done| |done|done|vm_compute; discriminate]. split.
  - change (di_height (f_ip (d_file (table_on dk entries)))) with 0%nat. cbv iota. split; [|split].
    + split; [cbn; lia|exact Hdk|exact table_data_full|]. cbn. unfold in_u. lia.
    + split; [intros [|? ?] [|? ?]|intros [|? ?]|intros [|? ?]]; cbn [length]; try (intros; lia).
      * intros _ _ _ _ _ _. reflexivity.
      * intros _ _ _. cbn. lia.
      * intros _ _. cbn. lia.
    + rewrite sample_bsize. cbn. lia.
  - rewrite sample_bsize. cbn. lia.
  - intros k Hk. cbn in Hk. unfold cell. cbn [table_on d_file f_ip di_height i_data]. destruct (Z_lt_le_dec k 280).
    + assert (T : forallb (fun k => nth (232 + k) table_data 0 =? 0) (seq 256 24) = true) by (vm_compute; reflexivity).
      rewrite forallb_forall in T. apply Z.eqb_eq, (T (Z.to_nat k)), in_seq. lia.
    + apply nth_overflow. change (length table_data) with 512%nat. cbn [sample_ff ff_dinode]. lia.
Qed.

Lemma table_leaf : gfs2_get_leaf_nr sample_ff sample_consts table_dir (leaf_index table_dir 0xdeadbeef) = Ok (table_dir, 7).
Proof. vm_compute. reflexivity. Qed.

Lemma double_exhash_same_leaf_witness : exists d', dir_double_exhash sample_ff sample_consts sample_dir_consts table_dir = Ok d' /\
  d_depth d' = 6 /\ gfs2_get_leaf_nr sample_ff sample_consts d' (leaf_index d' 0xdeadbeef) = Ok (d', 7).
Proof.
  destruct (double_exhash_same_leaf sample_ff sample_consts sample_dir_consts sample_geometry sample_hash_sizes table_dir)
    as (d' & E & _ & Ed & L & _); [apply table_on_ok; intros a; by apply zeros_full|done|apply counter_room; vm_compute; reflexivity|].
  exists d'. split; [exact E|]. split; [exact Ed|]. destruct (L 0xdeadbeef) as (leaf & E1 & E2); [unfold in_u; lia|].
  rewrite table_leaf in E1. injection E1 as E1. rewrite E2, <- E1. reflexivity.
Defined.

(** *** A leaf with one entry *)

Lemma sample_leaf_layout : leaf_layout sample_ff sample_df.
Proof. split; [cbn; lia|done]. Qed.

Lemma sample_magic : in_u 32 (GFS2_MAGIC (ff_head sample_ff)) /\ in_u 32 (GFS2_METATYPE_LF sample_df).
Proof. done. Qed.

Definition leaf_rec : block := init_rec sample_df (replicate 408 0) (mkInum 2 5) 408 8 name_a.
Definition leaf_hd : block := be_set 2 26 1 (take 104 (new_leaf sample_ff sample_df sample_consts)).
Definition leaf_disk : disk := fun a => if a =? 7 then blk leaf_hd [leaf_rec] else replicate 512 0.
Definition leaf_dir : dirst Z := table_on leaf_disk 1.

Lemma leaf_rec_ok : rec_ok sample_df leaf_rec /\ live sample_df leaf_rec = true /\ hashed sample_df leaf_rec /\ length leaf_rec = 408%nat /\
  ent sample_df leaf_rec = (name_a, (mkInum 2 5, 8)).
Proof.
  destruct (init_rec_ok sample_ff sample_df sample_consts sample_layout sample_init (replicate 408 0) (mkInum 2 5) 8 name_a) as (H1 & H2 & H3 & H4 & H5);
    [split; [split; done|done|done]| |apply replicate_bytes|rewrite length_replicate; vm_compute; split; congruence|done|by split_and!].
  unfold is_byte, name_a. apply Forall_singleton. lia.
Qed.

Lemma leaf_dir_leaf : leaf_ok sample_ff sample_df sample_consts leaf_hd [leaf_rec].
Proof.
  destruct leaf_rec_ok as (H1 & H2 & H3 & H4 & _). split; [|split].
  - rewrite lives_cons, H2. split; [vm_compute; reflexivity|vm_compute; reflexivity|vm_compute; reflexivity|vm_compute; reflexivity|].
    unfold is_byte. apply (bool_decide_unpack _). vm_compute. exact Logic.I.
  - assert (Lh : length leaf_hd = 104%nat) by (vm_compute; reflexivity).
    split; [by apply Forall_singleton|done|cbn [concat]; rewrite app_nil_r, sample_bsize, Lh, H4; done|rewrite sample_bsize; lia|lia].
  - by apply Forall_singleton.
Qed.

Lemma leaf_disk_full a : full sample_consts (leaf_disk a).
Proof. unfold leaf_disk. destruct (a =? 7); [apply (leaf_full sample_ff sample_df), leaf_dir_leaf|by apply zeros_full]. Qed.

Lemma leaf_dir_ptrs i : 0 <= i < 32 -> table_ptr (contents sample_ff sample_consts true (d_file leaf_dir)) i = 7.
Proof.
  intros Hi. assert (T : forallb (fun i => table_ptr (contents sample_ff sample_consts true (d_file leaf_dir)) (Z.of_nat i) =? 7) (seq 0 32) = true)
    by (vm_compute; reflexivity).
  rewrite forallb_forall in T. specialize (T (Z.to_nat i)). rewrite Z2Nat.id in T by lia. apply Z.eqb_eq, T, in_seq. lia.
Qed.

Lemma leaf_dir_index : leaf_index leaf_dir (rhash sample_df leaf_rec) = 29.
Proof. vm_compute. reflexivity. Qed.

Lemma leaf_dir_numbers : span sample_df leaf_dir leaf_hd = 32 /\ first_index sample_df leaf_dir leaf_hd 3 = 0.
Proof. vm_compute. done. Qed.

Lemma leaf_dir_owned a : ~ owned sample_ff sample_consts (d_file leaf_dir) a.
Proof. intros (p & Hp & _ & Hl & _). destruct p as [|i p]; [exact (Hp eq_refl)|]. apply Nat.nle_succ_0 in Hl. exact Hl. Qed.

Lemma leaf_dir_splittable : splittable sample_ff sample_df sample_consts sample_dir_consts leaf_dir 3 7 leaf_hd [leaf_rec].
Proof.
  destruct leaf_dir_numbers as [E1 E2]. split; rewrite ?E1, ?E2.
  - apply table_on_ok, leaf_disk_full.
  - split; vm_compute; congruence.
  - split; [reflexivity|apply leaf_dir_leaf].
  - vm_compute. split; congruence.
  - split; [cbn; lia|]. apply leaf_dir_owned.
  - apply leaf_dir_ptrs.
  - intros r Hr%list_elem_of_singleton _. subst r. rewrite leaf_dir_index. lia.
  - cbn. lia.
  - apply counter_room. vm_compute. reflexivity.
  - rewrite sample_bsize. vm_compute. discriminate.
Qed.

#[local] Opaque leaf_rec leaf_hd.

Lemma leaf_dir_entry : (name_a, (mkInum 2 5, 8)) ∈ listing sample_df [leaf_rec].
Proof. destruct leaf_rec_ok as (_ & H & _ & _ & <-). by apply listing_one. Qed.

Lemma split_leaf_found_witness : exists d' leaf, dir_split_leaf sample_ff sample_df sample_consts leaf_dir 3 7 = Ok d' /\
  table_ok sample_ff sample_consts sample_dir_consts d' /\
  gfs2_get_leaf_nr sample_ff sample_consts d' (leaf_index d' (gfs2_disk_hash name_a)) = Ok (d', leaf).
Proof.
  destruct (split_leaf_found sample_ff sample_df sample_consts sample_dir_consts sample_geometry (dy_fields _ _ sample_layout) sample_leaf_layout
    sample_magic leaf_dir 3 7 leaf_hd [leaf_rec]) as (d' & bn & hd1 & l1 & hd2 & l2 & E & T & _ & _ & _ & _ & Hl & _); [apply leaf_dir_splittable|].
  destruct (Hl _ leaf_dir_entry) as (leaf & El & _). exists d', leaf. split; [exact E|]. split; [exact T|]. exact El.
Defined.

#[local] Transparent leaf_rec leaf_hd.

(** The entry stays, and the count of the directory, which was right, is 2 afterwards. *)
Example split_miscounts : match dir_split_leaf sample_ff sample_df sample_consts leaf_dir 3 7 with Ok d' => d_entries leaf_dir = 1 /\ d_entries d' = 2 | _ => False end.
Proof. vm_compute. split; reflexivity. Qed.
