(* ===== verification/RgSets.v ===== *)
(** * rgmanager: sets of nodes and restart counters

    [src/rgmanager/src/clulib/sets.c], sets as arrays without duplicates that keep the order of
    their left argument, and [src/rgmanager/src/daemons/restart_counter.c], the restarts of a
    service within the last seconds.  The set operations are shown to be the operations on
    lists of [set_operations], and the counter to count the restarts of a time window
    whatever has been purged before ([restart_window]). *)

From S2P Require Import Prelude.
Open Scope Z_scope.

(** ** Sets *)

Fixpoint s_mem (s : list Z) (val : Z) : bool :=
  match s with [] => false | x :: s' => (x =? val) || s_mem s' val end.

(** Whether it was added, and the set. *)
Definition s_add (s : list Z) (val : Z) : bool * list Z := if s_mem s val then (false, s) else (true, s ++ [val]).

Fixpoint s_add_all (s : list Z) (vals : list Z) : list Z :=
  match vals with [] => s | v :: vals' => s_add_all (s_add s v).2 vals' end.

Definition s_union (left right : list Z) : list Z := s_add_all (s_add_all [] left) right.

(** The inner loop of the intersection goes on when the value has been there before. *)
Fixpoint s_isect_right (ret : list Z) (l : Z) (right : list Z) : list Z :=
  match right with
  | [] => ret
  | r :: right' =>
      if negb (l =? r) then s_isect_right ret l right'
      else let '(added, ret) := s_add ret r in if added then ret else s_isect_right ret l right'
  end.

Fixpoint s_isect_left (ret left right : list Z) : list Z :=
  match left with [] => ret | l :: left' => s_isect_left (s_isect_right ret l right) left' right end.

Definition s_intersection (left right : list Z) : list Z := s_isect_left [] left right.

(** The values that are not in the other set. *)
Fixpoint s_add_missing (ret vals other : list Z) : list Z :=
  match vals with
  | [] => ret
  | v :: vals' => s_add_missing (if s_mem other v then ret else (s_add ret v).2) vals' other
  end.

Definition s_delta (left right : list Z) : list Z := s_add_missing (s_add_missing [] left right) right left.

Definition s_subtract (left right : list Z) : list Z := s_add_missing [] left right.

(** [rand i] is the [i]th number of [rand_r]. *)
Definition s_swap (set : list Z) (x newidx : nat) : list Z :=
  match set !! x, set !! newidx with
  | Some t, Some u => <[newidx := t]> (<[x := u]> set)
  | _, _ => set
  end.

Fixpoint s_shuffle_from (rand : nat -> Z) (set : list Z) (sl : nat) (xs : list nat) : list Z :=
  match xs with
  | [] => set
  | x :: xs' =>
      let newidx := Z.to_nat (rand x mod Z.of_nat sl) in
      s_shuffle_from rand (if (newidx =? x)%nat then set else s_swap set x newidx) sl xs'
  end.

Definition s_shuffle (rand : nat -> Z) (set : list Z) : list Z := s_shuffle_from rand set (length set) (seq 0 (length set)).

(** ** Restart counters *)

Record restart_info := mkRi {
  expire_timeout : Z;
  max_restarts : Z;
  restart_count : Z;
  restart_nodes : list Z            (* the times, oldest first *)
}.

Definition expired (timeout now t : Z) : bool := timeout <=? now - t.

(** The first expired item is taken out and the list looked at again. *)
Fixpoint first_expired (timeout now : Z) (l : list Z) : option (list Z) :=
  match l with
  | [] => None
  | t :: l' => if expired timeout now t then Some l' else (t ::.) <$> first_expired timeout now l'
  end.

Fixpoint purge_loop (fuel : nat) (now : Z) (r : restart_info) : restart_info :=
  match fuel with
  | O => r
  | S fuel' =>
      match first_expired (expire_timeout r) now (restart_nodes r) with
      | Some l => purge_loop fuel' now (mkRi (expire_timeout r) (max_restarts r) (restart_count r - 1) l)
      | None => r
      end
  end.

Definition restart_timer_purge (r : restart_info) (now : Z) : restart_info :=
  if expire_timeout r =? 0 then r else purge_loop (S (length (restart_nodes r))) now r.

Definition restart_count_of (r : restart_info) (now : Z) : Z * restart_info :=
  let r := restart_timer_purge r now in (restart_count r, r).

(** No counter: always fine. *)
Definition restart_threshold_exceeded (arg : option restart_info) (now : Z) : Z * option restart_info :=
  match arg with
  | None => (0, None)
  | Some r =>
      let r := restart_timer_purge r now in
      (if restart_count r >=? max_restarts r then 1 else 0, Some r)
  end.

Definition restart_add (arg : option restart_info) (mem : bool) (t : Z) : Z * option restart_info :=
  match arg with
  | None => (0, None)
  | Some r =>
      if negb mem then (-1, Some r) else
      let r := mkRi (expire_timeout r) (max_restarts r) (restart_count r + 1) (restart_nodes r ++ [t]) in
      let r := restart_timer_purge r t in
      (if restart_count r >=? max_restarts r then 1 else 0, Some r)
  end.

Definition restart_clear (r : restart_info) : restart_info := mkRi (expire_timeout r) (max_restarts r) 0 [].

Definition restart_init (timeout max : Z) (mem : bool) : option restart_info :=
  if max <? 0 then None else if mem then Some (mkRi timeout max 0 []) else None.

(** ** The set operations *)

(** Each value at its first place. *)
Definition firsts (l : list Z) : list Z := reverse (remove_dups (reverse l)).

Lemma s_mem_spec s v : s_mem s v = bool_decide (v ∈ s).
Proof.
  induction s as [|x s IH]; cbn [s_mem]; [done|]. rewrite IH. destruct (Z.eqb_spec x v) as [->|Hne]; cbn [orb].
  - symmetry. apply bool_decide_eq_true. set_solver.
  - apply bool_decide_ext. set_solver.
Qed.

Lemma s_add_snd s v : (s_add s v).2 = if bool_decide (v ∈ s) then s else s ++ [v].
Proof. unfold s_add. rewrite s_mem_spec. by destruct (bool_decide _). Qed.

Lemma s_add_all_app s l l' : s_add_all s (l ++ l') = s_add_all (s_add_all s l) l'.
Proof. revert s. induction l as [|x l IH]; intros s; cbn; [done|]. apply IH. Qed.

Lemma firsts_snoc l x : firsts (l ++ [x]) = if bool_decide (x ∈ l) then firsts l else firsts l ++ [x].
Proof.
  unfold firsts. rewrite reverse_snoc. cbn [remove_dups]. case_decide as H; rewrite elem_of_reverse in H.
  - by rewrite bool_decide_true.
  - by rewrite bool_decide_false, reverse_cons.
Qed.

Lemma elem_of_firsts x l : x ∈ firsts l <-> x ∈ l.
Proof. unfold firsts. by rewrite elem_of_reverse, elem_of_remove_dups, elem_of_reverse. Qed.

Lemma firsts_NoDup l : NoDup (firsts l).
Proof. unfold firsts. rewrite reverse_Permutation. apply NoDup_remove_dups. Qed.

Lemma s_add_all_firsts l : s_add_all [] l = firsts l.
Proof.
  induction l as [|x l IH] using rev_ind; [done|]. rewrite s_add_all_app, IH, firsts_snoc. cbn [s_add_all].
  rewrite s_add_snd. erewrite bool_decide_ext; [done|]. apply elem_of_firsts.
Qed.

Lemma s_add_missing_all ret vals other : s_add_missing ret vals other = s_add_all ret (filter (.∉ other) vals).
Proof.
  revert ret. induction vals as [|v vals IH]; intros ret; [done|]. cbn [s_add_missing]. rewrite s_mem_spec.
  destruct (decide (v ∈ other)) as [Hv|Hv].
  - rewrite bool_decide_true, filter_cons_False by (try done; tauto). apply IH.
  - rewrite bool_decide_false, filter_cons_True by done. apply IH.
Qed.

Lemma s_isect_right_add ret l right : s_isect_right ret l right = if bool_decide (l ∈ right) then (s_add ret l).2 else ret.
Proof.
  induction right as [|r right IH]; cbn [s_isect_right]; [done|]. destruct (Z.eqb_spec l r) as [<-|Hne]; cbn [negb].
  - rewrite (bool_decide_true (l ∈ l :: right)) by set_solver. destruct (s_add ret l) as [added ret'] eqn:E. unfold s_add in E.
    destruct (s_mem ret l) eqn:Em; injection E as <- <-; [|done]. rewrite IH. by destruct (bool_decide _).
  - rewrite IH. erewrite bool_decide_ext; [done|]. set_solver.
Qed.

Lemma s_isect_left_all left right : forall ret, s_isect_left ret left right = s_add_all ret (filter (.∈ right) left).
Proof.
  induction left as [|l left IH]; intros ret; [done|]. cbn [s_isect_left]. rewrite s_isect_right_add, IH.
  destruct (decide (l ∈ right)) as [Hl|Hl].
  - by rewrite bool_decide_true, filter_cons_True.
  - by rewrite bool_decide_false, filter_cons_False.
Qed.

(** Union, intersection, difference and symmetric difference are those of lists, every
    value once, in the order of the left set and then of the right one. *)
Theorem set_operations left right :
  s_union left right = firsts (left ++ right) /\
  s_intersection left right = firsts (filter (.∈ right) left) /\
  s_delta left right = firsts (filter (.∉ right) left ++ filter (.∉ left) right) /\
  s_subtract left right = firsts (filter (.∉ right) left).
Proof.
  unfold s_union, s_intersection, s_delta, s_subtract.
  rewrite s_isect_left_all, !s_add_missing_all, <- !s_add_all_app, !s_add_all_firsts. done.
Qed.

(** A shuffled set has the same values. *)
Lemma s_swap_perm set x y : s_swap set x y ≡ₚ set.
Proof.
  unfold s_swap. destruct (set !! x) as [t|] eqn:Hx; [|done]. destruct (set !! y) as [u|] eqn:Hy; [|done].
  destruct (decide (x = y)) as [->|Hne].
  - rewrite list_insert_insert_eq. rewrite list_insert_id; [done|]. congruence.
  - apply lookup_lt_Some in Hx as Lx. apply lookup_lt_Some in Hy as Ly. apply Permutation_inj.
    rewrite !length_insert. split; [done|].
    exists (fun i => if decide (i = x) then y else if decide (i = y) then x else i). split.
    + intros i j. repeat case_decide; congruence.
    + intros i. repeat case_decide; subst.
      * by rewrite list_lookup_insert_ne, list_lookup_insert_eq.
      * by rewrite list_lookup_insert_eq by (rewrite length_insert; done).
      * by rewrite !list_lookup_insert_ne.
Qed.

Lemma s_shuffle_perm rand set : s_shuffle rand set ≡ₚ set.
Proof.
  unfold s_shuffle. generalize (length set) at 1 as sl. intros sl. generalize (seq 0 (length set)) as xs. intros xs.
  revert set. induction xs as [|x xs IH]; intros set; [done|]. cbn [s_shuffle_from]. rewrite IH.
  destruct (_ =? x)%nat; [done|apply s_swap_perm].
Qed.

(** ** The window of the restart counter *)

Definition fresh (timeout now t : Z) : Prop := timeout = 0 \/ now - t < timeout.

#[export] Instance fresh_dec timeout now t : Decision (fresh timeout now t).
Proof. unfold fresh. apply _. Defined.

Lemma expired_fresh timeout now t : timeout <> 0 -> expired timeout now t = true <-> ~ fresh timeout now t.
Proof. unfold expired, fresh. rewrite Z.leb_le. lia. Qed.

Lemma first_expired_filter timeout now l : timeout <> 0 ->
  match first_expired timeout now l with
  | Some l' => length l = S (length l') /\ filter (fresh timeout now) l' = filter (fresh timeout now) l
  | None => filter (fresh timeout now) l = l
  end.
Proof.
  intros Ht. induction l as [|t l IH]; [done|]. cbn [first_expired]. destruct (expired timeout now t) eqn:E.
  - apply (expired_fresh _ _ _ Ht) in E. by rewrite filter_cons_False.
  - assert (fresh timeout now t) as Hf.
    { destruct (decide (fresh timeout now t)) as [?|Hn]; [done|]. apply (expired_fresh _ _ _ Ht) in Hn. congruence. }
    destruct (first_expired timeout now l) as [l'|]; cbn [fmap option_fmap option_map]; rewrite !filter_cons_True by done; [|by rewrite IH].
    destruct IH as [Hl Hfi]. cbn [length]. by rewrite Hl, Hfi.
Qed.

(** What is left after a purge: the items that are not too old. *)
Definition counted (r : restart_info) : Prop := restart_count r = Z.of_nat (length (restart_nodes r)).

Lemma purge_loop_spec fuel now r : expire_timeout r <> 0 -> counted r -> (length (restart_nodes r) < fuel)%nat ->
  purge_loop fuel now r =
    let l := filter (fresh (expire_timeout r) now) (restart_nodes r) in
    mkRi (expire_timeout r) (max_restarts r) (Z.of_nat (length l)) l.
Proof.
  intros Ht. revert r Ht. induction fuel as [|fuel IH]; intros r Ht Hc Hl; [lia|]. cbn [purge_loop].
  pose proof (first_expired_filter (expire_timeout r) now (restart_nodes r) Ht) as Hf.
  destruct (first_expired _ _ _) as [l'|].
  - destruct Hf as [Hl' Hf]. rewrite IH; cbn; [by rewrite Hf|done| |lia]. unfold counted in *. cbn. lia.
  - cbn. rewrite Hf, <- Hc. by destruct r.
Qed.

Lemma restart_timer_purge_spec r now : counted r ->
  restart_timer_purge r now =
    let l := filter (fresh (expire_timeout r) now) (restart_nodes r) in
    mkRi (expire_timeout r) (max_restarts r) (Z.of_nat (length l)) l.
Proof.
  intros Hc. unfold restart_timer_purge. destruct (Z.eqb_spec (expire_timeout r) 0) as [E|]; [|apply purge_loop_spec; auto].
  cbn. assert (forall l, filter (fresh (expire_timeout r) now) l = l) as ->; [|rewrite <- Hc; by destruct r].
  induction l as [|t l IH]; [done|]. rewrite filter_cons_True by (by left). by rewrite IH.
Qed.

(** What is done with a counter, with the time. *)
Inductive use_of_counter := UAdd (t : Z) | UCheck (t : Z) | UClear.

Definition time_of (u : use_of_counter) (t0 : Z) : Z := match u with UAdd t | UCheck t => t | UClear => t0 end.

Definition use_counter (r : option restart_info) (u : use_of_counter) : option restart_info :=
  match u with
  | UAdd t => (restart_add r true t).2
  | UCheck t => (restart_threshold_exceeded r t).2
  | UClear => restart_clear <$> r
  end.

(** The times never go back, from [t0] to [now]. *)
Fixpoint in_time (t0 : Z) (us : list use_of_counter) (now : Z) : Prop :=
  match us with [] => t0 <= now | u :: us' => t0 <= time_of u t0 /\ in_time (time_of u t0) us' now end.

(** The restarts since the last time the counter was cleared. *)
Definition restarts (l : list Z) (u : use_of_counter) : list Z :=
  match u with UAdd t => l ++ [t] | UCheck _ => l | UClear => [] end.

Lemma fresh_filter timeout t now (l : list Z) : t <= now ->
  filter (fresh timeout now) (filter (fresh timeout t) l) = filter (fresh timeout now) l.
Proof.
  intros Ht. induction l as [|x l IH]; [done|]. destruct (decide (fresh timeout now x)) as [Hx|Hx].
  - assert (fresh timeout t x) by (unfold fresh in *; lia). by rewrite !filter_cons_True, IH by done.
  - rewrite (filter_cons_False (fresh timeout now) x l) by done. destruct (decide (fresh timeout t x)).
    + by rewrite filter_cons_True, filter_cons_False.
    + by rewrite filter_cons_False.
Qed.

Lemma in_time_le us : forall t0 now, in_time t0 us now -> t0 <= now.
Proof. induction us as [|u us IH]; intros t0 now; cbn; [done|]. intros [? H]. apply IH in H. lia. Qed.

(** The counter and the restarts agree on everything that counts from now on. *)
Definition agrees (now : Z) (r : restart_info) (timeout max : Z) (l : list Z) : Prop :=
  counted r /\ expire_timeout r = timeout /\ max_restarts r = max /\
  filter (fresh timeout now) (restart_nodes r) = filter (fresh timeout now) l.

Lemma agrees_use now r timeout max l u t0 : t0 <= time_of u t0 <= now -> agrees now r timeout max l ->
  exists r', use_counter (Some r) u = Some r' /\ agrees now r' timeout max (restarts l u).
Proof.
  intros Ht (Hc & <- & <- & Hf). destruct u as [t|t|]; cbn [use_counter restarts time_of] in *.
  - cbn. eexists. split; [done|]. rewrite restart_timer_purge_spec by (unfold counted in *; cbn; rewrite length_app; cbn; lia).
    split_and!; try done. cbn. by rewrite fresh_filter, !filter_app, Hf by lia.
  - cbn. eexists. split; [done|]. rewrite restart_timer_purge_spec by done. split_and!; try done. cbn.
    by rewrite fresh_filter by lia.
  - eexists. split; [done|]. by split_and!.
Qed.

Lemma agrees_uses us : forall now r timeout max l t0, in_time t0 us now -> agrees now r timeout max l ->
  exists r', foldl use_counter (Some r) us = Some r' /\ agrees now r' timeout max (foldl restarts l us).
Proof.
  induction us as [|u us IH]; intros now r timeout max l t0 Hin Ha; [by eauto|]. destruct Hin as [Ht Hin].
  destruct (agrees_use now r timeout max l u t0) as (r' & E & Ha'); [split; [done|by apply in_time_le in Hin]|done|].
  cbn [foldl]. rewrite E. by eapply IH.
Qed.

(** C39: After any use of a counter in the order of time, the threshold is exceeded exactly if
    the restarts since it was cleared that are younger than the timeout, or all of them
    without one, are as many as allowed. *)
Theorem restart_window timeout max us t0 now r : restart_init timeout max true = Some r -> in_time t0 us now ->
  (restart_threshold_exceeded (foldl use_counter (Some r) us) now).1 =
  if max <=? Z.of_nat (length (filter (fresh timeout now) (foldl restarts [] us))) then 1 else 0.
Proof.
  unfold restart_init. destruct (max <? 0); [done|]. intros [= <-] Hin.
  destruct (agrees_uses us now (mkRi timeout max 0 []) timeout max [] t0) as (r & -> & Hc & <- & <- & Hf); [done|by split_and!|].
  cbn. rewrite restart_timer_purge_spec by done. cbn. rewrite Hf, Z.geb_leb. done.
Qed.

Lemma restart_window_witness :
  (restart_threshold_exceeded (foldl use_counter (Some (mkRi 60 2 0 [])) [UAdd 100; UAdd 130; UCheck 150; UAdd 170]) 185).1 = 1.
Proof.
  rewrite (restart_window 60 2 [UAdd 100; UAdd 130; UCheck 150; UAdd 170] 0 185 (mkRi 60 2 0 [])).
  - vm_compute. reflexivity.
  - reflexivity.
  - cbn. lia.
Defined.
