(* ===== verification/RgState.v ===== *)
(** * rgmanager: the state of a service

    [src/rgmanager/src/daemons/rg_state.c] and the dispatch of requests in [rg_thread.c], for
    one service.  Each node has a thread that handles the requests for the service one after
    the other; the nodes share a record of the service, which they read and write under a
    lock of the cluster.

    A handler is a program ([prog]): a tree of calls of what is outside of this file, with
    the rest of the handler for each answer.  The nodes run their programs in steps of one
    call, so other nodes can come in between any two calls.  The locks of the cluster, the
    replicated record, the membership, resource agents, messages to other nodes and the
    functions of other files are calls. *)

From stdpp Require Import strings.
From S2P Require Import Prelude CStrings.
Open Scope Z_scope.

(** ** The record *)

Record rg_state := mkRg {
  rs_owner : Z;
  rs_last_owner : Z;
  rs_state : Z;
  rs_restarts : Z;
  rs_transition : Z;
  rs_flags : Z
}.

Definition RG_STATE_STOPPED : Z := 110.
Definition RG_STATE_STARTING : Z := 111.
Definition RG_STATE_STARTED : Z := 112.
Definition RG_STATE_STOPPING : Z := 113.
Definition RG_STATE_FAILED : Z := 114.
Definition RG_STATE_UNINITIALIZED : Z := 115.
Definition RG_STATE_CHECK : Z := 116.
Definition RG_STATE_ERROR : Z := 117.
Definition RG_STATE_RECOVER : Z := 118.
Definition RG_STATE_DISABLED : Z := 119.
Definition RG_STATE_MIGRATE : Z := 120.

Definition RG_FLAG_FROZEN : Z := 1.
Definition RG_FLAG_PARTIAL : Z := 2.

(** Requests. *)
Definition RG_SUCCESS : Z := 0.
Definition RG_FAIL : Z := 1.
Definition RG_START : Z := 2.
Definition RG_STOP : Z := 3.
Definition RG_STATUS : Z := 4.
Definition RG_DISABLE : Z := 5.
Definition RG_STOP_RECOVER : Z := 6.
Definition RG_START_RECOVER : Z := 7.
Definition RG_RESTART : Z := 8.
Definition RG_INIT : Z := 10.
Definition RG_ENABLE : Z := 11.
Definition RG_RELOCATE : Z := 13.
Definition RG_CONDSTOP : Z := 14.
Definition RG_CONDSTART : Z := 15.
Definition RG_START_REMOTE : Z := 16.
Definition RG_STOP_USER : Z := 17.
Definition RG_STOP_EXITING : Z := 18.
Definition RG_MIGRATE : Z := 22.
Definition RG_FREEZE : Z := 23.
Definition RG_UNFREEZE : Z := 24.
Definition RG_STATUS_INQUIRY : Z := 25.
Definition RG_CONVALESCE : Z := 26.
Definition RG_NONE : Z := 999.

(** Return codes. *)
Definition RG_ERELO : Z := -17.
Definition RG_EEXCL : Z := -16.
Definition RG_ENODE : Z := -12.
Definition RG_EFROZEN : Z := -11.
Definition RG_ERUN : Z := -10.
Definition RG_EINVAL : Z := -8.
Definition RG_EDEPEND : Z := -7.
Definition RG_EAGAIN : Z := -6.
Definition RG_EFORWARD : Z := -3.
Definition RG_EABORT : Z := -2.
Definition RG_EFAIL : Z := -1.
Definition RG_ESUCCESS : Z := 0.
Definition RG_YES : Z := 1.
Definition RG_NO : Z := 2.

Definition SFL_FAILURE : Z := 1.
Definition SFL_RECOVERABLE : Z := 2.
Definition SFL_PARTIAL : Z := 4.

Definition FOD_ILLEGAL : Z := 0.
Definition FOD_GOOD : Z := 1.
Definition FOD_BEST : Z := 3.

Definition OCF_RA_NOT_RUNNING : Z := 7.
Definition OCF_RA_NOT_CONFIGURED : Z := 6.

(** ** Members *)

(** A node with the numbers of its services and of its exclusive services, a byte each. *)
Record cman_node := mkNode { cn_nodeid : Z; cn_member : Z; cn_name : string; cn_svccount : Z; cn_svcexcl : Z }.
Definition members : Type := list cman_node.

Definition set_member (m : cman_node) (v : Z) : cman_node := mkNode (cn_nodeid m) v (cn_name m) (cn_svccount m) (cn_svcexcl m).

Fixpoint memb_online (ml : members) (nodeid : Z) : Z :=
  match ml with
  | [] => 0
  | m :: ml' => if cn_nodeid m =? nodeid then cn_member m else memb_online ml' nodeid
  end.

Fixpoint memb_id_to_p (ml : members) (nodeid : Z) : option cman_node :=
  match ml with
  | [] => None
  | m :: ml' => if cn_nodeid m =? nodeid then Some m else memb_id_to_p ml' nodeid
  end.

Definition memb_count (ml : members) : nat := length (filter (fun m => cn_member m <> 0) ml).

Definition memb_mark_down (ml : members) (nodeid : Z) : members :=
  (fun m => if cn_nodeid m =? nodeid then set_member m 0 else m) <$> ml.

(** ** Programs *)

(** Where the record is written. *)
Inductive site :=
| WInit        (* [init_rg] *)
| WStart       (* [svc_start], before the resources are started *)
| WStarted     (* [svc_start], after *)
| WFlags       (* a flag, by [svc_convalesce], [svc_status] and [_svc_freeze] *)
| WMigrated    (* [svc_migrate], [msvc_check_cluster], [handle_migrate_status] *)
| WDown        (* [_svc_stop], for an owner that is down *)
| WStop        (* [_svc_stop], before the resources are stopped *)
| WFinish      (* [_svc_stop_finish] after a stop *)
| WRelocated   (* [_svc_stop_finish] after a relocation *)
| WFail.       (* [svc_fail] *)

(** What reading the record gives: nothing, fewer bytes than a record has, or the record. *)
Inductive read_result :=
| NoData
| TooShort
| Data (st : rg_state).

(** What handlers call, by the type of the answer. *)
Inductive call : Type -> Type :=
| RgLock : call bool
| RgUnlock : call unit
| ReadState : call read_result
| WriteState (s : site) (st : rg_state) : call bool
| ReadLocal : call (option rg_state)
| MemberList : call members
| RgLocked : call bool
| Quorate : call bool
| Initialized : call bool
| CentralEvents : call bool
| Time : call Z
| GroupOp (op : Z) : call Z
| GroupMigratory : call bool
| GroupMigrate (target : Z) : call Z
| GetNewOwner : call Z
| Broadcast (state owner last : Z) : call unit
| StartRemote (request target : Z) : call Z
| NodeShouldStart (nodeid : Z) (ml : members) : call Z
| BestTarget (allowed : members) (owner : Z) : call Z
| CountLocal (nodeid : Z) : call (Z * Z)
| IsExclusive : call Z
| HaveExclusive : call bool
| CheckExclusive (ml : members) : call Z
| CheckDepend : call Z
| ExclusiveLock : call unit
| ExclusiveUnlock : call unit
| RecoveryPolicy : call string
| CheckRestart : call Z
| AddRestart : call unit
| ClearRestart : call unit.

Inductive prog (A : Type) : Type :=
| Ret (a : A)
| Call {R : Type} (c : call R) (k : R -> prog A).
Arguments Ret {A} a.
Arguments Call {A R} c k.

Definition perform {R : Type} (c : call R) : prog R := Call c Ret.

#[export] Instance prog_ret : MRet prog := @Ret.
#[export] Instance prog_bind : MBind prog := fun A B f =>
  fix bind (p : prog A) : prog B :=
    match p with
    | Ret a => f a
    | Call c k => Call c (fun r => bind (k r))
    end.

(** ** Reading and writing the record *)

Section service.
Context (me : Z).

Definition rg_lock : prog bool := perform RgLock.
Definition rg_unlock : prog unit := perform RgUnlock.

Definition set_owner (st : rg_state) (owner : Z) : rg_state :=
  mkRg owner (rs_last_owner st) (rs_state st) (rs_restarts st) (rs_transition st) (rs_flags st).
Definition set_last_owner (st : rg_state) (last : Z) : rg_state :=
  mkRg (rs_owner st) last (rs_state st) (rs_restarts st) (rs_transition st) (rs_flags st).
Definition set_state (st : rg_state) (state : Z) : rg_state :=
  mkRg (rs_owner st) (rs_last_owner st) state (rs_restarts st) (rs_transition st) (rs_flags st).
Definition set_restarts (st : rg_state) (n : Z) : rg_state :=
  mkRg (rs_owner st) (rs_last_owner st) (rs_state st) n (rs_transition st) (rs_flags st).
Definition set_transition (st : rg_state) (t : Z) : rg_state :=
  mkRg (rs_owner st) (rs_last_owner st) (rs_state st) (rs_restarts st) t (rs_flags st).
Definition set_flags (st : rg_state) (f : Z) : rg_state :=
  mkRg (rs_owner st) (rs_last_owner st) (rs_state st) (rs_restarts st) (rs_transition st) f.

(** Whether it could be written. *)
Definition set_rg_state (s : site) (st : rg_state) : prog bool := perform (WriteState s st).

Definition initial : rg_state := mkRg 0 0 RG_STATE_STOPPED 0 0 0.

Definition init_rg : prog bool := set_rg_state WInit initial.

(** A record that cannot be read is written anew and read again. *)
Definition get_rg_state : prog (option rg_state) :=
  r ← perform ReadState;
  match r with
  | Data st => Ret (Some st)
  | TooShort => Ret None
  | NoData =>
      ok ← init_rg;
      if negb ok then Ret None
      else r ← perform ReadState; Ret (match r with Data st => Some st | _ => None end)
  end.

Definition get_rg_state_local : prog (Z * rg_state) :=
  r ← perform ReadLocal;
  match r with
  | Some st => Ret (0, st)
  | None => Ret (RG_EFAIL, mkRg 0 0 RG_STATE_UNINITIALIZED 0 0 0)
  end.

(** ** Advice *)

Definition frozen (st : rg_state) : bool := c_true (Z.land (rs_flags st) RG_FLAG_FROZEN).

(** 0: do not stop, fail; 1: stop; 2: do not stop, success; 3: forward; 5: frozen; 6: do not
    stop, but mark as stopped. *)
Definition svc_advise_stop (st : rg_state) (req : Z) : prog Z :=
  ml ← perform MemberList;
  let s := rs_state st in
  if frozen st then Ret 5
  else if s =? RG_STATE_FAILED then Ret (if req =? RG_DISABLE then 1 else 0)
  else if (s =? RG_STATE_STOPPING) || (s =? RG_STATE_STARTED) || (s =? RG_STATE_CHECK) || (s =? RG_STATE_STARTING) ||
          (s =? RG_STATE_RECOVER) || (s =? RG_STATE_MIGRATE) then
    if negb (rs_owner st =? me) && c_true (memb_online ml (rs_owner st)) then Ret (if req =? RG_STOP then 2 else 3)
    else if (rs_owner st =? 0) || (rs_owner st =? me) then Ret 1
    else Ret 6
  else if s =? RG_STATE_ERROR then Ret (if req =? RG_DISABLE then 1 else 0)
  else if s =? RG_STATE_STOPPED then Ret (if req =? RG_DISABLE then 1 else 2)
  else if (s =? RG_STATE_DISABLED) || (s =? RG_STATE_UNINITIALIZED) then Ret (if req =? RG_DISABLE then 1 else 2)
  else Ret 0.

(** 0: do not start, fail; 1: start; 2: do not start, success; 3: try again; 4: it runs; 5:
    frozen. *)
Definition svc_advise_start (st : rg_state) (req : Z) : prog Z :=
  ml ← perform MemberList;
  let s := rs_state st in
  let unless_locked := locked ← perform RgLocked; Ret (if locked : bool then 3 else 1) in
  if frozen st then Ret 5
  else if s =? RG_STATE_FAILED then Ret 0
  else if s =? RG_STATE_MIGRATE then Ret 4
  else if (s =? RG_STATE_STOPPING) || (s =? RG_STATE_STARTED) || (s =? RG_STATE_CHECK) || (s =? RG_STATE_STARTING) then
    if rs_owner st =? me then Ret 4
    else if negb (rs_owner st =? me) && c_true (memb_online ml (rs_owner st)) then Ret 4
    else unless_locked
  else if s =? RG_STATE_RECOVER then
    if req =? RG_START_RECOVER then Ret 1
    else central ← perform CentralEvents; Ret (if central : bool then 1 else 2)
  else if (s =? RG_STATE_STOPPED) || (s =? RG_STATE_ERROR) then unless_locked
  else if (s =? RG_STATE_DISABLED) || (s =? RG_STATE_UNINITIALIZED) then
    if (req =? RG_ENABLE) || (req =? RG_START_REMOTE) then unless_locked
    else if req =? RG_START_RECOVER then Ret 1
    else Ret 0
  else Ret 0.

(** Leave with the lock released. *)
Definition unlocked (ret : Z) : prog Z := rg_unlock ;; Ret ret.

(** ** Start *)

Definition svc_start (req : Z) : prog Z :=
  ok ← rg_lock;
  if negb ok then Ret RG_EFAIL else
  r ← get_rg_state;
  match r with
  | None => unlocked RG_EFAIL
  | Some st =>
      adv ← svc_advise_start st req;
      if adv =? 0 then unlocked RG_EFAIL
      else if adv =? 2 then unlocked 0
      else if adv =? 3 then unlocked RG_EAGAIN
      else if adv =? 4 then unlocked RG_ERUN
      else if adv =? 5 then unlocked RG_EFROZEN
      else
        now ← perform Time;
        let st := set_transition (set_owner st me) now in
        let st := set_restarts st (if rs_state st =? RG_STATE_RECOVER then u32 (rs_restarts st + 1) else 0) in
        let st := set_state st RG_STATE_STARTING in
        ok ← set_rg_state WStart st;
        if negb ok then unlocked RG_EFAIL else
        rg_unlock ;;
        ret ← perform (GroupOp RG_START);
        let ret := Z.b2z (c_true ret) in
        ok ← rg_lock;
        if negb ok then Ret RG_EFAIL else
        let st := set_state st RG_STATE_STARTED in
        ok ← set_rg_state WStarted st;
        if negb ok then unlocked RG_EFAIL else
        rg_unlock ;;
        (if ret =? 0 then perform (Broadcast RG_STATE_STARTED (rs_owner st) (rs_last_owner st)) else Ret tt) ;;
        Ret ret
  end.

Definition svc_convalesce : prog Z :=
  ok ← rg_lock;
  if negb ok then Ret RG_EFAIL else
  r ← get_rg_state;
  match r with
  | None => unlocked RG_EFAIL
  | Some st =>
      let s := rs_state st in
      if negb (s =? RG_STATE_STARTED) then
        unlocked (if (s =? RG_STATE_STARTING) || (s =? RG_STATE_STOPPING) || (s =? RG_STATE_RECOVER) ||
                     (s =? RG_STATE_MIGRATE) || (s =? RG_STATE_ERROR) then RG_EAGAIN else RG_EINVAL)
      else if frozen st then unlocked RG_EFROZEN
      else if negb (rs_owner st =? me) then unlocked RG_EFORWARD
      else if negb (c_true (Z.land (rs_flags st) RG_FLAG_PARTIAL)) then unlocked RG_ERUN
      else
        rg_unlock ;;
        ret ← perform (GroupOp RG_CONVALESCE);
        if negb (ret =? 0) then Ret RG_EFAIL else
        ok ← rg_lock;
        if negb ok then Ret RG_EFAIL else
        _ ← set_rg_state WFlags (set_flags st (Z.land (rs_flags st) (Z.lnot RG_FLAG_PARTIAL)));
        unlocked 0
  end.

(** ** Stop *)

Definition svc_stop_finish (s : site) (failed newstate : Z) : prog Z :=
  ok ← rg_lock;
  if negb ok then Ret RG_EFAIL else
  r ← get_rg_state;
  match r with
  | None => unlocked RG_EFAIL
  | Some st =>
      if negb (rs_state st =? RG_STATE_STOPPING) && negb (rs_state st =? RG_STATE_ERROR) &&
         negb (rs_state st =? RG_STATE_RECOVER) then unlocked 0
      else
        let newstate := if c_true failed then RG_STATE_FAILED
                        else if rs_state st =? RG_STATE_ERROR then RG_STATE_RECOVER else newstate in
        let st := set_owner (set_last_owner st (rs_owner st)) 0 in
        let st := set_flags (set_state st newstate) 0 in
        now ← perform Time;
        let st := set_transition st now in
        ok ← set_rg_state s st;
        if negb ok then unlocked RG_EFAIL else
        rg_unlock ;;
        perform (Broadcast newstate (-1) (rs_last_owner st)) ;;
        Ret 0
  end.

(** A service in recovery gets its new state first; then it is stopped as any other. *)
Definition svc_stop_with (req : Z) (recover : bool) (newstate : Z) : prog Z :=
  quorate ← perform Quorate;
  if negb quorate then perform (GroupOp RG_STOP) else
  ok ← rg_lock;
  if negb ok then Ret RG_EFAIL else
  r ← get_rg_state;
  match r with
  | None => unlocked RG_EFAIL
  | Some st =>
      adv ← svc_advise_stop st req;
      if adv =? 0 then unlocked RG_EFAIL
      else if adv =? 6 then
        let st := set_owner (set_last_owner st (rs_owner st)) 0 in
        let st := set_flags (set_state st RG_STATE_STOPPED) 0 in
        ok ← set_rg_state WDown st;
        if negb ok then unlocked RG_EFAIL else
        rg_unlock ;;
        perform (Broadcast RG_STATE_STOPPED (-1) (rs_last_owner st)) ;;
        Ret RG_ESUCCESS
      else if adv =? 2 then unlocked RG_ESUCCESS
      else if adv =? 3 then unlocked RG_EFORWARD
      else if adv =? 4 then unlocked RG_EAGAIN
      else if adv =? 5 then unlocked RG_EFROZEN
      else
        let old_state := rs_state st in
        let clean := old_state =? RG_STATE_RECOVER in
        let st := if clean then set_flags (set_state st newstate) 0 else st in
        ok ← (if clean then set_rg_state WStop st else Ret true);
        if negb ok then unlocked RG_EFAIL else
        now ← perform Time;
        let st := set_transition (set_state st (if recover then RG_STATE_ERROR else RG_STATE_STOPPING)) now in
        ok ← set_rg_state WStop st;
        if negb ok then unlocked RG_EFAIL else
        rg_unlock ;;
        ret ← perform (GroupOp RG_STOP);
        _ ← (if (old_state =? RG_STATE_FAILED) && (newstate =? RG_STATE_DISABLED)
             then svc_stop_finish WFinish 0 newstate else svc_stop_finish WFinish ret newstate);
        Ret ret
  end.

Definition svc_disable : prog Z := svc_stop_with RG_DISABLE false RG_STATE_DISABLED.
Definition svc_stop (req : Z) : prog Z := svc_stop_with req (req =? RG_STOP_RECOVER) RG_STATE_STOPPED.

Definition svc_fail : prog Z :=
  ok ← rg_lock;
  if negb ok then Ret RG_EFAIL else
  r ← get_rg_state;
  match r with
  | None => unlocked RG_EFAIL
  | Some st =>
      if (rs_state st =? RG_STATE_STARTED) && negb (rs_owner st =? me) then unlocked RG_EFAIL
      else
        let st := if negb (rs_owner st =? 0) then set_owner (set_last_owner st (rs_owner st)) 0 else st in
        now ← perform Time;
        let st := set_restarts (set_transition (set_state st RG_STATE_FAILED) now) 0 in
        ok ← set_rg_state WFail st;
        if negb ok then unlocked RG_EFAIL else
        rg_unlock ;;
        perform (Broadcast RG_STATE_FAILED (-1) (rs_last_owner st)) ;;
        Ret 0
  end.

Definition svc_freeze_with (enabled : bool) : prog Z :=
  ok ← rg_lock;
  if negb ok then Ret RG_EFAIL else
  r ← get_rg_state;
  match r with
  | None => unlocked RG_EFAIL
  | Some st =>
      if (rs_state st =? RG_STATE_STOPPED) || (rs_state st =? RG_STATE_STARTED) || (rs_state st =? RG_STATE_DISABLED) then
        let f := if enabled then Z.lor (rs_flags st) RG_FLAG_FROZEN else Z.land (rs_flags st) (Z.lnot RG_FLAG_FROZEN) in
        ok ← set_rg_state WFlags (set_flags st f);
        if negb ok then unlocked RG_EFAIL else unlocked 0
      else unlocked RG_EAGAIN
  end.

Definition svc_freeze : prog Z := svc_freeze_with true.
Definition svc_unfreeze : prog Z := svc_freeze_with false.

(** Only a message, after reading the record. *)
Definition svc_report_failure : prog Z :=
  ok ← rg_lock;
  if negb ok then Ret (-1) else
  r ← get_rg_state;
  rg_unlock ;;
  match r with None => Ret (-1) | Some _ => _ ← perform MemberList; Ret 0 end.

(** ** Migration and status *)

Definition svc_migrate (target : Z) : prog Z :=
  migratory ← perform GroupMigratory;
  if negb migratory then Ret RG_EINVAL else
  ml ← perform MemberList;
  match memb_id_to_p ml target with
  | None => Ret RG_EINVAL
  | Some m =>
      if cn_member m =? 0 then Ret RG_ENODE else
      fod ← perform (NodeShouldStart target ml);
      if fod =? FOD_ILLEGAL then Ret RG_EDEPEND else
      '(svccount, svcexcl) ← perform (CountLocal target);
      excl ← (if c_true svcexcl then Ret 0 else if c_true svccount then perform IsExclusive else Ret 0);
      if c_true svcexcl || (c_true svccount && c_true excl) then Ret RG_EDEPEND else
      ok ← rg_lock;
      if negb ok then Ret RG_EFAIL else
      r ← get_rg_state;
      match r with
      | None => unlocked RG_EFAIL
      | Some st =>
          let s := rs_state st in
          if rs_owner st =? target then unlocked 0
          else if negb (rs_owner st =? me) then unlocked RG_EFORWARD
          else if negb (s =? RG_STATE_STARTED) then
            unlocked (if (s =? RG_STATE_STARTING) || (s =? RG_STATE_STOPPING) || (s =? RG_STATE_RECOVER) ||
                         (s =? RG_STATE_MIGRATE) || (s =? RG_STATE_ERROR) then RG_EAGAIN else RG_EFAIL)
          else if frozen st then unlocked RG_EFROZEN
          else
            rg_unlock ;;
            ret ← perform (GroupMigrate target);
            if ret =? OCF_RA_NOT_RUNNING then Ret RG_EFAIL
            else if ret =? OCF_RA_NOT_CONFIGURED then Ret RG_EINVAL
            else if ret =? 150 then Ret RG_ERELO
            else if negb (ret =? 0) then _ ← svc_fail; Ret RG_EFAIL
            else
              ok ← rg_lock;
              if negb ok then Ret RG_EFAIL else
              let st := set_state (set_owner (set_last_owner st (rs_owner st)) target) RG_STATE_STARTED in
              _ ← set_rg_state WMigrated st;
              unlocked 0
      end
  end.

(** The node another member has seen the service on, or -1. *)
Definition msvc_check_cluster : prog Z :=
  migratory ← perform GroupMigratory;
  if negb migratory then Ret (-1) else
  newowner ← perform GetNewOwner;
  if newowner <? 0 then Ret (-1) else
  ok ← rg_lock;
  if negb ok then Ret (-1) else
  r ← get_rg_state;
  match r with
  | None => unlocked (-1)
  | Some st =>
      ok ← set_rg_state WMigrated (set_owner (set_state st RG_STATE_STARTED) newowner);
      if negb ok then unlocked (-1) else unlocked newowner
  end.

Definition handle_started_status (ret : Z) : prog Z :=
  if c_true (Z.land ret SFL_FAILURE) then
    newowner ← msvc_check_cluster;
    Ret (if newowner >=? 0 then 0 else ret)
  else if c_true (Z.land ret SFL_RECOVERABLE) then
    ret2 ← perform (GroupOp RG_CONDSTOP);
    let partial := c_true (Z.land ret2 SFL_PARTIAL) in
    let ret := if partial then Z.lor ret SFL_PARTIAL else ret in
    let ret2 := if partial then Z.land ret2 (Z.lnot SFL_PARTIAL) else ret2 in
    if c_true (Z.land ret2 SFL_FAILURE) then Ret ret
    else
      _ ← perform (GroupOp RG_CONDSTART);
      Ret (if c_true (Z.land ret SFL_PARTIAL) then SFL_PARTIAL else 0)
  else Ret ret.

Definition handle_migrate_status (ret : Z) (st : rg_state) : prog Z :=
  if negb (ret =? 0) then Ret 0 else
  ok ← rg_lock;
  if negb ok then Ret RG_EFAIL else
  ok ← set_rg_state WMigrated (set_state st RG_STATE_STARTED);
  if negb ok then unlocked RG_EFAIL else unlocked 0.

Definition svc_status : prog Z :=
  ok ← rg_lock;
  if negb ok then Ret RG_EFAIL else
  r ← get_rg_state;
  match r with
  | None => unlocked RG_EFAIL
  | Some st =>
      rg_unlock ;;
      if frozen st then Ret 0
      else if negb (rs_owner st =? me) then Ret 0
      else if rs_state st =? RG_STATE_STARTED then
        ret ← perform (GroupOp RG_STATUS);
        ret ← handle_started_status ret;
        if c_true (Z.land ret SFL_PARTIAL) then
          ok ← rg_lock;
          if negb ok then Ret RG_EFAIL else
          ok ← set_rg_state WFlags (set_flags st (Z.lor (rs_flags st) RG_FLAG_PARTIAL));
          if negb ok then unlocked RG_EFAIL else unlocked (Z.land ret (Z.lnot SFL_PARTIAL))
        else Ret ret
      else if rs_state st =? RG_STATE_MIGRATE then
        ret ← perform (GroupOp RG_STATUS_INQUIRY);
        handle_migrate_status ret st
      else Ret 0
  end.

Definition svc_status_inquiry : prog Z :=
  '(ret, st) ← get_rg_state_local;
  if negb (ret =? 0) then Ret RG_EFAIL
  else if frozen st then Ret 0
  else perform (GroupOp RG_STATUS_INQUIRY).

(** ** Relocation

    Results are the error and the new owner, which keeps its value where the code does not
    set it.  The loops over the members have fuel: each round takes a member out of the list
    or ends the loop, but for [handle_fd_start_req], which can go on for ever. *)

(** When no other node can start it. *)
Definition relocate_exhausted (new_owner : Z) : prog (Z * Z) :=
  let stop_it :=
    ret ← svc_stop RG_STOP;
    (if negb (ret =? 0) then _ ← svc_fail; _ ← svc_report_failure; Ret tt else Ret tt) ;;
    Ret (RG_EFAIL, new_owner) in
  locked ← perform RgLocked;
  if negb (locked : bool) then
    ret ← svc_start RG_START_RECOVER;
    if ret =? 0 then Ret (RG_ERELO, me) else stop_it
  else stop_it.

(** All other members in turn. *)
Fixpoint relocate_loop (fuel : nat) (allowed : members) (orig_request request new_owner : Z) : prog (Z * Z) :=
  match fuel with
  | O => Ret (RG_EFAIL, new_owner)
  | S fuel' =>
      if (memb_count allowed =? 0)%nat then
        if orig_request =? RG_START_RECOVER
        then _ ← svc_stop_finish WRelocated 0 RG_STATE_STOPPED; Ret (RG_EFAIL, new_owner)
        else relocate_exhausted new_owner
      else
        target ← perform (BestTarget allowed me);
        if target =? me then relocate_exhausted new_owner
        else
          ret ← perform (StartRemote request target);
          if ret =? RG_ERUN then '(_, st) ← get_rg_state_local; Ret (0, rs_owner st)
          else if (ret =? RG_EDEPEND) || (ret =? RG_EFAIL)
          then relocate_loop fuel' (memb_mark_down allowed target) orig_request RG_START_RECOVER new_owner
          else if ret =? RG_EABORT then _ ← svc_report_failure; Ret (RG_EFAIL, new_owner)
          else if ret =? 0 then Ret (0, target)
          else Ret (0, new_owner)
  end.

(** Everyone but this node and the preferred one is down for now. *)
Definition only_preferred (ml : members) (preferred : Z) : members :=
  (fun m => if (cn_nodeid m =? me) || (cn_nodeid m =? preferred) then m else set_member m 0) <$> ml.

(** The other members, after the preferred one. *)
Definition relocate_rest (fuel : nat) (allowed : members) (preferred orig_request request new_owner : Z) : prog (Z * Z) :=
  let allowed := if preferred >? 0 then memb_mark_down allowed preferred else allowed in
  relocate_loop fuel (memb_mark_down allowed me) orig_request request new_owner.

(** To the preferred node, when there is one. *)
Definition relocate_target (fuel : nat) (preferred orig_request new_owner : Z) : prog (Z * Z) :=
  if preferred >? 0 then
    backup ← perform MemberList;
    target ← perform (BestTarget (only_preferred backup preferred) me);
    if (target =? me) && negb (me =? preferred) then relocate_exhausted new_owner
    else if target =? me then
      ret ← svc_start RG_START;
      if ret =? 0 then Ret (0, me) else relocate_rest fuel backup preferred orig_request orig_request new_owner
    else if target =? preferred then
      ret ← perform (StartRemote orig_request target);
      if ret =? 0 then Ret (0, target) else relocate_rest fuel backup preferred orig_request RG_START_RECOVER new_owner
    else relocate_rest fuel backup preferred orig_request orig_request new_owner
  else
    allowed ← perform MemberList;
    relocate_rest fuel allowed preferred orig_request orig_request new_owner.

(** Whether the preferred node may take it: an error, or the node, -1 for none. *)
Definition preferred_node (preferred : Z) : prog (Z + Z) :=
  if preferred >? 0 then
    ml ← perform MemberList;
    match memb_id_to_p ml preferred with
    | Some m =>
        if c_true (cn_member m) then
          '(svccount, svcexcl) ← perform (CountLocal preferred);
          excl ← (if c_true svcexcl then Ret 0 else if c_true svccount then perform IsExclusive else Ret 0);
          if c_true svcexcl || (c_true svccount && c_true excl) then Ret (inl RG_EDEPEND) else Ret (inr preferred)
        else Ret (inr (-1))
    | None => Ret (inr (-1))
    end
  else Ret (inr preferred).

Definition handle_relocate_req (fuel : nat) (orig_request preferred_target new_owner : Z) : prog (Z * Z) :=
  '(_, st) ← get_rg_state_local;
  if (rs_state st =? RG_STATE_DISABLED) || (rs_state st =? RG_STATE_UNINITIALIZED) then Ret (RG_EINVAL, new_owner) else
  p ← preferred_node preferred_target;
  match p with
  | inl error => Ret (error, new_owner)
  | inr preferred =>
      if orig_request =? RG_START_RECOVER then relocate_target fuel preferred orig_request new_owner
      else
        ret ← svc_stop_with orig_request false RG_STATE_STOPPED;
        if ret =? RG_EFAIL then _ ← svc_fail; Ret (RG_EFAIL, new_owner)
        else if ret =? RG_EFROZEN then Ret (RG_EFROZEN, new_owner)
        else if ret =? RG_EFORWARD then Ret (RG_EFORWARD, new_owner)
        else relocate_target fuel preferred orig_request new_owner
  end.

(** ** Start requests *)

(** Label [relocate]. *)
Definition start_relocate (fuel : nat) (new_owner : Z) : prog (Z * Z) :=
  '(ret, new_owner) ← handle_relocate_req fuel RG_START_RECOVER (-1) new_owner;
  if ret =? RG_EFAIL then
    r ← svc_stop RG_STOP;
    (if negb (r =? 0) then _ ← svc_fail; _ ← svc_report_failure; Ret tt else Ret tt) ;;
    Ret (ret, new_owner)
  else Ret (ret, new_owner).

(** The start itself; the mutex for exclusive services is not released when a dependency is
    missing. *)
Definition start_here (fuel : nat) (req : Z) (need_check : bool) (new_owner : Z) : prog (Z * Z) :=
  depend ← perform CheckDepend;
  if depend =? 0 then Ret (RG_EDEPEND, new_owner) else
  ret ← svc_start req;
  (if need_check then perform ExclusiveUnlock else Ret tt) ;;
  if (ret =? RG_EAGAIN) || (ret =? RG_ERUN) || (ret =? RG_EFROZEN) then Ret (ret, new_owner)
  else if ret =? RG_ESUCCESS then Ret (RG_ESUCCESS, me)
  else if ret =? RG_NO then Ret (RG_ESUCCESS, new_owner)
  else
    r ← svc_stop RG_STOP_RECOVER;
    if negb (r =? 0) then _ ← svc_fail; Ret (RG_EABORT, new_owner)
    else start_relocate fuel new_owner.

Definition handle_start_req (fuel : nat) (req new_owner : Z) : prog (Z * Z) :=
  found ← msvc_check_cluster;
  if found >=? 0 then Ret (RG_SUCCESS, found) else
  need_check ← perform HaveExclusive;
  ml ← perform MemberList;
  let tolerance := if req =? RG_ENABLE then FOD_GOOD else FOD_BEST in
  legal ← (if negb (req =? RG_RESTART) && negb (req =? RG_START_RECOVER)
           then fod ← perform (NodeShouldStart me ml); Ret (negb (fod <? tolerance)) else Ret true);
  if negb legal then Ret (RG_EFAIL, new_owner) else
  if need_check : bool then
    perform ExclusiveLock ;;
    ret ← perform (CheckExclusive ml);
    if negb (ret =? 0) then
      perform ExclusiveUnlock ;;
      if ret >? 0 then start_relocate fuel new_owner else Ret (RG_EFAIL, new_owner)
    else start_here fuel req true new_owner
  else start_here fuel req false new_owner.

Definition handle_start_remote_req (req : Z) : prog Z :=
  locked ← perform RgLocked;
  if locked : bool then Ret RG_EFAIL else
  need_check ← perform HaveExclusive;
  ml ← perform MemberList;
  let alone := (fun m => if cn_nodeid m =? me then m else set_member m 0) <$> ml in
  let tolerance := if req =? RG_ENABLE then FOD_GOOD else FOD_BEST in
  fod ← perform (NodeShouldStart me alone);
  if fod <? tolerance then Ret RG_EFAIL else
  excl ← (if need_check : bool then perform ExclusiveLock ;; perform (CheckExclusive alone) else Ret 0);
  if negb (excl =? 0) then perform ExclusiveUnlock ;; Ret RG_EEXCL else
  x ← svc_start req;
  (if need_check : bool then perform ExclusiveUnlock else Ret tt) ;;
  if (x =? 0) || (x =? RG_ERUN) || (x =? RG_EFROZEN) then Ret x else
  central ← perform CentralEvents;
  r ← svc_stop (if central : bool then RG_STATE_STOPPED else RG_STOP_RECOVER);
  if r =? 0 then Ret RG_EFAIL else
  _ ← svc_fail; Ret RG_EABORT.

(** The members in the order of their score. *)
Fixpoint fd_start_loop (fuel : nat) (allowed : members) (request ret : Z) : prog Z :=
  match fuel with
  | O => Ret ret
  | S fuel' =>
      if (memb_count allowed =? 0)%nat then Ret ret else
      target ← perform (BestTarget allowed 0);
      if negb (target =? me) && negb (target >? 0) then Ret ret else
      ret ← (if target =? me then handle_start_remote_req (if request =? RG_ENABLE then RG_START_RECOVER else request)
             else perform (StartRemote (if request =? RG_ENABLE then RG_START_RECOVER else RG_START_REMOTE) target));
      if (target =? me) && (ret =? RG_EAGAIN) then Ret ret
      else if (ret =? RG_ESUCCESS) || (ret =? RG_ERUN) then Ret ret
      else if ret =? RG_EFAIL then fd_start_loop fuel' (memb_mark_down allowed target) request ret
      else if ret =? RG_EABORT then _ ← svc_report_failure; Ret RG_EFAIL
      else fd_start_loop fuel' allowed request ret
  end.

Definition handle_fd_start_req (fuel : nat) (request new_owner : Z) : prog (Z * Z) :=
  found ← msvc_check_cluster;
  if found >=? 0 then Ret (RG_SUCCESS, found) else
  allowed ← perform MemberList;
  ret ← fd_start_loop fuel allowed request found;
  Ret (ret, new_owner).

(** ** Recovery *)

Definition handle_recover_req (fuel : nat) (new_owner : Z) : prog (Z * Z) :=
  policy ← perform RecoveryPolicy;
  let disable := ret ← svc_disable; Ret (ret, new_owner) in
  if strcaseeq policy "disable" then perform ClearRestart ;; disable
  else if strcaseeq policy "relocate" then
    perform ClearRestart ;; handle_relocate_req fuel RG_START_RECOVER (-1) new_owner
  else
    over ← perform CheckRestart;
    if over >? 0 then
      perform ClearRestart ;;
      if contains policy "disable" then disable else handle_relocate_req fuel RG_START_RECOVER (-1) new_owner
    else
      perform AddRestart ;;
      handle_start_req fuel RG_START_RECOVER new_owner.

(** ** The thread of the service

    One request: the request, the node it asks for, and its first argument.  The result is the
    error for the requester, what becomes of the answer, and the new owner. *)
Definition answer (error : Z) : Z :=
  if error =? 0 then RG_SUCCESS else if error =? RG_EFORWARD then RG_NONE else RG_EFAIL.

Definition handle_request (fuel : nat) (req target arg0 newowner : Z) : prog (Z * Z * Z) :=
  let simple (p : prog Z) := error ← p; Ret (error, answer error, newowner) in
  if (req =? RG_START_REMOTE) || (req =? RG_START_RECOVER) then
    error ← handle_start_remote_req req; Ret (error, RG_FAIL, newowner)
  else if (req =? RG_ENABLE) && negb (target =? 0) && negb (target =? me) then Ret (RG_EFORWARD, RG_NONE, newowner)
  else if (req =? RG_ENABLE) || (req =? RG_START) then
    '(error, owner) ← (if c_true arg0 then handle_fd_start_req fuel req newowner else handle_start_req fuel req newowner);
    Ret (error, RG_FAIL, owner)
  else if req =? RG_RELOCATE then
    '(error, owner) ← handle_relocate_req fuel RG_START_REMOTE target newowner;
    Ret (error, (if error =? RG_EFORWARD then RG_NONE else RG_FAIL), owner)
  else if req =? RG_CONVALESCE then simple svc_convalesce
  else if req =? RG_MIGRATE then simple (svc_migrate target)
  else if req =? RG_INIT then
    error ← perform (GroupOp RG_STOP); Ret (error, (if error =? 0 then RG_SUCCESS else RG_EFAIL), newowner)
  else if (req =? RG_CONDSTOP) || (req =? RG_CONDSTART) then _ ← perform (GroupOp req); Ret (0, RG_FAIL, newowner)
  else if (req =? RG_STOP) || (req =? RG_STOP_USER) then simple (svc_stop req)
  else if req =? RG_STOP_EXITING then simple (svc_stop RG_STOP)
  else if req =? RG_DISABLE then simple svc_disable
  else if req =? RG_RESTART then
    error ← svc_stop RG_STOP_USER;
    if error =? 0 then '(error, owner) ← handle_start_req fuel req newowner; Ret (error, RG_FAIL, owner)
    else Ret (error, answer error, newowner)
  else if req =? RG_STATUS then
    ready ← perform Initialized;
    if negb ready then Ret (0, RG_SUCCESS, newowner) else
    error ← svc_status;
    if error =? 0 then Ret (error, RG_SUCCESS, newowner) else
    error ← svc_stop RG_STOP_RECOVER;
    if negb (error =? 0) then Ret (error, RG_FAIL, newowner) else
    central ← perform CentralEvents;
    if central : bool then Ret (error, RG_FAIL, newowner) else
    '(error, owner) ← handle_recover_req fuel newowner;
    Ret (error, (if error =? 0 then RG_SUCCESS else RG_FAIL), owner)
  else if (req =? RG_FREEZE) || (req =? RG_UNFREEZE) then
    error ← (if req =? RG_FREEZE then svc_freeze else svc_unfreeze);
    Ret (error, (if negb (error =? 0) then RG_EFAIL else RG_FAIL), newowner)
  else if req =? RG_STATUS_INQUIRY then
    error ← svc_status_inquiry;
    Ret (error, (if error =? 0 then RG_SUCCESS else RG_EFAIL), (if error =? 0 then me else -1))
  else Ret (0, RG_NONE, newowner).
End service.

(** ** Writes by other threads

    When the services are looked at, one that has never been started and is not to be started
    by itself is marked as disabled; after a new configuration, one that is disabled is
    prepared for a start.  Both read and write within one holding of the lock. *)

Definition mark_no_autostart (st : rg_state) : rg_state :=
  if (rs_transition st =? 0) && (rs_state st =? RG_STATE_STOPPED) then set_state st RG_STATE_DISABLED else st.

Definition mark_reconfigured (autostart : bool) (st : rg_state) : rg_state :=
  if negb (rs_state st =? RG_STATE_DISABLED) then st
  else set_state st (if autostart then RG_STATE_STOPPED else RG_STATE_DISABLED).
