(* ===== verification/RgStateThm.v ===== *)
(** * A service runs on one node

    Nodes that run the handlers of [RgState] in any order, crash and come back.  A node uses
    the resources of the service from the moment it has written that it starts it until a stop
    has succeeded.  The handlers are checked by an abstract run that keeps what the thread
    knows ([know]): whether it has the lock, what the record is, whether it and others use the
    service.  [service_runs_once] says that no two nodes use it, but for runs with one of the
    writes listed in [hazard]. *)

From stdpp Require Import functions strings.
From S2P Require Import Prelude RgState.
Open Scope Z_scope.

(** ** The cluster *)

Record world := mkWorld {
  w_rec : option rg_state;          (* the record, when there is one *)
  w_lock : option Z;                (* who has the lock *)
  w_up : Z -> bool;
  w_use : Z -> bool;                (* who uses the resources *)
  w_seen : Z -> bool;               (* who has found itself as the owner of a started service *)
  w_thr : Z -> option (prog (Z * Z * Z))
}.

Definition with_rec (w : world) (r : option rg_state) : world :=
  mkWorld r (w_lock w) (w_up w) (w_use w) (w_seen w) (w_thr w).
Definition with_lock (w : world) (l : option Z) : world :=
  mkWorld (w_rec w) l (w_up w) (w_use w) (w_seen w) (w_thr w).
Definition with_use (w : world) (n : Z) (b : bool) : world :=
  mkWorld (w_rec w) (w_lock w) (w_up w) (<[n := b]> (w_use w)) (w_seen w) (w_thr w).
Definition with_seen (w : world) (n : Z) (b : bool) : world :=
  mkWorld (w_rec w) (w_lock w) (w_up w) (w_use w) (<[n := b]> (w_seen w)) (w_thr w).
Definition with_thr (w : world) (n : Z) (t : option (prog (Z * Z * Z))) : world :=
  mkWorld (w_rec w) (w_lock w) (w_up w) (w_use w) (w_seen w) (<[n := t]> (w_thr w)).

(** The record says that [n] runs the service. *)
Definition mine (n : Z) (st : rg_state) : bool := (rs_owner st =? n) && (rs_state st =? RG_STATE_STARTED).

(** A write that may take the service from a node that uses it: the record is written anew
    because it could not be read; a service that its owner is stopping for recovery is started
    or disabled elsewhere; a service whose stop has failed is disabled; a node that does not
    use it declares it failed, or stopped after a relocation, or finishes a stop of its own
    that another node has overtaken; the service is written to be elsewhere, after it has
    migrated or has been seen there. *)
Definition hazard (w : world) (n : Z) (s : site) : Prop :=
  match s with
  | WInit => w_rec w <> None
  | WStart | WStop => exists st, w_rec w = Some st /\
      (rs_state st = RG_STATE_ERROR /\ (exists m, m <> n /\ w_use w m = true) \/
       rs_state st = RG_STATE_FAILED /\ exists m, w_use w m = true)
  | WFinish | WFail => exists m, m <> n /\ w_use w m = true
  | WRelocated => exists m, w_use w m = true
  | WMigrated => True
  | _ => False
  end.

Definition starts (s : site) : bool := match s with WStart => true | _ => false end.

(** The record is written by [n]; from the write before a start on, it uses the service. *)
Definition written (w : world) (n : Z) (s : site) (st : rg_state) : world :=
  let w := with_rec w (Some st) in with_seen (if starts s then with_use w n true else w) n (mine n st).

Section cluster.

(** Which writes there are. *)
Context (allowed : world -> Z -> site -> Prop).

(** One call by [n]: the answer and the world after it.  A node that is up is online for
    everyone; no migration succeeds. *)
Inductive call_step (n : Z) : forall {R : Type}, call R -> world -> R -> world -> Prop :=
| CLock w : w_lock w = None -> call_step n RgLock w true (with_lock w (Some n))
| CNoLock w : call_step n RgLock w false w
| CUnlock w : call_step n RgUnlock w tt (with_lock w (if decide (w_lock w = Some n) then None else w_lock w))
| CRead w st : w_rec w = Some st -> call_step n ReadState w (Data st) (with_seen w n (mine n st))
| CNoRead w : call_step n ReadState w NoData w
| CShort w : call_step n ReadState w TooShort w
| CWrite w s st : allowed w n s ->
    call_step n (WriteState s st) w true (written w n s st)
| CNoWrite w s st : call_step n (WriteState s st) w false w
| CStopped w : call_step n (GroupOp RG_STOP) w 0 (with_use w n false)
| CGroupOp w op r : op <> RG_STOP \/ r <> 0 -> call_step n (GroupOp op) w r w
| CMembers w ml : (forall m, w_up w m = true -> memb_online ml m <> 0) -> call_step n MemberList w ml w
| CMigrate w target r : r <> 0 -> call_step n (GroupMigrate target) w r w
| COther w R (c : call R) (r : R) :
    match c with
    | RgLock | RgUnlock | ReadState | WriteState _ _ | GroupOp _ | MemberList | GroupMigrate _ => False
    | _ => True
    end -> call_step n c w r w.

(** Nodes have numbers other than 0. *)
Inductive step : world -> world -> Prop :=
| SRequest w n fuel req target arg0 owner : n <> 0 -> w_up w n = true -> w_thr w n = None ->
    step w (with_thr w n (Some (handle_request n fuel req target arg0 owner)))
| SCall w n R (c : call R) k r w' : w_thr w n = Some (Call c k) -> call_step n c w r w' -> step w (with_thr w' n (Some (k r)))
| SDone w n a : w_thr w n = Some (Ret a) -> step w (with_thr w n None)
| SAutostart w st : w_lock w = None -> w_rec w = Some st -> step w (with_rec w (Some (mark_no_autostart st)))
| SReconfigured w st b : w_lock w = None -> w_rec w = Some st -> step w (with_rec w (Some (mark_reconfigured b st)))
| SCrash w n : step w (with_thr (with_seen (with_use (mkWorld (w_rec w) (if decide (w_lock w = Some n) then None else w_lock w)
      (<[n := false]> (w_up w)) (w_use w) (w_seen w) (w_thr w)) n false) n false) n None)
| SJoin w n : step w (mkWorld (w_rec w) (w_lock w) (<[n := true]> (w_up w)) (w_use w) (w_seen w) (w_thr w)).

Definition start_world : world := mkWorld None None (fun _ => false) (fun _ => false) (fun _ => false) (fun _ => None).

Inductive reachable : world -> Prop :=
| RStart : reachable start_world
| RStep w w' : reachable w -> step w w' -> reachable w'.

End cluster.

Lemma reachable_mono (allowed allowed' : world -> Z -> site -> Prop) w :
  (forall w n s, allowed w n s -> allowed' w n s) -> reachable allowed w -> reachable allowed' w.
Proof.
  intros Ha. assert (forall n R (c : call R) w r w', call_step allowed n c w r w' -> call_step allowed' n c w r w') as Hc.
  { intros n R c w0 r w' []; constructor; auto. }
  induction 1 as [|w w' _ IH Hs]; [apply RStart|]. eapply RStep; [done|].
  destruct Hs; econstructor; eauto.
Qed.

Definition used_once (w : world) : Prop := forall n m, w_use w n = true -> w_use w m = true -> n = m.

Create HintDb rg discriminated.
#[export] Hint Constants Opaque : rg.

(** ** What a thread knows *)

Record know := mkKnow {
  k_lock : bool;                  (* it has the lock *)
  k_rec : option rg_state;        (* under the lock, the record *)
  k_alone : bool;                 (* under the lock, no other node uses the service or has seen itself as owner *)
  k_use : option bool;            (* it uses the service, or does not *)
  k_seen : bool                   (* it has seen itself as owner *)
}.

(** States in which the owner may use the service. *)
Definition running (st : rg_state) : bool :=
  (rs_state st =? RG_STATE_STARTING) || (rs_state st =? RG_STATE_STARTED) ||
  (rs_state st =? RG_STATE_STOPPING) || (rs_state st =? RG_STATE_ERROR).
Definition failed (st : rg_state) : bool := rs_state st =? RG_STATE_FAILED.

Definition idle (st : rg_state) : bool := negb (running st) && negb (failed st).

(** After a read. *)
Definition alone_read (n : Z) (k : know) (st : rg_state) : bool :=
  k_alone k || idle st || (negb (failed st) && ((rs_owner st =? n) || (rs_owner st =? 0))).
Definition use_read (n : Z) (k : know) (st : rg_state) : option bool :=
  if idle st || (negb (failed st) && negb (rs_owner st =? n)) then Some false else k_use k.

(** Before a write at [s] that is no hazard. *)
Definition alone_write (n : Z) (k : know) (s : site) : bool :=
  k_alone k || k_seen k || match k_use k with Some true => true | _ => false end ||
  match s, k_rec k with
  | WInit, _ => true
  | (WStart | WStop), Some r => (rs_state r =? RG_STATE_ERROR) || failed r
  | (WFinish | WFail), Some r => negb (rs_state r =? RG_STATE_STARTED) || (rs_owner r =? n)
  | WRelocated, Some r => negb (rs_state r =? RG_STATE_STARTED)
  | _, _ => false
  end.
Definition use_write (k : know) (s : site) : option bool :=
  match s, k_rec k with
  | (WInit | WRelocated), _ => Some false
  | (WStart | WStop), Some r => if failed r then Some false else k_use k
  | _, _ => k_use k
  end.

(** The new record leaves the owner and the state as they are. *)
Definition keeps (k : know) (st : rg_state) : bool :=
  match k_rec k with Some r => (rs_owner r =? rs_owner st) && (rs_state r =? rs_state st) | None => false end.

(** The new record covers the use of the service by [n]. *)
Definition covers (n : Z) (u : option bool) (s : site) (st : rg_state) : bool :=
  (rs_owner st =? n) && running st ||
  negb (starts s) && (failed st || match u with Some false => true | _ => false end).

Definition write_ok (n : Z) (k : know) (s : site) (st : rg_state) : Prop :=
  k_lock k = true /\ rs_state st <> RG_STATE_MIGRATE /\
  (negb (starts s) && keeps k st = true \/ alone_write n k s = true /\ covers n (use_write k s) s st = true).

(** What may be called, what may be answered, and what is known then. *)
Definition pre (n : Z) (k : know) {R : Type} (c : call R) : Prop :=
  match c with
  | ReadState | WriteState WMigrated _ => k_lock k = true
  | WriteState s st => write_ok n k s st
  | _ => True
  end.

Lemma pre_write n k s st : write_ok n k s st -> pre n k (WriteState s st).
Proof. intros H. destruct s; try exact H. apply H. Qed.

Lemma pre_lock n k s st : pre n k (WriteState s st) -> k_lock k = true.
Proof. intros H. destruct s; first [exact H|apply H]. Qed.

Definition answer_ok (k : know) {R : Type} (c : call R) : R -> Prop :=
  match c in call R return R -> Prop with
  | ReadState => fun r => match r with Data st => rs_state st <> RG_STATE_MIGRATE | _ => True end
  | WriteState WMigrated _ => fun ok => ok = false
  | WriteState WInit _ => fun ok => ok = true -> k_seen k = false
  | GroupMigrate _ => fun r => r <> 0
  | _ => fun _ => True
  end.

Definition after (n : Z) (k : know) {R : Type} (c : call R) : R -> know :=
  match c in call R return R -> know with
  | RgLock => fun ok => if ok then mkKnow true None false (k_use k) (k_seen k) else k
  | RgUnlock => fun _ => mkKnow false None false (k_use k) (k_seen k)
  | ReadState => fun r =>
      match r with
      | Data st => mkKnow (k_lock k) (Some st) (alone_read n k st) (use_read n k st) (mine n st || k_seen k)
      | _ => k
      end
  | WriteState s st => fun ok =>
      if ok then
        if negb (starts s) && keeps k st then mkKnow (k_lock k) (Some st) (k_alone k) (k_use k) (mine n st)
        else mkKnow (k_lock k) (Some st) true (if starts s then Some true else use_write k s) (mine n st)
      else k
  | GroupOp op => fun r =>
      if (op =? RG_STOP) && (r =? 0) then mkKnow (k_lock k) (k_rec k) (k_alone k) (Some false) (k_seen k) else k
  | MemberList => fun ml =>
      match k_rec k with
      | Some st =>
          if negb (failed st) && negb (rs_owner st =? n) && (memb_online ml (rs_owner st) =? 0)
          then mkKnow (k_lock k) (k_rec k) true (k_use k) (k_seen k) else k
      | None => k
      end
  | _ => fun _ => k
  end.

(** The abstract run of a program. *)
Fixpoint safe {A : Type} (n : Z) (k : know) (p : prog A) (Q : know -> A -> Prop) : Prop :=
  match p with
  | Ret a => Q k a
  | Call c kont => pre n k c /\ forall r, answer_ok k c r -> safe n (after n k c r) (kont r) Q
  end.

Lemma safe_mono {A} n (p : prog A) (Q Q' : know -> A -> Prop) : (forall k a, Q k a -> Q' k a) ->
  forall k, safe n k p Q -> safe n k p Q'.
Proof.
  intros HQ. induction p as [a|R c kont IH]; intros k; cbn; [apply HQ|]. intros [Hp Hs]. split; [done|].
  intros r Hr. by apply IH, Hs.
Qed.

Lemma safe_bind {A B} n (p : prog A) (f : A -> prog B) Q : forall k,
  safe n k p (fun k' a => safe n k' (f a) Q) -> safe n k (p ≫= f) Q.
Proof.
  induction p as [a|R c kont IH]; intros k; cbn; [done|]. intros [Hp Hs]. split; [done|].
  intros r Hr. by apply IH, Hs.
Qed.

Lemma safe_perform {R} n k (c : call R) Q : pre n k c -> (forall r, answer_ok k c r -> Q (after n k c r) r) ->
  safe n k (perform c) Q.
Proof. done. Qed.

(** ** The handlers *)

Section handlers.
Context (n : Z) (Hn : n <> 0).

(** A program that is started and ends without the lock. *)
Definition quiet {A : Type} (k : know) (_ : A) : Prop := k_lock k = false.
Definition harmless {A : Type} (p : prog A) : Prop := forall k, k_lock k = false -> safe n k p quiet.

Lemma harmless_ret {A} (a : A) : harmless (Ret a).
Proof. intros k Hk. exact Hk. Qed.

Lemma harmless_bind {A B} (p : prog A) (f : A -> prog B) : harmless p -> (forall a, harmless (f a)) -> harmless (p ≫= f).
Proof. intros Hp Hf k Hk. apply safe_bind. eapply safe_mono; [|by apply Hp]. intros k' a Hk'. by apply Hf. Qed.

(** Calls that have nothing to do with the lock and the record. *)
Definition plain {R : Type} (c : call R) : bool :=
  match c with RgLock | RgUnlock | ReadState | WriteState _ _ => false | _ => true end.

Lemma after_plain {R} (c : call R) k r : plain c = true ->
  k_lock (after n k c r) = k_lock k /\ k_rec (after n k c r) = k_rec k /\ k_seen (after n k c r) = k_seen k.
Proof. destruct c; try done; intros _; cbn; repeat (case_match; try done). Qed.

Lemma harmless_plain {R} (c : call R) : plain c = true -> harmless (perform c).
Proof.
  intros Hc k Hk. apply safe_perform; [by destruct c|]. intros r _. unfold quiet.
  by rewrite (proj1 (after_plain c k r Hc)).
Qed.

(** With the lock: what is known, and the way out. *)
Definition locked_post {A : Type} (k : know) (_ : A) : Prop := k_lock k = true.

Lemma unlocked_quiet k ret : safe n k (unlocked ret) quiet.
Proof. done. Qed.

Lemma covers_unused u s st : starts s = false -> u = Some false -> covers n u s st = true.
Proof. intros Hs ->. unfold covers. by rewrite Hs, !orb_true_r. Qed.

Lemma covers_failed u s st : starts s = false -> rs_state st = RG_STATE_FAILED -> covers n u s st = true.
Proof. intros Hs Hst. unfold covers, failed. by rewrite Hs, Hst, orb_true_r. Qed.

Lemma covers_own u s st : rs_owner st = n -> running st = true -> covers n u s st = true.
Proof. intros Ho Hr. unfold covers. by rewrite Ho, Z.eqb_refl, Hr. Qed.

(** The record after [get_rg_state]; what was known of the use still is, or nobody uses it, and
    a node that has seen itself as owner still is. *)
Definition read_post (k : know) (k' : know) (r : option rg_state) : Prop :=
  exists k0, k_lock k0 = true /\ (k_use k0 = k_use k \/ k_use k0 = Some false) /\
    (k_seen k = true -> k_seen k0 = true) /\
    match r with
    | Some st => rs_state st <> RG_STATE_MIGRATE /\ k' = after n k0 ReadState (Data st)
    | None => k' = k0
    end.

Lemma get_rg_state_safe k : k_lock k = true -> safe n k get_rg_state (read_post k).
Proof.
  intros Hk. unfold get_rg_state. apply safe_bind, safe_perform; [done|]. intros [| |st] Hr.
  2: { exists k. by eauto 8. }
  2: { exists k. by eauto 8. }
  cbn [after]. apply safe_bind. unfold init_rg, set_rg_state. apply safe_perform.
  { split_and!; [done..|]. right. unfold alone_write. rewrite orb_true_r. split; [done|by apply covers_unused]. }
  intros [] Hs; [|by exists k; eauto]. specialize (Hs eq_refl).
  set (k1 := after n k (WriteState WInit initial) true).
  assert (k_lock k1 = true /\ (k_use k1 = k_use k \/ k_use k1 = Some false)) as [Hl Hu].
  { unfold k1. cbn [after]. destruct (negb (starts WInit) && keeps k initial); cbn; (split; [done|]); auto. }
  apply safe_bind, safe_perform; [done|]. intros [| |st] Hr'; exists k1; (split; [done|]; split; [done|]; split; [congruence|done]).
Qed.

(** Lock, read, and go on; the rest ends without the lock. *)
Lemma locked_read_safe (fail : Z) (body : rg_state -> prog Z) k : k_lock k = false ->
  (forall k0 st, k_lock k0 = true -> k_use k0 = k_use k \/ k_use k0 = Some false -> rs_state st <> RG_STATE_MIGRATE ->
     safe n (after n k0 ReadState (Data st)) (body st) quiet) ->
  safe n k (ok ← rg_lock; if negb ok then Ret fail else
            r ← get_rg_state; match r with None => unlocked fail | Some st => body st end) quiet.
Proof.
  intros Hk Hbody. apply safe_bind, safe_perform; [done|]. intros [] _; [|done]. cbn [negb after].
  apply safe_bind. eapply safe_mono; [|by apply get_rg_state_safe]. intros k' r (k0 & Hl & Hu & _ & Hr).
  destruct r as [st|]; [|apply unlocked_quiet]. destruct Hr as [Hm ->]. by apply Hbody.
Qed.

Lemma locked_read_harmless (fail : Z) (body : rg_state -> prog Z) :
  (forall k st, k_lock k = true -> rs_state st <> RG_STATE_MIGRATE -> safe n (after n k ReadState (Data st)) (body st) quiet) ->
  harmless (ok ← rg_lock; if negb ok then Ret fail else
            r ← get_rg_state; match r with None => unlocked fail | Some st => body st end).
Proof. intros Hbody k Hk. apply locked_read_safe; [done|]. intros k0 st Hl _. by apply Hbody. Qed.

(** Under the lock, calls that leave lock and record alone. *)
Lemma safe_plain {R A} (c : call R) (f : R -> prog A) k Q : plain c = true ->
  (forall r, answer_ok k c r -> safe n (after n k c r) (f r) Q) -> safe n k (perform c ≫= f) Q.
Proof. intros Hc Hf. apply safe_bind, safe_perform; [by destruct c|done]. Qed.

Lemma alone_using k s : k_use k = Some true -> alone_write n k s = true.
Proof. intros H. unfold alone_write. by rewrite H, orb_true_r. Qed.

Lemma alone_seen k s : k_seen k = true -> alone_write n k s = true.
Proof. intros H. unfold alone_write. by rewrite H, orb_true_r. Qed.

(** The states that a node that is neither the owner nor online may have left. *)
Lemma alone_idle k st ml s : idle st = true -> alone_write n (after n (after n k ReadState (Data st)) MemberList ml) s = true.
Proof.
  intros Hi. unfold alone_write. cbn [after k_rec]. unfold alone_read. rewrite Hi, orb_true_r. cbn [orb].
  by destruct (negb _ && _ && _).
Qed.

Lemma alone_down k st ml s : failed st = false -> rs_owner st <> n -> memb_online ml (rs_owner st) = 0 ->
  alone_write n (after n (after n k ReadState (Data st)) MemberList ml) s = true.
Proof. intros Hf Ho Hm. unfold alone_write. cbn [after k_rec]. by rewrite Hf, (proj2 (Z.eqb_neq _ _) Ho), Hm. Qed.

Lemma alone_owner k st ml s : failed st = false -> rs_owner st = n \/ rs_owner st = 0 ->
  alone_write n (after n (after n k ReadState (Data st)) MemberList ml) s = true.
Proof.
  intros Hf Ho. unfold alone_write. cbn [after k_rec]. unfold alone_read. rewrite Hf.
  replace ((rs_owner st =? n) || (rs_owner st =? 0)) with true by (destruct Ho as [-> | ->]; lia).
  rewrite orb_true_r. cbn [orb negb andb]. by destruct (negb _ && _).
Qed.

Lemma alone_risk k st ml s : (s = WStart \/ s = WStop) -> rs_state st = RG_STATE_ERROR \/ rs_state st = RG_STATE_FAILED ->
  alone_write n (after n (after n k ReadState (Data st)) MemberList ml) s = true.
Proof.
  intros Hs Hst. unfold alone_write. assert (forall b : know, k_rec b = Some st ->
    match s, k_rec b with
    | WInit, _ => true
    | (WStart | WStop), Some r => (rs_state r =? RG_STATE_ERROR) || failed r
    | (WFinish | WFail), Some r => negb (rs_state r =? RG_STATE_STARTED) || (rs_owner r =? n)
    | WRelocated, Some r => negb (rs_state r =? RG_STATE_STARTED)
    | _, _ => false
    end = true) as E.
  { intros b ->. unfold failed. destruct Hs as [-> | ->], Hst as [-> | ->]; done. }
  rewrite E; [by rewrite !orb_true_r|]. by rewrite (proj1 (proj2 (after_plain MemberList _ ml eq_refl))).
Qed.

(** The state as a case. *)
Lemma state_cases st : running st = true \/ failed st = true \/ idle st = true.
Proof. unfold idle. destruct (running st), (failed st); auto. Qed.

(** The advice to start: then the service may be taken. *)
Lemma advise_start_safe k st req Q : k_lock k = true -> rs_state st <> RG_STATE_MIGRATE ->
  (forall k' adv, k_lock k' = true -> k_rec k' = Some st ->
     (adv <> 0 -> adv <> 2 -> adv <> 3 -> adv <> 4 -> adv <> 5 -> alone_write n k' WStart = true) -> Q k' adv) ->
  safe n (after n k ReadState (Data st)) (svc_advise_start n st req) Q.
Proof.
  intros Hk Hm HQ. unfold svc_advise_start. apply safe_plain; [done|]. intros ml _.
  set (k1 := after n (after n k ReadState (Data st)) MemberList ml).
  assert (k_lock k1 = true /\ k_rec k1 = Some st) as [Hl Hr].
  { unfold k1. pose proof (after_plain MemberList (after n k ReadState (Data st)) ml eq_refl) as (-> & -> & _). done. }
  assert (alone_write n k1 WStart = true -> forall adv, Q k1 adv) as Hyes by (intros; by apply HQ).
  assert (forall c1 c2, alone_write n k1 WStart = true -> safe n k1 (locked ← perform RgLocked; Ret (if locked : bool then c1 else c2)) Q) as Hul.
  { intros c1 c2 Ha. apply safe_plain; [done|]. intros b _. by apply Hyes. }
  destruct (frozen st); [by apply HQ|].
  destruct (Z.eqb_spec (rs_state st) RG_STATE_FAILED) as [Hf|Hf]; [by apply HQ|].
  destruct (Z.eqb_spec (rs_state st) RG_STATE_MIGRATE) as [Hmi|_]; [by apply HQ|].
  assert (failed st = false) as Hnf by (by apply Z.eqb_neq).
  destruct (_ || _ || _ || _) eqn:Erun.
  { destruct (Z.eqb_spec (rs_owner st) n) as [Ho|Ho]; [by apply HQ|]. cbn [negb andb].
    destruct (c_true (memb_online ml (rs_owner st))) eqn:Eon; [by apply HQ|].
    apply Hul, alone_down; try done. unfold c_true in Eon. apply negb_false_iff in Eon. lia. }
  apply orb_false_iff in Erun as [[[? ?]%orb_false_iff ?]%orb_false_iff ?].
  destruct (Z.eqb_spec (rs_state st) RG_STATE_ERROR) as [He|He].
  { rewrite He. cbn [Z.eqb]. apply Hul, alone_risk; auto. }
  assert (alone_write n k1 WStart = true) as Ha.
  { apply alone_idle. unfold idle, running. rewrite Hnf. repeat (rewrite orb_false_iff || rewrite andb_true_iff || rewrite negb_true_iff). lia. }
  repeat match goal with |- safe _ _ (if ?b then _ else _) _ => destruct b end; by apply Hul || by apply Hyes.
Qed.

Lemma svc_start_harmless req : harmless (svc_start n req).
Proof.
  apply locked_read_harmless. intros k st Hk Hm. apply safe_bind. apply advise_start_safe; [done..|].
  intros k' adv Hl Hr Ha.
  do 5 (match goal with |- safe _ _ (if ?b then _ else _) _ => destruct b eqn:?; [apply unlocked_quiet|]; zbool end).
  apply safe_plain; [done|]. intros now _. cbn [after].
  set (st1 := set_state _ RG_STATE_STARTING).
  assert (rs_owner st1 = n /\ rs_state st1 = RG_STATE_STARTING) as [Ho Hs] by done.
  apply safe_bind, safe_perform.
  { split_and!; [done|rewrite Hs; done|]. right. split; [by apply Ha|]. apply covers_own; [done|]. unfold running. by rewrite Hs. }
  intros [] _; [|apply unlocked_quiet]. cbn [negb after starts andb k_use].
  apply safe_bind, safe_perform; [done|]. intros [] _. cbn [after k_use k_seen].
  apply safe_plain; [done|]. intros ret _. cbn [after Z.eqb Pos.eqb RG_START RG_STOP andb].
  apply safe_bind, safe_perform; [done|]. intros [] _; [|done]. cbn [negb after].
  apply safe_bind, safe_perform.
  { split_and!; [done..|]. right. split; [by apply alone_using|]. by apply covers_own. }
  intros [] _; [|apply unlocked_quiet]. cbn [negb after].
  apply safe_bind, safe_perform; [done|]. intros [] _. apply safe_bind.
  destruct (_ =? 0); [|done]. by apply safe_perform.
Qed.

Lemma svc_convalesce_harmless : harmless (svc_convalesce n).
Proof.
  apply locked_read_harmless. intros k st Hk Hm.
  destruct (Z.eqb_spec (rs_state st) RG_STATE_STARTED) as [Hs|]; [|apply unlocked_quiet]. cbn [negb].
  destruct (frozen st); [apply unlocked_quiet|].
  destruct (Z.eqb_spec (rs_owner st) n) as [Ho|]; [|apply unlocked_quiet]. cbn [negb].
  destruct (negb _); [apply unlocked_quiet|].
  apply safe_bind, safe_perform; [done|]. intros [] _. apply safe_plain; [done|]. intros ret _.
  destruct (negb (ret =? 0)); [done|]. apply safe_bind, safe_perform; [done|]. intros [] _; [|done].
  cbn [negb]. apply safe_bind, safe_perform; [|by intros []].
  assert (mine n st = true) as Hmi by (unfold mine; rewrite Ho, Hs, Z.eqb_refl; done).
  split_and!; [done|cbn; congruence|]. right. split; [apply alone_seen; cbn; by rewrite Hmi|]. apply covers_own; [done|].
  unfold running. cbn. by rewrite Hs.
Qed.

(** The end of a stop: the service is unused now, or it is marked as failed. *)
Lemma svc_stop_finish_safe s fl newstate k : s = WFinish \/ s = WRelocated -> newstate <> RG_STATE_MIGRATE ->
  (s = WFinish -> c_true fl = true \/ k_use k = Some false) -> k_lock k = false ->
  safe n k (svc_stop_finish s fl newstate) quiet.
Proof.
  intros Hs Hnew Hun Hk. apply locked_read_safe; [done|]. intros k0 st Hl Hu Hm.
  destruct (_ && _ && _) eqn:Est; [apply unlocked_quiet|].
  assert (rs_state st <> RG_STATE_STARTED) as Hst by (intros E; by rewrite E in Est).
  apply safe_plain; [done|]. intros now _. cbn [after].
  apply safe_bind, safe_perform; [|intros [] _; [|apply unlocked_quiet]; cbn [negb after]].
  - apply pre_write. split_and!; [done| |right; split].
    + cbn. repeat case_match; done.
    + unfold alone_write. cbn [k_rec k_alone]. rewrite (proj2 (Z.eqb_neq _ _) Hst). cbn [negb orb].
      destruct Hs as [-> | ->]; by rewrite !orb_true_r.
    + destruct Hs as [-> | ->]; [|by apply covers_unused]. destruct (Hun eq_refl) as [-> |Hf]; [by apply covers_failed|].
      apply covers_unused; [done|]. cbn [use_write k_use]. unfold use_read. destruct (_ || _); [done|].
      destruct Hu as [-> | ->]; done.
  - apply safe_bind, safe_perform; [done|]. intros [] _. by apply safe_plain.
Qed.

(** The advice to stop, or to mark the service of a dead owner as stopped. *)
Definition stop_advised (st : rg_state) (k : know) (adv : Z) : Prop :=
  k_lock k = true /\ k_rec k = Some st /\
  (adv = 6 -> alone_write n k WDown = true /\ k_use k = Some false) /\
  (adv = 1 -> alone_write n k WStop = true /\
     (rs_owner st = n /\ failed st = false \/ use_write k WStop = Some false) /\
     (rs_state st = RG_STATE_RECOVER -> k_use k = Some false)) /\
  (adv = 0 \/ adv = 1 \/ adv = 2 \/ adv = 3 \/ adv = 5 \/ adv = 6).

Lemma use_write_unused k s : k_use k = Some false -> use_write k s = Some false.
Proof. intros E. unfold use_write. rewrite E. destruct s, (k_rec k) as [r|]; try done; by destruct (failed r). Qed.

Lemma use_unowned k st ml s : failed st = false -> rs_owner st <> n ->
  k_use (after n (after n k ReadState (Data st)) MemberList ml) = Some false /\
  use_write (after n (after n k ReadState (Data st)) MemberList ml) s = Some false.
Proof.
  intros Hf Ho. assert (k_use (after n (after n k ReadState (Data st)) MemberList ml) = Some false) as E.
  { cbn [after k_rec]. rewrite Hf, (proj2 (Z.eqb_neq _ _) Ho). destruct (negb false && negb false && _); cbn; unfold use_read;
      by rewrite Hf, (proj2 (Z.eqb_neq _ _) Ho), orb_true_r. }
  split; [done|]. by apply use_write_unused.
Qed.

Lemma use_idle k st ml s : idle st = true ->
  k_use (after n (after n k ReadState (Data st)) MemberList ml) = Some false /\
  use_write (after n (after n k ReadState (Data st)) MemberList ml) s = Some false.
Proof.
  intros Hi. assert (k_use (after n (after n k ReadState (Data st)) MemberList ml) = Some false) as E.
  { cbn [after k_rec]. destruct (negb _ && _ && _); cbn; unfold use_read; by rewrite Hi. }
  split; [done|]. by apply use_write_unused.
Qed.

Lemma advise_stop_safe k st req : k_lock k = true -> rs_state st <> RG_STATE_MIGRATE ->
  safe n (after n k ReadState (Data st)) (svc_advise_stop n st req) (stop_advised st).
Proof.
  intros Hk Hm. unfold svc_advise_stop. apply safe_plain; [done|]. intros ml _.
  pose proof (after_plain MemberList (after n k ReadState (Data st)) ml eq_refl) as (Hl & Hr & _).
  set (k1 := after n (after n k ReadState (Data st)) MemberList ml) in *. cbn [after k_lock k_rec] in Hl, Hr. rewrite Hk in Hl.
  assert (forall adv, adv = 0 \/ adv = 2 \/ adv = 3 \/ adv = 5 -> stop_advised st k1 adv) as Hno.
  { intros adv Ha. split_and!; [done|done|lia|lia|lia]. }
  assert (idle st = true -> stop_advised st k1 1) as Hidle.
  { intros Hi. split_and!; [done|done|done| |lia]. intros _. split_and!; [by apply alone_idle|right|intros _]; by apply (use_idle k st ml WStop). }
  destruct (frozen st); [apply Hno; lia|].
  destruct (Z.eqb_spec (rs_state st) RG_STATE_FAILED) as [Hf|Hf].
  { destruct (req =? RG_DISABLE); [|apply Hno; lia]. split_and!; [done|done|done| |lia]. intros _. split_and!.
    - apply alone_risk; auto.
    - right. unfold use_write. rewrite Hr. unfold failed. by rewrite Hf.
    - rewrite Hf. done. }
  assert (failed st = false) as Hnf by (by apply Z.eqb_neq).
  destruct (_ || _ || _ || _ || _ || _) eqn:Erun.
  - destruct (Z.eqb_spec (rs_owner st) n) as [Ho|Ho]; cbn [negb andb].
    + rewrite orb_true_r. split_and!; [done|done|done| |lia]. intros _. split_and!; [apply alone_owner; auto|auto|].
      intros Hrec. apply (use_idle k st ml WStop). unfold idle, running, failed. by rewrite Hrec.
    + destruct (c_true (memb_online ml (rs_owner st))) eqn:Eon; [apply Hno; destruct (req =? RG_STOP); lia|].
      rewrite orb_false_r. destruct (Z.eqb_spec (rs_owner st) 0) as [H0|H0].
      * split_and!; [done|done|done| |lia]. intros _. split_and!; [apply alone_owner; auto|right|intros _]; by apply (use_unowned k st ml WStop).
      * split_and!; [done|done| |done|lia]. intros _. split; [|by apply (use_unowned k st ml WStop)].
        apply alone_down; try done. unfold c_true in Eon. apply negb_false_iff in Eon. lia.
  - destruct (Z.eqb_spec (rs_state st) RG_STATE_ERROR) as [He|He].
    + destruct (req =? RG_DISABLE); [|apply Hno; lia]. split_and!; [done|done|done| |lia]. intros _.
      split_and!; [apply alone_risk; auto| |rewrite He; done].
      destruct (decide (rs_owner st = n)); [auto|right]. by apply (use_unowned k st ml WStop).
    + assert (idle st = true) as Hi.
      { unfold idle, running. rewrite Hnf. repeat (rewrite orb_false_iff in Erun || rewrite orb_false_iff ||
          rewrite andb_true_iff || rewrite negb_true_iff). lia. }
      repeat match goal with |- safe _ _ (if ?b then _ else _) _ => destruct b end; cbn [safe];
        try (destruct (req =? RG_DISABLE)); try (by apply Hidle); apply Hno; lia.
Qed.

(** The stop itself, after the record has been written. *)
Lemma stop_resources_safe k old newstate : newstate <> RG_STATE_MIGRATE ->
  (old = RG_STATE_FAILED -> k_use k = Some false) ->
  safe n k (rg_unlock ;;
    ret ← perform (GroupOp RG_STOP);
    _ ← (if (old =? RG_STATE_FAILED) && (newstate =? RG_STATE_DISABLED)
         then svc_stop_finish WFinish 0 newstate else svc_stop_finish WFinish ret newstate);
    Ret ret) quiet.
Proof.
  intros Hnew Hold. apply safe_bind, safe_perform; [done|]. intros [] _. cbn [after].
  apply safe_plain; [done|]. intros ret _. cbn [after]. rewrite Z.eqb_refl. cbn [andb].
  apply safe_bind. eapply safe_mono; [intros k' a Hq; exact Hq|].
  destruct (_ && _) eqn:E; apply svc_stop_finish_safe; auto.
  - intros _. right. apply andb_true_iff in E as [E _]. apply Z.eqb_eq, Hold in E. by destruct (ret =? 0).
  - by destruct (ret =? 0).
  - intros _. unfold c_true. destruct (Z.eqb_spec ret 0); auto.
  - by destruct (ret =? 0).
Qed.

(** The write before a stop. *)
Lemma stop_write_safe k recover st now : k_lock k = true -> alone_write n k WStop = true ->
  rs_owner st = n \/ use_write k WStop = Some false ->
  write_ok n k WStop (set_transition (set_state st (if recover : bool then RG_STATE_ERROR else RG_STATE_STOPPING)) now).
Proof.
  intros Hl Ha Hown. split_and!; [done|by destruct recover|]. right. split; [done|].
  destruct Hown; [apply covers_own; [done|by destruct recover]|by apply covers_unused].
Qed.

Lemma svc_stop_with_harmless req recover newstate : newstate = RG_STATE_STOPPED \/ newstate = RG_STATE_DISABLED ->
  harmless (svc_stop_with n req recover newstate).
Proof.
  intros Hnew k Hk. assert (newstate <> RG_STATE_MIGRATE) as Hnm by (destruct Hnew as [-> | ->]; done).
  unfold svc_stop_with. apply safe_plain; [done|]. intros [] _; [|by apply harmless_plain].
  cbn [negb]. apply locked_read_safe; [done|]. intros k0 st Hl _ Hm. apply safe_bind.
  eapply safe_mono; [|by apply advise_stop_safe]. intros k' adv (Hl' & Hr & H6 & H1 & Hadv).
  destruct (Z.eqb_spec adv 0); [apply unlocked_quiet|].
  destruct (Z.eqb_spec adv 6) as [->|].
  { destruct (H6 eq_refl) as [Ha Hu]. apply safe_bind, safe_perform.
    - split_and!; [done..|]. right. split; [done|]. apply covers_unused; [done|]. by apply use_write_unused.
    - intros [] _; [|apply unlocked_quiet]. apply safe_bind, safe_perform; [done|]. intros [] _. by apply safe_plain. }
  do 4 (match goal with |- safe _ _ (if ?b then _ else _) _ => destruct b eqn:?; [apply unlocked_quiet|]; zbool end).
  destruct H1 as (Ha & Hown & Hrec); [lia|].
  destruct (Z.eqb_spec (rs_state st) RG_STATE_RECOVER) as [Er|Er].
  - specialize (Hrec Er). apply safe_bind, safe_perform.
    { split_and!; [done..|]. right. split; [done|]. apply covers_unused; [done|]. by apply use_write_unused. }
    intros [] _; [|apply unlocked_quiet].
    assert (keeps k' (set_flags (set_state st newstate) 0) = false) as Hkeep.
    { unfold keeps. rewrite Hr. cbn. rewrite Er. destruct Hnew as [-> | ->]; by rewrite andb_false_r. }
    cbn [negb after starts]. rewrite Hkeep. cbn [andb]. rewrite (use_write_unused k' WStop Hrec).
    apply safe_plain; [done|]. intros now _. apply safe_bind, safe_perform.
    { apply stop_write_safe; [done..|]. right. by apply use_write_unused. }
    intros [] _; [|apply unlocked_quiet]. apply stop_resources_safe; [done|]. rewrite Er. done.
  - cbn [mbind]. apply safe_bind. cbn [safe negb]. apply safe_plain; [done|]. intros now _. apply safe_bind, safe_perform.
    { apply stop_write_safe; [done..|]. destruct Hown as [[? _]|?]; auto. }
    intros [] _; [|apply unlocked_quiet]. apply stop_resources_safe; [done|]. intros Hf. cbn [after starts negb andb].
    unfold keeps, use_write. rewrite Hr. cbn. unfold failed. rewrite Hf. destruct recover; by rewrite andb_false_r.
Qed.

Lemma svc_stop_harmless req : harmless (svc_stop n req).
Proof. exact (svc_stop_with_harmless req _ _ (or_introl eq_refl)). Qed.

Lemma svc_disable_harmless : harmless (svc_disable n).
Proof. exact (svc_stop_with_harmless _ _ _ (or_intror eq_refl)). Qed.

Lemma svc_fail_harmless : harmless (svc_fail n).
Proof.
  apply locked_read_harmless. intros k st Hk Hm. destruct (_ && _) eqn:E; [apply unlocked_quiet|].
  apply safe_plain; [done|]. intros now _. cbn [after]. apply safe_bind, safe_perform.
  - split_and!; [done|done|]. right. split; [|by apply covers_failed].
    unfold alone_write. cbn [k_rec]. apply andb_false_iff in E as [E|E%negb_false_iff]; rewrite E; by rewrite !orb_true_r.
  - intros [] _; [|apply unlocked_quiet]. apply safe_bind, safe_perform; [done|]. intros [] _. by apply safe_plain.
Qed.

Lemma svc_freeze_harmless enabled : harmless (svc_freeze_with enabled).
Proof.
  apply locked_read_harmless. intros k st Hk Hm. destruct (_ || _ || _); [|apply unlocked_quiet].
  apply safe_bind, safe_perform; [|by intros []]. split_and!; [done|done|]. left.
  unfold keeps. cbn [after k_rec]. by rewrite !Z.eqb_refl.
Qed.

Lemma svc_report_failure_harmless : harmless svc_report_failure.
Proof.
  intros k Hk. apply safe_bind, safe_perform; [done|]. intros [] _; [|done]. cbn [negb after]. apply safe_bind.
  eapply safe_mono; [|by apply get_rg_state_safe]. intros k' r _. apply safe_bind, safe_perform; [done|]. intros [] _.
  destruct r; [|done]. apply safe_plain; [done|]. intros ml _. done.
Qed.


Lemma svc_migrate_harmless target : harmless (svc_migrate n target).
Proof.
  unfold svc_migrate. apply harmless_bind; [by apply harmless_plain|]. intros []; [|apply harmless_ret]. cbn [negb].
  apply harmless_bind; [by apply harmless_plain|]. intros ml. destruct (memb_id_to_p ml target); [|apply harmless_ret].
  destruct (_ =? 0); [apply harmless_ret|]. apply harmless_bind; [by apply harmless_plain|]. intros fod.
  destruct (_ =? _); [apply harmless_ret|]. apply harmless_bind; [by apply harmless_plain|]. intros [count excl].
  apply harmless_bind; [repeat case_match; (apply harmless_ret || by apply harmless_plain)|]. intros e.
  destruct (_ || _); [apply harmless_ret|]. apply locked_read_harmless. intros k st Hk _. cbv zeta.
  do 4 (case_match; [apply unlocked_quiet|]). apply safe_bind, safe_perform; [done|]. intros [] _. cbn [after].
  apply safe_plain; [done|]. intros r Hr. cbn [answer_ok] in Hr. repeat (case_match; [done|]).
  case_match; [|zbool; lia]. by apply (harmless_bind (svc_fail n) (fun _ => Ret RG_EFAIL) svc_fail_harmless (fun _ => harmless_ret _)).
Qed.

(** The status check of the resources, which may restart some of them. *)
Definition unmoved {A : Type} (k k' : know) (_ : A) : Prop :=
  k_lock k' = k_lock k /\ (k_seen k = true -> k_seen k' = true).

Lemma unmoved_plain {R A} (c : call R) (f : R -> prog A) k : plain c = true ->
  (forall k' r, unmoved k k' r -> safe n k' (f r) (unmoved k')) -> safe n k (perform c ≫= f) (unmoved k).
Proof.
  intros Hc Hf. apply safe_plain; [done|]. intros r _. destruct (after_plain c k r Hc) as (Hl & _ & Hs).
  eapply safe_mono; [|apply (Hf (after n k c r) r); split; congruence]. intros k' a [E1 E2].
  split; [congruence|]. intros E. apply E2. congruence.
Qed.

(** A service that is seen on another node; that it is written to be there is a hazard. *)
Lemma msvc_check_cluster_safe k : k_lock k = false -> safe n k msvc_check_cluster (unmoved k).
Proof.
  intros Hk. apply unmoved_plain; [done|]. intros k1 [] [Hl1 _]; [|done]. cbn [negb].
  apply unmoved_plain; [done|]. intros k2 o [Hl2 _]. destruct (o <? 0); [done|]. assert (k_lock k2 = false) as Hk2 by congruence.
  apply safe_bind, safe_perform; [done|]. intros [] _; [|done]. cbn [negb after]. apply safe_bind.
  eapply safe_mono; [|by apply get_rg_state_safe]. intros k' r (k0 & Hl & _ & Hs & Hr). cbn [k_seen] in Hs.
  assert (forall v, safe n k' (unlocked v) (unmoved k2)) as Hout.
  { intros v. apply safe_bind, safe_perform; [done|]. intros [] _. split; [done|]. cbn. intros E%Hs.
    destruct r as [st|]; [destruct Hr as [_ ->]; cbn; by rewrite E, orb_true_r|by subst]. }
  destruct r as [st|]; [|apply Hout]. apply safe_bind, safe_perform; [destruct Hr as [_ ->]; done|].
  intros ok ->. apply Hout.
Qed.

Lemma msvc_check_cluster_harmless : harmless msvc_check_cluster.
Proof. intros k Hk. eapply safe_mono; [|by apply msvc_check_cluster_safe]. intros k' r [E _]. unfold quiet. congruence. Qed.

Lemma handle_started_status_safe k ret : k_lock k = false -> safe n k (handle_started_status ret) (unmoved k).
Proof.
  intros Hk. unfold handle_started_status. destruct (c_true _).
  { apply safe_bind. eapply safe_mono; [|by apply msvc_check_cluster_safe]. by intros k' r. }
  destruct (c_true _); [|done]. apply unmoved_plain; [done|]. intros k1 r _. cbn zeta.
  destruct (c_true (Z.land (if c_true (Z.land r SFL_PARTIAL) then _ else _) _)); [done|].
  apply unmoved_plain; [done|]. intros k2 r2 _. done.
Qed.

Lemma svc_status_harmless : harmless (svc_status n).
Proof.
  apply locked_read_harmless. intros k st Hk Hm. apply safe_bind, safe_perform; [done|]. intros [] _. cbn [after k_use k_seen].
  destruct (frozen st); [done|]. destruct (Z.eqb_spec (rs_owner st) n) as [Ho|]; [|done]. cbn [negb].
  destruct (Z.eqb_spec (rs_state st) RG_STATE_STARTED) as [Hs|].
  - assert (mine n st = true) as Hmi by (unfold mine; rewrite Ho, Hs, Z.eqb_refl; done).
    apply safe_plain; [done|]. intros r _. set (k1 := after n _ _ r).
    destruct (after_plain (GroupOp RG_STATUS) (mkKnow false None false (use_read n k st) (mine n st || k_seen k)) r eq_refl) as (Hl & _ & Hse).
    apply safe_bind. eapply safe_mono; [|by apply handle_started_status_safe]. intros k2 r2 [Hl2 Hs2].
    assert (k_lock k2 = false) by (rewrite Hl2; exact Hl). assert (k_seen k2 = true) by (apply Hs2; unfold k1; rewrite Hse; cbn; by rewrite Hmi).
    destruct (c_true _); [|done]. apply safe_bind, safe_perform; [done|]. intros [] _; [|done]. cbn [negb].
    apply safe_bind, safe_perform; [|by intros []].
    split_and!; [done|cbn; congruence|]. right. split; [by apply alone_seen|]. apply covers_own; [done|].
    unfold running. cbn. by rewrite Hs.
  - by rewrite (proj2 (Z.eqb_neq _ _) Hm).
Qed.

Lemma get_rg_state_local_harmless : harmless get_rg_state_local.
Proof. apply harmless_bind; [by apply harmless_plain|]. intros []; apply harmless_ret. Qed.

Lemma relocated_harmless : harmless (svc_stop_finish WRelocated 0 RG_STATE_STOPPED).
Proof. intros k Hk. by apply svc_stop_finish_safe; auto. Qed.

(** The calls of handlers that lock by themselves. *)
#[local] Hint Resolve svc_start_harmless svc_stop_harmless svc_disable_harmless svc_fail_harmless svc_convalesce_harmless
  svc_freeze_harmless svc_report_failure_harmless svc_migrate_harmless msvc_check_cluster_harmless svc_status_harmless
  get_rg_state_local_harmless relocated_harmless : rg.

Ltac harmless :=
  repeat match goal with
  | |- forall _, _ => intros ?; cbn beta zeta
  | |- harmless (mbind _ _) => apply harmless_bind
  | |- harmless (perform _) => apply harmless_plain; reflexivity
  | |- harmless (Ret _) => apply harmless_ret
  | |- harmless (if ?b then _ else _) => destruct b
  | |- harmless (match ?x with _ => _ end) => destruct x
  | |- harmless _ => solve [auto with rg nocore]
  end.

Lemma svc_status_inquiry_harmless : harmless svc_status_inquiry.
Proof. unfold svc_status_inquiry. harmless. Qed.

Lemma relocate_exhausted_harmless owner : harmless (relocate_exhausted n owner).
Proof. unfold relocate_exhausted. cbn zeta. harmless. Qed.
#[local] Hint Resolve svc_status_inquiry_harmless relocate_exhausted_harmless : rg.

Lemma relocate_loop_harmless fuel : forall allowed orig req owner, harmless (relocate_loop n fuel allowed orig req owner).
Proof. induction fuel as [|fuel IH]; intros; cbn [relocate_loop]; harmless. Qed.
#[local] Hint Resolve relocate_loop_harmless : rg.

Lemma relocate_rest_harmless fuel allowed preferred orig req owner : harmless (relocate_rest n fuel allowed preferred orig req owner).
Proof. unfold relocate_rest. cbn zeta. harmless. Qed.
#[local] Hint Resolve relocate_rest_harmless : rg.

Lemma relocate_target_harmless fuel preferred orig owner : harmless (relocate_target n fuel preferred orig owner).
Proof. unfold relocate_target. harmless. Qed.

Lemma preferred_node_harmless preferred : harmless (preferred_node preferred).
Proof. unfold preferred_node. harmless. Qed.

Lemma relocate_stop_harmless req : harmless (svc_stop_with n req false RG_STATE_STOPPED).
Proof. exact (svc_stop_with_harmless _ _ _ (or_introl eq_refl)). Qed.
#[local] Hint Resolve relocate_target_harmless preferred_node_harmless relocate_stop_harmless : rg.

Lemma handle_relocate_req_harmless fuel orig preferred owner : harmless (handle_relocate_req n fuel orig preferred owner).
Proof. unfold handle_relocate_req. harmless. Qed.
#[local] Hint Resolve handle_relocate_req_harmless : rg.

Lemma start_relocate_harmless fuel owner : harmless (start_relocate n fuel owner).
Proof. unfold start_relocate. harmless. Qed.
#[local] Hint Resolve start_relocate_harmless : rg.

Lemma start_here_harmless fuel req check owner : harmless (start_here n fuel req check owner).
Proof. unfold start_here. harmless. Qed.
#[local] Hint Resolve start_here_harmless : rg.

Lemma handle_start_req_harmless fuel req owner : harmless (handle_start_req n fuel req owner).
Proof. unfold handle_start_req. cbn zeta. harmless. Qed.

Lemma handle_start_remote_req_harmless req : harmless (handle_start_remote_req n req).
Proof. unfold handle_start_remote_req. cbn zeta. harmless. Qed.
#[local] Hint Resolve handle_start_req_harmless handle_start_remote_req_harmless : rg.

Lemma fd_start_loop_harmless fuel : forall allowed req ret, harmless (fd_start_loop n fuel allowed req ret).
Proof. induction fuel as [|fuel IH]; intros; cbn [fd_start_loop]; harmless. Qed.
#[local] Hint Resolve fd_start_loop_harmless : rg.

Lemma handle_fd_start_req_harmless fuel req owner : harmless (handle_fd_start_req n fuel req owner).
Proof. unfold handle_fd_start_req. harmless. Qed.

Lemma handle_recover_req_harmless fuel owner : harmless (handle_recover_req n fuel owner).
Proof. unfold handle_recover_req. cbn zeta. harmless. Qed.
#[local] Hint Resolve handle_fd_start_req_harmless handle_recover_req_harmless : rg.

Lemma handle_request_harmless fuel req target arg0 owner : harmless (handle_request n fuel req target arg0 owner).
Proof. unfold handle_request, svc_freeze, svc_unfreeze. cbn zeta. harmless. Qed.

End handlers.

(** ** The invariant *)

(** Who uses the service is its owner in the record, or the service has failed; who has seen
    itself as the owner still is. *)
Definition user_ok (w : world) (n : Z) : Prop :=
  n <> 0 /\ w_up w n = true /\ exists st, w_rec w = Some st /\ (rs_owner st = n /\ running st = true \/ failed st = true).
Definition owner_ok (w : world) (n : Z) : Prop :=
  n <> 0 /\ w_up w n = true /\ exists st, w_rec w = Some st /\ mine n st = true.

Record tidy (w : world) : Prop := {
  t_use n : w_use w n = true -> user_ok w n;
  t_seen n : w_seen w n = true -> owner_ok w n;
  t_once : used_once w;
  t_rec st : w_rec w = Some st -> rs_state st <> RG_STATE_MIGRATE
}.

Definition others_idle (n : Z) (w : world) : Prop := forall m, m <> n -> w_use w m = false /\ w_seen w m = false.

(** What a thread knows is so. *)
Definition sem (n : Z) (k : know) (w : world) : Prop :=
  (k_lock k = true -> w_lock w = Some n /\ (forall r, k_rec k = Some r -> w_rec w = Some r) /\
     (k_alone k = true -> others_idle n w)) /\
  (forall b, k_use k = Some b -> w_use w n = b) /\ (k_seen k = true -> w_seen w n = true).

Record inv (w : world) : Prop := {
  i_tidy : tidy w;
  i_thr n p : w_thr w n = Some p -> n <> 0 /\ w_up w n = true /\ exists k, sem n k w /\ safe n k p quiet
}.

Lemma mine_facts n st : mine n st = true -> rs_owner st = n /\ rs_state st = RG_STATE_STARTED.
Proof. unfold mine. intros [?%Z.eqb_eq ?%Z.eqb_eq]%andb_true_iff. done. Qed.

Lemma mine_running n st : mine n st = true -> running st = true /\ failed st = false.
Proof. intros [_ H]%mine_facts. unfold running, failed. by rewrite H. Qed.

Lemma failed_running st : failed st = true -> running st = false.
Proof. unfold failed, running. intros ->%Z.eqb_eq. done. Qed.

(** With the record at hand. *)
Section record.
Context (w : world) (st : rg_state) (Hw : tidy w) (Hrec : w_rec w = Some st).

Lemma use_owner n : w_use w n = true -> failed st = true \/ rs_owner st = n /\ running st = true.
Proof. intros H. destruct (t_use w Hw n H) as (_ & _ & st' & E & Hst). rewrite Hrec in E. injection E as <-. tauto. Qed.

Lemma seen_mine n : w_seen w n = true -> mine n st = true.
Proof. intros H. destruct (t_seen w Hw n H) as (_ & _ & st' & E & Hst). rewrite Hrec in E. by injection E as <-. Qed.

Lemma use_up n : w_use w n = true -> n <> 0 /\ w_up w n = true.
Proof. intros H. destruct (t_use w Hw n H) as (? & ? & _). done. Qed.

Lemma idle_unused n : idle st = true -> w_use w n = false.
Proof.
  intros [Hr Hf]%andb_true_iff. apply not_true_iff_false. intros [E|[_ E]]%use_owner; rewrite E in *; done.
Qed.

Lemma unowned_unused n : failed st = false -> rs_owner st <> n -> w_use w n = false.
Proof. intros Hf Ho. apply not_true_iff_false. intros [E|[E _]]%use_owner; congruence. Qed.

Lemma unmine_unseen n : mine n st = false -> w_seen w n = false.
Proof. intros Hm. apply not_true_iff_false. intros E%seen_mine. congruence. Qed.

Lemma owner_unseen n : rs_owner st <> n -> w_seen w n = false.
Proof. intros Ho. apply unmine_unseen. unfold mine. apply Z.eqb_neq in Ho. by rewrite Ho. Qed.

Lemma unstarted_unseen n : rs_state st <> RG_STATE_STARTED -> w_seen w n = false.
Proof. intros Hs. apply unmine_unseen. unfold mine. apply Z.eqb_neq in Hs. rewrite Hs. apply andb_false_r. Qed.

Lemma failed_unseen n : failed st = true -> w_seen w n = false.
Proof. unfold failed. intros E%Z.eqb_eq. apply unstarted_unseen. by rewrite E. Qed.

Lemma idle_unseen n : idle st = true -> w_seen w n = false.
Proof.
  intros [Hr Hf]%andb_true_iff. apply unmine_unseen, not_true_iff_false. intros [E _]%mine_running. by rewrite E in Hr.
Qed.
End record.

Lemma no_record_idle w n : tidy w -> w_rec w = None -> w_use w n = false /\ w_seen w n = false.
Proof.
  intros Hw Hr. split; apply not_true_iff_false; intros H; [apply t_use in H|apply t_seen in H]; try done;
    destruct H as (_ & _ & st & E & _); congruence.
Qed.

(** ** What is known is so *)

Section sound.
Context (w : world) (n : Z) (k : know).
Hypothesis (Hw : tidy w) (Hsem : sem n k w) (Hlock : k_lock k = true).

Lemma sem_rec r : k_rec k = Some r -> w_rec w = Some r.
Proof. destruct Hsem as [Hl _]. destruct (Hl Hlock) as (_ & Hr & _). apply Hr. Qed.

Lemma sem_alone : k_alone k = true -> others_idle n w.
Proof. destruct Hsem as [Hl _]. by destruct (Hl Hlock) as (_ & _ & Ha). Qed.

Lemma alone_read_sound st : w_rec w = Some st -> alone_read n k st = true -> others_idle n w.
Proof.
  intros Hr. unfold alone_read. rewrite !orb_true_iff, andb_true_iff, orb_true_iff, negb_true_iff, !Z.eqb_eq.
  intros [[Ha|Hi]|[Hf Ho]]; [by apply sem_alone| |]; intros m Hm.
  - split; [by eapply idle_unused|by eapply idle_unseen].
  - destruct (decide (m = 0)) as [->|Hm0].
    + split; apply not_true_iff_false; intros H; [apply (t_use w Hw) in H|apply (t_seen w Hw) in H]; by destruct H.
    + split; [eapply unowned_unused|eapply owner_unseen]; try done; lia.
Qed.

Lemma use_read_sound st b : w_rec w = Some st -> use_read n k st = Some b -> w_use w n = b.
Proof.
  intros Hr. unfold use_read. destruct (idle st) eqn:Hi; cbn [orb].
  { intros [= <-]. by eapply idle_unused. }
  destruct (failed st) eqn:Hf; cbn [negb andb]; [apply Hsem|].
  destruct (Z.eqb_spec (rs_owner st) n); cbn [negb]; [apply Hsem|].
  intros [= <-]. by eapply unowned_unused.
Qed.

Lemma members_sound ml st : (forall m, w_up w m = true -> memb_online ml m <> 0) -> w_rec w = Some st ->
  failed st = false -> rs_owner st <> n -> memb_online ml (rs_owner st) = 0 -> others_idle n w.
Proof.
  intros Hml Hr Hf Ho Hon m Hm. split; apply not_true_iff_false; intros H.
  - destruct (use_owner w st Hw Hr m H) as [E|[E _]]; [congruence|]. destruct (use_up w Hw m H) as [_ Hup].
    apply Hml in Hup. congruence.
  - destruct (mine_facts _ _ (seen_mine w st Hw Hr m H)) as [E _]. destruct (t_seen w Hw m H) as (_ & Hup & _).
    apply Hml in Hup. congruence.
Qed.

Lemma seen_alone : w_seen w n = true -> others_idle n w.
Proof.
  intros H. destruct (t_seen w Hw n H) as (_ & _ & st & Hr & Hm). destruct (mine_facts n st Hm) as [Ho _].
  destruct (mine_running n st Hm) as [_ Hf]. intros m Hne. split; [eapply unowned_unused|eapply owner_unseen]; try done; lia.
Qed.

Lemma use_alone : w_use w n = true -> others_idle n w.
Proof.
  intros H. destruct (t_use w Hw n H) as (_ & _ & st & Hr & Hst). intros m Hne. split.
  - apply not_true_iff_false. intros H'. by apply Hne, (t_once w Hw).
  - destruct Hst as [[Ho _]|Hf]; [eapply owner_unseen; try done; lia|by eapply failed_unseen].
Qed.

Lemma site_alone s r : ~ hazard w n s -> w_rec w = Some r ->
  match s with
  | WInit => true
  | WStart | WStop => (rs_state r =? RG_STATE_ERROR) || failed r
  | WFinish | WFail => negb (rs_state r =? RG_STATE_STARTED) || (rs_owner r =? n)
  | WRelocated => negb (rs_state r =? RG_STATE_STARTED)
  | _ => false
  end = true -> others_idle n w.
Proof.
  intros Hz Hr Hs m Hm.
  assert (rs_state r <> RG_STATE_STARTED \/ rs_owner r = n -> w_seen w m = false) as Hsn.
  { intros [?|?]; [by eapply unstarted_unseen|]. eapply owner_unseen; try done; lia. }
  assert (hazard w n s \/ (w_use w m = true -> hazard w n s) /\ (rs_state r <> RG_STATE_STARTED \/ rs_owner r = n)) as [?|[Hu ?]]; [|done|].
  2: { split; [|by apply Hsn]. apply not_true_iff_false. auto. }
  unfold failed in Hs. destruct s; cbn [hazard] in *; try done.
  - left. congruence.
  - right. apply orb_true_iff in Hs as [Hs%Z.eqb_eq|Hs%Z.eqb_eq]; rewrite Hs; (split; [|by left]); exists r; split_and!; eauto.
  - right. apply orb_true_iff in Hs as [Hs%Z.eqb_eq|Hs%Z.eqb_eq]; rewrite Hs; (split; [|by left]); exists r; split_and!; eauto.
  - right. split; [by exists m|]. lia.
  - right. split; [by exists m|]. lia.
  - right. split; [by exists m|]. lia.
Qed.

Lemma alone_write_sound s : ~ hazard w n s -> alone_write n k s = true -> others_idle n w.
Proof.
  intros Hz. unfold alone_write. rewrite !orb_true_iff. intros [[[Ha|Hs]|Hu]|Hsite].
  - by apply sem_alone.
  - apply seen_alone. by apply Hsem.
  - apply use_alone. apply Hsem. by destruct (k_use k) as [[]|].
  - destruct (k_rec k) as [r|] eqn:Hr; [apply sem_rec in Hr; by eapply (site_alone s r); destruct s|].
    destruct s; try done. cbn in Hz. intros m _. apply no_record_idle; [done|]. destruct (w_rec w); [|done]. by destruct Hz.
Qed.

Lemma use_write_sound s b : ~ hazard w n s -> use_write k s = Some b -> w_use w n = b.
Proof.
  intros Hz. assert (k_use k = Some b -> w_use w n = b) as Hk by apply Hsem.
  assert (forall r, k_rec k = Some r -> w_rec w = Some r) as Hr by apply sem_rec.
  unfold use_write. destruct s; try done; cbn [hazard] in Hz.
  - intros [= <-]. apply no_record_idle; [done|]. destruct (w_rec w); [|done]. by destruct Hz.
  - destruct (k_rec k) as [r|]; [|done]. destruct (failed r) eqn:Hf; [|done]. intros [= <-]. apply Z.eqb_eq in Hf.
    apply not_true_iff_false. intros H. apply Hz. exists r. split; [by apply Hr|]. right. eauto.
  - destruct (k_rec k) as [r|]; [|done]. destruct (failed r) eqn:Hf; [|done]. intros [= <-]. apply Z.eqb_eq in Hf.
    apply not_true_iff_false. intros H. apply Hz. exists r. split; [by apply Hr|]. right. eauto.
  - intros [= <-]. apply not_true_iff_false. eauto.
Qed.
End sound.

(** ** Steps keep the invariant *)

Lemma use_written w n s st m : w_use (written w n s st) m = if decide (m = n) then starts s || w_use w n else w_use w m.
Proof.
  unfold written. destruct (starts s); cbn; destruct (decide (m = n)) as [->|]; try done.
  - apply fn_lookup_insert.
  - by apply fn_lookup_insert_ne.
Qed.

Lemma seen_insert w n b m : w_seen (with_seen w n b) m = if decide (m = n) then b else w_seen w m.
Proof. cbn. destruct (decide (m = n)) as [->|]; [apply fn_lookup_insert|by apply fn_lookup_insert_ne]. Qed.

Lemma use_insert w n b m : w_use (with_use w n b) m = if decide (m = n) then b else w_use w m.
Proof. cbn. destruct (decide (m = n)) as [->|]; [apply fn_lookup_insert|by apply fn_lookup_insert_ne]. Qed.

Lemma seen_written w n s st m : w_seen (written w n s st) m = if decide (m = n) then mine n st else w_seen w m.
Proof. unfold written. rewrite seen_insert. by destruct (starts s). Qed.

Lemma written_fields w n s st :
  w_rec (written w n s st) = Some st /\ w_lock (written w n s st) = w_lock w /\ w_up (written w n s st) = w_up w /\
  w_thr (written w n s st) = w_thr w.
Proof. unfold written. by destruct (starts s). Qed.

Section writing.
Context (w : world) (n : Z) (k : know) (s : site) (st : rg_state).
Hypothesis (Hw : tidy w) (Hsem : sem n k w) (Hn : n <> 0) (Hup : w_up w n = true).

Let w' := written w n s st.

(** A write that changes neither the owner nor the state. *)
Lemma written_same : starts s = false -> k_lock k = true -> keeps k st = true -> rs_state st <> RG_STATE_MIGRATE ->
  tidy w' /\ sem n (mkKnow (k_lock k) (Some st) (k_alone k) (k_use k) (mine n st)) w'.
Proof.
  intros Hs Hl Hk Hm. destruct (written_fields w n s st) as (Er & El & Eu & _). fold w' in Er, El, Eu.
  unfold keeps in Hk. destruct (k_rec k) as [r|] eqn:Hr; [|done]. apply (sem_rec w n k Hsem Hl) in Hr.
  apply andb_true_iff in Hk as [Ho%Z.eqb_eq Hst%Z.eqb_eq].
  assert (forall m, w_use w' m = w_use w m) as Euse.
  { intros m. unfold w'. rewrite use_written, Hs. by destruct (decide (m = n)) as [->|]. }
  assert (forall m, w_seen w' m = if decide (m = n) then mine n st else w_seen w m) as Eseen by (intros; apply seen_written).
  split; [split|].
  - intros m. rewrite Euse. intros H. destruct (use_up w Hw m H). split_and!; [done|by rewrite Eu|]. exists st. split; [done|].
    unfold running, failed. rewrite <- Ho, <- Hst. destruct (use_owner w r Hw Hr m H); auto.
  - intros m. rewrite Eseen. destruct (decide (m = n)) as [->|]; intros H; unfold owner_ok; rewrite Eu, Er; [by eauto|].
    destruct (t_seen w Hw m H) as (? & ? & _). split_and!; [done..|]. exists st. split; [done|].
    unfold mine. rewrite <- Ho, <- Hst. by apply (seen_mine w r Hw Hr).
  - intros a b. rewrite !Euse. apply (t_once w Hw).
  - rewrite Er. by intros ? [= <-].
  - destruct Hsem as (Hl' & Hu & _). destruct (Hl' Hl) as (? & _ & Ha). split_and!; cbn [k_lock k_rec k_alone k_use k_seen].
    + intros _. split_and!; [by rewrite El|by intros ? [= <-]; rewrite Er|]. intros Hal m Hne. rewrite Euse, Eseen, decide_False by done. by apply Ha.
    + intros b Hb. rewrite Euse. by apply Hu.
    + intros Hmi. by rewrite Eseen, decide_True.
Qed.

(** A write by a node that knows that no other uses the service. *)
Lemma written_new u : k_lock k = true -> others_idle n w -> (forall b, u = Some b -> w_use w n = b) ->
  covers n u s st = true -> rs_state st <> RG_STATE_MIGRATE ->
  tidy w' /\ sem n (mkKnow (k_lock k) (Some st) true (if starts s then Some true else u) (mine n st)) w'.
Proof.
  intros Hl Ha Hu Hc Hm. destruct (written_fields w n s st) as (Er & El & Eu & _). fold w' in Er, El, Eu.
  assert (forall m, w_use w' m = if decide (m = n) then starts s || w_use w n else false) as Euse.
  { intros m. unfold w'. rewrite use_written. destruct (decide (m = n)); [done|]. by apply Ha. }
  assert (forall m, w_seen w' m = if decide (m = n) then mine n st else false) as Eseen.
  { intros m. unfold w'. rewrite seen_written. destruct (decide (m = n)); [done|]. by apply Ha. }
  split; [split|].
  - intros m. rewrite Euse. destruct (decide (m = n)) as [->|]; [|done]. intros H. split_and!; [done|by rewrite Eu|].
    exists st. split; [done|]. unfold covers in Hc. apply orb_true_iff in Hc as [[?%Z.eqb_eq ?]%andb_true_iff|[Hs Hc]%andb_true_iff]; [auto|].
    apply negb_true_iff in Hs. rewrite Hs in H. apply orb_true_iff in Hc as [?|Hc]; [auto|]. destruct u as [[]|]; try done.
    specialize (Hu false eq_refl). cbn in H. congruence.
  - intros m. rewrite Eseen. destruct (decide (m = n)) as [->|]; [|done]. intros H. split_and!; [done|by rewrite Eu|eauto].
  - intros a b. rewrite !Euse. by do 2 destruct (decide _) as [->|].
  - rewrite Er. by intros ? [= <-].
  - destruct Hsem as (Hl' & _ & _). destruct (Hl' Hl) as (? & _ & _). split_and!; cbn [k_lock k_rec k_alone k_use k_seen].
    + intros _. split_and!; [by rewrite El|by intros ? [= <-]; rewrite Er|]. intros _ m Hne. by rewrite Euse, Eseen, !decide_False by done.
    + intros b Hb. rewrite Euse, decide_True by done. destruct (starts s); [by injection Hb|]. by apply Hu.
    + intros Hmi. by rewrite Eseen, decide_True.
Qed.
End writing.

Section calls.
Context (allowed : world -> Z -> site -> Prop).
Hypothesis (Hallowed : forall w n s, allowed w n s -> ~ hazard w n s).

(** What a call leaves alone. *)
Lemma call_keeps n {R} (c : call R) w r w' : call_step allowed n c w r w' ->
  w_thr w' = w_thr w /\ w_up w' = w_up w /\ forall m, m <> n -> w_use w' m = w_use w m /\ w_seen w' m = w_seen w m.
Proof.
  destruct 1; cbn [with_lock w_thr w_up w_use w_seen]; try (split_and!; done).
  - split_and!; [done..|]. intros m Hm. by rewrite seen_insert, decide_False.
  - destruct (written_fields w n s st) as (_ & _ & -> & ->). split_and!; [done..|]. intros m Hm.
    by rewrite use_written, seen_written, !decide_False by done.
  - split_and!; [done..|]. intros m Hm. by rewrite use_insert, decide_False.
Qed.

(** A call by [n] while [m] has the lock. *)
Lemma call_locked_out n m {R} (c : call R) w r w' k : call_step allowed n c w r w' -> sem n k w -> pre n k c ->
  m <> n -> w_lock w = Some m ->
  w_lock w' = Some m /\ w_rec w' = w_rec w /\ forall i, (w_use w' i = true -> w_use w i = true) /\ w_seen w' i = w_seen w i.
Proof.
  intros Hc (Hl & _) Hpre Hm Hlock. assert (k_lock k <> true) as Hk by (intros E; destruct (Hl E) as [E' _]; congruence).
  destruct Hc; try (split_and!; done).
  - congruence.
  - cbn. rewrite decide_False by congruence. split_and!; done.
  - by apply pre_lock in Hpre.
  - split_and!; [done..|]. intros i. rewrite use_insert. split; [by destruct (decide (i = n))|done].
Qed.

Lemma sem_others n m {R} (c : call R) w r w' k k' : call_step allowed n c w r w' -> sem n k w -> pre n k c ->
  m <> n -> sem m k' w -> sem m k' w'.
Proof.
  intros Hc Hsem Hpre Hm (Hl & Hu & Hs). destruct (call_keeps n c w r w' Hc) as (_ & _ & Hkeep). destruct (Hkeep m Hm) as [Eu Es].
  split_and!; [|by rewrite Eu|by rewrite Es]. intros Hlk. destruct (Hl Hlk) as (Hlock & Hrec & Hal).
  destruct (call_locked_out n m c w r w' k Hc Hsem Hpre Hm Hlock) as (-> & -> & Hi). split_and!; [done..|].
  intros Ha i Hne. destruct (Hal Ha i Hne) as [Hui Hsi]. destruct (Hi i) as [Hui' ->]. split; [|done].
  apply not_true_iff_false. intros E%Hui'. congruence.
Qed.

(** Changes of the world that the invariant does not depend on. *)
Lemma tidy_ext w w' : w_rec w' = w_rec w -> (forall m, w_up w m = true -> w_up w' m = true) ->
  (forall m, w_use w' m = true -> w_use w m = true) -> (forall m, w_seen w' m = true -> w_seen w m = true) ->
  tidy w -> tidy w'.
Proof.
  intros Er Hup Huse Hseen Hw. split.
  - intros m H%Huse. destruct (t_use w Hw m H) as (? & ? & ?). unfold user_ok. rewrite Er. auto.
  - intros m H%Hseen. destruct (t_seen w Hw m H) as (? & ? & ?). unfold owner_ok. rewrite Er. auto.
  - intros a b Ha%Huse Hb%Huse. by apply (t_once w Hw).
  - rewrite Er. apply (t_rec w Hw).
Qed.

Lemma tidy_read w n st : n <> 0 -> w_up w n = true -> w_rec w = Some st -> tidy w -> tidy (with_seen w n (mine n st)).
Proof.
  intros Hn Hup Hr Hw. split; [apply (t_use w Hw)| |apply (t_once w Hw)|apply (t_rec w Hw)].
  intros m. rewrite seen_insert. destruct (decide (m = n)) as [->|]; [|apply (t_seen w Hw)]. intros Hm. split_and!; eauto.
Qed.

(** Knowledge about the same record, users and owners, with another lock. *)
Lemma sem_unlocked n k w l rec alone : sem n k w -> sem n (mkKnow false rec alone (k_use k) (k_seen k)) (with_lock w l).
Proof. intros (_ & Hu & Hs). split_and!; [done|apply Hu|apply Hs]. Qed.

Lemma sem_locked n k w : sem n k w -> sem n (mkKnow true None false (k_use k) (k_seen k)) (with_lock w (Some n)).
Proof. intros (_ & Hu & Hs). split_and!; [by intros _|apply Hu|apply Hs]. Qed.

Lemma sem_read n k w st : k_lock k = true -> tidy w -> w_rec w = Some st -> sem n k w ->
  sem n (after n k ReadState (Data st)) (with_seen w n (mine n st)).
Proof.
  intros Hl Hw Hr Hsem. pose proof Hsem as (Hl' & _). destruct (Hl' Hl) as (Hlock & _). cbn [after]. split_and!; cbn [k_lock k_rec k_alone k_use k_seen].
  - intros _. split_and!; [done|by intros ? [= <-]|]. intros Ha m Hm. rewrite seen_insert, decide_False by done.
    by apply (alone_read_sound w n k Hw Hsem Hl st Hr Ha).
  - intros b Hb. by apply (use_read_sound w n k Hw Hsem st).
  - intros [Hm|Hm]%orb_true_iff; rewrite seen_insert, decide_True by done; [done|].
    destruct Hsem as (_ & _ & Hs). destruct (t_seen w Hw n (Hs Hm)) as (_ & _ & st' & E & Hst). congruence.
Qed.

Lemma sem_write n k w s st : allowed w n s -> tidy w -> n <> 0 -> w_up w n = true -> sem n k w -> write_ok n k s st ->
  tidy (written w n s st) /\ sem n (after n k (WriteState s st) true) (written w n s st).
Proof.
  intros Ha%Hallowed Hw Hn Hup Hsem (Hl & Hm & Hok). cbn [after]. destruct (negb (starts s) && keeps k st) eqn:E.
  - apply andb_true_iff in E as [Hs%negb_true_iff Hk]. by apply written_same.
  - destruct Hok as [Hok|[Hal Hc]]; [congruence|]. apply written_new; try done.
    + by apply (alone_write_sound w n k Hw Hsem Hl s).
    + intros b. by apply (use_write_sound w n k Hw Hsem Hl).
Qed.

Lemma sem_members n k w ml : tidy w -> (forall m, w_up w m = true -> memb_online ml m <> 0) -> sem n k w ->
  sem n (after n k MemberList ml) w.
Proof.
  intros Hw Hml Hsem. cbn [after]. destruct (k_rec k) as [st|] eqn:Hr; [|done].
  destruct (negb (failed st) && _ && _) eqn:E; [|done].
  apply andb_true_iff in E as [[Hf%negb_true_iff Ho%negb_true_iff%Z.eqb_neq]%andb_true_iff Hon%Z.eqb_eq].
  pose proof Hsem as (Hl & Hu & Hs). split_and!; [|done|done]. intros Hlk. destruct (Hl Hlk) as (? & Hrec & _).
  split_and!; [done|by rewrite <- Hr|]. intros _. eapply (members_sound w n Hw ml st); auto.
Qed.

Lemma sem_stopped n k w : sem n k w -> sem n (mkKnow (k_lock k) (k_rec k) (k_alone k) (Some false) (k_seen k)) (with_use w n false).
Proof.
  intros (Hl & _ & Hs). split_and!; cbn [k_lock k_rec k_alone k_use k_seen]; [|intros ? [= <-]; by rewrite use_insert, decide_True|done].
  intros Hlk. destruct (Hl Hlk) as (? & ? & Ha). split_and!; [done..|]. intros Hal m Hm. rewrite use_insert, decide_False by done. by apply Ha.
Qed.

Lemma call_sound n {R} (c : call R) w r w' k : call_step allowed n c w r w' -> tidy w -> n <> 0 -> w_up w n = true ->
  sem n k w -> pre n k c -> answer_ok k c r /\ tidy w' /\ sem n (after n k c r) w'.
Proof.
  intros Hc Hw Hn Hup Hsem Hpre. destruct Hc.
  - split_and!; [done|by apply (tidy_ext w)|by apply sem_locked].
  - done.
  - split_and!; [done|by apply (tidy_ext w)|by apply sem_unlocked].
  - split_and!; [by apply (t_rec w Hw)|by apply tidy_read|by apply sem_read].
  - done.
  - done.
  - assert (~ hazard w n s) as Hh by by apply Hallowed. split.
    + destruct s; cbn [answer_ok]; try done. intros _. apply not_true_iff_false. intros Hs.
      destruct Hsem as (_ & _ & Hse). destruct (t_seen w Hw n (Hse Hs)) as (_ & _ & st' & E & _). apply Hh. cbn. congruence.
    + apply sem_write; try done. by destruct s; try exact Hpre; destruct Hh.
  - split; [by destruct s|done].
  - split_and!; [done| |by apply sem_stopped]. apply (tidy_ext w); try done. intros m. rewrite use_insert. by destruct (decide (m = n)).
  - split_and!; [done..|]. cbn [after]. destruct (Z.eqb_spec op RG_STOP), (Z.eqb_spec r 0); try done. tauto.
  - split_and!; [done..|by apply sem_members].
  - done.
  - destruct c; try done.
Qed.

Lemma thr_insert w n t m : w_thr (with_thr w n t) m = if decide (m = n) then t else w_thr w m.
Proof. cbn. destruct (decide (m = n)) as [->|]; [apply fn_lookup_insert|by apply fn_lookup_insert_ne]. Qed.

Lemma inv_thr w n t : tidy w ->
  (forall p, t = Some p -> n <> 0 /\ w_up w n = true /\ exists k, sem n k w /\ safe n k p quiet) ->
  (forall m p, m <> n -> w_thr w m = Some p -> m <> 0 /\ w_up w m = true /\ exists k, sem m k w /\ safe m k p quiet) ->
  inv (with_thr w n t).
Proof.
  intros Hw Hn Hm. split; [by apply (tidy_ext w)|]. intros m p. rewrite thr_insert.
  destruct (decide (m = n)) as [->|Hne]; [apply Hn|by apply Hm].
Qed.

Lemma inv_call n {R} (c : call R) kont w r w' : inv w -> w_thr w n = Some (Call c kont) -> call_step allowed n c w r w' ->
  inv (with_thr w' n (Some (kont r))).
Proof.
  intros [Hw Ht] Hp Hc. destruct (Ht n _ Hp) as (Hn & Hup & k & Hsem & Hpre & Hsafe).
  destruct (call_sound n c w r w' k Hc Hw Hn Hup Hsem Hpre) as (Hr & Hw' & Hsem').
  destruct (call_keeps n c w r w' Hc) as (Eth & Eup & _). apply inv_thr; [done| |].
  - intros p [= <-]. rewrite Eup. split_and!; [done..|]. exists (after n k c r). split; [done|]. by apply Hsafe.
  - intros m p Hm. rewrite Eth, Eup. intros (? & ? & k' & Hk' & ?)%Ht. split_and!; [done..|]. exists k'. split; [|done].
    by apply (sem_others n m c w r w' k k').
Qed.

(** Writes of a record that nobody uses, while nobody has the lock. *)
Lemma inv_mark w st st' : inv w -> w_lock w = None -> w_rec w = Some st -> st' = st \/ idle st = true /\ idle st' = true ->
  rs_state st' <> RG_STATE_MIGRATE -> inv (with_rec w (Some st')).
Proof.
  intros [Hw Ht] Hl Hr Hst Hm. split.
  - destruct Hst as [->|[Hi Hi']]; [by apply (tidy_ext w)|]. split; cbn.
    + intros n H. by rewrite (idle_unused w st Hw Hr n Hi) in H.
    + intros n H. by rewrite (idle_unseen w st Hw Hr n Hi) in H.
    + apply (t_once w Hw).
    + by intros ? [= <-].
  - intros n p (? & ? & k & (Hlk & Hu & Hs) & ?)%Ht. split_and!; [done..|]. exists k. split; [|done]. split_and!; [|done..].
    intros E. destruct (Hlk E). congruence.
Qed.

Lemma mark_autostart_idle st : mark_no_autostart st = st \/ idle st = true /\ idle (mark_no_autostart st) = true.
Proof.
  unfold mark_no_autostart. destruct (_ =? 0); [|auto]. destruct (Z.eqb_spec (rs_state st) RG_STATE_STOPPED) as [E|]; [|auto].
  right. unfold idle, running, failed. cbn. by rewrite E.
Qed.

Lemma mark_reconfigured_idle b st : mark_reconfigured b st = st \/ idle st = true /\ idle (mark_reconfigured b st) = true.
Proof.
  unfold mark_reconfigured. destruct (Z.eqb_spec (rs_state st) RG_STATE_DISABLED) as [E|]; [|auto]. cbn [negb].
  right. unfold idle, running, failed. cbn. rewrite E. by destruct b.
Qed.

Lemma inv_crash w n : inv w ->
  inv (with_thr (with_seen (with_use (mkWorld (w_rec w) (if decide (w_lock w = Some n) then None else w_lock w)
      (<[n := false]> (w_up w)) (w_use w) (w_seen w) (w_thr w)) n false) n false) n None).
Proof.
  intros [Hw Ht]. set (w0 := mkWorld _ _ _ _ _ _). set (w1 := with_seen _ n false).
  assert (forall m, w_use w1 m = if decide (m = n) then false else w_use w m) as Eu by exact (use_insert w0 n false).
  assert (forall m, w_seen w1 m = if decide (m = n) then false else w_seen w m) as Es.
  { exact (seen_insert (with_use w0 n false) n false). }
  assert (forall m, m <> n -> w_up w1 m = w_up w m) as Eup by (intros; by apply fn_lookup_insert_ne).
  apply inv_thr; [split|done|].
  - intros m. rewrite Eu. destruct (decide (m = n)); [done|]. intros (? & ? & ?)%(t_use w Hw). split_and!; [done|by rewrite Eup|done].
  - intros m. rewrite Es. destruct (decide (m = n)); [done|]. intros (? & ? & ?)%(t_seen w Hw). split_and!; [done|by rewrite Eup|done].
  - intros a b. rewrite !Eu. destruct (decide (a = n)), (decide (b = n)); try done. apply (t_once w Hw).
  - apply (t_rec w Hw).
  - intros m p Hm (? & ? & k & (Hl & Hu & Hs) & ?)%Ht. rewrite Eup by done. split_and!; [done..|]. exists k. split; [|done].
    unfold sem. rewrite Eu, Es, !decide_False by done. split_and!; [|done..]. intros E. destruct (Hl E) as (El & Hr & Ha).
    split_and!; [cbn; rewrite El; by rewrite decide_False by congruence|done|]. intros Hal i Hi. rewrite Eu, Es.
    destruct (Ha Hal i Hi). by destruct (decide (i = n)).
Qed.

Lemma service_step_inv w w' : step allowed w w' -> inv w -> inv w'.
Proof.
  intros Hstep Hi. pose proof Hi as [Hw Ht]. destruct Hstep as
    [w n fuel req target arg0 owner Hn Hup _|w n R c kont r w' Hp Hc|w n a _|w st Hl Hr|w st b Hl Hr|w n|w n].
  - apply inv_thr; [done| |intros m p _; apply Ht]. intros p [= <-]. split_and!; [done..|].
    exists (mkKnow false None false None false). split; [split_and!; done|]. by apply handle_request_harmless.
  - by eapply inv_call.
  - apply inv_thr; [done..|]. intros m p _. apply Ht.
  - eapply inv_mark; [done..|apply mark_autostart_idle|]. pose proof (t_rec w Hw st Hr). unfold mark_no_autostart. by destruct (_ && _).
  - eapply inv_mark; [done..|apply mark_reconfigured_idle|]. pose proof (t_rec w Hw st Hr). unfold mark_reconfigured.
    destruct (negb _); [done|by destruct b].
  - by apply inv_crash.
  - assert (forall m, w_up w m = true -> <[n := true]> (w_up w) m = true) as Eup.
    { intros m Hm. destruct (decide (m = n)) as [->|]; [apply fn_lookup_insert|by rewrite fn_lookup_insert_ne]. }
    split; [by apply (tidy_ext w)|]. intros m p (? & ? & ?)%Ht. split_and!; [done|by apply Eup|done].
Qed.

Lemma service_start_inv : inv start_world.
Proof. split; [split|]; done. Qed.

Lemma service_inv w : reachable allowed w -> inv w.
Proof. induction 1; [apply service_start_inv|by eapply service_step_inv]. Qed.
End calls.

(** ** Runs
    Two nodes, 1 and 2, and a scheduler that lets a node make a number of calls. *)
Module Run.

(** Answers: everything works, but for the status of the resources, which is given. *)
Definition reply (allowed : world -> Z -> site -> bool) (status n : Z) {R : Type} (c : call R) (w : world) : option (R * world) :=
  match c in call R return option (R * world) with
  | RgLock => if decide (w_lock w = None) then Some (true, with_lock w (Some n)) else Some (false, w)
  | RgUnlock => Some (tt, with_lock w (if decide (w_lock w = Some n) then None else w_lock w))
  | ReadState => match w_rec w with Some st => Some (Data st, with_seen w n (mine n st)) | None => Some (NoData, w) end
  | WriteState s st => if allowed w n s then Some (true, written w n s st) else None
  | GroupOp op => if op =? RG_STOP then Some (0, with_use w n false) else Some (if op =? RG_STATUS then status else 0, w)
  | GroupMigratory => Some (false, w)
  | RgLocked | HaveExclusive | CentralEvents => Some (false, w)
  | Quorate | Initialized => Some (true, w)
  | Time => Some (1000, w)
  | NodeShouldStart _ _ => Some (FOD_BEST, w)
  | CheckDepend => Some (1, w)
  | Broadcast _ _ _ => Some (tt, w)
  | _ => None
  end.

(** The members when both are up. *)
Definition both : members := [mkNode 1 1 "one" 0 0; mkNode 2 1 "two" 0 0].

Fixpoint exec (allowed : world -> Z -> site -> bool) (status n : Z) (calls : nat) (w : world) : world :=
  match calls with
  | O => w
  | S calls' =>
      match w_thr w n with
      | Some (Ret _) => with_thr w n None
      | Some (Call c k) =>
          match c in call R return (R -> prog (Z * Z * Z)) -> world with
          | MemberList => fun k => exec allowed status n calls' (with_thr w n (Some (k both)))
          | c => fun k =>
              match reply allowed status n c w with
              | Some (r, w') => exec allowed status n calls' (with_thr w' n (Some (k r)))
              | None => w
              end
          end k
      | None => w
      end
  end.

Definition asked (n req : Z) (w : world) : world := with_thr w n (Some (handle_request n 5 req 0 0 0)).

Lemma reply_step allowed status n {R} (c : call R) w r w' : reply allowed status n c w = Some (r, w') ->
  call_step (fun w n s => allowed w n s = true) n c w r w'.
Proof.
  destruct c; cbn [reply]; intros H; try done; try (by injection H as <- <-; constructor).
  - destruct (decide _); injection H as <- <-; by constructor.
  - destruct (w_rec w) eqn:E; injection H as <- <-; by constructor.
  - destruct (allowed w n s) eqn:E; [|done]. injection H as <- <-. by constructor.
  - destruct (Z.eqb_spec op RG_STOP) as [->|]; injection H as <- <-; constructor. auto.
Qed.

Definition only_both (w : world) : Prop := forall m, w_up w m = true -> m = 1 \/ m = 2.

Lemma exec_reachable allowed status n calls : forall w, only_both w ->
  reachable (fun w n s => allowed w n s = true) w ->
  reachable (fun w n s => allowed w n s = true) (exec allowed status n calls w).
Proof.
  induction calls as [|calls IH]; intros w Hb Hw; [done|]. cbn [exec].
  destruct (w_thr w n) as [[a|R c k]|] eqn:Et; [|  |done].
  { eapply RStep; [done|]. by eapply SDone. }
  assert (forall r w', call_step (fun w n s => allowed w n s = true) n c w r w' ->
    only_both (with_thr w' n (Some (k r))) /\ reachable (fun w n s => allowed w n s = true) (with_thr w' n (Some (k r)))) as Hstep.
  { intros r w' Hc. split; [|by eapply RStep, SCall]. destruct (call_keeps _ n c w r w' Hc) as (_ & Eup & _).
    intros m. cbn [with_thr w_up]. rewrite Eup. apply Hb. }
  pose proof (@reply_step allowed status n R c w) as Hr.
  destruct c; try (destruct (reply allowed status n _ w) as [[r w']|]; [|done]; specialize (Hr r w' eq_refl);
    apply Hstep in Hr as [? ?]; by apply IH).
  apply IH; apply Hstep; constructor; intros m [->| ->]%Hb; done.
Qed.
End Run.

Module RunSample.
Import Run.

(** Both nodes have joined. *)
Definition join (n : Z) (w : world) : world :=
  mkWorld (w_rec w) (w_lock w) (<[n := true]> (w_up w)) (w_use w) (w_seen w) (w_thr w).
Definition joined : world := join 2 (join 1 start_world).

Lemma joined_reachable allowed : reachable allowed joined.
Proof. eapply RStep, SJoin. eapply RStep, SJoin. apply RStart. Qed.

Lemma joined_only w : w_up w = w_up joined -> only_both w.
Proof.
  intros E m. rewrite E. cbn. destruct (decide (m = 2)) as [->|]; [auto|]. rewrite fn_lookup_insert_ne by done.
  destruct (decide (m = 1)) as [->|]; [auto|]. by rewrite fn_lookup_insert_ne.
Qed.

(** The first start and the stop of a service that has neither failed nor is in recovery. *)
Definition calm (w : world) (n : Z) (s : site) : bool :=
  match s with
  | WInit => match w_rec w with None => true | Some _ => false end
  | WStart | WStop =>
      match w_rec w with Some st => negb (rs_state st =? RG_STATE_ERROR) && negb (failed st) | None => true end
  | WFinish | WFail | WRelocated | WMigrated => false
  | _ => true
  end.

Lemma calm_no_hazard w n s : calm w n s = true -> ~ hazard w n s.
Proof.
  destruct s; cbn; try tauto; try done.
  - destruct (w_rec w); [done|]. intros _ H. by apply H.
  - intros Hc (st & Hr & Hst). rewrite Hr in Hc. unfold failed in Hc. destruct Hst as [[E _]|[E _]]; by rewrite E in Hc.
  - intros Hc (st & Hr & Hst). rewrite Hr in Hc. unfold failed in Hc. destruct Hst as [[E _]|[E _]]; by rewrite E in Hc.
Qed.

(** Node 1 starts the service. *)
Definition started (allowed : world -> Z -> site -> bool) : world := exec allowed 0 1 40 (asked 1 RG_START joined).

Lemma asked_reachable allowed n req w : n <> 0 -> w_up w n = true -> w_thr w n = None ->
  reachable allowed w -> reachable allowed (asked n req w).
Proof. intros Hn Hup Ht Hw. eapply RStep; [done|]. by apply SRequest. Qed.

Lemma started_reachable allowed : reachable (fun w n s => allowed w n s = true) (started allowed).
Proof. apply exec_reachable; [by apply joined_only|]. apply asked_reachable; [done..|]. apply joined_reachable. Qed.

(** Then its resources fail, and it begins to stop it, for recovery; before the stop is
    through, node 2 is asked to start the service. *)
Definition recovering (allowed : world -> Z -> site -> bool) : world := exec allowed SFL_FAILURE 1 13 (asked 1 RG_STATUS (started allowed)).
Definition started_twice (allowed : world -> Z -> site -> bool) : world := exec allowed 0 2 40 (asked 2 RG_START (recovering allowed)).

(** As [calm], but a start may take a service that is in recovery. *)
Definition eager (w : world) (n : Z) (s : site) : bool := starts s || calm w n s.

Lemma recovering_reachable : reachable (fun w n s => eager w n s = true) (recovering eager).
Proof. apply exec_reachable; [by apply joined_only|]. apply asked_reachable; [done..|]. apply started_reachable. Qed.

Lemma started_twice_reachable : reachable (fun w n s => eager w n s = true) (started_twice eager).
Proof. apply exec_reachable; [by apply joined_only|]. apply asked_reachable; [done..|]. apply recovering_reachable. Qed.
End RunSample.

(** C7: Whatever requests the nodes handle, in any interleaving of their calls, with crashes,
    failed locks, reads, writes and agents, no two nodes use the resources of a service at the
    same time, as long as no migration succeeds and none of the writes of [hazard] happens.  A
    node that is up is a member for every node. *)
Theorem service_runs_once (allowed : world -> Z -> site -> Prop) w :
  (forall w n s, allowed w n s -> ~ hazard w n s) -> reachable allowed w -> used_once w.
Proof. intros Ha Hr. apply t_once, i_tidy, (service_inv allowed Ha w Hr). Qed.

(** Node 1 has started the service. *)
Lemma service_runs_once_witness :
  used_once (RunSample.started RunSample.calm) /\ w_use (RunSample.started RunSample.calm) 1 = true.
Proof.
  split; [|vm_compute; reflexivity]. apply (service_runs_once (fun w n s => RunSample.calm w n s = true)).
  - intros w n s. apply RunSample.calm_no_hazard.
  - apply RunSample.started_reachable.
Defined.

(** One of the hazards is needed: a start of a service that its owner has begun to stop for
    recovery gives it two users.  In the record it is in [RG_STATE_ERROR], which is no reason not
    to start it, while the owner is up and its resources are still active. *)
Example start_in_error_uses_twice : exists w w',
  let allowed w n s := RunSample.calm w n s = true \/ s = WStart in
  reachable allowed w /\ (rs_state <$> w_rec w) = Some RG_STATE_ERROR /\ w_up w 1 = true /\ w_use w 1 = true /\
  reachable allowed w' /\ w_use w' 1 = true /\ w_use w' 2 = true.
Proof.
  assert (forall w n s, RunSample.eager w n s = true -> RunSample.calm w n s = true \/ s = WStart) as H.
  { intros w n s. unfold RunSample.eager. destruct s; cbn; auto. }
  exists (RunSample.recovering RunSample.eager), (RunSample.started_twice RunSample.eager).
  split; [eapply reachable_mono; [exact H|apply RunSample.recovering_reachable]|]. do 3 (split; [vm_compute; reflexivity|]).
  split; [eapply reachable_mono; [exact H|apply RunSample.started_twice_reachable]|]. vm_compute. done.
Qed.
