(* ===== verification/RgDomain.v ===== *)
(** * rgmanager: failover domains and the choice of a node

    [src/rgmanager/src/daemons/fo_domain.c], and the decisions of [groups.c]: which node is the
    best one for a service, and what a node asks for when the membership or another service
    changes.  The configuration is a function from paths to strings; the attributes of a
    service ([service]), the states of services and random numbers are arguments. *)

From stdpp Require Import strings pretty.
From S2P Require Import Prelude CStrings RgSets RgState.
Open Scope Z_scope.

Definition FOD_BETTER : Z := 2.

Definition FOD_ORDERED : Z := 1.
Definition FOD_RESTRICTED : Z := 2.
Definition FOD_NOFAILBACK : Z := 4.

Record fod_node := mkFodn { fdn_name : string; fdn_prio : Z; fdn_nodeid : Z }.
Record fod := mkFod { fd_name : string; fd_nodes : list fod_node; fd_flags : Z }.

Definition flag (flags bit : Z) : bool := c_true (Z.land flags bit).

(** ** Reading the configuration *)

(** A path in a buffer of 256 bytes. *)
Definition xpath (s : string) : string := String.substring 0 255 s.

Definition quote : string := String (Ascii.ascii_of_nat 34) EmptyString.

Definition fod_get_node (c : ccs) (base : string) (idx : Z) (domain : fod) : option fod_node :=
  match c (xpath (base +:+ "/failoverdomainnode[" +:+ pretty idx +:+ "]/@name")) with
  | None => None
  | Some name =>
      if existsb (fun n => strcaseeq name (fdn_name n)) (fd_nodes domain) then None else
      let id := match c (xpath ("/cluster/clusternodes/clusternode[@name=" +:+ quote +:+ name +:+ quote +:+ "]/@nodeid")) with
                | None => -1
                | Some v => atoi v
                end in
      if negb (flag (fd_flags domain) FOD_ORDERED) then Some (mkFodn name 0 id) else
      match c (xpath (base +:+ "/failoverdomainnode[" +:+ pretty idx +:+ "]/@priority")) with
      | None => Some (mkFodn name 0 id)
      | Some v => let prio := atoi v in Some (mkFodn name (if (prio >? 100) || (prio <=? 0) then 0 else prio) id)
      end
  end.

Fixpoint fod_get_nodes (fuel : nat) (c : ccs) (base : string) (x : Z) (fd : fod) : fod :=
  match fuel with
  | O => fd
  | S fuel' =>
      match fod_get_node c base x fd with
      | None => fd
      | Some n => fod_get_nodes fuel' c base (x + 1) (mkFod (fd_name fd) (fd_nodes fd ++ [n]) (fd_flags fd))
      end
  end.

Definition fod_flag (c : ccs) (base : string) (idx : Z) (attr : string) (bit flags : Z) : Z :=
  match c (xpath (base +:+ "/failoverdomain[" +:+ pretty idx +:+ "]/@" +:+ attr)) with
  | Some v => if negb (atoi v =? 0) then Z.lor flags bit else flags
  | None => flags
  end.

Definition fod_get_domain (fuel : nat) (c : ccs) (base : string) (idx : Z) (domains : list fod) : option fod :=
  match c (xpath (base +:+ "/failoverdomain[" +:+ pretty idx +:+ "]/@name")) with
  | None => None
  | Some name =>
      if existsb (fun d => strcaseeq (fd_name d) name) domains then None else
      let flags := fod_flag c base idx "ordered" FOD_ORDERED 0 in
      let flags := fod_flag c base idx "restricted" FOD_RESTRICTED flags in
      let flags := fod_flag c base idx "nofailback" FOD_NOFAILBACK flags in
      Some (fod_get_nodes fuel c (xpath (base +:+ "/failoverdomain[" +:+ pretty idx +:+ "]")) 1 (mkFod name [] flags))
  end.

Fixpoint fod_get_domains (fuel : nat) (c : ccs) (base : string) (x : Z) (domains : list fod) : list fod :=
  match fuel with
  | O => domains
  | S fuel' =>
      match fod_get_domain fuel c base x domains with
      | None => domains
      | Some d => fod_get_domains fuel' c base (x + 1) (domains ++ [d])
      end
  end.

Definition construct_domains (fuel : nat) (c : ccs) (domains : list fod) : list fod :=
  fod_get_domains fuel c "/cluster/rm/failoverdomains" 1 domains.

(** ** A node in a domain *)

Fixpoint memb_name_to_id (ml : members) (name : string) : Z :=
  match ml with
  | [] => 0
  | m :: ml' => if strcaseeq (cn_name m) name then cn_nodeid m else memb_name_to_id ml' name
  end.

Definition memb_id_to_name (ml : members) (nodeid : Z) : option string := cn_name <$> memb_id_to_p ml nodeid.

(** Whether one is online, whether the node is in the domain, the best priority, its own. *)
Record look := mkLook { lk_online : bool; lk_match : bool; lk_preferred : Z; lk_myprio : Z }.

Definition look_at (nodename : string) (ml : members) (lk : look) (n : fod_node) : look :=
  if memb_online ml (memb_name_to_id ml (fdn_name n)) =? 0 then lk else
  let mine := String.eqb nodename (fdn_name n) in
  mkLook true (lk_match lk || mine)
    (if fdn_prio n <? lk_preferred lk then fdn_prio n else lk_preferred lk)
    (if mine then fdn_prio n else lk_myprio lk).

Definition node_in_domain (nodename : string) (domain : fod) (ml : members) : Z :=
  let lk := foldl (look_at nodename ml) (mkLook false false 100 (-1)) (fd_nodes domain) in
  if negb (lk_online lk) then 0
  else if negb (lk_match lk) then 1
  else if negb (lk_myprio lk <=? lk_preferred lk) then 2
  else 3.

Fixpoint find_domain (domains : list fod) (name : string) : option fod :=
  match domains with
  | [] => None
  | d :: ds => if strcaseeq (fd_name d) name then Some d else find_domain ds name
  end.

(** The nodes of a priority in a random order, added to the set. *)
Definition add_prio (rand : Z -> nat -> Z) (nodes : list fod_node) (ret : list Z) (i : Z) : list Z :=
  let ts := s_add_all [] (fdn_nodeid <$> filter (fun n => fdn_prio n = i) nodes) in
  s_add_all ret (if (1 <? length ts)%nat then s_shuffle (rand i) ts else ts).

(** The set and the flags.  [tmp] is what the memory that [malloc] gives happens to hold; the
    code takes its first number for a pointer. *)
Definition node_domain_set (domains : list fod) (name : string) (rand : Z -> nat -> Z) (tmp : Z) : option (list Z * Z) :=
  match find_domain domains name with
  | None => None
  | Some d =>
      if tmp =? 0 then None else
      let ret := if flag (fd_flags d) FOD_ORDERED then foldl (add_prio rand (fd_nodes d)) [] (seqZ 1 100) else [] in
      Some (add_prio rand (fd_nodes d) ret 0, fd_flags d)
  end.

(** ** Scores *)

(** The domain of the service is [prop]; [st] its record, which is only read without failback,
    and may be out of reach. *)
Definition node_should_start (domains : list fod) (prop : option string) (st : option rg_state)
    (nodeid : Z) (ml : members) : Z :=
  if memb_online ml nodeid =? 0 then FOD_ILLEGAL else
  match prop with
  | None => FOD_BEST
  | Some domainname =>
      match find_domain domains domainname with
      | None => FOD_BEST
      | Some d =>
          let nofailback := flag (fd_flags d) FOD_NOFAILBACK in
          let restricted := flag (fd_flags d) FOD_RESTRICTED in
          let ordered := flag (fd_flags d) FOD_ORDERED in
          let score (started owned_by_node no_owner : bool) :=
            let where_ := node_in_domain (default EmptyString (memb_id_to_name ml nodeid)) d ml in
            if where_ =? 0 then (if negb restricted then FOD_BEST else FOD_ILLEGAL)
            else if where_ =? 1 then (if negb restricted then FOD_GOOD else FOD_ILLEGAL)
            else if where_ =? 2 then
              if ordered then (if nofailback && started && owned_by_node && negb no_owner then FOD_BEST else FOD_BETTER)
              else FOD_BEST
            else if nofailback && started && negb owned_by_node && negb no_owner then FOD_BETTER
            else FOD_BEST in
          if nofailback then
            match st with
            | None => FOD_BEST
            | Some s => score (rs_state s =? RG_STATE_STARTED) (rs_owner s =? nodeid) (memb_online ml (rs_owner s) =? 0)
            end
          else score false false false
      end
  end.

(** ** Services on the nodes *)

(** The attributes that matter. *)
Record service := mkService {
  sv_name : string;
  sv_domain : option string;
  sv_exclusive : option string;
  sv_autostart : option string;
  sv_depend : option string
}.

Definition is_exclusive_res (val : option string) : bool :=
  match val with Some v => String.eqb v "yes" || (atoi v >? 0) | None => false end.

Definition set_counts (m : cman_node) (svccount svcexcl : Z) : cman_node :=
  mkNode (cn_nodeid m) (cn_member m) (cn_name m) svccount svcexcl.

(** The first member with the number. *)
Fixpoint memb_alter (f : cman_node -> cman_node) (nodeid : Z) (ml : members) : members :=
  match ml with
  | [] => []
  | m :: ml' => if cn_nodeid m =? nodeid then f m :: ml' else m :: memb_alter f nodeid ml'
  end.

Definition runs (st : rg_state) : bool := (rs_state st =? RG_STATE_STARTED) || (rs_state st =? RG_STATE_STARTING).

Definition count_one (exclusive : bool) (m : cman_node) : cman_node :=
  set_counts m (u8 (cn_svccount m + 1)) (if exclusive then u8 (cn_svcexcl m + 1) else cn_svcexcl m).

(** [state] is the record of a service, or nothing when it cannot be locked or read. *)
Definition count_resource_groups (state : string -> option rg_state) (tree : list service) (ml : members) : members :=
  foldl (fun ml sv =>
    match state (sv_name sv) with
    | Some st => if runs st then memb_alter (count_one (is_exclusive_res (sv_exclusive sv))) (rs_owner st) ml else ml
    | None => ml
    end) ((fun m => set_counts m 0 0) <$> ml) tree.

Definition count_resource_groups_local (local : string -> option rg_state) (tree : list service) (m : cman_node) : cman_node :=
  foldl (fun m sv =>
    match local (sv_name sv) with
    | Some st => if runs st && (cn_nodeid m =? rs_owner st) then count_one (is_exclusive_res (sv_exclusive sv)) m else m
    | None => m
    end) (set_counts m 0 0) tree.

Definition have_exclusive_resources (tree : list service) : bool := existsb (fun sv => is_exclusive_res (sv_exclusive sv)) tree.

(** For a service that the resource list has. *)
Definition check_exclusive_resources (local : string -> option rg_state) (tree : list service) (sv : service) (m : cman_node) : Z :=
  let m := count_resource_groups_local local tree m in
  if c_true (cn_svcexcl m) || (c_true (cn_svccount m) && is_exclusive_res (sv_exclusive sv)) then RG_YES else 0.

(** One member for [best_target_node]: the best score and its node so far. *)
Definition consider_node (score : Z -> Z) (owner : Z) (exclusive : bool) (best : Z * Z) (m : cman_node) : Z * Z :=
  let '(highscore, highnode) := best in
  if cn_member m =? 0 then best else
  let nodeid := cn_nodeid m in
  if negb (owner =? 0) && (nodeid =? owner) then best else
  let s := score nodeid in
  if s =? 0 then best else
  if exclusive && (cn_svccount m >? 0) then best else
  if negb exclusive && c_true (cn_svcexcl m) then best else
  let s := if exclusive then s + 2 else s in
  if s <? highscore then best else (s, nodeid).

Definition best_target_node (domains : list fod) (state : string -> option rg_state) (tree : list service) (sv : service)
    (allowed : members) (owner : Z) : Z :=
  let allowed := count_resource_groups state tree allowed in
  let score nodeid := node_should_start domains (sv_domain sv) (state (sv_name sv)) nodeid allowed in
  (foldl (consider_node score owner (is_exclusive_res (sv_exclusive sv))) (1, owner) allowed).2.

(** ** Changes of the membership *)

(** No list is an empty one. *)
Definition memb_gained (old new : members) : members :=
  match new, old with
  | [], _ => []
  | _, [] => new
  | _, _ => filter (fun m => cn_member m <> 0 /\ ~ Exists (fun o => cn_nodeid o = cn_nodeid m /\ cn_member o <> 0) old) new
  end.

Definition memb_lost (old new : members) : members := (fun m => set_member m 0) <$> memb_gained new old.

Record node_event := mkEvent { ne_local : bool; ne_nodeid : Z; ne_state : bool }.

(** The events that [membership_update] queues on node [me]. *)
Definition membership_events (me : Z) (locked : bool) (old new : members) : list node_event :=
  let lost := memb_lost old new in
  let gained := memb_gained old new in
  (if c_true (memb_online lost me) then [mkEvent true me false] else []) ++
  (if locked then [] else (fun m => mkEvent false (cn_nodeid m) false) <$> lost) ++
  (if c_true (memb_online gained me) then [mkEvent true me true] else []) ++
  ((fun m => mkEvent false (cn_nodeid m) true) <$> filter (fun m => cn_member m <> 0 /\ cn_nodeid m <> me) gained).

(** ** What to ask for *)

(** -1 without a dependency; 1 when the state is not known here. *)
Definition check_depend (local : string -> option rg_state) (sv : service) : Z :=
  match sv_depend sv with
  | None => -1
  | Some val => match local val with Some rs => Z.b2z (rs_state rs =? RG_STATE_STARTED) | None => 1 end
  end.

(** A request for the thread of the service, or a mark in its record. *)
Inductive order := Enqueue (req target : Z) | MarkDisabled.

Definition member_online_set (ml : members) : list Z :=
  cn_nodeid <$> filter (fun m => cn_member m <> 0 /\ cn_nodeid m <> 0) ml.

Definition check_rdomain_crash (domains : list fod) (rand : Z -> nat -> Z) (tmp : Z) (sv : service) (ml : members) : list order :=
  match sv_domain sv with
  | None => []
  | Some name =>
      match node_domain_set domains name rand tmp with
      | None => []
      | Some (fd_nodes, fl) =>
          if negb (flag fl FOD_RESTRICTED) then []
          else match s_intersection fd_nodes (member_online_set ml) with [] => [Enqueue RG_STOP 0] | _ => [] end
      end
  end.

Definition autostarts (val : option string) : bool :=
  match val with Some v => negb (String.eqb v "no" || (atoi v =? 0)) | None => true end.

Section eval.
Context (me : Z) (domains : list fod) (rand : Z -> nat -> Z) (tmp : Z) (state local : string -> option rg_state).

(** [ml] with the numbers of services; this node is one of them. *)
Definition consider_start (sv : service) (st : rg_state) (ml : members) : list order :=
  match memb_id_to_p ml me with
  | None => []
  | Some mp =>
      if frozen st then []
      else if (rs_state st =? RG_STATE_STARTED) && (rs_owner st =? me) then []
      else if rs_state st =? RG_STATE_DISABLED then []
      else if (rs_state st =? RG_STATE_STOPPED) && (rs_transition st =? 0) && negb (autostarts (sv_autostart sv)) then [MarkDisabled]
      else if check_depend local sv =? 0 then []
      else if is_exclusive_res (sv_exclusive sv) && c_true (cn_svccount mp) then []
      else if c_true (cn_svcexcl mp) then []
      else
        let fod_ret := node_should_start domains (sv_domain sv) (state (sv_name sv)) me ml in
        if fod_ret =? FOD_BEST then [Enqueue RG_START me]
        else if fod_ret =? FOD_ILLEGAL then check_rdomain_crash domains rand tmp sv ml
        else []
  end.

Definition consider_relocate (migratory : bool) (sv : service) (st : rg_state) (nodeid : Z) (ml : members) : list order :=
  if (negb (rs_state st =? RG_STATE_STARTING) && negb (rs_state st =? RG_STATE_STARTED)) || negb (rs_owner st =? me) then []
  else
    let a := node_should_start domains (sv_domain sv) (state (sv_name sv)) nodeid ml in
    let b := node_should_start domains (sv_domain sv) (state (sv_name sv)) me ml in
    if a <=? b then [] else [Enqueue (if migratory then RG_MIGRATE else RG_RELOCATE) nodeid].

Definition eval_service (migratory : bool) (sv : service) (is_local nodeStatus : bool) (nodeid : Z) (ml : members) : list order :=
  match state (sv_name sv) with
  | None => []
  | Some st =>
      if (rs_state st =? RG_STATE_DISABLED) || (rs_state st =? RG_STATE_FAILED) || (rs_state st =? RG_STATE_RECOVER) then []
      else if (is_local && nodeStatus) || (rs_state st =? RG_STATE_STOPPED) then consider_start sv st ml
      else if negb is_local && negb nodeStatus then consider_start sv st ml
      else consider_relocate migratory sv st nodeid ml
  end.

(** The services in turn, up to one whose lock cannot be had. *)
Fixpoint eval_from (lockable : service -> bool) (migratory : service -> bool) (tree : list service)
    (is_local nodeStatus : bool) (nodeid : Z) (ml : members) : list (service * order) :=
  match tree with
  | [] => []
  | sv :: tree' =>
      if negb (lockable sv) then []
      else ((fun o => (sv, o)) <$> eval_service (migratory sv) sv is_local nodeStatus nodeid ml) ++
           eval_from lockable migratory tree' is_local nodeStatus nodeid ml
  end.

(** Nothing while the services are locked. *)
Definition eval_groups (locked : bool) (lockable migratory : service -> bool) (tree : list service) (is_local nodeStatus : bool)
    (nodeid : Z) (ml : members) : list (service * order) :=
  if locked then []
  else eval_from lockable migratory tree is_local nodeStatus nodeid (count_resource_groups state tree ml).

(** An event of the membership, once the services have been initialised; when the node itself
    has gone, it exits. *)
Definition node_event_orders (lockable migratory : service -> bool) (tree : list service) (ml : members) (e : node_event)
    : list (service * order) :=
  if ne_local e && negb (ne_state e) then []
  else eval_groups false lockable migratory tree (ne_local e) (ne_state e) (ne_nodeid e) ml.

(** After another service has changed its state. *)
Definition group_event_service (sv : service) (newstate : Z) (ml : members) : list order :=
  match local (sv_name sv) with
  | None => []
  | Some st =>
      if (rs_state st =? RG_STATE_DISABLED) || (rs_state st =? RG_STATE_FAILED) || (rs_state st =? RG_STATE_RECOVER) then []
      else
        let depend := check_depend local sv in
        if depend =? -1 then []
        else if (depend =? 1) && (rs_state st =? RG_STATE_STOPPED) && (newstate =? RG_STATE_STARTED) then consider_start sv st ml
        else if (depend =? 0) && (rs_state st =? RG_STATE_STARTED) && (rs_owner st =? me) then [Enqueue RG_STOP me]
        else []
  end.

Definition group_event (locked : bool) (tree : list service) (newstate : Z) (ml : members) : list (service * order) :=
  if locked then [] else
  let ml := count_resource_groups state tree ml in
  tree ≫= fun sv => (fun o => (sv, o)) <$> group_event_service sv newstate ml.
End eval.
