(* ===== verification/RgDomainThm.v ===== *)
(** * rgmanager: the best node, and who takes over

    [best_target_node] picks a node with the highest score among those that may run the
    service.  A service that has stopped or lost its node is asked for by some node that is
    left, if any of them may run it ([takeover_requested]).  The domains of the
    configuration are well formed ([construct_domains_ok]). *)

From stdpp Require Import strings pretty.
From S2P Require Import Prelude CStrings RgSets RgState RgDomain.
Open Scope Z_scope.

(** ** The best target *)

Section target.
Context (score : Z -> Z) (owner : Z) (exclusive : bool).

(** A member that may be chosen, and what it is worth. *)
Definition eligible (m : cman_node) : Prop :=
  cn_member m <> 0 /\ ~ (owner <> 0 /\ cn_nodeid m = owner) /\ score (cn_nodeid m) <> 0 /\
  (if exclusive then cn_svccount m <= 0 else cn_svcexcl m = 0).

Definition worth (m : cman_node) : Z := score (cn_nodeid m) + if exclusive then 2 else 0.

Lemma consider_node_spec best m : (eligible m /\ best.1 <= worth m /\ consider_node score owner exclusive best m = (worth m, cn_nodeid m)) \/
  ((eligible m -> worth m < best.1) /\ consider_node score owner exclusive best m = best).
Proof.
  destruct best as [hs hn]. unfold consider_node, eligible, worth, c_true. cbn.
  destruct (Z.eqb_spec (cn_member m) 0); [right; split; [tauto|done]|].
  destruct (Z.eqb_spec owner 0), (Z.eqb_spec (cn_nodeid m) owner); cbn [negb andb]; try (right; split; [tauto|done]);
    (destruct (Z.eqb_spec (score (cn_nodeid m)) 0); [right; split; [tauto|done]|]);
    destruct exclusive; cbn [negb andb];
    rewrite ?Z.gtb_ltb; try (destruct (Z.ltb_spec 0 (cn_svccount m)); [right; split; [lia|done]|]);
    try (destruct (Z.eqb_spec (cn_svcexcl m) 0); cbn [negb]; [|right; split; [tauto|done]]);
    rewrite ?Z.add_0_r; match goal with |- context [?a <? hs] => destruct (Z.ltb_spec a hs) end; (right; split; [lia|done]) || (left; split_and!; try done; lia).
Qed.

(** The best among the first members: eligible and worth as much as any, or none is. *)
Definition best_of (ml : members) (best : Z * Z) : Prop :=
  (exists m, m ∈ ml /\ eligible m /\ best = (worth m, cn_nodeid m) /\ forall m', m' ∈ ml -> eligible m' -> worth m' <= worth m) \/
  (best = (1, owner) /\ forall m, m ∈ ml -> eligible m -> worth m < 1).

Lemma consider_all ml : best_of ml (foldl (consider_node score owner exclusive) (1, owner) ml).
Proof.
  induction ml as [|m ml IH] using rev_ind; [right; split; [done|set_solver]|]. rewrite foldl_snoc.
  set (best := foldl _ _ ml) in *. destruct (consider_node_spec best m) as [(He & Hw & ->)|(He & ->)].
  - left. exists m. split_and!; [set_solver|done..|]. intros m' [Hm'|Hm'%list_elem_of_singleton]%elem_of_app Hel; [|by subst].
    destruct IH as [(b & _ & _ & E & Hb)|(E & Hb)]; rewrite E in Hw; cbn in Hw; specialize (Hb m' Hm' Hel); lia.
  - destruct IH as [(b & Hin & Heb & E & Hb)|(E & Hb)]; rewrite E in He |- *; cbn in He.
    + left. exists b. split_and!; [set_solver|done..|]. intros m' [Hm'|Hm'%list_elem_of_singleton]%elem_of_app Hel; [by apply Hb|].
      subst. specialize (He Hel). lia.
    + right. split; [done|]. intros m' [Hm'|Hm'%list_elem_of_singleton]%elem_of_app Hel; subst; auto.
Qed.
End target.

Lemma score_range domains prop st nodeid ml : 0 <= node_should_start domains prop st nodeid ml <= 3.
Proof. unfold node_should_start. repeat case_match; cbv; split; congruence. Qed.

(** C29: The target is a member that is up, is not the owner, may run the service and has no
    service that excludes it, with the highest score of all of those; without one it is the
    owner. *)
Theorem best_target_node_best domains state tree sv allowed owner :
  let ml := count_resource_groups state tree allowed in
  let score nodeid := node_should_start domains (sv_domain sv) (state (sv_name sv)) nodeid ml in
  let exclusive := is_exclusive_res (sv_exclusive sv) in
  let target := best_target_node domains state tree sv allowed owner in
  (exists m, m ∈ ml /\ eligible score owner exclusive m /\ target = cn_nodeid m /\
     forall m', m' ∈ ml -> eligible score owner exclusive m' -> score (cn_nodeid m') <= score (cn_nodeid m)) \/
  (target = owner /\ forall m, m ∈ ml -> ~ eligible score owner exclusive m).
Proof.
  cbn zeta. unfold best_target_node. set (ml := count_resource_groups state tree allowed).
  set (score := fun nodeid => node_should_start _ _ _ nodeid ml).
  destruct (consider_all score owner (is_exclusive_res (sv_exclusive sv)) ml) as [(m & Hin & He & -> & Hb)|(-> & Hb)].
  - left. exists m. split_and!; [done..|]. intros m' Hm' Hel. specialize (Hb m' Hm' Hel). unfold worth in Hb.
    change (score (cn_nodeid m') <= score (cn_nodeid m)). destruct (is_exclusive_res _); lia.
  - right. split; [done|]. intros m Hm Hel. specialize (Hb m Hm Hel). unfold worth in Hb.
    pose proof (score_range domains (sv_domain sv) (state (sv_name sv)) (cn_nodeid m) ml) as Hs. fold (score (cn_nodeid m)) in Hs.
    destruct Hel as (_ & _ & Hne & _). destruct (is_exclusive_res _); lia.
Qed.

(** ** Counting changes nothing else *)

Definition cols (m : cman_node) : Z * Z * string := (cn_nodeid m, cn_member m, cn_name m).
Definition same (ml ml' : members) : Prop := cols <$> ml = cols <$> ml'.

#[export] Instance same_equiv : Equivalence same.
Proof. split; unfold same; [done|by intros ???|intros ? ? ?; congruence]. Qed.

Lemma memb_alter_same f nodeid ml : (forall m, cols (f m) = cols m) -> same (memb_alter f nodeid ml) ml.
Proof.
  intros Hf. unfold same. induction ml as [|m ml IH]; [done|]. cbn. destruct (_ =? nodeid); cbn; [by rewrite Hf|by rewrite IH].
Qed.

Lemma count_same state tree ml : same (count_resource_groups state tree ml) ml.
Proof.
  unfold count_resource_groups. assert (same ((fun m => set_counts m 0 0) <$> ml) ml) as H0.
  { unfold same. rewrite <- list_fmap_compose. by apply list_fmap_ext. }
  revert H0. generalize ((fun m => set_counts m 0 0) <$> ml) as ml'. intros ml'. revert ml'.
  induction tree as [|sv tree IH]; intros ml' H; [done|]. cbn [foldl]. apply IH.
  destruct (state (sv_name sv)) as [st|]; [|done]. destruct (runs st); [|done]. by rewrite memb_alter_same.
Qed.

#[export] Instance memb_online_proper : Proper (same ==> eq ==> eq) memb_online.
Proof.
  intros ml ml' H i ? <-. unfold same in H. revert ml' H. induction ml as [|m ml IH]; intros [|m' ml'] H; try done.
  cbn in *. injection H as -> -> _ H. destruct (_ =? i); [done|by apply IH].
Qed.

#[export] Instance memb_name_to_id_proper : Proper (same ==> eq ==> eq) memb_name_to_id.
Proof.
  intros ml ml' H i ? <-. unfold same in H. revert ml' H. induction ml as [|m ml IH]; intros [|m' ml'] H; try done.
  cbn in *. injection H as -> _ -> H. destruct (strcaseeq _ i); [done|by apply IH].
Qed.

#[export] Instance memb_id_to_name_proper : Proper (same ==> eq ==> eq) memb_id_to_name.
Proof.
  intros ml ml' H i ? <-. unfold same in H. revert ml' H. induction ml as [|m ml IH]; intros [|m' ml'] H; try done.
  unfold memb_id_to_name in *. cbn in *. injection H as -> _ E H. destruct (_ =? i); cbn; [by rewrite E|by apply IH].
Qed.

#[export] Instance node_in_domain_proper : Proper (eq ==> eq ==> same ==> eq) node_in_domain.
Proof.
  intros name ? <- d ? <- ml ml' H. unfold node_in_domain.
  assert (forall l lk, foldl (look_at name ml) lk l = foldl (look_at name ml') lk l) as E; [|by rewrite E].
  induction l as [|n l IH]; intros lk; [done|]. cbn [foldl]. rewrite IH. f_equal. unfold look_at. by setoid_rewrite H.
Qed.

#[export] Instance node_should_start_proper : Proper (eq ==> eq ==> eq ==> eq ==> same ==> eq) node_should_start.
Proof.
  intros ds ? <- prop ? <- st ? <- i ? <- ml ml' H. unfold node_should_start. rewrite H. destruct (_ =? 0); [done|].
  destruct prop as [name|]; [|done]. destruct (find_domain ds name) as [d|]; [|done].
  assert (node_in_domain (default EmptyString (memb_id_to_name ml i)) d ml =
          node_in_domain (default EmptyString (memb_id_to_name ml' i)) d ml') as -> by (by rewrite H).
  destruct st as [s|]; [|done]. assert (memb_online ml (rs_owner s) = memb_online ml' (rs_owner s)) as -> by (by rewrite H). done.
Qed.

(** ** Names *)

Lemma NoDup_fmap_eq {A B} (f : A -> B) l x y : NoDup (f <$> l) -> x ∈ l -> y ∈ l -> f x = f y -> x = y.
Proof.
  induction l as [|a l IH]; cbn; [set_solver|]. intros [Ha Hnd]%NoDup_cons [->|Hx]%elem_of_cons [->|Hy]%elem_of_cons E; try done.
  - destruct Ha. rewrite E. by apply list_elem_of_fmap_2.
  - destruct Ha. rewrite <- E. by apply list_elem_of_fmap_2.
  - by apply IH.
Qed.

Fixpoint lowered (s : string) : string :=
  match s with EmptyString => EmptyString | String a s' => String (lower a) (lowered s') end.

Lemma strcaseeq_lowered s t : strcaseeq s t = true <-> lowered s = lowered t.
Proof.
  revert t. induction s as [|a s IH]; intros [|b t]; cbn; try done.
  rewrite andb_true_iff, Ascii.eqb_eq, IH. split; [by intros [-> ->]|]. by intros [= -> ->].
Qed.

(** [membership_update] marks the quorum disk, which has the number 0, as down. *)
Record members_ok (ml : members) : Prop := {
  mo_ids : NoDup (cn_nodeid <$> ml);
  mo_zero m : m ∈ ml -> cn_nodeid m = 0 -> cn_member m = 0
}.

(** The domain has the names as the cluster has them, with the same case. *)
Definition names_match (d : fod) (ml : members) : Prop :=
  forall n m, n ∈ fd_nodes d -> m ∈ ml -> strcaseeq (cn_name m) (fdn_name n) = true -> cn_name m = fdn_name n.

Record domain_ok (d : fod) : Prop := {
  do_names : NoDup (lowered ∘ fdn_name <$> fd_nodes d);
  do_prio n : n ∈ fd_nodes d -> 0 <= fdn_prio n <= 100
}.

Lemma memb_find ml m : NoDup (cn_nodeid <$> ml) -> m ∈ ml ->
  memb_online ml (cn_nodeid m) = cn_member m /\ memb_id_to_p ml (cn_nodeid m) = Some m.
Proof.
  induction ml as [|m0 ml IH]; [set_solver|]. cbn. intros [Hn Hnd]%NoDup_cons [->|Hm]%elem_of_cons.
  - by rewrite Z.eqb_refl.
  - assert (cn_nodeid m0 <> cn_nodeid m) as Hne by (intros E; apply Hn; rewrite E; by apply list_elem_of_fmap_2).
    apply Z.eqb_neq in Hne. rewrite Hne. by apply IH.
Qed.

Lemma memb_online_find ml i : memb_online ml i <> 0 -> exists m, m ∈ ml /\ cn_nodeid m = i /\ cn_member m <> 0.
Proof.
  induction ml as [|m0 ml IH]; [done|]. cbn. destruct (Z.eqb_spec (cn_nodeid m0) i); intros H.
  - exists m0. set_solver.
  - destruct (IH H) as (m & ? & ?). exists m. set_solver.
Qed.

Lemma memb_name_to_id_find ml name : memb_name_to_id ml name <> 0 ->
  exists m, m ∈ ml /\ strcaseeq (cn_name m) name = true /\ cn_nodeid m = memb_name_to_id ml name.
Proof.
  induction ml as [|m0 ml IH]; [done|]. cbn. destruct (strcaseeq (cn_name m0) name) eqn:E; intros H.
  - exists m0. set_solver.
  - destruct (IH H) as (m & ? & ?). exists m. set_solver.
Qed.

(** ** The look at a domain *)

Section look.
Context (name : string) (ml : members).

Definition up_node (n : fod_node) : Prop := memb_online ml (memb_name_to_id ml (fdn_name n)) <> 0.

#[export] Instance up_node_dec n : Decision (up_node n).
Proof. unfold up_node. apply _. Defined.

Definition look_up (lk : look) (n : fod_node) : look :=
  let mine := String.eqb name (fdn_name n) in
  mkLook true (lk_match lk || mine)
    (if fdn_prio n <? lk_preferred lk then fdn_prio n else lk_preferred lk)
    (if mine then fdn_prio n else lk_myprio lk).

Lemma look_filter l : forall lk, foldl (look_at name ml) lk l = foldl look_up lk (filter up_node l).
Proof.
  induction l as [|n l IH]; intros lk; [done|]. cbn [foldl]. rewrite IH. unfold look_at at 1.
  destruct (Z.eqb_spec (memb_online ml (memb_name_to_id ml (fdn_name n))) 0) as [Hd|Hu].
  - rewrite filter_cons_False; [done|]. by intros H.
  - by rewrite filter_cons_True.
Qed.

Definition looked (l : list fod_node) : look := foldl look_up (mkLook false false 100 (-1)) l.

Lemma looked_online l : lk_online (looked l) = negb (bool_decide (l = [])).
Proof. destruct l as [|n l _] using rev_ind; [done|]. unfold looked. rewrite foldl_snoc. by destruct l. Qed.

Lemma looked_match l : lk_match (looked l) = true <-> exists n, n ∈ l /\ fdn_name n = name.
Proof.
  induction l as [|n l IH] using rev_ind; [cbn; split; [done|set_solver]|]. unfold looked in *. rewrite foldl_snoc. cbn [look_up lk_match].
  rewrite orb_true_iff, IH, String.eqb_eq. setoid_rewrite elem_of_app. setoid_rewrite list_elem_of_singleton. split.
  - intros [(n' & ? & ?)|E]; eauto.
  - intros (n' & [?| ->] & ?); [left; eauto|by right].
Qed.

Lemma looked_prio l : lk_match (looked l) = true -> exists n, n ∈ l /\ fdn_name n = name /\ lk_myprio (looked l) = fdn_prio n.
Proof.
  induction l as [|n l IH] using rev_ind; [done|]. unfold looked in *. rewrite foldl_snoc. cbn [look_up lk_match lk_myprio].
  destruct (String.eqb_spec name (fdn_name n)) as [E|E].
  - intros _. exists n. set_solver.
  - rewrite orb_false_r. intros (n' & Hin & ? & ?)%IH. exists n'. split_and!; [set_solver|done..].
Qed.

Lemma looked_preferred l b : b <= 100 -> (forall n, n ∈ l -> b <= fdn_prio n) -> b <= lk_preferred (looked l).
Proof.
  intros Hb. induction l as [|n l IH] using rev_ind; [done|]. intros Hall. unfold looked in *. rewrite foldl_snoc.
  cbn [look_up lk_preferred]. destruct (_ <? _); [apply Hall; set_solver|]. apply IH. set_solver.
Qed.
End look.

Lemma min_prio (l : list fod_node) : l <> [] -> exists n, n ∈ l /\ forall n', n' ∈ l -> fdn_prio n <= fdn_prio n'.
Proof.
  induction l as [|n l IH]; [done|]. intros _. destruct l as [|n1 l']; [exists n; set_solver by lia|].
  destruct IH as (b & Hb & Hall); [done|]. destruct (Z.le_gt_cases (fdn_prio n) (fdn_prio b)).
  - exists n. split; [set_solver|]. intros n' [->|Hn']%elem_of_cons; [done|]. specialize (Hall n' Hn'). lia.
  - exists b. split; [set_solver|]. intros n' [->|Hn']%elem_of_cons; [lia|auto].
Qed.

(** A domain with a node that is up has one that is up and preferred. *)
Lemma up_node_member d ml n : members_ok ml -> names_match d ml -> n ∈ fd_nodes d -> up_node ml n ->
  exists m, m ∈ ml /\ cn_member m <> 0 /\ cn_name m = fdn_name n.
Proof.
  intros Hml Hnm Hn Hup. unfold up_node in Hup. destruct (Z.eq_dec (memb_name_to_id ml (fdn_name n)) 0) as [E|Hid].
  - apply memb_online_find in Hup as (m & Hm & Hz & Hon). destruct Hon. apply (mo_zero ml Hml m Hm). congruence.
  - apply memb_name_to_id_find in Hid as (m & Hm & Hname & Hid). exists m. split; [done|].
    rewrite <- Hid in Hup. rewrite (proj1 (memb_find ml m (mo_ids ml Hml) Hm)) in Hup. split; [done|by apply Hnm].
Qed.

Lemma preferred_node_exists d ml : members_ok ml -> domain_ok d -> names_match d ml -> filter (up_node ml) (fd_nodes d) <> [] ->
  exists m, m ∈ ml /\ cn_member m <> 0 /\ node_in_domain (cn_name m) d ml = 3.
Proof.
  intros Hml Hd Hnm Hne. destruct (min_prio _ Hne) as (n & [Hup Hn]%list_elem_of_filter & Hmin).
  destruct (up_node_member d ml n Hml Hnm Hn Hup) as (m & Hm & Hon & Hname). exists m. split_and!; [done..|].
  unfold node_in_domain. rewrite look_filter. fold (looked (cn_name m) (filter (up_node ml) (fd_nodes d))).
  rewrite looked_online, bool_decide_false by done. cbn [negb].
  assert (lk_match (looked (cn_name m) (filter (up_node ml) (fd_nodes d))) = true) as Hmatch.
  { apply looked_match. exists n. split; [by apply list_elem_of_filter|done]. }
  rewrite Hmatch. cbn [negb]. destruct (looked_prio _ _ Hmatch) as (n' & [Hup' Hn']%list_elem_of_filter & Hname' & ->).
  assert (n' = n) as ->.
  { apply (NoDup_fmap_eq (lowered ∘ fdn_name) (fd_nodes d)); [apply Hd|done..|]. cbn. congruence. }
  rewrite (proj2 (Z.leb_le _ _)); [done|]. apply looked_preferred; [by apply (do_prio d Hd)|]. auto.
Qed.

(** ** A service that may run somewhere is best somewhere *)

(** The service is not running on a node that is up. *)
Definition adrift (st : rg_state) (ml : members) : Prop := rs_state st <> RG_STATE_STARTED \/ memb_online ml (rs_owner st) = 0.

Lemma some_node_best domains prop st ml x : members_ok ml ->
  (forall name d, prop = Some name -> find_domain domains name = Some d -> domain_ok d /\ names_match d ml) ->
  adrift st ml -> node_should_start domains prop (Some st) x ml <> FOD_ILLEGAL ->
  exists m, m ∈ ml /\ cn_member m <> 0 /\ node_should_start domains prop (Some st) (cn_nodeid m) ml = FOD_BEST.
Proof.
  intros Hml Hdom Had Hx. unfold node_should_start in Hx. destruct (Z.eqb_spec (memb_online ml x) 0) as [|Hxup]; [done|].
  pose proof (memb_online_find ml x Hxup) as (mx & Hmx & Hmxid & Hmxon).
  assert (forall m, m ∈ ml -> cn_member m <> 0 -> (memb_online ml (cn_nodeid m) =? 0) = false) as Hon.
  { intros m Hm Hmem. rewrite (proj1 (memb_find ml m (mo_ids ml Hml) Hm)). by apply Z.eqb_neq. }
  unfold node_should_start. destruct prop as [name|]; [|exists mx; by rewrite Hon].
  destruct (find_domain domains name) as [d|] eqn:Ed; [|exists mx; by rewrite Hon].
  destruct (Hdom name d eq_refl Ed) as [Hd Hnm].
  destruct (decide (filter (up_node ml) (fd_nodes d) = [])) as [Hnone|Hsome].
  - assert (forall nm, node_in_domain nm d ml = 0) as Hw.
    { intros nm. unfold node_in_domain. rewrite look_filter, Hnone. done. }
    exists mx. rewrite Hon by done. rewrite !Hw in Hx |- *. cbn [Z.eqb] in Hx |- *. split_and!; [done..|].
    destruct (flag (fd_flags d) FOD_RESTRICTED), (flag (fd_flags d) FOD_NOFAILBACK); cbn [negb] in *; congruence.
  - destruct (preferred_node_exists d ml Hml Hd Hnm Hsome) as (m & Hm & Hmem & Hw). exists m. rewrite Hon by done.
    unfold memb_id_to_name. rewrite (proj2 (memb_find ml m (mo_ids ml Hml) Hm)). cbn [fmap option_fmap option_map from_option id].
    rewrite !Hw. cbn [Z.eqb Pos.eqb]. split_and!; [done..|]. destruct (flag _ FOD_NOFAILBACK); [|done].
    destruct Had as [Hs|Ho].
    + apply Z.eqb_neq in Hs. rewrite Hs. done.
    + rewrite Ho. cbn [Z.eqb negb]. by rewrite andb_false_r.
Qed.

(** ** Taking over *)

Lemma memb_alter_forall (P : cman_node -> Prop) f i ml : (forall m, P m -> P (f m)) -> Forall P ml -> Forall P (memb_alter f i ml).
Proof. intros Hf. induction 1 as [|m ml Hm Hml IH]; cbn; [done|]. destruct (_ =? i); constructor; auto. Qed.

(** Without exclusive services no node counts one. *)
Lemma count_no_exclusive state tree ml : have_exclusive_resources tree = false ->
  Forall (fun m => cn_svcexcl m = 0) (count_resource_groups state tree ml).
Proof.
  intros Hex. unfold count_resource_groups. assert (Forall (fun m => cn_svcexcl m = 0) ((fun m => set_counts m 0 0) <$> ml)) as H0.
  { apply Forall_fmap, Forall_true. done. }
  revert H0 Hex. generalize ((fun m => set_counts m 0 0) <$> ml) as ml'. intros ml'. revert ml'.
  induction tree as [|sv tree IH]; intros ml' H Hex; [done|]. cbn in Hex. apply orb_false_iff in Hex as [Hsv Hex]. cbn [foldl].
  apply IH; [|done]. destruct (state (sv_name sv)) as [st|]; [|done]. destruct (runs st); [|done]. rewrite Hsv.
  by apply memb_alter_forall.
Qed.

Lemma not_exclusive tree sv : have_exclusive_resources tree = false -> sv ∈ tree -> is_exclusive_res (sv_exclusive sv) = false.
Proof.
  intros Hex Hsv. induction tree as [|s tree IH]; [set_solver|]. cbn in Hex. apply orb_false_iff in Hex as [? ?].
  apply elem_of_cons in Hsv as [->|]; auto.
Qed.

Lemma same_member ml ml' m : same ml ml' -> m ∈ ml -> exists m', m' ∈ ml' /\ cols m' = cols m.
Proof.
  intros Hs Hm. assert (cols m ∈ cols <$> ml') as (m' & E & Hm')%list_elem_of_fmap; [|eauto].
  rewrite <- Hs. by apply list_elem_of_fmap_2.
Qed.

(** [n] goes down from one membership to the next. *)
Definition goes_down (n : Z) (old new : members) : Prop :=
  (exists m, m ∈ old /\ cn_nodeid m = n /\ cn_member m <> 0) /\ memb_online new n = 0.

Lemma lost_event me n old new : members_ok new -> new <> [] -> goes_down n old new ->
  mkEvent false n false ∈ membership_events me false old new.
Proof.
  intros Hnew Hne ((m & Hm & <- & Hon) & Hdown). unfold membership_events. rewrite !elem_of_app. right. left.
  apply list_elem_of_fmap. exists (set_member m 0). split; [done|]. unfold memb_lost. apply list_elem_of_fmap. exists m. split; [done|].
  unfold memb_gained. destruct old as [|o old]; [set_solver|]. destruct new as [|w new]; [done|].
  apply list_elem_of_filter. split; [|done]. split; [done|]. rewrite Exists_exists. intros (o' & Ho' & Hid & Hon').
  rewrite <- Hid in Hdown. rewrite (proj1 (memb_find _ o' (mo_ids _ Hnew) Ho')) in Hdown. done.
Qed.

Section takeover.
Context (domains : list fod) (rand : Z -> nat -> Z) (tmp : Z) (state : string -> option rg_state).
Context (local : Z -> string -> option rg_state) (lockable migratory : service -> bool) (tree : list service) (ml : members).

Lemma eval_from_elem me sv is_local up n ml' o : (forall s, s ∈ tree -> lockable s = true) -> sv ∈ tree ->
  o ∈ eval_service me domains rand tmp state (local me) (migratory sv) sv is_local up n ml' ->
  (sv, o) ∈ eval_from me domains rand tmp state (local me) lockable migratory tree is_local up n ml'.
Proof.
  intros Hl Hsv Ho. induction tree as [|s t IH]; [set_solver|]. cbn [eval_from]. rewrite Hl by set_solver. cbn [negb].
  apply elem_of_app. apply elem_of_cons in Hsv as [->|Hsv].
  - left. apply list_elem_of_fmap. eauto.
  - right. apply IH; [|done]. intros s' Hs'. apply Hl. set_solver.
Qed.

(** A service that wants to run: it is neither disabled, failed, in recovery nor frozen, does not
    lack what it depends on, and has been started before or is to be started by itself. *)
Definition wanted (sv : service) (st : rg_state) : Prop :=
  frozen st = false /\ rs_state st <> RG_STATE_DISABLED /\ rs_state st <> RG_STATE_FAILED /\ rs_state st <> RG_STATE_RECOVER /\
  (forall n, check_depend (local n) sv <> 0) /\
  (rs_state st = RG_STATE_STOPPED -> rs_transition st <> 0 \/ autostarts (sv_autostart sv) = true).

Lemma consider_start_best sv st m ml' : same ml' ml -> members_ok ml -> m ∈ ml -> cn_member m <> 0 -> wanted sv st -> adrift st ml ->
  state (sv_name sv) = Some st -> is_exclusive_res (sv_exclusive sv) = false -> Forall (fun m => cn_svcexcl m = 0) ml' ->
  node_should_start domains (sv_domain sv) (Some st) (cn_nodeid m) ml = FOD_BEST ->
  consider_start (cn_nodeid m) domains rand tmp state (local (cn_nodeid m)) sv st ml' = [Enqueue RG_START (cn_nodeid m)].
Proof.
  intros Hs Hml Hm Hon (Hfr & Hdis & _ & _ & Hdep & Hauto) Had Hst Hex Hcount Hbest. unfold consider_start.
  destruct (same_member ml ml' m) as (m' & Hm' & Hcols); [done|done|]. injection Hcols as Hid _ _.
  assert (NoDup (cn_nodeid <$> ml')) as Hnd.
  { assert (cn_nodeid <$> ml' = cn_nodeid <$> ml) as ->; [|apply Hml]. apply (f_equal (fmap (fun c => c.1.1))) in Hs.
    by rewrite <- !list_fmap_compose in Hs. }
  rewrite <- Hid at 1. rewrite (proj2 (memb_find ml' m' Hnd Hm')), Hfr.
  assert ((rs_state st =? RG_STATE_STARTED) && (rs_owner st =? cn_nodeid m) = false) as ->.
  { destruct Had as [Hns|Ho]; [apply Z.eqb_neq in Hns; by rewrite Hns|]. apply andb_false_intro2, Z.eqb_neq. intros E.
    rewrite E, (proj1 (memb_find ml m (mo_ids ml Hml) Hm)) in Ho. done. }
  apply Z.eqb_neq in Hdis. rewrite Hdis.
  assert ((rs_state st =? RG_STATE_STOPPED) && (rs_transition st =? 0) && negb (autostarts (sv_autostart sv)) = false) as ->.
  { destruct (Z.eqb_spec (rs_state st) RG_STATE_STOPPED) as [E|]; [|done]. destruct (Hauto E) as [Ht| ->]; [|by rewrite andb_false_r].
    apply Z.eqb_neq in Ht. by rewrite Ht. }
  specialize (Hdep (cn_nodeid m)). apply Z.eqb_neq in Hdep. rewrite Hdep, Hex. cbn [andb].
  rewrite (proj1 (Forall_forall _ _) Hcount m' Hm'). cbn [c_true]. rewrite Hst, Hs, Hbest. done.
Qed.
End takeover.

(** C27: when a node goes down, every service that wants to run, is not running on a node
    that is left, and may run on one of them, is asked to start by one that is left: this
    node gets the event and puts the start of the service into its queue. All nodes see the
    same membership, with different ids and names, and the same record of the service, and
    get the locks of all services; no service is exclusive; and the nodes of a failover
    domain, with priorities up to 100, are named once and in the case of the membership
    ([takeover_by_case] has names in another case). *)
Theorem takeover_requested domains rand tmp state local lockable migratory tree sv st n old new x :
  members_ok new ->
  (forall name d, sv_domain sv = Some name -> find_domain domains name = Some d -> domain_ok d /\ names_match d new) ->
  (forall s, s ∈ tree -> lockable s = true) -> have_exclusive_resources tree = false ->
  sv ∈ tree -> state (sv_name sv) = Some st -> wanted local sv st -> adrift st new ->
  node_should_start domains (sv_domain sv) (Some st) x new <> FOD_ILLEGAL -> goes_down n old new ->
  exists m e, m ∈ new /\ cn_member m <> 0 /\ e ∈ membership_events (cn_nodeid m) false old new /\
    (sv, Enqueue RG_START (cn_nodeid m)) ∈
      node_event_orders (cn_nodeid m) domains rand tmp state (local (cn_nodeid m)) lockable migratory tree new e.
Proof.
  intros Hnew Hdom Hlock Hex Hsv Hst Hwant Had Hx Hdown.
  destruct (some_node_best domains (sv_domain sv) st new x Hnew Hdom Had Hx) as (m & Hm & Hon & Hbest).
  exists m, (mkEvent false n false). split_and!; [done..|apply lost_event; [done| |done]; by destruct new; [set_solver|]|].
  unfold node_event_orders, eval_groups. cbn [ne_local ne_state ne_nodeid andb negb].
  apply eval_from_elem; [done..|]. unfold eval_service. rewrite Hst. destruct Hwant as (? & Hdis & Hfail & Hrec & ?) eqn:E.
  rewrite (proj2 (Z.eqb_neq _ _) Hdis), (proj2 (Z.eqb_neq _ _) Hfail), (proj2 (Z.eqb_neq _ _) Hrec). cbn [orb andb negb].
  rewrite (consider_start_best domains rand tmp state local new sv st m); try done.
  - destruct (_ =? RG_STATE_STOPPED); set_solver.
  - apply count_same.
  - by eapply not_exclusive.
  - by apply count_no_exclusive.
Qed.

Module TakeoverSample.
Definition node (id up : Z) (name : string) : cman_node := mkNode id up name 0 0.
Definition old : members := [node 1 1 "ann"; node 2 1 "bob"; node 3 1 "cat"; node 0 0 "disk"].
Definition new : members := [node 1 0 "ann"; node 2 1 "bob"; node 3 1 "cat"; node 0 0 "disk"].
(** A domain of the nodes 1 and 2, in this order. *)
Definition dom (second : string) : fod := mkFod "web" [mkFodn "ann" 1 1; mkFodn second 2 2] (Z.lor FOD_ORDERED FOD_RESTRICTED).
Definition web : service := mkService "service:web" (Some "web"%string) None None None.
Definition state (name : string) : option rg_state := Some (mkRg 1 0 RG_STATE_STARTED 0 1000 0).
Definition orders (second : string) (me : Z) : list (service * order) :=
  membership_events me false old new ≫=
    node_event_orders me [dom second] (fun _ _ => 0) 1 state state (fun _ => true) (fun _ => false) [web] new.
End TakeoverSample.

Lemma takeover_requested_witness :
  exists m e, m ∈ TakeoverSample.new /\ cn_member m <> 0 /\ e ∈ membership_events (cn_nodeid m) false TakeoverSample.old TakeoverSample.new /\
    (TakeoverSample.web, Enqueue RG_START (cn_nodeid m)) ∈
      node_event_orders (cn_nodeid m) [TakeoverSample.dom "bob"] (fun _ _ => 0) 1 TakeoverSample.state TakeoverSample.state
        (fun _ => true) (fun _ => false) [TakeoverSample.web] TakeoverSample.new e.
Proof.
  apply (takeover_requested [TakeoverSample.dom "bob"] (fun _ _ => 0) 1 TakeoverSample.state (fun _ => TakeoverSample.state)
    (fun _ => true) (fun _ => false) [TakeoverSample.web] TakeoverSample.web (mkRg 1 0 RG_STATE_STARTED 0 1000 0) 1
    TakeoverSample.old TakeoverSample.new 2).
  - split; [apply (bool_decide_unpack _); vm_compute; exact I|]. unfold TakeoverSample.new.
    intros m Hm. repeat (apply elem_of_cons in Hm as [->|Hm]; [done|]). by apply not_elem_of_nil in Hm.
  - intros name d [= <-] [= <-]. split; [split|].
    + apply (bool_decide_unpack _). vm_compute. exact I.
    + intros n Hn. repeat (apply elem_of_cons in Hn as [->|Hn]; [cbn; lia|]). by apply not_elem_of_nil in Hn.
    + intros n m Hn Hm. repeat (apply elem_of_cons in Hn as [->|Hn]; [
        repeat (apply elem_of_cons in Hm as [->|Hm]; [done|]); by apply not_elem_of_nil in Hm|]). by apply not_elem_of_nil in Hn.
  - done.
  - done.
  - set_solver.
  - done.
  - repeat split; done.
  - right. done.
  - done.
  - split; [|done]. exists (TakeoverSample.node 1 1 "ann"). split; [set_solver|done].
Defined.

(** Node 2 and only node 2 asks for the service; with a capital letter in its name in the domain,
    nobody does, though the node counts as up. *)
Lemma takeover_by_case :
  TakeoverSample.orders "bob" 2 = [(TakeoverSample.web, Enqueue RG_START 2)] /\ TakeoverSample.orders "bob" 3 = [] /\
  TakeoverSample.orders "Bob" 2 = [] /\ TakeoverSample.orders "Bob" 3 = [].
Proof. by vm_compute. Qed.

(** ** The configuration *)

Lemma existsb_not_in {A} (f : A -> bool) l : existsb f l = false <-> forall x, x ∈ l -> f x = false.
Proof.
  induction l as [|a l IH]; cbn; [split; [set_solver|done]|]. rewrite orb_false_iff, IH. split.
  - intros [Ha Hl] x [->|Hx]%elem_of_cons; auto.
  - intros H. split; [apply H; set_solver|]. intros x Hx. apply H. set_solver.
Qed.

Definition domain_built (d : fod) : Prop :=
  domain_ok d /\ (flag (fd_flags d) FOD_ORDERED = false -> Forall (fun n => fdn_prio n = 0) (fd_nodes d)).

Lemma fod_get_node_ok c base idx d n : domain_built d -> fod_get_node c base idx d = Some n ->
  domain_built (mkFod (fd_name d) (fd_nodes d ++ [n]) (fd_flags d)).
Proof.
  intros [Hd Hun] Hn. unfold fod_get_node in Hn. destruct (c _) as [name|]; [|done].
  destruct (existsb _ _) eqn:Ex; [done|]. rewrite existsb_not_in in Ex.
  set (id := match c _ with None => -1 | Some v => atoi v end) in Hn. clearbody id.
  assert (fdn_name n = name /\ 0 <= fdn_prio n <= 100 /\ (flag (fd_flags d) FOD_ORDERED = false -> fdn_prio n = 0)) as (Hname & Hprio & Hp0).
  { destruct (flag (fd_flags d) FOD_ORDERED); cbn [negb] in Hn; [|by injection Hn as <-].
    destruct (c _) as [v|]; injection Hn as <-; [|done]. cbn. destruct ((_ >? 100) || _) eqn:E; [done|].
    apply orb_false_iff in E as [? ?]. split_and!; [done|lia..|done]. }
  split; [split|]; cbn [fd_nodes fd_flags].
  - rewrite fmap_app. apply NoDup_app. split_and!; [apply Hd| |apply NoDup_singleton].
    intros s (n' & -> & Hn')%list_elem_of_fmap E%list_elem_of_singleton. cbn in E. specialize (Ex n' Hn').
    apply not_true_iff_false in Ex. apply Ex, strcaseeq_lowered. congruence.
  - intros n' [Hn'|Hn'%list_elem_of_singleton]%elem_of_app; [by apply (do_prio d Hd)|by subst].
  - intros H0. apply Forall_app. split; [auto|]. apply Forall_singleton. auto.
Qed.

Lemma fod_get_nodes_ok fuel c base : forall x d, domain_built d -> domain_built (fod_get_nodes fuel c base x d).
Proof.
  induction fuel as [|fuel IH]; intros x d Hd; [done|]. cbn [fod_get_nodes].
  destruct (fod_get_node c base x d) as [n|] eqn:E; [|done]. apply IH. by eapply fod_get_node_ok.
Qed.

Lemma fod_get_nodes_name fuel c base : forall x d, fd_name (fod_get_nodes fuel c base x d) = fd_name d.
Proof.
  induction fuel as [|fuel IH]; intros x d; [done|]. cbn [fod_get_nodes]. destruct (fod_get_node c base x d); [|done]. by rewrite IH.
Qed.

Definition domains_ok (ds : list fod) : Prop := Forall domain_built ds /\ NoDup (lowered ∘ fd_name <$> ds).

Lemma fod_get_domain_ok fuel c base idx ds d : domains_ok ds -> fod_get_domain fuel c base idx ds = Some d -> domains_ok (ds ++ [d]).
Proof.
  intros [Hds Hnd] Hd. unfold fod_get_domain in Hd. destruct (c _) as [name|]; [|done].
  destruct (existsb _ _) eqn:Ex; [done|]. rewrite existsb_not_in in Ex. injection Hd as <-. split.
  - apply Forall_app. split; [done|]. apply Forall_singleton, fod_get_nodes_ok.
    split; [split; [apply NoDup_nil_2|intros n Hn; by apply not_elem_of_nil in Hn]|]. by constructor.
  - rewrite fmap_app. apply NoDup_app. split_and!; [done| |apply NoDup_singleton].
    intros s (d & -> & Hd)%list_elem_of_fmap E%list_elem_of_singleton. cbn in E. rewrite fod_get_nodes_name in E. cbn in E.
    specialize (Ex d Hd). apply not_true_iff_false in Ex. by apply Ex, strcaseeq_lowered.
Qed.

(** C40: Whatever the configuration holds, the domains that are read have nodes with different
    names, whatever their case, priorities from 0 to 100, and none at all in a domain
    without an order; and no two domains have the same name. *)
Theorem construct_domains_ok fuel c : domains_ok (construct_domains fuel c []).
Proof.
  unfold construct_domains. assert (forall ds x, domains_ok ds -> domains_ok (fod_get_domains fuel c "/cluster/rm/failoverdomains" x ds)) as H.
  2: { apply H. split; [constructor|apply NoDup_nil_2]. }
  induction fuel as [|fuel IH]; intros ds x Hds; [done|]. cbn [fod_get_domains].
  destruct (fod_get_domain (S fuel) c _ x ds) as [d|] eqn:E; [|done]. apply IH. by eapply fod_get_domain_ok.
Qed.

(** The loop ends at the first node without a name. *)
Lemma fod_get_nodes_enough c base k : forall fuel x d, (k < fuel)%nat ->
  c (xpath (base +:+ "/failoverdomainnode[" +:+ pretty (x + Z.of_nat k) +:+ "]/@name")) = None ->
  fod_get_nodes fuel c base x d = fod_get_nodes (S k) c base x d.
Proof.
  induction k as [|k IH]; intros [|fuel] x d Hk Hc; try lia; cbn [fod_get_nodes].
  - unfold fod_get_node. rewrite Z.add_0_r in Hc. by rewrite Hc.
  - destruct (fod_get_node c base x d); [|done]. apply IH; [lia|]. by replace (x + 1 + Z.of_nat k) with (x + Z.of_nat (S k)) by lia.
Qed.

(** ** The nodes of a domain by priority *)

Section domain_set.
Context (rand : Z -> nat -> Z) (nodes : list fod_node).

Definition level (i : Z) : list Z := fdn_nodeid <$> filter (fun n => fdn_prio n = i) nodes.

Definition shuffled (i : Z) : list Z :=
  let ts := s_add_all [] (level i) in if (1 <? length ts)%nat then s_shuffle (rand i) ts else ts.

Lemma add_prio_all ret lv : foldl (add_prio rand nodes) ret lv = s_add_all ret (mjoin (shuffled <$> lv)).
Proof. revert ret. induction lv as [|i lv IH]; intros ret; [done|]. cbn. rewrite s_add_all_app, IH. done. Qed.

Lemma firsts_id l : NoDup l -> firsts l = l.
Proof.
  induction l as [|x l IH] using rev_ind; [done|]. intros (Hnd & Hx & _)%NoDup_app. rewrite firsts_snoc, IH by done.
  rewrite bool_decide_false; [done|]. intros H. apply (Hx x H). set_solver.
Qed.

Hypothesis (Hids : NoDup (fdn_nodeid <$> nodes)).

Lemma level_NoDup i : NoDup (level i).
Proof.
  unfold level. apply NoDup_fmap_2_strong; [|apply NoDup_filter; by eapply NoDup_fmap_1].
  intros a b [_ Ha]%list_elem_of_filter [_ Hb]%list_elem_of_filter. by apply (NoDup_fmap_eq fdn_nodeid nodes).
Qed.

Lemma shuffled_perm i : shuffled i ≡ₚ level i.
Proof.
  unfold shuffled. rewrite s_add_all_firsts, firsts_id by apply level_NoDup. cbn zeta. destruct (_ <? _)%nat; [apply s_shuffle_perm|done].
Qed.

Lemma levels_NoDup lv : NoDup lv -> NoDup (mjoin (shuffled <$> lv)).
Proof.
  induction lv as [|i lv IH]; [intros _; apply NoDup_nil_2|]. intros [Hi Hnd]%NoDup_cons. cbn. apply NoDup_app. split_and!; [| |auto].
  - rewrite shuffled_perm. apply level_NoDup.
  - intros a Ha Hb. rewrite shuffled_perm in Ha. apply list_elem_of_join in Hb as (l & Hal & (j & -> & Hj)%list_elem_of_fmap).
    rewrite shuffled_perm in Hal. apply list_elem_of_fmap in Ha as (n1 & -> & [<- H1]%list_elem_of_filter).
    apply list_elem_of_fmap in Hal as (n2 & E & [<- H2]%list_elem_of_filter).
    by rewrite (NoDup_fmap_eq fdn_nodeid nodes n1 n2) in Hi.
Qed.
End domain_set.

(** The set of a domain: its nodes by priority, at random within one, those without a
    priority last. *)
Lemma node_domain_set_levels domains name rand tmp l fl d : find_domain domains name = Some d ->
  NoDup (fdn_nodeid <$> fd_nodes d) -> node_domain_set domains name rand tmp = Some (l, fl) ->
  fl = fd_flags d /\ exists levels, (forall i, levels i ≡ₚ level (fd_nodes d) i) /\
    l = mjoin (levels <$> (if flag (fd_flags d) FOD_ORDERED then seqZ 1 100 else []) ++ [0]).
Proof.
  intros Hd Hids. unfold node_domain_set. rewrite Hd. destruct (tmp =? 0); [done|]. cbn zeta. set (l' := add_prio _ _ _ 0). intros [= <- <-]. split; [done|].
  unfold l'. exists (shuffled rand (fd_nodes d)). split; [intros i; by apply shuffled_perm|].
  set (lv := if flag (fd_flags d) FOD_ORDERED then seqZ 1 100 else []).
  assert (NoDup (lv ++ [0])) as Hnd.
  { unfold lv. destruct (flag _ _); [|apply NoDup_singleton]. apply NoDup_app. split_and!; [apply NoDup_seqZ| |apply NoDup_singleton].
    intros x Hx%elem_of_seqZ Hx'%list_elem_of_singleton. lia. }
  replace (if flag (fd_flags d) FOD_ORDERED then foldl (add_prio rand (fd_nodes d)) [] (seqZ 1 100) else [])
    with (foldl (add_prio rand (fd_nodes d)) [] lv) by (unfold lv; by destruct (flag _ _)).
  rewrite <- (foldl_snoc (add_prio rand (fd_nodes d))), add_prio_all, s_add_all_firsts, firsts_id; try done. by apply levels_NoDup.
Qed.

Lemma domain_set_elem d levels : domain_built d -> (forall i, levels i ≡ₚ level (fd_nodes d) i) -> forall id,
  id ∈ mjoin (levels <$> (if flag (fd_flags d) FOD_ORDERED then seqZ 1 100 else []) ++ [0]) <-> id ∈ fdn_nodeid <$> fd_nodes d.
Proof.
  intros [Hok Hun] Hl id. rewrite list_elem_of_join. split.
  - intros (l & Hin & (i & -> & _)%list_elem_of_fmap). rewrite Hl in Hin.
    apply list_elem_of_fmap in Hin as (n & -> & [_ Hn]%list_elem_of_filter). by apply list_elem_of_fmap_2.
  - intros (n & -> & Hn)%list_elem_of_fmap. exists (levels (fdn_prio n)). split.
    + rewrite Hl. apply list_elem_of_fmap_2, list_elem_of_filter. done.
    + apply list_elem_of_fmap_2, elem_of_app. pose proof (do_prio d Hok n Hn) as Hp.
      destruct (flag (fd_flags d) FOD_ORDERED); [|rewrite (proj1 (Forall_forall _ _) (Hun eq_refl) n Hn); right; set_solver].
      destruct (decide (fdn_prio n = 0)) as [->|]; [right; set_solver|left; apply elem_of_seqZ; lia].
Qed.

(** A service whose domain is restricted is stopped exactly when no node of the domain is up. *)
Theorem rdomain_crash_stops domains rand tmp sv ml name d : sv_domain sv = Some name -> find_domain domains name = Some d ->
  domain_built d -> NoDup (fdn_nodeid <$> fd_nodes d) -> tmp <> 0 ->
  check_rdomain_crash domains rand tmp sv ml = [Enqueue RG_STOP 0] <->
  flag (fd_flags d) FOD_RESTRICTED = true /\ forall n, n ∈ fd_nodes d -> fdn_nodeid n ∉ member_online_set ml.
Proof.
  intros Hname Hd Hb Hids Ht. unfold check_rdomain_crash. rewrite Hname.
  destruct (node_domain_set domains name rand tmp) as [[l fl]|] eqn:E.
  2: { unfold node_domain_set in E. rewrite Hd in E. apply Z.eqb_neq in Ht. by rewrite Ht in E. }
  destruct (node_domain_set_levels domains name rand tmp l fl d Hd Hids E) as (-> & levels & Hl & ->).
  destruct (flag (fd_flags d) FOD_RESTRICTED); cbn [negb]; [|split; [done|by intros [? _]]].
  unfold s_intersection. rewrite s_isect_left_all, s_add_all_firsts. pose proof (domain_set_elem d levels Hb Hl) as Hel.
  set (ids := mjoin _) in *. destruct (firsts _) as [|a r] eqn:F.
  - split; [|done]. intros _. split; [done|]. intros n Hn Hon.
    assert (fdn_nodeid n ∈ firsts (filter (.∈ member_online_set ml) ids)) as H; [|rewrite F in H; by apply not_elem_of_nil in H].
    apply elem_of_firsts, list_elem_of_filter. split; [done|]. apply Hel. by apply list_elem_of_fmap_2.
  - split; [done|]. intros [_ Hno]. exfalso.
    assert (a ∈ firsts (filter (.∈ member_online_set ml) ids)) as H by (rewrite F; set_solver).
    apply elem_of_firsts, list_elem_of_filter in H as [Ha Hin].
    apply Hel, list_elem_of_fmap in Hin as (n & -> & Hn). by apply (Hno n Hn).
Qed.
